(* ===== verification/_CoqProject ===== *)
-Q . S2P
Prelude.v
GoStrings.v
Caps.v
Scope.v
Sets.v
Reach.v
Attenuate.v
Delegate.v
View.v
WhatIf.v
Wire.v
Wal.v
TaskStore.v
Replay.v
Topic.v
TaskState.v
BoardReach.v
Board.v
FileStore.v
StoreMirror.v
BoardLaws.v
BoardSpec.v
Archive.v
Frames.v
VtScan.v
TermMode.v
Utf8.v
Mux.v
Paths.v
Registry.v
Scheduler.v
RunnerHandler.v
Gates.v
BoardHandlers.v
Keys.v
Auth.v
GrantHandlers.v
Submit.v
PubSub.v
VtStatus.v
VtGrid.v
VtTerm.v
VtTermLaws.v
VtAnsi.v
VtRepaint.v
