(* ===== verification/Prelude.v ===== *)
(** * agent-harness: a verification library

    agent-harness runs coding agents as _tasks_ on remote _runners_ under one
    _server_.  A task may spawn, control and watch other tasks; what it may do is
    its _grant_ (a capability mask and a scope, and a bound on what it may hand
    down), and tasks talk to each other over an in-memory message _board_.  The
    server is the only writer of the state modelled here.

    ** The parts and how they fit

    - [src/authority/] decides.  It is pure: scopes, target sets, attenuation on
      spawn, clamping on a cascade, delegation bounds, the reports that explain a
      grant.
    - [src/server/taskstore.go] keeps every task's entry and lifecycle and writes
      each change to a write-ahead log ([wal.go], [scope.go]); a restart replays
      the log, [restore.go] undoes a prune from it.
    - [src/agentboard/] is the board: topics with bounded rings, per-task
      subscriptions, contacts and waits, and the rules for who may read and
      publish where, which ask the task store and, for one capability, the
      authority package.  Topics that are retained are mirrored to a store
      ([filestore.go]), one append-only log per topic, which a restart loads.
    - [src/server/registry.go] keeps the connected runners, the identity each holds
      and the tasks each runs; [scheduler.go] matches Queued tasks to them by
      repository root ([runner/protocol/pathmatch.go]), selector and profile, and
      hands one over with a ticket the board then accepts ([boardkey.go]).
    - [src/server/runner_handler.go] and [readopt.go] apply what runners say to
      registry, store and board; a connection's end fails the tasks on it.
    - [src/server/session_mux.go] sits between one interactive task's runner and
      the clients attached to it: it records the output in a bounded ring, keeps the
      terminal's modes ([src/termmode/]), fans frames out to observers, and
      forwards what each client may send.  A client that joins gets a replay of the
      ring, cut at a safe boundary ([replay_ground_scan.go]) and stripped of the
      sequences its terminal would answer ([replay_query_strip.go]); a session held
      across a restart is drawn from the screen model of [src/vtgrid/].
    - [src/server/psk.go] lets a connection in: a client proves the operator secret
      or its task's ticket, a runner a key enrolled in [runnerkeys.go].
      [capabilities.go] then asks, of each request, whether the caller's grant covers
      the verb and the target; [task_handler.go], [set_caps_handler.go] and
      [set_parent_handler.go] apply it to the store and registry, and
      [board_handler.go], [agent_taskcontrol.go] and [board_archive_handler.go] to the
      board, for operators and for agents.
    - [src/pubsub/] carries events and task logs to subscribers; the server decides
      who may join and who is shown what ([pubsub_authz.go]).

    ** Files

    - [Prelude]: machine words, bit lemmas, list lemmas, the [result] type, the
      hint databases.  [GoStrings]: the strings, hex and sort functions used.
    - [Caps], [Scope], [Sets]: [authority/attach.go], [scope.go], [sets.go] and the
      capability enumeration.  [Reach], [Attenuate]: [reach.go], [attenuate.go].
      [Delegate]: [delegate.go].  [View], [WhatIf]: [view.go], [whatif.go].
      [Wire]: [wire.go] and the generated codec of the scope structures.
    - [Wal]: the event record of [server/wal.go] and the projections of
      [server/scope.go].  [TaskStore]: [server/taskstore.go], one function per
      method.  [Replay]: [ReplayEvents] and [server/restore.go].
    - [Topic]: [agentboard/topic.go] and [mergeNewest] of [flush.go].  [TaskState]:
      [agentboard/taskstate.go].  [BoardReach]: [agentboard/reach.go], [ids.go], the
      membership rules of [membership.go], and [server/taskstore_reach.go].
    - [Board]: [agentboard/board.go], [retention.go], [flush.go], [membership.go],
      one function per operation on the record [Board]; the store is the class
      [BoardStore], known to the board by the calls it made.  [FileStore]:
      [filestore.go], a log as its list of records, and the instance [file_store].
      [StoreMirror]: what a topic and its log have in common, and how each store
      call keeps it.  [BoardLaws]: the invariant [binv] of the board on the file
      store and that every operation keeps it ([step_binv]).  [BoardSpec]: what
      follows for any sequence of operations.  [Archive]: [archive.go] and
      [archive_store.go], a directory of frozen logs.
    - [Frames]: [server/ring_buffer.go], [notify_ring.go], the frame format and
      [exec_frame_scan.go].  [VtScan]: [replay_ground_scan.go],
      [replay_query_strip.go] and [capReplayTail].  [TermMode]:
      [termmode/tracker.go].  [Mux]: [session_mux.go], as events of one state.
    - [Paths]: [runner/protocol/pathmatch.go] and [agent_profile_name.go].
      [Registry]: [server/registry.go], with [registry_reach] the states its
      operations lead to.  [Scheduler]: the record [Server] joins registry, store
      and board; [scheduler.go], [sendAssign], [TryDispatch] and [OnCancel] of
      [dispatch.go], and the sweep of [hold.go].  [RunnerHandler]: the hello and the
      task reports of [runner_handler.go], [readopt.go], the end of a connection and
      the opening of a session on a runner, with [server_reach] the states these, the
      scheduler and the store's other operations lead to.
    - [Gates]: [server/capabilities.go], [task_event_audience.go] and the rows of
      [handleList].  [Keys]: [runnerkeys.go], [runnerdials.go] and the verbs on them.
      [Auth]: [psk.go], the recorded identity and the receive loop of a connection.
      [GrantHandlers]: [set_caps_handler.go], [set_parent_handler.go], and the cancel
      and prune cases of [task_handler.go].  [Submit]: submit and interactive open of
      [task_handler.go], fresh and resumed, and [candidates.go].  [BoardHandlers]: the
      board requests of both faces from the gate to the answer; a connection keeps its
      task's state ([conn_task]) also after the board has revoked it, and [served] is
      the boards and archives requests and the server's own steps lead to.
    - [PubSub]: [src/pubsub/], [src/topics/], [pubsub_authz.go] and
      [notify_replay.go], a system of subscribers, streams and publishers in steps: a
      join is the authorizer's answer and then the locked half, a delivery its pick
      and then its write.
    - [Utf8]: the UTF-8, base64 and number functions the terminal and the key files
      use.  [VtStatus]:
      [vtgrid/program_status.go] and the title and status sequences of [repaint.go].
      [VtGrid]: [cell.go], [screen.go].  [VtTerm]: [sidetable.go], [terminal.go],
      [csi.go]; its invariant is in [VtTermLaws].  [VtAnsi]: [ansi.go] and
      [Repaint]; [VtRepaint]: what a repaint does to the terminal that reads it.

    ** How the code is represented

    A [uintW] is an [N], a bit test [m&c != 0] is [has m c]; a Go map is a [gmap],
    a map used as a set a [gset], a slice a list.  A method that runs under a mutex
    is one function on the record it guards; every reading of the clock and the
    random task id are arguments.  Records are updated with [r{{ f := v }}].  An
    error result is a [result], an option or a status; a runtime panic is [None].
    A nil granter or reach is [None], the operator.  Log writes succeed: the source
    reports a failed one and goes on.  The interface [ReachSource] is a class with
    its laws, and the task store is its instance.  Where goroutines interleave (the
    session mux) each region under the lock, and each send, is an event, and the
    theorems are about every sequence of events; so too in the broker, where
    the pick and the write of a delivery and each read of a stream are steps of their
    own, and in the dial records, where the test for a duplicate and the addition are.
    The screen behind a mux is an abstract function of the output, and the screen
    model of its own files is the code behind it.  Key derivation, the MAC,
    signature verification, the decoder of the handshake and the width of a rune
    are parameters: they are third-party or generated code.  Whether the transport
    hands over messages after its context was cancelled is an argument of [receive].

    ** What the theorems show

    - No escalation: what [Attenuate], [ClampUnder], [ChildScope], [ChildBound],
      [ClampDescendant] and a cascading re-grant produce stays inside the granter,
      for every exercised bit and for visibility, over every later index of the tree
      that has only grown ([Confined]), when the granter's scope is consistent and of
      known bases; refusals are typed after their cause.
    - The reports agree with the gates: [ReachOf], [DelegableOf], [WhatIf],
      [WiderThanParent], [CoversNewChild], and the reach cache.
    - Round trips: a scope through the wire codec, a task store through its log,
      a pruned task through a restore, a topic through a flush and a refill.
    - Lifecycle: a status changes only along the documented edges, as long as
      [Assign] and [Finish] are called from the states their comments allow.
    - The board: a topic's invariant; delivery exactly once per task; a withdrawal
      and a purge are final; no wake is lost or repeated; contacts are bounded and
      stay cleared; tree topics belong to a lineage.  For any sequence of
      operations: no panic, the configured bounds hold, a lookup by seq is exact, a
      publish gets a fresh seq and never costs a retained topic, only the author
      withdraws, and a restart from the log keeps every retained topic's live
      messages, marks, members and floor ([retained_topics_survive_restart]).  An
      archive pages as its topic did and changes only by purges that name it.
    - The session: the ring is the longest tail that fits; the frame scanner and
      the forwarding of input do not depend on how the stream is cut; a replay
      starts at a sequence boundary, on the right screen, without queries; the
      preamble carries the tracked modes; an observer misses no frame and sends only
      what it may.
    - Runners: none is given more than its limit; an identity has one holder and
      changes hands only with its key; the candidates for a repository are those
      with the deepest root over it, and a root is over a path by whole elements.
      A scheduling pass hands a task to one runner that may have it, rolls a failed
      send back, and leaves no idle runner without work it could do; a cancel takes
      the agent's ticket at once; a sweep fails exactly the holds that ran out.
      As long as each of these runs as a whole, a live task is reserved on a registered
      runner, whose disconnect ends it; a reconnecting runner gets back exactly its
      held tasks.
    - Requests: a message is handled only for the principal the connection proved;
      a task an agent starts is confined by its creator through every gate and in
      every listing; an exact resume restores what was recorded; [caps set] is its
      own preview; moving tasks keeps the tree a forest; cancel and prune need
      authority; a board request does to the board only what its caller is entitled
      to, and shows an agent only what it may read; a listing and the status events show
      a caller the same tasks in the same form; the key and dial stores survive a
      restart.
    - The broker: its tables agree in every interleaving; a subscriber reads the
      backlog and then the publications, in each writer's order; a task log reaches
      only those who might view the task when it was picked for them, from the runner
      that owned it when it joined; frames survive
      any cut of the stream.
    - The screen: no bytes and no resize make the terminal panic or leave its shape;
      scrolling moves its region and nothing else; a repaint makes any other
      terminal of the size that is between sequences show the same screen.
    - Where the code does less than its comments say, a closed theorem shows it:
      an unrecognised base byte in [Attenuate], [exclude_self] under a global bound,
      a listed own id in [IsNarrowing], the visibility of a [board_observe] task
      after a restart, an assignment after a cancel, the order of withdrawn
      messages, a late wait, a wait that outlives its right, a connection that outlives
      its task's registration, a purge ahead of the counter, a retried [Retain], a
      spliced and a missed query, control frames in [capReplayTail], a mode after a
      cut sequence, a live frame before the replay, the screen after a restored
      capture, a task below a root that is never scheduled, a ticket left by a
      failed send, a resumed task ended by its first run's late report or by the
      teardown of a displaced connection, an override that acts outside what is
      shown, a key whose removal failed to be written, a label that is not UTF-8, two
      dial records of one candidate, an open that overbooks a runner, a connection
      whose ticket went before its identity was recorded, an open that tells the
      capabilities of an unseen task, and the terminal's departures
      ([terminal_departures], [tab_loops_settle]).

    ** Fuel and bounds

    [cap_loop] runs 33 rounds, one more than a 32-bit mask has bits.
    [descendants_loop] gets two rounds more than the index has edges, and any more
    is proved to change nothing.  [drop_leading] gets one round per character.
    [member_loop] runs [Len + 1] rounds as in the source, and is proved to decide
    ancestry within them.  The loops over a byte stream ([scan_loop],
    [strip_frames], [cap_loop_frames], [forward_frames], [load_frames]) get one
    round per byte, and each turn consumes at least one; decimal printing gets 20
    digits, enough for 64 bits; [page_live] takes its fuel as an argument, each
    turn reading a page of older messages, and a turn per message is proved enough
    for an archive.  [next_loop] is structural in the reads of
    the stream and [read_all], which reads to its end, is proved to settle;
    [clean_from] and [sanitize_from] get one round per byte, [sgr_from] one per
    parameter.  [repeat_op] iterates as often as the code's loop, by binary
    iteration.  Everything else is structural.

    ** Not modelled

    Lock regions inside one board operation; buffering, torn tails, unreadable
    lines and I/O errors of the file store (a store that fails is one more instance
    of [BoardStore]) and of its archives; the JSON text of the write-ahead log and
    its file; the steps of other goroutines inside a scheduling pass or a request
    handler, but for the two halves of a wait and of a dial addition; the hold sequence; the handlers that only splice streams between a
    client and a runner or read files (transfers, forwards, exec, git queries,
    logs); the colours of [cell.go] as displays show them; transport, runner
    processes and user interfaces, which are I/O around this core; the generated
    codecs other than those of scopes and frames. *)

From stdpp Require Import prelude gmap strings list sorting pretty.
From Stdlib Require Import NArith.

Open Scope N_scope.
Open Scope stdpp_scope.
Set Default Goal Selector "!".

(** ** Machine words

    A [uintW] of the source is an [N]; the operators that can leave the width
    are followed by the corresponding truncation. *)

Definition uint8 (x : N) : N := x `mod` 2 ^ 8.
Definition uint16 (x : N) : N := x `mod` 2 ^ 16.
Definition uint32 (x : N) : N := x `mod` 2 ^ 32.

(** [m&c != 0]: the test the source writes for "some bit of [c] is in [m]". *)
Definition has (m c : N) : bool := negb (N.land m c =? 0).

Declare Scope go_scope.
Delimit Scope go_scope with go.
Notation "a .&. b" := (N.land a b) (at level 40, left associativity) : go_scope.
Notation "a .|. b" := (N.lor a b) (at level 50, left associativity) : go_scope.
Notation "a .&^. b" := (N.ldiff a b) (at level 40, left associativity) : go_scope.
Open Scope go_scope.

(** A mask with exactly one bit set. *)
Definition single (c : N) : Prop := ∃ i, c = 2 ^ i.

(** ** Automation shared by every file *)

Create HintDb harness.
Create Rewrite HintDb harness.

(** Case on the next [if]/[match] of the goal, keeping the equation. *)
Ltac case_step :=
  match goal with
  | |- context [if ?b then _ else _] => destruct b eqn:?
  | |- context [match ?x with _ => _ end] => destruct x eqn:?
  end.

(** Turn boolean tests in the context into the propositions they decide. *)
Ltac breflect :=
  repeat match goal with
  | H : _ && _ = true |- _ => apply andb_true_iff in H as [? ?]
  | H : _ || _ = false |- _ => apply orb_false_iff in H as [? ?]
  | H : negb _ = true |- _ => apply negb_true_iff in H
  | H : negb _ = false |- _ => apply negb_false_iff in H
  | H : (_ =? _)%N = true |- _ => apply N.eqb_eq in H
  | H : (_ =? _)%N = false |- _ => apply N.eqb_neq in H
  | H : (_ <? _)%N = true |- _ => apply N.ltb_lt in H
  | H : (_ <? _)%N = false |- _ => apply N.ltb_ge in H
  | H : (_ <=? _)%N = true |- _ => apply N.leb_le in H
  | H : (_ <=? _)%N = false |- _ => apply N.leb_gt in H
  | H : bool_decide _ = true |- _ => apply bool_decide_eq_true in H
  | H : bool_decide _ = false |- _ => apply bool_decide_eq_false in H
  end.

(** ** Bits *)

Section bits.
Implicit Types a b c m : N.

Lemma has_pow2 m i : has m (2 ^ i) = N.testbit m i.
Proof.
  unfold has. destruct (N.testbit m i) eqn:E.
  - apply negb_true_iff, N.eqb_neq. intros H.
    assert (N.testbit (N.land m (2 ^ i)) i = false) as F by (rewrite H; apply N.bits_0).
    rewrite N.land_spec, E, N.pow2_bits_true in F. done.
  - apply negb_false_iff, N.eqb_eq, N.bits_inj_0. intros j.
    rewrite N.land_spec, N.pow2_bits_eqb.
    destruct (N.eqb_spec i j) as [->|]; [by rewrite E|apply andb_false_r].
Qed.

Lemma has_land a b c : single c → has (a .&. b) c = has a c && has b c.
Proof. intros [i ->]. rewrite !has_pow2. apply N.land_spec. Qed.

Lemma has_lor a b c : single c → has (a .|. b) c = has a c || has b c.
Proof. intros [i ->]. rewrite !has_pow2. apply N.lor_spec. Qed.

Lemma has_ldiff a b c : single c → has (a .&^. b) c = has a c && negb (has b c).
Proof. intros [i ->]. rewrite !has_pow2. apply N.ldiff_spec. Qed.

Lemma has_0 c : has 0 c = false.
Proof. unfold has. by rewrite N.land_0_l. Qed.

Lemma has_same c : single c → has c c = true.
Proof. intros [i ->]. rewrite has_pow2. apply N.pow2_bits_true. Qed.

Lemma has_other b c : single b → single c → has b c = bool_decide (b = c).
Proof.
  intros [i ->] [j ->]. rewrite has_pow2, N.pow2_bits_eqb.
  destruct (N.eqb_spec i j) as [->|Hne].
  - by rewrite bool_decide_eq_true_2.
  - rewrite bool_decide_eq_false_2; [done|]. intros H. apply Hne.
    apply (N.pow_inj_r 2); [lia|done].
Qed.

Lemma has_nonzero m c : has m c = true → m ≠ 0.
Proof. intros H ->. by rewrite has_0 in H. Qed.

(** A nonzero mask has some single bit. *)
Lemma nonzero_has m : m ≠ 0 → ∃ c, single c ∧ has m c = true.
Proof.
  intros H. exists (2 ^ N.log2 m). split; [by eexists|].
  rewrite has_pow2. by apply N.bit_log2.
Qed.

(** Masks are determined by their single bits. *)
Lemma has_ext a b : (∀ c, single c → has a c = has b c) → a = b.
Proof.
  intros H. apply N.bits_inj. intros i. rewrite <-!has_pow2. apply H. by eexists.
Qed.
End bits.

#[export] Hint Rewrite has_land has_lor has_ldiff using done : harness.
#[export] Hint Rewrite has_0 : harness.

(** Push [has _ c] through the mask operators, [c] being a known single bit. *)
Ltac push_has :=
  repeat first
    [ rewrite has_land by done | rewrite has_lor by done
    | rewrite has_ldiff by done | rewrite has_0 ].
Ltac push_has_in H :=
  repeat first
    [ rewrite has_land in H by done | rewrite has_lor in H by done
    | rewrite has_ldiff in H by done | rewrite has_0 in H ].

(** ** Lists *)

(** The first element of [l] that passes [f]: a Go [for range] loop that
    returns on its first hit. *)
Fixpoint find_first {A} (f : A → bool) (l : list A) : option A :=
  match l with
  | [] => None
  | x :: l' => if f x then Some x else find_first f l'
  end.

Section lists.
Context {A : Type}.
Implicit Types (f g : A → bool) (l : list A).

Lemma find_first_Some f l x : find_first f l = Some x → x ∈ l ∧ f x = true.
Proof.
  induction l as [|y l IH]; simpl; [done|]. destruct (f y) eqn:E.
  - intros [= ->]. split; [by left|done].
  - intros [? ?]%IH. split; [by right|done].
Qed.

Lemma find_first_None f l : find_first f l = None ↔ ∀ x, x ∈ l → f x = false.
Proof.
  induction l as [|y l IH]; simpl.
  - split; [intros _ x Hx; by apply not_elem_of_nil in Hx|done].
  - destruct (f y) eqn:E.
    + split; [done|]. intros H. specialize (H y ltac:(by left)). congruence.
    + rewrite IH. split.
      * intros H x [->|Hx]%elem_of_cons; auto.
      * intros H x Hx. apply H. by right.
Qed.

Lemma find_first_app f l1 l2 :
  find_first f (l1 ++ l2) =
    match find_first f l1 with Some x => Some x | None => find_first f l2 end.
Proof. induction l1 as [|y l1 IH]; simpl; [done|]. by destruct (f y). Qed.

Lemma find_first_ext f g l :
  (∀ x, x ∈ l → f x = g x) → find_first f l = find_first g l.
Proof.
  induction l as [|y l IH]; simpl; intros H; [done|].
  rewrite <-(H y) by (by left). rewrite IH; [done|]. intros x Hx. apply H. by right.
Qed.

Lemma existsb_elem_of f l : existsb f l = true ↔ ∃ x, x ∈ l ∧ f x = true.
Proof.
  rewrite existsb_exists. split; intros (x & Hx & Hf); exists x;
    split; try done; by apply list_elem_of_In.
Qed.

Lemma forallb_elem_of f l : forallb f l = true ↔ ∀ x, x ∈ l → f x = true.
Proof.
  rewrite forallb_forall. split; intros H x Hx; apply H; by apply list_elem_of_In.
Qed.

Lemma existsb_false_elem_of f l : existsb f l = false ↔ ∀ x, x ∈ l → f x = false.
Proof.
  rewrite <-not_true_iff_false, existsb_elem_of. split.
  - intros H x Hx. destruct (f x) eqn:E; [|done]. destruct H; eauto.
  - intros H (x & Hx & Hf). rewrite H in Hf; done.
Qed.

Lemma existsb_ext_elem f g l : (∀ x, x ∈ l → f x = g x) → existsb f l = existsb g l.
Proof.
  induction l as [|y l IH]; intros H; [done|]. cbn.
  rewrite (H y) by (by left). rewrite IH; [done|]. intros x Hx. apply H. by right.
Qed.

Lemma forall_elem_singleton (P : A → Prop) y : (∀ x, x ∈ [y] → P x) ↔ P y.
Proof.
  split; [intros H; apply H; by left|]. intros H x Hx. by apply list_elem_of_singleton in Hx as ->.
Qed.

Lemma forall_elem_nil (P : A → Prop) : (∀ x, x ∈ [] → P x) ↔ True.
Proof. split; [done|]. intros _ x Hx. by apply not_elem_of_nil in Hx. Qed.

Lemma filter_id (P : A → Prop) `{!∀ x, Decision (P x)} l :
  (∀ x, x ∈ l → P x) → filter P l = l.
Proof.
  induction l as [|x l IH]; intros Hl; [done|].
  rewrite filter_cons_True by (apply Hl; by left). f_equal. apply IH. intros y Hy. apply Hl. by right.
Qed.

Lemma filter_ext_elem (P Q : A → Prop) `{!∀ x, Decision (P x)} `{!∀ x, Decision (Q x)} l :
  (∀ x, x ∈ l → P x ↔ Q x) → filter P l = filter Q l.
Proof.
  induction l as [|x l IH]; intros Hl; [done|]. rewrite !filter_cons.
  rewrite IH by (intros y Hy; apply Hl; by right).
  assert (P x ↔ Q x) as Hx by (apply Hl; by left). repeat case_decide; tauto.
Qed.

Lemma elem_of_flat_map {B} (h : A → list B) l (y : B) :
  y ∈ flat_map h l ↔ ∃ x, x ∈ l ∧ y ∈ h x.
Proof.
  rewrite list_elem_of_In, in_flat_map. by setoid_rewrite list_elem_of_In.
Qed.

Lemma sublist_StronglySorted (R : relation A) l1 l2 :
  StronglySorted R l2 → l1 `sublist_of` l2 → StronglySorted R l1.
Proof.
  intros Hs Hl. revert Hs. induction Hl as [|x l1 l2 Hl IH|x l1 l2 Hl IH]; intros Hs; [constructor| |].
  - inversion Hs as [|? ? Hs' Hx]; subst. constructor; [by apply IH|].
    rewrite Forall_forall in *. intros y Hy. apply Hx. by eapply elem_of_sublist.
  - inversion Hs; subst. by apply IH.
Qed.

Lemma sublist_fmap {B} (h : A → B) l1 l2 :
  l1 `sublist_of` l2 → h <$> l1 `sublist_of` h <$> l2.
Proof. induction 1; cbn; by constructor. Qed.
End lists.

(** [sort.SliceStable] with the order [less]: equal elements keep their order. *)
Fixpoint insert_stable {A} (less : A → A → bool) (x : A) (l : list A) : list A :=
  match l with
  | [] => [x]
  | y :: l' => if less y x then y :: insert_stable less x l' else x :: l
  end.

Definition sort_stable {A} (less : A → A → bool) (l : list A) : list A :=
  foldr (insert_stable less) [] l.

Section stable_sort.
Context {A : Type} (less : A → A → bool).

Lemma insert_stable_perm x l : insert_stable less x l ≡ₚ x :: l.
Proof.
  induction l as [|y l IH]; cbn; [done|]. destruct (less y x); [|done].
  rewrite IH. apply Permutation_swap.
Qed.

Lemma sort_stable_perm l : sort_stable less l ≡ₚ l.
Proof. induction l as [|x l IH]; cbn; [done|]. by rewrite insert_stable_perm, IH. Qed.

Lemma elem_of_sort_stable x l : x ∈ sort_stable less l ↔ x ∈ l.
Proof. by rewrite sort_stable_perm. Qed.

(** No later element goes strictly before an earlier one. *)
Lemma sort_stable_sorted l :
  (∀ x y, less x y = true → less y x = false) →
  Sorted (λ x y, less y x = false) (sort_stable less l).
Proof.
  intros Hasym. induction l as [|x l IH]; [constructor|].
  change (sort_stable less (x :: l)) with (insert_stable less x (sort_stable less l)).
  revert IH. generalize (sort_stable less l). intros s Hs.
  induction Hs as [|y s Hs IHs Hhd]; cbn; [constructor; constructor|].
  destruct (less y x) eqn:E; [|constructor; [by constructor|by constructor]].
  constructor; [done|]. destruct s as [|z s]; cbn; [constructor; by apply Hasym|].
  destruct (less z x); [constructor; by inversion Hhd|constructor; by apply Hasym].
Qed.
End stable_sort.

(** Induction on the length of a list. *)
Lemma list_len_ind {A} (P : list A → Prop) :
  (∀ l, (∀ l', (length l' < length l)%nat → P l') → P l) → ∀ l, P l.
Proof. intros H l. induction (well_founded_ltof _ (@length A) l) as [l _ IH]. by apply H. Qed.

(** A boolean predicate checked on the first [k] numbers holds of each. *)
Lemma forall_below (k : nat) (P : N → bool) :
  forallb (λ i, P (N.of_nat i)) (seq 0 k) = true → ∀ n, n < N.of_nat k → P n = true.
Proof.
  rewrite forallb_forall. intros H n Hn. specialize (H (N.to_nat n)).
  rewrite N2Nat.id in H. apply H, in_seq. lia.
Qed.

(** ** Results of fallible operations: Go's [(value, error)] pair *)

Inductive result (E A : Type) : Type :=
  | Ok (a : A)
  | Err (e : E).
Arguments Ok {E A} a.
Arguments Err {E A} e.

Definition res_bind {E A B} (m : result E A) (k : A → result E B) : result E B :=
  match m with Ok a => k a | Err e => Err e end.

Notation "'try' x ':=' m 'in' k" := (res_bind m (λ x, k))
  (at level 10, x pattern, m at level 100, k at level 200) : go_scope.

Lemma res_bind_Ok {E A B} (m : result E A) (k : A → result E B) b :
  res_bind m k = Ok b → ∃ a, m = Ok a ∧ k a = Ok b.
Proof. destruct m; simpl; [eauto|done]. Qed.

Lemma res_bind_Err {E A B} (m : result E A) (k : A → result E B) e :
  res_bind m k = Err e → m = Err e ∨ ∃ a, m = Ok a ∧ k a = Err e.
Proof. destruct m; simpl; [eauto|naive_solver]. Qed.
