(* ===== verification/GoStrings.v ===== *)
(** * The part of Go's string library the harness relies on

    [strings.TrimSpace], [strings.ToLower], [strings.Join],
    [strings.HasPrefix], [sort.Strings], [encoding/hex], as functions on byte
    strings ([String.string], one [ascii] per byte).

    Two points on fidelity.  [TrimSpace] trims the white-space code points of
    Unicode, not only the ASCII ones, so their UTF-8 encodings are listed.
    [ToLower] is given for ASCII bytes: a byte of 128 or more never is, and
    never becomes, a hex digit (the only code points that lower-case to ASCII
    from outside are the Kelvin sign and the dotted capital I, to "k" and "i"),
    and its one caller rejects every string that is not hex. *)

From stdpp Require Import prelude gmap strings list sorting pretty.
From Stdlib Require Import NArith Ascii.
From S2P Require Import Prelude.

Open Scope N_scope.
Open Scope stdpp_scope.
Set Default Goal Selector "!".

(** ** Characters and byte lists *)

Definition chars (s : string) : list ascii := String.list_ascii_of_string s.
Definition unchars (l : list ascii) : string := String.string_of_list_ascii l.

Definition bytes (l : list N) : string := unchars (ascii_of_N <$> l).

Lemma chars_unchars l : chars (unchars l) = l.
Proof. apply String.list_ascii_of_string_of_list_ascii. Qed.

Lemma unchars_chars s : unchars (chars s) = s.
Proof. apply String.string_of_list_ascii_of_string. Qed.

Lemma chars_length s : length (chars s) = String.length s.
Proof. unfold chars. by induction s as [|c s IH]; simpl; [|rewrite IH]. Qed.

Lemma chars_inj s t : chars s = chars t → s = t.
Proof. intros H. by rewrite <-(unchars_chars s), <-(unchars_chars t), H. Qed.

(** ** [strings.HasPrefix] *)

Definition HasPrefix (s p : string) : bool := String.prefix p s.

Lemma HasPrefix_app s t : HasPrefix (s +:+ t) s = true.
Proof.
  unfold HasPrefix. induction s as [|c s IH]; [by destruct t|].
  change (String c s +:+ t) with (String c (s +:+ t)). simpl.
  destruct (ascii_dec c c); [done|congruence].
Qed.

Lemma HasPrefix_spec s p : HasPrefix s p = true ↔ ∃ t, s = p +:+ t.
Proof.
  unfold HasPrefix. revert s. induction p as [|c p IH]; intros s; split.
  - intros _. by exists s.
  - intros _. by destruct s.
  - destruct s as [|d s]; simpl; [done|]. destruct (ascii_dec c d) as [->|]; [|done].
    intros [t ->]%IH. by exists t.
  - intros [t ->]. change (String c p +:+ t) with (String c (p +:+ t)). simpl.
    destruct (ascii_dec c c); [|congruence]. apply IH. by exists t.
Qed.

(** ** [strings.TrimSpace] *)

(** The UTF-8 encodings of the code points [unicode.IsSpace] accepts. *)
Definition space_encodings : list (list ascii) :=
  map (map ascii_of_N)
  [ [9]; [10]; [11]; [12]; [13]; [32]; [0xC2; 0x85]; [0xC2; 0xA0];
    [0xE1; 0x9A; 0x80];
    [0xE2; 0x80; 0x80]; [0xE2; 0x80; 0x81]; [0xE2; 0x80; 0x82]; [0xE2; 0x80; 0x83];
    [0xE2; 0x80; 0x84]; [0xE2; 0x80; 0x85]; [0xE2; 0x80; 0x86]; [0xE2; 0x80; 0x87];
    [0xE2; 0x80; 0x88]; [0xE2; 0x80; 0x89]; [0xE2; 0x80; 0x8A];
    [0xE2; 0x80; 0xA8]; [0xE2; 0x80; 0xA9]; [0xE2; 0x80; 0xAF]; [0xE2; 0x81; 0x9F];
    [0xE3; 0x80; 0x80] ].

Definition starts_with (l p : list ascii) : bool := bool_decide (take (length p) l = p).

(** Drop leading elements of [ws] as long as one matches.  Every encoding is
    non-empty, so [length l] rounds are enough. *)
Fixpoint drop_leading (ws : list (list ascii)) (fuel : nat) (l : list ascii) : list ascii :=
  match fuel with
  | O => l
  | S fuel' =>
      match find_first (starts_with l) ws with
      | Some w => drop_leading ws fuel' (drop (length w) l)
      | None => l
      end
  end.

Definition trim_leading (ws : list (list ascii)) (l : list ascii) : list ascii :=
  drop_leading ws (length l) l.

Definition TrimSpace (s : string) : string :=
  let l := trim_leading space_encodings (chars s) in
  unchars (reverse (trim_leading (reverse <$> space_encodings) (reverse l))).

(** ** [strings.ToLower] on ASCII *)

Definition lower_char (c : ascii) : ascii :=
  let n := N_of_ascii c in
  if (65 <=? n) && (n <=? 90) then ascii_of_N (n + 32) else c.

Definition ToLower (s : string) : string := unchars (lower_char <$> chars s).

(** ** [encoding/hex] *)

Definition hexval (c : ascii) : option N :=
  let n := N_of_ascii c in
  if (48 <=? n) && (n <=? 57) then Some (n - 48)
  else if (97 <=? n) && (n <=? 102) then Some (n - 87)
  else if (65 <=? n) && (n <=? 70) then Some (n - 55)
  else None.

Fixpoint hex_decode (l : list ascii) : option (list N) :=
  match l with
  | [] => Some []
  | [_] => None
  | a :: b :: l' =>
      match hexval a, hexval b, hex_decode l' with
      | Some x, Some y, Some r => Some (x * 16 + y :: r)
      | _, _, _ => None
      end
  end.

(** [hex.DecodeString]; [None] is the error. *)
Definition DecodeString (s : string) : option (list N) := hex_decode (chars s).

(** The bytes [hex.DecodeString] has decoded when it stops, error or not. *)
Fixpoint hex_prefix (l : list ascii) : list N :=
  match l with
  | a :: b :: l' =>
      match hexval a, hexval b with
      | Some x, Some y => x * 16 + y :: hex_prefix l'
      | _, _ => []
      end
  | _ => []
  end.

Definition hexdigit (n : N) : ascii :=
  if n <? 10 then ascii_of_N (48 + n) else ascii_of_N (87 + n).

(** [hex.EncodeToString]. *)
Definition EncodeToString (bs : list N) : string :=
  unchars (flat_map (λ b, [hexdigit (b / 16); hexdigit (b `mod` 16)]) bs).

(** A lower-case hex digit: what [EncodeToString] writes. *)
Definition is_lhex (c : ascii) : bool :=
  match hexval c with Some _ => bool_decide (lower_char c = c) | None => false end.

(** ** [strings.Join] and [sort.Strings] *)

Fixpoint Join (parts : list string) (sep : string) : string :=
  match parts with
  | [] => ""
  | [p] => p
  | p :: ps => p +:+ sep +:+ Join ps sep
  end.

Definition sort_strings (l : list string) : list string := merge_sort String.le l.

(** ** Lemmas *)

Lemma all_ascii (P : ascii → bool) :
  forallb (λ n, P (ascii_of_N (N.of_nat n))) (seq 0 256) = true → ∀ c, P c = true.
Proof.
  intros H c. rewrite <-(ascii_N_embedding c).
  apply (forall_below 256 (λ n, P (ascii_of_N n))); [done|apply N_ascii_bounded].
Qed.

Lemma lower_char_idem c : lower_char (lower_char c) = lower_char c.
Proof.
  apply (bool_decide_unpack (lower_char (lower_char c) = lower_char c)), Is_true_true.
  revert c. apply all_ascii. by vm_compute.
Qed.

Lemma hexval_lower c : hexval (lower_char c) = hexval c.
Proof.
  apply (bool_decide_unpack (hexval (lower_char c) = hexval c)), Is_true_true.
  revert c. apply all_ascii. by vm_compute.
Qed.

(** No white-space encoding starts or ends with a hex digit. *)
Lemma hex_not_space c l :
  is_Some (hexval c) →
  find_first (starts_with (c :: l)) space_encodings = None ∧
  find_first (starts_with (c :: l)) (reverse <$> space_encodings) = None.
Proof.
  intros Hc.
  assert (∀ ws, forallb (λ w, match w with d :: _ => bool_decide (hexval d = None) | [] => false end) ws = true →
      find_first (starts_with (c :: l)) ws = None) as Hws.
  { intros ws Hws. apply find_first_None. intros w Hw.
    rewrite forallb_elem_of in Hws. specialize (Hws w Hw).
    destruct w as [|d w]; [done|]. apply bool_decide_eq_true in Hws.
    apply bool_decide_eq_false. simpl. intros [= -> _]. rewrite Hws in Hc. by destruct Hc. }
  split; apply Hws; by vm_compute.
Qed.

Lemma trim_leading_hex l :
  Forall (λ c, is_Some (hexval c)) l →
  trim_leading space_encodings l = l ∧ trim_leading (reverse <$> space_encodings) l = l.
Proof.
  destruct 1 as [|c l Hc Hl]; [done|].
  unfold trim_leading. destruct (hex_not_space c l Hc) as [E1 E2].
  cbn [length drop_leading]. rewrite E1, E2. done.
Qed.

Lemma TrimSpace_hex s :
  Forall (λ c, is_Some (hexval c)) (chars s) → TrimSpace s = s.
Proof.
  intros H. unfold TrimSpace.
  rewrite (proj1 (trim_leading_hex _ H)).
  rewrite (proj2 (trim_leading_hex (reverse (chars s)) ltac:(by apply Forall_reverse))).
  rewrite reverse_involutive. apply unchars_chars.
Qed.

Lemma hex_decode_Some l bs :
  hex_decode l = Some bs → Forall (λ c, is_Some (hexval c)) l ∧ length l = (2 * length bs)%nat.
Proof.
  revert bs. induction l as [l IH] using list_len_ind.
  intros bs. destruct l as [|a [|b l]]; simpl; [naive_solver|done|].
  destruct (hexval a) as [x|] eqn:Ha; [|done]. destruct (hexval b) as [y|] eqn:Hb; [|done].
  destruct (hex_decode l) as [r|] eqn:Hl; [|done]. intros [= <-].
  apply IH in Hl as [? ?]; [|simpl; lia]. simpl. split; [|lia].
  repeat constructor; eauto.
Qed.

Lemma hex_decode_ok l :
  Forall (λ c, is_Some (hexval c)) l → Nat.Even (length l) → is_Some (hex_decode l).
Proof.
  induction l as [l IH] using list_len_ind.
  destruct l as [|a [|b l]]; simpl; [by eexists| |].
  - intros _ [k Hk]. lia.
  - intros H [k Hk]. apply Forall_cons in H as [[x Hx] H]. apply Forall_cons in H as [[y Hy] H].
    rewrite Hx, Hy. destruct (IH l) as [r Hr]; [simpl; lia|done|exists (k - 1)%nat; lia|].
    rewrite Hr. by eexists.
Qed.

Lemma hexval_hexdigit n : n < 16 → hexval (hexdigit n) = Some n.
Proof.
  intros H. apply (bool_decide_unpack _), Is_true_true. revert n H.
  apply (forall_below 16). by vm_compute.
Qed.

Lemma lower_hexdigit n : n < 16 → lower_char (hexdigit n) = hexdigit n.
Proof.
  intros H. apply (bool_decide_unpack _), Is_true_true. revert n H.
  apply (forall_below 16). by vm_compute.
Qed.

(** [hex.DecodeString] undoes [hex.EncodeToString] on byte lists. *)
Lemma DecodeString_EncodeToString bs :
  Forall (λ b, b < 256) bs → DecodeString (EncodeToString bs) = Some bs.
Proof.
  unfold DecodeString, EncodeToString. rewrite chars_unchars.
  induction 1 as [|b bs Hb _ IH]; [done|]. simpl.
  rewrite hexval_hexdigit by (apply N.Div0.div_lt_upper_bound; lia).
  rewrite hexval_hexdigit by (apply N.mod_lt; lia).
  simpl in IH. rewrite IH. f_equal. f_equal.
  rewrite (N.div_mod b 16) at 3 by lia. lia.
Qed.

Lemma hexval_bound c x : hexval c = Some x → x < 16.
Proof. unfold hexval. repeat case_match; intros [= <-]; breflect; lia. Qed.

Lemma hexdigit_hexval c x :
  hexval c = Some x → lower_char c = c → hexdigit x = c.
Proof.
  intros Hx Hl.
  assert (bool_decide (lower_char c = c → from_option hexdigit c (hexval c) = c) = true) as H.
  { clear Hx Hl. revert c. apply all_ascii. by vm_compute. }
  apply bool_decide_eq_true in H. rewrite Hx in H. by apply H.
Qed.

Lemma EncodeToString_DecodeString s bs :
  DecodeString s = Some bs → ToLower s = s → EncodeToString bs = s.
Proof.
  unfold DecodeString, EncodeToString, ToLower. intros Hd Hl.
  apply chars_inj. rewrite chars_unchars.
  apply (f_equal chars) in Hl. rewrite chars_unchars in Hl.
  revert bs Hd Hl. generalize (chars s). clear s.
  induction l as [l IH] using list_len_ind.
  intros bs. destruct l as [|a [|b l]]; simpl; [by intros [= <-]|done|].
  destruct (hexval a) as [x|] eqn:Ha; [|done]. destruct (hexval b) as [y|] eqn:Hb; [|done].
  destruct (hex_decode l) as [r|] eqn:Hr; [|done]. intros [= <-] [= Hla Hlb Hl]. simpl.
  pose proof (hexval_bound _ _ Hb).
  assert ((x * 16 + y) / 16 = x) as -> by (rewrite N.div_add_l by lia; rewrite N.div_small; lia).
  assert ((x * 16 + y) `mod` 16 = y) as ->.
  { rewrite N.add_comm, N.Div0.mod_add. by apply N.mod_small. }
  rewrite (hexdigit_hexval a), (hexdigit_hexval b) by done.
  do 2 f_equal. apply IH; simpl; [lia|done|done].
Qed.

Lemma hex_decode_bound l bs : hex_decode l = Some bs → Forall (λ b, b < 256) bs.
Proof.
  revert bs. induction l as [l IH] using list_len_ind.
  intros bs. destruct l as [|a [|b l]]; simpl; [by intros [= <-]|done|].
  destruct (hexval a) as [x|] eqn:Ha; [|done]. destruct (hexval b) as [y|] eqn:Hb; [|done].
  destruct (hex_decode l) as [r|] eqn:Hr; [|done]. intros [= <-].
  apply hexval_bound in Ha, Hb. constructor; [lia|]. apply (IH l); [simpl; lia|done].
Qed.

Lemma length_ToLower s : String.length (ToLower s) = String.length s.
Proof. unfold ToLower. by rewrite <-!chars_length, chars_unchars, length_fmap. Qed.

Lemma ToLower_idem s : ToLower (ToLower s) = ToLower s.
Proof.
  unfold ToLower. rewrite chars_unchars, <-list_fmap_compose. f_equal.
  apply list_fmap_ext. intros i c _. apply lower_char_idem.
Qed.

(** *** Sorting *)

Lemma sort_strings_perm l : sort_strings l ≡ₚ l.
Proof. apply merge_sort_Permutation. Qed.

Lemma elem_of_sort_strings x l : x ∈ sort_strings l ↔ x ∈ l.
Proof. by rewrite sort_strings_perm. Qed.

Lemma sort_strings_sorted l : Sorted String.le (sort_strings l).
Proof. apply Sorted_merge_sort, _. Qed.

Lemma sort_strings_fixed l : Sorted String.le l → sort_strings l = l.
Proof.
  intros H. apply (Sorted_unique String.le);
    [apply sort_strings_sorted|done|apply sort_strings_perm].
Qed.

Lemma sort_strings_idem l : sort_strings (sort_strings l) = sort_strings l.
Proof. apply sort_strings_fixed, sort_strings_sorted. Qed.

Lemma sort_strings_nil_inv l : sort_strings l = [] → l = [].
Proof.
  intros H. apply Permutation_nil_r. rewrite <-H. symmetry. apply sort_strings_perm.
Qed.
