(* ===== verification/Caps.v ===== *)
(** * Capabilities, scope bases and attach modes

    The enums of [runner/protocol/message.go] the authority rules are written
    over, and [authority/attach.go].  A [Capability] is a [uint32] mask, a
    [ScopeBase] and an [AttachMode] are bytes: a peer built against a newer
    schema may send a value none of the constants names, and the rules say what
    happens then, so the types are numbers and not enumerations. *)

From stdpp Require Import prelude gmap strings list sorting pretty.
From Stdlib Require Import NArith.
From S2P Require Import Prelude GoStrings.

Open Scope N_scope.
Open Scope stdpp_scope.
Set Default Goal Selector "!".

(** ** [protocol.Capability] *)

Definition Capability_None : N := 0.
Definition Capability_Spawn : N := 1.
Definition Capability_Cancel : N := 2.
Definition Capability_ExecControl : N := 4.
Definition Capability_FileRead : N := 8.
Definition Capability_FileWrite : N := 16.
Definition Capability_ForwardLocal : N := 32.
Definition Capability_ForwardRemote : N := 64.
Definition Capability_Notify : N := 128.
Definition Capability_Prune : N := 256.
Definition Capability_RunnerAdmin : N := 512.
Definition Capability_BoardObserve : N := 1024.
Definition Capability_BoardPurge : N := 2048.
Definition Capability_ExecView : N := 4096.
Definition Capability_ExecCowrite : N := 8192.
Definition Capability_ExecResize : N := 16384.
Definition Capability_ExecRun : N := 32768.
Definition Capability_ForwardTap : N := 65536.
Definition Capability_BoardSend : N := 131072.
Definition Capability_ExecTap : N := 262144.
Definition Capability_BoardPeer : N := 524288.
Definition Capability_Resume : N := 1048576.
Definition Capability_ResumeExact : N := 2097152.
Definition Capability_ForwardLink : N := 4194304.
Definition Capability_RunnerEnroll : N := 8388608.
Definition Capability_BoardPersist : N := 16777216.
Definition Capability_BoardMember : N := 33554432.
Definition Capability_All : N := 67108863.

Definition Capability_table : list (N * string) :=
  [ (Capability_None, "none");
    (Capability_Spawn, "spawn");
    (Capability_Cancel, "cancel");
    (Capability_ExecControl, "exec_control");
    (Capability_FileRead, "file_read");
    (Capability_FileWrite, "file_write");
    (Capability_ForwardLocal, "forward_local");
    (Capability_ForwardRemote, "forward_remote");
    (Capability_Notify, "notify");
    (Capability_Prune, "prune");
    (Capability_RunnerAdmin, "runner_admin");
    (Capability_BoardObserve, "board_observe");
    (Capability_BoardPurge, "board_purge");
    (Capability_ExecView, "exec_view");
    (Capability_ExecCowrite, "exec_cowrite");
    (Capability_ExecResize, "exec_resize");
    (Capability_ExecRun, "exec_run");
    (Capability_ForwardTap, "forward_tap");
    (Capability_BoardSend, "board_send");
    (Capability_ExecTap, "exec_tap");
    (Capability_BoardPeer, "board_peer");
    (Capability_Resume, "resume");
    (Capability_ResumeExact, "resume_exact");
    (Capability_ForwardLink, "forward_link");
    (Capability_RunnerEnroll, "runner_enroll");
    (Capability_BoardPersist, "board_persist");
    (Capability_BoardMember, "board_member");
    (Capability_All, "all") ].

(** [Capability.String]. *)
Definition Capability_String (e : N) : string :=
  match find_first (λ p, e =? p.1) Capability_table with
  | Some (_, s) => s
  | None => "Capability(" +:+ pretty e +:+ ")"
  end.

(** ** [protocol.ScopeBase] *)

Definition ScopeBase_Subtree : N := 0.
Definition ScopeBase_None : N := 1.
Definition ScopeBase_Global : N := 2.

Definition ScopeBase_String (e : N) : string :=
  if e =? ScopeBase_Subtree then "subtree"
  else if e =? ScopeBase_None then "none"
  else if e =? ScopeBase_Global then "global"
  else "ScopeBase(" +:+ pretty e +:+ ")".

(** ** [protocol.AttachMode] *)

Definition AttachMode_Control : N := 0.
Definition AttachMode_View : N := 1.
Definition AttachMode_Cowrite : N := 2.

(** ** The loop over capability bits

    Nine functions of the package run
    [for bit := Capability(1); bit != 0 && bit <= Capability_All; bit <<= 1].
    [cap_loop] is that loop, its shift truncated to 32 bits. *)

Fixpoint cap_loop (fuel : nat) (bit : N) : list N :=
  match fuel with
  | O => []
  | S fuel' =>
      if negb (bit =? 0) && (bit <=? Capability_All)
      then bit :: cap_loop fuel' (uint32 (N.shiftl bit 1))
      else []
  end.

(** 33 rounds: after 32 shifts a 32-bit word is zero. *)
Definition each_cap : list N := cap_loop 33 1.

Lemma each_cap_eq : each_cap = (λ i, 2 ^ N.of_nat i) <$> seq 0 26.
Proof. by vm_compute. Qed.

(** More rounds visit nothing more: the loop has ended on its own condition. *)
Lemma cap_loop_enough fuel : (33 ≤ fuel)%nat → cap_loop fuel 1 = each_cap.
Proof.
  intros H. replace fuel with (33 + (fuel - 33))%nat by lia.
  generalize (fuel - 33)%nat. intros k. by vm_compute.
Qed.

Lemma each_cap_single c : c ∈ each_cap → single c.
Proof.
  rewrite each_cap_eq. intros (i & -> & _)%list_elem_of_fmap. by exists (N.of_nat i).
Qed.

Lemma each_cap_NoDup : NoDup each_cap.
Proof. apply (bool_decide_unpack _). by vm_compute. Qed.

(** A single bit inside [Capability_All] is visited by the loop. *)
Lemma elem_of_each_cap c : single c → c ∈ each_cap ↔ has Capability_All c = true.
Proof.
  intros [i ->]. rewrite has_pow2, each_cap_eq, list_elem_of_fmap.
  change Capability_All with (N.ones 26). rewrite N.ones_spec_iff. split.
  - intros (k & Hk & ?%elem_of_seq). apply N.pow_inj_r in Hk; lia.
  - intros Hi. exists (N.to_nat i). rewrite N2Nat.id. split; [done|].
    apply elem_of_seq. lia.
Qed.

#[export] Hint Resolve each_cap_single : harness.

(** Proofs go through the lemmas above; evaluation is unaffected. *)
#[global] Opaque each_cap.

(** ** [authority/attach.go] *)

Definition AttachModeCap (mode : N) : N :=
  if mode =? AttachMode_View then
    Capability_ExecView .|. Capability_ExecCowrite .|. Capability_ExecControl
  else if mode =? AttachMode_Cowrite then
    Capability_ExecCowrite .|. Capability_ExecControl
  else Capability_ExecControl.

Definition AttachModeScopeCap (mode : N) : N :=
  if mode =? AttachMode_View then Capability_ExecView
  else if mode =? AttachMode_Cowrite then Capability_ExecCowrite
  else Capability_ExecControl.

Definition ExercisedBits (caps : N) : N :=
  let caps := if has caps Capability_ExecControl then caps .|. Capability_ExecCowrite else caps in
  if has caps Capability_ExecCowrite then caps .|. Capability_ExecView else caps.

(** ** Lemmas *)

Lemma single_ExecControl : single Capability_ExecControl. Proof. by exists 2. Qed.
Lemma single_ExecCowrite : single Capability_ExecCowrite. Proof. by exists 13. Qed.
Lemma single_ExecView : single Capability_ExecView. Proof. by exists 12. Qed.
Lemma single_ExecResize : single Capability_ExecResize. Proof. by exists 14. Qed.
Lemma single_Spawn : single Capability_Spawn. Proof. by exists 0. Qed.
Lemma single_FileRead : single Capability_FileRead. Proof. by exists 3. Qed.
#[export] Hint Resolve single_ExecControl single_ExecCowrite single_ExecView
  single_ExecResize single_Spawn single_FileRead : harness.

(** What [ExercisedBits] adds, bit by bit. *)
Lemma has_ExercisedBits caps c :
  single c →
  has (ExercisedBits caps) c =
    has caps c
    || (bool_decide (c = Capability_ExecCowrite) && has caps Capability_ExecControl)
    || (bool_decide (c = Capability_ExecView)
        && (has caps Capability_ExecControl || has caps Capability_ExecCowrite)).
Proof.
  intros Hc. unfold ExercisedBits.
  pose proof single_ExecCowrite as Hw. pose proof single_ExecView as Hv.
  pose proof (has_other _ _ Hw Hc) as Ew. pose proof (has_other _ _ Hv Hc) as Ev.
  rewrite (bool_decide_ext (c = Capability_ExecCowrite) (Capability_ExecCowrite = c)) by naive_solver.
  rewrite (bool_decide_ext (c = Capability_ExecView) (Capability_ExecView = c)) by naive_solver.
  rewrite <-Ew, <-Ev.
  destruct (has caps Capability_ExecControl) eqn:E1.
  - rewrite has_lor, has_same, orb_true_r by done. rewrite !has_lor by done.
    by destruct (has caps c), (has Capability_ExecCowrite c), (has Capability_ExecView c).
  - destruct (has caps Capability_ExecCowrite) eqn:E2; rewrite ?has_lor by done;
      by destruct (has caps c), (has Capability_ExecCowrite c), (has Capability_ExecView c).
Qed.

Lemma ExercisedBits_incl caps c :
  single c → has caps c = true → has (ExercisedBits caps) c = true.
Proof. intros Hc H. by rewrite has_ExercisedBits, H. Qed.

Lemma ExercisedBits_mono a b :
  (∀ c, single c → has a c = true → has b c = true) →
  ∀ c, single c → has (ExercisedBits a) c = true → has (ExercisedBits b) c = true.
Proof.
  intros H c Hc. rewrite !has_ExercisedBits by done.
  pose proof (H c Hc). pose proof (H _ single_ExecControl). pose proof (H _ single_ExecCowrite).
  destruct (has a c), (has a Capability_ExecControl), (has a Capability_ExecCowrite),
    (has b c), (has b Capability_ExecControl), (has b Capability_ExecCowrite),
    (bool_decide (c = Capability_ExecCowrite)), (bool_decide (c = Capability_ExecView));
    simpl in *; auto.
Qed.

Lemma ExercisedBits_idem caps : ExercisedBits (ExercisedBits caps) = ExercisedBits caps.
Proof.
  apply has_ext. intros c Hc. rewrite (has_ExercisedBits (ExercisedBits caps)) by done.
  rewrite !has_ExercisedBits by auto with harness.
  change (bool_decide (Capability_ExecControl = Capability_ExecCowrite)) with false.
  change (bool_decide (Capability_ExecControl = Capability_ExecView)) with false.
  change (bool_decide (Capability_ExecCowrite = Capability_ExecCowrite)) with true.
  change (bool_decide (Capability_ExecCowrite = Capability_ExecView)) with false.
  by destruct (has caps c), (has caps Capability_ExecControl), (has caps Capability_ExecCowrite),
    (bool_decide (c = Capability_ExecCowrite)), (bool_decide (c = Capability_ExecView)).
Qed.

(** ** The attach gates *)

(** The two readings of an attach agree: a mask passes the capability gate of a
    mode ([AttachModeCap], checked with "any of") exactly when it exercises the
    bit whose scope governs the mode ([AttachModeScopeCap]), for every mode
    byte, unrecognised ones included. *)
Theorem attach_gate_is_exercised (caps mode : N) :
  has caps (AttachModeCap mode) = has (ExercisedBits caps) (AttachModeScopeCap mode).
Proof.
  assert (∀ a b, has caps (a .|. b) = has caps a || has caps b) as has_any.
  { intros a b. unfold has. rewrite N.land_lor_distr_r.
    destruct (N.eqb_spec (caps .&. a) 0) as [->|Ha]; simpl; [done|].
    rewrite (proj2 (N.eqb_neq _ _)); [done|]. intros [? ?]%N.lor_eq_0_iff. done. }
  unfold AttachModeCap, AttachModeScopeCap.
  destruct (mode =? AttachMode_View); [|destruct (mode =? AttachMode_Cowrite)];
    rewrite has_ExercisedBits by auto with harness; rewrite ?has_any.
  - change (bool_decide (Capability_ExecView = Capability_ExecCowrite)) with false.
    change (bool_decide (Capability_ExecView = Capability_ExecView)) with true.
    by destruct (has caps Capability_ExecView), (has caps Capability_ExecCowrite),
      (has caps Capability_ExecControl).
  - change (bool_decide (Capability_ExecCowrite = Capability_ExecCowrite)) with true.
    change (bool_decide (Capability_ExecCowrite = Capability_ExecView)) with false.
    by destruct (has caps Capability_ExecCowrite), (has caps Capability_ExecControl).
  - change (bool_decide (Capability_ExecControl = Capability_ExecCowrite)) with false.
    change (bool_decide (Capability_ExecControl = Capability_ExecView)) with false.
    by rewrite !orb_false_r.
Qed.
