(* ===== verification/Scope.v ===== *)
(** * Scopes: [authority/scope.go]

    The value that says which tasks a capability may be pointed at, its
    consistency check, the rank order of its bases and the normal form of its
    id lists.  A Go slice is a list; [nil] and the empty slice are both [[]],
    which is how every reader of a scope treats them. *)

From stdpp Require Import prelude gmap strings list sorting pretty.
From Stdlib Require Import NArith Ascii.
From S2P Require Import Prelude GoStrings Caps.

Open Scope N_scope.
Open Scope stdpp_scope.
Set Default Goal Selector "!".

Record ScopeOverride := mkOverride {
  ov_Caps : N;
  ov_Base : N;
  ov_ExcludeSelf : bool;
  ov_IDs : list string;
}.

Record Scope := mkScope {
  Base : N;
  IDs : list string;
  VisBase : N;
  VisBasePresent : bool;
  ExcludeSelf : bool;
  VisIDs : list string;
  Overrides : list ScopeOverride;
}.

#[export] Instance ScopeOverride_eq_dec : EqDecision ScopeOverride.
Proof. solve_decision. Defined.
#[export] Instance Scope_eq_dec : EqDecision Scope.
Proof. solve_decision. Defined.

(** [Scope{}], the zero value. *)
Definition zeroScope : Scope :=
  {| Base := 0; IDs := []; VisBase := 0; VisBasePresent := false;
     ExcludeSelf := false; VisIDs := []; Overrides := [] |}.

Definition TaskIDHexLen : nat := 32.

Definition DefaultScope : Scope :=
  {| Base := ScopeBase_Subtree; IDs := []; VisBase := 0; VisBasePresent := false;
     ExcludeSelf := false; VisIDs := []; Overrides := [] |}.

Definition VisRank (s : Scope) : N :=
  if VisBasePresent s then VisBase s else Base s.

(** [ForCap] returns the triple (base, excludeSelf, ids). *)
Definition ForCap (s : Scope) (c : N) : N * bool * list string :=
  match find_first (λ o, has (ov_Caps o) c) (Overrides s) with
  | Some o => (ov_Base o, ov_ExcludeSelf o, ov_IDs o)
  | None => (Base s, ExcludeSelf s, IDs s)
  end.

Definition CapsLabel (m : N) : string :=
  let parts := Capability_String <$> filter (λ bit, has m bit = true) each_cap in
  match parts with
  | [] => Capability_String Capability_None
  | _ => Join parts ","
  end.

(** The loop of [Validate] over the override list; [seen] accumulates. *)
Fixpoint validate_overrides (seen : N) (os : list ScopeOverride) : option string :=
  match os with
  | [] => None
  | o :: os' =>
      if ov_Caps o =? Capability_None then
        Some "scope override with an empty capability mask"
      else if has (ov_Caps o) Capability_Spawn then
        Some "scope override names spawn: spawn names no task; narrow resume / resume_exact instead"
      else
        let overlap := seen .&. ov_Caps o in
        if negb (overlap =? 0) then
          Some ("scope override masks intersect at " +:+ CapsLabel overlap)
        else validate_overrides (seen .|. ov_Caps o) os'
  end.

(** [Validate]; [None] is the nil error. *)
Definition Validate (s : Scope) : option string :=
  if negb (VisBasePresent s) && negb (VisBase s =? 0) then
    Some ("vis_base " +:+ ScopeBase_String (VisBase s) +:+
          " set while vis_base_present is 0 (non-canonical encoding)")
  else validate_overrides 0 (Overrides s).

Definition BaseRank (b : N) : N :=
  if b =? ScopeBase_Subtree then 1
  else if b =? ScopeBase_Global then 2
  else 0.

Definition MinBase (a b : N) : N := if BaseRank b <? BaseRank a then b else a.

(** The loop of [NormalizeIDs]: [seen] is the source's map of the same name. *)
Fixpoint normalize_loop (seen : gset string) (ids : list string) : list string :=
  match ids with
  | [] => []
  | id :: ids' =>
      let id := ToLower (TrimSpace id) in
      if negb (bool_decide (String.length id = TaskIDHexLen)) then normalize_loop seen ids'
      else match DecodeString id with
      | None => normalize_loop seen ids'
      | Some _ =>
          if bool_decide (id ∈ seen) then normalize_loop seen ids'
          else id :: normalize_loop ({[id]} ∪ seen) ids'
      end
  end.

Definition NormalizeIDs (ids : list string) : list string :=
  sort_strings (normalize_loop ∅ ids).

(** [Scope.String]. *)
Definition Scope_String (s : Scope) : string :=
  let base := ScopeBase_String (Base s) in
  match IDs s with
  | [] => base
  | _ =>
      let ids := "ids:" +:+ Join (IDs s) "," in
      if Base s =? ScopeBase_None then ids else base +:+ "+" +:+ ids
  end.

(** ** Ranks *)

(** A base some constant names. *)
Definition known_base (b : N) : Prop :=
  b = ScopeBase_None ∨ b = ScopeBase_Subtree ∨ b = ScopeBase_Global.

#[export] Instance known_base_dec b : Decision (known_base b).
Proof. apply _. Defined.

Lemma BaseRank_bound b : BaseRank b ≤ 2.
Proof. unfold BaseRank. repeat case_match; lia. Qed.

Lemma BaseRank_Global b : BaseRank b = 2 ↔ b = ScopeBase_Global.
Proof.
  unfold BaseRank, ScopeBase_Subtree, ScopeBase_Global.
  repeat case_match; breflect; naive_solver lia.
Qed.

Lemma BaseRank_Subtree b : BaseRank b = 1 ↔ b = ScopeBase_Subtree.
Proof.
  unfold BaseRank, ScopeBase_Subtree, ScopeBase_Global.
  repeat case_match; breflect; naive_solver lia.
Qed.

Lemma BaseRank_0 b : BaseRank b = 0 ↔ b ≠ ScopeBase_Subtree ∧ b ≠ ScopeBase_Global.
Proof.
  pose proof (BaseRank_bound b). rewrite <-BaseRank_Subtree, <-BaseRank_Global. lia.
Qed.

Lemma MinBase_rank a b : BaseRank (MinBase a b) = N.min (BaseRank a) (BaseRank b).
Proof. unfold MinBase. case_match; breflect; lia. Qed.

Lemma MinBase_le_l a b : BaseRank (MinBase a b) ≤ BaseRank a.
Proof. rewrite MinBase_rank. lia. Qed.

Lemma MinBase_le_r a b : BaseRank (MinBase a b) ≤ BaseRank b.
Proof. rewrite MinBase_rank. lia. Qed.

Lemma MinBase_choice a b : MinBase a b = a ∨ MinBase a b = b.
Proof. unfold MinBase. case_match; auto. Qed.

Lemma MinBase_idem a : MinBase a a = a.
Proof. by destruct (MinBase_choice a a). Qed.

#[export] Hint Resolve MinBase_le_l MinBase_le_r : harness.

(** ** Override lists *)

Fixpoint disjoint_masks (os : list ScopeOverride) : Prop :=
  match os with
  | [] => True
  | o :: os' => (∀ o', o' ∈ os' → ov_Caps o .&. ov_Caps o' = 0) ∧ disjoint_masks os'
  end.

Lemma disjoint_masks_app l1 l2 :
  disjoint_masks (l1 ++ l2) ↔
    disjoint_masks l1 ∧ disjoint_masks l2 ∧
    ∀ o1 o2, o1 ∈ l1 → o2 ∈ l2 → ov_Caps o1 .&. ov_Caps o2 = 0.
Proof. induction l1 as [|o l1 IH]; simpl; [set_solver|]. rewrite IH. set_solver. Qed.

(** The masks of a list are non-empty, avoid [spawn] and are pairwise disjoint:
    what [Validate] accepts, stated without an accumulator. *)
Definition masks_ok (os : list ScopeOverride) : Prop :=
  (∀ o, o ∈ os → ov_Caps o ≠ 0 ∧ has (ov_Caps o) Capability_Spawn = false) ∧
  disjoint_masks os.

Lemma validate_overrides_spec seen os :
  validate_overrides seen os = None ↔
    masks_ok os ∧ ∀ o, o ∈ os → seen .&. ov_Caps o = 0.
Proof.
  unfold masks_ok. revert seen. induction os as [|o os IH]; intros seen; simpl; [set_solver|].
  setoid_rewrite elem_of_cons.
  destruct (N.eqb_spec (ov_Caps o) Capability_None) as [E|E].
  { split; [done|]. intros [[H _] _]. by destruct (H o ltac:(by left)). }
  destruct (has (ov_Caps o) Capability_Spawn) eqn:Es.
  { split; [done|]. intros [[H _] _]. destruct (H o ltac:(by left)). congruence. }
  destruct (N.eqb_spec (seen .&. ov_Caps o) 0) as [Eo|Eo]; simpl; cycle 1.
  { split; [done|]. intros [_ H]. by destruct Eo, (H o ltac:(by left)). }
  rewrite IH. setoid_rewrite N.land_lor_distr_l. setoid_rewrite N.lor_eq_0_iff.
  split.
  - intros [[H1 H2] H3]. split; [split; [|split]|]; naive_solver.
  - intros [[H1 [H2 H2']] H3]. split; [split|]; naive_solver.
Qed.

Lemma Validate_None s :
  Validate s = None ↔
    (VisBasePresent s = false → VisBase s = 0) ∧ masks_ok (Overrides s).
Proof.
  unfold Validate.
  assert (validate_overrides 0 (Overrides s) = None ↔ masks_ok (Overrides s)) as Hv.
  { rewrite validate_overrides_spec. split; [by intros [? _]|]. intros H. split; [done|].
    intros. apply N.land_0_l. }
  destruct (VisBasePresent s); simpl.
  { rewrite Hv. naive_solver. }
  destruct (N.eqb_spec (VisBase s) 0); simpl; rewrite ?Hv; naive_solver.
Qed.

(** Under a valid scope [spawn] resolves to the base scope. *)
Lemma ForCap_Spawn s :
  Validate s = None → ForCap s Capability_Spawn = (Base s, ExcludeSelf s, IDs s).
Proof.
  intros [_ [H _]]%Validate_None. unfold ForCap.
  rewrite (proj2 (find_first_None _ _)); [done|]. intros o Ho. by apply H.
Qed.

(** The override mask of a list: the union of its masks. *)
Definition overridden_by (os : list ScopeOverride) : N :=
  foldl (λ acc o, acc .|. ov_Caps o) 0 os.

Lemma has_foldl_lor c os acc :
  single c →
  has (foldl (λ acc o, acc .|. ov_Caps o) acc os) c
    = has acc c || existsb (λ o, has (ov_Caps o) c) os.
Proof.
  intros Hc. revert acc. induction os as [|o os IH]; intros acc; simpl.
  - by rewrite orb_false_r.
  - rewrite IH, has_lor by done. by rewrite orb_assoc.
Qed.

Lemma has_overridden_by c os :
  single c → has (overridden_by os) c = existsb (λ o, has (ov_Caps o) c) os.
Proof. intros Hc. unfold overridden_by. by rewrite has_foldl_lor, has_0. Qed.

(** ** Normalised id lists *)

(** A task id as every scope carries it: 32 lower-case hex digits. *)
Definition valid_id (x : string) : Prop :=
  String.length x = TaskIDHexLen ∧ is_Some (DecodeString x) ∧ ToLower x = x.

(** The canonical spelling an id is reduced to, before it is checked. *)
Definition canon_id (x : string) : string := ToLower (TrimSpace x).

Lemma canon_id_valid x : valid_id x → canon_id x = x.
Proof.
  intros (_ & [bs Hbs] & Hl). unfold canon_id. rewrite TrimSpace_hex; [done|].
  by apply hex_decode_Some in Hbs as [? _].
Qed.

Lemma valid_id_canon x :
  String.length (canon_id x) = TaskIDHexLen → is_Some (DecodeString (canon_id x)) →
  valid_id (canon_id x).
Proof. intros ? ?. repeat split; [done..|]. apply ToLower_idem. Qed.

Lemma elem_of_normalize_loop seen ids x :
  x ∈ normalize_loop seen ids ↔ x ∉ seen ∧ valid_id x ∧ ∃ y, y ∈ ids ∧ x = canon_id y.
Proof.
  revert seen. induction ids as [|id ids IH]; intros seen; simpl; [set_solver|].
  fold (canon_id id).
  assert (∀ s', (x ∈ normalize_loop s' ids) ↔ x ∉ s' ∧ valid_id x ∧ ∃ y, y ∈ ids ∧ x = canon_id y) as IH'
    by (intros; apply IH).
  destruct (bool_decide_reflect (String.length (canon_id id) = TaskIDHexLen)) as [Hl|Hl]; simpl; cycle 1.
  { rewrite IH'. setoid_rewrite elem_of_cons. split; [naive_solver|].
    intros (? & Hx & y & [->|?] & ->); [by destruct Hx|naive_solver]. }
  destruct (DecodeString (canon_id id)) as [bs|] eqn:Hd; cycle 1.
  { rewrite IH'. setoid_rewrite elem_of_cons. split; [naive_solver|].
    intros (? & Hx & y & [->|?] & ->); [|naive_solver].
    destruct Hx as (_ & [? ?] & _). congruence. }
  assert (valid_id (canon_id id)) as Hv by (apply valid_id_canon; [done|by eexists]).
  destruct (bool_decide_reflect (canon_id id ∈ seen)) as [Hs|Hs].
  { rewrite IH'. setoid_rewrite elem_of_cons. naive_solver. }
  rewrite elem_of_cons, IH'. setoid_rewrite elem_of_cons. split.
  - intros [->|(Hx & ? & ?)]; [by eauto 10|]. set_solver.
  - intros (Hx & ? & y & [->|Hy] & ->); [by left|].
    destruct (decide (canon_id y = canon_id id)) as [->|]; [by left|right].
    split; [set_solver|]. eauto.
Qed.

Lemma normalize_loop_NoDup seen ids : NoDup (normalize_loop seen ids).
Proof.
  revert seen. induction ids as [|id ids IH]; intros seen; simpl; [constructor|].
  repeat case_match; auto. constructor; [|auto].
  rewrite elem_of_normalize_loop. set_solver.
Qed.

Lemma elem_of_NormalizeIDs ids x :
  x ∈ NormalizeIDs ids ↔ valid_id x ∧ ∃ y, y ∈ ids ∧ x = canon_id y.
Proof.
  unfold NormalizeIDs. rewrite elem_of_sort_strings, elem_of_normalize_loop. set_solver.
Qed.

Lemma NormalizeIDs_NoDup ids : NoDup (NormalizeIDs ids).
Proof. unfold NormalizeIDs. rewrite sort_strings_perm. apply normalize_loop_NoDup. Qed.

Lemma NormalizeIDs_sorted ids : Sorted String.le (NormalizeIDs ids).
Proof. apply sort_strings_sorted. Qed.

(** The invariant of an id list once ingested. *)
Definition ids_ok (ids : list string) : Prop :=
  Forall valid_id ids ∧ NoDup ids ∧ Sorted String.le ids.

Lemma NormalizeIDs_ok ids : ids_ok (NormalizeIDs ids).
Proof.
  split; [|split; [apply NormalizeIDs_NoDup|apply NormalizeIDs_sorted]].
  apply Forall_forall. intros x Hx. by apply elem_of_NormalizeIDs in Hx as [? _].
Qed.

Lemma normalize_loop_valid seen ids :
  Forall valid_id ids → NoDup ids → (∀ x, x ∈ ids → x ∉ seen) →
  normalize_loop seen ids = ids.
Proof.
  intros Hv. revert seen. induction Hv as [|x ids Hx _ IH]; intros seen Hnd Hs; simpl; [done|].
  fold (canon_id x). rewrite canon_id_valid by done.
  destruct Hx as (Hl & [bs Hd] & _). rewrite bool_decide_eq_true_2, Hd by done. simpl.
  rewrite bool_decide_eq_false_2 by (apply Hs; by left).
  apply NoDup_cons in Hnd as [Hn Hnd]. f_equal. apply IH; [done|].
  intros y Hy. specialize (Hs y ltac:(by right)). set_solver.
Qed.

Lemma NormalizeIDs_fixed ids : ids_ok ids → NormalizeIDs ids = ids.
Proof.
  intros (Hv & Hn & Hs). unfold NormalizeIDs. rewrite normalize_loop_valid by set_solver.
  by apply sort_strings_fixed.
Qed.

Lemma NormalizeIDs_idem ids : NormalizeIDs (NormalizeIDs ids) = NormalizeIDs ids.
Proof. apply NormalizeIDs_fixed, NormalizeIDs_ok. Qed.

#[export] Hint Resolve NormalizeIDs_ok : harness.

(** A valid id never looks like the prefixed consistency failure. *)
Lemma valid_id_not_invalid x : valid_id x → HasPrefix x "invalid scope: " = false.
Proof.
  intros (_ & [bs Hd] & _). apply not_true_iff_false. intros [t ->]%HasPrefix_spec.
  by apply hex_decode_Some in Hd as [[[? [=]] _]%Forall_cons _].
Qed.

(** ** Theorems *)

(** [NormalizeIDs] is determined by its specification: it holds exactly the
    canonical spellings that are 32 hex digits, sorted and without repetition,
    and any list with those three properties is the one it returns. *)
Theorem NormalizeIDs_spec (ids out : list string) :
  NormalizeIDs ids = out ↔
    (∀ x, x ∈ out ↔ valid_id x ∧ ∃ y, y ∈ ids ∧ x = canon_id y) ∧
    NoDup out ∧ Sorted String.le out.
Proof.
  split.
  - intros <-. split; [apply elem_of_NormalizeIDs|].
    split; [apply NormalizeIDs_NoDup|apply NormalizeIDs_sorted].
  - intros (Hm & Hn & Hs). apply (Sorted_unique String.le); [apply NormalizeIDs_sorted|done|].
    apply NoDup_Permutation; [apply NormalizeIDs_NoDup|done|].
    intros x. by rewrite elem_of_NormalizeIDs, Hm.
Qed.
