(* ===== verification/Sets.v ===== *)
(** * Target sets: [authority/sets.go]

    A Go [map[string]bool] that only ever holds [true] is a [gset string]; the
    creator index [map[string][]string] is a [gmap]; the pair [(all, allowed)]
    keeps its shape.  The worklist loop of [DescendantsOf] runs on fuel, the
    fuel it needs is given from the index, and the loop is proved to compute
    reachability. *)

From stdpp Require Import prelude gmap strings list sorting pretty relations.
From Stdlib Require Import NArith.
From S2P Require Import Prelude GoStrings Caps Scope.

Open Scope N_scope.
Open Scope stdpp_scope.
Set Default Goal Selector "!".

Definition CoversNewChild (s : Scope) (c : N) : bool :=
  let '(base, _, _) := ForCap s c in
  (base =? ScopeBase_Subtree) || (base =? ScopeBase_Global).

(** [children[x]], nil when absent. *)
Definition kids (children : gmap string (list string)) (x : string) : list string :=
  default [] (children !! x).

Fixpoint descendants_loop (fuel : nat) (children : gmap string (list string))
    (visited : gset string) (queue : list string) (allowed : gset string) : gset string :=
  match fuel with
  | O => allowed
  | S fuel' =>
      match queue with
      | [] => allowed
      | cur :: queue' =>
          if bool_decide (cur ∈ visited) then
            descendants_loop fuel' children visited queue' allowed
          else
            descendants_loop fuel' children ({[cur]} ∪ visited)
              (queue' ++ kids children cur) ({[cur]} ∪ allowed)
      end
  end.

(** The edges not yet expanded: what bounds the rest of the walk. *)
Definition pending (visited : gset string) (l : list (string * list string)) : nat :=
  sum_list_with (λ kv, if bool_decide (kv.1 ∈ visited) then 0%nat else length kv.2) l.

Definition descendants_fuel (children : gmap string (list string)) : nat :=
  (2 + pending ∅ (map_to_list children))%nat.

Definition DescendantsOf (children : gmap string (list string)) (selfHex : string)
    (allowed : gset string) : gset string :=
  descendants_loop (descendants_fuel children) children ∅ [selfHex] allowed.

Definition ActionSet (callerHex : string) (scope : Scope) (want : N)
    (children : gmap string (list string)) : bool * gset string :=
  let '(base, excludeSelf, ids) := ForCap scope want in
  if base =? ScopeBase_Global then (true, ∅)
  else
    let allowed := if negb excludeSelf then {[callerHex]} else ∅ in
    let allowed := list_to_set ids ∪ allowed in
    let allowed :=
      if base =? ScopeBase_Subtree then
        let allowed := DescendantsOf children callerHex allowed in
        if excludeSelf then allowed ∖ {[callerHex]} else allowed
      else allowed in
    (false, allowed).

Definition VisibleSet (callerHex : string) (scope : Scope)
    (children : gmap string (list string)) : bool * gset string :=
  let visRank := VisRank scope in
  if visRank =? ScopeBase_Global then (true, ∅)
  else
    let allowed := {[callerHex]} in
    let allowed := list_to_set (VisIDs scope) ∪ allowed in
    let allowed := list_to_set (IDs scope) ∪ allowed in
    let allowed := foldl (λ acc o, list_to_set (ov_IDs o) ∪ acc) allowed (Overrides scope) in
    let allowed :=
      if visRank =? ScopeBase_Subtree then DescendantsOf children callerHex allowed
      else allowed in
    (false, allowed).

(** ** Reading a set: [all || set[id]], as [inSet] and the server's gates do *)

Definition in_set (p : bool * gset string) (x : string) : bool :=
  p.1 || bool_decide (x ∈ p.2).

(** ** Reachability *)

Section reach.
Context (children : gmap string (list string)).

Definition child_of (a b : string) : Prop := b ∈ kids children a.
Definition descends (a b : string) : Prop := rtc child_of a b.

Definition closed_upto (visited : gset string) (queue : list string) : Prop :=
  ∀ v k, v ∈ visited → child_of v k → k ∈ visited ∨ k ∈ queue.

Lemma closed_walk visited queue v x :
  closed_upto visited queue → v ∈ visited → descends v x →
  x ∈ visited ∨ ∃ q, q ∈ queue ∧ descends q x.
Proof.
  intros Hc Hv Hr. revert Hv. induction Hr as [x|v k x Hvk Hkx IH]; intros Hv; [by left|].
  destruct (Hc v k Hv Hvk) as [Hk|Hk]; [by apply IH|]. right. by exists k.
Qed.

Lemma pending_cons_other visited cur l :
  cur ∉ l.*1 → pending ({[cur]} ∪ visited) l = pending visited l.
Proof.
  induction l as [|[k v] l IH]; simpl; intros H; [done|].
  apply not_elem_of_cons in H as [? ?]. unfold pending in *. simpl. rewrite IH by done.
  f_equal. repeat case_bool_decide; set_solver.
Qed.

Lemma pending_cons visited cur l :
  NoDup (l.*1) → cur ∉ visited →
  pending visited l =
    (length (default [] ((list_to_map l : gmap string (list string)) !! cur))
     + pending ({[cur]} ∪ visited) l)%nat.
Proof.
  intros Hnd Hcur. induction l as [|[k v] l IH]; simpl; [by rewrite lookup_empty|].
  simpl in Hnd. apply NoDup_cons in Hnd as [Hk Hnd]. specialize (IH Hnd).
  unfold pending in *. simpl. destruct (decide (k = cur)) as [->|Hne].
  - rewrite lookup_insert_eq. rewrite bool_decide_eq_false_2 by done.
    rewrite bool_decide_eq_true_2 by set_solver. simpl.
    pose proof (pending_cons_other visited cur l Hk) as E. unfold pending in E. rewrite E. lia.
  - rewrite lookup_insert_ne by done. rewrite IH.
    rewrite (bool_decide_ext (k ∈ {[cur]} ∪ visited) (k ∈ visited)) by set_solver. lia.
Qed.

Lemma pending_step visited cur :
  cur ∉ visited →
  pending visited (map_to_list children) =
    (length (kids children cur) + pending ({[cur]} ∪ visited) (map_to_list children))%nat.
Proof.
  intros H. rewrite (pending_cons visited cur) by (done || apply NoDup_fst_map_to_list).
  by rewrite list_to_map_to_list.
Qed.

Lemma descendants_loop_sound fuel visited queue allowed x :
  x ∈ descendants_loop fuel children visited queue allowed →
  x ∈ allowed ∨ ∃ q, q ∈ queue ∧ descends q x.
Proof.
  revert visited queue allowed. induction fuel as [|fuel IH]; intros visited queue allowed; simpl; [by left|].
  destruct queue as [|cur queue]; [by left|]. case_bool_decide as Hv; intros Hx%IH.
  - destruct Hx as [?|(q & ? & ?)]; [by left|]. right. exists q. split; [by right|done].
  - destruct Hx as [[->%elem_of_singleton|?]%elem_of_union|(q & [?|Hq]%elem_of_app & ?)].
    + right. exists cur. split; [by left|apply rtc_refl].
    + by left.
    + right. exists q. split; [by right|done].
    + right. exists cur. split; [by left|]. by apply rtc_l with q.
Qed.

Lemma descendants_loop_complete fuel visited queue allowed x :
  (length queue + pending visited (map_to_list children) < fuel)%nat →
  closed_upto visited queue → visited ⊆ allowed →
  (x ∈ allowed ∨ ∃ q, q ∈ queue ∧ descends q x) →
  x ∈ descendants_loop fuel children visited queue allowed.
Proof.
  revert visited queue allowed.
  induction fuel as [|fuel IH]; intros visited queue allowed Hf Hc Hsub Hx; [lia|]. simpl.
  destruct queue as [|cur queue].
  { destruct Hx as [?|(q & Hq & _)]; [done|]. by apply not_elem_of_nil in Hq. }
  simpl in Hf. case_bool_decide as Hv.
  - assert (closed_upto visited queue) as Hc'.
    { intros v k ? Hk. destruct (Hc v k) as [?|[->|?]%elem_of_cons]; auto. }
    apply IH; [lia|done|done|].
    destruct Hx as [?|(q & [->|?]%elem_of_cons & Hr)]; [by left| |eauto].
    destruct (closed_walk _ _ _ _ Hc' Hv Hr); [left; set_solver|eauto].
  - apply IH.
    + rewrite length_app. pose proof (pending_step visited cur Hv). lia.
    + intros v k [->%elem_of_singleton|?]%elem_of_union Hk.
      * right. apply elem_of_app. by right.
      * destruct (Hc v k) as [?|[->|?]%elem_of_cons]; [done|done|..]; set_solver.
    + set_solver.
    + destruct Hx as [?|(q & [->|?]%elem_of_cons & Hr)]; [set_solver| |].
      * destruct (rtc_inv _ _ Hr) as [->|(k & ? & ?)]; [set_solver|].
        right. exists k. split; [|done]. apply elem_of_app. by right.
      * right. exists q. split; [|done]. apply elem_of_app. by left.
Qed.

Lemma elem_of_DescendantsOf self allowed x :
  x ∈ DescendantsOf children self allowed ↔ x ∈ allowed ∨ descends self x.
Proof.
  unfold DescendantsOf. split.
  - intros [?|(q & ->%list_elem_of_singleton & ?)]%descendants_loop_sound; auto.
  - intros Hx. apply descendants_loop_complete.
    + unfold descendants_fuel. simpl. lia.
    + intros v k Hv. set_solver.
    + set_solver.
    + destruct Hx; [by left|]. right. exists self. split; [by left|done].
Qed.
End reach.

#[export] Instance descends_refl children : Reflexive (descends children).
Proof. intros x. apply rtc_refl. Qed.
#[export] Instance descends_trans children : Transitive (descends children).
Proof. intros x y z. unfold descends. apply transitivity. Qed.

(** Reachability is decided by the walk itself. *)
#[export] Instance descends_dec children a b : Decision (descends children a b).
Proof.
  refine (cast_if (decide (b ∈ DescendantsOf children a ∅)));
    pose proof (elem_of_DescendantsOf children a ∅ b); set_solver.
Defined.

(** One index extends another: every list has only grown. *)
Definition index_le (c1 c2 : gmap string (list string)) : Prop :=
  ∀ x y, y ∈ kids c1 x → y ∈ kids c2 x.

#[export] Instance index_le_refl : Reflexive index_le.
Proof. intros c x y. done. Qed.

Lemma index_le_empty c : index_le ∅ c.
Proof. intros x y. unfold kids. rewrite lookup_empty. simpl. intros H. by apply not_elem_of_nil in H. Qed.
#[export] Hint Resolve index_le_empty : harness.

Lemma descends_mono c1 c2 a b : index_le c1 c2 → descends c1 a b → descends c2 a b.
Proof. intros H. unfold descends. apply rtc_congruence with (f := id). intros x y. apply H. Qed.

Lemma descends_child children p c x :
  c ∈ kids children p → descends children c x → descends children p x.
Proof. intros H ?. by apply rtc_l with c. Qed.

(** ** The sets, element by element *)

(** Membership in a target set described by a base, an exclude flag and ids. *)
Definition covers (hex : string) (b : N) (excl : bool) (ids : list string)
    (children : gmap string (list string)) (x : string) : Prop :=
  b = ScopeBase_Global ∨
  (b = ScopeBase_Subtree ∧ descends children hex x ∧ (excl = true → x ≠ hex)) ∨
  (x = hex ∧ excl = false) ∨
  (x ∈ ids ∧ (b = ScopeBase_Subtree → excl = true → x ≠ hex)).

(** Excluding self only narrows. *)
Lemma covers_excl hex b e e' ids children x :
  (e = true → e' = true) →
  covers hex b e' ids children x → covers hex b e ids children x.
Proof.
  intros He. unfold covers. intros [?|[(?&?&?)|[[? Hf]|[? ?]]]]; [tauto|tauto| |tauto].
  right. right. left. split; [done|]. destruct e; [|done]. by rewrite He in Hf.
Qed.

Lemma in_ActionSet hex s c children x :
  in_set (ActionSet hex s c children) x = true ↔
    let '(b, excl, ids) := ForCap s c in covers hex b excl ids children x.
Proof.
  unfold ActionSet, in_set, covers. destruct (ForCap s c) as [[b excl] ids].
  destruct (N.eqb_spec b ScopeBase_Global) as [->|Hg]; simpl; [naive_solver|].
  rewrite bool_decide_eq_true.
  destruct (N.eqb_spec b ScopeBase_Subtree) as [->|Hs]; destruct excl; simpl;
    rewrite ?elem_of_difference, ?elem_of_DescendantsOf, ?elem_of_union,
      ?elem_of_list_to_set, ?elem_of_singleton, ?elem_of_empty; naive_solver.
Qed.

Lemma elem_of_foldl_ids os (acc : gset string) x :
  x ∈ foldl (λ acc o, list_to_set (ov_IDs o) ∪ acc) acc os ↔
    x ∈ acc ∨ ∃ o, o ∈ os ∧ x ∈ ov_IDs o.
Proof.
  revert acc. induction os as [|o os IH]; intros acc; simpl; [set_solver|].
  rewrite IH, elem_of_union, elem_of_list_to_set. set_solver.
Qed.

(** The ids a scope discloses on top of its visibility rank. *)
Definition discloses (s : Scope) (x : string) : Prop :=
  x ∈ VisIDs s ∨ x ∈ IDs s ∨ ∃ o, o ∈ Overrides s ∧ x ∈ ov_IDs o.

Lemma in_VisibleSet hex s children x :
  in_set (VisibleSet hex s children) x = true ↔
    VisRank s = ScopeBase_Global ∨
    (VisRank s = ScopeBase_Subtree ∧ descends children hex x) ∨ x = hex ∨ discloses s x.
Proof.
  unfold VisibleSet, in_set, discloses.
  destruct (N.eqb_spec (VisRank s) ScopeBase_Global) as [->|Hg]; simpl; [naive_solver|].
  rewrite bool_decide_eq_true.
  destruct (N.eqb_spec (VisRank s) ScopeBase_Subtree) as [->|Hs]; simpl;
    rewrite ?elem_of_DescendantsOf, !elem_of_foldl_ids, !elem_of_union,
      !elem_of_list_to_set, elem_of_singleton; naive_solver.
Qed.

Lemma VisibleSet_self hex s children : in_set (VisibleSet hex s children) hex = true.
Proof. rewrite in_VisibleSet. auto. Qed.

(** Growth of the index only adds targets. *)
Lemma covers_index_mono c1 c2 hex b excl ids x :
  index_le c1 c2 → covers hex b excl ids c1 x → covers hex b excl ids c2 x.
Proof. intros H. unfold covers. naive_solver eauto using descends_mono. Qed.

Lemma ActionSet_index_mono c1 c2 hex s c x :
  index_le c1 c2 → in_set (ActionSet hex s c c1) x = true → in_set (ActionSet hex s c c2) x = true.
Proof.
  intros H. rewrite !in_ActionSet. destruct (ForCap s c) as [[b excl] ids].
  by apply covers_index_mono.
Qed.

Lemma VisibleSet_index_mono c1 c2 hex s x :
  index_le c1 c2 → in_set (VisibleSet hex s c1) x = true → in_set (VisibleSet hex s c2) x = true.
Proof. intros H. rewrite !in_VisibleSet. naive_solver eauto using descends_mono. Qed.

(** ** Theorems *)

(** C39. [DescendantsOf] terminates and marks exactly the tasks reachable through the
    creator index, cycles included: the fuel taken from the index is enough (any
    more changes nothing), and the result is [allowed] plus the reflexive
    transitive closure of the index from [selfHex]. *)
Theorem DescendantsOf_reachability (children : gmap string (list string)) (selfHex : string)
    (allowed : gset string) :
  (∀ fuel, (descendants_fuel children ≤ fuel)%nat →
     descendants_loop fuel children ∅ [selfHex] allowed = DescendantsOf children selfHex allowed) ∧
  (∀ x, x ∈ DescendantsOf children selfHex allowed ↔
     x ∈ allowed ∨ rtc (λ a b, b ∈ kids children a) selfHex x).
Proof.
  split; [|apply elem_of_DescendantsOf].
  intros fuel Hf. apply set_eq. intros x. rewrite elem_of_DescendantsOf. split.
  - intros [?|(q & ->%list_elem_of_singleton & ?)]%descendants_loop_sound; auto.
  - intros Hx. apply descendants_loop_complete.
    + unfold descendants_fuel in Hf. simpl. lia.
    + intros v k Hv. set_solver.
    + set_solver.
    + destruct Hx; [by left|]. right. exists selfHex. split; [by left|done].
Qed.

(** [CoversNewChild] predicts [ActionSet]: for a task that did not exist when
    the scope was written (its id is in no list) and is now indexed under the
    caller, the prediction made from the scope alone is the membership test. *)
Theorem CoversNewChild_agrees (s : Scope) (c : N) (hex child : string)
    (children : gmap string (list string)) :
  child ∈ kids children hex → child ≠ hex → child ∉ (ForCap s c).2 →
  in_set (ActionSet hex s c children) child = CoversNewChild s c.
Proof.
  intros Hk Hne Hid. apply eq_true_iff_eq. rewrite in_ActionSet. unfold CoversNewChild.
  destruct (ForCap s c) as [[b excl] ids]. simpl in Hid.
  assert (descends children hex child) by (apply (descends_child _ _ child); [done|reflexivity]).
  rewrite orb_true_iff, !N.eqb_eq. unfold covers. naive_solver.
Qed.

Lemma CoversNewChild_agrees_witness :
  in_set (ActionSet "p" DefaultScope Capability_Cancel {["p" := ["a"; "b"]]}) "b"
    = CoversNewChild DefaultScope Capability_Cancel.
Proof.
  apply CoversNewChild_agrees; simpl.
  - unfold kids. rewrite lookup_singleton_eq. simpl. right. left.
  - discriminate.
  - unfold DefaultScope, ForCap. simpl. apply not_elem_of_nil.
Defined.
