(* ===== verification/Reach.v ===== *)
(** * What a granter covers: [authority/reach.go]

    [Reach] measures one granting task.  [Reaches] fills a per-bit table of
    target sets as it is asked; the table is part of the state here, with
    [Some ∅]-style sets for computed ones and [None] for the source's nil map,
    which stands for "every task".  [BoundRanks] rewrites a scope so that each
    held bit resolves to at most the granter's rank for it. *)

From stdpp Require Import prelude gmap strings list sorting pretty.
From Stdlib Require Import NArith.
From S2P Require Import Prelude GoStrings Caps Scope Sets.

Open Scope N_scope.
Open Scope stdpp_scope.
Set Default Goal Selector "!".

Record Reach := mkReach {
  r_hex : string;
  r_scope : Scope;
  r_children : gmap string (list string);
  r_visAll : bool;
  r_vis : gset string;
  r_sets : gmap N (option (gset string));
}.

Definition NewReach (hex : string) (scope : Scope) (children : gmap string (list string)) : Reach :=
  let '(visAll, vis) := VisibleSet hex scope children in
  {| r_hex := hex; r_scope := scope; r_children := children;
     r_visAll := visAll; r_vis := vis; r_sets := ∅ |}.

(** *** [BoundRanks] and its local functions *)

Definition bound_rank (r : Reach) (rank bit : N) : N :=
  let '(b, _, _) := ForCap (r_scope r) bit in MinBase rank b.

(** The loop of [split]: (stay, byRank) after the bits of a list. *)
Definition split_loop (bound : N → N) (keep bits : N) (l : list N) : N * gmap N N :=
  foldl (λ '(stay, byRank) bit,
    if bits .&. bit =? 0 then (stay, byRank)
    else
      let b := bound bit in
      if negb (b =? keep) then (stay, <[b := default 0 (byRank !! b) .|. bit]> byRank)
      else (stay .|. bit, byRank)) (0, ∅) l.

Definition split_entry (bound : N → N) (keep bits : N) : N * list ScopeOverride :=
  let '(stay, byRank) := split_loop bound keep bits each_cap in
  let moved := flat_map (λ b,
    let m := default 0 (byRank !! b) in
    if negb (m =? 0)
    then [{| ov_Caps := m; ov_Base := b; ov_ExcludeSelf := false; ov_IDs := [] |}]
    else []) [ScopeBase_None; ScopeBase_Subtree; ScopeBase_Global] in
  (stay, moved).

Definition withEntry (pieces : list ScopeOverride) (excl : bool) (ids : list string)
    : list ScopeOverride :=
  (λ p, {| ov_Caps := ov_Caps p; ov_Base := ov_Base p; ov_ExcludeSelf := excl; ov_IDs := ids |})
    <$> pieces.

(** The pieces one override entry is rewritten to. *)
Definition bound_entry (r : Reach) (held : N) (o : ScopeOverride) : list ScopeOverride :=
  let keep := MinBase (ov_Base o) (Base (r_scope r)) in
  let '(stay, moved) := split_entry (bound_rank r (ov_Base o)) keep (ov_Caps o .&. held) in
  let main := stay .|. (ov_Caps o .&^. held) in
  (if negb (main =? 0)
   then [{| ov_Caps := main; ov_Base := keep; ov_ExcludeSelf := ov_ExcludeSelf o; ov_IDs := ov_IDs o |}]
   else [])
  ++ withEntry moved (ov_ExcludeSelf o) (ov_IDs o).

Definition BoundRanks (r : Reach) (s : Scope) (held : N) : Scope :=
  let base := MinBase (Base s) (Base (r_scope r)) in
  let overridden := overridden_by (Overrides s) in
  let '(_, moved) := split_entry (bound_rank r (Base s)) base
      (held .&^. overridden .&^. Capability_Spawn) in
  {| Base := base; IDs := IDs s; VisBase := VisBase s; VisBasePresent := VisBasePresent s;
     ExcludeSelf := ExcludeSelf s; VisIDs := VisIDs s;
     Overrides := flat_map (bound_entry r held) (Overrides s)
                  ++ withEntry moved (ExcludeSelf s) (IDs s) |}.

(** *** [Reaches] *)

Definition set_sets (r : Reach) (sets : gmap N (option (gset string))) : Reach :=
  {| r_hex := r_hex r; r_scope := r_scope r; r_children := r_children r;
     r_visAll := r_visAll r; r_vis := r_vis r; r_sets := sets |}.

(** The table lookup of one bit, filling the entry on a miss. *)
Definition reach_set (r : Reach) (bit : N) : option (gset string) * Reach :=
  match r_sets r !! bit with
  | Some set => (set, r)
  | None =>
      let '(all, allowed) := ActionSet (r_hex r) (r_scope r) bit (r_children r) in
      let set := if negb all then Some allowed else None in
      (set, set_sets r (<[bit := set]> (r_sets r)))
  end.

Fixpoint reaches_loop (r : Reach) (id : string) (bits : N) (l : list N) : bool * Reach :=
  match l with
  | [] => (true, r)
  | bit :: l' =>
      if bits .&. bit =? 0 then reaches_loop r id bits l'
      else
        let '(set, r) := reach_set r bit in
        match set with
        | Some m => if bool_decide (id ∈ m) then reaches_loop r id bits l' else (false, r)
        | None => reaches_loop r id bits l'
        end
  end.

Definition Reaches (r : Reach) (id : string) (bits : N) : bool * Reach :=
  if negb (r_visAll r) && negb (bool_decide (id ∈ r_vis r)) then (false, r)
  else reaches_loop r id bits each_cap.

(** The answer alone.  Callers below use it: the table only saves work
    ([Reaches_cache_transparent]). *)
Definition reaches (r : Reach) (id : string) (bits : N) : bool := (Reaches r id bits).1.

(** ** The table of target sets *)

Definition computed_set (r : Reach) (bit : N) : option (gset string) :=
  let '(all, allowed) := ActionSet (r_hex r) (r_scope r) bit (r_children r) in
  if negb all then Some allowed else None.

(** The invariant of a [Reach]: its stored sets are the ones its task has. *)
Definition reach_wf (r : Reach) : Prop :=
  (r_visAll r, r_vis r) = VisibleSet (r_hex r) (r_scope r) (r_children r) ∧
  ∀ bit set, r_sets r !! bit = Some set → set = computed_set r bit.

(** Same task, whatever the table holds. *)
Definition same_task (r r' : Reach) : Prop :=
  r_hex r' = r_hex r ∧ r_scope r' = r_scope r ∧ r_children r' = r_children r.

Lemma NewReach_wf hex s children : reach_wf (NewReach hex s children).
Proof.
  unfold NewReach, reach_wf. destruct (VisibleSet hex s children) as [a v] eqn:E. simpl.
  split; [done|]. intros bit set. by rewrite lookup_empty.
Qed.

Lemma NewReach_hex hex s children : r_hex (NewReach hex s children) = hex.
Proof. unfold NewReach. by destruct (VisibleSet _ _ _). Qed.
Lemma NewReach_scope hex s children : r_scope (NewReach hex s children) = s.
Proof. unfold NewReach. by destruct (VisibleSet _ _ _). Qed.
Lemma NewReach_children hex s children : r_children (NewReach hex s children) = children.
Proof. unfold NewReach. by destruct (VisibleSet _ _ _). Qed.

#[export] Hint Resolve NewReach_wf : harness.
#[export] Hint Rewrite NewReach_hex NewReach_scope NewReach_children : harness.

#[export] Instance same_task_refl : Reflexive same_task.
Proof. intros r. done. Qed.
#[export] Instance same_task_trans : Transitive same_task.
Proof. intros x y z (?&?&?) (?&?&?). unfold same_task. split_and!; congruence. Qed.

Lemma reach_set_spec r bit :
  reach_wf r →
  let '(set, r') := reach_set r bit in
  set = computed_set r bit ∧ reach_wf r' ∧ same_task r r'.
Proof.
  intros [Hv Hs]. unfold reach_set. destruct (r_sets r !! bit) as [set|] eqn:E.
  { split; [by apply Hs|]. split; [by split|reflexivity]. }
  fold (computed_set r bit).
  assert (∀ m, (∀ b set, m !! b = Some set → set = computed_set r b) → reach_wf (set_sets r m)) as Hwf
    by (intros m Hm; split; [done|intros b set Hb; by apply Hm in Hb]).
  unfold computed_set. destruct (ActionSet _ _ bit _) as [all allowed] eqn:Ea.
  split; [done|]. split; [|done]. apply Hwf. intros b set.
  rewrite lookup_insert. case_decide as Hb; [|apply Hs].
  intros [= <-]. subst b. unfold computed_set. by rewrite Ea.
Qed.

Lemma computed_set_in r bit id :
  match computed_set r bit with Some m => id ∈ m | None => True end ↔
  in_set (ActionSet (r_hex r) (r_scope r) bit (r_children r)) id = true.
Proof.
  unfold computed_set, in_set. destruct (ActionSet _ _ _ _) as [[] m]; simpl; [done|].
  by rewrite bool_decide_eq_true.
Qed.

Lemma reaches_loop_spec r id bits l :
  reach_wf r →
  let '(b, r') := reaches_loop r id bits l in
  (b = true ↔ ∀ c, c ∈ l → has bits c = true →
     in_set (ActionSet (r_hex r) (r_scope r) c (r_children r)) id = true) ∧
  reach_wf r' ∧ same_task r r'.
Proof.
  revert r. induction l as [|c l IH]; intros r Hwf; simpl.
  { split; [|done]. split; [|done]. intros _ c Hc. by apply not_elem_of_nil in Hc. }
  destruct (bits .&. c =? 0) eqn:Eb.
  { specialize (IH r Hwf). destruct (reaches_loop r id bits l) as [b r'].
    destruct IH as [IH ?]. split; [|done]. rewrite IH. setoid_rewrite elem_of_cons.
    split; [|naive_solver]. intros Hl c' [->|?]; [|naive_solver].
    unfold has. by rewrite Eb. }
  assert (has bits c = true) as Hb by (unfold has; by rewrite Eb).
  pose proof (reach_set_spec r c Hwf) as Hset. destruct (reach_set r c) as [set r1].
  destruct Hset as (-> & Hwf1 & Hst1). specialize (IH r1 Hwf1).
  pose proof (computed_set_in r c id) as Hin.
  destruct Hst1 as (Eh & Es & Ec). rewrite Eh, Es, Ec in IH.
  assert (∀ P : Prop, (P ↔ ∀ c', c' ∈ l → has bits c' = true →
      in_set (ActionSet (r_hex r) (r_scope r) c' (r_children r)) id = true) →
    in_set (ActionSet (r_hex r) (r_scope r) c (r_children r)) id = true →
    (P ↔ ∀ c', c' ∈ c :: l → has bits c' = true →
      in_set (ActionSet (r_hex r) (r_scope r) c' (r_children r)) id = true)) as Hext.
  { intros P -> H0. setoid_rewrite elem_of_cons. naive_solver. }
  assert (∀ r', same_task r1 r' → same_task r r') as Htr by (intros r' ?; etrans; [|done]; done).
  destruct (computed_set r c) as [m|].
  - case_bool_decide as Hm.
    + destruct (reaches_loop r1 id bits l) as [b r']. destruct IH as (IH & ? & ?).
      split; [apply Hext; [done|by apply Hin]|auto].
    + split; [|split; [done|apply Htr; reflexivity]]. split; [done|]. intros Hall.
      destruct Hm. apply Hin, Hall; [by left|done].
  - destruct (reaches_loop r1 id bits l) as [b r']. destruct IH as (IH & ? & ?).
    split; [apply Hext; [done|by apply Hin]|auto].
Qed.

Lemma Reaches_wf r id bits :
  reach_wf r → reach_wf (Reaches r id bits).2 ∧ same_task r (Reaches r id bits).2.
Proof.
  intros Hwf. unfold Reaches. case_match; [done|].
  pose proof (reaches_loop_spec r id bits each_cap Hwf) as Hloop.
  destruct (reaches_loop r id bits each_cap). simpl. tauto.
Qed.

(** What the question means. *)
Lemma reaches_spec r id bits :
  reach_wf r →
  reaches r id bits = true ↔
    in_set (VisibleSet (r_hex r) (r_scope r) (r_children r)) id = true ∧
    ∀ c, c ∈ each_cap → has bits c = true →
      in_set (ActionSet (r_hex r) (r_scope r) c (r_children r)) id = true.
Proof.
  intros Hwf. unfold reaches, Reaches.
  pose proof (reaches_loop_spec r id bits each_cap Hwf) as Hloop.
  destruct Hwf as [Hv _]. rewrite <-Hv. unfold in_set at 1. simpl.
  destruct (reaches_loop r id bits each_cap) as [b r']. destruct Hloop as [Hloop _].
  destruct (r_visAll r), (bool_decide (id ∈ r_vis r)); simpl; rewrite ?Hloop; clear;
    split; try done; intros [? ?]; done.
Qed.

Lemma reaches_same r r' id bits :
  reach_wf r → reach_wf r' → same_task r r' → reaches r' id bits = reaches r id bits.
Proof.
  intros Hr Hr' (E1 & E2 & E3). apply eq_true_iff_eq.
  rewrite !reaches_spec by done. by rewrite E1, E2, E3.
Qed.

Lemma reaches_NewReach hex s children id bits :
  reaches (NewReach hex s children) id bits = true ↔
    in_set (VisibleSet hex s children) id = true ∧
    ∀ c, c ∈ each_cap → has bits c = true → in_set (ActionSet hex s c children) id = true.
Proof.
  rewrite reaches_spec by auto with harness.
  by rewrite NewReach_hex, NewReach_scope, NewReach_children.
Qed.

(** A run of questions against one [Reach], the table threaded through. *)
Fixpoint ask_all (r : Reach) (qs : list (string * N)) : list bool :=
  match qs with
  | [] => []
  | (id, bits) :: qs' => let '(b, r') := Reaches r id bits in b :: ask_all r' qs'
  end.

(** The per-bit table never changes an answer: a run of questions, in any order,
    gets what each question gets against a fresh [Reach] of the same task. *)
Theorem Reaches_cache_transparent (hex : string) (s : Scope)
    (children : gmap string (list string)) (qs : list (string * N)) :
  ask_all (NewReach hex s children) qs =
    map (λ '(id, bits), reaches (NewReach hex s children) id bits) qs.
Proof.
  assert (∀ r, reach_wf r → same_task (NewReach hex s children) r →
    ask_all r qs = map (λ '(id, bits), reaches (NewReach hex s children) id bits) qs) as H.
  { induction qs as [|[id bits] qs IH]; intros r Hwf Hst; simpl; [done|].
    pose proof (Reaches_wf r id bits Hwf) as [Hwf' Hst'].
    pose proof (reaches_same _ r id bits (NewReach_wf hex s children) Hwf Hst) as E.
    unfold reaches in E at 1. destruct (Reaches r id bits) as [b r']. simpl in *.
    f_equal; [done|]. apply IH; [done|]. by etrans. }
  apply H; [apply NewReach_wf|reflexivity].
Qed.

(** ** [split], bit by bit *)

Lemma split_loop_spec bound keep bits l c :
  (∀ b, b ∈ l → single b) → single c →
  has (split_loop bound keep bits l).1 c
    = bool_decide (c ∈ l) && has bits c && (bound c =? keep) ∧
  ∀ b, has (default 0 ((split_loop bound keep bits l).2 !! b)) c
    = bool_decide (c ∈ l) && has bits c && ((bound c =? b) && negb (b =? keep)).
Proof.
  intros Hl Hc. induction l as [|x l IH] using rev_ind.
  { unfold split_loop. simpl. rewrite has_0. split; [done|]. intros b.
    by rewrite lookup_empty, has_0. }
  destruct IH as [IH1 IH2]; [intros b Hb; apply Hl; set_solver|].
  assert (single x) as Hx by (apply Hl; set_solver).
  assert (bool_decide (c ∈ l ++ [x]) = bool_decide (c ∈ l) || bool_decide (x = c)) as ->.
  { rewrite <-bool_decide_or. apply bool_decide_ext. set_solver. }
  unfold split_loop in *. rewrite foldl_app. simpl.
  destruct (foldl _ _ l) as [stay byRank]. simpl in IH1, IH2.
  pose proof (has_other x c Hx Hc) as Exc.
  destruct (bits .&. x =? 0) eqn:Eb.
  { simpl. destruct (bool_decide_reflect (x = c)) as [->|Hne]; rewrite ?orb_false_r; [|done].
    assert (has bits c = false) as Ebc by (unfold has; by rewrite Eb).
    split; [rewrite IH1|intros b; rewrite IH2]; rewrite Ebc; by rewrite !andb_false_r. }
  assert (has bits x = true) as Ebx by (unfold has; by rewrite Eb).
  destruct (N.eqb_spec (bound x) keep) as [Hk|Hk]; simpl.
  - rewrite has_lor, Exc, IH1 by done.
    destruct (bool_decide_reflect (x = c)) as [->|Hne]; rewrite ?orb_false_r; [|done].
    rewrite Ebx, Hk, N.eqb_refl, !orb_true_r. split; [done|]. intros b. rewrite IH2, Ebx, Hk.
    rewrite (N.eqb_sym keep b). by destruct (b =? keep), (bool_decide (c ∈ l)).
  - rewrite IH1. split.
    + destruct (bool_decide_reflect (x = c)) as [->|Hne]; rewrite ?orb_false_r; [|done].
      rewrite (proj2 (N.eqb_neq _ _) Hk). by rewrite !andb_false_r.
    + intros b. rewrite lookup_insert. destruct (decide (bound x = b)) as [Hb|Hb].
      * subst b. simpl. rewrite has_lor, Exc, IH2 by done.
        destruct (bool_decide_reflect (x = c)) as [->|Hne]; rewrite ?orb_false_r; [|done].
        rewrite Ebx, N.eqb_refl, (proj2 (N.eqb_neq _ _) Hk), !orb_true_r. done.
      * rewrite IH2. destruct (bool_decide_reflect (x = c)) as [->|Hne]; rewrite ?orb_false_r; [|done].
        rewrite (proj2 (N.eqb_neq (bound c) b) Hb). by rewrite !andb_false_r.
Qed.

Lemma split_entry_stay bound keep bits c :
  c ∈ each_cap →
  has (split_entry bound keep bits).1 c = has bits c && (bound c =? keep).
Proof.
  intros Hc. unfold split_entry.
  pose proof (split_loop_spec bound keep bits each_cap c each_cap_single (each_cap_single c Hc)) as [H _].
  destruct (split_loop bound keep bits each_cap) as [stay byRank]. simpl in *.
  by rewrite H, bool_decide_eq_true_2.
Qed.

Lemma split_entry_moved bound keep bits p :
  p ∈ (split_entry bound keep bits).2 →
  known_base (ov_Base p) ∧ ov_Caps p ≠ 0 ∧
  ∀ c, single c →
    has (ov_Caps p) c = bool_decide (c ∈ each_cap) && has bits c
                        && ((bound c =? ov_Base p) && negb (ov_Base p =? keep)).
Proof.
  unfold split_entry.
  pose proof (λ c, split_loop_spec bound keep bits each_cap c each_cap_single) as H.
  destruct (split_loop bound keep bits each_cap) as [stay byRank]. cbn [fst snd] in *.
  intros (b & Hb & Hp)%elem_of_flat_map.
  destruct (negb _) eqn:Hz; [|by apply not_elem_of_nil in Hp].
  apply list_elem_of_singleton in Hp as ->. simpl. breflect. split_and!.
  - unfold known_base. set_solver.
  - done.
  - intros c Hc. by destruct (H c Hc) as [_ ->].
Qed.

Lemma split_entry_moves bound keep bits c :
  c ∈ each_cap → has bits c = true → bound c ≠ keep → known_base (bound c) →
  ∃ p, p ∈ (split_entry bound keep bits).2 ∧ has (ov_Caps p) c = true.
Proof.
  intros Hc Hb Hk Hkn. unfold split_entry.
  pose proof (split_loop_spec bound keep bits each_cap c each_cap_single (each_cap_single c Hc)) as [_ H].
  destruct (split_loop bound keep bits each_cap) as [stay byRank]. cbn [fst snd] in *.
  specialize (H (bound c)).
  rewrite bool_decide_eq_true_2, Hb, N.eqb_refl, (proj2 (N.eqb_neq _ _) Hk) in H by done.
  exists (mkOverride (default 0 (byRank !! bound c)) (bound c) false []). split; [|exact H].
  apply elem_of_flat_map. exists (bound c). split.
  - unfold known_base in Hkn. set_solver.
  - rewrite (proj2 (N.eqb_neq _ _) (has_nonzero _ _ H)). simpl. by left.
Qed.

(** ** [BoundRanks], bit by bit *)

(** The granter's rank for a bit. *)
Definition granted_rank (r : Reach) (c : N) : N := (ForCap (r_scope r) c).1.1.

Lemma bound_rank_eq r rank c : bound_rank r rank c = MinBase rank (granted_rank r c).
Proof. unfold bound_rank, granted_rank. by destruct (ForCap (r_scope r) c) as [[? ?] ?]. Qed.

(** A bound that must move is one [split] has a piece for, as soon as the
    granter's rank for the bit is a base the schema names. *)
Lemma bound_known r rank c :
  known_base (granted_rank r c) →
  bound_rank r rank c = MinBase rank (Base (r_scope r)) ∨ known_base (bound_rank r rank c).
Proof.
  intros Hk. rewrite bound_rank_eq.
  destruct (MinBase_choice rank (granted_rank r c)) as [->| ->]; [|by right].
  destruct (decide (known_base rank)) as [|Hn]; [by right|left].
  unfold MinBase. assert (BaseRank rank = 0) as ->.
  { apply BaseRank_0. unfold known_base in Hn. naive_solver. }
  by destruct (BaseRank _).
Qed.

Lemma find_first_withEntry c pieces excl ids :
  find_first (λ o, has (ov_Caps o) c) (withEntry pieces excl ids) =
    (λ p, mkOverride (ov_Caps p) (ov_Base p) excl ids)
      <$> find_first (λ o, has (ov_Caps o) c) pieces.
Proof. induction pieces as [|p ps IH]; simpl; [done|]. by destruct (has (ov_Caps p) c). Qed.

(** One override entry: its bits, and only they, resolve in its pieces; a held
    bit to the minimum of its rank and the granter's for the bit. *)
Lemma bound_entry_other r held o c :
  c ∈ each_cap → has (ov_Caps o) c = false →
  find_first (λ o, has (ov_Caps o) c) (bound_entry r held o) = None.
Proof.
  intros Hc Ho. unfold bound_entry.
  set (bd := bound_rank r (ov_Base o)). set (keep := MinBase _ _).
  pose proof (split_entry_stay bd keep (ov_Caps o .&. held) c Hc) as Hs.
  pose proof (split_entry_moved bd keep (ov_Caps o .&. held)) as Hm.
  destruct (split_entry _ _ _) as [stay moved]. simpl in Hs, Hm.
  pose proof (each_cap_single c Hc) as Hsc.
  rewrite has_land, Ho in Hs by done. simpl in Hs.
  apply find_first_None. intros p [Hp|Hp]%elem_of_app.
  - destruct (negb _) in Hp; [|set_solver]. apply list_elem_of_singleton in Hp as ->. simpl.
    push_has. by rewrite Hs, Ho.
  - unfold withEntry in Hp. apply list_elem_of_fmap in Hp as (q & -> & Hq). simpl.
    destruct (Hm q Hq) as (_ & _ & Hqc). rewrite Hqc by done. push_has. rewrite Ho.
    by destruct (bool_decide _).
Qed.

Lemma bound_entry_held r held o c :
  c ∈ each_cap → has (ov_Caps o) c = true → has held c = true → known_base (granted_rank r c) →
  ∃ m, find_first (λ o, has (ov_Caps o) c) (bound_entry r held o)
    = Some (mkOverride m (MinBase (ov_Base o) (granted_rank r c)) (ov_ExcludeSelf o) (ov_IDs o)).
Proof.
  intros Hc Ho Hh Hk. unfold bound_entry. rewrite <-bound_rank_eq.
  destruct (bound_known r (ov_Base o) c Hk) as [Hkeep|Hkn].
  all: set (bd := bound_rank r (ov_Base o)) in *; set (keep := MinBase _ (Base (r_scope r))) in *.
  all: pose proof (split_entry_stay bd keep (ov_Caps o .&. held) c Hc) as Hs.
  all: pose proof (split_entry_moved bd keep (ov_Caps o .&. held)) as Hm.
  all: pose proof (split_entry_moves bd keep (ov_Caps o .&. held) c Hc) as Hmv.
  all: pose proof (each_cap_single c Hc) as Hsc.
  all: destruct (split_entry _ _ _) as [stay moved]; simpl in Hs, Hm, Hmv.
  all: rewrite has_land, Ho, Hh in Hs, Hmv by done; simpl in Hs, Hmv.
  all: set (main := stay .|. (ov_Caps o .&^. held)).
  all: assert (has main c = (bd c =? keep)) as Hmain
    by (unfold main; push_has; rewrite Hs, Ho, Hh; simpl; apply orb_false_r).
  all: rewrite find_first_app.
  all: destruct (N.eqb_spec (bd c) keep) as [Eq|Ne]; [|try done].
  1,2: rewrite (proj2 (N.eqb_neq _ _) (has_nonzero _ _ Hmain)); simpl;
    rewrite Hmain, Eq; by eexists.
  assert (find_first (λ o, has (ov_Caps o) c)
    (if negb (main =? 0) then [mkOverride main keep (ov_ExcludeSelf o) (ov_IDs o)] else []) = None) as ->
    by (destruct (negb _); simpl; [by rewrite Hmain|done]).
  rewrite find_first_withEntry. destruct (Hmv eq_refl Ne Hkn) as (p & Hp & Hpc).
  destruct (find_first _ moved) as [q|] eqn:Eq.
  - apply find_first_Some in Eq as [Hq Hqc]. destruct (Hm q Hq) as (_ & _ & Hqm).
    rewrite Hqm in Hqc by done. breflect. simpl. match goal with H : bd c = _ |- _ => rewrite H end.
    by eexists.
  - rewrite find_first_None in Eq. specialize (Eq p Hp). simpl in Eq. congruence.
Qed.

(** Each bit resolves in the pieces of the first entry that names it. *)
Lemma find_bound_entries r held os c :
  c ∈ each_cap → has held c = true → known_base (granted_rank r c) →
  match find_first (λ o, has (ov_Caps o) c) os with
  | Some o => ∃ m, find_first (λ o, has (ov_Caps o) c) (flat_map (bound_entry r held) os)
      = Some (mkOverride m (MinBase (ov_Base o) (granted_rank r c)) (ov_ExcludeSelf o) (ov_IDs o))
  | None => find_first (λ o, has (ov_Caps o) c) (flat_map (bound_entry r held) os) = None
  end.
Proof.
  intros Hc Hh Hk. induction os as [|o os IH]; [done|].
  cbn [find_first flat_map]. rewrite find_first_app. destruct (has (ov_Caps o) c) eqn:Ho.
  - destruct (bound_entry_held r held o c) as [m ->]; [done..|]. by exists m.
  - by rewrite bound_entry_other.
Qed.

(** A held bit resolves through [BoundRanks] as it did before, with its rank
    lowered to the granter's rank for that bit and nothing else changed. *)
Lemma BoundRanks_ForCap r s held c :
  c ∈ each_cap → has held c = true → known_base (granted_rank r c) →
  (c = Capability_Spawn → granted_rank r c = Base (r_scope r)) →
  ForCap (BoundRanks r s held) c =
    let '(b, excl, ids) := ForCap s c in (MinBase b (granted_rank r c), excl, ids).
Proof.
  intros Hc Hh Hk Hsp. pose proof (each_cap_single c Hc) as Hsc.
  unfold BoundRanks, ForCap. set (base := MinBase (Base s) (Base (r_scope r))).
  set (bits := held .&^. overridden_by (Overrides s) .&^. Capability_Spawn).
  set (bd := bound_rank r (Base s)).
  pose proof (split_entry_moved bd base bits) as Hm.
  pose proof (split_entry_moves bd base bits c Hc) as Hmv.
  destruct (split_entry bd base bits) as [stay moved]. cbn [snd fst Overrides Base ExcludeSelf IDs] in *.
  rewrite find_first_app. pose proof (find_bound_entries r held (Overrides s) c Hc Hh Hk) as He.
  destruct (find_first _ (Overrides s)) as [o|] eqn:Eo; [by destruct He as [m ->]|].
  rewrite He, find_first_withEntry.
  assert (has bits c = negb (bool_decide (c = Capability_Spawn))) as Hbits.
  { unfold bits. push_has. rewrite Hh, has_overridden_by by done.
    rewrite (proj2 (existsb_false_elem_of _ _)) by (by apply find_first_None).
    rewrite (has_other _ _ single_Spawn Hsc). simpl.
    f_equal. apply bool_decide_ext. naive_solver. }
  rewrite <-bound_rank_eq. fold bd. destruct (find_first _ moved) as [q|] eqn:Eq; simpl.
  - apply find_first_Some in Eq as [Hq Hqc]. destruct (Hm q Hq) as (_ & _ & Hqm).
    rewrite Hqm in Hqc by done. breflect. by match goal with H : bd c = _ |- _ => rewrite H end.
  - rewrite find_first_None in Eq. f_equal. f_equal.
    destruct (decide (c = Capability_Spawn)) as [E|E].
    { unfold bd, base. by rewrite bound_rank_eq, Hsp. }
    destruct (bound_known r (Base s) c Hk) as [|Hkn]; [done|].
    destruct (N.eq_dec (bd c) base) as [|Ne]; [done|].
    rewrite Hbits, bool_decide_eq_false_2 in Hmv by done.
    destruct (Hmv eq_refl Ne Hkn) as (p & Hp & Hpc). specialize (Eq p Hp). simpl in Eq. congruence.
Qed.

(** An override for bits the task does not hold keeps the granter's base as its
    only bound. *)
Lemma BoundRanks_fields r s held :
  Base (BoundRanks r s held) = MinBase (Base s) (Base (r_scope r)) ∧
  IDs (BoundRanks r s held) = IDs s ∧ VisIDs (BoundRanks r s held) = VisIDs s ∧
  VisBase (BoundRanks r s held) = VisBase s ∧
  VisBasePresent (BoundRanks r s held) = VisBasePresent s ∧
  ExcludeSelf (BoundRanks r s held) = ExcludeSelf s.
Proof. unfold BoundRanks. by destruct (split_entry _ _ _). Qed.

(** ** [BoundRanks] keeps a scope consistent *)

Lemma land_0_has a b :
  (∀ c, single c → has a c = true → has b c = true → False) → a .&. b = 0.
Proof.
  intros H. destruct (N.eq_dec (a .&. b) 0) as [|Hn]; [done|].
  destruct (nonzero_has _ Hn) as (c & Hc & Hh). rewrite has_land in Hh by done.
  breflect. destruct (H c); done.
Qed.

Lemma disjoint_by_base l :
  NoDup (ov_Base <$> l) →
  (∀ p q, p ∈ l → q ∈ l → ov_Base p ≠ ov_Base q → ov_Caps p .&. ov_Caps q = 0) →
  disjoint_masks l.
Proof.
  induction l as [|o l IH]; simpl; [done|]. intros [Hn Hnd]%NoDup_cons H. split.
  - intros o' Ho'. apply H; [by left|by right|]. intros E. apply Hn. rewrite E.
    by apply list_elem_of_fmap_2.
  - apply IH; [done|]. intros p q ? ?. apply H; by right.
Qed.

Lemma split_entry_disjoint bound keep bits : disjoint_masks (split_entry bound keep bits).2.
Proof.
  pose proof (split_entry_moved bound keep bits) as Hm.
  apply disjoint_by_base.
  - unfold split_entry. destruct (split_loop _ _ _ _) as [stay byRank]. simpl.
    destruct (negb _), (negb _), (negb _); simpl; apply (bool_decide_unpack _); by vm_compute.
  - intros p q Hp Hq Hne. apply land_0_has. intros c Hc.
    rewrite (proj2 (proj2 (Hm p Hp))) by done. rewrite (proj2 (proj2 (Hm q Hq))) by done.
    intros. breflect. congruence.
Qed.

Lemma disjoint_withEntry l excl ids : disjoint_masks l → disjoint_masks (withEntry l excl ids).
Proof.
  unfold withEntry. induction l as [|o l IH]; [done|]. intros [H Hl].
  rewrite fmap_cons. split; [|exact (IH Hl)].
  intros o' (q & -> & Hq)%list_elem_of_fmap. exact (H q Hq).
Qed.

Lemma bound_entry_piece r held o p :
  p ∈ bound_entry r held o →
  ov_IDs p = ov_IDs o ∧ ov_ExcludeSelf p = ov_ExcludeSelf o ∧ ov_Caps p ≠ 0 ∧
  BaseRank (ov_Base p) ≤ BaseRank (ov_Base o) ∧
  ∀ c, single c → has (ov_Caps p) c = true → has (ov_Caps o) c = true.
Proof.
  unfold bound_entry. set (bd := bound_rank r (ov_Base o)). set (keep := MinBase _ _).
  pose proof (split_loop_spec bd keep (ov_Caps o .&. held) each_cap) as Hs.
  pose proof (split_entry_moved bd keep (ov_Caps o .&. held)) as Hm.
  assert (∀ c, single c → has (split_entry bd keep (ov_Caps o .&. held)).1 c = true →
    has (ov_Caps o) c = true) as Hstay.
  { intros c Hc. unfold split_entry. destruct (Hs c each_cap_single Hc) as [Hs' _].
    destruct (split_loop _ _ _ _). simpl in *. rewrite Hs', has_land by done. intros. by breflect. }
  destruct (split_entry _ _ _) as [stay moved]. cbn [fst snd] in *.
  intros [Hp|Hp]%elem_of_app.
  - destruct (negb _) eqn:Hz; [|set_solver]. apply list_elem_of_singleton in Hp as ->.
    breflect. cbn [ov_IDs ov_ExcludeSelf ov_Caps ov_Base]. split_and!; [done..|apply MinBase_le_l|].
    intros c Hc. rewrite has_lor, has_ldiff by done. intros [?|?]%orb_true_iff; breflect; auto.
  - apply list_elem_of_fmap in Hp as (q & -> & Hq). destruct (Hm q Hq) as (_ & Hz & Hqc).
    cbn [ov_IDs ov_ExcludeSelf ov_Caps ov_Base]. split_and!; [done..| |].
    + destruct (nonzero_has _ Hz) as (c & Hc & Hh). rewrite Hqc in Hh by done. breflect.
      match goal with H : bd c = _ |- _ => rewrite <-H end. unfold bd. rewrite bound_rank_eq.
      apply MinBase_le_l.
    + intros c Hc. rewrite Hqc, has_land by done. intros. by breflect.
Qed.

Lemma bound_entry_disjoint r held o : disjoint_masks (bound_entry r held o).
Proof.
  unfold bound_entry. set (bd := bound_rank r (ov_Base o)). set (keep := MinBase _ _).
  pose proof (split_loop_spec bd keep (ov_Caps o .&. held) each_cap) as Hs.
  pose proof (split_entry_moved bd keep (ov_Caps o .&. held)) as Hm.
  pose proof (split_entry_disjoint bd keep (ov_Caps o .&. held)) as Hd.
  assert (∀ c, single c → has (split_entry bd keep (ov_Caps o .&. held)).1 c = true →
    bd c = keep) as Hstay.
  { intros c Hc. unfold split_entry. destruct (Hs c each_cap_single Hc) as [Hs' _].
    destruct (split_loop _ _ _ _). simpl in *. rewrite Hs'. intros. by breflect. }
  destruct (split_entry _ _ _) as [stay moved]. cbn [fst snd] in *.
  apply disjoint_masks_app. split_and!; [destruct (negb _); simpl; set_solver|by apply disjoint_withEntry|].
  intros o1 o2 H1 H2. destruct (negb _); [|set_solver].
  apply list_elem_of_singleton in H1 as ->. apply list_elem_of_fmap in H2 as (q & -> & Hq).
  cbn [ov_Caps]. apply land_0_has. intros c Hc. rewrite (proj2 (proj2 (Hm q Hq))) by done.
  rewrite has_lor, has_ldiff, has_land by done.
  intros [H1|H1]%orb_true_iff ?; breflect; [apply Hstay in H1; congruence|congruence].
Qed.

Lemma bound_entries_disjoint r held os :
  disjoint_masks os → disjoint_masks (flat_map (bound_entry r held) os).
Proof.
  induction os as [|o os IH]; [done|]. cbn [flat_map]. intros [H ?].
  apply disjoint_masks_app. split_and!; [apply bound_entry_disjoint|by apply IH|].
  intros p q Hp (o' & Ho' & Hq)%elem_of_flat_map.
  apply bound_entry_piece in Hp as (_ & _ & _ & _ & Hp).
  apply bound_entry_piece in Hq as (_ & _ & _ & _ & Hq).
  apply land_0_has. intros c Hc Hpc%Hp Hqc%Hq; [|done..].
  specialize (H o' Ho'). assert (has (ov_Caps o .&. ov_Caps o') c = true) as F
    by (rewrite has_land by done; by rewrite Hpc, Hqc).
  by rewrite H, has_0 in F.
Qed.

(** An entry of the result carries the ids of the entry it came from. *)
Lemma BoundRanks_override r s held p :
  p ∈ Overrides (BoundRanks r s held) →
  (∃ o, o ∈ Overrides s ∧ ov_IDs p = ov_IDs o ∧ ov_ExcludeSelf p = ov_ExcludeSelf o ∧
     BaseRank (ov_Base p) ≤ BaseRank (ov_Base o)) ∨
  (ov_IDs p = IDs s ∧ ov_ExcludeSelf p = ExcludeSelf s ∧ BaseRank (ov_Base p) ≤ BaseRank (Base s)).
Proof.
  unfold BoundRanks. set (bd := bound_rank r (Base s)). set (base := MinBase _ _).
  pose proof (split_entry_moved bd base
    (held .&^. overridden_by (Overrides s) .&^. Capability_Spawn)) as Hm.
  destruct (split_entry _ _ _) as [stay moved]. cbn [Overrides snd] in *.
  intros [(o & Ho & Hp)%elem_of_flat_map|Hp]%elem_of_app.
  - left. apply bound_entry_piece in Hp as (? & ? & _ & ? & _). by exists o.
  - right. apply list_elem_of_fmap in Hp as (q & -> & Hq). destruct (Hm q Hq) as (_ & Hz & Hqc).
    split_and!; [done..|]. cbn [ov_Base].
    destruct (nonzero_has _ Hz) as (c & Hc & Hh). rewrite Hqc in Hh by done. breflect.
    match goal with H : bd c = _ |- _ => rewrite <-H end. unfold bd. rewrite bound_rank_eq.
    apply MinBase_le_l.
Qed.

Lemma BoundRanks_valid r s held :
  Validate s = None → Validate (BoundRanks r s held) = None.
Proof.
  rewrite !Validate_None. intros [Hv [Hm Hd]].
  destruct (BoundRanks_fields r s held) as (_ & _ & _ & -> & -> & _). split; [done|].
  unfold BoundRanks. set (bits := _ .&^. _ .&^. _).
  set (bd := bound_rank r (Base s)). set (base := MinBase _ _).
  pose proof (split_entry_moved bd base bits) as Hmv.
  pose proof (split_entry_disjoint bd base bits) as Hdm.
  destruct (split_entry bd base bits) as [stay moved]. cbn [Overrides snd] in *.
  assert (∀ q c, q ∈ moved → single c → has (ov_Caps q) c = true →
    c ≠ Capability_Spawn ∧ has (overridden_by (Overrides s)) c = false) as Hout.
  { intros q c Hq Hc. rewrite (proj2 (proj2 (Hmv q Hq))) by done.
    unfold bits. rewrite !has_ldiff by done. intros. breflect. split; [|done].
    intros ->. rewrite has_same in * by done. done. }
  split; [|apply disjoint_masks_app; split_and!].
  - intros p [(o & Ho & Hp)%elem_of_flat_map|Hp]%elem_of_app.
    + apply bound_entry_piece in Hp as (_ & _ & ? & _ & Hp). split; [done|].
      apply not_true_iff_false. intros Hs%Hp; [|apply single_Spawn].
      destruct (Hm o Ho). congruence.
    + apply list_elem_of_fmap in Hp as (q & -> & Hq). cbn [ov_Caps].
      destruct (Hmv q Hq) as (_ & ? & _). split; [done|].
      apply not_true_iff_false. intros Hs. by destruct (Hout q _ Hq single_Spawn Hs).
  - by apply bound_entries_disjoint.
  - by apply disjoint_withEntry.
  - intros p q (o & Ho & Hp)%elem_of_flat_map Hq.
    apply list_elem_of_fmap in Hq as (q' & -> & Hq). cbn [ov_Caps].
    apply bound_entry_piece in Hp as (_ & _ & _ & _ & Hp).
    apply land_0_has. intros c Hc Hpc Hqc. apply Hp in Hpc; [|done].
    destruct (Hout q' c Hq Hc Hqc) as [_ Hno].
    rewrite has_overridden_by, existsb_false_elem_of in Hno by done.
    specialize (Hno o Ho). simpl in Hno. congruence.
Qed.

(** From here on the question is used through its specification. *)
#[global] Opaque reaches Reaches.
