(* ===== verification/Attenuate.v ===== *)
(** * Attenuation: [authority/attenuate.go]

    [Attenuate] clamps the scope a spawned task asks for, [ClampUnder] the scope
    of a descendant when its ancestor is narrowed, [IsNarrowing] decides whether
    a change took authority away.  The safety theorems say what "a spawned task
    can never reach further than its spawner" means and prove it: target set by
    target set, at every later state of the task tree. *)

From stdpp Require Import prelude gmap strings list sorting pretty.
From Stdlib Require Import NArith.
From S2P Require Import Prelude GoStrings Caps Scope Sets Reach.

Open Scope N_scope.
Open Scope stdpp_scope.
Set Default Goal Selector "!".

(** The first listed id the granter does not reach for [bits]. *)
Definition first_unreached (r : Reach) (bits : N) (ids : list string) : option string :=
  find_first (λ id, negb (reaches r id bits)) ids.

Fixpoint first_unreached_override (r : Reach) (exercised : N) (os : list ScopeOverride)
    : option string :=
  match os with
  | [] => None
  | o :: os' =>
      match first_unreached r (ov_Caps o .&. exercised) (ov_IDs o) with
      | Some id => Some id
      | None => first_unreached_override r exercised os'
      end
  end.

(** The request with every id list in normal form. *)
Definition normalize_scope (req : Scope) : Scope :=
  {| Base := Base req; VisBase := VisBase req; VisBasePresent := VisBasePresent req;
     ExcludeSelf := ExcludeSelf req; IDs := NormalizeIDs (IDs req);
     VisIDs := NormalizeIDs (VisIDs req);
     Overrides := (λ o, {| ov_Caps := ov_Caps o; ov_Base := ov_Base o;
                           ov_ExcludeSelf := ov_ExcludeSelf o;
                           ov_IDs := NormalizeIDs (ov_IDs o) |}) <$> Overrides req |}.

Definition set_vis (s : Scope) (present : bool) (b : N) : Scope :=
  {| Base := Base s; IDs := IDs s; VisBase := b; VisBasePresent := present;
     ExcludeSelf := ExcludeSelf s; VisIDs := VisIDs s; Overrides := Overrides s |}.

(** [Attenuate]: [Ok] the scope, or [Err] the offender. *)
Definition Attenuate (req : Scope) (childCaps : N) (creator : option Reach)
    : result string Scope :=
  let out := normalize_scope req in
  match Validate out with
  | Some err => Err ("invalid scope: " +:+ err)
  | None =>
    match creator with
    | None => Ok out
    | Some r =>
        let wantVis := MinBase (VisRank out) (VisRank (r_scope r)) in
        let exercised := ExercisedBits childCaps in
        let out := BoundRanks r out exercised in
        let out := if VisBasePresent out || negb (wantVis =? Base out)
                   then set_vis out true wantVis else out in
        let overridden := overridden_by (Overrides out) in
        let baseBits := exercised .&^. overridden in
        match first_unreached_override r exercised (Overrides out) with
        | Some id => Err id
        | None =>
          match first_unreached r baseBits (IDs out) with
          | Some id => Err id
          | None =>
            match first_unreached r Capability_None (VisIDs out) with
            | Some id => Err id
            | None => Ok out
            end
          end
        end
    end
  end.

(** ** [IsNarrowing] *)

Definition reachNarrowed (bBase : N) (bExcl : bool) (bIDs : list string)
    (aBase : N) (aExcl : bool) (aIDs : list string) : bool :=
  if aBase =? ScopeBase_Global then false
  else if (BaseRank aBase <? BaseRank bBase) || (aExcl && negb bExcl) then true
  else
    let kept := list_to_set aIDs : gset string in
    existsb (λ id, negb (bool_decide (id ∈ kept))) bIDs.

Definition visibleIDs (s : Scope) : list string :=
  foldl (λ out o, out ++ ov_IDs o) (VisIDs s ++ IDs s) (Overrides s).

Definition IsNarrowing (beforeCaps : N) (before : Scope) (afterCaps : N) (after : Scope) : bool :=
  if negb (beforeCaps .&^. afterCaps =? 0) then true
  else if reachNarrowed (VisRank before) false (visibleIDs before)
                        (VisRank after) false (visibleIDs after) then true
  else
    let exercised := ExercisedBits beforeCaps in
    existsb (λ bit,
      if exercised .&. bit =? 0 then false
      else
        let '(bBase, bExcl, bIDs) := ForCap before bit in
        let '(aBase, aExcl, aIDs) := ForCap after bit in
        reachNarrowed bBase bExcl bIDs aBase aExcl aIDs) each_cap.

(** ** [ClampUnder] *)

Definition keep_ids (r : Reach) (ids : list string) (bits : N) : list string :=
  filter (λ id, reaches r id bits = true) ids.

(** The descendant's overrides, cut down to the bits it exercises. *)
Definition held_overrides (exercised : N) (os : list ScopeOverride) : list ScopeOverride :=
  flat_map (λ o,
    let caps := ov_Caps o .&. exercised in
    if negb (caps =? Capability_None)
    then [{| ov_Caps := caps; ov_Base := ov_Base o;
             ov_ExcludeSelf := ov_ExcludeSelf o; ov_IDs := ov_IDs o |}]
    else []) os.

Definition ClampUnder (child : Scope) (childCaps : N) (r : Reach) : Scope :=
  let exercised := ExercisedBits childCaps in
  let input := {| Base := Base child; IDs := IDs child; VisBase := 0; VisBasePresent := false;
                  ExcludeSelf := ExcludeSelf child; VisIDs := [];
                  Overrides := held_overrides exercised (Overrides child) |} in
  let bounded := BoundRanks r input exercised in
  let overridden := overridden_by (Overrides bounded) in
  let out := {| Base := Base bounded;
                IDs := keep_ids r (IDs bounded) (exercised .&^. overridden);
                VisBase := 0; VisBasePresent := false;
                ExcludeSelf := ExcludeSelf child;
                VisIDs := keep_ids r (VisIDs child) Capability_None;
                Overrides := (λ o, {| ov_Caps := ov_Caps o; ov_Base := ov_Base o;
                                      ov_ExcludeSelf := ov_ExcludeSelf o;
                                      ov_IDs := keep_ids r (ov_IDs o) (ov_Caps o) |})
                             <$> Overrides bounded |} in
  let clamped := MinBase (VisRank child) (VisRank (r_scope r)) in
  if negb (clamped =? Base out) then set_vis out true clamped else out.

(** ** Confinement: the abstract contract

    [Confined ch c sc caps p sp]: over the creator index [ch], the task [c] with
    scope [sc] and capabilities [caps] reaches, through every bit it exercises,
    only itself and what [p] with scope [sp] reaches through that bit, and sees
    only itself and what [p] sees. *)

Record Confined (ch : gmap string (list string)) (c : string) (sc : Scope) (caps : N)
    (p : string) (sp : Scope) : Prop := {
  conf_acts : ∀ bit x, bit ∈ each_cap → has (ExercisedBits caps) bit = true →
    in_set (ActionSet c sc bit ch) x = true →
    x = c ∨ in_set (ActionSet p sp bit ch) x = true;
  conf_sees : ∀ x, in_set (VisibleSet c sc ch) x = true →
    x = c ∨ in_set (VisibleSet p sp ch) x = true;
}.

(** [c] sits below [p] in the tree, and not the other way round. *)
Definition below (ch : gmap string (list string)) (p c : string) : Prop :=
  descends ch p c ∧ ¬ descends ch c p.

#[export] Instance below_dec ch p c : Decision (below ch p c).
Proof. unfold below. apply _. Defined.

(** Every base of the scope is one the schema names. *)
Definition scope_known (s : Scope) : Prop :=
  known_base (Base s) ∧ Forall (λ o, known_base (ov_Base o)) (Overrides s).

#[export] Instance scope_known_dec s : Decision (scope_known s).
Proof. apply _. Defined.

Lemma scope_known_ForCap s c : scope_known s → known_base (ForCap s c).1.1.
Proof.
  intros [Hb Ho]. unfold ForCap. destruct (find_first _ _) as [o|] eqn:E; [|done].
  apply find_first_Some in E as [E _]. rewrite Forall_forall in Ho. by apply Ho.
Qed.

(** A set below in rank, under the granter in the tree, and with ids the granter
    covers, stays inside the granter's set. *)
Lemma covers_inside ch p c bp xp idsp bc xc idsc x :
  below ch p c → BaseRank bc ≤ BaseRank bp →
  (∀ id, id ∈ idsc → covers p bp xp idsp ch id) →
  covers c bc xc idsc ch x → x = c ∨ covers p bp xp idsp ch x.
Proof.
  intros [Hpc Hcp] Hr Hids [->|[(-> & Hd & Hx)|[[-> _]|[Hid _]]]]; [|..|by left|by right; apply Hids].
  - right. left. apply BaseRank_Global. pose proof (BaseRank_bound bp).
    change (BaseRank ScopeBase_Global) with 2 in Hr. lia.
  - change (BaseRank ScopeBase_Subtree) with 1 in Hr. pose proof (BaseRank_bound bp).
    destruct (decide (BaseRank bp = 2)) as [E|E]; [right; left; by apply BaseRank_Global|].
    right. right. left. split; [apply BaseRank_Subtree; lia|]. split; [by trans c|].
    intros _ ->. done.
Qed.

Lemma VisibleSet_inside ch p c sp sc x :
  below ch p c → BaseRank (VisRank sc) ≤ BaseRank (VisRank sp) →
  (∀ id, discloses sc id → in_set (VisibleSet p sp ch) id = true) →
  in_set (VisibleSet c sc ch) x = true → x = c ∨ in_set (VisibleSet p sp ch) x = true.
Proof.
  intros [Hpc _] Hr Hids [Hg|[[Hs Hd]|[->|Hid]]]%in_VisibleSet; [..|by left|by right; apply Hids].
  - right. apply in_VisibleSet. left. rewrite Hg in Hr. apply BaseRank_Global.
    pose proof (BaseRank_bound (VisRank sp)). change (BaseRank ScopeBase_Global) with 2 in Hr. lia.
  - right. apply in_VisibleSet. rewrite Hs in Hr. change (BaseRank ScopeBase_Subtree) with 1 in Hr.
    pose proof (BaseRank_bound (VisRank sp)).
    destruct (decide (BaseRank (VisRank sp) = 2)) as [E|E]; [left; by apply BaseRank_Global|].
    right. left. split; [apply BaseRank_Subtree; lia|]. by trans c.
Qed.

(** The two ways a scope is made from a granter meet the contract by the same
    argument: per-bit rank and ids bounded at [ch], the index the ids were
    checked in, and the tree only grown since. *)
Lemma Confined_intro ch ch' c sc caps p sp :
  index_le ch ch' → below ch' p c →
  (∀ bit, bit ∈ each_cap → has (ExercisedBits caps) bit = true →
     BaseRank (ForCap sc bit).1.1 ≤ BaseRank (ForCap sp bit).1.1 ∧
     ∀ id, id ∈ (ForCap sc bit).2 → in_set (ActionSet p sp bit ch) id = true) →
  BaseRank (VisRank sc) ≤ BaseRank (VisRank sp) →
  (∀ id, discloses sc id → in_set (VisibleSet p sp ch) id = true) →
  Confined ch' c sc caps p sp.
Proof.
  intros Hle Hb Hact Hvr Hvis. split.
  - intros bit x Hbit Hex Hx. destruct (Hact bit Hbit Hex) as [Hr Hids].
    rewrite in_ActionSet in Hx. rewrite in_ActionSet.
    assert (∀ id, id ∈ (ForCap sc bit).2 → in_set (ActionSet p sp bit ch') id = true) as Hids'
      by (intros; eapply ActionSet_index_mono; eauto).
    setoid_rewrite in_ActionSet in Hids'.
    destruct (ForCap sc bit) as [[bc xc] idsc], (ForCap sp bit) as [[bp xp] idsp].
    by apply (covers_inside ch' p c bp xp idsp bc xc idsc).
  - intros x. apply VisibleSet_inside; [done|done|].
    intros id Hid. eapply VisibleSet_index_mono; eauto.
Qed.

(** ** [Attenuate] *)

Lemma first_unreached_None r bits ids :
  first_unreached r bits ids = None ↔ ∀ id, id ∈ ids → reaches r id bits = true.
Proof.
  unfold first_unreached. rewrite find_first_None. split; intros H id Hid.
  - by apply negb_false_iff, H.
  - rewrite H; done.
Qed.

Lemma first_unreached_override_None r ex os :
  first_unreached_override r ex os = None ↔
    ∀ o id, o ∈ os → id ∈ ov_IDs o → reaches r id (ov_Caps o .&. ex) = true.
Proof.
  induction os as [|o os IH]; simpl; [set_solver|].
  destruct (first_unreached _ _ _) as [id|] eqn:E.
  - split; [done|]. intros H. exfalso. assert (first_unreached r (ov_Caps o .&. ex) (ov_IDs o) = None);
      [|congruence]. apply first_unreached_None. intros. apply H; [by left|done].
  - rewrite IH. rewrite first_unreached_None in E. split.
    + intros H o' id [->|?]%elem_of_cons ?; eauto.
    + intros H o' id ? ?. apply H; [by right|done].
Qed.

Lemma Attenuate_inv req caps r out :
  Attenuate req caps (Some r) = Ok out →
  Validate (normalize_scope req) = None ∧
  let ex := ExercisedBits caps in
  let out0 := BoundRanks r (normalize_scope req) ex in
  Base out = Base out0 ∧ IDs out = IDs out0 ∧ ExcludeSelf out = ExcludeSelf out0 ∧
  VisIDs out = VisIDs out0 ∧ Overrides out = Overrides out0 ∧
  (VisBasePresent out = false → VisBase out = VisBase out0) ∧
  VisRank out = MinBase (VisRank (normalize_scope req)) (VisRank (r_scope r)) ∧
  (∀ o id, o ∈ Overrides out → id ∈ ov_IDs o → reaches r id (ov_Caps o .&. ex) = true) ∧
  (∀ id, id ∈ IDs out → reaches r id (ex .&^. overridden_by (Overrides out)) = true) ∧
  (∀ id, id ∈ VisIDs out → reaches r id 0 = true).
Proof.
  unfold Attenuate. destruct (Validate _); [done|].
  set (ex := ExercisedBits caps). set (want := MinBase _ _).
  set (out0 := BoundRanks r (normalize_scope req) ex).
  set (out1 := if VisBasePresent out0 || _ then _ else _).
  destruct (first_unreached_override _ _ _) eqn:E1; [done|].
  destruct (first_unreached r (ex .&^. _) _) eqn:E2; [done|].
  destruct (first_unreached r Capability_None _) eqn:E3; [done|].
  rewrite first_unreached_override_None in E1. rewrite first_unreached_None in E2, E3.
  intros [= <-]. split; [done|].
  assert (VisRank out1 = want) as Hv.
  { unfold out1. destruct (VisBasePresent out0) eqn:Ep; simpl; [done|].
    destruct (N.eqb_spec want (Base out0)) as [->|]; simpl; [|done].
    unfold VisRank. by rewrite Ep. }
  cbn zeta. split_and!; [..|exact Hv|exact E1|exact E2|exact E3].
  all: unfold out1; destruct (VisBasePresent out0 || _); done.
Qed.

(** What an accepted scope gives one exercised bit. *)
Lemma Attenuate_ForCap req caps r out c :
  Attenuate req caps (Some r) = Ok out → reach_wf r →
  Validate (r_scope r) = None → scope_known (r_scope r) →
  c ∈ each_cap → has (ExercisedBits caps) c = true →
  BaseRank (ForCap out c).1.1 ≤ BaseRank (ForCap (r_scope r) c).1.1 ∧
  ∀ id, id ∈ (ForCap out c).2 →
    in_set (ActionSet (r_hex r) (r_scope r) c (r_children r)) id = true.
Proof.
  intros Hatt Hwf Hval Hkn Hc Hex.
  apply Attenuate_inv in Hatt as (_ & Eb & Ei & Ee & _ & Eo & _ & _ & Ho & Hi & _).
  assert (ForCap out c = ForCap (BoundRanks r (normalize_scope req) (ExercisedBits caps)) c) as EF
    by (unfold ForCap; by rewrite Eb, Ei, Ee, Eo).
  split.
  - rewrite EF, BoundRanks_ForCap; [|done|done| |].
    + destruct (ForCap (normalize_scope req) c) as [[b e] i]. simpl. apply MinBase_le_r.
    + by apply scope_known_ForCap.
    + intros ->. unfold granted_rank. by rewrite ForCap_Spawn.
  - intros id Hid. pose proof (each_cap_single c Hc) as Hsc. unfold ForCap in Hid.
    destruct (find_first _ (Overrides out)) as [o|] eqn:Ef.
    + apply find_first_Some in Ef as [Hin Hcap]. simpl in Hid.
      specialize (Ho o id Hin Hid). rewrite reaches_spec in Ho by done.
      apply Ho; [done|]. push_has. by rewrite Hcap, Hex.
    + simpl in Hid. specialize (Hi id Hid). rewrite reaches_spec in Hi by done.
      apply Hi; [done|]. push_has. rewrite Hex, has_overridden_by by done.
      by rewrite (proj2 (existsb_false_elem_of _ _) (proj1 (find_first_None _ _) Ef)).
Qed.

Lemma Attenuate_discloses req caps r out id :
  Attenuate req caps (Some r) = Ok out → reach_wf r → discloses out id →
  in_set (VisibleSet (r_hex r) (r_scope r) (r_children r)) id = true.
Proof.
  intros Hatt Hwf. apply Attenuate_inv in Hatt as (_ & _ & _ & _ & _ & _ & _ & _ & Ho & Hi & Hv).
  intros [H|[H|(o & Hin & H)]].
  - specialize (Hv id H). rewrite reaches_spec in Hv by done. tauto.
  - specialize (Hi id H). rewrite reaches_spec in Hi by done. tauto.
  - specialize (Ho o id Hin H). rewrite reaches_spec in Ho by done. tauto.
Qed.

(** ** [ClampUnder] *)

Lemma elem_of_keep_ids r ids bits id :
  id ∈ keep_ids r ids bits ↔ reaches r id bits = true ∧ id ∈ ids.
Proof. unfold keep_ids. by rewrite list_elem_of_filter. Qed.

Lemma find_first_fmap {A B} (f : B → bool) (g : A → B) l :
  find_first f (g <$> l) = g <$> find_first (f ∘ g) l.
Proof. induction l as [|x l IH]; simpl; [done|]. unfold compose. by destruct (f (g x)). Qed.

Lemma find_held_overrides ex os c :
  single c → has ex c = true →
  find_first (λ o, has (ov_Caps o) c) (held_overrides ex os) =
    (λ o, mkOverride (ov_Caps o .&. ex) (ov_Base o) (ov_ExcludeSelf o) (ov_IDs o))
      <$> find_first (λ o, has (ov_Caps o) c) os.
Proof.
  intros Hc Hex. unfold held_overrides. induction os as [|o os IH]; [done|].
  cbn [flat_map find_first]. rewrite find_first_app, IH.
  assert (has (ov_Caps o .&. ex) c = has (ov_Caps o) c) as E
    by (push_has; by rewrite Hex, andb_true_r).
  destruct (N.eqb_spec (ov_Caps o .&. ex) Capability_None) as [Ez|Ez]; cbn [negb find_first ov_Caps].
  - rewrite Ez, has_0 in E. by rewrite <-E.
  - rewrite E. by destruct (has (ov_Caps o) c).
Qed.

(** The fields of the clamped scope, read off the definition. *)
Lemma ClampUnder_fields child caps r :
  let ex := ExercisedBits caps in
  let input := {| Base := Base child; IDs := IDs child; VisBase := 0; VisBasePresent := false;
                  ExcludeSelf := ExcludeSelf child; VisIDs := [];
                  Overrides := held_overrides ex (Overrides child) |} in
  let bounded := BoundRanks r input ex in
  let out := ClampUnder child caps r in
  Base out = MinBase (Base child) (Base (r_scope r)) ∧
  IDs out = keep_ids r (IDs child) (ex .&^. overridden_by (Overrides bounded)) ∧
  ExcludeSelf out = ExcludeSelf child ∧
  VisIDs out = keep_ids r (VisIDs child) 0 ∧
  Overrides out = (λ o, mkOverride (ov_Caps o) (ov_Base o) (ov_ExcludeSelf o)
                          (keep_ids r (ov_IDs o) (ov_Caps o))) <$> Overrides bounded ∧
  VisRank out = MinBase (VisRank child) (VisRank (r_scope r)).
Proof.
  cbn zeta. unfold ClampUnder.
  match goal with |- context [BoundRanks r ?i _] => set (input := i) end.
  destruct (BoundRanks_fields r input (ExercisedBits caps)) as (Eb & Ei & _).
  set (bounded := BoundRanks r input (ExercisedBits caps)) in *.
  set (clamped := MinBase (VisRank child) _). cbn [Base].
  destruct (N.eqb_spec clamped (Base bounded)) as [E|E]; cbn [negb].
  all: change (IDs bounded = IDs child) in Ei; cbn; split_and!; try done; by rewrite Ei.
Qed.

Lemma ClampUnder_ForCap child caps r c :
  reach_wf r → Validate (r_scope r) = None → scope_known (r_scope r) →
  c ∈ each_cap → has (ExercisedBits caps) c = true →
  BaseRank (ForCap (ClampUnder child caps r) c).1.1 ≤ BaseRank (ForCap (r_scope r) c).1.1 ∧
  ∀ id, id ∈ (ForCap (ClampUnder child caps r) c).2 →
    in_set (ActionSet (r_hex r) (r_scope r) c (r_children r)) id = true.
Proof.
  intros Hwf Hval Hkn Hc Hex. pose proof (each_cap_single c Hc) as Hsc.
  destruct (ClampUnder_fields child caps r) as (Eb & Ei & Ee & _ & Eo & _).
  cbn zeta in *. match type of Ei with context [BoundRanks r ?i _] => set (input := i) in * end.
  set (bounded := BoundRanks r input (ExercisedBits caps)) in *.
  assert (ForCap bounded c =
    let '(b, excl, ids) := ForCap input c in (MinBase b (granted_rank r c), excl, ids)) as HB.
  { apply BoundRanks_ForCap; [done|done|by apply scope_known_ForCap|].
    intros ->. unfold granted_rank. by rewrite ForCap_Spawn. }
  assert (BaseRank (ForCap bounded c).1.1 ≤ BaseRank (ForCap (r_scope r) c).1.1) as HR.
  { rewrite HB. destruct (ForCap input c) as [[b e] i]. apply MinBase_le_r. }
  clear HB. unfold ForCap in HR |- *. rewrite Eo, find_first_fmap. unfold compose. cbn [ov_Caps].
  destruct (find_first _ (Overrides bounded)) as [o|] eqn:Ef; simpl.
  - split; [done|]. intros id [Hr _]%elem_of_keep_ids.
    apply find_first_Some in Ef as [_ Hcap]. rewrite reaches_spec in Hr by done. by apply Hr.
  - split.
    { rewrite Eb. destruct (BoundRanks_fields r input (ExercisedBits caps)) as (Eb' & _).
      fold bounded in Eb'. simpl in HR. rewrite Eb' in HR. done. }
    rewrite Ei. intros id [Hr _]%elem_of_keep_ids. rewrite reaches_spec in Hr by done.
    apply Hr; [done|]. push_has. rewrite Hex, has_overridden_by by done.
    by rewrite (proj2 (existsb_false_elem_of _ _) (proj1 (find_first_None _ _) Ef)).
Qed.

Lemma ClampUnder_discloses child caps r id :
  reach_wf r → discloses (ClampUnder child caps r) id →
  in_set (VisibleSet (r_hex r) (r_scope r) (r_children r)) id = true.
Proof.
  intros Hwf. destruct (ClampUnder_fields child caps r) as (_ & Ei & _ & Ev & Eo & _).
  unfold discloses. rewrite Ei, Ev, Eo.
  intros [[Hr _]%elem_of_keep_ids|[[Hr _]%elem_of_keep_ids|(o & (q & -> & _)%list_elem_of_fmap & Hid)]].
  3: cbn [ov_IDs] in Hid; apply elem_of_keep_ids in Hid as [Hr _].
  all: rewrite reaches_spec in Hr by done; tauto.
Qed.

(** ** [IsNarrowing] *)

Lemma reachNarrowed_false bB bX bI aB aX aI :
  reachNarrowed bB bX bI aB aX aI = false →
  aB = ScopeBase_Global ∨
  (BaseRank bB ≤ BaseRank aB ∧ (aX = true → bX = true) ∧ ∀ id, id ∈ bI → id ∈ aI).
Proof.
  unfold reachNarrowed. destruct (N.eqb_spec aB ScopeBase_Global); [by left|].
  destruct (_ || _) eqn:E; [done|]. apply orb_false_iff in E as [Er Ex]. breflect.
  rewrite existsb_false_elem_of. intros H. right. split_and!; [done|by destruct aX, bX|].
  intros id Hid. specialize (H id Hid). breflect. set_solver.
Qed.

Lemma reachNarrowed_covers hex bB bX bI aB aX aI ch x :
  reachNarrowed bB bX bI aB aX aI = false → (x = hex → x ∉ bI) →
  covers hex bB bX bI ch x → covers hex aB aX aI ch x.
Proof.
  intros [->|(Hr & Hx & Hi)]%reachNarrowed_false Hself; [by left|].
  intros [->|[(-> & Hd & Hne)|[[-> Hf]|[Hid _]]]].
  - left. apply BaseRank_Global. pose proof (BaseRank_bound aB).
    change (BaseRank ScopeBase_Global) with 2 in Hr. lia.
  - change (BaseRank ScopeBase_Subtree) with 1 in Hr. pose proof (BaseRank_bound aB).
    destruct (decide (BaseRank aB = 2)) as [E|E]; [left; by apply BaseRank_Global|].
    right. left. split_and!; [apply BaseRank_Subtree; lia|done|auto].
  - right. right. left. split; [done|]. destruct aX; [|done]. rewrite Hx in Hf; done.
  - right. right. right. split; [auto|]. intros _ _ ->. by apply Hself.
Qed.

Lemma visibleIDs_discloses s x : x ∈ visibleIDs s ↔ discloses s x.
Proof.
  unfold visibleIDs, discloses.
  assert (∀ os acc, x ∈ foldl (λ out o, out ++ ov_IDs o) acc os ↔
    x ∈ acc ∨ ∃ o, o ∈ os ∧ x ∈ ov_IDs o) as H.
  { induction os as [|o os IH]; intros acc; simpl; [set_solver|]. rewrite IH. set_solver. }
  rewrite H, elem_of_app. tauto.
Qed.

Lemma IsNarrowing_false bc b ac a :
  IsNarrowing bc b ac a = false →
  bc .&^. ac = 0 ∧
  reachNarrowed (VisRank b) false (visibleIDs b) (VisRank a) false (visibleIDs a) = false ∧
  ∀ c, c ∈ each_cap → has (ExercisedBits bc) c = true →
    let '(bB, bX, bI) := ForCap b c in
    let '(aB, aX, aI) := ForCap a c in reachNarrowed bB bX bI aB aX aI = false.
Proof.
  unfold IsNarrowing. destruct (N.eqb_spec (bc .&^. ac) 0) as [E|]; [|done]. cbn [negb].
  destruct (reachNarrowed (VisRank b) _ _ _ _ _) eqn:Ev; [done|].
  rewrite existsb_false_elem_of. intros H. split_and!; [done|done|].
  intros c Hc Hex. specialize (H c Hc). unfold has in Hex. breflect.
  rewrite (proj2 (N.eqb_neq _ _) Hex) in H.
  by destruct (ForCap b c) as [[? ?] ?], (ForCap a c) as [[? ?] ?].
Qed.

(** ** Theorems *)

(** C1. A spawned task never reaches further than its spawner.  When [Attenuate]
    accepts a request against a spawner whose scope is consistent ([Validate]) and
    names only bases the schema knows, then over every later index of the tree
    that has only grown and in which the new task is below its spawner, each bit
    the task exercises targets only the task itself and what the spawner targets
    through that bit, and it sees only itself and what the spawner sees.  Both
    conditions on the scope are needed: an unknown base byte is not split into
    ranks. *)
Theorem Attenuate_confines (req : Scope) (caps : N) (p : string) (sp : Scope)
    (ch ch' : gmap string (list string)) (out : Scope) (c : string) :
  Attenuate req caps (Some (NewReach p sp ch)) = Ok out →
  Validate sp = None → scope_known sp →
  index_le ch ch' → below ch' p c →
  Confined ch' c out caps p sp.
Proof.
  intros Hatt Hval Hkn Hle Hb.
  pose proof (NewReach_wf p sp ch) as Hwf.
  pose proof (λ c, Attenuate_ForCap req caps _ out c Hatt Hwf) as HF.
  pose proof (λ id, Attenuate_discloses req caps _ out id Hatt Hwf) as HD.
  apply Attenuate_inv in Hatt as (_ & _ & _ & _ & _ & _ & _ & Hv & _).
  rewrite NewReach_scope in *. rewrite NewReach_hex, NewReach_children in HF, HD.
  apply (Confined_intro ch); [done|done|auto| |done].
  rewrite Hv. apply MinBase_le_r.
Qed.

(** The same for a cascade: the scope [ClampUnder] leaves a descendant is inside
    the narrowed ancestor's, for every exercised bit and for visibility. *)
Theorem ClampUnder_confines (child : Scope) (caps : N) (p : string) (sp : Scope)
    (ch ch' : gmap string (list string)) (c : string) :
  Validate sp = None → scope_known sp →
  index_le ch ch' → below ch' p c →
  Confined ch' c (ClampUnder child caps (NewReach p sp ch)) caps p sp.
Proof.
  intros Hval Hkn Hle Hb.
  pose proof (NewReach_wf p sp ch) as Hwf.
  pose proof (λ c, ClampUnder_ForCap child caps (NewReach p sp ch) c Hwf) as HF.
  pose proof (λ id, ClampUnder_discloses child caps (NewReach p sp ch) id Hwf) as HD.
  destruct (ClampUnder_fields child caps (NewReach p sp ch)) as (_ & _ & _ & _ & _ & Hv).
  rewrite NewReach_scope in *. rewrite NewReach_hex, NewReach_children in HF, HD.
  apply (Confined_intro ch); [done|done|auto| |done].
  rewrite Hv. apply MinBase_le_r.
Qed.

(** A change [IsNarrowing] does not report took nothing away: every capability
    bit is kept, everything seen is still seen, and through every bit exercised
    before, every target is still a target, the task's own id excepted where an
    id list names it. *)
Theorem IsNarrowing_false_keeps (bc ac : N) (b a : Scope) (hex : string)
    (ch : gmap string (list string)) :
  IsNarrowing bc b ac a = false →
  (∀ c, single c → has bc c = true → has ac c = true) ∧
  (∀ x, in_set (VisibleSet hex b ch) x = true → in_set (VisibleSet hex a ch) x = true) ∧
  (∀ c x, c ∈ each_cap → has (ExercisedBits bc) c = true →
     (x = hex → x ∉ (ForCap b c).2) →
     in_set (ActionSet hex b c ch) x = true → in_set (ActionSet hex a c ch) x = true).
Proof.
  intros (Hcaps & Hvis & Hact)%IsNarrowing_false. split_and!.
  - intros c Hc Hbc. assert (has (bc .&^. ac) c = false) as H by (by rewrite Hcaps, has_0).
    rewrite has_ldiff, Hbc in H by done. simpl in H. by breflect.
  - intros x. rewrite !in_VisibleSet.
    rewrite <-(visibleIDs_discloses b x), <-(visibleIDs_discloses a x).
    apply reachNarrowed_false in Hvis as [->|(Hr & _ & Hi)]; [by left|].
    pose proof (BaseRank_bound (VisRank a)) as Hba.
    rewrite <-(BaseRank_Global (VisRank a)), <-(BaseRank_Subtree (VisRank a)).
    rewrite <-(BaseRank_Global (VisRank b)), <-(BaseRank_Subtree (VisRank b)).
    intros [Hg|[[Hs Hd]|[->|Hid]]]; [left; lia| |by auto|by auto].
    destruct (decide (BaseRank (VisRank a) = 2)); [by left|]. right. left. split; [lia|done].
  - intros c x Hc Hex Hself. specialize (Hact c Hc Hex). rewrite !in_ActionSet.
    destruct (ForCap b c) as [[bB bX] bI], (ForCap a c) as [[aB aX] aI]. simpl in Hself.
    by apply reachNarrowed_covers.
Qed.

(** ** Concrete instances *)

Module Sample.
Definition p : string := "00000000000000000000000000000001".
Definition c : string := "00000000000000000000000000000002".
Definition g : string := "00000000000000000000000000000003".

(** [p] created [c], [c] created [g]. *)
Definition tree : gmap string (list string) := {[p := [c]; c := [g]]}.

(** A spawner with a subtree scope whose cancel is narrowed to itself and [g]. *)
Definition narrowed : Scope :=
  mkScope ScopeBase_Subtree [] 0 false false []
    [mkOverride Capability_Cancel ScopeBase_None false [g]].

(** The same with a base byte no constant names. *)
Definition from_newer_peer : Scope :=
  mkScope ScopeBase_Subtree [] 0 false false []
    [mkOverride Capability_Cancel 7 false []].

(** A request for every task, [g] listed. *)
Definition wide : Scope := mkScope ScopeBase_Global [g] 0 false false [] [].

(** What [wide] comes down to under [narrowed], cancel held. *)
Definition granted : Scope :=
  mkScope ScopeBase_Subtree [g] 0 false false []
    [mkOverride Capability_Cancel ScopeBase_None false [g]].
End Sample.

Lemma Attenuate_confines_witness :
  Attenuate Sample.wide Capability_Cancel (Some (NewReach Sample.p Sample.narrowed ∅))
    = Ok Sample.granted ∧
  Confined Sample.tree Sample.c Sample.granted Capability_Cancel Sample.p Sample.narrowed.
Proof.
  split; [by vm_compute|].
  apply (Attenuate_confines Sample.wide Capability_Cancel Sample.p Sample.narrowed ∅ Sample.tree).
  - by vm_compute.
  - by vm_compute.
  - apply (bool_decide_unpack _). by vm_compute.
  - apply index_le_empty.
  - apply (bool_decide_unpack _). by vm_compute.
Defined.

Lemma ClampUnder_confines_witness :
  Confined Sample.tree Sample.c
    (ClampUnder Sample.wide Capability_Cancel (NewReach Sample.p Sample.narrowed Sample.tree))
    Capability_Cancel Sample.p Sample.narrowed.
Proof.
  apply (ClampUnder_confines Sample.wide Capability_Cancel Sample.p Sample.narrowed Sample.tree).
  - by vm_compute.
  - apply (bool_decide_unpack _). by vm_compute.
  - reflexivity.
  - apply (bool_decide_unpack _). by vm_compute.
Defined.

Lemma IsNarrowing_false_keeps_witness :
  in_set (ActionSet Sample.p Sample.narrowed Capability_Cancel Sample.tree) Sample.g = true ∧
  in_set (ActionSet Sample.p (mkScope ScopeBase_Subtree [Sample.g] 0 false false [] [])
            Capability_Cancel Sample.tree) Sample.g = true.
Proof.
  split; [by vm_compute|].
  apply (IsNarrowing_false_keeps Capability_Cancel Capability_Cancel
           Sample.narrowed (mkScope ScopeBase_Subtree [Sample.g] 0 false false [] [])
           Sample.p Sample.tree).
  - by vm_compute.
  - apply elem_of_each_cap; [by exists 1|by vm_compute].
  - by vm_compute.
  - discriminate.
  - by vm_compute.
Defined.

(** ** Limits of the two rules *)

(** The confinement theorem needs its hypothesis on bases.  A base byte from a
    peer built against a newer schema ranks as none, yet [BoundRanks] has no
    piece to move a bit bound to it into, so the bit stays at the child's own
    base: here the spawner's cancel reaches nothing but itself, and the child it
    spawns with the default scope may cancel its whole subtree. *)
Theorem Attenuate_unknown_base_widens :
  BaseRank 7 = 0 ∧
  Attenuate DefaultScope Capability_Cancel (Some (NewReach Sample.p Sample.from_newer_peer ∅))
    = Ok DefaultScope ∧
  in_set (ActionSet Sample.c DefaultScope Capability_Cancel Sample.tree) Sample.g = true ∧
  in_set (ActionSet Sample.p Sample.from_newer_peer Capability_Cancel Sample.tree) Sample.g = false.
Proof. by vm_compute. Qed.

(** [exclude_self] over a subtree base removes the task even where its id list
    names it, while over a none base it does not; so a change that only widens
    the rank can take the task's own id out of its set, and [IsNarrowing] does
    not report it. *)
Theorem IsNarrowing_misses_listed_self :
  let before := mkScope ScopeBase_None [Sample.p] 0 false true [] [] in
  let after := mkScope ScopeBase_Subtree [Sample.p] 0 false true [] [] in
  IsNarrowing Capability_Cancel before Capability_Cancel after = false ∧
  in_set (ActionSet Sample.p before Capability_Cancel Sample.tree) Sample.p = true ∧
  in_set (ActionSet Sample.p after Capability_Cancel Sample.tree) Sample.p = false.
Proof. by vm_compute. Qed.
