(* ===== verification/Delegate.v ===== *)
(** * Delegation: [authority/delegate.go]

    A [Granter] is a task about to write authority onto another, measured by its
    own scope and by its delegation bound read as a scope around it.  A nil
    granter is an operator.  The theorems: what a child gets is inside both
    measures, what a child may hand down is inside what its granter may, and a
    refusal is typed after its cause. *)

From stdpp Require Import prelude gmap strings list sorting pretty.
From Stdlib Require Import NArith.
From S2P Require Import Prelude GoStrings Caps Scope Sets Reach Attenuate.

Open Scope N_scope.
Open Scope stdpp_scope.
Set Default Goal Selector "!".

Record Grant := mkGrant {
  g_Caps : N;
  g_Scope : Scope;
  g_DelegateCaps : N;
  g_DelegateScope : Scope;
}.

#[export] Instance Grant_eq_dec : EqDecision Grant.
Proof. solve_decision. Defined.

Record Granter := mkGranter {
  gr_held : Grant;
  gr_own : Reach;
  gr_ceil : Reach;
}.

Definition ceilingBit : N := Capability_FileRead.

Definition NewGranter (hex : string) (held : Grant) (children : gmap string (list string)) : Granter :=
  {| gr_held := held;
     gr_own := NewReach hex (g_Scope held) children;
     gr_ceil := NewReach hex (g_DelegateScope held) children |}.

Inductive grant_error :=
  | InvalidScopeError (err : string)
  | OutOfReachError (id : string)
  | OutOfDelegationError (id field : string).

(** [Error()] of the three. *)
Definition grant_error_text (e : grant_error) : string :=
  match e with
  | InvalidScopeError err => "invalid scope: " +:+ err
  | OutOfReachError id => "scope id " +:+ id +:+ " is outside your own scope"
  | OutOfDelegationError id field =>
      field +:+ " id " +:+ id +:+ " is outside what you may delegate (see whoami: delegate-scope)"
  end.

Definition ChildCaps (g : option Granter) (requested : N) : N :=
  match g with
  | None => requested
  | Some g => g_Caps (gr_held g) .&. g_DelegateCaps (gr_held g) .&. requested
  end.

(** [attenuateError]: a consistency failure arrives prefixed. *)
Definition attenuateError (offender : string) : grant_error :=
  let prefix := "invalid scope: " in
  if HasPrefix offender prefix
  then InvalidScopeError (unchars (drop (String.length prefix) (chars offender)))
  else OutOfReachError offender.

Definition coversChild (g : Granter) (childHex : string) : bool :=
  if bool_decide (childHex = "") then
    let c := g_DelegateScope (gr_held g) in
    CoversNewChild c ceilingBit && (BaseRank ScopeBase_Subtree <=? BaseRank (VisRank c))
  else reaches (gr_ceil g) childHex ceilingBit.

(** The closure [keep] of [ceiling], its [refused] variable threaded: the kept
    ids and the refused one, empty for none. *)
Fixpoint ceiling_keep_loop (r : Reach) (drop : bool) (bits : N) (out ids : list string)
    : list string * string :=
  match ids with
  | [] => (out, "")
  | id :: ids' =>
      if reaches r id bits then ceiling_keep_loop r drop bits (out ++ [id]) ids'
      else if negb drop then ([], id)
      else ceiling_keep_loop r drop bits out ids'
  end.

Definition ceiling_keep (r : Reach) (drop : bool) (refused : string) (ids : list string) (bits : N)
    : list string * string :=
  if negb (bool_decide (refused = "")) then ([], refused)
  else ceiling_keep_loop r drop bits [] ids.

(** The override loop of [ceiling], under the bound's base [cbase]. *)
Fixpoint ceiling_overrides (r : Reach) (cbase : N) (drop : bool) (refused : string)
    (os : list ScopeOverride) : list ScopeOverride * string :=
  match os with
  | [] => ([], refused)
  | o :: os' =>
      let '(ids, refused) := ceiling_keep r drop refused (ov_IDs o) ceilingBit in
      let '(rest, refused) := ceiling_overrides r cbase drop refused os' in
      ({| ov_Caps := ov_Caps o; ov_Base := MinBase (ov_Base o) cbase;
          ov_ExcludeSelf := ov_ExcludeSelf o; ov_IDs := ids |} :: rest, refused)
  end.

Definition ceiling (g : Granter) (s : Scope) (field : string) (drop : bool)
    : result grant_error Scope :=
  let c := g_DelegateScope (gr_held g) in
  let '(ids, refused) := ceiling_keep (gr_ceil g) drop "" (IDs s) ceilingBit in
  let base := MinBase (Base s) (Base c) in
  let vis := MinBase (VisRank s) (VisRank c) in
  let '(ovs, refused) := ceiling_overrides (gr_ceil g) (Base c) drop refused (Overrides s) in
  let '(visIds, refused) := ceiling_keep (gr_ceil g) drop refused (VisIDs s) Capability_None in
  if negb (bool_decide (refused = "")) then Err (OutOfDelegationError refused field)
  else Ok {| Base := base; IDs := ids;
             VisBase := if negb (vis =? base) then vis else 0;
             VisBasePresent := negb (vis =? base);
             ExcludeSelf := ExcludeSelf s; VisIDs := visIds; Overrides := ovs |}.

Definition ChildScope (g : option Granter) (req : Scope) (held : N) : result grant_error Scope :=
  match g with
  | None =>
      match Attenuate req held None with
      | Ok out => Ok out
      | Err offender => Err (attenuateError offender)
      end
  | Some g =>
      match Attenuate req held (Some (gr_own g)) with
      | Ok out => ceiling g out "scope" false
      | Err offender => Err (attenuateError offender)
      end
  end.

Definition set_excl (s : Scope) (e : bool) : Scope :=
  {| Base := Base s; IDs := IDs s; VisBase := VisBase s; VisBasePresent := VisBasePresent s;
     ExcludeSelf := e; VisIDs := VisIDs s; Overrides := Overrides s |}.

Definition set_ids (s : Scope) (ids visIds : list string) : Scope :=
  {| Base := Base s; IDs := ids; VisBase := VisBase s; VisBasePresent := VisBasePresent s;
     ExcludeSelf := ExcludeSelf s; VisIDs := visIds; Overrides := Overrides s |}.

(** [ChildBound]: the caps come back even when the scope half is refused. *)
Definition ChildBound (g : option Granter) (reqCaps : N) (req : Scope) (childHex : string)
    : N * result grant_error Scope :=
  let caps := match g with
              | Some g => reqCaps .&. g_DelegateCaps (gr_held g)
              | None => reqCaps
              end in
  match Overrides req with
  | _ :: _ => (caps, Err (InvalidScopeError "a delegation bound carries no per-capability overrides"))
  | [] =>
    match Validate req with
    | Some err => (caps, Err (InvalidScopeError err))
    | None =>
      let req := set_ids req (NormalizeIDs (IDs req)) (NormalizeIDs (VisIDs req)) in
      match g with
      | None => (caps, Ok req)
      | Some g =>
        match ceiling g req "delegate-scope" false with
        | Err e => (caps, Err e)
        | Ok out => (caps, Ok (set_excl out (ExcludeSelf out || negb (coversChild g childHex))))
        end
      end
    end
  end.

(** The value of a [(Scope, error)] pair whose error is discarded. *)
Definition value_of (r : result grant_error Scope) : Scope :=
  match r with Ok s => s | Err _ => zeroScope end.

Definition ClampDescendant (g : Granter) (d : Grant) (dHex : string) : Grant :=
  let caps := g_Caps d .&. g_Caps (gr_held g) .&. g_DelegateCaps (gr_held g) in
  let scope := value_of (ceiling g (ClampUnder (g_Scope d) caps (gr_own g)) "scope" true) in
  let bound := value_of (ceiling g (g_DelegateScope d) "delegate-scope" true) in
  let bound := set_excl bound (ExcludeSelf bound || negb (coversChild g dHex)) in
  {| g_Caps := caps; g_Scope := scope;
     g_DelegateCaps := g_DelegateCaps d .&. g_DelegateCaps (gr_held g);
     g_DelegateScope := bound |}.

(** ** [ceiling] *)

Lemma ceiling_keep_loop_elem r dr bits out ids id :
  id ∈ (ceiling_keep_loop r dr bits out ids).1 →
  id ∈ out ∨ (id ∈ ids ∧ reaches r id bits = true).
Proof.
  revert out. induction ids as [|x ids IH]; intros out; simpl; [by left|].
  destruct (reaches r x bits) eqn:E; [|destruct dr; simpl].
  - intros [[?| ->%list_elem_of_singleton]%elem_of_app|[? ?]]%IH; [by left|right..]; split;
      try done; [by left|by right].
  - intros [?|[? ?]]%IH; [by left|]. right. split; [by right|done].
  - intros H. by apply not_elem_of_nil in H.
Qed.

Lemma ceiling_keep_elem r dr ref ids bits id :
  id ∈ (ceiling_keep r dr ref ids bits).1 → id ∈ ids ∧ reaches r id bits = true.
Proof.
  unfold ceiling_keep. case_match; simpl; [intros H'; by apply not_elem_of_nil in H'|].
  intros [H'|?]%ceiling_keep_loop_elem; [by apply not_elem_of_nil in H'|done].
Qed.

Lemma ceiling_keep_loop_refused r dr bits out ids :
  (ceiling_keep_loop r dr bits out ids).2 ≠ "" →
  dr = false ∧ (ceiling_keep_loop r dr bits out ids).2 ∈ ids ∧
  reaches r (ceiling_keep_loop r dr bits out ids).2 bits = false.
Proof.
  revert out. induction ids as [|x ids IH]; intros out; simpl; [done|].
  destruct (reaches r x bits) eqn:E; [|destruct dr; simpl].
  - intros (? & ? & ?)%IH. split_and!; [done|by right|done].
  - intros (? & ? & ?)%IH. done.
  - intros _. split_and!; [done|by left|done].
Qed.

Lemma ceiling_keep_refused r dr ref ids bits :
  (ceiling_keep r dr ref ids bits).2 ≠ "" →
  (ceiling_keep r dr ref ids bits).2 = ref ∨
  (dr = false ∧ (ceiling_keep r dr ref ids bits).2 ∈ ids ∧
   reaches r (ceiling_keep r dr ref ids bits).2 bits = false).
Proof.
  unfold ceiling_keep. case_match; simpl; [by left|]. right. by apply ceiling_keep_loop_refused.
Qed.

Lemma ceiling_overrides_elem r cb dr ref os o :
  o ∈ (ceiling_overrides r cb dr ref os).1 →
  ∃ o0, o0 ∈ os ∧ ov_Caps o = ov_Caps o0 ∧ ov_Base o = MinBase (ov_Base o0) cb ∧
    ov_ExcludeSelf o = ov_ExcludeSelf o0 ∧
    ∀ id, id ∈ ov_IDs o → id ∈ ov_IDs o0 ∧ reaches r id ceilingBit = true.
Proof.
  revert ref. induction os as [|o0 os IH]; intros ref; simpl; [intros H; by apply not_elem_of_nil in H|].
  pose proof (ceiling_keep_elem r dr ref (ov_IDs o0) ceilingBit) as Hk.
  destruct (ceiling_keep r dr ref (ov_IDs o0) ceilingBit) as [ids ref1]. simpl in Hk.
  specialize (IH ref1). destruct (ceiling_overrides r cb dr ref1 os) as [rest ref2]. simpl in *.
  intros [->|(q & ? & ?)%IH]%elem_of_cons.
  - exists o0. simpl. split; [by left|]. split_and!; done.
  - exists q. split; [by right|done].
Qed.

(** The first override of the result for a bit comes from the first of the
    input for it. *)
Lemma ceiling_overrides_find r cb dr ref os c :
  match find_first (λ o, has (ov_Caps o) c) (ceiling_overrides r cb dr ref os).1 with
  | Some o => ∃ o0, find_first (λ o, has (ov_Caps o) c) os = Some o0 ∧
      ov_Base o = MinBase (ov_Base o0) cb ∧ ov_ExcludeSelf o = ov_ExcludeSelf o0 ∧
      ∀ id, id ∈ ov_IDs o → id ∈ ov_IDs o0 ∧ reaches r id ceilingBit = true
  | None => find_first (λ o, has (ov_Caps o) c) os = None
  end.
Proof.
  revert ref. induction os as [|o0 os IH]; intros ref; simpl; [done|].
  pose proof (ceiling_keep_elem r dr ref (ov_IDs o0) ceilingBit) as Hk.
  destruct (ceiling_keep r dr ref (ov_IDs o0) ceilingBit) as [ids ref1]. simpl in Hk.
  specialize (IH ref1). destruct (ceiling_overrides r cb dr ref1 os) as [rest ref2]. simpl in *.
  destruct (has (ov_Caps o0) c); [|done]. exists o0. split_and!; done.
Qed.

Lemma ceiling_overrides_refused r cb dr ref os :
  (ceiling_overrides r cb dr ref os).2 ≠ "" →
  (ceiling_overrides r cb dr ref os).2 = ref ∨
  (dr = false ∧ (∃ o, o ∈ os ∧ (ceiling_overrides r cb dr ref os).2 ∈ ov_IDs o) ∧
   reaches r (ceiling_overrides r cb dr ref os).2 ceilingBit = false).
Proof.
  revert ref. induction os as [|o os IH]; intros ref; simpl; [by left|].
  pose proof (ceiling_keep_refused r dr ref (ov_IDs o) ceilingBit) as Hk.
  destruct (ceiling_keep r dr ref (ov_IDs o) ceilingBit) as [ids ref1]. simpl in Hk.
  specialize (IH ref1). destruct (ceiling_overrides r cb dr ref1 os) as [rest ref2]. simpl in *.
  intros Hn. destruct (IH Hn) as [->|(-> & (o' & ? & ?) & ?)].
  - destruct (Hk Hn) as [->|(-> & ? & ?)]; [by left|]. right. split_and!; [done| |done].
    exists o. split; [by left|done].
  - right. split_and!; [done| |done]. exists o'. split; [by right|done].
Qed.

Lemma ceiling_Ok g s field dr out :
  ceiling g s field dr = Ok out →
  let c := g_DelegateScope (gr_held g) in
  Base out = MinBase (Base s) (Base c) ∧
  VisRank out = MinBase (VisRank s) (VisRank c) ∧
  ExcludeSelf out = ExcludeSelf s ∧
  (VisBasePresent out = false → VisBase out = 0) ∧
  (∀ id, id ∈ IDs out → id ∈ IDs s ∧ reaches (gr_ceil g) id ceilingBit = true) ∧
  (∀ id, id ∈ VisIDs out → id ∈ VisIDs s ∧ reaches (gr_ceil g) id 0 = true) ∧
  ∃ ref, Overrides out = (ceiling_overrides (gr_ceil g) (Base c) dr ref (Overrides s)).1.
Proof.
  unfold ceiling. set (c := g_DelegateScope (gr_held g)).
  pose proof (ceiling_keep_elem (gr_ceil g) dr "" (IDs s) ceilingBit) as Hi.
  destruct (ceiling_keep _ _ "" (IDs s) _) as [ids ref1]. simpl in Hi.
  destruct (ceiling_overrides _ _ dr ref1 _) as [ovs ref2] eqn:Eo.
  pose proof (ceiling_keep_elem (gr_ceil g) dr ref2 (VisIDs s) Capability_None) as Hv.
  destruct (ceiling_keep _ _ ref2 (VisIDs s) _) as [vids ref3]. simpl in Hv.
  destruct (negb (bool_decide (ref3 = ""))); [done|]. intros [= <-].
  cbn [Base VisBase VisBasePresent ExcludeSelf IDs VisIDs Overrides].
  split_and!; [done| |done| |auto|auto|exists ref1; by rewrite Eo].
  - unfold VisRank at 1. cbn [Base VisBase VisBasePresent].
    destruct (N.eqb_spec (MinBase (VisRank s) (VisRank c)) (MinBase (Base s) (Base c))) as [E|E];
      cbn [negb]; by rewrite ?E.
  - by destruct (_ =? _).
Qed.

Lemma ceiling_Err g s field dr e :
  ceiling g s field dr = Err e →
  ∃ id, e = OutOfDelegationError id field ∧ id ≠ "" ∧ dr = false ∧ discloses s id ∧
    (reaches (gr_ceil g) id ceilingBit = false ∨ reaches (gr_ceil g) id 0 = false).
Proof.
  unfold ceiling. set (c := g_DelegateScope (gr_held g)).
  pose proof (ceiling_keep_refused (gr_ceil g) dr "" (IDs s) ceilingBit) as Hi.
  destruct (ceiling_keep _ _ "" (IDs s) _) as [ids ref1]. simpl in Hi.
  pose proof (ceiling_overrides_refused (gr_ceil g) (Base c) dr ref1 (Overrides s)) as Ho.
  destruct (ceiling_overrides _ _ dr ref1 _) as [ovs ref2]. simpl in Ho.
  pose proof (ceiling_keep_refused (gr_ceil g) dr ref2 (VisIDs s) Capability_None) as Hv.
  destruct (ceiling_keep _ _ ref2 (VisIDs s) _) as [vids ref3]. simpl in Hv.
  destruct (bool_decide_reflect (ref3 = "")) as [|Hn]; [done|]. intros [= <-].
  exists ref3. split_and!; [done|done|..].
  all: destruct (Hv Hn) as [->|(-> & ? & ?)]; [|by unfold discloses; auto].
  all: destruct (Ho Hn) as [->|(-> & ? & ?)]; [|by unfold discloses; auto].
  all: destruct (Hi Hn) as [->|(-> & ? & ?)]; [done|by unfold discloses; auto].
Qed.

Lemma ceiling_ForCap g s field dr out c :
  ceiling g s field dr = Ok out →
  (ForCap out c).1.1 = MinBase (ForCap s c).1.1 (Base (g_DelegateScope (gr_held g))) ∧
  (ForCap out c).1.2 = (ForCap s c).1.2 ∧
  ∀ id, id ∈ (ForCap out c).2 → id ∈ (ForCap s c).2 ∧ reaches (gr_ceil g) id ceilingBit = true.
Proof.
  intros (Eb & _ & Ee & _ & Hi & _ & ref & Eo)%ceiling_Ok. cbn zeta in *.
  pose proof (ceiling_overrides_find (gr_ceil g) (Base (g_DelegateScope (gr_held g))) dr ref
    (Overrides s) c) as Hf.
  unfold ForCap. rewrite Eo. destruct (find_first _ (ceiling_overrides _ _ _ _ _).1) as [o|].
  - destruct Hf as (o0 & -> & ? & ? & ?). done.
  - rewrite Hf, Eb, Ee. done.
Qed.

Lemma ceiling_discloses g s field dr out id :
  reach_wf (gr_ceil g) → ceiling g s field dr = Ok out → discloses out id →
  discloses s id ∧
  in_set (VisibleSet (r_hex (gr_ceil g)) (r_scope (gr_ceil g)) (r_children (gr_ceil g))) id = true.
Proof.
  intros Hwf (_ & _ & _ & _ & Hi & Hv & ref & Eo)%ceiling_Ok. cbn zeta in *.
  assert (∀ b, reaches (gr_ceil g) id b = true →
    in_set (VisibleSet (r_hex (gr_ceil g)) (r_scope (gr_ceil g)) (r_children (gr_ceil g))) id = true)
    as Hr by (intros b Hb; rewrite reaches_spec in Hb by done; tauto).
  intros [[? ?]%Hv|[[? ?]%Hi|(o & Ho & Hid)]].
  - split; [by left|eauto].
  - split; [by right; left|eauto].
  - rewrite Eo in Ho. apply ceiling_overrides_elem in Ho as (o0 & ? & _ & _ & _ & Ho).
    destruct (Ho id Hid) as [? ?]. split; [|eauto]. right. right. eauto.
Qed.

(** A bound without overrides answers alike for every bit. *)
Lemma ForCap_no_overrides s c : Overrides s = [] → ForCap s c = (Base s, ExcludeSelf s, IDs s).
Proof. intros H. unfold ForCap. by rewrite H. Qed.

Lemma ActionSet_no_overrides hex s c1 c2 ch :
  Overrides s = [] → ActionSet hex s c1 ch = ActionSet hex s c2 ch.
Proof. intros H. unfold ActionSet. by rewrite !ForCap_no_overrides. Qed.

Lemma ceilingBit_each_cap : ceilingBit ∈ each_cap.
Proof. apply elem_of_each_cap; [apply single_FileRead|done]. Qed.

Lemma reaches_ceilingBit p C ch id :
  reaches (NewReach p C ch) id ceilingBit = true ↔
    in_set (VisibleSet p C ch) id = true ∧ in_set (ActionSet p C ceilingBit ch) id = true.
Proof.
  rewrite reaches_NewReach. split; intros [Hv Ha]; split; [done| |done|].
  - apply Ha; [apply ceilingBit_each_cap|done].
  - intros c Hc Hhas.
    pose proof (has_other ceilingBit c single_FileRead (each_cap_single c Hc)) as E.
    rewrite Hhas in E. symmetry in E. apply bool_decide_eq_true in E. by subst c.
Qed.

Lemma reaches_0 p C ch id :
  reaches (NewReach p C ch) id 0 = true ↔ in_set (VisibleSet p C ch) id = true.
Proof.
  rewrite reaches_NewReach. split; [tauto|]. intros. split; [done|]. intros c _. by rewrite has_0.
Qed.

(** What [ceiling] returns is confined by the bound. *)
Lemma ceiling_confined p G ch ch' s field dr out c caps :
  ceiling (NewGranter p G ch) s field dr = Ok out → Overrides (g_DelegateScope G) = [] →
  index_le ch ch' → below ch' p c → Confined ch' c out caps p (g_DelegateScope G).
Proof.
  intros Hc Hno Hle Hb. pose proof (ceiling_Ok _ _ _ _ _ Hc) as (_ & Ev & _). cbn zeta in Ev.
  apply (Confined_intro ch); [done|done| |simpl in Ev; rewrite Ev; apply MinBase_le_r|].
  - intros bit Hbit _. destruct (ceiling_ForCap _ _ _ _ _ bit Hc) as (Er & _ & Hids).
    rewrite (ForCap_no_overrides (g_DelegateScope G)) by done. split.
    { rewrite Er. apply MinBase_le_r. }
    intros id [_ Hr]%Hids. simpl in Hr. apply reaches_ceilingBit in Hr as [_ Hr].
    by rewrite (ActionSet_no_overrides _ _ bit ceilingBit).
  - intros id Hid. destruct (ceiling_discloses (NewGranter p G ch) _ _ _ _ id (NewReach_wf _ _ _) Hc Hid) as [_ Hv].
    simpl in Hv. by rewrite NewReach_hex, NewReach_scope, NewReach_children in Hv.
Qed.

(** ... and still by whatever bounded its argument. *)
Lemma ceiling_keeps p G ch ch' s field dr out c caps q sq :
  ceiling (NewGranter p G ch) s field dr = Ok out → index_le ch ch' → below ch' q c →
  (∀ bit, bit ∈ each_cap → has (ExercisedBits caps) bit = true →
     BaseRank (ForCap s bit).1.1 ≤ BaseRank (ForCap sq bit).1.1 ∧
     ∀ id, id ∈ (ForCap s bit).2 → in_set (ActionSet q sq bit ch) id = true) →
  BaseRank (VisRank s) ≤ BaseRank (VisRank sq) →
  (∀ id, discloses s id → in_set (VisibleSet q sq ch) id = true) →
  Confined ch' c out caps q sq.
Proof.
  intros Hc Hle Hb Hact Hvr Hvis. pose proof (ceiling_Ok _ _ _ _ _ Hc) as (_ & Ev & _). cbn zeta in Ev.
  apply (Confined_intro ch); [done|done| |..].
  - intros bit Hbit Hex. destruct (ceiling_ForCap _ _ _ _ _ bit Hc) as (Er & _ & Hids).
    destruct (Hact bit Hbit Hex) as [Hr Hid]. split.
    + rewrite Er. etrans; [apply MinBase_le_l|done].
    + intros id [? _]%Hids. by apply Hid.
  - rewrite Ev. etrans; [apply MinBase_le_l|done].
  - intros id Hid. apply Hvis. by destruct (ceiling_discloses (NewGranter p G ch) _ _ _ _ id (NewReach_wf _ _ _) Hc Hid).
Qed.

(** ** The bound carries down *)

(** The child is covered at spawn, or has come under the granter since. *)
Lemma coversChild_later p G ch ch' childHex c :
  Overrides (g_DelegateScope G) = [] → index_le ch ch' → below ch' p c →
  (childHex = "" ∨ childHex = c) →
  coversChild (NewGranter p G ch) childHex = true →
  reaches (NewReach p (g_DelegateScope G) ch') c ceilingBit = true.
Proof.
  intros Hno Hle [Hpc Hcp] Hhex. unfold coversChild. cbn [gr_held gr_ceil NewGranter].
  rewrite (reaches_ceilingBit p _ ch' c). case_bool_decide as He.
  - clear Hhex. unfold CoversNewChild. rewrite in_VisibleSet, in_ActionSet.
    rewrite !ForCap_no_overrides by done. intros [Hbase Hvis]%andb_true_iff.
    apply N.leb_le in Hvis. change (BaseRank ScopeBase_Subtree) with 1 in Hvis.
    pose proof (BaseRank_bound (VisRank (g_DelegateScope G))). split.
    + destruct (decide (BaseRank (VisRank (g_DelegateScope G)) = 2)) as [E|E].
      * left. by apply BaseRank_Global.
      * right. left. split; [apply BaseRank_Subtree; lia|done].
    + apply orb_true_iff in Hbase as [E|E]; apply N.eqb_eq in E; [right; left|by left].
      split_and!; [done|done|]. intros _ ->. done.
  - destruct Hhex as [->| ->]; [done|]. intros [Hv Ha]%reaches_ceilingBit.
    split; [by eapply VisibleSet_index_mono|by eapply ActionSet_index_mono].
Qed.

Lemma bound_carries p G ch ch' s field dr out0 c childHex x :
  Overrides (g_DelegateScope G) = [] → Overrides s = [] →
  index_le ch ch' → below ch' p c → (childHex = "" ∨ childHex = c) →
  ceiling (NewGranter p G ch) s field dr = Ok out0 →
  let out := set_excl out0 (ExcludeSelf out0 || negb (coversChild (NewGranter p G ch) childHex)) in
  (reaches (NewReach c out ch') x ceilingBit = true →
     reaches (NewReach p (g_DelegateScope G) ch') x ceilingBit = true ∨
     (x = c ∧ Base out = ScopeBase_Global)) ∧
  (reaches (NewReach c out ch') x 0 = true →
     x = c ∨ reaches (NewReach p (g_DelegateScope G) ch') x 0 = true).
Proof.
  intros Hno Hso Hle Hb Hhex Hc out.
  pose proof (ceiling_confined p G ch ch' s field dr out0 c Capability_All Hc Hno Hle Hb) as [Ha Hv].
  assert (Overrides out0 = []) as Hoo.
  { destruct (ceiling_Ok _ _ _ _ _ Hc) as (_ & _ & _ & _ & _ & _ & ref & ->). by rewrite Hso. }
  rewrite !reaches_ceilingBit, !reaches_0.
  assert (VisibleSet c out ch' = VisibleSet c out0 ch') as Ev by done. rewrite Ev. clear Ev.
  split; [|apply Hv]. intros [Hvx Hax].
  assert (in_set (ActionSet c out0 ceilingBit ch') x = true) as Hax0.
  { rewrite in_ActionSet, ForCap_no_overrides in * by done.
    cbn [Base ExcludeSelf IDs set_excl out] in Hax.
    eapply covers_excl; [|exact Hax]. intros ->. done. }
  destruct (decide (x = c)) as [->|Hne].
  2: { left. split.
    - by destruct (Hv x Hvx).
    - by destruct (Ha ceilingBit x ceilingBit_each_cap (eq_refl _) Hax0). }
  destruct (coversChild (NewGranter p G ch) childHex) eqn:Ecov.
  { left. apply reaches_ceilingBit. by eapply coversChild_later. }
  rewrite in_ActionSet, ForCap_no_overrides in Hax by done.
  unfold out in Hax. cbn [Base ExcludeSelf IDs set_excl negb] in Hax. rewrite orb_true_r in Hax.
  destruct (ceiling_Ok _ _ _ _ _ Hc) as (_ & _ & _ & _ & Hi & _). cbn zeta in *.
  destruct Hax as [Hg|[(_ & _ & F)|[[_ F]|[Hid _]]]]; [by right|by destruct (F eq_refl)|done|].
  left. apply Hi in Hid as [_ Hr]. simpl in Hr. apply reaches_ceilingBit in Hr as [? ?].
  split; [by eapply VisibleSet_index_mono|by eapply ActionSet_index_mono].
Qed.

(** ** Errors *)

Lemma drop_prefix p t : unchars (drop (String.length p) (chars (p +:+ t))) = t.
Proof.
  induction p as [|a p IH]; [apply unchars_chars|].
  change (String a p +:+ t) with (String a (p +:+ t)). exact IH.
Qed.

Lemma attenuateError_invalid err :
  attenuateError ("invalid scope: " +:+ err) = InvalidScopeError err.
Proof. unfold attenuateError. rewrite HasPrefix_app, drop_prefix. done. Qed.

Lemma attenuateError_id id : valid_id id → attenuateError id = OutOfReachError id.
Proof. intros H. unfold attenuateError. by rewrite valid_id_not_invalid. Qed.

Lemma normalize_scope_discloses_valid req id :
  discloses (normalize_scope req) id → valid_id id.
Proof.
  unfold discloses, normalize_scope. cbn.
  intros [[? _]%elem_of_NormalizeIDs|[[? _]%elem_of_NormalizeIDs|(o & Ho & Hid)]]; [done..|].
  apply list_elem_of_fmap in Ho as (q & -> & _). cbn in Hid.
  by apply elem_of_NormalizeIDs in Hid as [? _].
Qed.

Lemma BoundRanks_discloses r s held id :
  discloses (BoundRanks r s held) id → discloses s id.
Proof.
  unfold discloses. destruct (BoundRanks_fields r s held) as (_ & -> & -> & _).
  intros [?|[?|(p & Hp & Hid)]]; [auto..|].
  apply BoundRanks_override in Hp as [(o & ? & E & _)|(E & _)]; rewrite E in Hid; eauto 6.
Qed.

(** What [Attenuate] refuses, by cause. *)
Lemma Attenuate_Err req caps g off :
  Attenuate req caps g = Err off →
  (∃ err, Validate (normalize_scope req) = Some err ∧ off = "invalid scope: " +:+ err) ∨
  (Validate (normalize_scope req) = None ∧ discloses (normalize_scope req) off ∧
   ∃ r bits, g = Some r ∧ reaches r off bits = false).
Proof.
  unfold Attenuate. destruct (Validate (normalize_scope req)) as [err|].
  { intros [= <-]. left. eauto. }
  destruct g as [r|]; [|done]. set (ex := ExercisedBits caps). set (want := MinBase _ _).
  set (out0 := BoundRanks r (normalize_scope req) ex).
  set (out1 := if VisBasePresent out0 || _ then _ else _).
  assert (∀ id, discloses out1 id → discloses (normalize_scope req) id) as Hd.
  { intros id Hid. apply (BoundRanks_discloses r _ ex). fold out0.
    unfold out1 in Hid. by destruct (VisBasePresent out0 || _). }
  assert (∀ bits ids id, first_unreached r bits ids = Some id →
    id ∈ ids ∧ reaches r id bits = false) as Hf.
  { intros bits ids id [? ?]%find_first_Some. by breflect. }
  destruct (first_unreached_override r ex (Overrides out1)) as [id|] eqn:E1; [|
    destruct (first_unreached r (ex .&^. _) _) as [id|] eqn:E2; [|
    destruct (first_unreached r Capability_None _) as [id|] eqn:E3; [|done]]]; intros [= <-].
  - right. split; [done|]. assert (∃ o bits, o ∈ Overrides out1 ∧ id ∈ ov_IDs o ∧ reaches r id bits = false)
      as (o & bits & ? & ? & ?).
    { clear -E1 Hf. induction (Overrides out1) as [|o os IH]; simpl in E1; [done|].
      destruct (first_unreached _ _ _) as [x|] eqn:E.
      - injection E1 as ->. apply Hf in E as [? ?]. exists o, (ov_Caps o .&. ex).
        split; [by left|done].
      - destruct (IH E1) as (o' & b & ? & ? & ?). exists o', b. split; [by right|done]. }
    split; [|eauto]. apply Hd. right. right. eauto.
  - apply Hf in E2 as [? ?]. right. split; [done|]. split; [|eauto]. apply Hd. by right; left.
  - apply Hf in E3 as [? ?]. right. split; [done|]. split; [|eauto]. apply Hd. by left.
Qed.

(** ** Theorems *)

(** A granted scope stays inside the granter's own. *)
Lemma ChildScope_own p G ch ch' req out held c :
  ChildScope (Some (NewGranter p G ch)) req held = Ok out →
  Validate (g_Scope G) = None → scope_known (g_Scope G) →
  index_le ch ch' → below ch' p c → Confined ch' c out held p (g_Scope G).
Proof.
  unfold ChildScope. cbn [gr_own NewGranter].
  destruct (Attenuate req held _) as [out1|] eqn:Hatt; [|done]. intros Hc Hval Hkn Hle Hb.
  pose proof (NewReach_wf p (g_Scope G) ch) as Hwf.
  pose proof (λ b, Attenuate_ForCap req held _ out1 b Hatt Hwf) as HF.
  pose proof (λ id, Attenuate_discloses req held _ out1 id Hatt Hwf) as HD.
  apply Attenuate_inv in Hatt as (_ & _ & _ & _ & _ & _ & _ & Hv & _).
  rewrite NewReach_scope in *. rewrite NewReach_hex, NewReach_children in HF, HD.
  eapply ceiling_keeps; [done..|by auto| |done]. rewrite Hv. apply MinBase_le_r.
Qed.

(** So does a clamped descendant's. *)
Lemma ClampDescendant_own p G d ch ch' c :
  Validate (g_Scope G) = None → scope_known (g_Scope G) →
  index_le ch ch' → below ch' p c →
  let d' := ClampDescendant (NewGranter p G ch) d c in
  Confined ch' c (g_Scope d') (g_Caps d') p (g_Scope G).
Proof.
  intros Hval Hkn Hle Hb d'. unfold d', ClampDescendant.
  cbn [g_Caps g_Scope g_DelegateCaps g_DelegateScope gr_held gr_own NewGranter].
  set (caps := _ .&. _ .&. _). set (sc := ClampUnder _ _ _).
  destruct (ceiling (NewGranter p G ch) sc "scope" true) as [out|e] eqn:E1; cycle 1.
  { by apply ceiling_Err in E1 as (? & _ & _ & ? & _). }
  cbn [value_of].
  pose proof (NewReach_wf p (g_Scope G) ch) as Hwf.
  pose proof (λ b, ClampUnder_ForCap (g_Scope d) caps _ b Hwf) as HF.
  pose proof (λ id, ClampUnder_discloses (g_Scope d) caps _ id Hwf) as HD.
  destruct (ClampUnder_fields (g_Scope d) caps (NewReach p (g_Scope G) ch)) as (_ & _ & _ & _ & _ & Hv).
  fold sc in Hv, HF, HD.
  rewrite NewReach_scope in *. rewrite NewReach_hex, NewReach_children in HF, HD.
  eapply ceiling_keeps; [done..|by auto| |done]. rewrite Hv. apply MinBase_le_r.
Qed.

(** What a granter hands down is inside both of its measures: an accepted scope
    is confined by the granter's own scope and by its delegation bound, at every
    later state of the tree in which the child is below the granter. *)
Theorem ChildScope_confined (p : string) (G : Grant) (ch ch' : gmap string (list string))
    (req out : Scope) (held : N) (c : string) :
  ChildScope (Some (NewGranter p G ch)) req held = Ok out →
  Validate (g_Scope G) = None → scope_known (g_Scope G) →
  Overrides (g_DelegateScope G) = [] →
  index_le ch ch' → below ch' p c →
  Confined ch' c out held p (g_Scope G) ∧ Confined ch' c out held p (g_DelegateScope G).
Proof.
  intros Hc Hval Hkn Hno Hle Hb. split; [by eapply ChildScope_own|].
  revert Hc. unfold ChildScope. cbn [gr_own NewGranter].
  destruct (Attenuate req held _) as [out1|]; [|done]. intros Hc. by eapply ceiling_confined.
Qed.

(** The delegation bound carries down the chain: an id the child's bound lets it
    hand on as an action id is one the granter could hand on as one, and an id it
    may hand on for viewing is the child's own or one the granter could hand on;
    the child's caps bound is inside the granter's.  The one exception is the
    child's own id under a global bound, whose base does not read [exclude_self]. *)
Theorem ChildBound_carries (p : string) (G : Grant) (ch ch' : gmap string (list string))
    (reqCaps caps : N) (req out : Scope) (childHex c x : string) :
  ChildBound (Some (NewGranter p G ch)) reqCaps req childHex = (caps, Ok out) →
  Overrides (g_DelegateScope G) = [] →
  index_le ch ch' → below ch' p c → (childHex = "" ∨ childHex = c) →
  caps = reqCaps .&. g_DelegateCaps G ∧
  Overrides out = [] ∧
  (reaches (NewReach c out ch') x ceilingBit = true →
     reaches (NewReach p (g_DelegateScope G) ch') x ceilingBit = true ∨
     (x = c ∧ Base out = ScopeBase_Global)) ∧
  (reaches (NewReach c out ch') x 0 = true →
     x = c ∨ reaches (NewReach p (g_DelegateScope G) ch') x 0 = true).
Proof.
  unfold ChildBound. destruct (Overrides req) as [|? ?] eqn:Eo; [|done].
  destruct (Validate req); [done|].
  set (req' := set_ids _ _ _).
  destruct (ceiling _ req' _ _) as [out0|] eqn:Hc; [|done].
  intros [= <- <-] Hno Hle Hb Hhex. split; [done|]. split.
  - destruct (ceiling_Ok _ _ _ _ _ Hc) as (_ & _ & _ & _ & _ & _ & ref & E).
    cbn. rewrite E. unfold req'. cbn. by rewrite Eo.
  - apply (bound_carries p G ch ch' req' "delegate-scope" false out0 c childHex x); [done|exact Eo|done..].
Qed.

(** A cascade with a bound half re-imposes the whole grant: the descendant's
    capabilities and delegable capabilities come down inside the ancestor's, its
    scope is confined by the ancestor's scope and by its bound, and its own bound
    lets it hand on only what the ancestor could. *)
Theorem ClampDescendant_confines (p : string) (G d : Grant) (ch ch' : gmap string (list string))
    (c x : string) :
  Validate (g_Scope G) = None → scope_known (g_Scope G) →
  Overrides (g_DelegateScope G) = [] → Overrides (g_DelegateScope d) = [] →
  index_le ch ch' → below ch' p c →
  let d' := ClampDescendant (NewGranter p G ch) d c in
  g_Caps d' = g_Caps d .&. g_Caps G .&. g_DelegateCaps G ∧
  g_DelegateCaps d' = g_DelegateCaps d .&. g_DelegateCaps G ∧
  Confined ch' c (g_Scope d') (g_Caps d') p (g_Scope G) ∧
  Confined ch' c (g_Scope d') (g_Caps d') p (g_DelegateScope G) ∧
  (reaches (NewReach c (g_DelegateScope d') ch') x ceilingBit = true →
     reaches (NewReach p (g_DelegateScope G) ch') x ceilingBit = true ∨
     (x = c ∧ Base (g_DelegateScope d') = ScopeBase_Global)).
Proof.
  intros Hval Hkn Hno Hnod Hle Hb d'.
  pose proof (ClampDescendant_own p G d ch ch' c Hval Hkn Hle Hb) as Hown.
  split; [done|]. split; [done|]. split; [exact Hown|]. clear Hown.
  unfold d', ClampDescendant.
  cbn [g_Caps g_Scope g_DelegateCaps g_DelegateScope gr_held gr_own NewGranter].
  set (caps := _ .&. _ .&. _). set (sc := ClampUnder _ _ _).
  destruct (ceiling (NewGranter p G ch) sc "scope" true) as [out|e] eqn:E1; cycle 1.
  { by apply ceiling_Err in E1 as (? & _ & _ & ? & _). }
  destruct (ceiling (NewGranter p G ch) (g_DelegateScope d) "delegate-scope" true) as [bd|e] eqn:E2; cycle 1.
  { by apply ceiling_Err in E2 as (? & _ & _ & ? & _). }
  cbn [value_of]. split; [by eapply ceiling_confined|].
  apply (bound_carries p G ch ch' (g_DelegateScope d) "delegate-scope" true bd c c x);
    [done..|by right|done].
Qed.

(** Every refusal is typed after its cause: an [InvalidScopeError] carries the
    consistency failure of the request, an [OutOfReachError] a requested id the
    granter itself does not reach, an [OutOfDelegationError] a requested id its
    bound does not let it hand down; an operator is only ever refused for
    consistency. *)
Theorem ChildScope_errors (g : option Granter) (req : Scope) (held : N) (e : grant_error) :
  ChildScope g req held = Err e →
  match e with
  | InvalidScopeError err => Validate (normalize_scope req) = Some err
  | OutOfReachError id =>
      Validate (normalize_scope req) = None ∧ discloses (normalize_scope req) id ∧
      ∃ g' bits, g = Some g' ∧ reaches (gr_own g') id bits = false
  | OutOfDelegationError id field =>
      Validate (normalize_scope req) = None ∧ discloses (normalize_scope req) id ∧
      field = "scope" ∧
      ∃ g' bits, g = Some g' ∧ reaches (gr_ceil g') id bits = false
  end.
Proof.
  unfold ChildScope. destruct g as [g|].
  - destruct (Attenuate req held (Some (gr_own g))) as [out|off] eqn:Hatt.
    + intros (id & -> & _ & _ & Hd & Hr)%ceiling_Err.
      apply Attenuate_inv in Hatt as (Hval & _ & Ei & _ & Ev & Eo & _).
      split_and!; [done| |done|destruct Hr; eauto].
      apply (BoundRanks_discloses (gr_own g) _ (ExercisedBits held)).
      unfold discloses in *. by rewrite Ei, Ev, Eo in Hd.
    + intros [= <-]. apply Attenuate_Err in Hatt as [(err & Hv & ->)|(Hv & Hd & r & bits & [= <-] & Hr)].
      * by rewrite attenuateError_invalid.
      * rewrite attenuateError_id by (by eapply normalize_scope_discloses_valid). eauto 6.
  - destruct (Attenuate req held None) as [out|off] eqn:Hatt; [done|].
    intros [= <-]. apply Attenuate_Err in Hatt as [(err & Hv & ->)|(_ & _ & r & bits & [=] & _)].
    by rewrite attenuateError_invalid.
Qed.

(** ** Concrete instances *)

Module SampleGrant.
(** Every capability, the narrowed scope of [Sample], and a subtree bound. *)
Definition G : Grant := mkGrant Capability_All Sample.narrowed Capability_All DefaultScope.

(** A bound that reaches every task and enumerates none. *)
Definition global_none : Scope := mkScope ScopeBase_Global [] ScopeBase_None true false [] [].
Definition G_global : Grant := mkGrant Capability_All DefaultScope Capability_All global_none.
End SampleGrant.

Lemma ChildScope_confined_witness :
  ChildScope (Some (NewGranter Sample.p SampleGrant.G Sample.tree)) Sample.wide Capability_Cancel
    = Ok Sample.granted ∧
  Confined Sample.tree Sample.c Sample.granted Capability_Cancel Sample.p DefaultScope.
Proof.
  split; [by vm_compute|].
  apply (ChildScope_confined Sample.p SampleGrant.G Sample.tree Sample.tree Sample.wide).
  - by vm_compute.
  - by vm_compute.
  - apply (bool_decide_unpack _). by vm_compute.
  - done.
  - reflexivity.
  - apply (bool_decide_unpack _). by vm_compute.
Defined.

Lemma ChildBound_carries_witness :
  reaches (NewReach Sample.c DefaultScope Sample.tree) Sample.g ceilingBit = true ∧
  (reaches (NewReach Sample.p DefaultScope Sample.tree) Sample.g ceilingBit = true ∨
   (Sample.g = Sample.c ∧ Base DefaultScope = ScopeBase_Global)).
Proof.
  split; [by vm_compute|].
  eapply (ChildBound_carries Sample.p SampleGrant.G ∅ Sample.tree Capability_All Capability_All
            DefaultScope DefaultScope "" Sample.c Sample.g).
  - by vm_compute.
  - done.
  - apply index_le_empty.
  - apply (bool_decide_unpack _). by vm_compute.
  - by left.
  - by vm_compute.
Defined.

Lemma ClampDescendant_confines_witness :
  let d' := ClampDescendant (NewGranter Sample.p SampleGrant.G Sample.tree)
              (mkGrant Capability_All Sample.wide Capability_All DefaultScope) Sample.c in
  Confined Sample.tree Sample.c (g_Scope d') (g_Caps d') Sample.p Sample.narrowed.
Proof.
  apply (ClampDescendant_confines Sample.p SampleGrant.G
           (mkGrant Capability_All Sample.wide Capability_All DefaultScope)
           Sample.tree Sample.tree Sample.c Sample.g).
  - by vm_compute.
  - apply (bool_decide_unpack _). by vm_compute.
  - done.
  - done.
  - reflexivity.
  - apply (bool_decide_unpack _). by vm_compute.
Defined.

Lemma ChildScope_errors_witness :
  ChildScope (Some (NewGranter Sample.p SampleGrant.G ∅)) Sample.wide Capability_Cancel
    = Err (OutOfDelegationError Sample.g "scope") ∧
  discloses (normalize_scope Sample.wide) Sample.g.
Proof.
  split; [by vm_compute|].
  apply (ChildScope_errors (Some (NewGranter Sample.p SampleGrant.G ∅)) Sample.wide
           Capability_Cancel (OutOfDelegationError Sample.g "scope")).
  by vm_compute.
Defined.

(** Under a bound of base global that enumerates nothing, a granter cannot hand
    down the id of its new child, yet the bound it writes lets the child hand on
    that id: [ChildBound] forces [exclude_self] on, which a global base does not
    read. *)
Theorem ChildBound_global_hands_on_self :
  let g := NewGranter Sample.p SampleGrant.G_global ∅ in
  let bound := set_excl SampleGrant.global_none true in
  ChildBound (Some g) Capability_All SampleGrant.global_none "" = (Capability_All, Ok bound) ∧
  reaches (NewReach Sample.c bound Sample.tree) Sample.c ceilingBit = true ∧
  reaches (NewReach Sample.p SampleGrant.global_none Sample.tree) Sample.c ceilingBit = false.
Proof. by vm_compute. Qed.
