(* ===== verification/View.v ===== *)
(** * Reach over a listing: [authority/view.go]

    What a client computes from a task listing with the server's own rules:
    what a task reaches, what it may hand down, and where it reaches further
    than its creator. *)

From stdpp Require Import prelude gmap strings list sorting pretty.
From Stdlib Require Import NArith.
From S2P Require Import Prelude GoStrings Caps Scope Sets Reach Attenuate Delegate.

Open Scope N_scope.
Open Scope stdpp_scope.
Set Default Goal Selector "!".

Record Task := mkTask {
  t_ID : string;
  t_Creator : string;
  t_Caps : N;
  t_DelegateCaps : N;
  t_Scope : Scope;
  t_DelegateScope : Scope;
}.

Record ReachResult := mkReachResult {
  ActAll : bool;
  SeeAll : bool;
  Act : list string;
  See : list string;
}.

Definition emptyReach : ReachResult := mkReachResult false false [] [].

Record view := mkView {
  v_byID : gmap string Task;
  v_ids : list string;
  v_children : gmap string (list string);
}.

(** One round of the loop of [newView]. *)
Definition view_add (v : view) (t : Task) : view :=
  {| v_byID := <[t_ID t := t]> (v_byID v);
     v_ids := v_ids v ++ [t_ID t];
     v_children :=
       if negb (bool_decide (t_Creator t = ""))
       then <[t_Creator t := kids (v_children v) (t_Creator t) ++ [t_ID t]]> (v_children v)
       else v_children v |}.

Definition newView (tasks : list Task) : view :=
  let v := foldl view_add (mkView ∅ [] ∅) tasks in
  {| v_byID := v_byID v; v_ids := sort_strings (v_ids v); v_children := v_children v |}.

(** The loop of [view.result]. *)
Fixpoint result_loop (actAll : bool) (act : string → bool) (seeAll : bool) (see : string → bool)
    (ids : list string) : list string * list string :=
  match ids with
  | [] => ([], [])
  | id :: ids' =>
      let '(a, s) := result_loop actAll act seeAll see ids' in
      if actAll then (a, s)
      else if act id then (id :: a, s)
      else if negb seeAll && see id then (a, id :: s)
      else (a, s)
  end.

Definition view_result (v : view) (actAll : bool) (act : string → bool) (seeAll : bool)
    (see : string → bool) : ReachResult :=
  let '(a, s) := result_loop actAll act seeAll see (v_ids v) in
  {| ActAll := actAll; SeeAll := seeAll; Act := a; See := s |}.

(** [actionReach]; [None] is [ok = false]. *)
Definition actionReach (t : Task) (bit : N) (children : gmap string (list string))
    : option (bool * gset string) :=
  let exercised := ExercisedBits (t_Caps t) in
  if exercised .&. bit =? 0 then None
  else
    let '(all, set) := ActionSet (t_ID t) (t_Scope t) bit children in
    if negb (bit =? Capability_ExecResize) then Some (all, set)
    else if exercised .&. Capability_ExecView =? 0 then None
    else
      let '(vAll, vSet) := ActionSet (t_ID t) (t_Scope t) Capability_ExecView children in
      if all && vAll then Some (true, ∅)
      else if all then Some (false, vSet)
      else if vAll then Some (false, set)
      else Some (false, set ∩ vSet).

(** The first two results of [actionReach] where [ok] is ignored. *)
Definition actionReach_sets (t : Task) (bit : N) (children : gmap string (list string))
    : bool * gset string :=
  default (false, ∅) (actionReach t bit children).

Definition ReachOf (tasks : list Task) (id : string) (bit : N) : ReachResult :=
  let v := newView tasks in
  match v_byID v !! id with
  | None => emptyReach
  | Some t =>
      let '(visAll, vis) := VisibleSet id (t_Scope t) (v_children v) in
      let '(actAll, act) :=
        if negb (bit =? Capability_None) then actionReach_sets t bit (v_children v)
        else (false, ∅) in
      view_result v actAll (in_set (actAll, act)) visAll (in_set (visAll, vis))
  end.

Definition task_grant (t : Task) : Grant :=
  {| g_Caps := t_Caps t; g_Scope := t_Scope t;
     g_DelegateCaps := t_DelegateCaps t; g_DelegateScope := t_DelegateScope t |}.

Definition DelegableOf (tasks : list Task) (id : string) : ReachResult :=
  let v := newView tasks in
  match v_byID v !! id with
  | None => emptyReach
  | Some t =>
      let g := NewGranter id (task_grant t) (v_children v) in
      let held := ExercisedBits (ChildCaps (Some g) Capability_All) in
      let '(ceilAct, _) := ActionSet id (t_DelegateScope t) ceilingBit (v_children v) in
      let '(ceilVis, _) := VisibleSet id (t_DelegateScope t) (v_children v) in
      let '(ownVis, _) := VisibleSet id (t_Scope t) (v_children v) in
      let ownAct := foldl (λ acc bit,
        if negb (held .&. bit =? 0)
        then acc && (ActionSet id (t_Scope t) bit (v_children v)).1
        else acc) true each_cap in
      view_result v (ceilAct && ceilVis && ownVis && ownAct)
        (λ x, reaches (gr_ceil g) x ceilingBit && reaches (gr_own g) x held)
        (ceilVis && ownVis)
        (λ x, reaches (gr_ceil g) x Capability_None && reaches (gr_own g) x Capability_None)
  end.

Record Wider := mkWider { w_Bits : N; w_Sees : bool }.

Definition Wider_Empty (w : Wider) : bool := (w_Bits w =? 0) && negb (w_Sees w).

(** The closure [exceeds] of [WiderThanParent]. *)
Definition exceeds (id : string) (c p : bool * gset string) : bool :=
  let '(cAll, cSet) := c in
  let '(pAll, pSet) := p in
  if pAll then false
  else if cAll then true
  else existsb (λ x, negb (bool_decide (x = id)) && negb (bool_decide (x ∈ pSet))) (elements cSet).

Definition WiderThanParent (tasks : list Task) (id : string) : Wider :=
  let v := newView tasks in
  match v_byID v !! id with
  | None => mkWider 0 false
  | Some t =>
      if bool_decide (t_Creator t = "") then mkWider 0 false
      else match v_byID v !! t_Creator t with
      | None => mkWider 0 false
      | Some p =>
          let bits := foldl (λ acc bit,
            match actionReach t bit (v_children v) with
            | None => acc
            | Some c => if exceeds id c (actionReach_sets p bit (v_children v))
                        then acc .|. bit else acc
            end) 0 each_cap in
          mkWider bits
            (exceeds id (VisibleSet id (t_Scope t) (v_children v))
                        (VisibleSet (t_ID p) (t_Scope p) (v_children v)))
      end
  end.

(** ** The index of a listing *)

Lemma newView_snoc_children tasks t :
  v_children (newView (tasks ++ [t])) = v_children (view_add (newView tasks) t).
Proof. unfold newView. rewrite foldl_app. done. Qed.

Lemma newView_snoc_byID tasks t :
  v_byID (newView (tasks ++ [t])) = <[t_ID t := t]> (v_byID (newView tasks)).
Proof. unfold newView. rewrite foldl_app. done. Qed.

Lemma newView_ids tasks : v_ids (newView tasks) = sort_strings (t_ID <$> tasks).
Proof.
  unfold newView. cbn [v_ids]. f_equal.
  induction tasks as [|t tasks IH] using rev_ind; [done|].
  rewrite foldl_app, fmap_app. cbn. by rewrite IH.
Qed.

(** Children of a task are the listed tasks it created. *)
Lemma newView_kids tasks p x :
  x ∈ kids (v_children (newView tasks)) p ↔
    p ≠ "" ∧ ∃ t, t ∈ tasks ∧ t_Creator t = p ∧ t_ID t = x.
Proof.
  induction tasks as [|t tasks IH] using rev_ind.
  { unfold newView, kids. cbn. rewrite lookup_empty. cbn. set_solver. }
  rewrite newView_snoc_children. unfold view_add. cbn [v_children].
  assert ((∃ t0, t0 ∈ tasks ++ [t] ∧ t_Creator t0 = p ∧ t_ID t0 = x) ↔
    (∃ t0, t0 ∈ tasks ∧ t_Creator t0 = p ∧ t_ID t0 = x) ∨ (t_Creator t = p ∧ t_ID t = x)) as ->
    by set_solver.
  destruct (bool_decide_reflect (t_Creator t = "")) as [E|E]; cbn [negb].
  { rewrite IH. naive_solver. }
  unfold kids at 1. rewrite lookup_insert. case_decide as Hc.
  - subst p. cbn. rewrite elem_of_app, IH, list_elem_of_singleton. naive_solver.
  - fold (kids (v_children (newView tasks)) p). rewrite IH. naive_solver.
Qed.

Lemma newView_lookup tasks id t :
  NoDup (t_ID <$> tasks) →
  v_byID (newView tasks) !! id = Some t ↔ t ∈ tasks ∧ t_ID t = id.
Proof.
  induction tasks as [|u tasks IH] using rev_ind.
  { intros _. unfold newView. cbn. rewrite lookup_empty. set_solver. }
  rewrite fmap_app, NoDup_app. intros (Hn & Hd & _). rewrite newView_snoc_byID, lookup_insert.
  case_decide as Hu.
  - subst id. split; [intros [= ->]; set_solver|]. intros [[Ht| ->%list_elem_of_singleton]%elem_of_app Hid]; [|done].
    exfalso. apply (Hd (t_ID t)); [by apply list_elem_of_fmap_2|]. rewrite Hid. set_solver.
  - rewrite IH by done. set_solver.
Qed.

Lemma newView_lookup_None tasks id :
  v_byID (newView tasks) !! id = None ↔ id ∉ t_ID <$> tasks.
Proof.
  induction tasks as [|u tasks IH] using rev_ind.
  { unfold newView. cbn. rewrite lookup_empty. set_solver. }
  rewrite newView_snoc_byID, lookup_insert, fmap_app. case_decide as Hu; [set_solver|].
  rewrite IH. set_solver.
Qed.

(** ** [view.result] *)

Lemma result_loop_spec actAll act seeAll see ids :
  (result_loop actAll act seeAll see ids).1 =
    (if actAll then [] else filter (λ id, act id = true) ids) ∧
  (result_loop actAll act seeAll see ids).2 =
    (if actAll || seeAll then [] else filter (λ id, act id = false ∧ see id = true) ids).
Proof.
  induction ids as [|id ids IH]; [by destruct actAll, seeAll|].
  cbn [result_loop]. destruct (result_loop _ _ _ _ ids) as [a s]. simpl in IH.
  destruct IH as [-> ->]. destruct actAll; [done|]. rewrite !filter_cons.
  destruct (act id) eqn:Ea, seeAll, (see id) eqn:Es; simpl; repeat case_decide; naive_solver.
Qed.

Lemma result_Act v aa a sa s x :
  x ∈ Act (view_result v aa a sa s) ↔ aa = false ∧ x ∈ v_ids v ∧ a x = true.
Proof.
  unfold view_result. pose proof (result_loop_spec aa a sa s (v_ids v)) as [H _].
  destruct (result_loop _ _ _ _ _) as [l1 l2]. cbn in *. rewrite H. destruct aa; [set_solver|].
  rewrite list_elem_of_filter. naive_solver.
Qed.

Lemma result_See v aa a sa s x :
  x ∈ See (view_result v aa a sa s) ↔
    aa = false ∧ sa = false ∧ x ∈ v_ids v ∧ a x = false ∧ s x = true.
Proof.
  unfold view_result. pose proof (result_loop_spec aa a sa s (v_ids v)) as [_ H].
  destruct (result_loop _ _ _ _ _) as [l1 l2]. cbn in *. rewrite H.
  destruct aa, sa; simpl; [set_solver..|]. rewrite list_elem_of_filter. naive_solver.
Qed.

Lemma result_flags v aa a sa s :
  ActAll (view_result v aa a sa s) = aa ∧ SeeAll (view_result v aa a sa s) = sa.
Proof. unfold view_result. by destruct (result_loop _ _ _ _ _). Qed.

(** How a result answers for one listed id, when each "every task" flag is true
    only of everything. *)
Lemma view_result_answer v aa a sa s x :
  x ∈ v_ids v → (aa = true → a x = true) → (sa = true → s x = true) →
  let r := view_result v aa a sa s in
  (ActAll r = true ∨ x ∈ Act r ↔ a x = true) ∧
  (ActAll r = true ∨ SeeAll r = true ∨ x ∈ Act r ∨ x ∈ See r ↔ a x = true ∨ s x = true) ∧
  ¬ (x ∈ Act r ∧ x ∈ See r).
Proof.
  intros Hx Ha Hs. cbn zeta. destruct (result_flags v aa a sa s) as [-> ->].
  rewrite result_Act, result_See. destruct aa, sa, (a x), (s x); intuition congruence.
Qed.

(** ** [actionReach] *)

(** Through an exercised bit a task reaches its target set for the bit; through
    [exec_resize] also only what [exec_view]'s scope reaches. *)
Lemma in_actionReach_sets t bit ch x :
  bit ∈ each_cap →
  in_set (actionReach_sets t bit ch) x = true ↔
    has (ExercisedBits (t_Caps t)) bit = true ∧
    in_set (ActionSet (t_ID t) (t_Scope t) bit ch) x = true ∧
    (bit = Capability_ExecResize →
       has (ExercisedBits (t_Caps t)) Capability_ExecView = true ∧
       in_set (ActionSet (t_ID t) (t_Scope t) Capability_ExecView ch) x = true).
Proof.
  intros Hbit. unfold actionReach_sets, actionReach, has.
  destruct (ExercisedBits (t_Caps t) .&. bit =? 0); [cbn; unfold in_set; cbn; naive_solver|].
  destruct (ActionSet _ _ bit ch) as [all set].
  destruct (N.eqb_spec bit Capability_ExecResize) as [->|Hne]; cbn [negb default].
  2: { naive_solver. }
  destruct (_ .&. Capability_ExecView =? 0); [unfold in_set; cbn; naive_solver|].
  destruct (ActionSet _ _ Capability_ExecView ch) as [vAll vSet].
  unfold in_set. destruct all, vAll; cbn; rewrite ?bool_decide_eq_true; set_solver.
Qed.

(** ** A grant that names one task *)

(** [--scope ids:x] and its view-only counterpart. *)
Definition only_act (x : string) : Scope := mkScope ScopeBase_None [x] 0 false false [] [].
Definition only_see (x : string) : Scope := mkScope ScopeBase_None [] 0 false false [x] [].

Lemma MinBase_None b : MinBase ScopeBase_None b = ScopeBase_None.
Proof. unfold MinBase. change (BaseRank ScopeBase_None) with 0. by destruct (BaseRank b). Qed.

Lemma split_entry_const bound keep bits :
  (∀ c, bound c = keep) → (split_entry bound keep bits).2 = [].
Proof.
  intros H. pose proof (split_entry_moved bound keep bits) as Hm.
  destruct (split_entry bound keep bits).2 as [|p l]; [done|]. exfalso.
  destruct (Hm p ltac:(by left)) as (_ & Hz & Hc).
  destruct (nonzero_has _ Hz) as (c & Hs & Hh). rewrite Hc, H in Hh by done. breflect. congruence.
Qed.

Lemma BoundRanks_None r s held :
  Base s = ScopeBase_None → Overrides s = [] → BoundRanks r s held = s.
Proof.
  intros Hb Ho. unfold BoundRanks. rewrite Hb, Ho.
  pose proof (split_entry_const (bound_rank r ScopeBase_None) (MinBase ScopeBase_None (Base (r_scope r)))
    (held .&^. overridden_by [] .&^. Capability_Spawn)) as E.
  destruct (split_entry _ _ _) as [stay moved]. cbn in E. rewrite E.
  - rewrite MinBase_None. cbn. destruct s; cbn in *; by subst.
  - intros c. by rewrite bound_rank_eq, !MinBase_None.
Qed.

Lemma NormalizeIDs_single x : valid_id x → NormalizeIDs [x] = [x].
Proof.
  intros H. apply NormalizeIDs_fixed. split_and!; [by constructor| |repeat constructor].
  apply NoDup_singleton.
Qed.

Lemma normalize_only x :
  valid_id x → normalize_scope (only_act x) = only_act x ∧ normalize_scope (only_see x) = only_see x.
Proof.
  intros H. unfold normalize_scope. cbn [only_act only_see IDs VisIDs].
  by rewrite (NormalizeIDs_single x H).
Qed.

(** The request is granted as written or refused for its one id. *)
Lemma Attenuate_only s caps r :
  Base s = ScopeBase_None → Overrides s = [] → VisBasePresent s = false → VisBase s = 0 →
  normalize_scope s = s →
  Attenuate s caps (Some r) =
    match first_unreached r (ExercisedBits caps) (IDs s) with
    | Some id => Err id
    | None => match first_unreached r 0 (VisIDs s) with Some id => Err id | None => Ok s end
    end.
Proof.
  intros Hb Ho Hp Hvb Hn. unfold Attenuate. rewrite Hn.
  assert (Validate s = None) as -> by (unfold Validate; by rewrite Hp, Hvb, Ho).
  assert (VisRank s = ScopeBase_None) as -> by (unfold VisRank; by rewrite Hp).
  rewrite BoundRanks_None, Hp, Hb, MinBase_None by done.
  change (ScopeBase_None =? ScopeBase_None) with true. cbn [orb negb].
  rewrite Ho. cbn [first_unreached_override]. unfold overridden_by. cbn [foldl].
  by rewrite N.ldiff_0_r.
Qed.

Lemma ceiling_only g s field :
  Base s = ScopeBase_None → Overrides s = [] → VisBasePresent s = false → VisBase s = 0 →
  Forall valid_id (IDs s) → Forall valid_id (VisIDs s) →
  (∃ out, ceiling g s field false = Ok out) ↔
    (∀ id, id ∈ IDs s → reaches (gr_ceil g) id ceilingBit = true) ∧
    (∀ id, id ∈ VisIDs s → reaches (gr_ceil g) id 0 = true).
Proof.
  intros Hb Ho Hp Hvb Hi Hv.
  assert (∀ bits ids, Forall valid_id ids →
    (ceiling_keep (gr_ceil g) false "" ids bits).2 = "" ↔
    ∀ id, id ∈ ids → reaches (gr_ceil g) id bits = true) as Hk.
  { intros bits ids Hids. unfold ceiling_keep. rewrite bool_decide_eq_true_2 by done. cbn [negb].
    generalize (@nil string). clear -Hids.
    induction Hids as [|x ids Hx _ IH]; intros out; cbn [ceiling_keep_loop].
    { split; [|done]. intros _ id Hid. by apply not_elem_of_nil in Hid. }
    destruct (reaches (gr_ceil g) x bits) eqn:E; cbn [negb snd].
    - rewrite IH. split; intros H id Hid; [|apply H; by right].
      apply elem_of_cons in Hid as [Hid|Hid]; [by rewrite Hid|by apply H].
    - split; [|intros H; rewrite H in E; [done|by left]].
      intros ->. by destruct Hx as [? _]. }
  specialize (Hk ceilingBit (IDs s) Hi) as Hk1. specialize (Hk 0 (VisIDs s) Hv) as Hk2.
  unfold ceiling. rewrite Ho. cbn [ceiling_overrides].
  destruct (ceiling_keep _ _ "" (IDs s) _) as [ids ref1]. cbn in Hk1.
  destruct (decide (ref1 = "")) as [->|Hr].
  - destruct (ceiling_keep _ _ "" (VisIDs s) _) as [vids ref2]. cbn in Hk2.
    destruct (bool_decide_reflect (ref2 = "")) as [->|Hr2]; cbn [negb].
    + split; [|by eauto]. intros _. split; [by apply Hk1|by apply Hk2].
    + split; [by intros [? ?]|]. intros [_ H]. by apply Hk2 in H.
  - unfold ceiling_keep. rewrite bool_decide_eq_false_2 by done. cbn [negb].
    rewrite bool_decide_eq_false_2 by done. cbn [negb].
    split; [by intros [? ?]|]. intros [H _]. by apply Hk1 in H.
Qed.

Lemma ChildScope_only_act g x caps :
  valid_id x →
  (∃ out, ChildScope (Some g) (only_act x) caps = Ok out) ↔
    reaches (gr_own g) x (ExercisedBits caps) = true ∧ reaches (gr_ceil g) x ceilingBit = true.
Proof.
  intros Hx. unfold ChildScope.
  rewrite Attenuate_only; [|done..|by apply normalize_only].
  cbn [IDs VisIDs only_act first_unreached find_first]. unfold first_unreached. cbn [find_first].
  destruct (reaches (gr_own g) x (ExercisedBits caps)); cbn [negb]; [|naive_solver].
  rewrite ceiling_only; [|first [done|by apply Forall_nil|by apply Forall_singleton]..].
  cbn [IDs VisIDs only_act only_see]. rewrite forall_elem_singleton, forall_elem_nil. tauto.
Qed.

Lemma ChildScope_only_see g x caps :
  valid_id x →
  (∃ out, ChildScope (Some g) (only_see x) caps = Ok out) ↔
    reaches (gr_own g) x 0 = true ∧ reaches (gr_ceil g) x 0 = true.
Proof.
  intros Hx. unfold ChildScope.
  rewrite Attenuate_only; [|done..|by apply normalize_only].
  cbn [IDs VisIDs only_see first_unreached find_first]. unfold first_unreached. cbn [find_first].
  destruct (reaches (gr_own g) x 0); cbn [negb]; [|naive_solver].
  rewrite ceiling_only; [|first [done|by apply Forall_nil|by apply Forall_singleton]..].
  cbn [IDs VisIDs only_act only_see]. rewrite forall_elem_singleton, forall_elem_nil. tauto.
Qed.

Lemma foldl_andb {A} (f : A → bool) (g : A → bool) l acc :
  foldl (λ acc x, if f x then acc && g x else acc) acc l
    = acc && forallb (λ x, negb (f x) || g x) l.
Proof.
  revert acc. induction l as [|x l IH]; intros acc; cbn; [by rewrite andb_true_r|].
  rewrite IH. destruct (f x); cbn; [by rewrite andb_assoc|done].
Qed.

(** ** Theorems *)

(** [ReachOf] reports the server's gates over a listing: for every listed id the
    answer "acts on" is membership in the task's target set for the bit, under
    the bit's own scope and for [exec_resize] inside [exec_view]'s, and the
    answer "acts on or sees" adds the visible set; no id is reported twice. *)
Theorem ReachOf_spec (tasks : list Task) (t : Task) (bit : N) (x : string) :
  NoDup (t_ID <$> tasks) → t ∈ tasks → bit ∈ each_cap → x ∈ t_ID <$> tasks →
  let r := ReachOf tasks (t_ID t) bit in
  let ch := v_children (newView tasks) in
  let acts := has (ExercisedBits (t_Caps t)) bit = true ∧
    in_set (ActionSet (t_ID t) (t_Scope t) bit ch) x = true ∧
    (bit = Capability_ExecResize →
       has (ExercisedBits (t_Caps t)) Capability_ExecView = true ∧
       in_set (ActionSet (t_ID t) (t_Scope t) Capability_ExecView ch) x = true) in
  (ActAll r = true ∨ x ∈ Act r ↔ acts) ∧
  (ActAll r = true ∨ SeeAll r = true ∨ x ∈ Act r ∨ x ∈ See r ↔
     acts ∨ in_set (VisibleSet (t_ID t) (t_Scope t) ch) x = true) ∧
  ¬ (x ∈ Act r ∧ x ∈ See r).
Proof.
  intros Hnd Ht Hbit Hx. cbn zeta. unfold ReachOf.
  rewrite (proj2 (newView_lookup tasks (t_ID t) t Hnd)) by done.
  set (ch := v_children (newView tasks)).
  rewrite <-(in_actionReach_sets t bit ch x Hbit).
  destruct (VisibleSet (t_ID t) (t_Scope t) ch) as [va vs].
  assert (bit ≠ 0) as Hb0 by (destruct (each_cap_single bit Hbit) as [i ->]; apply N.pow_nonzero; lia).
  change Capability_None with 0. rewrite (proj2 (N.eqb_neq _ _) Hb0). cbn [negb].
  destruct (actionReach_sets t bit ch) as [aa as_].
  set (v := newView tasks). assert (x ∈ v_ids v) as Hxv.
  { unfold v. rewrite newView_ids. by apply elem_of_sort_strings. }
  by apply view_result_answer; [|intros ->..].
Qed.

(** [DelegableOf] and [ChildScope] agree: a listed id is reported as one the task
    may hand down to act on exactly when a child holding everything the task may
    delegate would be granted that id, and as one it may hand down at all exactly
    when the child would be granted it for viewing. *)
Theorem DelegableOf_agrees (tasks : list Task) (t : Task) (x : string) :
  NoDup (t_ID <$> tasks) → t ∈ tasks → x ∈ t_ID <$> tasks → valid_id x →
  let r := DelegableOf tasks (t_ID t) in
  let g := Some (NewGranter (t_ID t) (task_grant t) (v_children (newView tasks))) in
  let caps := ChildCaps g Capability_All in
  (ActAll r = true ∨ x ∈ Act r ↔ ∃ out, ChildScope g (only_act x) caps = Ok out) ∧
  (ActAll r = true ∨ SeeAll r = true ∨ x ∈ Act r ∨ x ∈ See r ↔
     ∃ out, ChildScope g (only_see x) caps = Ok out).
Proof.
  intros Hnd Ht Hx Hval. cbn zeta. unfold DelegableOf.
  rewrite (proj2 (newView_lookup tasks (t_ID t) t Hnd)) by done.
  set (ch := v_children (newView tasks)).
  set (g := NewGranter (t_ID t) (task_grant t) ch). set (caps := ChildCaps (Some g) Capability_All).
  rewrite ChildScope_only_act, ChildScope_only_see by done.
  pose proof (reaches_NewReach (t_ID t) (t_Scope t) ch x) as Hown.
  pose proof (reaches_NewReach (t_ID t) (t_DelegateScope t) ch x) as Hceil.
  pose proof (reaches_ceilingBit (t_ID t) (t_DelegateScope t) ch x) as HcB.
  change (gr_own g) with (NewReach (t_ID t) (t_Scope t) ch).
  change (gr_ceil g) with (NewReach (t_ID t) (t_DelegateScope t) ch).
  set (held := ExercisedBits caps).
  rewrite (foldl_andb (λ bit, negb (held .&. bit =? 0))
    (λ bit, (ActionSet (t_ID t) (t_Scope t) bit ch).1)).
  set (ownAct := forallb _ each_cap). cbn [andb].
  assert (ownAct = true → ∀ c, c ∈ each_cap → has held c = true →
    in_set (ActionSet (t_ID t) (t_Scope t) c ch) x = true) as HoA.
  { unfold ownAct. rewrite forallb_elem_of. intros H c Hc Hh. specialize (H c Hc).
    unfold has in Hh. rewrite Hh in H. cbn [negb orb] in H. unfold in_set. by rewrite H. }
  set (own := NewReach (t_ID t) (t_Scope t) ch) in *.
  set (ceil := NewReach (t_ID t) (t_DelegateScope t) ch) in *.
  assert (reaches own x held = true → reaches own x 0 = true) as Hw1
    by (unfold own; rewrite reaches_0, reaches_NewReach; tauto).
  assert (reaches ceil x ceilingBit = true → reaches ceil x 0 = true) as Hw2
    by (unfold ceil; rewrite reaches_0, reaches_ceilingBit; tauto).
  specialize (Hown held) as Hown1.
  pose proof (reaches_0 (t_ID t) (t_Scope t) ch x) as Hown0. fold own in Hown0.
  pose proof (reaches_0 (t_ID t) (t_DelegateScope t) ch x) as Hceil0. fold ceil in Hceil0.
  clear Hown Hceil.
  destruct (ActionSet (t_ID t) (t_DelegateScope t) ceilingBit ch) as [cA cAs].
  destruct (VisibleSet (t_ID t) (t_DelegateScope t) ch) as [cV cVs].
  destruct (VisibleSet (t_ID t) (t_Scope t) ch) as [oV oVs].
  unfold in_set in Hown1, Hown0, Hceil0, HcB. cbn [fst snd] in *.
  assert (x ∈ v_ids (newView tasks)) as Hxv by (rewrite newView_ids; by apply elem_of_sort_strings).
  match goal with |- context [view_result _ ?aa ?a ?sa ?s] =>
    destruct (view_result_answer (newView tasks) aa a sa s x Hxv) as (Hact & Hsee & _) end.
  - rewrite !andb_true_iff. intros [[[-> ->] ->] Ho]. split; [by apply HcB|].
    apply Hown1. split; [done|by apply HoA].
  - rewrite !andb_true_iff. intros [-> ->]. split; [by apply Hceil0|by apply Hown0].
  - rewrite Hact, Hsee, !andb_true_iff. change Capability_None with 0. tauto.
Qed.

(** ** Concrete instances *)

Module SampleView.
(** An operator's task [p], its child [c], its grandchild [g]. *)
Definition tp : Task := mkTask Sample.p "" Capability_All Capability_All DefaultScope DefaultScope.
Definition tc : Task := mkTask Sample.c Sample.p Capability_Cancel Capability_None DefaultScope DefaultScope.
Definition tg : Task := mkTask Sample.g Sample.c Capability_None Capability_None DefaultScope DefaultScope.
Definition listing : list Task := [tp; tc; tg].
End SampleView.

Lemma ReachOf_spec_witness :
  Act (ReachOf SampleView.listing Sample.c Capability_Cancel) = [Sample.c; Sample.g] ∧
  ¬ (Sample.g ∈ Act (ReachOf SampleView.listing Sample.c Capability_Cancel) ∧
     Sample.g ∈ See (ReachOf SampleView.listing Sample.c Capability_Cancel)).
Proof.
  split; [by vm_compute|].
  apply (ReachOf_spec SampleView.listing SampleView.tc Capability_Cancel Sample.g).
  - apply (bool_decide_unpack _). by vm_compute.
  - apply list_elem_of_In. right. by left.
  - apply elem_of_each_cap; [by exists 1|by vm_compute].
  - apply (bool_decide_unpack _). by vm_compute.
Defined.

Lemma DelegableOf_agrees_witness :
  (ActAll (DelegableOf SampleView.listing Sample.p) = true ∨
   Sample.g ∈ Act (DelegableOf SampleView.listing Sample.p)) ∧
  ∃ out, ChildScope
    (Some (NewGranter Sample.p (task_grant SampleView.tp) (v_children (newView SampleView.listing))))
    (only_act Sample.g) Capability_All = Ok out.
Proof.
  assert (ActAll (DelegableOf SampleView.listing Sample.p) = true ∨
    Sample.g ∈ Act (DelegableOf SampleView.listing Sample.p)) as H.
  { right. apply (bool_decide_unpack _). by vm_compute. }
  split; [exact H|].
  apply (DelegableOf_agrees SampleView.listing SampleView.tp Sample.g).
  - apply (bool_decide_unpack _). by vm_compute.
  - apply list_elem_of_In. by left.
  - apply (bool_decide_unpack _). by vm_compute.
  - split; [by vm_compute|]. split; [by eexists; vm_compute|by vm_compute].
  - exact H.
Defined.
