(* ===== verification/WhatIf.v ===== *)
(** * Changes over a listing: [authority/whatif.go]

    [apply] performs a re-grant, a spawn or a re-parent on a listing and [diff]
    reports what it changed.  The server's [caps set --cascade] calls the same
    [CascadeClamp].  Theorems: a cascade leaves every descendant confined by the
    re-granted task, a spawned task is never reported wider than its creator, a
    re-parent keeps the tree acyclic, and a task left out of the report kept its
    grant and its reach. *)

From stdpp Require Import prelude gmap strings list sorting pretty.
From Stdlib Require Import NArith.
From S2P Require Import Prelude GoStrings Caps Scope Sets Reach Attenuate Delegate View.

Open Scope N_scope.
Open Scope stdpp_scope.
Set Default Goal Selector "!".

Definition setGrant (t : Task) (g : Grant) : Task :=
  {| t_ID := t_ID t; t_Creator := t_Creator t; t_Caps := g_Caps g; t_Scope := g_Scope g;
     t_DelegateCaps := g_DelegateCaps g; t_DelegateScope := g_DelegateScope g |}.

Definition CascadeClamp (target : Task) (d : Grant) (dHex : string) (boundWritten : bool)
    (children : gmap string (list string)) : Grant :=
  if boundWritten then
    ClampDescendant (NewGranter (t_ID target) (task_grant target) children) d dHex
  else
    let caps := g_Caps d .&. t_Caps target in
    {| g_Caps := caps;
       g_Scope := ClampUnder (g_Scope d) caps (NewReach (t_ID target) (t_Scope target) children);
       g_DelegateCaps := g_DelegateCaps d; g_DelegateScope := g_DelegateScope d |}.

Record Regrant := mkRegrant {
  rg_Target : string;
  rg_Caps : option N;
  rg_Scope : option Scope;
  rg_DelegateCaps : option N;
  rg_DelegateScope : option Scope;
  rg_Cascade : bool;
}.

Record Spawn := mkSpawn {
  sp_Creator : string;
  sp_Caps : N;
  sp_Scope : Scope;
  sp_DelegateCaps : N;
  sp_DelegateScope : Scope;
}.

Record Reparent := mkReparent { rp_Target : string; rp_NewParent : string }.

Inductive Change :=
  | ChRegrant (c : Regrant)
  | ChSpawn (c : Spawn)
  | ChReparent (c : Reparent).

Definition PhantomID : string := "new".

(** The errors of [apply]: a message, or a typed refusal of a grant. *)
Inductive apply_error :=
  | MsgError (msg : string)
  | GrantError (e : grant_error).

Definition short (id : string) : string := unchars (take 8 (chars id)).

(** [index]: the last position of each id. *)
Definition index_of (tasks : list Task) : gmap string nat :=
  (foldl (λ '(m, i) t, (<[t_ID t := i]> m, S i)) (∅, O) tasks).1.

Definition set_half {A} (new : option A) (old : A) : A := match new with Some x => x | None => old end.

(** The re-granted task, half by half, in the order the halves are checked. *)
Definition regrant_task (c : Regrant) (t : Task) : result apply_error Task :=
  let caps := set_half (rg_Caps c) (t_Caps t) in
  try scope :=
    match rg_Scope c with
    | Some s => match Validate s with
                | Some err => Err (GrantError (InvalidScopeError err))
                | None => Ok s
                end
    | None => Ok (t_Scope t)
    end in
  let dcaps := set_half (rg_DelegateCaps c) (t_DelegateCaps t) in
  try dscope :=
    match rg_DelegateScope c with
    | Some s =>
        match Overrides s with
        | _ :: _ => Err (GrantError (InvalidScopeError "a delegation bound carries no per-capability overrides"))
        | [] => match Validate s with
                | Some err => Err (GrantError (InvalidScopeError err))
                | None => Ok s
                end
        end
    | None => Ok (t_DelegateScope t)
    end in
  Ok {| t_ID := t_ID t; t_Creator := t_Creator t; t_Caps := caps; t_DelegateCaps := dcaps;
        t_Scope := scope; t_DelegateScope := dscope |}.

(** One descendant of the cascade loop. *)
Definition cascade_step (t : Task) (target : string) (bound : bool)
    (children : gmap string (list string)) (index : gmap string nat)
    (after : list Task) (id : string) : list Task :=
  if bool_decide (id = target) then after
  else
    let j := default O (index !! id) in
    alter (λ u, setGrant u (CascadeClamp t (task_grant u) id bound children)) j after.

Definition apply_regrant (before : list Task) (c : Regrant) : result apply_error (list Task) :=
  let v := newView before in
  let index := index_of before in
  match index !! rg_Target c with
  | None => Err (MsgError ("no such task " +:+ short (rg_Target c)))
  | Some i =>
      match before !! i with
      | None => Err (MsgError "index out of range")
      | Some t0 =>
          try t := regrant_task c t0 in
          let after := <[i := t]> before in
          if rg_Cascade c then
            let bound := bool_decide (is_Some (rg_DelegateCaps c))
                         || bool_decide (is_Some (rg_DelegateScope c)) in
            let desc := DescendantsOf (v_children v) (rg_Target c) ∅ in
            Ok (foldl (cascade_step t (rg_Target c) bound (v_children v) index) after (elements desc))
          else Ok after
      end
  end.

(** The granter of a spawn: nil for an operator, refused for a creator that is
    not listed or does not hold [spawn]. *)
Definition spawn_granter (v : view) (creator : string) : result apply_error (option Granter) :=
  if bool_decide (creator = "") then Ok None
  else match v_byID v !! creator with
  | None => Err (MsgError ("no such task " +:+ short creator))
  | Some t =>
      if t_Caps t .&. Capability_Spawn =? 0
      then Err (MsgError ("permission denied: submit requires capability " +:+ CapsLabel Capability_Spawn))
      else Ok (Some (NewGranter (t_ID t) (task_grant t) (v_children v)))
  end.

Definition lift_grant {A} (r : result grant_error A) : result apply_error A :=
  match r with Ok a => Ok a | Err e => Err (GrantError e) end.

Definition apply_spawn (before : list Task) (c : Spawn) : result apply_error (list Task) :=
  try g := spawn_granter (newView before) (sp_Creator c) in
  let caps := ChildCaps g (sp_Caps c) in
  try scope := lift_grant (ChildScope g (sp_Scope c) caps) in
  let '(dcaps, dres) := ChildBound g (sp_DelegateCaps c) (sp_DelegateScope c) "" in
  try dscope := lift_grant dres in
  Ok (before ++ [{| t_ID := PhantomID; t_Creator := sp_Creator c; t_Caps := caps; t_Scope := scope;
                    t_DelegateCaps := dcaps; t_DelegateScope := dscope |}]).

Definition set_creator (p : string) (t : Task) : Task :=
  {| t_ID := t_ID t; t_Creator := p; t_Caps := t_Caps t; t_DelegateCaps := t_DelegateCaps t;
     t_Scope := t_Scope t; t_DelegateScope := t_DelegateScope t |}.

Definition apply_reparent (before : list Task) (c : Reparent) : result apply_error (list Task) :=
  let v := newView before in
  let index := index_of before in
  match index !! rp_Target c with
  | None => Err (MsgError ("no such task " +:+ short (rp_Target c)))
  | Some i =>
      if negb (bool_decide (rp_NewParent c = "")) && bool_decide (index !! rp_NewParent c = None) then
        Err (MsgError ("no such task " +:+ short (rp_NewParent c)))
      else if negb (bool_decide (rp_NewParent c = ""))
              && bool_decide (rp_NewParent c ∈ DescendantsOf (v_children v) (rp_Target c) ∅) then
        Err (MsgError ("would make " +:+ short (rp_Target c) +:+ " its own ancestor"))
      else Ok (alter (set_creator (rp_NewParent c)) i before)
  end.

Definition apply (before : list Task) (c : Change) : result apply_error (list Task) :=
  match c with
  | ChRegrant c => apply_regrant before c
  | ChSpawn c => apply_spawn before c
  | ChReparent c => apply_reparent before c
  end.

(** ** The report of a change *)

Record TaskDiff := mkTaskDiff {
  td_ID : string;
  td_New : bool;
  td_Before : Grant;
  td_After : Grant;
  td_Added : gmap N (list string);
  td_Removed : gmap N (list string);
}.

(** The zero [Grant], [Before] of a task that did not exist. *)
Definition zeroGrant : Grant := mkGrant 0 zeroScope 0 zeroScope.

Definition setOf (v : view) (p : bool * gset string) : gset string :=
  list_to_set (filter (λ id, in_set p id = true) (v_ids v)).

Definition same_ids (x y : list string) : bool := bool_decide (x = y).

Fixpoint same_overrides (xs ys : list ScopeOverride) : bool :=
  match xs, ys with
  | [], [] => true
  | x :: xs', y :: ys' =>
      (ov_Caps x =? ov_Caps y) && (ov_Base x =? ov_Base y)
      && eqb (ov_ExcludeSelf x) (ov_ExcludeSelf y) && same_ids (ov_IDs x) (ov_IDs y)
      && same_overrides xs' ys'
  | _, _ => false
  end.

Definition sameScope (a b : Scope) : bool :=
  (Base a =? Base b) && (VisRank a =? VisRank b) && eqb (VisBasePresent a) (VisBasePresent b)
  && eqb (ExcludeSelf a) (ExcludeSelf b) && same_ids (IDs a) (IDs b)
  && same_ids (VisIDs a) (VisIDs b) && same_overrides (Overrides a) (Overrides b).

Definition sameGrant (a b : Grant) : bool :=
  (g_Caps a =? g_Caps b) && (g_DelegateCaps a =? g_DelegateCaps b)
  && sameScope (g_Scope a) (g_Scope b) && sameScope (g_DelegateScope a) (g_DelegateScope b).

(** What a task reaches through a bit, [Capability_None] standing for what it
    sees; the empty set for a task that did not exist. *)
Definition measured (v : view) (t : option Task) (bit : N) : bool * gset string :=
  match t with
  | None => (false, ∅)
  | Some t =>
      if bit =? Capability_None then VisibleSet (t_ID t) (t_Scope t) (v_children v)
      else actionReach_sets t bit (v_children v)
  end.

(** [d.Added[bit] = append(...)]: no key for an empty list. *)
Definition put_ids (bit : N) (ids : list string) (m : gmap N (list string)) : gmap N (list string) :=
  match ids with [] => m | _ => <[bit := ids]> m end.

(** The closure [measure]. *)
Definition measure (bv av : view) (b : option Task) (a : Task)
    (d : gmap N (list string) * gmap N (list string)) (bit : N)
    : gmap N (list string) * gmap N (list string) :=
  let bP := measured bv b bit in
  let aP := measured av (Some a) bit in
  if bP.1 && aP.1 then d
  else
    let was := setOf bv bP in
    let now := setOf av aP in
    (put_ids bit (sort_strings (elements (now ∖ was))) d.1,
     put_ids bit (sort_strings (elements (was ∖ now))) d.2).

Definition diff_bits (b : option Task) (a : Task) : list N :=
  let bits := match b with
              | Some b => ExercisedBits (t_Caps a) .|. ExercisedBits (t_Caps b)
              | None => ExercisedBits (t_Caps a)
              end in
  Capability_None :: filter (λ bit, has bits bit = true) each_cap.

(** One round of the loop of [diff]. *)
Definition diff_task (bv av : view) (id : string) : option TaskDiff :=
  match v_byID av !! id with
  | None => None
  | Some a =>
      let b := v_byID bv !! id in
      let isNew := bool_decide (b = None) in
      let before := match b with Some b => task_grant b | None => zeroGrant end in
      let '(added, removed) := foldl (measure bv av b a) (∅, ∅) (diff_bits b a) in
      let added := filter (λ kv, kv.2 ≠ []) added in
      let removed := filter (λ kv, kv.2 ≠ []) removed in
      if isNew || negb (sameGrant before (task_grant a))
         || negb (bool_decide (added = ∅)) || negb (bool_decide (removed = ∅))
      then Some {| td_ID := id; td_New := isNew; td_Before := before; td_After := task_grant a;
                   td_Added := added; td_Removed := removed |}
      else None
  end.

Definition diff_less (x y : TaskDiff) : bool :=
  if negb (eqb (td_New x) (td_New y)) then negb (td_New x)
  else bool_decide (strict String.le (td_ID x) (td_ID y)).

Definition diff (before after : list Task) : list TaskDiff :=
  let bv := newView before in
  let av := newView after in
  sort_stable diff_less (omap (diff_task bv av) (v_ids av)).

Definition WhatIf (tasks : list Task) (c : Change) : result apply_error (list TaskDiff) :=
  try after := apply tasks c in Ok (diff tasks after).

(** ** The index of a listing *)

Lemma index_of_spec tasks id i :
  NoDup (t_ID <$> tasks) →
  index_of tasks !! id = Some i ↔ ∃ t, tasks !! i = Some t ∧ t_ID t = id.
Proof.
  unfold index_of.
  assert ((foldl (λ '(m, i) t, (<[t_ID t:=i]> m, S i)) (∅ : gmap string nat, O) tasks).2
    = length tasks) as Hlen.
  { induction tasks as [|t l IH] using rev_ind; [done|]. rewrite foldl_app, length_app. cbn.
    destruct (foldl _ _ l) as [m n]. cbn in *. lia. }
  induction tasks as [|t l IH] using rev_ind.
  { intros _. cbn. rewrite lookup_empty. setoid_rewrite lookup_nil. naive_solver. }
  rewrite foldl_app, length_app in Hlen. rewrite fmap_app, NoDup_app, foldl_app.
  intros (Hnd & Hd & _). cbn in *. destruct (foldl _ _ l) as [m n] eqn:E. cbn in *.
  assert (n = length l) as -> by lia. specialize (IH eq_refl Hnd).
  rewrite lookup_insert. case_decide as Ht.
  - subst id. split.
    + intros [= <-]. exists t. by rewrite list_lookup_middle.
    + intros (u & Hu & Hid). f_equal. apply lookup_app_Some in Hu as [Hu|[Hle Hu]].
      * exfalso. apply (Hd (t_ID u)); [by eapply list_elem_of_fmap_2, list_elem_of_lookup_2|set_solver].
      * apply list_lookup_singleton_Some in Hu as [? _]. lia.
  - rewrite IH. split; intros (u & Hu & Hid); exists u; (split; [|done]).
    + by apply lookup_app_l_Some.
    + apply lookup_app_Some in Hu as [?|[_ Hu]]; [done|].
      apply list_lookup_singleton_Some in Hu as [_ ->]. congruence.
Qed.

(** A listing that keeps every id and creator has the same tree. *)
Lemma view_children_ext l1 l2 :
  (λ t, (t_ID t, t_Creator t)) <$> l1 = (λ t, (t_ID t, t_Creator t)) <$> l2 →
  v_children (newView l1) = v_children (newView l2).
Proof.
  revert l2. induction l1 as [|t l1 IH] using rev_ind; intros l2.
  - by destruct l2.
  - destruct l2 as [|u l2 _] using rev_ind; [rewrite fmap_app; by destruct l1|].
    rewrite !fmap_app. intros [Hl [= Hid Hcr]]%app_inj_tail.
    rewrite !newView_snoc_children. unfold view_add. cbn [v_children].
    by rewrite (IH _ Hl), Hid, Hcr.
Qed.

Lemma listed_unique tasks u v :
  NoDup (t_ID <$> tasks) → u ∈ tasks → v ∈ tasks → t_ID u = t_ID v → u = v.
Proof.
  intros Hnd Hu Hv Hid.
  pose proof (proj2 (newView_lookup tasks (t_ID u) u Hnd) (conj Hu eq_refl)).
  pose proof (proj2 (newView_lookup tasks (t_ID u) v Hnd) (conj Hv (eq_sym Hid))). congruence.
Qed.

(** ** The cascade *)

Section cascade.
Context (t : Task) (bound : bool) (ch : gmap string (list string)) (index : gmap string nat).

Definition clamped (u : Task) : Task :=
  setGrant u (CascadeClamp t (task_grant u) (t_ID u) bound ch).

Definition indexes (l : list Task) : Prop :=
  ∀ id i, index !! id = Some i ↔ ∃ u, l !! i = Some u ∧ t_ID u = id.

Lemma indexes_ext l l' :
  (∀ k, t_ID <$> l !! k = t_ID <$> l' !! k) → indexes l → indexes l'.
Proof.
  intros He Hl id i. rewrite (Hl id i). specialize (He i).
  destruct (l !! i), (l' !! i); naive_solver.
Qed.

Lemma cascade_step_lookup target l d k :
  indexes l → is_Some (index !! d) →
  cascade_step t target bound ch index l d !! k =
    (λ u, if bool_decide (t_ID u = d ∧ d ≠ target) then clamped u else u) <$> l !! k.
Proof.
  intros Hix [j Hj]. unfold cascade_step.
  destruct (bool_decide_reflect (d = target)) as [->|Hne].
  { destruct (l !! k); [|done]. cbn. rewrite bool_decide_eq_false_2; naive_solver. }
  rewrite Hj. cbn. destruct (proj1 (Hix d j) Hj) as (v & Hv & Hid).
  destruct (decide (j = k)) as [->|Hjk].
  - rewrite list_lookup_alter, Hv. cbn [fmap option_fmap option_map].
    rewrite decide_True by done. rewrite bool_decide_eq_true_2 by done. unfold clamped. by rewrite Hid.
  - rewrite list_lookup_alter_ne by done. destruct (l !! k) as [u|] eqn:Eu; [|done]. cbn.
    rewrite bool_decide_eq_false_2; [done|]. intros [<- _].
    assert (index !! t_ID u = Some k) by (apply Hix; eauto). congruence.
Qed.

(** The loop clamps each listed descendant once and touches nothing else. *)
Lemma cascade_foldl target ds l k :
  indexes l → (∀ id, id ∈ ds → is_Some (index !! id)) → NoDup ds →
  foldl (cascade_step t target bound ch index) l ds !! k =
    (λ u, if bool_decide (t_ID u ∈ ds ∧ t_ID u ≠ target) then clamped u else u) <$> l !! k.
Proof.
  revert l. induction ds as [|d ds IH]; intros l Hix Hin Hnd.
  { cbn. destruct (l !! k); [|done]. cbn. rewrite bool_decide_eq_false_2; [done|]. set_solver. }
  apply NoDup_cons in Hnd as [Hd Hnd]. cbn [foldl].
  assert (is_Some (index !! d)) as Hsd by (apply Hin; by left).
  rewrite IH; [| |set_solver|done].
  - rewrite cascade_step_lookup by done. destruct (l !! k) as [u|]; [|done]. cbn. f_equal.
    destruct (bool_decide_reflect (t_ID u = d ∧ d ≠ target)) as [[Hu Ht]|Hn].
    + change (t_ID (clamped u)) with (t_ID u).
      rewrite Hu, bool_decide_eq_false_2 by naive_solver.
      rewrite bool_decide_eq_true_2; [done|]. set_solver.
    + destruct (bool_decide_reflect (t_ID u ∈ ds ∧ t_ID u ≠ target)) as [H1|H1];
      destruct (bool_decide_reflect (t_ID u ∈ d :: ds ∧ t_ID u ≠ target)) as [H2|H2]; try done.
      * destruct H2. set_solver.
      * exfalso. destruct H2 as [[Hx|Hx]%elem_of_cons ?]; [apply Hn; split; congruence|by apply H1].
  - eapply indexes_ext; [|exact Hix]. intros i. rewrite cascade_step_lookup by done.
    destruct (l !! i); [|done]. cbn. by case_bool_decide.
Qed.
End cascade.

Lemma regrant_task_keeps c t0 t :
  regrant_task c t0 = Ok t → t_ID t = t_ID t0 ∧ t_Creator t = t_Creator t0.
Proof.
  unfold regrant_task. intros H. apply res_bind_Ok in H as (s & _ & H).
  apply res_bind_Ok in H as (ds & _ & H). by injection H as <-.
Qed.

(** Descendants of a listed task are listed. *)
Lemma descends_listed tasks a b :
  descends (v_children (newView tasks)) a b → a ∈ t_ID <$> tasks → b ∈ t_ID <$> tasks.
Proof.
  induction 1 as [|a b c Hab _ IH]; [done|]. intros _. apply IH.
  apply newView_kids in Hab as (_ & u & Hu & _ & <-). by apply list_elem_of_fmap_2.
Qed.

(** What a re-grant does to every entry of the listing. *)
Lemma apply_regrant_lookup before c after :
  NoDup (t_ID <$> before) → apply_regrant before c = Ok after →
  let ch := v_children (newView before) in
  let bound := bool_decide (is_Some (rg_DelegateCaps c))
               || bool_decide (is_Some (rg_DelegateScope c)) in
  ∃ t0 t, t0 ∈ before ∧ t_ID t0 = rg_Target c ∧ regrant_task c t0 = Ok t ∧
    ∀ k, after !! k =
      (λ u, if bool_decide (t_ID u = rg_Target c) then t
            else if rg_Cascade c && bool_decide (descends ch (rg_Target c) (t_ID u))
            then clamped t bound ch u else u) <$> before !! k.
Proof.
  intros Hnd. unfold apply_regrant. cbn zeta.
  set (ch := v_children (newView before)). set (bound := _ || _).
  destruct (index_of before !! rg_Target c) as [i|] eqn:Ei; [|done].
  pose proof (λ id i, index_of_spec before id i Hnd) as Hix.
  destruct (proj1 (Hix _ i) Ei) as (t0 & Ht0 & Hid). rewrite Ht0. intros H.
  apply res_bind_Ok in H as (t & Ht & H). exists t0, t.
  split; [by eapply list_elem_of_lookup_2|]. split; [done|]. split; [done|]. intros k.
  assert (∀ k, <[i:=t]> before !! k =
    (λ u, if bool_decide (t_ID u = rg_Target c) then t else u) <$> before !! k) as Hins.
  { intros j. rewrite list_lookup_insert. destruct (decide (i = j ∧ _)) as [[-> Hl]|Hn].
    - rewrite Ht0. cbn. by rewrite bool_decide_eq_true_2.
    - destruct (before !! j) as [u|] eqn:Eu; [|done]. cbn.
      rewrite bool_decide_eq_false_2; [done|]. intros Hu.
      assert (index_of before !! rg_Target c = Some j) as Ej by (apply Hix; eauto).
      rewrite Ej in Ei. injection Ei as ->. apply Hn. split; [done|].
      by eapply lookup_lt_Some. }
  destruct (rg_Cascade c); injection H as <-; cbn [andb]; [|apply Hins].
  pose proof (regrant_task_keeps _ _ _ Ht) as [Htid _].
  rewrite cascade_foldl.
  - rewrite Hins. destruct (before !! k) as [u|]; [|done]. cbn [fmap option_fmap option_map]. f_equal.
    destruct (bool_decide_reflect (t_ID u = rg_Target c)) as [Hu|Hu].
    + rewrite bool_decide_eq_false_2; [done|]. rewrite Htid, Hid. naive_solver.
    + rewrite (bool_decide_ext _ (descends ch (rg_Target c) (t_ID u))); [done|].
      rewrite elem_of_elements. rewrite elem_of_DescendantsOf. set_solver.
  - eapply indexes_ext; [|exact Hix]. intros j. rewrite Hins.
    destruct (before !! j) as [u|]; [|done]. cbn. case_bool_decide; [|done]. congruence.
  - intros id. rewrite elem_of_elements, elem_of_DescendantsOf.
    intros [?|Hd]; [set_solver|]. apply descends_listed in Hd.
    + apply list_elem_of_fmap in Hd as (u & -> & [j Hj]%list_elem_of_lookup_1).
      exists j. apply Hix. eauto.
    + rewrite <-Hid. by eapply list_elem_of_fmap_2, list_elem_of_lookup_2.
  - apply NoDup_elements.
Qed.

(** A re-grant moves no task: the tree is the one it was. *)
Lemma apply_regrant_children before c after :
  NoDup (t_ID <$> before) → apply_regrant before c = Ok after →
  v_children (newView after) = v_children (newView before).
Proof.
  intros Hnd Happ.
  destruct (apply_regrant_lookup _ _ _ Hnd Happ) as (t0 & t' & Ht0 & Hid0 & Hrg & Hlk).
  destruct (regrant_task_keeps _ _ _ Hrg) as [Hid' Hcr'].
  apply view_children_ext. apply list_eq. intros k. rewrite !list_lookup_fmap, Hlk.
  destruct (before !! k) as [u|] eqn:Eu; [|done]. cbn.
  destruct (bool_decide_reflect (t_ID u = rg_Target c)) as [Hu|_]; [|by case_match].
  assert (u = t0) as -> by (apply (listed_unique before); [done|by eapply list_elem_of_lookup_2|done|congruence]).
  by rewrite Hid', Hcr'.
Qed.

(** The entries of the listing after a cascading re-grant. *)
Lemma cascade_entries before c after :
  NoDup (t_ID <$> before) → apply_regrant before c = Ok after → rg_Cascade c = true →
  let ch := v_children (newView before) in
  ∃ t, ∀ u', u' ∈ after → ∃ u, u ∈ before ∧ t_ID u' = t_ID u ∧
    ((t_ID u = rg_Target c ∧ u' = t) ∨
     (t_ID u ≠ rg_Target c ∧ descends ch (rg_Target c) (t_ID u) ∧
      ∃ bound, u' = clamped t bound ch u) ∨
     (¬ descends ch (rg_Target c) (t_ID u) ∧ u' = u)).
Proof.
  intros Hnd Happ Hc ch.
  destruct (apply_regrant_lookup _ _ _ Hnd Happ) as (t0 & t & Ht0 & Hid0 & Hrg & Hlk).
  destruct (regrant_task_keeps _ _ _ Hrg) as [Hid' _]. fold ch in Hlk. exists t.
  intros u' [k Hk]%list_elem_of_lookup_1. rewrite Hlk in Hk.
  destruct (before !! k) as [u|] eqn:Eu; [|done]. cbn [fmap option_fmap option_map] in Hk.
  injection Hk as <-. exists u. split; [by eapply list_elem_of_lookup_2|]. rewrite Hc. cbn [andb].
  destruct (bool_decide_reflect (t_ID u = rg_Target c)) as [Hu|Hu]; [split; [congruence|by left]|].
  destruct (bool_decide_reflect (descends ch (rg_Target c) (t_ID u))) as [Hd|Hd];
    (split; [done|]); right; [left; eauto|by right].
Qed.

Lemma CascadeClamp_inside t d dHex bound ch ch' :
  Validate (t_Scope t) = None → scope_known (t_Scope t) →
  index_le ch ch' → below ch' (t_ID t) dHex →
  let d' := CascadeClamp t d dHex bound ch in
  (∀ bit, single bit → has (g_Caps d') bit = true → has (t_Caps t) bit = true) ∧
  Confined ch' dHex (g_Scope d') (g_Caps d') (t_ID t) (t_Scope t).
Proof.
  intros Hval Hkn Hle Hb. cbn zeta. unfold CascadeClamp. destruct bound.
  - split; [|by apply (ClampDescendant_own (t_ID t) (task_grant t))].
    intros bit Hs. cbn [g_Caps ClampDescendant gr_held NewGranter task_grant]. push_has.
    intros ?; breflect; done.
  - cbn [g_Caps g_Scope]. split.
    + intros bit Hs. push_has. intros ?; breflect; done.
    + pose proof (NewReach_wf (t_ID t) (t_Scope t) ch) as Hwf.
      set (caps := _ .&. _).
      pose proof (λ b, ClampUnder_ForCap (g_Scope d) caps _ b Hwf) as HF.
      pose proof (λ id, ClampUnder_discloses (g_Scope d) caps _ id Hwf) as HD.
      destruct (ClampUnder_fields (g_Scope d) caps (NewReach (t_ID t) (t_Scope t) ch)) as (_ & _ & _ & _ & _ & Hv).
      rewrite NewReach_scope in *. rewrite NewReach_hex, NewReach_children in HF, HD.
      eapply Confined_intro; [done..|by auto| |done]. rewrite Hv. apply MinBase_le_r.
Qed.

(** ** The re-parent *)

(** No task is its own ancestor. *)
Definition acyclic (ch : gmap string (list string)) : Prop :=
  ∀ a b, b ∈ kids ch a → ¬ descends ch b a.

Lemma apply_reparent_Ok before c after :
  NoDup (t_ID <$> before) → apply_reparent before c = Ok after →
  rp_Target c ∈ t_ID <$> before ∧
  (rp_NewParent c ≠ "" →
     rp_NewParent c ∈ t_ID <$> before ∧
     ¬ descends (v_children (newView before)) (rp_Target c) (rp_NewParent c)) ∧
  after = (λ u, if bool_decide (t_ID u = rp_Target c) then set_creator (rp_NewParent c) u else u)
            <$> before.
Proof.
  intros Hnd. unfold apply_reparent. pose proof (λ id i, index_of_spec before id i Hnd) as Hix.
  assert (∀ id j, index_of before !! id = Some j → id ∈ t_ID <$> before) as Hlisted.
  { intros id j (u & Hu & <-)%Hix. by eapply list_elem_of_fmap_2, list_elem_of_lookup_2. }
  destruct (index_of before !! rp_Target c) as [i|] eqn:Ei; [|done].
  destruct (negb _ && bool_decide (_ = None)) eqn:E1; [done|].
  destruct (negb _ && bool_decide (_ ∈ _)) eqn:E2; [done|]. intros [= <-].
  split; [by eapply Hlisted|]. split.
  - intros Hp. rewrite (bool_decide_eq_false_2 (_ = "")) in E1, E2 by done. cbn [negb andb] in E1, E2.
    breflect. split; [|by rewrite elem_of_DescendantsOf in E2; tauto].
    destruct (index_of before !! rp_NewParent c) as [j|] eqn:Ej; [by eapply Hlisted|done].
  - apply list_eq. intros k. rewrite list_lookup_alter, list_lookup_fmap.
    destruct (decide (i = k)) as [<-|Hik]; (destruct (before !! _) as [u|] eqn:Eu; [|done]); cbn;
      destruct (bool_decide_reflect (t_ID u = rp_Target c)) as [Hu|Hu]; try done; exfalso.
    + apply Hix in Ei as (v & Hv & ?). congruence.
    + apply Hik. enough (Some i = Some k) by congruence. rewrite <-Ei. apply Hix. eauto.
Qed.

Lemma reparent_kids before p target a b :
  let f := λ u, if bool_decide (t_ID u = target) then set_creator p u else u in
  b ∈ kids (v_children (newView (f <$> before))) a →
  b ∈ kids (v_children (newView before)) a ∨ (a = p ∧ a ≠ "" ∧ b = target).
Proof.
  intros f. rewrite !newView_kids. intros (Ha & u' & (u & -> & Hu)%list_elem_of_fmap & Hcr & Hid).
  unfold f in *. destruct (bool_decide_reflect (t_ID u = target)); [naive_solver|]. left. eauto.
Qed.

(** A path of the tree after the move either existed before or crosses the new
    edge once. *)
Lemma reparent_path ch ch' p target x y :
  (∀ a b, b ∈ kids ch' a → b ∈ kids ch a ∨ (a = p ∧ a ≠ "" ∧ b = target)) →
  descends ch' x y →
  descends ch x y ∨ (p ≠ "" ∧ descends ch x p ∧ descends ch target y).
Proof.
  intros Hk. induction 1 as [|x z y Hxz _ IH]; [by left|].
  destruct (Hk _ _ Hxz) as [Hold|(-> & Hp & ->)].
  - destruct IH as [IH|(Hp & IH1 & IH2)]; [left|right; split_and!; try done]; by eapply rtc_l.
  - right. split; [done|]. split; [reflexivity|]. by destruct IH as [IH|(_ & _ & IH)].
Qed.

(** ** The spawn *)

(** [exceeds] is false of a set that stays inside the other, the id apart; a set
    of everything stays inside no finite set. *)
Lemma exceeds_false id c p :
  (∀ x, in_set c x = true → x = id ∨ in_set p x = true) → exceeds id c p = false.
Proof.
  destruct c as [cAll cSet], p as [pAll pSet]. unfold exceeds, in_set. cbn. intros H.
  destruct pAll; [done|]. destruct cAll.
  - exfalso. destruct (exist_fresh ({[id]} ∪ pSet : gset string)) as [x Hx].
    destruct (H x eq_refl) as [->|Hin]; [set_solver|]. cbn in Hin. breflect. set_solver.
  - apply existsb_false_elem_of. intros x Hx%elem_of_elements.
    destruct (H x) as [->|Hin]; [by apply bool_decide_eq_true|by rewrite bool_decide_eq_true_2|].
    cbn in Hin. rewrite Hin. apply andb_false_r.
Qed.

(** A task confined by its creator, with no capability the creator lacks, is
    nowhere wider. *)
Lemma confined_not_wider tasks t p :
  NoDup (t_ID <$> tasks) → t ∈ tasks → p ∈ tasks → t_Creator t = t_ID p →
  (∀ bit, single bit → has (t_Caps t) bit = true → has (t_Caps p) bit = true) →
  Confined (v_children (newView tasks)) (t_ID t) (t_Scope t) (t_Caps t) (t_ID p) (t_Scope p) →
  WiderThanParent tasks (t_ID t) = mkWider 0 false.
Proof.
  intros Hnd Ht Hp Hcr Hcaps [Hact Hsee]. unfold WiderThanParent.
  set (ch := v_children (newView tasks)) in *.
  rewrite (proj2 (newView_lookup tasks (t_ID t) t Hnd)) by done.
  destruct (bool_decide_reflect (t_Creator t = "")); [done|].
  rewrite (proj2 (newView_lookup tasks (t_Creator t) p Hnd)) by done.
  rewrite (exceeds_false _ _ _ Hsee). f_equal.
  assert (∀ bit, bit ∈ each_cap → ∀ c, actionReach t bit ch = Some c →
    exceeds (t_ID t) c (actionReach_sets p bit ch) = false) as Hbit.
  { intros bit Hb c Hc. apply exceeds_false. intros x Hx.
    assert (in_set (actionReach_sets t bit ch) x = true) as Hx' by (unfold actionReach_sets; by rewrite Hc).
    apply in_actionReach_sets in Hx' as (He & Ha & Hr); [|done].
    destruct (Hact bit x Hb He Ha) as [|Hpa]; [by left|].
    destruct (decide (x = t_ID t)) as [|Hne]; [by left|]. right.
    apply in_actionReach_sets; [done|].
    assert (∀ b, single b → has (ExercisedBits (t_Caps t)) b = true →
      has (ExercisedBits (t_Caps p)) b = true) as Hm by (by apply ExercisedBits_mono).
    split; [by apply Hm; [apply each_cap_single|]|]. split; [done|]. intros Hrz.
    destruct (Hr Hrz) as [Hv1 Hv2]. split; [apply Hm; [apply single_ExecView|done]|].
    destruct (Hact Capability_ExecView x) as [|]; try done.
    apply elem_of_each_cap; [apply single_ExecView|by vm_compute]. }
  revert Hbit. generalize each_cap. intros l. induction l as [|b l IH]; intros Hbit; [done|]. cbn [foldl].
  assert ((match actionReach t b ch with
    | Some c => if exceeds (t_ID t) c (actionReach_sets p b ch) then 0 .|. b else 0
    | None => 0 end) = 0) as ->.
  { destruct (actionReach t b ch) eqn:E; [|done]. rewrite (Hbit b); [done|by left|done]. }
  apply IH. intros bit Hb. apply Hbit. by right.
Qed.

Lemma spawn_granter_Some v creator g :
  spawn_granter v creator = Ok (Some g) →
  ∃ t, v_byID v !! creator = Some t ∧ has (t_Caps t) Capability_Spawn = true ∧
    g = NewGranter (t_ID t) (task_grant t) (v_children v).
Proof.
  unfold spawn_granter. destruct (bool_decide _); [done|].
  destruct (v_byID v !! creator) as [t|]; [|done].
  destruct (_ =? 0) eqn:E; [done|]. intros [= <-]. exists t. unfold has. by rewrite E.
Qed.

(** A leaf appended under a listed task is strictly below it. *)
Lemma appended_below before t p :
  t_Creator t = t_ID p → p ∈ before → t_ID p ≠ "" →
  t_ID t ∉ t_ID <$> before → t_ID t ∉ t_Creator <$> before →
  below (v_children (newView (before ++ [t]))) (t_ID p) (t_ID t).
Proof.
  intros Hcr Hp Hne Hid Hnc. split.
  - apply rtc_once. unfold child_of. apply newView_kids. split; [done|]. exists t. set_solver.
  - intros Hd. assert (t_ID p ≠ t_ID t) as Hpt.
    { intros E. apply Hid. rewrite <-E. by apply list_elem_of_fmap_2. }
    inversion Hd as [Heq|? y ? Hty]; [congruence|]. subst.
    apply newView_kids in Hty as (_ & u & [Hu| ->%list_elem_of_singleton]%elem_of_app & Hc & _); [|congruence].
    apply Hnc. rewrite <-Hc. by apply list_elem_of_fmap_2.
Qed.

Lemma appended_index_le before t :
  index_le (v_children (newView before)) (v_children (newView (before ++ [t]))).
Proof. intros x y. rewrite !newView_kids. set_solver. Qed.

(** ** The report *)

Lemma elem_of_setOf v p x : x ∈ setOf v p ↔ x ∈ v_ids v ∧ in_set p x = true.
Proof. unfold setOf. rewrite elem_of_list_to_set, list_elem_of_filter. tauto. Qed.

(** The ids [measure] adds to one of its maps: those of [q] outside [p]. *)
Definition gained (v w : view) (p q : bool * gset string) : list string :=
  if p.1 && q.1 then [] else sort_strings (elements (setOf w q ∖ setOf v p)).

Lemma measure_gained bv av b a d bit :
  let bP := measured bv b bit in
  let aP := measured av (Some a) bit in
  measure bv av b a d bit = (put_ids bit (gained bv av bP aP) d.1, put_ids bit (gained av bv aP bP) d.2).
Proof.
  cbn zeta. unfold measure, gained. rewrite (andb_comm (measured av _ _).1).
  destruct (_ && _); [by destruct d|done].
Qed.

Lemma put_ids_foldl (f : N → list string) bits m k :
  foldl (λ m bit, put_ids bit (f bit) m) m bits !! k =
    if decide (k ∈ bits ∧ f k ≠ []) then Some (f k) else m !! k.
Proof.
  revert m. induction bits as [|b bits IH]; intros m; cbn [foldl].
  { rewrite decide_False; [done|]. set_solver. }
  rewrite IH. destruct (decide (k ∈ bits ∧ f k ≠ [])) as [H|H].
  { rewrite decide_True; [done|]. set_solver. }
  unfold put_ids. destruct (decide (b = k)) as [->|Hne].
  - destruct (f k) eqn:E; [rewrite decide_False; [done|by intros [_ ?]]|].
    rewrite lookup_insert, decide_True by done. rewrite decide_True; [done|]. set_solver.
  - rewrite (decide_False (P := k ∈ b :: bits ∧ _)) by set_solver.
    destruct (f b); [done|]. by rewrite lookup_insert_ne.
Qed.

Lemma measure_foldl bv av b a bits d k :
  let out := foldl (measure bv av b a) d bits in
  let bP := measured bv b k in
  let aP := measured av (Some a) k in
  out.1 !! k = (if decide (k ∈ bits ∧ gained bv av bP aP ≠ []) then Some (gained bv av bP aP) else d.1 !! k) ∧
  out.2 !! k = (if decide (k ∈ bits ∧ gained av bv aP bP ≠ []) then Some (gained av bv aP bP) else d.2 !! k).
Proof.
  cbn zeta.
  rewrite <-(put_ids_foldl (λ k, gained bv av (measured bv b k) (measured av (Some a) k)) bits d.1 k).
  rewrite <-(put_ids_foldl (λ k, gained av bv (measured av (Some a) k) (measured bv b k)) bits d.2 k).
  revert d. induction bits as [|c bits IH]; intros d; cbn [foldl]; [done|].
  rewrite (measure_gained bv av b a d c). apply IH.
Qed.

(** Nothing gained and nothing lost is the same reach over the ids both list. *)
Lemma gained_nil v w p q x :
  gained v w p q = [] → gained w v q p = [] → x ∈ v_ids v → x ∈ v_ids w →
  in_set p x = in_set q x.
Proof.
  unfold gained. rewrite (andb_comm q.1). destruct (p.1 && q.1) eqn:E.
  { intros _ _ _ _. breflect. unfold in_set. by destruct p as [[] ?], q as [[] ?]. }
  intros H1%sort_strings_nil_inv%elements_empty_inv H2%sort_strings_nil_inv%elements_empty_inv Hv Hw.
  apply eq_true_iff_eq. split; intros Hin.
  - destruct (decide (x ∈ setOf w q)) as [Hq|Hq]; [by apply elem_of_setOf in Hq as [_ ?]|].
    exfalso. assert (x ∈ setOf v p) by (by apply elem_of_setOf). set_solver.
  - destruct (decide (x ∈ setOf v p)) as [Hq|Hq]; [by apply elem_of_setOf in Hq as [_ ?]|].
    exfalso. assert (x ∈ setOf w q) by (by apply elem_of_setOf). set_solver.
Qed.

(** A bit neither side exercises reaches nothing on either side. *)
Lemma unmeasured bv av b a bit x :
  bit ∈ each_cap → bit ∉ diff_bits (Some b) a →
  in_set (measured bv (Some b) bit) x = in_set (measured av (Some a) bit) x.
Proof.
  intros Hbit Hn. pose proof (each_cap_single bit Hbit) as Hs.
  assert (bit ≠ 0) as Hb0 by (destruct Hs as [i ->]; apply N.pow_nonzero; lia).
  unfold diff_bits in Hn. rewrite elem_of_cons, list_elem_of_filter, has_lor in Hn by done.
  unfold measured. change Capability_None with 0 in *. rewrite (proj2 (N.eqb_neq _ _) Hb0).
  assert (∀ t ch, has (ExercisedBits (t_Caps t)) bit = false → in_set (actionReach_sets t bit ch) x = false) as Hout.
  { intros t ch Ht. apply not_true_iff_false. rewrite in_actionReach_sets by done. rewrite Ht. by intros [? _]. }
  rewrite !Hout; [done|..]; apply not_true_iff_false; intros Ht; apply Hn; right; rewrite Ht, ?orb_true_r; done.
Qed.

Lemma omap_diff_silent before after a :
  NoDup (t_ID <$> after) → a ∈ after →
  (∀ d, d ∈ diff before after → td_ID d ≠ t_ID a) →
  diff_task (newView before) (newView after) (t_ID a) = None.
Proof.
  intros Hnd Ha Hno. destruct (diff_task _ _ (t_ID a)) as [d|] eqn:E; [|done]. exfalso.
  assert (td_ID d = t_ID a) as Hid.
  { revert E. unfold diff_task. destruct (_ !! _); [|done]. destruct (foldl _ _ _).
    destruct (_ || _); [|done]. by intros [= <-]. }
  apply (Hno d); [|done]. unfold diff. rewrite elem_of_sort_stable, list_elem_of_omap.
  exists (t_ID a). split; [|done]. rewrite newView_ids, elem_of_sort_strings. by apply list_elem_of_fmap_2.
Qed.

Lemma filter_empty_lookup (m : gmap N (list string)) k l :
  filter (λ kv, kv.2 ≠ []) m = ∅ → m !! k = Some l → l = [].
Proof.
  intros H Hk. destruct (decide (l = [])) as [|Hl]; [done|]. exfalso.
  assert (filter (λ kv, kv.2 ≠ []) m !! k = Some l) as E by (by apply map_lookup_filter_Some).
  by rewrite H, lookup_empty in E.
Qed.

(** ** Theorems *)

(** C9. A cascading re-grant leaves the whole subtree inside the re-granted task,
    when the scope it is given is consistent and names only bases the schema
    knows: every listed task strictly below it holds no capability the task lacks,
    acts through each exercised bit and sees nowhere the task does not, its own id
    apart; every task that is not below it is left exactly as it was. *)
Theorem cascade_confines (before after : list Task) (c : Regrant) (t : Task) :
  NoDup (t_ID <$> before) → apply before (ChRegrant c) = Ok after → rg_Cascade c = true →
  t ∈ after → t_ID t = rg_Target c → Validate (t_Scope t) = None → scope_known (t_Scope t) →
  let ch := v_children (newView after) in
  (∀ d, d ∈ after → below ch (t_ID t) (t_ID d) →
     (∀ bit, single bit → has (t_Caps d) bit = true → has (t_Caps t) bit = true) ∧
     Confined ch (t_ID d) (t_Scope d) (t_Caps d) (t_ID t) (t_Scope t)) ∧
  (∀ u, u ∈ before → ¬ descends ch (t_ID t) (t_ID u) → u ∈ after).
Proof.
  intros Hnd Happ Hc Ht Htid Hval Hkn. cbn zeta.
  rewrite (apply_regrant_children _ _ _ Hnd Happ).
  destruct (cascade_entries _ _ _ Hnd Happ Hc) as (t' & Hafter).
  set (ch := v_children (newView before)) in *.
  assert (t = t') as ->.
  { destruct (Hafter t Ht) as (u & Hu & Heq & [[_ ?]|[[Hne _]|[Hnd' _]]]); [done|congruence|].
    destruct Hnd'. rewrite <-Heq, Htid. reflexivity. }
  split.
  - intros d Hd Hb. destruct (Hafter d Hd) as (u & Hu & Heq & [[_ ->]|[[_ [_ [bd ->]]]|[Hn ->]]]).
    + by destruct Hb as [? []].
    + apply (CascadeClamp_inside t' (task_grant u) (t_ID u) bd ch ch); [done..|exact Hb].
    + destruct Hb as [Hb _]. rewrite Htid in Hb. done.
  - intros u Hu Hn. destruct (apply_regrant_lookup _ _ _ Hnd Happ) as (? & ? & _ & _ & _ & Hlk).
    apply list_elem_of_lookup_1 in Hu as [k Hk]. fold ch in Hlk.
    apply list_elem_of_lookup. exists k. rewrite Hlk, Hk. cbn [fmap option_fmap option_map].
    rewrite Htid in Hn. rewrite (bool_decide_eq_false_2 (descends _ _ _)), andb_false_r by done.
    rewrite bool_decide_eq_false_2; [done|]. intros E. apply Hn. rewrite E. reflexivity.
Qed.

(** A re-parent that is accepted keeps the tree a forest: no task becomes its own
    ancestor.  It changes the creator of the target alone, and no grant. *)
Theorem reparent_acyclic (before after : list Task) (c : Reparent) :
  NoDup (t_ID <$> before) → acyclic (v_children (newView before)) →
  apply before (ChReparent c) = Ok after →
  acyclic (v_children (newView after)) ∧
  t_ID <$> after = t_ID <$> before ∧ task_grant <$> after = task_grant <$> before ∧
  (∀ u, u ∈ after → t_ID u = rp_Target c → t_Creator u = rp_NewParent c).
Proof.
  intros Hnd Hac Happ. destruct (apply_reparent_Ok _ _ _ Hnd Happ) as (_ & Hp & ->).
  set (f := λ u, if bool_decide _ then _ else u). split; [|split_and!].
  - intros a b Hab Hba.
    pose proof (reparent_kids before (rp_NewParent c) (rp_Target c)) as Hk. cbn zeta in Hk. fold f in Hk.
    apply (reparent_path _ _ _ _ _ _ Hk) in Hba.
    destruct (Hk _ _ Hab) as [Hold|(-> & Hne & ->)].
    + destruct Hba as [Hba|(Hne & H1 & H2)]; [by eapply Hac|].
      destruct (Hp Hne) as [_ []]. etrans; [exact H2|]. by eapply rtc_l.
    + destruct (Hp Hne) as [_ Hn]. destruct Hba as [?|(_ & ? & _)]; by apply Hn.
  - rewrite <-list_fmap_compose. apply list_fmap_ext. intros _ u _. unfold f, compose. by case_bool_decide.
  - rewrite <-list_fmap_compose. apply list_fmap_ext. intros _ u _. unfold f, compose. by case_bool_decide.
  - intros u (u0 & -> & Hu)%list_elem_of_fmap. unfold f. by case_bool_decide.
Qed.

(** The child a spawn would create is never reported wider than its creator:
    not through any bit, and not in what it sees.  The phantom's id must be
    free, and the creator's scope consistent with only the bases the code knows. *)
Theorem spawn_never_wider (before after : list Task) (s : Spawn) :
  NoDup (t_ID <$> before) → PhantomID ∉ t_ID <$> before → PhantomID ∉ t_Creator <$> before →
  (∀ p, p ∈ before → t_ID p = sp_Creator s → Validate (t_Scope p) = None ∧ scope_known (t_Scope p)) →
  apply before (ChSpawn s) = Ok after →
  WiderThanParent after PhantomID = mkWider 0 false.
Proof.
  intros Hnd Hid Hnc Hscope Happ. cbn [apply] in Happ. unfold apply_spawn in Happ.
  apply res_bind_Ok in Happ as (g & Hg & Happ). apply res_bind_Ok in Happ as (scope & Hsc & Happ).
  destruct (ChildBound g _ _ _) as [dcaps dres]. apply res_bind_Ok in Happ as (dscope & _ & [= <-]).
  set (t := mkTask _ _ _ _ _ _). destruct g as [g|].
  - destruct (spawn_granter_Some _ _ _ Hg) as (p & Hp & _ & ->).
    apply newView_lookup in Hp as [Hp Hcr]; [|done]. destruct (Hscope p Hp Hcr) as [Hval Hkn].
    assert (t_ID p ≠ "") as Hne.
    { intros E. rewrite <-Hcr, E in Hg. unfold spawn_granter in Hg. by rewrite bool_decide_eq_true_2 in Hg. }
    apply (confined_not_wider (before ++ [t]) t p); [|set_solver|set_solver|done|..].
    + rewrite fmap_app. apply NoDup_app. split; [done|]. split; [set_solver|apply NoDup_singleton].
    + intros bit Hs. cbn [t_Caps t ChildCaps gr_held NewGranter task_grant g_Caps]. push_has.
      intros ?; breflect; done.
    + unfold lift_grant in Hsc. destruct (ChildScope _ _ _) as [out|] eqn:E; [|done].
      injection Hsc as ->.
      apply (ChildScope_own (t_ID p) (task_grant p) (v_children (newView before)) _ _ _ _ _ E);
        [done|done|apply appended_index_le|by apply appended_below].
  - unfold WiderThanParent. rewrite newView_snoc_byID, lookup_insert, decide_True by done.
    unfold spawn_granter in Hg. destruct (bool_decide (sp_Creator s = "")) eqn:E.
    + cbn [t t_Creator]. by rewrite E.
    + destruct (_ !! _); [|done]. by destruct (_ =? 0).
Qed.

(** A task the report leaves out is one the change did not touch: it was listed
    before with the same grant, and through every capability bit, as well as in
    what it sees, it reaches the same of the tasks both listings hold. *)
Theorem WhatIf_complete (tasks after : list Task) (c : Change) (ds : list TaskDiff) (a : Task) :
  apply tasks c = Ok after → WhatIf tasks c = Ok ds →
  NoDup (t_ID <$> tasks) → NoDup (t_ID <$> after) → a ∈ after →
  (∀ d, d ∈ ds → td_ID d ≠ t_ID a) →
  ∃ b, b ∈ tasks ∧ t_ID b = t_ID a ∧ sameGrant (task_grant b) (task_grant a) = true ∧
    ∀ bit x, bit ∈ Capability_None :: each_cap → x ∈ t_ID <$> tasks → x ∈ t_ID <$> after →
      in_set (measured (newView tasks) (Some b) bit) x = in_set (measured (newView after) (Some a) bit) x.
Proof.
  intros Happ Hw Hnb Hna Ha Hno. unfold WhatIf in Hw. rewrite Happ in Hw. injection Hw as <-.
  apply omap_diff_silent in Hno; [|done..]. unfold diff_task in Hno.
  rewrite (proj2 (newView_lookup after (t_ID a) a Hna)) in Hno by done.
  set (bv := newView tasks) in *. set (av := newView after) in *.
  destruct (v_byID bv !! t_ID a) as [b|] eqn:Eb; cycle 1.
  { rewrite bool_decide_eq_true_2 in Hno by done. by destruct (foldl _ _ _). }
  apply newView_lookup in Eb as [Hb Hid]; [|done].
  pose proof (measure_foldl bv av (Some b) a (diff_bits (Some b) a) (∅, ∅)) as Hm.
  destruct (foldl _ _ _) as [added removed]. cbn [fst snd] in Hm.
  rewrite bool_decide_eq_false_2 in Hno by done. cbn [orb] in Hno.
  destruct (_ || _) eqn:E in Hno; [done|]. breflect. exists b. split_and!; [done..|].
  intros bit x Hbit Hxb Hxa. destruct (decide (bit ∈ diff_bits (Some b) a)) as [Hin|Hn]; cycle 1.
  { apply elem_of_cons in Hbit as [->|Hbit]; [|by apply unmeasured]. destruct Hn. by left. }
  destruct (Hm bit) as [Hadd Hrem].
  apply (gained_nil bv av); [| |by unfold bv; rewrite newView_ids, elem_of_sort_strings
    |by unfold av; rewrite newView_ids, elem_of_sort_strings].
  - destruct (decide _) as [Hd|Hd] in Hadd; [by eapply filter_empty_lookup; [|exact Hadd]|].
    destruct (gained bv av _ _); [done|]. by destruct Hd.
  - destruct (decide _) as [Hd|Hd] in Hrem; [by eapply filter_empty_lookup; [|exact Hrem]|].
    destruct (gained av bv _ _); [done|]. by destruct Hd.
Qed.

(** ** Concrete instances *)

Module SampleChange.
Definition lower_p : Regrant :=
  mkRegrant Sample.p (Some Capability_Cancel) None None None true.
Definition lowered_p : Task :=
  mkTask Sample.p "" Capability_Cancel Capability_All DefaultScope DefaultScope.
Definition lift_g : Reparent := mkReparent Sample.g Sample.p.
Definition lifted_g : Task := set_creator Sample.p SampleView.tg.
Definition spawn_p : Spawn :=
  mkSpawn Sample.p Capability_All Sample.wide Capability_None DefaultScope.
End SampleChange.

Lemma listing_NoDup : NoDup (t_ID <$> SampleView.listing).
Proof. apply (bool_decide_unpack _). by vm_compute. Qed.

Lemma listing_acyclic : acyclic (v_children (newView SampleView.listing)).
Proof.
  intros a b (_ & t & Ht & <- & <-)%newView_kids.
  repeat apply elem_of_cons in Ht as [->|Ht];
    [apply (bool_decide_unpack _); by vm_compute..|by apply not_elem_of_nil in Ht].
Qed.

Lemma cascade_confines_witness :
  apply SampleView.listing (ChRegrant SampleChange.lower_p)
    = Ok [SampleChange.lowered_p; SampleView.tc; SampleView.tg] ∧
  Confined (v_children (newView [SampleChange.lowered_p; SampleView.tc; SampleView.tg]))
    Sample.g DefaultScope Capability_None Sample.p DefaultScope.
Proof.
  assert (apply SampleView.listing (ChRegrant SampleChange.lower_p)
    = Ok [SampleChange.lowered_p; SampleView.tc; SampleView.tg]) as H by (vm_compute; reflexivity).
  split; [exact H|].
  pose proof (cascade_confines _ _ _ SampleChange.lowered_p listing_NoDup H eq_refl) as T.
  destruct T as [T _].
  - by left.
  - done.
  - by vm_compute.
  - apply (bool_decide_unpack _). by vm_compute.
  - apply (T SampleView.tg).
    + right. right. by left.
    + apply (bool_decide_unpack _). by vm_compute.
Defined.

Lemma reparent_acyclic_witness :
  apply SampleView.listing (ChReparent SampleChange.lift_g)
    = Ok [SampleView.tp; SampleView.tc; SampleChange.lifted_g] ∧
  acyclic (v_children (newView [SampleView.tp; SampleView.tc; SampleChange.lifted_g])).
Proof.
  assert (apply SampleView.listing (ChReparent SampleChange.lift_g)
    = Ok [SampleView.tp; SampleView.tc; SampleChange.lifted_g]) as H by (vm_compute; reflexivity).
  split; [exact H|].
  exact (proj1 (reparent_acyclic _ _ _ listing_NoDup listing_acyclic H)).
Defined.

Lemma spawn_never_wider_witness :
  ∃ after, apply SampleView.listing (ChSpawn SampleChange.spawn_p) = Ok after ∧
    length after = 4%nat ∧ WiderThanParent after PhantomID = mkWider 0 false.
Proof.
  eexists. split; [vm_compute; reflexivity|]. split; [done|].
  apply (spawn_never_wider SampleView.listing _ SampleChange.spawn_p).
  - exact listing_NoDup.
  - apply (bool_decide_unpack _). by vm_compute.
  - apply (bool_decide_unpack _). by vm_compute.
  - intros p Hp Hid. repeat apply elem_of_cons in Hp as [->|Hp]; [..|by apply not_elem_of_nil in Hp];
      (split; [by vm_compute|apply (bool_decide_unpack _); by vm_compute]).
  - vm_compute. reflexivity.
Defined.

Lemma WhatIf_complete_witness :
  WhatIf SampleView.listing (ChReparent SampleChange.lift_g) ≠ Ok [] ∧
  ∃ b, b ∈ SampleView.listing ∧ t_ID b = Sample.p ∧
    sameGrant (task_grant b) (task_grant SampleView.tp) = true.
Proof.
  split; [by vm_compute|].
  destruct (WhatIf_complete SampleView.listing [SampleView.tp; SampleView.tc; SampleChange.lifted_g]
    (ChReparent SampleChange.lift_g)
    (diff SampleView.listing [SampleView.tp; SampleView.tc; SampleChange.lifted_g])
    SampleView.tp) as (b & Hb & Hid & Hs & _).
  - vm_compute. reflexivity.
  - vm_compute. reflexivity.
  - exact listing_NoDup.
  - apply (bool_decide_unpack _). by vm_compute.
  - by left.
  - intros d. assert (td_ID <$> diff SampleView.listing [SampleView.tp; SampleView.tc; SampleChange.lifted_g]
      = [Sample.c]) as E by (vm_compute; reflexivity).
    intros Hd%(list_elem_of_fmap_2 td_ID). rewrite E in Hd.
    apply list_elem_of_singleton in Hd as ->. by vm_compute.
  - exists b. done.
Defined.
