(* ===== verification/Wire.v ===== *)
(** * Scopes on the wire and in the log

    - [authority/wire.go]: [ScopeFromWire], [ToWire], [OverridesToWire], the one
      place a task id crosses between hex and bytes;
    - the byte codec of [TaskID], [TaskScope] and [ScopeOverride]
      ([runner/protocol/message.go]), as a parser monad over the bytes left;
    - [server/scope.go]: the projection of a scope and of a delegation bound
      onto a WAL record and back. *)

From stdpp Require Import prelude gmap strings list sorting pretty.
From Stdlib Require Import NArith.
From S2P Require Import Prelude GoStrings Caps Scope Sets.

Open Scope N_scope.
Open Scope stdpp_scope.
Set Default Goal Selector "!".

(** ** Task ids *)

(** [protocol.TaskID]: 16 bytes. *)
Notation TaskID := (list N) (only parsing).

Definition zeroID : TaskID := replicate 16 0.

(** [copy(tid.Id[:], raw)] into a zero array. *)
Definition copy16 (raw : list N) : TaskID := take 16 (raw ++ zeroID).

Definition wf_id (id : TaskID) : Prop := length id = 16%nat ∧ Forall (λ b, b < 256) id.

#[export] Instance wf_id_dec id : Decision (wf_id id).
Proof. unfold wf_id. apply _. Defined.

(** ** Structs of the wire *)

Record TaskScope := mkTaskScope {
  ts_Base : N;
  ts_VisBase : N;
  ts_flags : N;
  ts_VisIdsLen : N;
  ts_VisIds : list TaskID;
  ts_IdsLen : N;
  ts_Ids : list TaskID;
}.

Record WireOverride := mkWireOverride {
  wo_Caps : N;
  wo_Base : N;
  wo_flags : N;
  wo_IdsLen : N;
  wo_Ids : list TaskID;
}.

(** The packed flag fields: [(f >> k) & 1], and its setter. *)
Definition flag (f k : N) : N := N.shiftr f k .&. 1.
Definition set_flag (f k v : N) : N := (f .&^. uint8 (N.shiftl 1 k)) .|. uint8 (N.shiftl (v .&. 1) k).
Definition bool_bit (b : bool) : N := if b then 1 else 0.

Definition ts_ExcludeSelf (w : TaskScope) : bool := negb (flag (ts_flags w) 7 =? 0).
Definition ts_VisBasePresent (w : TaskScope) : bool := negb (flag (ts_flags w) 6 =? 0).
Definition wo_ExcludeSelf (w : WireOverride) : bool := negb (flag (wo_flags w) 7 =? 0).

(** ** [authority/wire.go] *)

Definition idsFromWire (ids : list TaskID) : list string :=
  match ids with
  | [] => []
  | _ => NormalizeIDs (EncodeToString <$> ids)
  end.

Definition idsToWire (ids : list string) : list TaskID :=
  omap (λ h, match DecodeString h with
             | None => None
             | Some raw => if negb (bool_decide (length raw = Nat.div TaskIDHexLen 2)) then None
                           else Some (copy16 raw)
             end) ids.

Definition ScopeFromWire (w : TaskScope) (ov : list WireOverride) : Scope :=
  {| Base := ts_Base w; IDs := idsFromWire (ts_Ids w); VisBase := ts_VisBase w;
     VisBasePresent := ts_VisBasePresent w; ExcludeSelf := ts_ExcludeSelf w;
     VisIDs := idsFromWire (ts_VisIds w);
     Overrides := (λ o, {| ov_Caps := wo_Caps o; ov_Base := wo_Base o;
                           ov_ExcludeSelf := wo_ExcludeSelf o; ov_IDs := idsFromWire (wo_Ids o) |})
                  <$> ov |}.

Definition ToWire (s : Scope) : TaskScope :=
  let flags := set_flag 0 6 (bool_bit (VisBasePresent s)) in
  let flags := set_flag flags 7 (bool_bit (ExcludeSelf s)) in
  let ids := idsToWire (IDs s) in
  let visIds := idsToWire (VisIDs s) in
  {| ts_Base := Base s; ts_VisBase := VisBase s; ts_flags := flags;
     ts_VisIdsLen := uint16 (N.of_nat (length visIds)); ts_VisIds := visIds;
     ts_IdsLen := uint16 (N.of_nat (length ids)); ts_Ids := ids |}.

Definition OverridesToWire (s : Scope) : list WireOverride :=
  (λ o, let ids := idsToWire (ov_IDs o) in
        {| wo_Caps := ov_Caps o; wo_Base := ov_Base o;
           wo_flags := set_flag 0 7 (bool_bit (ov_ExcludeSelf o));
           wo_IdsLen := uint16 (N.of_nat (length ids)); wo_Ids := ids |}) <$> Overrides s.

(** ** The byte codec *)

(** A decoder: the bytes from the offset on, or a short read. *)
Definition decoder (A : Type) : Type := list N → option (A * list N).

Definition dec_ret {A} (a : A) : decoder A := λ bs, Some (a, bs).
Definition dec_bind {A B} (m : decoder A) (k : A → decoder B) : decoder B :=
  λ bs, match m bs with Some (a, bs') => k a bs' | None => None end.

Declare Scope decode_scope.
Notation "'read' x ':=' m 'in' k" := (dec_bind m (λ x, k))
  (at level 10, x name, m at level 100, k at level 200) : decode_scope.
Open Scope decode_scope.

(** The next [n] bytes, refused when fewer are left. *)
Definition take_bytes (n : nat) : decoder (list N) :=
  λ bs, if (length bs <? n)%nat then None else Some (take n bs, drop n bs).

(** [binary.BigEndian]. *)
Definition be_encode (n : nat) (v : N) : list N :=
  (λ i, uint8 (N.shiftr v (8 * N.of_nat (n - 1 - i)))) <$> seq 0 n.
Definition be_decode (bs : list N) : N := foldl (λ acc b, acc * 256 + b) 0 bs.

Definition read_uint (n : nat) : decoder N := read bs := take_bytes n in dec_ret (be_decode bs).

Definition TaskID_Append (id : TaskID) (buf : list N) : list N := buf ++ id.
Definition TaskID_Decode : decoder TaskID := take_bytes 16.

(** The element loops of both directions. *)
Definition append_ids (ids : list TaskID) (buf : list N) : list N :=
  foldl (λ buf id, TaskID_Append id buf) buf ids.

Fixpoint read_ids (n : nat) : decoder (list TaskID) :=
  match n with
  | O => dec_ret []
  | S n' => read id := TaskID_Decode in read ids := read_ids n' in dec_ret (id :: ids)
  end.

(** A length field, checked against the list it counts, and the list. *)
Definition append_list (len : N) (ids : list TaskID) (buf : list N) : option (list N) :=
  let buf := buf ++ be_encode 2 len in
  if negb (N.of_nat (length ids) =? len) then None else Some (append_ids ids buf).

Definition TaskScope_Append (w : TaskScope) (buf : list N) : option (list N) :=
  let buf := buf ++ [uint8 (ts_Base w)] in
  let buf := buf ++ [uint8 (ts_VisBase w)] in
  let b := uint8 (N.shiftl (flag (ts_flags w) 7 .&. 1) 7) in
  let b := b .|. uint8 (N.shiftl (flag (ts_flags w) 6 .&. 1) 6) in
  let b := b .|. (ts_flags w .&. 63) in
  let buf := buf ++ [b] in
  match append_list (ts_VisIdsLen w) (ts_VisIds w) buf with
  | None => None
  | Some buf => append_list (ts_IdsLen w) (ts_Ids w) buf
  end.

Definition TaskScope_Decode : decoder TaskScope :=
  read base := read_uint 1 in
  read visBase := read_uint 1 in
  read b := read_uint 1 in
  let f := set_flag 0 7 (N.shiftr (b .&. 128) 7) in
  let f := set_flag f 6 (N.shiftr (b .&. 64) 6) in
  let f := (f .&^. 63) .|. (b .&. 63) in
  read visLen := read_uint 2 in
  read visIds := read_ids (N.to_nat visLen) in
  read len := read_uint 2 in
  read ids := read_ids (N.to_nat len) in
  dec_ret {| ts_Base := base; ts_VisBase := visBase; ts_flags := f;
             ts_VisIdsLen := visLen; ts_VisIds := visIds; ts_IdsLen := len; ts_Ids := ids |}.

Definition WireOverride_Append (w : WireOverride) (buf : list N) : option (list N) :=
  let buf := buf ++ be_encode 4 (uint32 (wo_Caps w)) in
  let buf := buf ++ [uint8 (wo_Base w)] in
  let b := uint8 (N.shiftl (flag (wo_flags w) 7 .&. 1) 7) in
  let b := b .|. (wo_flags w .&. 127) in
  append_list (wo_IdsLen w) (wo_Ids w) (buf ++ [b]).

Definition WireOverride_Decode : decoder WireOverride :=
  read caps := read_uint 4 in
  read base := read_uint 1 in
  read b := read_uint 1 in
  let f := set_flag 0 7 (N.shiftr (b .&. 128) 7) in
  let f := (f .&^. 127) .|. (b .&. 127) in
  read len := read_uint 2 in
  read ids := read_ids (N.to_nat len) in
  dec_ret {| wo_Caps := caps; wo_Base := base; wo_flags := f; wo_IdsLen := len; wo_Ids := ids |}.

(** ** Round trips of the parts *)

Lemma copy16_wf raw : length raw = 16%nat → copy16 raw = raw.
Proof. intros H. unfold copy16. rewrite take_app_le by lia. by rewrite <-H, firstn_all. Qed.

(** A valid id and the bytes it stands for. *)
Lemma valid_id_bytes x :
  valid_id x → ∃ raw, DecodeString x = Some raw ∧ wf_id raw ∧ EncodeToString raw = x.
Proof.
  intros (Hl & [raw Hraw] & Hlow). exists raw. split; [done|]. split; [|by apply EncodeToString_DecodeString].
  unfold DecodeString in Hraw. split; [|by eapply hex_decode_bound].
  apply hex_decode_Some in Hraw as [_ Hlen]. rewrite chars_length, Hl in Hlen. unfold TaskIDHexLen in Hlen. lia.
Qed.

Lemma idsToWire_cons_valid x ids raw :
  DecodeString x = Some raw → length raw = 16%nat → idsToWire (x :: ids) = raw :: idsToWire ids.
Proof.
  intros Hd Hl. unfold idsToWire. cbn [omap list_omap]. rewrite Hd.
  rewrite bool_decide_eq_true_2 by done. cbn [negb]. by rewrite copy16_wf.
Qed.

Lemma idsToWire_valid ids :
  Forall valid_id ids →
  Forall wf_id (idsToWire ids) ∧ EncodeToString <$> idsToWire ids = ids ∧
  length (idsToWire ids) = length ids.
Proof.
  induction 1 as [|x ids Hx _ (IH1 & IH2 & IH3)]; [done|].
  destruct (valid_id_bytes x Hx) as (raw & Hd & Hwf & He).
  rewrite (idsToWire_cons_valid x ids raw Hd (proj1 Hwf)).
  split; [by constructor|]. cbn. by rewrite IH2, IH3, He.
Qed.

Lemma ids_wire_roundtrip ids : ids_ok ids → idsFromWire (idsToWire ids) = ids.
Proof.
  intros Hok. destruct (idsToWire_valid ids (proj1 Hok)) as (_ & He & Hl).
  unfold idsFromWire. destruct (idsToWire ids) as [|y ys] eqn:E.
  - destruct ids; [done|]. cbn in Hl. lia.
  - rewrite He. by apply NormalizeIDs_fixed.
Qed.

Section codec.
Local Ltac div_lia := unfold uint8, uint16, uint32 in *; rewrite ?N.shiftr_div_pow2 in *;
  change (2 ^ 8) with 256 in *; change (2 ^ 16) with 65536 in *; change (2 ^ 24) with 16777216 in *;
  change (2 ^ 32) with 4294967296 in *; zify; Z.to_euclidean_division_equations; lia.

Lemma be_roundtrip2 v : v < 2 ^ 16 → be_decode (be_encode 2 v) = v.
Proof.
  intros H. unfold be_decode, be_encode. cbn [seq fmap list_fmap foldl].
  change (8 * N.of_nat (2 - 1 - 0)) with 8. change (8 * N.of_nat (2 - 1 - 1)) with 0.
  rewrite N.shiftr_0_r. div_lia.
Qed.

Lemma be_roundtrip4 v : v < 2 ^ 32 → be_decode (be_encode 4 v) = v.
Proof.
  intros H. unfold be_decode, be_encode. cbn [seq fmap list_fmap foldl].
  change (8 * N.of_nat (4 - 1 - 0)) with 24. change (8 * N.of_nat (4 - 1 - 1)) with 16.
  change (8 * N.of_nat (4 - 1 - 2)) with 8. change (8 * N.of_nat (4 - 1 - 3)) with 0.
  rewrite N.shiftr_0_r. div_lia.
Qed.
End codec.

Lemma length_be_encode n v : length (be_encode n v) = n.
Proof. unfold be_encode. by rewrite length_fmap, length_seq. Qed.

Lemma take_bytes_app n bs rest : length bs = n → take_bytes n (bs ++ rest) = Some (bs, rest).
Proof.
  intros <-. unfold take_bytes. rewrite length_app.
  rewrite (proj2 (Nat.ltb_ge _ _)) by lia. by rewrite take_app_length, drop_app_length.
Qed.

Lemma read_uint_app n bs rest :
  length bs = n → read_uint n (bs ++ rest) = Some (be_decode bs, rest).
Proof. intros H. unfold read_uint, dec_bind. by rewrite take_bytes_app. Qed.

Lemma read_byte b rest : read_uint 1 (b :: rest) = Some (b, rest).
Proof. apply (read_uint_app 1 [b]). done. Qed.

Lemma append_ids_concat ids buf : append_ids ids buf = buf ++ concat ids.
Proof.
  unfold append_ids, TaskID_Append. revert buf.
  induction ids as [|x ids IH]; intros buf; cbn; [by rewrite app_nil_r|]. by rewrite IH, app_assoc.
Qed.

Lemma read_ids_concat ids rest :
  Forall wf_id ids → read_ids (length ids) (concat ids ++ rest) = Some (ids, rest).
Proof.
  induction 1 as [|x ids Hx _ IH]; [done|]. cbn [length read_ids concat].
  unfold dec_bind, TaskID_Decode. rewrite <-app_assoc, take_bytes_app by apply Hx. by rewrite IH.
Qed.

(** A list whose length fits its field is written and read back. *)
Lemma append_list_ok (ids : list TaskID) buf :
  append_list (N.of_nat (length ids)) ids buf
    = Some (buf ++ be_encode 2 (N.of_nat (length ids)) ++ concat ids).
Proof.
  unfold append_list. rewrite N.eqb_refl. cbn [negb]. by rewrite append_ids_concat, <-app_assoc.
Qed.

Lemma read_list_ok {B} (ids : list TaskID) (k : N → list TaskID → decoder B) rest :
  Forall wf_id ids → N.of_nat (length ids) < 2 ^ 16 →
  dec_bind (read_uint 2) (λ len, dec_bind (read_ids (N.to_nat len)) (λ ids, k len ids))
    (be_encode 2 (N.of_nat (length ids)) ++ concat ids ++ rest)
  = k (N.of_nat (length ids)) ids rest.
Proof.
  intros Hwf Hlen. unfold dec_bind. rewrite read_uint_app by apply length_be_encode.
  rewrite be_roundtrip2 by done. by rewrite Nat2N.id, read_ids_concat.
Qed.

Lemma dec_bind_byte {B} b rest (k : N → decoder B) :
  dec_bind (read_uint 1) k (b :: rest) = k b rest.
Proof. unfold dec_bind. by rewrite read_byte. Qed.

Lemma uint8_id x : x < 256 → uint8 x = x.
Proof. intros H. unfold uint8. by apply N.mod_small. Qed.

Lemma uint16_id x : x < 2 ^ 16 → uint16 x = x.
Proof. intros H. unfold uint16. by apply N.mod_small. Qed.

Definition list_fits (ids : list string) : Prop := ids_ok ids ∧ N.of_nat (length ids) < 2 ^ 16.

(** What the wire formats can carry: bases in a byte, masks in 32 bits, canonical
    id lists of at most 65535 ids. *)
Definition wire_ok (s : Scope) : Prop :=
  Base s < 256 ∧ VisBase s < 256 ∧ list_fits (IDs s) ∧ list_fits (VisIDs s) ∧
  Forall (λ o, ov_Caps o < 2 ^ 32 ∧ ov_Base o < 256 ∧ list_fits (ov_IDs o)) (Overrides s).

Lemma TaskScope_codec s buf :
  wire_ok s →
  ∃ bs, TaskScope_Append (ToWire s) buf = Some (buf ++ bs) ∧
    ∀ rest, TaskScope_Decode (bs ++ rest) = Some (ToWire s, rest).
Proof.
  intros (Hb & Hv & [Hi Hil] & [Hvi Hvil] & _).
  destruct (idsToWire_valid (IDs s) (proj1 Hi)) as (Hw1 & _ & Hl1).
  destruct (idsToWire_valid (VisIDs s) (proj1 Hvi)) as (Hw2 & _ & Hl2).
  set (ids := idsToWire (IDs s)) in *. set (vids := idsToWire (VisIDs s)) in *.
  set (f := set_flag (set_flag 0 6 (bool_bit (VisBasePresent s))) 7 (bool_bit (ExcludeSelf s))).
  exists ([Base s; VisBase s; f] ++ (be_encode 2 (N.of_nat (length vids)) ++ concat vids)
    ++ be_encode 2 (N.of_nat (length ids)) ++ concat ids).
  unfold TaskScope_Append, ToWire. fold ids vids f.
  cbn [ts_Base ts_VisBase ts_flags ts_VisIdsLen ts_VisIds ts_IdsLen ts_Ids].
  rewrite !uint8_id, !uint16_id by (lia || (rewrite ?Hl1, ?Hl2; done)).
  assert (uint8 (N.shiftl (flag f 7 .&. 1) 7) .|. uint8 (N.shiftl (flag f 6 .&. 1) 6) .|. (f .&. 63) = f) as ->
    by (unfold f; by destruct (VisBasePresent s), (ExcludeSelf s)).
  rewrite !append_list_ok. split; [by rewrite <-!app_assoc|].
  intros rest. unfold TaskScope_Decode. rewrite <-!app_assoc. cbn [app].
  rewrite !dec_bind_byte, !read_list_ok by (done || by rewrite ?Hl1, ?Hl2).
  unfold dec_ret. do 3 f_equal. unfold f. by destruct (VisBasePresent s), (ExcludeSelf s).
Qed.

Lemma WireOverride_codec s w buf :
  wire_ok s → w ∈ OverridesToWire s →
  ∃ bs, WireOverride_Append w buf = Some (buf ++ bs) ∧
    ∀ rest, WireOverride_Decode (bs ++ rest) = Some (w, rest).
Proof.
  intros (_ & _ & _ & _ & Hov) (o & -> & Ho)%list_elem_of_fmap.
  rewrite Forall_forall in Hov. destruct (Hov o Ho) as (Hc & Hb & [Hi Hil]). cbn zeta.
  destruct (idsToWire_valid (ov_IDs o) (proj1 Hi)) as (Hw1 & _ & Hl1).
  set (ids := idsToWire (ov_IDs o)) in *. set (f := set_flag 0 7 (bool_bit (ov_ExcludeSelf o))).
  exists (be_encode 4 (ov_Caps o) ++ [ov_Base o; f] ++ be_encode 2 (N.of_nat (length ids)) ++ concat ids).
  unfold WireOverride_Append. cbn [wo_Caps wo_Base wo_flags wo_IdsLen wo_Ids].
  rewrite uint8_id, uint16_id by (lia || (rewrite ?Hl1; done)).
  assert (uint32 (ov_Caps o) = ov_Caps o) as -> by (by apply N.mod_small).
  assert (uint8 (N.shiftl (flag f 7 .&. 1) 7) .|. (f .&. 127) = f) as ->
    by (unfold f; by destruct (ov_ExcludeSelf o)).
  rewrite append_list_ok. split; [by rewrite <-!app_assoc|].
  intros rest. unfold WireOverride_Decode. rewrite <-!app_assoc.
  unfold dec_bind at 1. rewrite read_uint_app by apply length_be_encode.
  rewrite be_roundtrip4 by done. cbn [app].
  rewrite !dec_bind_byte, read_list_ok by (done || by rewrite ?Hl1).
  unfold dec_ret. do 3 f_equal. unfold f. by destruct (ov_ExcludeSelf o).
Qed.

Lemma scope_struct_roundtrip s :
  ids_ok (IDs s) → ids_ok (VisIDs s) → Forall (λ o, ids_ok (ov_IDs o)) (Overrides s) →
  ScopeFromWire (ToWire s) (OverridesToWire s) = s.
Proof.
  intros Hi Hv Ho. unfold ScopeFromWire, ToWire, ts_VisBasePresent, ts_ExcludeSelf.
  cbn [ts_Base ts_VisBase ts_flags ts_VisIds ts_Ids]. rewrite !ids_wire_roundtrip by done.
  assert (∀ a b, negb (flag (set_flag (set_flag 0 6 (bool_bit a)) 7 (bool_bit b)) 6 =? 0) = a) as -> by by intros [] [].
  assert (∀ a b, negb (flag (set_flag (set_flag 0 6 (bool_bit a)) 7 (bool_bit b)) 7 =? 0) = b) as -> by by intros [] [].
  destruct s as [b ids vb vp ex vids ovs]. cbn in *. f_equal.
  unfold OverridesToWire. cbn [Overrides]. rewrite <-list_fmap_compose.
  induction Ho as [|o ovs Hoid _ IH]; [done|]. cbn. f_equal; [|by apply IH].
  unfold wo_ExcludeSelf. cbn. rewrite ids_wire_roundtrip by done.
  by destruct o as [? ? [] ?].
Qed.

(** ** Theorems *)

(** C35. A canonical scope survives the wire byte for byte: its scope and each of its
    overrides encode, the decoders read exactly those bytes back whatever
    follows them, and the decoded structs convert to the scope that was sent. *)
Theorem scope_wire_roundtrip (s : Scope) (buf : list N) :
  wire_ok s →
  (∃ bs, TaskScope_Append (ToWire s) buf = Some (buf ++ bs) ∧
     ∀ rest, TaskScope_Decode (bs ++ rest) = Some (ToWire s, rest)) ∧
  (∀ w, w ∈ OverridesToWire s → ∃ bs, WireOverride_Append w buf = Some (buf ++ bs) ∧
     ∀ rest, WireOverride_Decode (bs ++ rest) = Some (w, rest)) ∧
  ScopeFromWire (ToWire s) (OverridesToWire s) = s.
Proof.
  intros Hok. split; [by apply TaskScope_codec|]. split; [by intros w Hw; eapply WireOverride_codec|].
  destruct Hok as (_ & _ & [Hi _] & [Hv _] & Ho). apply scope_struct_roundtrip; [done..|].
  eapply Forall_impl; [exact Ho|]. intros o (_ & _ & [? _]). done.
Qed.

(** ** Concrete instances *)

Module SampleWire.
Definition a : string := "00000000000000000000000000000001".
Definition b : string := "0000000000000000000000000000000f".
Definition s : Scope :=
  mkScope ScopeBase_Subtree [a; b] ScopeBase_Global true true []
    [mkOverride Capability_Cancel ScopeBase_None true [b]].
End SampleWire.

Lemma sample_ids_ok ids :
  NormalizeIDs ids = ids → ids_ok ids.
Proof. intros <-. apply NormalizeIDs_ok. Qed.

Lemma scope_wire_roundtrip_witness :
  TaskScope_Append (ToWire SampleWire.s) [] =
    Some ([0; 2; 192; 0; 0; 0; 2] ++ (replicate 15 0 ++ [1]) ++ (replicate 15 0 ++ [15])) ∧
  ScopeFromWire (ToWire SampleWire.s) (OverridesToWire SampleWire.s) = SampleWire.s.
Proof.
  split; [by vm_compute|].
  apply (scope_wire_roundtrip SampleWire.s []).
  assert (∀ ids, NormalizeIDs ids = ids → N.of_nat (length ids) < 2 ^ 16 → list_fits ids) as Hf.
  { intros ids H ?. split; [by apply sample_ids_ok|done]. }
  unfold wire_ok. split_and!; [by vm_compute|by vm_compute|by apply Hf; vm_compute|by apply Hf; vm_compute|].
  apply Forall_singleton. split_and!; [by vm_compute|by vm_compute|by apply Hf; vm_compute].
Defined.
