(* ===== verification/Wal.v ===== *)
(** * Records of the write-ahead log: [server/wal.go], [server/scope.go]

    [WALEvent] is one record.  The keys of the scope, of the delegation bound and
    of the provenance stamp are grouped into three sub-records, written and read
    by the projections of [server/scope.go] and [server/taskstore.go].  Times are
    unix nanoseconds; the JSON text of a record is not modelled. *)

From stdpp Require Import prelude gmap strings list sorting pretty.
From Stdlib Require Import NArith ZArith.
From coqutil Require Import Datatypes.RecordSetters.
From S2P Require Import Prelude GoStrings Caps Scope Sets Attenuate Wire.

Import DoubleBraceUpdate.
Open Scope N_scope.
Open Scope stdpp_scope.
Set Default Goal Selector "!".

Arguments NormalizeIDs : simpl never.
Arguments uint8 : simpl never.
Arguments uint16 : simpl never.
Arguments uint32 : simpl never.
Arguments EncodeToString : simpl never.
Arguments DecodeString : simpl never.

(** [protocol.RunnerSelector]: the tagged union with its payloads. *)
Inductive RunnerSelector :=
  | SelAny
  | SelByRunnerId (id : list N)
  | SelByHostname (hostname : string)
  | SelByIp (ip : list N)
  | SelByConnId (transport : string) (ip : list N) (port unique : N).

Record WALScopeOverride := mkWALScopeOverride {
  wso_Caps : N;
  wso_Base : N;
  wso_ExcludeSelf : bool;
  wso_IDs : list string;
}.

(** The [scope_*] keys. *)
Record WALScope := mkWALScope {
  ws_Base : N;
  ws_IDs : list string;
  ws_VisBase : N;
  ws_VisBasePresent : bool;
  ws_ExcludeSelf : bool;
  ws_VisIDs : list string;
  ws_Overrides : list WALScopeOverride;
}.

(** The [delegate_*] keys. *)
Record WALDelegation := mkWALDelegation {
  wd_Caps : N;
  wd_Base : N;
  wd_VisBase : N;
  wd_VisBasePresent : bool;
  wd_ExcludeSelf : bool;
  wd_IDs : list string;
  wd_VisIDs : list string;
}.

(** The [authority_*] keys. *)
Record WALAuthority := mkWALAuthority {
  wa_Source : N;
  wa_Actor : string;
  wa_At : Z;
}.

Record WALEvent := mkWALEvent {
  ev_Type : string;
  ev_TaskID : string;
  ev_RunnerID : string;
  ev_RepoPath : string;
  ev_Prompt : string;
  ev_Kind : N;
  ev_OriginKind : N;
  ev_ResumedByKind : N;
  ev_CreatorTaskID : string;
  ev_Capabilities : N;
  ev_Scope : WALScope;
  ev_Delegate : WALDelegation;
  ev_AgentProfile : string;
  ev_SkillsInjected : bool;
  ev_WorktreeDir : string;
  ev_ExitCode : option Z;
  ev_DiffInfo : string;
  ev_BoundRunnerID : string;
  ev_Reason : string;
  ev_ExtraArgs : list string;
  ev_HoldID : string;
  ev_HoldDeadlineNs : Z;
  ev_Authority : WALAuthority;
  ev_Ts : Z;
  ev_Selector : RunnerSelector;
}.

Definition zeroWALScope : WALScope := mkWALScope 0 [] 0 false false [] [].
Definition zeroWALDelegation : WALDelegation := mkWALDelegation 0 0 0 false false [] [].
Definition zeroWALAuthority : WALAuthority := mkWALAuthority 0 "" 0.

(** A record of type [ty] about [id], every other key absent. *)
Definition walEvent (ty id : string) : WALEvent :=
  {| ev_Type := ty; ev_TaskID := id; ev_RunnerID := ""; ev_RepoPath := ""; ev_Prompt := "";
     ev_Kind := 0; ev_OriginKind := 0; ev_ResumedByKind := 0; ev_CreatorTaskID := "";
     ev_Capabilities := 0; ev_Scope := zeroWALScope; ev_Delegate := zeroWALDelegation;
     ev_AgentProfile := ""; ev_SkillsInjected := false; ev_WorktreeDir := ""; ev_ExitCode := None;
     ev_DiffInfo := ""; ev_BoundRunnerID := ""; ev_Reason := ""; ev_ExtraArgs := [];
     ev_HoldID := ""; ev_HoldDeadlineNs := 0; ev_Authority := zeroWALAuthority; ev_Ts := 0;
     ev_Selector := SelAny |}.

(** ** [server/scope.go] *)

Definition applyScopeToWAL (s : Scope) (ev : WALEvent) : WALEvent :=
  ev{{ ev_Scope :=
    {| ws_Base := uint8 (Base s); ws_IDs := IDs s; ws_VisBase := uint8 (VisBase s);
       ws_VisBasePresent := VisBasePresent s; ws_ExcludeSelf := ExcludeSelf s; ws_VisIDs := VisIDs s;
       ws_Overrides := (λ o, {| wso_Caps := uint32 (ov_Caps o); wso_Base := uint8 (ov_Base o);
                                wso_ExcludeSelf := ov_ExcludeSelf o; wso_IDs := ov_IDs o |})
                       <$> Overrides s |} }}.

Definition scopeFromWAL (ev : WALEvent) : Scope :=
  let w := ev_Scope ev in
  let s := {| Base := ws_Base w; IDs := NormalizeIDs (ws_IDs w); VisBase := ws_VisBase w;
              VisBasePresent := ws_VisBasePresent w; ExcludeSelf := ws_ExcludeSelf w;
              VisIDs := NormalizeIDs (ws_VisIDs w);
              Overrides := (λ o, {| ov_Caps := wso_Caps o; ov_Base := wso_Base o;
                                    ov_ExcludeSelf := wso_ExcludeSelf o;
                                    ov_IDs := NormalizeIDs (wso_IDs o) |}) <$> ws_Overrides w |} in
  if negb (VisBasePresent s) && negb (ev_Capabilities ev .&. Capability_BoardObserve =? 0)
  then set_vis s true ScopeBase_Global
  else s.

Definition applyDelegationToWAL (caps : N) (s : Scope) (ev : WALEvent) : WALEvent :=
  ev{{ ev_Delegate :=
    {| wd_Caps := uint32 caps; wd_Base := uint8 (Base s); wd_VisBase := uint8 (VisBase s);
       wd_VisBasePresent := VisBasePresent s; wd_ExcludeSelf := ExcludeSelf s;
       wd_IDs := IDs s; wd_VisIDs := VisIDs s |} }}.

Definition delegationFromWAL (ev : WALEvent) : N * Scope :=
  let w := ev_Delegate ev in
  (wd_Caps w,
   {| Base := wd_Base w; VisBase := wd_VisBase w; VisBasePresent := wd_VisBasePresent w;
      ExcludeSelf := wd_ExcludeSelf w; IDs := NormalizeIDs (wd_IDs w);
      VisIDs := NormalizeIDs (wd_VisIDs w); Overrides := [] |}).

(** ** Round trips *)

(** A scope a record holds without loss. *)
Definition wal_ok (s : Scope) : Prop :=
  Base s < 256 ∧ VisBase s < 256 ∧ ids_ok (IDs s) ∧ ids_ok (VisIDs s) ∧
  Forall (λ o, ov_Caps o < 2 ^ 32 ∧ ov_Base o < 256 ∧ ids_ok (ov_IDs o)) (Overrides s).

(** What a replay makes of a scope recorded beside a capability mask: a mask with
    [board_observe] and no visibility axis reads back with global visibility. *)
Definition replayed_scope (caps : N) (s : Scope) : Scope :=
  if negb (VisBasePresent s) && has caps Capability_BoardObserve
  then set_vis s true ScopeBase_Global else s.

Lemma uint32_id x : x < 2 ^ 32 → uint32 x = x.
Proof. intros H. by apply N.mod_small. Qed.

Lemma scope_wal_roundtrip_gen s ev :
  wal_ok s →
  scopeFromWAL (applyScopeToWAL s ev) = replayed_scope (ev_Capabilities ev) s.
Proof.
  intros (Hb & Hv & Hi & Hvi & Ho). unfold scopeFromWAL, applyScopeToWAL. cbn.
  rewrite !uint8_id, !NormalizeIDs_fixed by done. rewrite <-list_fmap_compose.
  assert ((λ o : ScopeOverride, mkOverride (uint32 (ov_Caps o)) (uint8 (ov_Base o)) (ov_ExcludeSelf o)
    (NormalizeIDs (ov_IDs o))) <$> Overrides s = Overrides s) as HO.
  { rewrite <-(list_fmap_id (Overrides s)) at 2. apply list_fmap_ext. intros i o Hl.
    rewrite Forall_forall in Ho. destruct (Ho o) as (? & ? & ?); [by eapply list_elem_of_lookup_2|].
    rewrite uint8_id, uint32_id, NormalizeIDs_fixed by done. by destruct o. }
  unfold compose. cbn. unfold replayed_scope, has. rewrite HO.
  destruct s as [? ? ? [] ? ? ?]; done.
Qed.

Lemma delegation_wal_roundtrip caps s ev :
  wal_ok s → Overrides s = [] → caps < 2 ^ 32 →
  delegationFromWAL (applyDelegationToWAL caps s ev) = (caps, s).
Proof.
  intros (Hb & Hv & Hi & Hvi & _) Ho Hc. unfold delegationFromWAL, applyDelegationToWAL. cbn.
  rewrite !uint8_id, uint32_id, !NormalizeIDs_fixed by done.
  destruct s. cbn in *. by subst.
Qed.
