(* ===== verification/TaskStore.v ===== *)
(** * The task store: [server/taskstore.go]

    The in-memory authority for every task's lifecycle.  [Store] holds the task
    map, the insertion order, the attached log and the hook calls made so far;
    each operation of the source is a function on it.  A call reads the clock
    where the source does: every [time.Now()] is an argument, in nanoseconds, and
    so is the random id of [Create].  A log write always succeeds here (the source
    logs a failed one and carries on), and the log files [Prune*] delete are
    outside the model. *)

From stdpp Require Import prelude gmap strings list sorting pretty.
From Stdlib Require Import NArith ZArith.
From coqutil Require Import Datatypes.RecordSetters.
From S2P Require Import Prelude GoStrings Caps Scope Sets Attenuate Delegate Wire Wal.

Import DoubleBraceUpdate.
Open Scope N_scope.
Open Scope stdpp_scope.
Set Default Goal Selector "!".

(** ** Data *)

Inductive TaskStatus :=
  | Queued | Running | Succeeded | Failed | Cancelled | Detached | Held.

#[export] Instance TaskStatus_eq_dec : EqDecision TaskStatus.
Proof. solve_decision. Defined.

(** [protocol.AuthoritySource]. *)
Definition AuthoritySource_Spawn : N := 1.
Definition AuthoritySource_OperatorSpawn : N := 2.
Definition AuthoritySource_Resume : N := 5.

Record TaskEntry := mkTaskEntry {
  te_ID : string;
  te_RepoPath : string;
  te_Prompt : string;
  te_Kind : N;
  te_OriginKind : N;
  te_ResumedByKind : N;
  te_CreatorTaskID : TaskID;
  te_Capabilities : N;
  te_Scope : Scope;
  te_DelegateCaps : N;
  te_DelegateScope : Scope;
  te_AuthoritySource : N;
  te_AuthorityActor : TaskID;
  te_AuthorityAt : option Z;
  te_AgentProfile : string;
  te_SkillsInjected : bool;
  te_Status : TaskStatus;
  te_AssignedTo : list N;
  te_WorktreeDir : string;
  te_CreatedAt : Z;
  te_StartedAt : option Z;
  te_EndedAt : option Z;
  te_ExitCode : option Z;
  te_ErrorMsg : string;
  te_Selector : RunnerSelector;
  te_BoundRunnerID : string;
  te_ExtraArgs : list string;
  te_ResumeConversation : bool;
  te_IsAttached : bool;
  te_DetachedAt : Z;
  te_HoldID : string;
  te_HoldDeadline : Z;
  te_RingBufferBytes : N;
  te_Progress : string;
  te_ProgressAt : Z;
  te_Lifecycle : N;
  te_LifecycleAt : Z;
  te_LifecycleReportedAt : Z;
}.

(** The zero [TaskEntry]. *)
Definition zeroEntry : TaskEntry :=
  {| te_ID := ""; te_RepoPath := ""; te_Prompt := ""; te_Kind := 0; te_OriginKind := 0;
     te_ResumedByKind := 0; te_CreatorTaskID := zeroID; te_Capabilities := 0; te_Scope := zeroScope;
     te_DelegateCaps := 0; te_DelegateScope := zeroScope; te_AuthoritySource := 0;
     te_AuthorityActor := zeroID; te_AuthorityAt := None; te_AgentProfile := "";
     te_SkillsInjected := false; te_Status := Queued; te_AssignedTo := zeroID; te_WorktreeDir := "";
     te_CreatedAt := 0; te_StartedAt := None; te_EndedAt := None; te_ExitCode := None;
     te_ErrorMsg := ""; te_Selector := SelAny; te_BoundRunnerID := ""; te_ExtraArgs := [];
     te_ResumeConversation := false; te_IsAttached := false; te_DetachedAt := 0; te_HoldID := "";
     te_HoldDeadline := 0; te_RingBufferBytes := 0; te_Progress := ""; te_ProgressAt := 0;
     te_Lifecycle := 0; te_LifecycleAt := 0; te_LifecycleReportedAt := 0 |}.

(** The hooks of [TaskStore], as the calls made. *)
Inductive hook :=
  | OnCreate (id : string)
  | OnAssign (id runner worktreeDir : string)
  | OnFinish (id : string) (exit : Z) (status : TaskStatus)
  | OnCancel (id : string)
  | OnCancelRepeated (id : string)
  | OnHold (id : string)
  | OnReadopt (id : string) (status : TaskStatus)
  | OnPrune (id : string).

Record Store := mkStore {
  st_tasks : gmap string TaskEntry;
  st_order : list string;
  st_wal : option (list WALEvent);
  st_calls : list hook;
}.

Definition NewTaskStore : Store := mkStore ∅ [] None [].
Definition SetWAL (w : option (list WALEvent)) (s : Store) : Store := s{{ st_wal := w }}.

(** [WAL.Write]: a record without a stamp gets the writer's clock. *)
Definition wal_write (now : Z) (ev : WALEvent) (s : Store) : Store :=
  match st_wal s with
  | None => s
  | Some l => s{{ st_wal := Some (l ++ [if (ev_Ts ev =? 0)%Z then ev{{ ev_Ts := now }} else ev]) }}
  end.

Definition call (h : hook) (s : Store) : Store := s{{ st_calls := st_calls s ++ [h] }}.
Definition put (id : string) (e : TaskEntry) (s : Store) : Store :=
  s{{ st_tasks := <[id := e]> (st_tasks s) }}.

(** ** Small helpers *)

Definition taskIDFromHex (h : string) : TaskID := copy16 (hex_prefix (chars h)).

(** [""] for the zero id, its hex otherwise. *)
Definition creatorHex (id : TaskID) : string :=
  if bool_decide (id = zeroID) then "" else EncodeToString id.

Record AuthorityWrite := mkAuthorityWrite { aw_Source : N; aw_Actor : TaskID }.

Definition stampAuthority (now : Z) (by_ : AuthorityWrite) (e : TaskEntry) : TaskEntry :=
  e{{ te_AuthoritySource := aw_Source by_; te_AuthorityActor := aw_Actor by_;
      te_AuthorityAt := Some now }}.

Definition applyAuthorityToWAL (e : TaskEntry) (ev : WALEvent) : WALEvent :=
  ev{{ ev_Authority :=
    {| wa_Source := uint8 (te_AuthoritySource e);
       wa_Actor := creatorHex (te_AuthorityActor e);
       wa_At := match te_AuthorityAt e with Some t => t | None => 0%Z end |} }}.

Definition authorityFromWAL (ev : WALEvent) (e : TaskEntry) : TaskEntry :=
  let w := ev_Authority ev in
  e{{ te_AuthoritySource := wa_Source w; te_AuthorityActor := taskIDFromHex (wa_Actor w);
      te_AuthorityAt := if negb (wa_At w =? 0)%Z then Some (wa_At w) else None }}.

Record GrantUpdate := mkGrantUpdate {
  gu_Caps : bool; gu_Scope : bool; gu_DelegateCaps : bool; gu_DelegateScope : bool; gu_To : Grant }.

Definition GrantUpdate_Any (u : GrantUpdate) : bool :=
  gu_Caps u || gu_Scope u || gu_DelegateCaps u || gu_DelegateScope u.

Definition applyBound (u : GrantUpdate) (e : TaskEntry) : TaskEntry :=
  let e := if gu_DelegateCaps u then e{{ te_DelegateCaps := g_DelegateCaps (gu_To u) }} else e in
  if gu_DelegateScope u then e{{ te_DelegateScope := g_DelegateScope (gu_To u) }} else e.

(** The first halves of a [GrantUpdate], as [SetCaps] and [Resume] write them. *)
Definition applyCaps (u : GrantUpdate) (e : TaskEntry) : TaskEntry :=
  let e := if gu_Caps u then e{{ te_Capabilities := g_Caps (gu_To u) }} else e in
  if gu_Scope u then e{{ te_Scope := g_Scope (gu_To u) }} else e.

Definition TaskEntry_Grant (e : TaskEntry) : Grant :=
  mkGrant (te_Capabilities e) (te_Scope e) (te_DelegateCaps e) (te_DelegateScope e).

Definition terminal (st : TaskStatus) : bool :=
  match st with Succeeded | Failed | Cancelled => true | _ => false end.

(** ** Creation and authority *)

Definition Create (id : string) (tCreated tStamp tWal : Z) (repo prompt : string) (kind origin : N)
    (creator : TaskID) (boundRunnerID : string) (selector : RunnerSelector) (extraArgs : list string)
    (g : Grant) (agentProfile : string) (s : Store) : Store :=
  let e := zeroEntry{{ te_ID := id; te_RepoPath := repo; te_Prompt := prompt; te_Kind := kind;
    te_OriginKind := origin; te_CreatorTaskID := creator; te_Capabilities := g_Caps g;
    te_Scope := g_Scope g; te_DelegateCaps := g_DelegateCaps g;
    te_DelegateScope := g_DelegateScope g; te_AgentProfile := agentProfile; te_Status := Queued;
    te_CreatedAt := tCreated; te_BoundRunnerID := boundRunnerID; te_Selector := selector;
    te_ExtraArgs := extraArgs }} in
  let e := if bool_decide (creator = zeroID)
           then stampAuthority tStamp (mkAuthorityWrite AuthoritySource_OperatorSpawn zeroID) e
           else stampAuthority tStamp (mkAuthorityWrite AuthoritySource_Spawn creator) e in
  let s := put id e s in
  let s := s{{ st_order := st_order s ++ [id] }} in
  let ev := (walEvent "task_created" id){{ ev_RepoPath := repo; ev_Prompt := prompt;
    ev_Kind := uint8 kind; ev_OriginKind := uint8 origin; ev_CreatorTaskID := creatorHex creator;
    ev_BoundRunnerID := boundRunnerID; ev_Selector := selector; ev_ExtraArgs := extraArgs;
    ev_Capabilities := uint32 (g_Caps g); ev_AgentProfile := agentProfile }} in
  let ev := applyScopeToWAL (g_Scope g) ev in
  let ev := applyDelegationToWAL (g_DelegateCaps g) (g_DelegateScope g) ev in
  let ev := applyAuthorityToWAL e ev in
  call (OnCreate id) (wal_write tWal ev s).

Definition writeCapsChangedLocked (tWal : Z) (e : TaskEntry) (s : Store) : Store :=
  let ev := (walEvent "task_caps_changed" (te_ID e)){{ ev_Capabilities := uint32 (te_Capabilities e) }} in
  let ev := applyScopeToWAL (te_Scope e) ev in
  let ev := applyDelegationToWAL (te_DelegateCaps e) (te_DelegateScope e) ev in
  wal_write tWal (applyAuthorityToWAL e ev) s.

Definition SetCaps (tStamp tWal : Z) (id : string) (u : GrantUpdate) (by_ : AuthorityWrite) (s : Store)
    : Store * option TaskEntry :=
  match st_tasks s !! id with
  | None => (s, None)
  | Some e =>
      let e := stampAuthority tStamp by_ (applyBound u (applyCaps u e)) in
      (writeCapsChangedLocked tWal e (put id e s), Some e)
  end.

Definition writeParentChangedLocked (tWal : Z) (e : TaskEntry) (s : Store) : Store :=
  wal_write tWal
    (walEvent "task_parent_changed" (te_ID e)){{ ev_CreatorTaskID := creatorHex (te_CreatorTaskID e) }} s.

Definition SetParent (tWal : Z) (id : string) (parent : TaskID) (s : Store) : Store * option TaskEntry :=
  match st_tasks s !! id with
  | None => (s, None)
  | Some e =>
      let e := e{{ te_CreatorTaskID := parent }} in
      (writeParentChangedLocked tWal e (put id e s), Some e)
  end.

Inductive swap_error := ErrSwapNotFound | ErrSwapNoParent | ErrSwapParentMissing.

(** [t] and [p] are pointers into the map: when a task is its own parent the two
    assignments land on one entry, the later winning. *)
Definition SwapWithParent (tWal1 tWal2 : Z) (id : string) (s : Store)
    : Store * result swap_error (TaskEntry * TaskEntry) :=
  match st_tasks s !! id with
  | None => (s, Err ErrSwapNotFound)
  | Some t =>
      if bool_decide (te_CreatorTaskID t = zeroID) then (s, Err ErrSwapNoParent)
      else
        let pHex := EncodeToString (te_CreatorTaskID t) in
        match st_tasks s !! pHex with
        | None => (s, Err ErrSwapParentMissing)
        | Some p =>
            let tid := taskIDFromHex id in
            if bool_decide (tid = zeroID) then (s, Err ErrSwapNotFound)
            else
              let grand := te_CreatorTaskID p in
              let t := t{{ te_CreatorTaskID := grand }} in
              let s := put id t s in
              let p := (if bool_decide (pHex = id) then t else p){{ te_CreatorTaskID := tid }} in
              let s := put pHex p s in
              let t := if bool_decide (pHex = id) then p else t in
              let s := writeParentChangedLocked tWal1 t s in
              let s := writeParentChangedLocked tWal2 p s in
              (s, Ok (t, p))
        end
  end.

(** ** Self-reported state, memory only *)

Definition SetProgress (id text : string) (at_ : Z) (s : Store) : Store * option TaskEntry :=
  match st_tasks s !! id with
  | None => (s, None)
  | Some t =>
      let at_ := if (at_ <=? te_ProgressAt t)%Z then (te_ProgressAt t + 1)%Z else at_ in
      let t := t{{ te_Progress := text; te_ProgressAt := at_ }} in
      (put id t s, Some t)
  end.

Inductive LifecycleSetStatus := LifecycleNotFound | LifecycleStale | LifecycleOk.

Definition SetLifecycle (id : string) (st : N) (reportedAt at_ : Z) (s : Store)
    : Store * (option TaskEntry * LifecycleSetStatus) :=
  match st_tasks s !! id with
  | None => (s, (None, LifecycleNotFound))
  | Some t =>
      if (reportedAt <? te_LifecycleReportedAt t)%Z then (s, (Some t, LifecycleStale))
      else
        let at_ := if (at_ <=? te_LifecycleAt t)%Z then (te_LifecycleAt t + 1)%Z else at_ in
        let t := t{{ te_Lifecycle := st; te_LifecycleAt := at_; te_LifecycleReportedAt := reportedAt }} in
        (put id t s, (Some t, LifecycleOk))
  end.

Record progressLine := mkProgressLine {
  pl_TaskID : string; pl_Progress : string; pl_ProgressAt : Z;
  pl_Lifecycle : N; pl_LifecycleAt : Z; pl_LifecycleReportedAt : Z }.

Definition progressLines (s : Store) : list progressLine :=
  omap (λ '(id, t),
    if negb (te_ProgressAt t =? 0)%Z || negb (te_LifecycleAt t =? 0)%Z
    then Some (mkProgressLine id (te_Progress t) (te_ProgressAt t) (uint8 (te_Lifecycle t))
                 (te_LifecycleAt t) (te_LifecycleReportedAt t))
    else None) (map_to_list (st_tasks s)).

Definition restoreProgress (l : progressLine) (s : Store) : Store * bool :=
  match st_tasks s !! pl_TaskID l with
  | None => (s, false)
  | Some t =>
      (put (pl_TaskID l) t{{ te_Progress := pl_Progress l; te_ProgressAt := pl_ProgressAt l;
         te_Lifecycle := pl_Lifecycle l; te_LifecycleAt := pl_LifecycleAt l;
         te_LifecycleReportedAt := pl_LifecycleReportedAt l }} s, true)
  end.

Definition SetWorktreeDir (id wt : string) (s : Store) : Store * bool :=
  match st_tasks s !! id with
  | None => (s, false)
  | Some t => (put id t{{ te_WorktreeDir := wt }} s, true)
  end.

Definition SetResumeConversation (id : string) (b : bool) (s : Store) : Store * bool :=
  match st_tasks s !! id with
  | None => (s, false)
  | Some t => (put id t{{ te_ResumeConversation := b }} s, true)
  end.

Definition SetRingBufferBytes (id : string) (n : N) (s : Store) : Store * bool :=
  match st_tasks s !! id with
  | None => (s, false)
  | Some t => (put id t{{ te_RingBufferBytes := n }} s, true)
  end.

(** ** Lifecycle transitions *)

Inductive ResumeError := ResumeErrNotFound | ResumeErrNotTerminal.

Definition Resume (tWal tStamp tWal2 : Z) (id prompt : string) (extraArgs : list string)
    (selector : RunnerSelector) (boundRunnerID : string) (resumerKind : N) (u : GrantUpdate)
    (newKind : N) (agentProfile : string) (resumer : TaskID) (s : Store)
    : Store * result ResumeError TaskEntry :=
  match st_tasks s !! id with
  | None => (s, Err ResumeErrNotFound)
  | Some e =>
      if negb (terminal (te_Status e)) then (s, Err ResumeErrNotTerminal)
      else
        let e := e{{ te_Status := Queued; te_AssignedTo := zeroID; te_WorktreeDir := "";
          te_StartedAt := None; te_EndedAt := None; te_ExitCode := None; te_ErrorMsg := "";
          te_Prompt := prompt; te_ExtraArgs := extraArgs; te_ResumeConversation := false;
          te_Selector := selector; te_BoundRunnerID := boundRunnerID;
          te_ResumedByKind := resumerKind; te_Kind := newKind; te_AgentProfile := agentProfile;
          te_LifecycleReportedAt := 0%Z }} in
        let s := put id e s in
        let s := wal_write tWal (walEvent "task_resumed" id){{ ev_Prompt := prompt;
          ev_ExtraArgs := extraArgs; ev_Selector := selector; ev_BoundRunnerID := boundRunnerID;
          ev_ResumedByKind := uint8 resumerKind; ev_Kind := uint8 newKind;
          ev_AgentProfile := agentProfile }} s in
        if GrantUpdate_Any u then
          let e := stampAuthority tStamp (mkAuthorityWrite AuthoritySource_Resume resumer)
                     (applyBound u (applyCaps u e)) in
          let s := writeCapsChangedLocked tWal2 e (put id e s) in
          (call (OnCreate id) s, Ok e)
        else (call (OnCreate id) s, Ok e)
  end.

Definition PeekRepo (id : string) (s : Store) : option (string * N) :=
  (λ e, (te_RepoPath e, te_Kind e)) <$> st_tasks s !! id.

Definition Get (id : string) (s : Store) : option TaskEntry := st_tasks s !! id.

Definition Assign (now tWal : Z) (id : string) (runner : list N) (worktreeDir : string)
    (skillsInjected : bool) (s : Store) : Store :=
  match st_tasks s !! id with
  | None => s
  | Some e =>
      let wasDetached := bool_decide (te_Status e = Detached) in
      let e := e{{ te_Status := Running; te_AssignedTo := runner; te_WorktreeDir := worktreeDir;
                   te_SkillsInjected := skillsInjected }} in
      if negb wasDetached then
        let s := put id e{{ te_StartedAt := Some now }} s in
        let s := wal_write tWal (walEvent "task_assigned" id){{ ev_RunnerID := EncodeToString runner;
          ev_WorktreeDir := worktreeDir; ev_SkillsInjected := skillsInjected; ev_Ts := now }} s in
        call (OnAssign id (EncodeToString runner) worktreeDir) s
      else put id e{{ te_DetachedAt := 0%Z; te_IsAttached := true }} s
  end.

Definition Finish (now tWal : Z) (id : string) (exit : Z) (errorMsg : string) (s : Store) : Store :=
  match st_tasks s !! id with
  | None => s
  | Some e =>
      match te_Status e with
      | Succeeded | Failed => s
      | _ =>
          let finalStatus := if (exit =? 0)%Z then Succeeded else Failed in
          let s := put id e{{ te_Status := finalStatus; te_IsAttached := false;
            te_ExitCode := Some exit; te_ErrorMsg := errorMsg; te_EndedAt := Some now }} s in
          let s := wal_write tWal (walEvent "task_finished" id){{ ev_ExitCode := Some exit;
            ev_DiffInfo := errorMsg; ev_Ts := now }} s in
          call (OnFinish id exit finalStatus) s
      end
  end.

Definition Cancel (now tWal : Z) (id : string) (s : Store) : Store :=
  match st_tasks s !! id with
  | None => s
  | Some e =>
      match te_Status e with
      | Succeeded | Failed => s
      | Cancelled => call (OnCancelRepeated id) s
      | _ =>
          let s := put id e{{ te_Status := Cancelled; te_IsAttached := false;
                              te_EndedAt := Some now }} s in
          let s := wal_write tWal (walEvent "task_cancelled" id){{ ev_Ts := now }} s in
          call (OnCancel id) s
      end
  end.

Definition MarkFailed (now tWal : Z) (id reason : string) (s : Store) : Store :=
  match st_tasks s !! id with
  | None => s
  | Some e =>
      match te_Status e with
      | Succeeded | Failed | Cancelled | Held => s
      | _ =>
          let s := put id e{{ te_Status := Failed; te_IsAttached := false;
                              te_EndedAt := Some now; te_ErrorMsg := reason }} s in
          let s := wal_write tWal (walEvent "task_failed" id){{ ev_Reason := reason; ev_Ts := now }} s in
          call (OnFinish id (-1) Failed) s
      end
  end.

(** The errors of the transitions that refuse: the task is missing, or its status
    is not one the transition starts from. *)
Inductive status_error := TaskNotFound | WrongStatus (st : TaskStatus).

Definition SetDetached (now : Z) (id : string) (s : Store) : Store * option status_error :=
  match st_tasks s !! id with
  | None => (s, Some TaskNotFound)
  | Some t =>
      if negb (bool_decide (te_Status t = Running)) then (s, Some (WrongStatus (te_Status t)))
      else (put id t{{ te_Status := Detached; te_IsAttached := false; te_DetachedAt := now }} s, None)
  end.

Definition CountByStatus (st : TaskStatus) (s : Store) : nat :=
  size (filter (λ kv, te_Status kv.2 = st) (st_tasks s)).

Definition FailHeld (now tWal : Z) (id reason : string) (s : Store) : Store :=
  match st_tasks s !! id with
  | None => s
  | Some e =>
      if negb (bool_decide (te_Status e = Held)) then s
      else
        let s := put id e{{ te_Status := Failed; te_IsAttached := false; te_EndedAt := Some now;
          te_ErrorMsg := reason; te_HoldID := ""; te_HoldDeadline := 0%Z }} s in
        let s := wal_write tWal (walEvent "task_failed" id){{ ev_Reason := reason; ev_Ts := now }} s in
        call (OnFinish id (-1) Failed) s
  end.

Definition MarkHold (tWal : Z) (id runnerIdentityHex holdIDHex : string) (deadlineNs : Z) (s : Store)
    : Store * option status_error :=
  match st_tasks s !! id with
  | None => (s, Some TaskNotFound)
  | Some t =>
      if negb (bool_decide (te_Status t = Running)) && negb (bool_decide (te_Status t = Detached))
      then (s, Some (WrongStatus (te_Status t)))
      else
        let s := put id t{{ te_Status := Held; te_HoldID := holdIDHex; te_HoldDeadline := deadlineNs }} s in
        let s := wal_write tWal (walEvent "task_held" id){{ ev_RunnerID := runnerIdentityHex;
          ev_HoldID := holdIDHex; ev_HoldDeadlineNs := deadlineNs; ev_Ts := tWal }} s in
        (call (OnHold id) s, None)
  end.

Definition MarkReadopted (now tWal : Z) (id runnerIdentityHex holdIDHex : string) (detached : bool)
    (s : Store) : Store * option status_error :=
  match st_tasks s !! id with
  | None => (s, Some TaskNotFound)
  | Some t =>
      if negb (bool_decide (te_Status t = Held)) then (s, Some (WrongStatus (te_Status t)))
      else
        let t := t{{ te_Status := Running }} in
        let t := if detached
                 then t{{ te_Status := Detached; te_IsAttached := false; te_DetachedAt := now }}
                 else t in
        let t := t{{ te_HoldID := ""; te_HoldDeadline := 0%Z }} in
        let s := put id t s in
        let s := wal_write tWal (walEvent "task_readopted" id){{ ev_RunnerID := runnerIdentityHex;
          ev_HoldID := holdIDHex; ev_Ts := now }} s in
        (call (OnReadopt id (te_Status t)) s, None)
  end.

Definition MarkAttached (id : string) (attached : bool) (s : Store) : Store * bool :=
  match st_tasks s !! id with
  | None => (s, false)
  | Some t =>
      let t := t{{ te_IsAttached := attached }} in
      let t := if attached && bool_decide (te_Status t = Detached)
               then t{{ te_Status := Running; te_DetachedAt := 0%Z }} else t in
      (put id t s, true)
  end.

(** ** Selection and listing *)

(** [eligible = None] is the nil predicate. *)
Definition NextQueuedForRepoFunc (repo : string) (eligible : option (TaskEntry → bool)) (s : Store)
    : option TaskEntry :=
  find_first (λ e,
    bool_decide (te_RepoPath e = repo) && bool_decide (te_Status e = Queued)
    && match eligible with Some f => f e | None => true end)
    (omap (λ id, st_tasks s !! id) (st_order s)).

Definition NextQueuedForRepo (repo : string) (s : Store) : option TaskEntry :=
  NextQueuedForRepoFunc repo None s.

Definition List_ (limit : Z) (s : Store) : list TaskEntry :=
  let total := length (st_order s) in
  let start := if (0 <? limit)%Z && (limit <? Z.of_nat total)%Z
               then (total - Z.to_nat limit)%nat else O in
  omap (λ id, st_tasks s !! id) (drop start (st_order s)).

(** ** Pruning; [allowed = None] is the nil map *)

Definition in_allowed (allowed : option (gset string)) (id : string) : bool :=
  match allowed with None => true | Some m => bool_decide (id ∈ m) end.

Record prune_counts := mkPruneCounts {
  pc_pruned : list string; pc_skippedActive : nat; pc_skippedMissing : nat }.

(** One round of the id loop of [PruneByIDs]. *)
Definition prune_one (allowed : option (gset string)) (force : bool)
    (acc : gmap string TaskEntry * prune_counts) (id : string)
    : gmap string TaskEntry * prune_counts :=
  let '(tasks, c) := acc in
  if negb (in_allowed allowed id) then (tasks, c{{ pc_skippedMissing ::= S }})
  else match tasks !! id with
  | None => (tasks, c{{ pc_skippedMissing ::= S }})
  | Some t =>
      if negb (terminal (te_Status t)) && negb force then (tasks, c{{ pc_skippedActive ::= S }})
      else (delete id tasks, c{{ pc_pruned := pc_pruned c ++ [id] }})
  end.

(** The records and hook calls of the pruned ids. *)
Definition log_pruned (now : Z) (pruned : list string) (s : Store) : Store :=
  let s := foldl (λ s id, wal_write now (walEvent "task_pruned" id){{ ev_Ts := now }} s) s pruned in
  foldl (λ s id, call (OnPrune id) s) s pruned.

Definition PruneByIDs (now : Z) (allowed : option (gset string)) (ids : list string) (force : bool)
    (s : Store) : Store * (nat * nat * nat) :=
  let '(tasks, c) := foldl (prune_one allowed force) (st_tasks s, mkPruneCounts [] 0 0) ids in
  let drop := list_to_set (pc_pruned c) : gset string in
  let s := s{{ st_tasks := tasks;
               st_order := filter (λ id, id ∉ drop) (st_order s) }} in
  (log_pruned now (pc_pruned c) s, (length (pc_pruned c), pc_skippedActive c, pc_skippedMissing c)).

(** One round of the sweep of [PruneTerminal]. *)
Definition prune_terminal_one (allowed : option (gset string)) (cutoff : Z)
    (acc : gmap string TaskEntry * list string * list string) (id : string)
    : gmap string TaskEntry * list string * list string :=
  let '(tasks, keep, pruned) := acc in
  match tasks !! id with
  | None => (tasks, keep, pruned)
  | Some t =>
      if negb (in_allowed allowed id) then (tasks, keep ++ [id], pruned)
      else if terminal (te_Status t)
              && match te_EndedAt t with Some e => (e <? cutoff)%Z | None => false end
      then (delete id tasks, keep, pruned ++ [id])
      else (tasks, keep ++ [id], pruned)
  end.

Definition PruneTerminal (now : Z) (allowed : option (gset string)) (cutoff : Z) (s : Store)
    : Store * nat :=
  let '(tasks, keep, pruned) :=
    foldl (prune_terminal_one allowed cutoff) (st_tasks s, [], []) (st_order s) in
  (log_pruned now pruned s{{ st_tasks := tasks; st_order := keep }}, length pruned).
