(* ===== verification/Replay.v ===== *)
(** * Rebuilding the store from the log: [ReplayEvents], [server/restore.go]

    [ReplayEvents] folds the records over an empty store and fails what was still
    running; [RestoreFromWAL] brings pruned tasks back.  The main theorem is a
    refinement: after any sequence of operations on a logged store, replaying the
    log gives back the same tasks in the same order, each with the recorded half
    of its entry. *)

From stdpp Require Import prelude gmap strings list sorting pretty.
From Stdlib Require Import NArith ZArith.
From coqutil Require Import Datatypes.RecordSetters.
From S2P Require Import Prelude GoStrings Caps Scope Sets Attenuate Delegate Wire Wal TaskStore.

Import DoubleBraceUpdate.
Open Scope N_scope.
Open Scope stdpp_scope.
Set Default Goal Selector "!".

(** ** Definitions *)

(** The hex of a parent link: [""] and anything but 16 decodable bytes is the
    zero id. *)
Definition parentFromHex (h : string) : TaskID :=
  if negb (bool_decide (h = "")) then
    match DecodeString h with
    | Some raw => if bool_decide (length raw = 16%nat) then copy16 raw else zeroID
    | None => zeroID
    end
  else zeroID.

(** [protocol.RunnerIDFromHex]; [None] is the error. *)
Definition RunnerIDFromHex (h : string) : option (list N) :=
  if negb (bool_decide (String.length h = 32%nat)) then None
  else match DecodeString h with Some raw => Some (copy16 raw) | None => None end.

Definition entryFromWAL (ev : WALEvent) : TaskEntry :=
  let e := zeroEntry{{ te_ID := ev_TaskID ev; te_RepoPath := ev_RepoPath ev;
    te_Prompt := ev_Prompt ev; te_Kind := ev_Kind ev; te_OriginKind := ev_OriginKind ev;
    te_CreatorTaskID := parentFromHex (ev_CreatorTaskID ev);
    te_Capabilities := ev_Capabilities ev; te_Scope := scopeFromWAL ev;
    te_AgentProfile := ev_AgentProfile ev; te_Status := Queued; te_CreatedAt := ev_Ts ev;
    te_BoundRunnerID := ev_BoundRunnerID ev; te_Selector := ev_Selector ev;
    te_ExtraArgs := ev_ExtraArgs ev }} in
  let e := authorityFromWAL ev e in
  e{{ te_DelegateCaps := (delegationFromWAL ev).1; te_DelegateScope := (delegationFromWAL ev).2 }}.

(** What a record does to the entry it names, for the records that edit one. *)
Definition editFromWAL (ev : WALEvent) (t : TaskEntry) : option TaskEntry :=
  let ty := ev_Type ev in
  if String.eqb ty "task_assigned" then
    let t := t{{ te_Status := Running }} in
    let t := match RunnerIDFromHex (ev_RunnerID ev) with
             | Some rid => t{{ te_AssignedTo := rid }}
             | None => t
             end in
    Some t{{ te_WorktreeDir := ev_WorktreeDir ev; te_SkillsInjected := ev_SkillsInjected ev;
             te_StartedAt := Some (ev_Ts ev) }}
  else if String.eqb ty "task_finished" then
    let t := t{{ te_Status := Succeeded }} in
    let t := match ev_ExitCode ev with
             | Some c =>
                 let t := t{{ te_ExitCode := Some c }} in
                 if negb (c =? 0)%Z then t{{ te_Status := Failed }} else t
             | None => t
             end in
    Some t{{ te_ErrorMsg := ev_DiffInfo ev; te_EndedAt := Some (ev_Ts ev) }}
  else if String.eqb ty "task_held" then
    Some t{{ te_Status := Held; te_HoldID := ev_HoldID ev; te_HoldDeadline := ev_HoldDeadlineNs ev }}
  else if String.eqb ty "task_readopted" then
    Some t{{ te_Status := Running; te_HoldID := ""; te_HoldDeadline := 0%Z }}
  else if String.eqb ty "task_cancelled" then
    Some t{{ te_Status := Cancelled; te_EndedAt := Some (ev_Ts ev) }}
  else if String.eqb ty "task_failed" then
    Some t{{ te_Status := Failed; te_EndedAt := Some (ev_Ts ev); te_ErrorMsg := ev_Reason ev }}
  else if String.eqb ty "task_resumed" then
    Some t{{ te_Status := Queued; te_AssignedTo := zeroID; te_WorktreeDir := "";
      te_StartedAt := None; te_EndedAt := None; te_ExitCode := None; te_ErrorMsg := "";
      te_Prompt := ev_Prompt ev; te_ExtraArgs := ev_ExtraArgs ev; te_Selector := ev_Selector ev;
      te_BoundRunnerID := ev_BoundRunnerID ev; te_ResumedByKind := ev_ResumedByKind ev;
      te_Kind := ev_Kind ev; te_AgentProfile := ev_AgentProfile ev }}
  else if String.eqb ty "task_caps_changed" then
    let t := t{{ te_Capabilities := ev_Capabilities ev; te_Scope := scopeFromWAL ev;
      te_DelegateCaps := (delegationFromWAL ev).1; te_DelegateScope := (delegationFromWAL ev).2 }} in
    Some (authorityFromWAL ev t)
  else if String.eqb ty "task_parent_changed" then
    Some t{{ te_CreatorTaskID := parentFromHex (ev_CreatorTaskID ev) }}
  else None.

(** The map [lastRestore]: the last index at which an id was restored. *)
Definition lastRestore (events : list WALEvent) : gmap string nat :=
  (foldl (λ '(m, i) ev,
    (if String.eqb (ev_Type ev) "task_restored" then <[ev_TaskID ev := i]> m else m, S i))
    (∅, O) events).1.

(** One round of the replay loop. *)
Definition replay_event (restores : gmap string nat) (i : nat) (ev : WALEvent) (s : Store) : Store :=
  let id := ev_TaskID ev in
  if String.eqb (ev_Type ev) "task_created" then
    let s := put id (entryFromWAL ev) s in
    s{{ st_order := st_order s ++ [id] }}
  else if String.eqb (ev_Type ev) "task_pruned" then
    if match restores !! id with Some at_ => (i <? at_)%nat | None => false end then s
    else match st_tasks s !! id with
    | None => s
    | Some _ => s{{ st_tasks := delete id (st_tasks s);
                    st_order := filter (λ oid, oid ≠ id) (st_order s) }}
    end
  else match st_tasks s !! id with
  | None => s
  | Some t => match editFromWAL ev t with Some t' => put id t' s | None => s end
  end.

Definition replay_loop (restores : gmap string nat) (events : list WALEvent) (s : Store) : Store :=
  (foldl (λ '(s, i) ev, (replay_event restores i ev s, S i)) (s, O) events).1.

(** The last loop: what is still running lost its runner. *)
Definition sweep_entry (now : Z) (t : TaskEntry) : TaskEntry :=
  if bool_decide (te_Status t = Running)
  then t{{ te_Status := Failed; te_EndedAt := Some now; te_ErrorMsg := "server_restart" }}
  else t.

Definition ReplayEvents (now : Z) (events : list WALEvent) (s : Store) : Store :=
  let s := replay_loop (lastRestore events) events s in
  s{{ st_tasks := sweep_entry now <$> st_tasks s }}.

(** *** [server/restore.go] *)

Record Restorable := mkRestorable {
  rs_TaskID : string; rs_PrunedAt : Z; rs_CreatedAt : Z; rs_RepoPath : string; rs_Prompt : string }.

Record restore_meta := mkRestoreMeta {
  rm_created : Z; rm_repo : string; rm_prompt : string; rm_prunedAt : Z;
  rm_pruned : bool; rm_restored : bool }.

Definition zeroMeta : restore_meta := mkRestoreMeta 0 "" "" 0 false false.

(** One round of the record loop of [RestorableFromWAL]: the metadata by id and
    the order ids were first met in. *)
Definition restorable_step (acc : gmap string restore_meta * list string) (ev : WALEvent)
    : gmap string restore_meta * list string :=
  let '(byID, order) := acc in
  let id := ev_TaskID ev in
  let get (f : restore_meta → restore_meta) :=
    match byID !! id with
    | Some m => (<[id := f m]> byID, order)
    | None => (<[id := f zeroMeta]> byID, order ++ [id])
    end in
  if bool_decide (id = "") then (byID, order)
  else if String.eqb (ev_Type ev) "task_created" then
    get (λ m, m{{ rm_created := ev_Ts ev; rm_repo := ev_RepoPath ev; rm_prompt := ev_Prompt ev }})
  else if String.eqb (ev_Type ev) "task_pruned" then
    get (λ m, m{{ rm_pruned := true; rm_restored := false; rm_prunedAt := ev_Ts ev }})
  else if String.eqb (ev_Type ev) "task_restored" then get (λ m, m{{ rm_restored := true }})
  else (byID, order).

Definition RestorableFromWAL (events : list WALEvent) (live : string → bool) : list Restorable :=
  let '(byID, order) := foldl restorable_step (∅, []) events in
  let out := omap (λ id,
    match byID !! id with
    | None => None
    | Some m =>
        if negb (rm_pruned m) || rm_restored m then None
        else if live id then None
        else Some (mkRestorable id (rm_prunedAt m) (rm_created m) (rm_repo m) (rm_prompt m))
    end) order in
  sort_stable (λ x y, (rs_PrunedAt y <? rs_PrunedAt x)%Z) out.

Definition Live (s : Store) (id : string) : bool := bool_decide (is_Some (st_tasks s !! id)).

(** The wanted ids' records with the prunes taken out. *)
Definition wanted_history (ids : list string) (events : list WALEvent) : list WALEvent :=
  filter (λ ev, ev_TaskID ev ∈ ids ∧ ev_Type ev ≠ "task_pruned") events.

Definition seen_create (ids : list string) (events : list WALEvent) (id : string) : bool :=
  existsb (λ ev, String.eqb (ev_Type ev) "task_created" && String.eqb (ev_TaskID ev) id)
    (wanted_history ids events).

Record restore_result := mkRestoreResult {
  rr_restored : list string; rr_alreadyPresent : list string; rr_notInWAL : list string }.

(** One round of the id loop of [RestoreFromWAL]. *)
Definition restore_one (now : Z) (seen : string → bool) (scratch : Store)
    (acc : Store * restore_result) (id : string) : Store * restore_result :=
  let '(s, r) := acc in
  match st_tasks s !! id with
  | Some _ => (s, r{{ rr_alreadyPresent := rr_alreadyPresent r ++ [id] }})
  | None =>
      if negb (seen id) then (s, r{{ rr_notInWAL := rr_notInWAL r ++ [id] }})
      else match st_tasks scratch !! id with
      | None => (s, r{{ rr_notInWAL := rr_notInWAL r ++ [id] }})
      | Some rebuilt =>
          let s := put id rebuilt s in
          let s := s{{ st_order := st_order s ++ [id] }} in
          (wal_write now (walEvent "task_restored" id){{ ev_Ts := now }} s,
           r{{ rr_restored := rr_restored r ++ [id] }})
      end
  end.

Definition RestoreFromWAL (tSweep now : Z) (events : list WALEvent) (ids : list string) (s : Store)
    : Store * restore_result :=
  let scratch := ReplayEvents tSweep (wanted_history ids events) NewTaskStore in
  foldl (restore_one now (seen_create ids events) scratch) (s, mkRestoreResult [] [] []) ids.

(** ** Sequences of operations *)

Inductive op :=
  | OpCreate (id : string) (tCreated tStamp tWal : Z) (repo prompt : string) (kind origin : N)
      (creator : TaskID) (bound : string) (sel : RunnerSelector) (args : list string) (g : Grant)
      (profile : string)
  | OpSetCaps (tStamp tWal : Z) (id : string) (u : GrantUpdate) (by_ : AuthorityWrite)
  | OpSetParent (tWal : Z) (id : string) (parent : TaskID)
  | OpSwapWithParent (tWal1 tWal2 : Z) (id : string)
  | OpSetProgress (id text : string) (at_ : Z)
  | OpSetLifecycle (id : string) (st : N) (reportedAt at_ : Z)
  | OpRestoreProgress (l : progressLine)
  | OpSetWorktreeDir (id wt : string)
  | OpSetResumeConversation (id : string) (b : bool)
  | OpSetRingBufferBytes (id : string) (n : N)
  | OpResume (tWal tStamp tWal2 : Z) (id prompt : string) (args : list string) (sel : RunnerSelector)
      (bound : string) (resumerKind : N) (u : GrantUpdate) (newKind : N) (profile : string)
      (resumer : TaskID)
  | OpAssign (now tWal : Z) (id : string) (runner : list N) (wt : string) (skills : bool)
  | OpFinish (now tWal : Z) (id : string) (exit : Z) (errorMsg : string)
  | OpCancel (now tWal : Z) (id : string)
  | OpMarkFailed (now tWal : Z) (id reason : string)
  | OpSetDetached (now : Z) (id : string)
  | OpFailHeld (now tWal : Z) (id reason : string)
  | OpMarkHold (tWal : Z) (id runner hold : string) (deadline : Z)
  | OpMarkReadopted (now tWal : Z) (id runner hold : string) (detached : bool)
  | OpMarkAttached (id : string) (attached : bool)
  | OpPruneByIDs (now : Z) (allowed : option (gset string)) (ids : list string) (force : bool)
  | OpPruneTerminal (now : Z) (allowed : option (gset string)) (cutoff : Z).

Definition step (s : Store) (o : op) : Store :=
  match o with
  | OpCreate id t1 t2 t3 repo prompt kind origin creator bound sel args g profile =>
      Create id t1 t2 t3 repo prompt kind origin creator bound sel args g profile s
  | OpSetCaps t1 t2 id u by_ => (SetCaps t1 t2 id u by_ s).1
  | OpSetParent t id parent => (SetParent t id parent s).1
  | OpSwapWithParent t1 t2 id => (SwapWithParent t1 t2 id s).1
  | OpSetProgress id text at_ => (SetProgress id text at_ s).1
  | OpSetLifecycle id st r at_ => (SetLifecycle id st r at_ s).1
  | OpRestoreProgress l => (restoreProgress l s).1
  | OpSetWorktreeDir id wt => (SetWorktreeDir id wt s).1
  | OpSetResumeConversation id b => (SetResumeConversation id b s).1
  | OpSetRingBufferBytes id n => (SetRingBufferBytes id n s).1
  | OpResume t1 t2 t3 id prompt args sel bound k u nk profile resumer =>
      (Resume t1 t2 t3 id prompt args sel bound k u nk profile resumer s).1
  | OpAssign now t id runner wt skills => Assign now t id runner wt skills s
  | OpFinish now t id exit msg => Finish now t id exit msg s
  | OpCancel now t id => Cancel now t id s
  | OpMarkFailed now t id reason => MarkFailed now t id reason s
  | OpSetDetached now id => (SetDetached now id s).1
  | OpFailHeld now t id reason => FailHeld now t id reason s
  | OpMarkHold t id runner hold dl => (MarkHold t id runner hold dl s).1
  | OpMarkReadopted now t id runner hold d => (MarkReadopted now t id runner hold d s).1
  | OpMarkAttached id b => (MarkAttached id b s).1
  | OpPruneByIDs now allowed ids force => (PruneByIDs now allowed ids force s).1
  | OpPruneTerminal now allowed cutoff => (PruneTerminal now allowed cutoff s).1
  end.

Definition run (s : Store) (ops : list op) : Store := foldl step s ops.

(** A grant a record holds without loss; a bound carries no overrides. *)
Definition grant_ok (g : Grant) : Prop :=
  g_Caps g < 2 ^ 32 ∧ wal_ok (g_Scope g) ∧ g_DelegateCaps g < 2 ^ 32 ∧
  wal_ok (g_DelegateScope g) ∧ Overrides (g_DelegateScope g) = [].

(** The arguments the callers pass: canonical grants, 16-byte ids, one-byte
    enumerations, and a clock that has left the epoch. *)
Definition op_ok (o : op) : Prop :=
  match o with
  | OpCreate id _ tStamp _ _ _ kind origin creator _ _ _ g _ =>
      tStamp ≠ 0%Z ∧ kind < 256 ∧ origin < 256 ∧ wf_id creator ∧ grant_ok g
  | OpSetCaps tStamp _ _ u by_ =>
      tStamp ≠ 0%Z ∧ grant_ok (gu_To u) ∧ aw_Source by_ < 256 ∧ wf_id (aw_Actor by_)
  | OpSetParent _ _ parent => wf_id parent
  | OpResume _ tStamp _ _ _ _ _ _ resumerKind u newKind _ resumer =>
      tStamp ≠ 0%Z ∧ resumerKind < 256 ∧ newKind < 256 ∧ grant_ok (gu_To u) ∧ wf_id resumer
  | OpAssign now _ _ _ _ _ => now ≠ 0%Z
  | OpFinish now _ _ _ _ => now ≠ 0%Z
  | OpCancel now _ _ => now ≠ 0%Z
  | OpMarkFailed now _ _ _ => now ≠ 0%Z
  | OpFailHeld now _ _ _ => now ≠ 0%Z
  | _ => True
  end.

(** ** The recorded half of an entry *)

(** Detached is a runtime state: the log only knows the task is running. *)
Definition recorded_status (st : TaskStatus) : TaskStatus :=
  match st with Detached => Running | st => st end.

(** [r] is what the log says of the entry [m]. *)
Record Recorded (m r : TaskEntry) : Prop := {
  rec_ID : te_ID r = te_ID m;
  rec_RepoPath : te_RepoPath r = te_RepoPath m;
  rec_Prompt : te_Prompt r = te_Prompt m;
  rec_Kind : te_Kind r = te_Kind m;
  rec_OriginKind : te_OriginKind r = te_OriginKind m;
  rec_ResumedByKind : te_ResumedByKind r = te_ResumedByKind m;
  rec_CreatorTaskID : te_CreatorTaskID r = te_CreatorTaskID m;
  rec_Capabilities : te_Capabilities r = te_Capabilities m;
  rec_Scope : te_Scope r = replayed_scope (te_Capabilities m) (te_Scope m);
  rec_DelegateCaps : te_DelegateCaps r = te_DelegateCaps m;
  rec_DelegateScope : te_DelegateScope r = te_DelegateScope m;
  rec_AuthoritySource : te_AuthoritySource r = te_AuthoritySource m;
  rec_AuthorityActor : te_AuthorityActor r = te_AuthorityActor m;
  rec_AuthorityAt : te_AuthorityAt r = te_AuthorityAt m;
  rec_AgentProfile : te_AgentProfile r = te_AgentProfile m;
  rec_Status : te_Status r = recorded_status (te_Status m);
  rec_StartedAt : te_StartedAt r = te_StartedAt m;
  rec_EndedAt : te_EndedAt r = te_EndedAt m;
  rec_ExitCode : te_ExitCode r = te_ExitCode m;
  rec_ErrorMsg : te_ErrorMsg r = te_ErrorMsg m;
  rec_Selector : te_Selector r = te_Selector m;
  rec_BoundRunnerID : te_BoundRunnerID r = te_BoundRunnerID m;
  rec_ExtraArgs : te_ExtraArgs r = te_ExtraArgs m;
  rec_Hold : te_Status m = Held →
    te_HoldID r = te_HoldID m ∧ te_HoldDeadline r = te_HoldDeadline m;
}.

(** A restart keeps the entry [m] as [r].  The fields that are not here
    ([AssignedTo], [SkillsInjected], [WorktreeDir], [CreatedAt],
    [ResumeConversation], the attachment, the ring size, progress and lifecycle)
    are not claimed to survive, and neither is the scope of a holder of
    [board_observe] without a visibility of its own. *)
Record Survives (now : Z) (m r : TaskEntry) : Prop := {
  kept_ID : te_ID r = te_ID m;
  kept_RepoPath : te_RepoPath r = te_RepoPath m;
  kept_Prompt : te_Prompt r = te_Prompt m;
  kept_Kind : te_Kind r = te_Kind m;
  kept_OriginKind : te_OriginKind r = te_OriginKind m;
  kept_ResumedByKind : te_ResumedByKind r = te_ResumedByKind m;
  kept_CreatorTaskID : te_CreatorTaskID r = te_CreatorTaskID m;
  kept_Capabilities : te_Capabilities r = te_Capabilities m;
  kept_Scope : VisBasePresent (te_Scope m) = true ∨ has (te_Capabilities m) Capability_BoardObserve = false →
    te_Scope r = te_Scope m;
  kept_DelegateCaps : te_DelegateCaps r = te_DelegateCaps m;
  kept_DelegateScope : te_DelegateScope r = te_DelegateScope m;
  kept_AuthoritySource : te_AuthoritySource r = te_AuthoritySource m;
  kept_AuthorityActor : te_AuthorityActor r = te_AuthorityActor m;
  kept_AuthorityAt : te_AuthorityAt r = te_AuthorityAt m;
  kept_AgentProfile : te_AgentProfile r = te_AgentProfile m;
  kept_StartedAt : te_StartedAt r = te_StartedAt m;
  kept_ExitCode : te_ExitCode r = te_ExitCode m;
  kept_Selector : te_Selector r = te_Selector m;
  kept_BoundRunnerID : te_BoundRunnerID r = te_BoundRunnerID m;
  kept_ExtraArgs : te_ExtraArgs r = te_ExtraArgs m;
  kept_outcome : match te_Status m with
    | Running | Detached => te_Status r = Failed ∧ te_EndedAt r = Some now ∧ te_ErrorMsg r = "server_restart"
    | st => te_Status r = st ∧ te_EndedAt r = te_EndedAt m ∧ te_ErrorMsg r = te_ErrorMsg m
    end;
  kept_Hold : te_Status m = Held → te_HoldID r = te_HoldID m ∧ te_HoldDeadline r = te_HoldDeadline m;
}.

Lemma Recorded_survives now m r : Recorded m r → Survives now m (sweep_entry now r).
Proof.
  intros H. pose proof (rec_Status _ _ H) as Hst.
  assert (VisBasePresent (te_Scope m) = true ∨ has (te_Capabilities m) Capability_BoardObserve = false →
    te_Scope r = te_Scope m) as Hs.
  { intros Hc. rewrite (rec_Scope _ _ H). unfold replayed_scope. by destruct Hc as [-> | ->]; [|rewrite andb_false_r]. }
  destruct H. unfold sweep_entry. case_bool_decide as E; constructor; try done.
  - rewrite E in Hst. by destruct (te_Status m).
  - rewrite Hst in *. by destruct (te_Status m).
Qed.

(** What every entry of a store satisfies. *)
Record entry_ok (id : string) (e : TaskEntry) : Prop := {
  ok_ID : te_ID e = id;
  ok_creator : wf_id (te_CreatorTaskID e);
  ok_actor : wf_id (te_AuthorityActor e);
  ok_source : te_AuthoritySource e < 256;
  ok_at : te_AuthorityAt e ≠ Some 0%Z;
  ok_grant : grant_ok (TaskEntry_Grant e);
}.

(** The store the records alone describe, before the sweep. *)
Definition replayed (w : list WALEvent) : Store := replay_loop ∅ w NewTaskStore.

Record Sim (s : Store) (w : list WALEvent) : Prop := {
  sim_wal : st_wal s = Some w;
  sim_no_restore : Forall (λ ev, ev_Type ev ≠ "task_restored") w;
  sim_order : st_order (replayed w) = st_order s;
  sim_tasks : ∀ id,
    match st_tasks s !! id, st_tasks (replayed w) !! id with
    | Some m, Some r => Recorded m r
    | None, None => True
    | _, _ => False
    end;
  sim_listed : ∀ id, id ∈ st_order s → is_Some (st_tasks s !! id);
  sim_ok : ∀ id m, st_tasks s !! id = Some m → entry_ok id m;
}.

Lemma replay_loop_snoc rs w ev s :
  replay_loop rs (w ++ [ev]) s = replay_event rs (length w) ev (replay_loop rs w s).
Proof.
  unfold replay_loop. rewrite foldl_app. cbn [foldl].
  assert (∀ l i st, (foldl (λ '(s, i) ev, (replay_event rs i ev s, S i)) (st, i) l).2 = (i + length l)%nat) as H.
  { induction l as [|x l IH]; intros i st; cbn; [lia|]. rewrite IH. lia. }
  specialize (H w O s). destruct (foldl _ (s, O) w) as [s' i]. cbn in H. by subst i.
Qed.

Lemma replayed_snoc w ev : replayed (w ++ [ev]) = replay_event ∅ O ev (replayed w).
Proof.
  unfold replayed. rewrite replay_loop_snoc. unfold replay_event. by rewrite lookup_empty.
Qed.

Lemma lastRestore_none w : Forall (λ ev, ev_Type ev ≠ "task_restored") w → lastRestore w = ∅.
Proof.
  unfold lastRestore. generalize O as i. generalize (∅ : gmap string nat) as m.
  intros m i H. revert m i. induction H as [|ev w Hev _ IH]; intros m i; cbn; [done|].
  destruct (String.eqb_spec (ev_Type ev) "task_restored"); [done|]. apply IH.
Qed.

Lemma sim_call s w h : Sim s w → Sim (call h s) w.
Proof. by intros [? ? ? ? ? ?]. Qed.

(** ** Simulation steps *)

Lemma put_lookup id e s j :
  st_tasks (put id e s) !! j = if decide (id = j) then Some e else st_tasks s !! j.
Proof. exact (lookup_insert (st_tasks s) id j e). Qed.

Lemma put_lookup_eq id e s : st_tasks (put id e s) !! id = Some e.
Proof. by rewrite put_lookup, decide_True. Qed.

Lemma put_lookup_ne id e s j : id ≠ j → st_tasks (put id e s) !! j = st_tasks s !! j.
Proof. intros H. by rewrite put_lookup, decide_False. Qed.

(** A write to one entry's memory-only half. *)
Lemma sim_put s w id m m' :
  Sim s w → st_tasks s !! id = Some m → entry_ok id m' →
  (∀ r, Recorded m r → Recorded m' r) → Sim (put id m' s) w.
Proof.
  intros [H1 H2 H3 H4 H5 H6] Hm Hok Hrec. split; try done.
  - intros j. rewrite put_lookup. case_decide as Hj; [subst j|apply H4].
    specialize (H4 id). rewrite Hm in H4. destruct (st_tasks (replayed w) !! id); [by apply Hrec|done].
  - intros j Hj. rewrite put_lookup. case_decide; [done|by apply H5].
  - intros j e. rewrite put_lookup. case_decide as Hj; [subst j; by intros [= <-]|apply H6].
Qed.

(** The record [WAL.Write] appends. *)
Definition stamped (t : Z) (ev : WALEvent) : WALEvent :=
  if (ev_Ts ev =? 0)%Z then ev{{ ev_Ts := t }} else ev.

Lemma wal_write_Some t ev s w :
  st_wal s = Some w → wal_write t ev s = s{{ st_wal := Some (w ++ [stamped t ev]) }}.
Proof. intros H. unfold wal_write. by rewrite H. Qed.

Lemma stamped_fields t ev :
  ev_Type (stamped t ev) = ev_Type ev ∧ ev_TaskID (stamped t ev) = ev_TaskID ev.
Proof. unfold stamped. by destruct (_ =? _)%Z. Qed.

(** A logged write to one entry. *)
Lemma sim_edit s w id t ev m m' :
  Sim s w → st_tasks s !! id = Some m → entry_ok id m' →
  ev_TaskID ev = id → ev_Type ev ≠ "task_created" → ev_Type ev ≠ "task_pruned" →
  ev_Type ev ≠ "task_restored" →
  (∀ r, Recorded m r → ∃ r', editFromWAL (stamped t ev) r = Some r' ∧ Recorded m' r') →
  Sim (wal_write t ev (put id m' s)) (w ++ [stamped t ev]).
Proof.
  intros [H1 H2 H3 H4 H5 H6] Hm Hok Hid Hc Hp Hr Hed.
  destruct (stamped_fields t ev) as [Ety Eid].
  pose proof (H4 id) as H4id. rewrite Hm in H4id.
  destruct (st_tasks (replayed w) !! id) as [r|] eqn:Er; [|done].
  destruct (Hed r H4id) as (r' & Hr' & Hrec).
  assert (replayed (w ++ [stamped t ev]) = put id r' (replayed w)) as Hrep.
  { rewrite replayed_snoc. unfold replay_event. rewrite Ety, Eid, Hid.
    destruct (String.eqb_spec (ev_Type ev) "task_created"); [done|].
    destruct (String.eqb_spec (ev_Type ev) "task_pruned"); [done|]. by rewrite Er, Hr'. }
  rewrite (wal_write_Some t ev _ w) by done. split.
  - done.
  - apply Forall_app. split; [done|]. constructor; [by rewrite Ety|done].
  - by rewrite Hrep.
  - intros j. rewrite Hrep, put_lookup.
    change (st_tasks _ !! j) with (st_tasks (put id m' s) !! j) at 1. rewrite put_lookup.
    case_decide as Hj; [done|apply H4].
  - intros j Hj. change (is_Some (st_tasks (put id m' s) !! j)). rewrite put_lookup.
    case_decide; [done|by apply H5].
  - intros j e He. change (st_tasks (put id m' s) !! j = Some e) in He. rewrite put_lookup in He.
    case_decide as Hj; [subst j; by injection He as <-|by apply H6].
Qed.

(** A record for an id both sides drop. *)
Definition prunedEvent (now : Z) (id : string) : WALEvent :=
  stamped now (walEvent "task_pruned" id){{ ev_Ts := now }}.

Lemma replay_pruned w now l :
  (∀ id, id ∈ l → is_Some (st_tasks (replayed w) !! id)) → NoDup l →
  let r := replayed (w ++ (prunedEvent now <$> l)) in
  st_order r = filter (λ id, id ∉ l) (st_order (replayed w)) ∧
  (∀ id, st_tasks r !! id = if bool_decide (id ∈ l) then None else st_tasks (replayed w) !! id).
Proof.
  induction l as [|x l IH] using rev_ind; intros Hin Hnd; cbn zeta.
  { rewrite app_nil_r. split.
    - symmetry. apply filter_id. intros id _. apply not_elem_of_nil.
    - intros id. by rewrite bool_decide_eq_false_2 by apply not_elem_of_nil. }
  apply NoDup_app in Hnd as (Hnd & Hx & _).
  destruct IH as [IH1 IH2]; [intros id Hid; apply Hin; set_solver|done|].
  rewrite fmap_app, app_assoc. cbn [fmap list_fmap]. rewrite replayed_snoc.
  set (r := replayed (w ++ (prunedEvent now <$> l))) in *. unfold replay_event.
  assert (ev_Type (prunedEvent now x) = "task_pruned" ∧ ev_TaskID (prunedEvent now x) = x) as [Ety Eid]
    by (unfold prunedEvent; apply stamped_fields).
  rewrite Ety, Eid. cbn [String.eqb Ascii.eqb Bool.eqb]. rewrite lookup_empty.
  assert (x ∉ l) as Hxl by (intros H; apply (Hx x H); by left).
  assert (is_Some (st_tasks r !! x)) as [e He].
  { rewrite IH2, bool_decide_eq_false_2 by done. apply Hin. set_solver. }
  rewrite He. split.
  - transitivity (filter (λ oid, oid ≠ x) (st_order r)); [done|]. rewrite IH1, list_filter_filter. apply list_filter_iff. intros id. rewrite elem_of_app, list_elem_of_singleton. tauto.
  - intros id. transitivity (delete x (st_tasks r) !! id); [done|].
    destruct (decide (id = x)) as [->|Hne].
    + rewrite lookup_delete, decide_True by done. rewrite bool_decide_eq_true_2; [done|]. set_solver.
    + rewrite lookup_delete_ne, IH2 by done. erewrite bool_decide_ext; [done|]. set_solver.
Qed.

Lemma log_pruned_spec now l s w :
  st_wal s = Some w →
  st_wal (log_pruned now l s) = Some (w ++ (prunedEvent now <$> l)) ∧
  st_tasks (log_pruned now l s) = st_tasks s ∧ st_order (log_pruned now l s) = st_order s.
Proof.
  intros Hw. unfold log_pruned.
  assert (∀ l s, st_wal (foldl (λ s id, call (OnPrune id) s) s l) = st_wal s ∧
    st_tasks (foldl (λ s id, call (OnPrune id) s) s l) = st_tasks s ∧
    st_order (foldl (λ s id, call (OnPrune id) s) s l) = st_order s) as Hcalls.
  { clear. induction l as [|x l IH]; intros s; [done|]. cbn [foldl]. apply (IH (call (OnPrune x) s)). }
  destruct (Hcalls l (foldl (λ s id, wal_write now (walEvent "task_pruned" id){{ ev_Ts := now }} s) s l))
    as (-> & -> & ->). clear Hcalls.
  revert s w Hw. induction l as [|x l IH]; intros s w Hw; [by rewrite app_nil_r|]. cbn [foldl].
  rewrite (wal_write_Some now _ s w Hw). fold (prunedEvent now x).
  set (s1 := s{{ st_wal := _ }}).
  destruct (IH s1 (w ++ [prunedEvent now x]) eq_refl) as (H1 & H2 & H3).
  rewrite <-app_assoc in H1. done.
Qed.

Lemma sim_prune s w now l s' :
  Sim s w → NoDup l → (∀ id, id ∈ l → is_Some (st_tasks s !! id)) →
  st_wal s' = Some (w ++ (prunedEvent now <$> l)) →
  st_order s' = filter (λ id, id ∉ l) (st_order s) →
  (∀ id, st_tasks s' !! id = if bool_decide (id ∈ l) then None else st_tasks s !! id) →
  Sim s' (w ++ (prunedEvent now <$> l)).
Proof.
  intros [H1 H2 H3 H4 H5 H6] Hnd Hin Hwal Hord Htasks.
  assert (∀ id, id ∈ l → is_Some (st_tasks (replayed w) !! id)) as Hinr.
  { intros id Hid. specialize (H4 id). destruct (Hin id Hid) as [m Hm]. rewrite Hm in H4.
    destruct (st_tasks (replayed w) !! id); done. }
  destruct (replay_pruned w now l Hinr Hnd) as [Ho Ht]. split.
  - done.
  - apply Forall_app. split; [done|]. apply Forall_fmap, Forall_true. intros id. cbn.
    unfold prunedEvent. by rewrite (proj1 (stamped_fields _ _)).
  - by rewrite Ho, Hord, H3.
  - intros id. rewrite Htasks, Ht. case_bool_decide; [done|apply H4].
  - intros id. rewrite Hord, Htasks. intros [Hid Hi]%list_elem_of_filter.
    rewrite bool_decide_eq_false_2 by done. by apply H5.
  - intros id m. rewrite Htasks. case_bool_decide; [done|apply H6].
Qed.

Lemma prune_one_foldl allowed force ids tasks c :
  let '(tasks', c') := foldl (prune_one allowed force) (tasks, c) ids in
  ∃ l, pc_pruned c' = pc_pruned c ++ l ∧ NoDup l ∧ (∀ id, id ∈ l → is_Some (tasks !! id)) ∧
    (∀ id, tasks' !! id = if bool_decide (id ∈ l) then None else tasks !! id).
Proof.
  revert tasks c. induction ids as [|x ids IH]; intros tasks c; cbn [foldl].
  { exists []. rewrite app_nil_r. split_and!; [done|constructor|set_solver|].
    intros id. by rewrite bool_decide_eq_false_2 by apply not_elem_of_nil. }
  assert (∃ c', prune_one allowed force (tasks, c) x = (tasks, c') ∧ pc_pruned c' = pc_pruned c ∨
    prune_one allowed force (tasks, c) x = (delete x tasks, c') ∧ pc_pruned c' = pc_pruned c ++ [x]
      ∧ is_Some (tasks !! x)) as (c' & [[-> Hp]|(-> & Hp & Hx)]).
  { unfold prune_one. destruct (negb _); [eexists; by left|].
    destruct (tasks !! x) eqn:E; [|eexists; by left].
    destruct (_ && _); [eexists; by left|]. eexists. right. by rewrite <-E. }
  - specialize (IH tasks c'). destruct (foldl _ _ ids) as [tasks' c'']. by rewrite Hp in IH.
  - specialize (IH (delete x tasks) c'). destruct (foldl _ _ ids) as [tasks' c''].
    destruct IH as (l & Hl & Hnd & Hin & Ht). exists (x :: l).
    assert (x ∉ l) as Hxl. { intros H%Hin. by rewrite lookup_delete, decide_True in H by done; destruct H. }
    split_and!; [by rewrite Hl, Hp, <-app_assoc|by constructor| |].
    + intros id [->|Hid]%elem_of_cons; [done|]. specialize (Hin id Hid).
      rewrite lookup_delete_ne in Hin; [done|]. by intros ->.
    + intros id. rewrite Ht. destruct (decide (id = x)) as [->|Hne].
      * rewrite lookup_delete, decide_True by done. rewrite (bool_decide_eq_true_2 (x ∈ x :: l)) by (by left).
        by case_bool_decide.
      * rewrite lookup_delete_ne by done. erewrite bool_decide_ext; [done|]. set_solver.
Qed.

(** The test of the sweep of [PruneTerminal]. *)
Definition prunable (allowed : option (gset string)) (cutoff : Z) (tasks : gmap string TaskEntry)
    (id : string) : bool :=
  match tasks !! id with
  | None => false
  | Some t => in_allowed allowed id && terminal (te_Status t)
              && match te_EndedAt t with Some e => (e <? cutoff)%Z | None => false end
  end.

Lemma prune_terminal_one_eq allowed cutoff tasks keep pruned id :
  is_Some (tasks !! id) →
  prune_terminal_one allowed cutoff (tasks, keep, pruned) id =
    if prunable allowed cutoff tasks id then (delete id tasks, keep, pruned ++ [id])
    else (tasks, keep ++ [id], pruned).
Proof.
  intros [t Ht]. unfold prune_terminal_one, prunable. rewrite Ht.
  destruct (in_allowed allowed id); cbn [negb andb]; [by case_match|done].
Qed.

Lemma prune_terminal_foldl allowed cutoff ids tasks :
  (∀ id, id ∈ ids → is_Some (tasks !! id)) →
  let '(tasks', keep, pruned) := foldl (prune_terminal_one allowed cutoff) (tasks, [], []) ids in
  keep = filter (λ id, prunable allowed cutoff tasks id = false) ids ∧ NoDup pruned ∧
  (∀ id, id ∈ pruned ↔ id ∈ ids ∧ prunable allowed cutoff tasks id = true) ∧
  (∀ id, tasks' !! id = if bool_decide (id ∈ pruned) then None else tasks !! id).
Proof.
  intros Hin. induction ids as [|x ids IH] using rev_ind.
  { cbn. split_and!; [done|constructor|set_solver|].
    intros id. by rewrite bool_decide_eq_false_2 by apply not_elem_of_nil. }
  rewrite foldl_app. cbn [foldl].
  assert (∀ id, id ∈ ids → is_Some (tasks !! id)) as Hin' by (intros id Hid; apply Hin; set_solver).
  specialize (IH Hin'). destruct (foldl _ _ ids) as [[tasks' keep] pruned].
  destruct IH as (Hk & Hnd & Hp & Ht).
  rewrite filter_app, (filter_singleton _ _ []).
  destruct (bool_decide_reflect (x ∈ pruned)) as [Hx|Hx].
  { assert (prunable allowed cutoff tasks x = true) as Hpx by (by apply Hp).
    unfold prune_terminal_one. rewrite Ht, bool_decide_eq_true_2 by done.
    rewrite decide_False by congruence. rewrite app_nil_r. split_and!; [done..| |done].
    intros id. rewrite Hp, elem_of_app, list_elem_of_singleton. split; [tauto|].
    intros [[?| ->] ?]; [done|]. apply Hp in Hx. tauto. }
  assert (tasks' !! x = tasks !! x) as Ex by (by rewrite Ht, bool_decide_eq_false_2).
  assert (prunable allowed cutoff tasks' x = prunable allowed cutoff tasks x) as Epr
    by (unfold prunable; by rewrite Ex).
  rewrite prune_terminal_one_eq by (rewrite Ex; apply Hin; set_solver). rewrite Epr.
  destruct (prunable allowed cutoff tasks x) eqn:Epx.
  - rewrite decide_False by done. rewrite app_nil_r. split_and!; [done| | |].
    + apply NoDup_app. split; [done|]. split; [set_solver|apply NoDup_singleton].
    + intros id. rewrite !elem_of_app, !list_elem_of_singleton, Hp. naive_solver.
    + intros id. rewrite lookup_delete, Ht. destruct (decide (x = id)) as [<-|Hne].
      * rewrite bool_decide_eq_true_2; [done|]. set_solver.
      * erewrite bool_decide_ext; [done|]. set_solver.
  - rewrite decide_True by done. rewrite Hk. split_and!; [done|done| |done].
    intros id. rewrite elem_of_app, list_elem_of_singleton, Hp. naive_solver congruence.
Qed.

Lemma sim_PruneByIDs now allowed ids force s w :
  Sim s w → ∃ w', Sim (PruneByIDs now allowed ids force s).1 w'.
Proof.
  intros HS. unfold PruneByIDs.
  pose proof (prune_one_foldl allowed force ids (st_tasks s) (mkPruneCounts [] 0 0)) as Hf.
  destruct (foldl _ _ ids) as [tasks c]. destruct Hf as (l & Hl & Hnd & Hin & Ht). cbn in Hl. rewrite Hl.
  set (s1 := s{{ st_tasks := tasks; st_order := _ }}).
  destruct (log_pruned_spec now l s1 w) as (E1 & E2 & E3); [apply HS|].
  eexists. eapply (sim_prune s w now l); [done..| |].
  - cbn [fst]. rewrite E3. apply filter_ext_elem. intros id _. by rewrite elem_of_list_to_set.
  - cbn [fst]. rewrite E2. exact Ht.
Qed.

Lemma sim_PruneTerminal now allowed cutoff s w :
  Sim s w → ∃ w', Sim (PruneTerminal now allowed cutoff s).1 w'.
Proof.
  intros HS. unfold PruneTerminal.
  pose proof (prune_terminal_foldl allowed cutoff (st_order s) (st_tasks s) (sim_listed _ _ HS)) as Hf.
  destruct (foldl _ _ (st_order s)) as [[tasks keep] pruned]. destruct Hf as (Hk & Hnd & Hp & Ht).
  set (s1 := s{{ st_tasks := tasks; st_order := keep }}).
  destruct (log_pruned_spec now pruned s1 w) as (E1 & E2 & E3); [apply HS|].
  eexists. eapply (sim_prune s w now pruned); [done|done| |done| |].
  - intros id [Hid _]%Hp. by apply HS.
  - cbn [fst]. rewrite E3. transitivity keep; [done|]. rewrite Hk. apply filter_ext_elem. intros id Hid.
    rewrite Hp. destruct (prunable _ _ _ _); naive_solver.
  - cbn [fst]. rewrite E2. exact Ht.
Qed.

(** ** Ids and provenance through a record *)

Lemma hex_prefix_decode l bs : hex_decode l = Some bs → hex_prefix l = bs.
Proof.
  revert bs. induction l as [l IH] using list_len_ind. intros bs.
  destruct l as [|a [|b l]]; cbn; [by intros [= <-]|done|].
  destruct (hexval a) as [x|]; [|done]. destruct (hexval b) as [y|]; [|done].
  destruct (hex_decode l) as [r|] eqn:E; [|done]. intros [= <-].
  rewrite (IH l) with (bs := r); [done|cbn; lia|done].
Qed.

Lemma taskIDFromHex_creatorHex id : wf_id id → taskIDFromHex (creatorHex id) = id.
Proof.
  intros [Hl Hb]. unfold creatorHex, taskIDFromHex. destruct (bool_decide_reflect (id = zeroID)) as [->|E]; [by vm_compute|].
  rewrite (hex_prefix_decode _ id) by (by apply DecodeString_EncodeToString). by apply copy16_wf.
Qed.

Lemma parentFromHex_creatorHex id : wf_id id → parentFromHex (creatorHex id) = id.
Proof.
  intros [Hl Hb]. unfold creatorHex, parentFromHex. destruct (bool_decide_reflect (id = zeroID)) as [->|E]; [done|].
  rewrite DecodeString_EncodeToString by done.
  rewrite bool_decide_eq_false_2; cycle 1.
  { intros H. pose proof (DecodeString_EncodeToString id Hb) as Hd. rewrite H in Hd.
    cbv in Hd. injection Hd as <-. done. }
  cbn [negb]. rewrite bool_decide_eq_true_2 by done. by apply copy16_wf.
Qed.

Lemma authority_roundtrip id e ev r :
  entry_ok id e →
  let r' := authorityFromWAL (applyAuthorityToWAL e ev) r in
  te_AuthoritySource r' = te_AuthoritySource e ∧ te_AuthorityActor r' = te_AuthorityActor e ∧
  te_AuthorityAt r' = te_AuthorityAt e.
Proof.
  intros Hok. cbn zeta. split_and!.
  - apply uint8_id, Hok.
  - apply taskIDFromHex_creatorHex, Hok.
  - pose proof (ok_at _ _ Hok) as Hat.
    transitivity (if negb (match te_AuthorityAt e with Some t => t | None => 0%Z end =? 0)%Z
      then Some (match te_AuthorityAt e with Some t => t | None => 0%Z end) else None); [done|].
    destruct (te_AuthorityAt e) as [t|]; [|done].
    destruct (Z.eqb_spec t 0) as [->|]; [by destruct Hat|done].
Qed.

(** The fields of a [task_caps_changed] record written for [e]. *)
Definition capsEvent (e : TaskEntry) : WALEvent :=
  applyAuthorityToWAL e (applyDelegationToWAL (te_DelegateCaps e) (te_DelegateScope e)
    (applyScopeToWAL (te_Scope e)
       (walEvent "task_caps_changed" (te_ID e)){{ ev_Capabilities := uint32 (te_Capabilities e) }})).

Lemma capsEvent_scope id e t :
  entry_ok id e →
  ev_Capabilities (stamped t (capsEvent e)) = te_Capabilities e ∧
  scopeFromWAL (stamped t (capsEvent e)) = replayed_scope (te_Capabilities e) (te_Scope e) ∧
  delegationFromWAL (stamped t (capsEvent e)) = (te_DelegateCaps e, te_DelegateScope e).
Proof.
  intros Hok. destruct (ok_grant _ _ Hok) as (Hc & Hs & Hdc & Hds & Hdo).
  cbn [g_Caps g_Scope g_DelegateCaps g_DelegateScope TaskEntry_Grant] in *.
  assert (ev_Capabilities (stamped t (capsEvent e)) = te_Capabilities e) as E
    by (transitivity (uint32 (te_Capabilities e)); [done|by apply uint32_id]).
  split; [exact E|]. split.
  - rewrite <-E at 1.
    exact (scope_wal_roundtrip_gen (te_Scope e)
      (walEvent "task_caps_changed" (te_ID e)){{ ev_Capabilities := uint32 (te_Capabilities e) }} Hs).
  - exact (delegation_wal_roundtrip (te_DelegateCaps e) (te_DelegateScope e)
      (walEvent "" "") Hds Hdo Hdc).
Qed.

(** The entry after a grant update keeps what every entry satisfies. *)
Lemma grant_update_ok id e u t by_ :
  entry_ok id e → grant_ok (gu_To u) → t ≠ 0%Z → aw_Source by_ < 256 → wf_id (aw_Actor by_) →
  entry_ok id (stampAuthority t by_ (applyBound u (applyCaps u e))).
Proof.
  intros [Hid Hcr Hac Hsrc Hat (Hc & Hs & Hdc & Hds & Hdo)] (Gc & Gs & Gdc & Gds & Gdo) Ht Hby Hactor.
  unfold applyBound, applyCaps.
  destruct (gu_Caps u), (gu_Scope u), (gu_DelegateCaps u), (gu_DelegateScope u);
    (split; [done|done|done|done|by intros [= ->]|by split_and!]).
Qed.


(** Two entries that differ at most in their grant and provenance. *)
Record same_but_grant (m e : TaskEntry) : Prop := {
  sbg_ID : te_ID e = te_ID m;
  sbg_RepoPath : te_RepoPath e = te_RepoPath m;
  sbg_Prompt : te_Prompt e = te_Prompt m;
  sbg_Kind : te_Kind e = te_Kind m;
  sbg_OriginKind : te_OriginKind e = te_OriginKind m;
  sbg_ResumedByKind : te_ResumedByKind e = te_ResumedByKind m;
  sbg_CreatorTaskID : te_CreatorTaskID e = te_CreatorTaskID m;
  sbg_AgentProfile : te_AgentProfile e = te_AgentProfile m;
  sbg_Status : te_Status e = te_Status m;
  sbg_StartedAt : te_StartedAt e = te_StartedAt m;
  sbg_EndedAt : te_EndedAt e = te_EndedAt m;
  sbg_ExitCode : te_ExitCode e = te_ExitCode m;
  sbg_ErrorMsg : te_ErrorMsg e = te_ErrorMsg m;
  sbg_Selector : te_Selector e = te_Selector m;
  sbg_BoundRunnerID : te_BoundRunnerID e = te_BoundRunnerID m;
  sbg_ExtraArgs : te_ExtraArgs e = te_ExtraArgs m;
  sbg_Hold : te_HoldID e = te_HoldID m ∧ te_HoldDeadline e = te_HoldDeadline m;
}.

Lemma update_same_but_grant u t by_ m :
  same_but_grant m (stampAuthority t by_ (applyBound u (applyCaps u m))).
Proof.
  unfold applyBound, applyCaps.
  destruct (gu_Caps u), (gu_Scope u), (gu_DelegateCaps u), (gu_DelegateScope u); by split.
Qed.

Lemma capsEvent_recorded id t m e r :
  entry_ok id e → same_but_grant m e → Recorded m r →
  ∃ r', editFromWAL (stamped t (capsEvent e)) r = Some r' ∧ Recorded e r'.
Proof.
  intros Hok Hs Hr. destruct (capsEvent_scope id e t Hok) as (Ec & Es & Ed).
  eexists. split; [reflexivity|]. rewrite Ec, Es, Ed. cbn [fst snd].
  set (r1 := r{{ te_Capabilities := _; te_Scope := _; te_DelegateCaps := _; te_DelegateScope := _ }}).
  assert (authorityFromWAL (stamped t (capsEvent e)) r1 = authorityFromWAL (capsEvent e) r1) as -> by done.
  destruct (authority_roundtrip id e (applyDelegationToWAL (te_DelegateCaps e) (te_DelegateScope e)
    (applyScopeToWAL (te_Scope e)
       (walEvent "task_caps_changed" (te_ID e)){{ ev_Capabilities := uint32 (te_Capabilities e) }})) r1 Hok)
    as (A1 & A2 & A3). fold (capsEvent e) in A1, A2, A3.
  destruct Hs, Hr. split; try done; try (by etrans; [eassumption|symmetry; eassumption]).
  - rewrite sbg_Status0. exact rec_Status0.
  - rewrite sbg_Status0. intros Hh. destruct (rec_Hold0 Hh), sbg_Hold0.
    split; (etrans; [eassumption|symmetry; eassumption]).
Qed.

Lemma sim_capsChanged s w id t m e :
  Sim s w → st_tasks s !! id = Some m → entry_ok id e → same_but_grant m e →
  ∃ w', Sim (writeCapsChangedLocked t e (put id e s)) w'.
Proof.
  intros HS Hm Hok Hsb. eexists. apply (sim_edit s w id t (capsEvent e) m e); try done.
  - by apply (ok_ID _ _ Hok).
  - intros r Hr. by eapply capsEvent_recorded.
Qed.

Lemma sim_SetCaps t1 t2 id u by_ s w :
  Sim s w → op_ok (OpSetCaps t1 t2 id u by_) → ∃ w', Sim (SetCaps t1 t2 id u by_ s).1 w'.
Proof.
  intros HS (Ht & Hg & Hsrc & Hac). unfold SetCaps.
  destruct (st_tasks s !! id) as [m|] eqn:Hm; [|by eexists].
  eapply sim_capsChanged; [done..| |apply update_same_but_grant].
  apply grant_update_ok; [by apply HS|done..].
Qed.

Lemma entry_ok_parent id m p :
  entry_ok id m → wf_id p → entry_ok id m{{ te_CreatorTaskID := p }}.
Proof. by intros [? ? ? ? ? ?] ?; split. Qed.

Lemma sim_parentChanged s w id t m p :
  Sim s w → st_tasks s !! id = Some m → wf_id p →
  let e := m{{ te_CreatorTaskID := p }} in
  ∃ w', Sim (writeParentChangedLocked t e (put id e s)) w'.
Proof.
  intros HS Hm Hp e. pose proof (sim_ok _ _ HS id m Hm) as Hok. eexists.
  apply (sim_edit s w id t _ m e); try done.
  - by apply entry_ok_parent.
  - by apply (ok_ID _ _ Hok).
  - intros r Hr. eexists. split; [reflexivity|].
    destruct Hr. split; try done. by apply (parentFromHex_creatorHex p).
Qed.

Lemma sim_SetParent t id p s w :
  Sim s w → wf_id p → ∃ w', Sim (SetParent t id p s).1 w'.
Proof.
  intros HS Hp. unfold SetParent. destruct (st_tasks s !! id) as [m|] eqn:Hm; [|by eexists].
  by eapply sim_parentChanged.
Qed.

Lemma put_wal_write id e t ev s : put id e (wal_write t ev s) = wal_write t ev (put id e s).
Proof. unfold wal_write. change (st_wal (put id e s)) with (st_wal s). by destruct (st_wal s). Qed.

Lemma wal_write_tasks t ev s : st_tasks (wal_write t ev s) = st_tasks s.
Proof. unfold wal_write. by destruct (st_wal s). Qed.

Lemma put_put id e e' s : put id e' (put id e s) = put id e' s.
Proof.
  unfold put. destruct s as [tasks o w c].
  transitivity (mkStore (<[id:=e']> (<[id:=e]> tasks)) o w c); [done|]. by rewrite insert_insert_eq.
Qed.

Lemma wf_taskIDFromHex h : wf_id (taskIDFromHex h).
Proof.
  unfold taskIDFromHex, copy16. split.
  - rewrite length_take, length_app. unfold zeroID. rewrite length_replicate. lia.
  - apply Forall_take, Forall_app. split; [|by apply Forall_replicate].
    generalize (chars h). clear h. intros l. induction l as [l IH] using list_len_ind.
    destruct l as [|a [|b l]]; [constructor..|]. cbn.
    destruct (hexval a) as [x|] eqn:Ha; [|constructor]. destruct (hexval b) as [y|] eqn:Hb; [|constructor].
    apply hexval_bound in Ha, Hb. constructor; [lia|]. apply IH. cbn. lia.
Qed.

Lemma sim_SwapWithParent t1 t2 id s w :
  Sim s w → ∃ w', Sim (SwapWithParent t1 t2 id s).1 w'.
Proof.
  intros HS. unfold SwapWithParent. destruct (st_tasks s !! id) as [m|] eqn:Hm; [|by eexists].
  destruct (bool_decide _); [by eexists|].
  set (pHex := EncodeToString (te_CreatorTaskID m)).
  destruct (st_tasks s !! pHex) as [p|] eqn:Hp; [|by eexists].
  destruct (bool_decide (taskIDFromHex id = zeroID)); [by eexists|].
  pose proof (wf_taskIDFromHex id) as Hwf. pose proof (ok_creator _ _ (sim_ok _ _ HS _ _ Hp)) as Hg.
  set (m1 := m{{ te_CreatorTaskID := te_CreatorTaskID p }}).
  destruct (bool_decide_reflect (pHex = id)) as [Heq|Hne]; cbn [fst].
  - set (m2 := m1{{ te_CreatorTaskID := taskIDFromHex id }}). rewrite Heq, put_put.
    destruct (sim_parentChanged s w id t1 m (taskIDFromHex id) HS Hm Hwf) as [w1 HS1].
    change (m{{ te_CreatorTaskID := taskIDFromHex id }}) with m2 in HS1.
    unfold writeParentChangedLocked in *.
    edestruct (sim_parentChanged _ w1 id t2 m2 (taskIDFromHex id) HS1) as [w2 HS2]; [|done|].
    { by rewrite wal_write_tasks, put_lookup, decide_True. }
    change (m2{{ te_CreatorTaskID := taskIDFromHex id }}) with m2 in HS2.
    unfold writeParentChangedLocked in HS2. rewrite put_wal_write, put_put in HS2. by exists w2.
  - destruct (sim_parentChanged s w id t1 m _ HS Hm Hg) as [w1 HS1]. fold m1 in HS1.
    edestruct (sim_parentChanged _ w1 pHex t2 p (taskIDFromHex id) HS1) as [w2 HS2]; [|done|].
    { unfold writeParentChangedLocked. by rewrite wal_write_tasks, put_lookup, decide_False. }
    unfold writeParentChangedLocked in *. rewrite put_wal_write in HS2. by exists w2.
Qed.

(** ** Lifecycle *)

Lemma stamped_Ts t ev : ev_Ts ev ≠ 0%Z → stamped t ev = ev.
Proof. intros H. unfold stamped. by rewrite (proj2 (Z.eqb_neq _ _) H). Qed.

(** The steps that only touch the memory-only half. *)
Ltac silent HS :=
  match goal with
  | |- context [st_tasks ?s !! ?id] =>
      destruct (st_tasks s !! id) as [m|] eqn:Hm; [|by eexists];
      pose proof (sim_ok _ _ HS _ _ Hm) as Hok; eexists;
      apply (sim_put s _ id m); [exact HS|exact Hm|by destruct Hok; split|];
      intros r Hr; by destruct Hr; split
  end.

Lemma sim_SetProgress id text at_ s w : Sim s w → ∃ w', Sim (SetProgress id text at_ s).1 w'.
Proof. intros HS. unfold SetProgress. silent HS. Qed.

Lemma sim_SetLifecycle id st rp at_ s w : Sim s w → ∃ w', Sim (SetLifecycle id st rp at_ s).1 w'.
Proof.
  intros HS. unfold SetLifecycle. destruct (st_tasks s !! id) as [m|] eqn:Hm; [|by eexists].
  destruct (rp <? _)%Z; [by eexists|]. pose proof (sim_ok _ _ HS _ _ Hm) as Hok.
  eexists. apply (sim_put s _ id m); [exact HS|exact Hm|by destruct Hok; split|].
  intros r Hr; by destruct Hr; split.
Qed.

Lemma sim_restoreProgress l s w : Sim s w → ∃ w', Sim (restoreProgress l s).1 w'.
Proof. intros HS. unfold restoreProgress. silent HS. Qed.

Lemma sim_SetWorktreeDir id wt s w : Sim s w → ∃ w', Sim (SetWorktreeDir id wt s).1 w'.
Proof. intros HS. unfold SetWorktreeDir. silent HS. Qed.

Lemma sim_SetResumeConversation id b s w : Sim s w → ∃ w', Sim (SetResumeConversation id b s).1 w'.
Proof. intros HS. unfold SetResumeConversation. silent HS. Qed.

Lemma sim_SetRingBufferBytes id n s w : Sim s w → ∃ w', Sim (SetRingBufferBytes id n s).1 w'.
Proof. intros HS. unfold SetRingBufferBytes. silent HS. Qed.

Lemma sim_SetDetached now id s w : Sim s w → ∃ w', Sim (SetDetached now id s).1 w'.
Proof.
  intros HS. unfold SetDetached. destruct (st_tasks s !! id) as [m|] eqn:Hm; [|by eexists].
  destruct (bool_decide_reflect (te_Status m = Running)) as [Hst|]; [|by eexists].
  pose proof (sim_ok _ _ HS _ _ Hm) as Hok. eexists.
  apply (sim_put s _ id m); [exact HS|exact Hm|by destruct Hok; split|].
  intros r Hr; destruct Hr; split; try done. by rewrite rec_Status0, Hst.
Qed.

Lemma sim_MarkAttached id b s w : Sim s w → ∃ w', Sim (MarkAttached id b s).1 w'.
Proof.
  intros HS. unfold MarkAttached. destruct (st_tasks s !! id) as [m|] eqn:Hm; [|by eexists].
  pose proof (sim_ok _ _ HS _ _ Hm) as Hok. eexists.
  apply (sim_put s _ id m); [exact HS|exact Hm|..].
  - destruct (_ && _); by destruct Hok; split.
  - intros r Hr. destruct (b && _) eqn:E; [|by destruct Hr; split].
    apply andb_true_iff in E as [_ E]. breflect. change (te_Status m = Detached) in E.
    destruct Hr; split; try done. by rewrite rec_Status0, E.
Qed.

(** A logged transition: the entry and the record it leaves. *)
Lemma sim_transition s w id t ev m m' h :
  Sim s w → st_tasks s !! id = Some m → entry_ok id m' →
  ev_TaskID ev = id → ev_Type ev ≠ "task_created" → ev_Type ev ≠ "task_pruned" →
  ev_Type ev ≠ "task_restored" →
  (∀ r, Recorded m r → ∃ r', editFromWAL (stamped t ev) r = Some r' ∧ Recorded m' r') →
  ∃ w', Sim (call h (wal_write t ev (put id m' s))) w'.
Proof. intros. eexists. apply sim_call. by eapply sim_edit. Qed.

Lemma sim_Assign now t id runner wt sk s w :
  Sim s w → now ≠ 0%Z → ∃ w', Sim (Assign now t id runner wt sk s) w'.
Proof.
  intros HS Hnow. unfold Assign. destruct (st_tasks s !! id) as [m|] eqn:Hm; [|by eexists].
  pose proof (sim_ok _ _ HS _ _ Hm) as Hok.
  destruct (bool_decide_reflect (te_Status m = Detached)) as [Hst|Hst]; cbn [negb].
  - eexists. apply (sim_put s _ id m); [exact HS|exact Hm|by destruct Hok; split|].
    intros r Hr; destruct Hr; split; try done. by rewrite rec_Status0, Hst.
  - eapply sim_transition; [exact HS|exact Hm|by destruct Hok; split|done..|].
    intros r Hr. rewrite stamped_Ts by done. eexists. split; [reflexivity|].
    destruct Hr; split; try done; by destruct (RunnerIDFromHex _).
Qed.

Lemma edit_finished id exit msg now r :
  editFromWAL (walEvent "task_finished" id){{ ev_ExitCode := Some exit; ev_DiffInfo := msg; ev_Ts := now }} r
  = Some r{{ te_Status := if (exit =? 0)%Z then Succeeded else Failed; te_ExitCode := Some exit;
             te_ErrorMsg := msg; te_EndedAt := Some now }}.
Proof. destruct r. cbn. by destruct (exit =? 0)%Z. Qed.

Lemma sim_Finish now t id exit msg s w :
  Sim s w → now ≠ 0%Z → ∃ w', Sim (Finish now t id exit msg s) w'.
Proof.
  intros HS Hnow. unfold Finish. destruct (st_tasks s !! id) as [m|] eqn:Hm; [|by eexists].
  pose proof (sim_ok _ _ HS _ _ Hm) as Hok.
  assert (∀ st, st = (if (exit =? 0)%Z then Succeeded else Failed) →
    ∃ w', Sim (call (OnFinish id exit st) (wal_write t
      (walEvent "task_finished" id){{ ev_ExitCode := Some exit; ev_DiffInfo := msg; ev_Ts := now }}
      (put id m{{ te_Status := st; te_IsAttached := false; te_ExitCode := Some exit; te_ErrorMsg := msg;
                  te_EndedAt := Some now }} s))) w') as Hgo.
  { intros st ->. eapply sim_transition; [exact HS|exact Hm|by destruct Hok; split|done..|].
    intros r Hr. rewrite stamped_Ts, edit_finished by done. eexists. split; [reflexivity|].
    by destruct (exit =? 0)%Z, Hr; split. }
  destruct (te_Status m); try (by eexists); by apply Hgo.
Qed.

Lemma sim_Cancel now t id s w :
  Sim s w → now ≠ 0%Z → ∃ w', Sim (Cancel now t id s) w'.
Proof.
  intros HS Hnow. unfold Cancel. destruct (st_tasks s !! id) as [m|] eqn:Hm; [|by eexists].
  pose proof (sim_ok _ _ HS _ _ Hm) as Hok.
  assert (∃ w', Sim (call (OnCancel id) (wal_write t (walEvent "task_cancelled" id){{ ev_Ts := now }}
    (put id m{{ te_Status := Cancelled; te_IsAttached := false; te_EndedAt := Some now }} s))) w') as Hgo.
  { eapply sim_transition; [exact HS|exact Hm|by destruct Hok; split|done..|].
    intros r Hr. rewrite stamped_Ts by done. eexists. split; [reflexivity|]. by destruct Hr; split. }
  destruct (te_Status m); try (by eexists); try exact Hgo. eexists. by apply sim_call.
Qed.

Lemma sim_MarkFailed now t id reason s w :
  Sim s w → now ≠ 0%Z → ∃ w', Sim (MarkFailed now t id reason s) w'.
Proof.
  intros HS Hnow. unfold MarkFailed. destruct (st_tasks s !! id) as [m|] eqn:Hm; [|by eexists].
  pose proof (sim_ok _ _ HS _ _ Hm) as Hok.
  assert (∃ w', Sim (call (OnFinish id (-1) Failed) (wal_write t
    (walEvent "task_failed" id){{ ev_Reason := reason; ev_Ts := now }}
    (put id m{{ te_Status := Failed; te_IsAttached := false; te_EndedAt := Some now;
                te_ErrorMsg := reason }} s))) w') as Hgo.
  { eapply sim_transition; [exact HS|exact Hm|by destruct Hok; split|done..|].
    intros r Hr. rewrite stamped_Ts by done. eexists. split; [reflexivity|]. by destruct Hr; split. }
  destruct (te_Status m); try (by eexists); exact Hgo.
Qed.

Lemma sim_FailHeld now t id reason s w :
  Sim s w → now ≠ 0%Z → ∃ w', Sim (FailHeld now t id reason s) w'.
Proof.
  intros HS Hnow. unfold FailHeld. destruct (st_tasks s !! id) as [m|] eqn:Hm; [|by eexists].
  pose proof (sim_ok _ _ HS _ _ Hm) as Hok. destruct (bool_decide _); [|by eexists].
  eapply sim_transition; [exact HS|exact Hm|by destruct Hok; split|done..|].
  intros r Hr. rewrite stamped_Ts by done. eexists. split; [reflexivity|]. by destruct Hr; split.
Qed.

Lemma sim_MarkHold t id runner hold dl s w :
  Sim s w → ∃ w', Sim (MarkHold t id runner hold dl s).1 w'.
Proof.
  intros HS. unfold MarkHold. destruct (st_tasks s !! id) as [m|] eqn:Hm; [|by eexists].
  pose proof (sim_ok _ _ HS _ _ Hm) as Hok. destruct (_ && _); [by eexists|].
  eapply sim_transition; [exact HS|exact Hm|by destruct Hok; split|done..|].
  intros r Hr. unfold stamped.
  destruct (_ =? 0)%Z; (eexists; split; [reflexivity|]); by destruct Hr; split.
Qed.

Lemma sim_MarkReadopted now t id runner hold d s w :
  Sim s w → ∃ w', Sim (MarkReadopted now t id runner hold d s).1 w'.
Proof.
  intros HS. unfold MarkReadopted. destruct (st_tasks s !! id) as [m|] eqn:Hm; [|by eexists].
  pose proof (sim_ok _ _ HS _ _ Hm) as Hok. destruct (bool_decide _); [|by eexists].
  eapply sim_transition; [exact HS|exact Hm|by destruct d, Hok; split|done..|].
  intros r Hr. unfold stamped.
  destruct (_ =? 0)%Z; (eexists; split; [reflexivity|]); by destruct d, Hr; split.
Qed.

Lemma sim_Resume t1 t2 t3 id prompt args sel bound k u nk profile resumer s w :
  Sim s w → op_ok (OpResume t1 t2 t3 id prompt args sel bound k u nk profile resumer) →
  ∃ w', Sim (Resume t1 t2 t3 id prompt args sel bound k u nk profile resumer s).1 w'.
Proof.
  intros HS (Ht & Hk & Hnk & Hg & Hrs). unfold Resume.
  destruct (st_tasks s !! id) as [m|] eqn:Hm; [|by eexists].
  pose proof (sim_ok _ _ HS _ _ Hm) as Hok. destruct (negb _); [by eexists|].
  set (e := m{{ te_Status := Queued; te_AssignedTo := _; te_WorktreeDir := _; te_StartedAt := _;
    te_EndedAt := _; te_ExitCode := _; te_ErrorMsg := _; te_Prompt := _; te_ExtraArgs := _;
    te_ResumeConversation := _; te_Selector := _; te_BoundRunnerID := _; te_ResumedByKind := _;
    te_Kind := _; te_AgentProfile := _; te_LifecycleReportedAt := _ }}).
  set (ev := (walEvent "task_resumed" id){{ ev_Prompt := _; ev_ExtraArgs := _; ev_Selector := _;
    ev_BoundRunnerID := _; ev_ResumedByKind := _; ev_Kind := _; ev_AgentProfile := _ }}).
  assert (entry_ok id e) as Hoke by (by destruct Hok; split).
  assert (Sim (wal_write t1 ev (put id e s)) (w ++ [stamped t1 ev])) as HS1.
  { apply (sim_edit s w id t1 ev m e); try done. intros r Hr. eexists. split; [reflexivity|].
    destruct Hr; split; try done; by apply uint8_id. }
  destruct (GrantUpdate_Any u); [|eexists; by apply sim_call].
  cbn [fst]. set (by_ := mkAuthorityWrite AuthoritySource_Resume resumer).
  destruct (sim_capsChanged _ _ id t3 e (stampAuthority t2 by_ (applyBound u (applyCaps u e))) HS1) as [w' HS2].
  - by rewrite wal_write_tasks, put_lookup, decide_True.
  - by apply grant_update_ok.
  - apply update_same_but_grant.
  - exists w'. by apply sim_call.
Qed.

Lemma wf_zeroID : wf_id zeroID.
Proof. apply (bool_decide_unpack _). by vm_compute. Qed.

(** The entry [Create] makes and the record it writes. *)
Lemma create_recorded id t1 t2 t3 repo prompt kind origin creator bound sel args g profile :
  op_ok (OpCreate id t1 t2 t3 repo prompt kind origin creator bound sel args g profile) →
  ∃ e ev, entry_ok id e ∧ ev_Type ev = "task_created" ∧ ev_TaskID ev = id ∧
    Recorded e (entryFromWAL ev) ∧
    ∀ s w, st_wal s = Some w →
      Create id t1 t2 t3 repo prompt kind origin creator bound sel args g profile s =
        mkStore (<[id := e]> (st_tasks s)) (st_order s ++ [id]) (Some (w ++ [ev]))
          (st_calls s ++ [OnCreate id]).
Proof.
  intros (Ht & Hk & Ho & Hcr & Hg). unfold Create.
  set (e0 := zeroEntry{{ te_ID := id; te_RepoPath := _; te_Prompt := _; te_Kind := _; te_OriginKind := _;
    te_CreatorTaskID := _; te_Capabilities := _; te_Scope := _; te_DelegateCaps := _;
    te_DelegateScope := _; te_AgentProfile := _; te_Status := _; te_CreatedAt := _;
    te_BoundRunnerID := _; te_Selector := _; te_ExtraArgs := _ }}).
  set (e := if bool_decide (creator = zeroID) then _ else _).
  set (ev0 := (walEvent "task_created" id){{ ev_RepoPath := _; ev_Prompt := _; ev_Kind := _;
    ev_OriginKind := _; ev_CreatorTaskID := _; ev_BoundRunnerID := _; ev_Selector := _;
    ev_ExtraArgs := _; ev_Capabilities := _; ev_AgentProfile := _ }}).
  set (ev := applyAuthorityToWAL e _).
  assert (entry_ok id e) as Hok.
  { unfold e. destruct (bool_decide _); split; try done; try (by intros [= ->]). apply wf_zeroID. }
  exists e, (stamped t3 ev). split; [exact Hok|].
  rewrite !(proj1 (stamped_fields _ _)), !(proj2 (stamped_fields _ _)).
  split; [done|]. split; [done|]. split; cycle 1.
  { intros s w Hw. rewrite (wal_write_Some t3 ev _ w) by done. done. }
  destruct Hg as (Hc & Hs & Hdc & Hds & Hdo).
  assert (ev_Capabilities ev0 = g_Caps g) as Ecaps by (by apply uint32_id).
  assert (scopeFromWAL (stamped t3 ev) = replayed_scope (g_Caps g) (g_Scope g)) as Escope.
  { rewrite <-Ecaps. exact (scope_wal_roundtrip_gen (g_Scope g) ev0 Hs). }
  assert (delegationFromWAL (stamped t3 ev) = (g_DelegateCaps g, g_DelegateScope g)) as Edel.
  { exact (delegation_wal_roundtrip (g_DelegateCaps g) (g_DelegateScope g) (walEvent "" "") Hds Hdo Hdc). }
  set (ev1 := applyDelegationToWAL (g_DelegateCaps g) (g_DelegateScope g) (applyScopeToWAL (g_Scope g) ev0)).
  destruct (authority_roundtrip id e ev1 zeroEntry Hok) as (A1 & A2 & A3).
  assert (∀ P : TaskEntry → Prop, P (stampAuthority t2 (mkAuthorityWrite AuthoritySource_OperatorSpawn zeroID) e0) →
    P (stampAuthority t2 (mkAuthorityWrite AuthoritySource_Spawn creator) e0) → P e) as He.
  { intros P H1 H2. unfold e. by destruct (bool_decide _). }
  unfold entryFromWAL. rewrite Escope, Edel. cbn [fst snd].
  split; try done; try (by apply He).
  - apply He; by apply uint8_id.
  - apply He; by apply uint8_id.
  - apply He; by apply parentFromHex_creatorHex.
Qed.

Lemma sim_Create id t1 t2 t3 repo prompt kind origin creator bound sel args g profile s w :
  Sim s w → op_ok (OpCreate id t1 t2 t3 repo prompt kind origin creator bound sel args g profile) →
  ∃ w', Sim (Create id t1 t2 t3 repo prompt kind origin creator bound sel args g profile s) w'.
Proof.
  intros HS Hop. destruct (create_recorded _ _ _ _ _ _ _ _ _ _ _ _ _ _ Hop)
    as (e & ev & Hok & Ety & Eid & Hrec & Heq).
  rewrite (Heq s w (sim_wal _ _ HS)). destruct HS as [H1 H2 H3 H4 H5 H6]. exists (w ++ [ev]).
  assert (∃ calls wl, replayed (w ++ [ev]) = mkStore (<[id := entryFromWAL ev]> (st_tasks (replayed w)))
    (st_order (replayed w) ++ [id]) wl calls) as (calls & wl & Hrep).
  { rewrite replayed_snoc. unfold replay_event. rewrite Ety, Eid. by eexists _, _. }
  split; rewrite ?Hrep; cbn [st_wal st_order st_tasks].
  - done.
  - apply Forall_app. split; [done|]. constructor; [by rewrite Ety|done].
  - by rewrite H3.
  - intros j. rewrite !lookup_insert. case_decide; [done|apply H4].
  - intros j [Hj|Hj]%elem_of_app; rewrite lookup_insert; case_decide; try done; [by apply H5|].
    by apply list_elem_of_singleton in Hj as ->.
  - intros j m. rewrite lookup_insert. case_decide; [by intros [= <-]; subst|apply H6].
Qed.

Lemma sim_step s w o : Sim s w → op_ok o → ∃ w', Sim (step s o) w'.
Proof.
  intros HS Hok. destruct o; cbn [step op_ok] in *;
    eauto using sim_Create, sim_SetCaps, sim_SetParent, sim_SwapWithParent, sim_SetProgress,
      sim_SetLifecycle, sim_restoreProgress, sim_SetWorktreeDir, sim_SetResumeConversation,
      sim_SetRingBufferBytes, sim_Resume, sim_Assign, sim_Finish, sim_Cancel, sim_MarkFailed,
      sim_SetDetached, sim_FailHeld, sim_MarkHold, sim_MarkReadopted, sim_MarkAttached,
      sim_PruneByIDs, sim_PruneTerminal.
Qed.

Lemma sim_empty : Sim (SetWAL (Some []) NewTaskStore) [].
Proof.
  split.
  - done.
  - by apply Forall_nil.
  - done.
  - done.
  - intros id Hid. by apply not_elem_of_nil in Hid.
  - intros id m Hm. by apply (lookup_empty_Some id m) in Hm.
Qed.

Lemma sim_run ops s w : Sim s w → Forall op_ok ops → ∃ w', Sim (run s ops) w'.
Proof.
  intros HS Hops. revert s w HS. induction Hops as [|o ops Ho _ IH]; intros s w HS; [by eexists|].
  destruct (sim_step s w o HS Ho) as [w' HS']. by apply (IH (step s o) w').
Qed.

(** Under the simulation, the replayed store before the sweep. *)
Lemma sim_ReplayEvents s w now :
  Sim s w →
  st_order (ReplayEvents now w NewTaskStore) = st_order s ∧
  ∀ id, match st_tasks s !! id, st_tasks (ReplayEvents now w NewTaskStore) !! id with
        | Some m, Some r' => ∃ r, Recorded m r ∧ r' = sweep_entry now r
        | None, None => True
        | _, _ => False
        end.
Proof.
  intros HS. unfold ReplayEvents. rewrite (lastRestore_none _ (sim_no_restore _ _ HS)).
  fold (replayed w). split; [exact (sim_order _ _ HS)|]. intros id.
  pose proof (sim_tasks _ _ HS id) as Ht.
  assert (st_tasks (replayed w){{ st_tasks := sweep_entry now <$> st_tasks (replayed w) }} !! id
    = sweep_entry now <$> st_tasks (replayed w) !! id) as ->
    by (transitivity ((sweep_entry now <$> st_tasks (replayed w)) !! id); [done|apply lookup_fmap]).
  destruct (st_tasks s !! id), (st_tasks (replayed w) !! id); cbn [fmap option_fmap option_map]; eauto.
Qed.

(** ** The lifecycle as a state machine *)

(** The status edges an operation may take the task [id] through. *)
Definition edge (o : op) (id : string) (st st' : TaskStatus) : Prop :=
  match o with
  | OpCreate id' _ _ _ _ _ _ _ _ _ _ _ _ _ => id' = id ∧ st' = Queued
  | OpResume _ _ _ id' _ _ _ _ _ _ _ _ _ => id' = id ∧ terminal st = true ∧ st' = Queued
  | OpAssign _ _ id' _ _ _ => id' = id ∧ st' = Running
  | OpFinish _ _ id' exit _ =>
      id' = id ∧ st ≠ Succeeded ∧ st ≠ Failed ∧ st' = (if (exit =? 0)%Z then Succeeded else Failed)
  | OpCancel _ _ id' => id' = id ∧ terminal st = false ∧ st' = Cancelled
  | OpMarkFailed _ _ id' _ => id' = id ∧ terminal st = false ∧ st ≠ Held ∧ st' = Failed
  | OpSetDetached _ id' => id' = id ∧ st = Running ∧ st' = Detached
  | OpFailHeld _ _ id' _ => id' = id ∧ st = Held ∧ st' = Failed
  | OpMarkHold _ id' _ _ _ => id' = id ∧ (st = Running ∨ st = Detached) ∧ st' = Held
  | OpMarkReadopted _ _ id' _ _ d => id' = id ∧ st = Held ∧ st' = (if d then Detached else Running)
  | OpMarkAttached id' b => id' = id ∧ b = true ∧ st = Detached ∧ st' = Running
  | _ => False
  end.

Lemma call_tasks h s : st_tasks (call h s) = st_tasks s.
Proof. done. Qed.

Lemma applyGrant_status u t by_ m :
  te_Status (stampAuthority t by_ (applyBound u (applyCaps u m))) = te_Status m.
Proof. apply (sbg_Status _ _ (update_same_but_grant u t by_ m)). Qed.

(** A lookup after a write to one entry. *)
Lemma put_cases id id' e s m m' :
  st_tasks s !! id = Some m → st_tasks (put id' e s) !! id = Some m' →
  m' = m ∨ id' = id ∧ m' = e.
Proof. intros Hm. rewrite put_lookup. case_decide; [naive_solver|]. rewrite Hm. naive_solver. Qed.

Lemma log_pruned_tasks now l s : st_tasks (log_pruned now l s) = st_tasks s.
Proof.
  unfold log_pruned.
  assert (∀ l s, st_tasks (foldl (λ s id, call (OnPrune id) s) s l) = st_tasks s) as ->.
  { clear. induction l as [|x l IH]; intros s; [done|]. cbn [foldl]. by rewrite IH. }
  revert s. induction l as [|x l IH]; intros s; cbn [foldl]; [done|]. rewrite IH. apply wal_write_tasks.
Qed.

Lemma PruneByIDs_lookup now allowed ids force s id m' :
  st_tasks (PruneByIDs now allowed ids force s).1 !! id = Some m' → st_tasks s !! id = Some m'.
Proof.
  unfold PruneByIDs.
  pose proof (prune_one_foldl allowed force ids (st_tasks s) (mkPruneCounts [] 0 0)) as Hf.
  destruct (foldl _ _ ids) as [tasks c]. destruct Hf as (l & _ & _ & _ & Ht). cbn [fst].
  rewrite log_pruned_tasks. intros H. change (tasks !! id = Some m') in H. rewrite Ht in H.
  by case_bool_decide.
Qed.

Lemma PruneTerminal_lookup now allowed cutoff s id m' :
  st_tasks (PruneTerminal now allowed cutoff s).1 !! id = Some m' → st_tasks s !! id = Some m'.
Proof.
  unfold PruneTerminal. intros H.
  assert (∀ ids t k p, let '(t', _, _) := foldl (prune_terminal_one allowed cutoff) (t, k, p) ids in
    ∀ id m, t' !! id = Some m → t !! id = Some m) as Hf.
  { clear. induction ids as [|x ids IH]; intros t k p; cbn [foldl]; [done|].
    assert (∃ t1 k1 p1, prune_terminal_one allowed cutoff (t, k, p) x = (t1, k1, p1) ∧
      ∀ id m, t1 !! id = Some m → t !! id = Some m) as (t1 & k1 & p1 & -> & Hsub).
    { unfold prune_terminal_one. destruct (t !! x); [|eauto 6]. destruct (negb _); [eauto 6|].
      destruct (_ && _); [|eauto 6]. eexists _, _, _. split; [done|].
      intros id m [_ ?]%lookup_delete_Some. done. }
    specialize (IH t1 k1 p1). destruct (foldl _ _ ids) as [[t' ?] ?]. eauto. }
  specialize (Hf (st_order s) (st_tasks s) [] []).
  destruct (foldl _ _ (st_order s)) as [[tasks keep] pruned]. cbn [fst] in H.
  rewrite log_pruned_tasks in H. by apply Hf.
Qed.

Section edges.
Context (s : Store) (id : string) (m m' : TaskEntry) (Hm : st_tasks s !! id = Some m).

(** No entry, or a refused guard: nothing changed. *)
Local Ltac same H' := cbn [fst] in H'; rewrite ?call_tasks in H'; left; congruence.
(** One entry written: another task, or this one. *)
Local Ltac edged H' :=
  cbn [fst] in H'; unfold writeParentChangedLocked, writeCapsChangedLocked in H';
  rewrite ?call_tasks, ?wal_write_tasks in H';
  apply (put_cases _ _ _ _ _ _ Hm) in H' as [->|[Heq ->]]; [by left|];
  match goal with Ht : st_tasks s !! ?i = Some ?t, Heq : ?i = id |- _ =>
    rewrite Heq, Hm in Ht; injection Ht as <- end.
Local Ltac entry id' Ht := destruct (st_tasks s !! id') as [v|] eqn:Ht.

Lemma edge_Create id' t1 t2 t3 repo prompt kind origin creator bound sel args g profile :
  st_tasks (Create id' t1 t2 t3 repo prompt kind origin creator bound sel args g profile s) !! id = Some m' →
  te_Status m' = te_Status m ∨ id' = id ∧ te_Status m' = Queued.
Proof.
  intros H'. unfold Create in H'. rewrite call_tasks, wal_write_tasks in H'.
  apply (put_cases _ _ _ s _ _ Hm) in H' as [->|[-> ->]]; [by left|].
  right. split; [done|]. by destruct (bool_decide _).
Qed.

Lemma edge_SetCaps t1 t2 id' u by_ :
  st_tasks (SetCaps t1 t2 id' u by_ s).1 !! id = Some m' → te_Status m' = te_Status m ∨ False.
Proof.
  intros H'. unfold SetCaps in H'. entry id' Ht; [|same H']. edged H'. left. apply applyGrant_status.
Qed.

Lemma edge_SetParent t id' p :
  st_tasks (SetParent t id' p s).1 !! id = Some m' → te_Status m' = te_Status m ∨ False.
Proof. intros H'. unfold SetParent in H'. entry id' Ht; [|same H']. edged H'. by left. Qed.

Lemma edge_SwapWithParent t1 t2 id' :
  st_tasks (SwapWithParent t1 t2 id' s).1 !! id = Some m' → te_Status m' = te_Status m ∨ False.
Proof.
  intros H'. unfold SwapWithParent in H'. entry id' Ht; [|same H'].
  destruct (bool_decide _); [same H'|]. set (pHex := EncodeToString _) in *.
  destruct (st_tasks s !! pHex) as [p|] eqn:Hp; [|same H'].
  destruct (bool_decide (_ = zeroID)); [same H'|]. cbn [fst] in H'.
  unfold writeParentChangedLocked in H'. rewrite !wal_write_tasks, !put_lookup in H'. left.
  case_decide as E1.
  - injection H' as <-. destruct (bool_decide_reflect (pHex = id')) as [E2|E2].
    + rewrite <-E2, E1, Hm in Ht. by injection Ht as <-.
    + rewrite E1, Hm in Hp. by injection Hp as <-.
  - case_decide as E2; [|congruence]. injection H' as <-. subst id'.
    rewrite Hm in Ht. by injection Ht as <-.
Qed.

Lemma edge_SetProgress id' text at_ :
  st_tasks (SetProgress id' text at_ s).1 !! id = Some m' → te_Status m' = te_Status m ∨ False.
Proof. intros H'. unfold SetProgress in H'. entry id' Ht; [|same H']. edged H'. by left. Qed.

Lemma edge_SetWorktreeDir id' wt :
  st_tasks (SetWorktreeDir id' wt s).1 !! id = Some m' → te_Status m' = te_Status m ∨ False.
Proof. intros H'. unfold SetWorktreeDir in H'. entry id' Ht; [|same H']. edged H'. by left. Qed.

Lemma edge_SetResumeConversation id' b :
  st_tasks (SetResumeConversation id' b s).1 !! id = Some m' → te_Status m' = te_Status m ∨ False.
Proof. intros H'. unfold SetResumeConversation in H'. entry id' Ht; [|same H']. edged H'. by left. Qed.

Lemma edge_SetRingBufferBytes id' n :
  st_tasks (SetRingBufferBytes id' n s).1 !! id = Some m' → te_Status m' = te_Status m ∨ False.
Proof. intros H'. unfold SetRingBufferBytes in H'. entry id' Ht; [|same H']. edged H'. by left. Qed.

Lemma edge_restoreProgress l :
  st_tasks (restoreProgress l s).1 !! id = Some m' → te_Status m' = te_Status m ∨ False.
Proof. intros H'. unfold restoreProgress in H'. entry (pl_TaskID l) Ht; [|same H']. edged H'. by left. Qed.

Lemma edge_SetLifecycle id' st rp at_ :
  st_tasks (SetLifecycle id' st rp at_ s).1 !! id = Some m' → te_Status m' = te_Status m ∨ False.
Proof.
  intros H'. unfold SetLifecycle in H'. entry id' Ht; [|same H'].
  destruct (rp <? _)%Z; [same H'|]. edged H'. by left.
Qed.

Lemma edge_Resume t1 t2 t3 id' prompt args sel bound k u nk profile resumer :
  st_tasks (Resume t1 t2 t3 id' prompt args sel bound k u nk profile resumer s).1 !! id = Some m' →
  te_Status m' = te_Status m ∨ id' = id ∧ terminal (te_Status m) = true ∧ te_Status m' = Queued.
Proof.
  intros H'. unfold Resume in H'. entry id' Ht; [|same H'].
  destruct (terminal (te_Status v)) eqn:Hter; cbn [negb] in H'; [|same H'].
  destruct (GrantUpdate_Any u).
  - cbn [fst] in H'. unfold writeCapsChangedLocked in H'.
    rewrite call_tasks, wal_write_tasks, put_wal_write, wal_write_tasks, put_put in H'.
    apply (put_cases _ _ _ _ _ _ Hm) in H' as [->|[-> ->]]; [by left|].
    right. rewrite Hm in Ht. injection Ht as <-. split; [done|]. split; [done|].
    apply applyGrant_status.
  - edged H'. by right.
Qed.

Lemma edge_Assign now t id' runner wt sk :
  st_tasks (Assign now t id' runner wt sk s) !! id = Some m' →
  te_Status m' = te_Status m ∨ id' = id ∧ te_Status m' = Running.
Proof.
  intros H'. unfold Assign in H'. entry id' Ht; [|same H'].
  destruct (negb _); edged H'; by right.
Qed.

Lemma edge_Finish now t id' exit msg :
  st_tasks (Finish now t id' exit msg s) !! id = Some m' →
  te_Status m' = te_Status m ∨ id' = id ∧ te_Status m ≠ Succeeded ∧ te_Status m ≠ Failed ∧
    te_Status m' = (if (exit =? 0)%Z then Succeeded else Failed).
Proof.
  intros H'. unfold Finish in H'. entry id' Ht; [|same H'].
  destruct (te_Status v) eqn:Est; try (same H'); edged H'; right; by rewrite Est.
Qed.

Lemma edge_Cancel now t id' :
  st_tasks (Cancel now t id' s) !! id = Some m' →
  te_Status m' = te_Status m ∨ id' = id ∧ terminal (te_Status m) = false ∧ te_Status m' = Cancelled.
Proof.
  intros H'. unfold Cancel in H'. entry id' Ht; [|same H'].
  destruct (te_Status v) eqn:Est; try (same H'); edged H'; right; by rewrite Est.
Qed.

Lemma edge_MarkFailed now t id' reason :
  st_tasks (MarkFailed now t id' reason s) !! id = Some m' →
  te_Status m' = te_Status m ∨
  id' = id ∧ terminal (te_Status m) = false ∧ te_Status m ≠ Held ∧ te_Status m' = Failed.
Proof.
  intros H'. unfold MarkFailed in H'. entry id' Ht; [|same H'].
  destruct (te_Status v) eqn:Est; try (same H'); edged H'; right; by rewrite Est.
Qed.

Lemma edge_SetDetached now id' :
  st_tasks (SetDetached now id' s).1 !! id = Some m' →
  te_Status m' = te_Status m ∨ id' = id ∧ te_Status m = Running ∧ te_Status m' = Detached.
Proof.
  intros H'. unfold SetDetached in H'. entry id' Ht; [|same H'].
  destruct (bool_decide_reflect (te_Status v = Running)); cbn [negb] in H'; [|same H'].
  edged H'. by right.
Qed.

Lemma edge_FailHeld now t id' reason :
  st_tasks (FailHeld now t id' reason s) !! id = Some m' →
  te_Status m' = te_Status m ∨ id' = id ∧ te_Status m = Held ∧ te_Status m' = Failed.
Proof.
  intros H'. unfold FailHeld in H'. entry id' Ht; [|same H'].
  destruct (bool_decide_reflect (te_Status v = Held)); cbn [negb] in H'; [|same H'].
  edged H'. by right.
Qed.

Lemma edge_MarkHold t id' runner hold dl :
  st_tasks (MarkHold t id' runner hold dl s).1 !! id = Some m' →
  te_Status m' = te_Status m ∨
  id' = id ∧ (te_Status m = Running ∨ te_Status m = Detached) ∧ te_Status m' = Held.
Proof.
  intros H'. unfold MarkHold in H'. entry id' Ht; [|same H'].
  destruct (_ && _) eqn:E; [same H'|].
  apply andb_false_iff in E. rewrite !negb_false_iff, !bool_decide_eq_true in E.
  edged H'. by right.
Qed.

Lemma edge_MarkReadopted now t id' runner hold d :
  st_tasks (MarkReadopted now t id' runner hold d s).1 !! id = Some m' →
  te_Status m' = te_Status m ∨
  id' = id ∧ te_Status m = Held ∧ te_Status m' = (if d then Detached else Running).
Proof.
  intros H'. unfold MarkReadopted in H'. entry id' Ht; [|same H'].
  destruct (bool_decide_reflect (te_Status v = Held)); cbn [negb] in H'; [|same H'].
  edged H'. right. by destruct d.
Qed.

Lemma edge_MarkAttached id' b :
  st_tasks (MarkAttached id' b s).1 !! id = Some m' →
  te_Status m' = te_Status m ∨
  id' = id ∧ b = true ∧ te_Status m = Detached ∧ te_Status m' = Running.
Proof.
  intros H'. unfold MarkAttached in H'. entry id' Ht; [|same H'].
  edged H'. destruct (b && _) eqn:E; [|by left]. right.
  apply andb_true_iff in E as [-> E]. breflect. done.
Qed.
End edges.

(** ** The history of one task *)

(** What a record does to the entry of [id]; [keep] says whether its prunes are
    ignored. *)
Definition entry_event (keep : bool) (id : string) (o : option TaskEntry) (ev : WALEvent)
    : option TaskEntry :=
  if negb (bool_decide (ev_TaskID ev = id)) then o
  else if String.eqb (ev_Type ev) "task_created" then Some (entryFromWAL ev)
  else if String.eqb (ev_Type ev) "task_pruned" then (if keep then o else None)
  else match o with
  | None => None
  | Some t => match editFromWAL ev t with Some t' => Some t' | None => Some t end
  end.

Definition entry_history (keep : bool) (id : string) (w : list WALEvent) : option TaskEntry :=
  foldl (entry_event keep id) None w.

Lemma replay_event_lookup rs i ev s id :
  st_tasks (replay_event rs i ev s) !! id =
    entry_event (match rs !! id with Some at_ => (i <? at_)%nat | None => false end) id
      (st_tasks s !! id) ev.
Proof.
  unfold replay_event, entry_event.
  destruct (bool_decide_reflect (ev_TaskID ev = id)) as [->|Hne]; cbn [negb].
  - destruct (String.eqb _ "task_created"); [by apply put_lookup_eq|].
    destruct (String.eqb _ "task_pruned").
    + destruct (match rs !! id with Some at_ => (i <? at_)%nat | None => false end); [done|].
      destruct (st_tasks s !! id) eqn:E; [|done].
      transitivity (delete id (st_tasks s) !! id); [done|]. apply lookup_delete_eq.
    + destruct (st_tasks s !! id) as [t|] eqn:E; [|done].
      destruct (editFromWAL ev t); [apply put_lookup_eq|done].
  - destruct (String.eqb _ "task_created"); [by apply put_lookup_ne|].
    destruct (String.eqb _ "task_pruned").
    + destruct (match rs !! ev_TaskID ev with Some at_ => (i <? at_)%nat | None => false end); [done|].
      destruct (st_tasks s !! ev_TaskID ev) eqn:E; [|done].
      transitivity (delete (ev_TaskID ev) (st_tasks s) !! id); [done|]. by apply lookup_delete_ne.
    + destruct (st_tasks s !! ev_TaskID ev) as [t|]; [|done].
      destruct (editFromWAL ev t); [by apply put_lookup_ne|done].
Qed.

Lemma replayed_lookup w id : st_tasks (replayed w) !! id = entry_history false id w.
Proof.
  induction w as [|ev w IH] using rev_ind; [done|].
  unfold entry_history in *. rewrite replayed_snoc, foldl_app, replay_event_lookup, IH, lookup_empty. done.
Qed.

(** While a task is live, its prunes have had no lasting effect. *)
Lemma history_keep id w r : entry_history false id w = Some r → entry_history true id w = Some r.
Proof.
  revert r. induction w as [|ev w IH] using rev_ind; intros r; [done|].
  unfold entry_history in *. rewrite !foldl_app. cbn [foldl]. unfold entry_event at 1 3.
  destruct (negb _); [apply IH|]. destruct (String.eqb _ "task_created"); [done|].
  destruct (String.eqb _ "task_pruned"); [done|].
  destruct (foldl (entry_event false id) None w) as [t|]; [|done]. by rewrite (IH t eq_refl).
Qed.

Lemma wanted_history_lookup id w :
  st_tasks (replayed (wanted_history [id] w)) !! id = entry_history true id w.
Proof.
  unfold wanted_history.
  induction w as [|ev w IH] using rev_ind; [done|].
  rewrite filter_app, (filter_singleton _ _ []). unfold entry_history in *. rewrite foldl_app. cbn [foldl].
  rewrite <-IH. unfold entry_event.
  destruct (bool_decide_reflect (ev_TaskID ev = id)) as [Hid|Hid]; cbn [negb].
  - destruct (String.eqb_spec (ev_Type ev) "task_pruned") as [Hp|Hp].
    + rewrite decide_False, app_nil_r by tauto. by rewrite Hp.
    + rewrite decide_True, replayed_snoc, replay_event_lookup, lookup_empty by set_solver.
      unfold entry_event. rewrite bool_decide_eq_true_2 by done. cbn [negb].
      by rewrite (proj2 (String.eqb_neq _ _) Hp).
  - rewrite decide_False, app_nil_r; [done|]. rewrite list_elem_of_singleton. tauto.
Qed.

(** A replay in which a later restore of [id] covers every record. *)
Lemma covered_lookup rs id n w :
  rs !! id = Some n → (length w ≤ n)%nat →
  st_tasks (replay_loop rs w NewTaskStore) !! id = entry_history true id w.
Proof.
  intros Hrs. induction w as [|ev w IH] using rev_ind; intros Hl; [done|].
  rewrite length_app in Hl. cbn in Hl. rewrite replay_loop_snoc, replay_event_lookup, Hrs, IH by lia.
  rewrite (proj2 (Nat.ltb_lt _ _)) by lia. unfold entry_history. by rewrite foldl_app.
Qed.

Lemma lastRestore_snoc w ev :
  Forall (λ ev, ev_Type ev ≠ "task_restored") w → ev_Type ev = "task_restored" →
  lastRestore (w ++ [ev]) !! ev_TaskID ev = Some (length w).
Proof.
  intros Hw Hev. unfold lastRestore. rewrite foldl_app. cbn [foldl].
  assert (∀ l i m, Forall (λ ev, ev_Type ev ≠ "task_restored") l →
    foldl (λ '(m, i) ev, (if String.eqb (ev_Type ev) "task_restored" then <[ev_TaskID ev:=i]> m else m, S i))
      (m : gmap string nat, i) l = (m, (i + length l)%nat)) as Hfold.
  { clear. induction l as [|x l IH]; intros i m Hl; cbn; [f_equal; lia|].
    apply Forall_cons in Hl as [Hx Hl]. rewrite (proj2 (String.eqb_neq _ _) Hx), IH by done. f_equal. lia. }
  rewrite Hfold, Hev by done. cbn. apply lookup_insert_eq.
Qed.

Lemma entry_event_prune id o now : entry_event true id o (prunedEvent now id) = o.
Proof.
  unfold entry_event. assert (ev_Type (prunedEvent now id) = "task_pruned" ∧ ev_TaskID (prunedEvent now id) = id)
    as [-> ->] by (unfold prunedEvent; apply stamped_fields).
  by rewrite bool_decide_eq_true_2.
Qed.

(** Pruning one live task of a logged store. *)
Lemma prune_single s w id m t :
  Sim s w → st_tasks s !! id = Some m →
  let s1 := (PruneByIDs t None [id] true s).1 in
  ∃ w1, Sim s1 w1 ∧ st_tasks s1 !! id = None ∧ w1 = w ++ [prunedEvent t id].
Proof.
  intros HS Hm s1.
  destruct (log_pruned_spec t [id] s{{ st_tasks := delete id (st_tasks s);
    st_order := filter (λ i, i ∉ (list_to_set [id] : gset string)) (st_order s) }} w) as (E1 & E2 & E3);
    [apply HS|].
  assert (s1 = log_pruned t [id] s{{ st_tasks := delete id (st_tasks s);
    st_order := filter (λ i, i ∉ (list_to_set [id] : gset string)) (st_order s) }}) as Hs1.
  { unfold s1, PruneByIDs. cbn [foldl prune_one in_allowed negb]. rewrite Hm, andb_false_r. done. }
  rewrite <-Hs1 in *. exists (w ++ [prunedEvent t id]). split; [|split; [rewrite E2; apply lookup_delete_eq|done]].
  apply (sim_prune s w t [id] s1); [done|apply NoDup_singleton| |exact E1| |].
  - intros j ->%list_elem_of_singleton. by eexists.
  - rewrite E3. apply filter_ext_elem. intros j _. by rewrite elem_of_list_to_set.
  - intros j. rewrite E2. transitivity (delete id (st_tasks s) !! j); [done|].
    rewrite lookup_delete. case_bool_decide as Hj; rewrite list_elem_of_singleton in Hj;
      case_decide; congruence.
Qed.

Lemma history_seen id w r : entry_history true id w = Some r → seen_create [id] w id = true.
Proof.
  intros Hh. unfold seen_create, wanted_history. apply existsb_elem_of.
  revert r Hh. induction w as [|ev w IH] using rev_ind; intros r; [done|].
  unfold entry_history in *. rewrite foldl_app. cbn [foldl]. unfold entry_event at 1.
  assert (∀ r, foldl (entry_event true id) None w = Some r → ∃ x,
    x ∈ filter (λ ev, ev_TaskID ev ∈ [id] ∧ ev_Type ev ≠ "task_pruned") (w ++ [ev]) ∧
    (ev_Type x =? "task_created")%string && (ev_TaskID x =? id)%string = true) as IH'.
  { intros r' Hr'. destruct (IH r' Hr') as (x & Hx & Hc). exists x. split; [|done].
    rewrite filter_app. set_solver. }
  destruct (bool_decide_reflect (ev_TaskID ev = id)) as [Hid|Hid]; cbn [negb]; [|apply IH'].
  destruct (String.eqb_spec (ev_Type ev) "task_created") as [Hc|Hc].
  - intros _. exists ev. rewrite Hid, Hc, !String.eqb_refl. split; [|done].
    rewrite list_elem_of_filter. split; [|set_solver]. split; [set_solver|by rewrite Hc].
  - destruct (String.eqb _ "task_pruned"); [apply IH'|].
    destruct (foldl _ _ w) as [t|]; [|done]. intros _. by apply (IH' t).
Qed.

Lemma sweep_lookup now rs w id :
  st_tasks (replay_loop rs w NewTaskStore){{ st_tasks := sweep_entry now <$> st_tasks (replay_loop rs w NewTaskStore) }} !! id
  = sweep_entry now <$> st_tasks (replay_loop rs w NewTaskStore) !! id.
Proof. exact (lookup_fmap (sweep_entry now) (st_tasks (replay_loop rs w NewTaskStore)) id). Qed.

Lemma scratch_lookup id w r now :
  Forall (λ ev, ev_Type ev ≠ "task_restored") w → entry_history true id w = Some r →
  st_tasks (ReplayEvents now (wanted_history [id] w) NewTaskStore) !! id = Some (sweep_entry now r).
Proof.
  intros Hnr Hh. unfold ReplayEvents. rewrite lastRestore_none, sweep_lookup.
  - fold (replayed (wanted_history [id] w)). by rewrite wanted_history_lookup, Hh.
  - rewrite Forall_forall in *. intros ev [_ Hev]%list_elem_of_filter. by apply Hnr.
Qed.

Lemma replay_after_restore id w r now t :
  Forall (λ ev, ev_Type ev ≠ "task_restored") w → entry_history true id w = Some r →
  st_tasks (ReplayEvents now (w ++ [stamped t (walEvent "task_restored" id){{ ev_Ts := t }}])
    NewTaskStore) !! id = Some (sweep_entry now r).
Proof.
  intros Hnr Hh. set (ev := stamped _ _).
  assert (ev_Type ev = "task_restored" ∧ ev_TaskID ev = id) as [Ety Eid] by apply stamped_fields.
  pose proof (lastRestore_snoc w ev Hnr Ety) as Hrs. rewrite Eid in Hrs.
  unfold ReplayEvents. rewrite sweep_lookup, replay_loop_snoc, replay_event_lookup.
  rewrite (covered_lookup _ id (length w)) by done. rewrite Hh. unfold entry_event.
  rewrite Ety, Eid, bool_decide_eq_true_2 by done. cbn [negb].
  assert (editFromWAL ev r = None) as -> by (unfold editFromWAL; by rewrite Ety). done.
Qed.

(** Every change of status is one of the operation's own. *)
Lemma edges_taken (s : Store) (o : op) (id : string) (m m' : TaskEntry) :
  st_tasks s !! id = Some m → st_tasks (step s o) !! id = Some m' →
  te_Status m' = te_Status m ∨ edge o id (te_Status m) (te_Status m').
Proof.
  intros Hm H'. destruct o; cbn [step] in H'.
  - by eapply edge_Create.
  - by eapply edge_SetCaps.
  - by eapply edge_SetParent.
  - by eapply edge_SwapWithParent.
  - by eapply edge_SetProgress.
  - by eapply edge_SetLifecycle.
  - by eapply edge_restoreProgress.
  - by eapply edge_SetWorktreeDir.
  - by eapply edge_SetResumeConversation.
  - by eapply edge_SetRingBufferBytes.
  - by eapply edge_Resume.
  - by eapply edge_Assign.
  - by eapply edge_Finish.
  - by eapply edge_Cancel.
  - by eapply edge_MarkFailed.
  - by eapply edge_SetDetached.
  - by eapply edge_FailHeld.
  - by eapply edge_MarkHold.
  - by eapply edge_MarkReadopted.
  - by eapply edge_MarkAttached.
  - apply PruneByIDs_lookup in H'. left. congruence.
  - apply PruneTerminal_lookup in H'. left. congruence.
Qed.

(** The source states the comments on [Assign] and [Finish] allow, and an id drawn for
    a new task that no task has; a finish of a task that has an outcome already is
    skipped. *)
Definition called_as_documented (o : op) (id : string) (st : TaskStatus) : Prop :=
  match o with
  | OpCreate id' _ _ _ _ _ _ _ _ _ _ _ _ _ => id' ≠ id
  | OpAssign _ _ id' _ _ _ => id' = id → st = Queued ∨ st = Detached
  | OpFinish _ _ id' _ _ => id' = id → st ≠ Queued ∧ st ≠ Held
  | _ => True
  end.

Definition documented_edge (o : op) (id : string) (st st' : TaskStatus) : Prop :=
  edge o id st st' ∧
  match o with
  | OpCreate _ _ _ _ _ _ _ _ _ _ _ _ _ _ => False
  | OpAssign _ _ _ _ _ _ => st = Queued ∨ st = Detached
  | OpFinish _ _ _ _ _ => st = Running ∨ st = Detached ∨ st = Cancelled
  | _ => True
  end.

(** ** Theorems *)

(** C6. The log refines the store: whatever sequence of operations other than a restore
    a logged store has gone through, replaying the records of its log rebuilds exactly
    the same tasks in the same order.  Each has its identity, repo, prompt, arguments,
    kinds, parent link, grant with its delegation bound and provenance, profile,
    selector, bound runner, start, end and outcome as they were, and the hold of a
    held task; the scope too, unless the task holds [board_observe] without a
    visibility of its own.  A task that was running or detached comes back failed
    with [server_restart]; no other status changes. *)
Theorem replay_refines (ops : list op) (now : Z) :
  Forall op_ok ops →
  let s := run (SetWAL (Some []) NewTaskStore) ops in
  ∃ w, st_wal s = Some w ∧
    let s' := ReplayEvents now w NewTaskStore in
    st_order s' = st_order s ∧
    ∀ id, match st_tasks s !! id, st_tasks s' !! id with
          | Some m, Some r => Survives now m r
          | None, None => True
          | _, _ => False
          end.
Proof.
  intros Hops. cbn zeta. destruct (sim_run ops _ _ sim_empty Hops) as [w HS].
  exists w. split; [apply HS|]. destruct (sim_ReplayEvents _ w now HS) as [Ho Ht].
  split; [exact Ho|]. intros id. specialize (Ht id).
  destruct (st_tasks _ !! id) as [m|], (st_tasks (ReplayEvents _ _ _) !! id) as [r'|]; try done.
  destruct Ht as (r & Hr & ->). by apply Recorded_survives.
Qed.

(** C23. The lifecycle.  When [Assign] is called on a task that is Queued or Detached
    and [Finish] on one that is not Queued or Held, as their comments have it, and no
    task is created under an id in use, a task's status only changes along the
    documented edges: a real outcome is left only by a resume, a cancelled task only
    by a resume or the runner's report, a hold only by its own paths or a cancel,
    and an operation on one task never moves another. *)
Theorem step_edges (s : Store) (o : op) (id : string) (m m' : TaskEntry) :
  st_tasks s !! id = Some m → called_as_documented o id (te_Status m) →
  st_tasks (step s o) !! id = Some m' →
  te_Status m' = te_Status m ∨ documented_edge o id (te_Status m) (te_Status m').
Proof.
  intros Hm Hd H'. destruct (edges_taken s o id m m' Hm H') as [E|E]; [by left|right].
  split; [done|]. destruct o; try done; cbn in *; destruct E as [E E']; try specialize (Hd E); [done..|].
  destruct (te_Status m); naive_solver.
Qed.


(** ** Concrete instances *)

Module SampleRun.
Definition id : string := "0000000000000000000000000000000a".
Definition other : string := "0000000000000000000000000000000b".
Definition grant : Grant := mkGrant Capability_BoardObserve DefaultScope 0 DefaultScope.
Definition create : op :=
  OpCreate id 1 1 1 "/repo" "do it" 0 1 zeroID "" SelAny [] grant "".
Definition assign : op := OpAssign 2 2 id zeroID "" true.
Definition cancel : op := OpCancel 3 3 id.
Definition started : Store := run (SetWAL (Some []) NewTaskStore) [create; assign].
End SampleRun.

Lemma sample_ops_ok : Forall op_ok [SampleRun.create; SampleRun.assign].
Proof.
  assert (wal_ok DefaultScope) as Hd.
  { split_and!; try done; by apply sample_ids_ok. }
  constructor; [|constructor; [done|constructor]].
  split_and!; try done. by apply wf_zeroID.
Qed.

Lemma replay_refines_witness :
  ∃ w, st_wal SampleRun.started = Some w ∧
    te_Status <$> st_tasks SampleRun.started !! SampleRun.id = Some Running ∧
    te_Status <$> st_tasks (ReplayEvents 9 w NewTaskStore) !! SampleRun.id = Some Failed.
Proof.
  destruct (replay_refines [SampleRun.create; SampleRun.assign] 9 sample_ops_ok) as (w & Hw & _ & Ht).
  exists w. split; [exact Hw|].
  assert (te_Status <$> st_tasks SampleRun.started !! SampleRun.id = Some Running) as Hr by by vm_compute.
  split; [exact Hr|]. specialize (Ht SampleRun.id). fold SampleRun.started in Ht.
  destruct (st_tasks SampleRun.started !! SampleRun.id) as [m|]; [|done].
  destruct (st_tasks (ReplayEvents 9 w NewTaskStore) !! SampleRun.id) as [r|]; [|done].
  pose proof (kept_outcome _ _ _ Ht) as Hst. cbn [fmap option_fmap option_map] in *. injection Hr as Hr.
  rewrite Hr in Hst. by rewrite (proj1 Hst).
Defined.

Lemma step_edges_witness :
  ∃ m m', st_tasks SampleRun.started !! SampleRun.id = Some m ∧
    st_tasks (step SampleRun.started SampleRun.cancel) !! SampleRun.id = Some m' ∧
    te_Status m = Running ∧ te_Status m' = Cancelled ∧
    (te_Status m' = te_Status m ∨ documented_edge SampleRun.cancel SampleRun.id (te_Status m) (te_Status m')).
Proof.
  destruct (st_tasks SampleRun.started !! SampleRun.id) as [m|] eqn:Hm; [|by vm_compute in Hm].
  destruct (st_tasks (step SampleRun.started SampleRun.cancel) !! SampleRun.id) as [m'|] eqn:Hm';
    [|by vm_compute in Hm'].
  exists m, m'. split; [done|]. split; [done|].
  split; [vm_compute in Hm; by injection Hm as <-|].
  split; [vm_compute in Hm'; by injection Hm' as <-|].
  exact (step_edges SampleRun.started SampleRun.cancel SampleRun.id m m' Hm I Hm').
Defined.


(** A restart widens what a task sees: a task granted [board_observe] under the
    default scope records no visibility axis, so its own fresh record takes the
    path meant for records older than the axis and comes back seeing every task. *)
Theorem restart_widens_board_observer :
  let s := run (SetWAL (Some []) NewTaskStore) [SampleRun.create] in
  let s' := ReplayEvents 9 (default [] (st_wal s)) NewTaskStore in
  te_Scope <$> st_tasks s !! SampleRun.id = Some DefaultScope ∧
  in_set (VisibleSet SampleRun.id DefaultScope ∅) SampleRun.other = false ∧
  (λ e, in_set (VisibleSet SampleRun.id (te_Scope e) ∅) SampleRun.other)
    <$> st_tasks s' !! SampleRun.id = Some true.
Proof. by vm_compute. Qed.

(** [Assign] has no guard on the status it starts from: a dispatch that lands after
    a cancel sets the task running again, and the cancel is lost. *)
Theorem Assign_revives_cancelled :
  let s := run (SetWAL (Some []) NewTaskStore) [SampleRun.create; SampleRun.cancel] in
  te_Status <$> st_tasks s !! SampleRun.id = Some Cancelled ∧
  te_Status <$> st_tasks (step s SampleRun.assign) !! SampleRun.id = Some Running.
Proof. by vm_compute. Qed.
