(* ===== verification/Topic.v ===== *)
(** * A board topic: [agentboard/topic.go] and [mergeNewest] of [agentboard/flush.go]

    A topic keeps the newest [cap] live messages in a ring, the newest [cap]
    withdrawn ones in a list of its own, and, per task, the delivery mark of the
    automatic injection path.  Every method runs under the topic's mutex, so each
    is one function on the record.  Times count nanoseconds from Go's zero
    instant, so that [time.Time{}] is [0] and a clock reading is positive; each
    reading of the clock is an argument.  An operation that indexes an empty ring
    (a capacity of zero) panics in Go and is [None] here. *)

From stdpp Require Import prelude gmap strings list sorting.
From Stdlib Require Import NArith ZArith.
From coqutil Require Import Datatypes.RecordSetters.
From S2P Require Import Prelude GoStrings Wire.

Import DoubleBraceUpdate.
Open Scope N_scope.
Open Scope stdpp_scope.
Set Default Goal Selector "!".

(** ** Data *)

Inductive SenderKind := SenderKind_Agent | SenderKind_Operator | SenderKind_Server.
Inductive RetractedBy := RetractedBy_Author | RetractedBy_PurgeCap.

#[export] Instance SenderKind_eq_dec : EqDecision SenderKind.
Proof. solve_decision. Defined.
#[export] Instance RetractedBy_eq_dec : EqDecision RetractedBy.
Proof. solve_decision. Defined.

Record RetainedMessage := mkRetained {
  m_Seq : N;
  m_InReplyTo : N;
  m_Topic : string;
  m_Payload : list N;
  m_FromRunner : list N;
  m_FromTask : TaskID;
  m_FromHostname : string;
  m_FromAgentProfile : string;
  m_SenderKind : SenderKind;
  m_ReplyToTopic : string;
  m_ReceivedAt : Z;
  m_RetractedAt : Z;
  m_RetractedBy : RetractedBy;
  m_RetractedByTask : TaskID;
  m_NoRetireOnReply : bool;
  m_NoContact : bool;
  m_ExcludeSelf : bool;
}.

#[export] Instance RetainedMessage_eq_dec : EqDecision RetainedMessage.
Proof. solve_decision. Defined.

(** The per-publish choices a [SendOption] records. *)
Record sendConfig := mkSendConfig {
  sc_noRetireOnReply : bool;
  sc_replyToTopic : string;
  sc_senderKind : SenderKind;
  sc_noWake : bool;
  sc_noContact : bool;
  sc_excludeSelf : bool;
}.

(** What [Board.Send] is given besides the topic: the body and the
    authenticated sender. *)
Record envelope := mkEnvelope {
  ev_payload : list N;
  ev_fromRid : list N;
  ev_fromTid : TaskID;
  ev_fromHost : string;
  ev_fromProfile : string;
  ev_inReplyTo : N;
}.

Record Retention := mkRetention {
  r_TTL : Z;
  r_Forever : bool;
  r_SetBy : TaskID;
  r_SetAt : Z;
}.

Record topic := mkTopic {
  t_name : string;
  t_cap : nat;
  t_ring : list RetainedMessage;
  t_retracted : list RetainedMessage;
  t_lastPublishedAt : Z;
  t_shown : gmap TaskID N;
  t_retention : option Retention;
  t_ringFloor : N;
}.

Definition ownExcluded (m : RetainedMessage) (reader : TaskID) : bool :=
  m_ExcludeSelf m && bool_decide (m_FromTask m = reader).

(** ** Operations *)

Definition newTopic (name : string) (cap : nat) : topic :=
  mkTopic name cap [] [] 0 ∅ None 0.

(** Append to a list bounded by [cap], dropping its head when it is full. *)
Definition push (cap : nat) (l : list RetainedMessage) (m : RetainedMessage)
  : option (list RetainedMessage) :=
  if (length l =? cap)%nat then
    match l with [] => None | _ :: l' => Some (l' ++ [m]) end
  else Some (l ++ [m]).

Definition new_message (now : Z) (name : string) (seq : N) (e : envelope) (cfg : sendConfig)
  : RetainedMessage :=
  {| m_Seq := seq; m_InReplyTo := ev_inReplyTo e; m_Topic := name; m_Payload := ev_payload e;
     m_FromRunner := ev_fromRid e; m_FromTask := ev_fromTid e; m_FromHostname := ev_fromHost e;
     m_FromAgentProfile := ev_fromProfile e; m_SenderKind := sc_senderKind cfg;
     m_ReplyToTopic := sc_replyToTopic cfg; m_ReceivedAt := now; m_RetractedAt := 0;
     m_RetractedBy := RetractedBy_Author; m_RetractedByTask := zeroID;
     m_NoRetireOnReply := sc_noRetireOnReply cfg; m_NoContact := sc_noContact cfg;
     m_ExcludeSelf := sc_excludeSelf cfg |}.

Definition appendLocked (now : Z) (seq : N) (e : envelope) (cfg : sendConfig) (t : topic)
  : option (topic * RetainedMessage) :=
  let m := new_message now (t_name t) seq e cfg in
  ring ← push (t_cap t) (t_ring t) m;
  Some (t{{ t_lastPublishedAt := now; t_ring := ring }}, m).

(** [append(l[:i], l[i+1:]...)]. *)
Definition delete_at (i : nat) (l : list RetainedMessage) : list RetainedMessage :=
  take i l ++ drop (S i) l.

(** The index the [for i := range l] loops find. *)
Definition index_seq (seq : N) (l : list RetainedMessage) : option (nat * RetainedMessage) :=
  list_find (λ m, m_Seq m = seq) l.

Definition removeSeq (seq : N) (t : topic) : topic * bool :=
  match index_seq seq (t_ring t) with
  | Some (i, _) => (t{{ t_ring := delete_at i (t_ring t) }}, true)
  | None =>
      match index_seq seq (t_retracted t) with
      | Some (i, _) => (t{{ t_retracted := delete_at i (t_retracted t) }}, true)
      | None => (t, false)
      end
  end.

(** [withdrawLocked] on the entry [m] found at index [i]. *)
Definition withdrawLocked (i : nat) (m : RetainedMessage) (now : Z) (kind : RetractedBy)
    (by_ : TaskID) (t : topic) : option topic :=
  let m' := m{{ m_RetractedAt := now; m_RetractedBy := kind; m_RetractedByTask := by_ }} in
  retracted ← push (t_cap t) (t_retracted t) m';
  Some (t{{ t_ring := delete_at i (t_ring t); t_retracted := retracted }}).

Definition retract (seq : N) (by_ : TaskID) (now : Z) (t : topic) : option (topic * bool) :=
  match index_seq seq (t_ring t) with
  | Some (i, m) =>
      if bool_decide (m_FromTask m = by_)
      then t' ← withdrawLocked i m now RetractedBy_Author by_ t; Some (t', true)
      else Some (t, false)
  | None => Some (t, false)
  end.

Definition forceRetract (seq : N) (by_ : TaskID) (now : Z) (t : topic) : option (topic * bool) :=
  match index_seq seq (t_ring t) with
  | Some (i, m) => t' ← withdrawLocked i m now RetractedBy_PurgeCap by_ t; Some (t', true)
  | None => Some (t, false)
  end.

Definition snapshotRetracted (t : topic) : list RetainedMessage := t_retracted t.

(** [sort.Slice] by ascending seq. *)
Definition seq_le (x y : RetainedMessage) : Prop := m_Seq x ≤ m_Seq y.
#[export] Instance seq_le_dec : RelDecision seq_le.
Proof. intros x y. unfold seq_le. apply _. Defined.

Definition snapshotAll (t : topic) : list RetainedMessage :=
  merge_sort seq_le (t_ring t ++ t_retracted t).

Definition withdrawnEntry (seq : N) (t : topic) : option RetainedMessage :=
  snd <$> index_seq seq (t_retracted t).

Definition hasRetracted (t : topic) : bool := (0 <? length (t_retracted t))%nat.
Definition isEmpty (t : topic) : bool :=
  (length (t_ring t) =? 0)%nat && (length (t_retracted t) =? 0)%nat.
Definition retractedCount (t : topic) : nat := length (t_retracted t).
Definition snapshot (t : topic) : list RetainedMessage := t_ring t.

Definition above (mark : N) (l : list RetainedMessage) : list RetainedMessage :=
  filter (λ m, mark < m_Seq m) l.

Definition shownMark (task : TaskID) (t : topic) : N := default 0 (t_shown t !! task).

Definition takeUnshown (task : TaskID) (t : topic) : topic * list RetainedMessage :=
  let out := above (shownMark task t) (t_ring t) in
  let t' := match last out with
            | Some m => t{{ t_shown := <[task := m_Seq m]> (t_shown t) }}
            | None => t
            end in
  (t', filter (λ m, ownExcluded m task = false) out).

Definition newestSeq (t : topic) : N :=
  foldl (λ n m, if n <? m_Seq m then m_Seq m else n) 0 (t_ring t ++ t_retracted t).

Definition dropThrough (through : N) (t : topic) : topic * nat :=
  (t{{ t_ring := above through (t_ring t); t_retracted := above through (t_retracted t) }},
   length (filter (λ m, m_Seq m ≤ through) (t_ring t ++ t_retracted t))).

Definition snapshotShown (t : topic) : gmap TaskID N := t_shown t.
Definition forgetShown (task : TaskID) (t : topic) : topic :=
  t{{ t_shown := delete task (t_shown t) }}.
Definition since (sinceSeq : N) (t : topic) : list RetainedMessage := above sinceSeq (t_ring t).
Definition lastPublished (t : topic) : Z := t_lastPublishedAt t.
Definition summary (t : topic) : N * Z * nat :=
  (match last (t_ring t) with Some m => m_Seq m | None => 0 end,
   t_lastPublishedAt t, length (t_ring t)).

(** [mergeNewest] of [flush.go]: one entry per seq, [have] winning, the newest [n]. *)
Definition by_seq (l : list RetainedMessage) (acc : gmap N RetainedMessage) : gmap N RetainedMessage :=
  foldl (λ acc m, <[m_Seq m := m]> acc) acc l.

Definition mergeNewest (have add : list RetainedMessage) (n : nat) : list RetainedMessage :=
  let out := merge_sort seq_le (snd <$> map_to_list (by_seq have (by_seq add ∅))) in
  if (n <? length out)%nat then drop (length out - n) out else out.

(** ** Steps of a topic

    [topic_step] is one call of a mutating method with what it hands over.
    [history task hi t D] follows a topic from [(hi0, t0)]: [hi] bounds the seqs
    issued so far (the board takes each from one increasing counter), [D] is what
    [task] was handed since the last time its mark was forgotten. *)

Inductive top :=
  | OpAppend (now : Z) (seq : N) (e : envelope) (cfg : sendConfig)
  | OpRemove (seq : N)
  | OpRetract (seq : N) (by_ : TaskID) (now : Z)
  | OpForce (seq : N) (by_ : TaskID) (now : Z)
  | OpTake (task : TaskID)
  | OpDrop (through : N)
  | OpForget (task : TaskID).

#[export] Instance sendConfig_eq_dec : EqDecision sendConfig.
Proof. solve_decision. Defined.
#[export] Instance envelope_eq_dec : EqDecision envelope.
Proof. solve_decision. Defined.
#[export] Instance top_eq_dec : EqDecision top.
Proof. solve_decision. Defined.

Definition topic_step (o : top) (t : topic) : option (topic * list RetainedMessage) :=
  match o with
  | OpAppend now seq e cfg => r ← appendLocked now seq e cfg t; Some (r.1, [])
  | OpRemove seq => Some ((removeSeq seq t).1, [])
  | OpRetract seq by_ now => r ← retract seq by_ now t; Some (r.1, [])
  | OpForce seq by_ now => r ← forceRetract seq by_ now t; Some (r.1, [])
  | OpTake task => Some (takeUnshown task t)
  | OpDrop through => Some ((dropThrough through t).1, [])
  | OpForget task => Some (forgetShown task t, [])
  end.

Definition fresh (hi : N) (o : top) : Prop :=
  match o with
  | OpAppend _ seq _ _ => hi < seq
  | OpRetract _ _ now | OpForce _ _ now => (0 < now)%Z
  | _ => True
  end.

Definition next_hi (hi : N) (o : top) : N :=
  match o with OpAppend _ seq _ _ => seq | _ => hi end.

Definition handed (task : TaskID) (o : top) (D out : list RetainedMessage) : list RetainedMessage :=
  match o with
  | OpTake task' => if decide (task' = task) then D ++ out else D
  | OpForget task' => if decide (task' = task) then [] else D
  | _ => D
  end.

Inductive history (task : TaskID) (hi0 : N) (t0 : topic)
  : N → topic → list RetainedMessage → Prop :=
  | history_start : history task hi0 t0 hi0 t0 []
  | history_step hi t D o t' out :
      history task hi0 t0 hi t D → fresh hi o → topic_step o t = Some (t', out) →
      history task hi0 t0 (next_hi hi o) t' (handed task o D out).

(** ** The invariant *)

Definition seq_lt (x y : RetainedMessage) : Prop := m_Seq x < m_Seq y.

Record topic_ok (hi : N) (t : topic) : Prop := {
  ok_cap : (0 < t_cap t)%nat;
  ok_sorted : StronglySorted seq_lt (t_ring t);
  ok_ring_len : (length (t_ring t) ≤ t_cap t)%nat;
  ok_retracted_len : (length (t_retracted t) ≤ t_cap t)%nat;
  ok_bound m : m ∈ t_ring t ++ t_retracted t → m_Seq m ≤ hi;
  ok_once : NoDup (m_Seq <$> t_ring t ++ t_retracted t);
  ok_live m : m ∈ t_ring t → m_RetractedAt m = 0%Z;
  ok_withdrawn m : m ∈ t_retracted t → m_RetractedAt m ≠ 0%Z;
  ok_marks task k : t_shown t !! task = Some k → k ≤ hi;
}.

(** ** The lists *)

Section content.
Implicit Types (l : list RetainedMessage) (m : RetainedMessage) (seq : N) (t : topic).

Lemma push_spec cap l m :
  (0 < cap)%nat → (length l ≤ cap)%nat →
  ∃ l0, push cap l m = Some (l0 ++ [m]) ∧ l0 `suffix_of` l ∧ (length (l0 ++ [m]) ≤ cap)%nat.
Proof.
  intros Hc Hl. unfold push. destruct (Nat.eqb_spec (length l) cap) as [E|E].
  - destruct l as [|x l]; cbn in *; [lia|]. exists l. split_and!; [done|by exists [x]|].
    rewrite length_app. cbn. lia.
  - exists l. split_and!; [done|done|]. rewrite length_app. cbn. lia.
Qed.

Lemma suffix_sublist l1 l2 : l1 `suffix_of` l2 → l1 `sublist_of` l2.
Proof. intros [k ->]. by apply sublist_inserts_l. Qed.

Lemma index_seq_Some seq l i m :
  index_seq seq l = Some (i, m) →
  ∃ l1 l2, l = l1 ++ m :: l2 ∧ delete_at i l = l1 ++ l2 ∧ m_Seq m = seq.
Proof.
  intros [Hi [Hm _]]%list_find_Some. exists (take i l), (drop (S i) l).
  split_and!; [by rewrite take_drop_middle|done|done].
Qed.

Lemma index_seq_None seq l m : index_seq seq l = None → m ∈ l → m_Seq m ≠ seq.
Proof. intros H%list_find_None Hm. rewrite Forall_forall in H. by apply H. Qed.

Lemma index_seq_elem seq l i m : index_seq seq l = Some (i, m) → m ∈ l.
Proof. intros (l1 & l2 & -> & _)%index_seq_Some. set_solver. Qed.

Lemma delete_at_sublist seq l i m :
  index_seq seq l = Some (i, m) → delete_at i l `sublist_of` l.
Proof.
  intros (l1 & l2 & -> & -> & _)%index_seq_Some.
  apply sublist_app; [done|]. by apply sublist_cons.
Qed.

(** Deleting the only entry with a seq is filtering it out. *)
Lemma delete_at_filter seq l i m :
  NoDup (m_Seq <$> l) → index_seq seq l = Some (i, m) →
  delete_at i l = filter (λ x, m_Seq x ≠ seq) l.
Proof.
  intros Hnd (l1 & l2 & -> & -> & <-)%index_seq_Some.
  rewrite fmap_app, fmap_cons, NoDup_app, NoDup_cons in Hnd. destruct Hnd as (_ & H1 & H2 & _).
  rewrite filter_app, filter_cons_False by (by intros []).
  rewrite !filter_id; [done| |].
  - intros x Hx Heq. apply H2. rewrite <-Heq. by apply list_elem_of_fmap_2.
  - intros x Hx Heq. apply (H1 (m_Seq x)); [by apply list_elem_of_fmap_2|rewrite Heq; by left].
Qed.

Lemma above_elem mark l m : m ∈ above mark l ↔ mark < m_Seq m ∧ m ∈ l.
Proof. unfold above. by rewrite list_elem_of_filter. Qed.

Lemma last_max l m x : StronglySorted seq_lt l → last l = Some m → x ∈ l → m_Seq x ≤ m_Seq m.
Proof.
  intros Hs (l' & ->)%last_Some [Hx|Hx]%elem_of_app.
  - apply N.lt_le_incl. by apply (StronglySorted_app_1_elem_of seq_lt l' [m] x m); [| |left].
  - by apply list_elem_of_singleton in Hx as ->.
Qed.

(** Dropping entries and raising no mark above [hi] keeps the invariant. *)
Lemma topic_ok_sub hi t t' :
  topic_ok hi t → t_cap t' = t_cap t →
  t_ring t' `sublist_of` t_ring t → t_retracted t' `sublist_of` t_retracted t →
  (∀ task k, t_shown t' !! task = Some k → k ≤ hi) → topic_ok hi t'.
Proof.
  intros [Hc Hs Hr1 Hr2 Hb Ho Hl Hw Hm] Ec Er1 Er2 Hm'.
  assert (t_ring t' ++ t_retracted t' `sublist_of` t_ring t ++ t_retracted t) as Ea
    by by apply sublist_app.
  split.
  - by rewrite Ec.
  - by eapply sublist_StronglySorted.
  - rewrite Ec. etrans; [by apply sublist_length|done].
  - rewrite Ec. etrans; [by apply sublist_length|done].
  - intros m Hx. apply Hb. by eapply elem_of_sublist.
  - eapply sublist_NoDup; [exact Ho|by apply sublist_fmap].
  - intros m Hx. apply Hl. by eapply elem_of_sublist.
  - intros m Hx. apply Hw. by eapply elem_of_sublist.
  - done.
Qed.

Lemma NoDup_seq_inj l m1 m2 :
  NoDup (m_Seq <$> l) → m1 ∈ l → m2 ∈ l → m_Seq m1 = m_Seq m2 → m1 = m2.
Proof.
  intros Hnd [i Hi]%list_elem_of_lookup [j Hj]%list_elem_of_lookup E.
  assert (i = j) as ->; [|congruence].
  apply (NoDup_lookup _ i j (m_Seq m1) Hnd); rewrite list_lookup_fmap; [by rewrite Hi|].
  rewrite Hj. cbn. by f_equal.
Qed.

Lemma topic_ok_ring_NoDup hi t : topic_ok hi t → NoDup (m_Seq <$> t_ring t).
Proof. intros H. pose proof (ok_once _ _ H) as Ho. rewrite fmap_app, NoDup_app in Ho. by destruct Ho. Qed.
End content.

(** ** Each operation keeps the invariant and never panics *)

Section preservation.
Implicit Types (hi : N) (t : topic).

Lemma appendLocked_ok hi t now seq e cfg :
  topic_ok hi t → hi < seq →
  ∃ l0, appendLocked now seq e cfg t =
          Some (t{{ t_lastPublishedAt := now;
                    t_ring := l0 ++ [new_message now (t_name t) seq e cfg] }},
                new_message now (t_name t) seq e cfg) ∧
    l0 `suffix_of` t_ring t ∧
    topic_ok seq (t{{ t_lastPublishedAt := now;
                      t_ring := l0 ++ [new_message now (t_name t) seq e cfg] }}).
Proof.
  intros H Hseq. unfold appendLocked. set (m := new_message now (t_name t) seq e cfg).
  destruct (push_spec (t_cap t) (t_ring t) m) as (l0 & -> & Hsuf & Hlen); [apply H|apply H|].
  exists l0. split_and!; [done|done|].
  assert (topic_ok hi (t{{ t_ring := l0 }})) as H0.
  { apply (topic_ok_sub hi t); [done|done|by apply suffix_sublist|done|apply H]. }
  assert (m_Seq m = seq) as Em by done. assert (m_RetractedAt m = 0%Z) as Ez by done.
  clearbody m. destruct H0 as [Hc Hs Hr1 Hr2 Hb Ho Hl Hw Hm].
  split; change (t_ring (t{{ t_lastPublishedAt := now; t_ring := l0 ++ [m] }})) with (l0 ++ [m]);
    change (t_retracted (t{{ t_lastPublishedAt := now; t_ring := l0 ++ [m] }})) with (t_retracted t).
  - done.
  - apply StronglySorted_app_2; [|done|repeat constructor].
    intros x y Hx ->%list_elem_of_singleton. red. rewrite Em.
    assert (m_Seq x ≤ hi) by (apply Hb, elem_of_app; by left). lia.
  - done.
  - done.
  - intros x Hx. assert (x ∈ l0 ++ t_retracted t ∨ x = m) as [Hx'| ->] by set_solver; [|lia].
    specialize (Hb x Hx'). lia.
  - change (t_ring (t{{ t_ring := l0 }}) ++ t_retracted (t{{ t_ring := l0 }})) with (l0 ++ t_retracted t) in *.
    assert ((l0 ++ [m]) ++ t_retracted t ≡ₚ m :: (l0 ++ t_retracted t)) as ->
      by (rewrite <-app_assoc; cbn; by rewrite Permutation_middle).
    rewrite fmap_cons, NoDup_cons. split; [|done].
    intros (x & Ex & Hx)%list_elem_of_fmap. specialize (Hb x Hx). lia.
  - intros x [Hx| ->%list_elem_of_singleton]%elem_of_app; [by apply Hl|done].
  - done.
  - intros task k Hk. specialize (Hm task k Hk). lia.
Qed.

Lemma removeSeq_ok hi t seq : topic_ok hi t → topic_ok hi (removeSeq seq t).1.
Proof.
  intros H. unfold removeSeq. destruct (index_seq seq (t_ring t)) as [[i m]|] eqn:E.
  { apply (topic_ok_sub hi t); [done|done|by eapply delete_at_sublist|done|apply H]. }
  destruct (index_seq seq (t_retracted t)) as [[i m]|] eqn:E'; [|done].
  apply (topic_ok_sub hi t); [done|done|done|by eapply delete_at_sublist|apply H].
Qed.

Definition withdrawn (m : RetainedMessage) (now : Z) (kind : RetractedBy) (by_ : TaskID) : RetainedMessage :=
  m{{ m_RetractedAt := now; m_RetractedBy := kind; m_RetractedByTask := by_ }}.

Lemma withdrawLocked_ok hi t seq i m now kind by_ :
  topic_ok hi t → (0 < now)%Z → index_seq seq (t_ring t) = Some (i, m) →
  ∃ r0, withdrawLocked i m now kind by_ t =
          Some (t{{ t_ring := delete_at i (t_ring t);
                    t_retracted := r0 ++ [withdrawn m now kind by_] }}) ∧
    r0 `suffix_of` t_retracted t ∧
    topic_ok hi (t{{ t_ring := delete_at i (t_ring t);
                     t_retracted := r0 ++ [withdrawn m now kind by_] }}).
Proof.
  intros H Hnow Ei. unfold withdrawLocked, withdrawn.
  set (m' := m{{ m_RetractedAt := now; m_RetractedBy := kind; m_RetractedByTask := by_ }}).
  destruct (push_spec (t_cap t) (t_retracted t) m') as (r0 & -> & Hsuf & Hlen); [apply H|apply H|].
  exists r0. split_and!; [done|done|].
  assert (topic_ok hi (t{{ t_retracted := r0 }})) as H0.
  { apply (topic_ok_sub hi t); [done|done|done|by apply suffix_sublist|apply H]. }
  assert (m_Seq m' = m_Seq m) as Em by done. assert (m_RetractedAt m' = now) as Ez by done.
  clearbody m'. destruct (index_seq_Some _ _ _ _ Ei) as (l1 & l2 & El & Ed & _).
  destruct H0 as [Hc Hs Hr1 Hr2 Hb Ho Hl Hw Hm].
  change (t_ring (t{{ t_retracted := r0 }})) with (t_ring t) in *.
  change (t_retracted (t{{ t_retracted := r0 }})) with r0 in *.
  set (t' := t{{ t_ring := delete_at i (t_ring t); t_retracted := r0 ++ [m'] }}).
  rewrite El in Hs, Hr1, Hb, Ho, Hl.
  assert (t_ring t' = l1 ++ l2) as Er by exact Ed.
  split; rewrite ?Er; change (t_retracted t') with (r0 ++ [m']); change (t_cap t') with (t_cap t);
    change (t_shown t') with (t_shown t).
  - done.
  - eapply sublist_StronglySorted; [exact Hs|]. apply sublist_app; [done|by apply sublist_cons].
  - rewrite length_app in Hr1 |- *. cbn [length] in Hr1. change (t_cap (t{{ t_retracted := r0 }})) with (t_cap t) in Hr1. lia.
  - done.
  - intros x Hx. assert (x ∈ l1 ++ l2 ∨ x ∈ r0 ∨ x = m') as [Hx'|[Hx'| ->]] by set_solver.
    + apply Hb. set_solver.
    + apply Hb. set_solver.
    + rewrite Em. apply Hb. set_solver.
  - assert (m_Seq <$> (l1 ++ l2) ++ r0 ++ [m'] ≡ₚ m_Seq <$> (l1 ++ m :: l2) ++ r0) as ->; [|done].
    rewrite !fmap_app, fmap_cons, <-!app_assoc. cbn. rewrite Em.
    apply Permutation_app_head. by rewrite app_assoc, Permutation_app_comm.
  - intros x Hx. apply Hl. set_solver.
  - intros x [Hx| ->%list_elem_of_singleton]%elem_of_app; [by apply Hw|lia].
  - done.
Qed.
End preservation.

Section steps.
Implicit Types (hi : N) (t : topic) (D : list RetainedMessage).

Lemma takeUnshown_ring task t : t_ring (takeUnshown task t).1 = t_ring t.
Proof. unfold takeUnshown. cbn [fst]. by destruct (last _). Qed.

Lemma takeUnshown_retracted task t : t_retracted (takeUnshown task t).1 = t_retracted t.
Proof. unfold takeUnshown. cbn [fst]. by destruct (last _). Qed.

Lemma takeUnshown_mark task task' t :
  t_shown (takeUnshown task t).1 !! task' =
    match last (above (shownMark task t) (t_ring t)) with
    | Some m => if decide (task = task') then Some (m_Seq m) else t_shown t !! task'
    | None => t_shown t !! task'
    end.
Proof.
  unfold takeUnshown. cbn [fst]. destruct (last _) as [m|]; [|done].
  transitivity (<[task := m_Seq m]> (t_shown t) !! task'); [done|].
  rewrite lookup_insert. done.
Qed.

Lemma takeUnshown_out task t m :
  m ∈ (takeUnshown task t).2 ↔
    m ∈ t_ring t ∧ shownMark task t < m_Seq m ∧ ownExcluded m task = false.
Proof.
  unfold takeUnshown. cbn [snd]. rewrite list_elem_of_filter, above_elem. tauto.
Qed.

Lemma takeUnshown_ok hi task t : topic_ok hi t → topic_ok hi (takeUnshown task t).1.
Proof.
  intros H. apply (topic_ok_sub hi t); [done| | | |].
  - unfold takeUnshown. cbn [fst]. by destruct (last _).
  - by rewrite takeUnshown_ring.
  - by rewrite takeUnshown_retracted.
  - intros task' k. rewrite takeUnshown_mark. destruct (last _) as [m|] eqn:E; [|apply H].
    case_decide; [|apply H]. intros [= <-]. apply H, elem_of_app. left.
    assert (m ∈ above (shownMark task t) (t_ring t)) as Hm.
    { apply last_Some in E as [l ->]. apply elem_of_app. right. by left. }
    by apply above_elem in Hm as [_ ?].
Qed.

(** The ring a withdrawal leaves, whichever authority asked for it. *)
Lemma withdraw_step hi t seq by_ now (o : top) :
  topic_ok hi t → (0 < now)%Z → o = OpRetract seq by_ now ∨ o = OpForce seq by_ now →
  ∃ t', topic_step o t = Some (t', []) ∧ topic_ok hi t' ∧
    t_ring t' `sublist_of` t_ring t ∧ t_shown t' = t_shown t ∧
    (∀ m, m ∈ t_retracted t' → m ∈ t_retracted t ∨ ∃ m0, m0 ∈ t_ring t ∧ m_Seq m0 = m_Seq m).
Proof.
  intros H Hnow Ho.
  destruct (index_seq seq (t_ring t)) as [[i m]|] eqn:E.
  - pose proof (index_seq_elem _ _ _ _ E) as Hm. pose proof (delete_at_sublist _ _ _ _ E) as Hd.
    assert (∀ kind, ∃ t', withdrawLocked i m now kind by_ t = Some t' ∧ topic_ok hi t' ∧
      t_ring t' `sublist_of` t_ring t ∧ t_shown t' = t_shown t ∧
      (∀ x, x ∈ t_retracted t' → x ∈ t_retracted t ∨ ∃ m0, m0 ∈ t_ring t ∧ m_Seq m0 = m_Seq x)) as W.
    { intros kind. destruct (withdrawLocked_ok hi t seq i m now kind by_) as (r0 & Ew & [pre Hr] & Hok); [done..|].
      eexists. split; [exact Ew|]. split_and!; [done|exact Hd|done|].
      intros x [Hx| ->%list_elem_of_singleton]%elem_of_app; [|right; by exists m].
      left. rewrite Hr. set_solver. }
    destruct Ho as [-> | ->]; cbn [topic_step]; unfold retract, forceRetract; rewrite E.
    + case_bool_decide.
      * destruct (W RetractedBy_Author) as (t' & -> & Hw). by exists t'.
      * exists t. split_and!; auto.
    + destruct (W RetractedBy_PurgeCap) as (t' & -> & Hw). by exists t'.
  - exists t. destruct Ho as [-> | ->]; cbn [topic_step]; unfold retract, forceRetract; rewrite E;
      split_and!; auto.
Qed.

(** No operation panics; each keeps the invariant, and adds to the ring only
    what it publishes. *)
Lemma topic_step_spec hi t o :
  topic_ok hi t → fresh hi o →
  ∃ t' out, topic_step o t = Some (t', out) ∧ topic_ok (next_hi hi o) t' ∧
    (∀ m, m ∈ t_ring t' → m ∈ t_ring t ∨ hi < m_Seq m) ∧
    (∀ m, m ∈ t_retracted t' → m ∈ t_retracted t ∨ ∃ m0, m0 ∈ t_ring t ∧ m_Seq m0 = m_Seq m) ∧
    (∀ m, m ∈ out → m ∈ t_ring t).
Proof.
  assert (∀ m, m ∈ [] → m ∈ t_ring t) as Hnil by (intros m Hm; by apply not_elem_of_nil in Hm).
  intros H Hf. destruct o as [now seq e cfg|seq|seq by_ now|seq by_ now|task|through|task]; cbn [fresh] in Hf.
  - destruct (appendLocked_ok hi t now seq e cfg) as (l0 & E & [pre Hl] & Hok); [done..|].
    cbn [topic_step next_hi]. rewrite E. do 2 eexists. split_and!; [done|exact Hok| |eauto|exact Hnil].
    intros m [Hm| ->%list_elem_of_singleton]%elem_of_app; [left|right; exact Hf].
    rewrite Hl. set_solver.
  - exists (removeSeq seq t).1, []. split_and!; [done|by apply removeSeq_ok| | |exact Hnil];
      unfold removeSeq; intros m Hm; left; destruct (index_seq seq (t_ring t)) as [[i x]|] eqn:E; try done.
    + eapply elem_of_sublist; [exact Hm|]. by eapply delete_at_sublist.
    + destruct (index_seq seq (t_retracted t)) as [[i x]|]; done.
    + destruct (index_seq seq (t_retracted t)) as [[i x]|] eqn:E'; [|done].
      eapply elem_of_sublist; [exact Hm|]. by eapply delete_at_sublist.
  - destruct (withdraw_step hi t seq by_ now (OpRetract seq by_ now)) as (t' & -> & Hok & Hr & _ & Hw); [done|done|by left|].
    exists t', []. split_and!; [done|done| |done|exact Hnil]. intros m Hm. left. by eapply elem_of_sublist.
  - destruct (withdraw_step hi t seq by_ now (OpForce seq by_ now)) as (t' & -> & Hok & Hr & _ & Hw); [done|done|by right|].
    exists t', []. split_and!; [done|done| |done|exact Hnil]. intros m Hm. left. by eapply elem_of_sublist.
  - exists (takeUnshown task t).1, (takeUnshown task t).2. split_and!.
    + cbn [topic_step]. by destruct (takeUnshown task t).
    + by apply takeUnshown_ok.
    + rewrite takeUnshown_ring. auto.
    + rewrite takeUnshown_retracted. auto.
    + intros m Hm. by apply takeUnshown_out in Hm as [? _].
  - do 2 eexists. split_and!; [done| | | |exact Hnil].
    + apply (topic_ok_sub hi t); [done|done|apply sublist_filter|apply sublist_filter|apply H].
    + intros m Hm. left. by apply above_elem in Hm as [_ ?].
    + intros m Hm. left. by apply above_elem in Hm as [_ ?].
  - do 2 eexists. split_and!; [done| |eauto|eauto|exact Hnil].
    apply (topic_ok_sub hi t); [done..|]. intros task' k Hk. apply (ok_marks hi t H task').
    change (delete task (t_shown t) !! task' = Some k) in Hk. by apply lookup_delete_Some in Hk as [_ ?].
Qed.

Lemma history_ok task hi0 t0 hi t D :
  topic_ok hi0 t0 → history task hi0 t0 hi t D → topic_ok hi t ∧ hi0 ≤ hi.
Proof.
  intros H0. induction 1 as [|hi t D o t' out _ [IH Hle] Hf E]; [done|].
  destruct (topic_step_spec hi t o) as (t'' & out'' & E' & Hok & _); [done..|].
  rewrite E in E'. injection E' as <- <-. split; [done|]. destruct o; cbn in *; lia.
Qed.
End steps.

(** ** Properties *)

Section properties.
Implicit Types (hi : N) (t : topic) (D : list RetainedMessage).

(** What a task was handed is sorted, lies at or below its mark, and covers the
    live messages below the mark. *)
Record delivered (task : TaskID) (t : topic) D : Prop := {
  dl_sorted : StronglySorted seq_lt D;
  dl_below m : m ∈ D → m_Seq m ≤ shownMark task t;
  dl_own m : m ∈ D → ownExcluded m task = false;
  dl_covers m : m ∈ t_ring t → m_Seq m ≤ shownMark task t → ownExcluded m task = false → m ∈ D;
}.

Lemma shownMark_le hi task t : topic_ok hi t → shownMark task t ≤ hi.
Proof.
  intros H. unfold shownMark. destruct (t_shown t !! task) as [k|] eqn:E; cbn; [|lia].
  by apply (ok_marks hi t H task).
Qed.

Lemma takeUnshown_delivered hi task t D :
  topic_ok hi t → delivered task t D →
  delivered task (takeUnshown task t).1 (D ++ (takeUnshown task t).2) ∧
  ∀ m, m ∈ t_ring t → m_Seq m ≤ shownMark task (takeUnshown task t).1.
Proof.
  intros H [Hs Hb Ho Hc].
  assert (StronglySorted seq_lt (above (shownMark task t) (t_ring t))) as Hsa.
  { eapply sublist_StronglySorted; [apply H|apply sublist_filter]. }
  assert (∀ m, m ∈ t_ring t → m_Seq m ≤ shownMark task (takeUnshown task t).1) as Hall.
  { intros m Hm. unfold shownMark at 1. rewrite takeUnshown_mark.
    destruct (last _) as [x|] eqn:E.
    - rewrite decide_True by done. cbn.
      destruct (N.lt_ge_cases (shownMark task t) (m_Seq m)) as [Hlt|Hge].
      + apply (last_max _ x m Hsa E). by apply above_elem.
      + assert (x ∈ above (shownMark task t) (t_ring t)) as Hx.
        { apply last_Some in E as [l ->]. set_solver. }
        apply above_elem in Hx as [? _]. lia.
    - apply last_None in E. destruct (N.lt_ge_cases (shownMark task t) (m_Seq m)) as [Hlt|Hge]; [|done].
      assert (m ∈ above (shownMark task t) (t_ring t)) as Hx by (by apply above_elem).
      rewrite E in Hx. by apply not_elem_of_nil in Hx. }
  assert (shownMark task t ≤ shownMark task (takeUnshown task t).1) as Hmono.
  { unfold shownMark at 2. rewrite takeUnshown_mark. destruct (last _) as [x|] eqn:E; [|done].
    rewrite decide_True by done. cbn. assert (x ∈ above (shownMark task t) (t_ring t)) as Hx.
    { apply last_Some in E as [l ->]. set_solver. }
    apply above_elem in Hx as [? _]. lia. }
  split; [|done]. split.
  - apply StronglySorted_app_2; [|done|].
    + intros x y Hx [_ [Hy _]]%takeUnshown_out. specialize (Hb x Hx). red. lia.
    + eapply sublist_StronglySorted; [exact Hsa|]. apply sublist_filter.
  - intros m [Hm|Hm]%elem_of_app.
    + specialize (Hb m Hm). lia.
    + apply takeUnshown_out in Hm as (? & _). by apply Hall.
  - intros m [Hm|Hm]%elem_of_app; [by apply Ho|]. by apply takeUnshown_out in Hm as (_ & _ & ?).
  - rewrite takeUnshown_ring. intros m Hm _ Hx. apply elem_of_app.
    destruct (N.lt_ge_cases (shownMark task t) (m_Seq m)); [right; by apply takeUnshown_out|left; by apply Hc].
Qed.

(** A step that leaves the task's mark and brings in only newer messages. *)
Lemma delivered_mono hi task t t' D :
  topic_ok hi t → t_shown t' !! task = t_shown t !! task →
  (∀ m, m ∈ t_ring t' → m ∈ t_ring t ∨ hi < m_Seq m) →
  delivered task t D → delivered task t' D.
Proof.
  intros H Em Hr [Hs Hb Ho Hc]. assert (shownMark task t' = shownMark task t) as E
    by (unfold shownMark; by rewrite Em).
  split; [done|by rewrite E|done|]. rewrite E. intros m Hm Hle Hx.
  destruct (Hr m Hm) as [Hm'|Hlt]; [by apply Hc|].
  pose proof (shownMark_le hi task t H). lia.
Qed.

Lemma step_mark o t t' out task :
  topic_step o t = Some (t', out) → o ≠ OpTake task → o ≠ OpForget task →
  t_shown t' !! task = t_shown t !! task.
Proof.
  intros E H1 H2. destruct o as [now seq e cfg|seq|seq by_ now|seq by_ now|task'|through|task']; cbn [topic_step] in E.
  - unfold appendLocked in E. destruct (push _ _ _); [|done]. by injection E as <- _.
  - injection E as <- _. unfold removeSeq. by repeat case_match.
  - unfold retract, withdrawLocked in E. repeat case_match; simplify_option_eq; done.
  - unfold forceRetract, withdrawLocked in E. repeat case_match; simplify_option_eq; done.
  - apply (inj Some) in E. replace t' with (takeUnshown task' t).1 by (by rewrite E). rewrite takeUnshown_mark.
    destruct (last _); [|done]. rewrite decide_False; [done|]. by intros ->.
  - by injection E as <- _.
  - injection E as <- _. transitivity (delete task' (t_shown t) !! task); [done|].
    apply lookup_delete_ne. by intros ->.
Qed.

Lemma history_delivered task hi0 t0 hi t D :
  topic_ok hi0 t0 → t_shown t0 !! task = None →
  (∀ m, m ∈ t_ring t0 → 0 < m_Seq m) →
  history task hi0 t0 hi t D → delivered task t D ∧ ∀ m, m ∈ t_ring t → 0 < m_Seq m.
Proof.
  intros H0 Hm0 Hpos Hh. induction Hh as [|hi t D o t' out Hh [IH IHp] Hf E].
  - split; [|done]. assert (shownMark task t0 = 0) as Ez by (unfold shownMark; by rewrite Hm0).
    split; [constructor|set_solver|set_solver|]. intros m Hm. rewrite Ez. specialize (Hpos m Hm). lia.
  - destruct (history_ok task hi0 t0 hi t D H0 Hh) as [Hok _].
    destruct (topic_step_spec hi t o Hok Hf) as (t'' & out'' & E' & Hok' & Hr & _ & _).
    rewrite E in E'. injection E' as <- <-.
    split; [|intros m Hm; destruct (Hr m Hm); [by apply IHp|lia]].
    destruct (decide (o = OpTake task)) as [->|Ht].
    { cbn [topic_step] in E. apply (inj Some) in E. cbn [handed]. rewrite decide_True by done.
      destruct (takeUnshown_delivered hi task t D Hok IH) as [Hd _]. by rewrite E in Hd. }
    destruct (decide (o = OpForget task)) as [->|Hg].
    { cbn [topic_step] in E. injection E as <- <-. cbn [handed]. rewrite decide_True by done.
      assert (shownMark task (forgetShown task t) = 0) as Ez.
      { unfold shownMark. transitivity (default 0 (delete task (t_shown t) !! task)); [done|].
        by rewrite lookup_delete_eq. }
      split; [constructor|set_solver|set_solver|]. intros m Hm. rewrite Ez. specialize (IHp m Hm). lia. }
    assert (handed task o D out = D) as ->.
    { destruct o; cbn; try done; case_decide; congruence. }
    eapply delivered_mono; [exact Hok| |exact Hr|exact IH]. by eapply step_mark.
Qed.
End properties.

Section claims.
Implicit Types (hi seq : N) (t : topic) (D : list RetainedMessage).

Lemma newTopic_ok hi name cap : (0 < cap)%nat → topic_ok hi (newTopic name cap).
Proof.
  intros Hc. split; cbn;
    [done|constructor|lia|lia|set_solver|constructor|set_solver|set_solver|].
  intros task k Hk. by rewrite lookup_empty in Hk.
Qed.

(** A seq that left the ring is never handed out again. *)
Lemma gone_stays_gone task hi0 t0 hi t D seq :
  topic_ok hi0 t0 → seq ≤ hi0 → (∀ m, m ∈ t_ring t0 → m_Seq m ≠ seq) →
  history task hi0 t0 hi t D →
  (∀ m, m ∈ t_ring t → m_Seq m ≠ seq) ∧ (∀ m, m ∈ D → m_Seq m ≠ seq) ∧
  ((∀ m, m ∈ t_retracted t0 → m_Seq m ≠ seq) → ∀ m, m ∈ t_retracted t → m_Seq m ≠ seq).
Proof.
  intros H0 Hle Hgone. induction 1 as [|hi t D o t' out Hh (IH1 & IH2 & IH3) Hf E].
  { split_and!; [done|set_solver|done]. }
  destruct (history_ok task hi0 t0 hi t D H0 Hh) as [Hok Hhi].
  destruct (topic_step_spec hi t o Hok Hf) as (t'' & out'' & E' & _ & Hr & Hw & Hout).
  rewrite E in E'. injection E' as <- <-. split_and!.
  - intros m Hm. destruct (Hr m Hm); [by apply IH1|lia].
  - intros m Hm. assert (m ∈ D ∨ m ∈ out) as [Hm'|Hm'].
    { destruct o; cbn in Hm; try by left.
      - case_decide; [set_solver|by left].
      - case_decide; [set_solver|by left]. }
    + by apply IH2.
    + by apply IH1, Hout.
  - intros Hw0 m Hm. destruct (Hw m Hm) as [Hm'|(m0 & Hm' & <-)]; [by apply IH3|by apply IH1].
Qed.

(** A topic driven by increasing seqs keeps its ring in seq order within the
    capacity, holds no message twice, stamps exactly the withdrawn ones, and no
    method panics on it. *)
Theorem topic_invariant name cap task hi0 hi t D :
  (0 < cap)%nat → history task hi0 (newTopic name cap) hi t D →
  topic_ok hi t ∧ ∀ o, fresh hi o → is_Some (topic_step o t).
Proof.
  intros Hc Hh. destruct (history_ok _ _ _ _ _ _ (newTopic_ok hi0 name cap Hc) Hh) as [Hok _].
  split; [done|]. intros o Ho. destruct (topic_step_spec hi t o Hok Ho) as (t' & out & -> & _). by eexists.
Qed.

(** C20. The injection path hands a task each live message once.  Over any history
    of the topic's own methods (appends under increasing seqs, withdrawals,
    purges, flushes, advances and forgotten marks; no refill from the log), what
    the task was handed since its mark was last forgotten is strictly increasing
    in seq (nothing twice), never its own exclude-self message, and after an
    advance includes every live message it may be given. *)
Theorem takeUnshown_exactly_once name cap task hi0 hi t D :
  (0 < cap)%nat → history task hi0 (newTopic name cap) hi t D →
  StronglySorted seq_lt (D ++ (takeUnshown task t).2) ∧
  (∀ m, m ∈ D ++ (takeUnshown task t).2 → ownExcluded m task = false) ∧
  (∀ m, m ∈ snapshot t → ownExcluded m task = false → m ∈ D ++ (takeUnshown task t).2).
Proof.
  intros Hc Hh. pose proof (newTopic_ok hi0 name cap Hc) as H0.
  destruct (history_ok _ _ _ _ _ _ H0 Hh) as [Hok _].
  destruct (history_delivered task hi0 (newTopic name cap) hi t D H0) as [Hd _]; [done|set_solver|done|].
  destruct (takeUnshown_delivered hi task t D Hok Hd) as [Hd' Hall].
  split_and!; [apply Hd'|apply Hd'|]. intros m Hm Hx.
  apply (dl_covers _ _ _ Hd'); [by rewrite takeUnshown_ring|by apply Hall|done].
Qed.

(** A withdrawal by the author: it happens exactly when the caller published a
    live message with that seq; it takes that message out of the ring and no
    other, keeps it stamped for the operator, and no later read or advance ever
    shows it. *)
Theorem retract_final task hi t seq by_ now :
  topic_ok hi t → (0 < now)%Z →
  ∃ t' b, retract seq by_ now t = Some (t', b) ∧
    (b = true ↔ ∃ m, m ∈ snapshot t ∧ m_Seq m = seq ∧ m_FromTask m = by_) ∧
    (b = false → t' = t) ∧
    (b = true →
      snapshot t' = filter (λ m, m_Seq m ≠ seq) (snapshot t) ∧
      (∃ m, m ∈ snapshot t ∧ m_Seq m = seq ∧
            last (snapshotRetracted t') = Some (withdrawn m now RetractedBy_Author by_)) ∧
      ∀ hi'' t'' D, history task hi t' hi'' t'' D →
        ∀ m, m ∈ snapshot t'' ∨ m ∈ D → m_Seq m ≠ seq).
Proof.
  intros H Hnow. unfold retract, snapshot, snapshotRetracted.
  destruct (index_seq seq (t_ring t)) as [[i m]|] eqn:E; cycle 1.
  { exists t, false. split_and!; [done| |done|done]. split; [done|].
    intros (m & Hm & Hs & _). by destruct (index_seq_None _ _ _ E Hm). }
  pose proof (index_seq_elem _ _ _ _ E) as Hm. destruct (index_seq_Some _ _ _ _ E) as (l1 & l2 & _ & _ & Hs).
  pose proof (topic_ok_ring_NoDup hi t H) as Hnd.
  destruct (bool_decide_reflect (m_FromTask m = by_)) as [Hby|Hby]; cycle 1.
  { exists t, false. split_and!; [done| |done|done]. split; [done|]. intros (m' & Hm' & Hs' & Hb').
    destruct Hby. rewrite <-Hb'. f_equal. apply (NoDup_seq_inj (t_ring t)); congruence. }
  destruct (withdrawLocked_ok hi t seq i m now RetractedBy_Author by_) as (r0 & -> & _ & Hok); [done..|].
  set (t' := t{{ t_ring := _ ; t_retracted := _ }}) in *.
  exists t', true. split_and!; [done|split; eauto|done|]. intros _.
  assert (t_ring t' = filter (λ x, m_Seq x ≠ seq) (t_ring t)) as Er by (by eapply (delete_at_filter seq)).
  split_and!; [done|exists m; split_and!; [done|done|]|].
  { transitivity (last (r0 ++ [withdrawn m now RetractedBy_Author by_])); [done|]. by rewrite last_snoc. }
  intros hi'' t'' D Hh m0 Hm0.
  destruct (gone_stays_gone task hi t' hi'' t'' D seq Hok) as (G1 & G2 & _); [| |done|].
  - rewrite <-Hs. apply (ok_bound hi t H), elem_of_app. by left.
  - rewrite Er. intros x [Hx _]%list_elem_of_filter. done.
  - destruct Hm0; [by apply G1|by apply G2].
Qed.

(** A purge removes the message wherever it is: neither list holds it afterwards,
    every other entry stays, the answer says whether it was there, and no later
    operation brings it back. *)
Theorem removeSeq_final task hi t seq :
  topic_ok hi t → seq ≤ hi →
  let t' := (removeSeq seq t).1 in
  ((removeSeq seq t).2 = true ↔ ∃ m, m ∈ snapshotAll t ∧ m_Seq m = seq) ∧
  snapshot t' = filter (λ m, m_Seq m ≠ seq) (snapshot t) ∧
  snapshotRetracted t' = filter (λ m, m_Seq m ≠ seq) (snapshotRetracted t) ∧
  ∀ hi'' t'' D, history task hi t' hi'' t'' D → ∀ m, m ∈ snapshotAll t'' → m_Seq m ≠ seq.
Proof.
  intros H Hle t'. unfold snapshot, snapshotRetracted.
  assert (∀ t m, m ∈ snapshotAll t ↔ m ∈ t_ring t ∨ m ∈ t_retracted t) as Hall.
  { intros t1 m. unfold snapshotAll. by rewrite merge_sort_Permutation, elem_of_app. }
  assert (((removeSeq seq t).2 = true ↔ ∃ m, m ∈ snapshotAll t ∧ m_Seq m = seq) ∧
    t_ring t' = filter (λ m, m_Seq m ≠ seq) (t_ring t) ∧
    t_retracted t' = filter (λ m, m_Seq m ≠ seq) (t_retracted t)) as (Hb & Hr & Hw).
  { setoid_rewrite Hall. pose proof (ok_once hi t H) as Hnd. rewrite fmap_app, NoDup_app in Hnd.
    destruct Hnd as (N1 & N12 & N2). subst t'. unfold removeSeq.
    destruct (index_seq seq (t_ring t)) as [[i m]|] eqn:E.
    - pose proof (index_seq_elem _ _ _ _ E) as Hm. destruct (index_seq_Some _ _ _ _ E) as (_ & _ & _ & _ & Hs).
      split_and!; [cbn; split; eauto|by eapply (delete_at_filter seq)|].
      symmetry. apply filter_id. intros x Hx Ex. apply (N12 seq).
      + rewrite <-Hs. by apply list_elem_of_fmap_2.
      + rewrite <-Ex. by apply list_elem_of_fmap_2.
    - assert (t_ring t = filter (λ m, m_Seq m ≠ seq) (t_ring t)) as Ef.
      { symmetry. apply filter_id. intros x Hx. by eapply index_seq_None. }
      destruct (index_seq seq (t_retracted t)) as [[i m]|] eqn:E'.
      + pose proof (index_seq_elem _ _ _ _ E') as Hm. destruct (index_seq_Some _ _ _ _ E') as (_ & _ & _ & _ & Hs).
        split_and!; [cbn; split; eauto|exact Ef|by eapply (delete_at_filter seq)].
      + split_and!; [|exact Ef|].
        * cbn. split; [done|]. intros (m & [Hm|Hm] & Hs); [by destruct (index_seq_None _ _ _ E Hm)|].
          by destruct (index_seq_None _ _ _ E' Hm).
        * symmetry. apply filter_id. intros x Hx. by eapply index_seq_None. }
  split_and!; [done|done|done|]. intros hi'' t'' D Hh m Hm.
  destruct (gone_stays_gone task hi t' hi'' t'' D seq) as (G1 & _ & G3); [by apply removeSeq_ok|done| |done|].
  - rewrite Hr. by intros x [Hx _]%list_elem_of_filter.
  - apply Hall in Hm as [Hm|Hm]; [by apply G1|]. apply G3; [|done].
    rewrite Hw. by intros x [Hx _]%list_elem_of_filter.
Qed.
End claims.

(** ** Merging a flushed ring with its log *)

Section merge.
Implicit Types (l have add : list RetainedMessage).

#[local] Instance seq_lt_antisymm : AntiSymm (=) seq_lt.
Proof. unfold seq_lt. intros x y H1 H2. lia. Qed.
#[local] Instance seq_le_total : Total seq_le.
Proof. intros x y. unfold seq_le. lia. Qed.
#[local] Instance seq_le_trans : Transitive seq_le.
Proof. intros x y z. unfold seq_le. lia. Qed.

Lemma sorted_unique l1 l2 :
  StronglySorted seq_lt l1 → StronglySorted seq_lt l2 → (∀ m, m ∈ l1 ↔ m ∈ l2) → l1 = l2.
Proof.
  intros H1 H2 He. apply (StronglySorted_unique seq_lt); [done|done|].
  assert (∀ l, StronglySorted seq_lt l → NoDup l) as Hnd.
  { intros l. induction 1 as [|x l _ IH Hx]; constructor; [|done].
    intros Hin. rewrite Forall_forall in Hx. specialize (Hx x Hin). red in Hx. lia. }
  apply NoDup_Permutation; auto.
Qed.

Lemma by_seq_lookup l acc s :
  NoDup (m_Seq <$> l) →
  by_seq l acc !! s = match index_seq s l with Some (_, m) => Some m | None => acc !! s end.
Proof.
  unfold by_seq, index_seq. revert acc. induction l as [|x l IH]; intros acc Hnd; [done|].
  rewrite fmap_cons, NoDup_cons in Hnd. destruct Hnd as [Hx Hnd].
  cbn [foldl list_find]. rewrite IH by done. case_decide as E.
  - subst s. destruct (list_find _ l) as [[j y]|] eqn:F; [|by rewrite lookup_insert_eq].
    apply list_find_Some in F as (Hj & Ey & _). destruct Hx. rewrite <-Ey.
    apply list_elem_of_fmap_2. by eapply list_elem_of_lookup_2.
  - destruct (list_find _ l) as [[j y]|]; [done|]. by rewrite lookup_insert_ne.
Qed.

Lemma index_seq_elem_iff s l m :
  NoDup (m_Seq <$> l) → (∃ i, index_seq s l = Some (i, m)) ↔ m ∈ l ∧ m_Seq m = s.
Proof.
  intros Hnd. split.
  - intros [i E]. split; [by eapply index_seq_elem|]. by apply index_seq_Some in E as (?&?&?&?&?).
  - intros [Hm Es]. destruct (index_seq s l) as [[i x]|] eqn:E; [|by destruct (index_seq_None _ _ _ E Hm)].
    exists i. do 2 f_equal. apply (NoDup_seq_inj l); [done|by eapply index_seq_elem|done|].
    apply index_seq_Some in E as (?&?&?&?&?). congruence.
Qed.

Definition merged have add : list RetainedMessage :=
  merge_sort seq_le (snd <$> map_to_list (by_seq have (by_seq add ∅))).

Lemma merged_elem have add m :
  NoDup (m_Seq <$> have) → NoDup (m_Seq <$> add) →
  m ∈ merged have add ↔ m ∈ have ∨ (m ∈ add ∧ m_Seq m ∉ m_Seq <$> have).
Proof.
  intros Nh Na. unfold merged. rewrite merge_sort_Permutation, list_elem_of_fmap.
  assert (∀ s x, by_seq have (by_seq add ∅) !! s = Some x ↔
    m_Seq x = s ∧ (x ∈ have ∨ (x ∈ add ∧ s ∉ m_Seq <$> have))) as HL.
  { intros s x. rewrite by_seq_lookup by done. destruct (index_seq s have) as [[i y]|] eqn:E.
    - pose proof (index_seq_elem_iff s have y Nh) as Hy. destruct Hy as [Hy _].
      destruct (Hy (ex_intro _ i E)) as [Hin Es]. split.
      + intros [= <-]. auto.
      + intros [Ex [Hx|[_ Hx]]]; [f_equal; apply (NoDup_seq_inj have); congruence|].
        destruct Hx. rewrite <-Es. by apply list_elem_of_fmap_2.
    - rewrite by_seq_lookup by done.
      assert (s ∉ m_Seq <$> have) as Hno.
      { intros (z & Ez & Hz)%list_elem_of_fmap. by destruct (index_seq_None _ _ _ E Hz). }
      assert (∀ z, z ∈ have → m_Seq z ≠ s) as Hno' by (intros z Hz; by eapply index_seq_None).
      pose proof (index_seq_elem_iff s add x Na) as Hx.
      destruct (index_seq s add) as [[j y]|] eqn:F.
      + split.
        * intros [= ->]. assert (x ∈ add ∧ m_Seq x = s) as [? ?] by (apply Hx; eauto). eauto.
        * intros [Ex [Hin|[Hin _]]]; [by destruct (Hno' x Hin)|].
          assert (∃ i, Some (j, y) = Some (i, x)) as [i [= _ ->]]; [by apply Hx|done].
      + rewrite lookup_empty. split; [done|]. intros [Ex [Hin|[Hin _]]]; [by destruct (Hno' x Hin)|].
        assert (∃ i, @None (nat * RetainedMessage) = Some (i, x)) as [i [=]]. by apply Hx. }
  split.
  - intros ([s x] & -> & Hx%elem_of_map_to_list). apply HL in Hx as [Ex Hx]. cbn. by rewrite Ex.
  - intros Hm. exists (m_Seq m, m). split; [done|]. apply elem_of_map_to_list, HL. done.
Qed.

(** Sorting messages of different seqs orders them strictly. *)
Lemma sort_strict l : NoDup (m_Seq <$> l) → StronglySorted seq_lt (merge_sort seq_le l).
Proof.
  intros Hnd. assert (NoDup (m_Seq <$> merge_sort seq_le l)) as Hnd' by (by rewrite merge_sort_Permutation).
  assert (StronglySorted seq_le (merge_sort seq_le l)) as Hs by (apply (StronglySorted_merge_sort seq_le)).
  revert Hnd' Hs. generalize (merge_sort seq_le l) as k. clear l Hnd.
  induction k as [|x k IH]; intros Hnd Hs; [constructor|].
  rewrite fmap_cons, NoDup_cons in Hnd. destruct Hnd as [Hx Hnd]. inversion Hs as [|? ? Hs' Hle]; subst.
  constructor; [by apply IH|]. rewrite Forall_forall in *. intros y Hy. specialize (Hle y Hy).
  red in Hle |- *. assert (m_Seq y ≠ m_Seq x); [|lia]. intros Ey. apply Hx. rewrite <-Ey.
  by apply list_elem_of_fmap_2.
Qed.

Lemma merged_sorted have add :
  NoDup (m_Seq <$> have) → NoDup (m_Seq <$> add) → StronglySorted seq_lt (merged have add).
Proof.
  intros Nh Na. unfold merged.
  set (l := snd <$> map_to_list (by_seq have (by_seq add ∅))).
  assert (NoDup (m_Seq <$> merge_sort seq_le l)) as Hnd.
  { rewrite merge_sort_Permutation. subst l. rewrite <-list_fmap_compose.
    rewrite (list_fmap_ext _ fst); [apply NoDup_fst_map_to_list|].
    intros i [s x] Hx%list_elem_of_lookup_2%elem_of_map_to_list. cbn.
    rewrite !by_seq_lookup in Hx by done.
    destruct (index_seq s have) as [[j y]|] eqn:E.
    { injection Hx as ->. by apply index_seq_Some in E as (?&?&?&?&?). }
    destruct (index_seq s add) as [[j y]|] eqn:F; [|done].
    injection Hx as ->. by apply index_seq_Some in F as (?&?&?&?&?). }
  apply sort_strict. by rewrite merge_sort_Permutation in Hnd.
Qed.

(** [mergeNewest] is what refilling a flushed ring needs: in seq order, one entry
    per seq with the ring's own copy winning, and what is left out is older than
    everything kept, which then fills the capacity. *)
Lemma mergeNewest_spec have add n :
  NoDup (m_Seq <$> have) → NoDup (m_Seq <$> add) →
  let candidate m := m ∈ have ∨ (m ∈ add ∧ m_Seq m ∉ m_Seq <$> have) in
  let out := mergeNewest have add n in
  StronglySorted seq_lt out ∧ (∀ m, m ∈ out → candidate m) ∧
  (∀ m, candidate m → m ∈ out ∨ (length out = n ∧ ∀ x, x ∈ out → m_Seq m < m_Seq x)).
Proof.
  intros Nh Na candidate out. pose proof (merged_sorted have add Nh Na) as Hs.
  assert (∀ m, m ∈ merged have add ↔ candidate m) as He by (intros m; by apply merged_elem).
  subst out. unfold mergeNewest. fold (merged have add). revert Hs He. generalize (merged have add) as l.
  intros l Hs He. destruct (Nat.ltb_spec n (length l)) as [Hn|Hn]; cycle 1.
  { split_and!; [done|intros m; by rewrite He|]. intros m Hm. left. by apply He. }
  pose proof (take_drop (length l - n) l) as Hl. split_and!.
  - rewrite <-Hl in Hs. by eapply StronglySorted_app_1_r.
  - intros m Hm. apply He. rewrite <-Hl. apply elem_of_app. by right.
  - intros m Hm. apply He in Hm. rewrite <-Hl in Hm, Hs. apply elem_of_app in Hm as [Hm|Hm]; [right|by left].
    split; [rewrite length_drop; lia|]. intros x Hx. by eapply (StronglySorted_app_1_elem_of seq_lt).
Qed.

Lemma newestSeq_max t m : m ∈ t_ring t ++ t_retracted t → m_Seq m ≤ newestSeq t.
Proof.
  unfold newestSeq. generalize (t_ring t ++ t_retracted t). intros l.
  assert (∀ n, n ≤ foldl (λ n m, if n <? m_Seq m then m_Seq m else n) n l ∧
    ∀ m, m ∈ l → m_Seq m ≤ foldl (λ n m, if n <? m_Seq m then m_Seq m else n) n l) as G; [|by apply G].
  induction l as [|x l IH]; intros n; cbn [foldl]; [split; [lia|set_solver]|].
  destruct (IH (if n <? m_Seq x then m_Seq x else n)) as [H1 H2].
  destruct (N.ltb_spec n (m_Seq x)); (split; [lia|]; intros y [->|Hy]%elem_of_cons; [lia|by apply H2]).
Qed.

(** Flushing a topic empties it and reports how many entries left; refilling it
    from a log tail that holds what was flushed restores the ring exactly. *)
Theorem flush_refill_roundtrip hi t :
  topic_ok hi t →
  let t1 := (dropThrough (newestSeq t) t).1 in
  isEmpty t1 = true ∧
  (dropThrough (newestSeq t) t).2 = (length (snapshot t) + length (snapshotRetracted t))%nat ∧
  mergeNewest (snapshot t1) (snapshot t) (t_cap t) = snapshot t.
Proof.
  intros H t1. unfold snapshot, snapshotRetracted.
  assert (t_ring t1 = [] ∧ t_retracted t1 = []) as [Er Ew].
  { split; apply elem_of_nil_inv; intros m [Hlt Hm]%above_elem;
      pose proof (newestSeq_max t m ltac:(set_solver)); lia. }
  split_and!.
  - unfold isEmpty. by rewrite Er, Ew.
  - cbn [dropThrough snd]. rewrite filter_id by (intros m Hm; by apply newestSeq_max). apply length_app.
  - rewrite Er. pose proof (topic_ok_ring_NoDup hi t H) as Hnd.
    assert (merged [] (t_ring t) = t_ring t) as E.
    { apply sorted_unique; [by apply merged_sorted; [constructor|]|apply H|].
      intros m. rewrite merged_elem; [|constructor|done]. set_solver. }
    unfold mergeNewest. fold (merged [] (t_ring t)). rewrite E.
    destruct (Nat.ltb_spec (t_cap t) (length (t_ring t))); [|done].
    pose proof (ok_ring_len hi t H). lia.
Qed.
End merge.

(** ** Witnesses *)

Module SampleTopic.
Definition a : TaskID := replicate 16 1.
Definition b : TaskID := replicate 16 2.
Definition cfg : sendConfig := mkSendConfig false "" SenderKind_Agent false false false.
Definition say (from : TaskID) : envelope := mkEnvelope [7] [] from "host" "claude" 0.
Definition t1 : topic := default (newTopic "" 0) (fst <$> appendLocked 10 1 (say a) cfg (newTopic "news" 2)).
Definition t2 : topic := default (newTopic "" 0) (fst <$> appendLocked 11 2 (say b) cfg t1).

Lemma said : history a 0 (newTopic "news" 2) 2 t2 [].
Proof.
  apply (history_step a 0 (newTopic "news" 2) 1 t1 [] (OpAppend 11 2 (say b) cfg) t2 []);
    [|done|vm_compute; reflexivity].
  apply (history_step a 0 (newTopic "news" 2) 0 (newTopic "news" 2) [] (OpAppend 10 1 (say a) cfg) t1 []);
    [constructor|done|vm_compute; reflexivity].
Defined.

Lemma t2_ok : topic_ok 2 t2.
Proof. apply (history_ok a 0 (newTopic "news" 2) 2 t2 []); [by apply newTopic_ok; lia|apply said]. Qed.
End SampleTopic.

Lemma topic_invariant_witness :
  topic_ok 2 SampleTopic.t2 ∧ is_Some (topic_step (OpRetract 1 SampleTopic.a 12) SampleTopic.t2).
Proof.
  destruct (topic_invariant "news" 2 SampleTopic.a 0 2 SampleTopic.t2 [] ltac:(lia) SampleTopic.said) as [H1 H2].
  split; [exact H1|apply H2; reflexivity].
Defined.

Lemma takeUnshown_exactly_once_witness :
  map m_Seq (takeUnshown SampleTopic.a SampleTopic.t2).2 = [1; 2] ∧
  StronglySorted seq_lt ([] ++ (takeUnshown SampleTopic.a SampleTopic.t2).2).
Proof.
  split; [vm_compute; reflexivity|].
  destruct (takeUnshown_exactly_once "news" 2 SampleTopic.a 0 2 SampleTopic.t2 [] ltac:(lia) SampleTopic.said)
    as [H _]. exact H.
Defined.

Lemma retract_final_witness :
  ∃ t', retract 1 SampleTopic.a 12 SampleTopic.t2 = Some (t', true) ∧
    snapshot t' = filter (λ m, m_Seq m ≠ 1) (snapshot SampleTopic.t2).
Proof.
  destruct (retract_final SampleTopic.a 2 SampleTopic.t2 1 SampleTopic.a 12 SampleTopic.t2_ok ltac:(lia))
    as (t' & b & E & _ & _ & H). destruct b; [|vm_compute in E; discriminate].
  exists t'. split; [exact E|exact (proj1 (H eq_refl))].
Defined.

Lemma removeSeq_final_witness :
  (removeSeq 2 SampleTopic.t2).2 = true ∧
  snapshot (removeSeq 2 SampleTopic.t2).1 = filter (λ m, m_Seq m ≠ 2) (snapshot SampleTopic.t2).
Proof.
  destruct (removeSeq_final SampleTopic.a 2 SampleTopic.t2 2 SampleTopic.t2_ok ltac:(lia)) as (_ & H & _).
  split; [vm_compute; reflexivity|exact H].
Defined.

Lemma flush_refill_roundtrip_witness :
  mergeNewest (snapshot (dropThrough (newestSeq SampleTopic.t2) SampleTopic.t2).1)
    (snapshot SampleTopic.t2) (t_cap SampleTopic.t2) = snapshot SampleTopic.t2.
Proof. exact (proj2 (proj2 (flush_refill_roundtrip 2 SampleTopic.t2 SampleTopic.t2_ok))). Defined.

(** [snapshotRetracted] is in order of withdrawal: withdrawing the newer message
    first leaves the list descending in seq. *)
Theorem snapshotRetracted_unsorted :
  ∃ t' t'', forceRetract 2 SampleTopic.a 12 SampleTopic.t2 = Some (t', true) ∧
    forceRetract 1 SampleTopic.a 13 t' = Some (t'', true) ∧
    map m_Seq (snapshotRetracted t'') = [2; 1].
Proof. vm_compute. do 2 eexists. split_and!; reflexivity. Qed.
