(* ===== verification/TaskState.v ===== *)
(** * Per-task board state: [agentboard/taskstate.go]

    Subscriptions, reply contacts and live synchronous waits of one (runner,
    task) pair.  Every method runs under the state's mutex and is one function.
    A [*liveWait] of the source is a shared object: here a wait carries a handle
    drawn from [ts_nextWait], [ts_waits] is the store that holds it, and
    [endWait] names it by that handle, so the writes [handOff] and [endWait] make
    to other waits are visible through the store. *)

From stdpp Require Import prelude gmap strings list sorting.
From Stdlib Require Import NArith ZArith.
From coqutil Require Import Datatypes.RecordSetters.
From S2P Require Import Prelude GoStrings Wire Topic.

Import DoubleBraceUpdate.
Open Scope N_scope.
Open Scope stdpp_scope.
Set Default Goal Selector "!".

(** ** Data *)

Record liveWait := mkLiveWait {
  w_handle : nat;
  w_since : N;
  w_inReplyTo : N;
  w_owed : list N;
}.

Record taskState := mkTaskState {
  ts_patterns : gset string;
  ts_waits : gmap string (list liveWait);
  ts_nextWait : nat;
  ts_contacts : gset string;
  ts_contactOrder : list string;
  ts_contactFloor : N;
  ts_routeFloor : gmap string N;
  ts_conns : gset nat;
  ts_rid : list N;
  ts_tid : TaskID;
  ts_host : string;
  ts_profile : string;
}.

Definition newTaskState : taskState :=
  mkTaskState ∅ ∅ 0 ∅ [] 0 ∅ ∅ [] zeroID "" "".

(** ** Contacts *)

Definition maxContacts : nat := 64.

(** The loop that removes the first [topic] from [contactOrder] and breaks. *)
Fixpoint remove_first (topic : string) (l : list string) : list string :=
  match l with
  | [] => []
  | c :: l' => if bool_decide (c = topic) then l' else c :: remove_first topic l'
  end.

(** The part of [addContact] past the floors. *)
Definition record_contact (topic : string) (t : taskState) : taskState :=
  if bool_decide (topic ∈ ts_contacts t) then
    t{{ ts_contactOrder := remove_first topic (ts_contactOrder t) ++ [topic] }}
  else
    let t' := if (length (ts_contactOrder t) =? maxContacts)%nat then
                match ts_contactOrder t with
                | c :: rest => t{{ ts_contacts := ts_contacts t ∖ {[c]}; ts_contactOrder := rest }}
                | [] => t
                end
              else t in
    t'{{ ts_contacts := {[topic]} ∪ ts_contacts t'; ts_contactOrder := ts_contactOrder t' ++ [topic] }}.

Definition addContact (topic : string) (seq : N) (t : taskState) : taskState :=
  if negb (ts_contactFloor t =? 0) && (seq <=? ts_contactFloor t) then t
  else match ts_routeFloor t !! topic with
       | Some f =>
           if seq <=? f then t
           else record_contact topic (t{{ ts_routeFloor := delete topic (ts_routeFloor t) }})
       | None => record_contact topic t
       end.

Definition forgetContacts (topic : string) (floor : N) (t : taskState) : taskState * nat :=
  if bool_decide (topic = ""%string) then
    (t{{ ts_contacts := ∅; ts_contactOrder := []; ts_contactFloor := floor; ts_routeFloor := ∅ }},
     length (ts_contactOrder t))
  else
    let t' := t{{ ts_routeFloor := <[topic := floor]> (ts_routeFloor t) }} in
    if bool_decide (topic ∈ ts_contacts t) then
      (t'{{ ts_contacts := ts_contacts t ∖ {[topic]};
            ts_contactOrder := remove_first topic (ts_contactOrder t) }}, 1%nat)
    else (t', 0%nat).

Definition snapshotContacts (t : taskState) : list string := reverse (ts_contactOrder t).
Definition hasContact (topic : string) (t : taskState) : bool := bool_decide (topic ∈ ts_contacts t).

(** ** Live waits *)

Definition wants (w : liveWait) (m : RetainedMessage) (self : TaskID) : bool :=
  (w_since w <? m_Seq m) && negb (ownExcluded m self) &&
  ((w_inReplyTo w =? 0) || (m_InReplyTo m =? w_inReplyTo w)).

Definition waits_on (topic : string) (t : taskState) : list liveWait := default [] (ts_waits t !! topic).

Definition beginWait (topic : string) (since inReplyTo : N) (t : taskState) : taskState * nat :=
  let w := mkLiveWait (ts_nextWait t) since inReplyTo [] in
  (t{{ ts_waits := <[topic := waits_on topic t ++ [w]]> (ts_waits t);
       ts_nextWait := S (ts_nextWait t) }}, ts_nextWait t).

(** The write [w.owed = append(w.owed, m.Seq)] of [handOff]. *)
Definition owe (m : RetainedMessage) (self : TaskID) (w : liveWait) : liveWait :=
  if wants w m self then w{{ w_owed := w_owed w ++ [m_Seq m] }} else w.

Definition handOff (topic : string) (m : RetainedMessage) (t : taskState) : taskState * bool :=
  match ts_waits t !! topic with
  | Some ws =>
      (t{{ ts_waits := <[topic := owe m (ts_tid t) <$> ws]> (ts_waits t) }},
       existsb (λ w, wants w m (ts_tid t)) ws)
  | None => (t, false)
  end.

Definition returned (took : list RetainedMessage) (seq : N) : bool :=
  existsb (λ m, m_Seq m =? seq) took.

Definition settle (seq : N) (o : liveWait) : liveWait :=
  o{{ w_owed := filter (λ s, s ≠ seq) (w_owed o) }}.

Definition owes (seq : N) (o : liveWait) : bool := bool_decide (seq ∈ w_owed o).

(** One turn of the loop of [endWait] over [w.owed]: the other waits, and
    whether a wake is due. *)
Definition end_step (took : list RetainedMessage) (acc : list liveWait * bool) (seq : N)
  : list liveWait * bool :=
  let '(rest, due) := acc in
  if returned took seq then (settle seq <$> rest, due)
  else if existsb (owes seq) rest then (rest, due) else (rest, true).

(** [endWait] of the wait with handle [h]: a wait is registered from [beginWait]
    to its one [endWait], so the store has it. *)
Definition endWait (topic : string) (h : nat) (took : list RetainedMessage) (t : taskState)
  : taskState * bool :=
  let rest := filter (λ o, w_handle o ≠ h) (waits_on topic t) in
  let owed := flat_map w_owed (filter (λ o, w_handle o = h) (waits_on topic t)) in
  let '(rest', due) := foldl (end_step took) (rest, false) owed in
  (t{{ ts_waits := match rest with
                   | [] => delete topic (ts_waits t)
                   | _ => <[topic := rest']> (ts_waits t)
                   end }}, due).

Definition isWaiting (topic : string) (t : taskState) : bool := bool_decide (is_Some (ts_waits t !! topic)).

(** ** Subscriptions, connections, identity *)

Definition addPattern (p : string) (t : taskState) : taskState :=
  t{{ ts_patterns := {[p]} ∪ ts_patterns t }}.
Definition removePattern (p : string) (t : taskState) : taskState :=
  t{{ ts_patterns := ts_patterns t ∖ {[p]} }}.

Definition matches (topic : string) (t : taskState) : bool :=
  if bool_decide (topic ∈ ts_patterns t) then true else bool_decide (is_Some (ts_waits t !! topic)).

Definition attachConn (c : nat) (t : taskState) : taskState := t{{ ts_conns := {[c]} ∪ ts_conns t }}.
Definition detachConn (c : nat) (t : taskState) : taskState := t{{ ts_conns := ts_conns t ∖ {[c]} }}.

(** Go iterates the maps in no fixed order; the list is taken in key order. *)
Definition snapshotPatterns (t : taskState) : list string :=
  elements (ts_patterns t) ++
  filter (λ p, p ∉ ts_patterns t) (elements (dom (ts_waits t))).

Definition snapshotConns (t : taskState) : list nat := elements (ts_conns t).

Definition setIdentity (rid : list N) (tid : TaskID) (hostname agentProfile : string) (t : taskState)
  : taskState :=
  t{{ ts_rid := rid; ts_tid := tid; ts_host := hostname; ts_profile := agentProfile }}.

Definition identity (t : taskState) : list N * TaskID * string * string :=
  (ts_rid t, ts_tid t, ts_host t, ts_profile t).

(** ** Contacts are a bounded least-recently-added set *)

Section contacts.
Implicit Types (t : taskState) (topic route : string).

Record contacts_ok t : Prop := {
  co_set c : c ∈ ts_contacts t ↔ c ∈ ts_contactOrder t;
  co_nodup : NoDup (ts_contactOrder t);
  co_len : (length (ts_contactOrder t) ≤ maxContacts)%nat;
}.

Lemma newTaskState_contacts : contacts_ok newTaskState.
Proof. split; cbn; [set_solver|constructor|lia]. Qed.

Lemma remove_first_filter topic (l : list string) :
  NoDup l → remove_first topic l = filter (λ c, c ≠ topic) l.
Proof.
  induction 1 as [|c l Hc Hl IH]; [done|]. cbn [remove_first]. rewrite filter_cons.
  case_bool_decide as E; [subst c; rewrite decide_False by tauto|by rewrite decide_True, IH].
  symmetry. apply filter_id. by intros c Hcl ->.
Qed.

Lemma filter_reverse {A} (P : A → Prop) `{!∀ x, Decision (P x)} (l : list A) :
  filter P (reverse l) = reverse (filter P l).
Proof.
  induction l as [|x l IH]; [done|]. rewrite reverse_cons, filter_app, IH, !filter_cons, filter_nil.
  case_decide; by rewrite ?reverse_cons, ?app_nil_r.
Qed.

(** Past the floors, [topic] becomes the newest contact and at most one oldest
    contact goes. *)
Lemma record_contact_order topic t :
  contacts_ok t →
  snapshotContacts (record_contact topic t) =
    topic :: take (maxContacts - 1) (filter (λ c, c ≠ topic) (snapshotContacts t)).
Proof.
  intros [Hs Hnd Hl]. unfold record_contact, snapshotContacts.
  destruct (bool_decide_reflect (topic ∈ ts_contacts t)) as [Hin|Hin].
  - transitivity (reverse (remove_first topic (ts_contactOrder t) ++ [topic])); [done|].
    rewrite reverse_app, remove_first_filter, filter_reverse by done. cbn. f_equal.
    rewrite firstn_all2; [done|]. rewrite length_reverse. apply Hs in Hin.
    pose proof (length_filter_lt (λ c, c ≠ topic) _ topic Hin ltac:(tauto)). unfold maxContacts in *. lia.
  - assert (filter (λ c, c ≠ topic) (reverse (ts_contactOrder t)) = reverse (ts_contactOrder t)) as ->.
    { apply filter_id. intros c Hc ->. apply Hin, Hs. by apply elem_of_reverse. }
    destruct (Nat.eqb_spec (length (ts_contactOrder t)) maxContacts) as [E|E].
    + destruct (ts_contactOrder t) as [|c rest] eqn:Eo; [done|].
      transitivity (reverse (rest ++ [topic])); [done|].
      rewrite reverse_app, (reverse_cons rest c). change (reverse [topic]) with [topic]. cbn [app]. f_equal.
      cbn [length] in E. rewrite take_app_le by (rewrite length_reverse; lia).
      rewrite firstn_all2; [done|]. rewrite length_reverse. lia.
    + transitivity (reverse (ts_contactOrder t ++ [topic])); [done|]. rewrite reverse_app. cbn. f_equal.
      rewrite firstn_all2; [done|]. rewrite length_reverse. unfold maxContacts in *. lia.
Qed.

Lemma record_contact_set topic t c :
  contacts_ok t →
  c ∈ ts_contacts (record_contact topic t) ↔ c ∈ snapshotContacts (record_contact topic t).
Proof.
  intros Hok. pose proof Hok as [Hs Hnd Hl]. unfold record_contact, snapshotContacts. rewrite elem_of_reverse.
  destruct (bool_decide_reflect (topic ∈ ts_contacts t)) as [Hin|Hin].
  - transitivity (c ∈ ts_contacts t); [done|].
    transitivity (c ∈ remove_first topic (ts_contactOrder t) ++ [topic]); [|done].
    rewrite remove_first_filter, elem_of_app, list_elem_of_filter, <-Hs, list_elem_of_singleton by done.
    destruct (decide (c = topic)) as [->|]; naive_solver.
  - destruct (Nat.eqb_spec (length (ts_contactOrder t)) maxContacts) as [E|E].
    + destruct (ts_contactOrder t) as [|x rest] eqn:Eo; [done|].
      transitivity (c ∈ {[topic]} ∪ (ts_contacts t ∖ {[x]})); [done|].
      transitivity (c ∈ rest ++ [topic]); [|done]. apply NoDup_cons in Hnd as [Hx _].
      rewrite elem_of_union, elem_of_difference, !elem_of_singleton, elem_of_app, list_elem_of_singleton, Hs, elem_of_cons.
      destruct (decide (c = x)) as [->|]; naive_solver.
    + transitivity (c ∈ {[topic]} ∪ ts_contacts t); [done|].
      transitivity (c ∈ ts_contactOrder t ++ [topic]); [|done].
      rewrite elem_of_union, elem_of_singleton, elem_of_app, list_elem_of_singleton, Hs. tauto.
Qed.

Lemma record_contact_ok topic t : contacts_ok t → contacts_ok (record_contact topic t).
Proof.
  intros Hok. pose proof (record_contact_order topic t Hok) as E. split.
  - intros c. rewrite record_contact_set by done. unfold snapshotContacts. apply elem_of_reverse.
  - rewrite <-(reverse_Permutation (ts_contactOrder _)).
    change (NoDup (snapshotContacts (record_contact topic t))). rewrite E.
    constructor.
    + intros Hin. apply elem_of_sublist with (l2 := filter (λ c, c ≠ topic) (snapshotContacts t)) in Hin; [|apply sublist_take].
      by apply list_elem_of_filter in Hin as [[] _].
    + eapply sublist_NoDup; [|apply sublist_take]. apply NoDup_filter. unfold snapshotContacts. rewrite reverse_Permutation. apply Hok.
  - rewrite <-length_reverse. change (length (snapshotContacts (record_contact topic t)) ≤ maxContacts)%nat.
    rewrite E. cbn [length]. rewrite length_take. unfold maxContacts. lia.
Qed.
End contacts.

Inductive contact_op := CAdd (route : string) (seq : N) | CForget (route : string) (floor : N).

Definition contact_step (t : taskState) (o : contact_op) : taskState :=
  match o with
  | CAdd route seq => addContact route seq t
  | CForget route floor => (forgetContacts route floor t).1
  end.

Definition contact_run (t : taskState) (ops : list contact_op) : taskState := foldl contact_step t ops.

(** A message with this seq is at or below a floor that covers the route. *)
Definition floored (route : string) (seq : N) (t : taskState) : bool :=
  (negb (ts_contactFloor t =? 0) && (seq <=? ts_contactFloor t)) ||
  match ts_routeFloor t !! route with Some f => seq <=? f | None => false end.

Section contact_runs.
Implicit Types (t : taskState) (route topic : string).

Lemma contacts_ok_same t t' :
  ts_contacts t' = ts_contacts t → ts_contactOrder t' = ts_contactOrder t →
  contacts_ok t → contacts_ok t'.
Proof. intros E1 E2 [Hs Hn Hl]. split; rewrite ?E1, ?E2; done. Qed.

Lemma addContact_cases route seq t :
  (addContact route seq t =
     if floored route seq t then t
     else record_contact route (t{{ ts_routeFloor := delete route (ts_routeFloor t) }})) ∨
  (addContact route seq t = if floored route seq t then t else record_contact route t).
Proof.
  unfold addContact, floored. destruct (negb _ && _); [by left|]. cbn.
  destruct (ts_routeFloor t !! route) as [f|]; [|by right]. destruct (seq <=? f); by left.
Qed.

Lemma addContact_ok route seq t : contacts_ok t → contacts_ok (addContact route seq t).
Proof.
  intros H. destruct (addContact_cases route seq t) as [-> | ->]; destruct (floored _ _ _); try done.
  - apply record_contact_ok. by apply (contacts_ok_same t).
  - by apply record_contact_ok.
Qed.

Lemma forgetContacts_ok route floor t : contacts_ok t → contacts_ok (forgetContacts route floor t).1.
Proof.
  intros [Hs Hn Hl]. unfold forgetContacts. case_bool_decide.
  { split; cbn; [set_solver|constructor|lia]. }
  destruct (bool_decide_reflect (route ∈ ts_contacts t)) as [Hin|Hin].
  - split.
    + intros c. transitivity (c ∈ ts_contacts t ∖ {[route]}); [done|].
      transitivity (c ∈ remove_first route (ts_contactOrder t)); [|done].
      rewrite remove_first_filter, list_elem_of_filter, elem_of_difference, elem_of_singleton, Hs by done. tauto.
    + change (NoDup (remove_first route (ts_contactOrder t))). rewrite remove_first_filter by done.
      by apply NoDup_filter.
    + change (length (remove_first route (ts_contactOrder t)) ≤ maxContacts)%nat.
      rewrite remove_first_filter by done. etrans; [apply length_filter|done].
  - by apply (contacts_ok_same t).
Qed.

Lemma contact_run_ok ops t : contacts_ok t → contacts_ok (contact_run t ops).
Proof.
  revert t. induction ops as [|o ops IH]; intros t H; [done|]. apply IH.
  destruct o; [by apply addContact_ok|by apply forgetContacts_ok].
Qed.

(** After any sequence of adds and clears, the contacts are exactly the listed
    ones, at most 64 without repetition; and an add that no floor covers makes its
    route the newest, keeping the 63 newest others. *)
Theorem contacts_lru ops route seq :
  let t := contact_run newTaskState ops in
  (∀ c, hasContact c t = true ↔ c ∈ snapshotContacts t) ∧
  NoDup (snapshotContacts t) ∧ (length (snapshotContacts t) ≤ maxContacts)%nat ∧
  snapshotContacts (addContact route seq t) =
    if floored route seq t then snapshotContacts t
    else route :: take (maxContacts - 1) (filter (λ c, c ≠ route) (snapshotContacts t)).
Proof.
  intros t. pose proof (contact_run_ok ops newTaskState newTaskState_contacts) as H. fold t in H. clearbody t.
  pose proof H as [Hs Hn Hl]. split_and!.
  - intros c. unfold hasContact, snapshotContacts. by rewrite bool_decide_eq_true, elem_of_reverse.
  - unfold snapshotContacts. by rewrite reverse_Permutation.
  - unfold snapshotContacts. by rewrite length_reverse.
  - destruct (addContact_cases route seq t) as [-> | ->]; destruct (floored _ _ _); try done.
    + rewrite record_contact_order; [done|]. by apply (contacts_ok_same t).
    + by apply record_contact_order.
Qed.

(** The state in which [route] is forgotten for messages up to [floor]. *)
Definition forgotten route (floor : N) t : Prop :=
  route ∉ ts_contacts t ∧
  ((∃ f, ts_routeFloor t !! route = Some f ∧ floor ≤ f) ∨ floor ≤ ts_contactFloor t).

Lemma record_contact_other route topic t :
  route ≠ topic → route ∉ ts_contacts t → route ∉ ts_contacts (record_contact topic t).
Proof.
  intros Hne Hin. unfold record_contact. case_bool_decide; [done|].
  destruct (length (ts_contactOrder t) =? maxContacts)%nat; [destruct (ts_contactOrder t) as [|x rest]|].
  - change (route ∉ {[topic]} ∪ ts_contacts t). set_solver.
  - change (route ∉ {[topic]} ∪ (ts_contacts t ∖ {[x]})). set_solver.
  - change (route ∉ {[topic]} ∪ ts_contacts t). set_solver.
Qed.

Lemma record_contact_floors topic t :
  ts_routeFloor (record_contact topic t) = ts_routeFloor t ∧
  ts_contactFloor (record_contact topic t) = ts_contactFloor t.
Proof. unfold record_contact. repeat case_match; done. Qed.

(** An operation that may not bring [route] back below [floor]: an add for it
    comes from a message at or below the floor, a clear happens later. *)
Definition covered route (floor : N) (o : contact_op) : Prop :=
  match o with
  | CAdd route' seq => route' = route → 0 < seq ∧ seq ≤ floor
  | CForget _ floor' => floor ≤ floor'
  end.

Lemma forgotten_step route floor t o :
  route ≠ ""%string → covered route floor o → forgotten route floor t → forgotten route floor (contact_step t o).
Proof.
  intros Hr Hc [Hn Hf]. destruct o as [topic seq|topic floor']; cbn [contact_step covered] in *.
  - destruct (decide (topic = route)) as [->|Hne].
    { destruct (Hc eq_refl) as [Hpos Hle]. assert (addContact route seq t = t) as ->; [|done].
      unfold addContact. destruct (negb _ && _) eqn:E; [done|]. destruct Hf as [(f & -> & Hf)|Hf].
      - by rewrite (proj2 (N.leb_le seq f)) by lia.
      - apply andb_false_iff in E as [E|E]; breflect; lia. }
    assert (∀ t1, route ∉ ts_contacts t1 → ts_contactFloor t1 = ts_contactFloor t →
      ts_routeFloor t1 !! route = ts_routeFloor t !! route →
      forgotten route floor (record_contact topic t1)) as G.
    { intros t1 H1 H2 H3. destruct (record_contact_floors topic t1) as [F1 F2].
      split; [by apply record_contact_other|]. by rewrite F1, F2, H2, H3. }
    unfold addContact. destruct (negb _ && _); [done|].
    destruct (ts_routeFloor t !! topic) as [f|] eqn:E; [|by apply G].
    destruct (seq <=? f); [done|]. apply G; [done|done|].
    transitivity (delete topic (ts_routeFloor t) !! route); [done|]. by rewrite lookup_delete_ne.
  - unfold forgetContacts. destruct (bool_decide_reflect (topic = ""%string)) as [->|Hne]; cbn [fst].
    { split; [exact (not_elem_of_empty route)|]. right. exact Hc. }
    assert (∀ t1, route ∉ ts_contacts t1 → ts_contactFloor t1 = ts_contactFloor t →
      ts_routeFloor t1 = <[topic := floor']> (ts_routeFloor t) → forgotten route floor t1) as G.
    { intros t1 H1 H2 H3. split; [done|]. rewrite H2, H3.
      destruct (decide (topic = route)) as [->|Hne']; [left; exists floor'; by rewrite lookup_insert_eq|].
      by rewrite lookup_insert_ne. }
    case_bool_decide; cbn [fst]; apply G; try done.
    change (route ∉ ts_contacts t ∖ {[topic]}). set_solver.
Qed.

(** A cleared route stays cleared: whatever is added and cleared afterwards, it
    does not come back unless a message newer than the clear is addressed from it. *)
Theorem forgotten_stays_forgotten t route which floor ops :
  route ≠ ""%string → which = route ∨ which = ""%string →
  Forall (covered route floor) ops →
  hasContact route (contact_run (forgetContacts which floor t).1 ops) = false.
Proof.
  intros Hr Hwhich Hops. apply bool_decide_eq_false.
  assert (forgotten route floor (forgetContacts which floor t).1) as H.
  { destruct Hwhich as [->| ->]; unfold forgetContacts.
    - rewrite bool_decide_eq_false_2 by done. case_bool_decide as Hin; cbn [fst]; (split; [|left; exists floor]).
      + change (route ∉ ts_contacts t ∖ {[route]}). set_solver.
      + split; [|lia]. transitivity (<[route := floor]> (ts_routeFloor t) !! route); [done|].
        apply lookup_insert_eq.
      + done.
      + split; [|lia]. transitivity (<[route := floor]> (ts_routeFloor t) !! route); [done|].
        apply lookup_insert_eq.
    - split; [exact (not_elem_of_empty route)|]. right. exact (N.le_refl floor). }
  revert H. generalize (forgetContacts which floor t).1. induction Hops as [|o ops Ho _ IH]; intros t1 H; [apply H|].
  apply IH. by apply forgotten_step.
Qed.
End contact_runs.

Lemma forgotten_stays_forgotten_witness :
  hasContact "chat.0a0a0a0a"
    (contact_run (forgetContacts "" 7 (contact_run newTaskState [CAdd "chat.0a0a0a0a" 5])).1
       [CAdd "chat.0a0a0a0a" 6; CAdd "news" 9]) = false ∧
  hasContact "chat.0a0a0a0a" (contact_run newTaskState [CAdd "chat.0a0a0a0a" 5]) = true.
Proof.
  split; [|vm_compute; reflexivity].
  apply (forgotten_stays_forgotten _ "chat.0a0a0a0a" "" 7); [done|by right|].
  apply Forall_cons_2; [cbn; lia|]. apply Forall_cons_2; [|constructor]. intros [=].
Defined.

(** ** Waits and wakes

    A publish that a live wait will return withholds the task's wake; [endWait]
    emits it when the wait ends without the message.  The trace below follows one
    topic of one task: [g_published] are the messages published to it while the
    task is a target, [g_woken] those a wake was emitted for (by the publish, or by
    the [endWait] that found them due), [g_returned] what ended waits returned, and
    [g_settled] what was returned by a wait that owed it. *)

Record ghost := mkGhost {
  g_published : list N;
  g_woken : list N;
  g_returned : list N;
  g_settled : list N;
}.

Inductive wait_op :=
  | WBegin (since inReplyTo : N)
  | WPublish (m : RetainedMessage)
  | WEnd (h : nat) (took : list RetainedMessage).

Section waits.
Variable topic : string.
Implicit Types (t : taskState) (g : ghost) (took : list RetainedMessage) (ws : list liveWait) (s : N).

Definition owed_by (h : nat) t : list N :=
  flat_map w_owed (filter (λ o, w_handle o = h) (waits_on topic t)).
Definition others (h : nat) t : list liveWait := filter (λ o, w_handle o ≠ h) (waits_on topic t).

(** What [endWait] finds due: not returned, and owed by no other live wait. *)
Definition due_now took ws s : bool := negb (returned took s) && negb (existsb (owes s) ws).

Definition wait_step (c : taskState * ghost) (o : wait_op) : taskState * ghost :=
  let '(t, g) := c in
  match o with
  | WBegin since irt => ((beginWait topic since irt t).1, g)
  | WPublish m =>
      let '(t', handed) := handOff topic m t in
      (t', mkGhost (g_published g ++ [m_Seq m])
                   (g_woken g ++ (if handed then [] else [m_Seq m])) (g_returned g) (g_settled g))
  | WEnd h took =>
      let '(t', due) := endWait topic h took t in
      (t', mkGhost (g_published g)
                   (g_woken g ++ (if due then filter (λ s, due_now took (others h t) s = true) (owed_by h t) else []))
                   (g_returned g ++ (m_Seq <$> took))
                   (g_settled g ++ filter (λ s, returned took s = true) (owed_by h t)))
  end.

Definition wait_fresh (hi : N) (o : wait_op) : Prop :=
  match o with WPublish m => hi < m_Seq m | _ => True end.
Definition wait_hi (hi : N) (o : wait_op) : N :=
  match o with WPublish m => m_Seq m | _ => hi end.

Inductive wait_run t0 : N → taskState → ghost → Prop :=
  | wait_start hi : wait_run t0 hi t0 (mkGhost [] [] [] [])
  | wait_next hi t g o :
      wait_run t0 hi t g → wait_fresh hi o →
      wait_run t0 (wait_hi hi o) (wait_step (t, g) o).1 (wait_step (t, g) o).2.

Lemma returned_elem took s : returned took s = true ↔ s ∈ m_Seq <$> took.
Proof.
  unfold returned. rewrite existsb_elem_of, list_elem_of_fmap. split.
  - intros (m & Hm & E%N.eqb_eq). eauto.
  - intros (m & -> & Hm). exists m. by rewrite N.eqb_refl.
Qed.

Lemma owes_elem s o : owes s o = true ↔ s ∈ w_owed o.
Proof. apply bool_decide_eq_true. Qed.

(** The loop of [endWait] in one step: what it returned is settled in every other
    wait, and a wake is due when some owed message is due. *)
Lemma end_loop took owed ws due :
  ∃ ws', foldl (end_step took) (ws, due) owed =
           (ws', due || existsb (due_now took ws) owed) ∧
    w_handle <$> ws' = w_handle <$> ws ∧
    (∀ s, (∃ w, w ∈ ws' ∧ s ∈ w_owed w) ↔
          (∃ w, w ∈ ws ∧ s ∈ w_owed w) ∧ ¬ (s ∈ owed ∧ returned took s = true)) ∧
    ((∀ w, w ∈ ws → NoDup (w_owed w)) → ∀ w, w ∈ ws' → NoDup (w_owed w)).
Proof.
  revert ws due. induction owed as [|x owed IH]; intros ws due; cbn [foldl existsb].
  { exists ws. split_and!; [by rewrite orb_false_r|done|set_solver|done]. }
  unfold end_step at 2. destruct (returned took x) eqn:Ex.
  - destruct (IH (settle x <$> ws) due) as (ws' & E & Hh & Ho & Hn). exists ws'. split_and!.
    + rewrite E. f_equal. f_equal. unfold due_now at 2. rewrite Ex. cbn [negb andb orb].
      apply existsb_ext_elem. intros s _. unfold due_now. destruct (returned took s) eqn:Es; [done|]. cbn.
      f_equal. assert (s ≠ x) as Hne by congruence. clear -Hne. induction ws as [|w ws IH]; [done|].
      cbn. rewrite IH. f_equal. apply bool_decide_ext. change (s ∈ filter (λ s, s ≠ x) (w_owed w) ↔ s ∈ w_owed w).
      rewrite list_elem_of_filter. tauto.
    + rewrite Hh, <-list_fmap_compose. by apply list_fmap_ext.
    + intros s. rewrite Ho. assert ((∃ w, w ∈ settle x <$> ws ∧ s ∈ w_owed w) ↔ (∃ w, w ∈ ws ∧ s ∈ w_owed w) ∧ s ≠ x) as ->.
      { split.
        - intros (w' & (w & -> & Hw)%list_elem_of_fmap & Hs).
          change (s ∈ filter (λ s, s ≠ x) (w_owed w)) in Hs. apply list_elem_of_filter in Hs as [? ?]. eauto.
        - intros [(w & Hw & Hs) Hne]. exists (settle x w). split; [by apply list_elem_of_fmap_2|].
          change (s ∈ filter (λ s, s ≠ x) (w_owed w)). by apply list_elem_of_filter. }
      rewrite elem_of_cons. destruct (decide (s = x)) as [->|]; naive_solver.
    + intros Hnd. apply Hn. intros w' (w & -> & Hw)%list_elem_of_fmap.
      change (NoDup (filter (λ s, s ≠ x) (w_owed w))). by apply NoDup_filter, Hnd.
  - assert (∀ s, ¬ (s ∈ x :: owed ∧ returned took s = true) ↔ ¬ (s ∈ owed ∧ returned took s = true)) as Hx.
    { intros s. rewrite elem_of_cons. destruct (decide (s = x)) as [->|]; [rewrite Ex|]; naive_solver. }
    assert (due_now took ws x = negb (existsb (owes x) ws)) as Ed by (unfold due_now; by rewrite Ex).
    rewrite Ed. destruct (existsb (owes x) ws); cbn [negb orb].
    + destruct (IH ws due) as (ws' & E & Hh & Ho & Hn). exists ws'. rewrite E.
      split_and!; [done|done|intros s; by rewrite Ho, Hx|done].
    + destruct (IH ws true) as (ws' & E & Hh & Ho & Hn). exists ws'. rewrite E, orb_true_r.
      split_and!; [done|done|intros s; by rewrite Ho, Hx|done].
Qed.

Lemma beginWait_waits since irt t :
  waits_on topic (beginWait topic since irt t).1 =
    waits_on topic t ++ [mkLiveWait (ts_nextWait t) since irt []].
Proof.
  transitivity (default [] (<[topic := waits_on topic t ++ [mkLiveWait (ts_nextWait t) since irt []]]> (ts_waits t) !! topic));
    [done|]. by rewrite lookup_insert_eq.
Qed.

Lemma handOff_waits m t :
  waits_on topic (handOff topic m t).1 = owe m (ts_tid t) <$> waits_on topic t ∧
  ts_nextWait (handOff topic m t).1 = ts_nextWait t ∧
  (handOff topic m t).2 = existsb (λ w, wants w m (ts_tid t)) (waits_on topic t).
Proof.
  unfold handOff. destruct (ts_waits t !! topic) as [ws|] eqn:E; cbn [fst snd].
  - assert (waits_on topic t = ws) as -> by (unfold waits_on; by rewrite E). split_and!; [|done|done].
    transitivity (default [] (<[topic := owe m (ts_tid t) <$> ws]> (ts_waits t) !! topic)); [done|].
    by rewrite lookup_insert_eq.
  - assert (waits_on topic t = []) as -> by (unfold waits_on; by rewrite E). done.
Qed.

Lemma endWait_waits h took t :
  ∃ ws', waits_on topic (endWait topic h took t).1 = ws' ∧
    ts_nextWait (endWait topic h took t).1 = ts_nextWait t ∧
    (endWait topic h took t).2 = existsb (due_now took (others h t)) (owed_by h t) ∧
    w_handle <$> ws' = w_handle <$> others h t ∧
    (∀ s, (∃ w, w ∈ ws' ∧ s ∈ w_owed w) ↔
          (∃ w, w ∈ others h t ∧ s ∈ w_owed w) ∧ ¬ (s ∈ owed_by h t ∧ returned took s = true)) ∧
    ((∀ w, w ∈ others h t → NoDup (w_owed w)) → ∀ w, w ∈ ws' → NoDup (w_owed w)).
Proof.
  destruct (end_loop took (owed_by h t) (others h t) false) as (ws' & E & Hh & Ho & Hn).
  exists ws'. unfold endWait. fold (others h t). fold (owed_by h t). rewrite E. cbn [fst snd].
  split_and!; [|done|done|done|done|done].
  destruct (others h t) as [|w ws] eqn:Eo.
  - apply fmap_nil_inv in Hh as ->.
    transitivity (default [] (delete topic (ts_waits t) !! topic)); [done|]. by rewrite lookup_delete_eq.
  - transitivity (default [] (<[topic := ws']> (ts_waits t) !! topic)); [done|]. by rewrite lookup_insert_eq.
Qed.

Record wait_inv (hi : N) t g : Prop := {
  wi_handles : NoDup (w_handle <$> waits_on topic t);
  wi_next w : w ∈ waits_on topic t → (w_handle w < ts_nextWait t)%nat;
  wi_owed w : w ∈ waits_on topic t → NoDup (w_owed w);
  wi_known w s : w ∈ waits_on topic t → s ∈ w_owed w → s ∈ g_published g;
  wi_hi s : s ∈ g_published g → s ≤ hi;
  wi_told s : s ∈ g_woken g ++ g_settled g → s ∈ g_published g;
  wi_once : NoDup (g_woken g ++ g_settled g);
  wi_done s w : s ∈ g_woken g ++ g_settled g → w ∈ waits_on topic t → s ∉ w_owed w;
  wi_cover s : s ∈ g_published g →
    s ∈ g_woken g ∨ s ∈ g_returned g ∨ ∃ w, w ∈ waits_on topic t ∧ s ∈ w_owed w;
}.

Lemma wait_inv_begin hi t g since irt :
  wait_inv hi t g → wait_inv hi (beginWait topic since irt t).1 g.
Proof.
  intros [Hh Hn Ho Hk Hb Ht H1 Hd Hc].
  assert (∀ w, w ∈ waits_on topic (beginWait topic since irt t).1 →
    w ∈ waits_on topic t ∨ w = mkLiveWait (ts_nextWait t) since irt []) as Hw.
  { intros w. rewrite beginWait_waits, elem_of_app, list_elem_of_singleton. done. }
  split; try done.
  - rewrite beginWait_waits, fmap_app, NoDup_app. cbn. split_and!; [done| |apply NoDup_singleton].
    intros h (w & -> & Hin)%list_elem_of_fmap. specialize (Hn w Hin). rewrite list_elem_of_singleton. lia.
  - intros w [Hin| ->]%Hw; change (ts_nextWait (beginWait topic since irt t).1) with (S (ts_nextWait t)).
    + specialize (Hn w Hin). lia.
    + cbn. lia.
  - intros w [Hin| ->]%Hw; [by apply Ho|constructor].
  - intros w s [Hin| ->]%Hw Hs; [by eapply Hk|by apply not_elem_of_nil in Hs].
  - intros s w Hs [Hin| ->]%Hw; [by apply Hd|apply not_elem_of_nil].
  - intros s Hs. destruct (Hc s Hs) as [?|[?|(w & Hin & ?)]]; [by auto..|].
    right; right. exists w. rewrite beginWait_waits. set_solver.
Qed.

Lemma owe_owed m self w s :
  s ∈ w_owed (owe m self w) ↔ s ∈ w_owed w ∨ (wants w m self = true ∧ s = m_Seq m).
Proof.
  unfold owe. destruct (wants w m self); [|naive_solver].
  transitivity (s ∈ w_owed w ++ [m_Seq m]); [done|]. set_solver.
Qed.

Lemma wait_inv_publish hi t g m :
  hi < m_Seq m → wait_inv hi t g →
  wait_inv (m_Seq m) (wait_step (t, g) (WPublish m)).1 (wait_step (t, g) (WPublish m)).2.
Proof.
  intros Hlt [Hh Hn Ho Hk Hb Ht H1 Hd Hc]. cbn [wait_step].
  destruct (handOff_waits m t) as (Ew & En & Eb). destruct (handOff topic m t) as [t' handed].
  cbn [fst snd] in *. subst handed.
  assert (∀ s, s ∈ g_published g → s < m_Seq m) as Hold by (intros s Hs; specialize (Hb s Hs); lia).
  assert (∀ w', w' ∈ waits_on topic t' → ∃ w, w' = owe m (ts_tid t) w ∧ w ∈ waits_on topic t) as Hw.
  { intros w'. rewrite Ew, list_elem_of_fmap. done. }
  set (handed := existsb _ _). assert (∀ s, s ∈ (g_woken g ++ (if handed then [] else [m_Seq m])) ++ g_settled g ↔
    s ∈ g_woken g ++ g_settled g ∨ (handed = false ∧ s = m_Seq m)) as Hel.
  { intros s. destruct handed; set_solver. }
  split; cbn [g_published g_woken g_returned g_settled].
  - rewrite Ew, <-list_fmap_compose. erewrite list_fmap_ext; [exact Hh|].
    intros i w _. cbn. unfold owe. by destruct (wants w m (ts_tid t)).
  - intros w' (w & -> & Hin)%Hw. rewrite En. specialize (Hn w Hin). unfold owe. by destruct (wants w m (ts_tid t)).
  - intros w' (w & -> & Hin)%Hw. unfold owe. destruct (wants w m (ts_tid t)); [|by apply Ho].
    change (NoDup (w_owed w ++ [m_Seq m])). apply NoDup_app. split_and!; [by apply Ho| |apply NoDup_singleton].
    intros s Hs ->%list_elem_of_singleton. specialize (Hold _ (Hk w _ Hin Hs)). lia.
  - intros w' s (w & -> & Hin)%Hw [Hs|[_ ->]]%owe_owed; [|set_solver]. apply elem_of_app. left. by eapply Hk.
  - intros s [Hs| ->%list_elem_of_singleton]%elem_of_app; [|lia]. specialize (Hold s Hs). lia.
  - intros s [Hs|[_ ->]]%Hel; [apply elem_of_app; left; by apply Ht|set_solver].
  - destruct handed; [by rewrite app_nil_r|].
    rewrite <-app_assoc, (Permutation_app_comm [m_Seq m]), app_assoc. apply NoDup_app.
    split_and!; [done| |apply NoDup_singleton]. intros s Hs ->%list_elem_of_singleton.
    specialize (Hold _ (Ht _ Hs)). lia.
  - intros s w' Hs (w & -> & Hin)%Hw [Hs'|[Hwant ->]]%owe_owed; apply Hel in Hs as [Hs|[Hf Hs]].
    + by eapply Hd.
    + subst s. specialize (Hold _ (Hk w _ Hin Hs')). lia.
    + specialize (Hold _ (Ht _ Hs)). lia.
    + unfold handed in Hf. rewrite existsb_false_elem_of in Hf. specialize (Hf w Hin). cbn in Hf. congruence.
  - intros s [Hs| ->%list_elem_of_singleton]%elem_of_app.
    + destruct (Hc s Hs) as [?|[?|(w & Hin & Hsw)]]; [left; set_solver|right; by left|].
      right; right. exists (owe m (ts_tid t) w). split; [rewrite Ew; by apply list_elem_of_fmap_2|].
      apply owe_owed. by left.
    + destruct handed eqn:Eh; [|left; set_solver]. right; right.
      apply existsb_elem_of in Eh as (w & Hin & Hwant). exists (owe m (ts_tid t) w).
      split; [rewrite Ew; by apply list_elem_of_fmap_2|]. apply owe_owed. by right.
Qed.

Lemma owed_by_elem h t s :
  s ∈ owed_by h t ↔ ∃ w, w ∈ waits_on topic t ∧ w_handle w = h ∧ s ∈ w_owed w.
Proof.
  unfold owed_by. rewrite elem_of_flat_map. setoid_rewrite list_elem_of_filter. naive_solver.
Qed.

Lemma others_elem h t w : w ∈ others h t ↔ w ∈ waits_on topic t ∧ w_handle w ≠ h.
Proof. unfold others. rewrite list_elem_of_filter. tauto. Qed.

Lemma owed_by_NoDup hi t g h : wait_inv hi t g → NoDup (owed_by h t).
Proof.
  intros H. pose proof (wi_handles _ _ _ H) as Hh. pose proof (wi_owed _ _ _ H) as Ho.
  unfold owed_by. revert Hh Ho. generalize (waits_on topic t) as ws. clear.
  induction ws as [|w ws IH]; intros Hh Ho; [constructor|].
  rewrite fmap_cons, NoDup_cons in Hh. destruct Hh as [Hw Hh]. rewrite filter_cons. case_decide as E.
  - assert (filter (λ o, w_handle o = h) ws = []) as ->.
    { apply elem_of_nil_inv. intros o [Eo Hin]%list_elem_of_filter. apply Hw. rewrite E, <-Eo.
      by apply list_elem_of_fmap_2. }
    cbn. rewrite app_nil_r. apply Ho. by left.
  - apply IH; [done|]. intros o Hin. apply Ho. by right.
Qed.

(** The messages [endWait] emits the withheld wake for. *)
Lemma due_filter took ws (owed : list N) :
  (if existsb (due_now took ws) owed then filter (λ s, due_now took ws s = true) owed else []) =
  filter (λ s, due_now took ws s = true) owed.
Proof.
  destruct (existsb _ _) eqn:E; [done|]. rewrite existsb_false_elem_of in E. symmetry.
  apply elem_of_nil_inv. intros s [Hs Hin]%list_elem_of_filter. rewrite E in Hs; done.
Qed.

Lemma wait_inv_end hi t g h took :
  wait_inv hi t g →
  wait_inv hi (wait_step (t, g) (WEnd h took)).1 (wait_step (t, g) (WEnd h took)).2.
Proof.
  intros H. pose proof (owed_by_NoDup hi t g h H) as Hob. destruct H as [Hh Hn Ho Hk Hb Ht H1 Hd Hc].
  cbn [wait_step]. destruct (endWait_waits h took t) as (ws' & Ew & En & Eb & Ehs & Eo & Enn).
  destruct (endWait topic h took t) as [t' due]. cbn [fst snd] in *. subst due. rewrite due_filter.
  set (Dm := filter _ (owed_by h t)). set (St := filter _ (owed_by h t)).
  assert (∀ w', w' ∈ ws' → ∃ w, w ∈ others h t ∧ w_handle w = w_handle w') as Hfrom.
  { intros w' Hw'. assert (w_handle w' ∈ w_handle <$> others h t) as (w & ? & ?)%list_elem_of_fmap;
      [rewrite <-Ehs; by apply list_elem_of_fmap_2|]. eauto. }
  assert (∀ w' s, w' ∈ ws' → s ∈ w_owed w' → ∃ w, w ∈ others h t ∧ s ∈ w_owed w) as Hsub.
  { intros w' s Hw' Hs. apply (Eo s). eauto. }
  assert (∀ s, s ∈ Dm ↔ s ∈ owed_by h t ∧ due_now took (others h t) s = true) as HDm
    by (intros s; unfold Dm; rewrite list_elem_of_filter; tauto).
  assert (∀ s, s ∈ St ↔ s ∈ owed_by h t ∧ returned took s = true) as HSt
    by (intros s; unfold St; rewrite list_elem_of_filter; tauto).
  assert (∀ s, s ∈ (g_woken g ++ Dm) ++ g_settled g ++ St ↔
    s ∈ g_woken g ++ g_settled g ∨ s ∈ Dm ∨ s ∈ St) as Hel by set_solver.
  assert (∀ s, s ∈ owed_by h t → s ∈ g_published g) as Hpub.
  { intros s (w & Hin & _ & Hs)%owed_by_elem. by eapply Hk. }
  split; cbn [g_published g_woken g_returned g_settled]; rewrite ?Ew, ?En.
  - rewrite Ehs. eapply sublist_NoDup; [exact Hh|]. apply sublist_fmap, sublist_filter.
  - intros w' (w & [Hin _]%others_elem & <-)%Hfrom. by apply Hn.
  - apply Enn. intros w [Hin _]%others_elem. by apply Ho.
  - intros w' s Hw' Hs. destruct (Hsub w' s Hw' Hs) as (w & [Hin _]%others_elem & ?). by eapply Hk.
  - done.
  - intros s [Hs|[[Hs _]%HDm|[Hs _]%HSt]]%Hel; auto.
  - assert ((g_woken g ++ Dm) ++ g_settled g ++ St ≡ₚ (g_woken g ++ g_settled g) ++ Dm ++ St) as ->.
    { rewrite <-!app_assoc. apply Permutation_app_head. rewrite !app_assoc. by rewrite (Permutation_app_comm Dm). }
    assert (∀ s, s ∈ g_woken g ++ g_settled g → s ∉ owed_by h t) as Hno.
    { intros s Hs (w & Hin & _ & Hs')%owed_by_elem. by eapply Hd. }
    apply NoDup_app. split_and!; [done|intros s Hs [[? _]%HDm|[? _]%HSt]%elem_of_app; by eapply Hno|].
    apply NoDup_app. split_and!; [by apply NoDup_filter| |by apply NoDup_filter].
    intros s [_ Hdue]%HDm [_ Hret]%HSt. unfold due_now in Hdue. by rewrite Hret in Hdue.
  - intros s w' Hs Hw' Hsw. assert ((∃ w, w ∈ others h t ∧ s ∈ w_owed w) ∧ ¬ (s ∈ owed_by h t ∧ returned took s = true))
      as [(w & Hwo & Hsw') Hns] by (apply (Eo s); eauto).
    apply Hel in Hs as [Hs|[[Hob' Hdue]%HDm|Hs%HSt]]; [|
      |by apply Hns].
    + apply others_elem in Hwo as [Hin _]. by eapply Hd.
    + unfold due_now in Hdue. apply andb_true_iff in Hdue as [_ Hdue%negb_true_iff].
      rewrite existsb_false_elem_of in Hdue. specialize (Hdue w Hwo).
      apply owes_elem in Hsw'. congruence.
  - intros s Hs. destruct (Hc s Hs) as [?|[?|(w & Hin & Hsw)]]; [left; set_solver|right; left; set_solver|].
    destruct (returned took s) eqn:Er.
    { right; left. apply elem_of_app. right. by apply returned_elem. }
    destruct (existsb (owes s) (others h t)) eqn:Eoth.
    + right; right. apply existsb_elem_of in Eoth as (w2 & Hw2 & Hs2%owes_elem).
      apply (Eo s). split; [eauto|]. intros [_ ?]. congruence.
    + left. apply elem_of_app. right. apply HDm. rewrite existsb_false_elem_of in Eoth.
      assert (w_handle w = h) as Eh.
      { destruct (decide (w_handle w = h)) as [|Hne]; [done|]. specialize (Eoth w).
        assert (owes s w = true) by (by apply owes_elem). rewrite Eoth in *; [done|by apply others_elem]. }
      split; [apply owed_by_elem; eauto|]. unfold due_now. rewrite Er. cbn.
      apply negb_true_iff, existsb_false_elem_of. done.
Qed.

Lemma wait_run_inv t0 hi t g :
  waits_on topic t0 = [] → wait_run t0 hi t g → wait_inv hi t g.
Proof.
  intros H0. induction 1 as [hi|hi t g o _ IH Hf].
  - split; rewrite ?H0; cbn; try (intros; set_solver); constructor.
  - destruct o; cbn [wait_fresh wait_hi] in *.
    + by apply wait_inv_begin.
    + by apply (wait_inv_publish hi).
    + by apply wait_inv_end.
Qed.

(** C21. No wake is lost or repeated.  Over any interleaving of waits beginning,
    messages arriving and waits ending on a topic: a message is woken for at most
    once, and never when a wait that owed it returned it; and each is woken for,
    returned by some wait, or still owed by a live one, so that once no wait is
    live every message reached the task one way or the other. *)
Theorem wakes_exactly_once t0 hi t g :
  waits_on topic t0 = [] → wait_run t0 hi t g →
  NoDup (g_woken g ++ g_settled g) ∧
  (∀ s, s ∈ g_published g →
     s ∈ g_woken g ∨ s ∈ g_returned g ∨ ∃ w, w ∈ waits_on topic t ∧ s ∈ w_owed w) ∧
  (isWaiting topic t = false → ∀ s, s ∈ g_published g → s ∈ g_woken g ∨ s ∈ g_returned g).
Proof.
  intros H0 Hr. pose proof (wait_run_inv t0 hi t g H0 Hr) as [_ _ _ _ _ _ H1 _ Hc].
  split_and!; [done|done|]. intros Hw s Hs. destruct (Hc s Hs) as [?|[?|(w & Hin & _)]]; [by left|by right|].
  unfold isWaiting in Hw. apply bool_decide_eq_false in Hw. unfold waits_on in Hin.
  destruct (ts_waits t !! topic); [destruct Hw; eauto|]. by apply not_elem_of_nil in Hin.
Qed.
End waits.

Module SampleWait.
Definition m : RetainedMessage := new_message 5 "news" 1 (mkEnvelope [] [] zeroID "" "" 0)
  (mkSendConfig false "" SenderKind_Agent false false false).
Definition self : taskState := setIdentity [] SampleTopic.a "" "" newTaskState.
Definition after (ops : list wait_op) : taskState * ghost :=
  foldl (wait_step "news") (self, mkGhost [] [] [] []) ops.

Lemma one_wait_run :
  wait_run "news" self 1 (after [WBegin 0 0; WPublish m; WEnd 0 []]).1 (after [WBegin 0 0; WPublish m; WEnd 0 []]).2.
Proof.
  apply (wait_next "news" self 1 (after [WBegin 0 0; WPublish m]).1 (after [WBegin 0 0; WPublish m]).2 (WEnd 0 []));
    [|done].
  apply (wait_next "news" self 0 (after [WBegin 0 0]).1 (after [WBegin 0 0]).2 (WPublish m)); [|done].
  apply (wait_next "news" self 0 self (mkGhost [] [] [] []) (WBegin 0 0)); [constructor|done].
Defined.
End SampleWait.

Lemma wakes_exactly_once_witness :
  g_woken (SampleWait.after [WBegin 0 0; WPublish SampleWait.m; WEnd 0 []]).2 = [1] ∧
  NoDup ((g_woken (SampleWait.after [WBegin 0 0; WPublish SampleWait.m; WEnd 0 []]).2) ++
         g_settled (SampleWait.after [WBegin 0 0; WPublish SampleWait.m; WEnd 0 []]).2).
Proof.
  split; [vm_compute; reflexivity|].
  exact (proj1 (wakes_exactly_once "news" SampleWait.self 1 _ _ eq_refl SampleWait.one_wait_run)).
Defined.

(** A wait that begins after the publish returns the message without owing it,
    and so does not settle it for an earlier wait: when that one ends empty, the
    task is woken for a message it was already given. *)
Theorem late_wait_does_not_settle :
  let '(_, g) := SampleWait.after
    [WBegin 0 0; WPublish SampleWait.m; WBegin 0 0; WEnd 1 [SampleWait.m]; WEnd 0 []] in
  g_returned g = [1] ∧ g_woken g = [1].
Proof. vm_compute. done. Qed.
