(* ===== verification/BoardReach.v ===== *)
(** * Who may read and publish where: [agentboard/reach.go], [agentboard/ids.go],
    [agentboard/membership.go] and [server/taskstore_reach.go]

    The board asks the task store, through the interface [ReachSource], who
    created whom and what each task holds.  [ReachSource] is a type class here:
    the board's rules are written against it, [LawfulReach] states what the rules
    need of it, and the task store of [server/taskstore.go] is an instance whose
    laws follow from the entries a store holds. *)

From stdpp Require Import prelude gmap strings list sorting relations.
From Stdlib Require Import NArith ZArith Ascii.
From coqutil Require Import Datatypes.RecordSetters.
From S2P Require Import Prelude GoStrings Caps Scope Sets Delegate Wire Wal TaskStore Replay Topic TaskState.

Import DoubleBraceUpdate.
Open Scope N_scope.
Open Scope stdpp_scope.
Set Default Goal Selector "!".

(** ** Topic names *)

Definition SelfTopicPrefix : string := "chat.".
Definition OperatorTopic : string := "chat.operator".
Definition selfTopicShortLen : nat := 8.
Definition treeTopicPrefix : string := "tree.".

(** [s[:n]] and [s[n:]], within the length of [s]. *)
Definition str_take (n : nat) (s : string) : string := unchars (take n (chars s)).
Definition str_drop (n : nat) (s : string) : string := unchars (drop n (chars s)).

(** ['.']. *)
Definition dot : ascii := ascii_of_N 46.

Definition SelfTopic (t : TaskID) : string :=
  let h := EncodeToString t in
  if (String.length h <? selfTopicShortLen)%nat then SelfTopicPrefix +:+ h
  else SelfTopicPrefix +:+ str_take selfTopicShortLen h.

(** [strings.CutPrefix]. *)
Definition CutPrefix (s p : string) : option string :=
  if HasPrefix s p then Some (str_drop (String.length p) s) else None.

Definition parseTreeTopic (topic : string) : option TaskID :=
  rest ← CutPrefix topic treeTopicPrefix;
  if (String.length rest <? 34)%nat then None
  else if bool_decide (chars rest !! 32%nat = Some dot) then
    copy16 <$> DecodeString (str_take 32 rest)
  else None.

Definition isOwnChat (self : TaskID) (topic : string) : bool :=
  let own := SelfTopic self in
  bool_decide (topic = own) || HasPrefix topic (own +:+ ".").

Definition chatShortID (topic : string) : option string :=
  rest ← CutPrefix topic SelfTopicPrefix;
  if (String.length rest <? selfTopicShortLen)%nat then None
  else
    let short := str_take selfTopicShortLen rest in
    if (selfTopicShortLen <? String.length rest)%nat &&
       negb (bool_decide (chars rest !! selfTopicShortLen = Some dot)) then None
    else match DecodeString short with Some _ => Some short | None => None end.

(** ** Memberships *)

Definition memberships : Type := gmap string (gset TaskID).

Definition isMemberLocked (members : memberships) (tid : TaskID) (topic : string) : bool :=
  match members !! topic with Some s => bool_decide (tid ∈ s) | None => false end.

Definition addMemberLocked (topic : string) (tid : TaskID) (members : memberships) : memberships :=
  <[topic := {[tid]} ∪ default ∅ (members !! topic)]> members.

(** The membership half of [Leave], with whether there was one. *)
Definition dropMemberLocked (topic : string) (tid : TaskID) (members : memberships) : memberships * bool :=
  match members !! topic with
  | Some s =>
      if bool_decide (tid ∈ s) then
        let s' := s ∖ {[tid]} in
        (if bool_decide (s' = ∅) then delete topic members else <[topic := s']> members, true)
      else (members, false)
  | None => (members, false)
  end.

Definition memberTopicsLocked (members : memberships) (tid : TaskID) : list string :=
  (filter (λ kv : string * gset TaskID, tid ∈ kv.2) (map_to_list (members : gmap string (gset TaskID)))).*1.

(** ** The interface to the task store *)

Class ReachSource (R : Type) := {
  CreatorOf : R → TaskID → option TaskID;
  CapsOf : R → TaskID → option N;
  HasChild : R → TaskID → string → bool;
  Len : R → nat;
  PeerCovers : R → TaskID → string → bool;
  PeerGlobal : R → TaskID → bool;
}.

(** What the rules rely on: creators are ids, and [Len] bounds any set of tasks
    the source knows. *)
Class LawfulReach {R} `{!ReachSource R} (r : R) : Prop := {
  creator_wf t p : CreatorOf r t = Some p → wf_id p;
  len_bounds (l : list TaskID) :
    NoDup l → Forall wf_id l → Forall (λ t, is_Some (CreatorOf r t)) l → (length l ≤ Len r)%nat;
}.

Section rules.
Context {R : Type} `{!ReachSource R} (r : R) (members : memberships).

(** The walk of [member]: [steps] turns of [for step := 0; step <= r.Len()]. *)
Fixpoint member_loop (steps : nat) (cur x : TaskID) : bool :=
  match steps with
  | O => false
  | S steps' =>
      if bool_decide (cur = x) then true
      else match CreatorOf r cur with
           | None => false
           | Some next => if bool_decide (next = zeroID) then false else member_loop steps' next x
           end
  end.

Definition member (caller x : TaskID) : bool := member_loop (S (Len r)) caller x.

Definition hasCap (tid : TaskID) (c : N) : bool :=
  match CapsOf r tid with Some caps => has caps c | None => false end.

Definition readableFor (self : TaskID) (topic : string) : bool :=
  if HasPrefix topic SelfTopicPrefix then
    if negb (bool_decide (topic = OperatorTopic)) && isOwnChat self topic then true
    else hasCap self Capability_BoardObserve
  else match parseTreeTopic topic with
       | Some x => member self x || hasCap self Capability_BoardObserve
       | None => true
       end.

Definition publishableFor (self : TaskID) (hasContact : string → bool) (topic : string) : bool :=
  match parseTreeTopic topic with
  | Some x => member self x
  | None =>
      if isOwnChat self topic || bool_decide (topic = OperatorTopic) || isMemberLocked members self topic
      then true
      else if match CreatorOf r self with
              | Some creator => negb (bool_decide (creator = zeroID)) && bool_decide (topic = SelfTopic creator)
              | None => false
              end then true
      else if match CutPrefix topic SelfTopicPrefix with
              | Some short => (String.length short =? selfTopicShortLen)%nat && HasChild r self short
              | None => false
              end then true
      else if hasContact topic then true
      else if negb (hasCap self Capability_BoardPeer) then false
      else match chatShortID topic with
           | Some short => PeerCovers r self short
           | None => PeerGlobal r self
           end
  end.

Definition GrantableBy (tid : TaskID) (topic : string) : bool := publishableFor tid (λ _, false) topic.

Definition JoinableName (topic : string) : bool :=
  negb (bool_decide (topic = ""%string)) && negb (HasPrefix topic SelfTopicPrefix).

Definition joinable (tid : TaskID) (topic : string) : bool :=
  if negb (JoinableName topic) then false
  else match parseTreeTopic topic with Some x => member tid x | None => true end.
End rules.

(** ** The task store as the source *)

Definition storeReach_entry (s : Store) (tid : TaskID) : option TaskEntry :=
  st_tasks s !! EncodeToString tid.

(** [childIndexOf]. *)
Definition index_child (children : gmap string (list string)) (t : TaskEntry) : gmap string (list string) :=
  if bool_decide (te_CreatorTaskID t = zeroID) then children
  else let pHex := EncodeToString (te_CreatorTaskID t) in
       <[pHex := kids children pHex ++ [te_ID t]]> children.

Definition childIndexOf (s : Store) : gmap string (list string) := foldl index_child ∅ (List_ 0 s).

Definition storePeerCovers (s : Store) (tid : TaskID) (short : string) : bool :=
  match Get (EncodeToString tid) s with
  | None => false
  | Some e =>
      let '(base, _, _) := ForCap (te_Scope e) Capability_BoardPeer in
      let children := if base =? ScopeBase_Subtree then childIndexOf s else ∅ in
      let '(all, allowed) := ActionSet (te_ID e) (te_Scope e) Capability_BoardPeer children in
      if all then true else existsb (λ id, HasPrefix id short) (elements allowed)
  end.

#[export] Instance storeReach : ReachSource Store := {
  CreatorOf s tid := te_CreatorTaskID <$> storeReach_entry s tid;
  CapsOf s tid := te_Capabilities <$> storeReach_entry s tid;
  HasChild s parent short :=
    existsb (λ e, bool_decide (te_CreatorTaskID e = parent) && HasPrefix (te_ID e) short)
      (snd <$> map_to_list (st_tasks s));
  Len s := size (st_tasks s);
  PeerCovers := storePeerCovers;
  PeerGlobal s tid :=
    match Get (EncodeToString tid) s with
    | None => false
    | Some e => let '(base, _, _) := ForCap (te_Scope e) Capability_BoardPeer in base =? ScopeBase_Global
    end;
}.

(** ** Lineage *)

Section lineage.
Context {R : Type} `{!ReachSource R} (r : R).
Implicit Types (a b c x : TaskID) (l : list TaskID).

(** [b] created [a]. *)
Definition created_by a b : Prop := CreatorOf r a = Some b ∧ b ≠ zeroID.

(** A walk up the creators, with the tasks it leaves on its way. *)
Inductive chain : TaskID → list TaskID → TaskID → Prop :=
  | chain_here x : chain x [] x
  | chain_up a b l x : created_by a b → chain b l x → chain a (a :: l) x.

Lemma chain_suffix a l x c :
  chain a l x → c ∈ l → ∃ l', chain c l' x ∧ l' `sublist_of` l ∧ c ∈ l'.
Proof.
  induction 1 as [x|a b l x Hab Hl IH]; intros Hc; [by apply not_elem_of_nil in Hc|].
  apply elem_of_cons in Hc as [->|Hc].
  - exists (a :: l). split_and!; [by econstructor|done|by left].
  - destruct (IH Hc) as (l' & H1 & H2 & H3). exists l'. split_and!; [done|by apply sublist_cons|done].
Qed.

(** A walk never needs to pass through a task twice. *)
Lemma simple_chain a x : rtc created_by a x → ∃ l, chain a l x ∧ NoDup l.
Proof.
  induction 1 as [x|a b x Hab _ (l & Hl & Hnd)].
  - exists []. split; constructor.
  - destruct (decide (a ∈ l)) as [Hin|Hin].
    + destruct (chain_suffix b l x a Hl Hin) as (l' & H1 & H2 & _). exists l'.
      split; [done|by eapply sublist_NoDup].
    + exists (a :: l). split; [by econstructor|by constructor].
Qed.

Lemma chain_known a l x : chain a l x → Forall (λ t, is_Some (CreatorOf r t)) l.
Proof. induction 1 as [|a b l x [Hab _] _ IH]; constructor; [by eexists|done]. Qed.

Lemma chain_wf `{!LawfulReach r} a l x : chain a l x → wf_id a → Forall wf_id l.
Proof.
  induction 1 as [|a b l x [Hab _] _ IH]; intros Ha; constructor; [done|]. apply IH. by eapply creator_wf.
Qed.

Lemma member_loop_chain n a l x : chain a l x → (length l < n)%nat → member_loop r n a x = true.
Proof.
  intros H. revert n. induction H as [x|a b l x [Hab Hb] _ IH]; intros [|n] Hn; cbn in Hn; try lia; cbn.
  - by rewrite bool_decide_eq_true_2.
  - case_bool_decide; [done|]. rewrite Hab, bool_decide_eq_false_2 by done. apply IH. lia.
Qed.

Lemma member_loop_sound n a x : member_loop r n a x = true → rtc created_by a x.
Proof.
  revert a. induction n as [|n IH]; intros a; cbn; [done|]. case_bool_decide as E; [subst; constructor|].
  destruct (CreatorOf r a) as [b|] eqn:Eb; [|done]. case_bool_decide; [done|]. intros Hb%IH.
  eapply rtc_l; [|done]. done.
Qed.

(** The bounded walk decides ancestry, cycles in the creator links or not. *)
Lemma member_spec `{!LawfulReach r} caller x :
  wf_id caller → member r caller x = true ↔ rtc created_by caller x.
Proof.
  intros Hw. split; [apply member_loop_sound|]. intros (l & Hl & Hnd)%simple_chain.
  eapply member_loop_chain; [done|]. apply Nat.lt_succ_r.
  apply len_bounds; [done|by eapply chain_wf|by eapply chain_known].
Qed.
End lineage.

(** ** The task store is a lawful source *)

(** What every store the operations build satisfies ([sim_ok]). *)
Class StoreOk (s : Store) : Prop :=
  store_entries id e : st_tasks s !! id = Some e → entry_ok id e.

Lemma EncodeToString_inj x y : wf_id x → wf_id y → EncodeToString x = EncodeToString y → x = y.
Proof.
  intros [_ Hx] [_ Hy] E. apply DecodeString_EncodeToString in Hx, Hy. rewrite E in Hx. congruence.
Qed.

#[export] Instance storeReach_lawful s : StoreOk s → LawfulReach s.
Proof.
  intros Hs. split.
  - intros t p Hp. cbn in Hp. apply fmap_Some in Hp as (e & He & ->). by eapply ok_creator, store_entries.
  - intros l Hnd Hwf Hk. cbn.
    assert (NoDup (EncodeToString <$> l)) as Hn.
    { clear Hk. induction Hnd as [|x l Hx Hnd IH]; cbn; [constructor|]. inversion Hwf as [|? ? Hw1 Hw2]; subst.
      constructor; [|by apply IH]. intros (y & E & Hy)%list_elem_of_fmap. apply Hx.
      rewrite Forall_forall in Hw2. apply EncodeToString_inj in E as ->; auto. }
    rewrite <-size_dom, <-(length_fmap EncodeToString), <-(size_list_to_set (C := gset string)) by done.
    apply subseteq_size. intros h (x & -> & Hx)%elem_of_list_to_set%list_elem_of_fmap.
    rewrite Forall_forall in Hk. specialize (Hk x Hx). cbn in Hk. apply fmap_is_Some in Hk.
    by apply elem_of_dom.
Qed.

Lemma run_StoreOk ops : Forall op_ok ops → StoreOk (run (SetWAL (Some []) NewTaskStore) ops).
Proof.
  intros Hops. destruct (sim_run ops _ _ sim_empty Hops) as (w & Hsim). intros id e. apply (sim_ok _ _ Hsim).
Qed.

(** ** Tree topics *)

Definition treeTopic (x : TaskID) (suffix : string) : string :=
  treeTopicPrefix +:+ (EncodeToString x +:+ ("." +:+ suffix)).

Lemma chars_app s t : chars (s +:+ t) = chars s ++ chars t.
Proof.
  induction s as [|c s IH]; [done|]. change (String c s +:+ t) with (String c (s +:+ t)).
  cbn. f_equal. apply IH.
Qed.

Lemma CutPrefix_app p s : CutPrefix (p +:+ s) p = Some s.
Proof.
  unfold CutPrefix, str_drop. rewrite HasPrefix_app, chars_app, <-chars_length, drop_app_length. by rewrite unchars_chars.
Qed.

Lemma length_EncodeToString x : length (chars (EncodeToString x)) = (2 * length x)%nat.
Proof.
  unfold EncodeToString. rewrite chars_unchars. induction x as [|b x IH]; [done|]. cbn. rewrite IH. lia.
Qed.

Lemma parseTreeTopic_treeTopic x suffix :
  wf_id x → suffix ≠ ""%string → parseTreeTopic (treeTopic x suffix) = Some x.
Proof.
  intros [Hlen Hb] Hne. unfold parseTreeTopic, treeTopic. rewrite CutPrefix_app. cbn [mbind option_bind].
  pose proof (length_EncodeToString x) as Hl. rewrite Hlen in Hl.
  assert (chars (EncodeToString x +:+ ("." +:+ suffix)) = chars (EncodeToString x) ++ dot :: chars suffix) as E
    by (by rewrite !chars_app).
  rewrite <-chars_length. unfold str_take. rewrite E.
  destruct (Nat.ltb_spec (length (chars (EncodeToString x) ++ dot :: chars suffix)) 34) as [Hlt|_].
  { rewrite length_app in Hlt. cbn [length] in Hlt. destruct suffix; [done|]. cbn [chars] in Hlt. cbn in Hlt. lia. }
  rewrite bool_decide_eq_true_2.
  - rewrite take_app_le, firstn_all2, unchars_chars, DecodeString_EncodeToString by (done || lia).
    cbn. f_equal. by apply copy16_wf.
  - rewrite lookup_app_r by lia. rewrite Hl. done.
Qed.

(** C22. A tree topic is publishable by exactly the tasks below its root, whatever
    they hold, have joined or were contacted from, and readable by those or with
    board_observe; the bounded creator walk decides it on any store the
    operations build, cyclic parent links included. *)
Theorem tree_topic_lineage ops members self hasContact x suffix :
  Forall op_ok ops → wf_id self → wf_id x → suffix ≠ ""%string →
  let s := run (SetWAL (Some []) NewTaskStore) ops in
  (publishableFor s members self hasContact (treeTopic x suffix) = true ↔ rtc (created_by s) self x) ∧
  (readableFor s self (treeTopic x suffix) = true ↔
     rtc (created_by s) self x ∨ hasCap s self Capability_BoardObserve = true) ∧
  (joinable s self (treeTopic x suffix) = true ↔ rtc (created_by s) self x).
Proof.
  intros Hops Hself Hx Hne s. pose proof (run_StoreOk ops Hops) as Hok. fold s in Hok.
  pose proof (member_spec s self x Hself) as Hm.
  assert (HasPrefix (treeTopic x suffix) SelfTopicPrefix = false) as Hpre by done.
  unfold publishableFor, readableFor, joinable, JoinableName.
  rewrite Hpre, parseTreeTopic_treeTopic by done. cbn [negb andb].
  split_and!; [done| |].
  - rewrite orb_true_iff. tauto.
  - done.
Qed.

(** ** The scoped right to address another task *)

Lemma in_set_elements (p : bool * gset string) (f : string → bool) :
  (if p.1 then true else existsb f (elements p.2)) = true ↔
    p.1 = true ∨ ∃ id, in_set p id = true ∧ f id = true.
Proof.
  destruct p as [[] S]; cbn; [naive_solver|]. unfold in_set. cbn.
  rewrite existsb_elem_of. setoid_rewrite elem_of_elements. setoid_rewrite bool_decide_eq_true. naive_solver.
Qed.

(** Building the child index only for a subtree base changes no answer. *)
Lemma PeerCovers_spec s tid short e :
  Get (EncodeToString tid) s = Some e →
  let target := ActionSet (te_ID e) (te_Scope e) Capability_BoardPeer (childIndexOf s) in
  PeerCovers s tid short = true ↔
    target.1 = true ∨ ∃ id, in_set target id = true ∧ HasPrefix id short = true.
Proof.
  intros He target. cbn [PeerCovers storeReach]. unfold storePeerCovers. rewrite He.
  destruct (ForCap (te_Scope e) Capability_BoardPeer) as [[base excl] ids] eqn:Ef.
  assert (ActionSet (te_ID e) (te_Scope e) Capability_BoardPeer
            (if base =? ScopeBase_Subtree then childIndexOf s else ∅) = target) as ->.
  { unfold target, ActionSet. rewrite Ef. destruct (base =? ScopeBase_Subtree); [done|].
    destruct (base =? ScopeBase_Global); done. }
  destruct target as [all allowed] eqn:Et. rewrite <-(in_set_elements (all, allowed)); done.
Qed.

(** The 8-hex short id a task's chat topic carries. *)
Definition short_of (x : TaskID) : string := str_take selfTopicShortLen (EncodeToString x).

Lemma SelfTopic_short x : wf_id x → SelfTopic x = SelfTopicPrefix +:+ short_of x.
Proof.
  intros [Hx _]. unfold SelfTopic, short_of. rewrite <-chars_length, length_EncodeToString, Hx. done.
Qed.

Lemma length_short_of x : wf_id x → String.length (short_of x) = selfTopicShortLen.
Proof.
  intros [Hx _]. unfold short_of, str_take. rewrite <-chars_length, chars_unchars, length_take, length_EncodeToString, Hx.
  done.
Qed.

Lemma short_of_take x : short_of x = EncodeToString (take 4 x).
Proof.
  unfold short_of, str_take, EncodeToString. rewrite chars_unchars. f_equal.
  do 4 (destruct x as [|? x]; [done|]). done.
Qed.

Lemma DecodeString_short x : wf_id x → DecodeString (short_of x) = Some (take 4 x).
Proof.
  intros [_ Hx]. rewrite short_of_take. apply DecodeString_EncodeToString. by apply Forall_take.
Qed.

Lemma app_inj p s t : p +:+ s = p +:+ t → s = t.
Proof. intros E. apply (f_equal chars) in E. rewrite !chars_app in E. by apply app_inv_head, chars_inj in E. Qed.

Lemma SelfTopic_inj x y : wf_id x → wf_id y → SelfTopic x = SelfTopic y ↔ short_of x = short_of y.
Proof.
  intros Hx Hy. rewrite !SelfTopic_short by done. split; [apply app_inj|by intros ->].
Qed.

Lemma isOwnChat_SelfTopic x y :
  wf_id x → wf_id y → isOwnChat x (SelfTopic y) = bool_decide (short_of x = short_of y).
Proof.
  intros Hx Hy. unfold isOwnChat. rewrite (bool_decide_ext (SelfTopic y = SelfTopic x) (short_of x = short_of y))
    by (rewrite SelfTopic_inj by done; split; congruence).
  destruct (HasPrefix _ _) eqn:E; [|by rewrite orb_false_r]. exfalso. apply HasPrefix_spec in E as [t E].
  assert (∀ z, wf_id z → length (chars (SelfTopic z)) = 13%nat) as Hlen.
  { intros z Hz. rewrite SelfTopic_short, chars_app, length_app, (chars_length (short_of z)), length_short_of by done. done. }
  apply (f_equal chars), (f_equal length) in E. rewrite !chars_app, !length_app, !Hlen in E by done.
  change (length (chars ".")) with 1%nat in E. lia.
Qed.

Lemma chatShortID_SelfTopic x : wf_id x → chatShortID (SelfTopic x) = Some (short_of x).
Proof.
  intros Hx. unfold chatShortID. rewrite SelfTopic_short, CutPrefix_app by done. cbn [mbind option_bind].
  rewrite length_short_of, Nat.ltb_irrefl by done. cbn [andb].
  assert (str_take selfTopicShortLen (short_of x) = short_of x) as ->.
  { unfold str_take. rewrite firstn_all2; [apply unchars_chars|]. by rewrite chars_length, length_short_of. }
  by rewrite DecodeString_short.
Qed.

Lemma SelfTopic_not_operator x : wf_id x → SelfTopic x ≠ OperatorTopic.
Proof.
  intros Hx. rewrite SelfTopic_short by done. change OperatorTopic with (SelfTopicPrefix +:+ "operator").
  intros E%app_inj. pose proof (DecodeString_short x Hx) as Hd. rewrite E in Hd. by vm_compute in Hd.
Qed.

(** Publishing to another task's chat topic, on any store the operations build:
    allowed exactly to the task itself, a task that joined the topic, its child,
    its creator, one it has contacted, and, holding board_peer, one whose scope
    for that bit is global or reaches a task with that short id. *)
Theorem chat_publish_spec ops members self hasContact y e :
  let s := run (SetWAL (Some []) NewTaskStore) ops in
  Forall op_ok ops → wf_id self → wf_id y → Get (EncodeToString self) s = Some e →
  let target := ActionSet (te_ID e) (te_Scope e) Capability_BoardPeer (childIndexOf s) in
  publishableFor s members self hasContact (SelfTopic y) = true ↔
    short_of self = short_of y ∨
    isMemberLocked members self (SelfTopic y) = true ∨
    (∃ c, created_by s self c ∧ short_of c = short_of y) ∨
    (∃ id d, st_tasks s !! id = Some d ∧ te_CreatorTaskID d = self ∧ HasPrefix (te_ID d) (short_of y) = true) ∨
    hasContact (SelfTopic y) = true ∨
    (has (te_Capabilities e) Capability_BoardPeer = true ∧
     (target.1 = true ∨ ∃ id, in_set target id = true ∧ HasPrefix id (short_of y) = true)).
Proof.
  intros s Hops Hself Hy He target. pose proof (run_StoreOk ops Hops) as Hok. fold s in Hok.
  pose proof (PeerCovers_spec s self (short_of y) e He) as Hpeer. fold target in Hpeer.
  unfold publishableFor.
  assert (parseTreeTopic (SelfTopic y) = None) as -> by (rewrite SelfTopic_short by done; done).
  rewrite isOwnChat_SelfTopic, (bool_decide_eq_false_2 (SelfTopic y = OperatorTopic)) by (done || by apply SelfTopic_not_operator).
  rewrite orb_false_r, chatShortID_SelfTopic by done.
  assert (CutPrefix (SelfTopic y) SelfTopicPrefix = Some (short_of y)) as ->
    by (by rewrite SelfTopic_short, CutPrefix_app).
  rewrite length_short_of by done. rewrite Nat.eqb_refl. cbn [andb].
  assert (match CreatorOf s self with
    | Some creator => negb (bool_decide (creator = zeroID)) && bool_decide (SelfTopic y = SelfTopic creator)
    | None => false end = true ↔ ∃ c, created_by s self c ∧ short_of c = short_of y) as Hcr.
  { unfold created_by. destruct (CreatorOf s self) as [c|] eqn:Ec; [|naive_solver].
    assert (wf_id c) as Hc by (by eapply creator_wf).
    rewrite andb_true_iff, negb_true_iff, bool_decide_eq_false, bool_decide_eq_true, SelfTopic_inj by done.
    naive_solver. }
  assert (HasChild s self (short_of y) = true ↔ ∃ id d, st_tasks s !! id = Some d ∧ te_CreatorTaskID d = self ∧
    HasPrefix (te_ID d) (short_of y) = true) as Hch.
  { cbn [HasChild storeReach]. rewrite existsb_elem_of. split.
    - intros (d & ([id d'] & -> & Hd%elem_of_map_to_list)%list_elem_of_fmap & [H1%bool_decide_eq_true H2]%andb_true_iff).
      eauto.
    - intros (id & d & Hd & Hcd & Hp). exists d. split.
      + apply list_elem_of_fmap. exists (id, d). split; [done|]. by apply elem_of_map_to_list.
      + by rewrite bool_decide_eq_true_2, Hp. }
  assert (hasCap s self Capability_BoardPeer = has (te_Capabilities e) Capability_BoardPeer) as ->.
  { unfold hasCap. cbn [CapsOf storeReach]. unfold storeReach_entry, Get in *. by rewrite He. }
  rewrite <-Hcr, <-Hch, <-Hpeer. clear.
  destruct (bool_decide_reflect (short_of self = short_of y)) as [H1|H1]; cbn [orb]; [tauto|].
  destruct (isMemberLocked _ _ _); [tauto|].
  destruct (match CreatorOf s self with Some _ => _ | None => _ end); [tauto|].
  destruct (HasChild _ _ _); [tauto|]. destruct (hasContact _); [tauto|].
  destruct (has _ _); cbn [negb]; intuition congruence.
Qed.

(** ** Witnesses: a parent and its child, the child with no board capability *)

Module SampleReach.
Definition p : TaskID := replicate 15 0 ++ [10].
Definition c : TaskID := [1; 2; 3; 4] ++ replicate 11 0 ++ [11].
Definition spawn (id creator : TaskID) (caps : N) : op :=
  OpCreate (EncodeToString id) 1 1 1 "/repo" "go" 0 1 creator "" SelAny []
    (mkGrant caps DefaultScope 0 DefaultScope) "".
Definition ops : list op := [spawn p zeroID Capability_BoardPeer; spawn c p 0].
Definition s : Store := run (SetWAL (Some []) NewTaskStore) ops.
Definition entry : TaskEntry := default zeroEntry (Get (EncodeToString p) s).

Lemma ops_ok : Forall op_ok ops.
Proof.
  assert (wal_ok DefaultScope) as Hd by (split_and!; try done; by apply sample_ids_ok).
  repeat apply Forall_cons_2; [| |constructor]; split_and!; try done.
  - apply wf_zeroID.
  - by vm_compute; repeat constructor.
Qed.
End SampleReach.

Lemma tree_topic_lineage_witness :
  publishableFor SampleReach.s ∅ SampleReach.c (λ _, false) (treeTopic SampleReach.p "plan") = true ∧
  rtc (created_by SampleReach.s) SampleReach.c SampleReach.p.
Proof.
  assert (publishableFor SampleReach.s ∅ SampleReach.c (λ _, false) (treeTopic SampleReach.p "plan") = true) as H
    by (vm_compute; reflexivity).
  split; [exact H|].
  destruct (tree_topic_lineage SampleReach.ops ∅ SampleReach.c (λ _, false) SampleReach.p "plan" SampleReach.ops_ok)
    as [Hp _].
  - split; [reflexivity|vm_compute; repeat constructor].
  - split; [reflexivity|vm_compute; repeat constructor].
  - discriminate.
  - exact (proj1 Hp H).
Defined.

Lemma chat_publish_spec_witness :
  publishableFor SampleReach.s ∅ SampleReach.p (λ _, false) (SelfTopic SampleReach.c) = true.
Proof.
  apply (chat_publish_spec SampleReach.ops ∅ SampleReach.p (λ _, false) SampleReach.c SampleReach.entry).
  - exact SampleReach.ops_ok.
  - split; [reflexivity|vm_compute; repeat constructor].
  - split; [reflexivity|vm_compute; repeat constructor].
  - vm_compute. reflexivity.
  - right; right; right; left. exists (EncodeToString SampleReach.c).
    exists (default zeroEntry (Get (EncodeToString SampleReach.c) SampleReach.s)).
    split; [vm_compute; reflexivity|split; vm_compute; reflexivity].
Defined.
