(* ===== verification/Board.v ===== *)
(** * The board: [agentboard/board.go], [retention.go], [flush.go],
    [membership.go], [registry.go] and [conn.go]

    One board operation is one function on [Board]; the interleaving of its lock
    regions with another operation is outside the model.  A Go map is ranged over
    in no fixed order; where an operation ranges over the topics or the tasks it
    takes them in the order of [map_to_list], and the theorems do not depend on
    it.  The store that mirrors retained topics is an interface: [store_op] is a
    call the board makes, a store is known by the calls made so far, and the class
    [BoardStore] is what it answers.  Calls to [onDeliver] and pings of
    connections are recorded in [b_calls]. *)

From stdpp Require Import prelude gmap strings list sorting.
From Stdlib Require Import NArith ZArith.
From coqutil Require Import Datatypes.RecordSetters.
From S2P Require Import Prelude GoStrings Caps Wire Topic TaskState BoardReach.

Import DoubleBraceUpdate.
Open Scope N_scope.
Open Scope stdpp_scope.
Set Default Goal Selector "!".

(** ** Data *)

Record Config := mkConfig {
  RingN : nat;
  TopicTTL : Z;
  MaxTopics : nat;
  MaxPayload : nat;
  SeqSeed : N;
}.

(** The mutating methods of [Store]. *)
Inductive store_op :=
  | SSetRetention (topic : string) (r : Retention)
  | SDrop (topic : string)
  | STruncate (topic : string)
  | SAppend (topic : string) (m : RetainedMessage)
  | SRetract (topic : string) (m : RetainedMessage)
  | SRemove (topic : string) (seq : N)
  | SSetShown (topic : string) (task : TaskID) (seq : N)
  | SSetMember (topic : string) (task : TaskID) (on : bool)
  | SFlushRing (topic : string) (through : N).

(** What a store answers after the calls [h]: whether a call succeeds, whether
    [Remove] found the seq on disk, and the reading methods ([None] is an error). *)
Class BoardStore := {
  bs_ok : list store_op → store_op → bool;
  bs_onDisk : list store_op → string → N → bool;
  bs_Tail : list store_op → string → nat → option (list RetainedMessage * list RetainedMessage);
  bs_Page : list store_op → string → N → nat → option (list RetainedMessage);
  bs_Bytes : list store_op → string → Z;
}.

Definition ticketKey : Type := string * string.

Inductive board_call := Ping (c : nat) | OnDeliver (rid : list N) (tid : TaskID).

Record Board := mkBoard {
  b_cfg : Config;
  b_topics : gmap string topic;
  b_tasks : gmap ticketKey taskState;
  b_seq : N;
  b_tickets : gmap ticketKey (list N);
  b_members : memberships;
  b_store : option (list store_op);
  b_hook : bool;
  b_calls : list board_call;
}.

Definition New (cfg : Config) : Board := mkBoard cfg ∅ ∅ (SeqSeed cfg) ∅ ∅ None false [].

Inductive board_error :=
  | ErrPayloadTooLarge | ErrTooManyTopics | ErrReservedTopic | ErrNotPermitted
  | ErrEmptyPattern | ErrNotAttached | ErrNotRetainable | ErrNoStore | ErrNoTopic
  | ErrNotRetained | ErrNotJoinable | ErrNotRunning | ErrStore.

Definition uint64 (x : N) : N := x `mod` 2 ^ 64.
Definition key_of (rid : list N) (tid : TaskID) : ticketKey := (EncodeToString rid, EncodeToString tid).

(** ** The store mirror *)

Definition retained (t : topic) : bool := bool_decide (is_Some (t_retention t)).

(** A call whose error is only logged ([storeLog]). *)
Definition mirror (o : store_op) (b : Board) : Board :=
  b{{ b_store := (λ h, h ++ [o]) <$> b_store b }}.

Definition set_topic (name : string) (t : topic) (b : Board) : Board :=
  b{{ b_topics := <[name := t]> (b_topics b) }}.
Definition set_task (k : ticketKey) (ts : taskState) (b : Board) : Board :=
  b{{ b_tasks := <[k := ts]> (b_tasks b) }}.
Definition call_hook (c : board_call) (b : Board) : Board := b{{ b_calls := b_calls b ++ [c] }}.

Section board.
Context {R : Type} `{!ReachSource R} `{!BoardStore} (reach : option R).
Implicit Types (b : Board) (name : string).

(** ** Reach, applied to task states *)

Definition readableTopic (ts : taskState) (topic : string) : bool :=
  match reach with None => true | Some r => readableFor r (ts_tid ts) topic end.

Definition readablePatterns (ts : taskState) (patterns : list string) : list string :=
  filter (λ p, readableTopic ts p = true) patterns.

(** ** Task states *)

Definition statesOf (tid : TaskID) b : list (ticketKey * taskState) :=
  filter (λ kv : ticketKey * taskState, kv.1.2 = EncodeToString tid) (map_to_list (b_tasks b)).

(** Apply a method to every state of [tid]. *)
Definition on_states (tid : TaskID) (f : taskState → taskState) b : Board :=
  foldl (λ b kv, set_task kv.1 (f kv.2) b) b (statesOf tid b).

Definition RegisterTask (rid : list N) (tid : TaskID) (ticket : list N) (agentProfile : string) b : Board :=
  let k := key_of rid tid in
  let b := b{{ b_tickets := <[k := ticket]> (b_tickets b) }} in
  let ts := default newTaskState (b_tasks b !! k) in
  let ts := setIdentity rid tid "" agentProfile ts in
  let ts := addPattern (SelfTopic tid) ts in
  set_task k (foldl (λ ts p, addPattern p ts) ts (memberTopicsLocked (b_members b) tid)) b.

Definition Attach (c : nat) (rid : list N) (tid : TaskID) (hostname agentProfile : string) b : Board :=
  let k := key_of rid tid in
  let ts := default newTaskState (b_tasks b !! k) in
  set_task k (attachConn c (setIdentity rid tid hostname agentProfile ts)) b.

(** The connections of a state are known by its key; [None] is an unattached one. *)
Definition on_task (k : ticketKey) (f : taskState → taskState) b : Board :=
  match b_tasks b !! k with Some ts => set_task k (f ts) b | None => b end.

Definition Detach (k : ticketKey) (c : nat) b : Board := on_task k (detachConn c) b.

Definition anyTaskMatchesLocked (topic : string) b : bool :=
  existsb (λ kv : ticketKey * taskState, matches topic kv.2) (map_to_list (b_tasks b)).

(** One topic of the loop of [Revoke]: it goes with its last subscriber only when
    it holds nothing and is not retained. *)
Definition revoke_topic b (p : string) : Board :=
  match b_topics b !! p with
  | None => b
  | Some t =>
      if anyTaskMatchesLocked p b then b
      else if negb (isEmpty t) || retained t then b
      else b{{ b_topics := delete p (b_topics b) }}
  end.

Definition Revoke (rid : list N) (tid : TaskID) b : Board :=
  let k := key_of rid tid in
  let ts := b_tasks b !! k in
  let b := b{{ b_tickets := delete k (b_tickets b); b_tasks := delete k (b_tasks b) }} in
  match ts with
  | None => b
  | Some ts => foldl revoke_topic b (snapshotPatterns ts)
  end.

Definition ForgetShown (tid : TaskID) b : Board :=
  foldl (λ b '(name, t),
    let b := if retained t && negb (shownMark tid t =? 0) then mirror (SSetShown name tid 0) b else b in
    set_topic name (forgetShown tid t) b) b (map_to_list (b_topics b)).

(** ** Membership *)

Definition retainedStoreLocked (topic : string) b : bool :=
  match b_topics b !! topic with
  | Some t => retained t && bool_decide (is_Some (b_store b))
  | None => false
  end.

Definition joinable_at (tid : TaskID) (topic : string) : bool :=
  match reach with
  | Some r => joinable r tid topic
  | None => JoinableName topic
  end.

Definition Join (tid : TaskID) (topic : string) b : Board * option board_error :=
  if negb (joinable_at tid topic) then (b, Some ErrNotJoinable)
  else
    let b := b{{ b_members := addMemberLocked topic tid (b_members b) }} in
    let store := retainedStoreLocked topic b in
    let b := on_states tid (addPattern topic) b in
    (if store then mirror (SSetMember topic tid true) b else b, None).

Definition Leave (tid : TaskID) (topic : string) b : Board :=
  let '(members, was) := dropMemberLocked topic tid (b_members b) in
  let b := b{{ b_members := members }} in
  let store := retainedStoreLocked topic b in
  let b := on_states tid (removePattern topic) b in
  if was && store then mirror (SSetMember topic tid false) b else b.

Definition Subscribe (k : ticketKey) (pattern : string) b : Board * option board_error :=
  if bool_decide (pattern = ""%string) then (b, Some ErrEmptyPattern)
  else match b_tasks b !! k with
       | None => (b, Some ErrNotAttached)
       | Some ts =>
           if bool_decide (pattern = OperatorTopic) then (b, Some ErrReservedTopic)
           else if negb (readableTopic ts pattern) then (b, Some ErrNotPermitted)
           else (set_task k (addPattern pattern ts) b, None)
       end.

Definition Unsubscribe (k : ticketKey) (pattern : string) b : Board :=
  match b_tasks b !! k with
  | None => b
  | Some ts =>
      let b := if isMemberLocked (b_members b) (ts_tid ts) pattern then Leave (ts_tid ts) pattern b else b in
      on_task k (removePattern pattern) b
  end.

Definition SubscribeTask (tid : TaskID) (topic : string) b : Board * option board_error :=
  if bool_decide (topic = OperatorTopic) then (b, Some ErrReservedTopic)
  else if bool_decide (topic = ""%string) then (b, Some ErrNotPermitted)
  else if match reach with Some r => negb (readableFor r tid topic) | None => false end
       then (b, Some ErrNotPermitted)
  else match statesOf tid b with
       | [] => (b, Some ErrNotRunning)
       | _ => (on_states tid (addPattern topic) b, None)
       end.

Definition UnsubscribeTask (tid : TaskID) (topic : string) b : Board :=
  if isMemberLocked (b_members b) tid topic then Leave tid topic b
  else on_states tid (removePattern topic) b.

(** ** Publishing *)

Definition delete_topic (name : string) b : Board := b{{ b_topics := delete name (b_topics b) }}.

(** One turn of the loop of [evictOldestTopicLocked]; the empty name is "none yet". *)
Definition older (acc : string * Z) (nt : string * topic) : string * Z :=
  let '(oldestName, oldestT) := acc in
  if retained nt.2 then acc
  else if bool_decide (oldestName = ""%string) || (lastPublished nt.2 <? oldestT)%Z
  then (nt.1, lastPublished nt.2) else acc.

Definition evictOldestTopicLocked b : Board :=
  let '(oldestName, _) := foldl older (""%string, 0%Z) (map_to_list (b_topics b)) in
  if bool_decide (oldestName = ""%string) then b else delete_topic oldestName b.

(** The topic [name], created when there is room: the same lines of [Send] and of
    [Retain].  [None] is [ErrTooManyTopics]. *)
Definition topic_for (name : string) b : Board * option topic :=
  match b_topics b !! name with
  | Some t => (b, Some t)
  | None =>
      let full b := (MaxTopics (b_cfg b) <=? size (b_topics b))%nat in
      let b' := if full b then evictOldestTopicLocked b else b in
      if full b' then (b', None)
      else let t := newTopic name (RingN (b_cfg b)) in (set_topic name t b', Some t)
  end.

Definition readableTargets (targets : list (ticketKey * taskState)) (topic : string) :=
  filter (λ kv : ticketKey * taskState, readableTopic kv.2 topic = true) targets.

Definition subscribers (topic : string) b : list (ticketKey * taskState) :=
  filter (λ kv : ticketKey * taskState, matches topic kv.2 = true) (map_to_list (b_tasks b)).

Definition emitWake (ts : taskState) b : Board * bool :=
  if b_hook b then (call_hook (OnDeliver (ts_rid ts) (ts_tid ts)) b, true) else (b, false).

Definition deliver (targets wake : list taskState) b : Board * nat :=
  let b := foldl (λ b c, call_hook (Ping c) b) b (flat_map snapshotConns targets) in
  foldl (λ '(b, woken) ts, let '(b', ok) := emitWake ts b in (b', if ok then S woken else woken)) (b, O) wake.

(** The hand-off loop of [Send] over the targets. *)
Definition hand_off (topic : string) (m : RetainedMessage) (acc : Board * list taskState)
    (kv : ticketKey * taskState) : Board * list taskState :=
  let '(b, wake) := acc in
  let '(ts', took) := handOff topic m kv.2 in
  (set_task kv.1 ts' b, if took : bool then wake else wake ++ [ts']).

Inductive send_result := Sent (seq : N) (deliveredTo : nat) | SendError (e : board_error) | SendPanic.

(** What [Send] fills in for a member's own publish. *)
Definition member_route (name : string) (e : envelope) (cfg : sendConfig) b : sendConfig :=
  if bool_decide (sc_replyToTopic cfg = ""%string) && bool_decide (sc_senderKind cfg = SenderKind_Agent) &&
     negb (bool_decide (ev_fromTid e = zeroID)) && isMemberLocked (b_members b) (ev_fromTid e) name
  then cfg{{ sc_replyToTopic := name }} else cfg.

Definition send_targets (name : string) (e : envelope) (cfg : sendConfig) b : list (ticketKey * taskState) :=
  let own (ts : taskState) :=
    sc_excludeSelf cfg && negb (bool_decide (ev_fromTid e = zeroID)) && bool_decide (ts_tid ts = ev_fromTid e) in
  readableTargets (filter (λ kv : ticketKey * taskState, own kv.2 = false) (subscribers name b)) name.

Definition Send (now : Z) (name : string) (e : envelope) (cfg : sendConfig) b : Board * send_result :=
  if (MaxPayload (b_cfg b) <? length (ev_payload e))%nat then (b, SendError ErrPayloadTooLarge)
  else
    let cfg := member_route name e cfg b in
    match topic_for name b with
    | (b, None) => (b, SendError ErrTooManyTopics)
    | (b, Some t) =>
        let targets := send_targets name e cfg b in
        let seq := uint64 (b_seq b + 1) in
        let b := b{{ b_seq := seq }} in
        match appendLocked now seq e cfg t with
        | None => (b, SendPanic)
        | Some (t', m) =>
            let b := set_topic name t' b in
            let b := if retained t then mirror (SAppend name m) b else b in
            let '(b, wake) := if sc_noWake cfg then (b, []) else foldl (hand_off name m) (b, []) targets in
            ((deliver targets.*2 wake b).1, Sent seq (length targets))
        end
    end.

Definition Wake (name : string) b : Board * nat :=
  let targets := (readableTargets (subscribers name b) name).*2 in
  deliver targets (filter (λ ts, isWaiting name ts = false) targets) b.

(** ** Reading *)

(** The messages of the topics [ts] is subscribed to and may read. *)
Definition Inbox (k : ticketKey) (sinceSeq : N) b : list RetainedMessage * N :=
  match b_tasks b !! k with
  | None => ([], sinceSeq)
  | Some ts =>
      let patterns := readablePatterns ts (snapshotPatterns ts) in
      let all := flat_map (λ p, match b_topics b !! p with Some t => since sinceSeq t | None => [] end) patterns in
      (filter (λ m, ownExcluded m (ts_tid ts) = false) all,
       foldl (λ mx m, if mx <? m_Seq m then m_Seq m else mx) sinceSeq all)
  end.

(** One topic of [InboxAdvance]. *)
Definition advance_topic (tid : TaskID) (acc : Board * list RetainedMessage) (name : string)
  : Board * list RetainedMessage :=
  let '(b, out) := acc in
  match b_topics b !! name with
  | None => acc
  | Some t =>
      let '(t', got) := takeUnshown tid t in
      let b := set_topic name t' b in
      let after := shownMark tid t' in
      (if retained t && negb (after =? shownMark tid t) then mirror (SSetShown name tid after) b else b,
       out ++ got)
  end.

Definition InboxAdvance (k : ticketKey) b : Board * list RetainedMessage :=
  match b_tasks b !! k with
  | None => (b, [])
  | Some ts => foldl (advance_topic (ts_tid ts)) (b, []) (readablePatterns ts (snapshotPatterns ts))
  end.

(** [Wait] in three parts: the registration, one scan, and the deferred end.  A
    scan that finds nothing is repeated after a ping; a wait also ends empty on a
    timeout, a closed connection or a closed board. *)
Definition Wait_begin (k : ticketKey) (name : string) (sinceSeq inReplyTo : N) b : Board * (nat + board_error) :=
  match b_tasks b !! k with
  | None => (b, inr ErrNotAttached)
  | Some ts =>
      if negb (readableTopic ts name) then (b, inr ErrNotPermitted)
      else let '(ts', h) := beginWait name sinceSeq inReplyTo ts in (set_task k ts' b, inl h)
  end.

Definition Wait_scan (k : ticketKey) (name : string) (sinceSeq inReplyTo : N) b : list RetainedMessage :=
  match b_tasks b !! k, b_topics b !! name with
  | Some ts, Some t => filter (λ m, wants (mkLiveWait 0 sinceSeq inReplyTo []) m (ts_tid ts) = true) (since sinceSeq t)
  | _, _ => []
  end.

Definition Wait_end (k : ticketKey) (name : string) (h : nat) (took : list RetainedMessage) b : Board :=
  match b_tasks b !! k with
  | None => b
  | Some ts =>
      let '(ts', due) := endWait name h took ts in
      let b := set_task k ts' b in
      if due then (emitWake ts' b).1 else b
  end.

(** [Retained] and [LookupSeq]: the scan of every ring. *)
Definition scan (get : topic → list RetainedMessage) (seq : N) b : option (string * RetainedMessage) :=
  if seq =? 0 then None
  else head (omap (λ nt : string * topic, m ← snd <$> index_seq seq (get nt.2); Some (nt.1, m)) (map_to_list (b_topics b))).
Definition Retained (seq : N) b : option RetainedMessage := snd <$> scan snapshot seq b.
Definition LookupSeq (seq : N) b : option (string * TaskID) :=
  (λ nm : string * RetainedMessage, (nm.1, m_FromTask nm.2)) <$> scan snapshot seq b.
Definition ReplyParent (seq : N) b : option RetainedMessage :=
  match Retained seq b with Some m => Some m | None => snd <$> scan snapshotRetracted seq b end.

Definition Subscribes (k : ticketKey) (name : string) b : bool :=
  match b_tasks b !! k with Some ts => matches name ts && readableTopic ts name | None => false end.
Definition ListRetained (name : string) b : option (list RetainedMessage) := snapshot <$> b_topics b !! name.
Definition ListRetracted (name : string) b : option (list RetainedMessage) := snapshotRetracted <$> b_topics b !! name.
Definition RetractedCount (name : string) b : option nat := retractedCount <$> b_topics b !! name.
Definition ListSubscriptions (k : ticketKey) b : list string :=
  match b_tasks b !! k with Some ts => snapshotPatterns ts | None => [] end.

(** A row of [ListTopics]: name, last seq, last publish, count. *)
Definition ListTopics b : list (string * N * Z * nat) :=
  (λ nt : string * topic, let '(ls, lp, c) := summary nt.2 in
     (nt.1, if ls <? t_ringFloor nt.2 then t_ringFloor nt.2 else ls, lp, c)) <$> map_to_list (b_topics b).

(** ** Withdrawing *)

Definition mirrorRetract (name : string) (t : topic) (seq : N) b : Board :=
  if retained t then
    match withdrawnEntry seq t with Some m => mirror (SRetract name m) b | None => b end
  else b.

(** The scan of [retractAsAuthor]; [None] is the panic of a topic without room. *)
Fixpoint retract_scan (seq : N) (by_ : TaskID) (now : Z) (ts : list (string * topic)) b : option (Board * option string) :=
  match ts with
  | [] => Some (b, None)
  | (name, t) :: ts' =>
      '(t', ok) ← retract seq by_ now t;
      if ok : bool then Some (mirrorRetract name t' seq (set_topic name t' b), Some name)
      else retract_scan seq by_ now ts' b
  end.
Definition retractAsAuthor (seq : N) (by_ : TaskID) (now : Z) b : option (Board * option string) :=
  retract_scan seq by_ now (map_to_list (b_topics b)) b.

Definition RetractSeq (seq : N) (by_ : TaskID) (now : Z) b : option (Board * option string) :=
  if (seq =? 0) || bool_decide (by_ = zeroID) then Some (b, None) else retractAsAuthor seq by_ now b.
Definition RetireSeq (seq : N) (author : TaskID) (now : Z) b : option (Board * option string) :=
  if seq =? 0 then Some (b, None) else retractAsAuthor seq author now b.

(** (retracted, found) *)
Definition ForceRetractSeq (name : string) (seq : N) (by_ : TaskID) (now : Z) b : option (Board * (bool * bool)) :=
  match b_topics b !! name with
  | None => Some (b, (false, false))
  | Some t =>
      if seq =? 0 then Some (b, (false, true))
      else
        '(t', ok) ← forceRetract seq by_ now t;
        if ok : bool then Some (mirrorRetract name t' seq (set_topic name t' b), (true, true))
        else Some (b, (false, true))
  end.

(** ** Destroying *)

Definition PurgeTopic (now : Z) (name : string) b : Board * option nat :=
  match b_topics b !! name with
  | None => (b, None)
  | Some t =>
      let n := (summary t).2 in
      match t_retention t with
      | Some r =>
          let fresh := (newTopic name (RingN (b_cfg b))){{ t_retention := Some r; t_lastPublishedAt := now }} in
          (mirror (STruncate name) (set_topic name fresh b), Some n)
      | None => (delete_topic name b, Some n)
      end
  end.

(** (removed, found) *)
Definition PurgeSeq (name : string) (seq : N) b : Board * (bool * bool) :=
  match b_topics b !! name with
  | None => (b, (false, false))
  | Some t =>
      let '(t', removed) := removeSeq seq t in
      let b := set_topic name t' b in
      if retained t then
        let onDisk := match b_store b with Some h => bs_onDisk h name seq | None => false end in
        (mirror (SRemove name seq) b, (removed || onDisk, true))
      else (b, (removed, true))
  end.

(** ** Retention *)

Definition Retainable (name : string) : bool :=
  negb (bool_decide (name = ""%string)) && negb (bool_decide (is_Some (CutPrefix name SelfTopicPrefix))).

(** [None] is the zero time: forever. *)
Definition ExpiresAt (r : Retention) (lastPublishedAt : Z) : option Z :=
  if r_Forever r then None
  else Some ((if (lastPublishedAt <? r_SetAt r)%Z then r_SetAt r else lastPublishedAt) + r_TTL r)%Z.

(** A store call whose error stops the operation. *)
Definition store_call (o : store_op) b : Board * bool :=
  match b_store b with
  | Some h => (mirror o b, bs_ok h o)
  | None => (b, false)
  end.
Fixpoint store_calls (os : list store_op) b : Board * bool :=
  match os with
  | [] => (b, true)
  | o :: os' => let '(b', ok) := store_call o b in if ok then store_calls os' b' else (b', false)
  end.

(** What a topic that becomes retained already holds. *)
Definition retain_calls (name : string) (t : topic) (members : list TaskID) : list store_op :=
  (SAppend name <$> snapshot t) ++
  flat_map (λ m, [SAppend name m; SRetract name m]) (snapshotRetracted t) ++
  ((λ '(tid, seq), SSetShown name tid seq) <$> map_to_list (snapshotShown t)) ++
  ((λ tid, SSetMember name tid true) <$> members).

Definition Retain (name : string) (r : Retention) b : Board * option board_error :=
  if negb (Retainable name) then (b, Some ErrNotRetainable)
  else match b_store b with
       | None => (b, Some ErrNoStore)
       | Some _ =>
           match topic_for name b with
           | (b, None) => (b, Some ErrTooManyTopics)
           | (b, Some t) =>
               let wasRetained := retained t in
               let t := t{{ t_retention := Some r }} in
               let members := elements (default ∅ (b_members b !! name)) in
               let '(b, ok) := store_call (SSetRetention name r) (set_topic name t b) in
               if negb ok then (b, Some ErrStore)
               else if wasRetained then (b, None)
               else
                 let '(b, ok) := store_calls (retain_calls name t members) b in
                 (b, if ok then None else Some ErrStore)
           end
       end.

(** [refillFromLog]: [None] is the read error. *)
Definition refillFromLog (name : string) (t : topic) b : option topic :=
  h ← b_store b;
  '(live, wd) ← bs_Tail h name (RingN (b_cfg b));
  Some (t{{ t_ring := mergeNewest (t_ring t) live (t_cap t); t_retracted := mergeNewest (t_retracted t) wd (t_cap t) }}).

Definition ClearRetain (now : Z) (name : string) b : Board * option board_error :=
  match b_topics b !! name with
  | None => (b, None)
  | Some t =>
      if negb (retained t) then (b, None)
      else
        match if t_ringFloor t =? 0 then Some t else refillFromLog name t b with
        | None => (b, Some ErrStore)
        | Some t =>
            let t := t{{ t_retention := None; t_ringFloor := 0;
                         t_lastPublishedAt := if (t_lastPublishedAt t =? 0)%Z then now else t_lastPublishedAt t }} in
            let '(b, ok) := store_call (SDrop name) (set_topic name t b) in
            (b, if ok then None else Some ErrStore)
        end
  end.

(** One topic of [evictExpiredTopics]. *)
Definition evict_topic (now : Z) b (nt : string * topic) : Board :=
  let '(name, t) := nt in
  match t_retention t with
  | Some r =>
      match ExpiresAt r (lastPublished t) with
      | Some at_ =>
          if (at_ <? now)%Z then
            match if t_ringFloor t =? 0 then Some t else refillFromLog name t b with
            | Some t' => mirror (SDrop name) (set_topic name (t'{{ t_retention := None; t_ringFloor := 0 }}) b)
            | None => b
            end
          else b
      | None => b
      end
  | None =>
      if (lastPublished t <? now - TopicTTL (b_cfg b))%Z then delete_topic name b else b
  end.
Definition evictExpiredTopics (now : Z) b : Board := foldl (evict_topic now) b (map_to_list (b_topics b)).

Definition RetentionOf (name : string) b : option (Retention * Z) :=
  t ← b_topics b !! name; r ← t_retention t; h ← b_store b; Some (r, bs_Bytes h name).

(** through, dropped *)
Definition Flush (name : string) b : Board * (N * nat + board_error) :=
  match b_topics b !! name with
  | None => (b, inr ErrNoTopic)
  | Some t =>
      if negb (retained t) then (b, inr ErrNotRetained)
      else
        let through := newestSeq t in
        if through =? 0 then (b, inl (t_ringFloor t, O))
        else
          let '(b, ok) := store_call (SFlushRing name through) b in
          if negb ok then (b, inr ErrStore)
          else
            let '(t', dropped) := dropThrough through t in
            let t' := t'{{ t_ringFloor := if t_ringFloor t <? through then through else t_ringFloor t }} in
            (set_topic name t' b, inl (through, dropped))
  end.
Definition RingFloor (name : string) b : N := match b_topics b !! name with Some t => t_ringFloor t | None => 0 end.

(** [sort.Slice] by descending seq. *)
Definition seq_ge (x y : RetainedMessage) : Prop := m_Seq y ≤ m_Seq x.
#[export] Instance seq_ge_dec : RelDecision seq_ge.
Proof. intros x y. unfold seq_ge. apply _. Defined.

(** [None] is the store's error. *)
Definition Page (name : string) (beforeSeq : N) (limit : nat) b : option (list RetainedMessage) :=
  match b_topics b !! name with
  | None => Some []
  | Some t =>
      if retained t then h ← b_store b; bs_Page h name beforeSeq limit
      else
        let all := merge_sort seq_ge (snapshot t ++ snapshotRetracted t) in
        Some (take limit (filter (λ m, beforeSeq = 0 ∨ m_Seq m < beforeSeq) all))
  end.

(** The loop of [pageLive]; each turn that goes on reads a full page of older
    messages. *)
Fixpoint page_live (page : N → option (list RetainedMessage)) (fuel : nat) (beforeSeq : N) (limit : nat)
    (out : list RetainedMessage) : option (list RetainedMessage) :=
  match fuel with
  | O => Some out
  | S fuel' =>
      if (limit <=? length out)%nat then Some out
      else
        p ← page beforeSeq;
        let out := out ++ take (limit - length out) (filter (λ m, m_RetractedAt m = 0%Z) p) in
        if (length p <? limit)%nat then Some out
        else match last p with
             | Some m => page_live page fuel' (m_Seq m) limit out
             | None => Some out
             end
  end.
Definition PageLive (fuel : nat) (name : string) (beforeSeq : N) (limit : nat) b : option (list RetainedMessage) :=
  page_live (λ before, Page name before limit b) fuel beforeSeq limit [].

(** ** Contacts *)

Definition addressedTo (self : TaskID) (m : RetainedMessage) b : bool :=
  if isOwnChat self (m_Topic m) then true
  else if m_InReplyTo m =? 0 then false
  else match ReplyParent (m_InReplyTo m) b with
       | Some parent => bool_decide (m_FromTask parent = self)
       | None => false
       end.

Definition note_delivered b (self : TaskID) (ts : taskState) (m : RetainedMessage) : taskState :=
  if m_NoContact m || negb (addressedTo self m b) then ts
  else if negb (bool_decide (m_ReplyToTopic m = ""%string)) then addContact (m_ReplyToTopic m) (m_Seq m) ts
  else if bool_decide (m_SenderKind m = SenderKind_Agent) then addContact (SelfTopic (m_FromTask m)) (m_Seq m) ts
  else ts.
Definition NoteDelivered (k : ticketKey) (msgs : list RetainedMessage) b : Board :=
  on_task k (λ ts, foldl (note_delivered b (ts_tid ts)) ts msgs) b.

Definition Contacts (k : ticketKey) b : list string :=
  match b_tasks b !! k with Some ts => snapshotContacts ts | None => [] end.

Definition ClearContacts (tid : TaskID) (route : string) b : Board * (nat * bool) :=
  let states := statesOf tid b in
  let removed := sum_list_with (λ kv : ticketKey * taskState, (forgetContacts route (b_seq b) kv.2).2) states in
  (on_states tid (λ ts, (forgetContacts route (b_seq b) ts).1) b, (removed, negb (length states =? 0)%nat)).

Definition Publishable (k : ticketKey) (name : string) b : bool :=
  match reach with
  | None => true
  | Some r =>
      match b_tasks b !! k with
      | None => false
      | Some ts => publishableFor r (b_members b) (ts_tid ts) (λ t, hasContact t ts) name
      end
  end.
Definition PublishableBy (tid : TaskID) (name : string) b : bool :=
  match reach with
  | None => true
  | Some r =>
      publishableFor r (b_members b) tid
        (λ t, existsb (λ kv : ticketKey * taskState, hasContact t kv.2) (statesOf tid b)) name
  end.

(** ** Subscribers *)

Record SubscriberPattern := mkSubscriberPattern { sp_Name : string; sp_Shown : N; sp_Pending : nat; sp_Joined : bool }.
Record SubscriberRow := mkSubscriberRow {
  sr_Task : TaskID; sr_Hostname : string; sr_AgentProfile : string;
  sr_Patterns : list SubscriberPattern; sr_Contacts : list string;
}.

Definition subscriber_pattern (tid : TaskID) b (n : string) : SubscriberPattern :=
  let joined := isMemberLocked (b_members b) tid n in
  match b_topics b !! n with
  | Some tp => mkSubscriberPattern n (shownMark tid tp) (length (above (shownMark tid tp) (snapshot tp))) joined
  | None => mkSubscriberPattern n 0 0 joined
  end.
Definition ListSubscribers (name : string) b : list SubscriberRow :=
  (λ kv : ticketKey * taskState,
     mkSubscriberRow (ts_tid kv.2) (ts_host kv.2) (ts_profile kv.2)
       (subscriber_pattern (ts_tid kv.2) b <$> snapshotPatterns kv.2) (snapshotContacts kv.2)) <$>
  filter (λ kv : ticketKey * taskState,
    name = ""%string ∨ matches name kv.2 && readableTopic kv.2 name = true) (map_to_list (b_tasks b)).

(** ** Loading *)

Record StoredTopic := mkStoredTopic {
  st_Name : string; st_Retention : Retention; st_Ring : list RetainedMessage; st_Retracted : list RetainedMessage;
  st_Shown : gmap TaskID N; st_Members : list TaskID; st_MaxSeq : N; st_LastPublishedAt : Z; st_RingFloor : N;
}.

Definition load_topic (ringN : nat) (st : StoredTopic) : topic :=
  mkTopic (st_Name st) ringN (st_Ring st) (st_Retracted st) (st_LastPublishedAt st)
    (filter (λ kv : TaskID * N, kv.2 ≠ 0) (st_Shown st)) (Some (st_Retention st)) (st_RingFloor st).

(** [AttachStore] of a store that loads [stored] and has archives that end at the
    seqs [archived]; an error of the store is not in the model, the board is then
    not used. *)
Definition AttachStore (stored : list StoredTopic) (archived : list N) b : Board :=
  let b := b{{ b_store := Some [] }} in
  let b := foldl (λ b st,
    let b := b{{ b_members := foldl (λ ms tid, addMemberLocked (st_Name st) tid ms) (b_members b) (st_Members st) }} in
    set_topic (st_Name st) (load_topic (RingN (b_cfg b)) st) b) b stored in
  let high := foldl N.max 0 ((st_MaxSeq <$> stored) ++ archived) in
  if b_seq b <? high then b{{ b_seq := high }} else b.
End board.
