(* ===== verification/FileStore.v ===== *)
(** * The board's disk store: [agentboard/filestore.go]

    A topic log is the list of its records (one JSON line each); a missing file is
    no list.  Buffered records count as written, so a crash that loses a buffer
    is outside the model, and so are I/O errors and lines that do not decode.
    [encoding/hex] gives back what it was given, and so does [encoding/json] for the
    strings this model is about, those that are UTF-8: it writes any other byte as
    U+FFFD.  Times are whole milliseconds, the precision of the log, with [0] for
    Go's zero time.
    At the end the store answers the board's [BoardStore] interface. *)

From stdpp Require Import prelude gmap strings list sorting.
From Stdlib Require Import NArith ZArith.
From coqutil Require Import Datatypes.RecordSetters.
From S2P Require Import Prelude GoStrings Caps Wire Topic TaskState BoardReach Board.

Import DoubleBraceUpdate.
Open Scope N_scope.
Open Scope stdpp_scope.
Set Default Goal Selector "!".

(** ** Records *)

(** [storeRecord], by its [T]; [RMsg] carries the fields [msgRecord] writes. *)
Inductive storeRecord :=
  | RHdr (topic : string)
  | RMsg (m : RetainedMessage)
  | RRetract (seq : N) (at_ : Z) (by_ : RetractedBy) (byTask : TaskID)
  | RShown (task : TaskID) (seq : N)
  | RMember (task : TaskID) (on : bool)
  | RFloor (seq : N) (at_ : Z)
  | RRingFloor (seq : N).

(** What [msgRecord] leaves out: the topic and the withdrawal. *)
Definition msgRecord (m : RetainedMessage) : storeRecord :=
  RMsg (m{{ m_Topic := ""%string; m_RetractedAt := 0%Z; m_RetractedBy := RetractedBy_Author; m_RetractedByTask := zeroID }}).
Definition record_message (topic : string) (m : RetainedMessage) : RetainedMessage := m{{ m_Topic := topic }}.

Definition retractRecord (m : RetainedMessage) : storeRecord :=
  RRetract (m_Seq m) (m_RetractedAt m) (m_RetractedBy m) (m_RetractedByTask m).
Definition floorLine (maxSeq : N) (lastAt : Z) : storeRecord := RFloor maxSeq lastAt.

Definition rec_seq (r : storeRecord) : N :=
  match r with
  | RHdr _ | RMember _ _ => 0
  | RMsg m => m_Seq m
  | RRetract seq _ _ _ | RShown _ seq | RFloor seq _ | RRingFloor seq => seq
  end.

(** ** The index of a log *)

Record logMeta := mkMeta {
  me_msgs : gset N;
  me_retracts : gmap N (Z * RetractedBy * TaskID);
  me_shown : gmap TaskID N;
  me_members : gmap TaskID bool;
  me_maxSeq : N;
  me_lastAt : Z;
  me_ringFloor : N;
}.

Definition later (at_ last : Z) : Z := if (last <? at_)%Z then at_ else last.

(** One line of [scanMeta]. *)
Definition meta_step (me : logMeta) (r : storeRecord) : logMeta :=
  let me := me{{ me_maxSeq := if me_maxSeq me <? rec_seq r then rec_seq r else me_maxSeq me }} in
  match r with
  | RMsg m => me{{ me_msgs := {[m_Seq m]} ∪ me_msgs me; me_lastAt := later (m_ReceivedAt m) (me_lastAt me) }}
  | RRetract seq at_ by_ byTask => me{{ me_retracts := <[seq := (at_, by_, byTask)]> (me_retracts me) }}
  | RShown task seq => me{{ me_shown := <[task := seq]> (me_shown me) }}
  | RMember task on => me{{ me_members := <[task := on]> (me_members me) }}
  | RFloor _ at_ => me{{ me_lastAt := later at_ (me_lastAt me) }}
  | RRingFloor seq => me{{ me_ringFloor := if me_ringFloor me <? seq then seq else me_ringFloor me }}
  | RHdr _ => me
  end.
Definition scanMeta (recs : list storeRecord) : logMeta :=
  foldl meta_step (mkMeta ∅ ∅ ∅ ∅ 0 0 0) recs.

(** [bytes.Compare(x, y) <= 0] *)
Fixpoint bytes_leb (x y : list N) : bool :=
  match x, y with
  | [], _ => true
  | _ :: _, [] => false
  | a :: x', c :: y' => if a <? c then true else if c <? a then false else bytes_leb x' y'
  end.

Definition bytes_le (x y : list N) : Prop := bytes_leb x y = true.
#[export] Instance bytes_le_dec : RelDecision bytes_le.
Proof. intros x y. unfold bytes_le. apply _. Defined.

Definition memberList (me : logMeta) : list TaskID :=
  merge_sort bytes_le
    (filter (λ kv : TaskID * bool, kv.2 = true) (map_to_list (me_members me))).*1.

(** The seqs of the log, ascending. *)
Definition sorted_seqs (me : logMeta) : list N := merge_sort N.le (elements (me_msgs me)).
Definition withdrawn_in (me : logMeta) (seq : N) : bool := bool_decide (is_Some (me_retracts me !! seq)).

Definition newest (n : nat) (seqs : list N) : list N := drop (length seqs - n) seqs.

Definition tailSeqs (me : logMeta) (ringN : nat) (floor : N) : list N :=
  let above := filter (λ seq, floor < seq) (sorted_seqs me) in
  newest ringN (filter (λ seq, withdrawn_in me seq = false) above) ++
  newest ringN (filter (λ seq, withdrawn_in me seq = true) above).

(** A message with its withdrawal applied. *)
Definition with_retract (me : logMeta) (m : RetainedMessage) : RetainedMessage :=
  match me_retracts me !! m_Seq m with
  | Some (at_, by_, byTask) => m{{ m_RetractedAt := at_; m_RetractedBy := by_; m_RetractedByTask := byTask }}
  | None => m
  end.

Definition fetchMessages (topic : string) (want : list N) (me : logMeta) (recs : list storeRecord)
  : list RetainedMessage :=
  omap (λ r, match r with
             | RMsg m => if bool_decide (m_Seq m ∈ want) then Some (with_retract me (record_message topic m)) else None
             | _ => None
             end) recs.

(** ** The store *)

Record FileStore := mkFileStore {
  fs_ret : gmap string Retention;
  fs_files : gmap string (list storeRecord);
  fs_purged : gmap string (gset N);
}.

Definition file (topic : string) (s : FileStore) : list storeRecord := default [] (fs_files s !! topic).
Definition write_file (topic : string) (recs : list storeRecord) (s : FileStore) : FileStore :=
  s{{ fs_files := <[topic := recs]> (fs_files s) }}.

(** [logLocked]: an empty log gets its header. *)
Definition logLocked (topic : string) (s : FileStore) : FileStore :=
  match file topic s with [] => write_file topic [RHdr topic] s | _ => s end.

(** [FileStore.appendLocked] *)
Definition append_record (topic : string) (r : storeRecord) (s : FileStore) : FileStore :=
  match fs_ret s !! topic with
  | None => s
  | Some _ => let s := logLocked topic s in write_file topic (file topic s ++ [r]) s
  end.

Definition SetRetention (topic : string) (r : Retention) (s : FileStore) : FileStore :=
  logLocked topic (s{{ fs_ret := <[topic := r]> (fs_ret s) }}).

Definition Drop (topic : string) (s : FileStore) : FileStore :=
  mkFileStore (delete topic (fs_ret s)) (delete topic (fs_files s)) (delete topic (fs_purged s)).

Definition Truncate (now : Z) (topic : string) (s : FileStore) : FileStore :=
  let me := scanMeta (file topic s) in
  write_file topic (RHdr topic :: floorLine (me_maxSeq me) now :: ((λ task, RMember task true) <$> memberList me)) s.

Definition Append (topic : string) (m : RetainedMessage) (s : FileStore) : FileStore :=
  if bool_decide (m_Seq m ∈ default ∅ (fs_purged s !! topic)) then s else append_record topic (msgRecord m) s.
Definition Retract (topic : string) (m : RetainedMessage) (s : FileStore) : FileStore :=
  append_record topic (retractRecord m) s.
Definition SetShown (topic : string) (task : TaskID) (seq : N) (s : FileStore) : FileStore :=
  append_record topic (RShown task seq) s.
Definition SetMember (topic : string) (task : TaskID) (on : bool) (s : FileStore) : FileStore :=
  append_record topic (RMember task on) s.

(** False is [ErrNotRetained]. *)
Definition FlushRing (topic : string) (through : N) (s : FileStore) : FileStore * bool :=
  match fs_ret s !! topic with
  | None => (s, false)
  | Some _ => (append_record topic (RRingFloor through) (logLocked topic s), true)
  end.

(** The line a purge of [seq] leaves out. *)
Definition of_message (seq : N) (r : storeRecord) : bool :=
  match r with RMsg m => m_Seq m =? seq | RRetract s _ _ _ => s =? seq | _ => false end.

Definition Remove (topic : string) (seq : N) (s : FileStore) : FileStore * bool :=
  let s := s{{ fs_purged := <[topic := {[seq]} ∪ default ∅ (fs_purged s !! topic)]> (fs_purged s) }} in
  let me := scanMeta (file topic s) in
  if bool_decide (seq ∈ me_msgs me) then
    (write_file topic
       (filter (λ r, of_message seq r = false) (file topic s) ++ [floorLine (me_maxSeq me) (me_lastAt me)]) s, true)
  else (s, false).

(** ** Reading *)

Definition split_withdrawn (ms : list RetainedMessage) : list RetainedMessage * list RetainedMessage :=
  (filter (λ m, m_RetractedAt m = 0%Z) ms, filter (λ m, m_RetractedAt m ≠ 0%Z) ms).

Definition Tail (topic : string) (ringN : nat) (s : FileStore) : list RetainedMessage * list RetainedMessage :=
  let recs := file topic s in
  let me := scanMeta recs in
  split_withdrawn (merge_sort seq_le (fetchMessages topic (tailSeqs me ringN 0) me recs)).

(** [pageFile] *)
Definition page_file (topic : string) (beforeSeq : N) (limit : nat) (recs : list storeRecord) : list RetainedMessage :=
  let me := scanMeta recs in
  let want := take limit (filter (λ seq, beforeSeq = 0 ∨ seq < beforeSeq) (reverse (sorted_seqs me))) in
  merge_sort seq_ge (fetchMessages topic want me recs).

Definition load_one (ringN : nat) (s : FileStore) (name : string) : StoredTopic :=
  let recs := file name s in
  let me := scanMeta recs in
  let '(ring, retracted) :=
    split_withdrawn (merge_sort seq_le (fetchMessages name (tailSeqs me ringN (me_ringFloor me)) me recs)) in
  mkStoredTopic name (default (mkRetention 0 false zeroID 0) (fs_ret s !! name)) ring retracted
    (me_shown me) (memberList me) (me_maxSeq me) (me_lastAt me) (me_ringFloor me).
(** The orphan sweep of [Load] only removes files no topic owns. *)
Definition Load (ringN : nat) (s : FileStore) : list StoredTopic :=
  load_one ringN s <$> sort_strings (map_to_list (fs_ret s)).*1.

(** [writeRetentionLocked], then [OpenFileStore]: a period is not written for a
    topic kept forever, and the purged seqs are forgotten. *)
Definition reopened (r : Retention) : Retention := if r_Forever r then r{{ r_TTL := 0%Z }} else r.
Definition OpenFileStore (s : FileStore) : FileStore := mkFileStore (reopened <$> fs_ret s) (fs_files s) ∅.

(** ** The store behind the board *)

(** One call of the board, at a time, and whether it succeeded. *)
Definition fs_apply (now : Z) (o : store_op) (s : FileStore) : FileStore * bool :=
  match o with
  | SSetRetention t r => (SetRetention t r s, true)
  | SDrop t => (Drop t s, true)
  | STruncate t => (Truncate now t s, true)
  | SAppend t m => (Append t m s, true)
  | SRetract t m => (Retract t m s, true)
  | SRemove t seq => ((Remove t seq s).1, true)
  | SSetShown t task seq => (SetShown t task seq s, true)
  | SSetMember t task on => (SetMember t task on s, true)
  | SFlushRing t through => FlushRing t through s
  end.

Definition op_topic (o : store_op) : string :=
  match o with
  | SSetRetention t _ | SDrop t | STruncate t | SAppend t _ | SRetract t _ | SRemove t _
  | SSetShown t _ _ | SSetMember t _ _ | SFlushRing t _ => t
  end.

Section answers.
(** The time of the [n]-th call, and the size of a log in bytes. *)
Variable (clock : nat → Z) (disk_bytes : list storeRecord → Z).

Fixpoint fs_from (n : nat) (h : list store_op) (s : FileStore) : FileStore :=
  match h with [] => s | o :: h' => fs_from (S n) h' (fs_apply (clock n) o s).1 end.
(** The store after the calls [h], from an empty directory. *)
Definition fs_of (h : list store_op) : FileStore := fs_from 0 h (mkFileStore ∅ ∅ ∅).

#[export] Instance file_store : BoardStore := {
  bs_ok h o := (fs_apply (clock (length h)) o (fs_of h)).2;
  bs_onDisk h topic seq := (Remove topic seq (fs_of h)).2;
  bs_Tail h topic ringN := Some (Tail topic ringN (fs_of h));
  bs_Page h topic beforeSeq limit := Some (page_file topic beforeSeq limit (file topic (fs_of h)));
  bs_Bytes h topic := disk_bytes (file topic (fs_of h));
}.

Lemma fs_from_snoc n h o s :
  fs_from n (h ++ [o]) s = (fs_apply (clock (n + length h)) o (fs_from n h s)).1.
Proof.
  revert n s. induction h as [|o' h IH]; intros n s; cbn [app fs_from length].
  - by rewrite Nat.add_0_r.
  - by rewrite IH, Nat.add_succ_r.
Qed.

Lemma fs_of_snoc h o : fs_of (h ++ [o]) = (fs_apply (clock (length h)) o (fs_of h)).1.
Proof. apply fs_from_snoc. Qed.
End answers.

(** ** What a log holds *)

Section log.
Implicit Types (recs : list storeRecord) (r : storeRecord) (m : RetainedMessage) (name : string) (seq : N).

Lemma scanMeta_snoc recs r : scanMeta (recs ++ [r]) = meta_step (scanMeta recs) r.
Proof. unfold scanMeta. by rewrite foldl_app. Qed.

(** [m] is the message of a record, with its withdrawal. *)
Definition log_message name recs m : Prop :=
  ∃ m0, RMsg m0 ∈ recs ∧ m = with_retract (scanMeta recs) (record_message name m0).

Definition msg_seqs recs : list N := omap (λ r, match r with RMsg m => Some (m_Seq m) | _ => None end) recs.

(** The shape the store keeps: one record per message, withdrawals stamped, and
    nothing above [hi]. *)
Record log_ok (hi : N) recs : Prop := {
  lo_uniq : NoDup (msg_seqs recs);
  lo_bound r : r ∈ recs → rec_seq r ≤ hi;
  lo_stamp seq v : me_retracts (scanMeta recs) !! seq = Some v → v.1.1 ≠ 0%Z;
  lo_clean m : RMsg m ∈ recs →
    m_RetractedAt m = 0%Z ∧ m_RetractedBy m = RetractedBy_Author ∧ m_RetractedByTask m = zeroID;
}.

Lemma elem_of_msg_seqs recs seq : seq ∈ msg_seqs recs ↔ ∃ m, RMsg m ∈ recs ∧ m_Seq m = seq.
Proof.
  unfold msg_seqs. rewrite list_elem_of_omap. split.
  - intros (r & Hr & E). destruct r; try done. apply (inj Some) in E. eauto.
  - intros (m & Hm & <-). by exists (RMsg m).
Qed.

Lemma msg_seqs_app recs1 recs2 : msg_seqs (recs1 ++ recs2) = msg_seqs recs1 ++ msg_seqs recs2.
Proof. apply omap_app. Qed.

Lemma elem_of_me_msgs recs seq : seq ∈ me_msgs (scanMeta recs) ↔ seq ∈ msg_seqs recs.
Proof.
  induction recs as [|r recs IH] using rev_ind; [by rewrite elem_of_nil|].
  rewrite scanMeta_snoc, msg_seqs_app, elem_of_app, <-IH. destruct r; cbn; set_solver.
Qed.

Lemma retracts_bound recs seq v :
  me_retracts (scanMeta recs) !! seq = Some v → ∃ at_ by_ task, RRetract seq at_ by_ task ∈ recs.
Proof.
  induction recs as [|r recs IH] using rev_ind; [done|]. rewrite scanMeta_snoc. intros H.
  assert (me_retracts (scanMeta recs) !! seq = Some v ∨ ∃ at_ by_ task, r = RRetract seq at_ by_ task) as [H'|(a & b & c & ->)].
  { destruct r as [|m|s a b c| | | |]; try (left; exact H).
    change (<[s := (a, b, c)]> (me_retracts (scanMeta recs)) !! seq = Some v) in H.
    apply lookup_insert_Some in H as [[-> _]|[_ H]]; [right; eauto|by left]. }
  - destruct (IH H') as (a & b & c & Hin). exists a, b, c. apply elem_of_app. by left.
  - exists a, b, c. apply elem_of_app. right. by left.
Qed.

(** Nothing above the bound is withdrawn. *)
Lemma no_retract_above hi recs seq : log_ok hi recs → hi < seq → me_retracts (scanMeta recs) !! seq = None.
Proof.
  intros Hok Hlt. destruct (me_retracts (scanMeta recs) !! seq) as [v|] eqn:E; [|done].
  destruct (retracts_bound _ _ _ E) as (a & b & c & Hin). apply (lo_bound _ _ Hok) in Hin. cbn in Hin. lia.
Qed.

Lemma log_message_seq name recs m : log_message name recs m → m_Seq m ∈ msg_seqs recs.
Proof.
  intros (m0 & Hin & ->). apply elem_of_msg_seqs. exists m0. split; [done|]. unfold with_retract.
  change (m_Seq (record_message name m0)) with (m_Seq m0). by destruct (me_retracts _ !! m_Seq m0) as [[[? ?] ?]|].
Qed.

Lemma log_message_bound hi name recs m : log_ok hi recs → log_message name recs m → m_Seq m ≤ hi.
Proof.
  intros Hok (m0 & Hin & E)%log_message_seq%elem_of_msg_seqs. rewrite <-E. exact (lo_bound _ _ Hok _ Hin).
Qed.

(** Seqs identify records. *)
Lemma msg_unique hi recs m1 m2 :
  log_ok hi recs → RMsg m1 ∈ recs → RMsg m2 ∈ recs → m_Seq m1 = m_Seq m2 → m1 = m2.
Proof.
  intros [Hu _ _ _]. induction recs as [|r recs IH]; [by intros H%elem_of_nil|].
  rewrite !elem_of_cons. unfold msg_seqs in Hu. cbn [omap list_omap] in Hu.
  assert (NoDup (msg_seqs recs)) as Hu' by (destruct r; try done; by apply NoDup_cons in Hu as [_ ?]).
  intros [<-|H1] [E2|H2] E.
  - by injection E2.
  - apply NoDup_cons in Hu as [Hn _]. exfalso. apply Hn. rewrite E. apply elem_of_msg_seqs. eauto.
  - subst r. apply NoDup_cons in Hu as [Hn _]. exfalso. apply Hn. rewrite <-E. apply elem_of_msg_seqs. eauto.
  - by apply IH.
Qed.

Lemma log_message_unique hi name recs m1 m2 :
  log_ok hi recs → log_message name recs m1 → log_message name recs m2 → m_Seq m1 = m_Seq m2 → m1 = m2.
Proof.
  intros Hok (x1 & H1 & ->) (x2 & H2 & ->) E.
  assert (∀ x, m_Seq (with_retract (scanMeta recs) (record_message name x)) = m_Seq x) as Hs.
  { intros x. unfold with_retract. change (m_Seq (record_message name x)) with (m_Seq x).
    by destruct (me_retracts _ !! m_Seq x) as [[[? ?] ?]|]. }
  rewrite !Hs in E. by rewrite (msg_unique hi recs x1 x2 Hok H1 H2 E).
Qed.

(** Live and withdrawn are told apart by the index. *)
Lemma log_message_live hi name recs m :
  log_ok hi recs → log_message name recs m →
  (m_RetractedAt m = 0%Z ↔ withdrawn_in (scanMeta recs) (m_Seq m) = false).
Proof.
  intros Hok (m0 & Hin & ->). unfold with_retract, withdrawn_in. change (m_Seq (record_message name m0)) with (m_Seq m0).
  destruct (me_retracts (scanMeta recs) !! m_Seq m0) as [[[a b] c]|] eqn:E.
  - change (a = 0%Z ↔ bool_decide (is_Some (me_retracts (scanMeta recs) !! m_Seq m0)) = false). rewrite E.
    pose proof (lo_stamp _ _ Hok _ _ E) as Hs. cbn in Hs. rewrite bool_decide_eq_true_2 by done. done.
  - change (m_RetractedAt m0 = 0%Z ↔ bool_decide (is_Some (me_retracts (scanMeta recs) !! m_Seq m0)) = false). rewrite E.
    rewrite bool_decide_eq_false_2 by (by intros []). split; [done|]. intros _. exact (proj1 (lo_clean _ _ Hok _ Hin)).
Qed.

(** *** How a record changes what the log holds *)

Lemma scan_retracts_other recs r seq :
  (∀ at_ by_ task, r ≠ RRetract seq at_ by_ task) →
  me_retracts (scanMeta (recs ++ [r])) !! seq = me_retracts (scanMeta recs) !! seq.
Proof.
  intros Hr. rewrite scanMeta_snoc. destruct r as [|m|s a b c| | | |]; try done.
  change (<[s := (a, b, c)]> (me_retracts (scanMeta recs)) !! seq = me_retracts (scanMeta recs) !! seq).
  apply lookup_insert_ne. intros ->. by eapply Hr.
Qed.

Lemma with_retract_same me me' m :
  me_retracts me !! m_Seq m = me_retracts me' !! m_Seq m → with_retract me m = with_retract me' m.
Proof. intros E. unfold with_retract. by rewrite E. Qed.

(** The message a record of [m] alone stands for. *)
Definition unwithdrawn name m : RetainedMessage :=
  m{{ m_Topic := name; m_RetractedAt := 0%Z; m_RetractedBy := RetractedBy_Author; m_RetractedByTask := zeroID }}.

Lemma log_append_msg hi hi' name recs m :
  log_ok hi recs → hi ≤ hi' → m_Seq m ≤ hi' → m_Seq m ∉ msg_seqs recs →
  me_retracts (scanMeta recs) !! m_Seq m = None →
  log_ok hi' (recs ++ [msgRecord m]) ∧
  ∀ x, log_message name (recs ++ [msgRecord m]) x ↔ log_message name recs x ∨ x = unwithdrawn name m.
Proof.
  intros [Hu Hb Hs Hc] Hhi Hm Hn Hr.
  assert (∀ seq, me_retracts (scanMeta (recs ++ [msgRecord m])) !! seq = me_retracts (scanMeta recs) !! seq) as Eret
    by (intros seq; by apply scan_retracts_other).
  split; [split|].
  - rewrite msg_seqs_app. apply NoDup_app. split_and!; [done| |by apply NoDup_singleton].
    intros x Hx Hx'. apply list_elem_of_singleton in Hx' as ->. by apply Hn.
  - intros r. rewrite elem_of_app, list_elem_of_singleton. intros [H| ->]; [specialize (Hb r H); lia|exact Hm].
  - intros seq v. rewrite Eret. apply Hs.
  - intros x. rewrite elem_of_app, list_elem_of_singleton. intros [H|H]; [by apply Hc|]. injection H as ->. done.
  - intros x. unfold log_message. split.
    + intros (m0 & Hin & ->). apply elem_of_app in Hin as [Hin|Hin].
      * left. exists m0. split; [done|]. by apply with_retract_same.
      * right. apply list_elem_of_singleton in Hin. injection Hin as ->. unfold with_retract. rewrite Eret.
        match goal with |- context [me_retracts (scanMeta recs) !! ?k] => change k with (m_Seq m) end. by rewrite Hr.
    + intros [(m0 & Hin & ->)| ->].
      * exists m0. split; [apply elem_of_app; by left|]. by apply with_retract_same.
      * eexists. split; [apply elem_of_app; right; by apply list_elem_of_singleton|]. unfold with_retract. rewrite Eret.
        match goal with |- context [me_retracts (scanMeta recs) !! ?k] => change k with (m_Seq m) end. by rewrite Hr.
Qed.

Lemma log_append_retract hi name recs seq at_ by_ task :
  log_ok hi recs → seq ≤ hi → at_ ≠ 0%Z →
  log_ok hi (recs ++ [RRetract seq at_ by_ task]) ∧
  ∀ x, log_message name (recs ++ [RRetract seq at_ by_ task]) x ↔
    (log_message name recs x ∧ m_Seq x ≠ seq) ∨
    ∃ y, log_message name recs y ∧ m_Seq y = seq ∧
      x = y{{ m_RetractedAt := at_; m_RetractedBy := by_; m_RetractedByTask := task }}.
Proof.
  intros [Hu Hb Hs Hc] Hseq Hat. set (recs' := recs ++ [RRetract seq at_ by_ task]).
  assert (me_retracts (scanMeta recs') = <[seq := (at_, by_, task)]> (me_retracts (scanMeta recs))) as Eret
    by (unfold recs'; by rewrite scanMeta_snoc).
  assert (∀ m0, RMsg m0 ∈ recs' ↔ RMsg m0 ∈ recs) as Hin'.
  { intros m0. unfold recs'. rewrite elem_of_app, list_elem_of_singleton. naive_solver. }
  split; [split|].
  - unfold recs'. rewrite msg_seqs_app. cbn. by rewrite app_nil_r.
  - intros r. unfold recs'. rewrite elem_of_app, list_elem_of_singleton. intros [H| ->]; [by apply Hb|exact Hseq].
  - intros s v. rewrite Eret, lookup_insert_Some. intros [[_ <-]|[_ H]]; [done|by eapply Hs].
  - intros m0. rewrite Hin'. apply Hc.
  - assert (∀ m0, m_Seq m0 ≠ seq →
      with_retract (scanMeta recs') (record_message name m0) = with_retract (scanMeta recs) (record_message name m0)) as Hother.
    { intros m0 Hne. apply with_retract_same. rewrite Eret. by apply lookup_insert_ne. }
    assert (∀ m0, m_Seq m0 = seq → with_retract (scanMeta recs') (record_message name m0) =
      (with_retract (scanMeta recs) (record_message name m0)){{ m_RetractedAt := at_; m_RetractedBy := by_; m_RetractedByTask := task }}) as Hthis.
    { intros m0 E. unfold with_retract at 1. rewrite Eret. change (m_Seq (record_message name m0)) with (m_Seq m0).
      rewrite E, lookup_insert_eq. unfold with_retract. change (m_Seq (record_message name m0)) with (m_Seq m0).
      by destruct (me_retracts (scanMeta recs) !! m_Seq m0) as [[[? ?] ?]|]. }
    assert (∀ m0, m_Seq (with_retract (scanMeta recs) (record_message name m0)) = m_Seq m0) as Hseqs.
    { intros m0. unfold with_retract. change (m_Seq (record_message name m0)) with (m_Seq m0).
      by destruct (me_retracts _ !! m_Seq m0) as [[[? ?] ?]|]. }
    intros x. unfold log_message. split.
    + intros (m0 & Hin & ->). apply Hin' in Hin. destruct (decide (m_Seq m0 = seq)) as [E|E].
      * right. eexists. split; [eauto|]. split; [by rewrite Hseqs|by apply Hthis].
      * left. rewrite Hother by done. split; [eauto|by rewrite Hseqs].
    + intros [[(m0 & Hin & ->) Hne]|(y & (m0 & Hin & ->) & E & ->)]; rewrite Hseqs in *.
      * exists m0. split; [by apply Hin'|by rewrite Hother].
      * exists m0. split; [by apply Hin'|by rewrite Hthis].
Qed.

(** A record that is neither a message nor a withdrawal. *)
Definition neutral r : Prop := match r with RMsg _ | RRetract _ _ _ _ => False | _ => True end.

Lemma log_append_neutral hi hi' name recs r :
  log_ok hi recs → hi ≤ hi' → rec_seq r ≤ hi' → neutral r →
  log_ok hi' (recs ++ [r]) ∧ ∀ x, log_message name (recs ++ [r]) x ↔ log_message name recs x.
Proof.
  intros [Hu Hb Hs Hc] Hhi Hr Hn.
  assert (∀ seq, me_retracts (scanMeta (recs ++ [r])) !! seq = me_retracts (scanMeta recs) !! seq) as Eret
    by (intros seq; apply scan_retracts_other; intros ? ? ? ->; done).
  assert (∀ m0, RMsg m0 ∈ recs ++ [r] ↔ RMsg m0 ∈ recs) as Hin.
  { intros m0. rewrite elem_of_app, list_elem_of_singleton. split; [|by left]. intros [?|<-]; done. }
  split; [split|].
  - rewrite msg_seqs_app. assert (msg_seqs [r] = []) as -> by (by destruct r). by rewrite app_nil_r.
  - intros x. rewrite elem_of_app, list_elem_of_singleton. intros [H| ->]; [specialize (Hb x H); lia|done].
  - intros seq v. rewrite Eret. apply Hs.
  - intros m0. rewrite Hin. apply Hc.
  - intros x. unfold log_message. split; intros (m0 & H & ->); exists m0; rewrite Hin in *; (split; [done|]);
      by apply with_retract_same.
Qed.

(** *** Purging *)

Lemma scan_filter seq recs :
  let recs' := filter (λ r, of_message seq r = false) recs in
  (∀ s, me_retracts (scanMeta recs') !! s = if decide (s = seq) then None else me_retracts (scanMeta recs) !! s) ∧
  me_shown (scanMeta recs') = me_shown (scanMeta recs) ∧
  me_ringFloor (scanMeta recs') = me_ringFloor (scanMeta recs).
Proof.
  induction recs as [|r recs (IH1 & IH2 & IH3)] using rev_ind; cbn zeta.
  { split_and!; [|done|done]. intros s. by destruct (decide _). }
  rewrite filter_app, filter_cons, filter_nil. destruct (decide (of_message seq r = false)) as [Hk|Hk].
  - rewrite !scanMeta_snoc. destruct r as [|m|s0 a b c|tk sq| | |fl]; (split_and!; [|try exact IH2|try exact IH3]).
    all: try (intros s; exact (IH1 s)).
    + intros s. change (<[s0 := (a, b, c)]> (me_retracts (scanMeta (filter (λ r, of_message seq r = false) recs))) !! s =
        if decide (s = seq) then None else <[s0 := (a, b, c)]> (me_retracts (scanMeta recs)) !! s).
      cbn in Hk. apply N.eqb_neq in Hk. destruct (decide (s = s0)) as [->|Hne].
      * by rewrite !lookup_insert_eq, decide_False.
      * rewrite !lookup_insert_ne by done. apply IH1.
    + exact (f_equal (insert tk sq) IH2).
    + change ((if me_ringFloor (scanMeta (filter (λ r, of_message seq r = false) recs)) <? fl then fl
               else me_ringFloor (scanMeta (filter (λ r, of_message seq r = false) recs))) =
              (if me_ringFloor (scanMeta recs) <? fl then fl else me_ringFloor (scanMeta recs))). by rewrite IH3.
  - rewrite app_nil_r, scanMeta_snoc. destruct r as [|m|s0 a b c| | | |]; try done.
    cbn in Hk. apply not_false_is_true, N.eqb_eq in Hk as ->. split_and!; [|exact IH2|exact IH3].
    intros s. rewrite IH1. destruct (decide (s = seq)) as [->|Hne]; [done|].
    change (me_retracts (scanMeta recs) !! s = <[seq := (a, b, c)]> (me_retracts (scanMeta recs)) !! s).
    by rewrite lookup_insert_ne.
Qed.

Lemma log_filter hi name recs seq :
  log_ok hi recs → let recs' := filter (λ r, of_message seq r = false) recs in
  log_ok hi recs' ∧ ∀ x, log_message name recs' x ↔ log_message name recs x ∧ m_Seq x ≠ seq.
Proof.
  intros Hok recs'. pose proof Hok as [Hu Hb Hs Hc]. destruct (scan_filter seq recs) as (Eret & _ & _). fold recs' in Eret.
  assert (∀ m0, RMsg m0 ∈ recs' ↔ RMsg m0 ∈ recs ∧ m_Seq m0 ≠ seq) as Hin.
  { intros m0. unfold recs'. rewrite list_elem_of_filter. cbn [of_message]. rewrite N.eqb_neq. tauto. }
  split; [split|].
  - eapply sublist_NoDup; [exact Hu|]. unfold recs'. clear. induction recs as [|r recs IH]; [done|].
    rewrite filter_cons. unfold msg_seqs in *. destruct (decide _); destruct r; cbn; try done; by constructor.
  - intros r [_ Hr]%list_elem_of_filter. by apply Hb.
  - intros s v. rewrite Eret. destruct (decide _); [done|apply Hs].
  - intros m0 [H _]%Hin. by apply Hc.
  - intros x. split.
    + intros Hx. pose proof (log_message_seq _ _ _ Hx) as (m0 & Hm0 & E)%elem_of_msg_seqs. apply Hin in Hm0 as [_ Hne].
      rewrite E in Hne. split; [|done]. destruct Hx as (m1 & H1 & ->). apply Hin in H1 as [H1 Hne1].
      exists m1. split; [done|]. apply with_retract_same. rewrite Eret. by rewrite decide_False.
    + intros [Hx Hne]. pose proof Hx as (m0 & Hm0 & ->).
      assert (m_Seq m0 ≠ seq) as Hne0.
      { intros E. apply Hne. unfold with_retract. change (m_Seq (record_message name m0)) with (m_Seq m0).
        by destruct (me_retracts _ !! m_Seq m0) as [[[? ?] ?]|]. }
      exists m0. split; [by apply Hin|]. apply with_retract_same. rewrite Eret. by rewrite decide_False.
Qed.

(** *** Reading it back *)

Lemma elem_of_fetch name want recs x :
  x ∈ fetchMessages name want (scanMeta recs) recs ↔ log_message name recs x ∧ m_Seq x ∈ want.
Proof.
  unfold fetchMessages, log_message. rewrite list_elem_of_omap.
  assert (∀ m0, m_Seq (with_retract (scanMeta recs) (record_message name m0)) = m_Seq m0) as Hseqs.
  { intros m0. unfold with_retract. change (m_Seq (record_message name m0)) with (m_Seq m0).
    by destruct (me_retracts _ !! m_Seq m0) as [[[? ?] ?]|]. }
  split.
  - intros (r & Hr & E). destruct r as [|m0| | | | |]; try done. case_bool_decide; [|done].
    apply (inj Some) in E as <-. split; [eauto|by rewrite Hseqs].
  - intros [(m0 & Hin & ->) Hw]. rewrite Hseqs in Hw. exists (RMsg m0). split; [done|]. by rewrite bool_decide_eq_true_2.
Qed.

Lemma fetch_NoDup hi name want recs me :
  log_ok hi recs → NoDup (m_Seq <$> fetchMessages name want me recs).
Proof.
  intros [Hu _ _ _]. eapply sublist_NoDup; [exact Hu|]. unfold fetchMessages, msg_seqs. clear Hu.
  induction recs as [|r recs IH]; [done|]. cbn [omap list_omap]. destruct r as [|m0| | | | |]; try done.
  assert (m_Seq (with_retract me (record_message name m0)) = m_Seq m0) as Hs.
  { unfold with_retract. change (m_Seq (record_message name m0)) with (m_Seq m0).
    by destruct (me_retracts _ !! m_Seq m0) as [[[? ?] ?]|]. }
  case_bool_decide; [rewrite fmap_cons, Hs|]; by constructor.
Qed.

Lemma sorted_seqs_spec recs :
  StronglySorted N.lt (sorted_seqs (scanMeta recs)) ∧
  ∀ seq, seq ∈ sorted_seqs (scanMeta recs) ↔ seq ∈ msg_seqs recs.
Proof.
  unfold sorted_seqs. split.
  - assert (NoDup (merge_sort N.le (elements (me_msgs (scanMeta recs))))) as Hnd
      by (rewrite merge_sort_Permutation; apply NoDup_elements).
    assert (StronglySorted N.le (merge_sort N.le (elements (me_msgs (scanMeta recs))))) as Hs
      by (apply (StronglySorted_merge_sort N.le)).
    revert Hnd Hs. generalize (merge_sort N.le (elements (me_msgs (scanMeta recs)))) as k. clear.
    induction k as [|x k IH]; intros Hnd Hs; [constructor|]. apply NoDup_cons in Hnd as [Hx Hnd].
    inversion Hs as [|? ? Hs' Hle]; subst. constructor; [by apply IH|]. rewrite Forall_forall in *.
    intros y Hy. specialize (Hle y Hy). assert (y ≠ x) by (by intros ->). lia.
  - intros seq. rewrite merge_sort_Permutation, elem_of_elements. apply elem_of_me_msgs.
Qed.

(** A list in order of [f] is cut in two at a bound. *)
Lemma sorted_cut {A} (f : A → N) (l : list A) lo :
  StronglySorted (λ x y, f x < f y) l → l = filter (λ x, f x ≤ lo) l ++ filter (λ x, lo < f x) l.
Proof.
  induction 1 as [|x l Hs IH Hx]; [done|]. rewrite !filter_cons. destruct (decide (f x ≤ lo)) as [Hle|Hgt].
  - rewrite (decide_False (P := lo < f x)) by lia. cbn [app]. by f_equal.
  - rewrite decide_True by lia. assert (filter (λ x, f x ≤ lo) l = []) as E.
    { destruct (filter (λ y, f y ≤ lo) l) as [|y k] eqn:F; [done|]. exfalso.
      assert (y ∈ filter (λ y, f y ≤ lo) l) as [Hy Hin]%list_elem_of_filter by (rewrite F; by left).
      rewrite Forall_forall in Hx. specialize (Hx y Hin). cbn in Hx. lia. }
    rewrite E in IH |- *. cbn [app] in *. by f_equal.
Qed.

Lemma sorted_split (l : list N) lo :
  StronglySorted N.lt l → l = filter (λ x, x ≤ lo) l ++ filter (λ x, lo < x) l.
Proof. apply (sorted_cut (λ x : N, x)). Qed.

Lemma sorted_lt_unique (l1 l2 : list N) :
  StronglySorted N.lt l1 → StronglySorted N.lt l2 → (∀ x, x ∈ l1 ↔ x ∈ l2) → l1 = l2.
Proof.
  intros H1 H2 He. assert (∀ l, StronglySorted N.lt l → NoDup l) as Hnd.
  { intros l. induction 1 as [|x l _ IH Hx]; constructor; [|done].
    intros Hin. rewrite Forall_forall in Hx. specialize (Hx x Hin). lia. }
  eapply (StronglySorted_unique_strong N.lt); [|exact H1|exact H2|by apply NoDup_Permutation; auto].
  intros x y _ _ ? ?. lia.
Qed.

Lemma filter_sorted {A} (R : relation A) (P : A → Prop) `{!∀ x, Decision (P x)} (l : list A) :
  StronglySorted R l → StronglySorted R (filter P l).
Proof. intros Hs. eapply sublist_StronglySorted; [exact Hs|]. apply sublist_filter. Qed.

(** The ring [ring] holds exactly the live messages above [lo]; then what a load
    hands out ends with it. *)
Lemma load_suffix hi name recs n floor lo ring :
  log_ok hi recs → StronglySorted seq_lt ring → (length ring ≤ n)%nat → floor ≤ lo →
  (∀ m, m ∈ ring ↔ log_message name recs m ∧ m_RetractedAt m = 0%Z ∧ lo < m_Seq m) →
  ring `suffix_of`
    (split_withdrawn (merge_sort seq_le (fetchMessages name (tailSeqs (scanMeta recs) n floor) (scanMeta recs) recs))).1.
Proof.
  intros Hok Hring Hlen Hfl Hin. set (want := tailSeqs (scanMeta recs) n floor).
  set (loaded := filter (λ m, m_RetractedAt m = 0%Z) (merge_sort seq_le (fetchMessages name want (scanMeta recs) recs))).
  change (ring `suffix_of` loaded).
  assert (StronglySorted seq_lt loaded) as Hs by (apply filter_sorted, sort_strict; by eapply fetch_NoDup).
  assert (∀ m, m ∈ loaded ↔ log_message name recs m ∧ m_Seq m ∈ want ∧ m_RetractedAt m = 0%Z) as Hl.
  { intros m. unfold loaded. rewrite list_elem_of_filter, merge_sort_Permutation, elem_of_fetch. tauto. }
  set (live := filter (λ seq, withdrawn_in (scanMeta recs) seq = false)
                 (filter (λ seq, floor < seq) (sorted_seqs (scanMeta recs)))).
  destruct (sorted_seqs_spec recs) as [Hss Hse].
  assert (StronglySorted N.lt live) as Hlive by (by apply filter_sorted, filter_sorted).
  assert (∀ m, log_message name recs m → m_RetractedAt m = 0%Z → floor < m_Seq m → m_Seq m ∈ live) as Hto.
  { intros m Hm Hz Hf. unfold live. rewrite !list_elem_of_filter, Hse. split_and!; [|done|by eapply log_message_seq].
    by apply (log_message_live hi name). }
  assert (m_Seq <$> ring = filter (λ x, lo < x) live) as Er.
  { apply sorted_lt_unique; [|by apply filter_sorted|].
    - clear -Hring. induction Hring as [|m l _ IH Hm]; cbn; constructor; [done|]. by apply Forall_fmap.
    - intros x. rewrite list_elem_of_fmap, list_elem_of_filter. split.
      + intros (m & -> & (Hm & Hz & Hlo)%Hin). split; [done|]. apply Hto; [done|done|lia].
      + intros [Hlo Hx]. unfold live in Hx. rewrite !list_elem_of_filter, Hse in Hx. destruct Hx as (Hw & _ & Hx).
        apply elem_of_msg_seqs in Hx as (m0 & Hm0 & <-).
        assert (log_message name recs (with_retract (scanMeta recs) (record_message name m0))) as Hm by (by exists m0).
        assert (m_Seq (with_retract (scanMeta recs) (record_message name m0)) = m_Seq m0) as Es.
        { unfold with_retract. change (m_Seq (record_message name m0)) with (m_Seq m0).
          by destruct (me_retracts _ !! m_Seq m0) as [[[? ?] ?]|]. }
        eexists. split; [symmetry; exact Es|]. apply Hin. rewrite Es. split_and!; [done| |done].
        apply (log_message_live hi name recs _ Hok Hm). by rewrite Es. }
  assert (∀ m, m ∈ ring → m_Seq m ∈ want) as Hwant.
  { intros m Hm. unfold want, tailSeqs. apply elem_of_app. left. fold live. unfold newest.
    assert (length (filter (λ x, lo < x) live) = length ring) as El by (by rewrite <-Er, length_fmap).
    rewrite (sorted_split live lo Hlive) at 2. rewrite drop_app_le.
    - apply elem_of_app. right. rewrite <-Er. by apply list_elem_of_fmap_2.
    - rewrite (sorted_split live lo Hlive) at 1. rewrite length_app, El. lia. }
  assert (filter (λ m, lo < m_Seq m) loaded = ring) as Ef.
  { apply sorted_unique; [by apply filter_sorted|done|]. intros m. rewrite list_elem_of_filter, Hl. split.
    - intros (Hlo & Hm & _ & Hz). by apply Hin.
    - intros Hm. pose proof (proj1 (Hin m) Hm) as (Hlm & Hz & Hlo). auto. }
  exists (filter (λ m, m_Seq m ≤ lo) loaded). rewrite <-Ef. by apply (sorted_cut m_Seq).
Qed.
End log.
