(* ===== verification/StoreMirror.v ===== *)
(** * The store's copy of a retained topic

    What a topic of the board and its log on disk have in common ([logged]), and
    how each call of the board's store interface carries it from one state of the
    topic to the next.  [BoardLaws.v] puts the calls where the board makes them. *)

From stdpp Require Import prelude gmap strings list sorting.
From Stdlib Require Import NArith ZArith.
From coqutil Require Import Datatypes.RecordSetters.
From S2P Require Import Prelude GoStrings Caps Wire Topic TaskState BoardReach Board FileStore.

Import DoubleBraceUpdate.
Open Scope N_scope.
Open Scope stdpp_scope.
Set Default Goal Selector "!".

(** ** One call of the store *)

(** The three tables of the store agree at [n]. *)
Definition agree_at (n : string) (s s' : FileStore) : Prop :=
  fs_ret s' !! n = fs_ret s !! n ∧ fs_files s' !! n = fs_files s !! n ∧ fs_purged s' !! n = fs_purged s !! n.
Definition absent (n : string) (s : FileStore) : Prop :=
  fs_ret s !! n = None ∧ fs_files s !! n = None ∧ fs_purged s !! n = None.

Section calls.
Implicit Types (s : FileStore) (name n : string) (o : store_op).

Lemma agree_refl n s : agree_at n s s.
Proof. done. Qed.
Lemma agree_trans n s1 s2 s3 : agree_at n s1 s2 → agree_at n s2 s3 → agree_at n s1 s3.
Proof. intros (?&?&?) (?&?&?). split_and!; congruence. Qed.

Lemma agree_write n name recs s : n ≠ name → agree_at n s (write_file name recs s).
Proof. intros Hne. split_and!; [done| |done]. by apply lookup_insert_ne. Qed.

Lemma agree_logLocked n name s : n ≠ name → agree_at n s (logLocked name s).
Proof. intros Hne. unfold logLocked. destruct (file name s); [by apply agree_write|done]. Qed.

Lemma agree_append n name r s : n ≠ name → agree_at n s (append_record name r s).
Proof.
  intros Hne. unfold append_record. destruct (fs_ret s !! name); [|done].
  eapply agree_trans; [by apply (agree_logLocked n name)|by apply agree_write].
Qed.

Lemma fs_apply_other now o s n : n ≠ op_topic o → agree_at n s (fs_apply now o s).1.
Proof.
  intros Hne. destruct o as [t r|t|t|t m|t m|t seq|t task seq|t task on|t through]; cbn [op_topic fs_apply fst] in *.
  - unfold SetRetention. eapply agree_trans; [|by apply agree_logLocked].
    split_and!; [by apply lookup_insert_ne|done|done].
  - split_and!; by apply lookup_delete_ne.
  - by apply agree_write.
  - unfold Append. destruct (bool_decide _); [done|by apply agree_append].
  - by apply agree_append.
  - unfold Remove. set (s' := s{{ fs_purged := _ }}).
    assert (agree_at n s s') as Ha by (split_and!; [done|done|by apply lookup_insert_ne]).
    destruct (bool_decide _); [|done]. eapply agree_trans; [exact Ha|by apply agree_write].
  - by apply agree_append.
  - by apply agree_append.
  - unfold FlushRing. destruct (fs_ret s !! t); [|done].
    eapply agree_trans; [by apply (agree_logLocked n t)|by apply agree_append].
Qed.

Lemma file_agree n s s' : agree_at n s s' → file n s' = file n s.
Proof. intros (_ & E & _). unfold file. by rewrite E. Qed.

(** A record appended to an open log of a retained topic. *)
Lemma append_record_open name r s rt :
  fs_ret s !! name = Some rt → file name s ≠ [] →
  file name (append_record name r s) = file name s ++ [r] ∧
  fs_ret (append_record name r s) = fs_ret s ∧ fs_purged (append_record name r s) = fs_purged s.
Proof.
  intros Hr Hf. unfold append_record. rewrite Hr. unfold logLocked. destruct (file name s) as [|x l] eqn:E; [done|].
  split_and!; [|done|done]. unfold file at 1.
  transitivity (default [] (<[name := file name s ++ [r]]> (fs_files s) !! name)); [done|].
  by rewrite lookup_insert_eq, E.
Qed.
End calls.

(** ** The invariant *)

(** A topic of the board. *)
Record topic_inv (hi : N) (ringN : nat) (name : string) (t : topic) : Prop := {
  ti_ok : topic_ok hi t;
  ti_name : t_name t = name;
  ti_cap : t_cap t = ringN;
  ti_clean m : m ∈ t_ring t → unwithdrawn name m = m;
  ti_topic m : m ∈ t_retracted t → m_Topic m = name;
  ti_pos m : m ∈ t_ring t ++ t_retracted t → 0 < m_Seq m;
  ti_floor : t_retention t = None → t_ringFloor t = 0;
}.

(** The store's copy of a retained topic: the ring is exactly the live messages
    of the log above some seq, which is at or above the flush floor; withdrawn
    messages, delivery marks and members are on the log too. *)
Record logged (hi : N) (name : string) (t : topic) (r : Retention) (ms : gset TaskID) (s : FileStore) : Prop := {
  lg_ret : fs_ret s !! name = Some r;
  lg_open : file name s ≠ [];
  lg_ok : log_ok hi (file name s);
  lg_floor : me_ringFloor (scanMeta (file name s)) = t_ringFloor t;
  lg_ring : ∃ lo, t_ringFloor t ≤ lo ∧ lo ≤ hi ∧
    ∀ m, m ∈ t_ring t ↔ log_message name (file name s) m ∧ m_RetractedAt m = 0%Z ∧ lo < m_Seq m;
  lg_wd m : m ∈ t_retracted t → log_message name (file name s) m;
  lg_shown task : default 0 (me_shown (scanMeta (file name s)) !! task) = shownMark task t;
  lg_members task : me_members (scanMeta (file name s)) !! task = Some true ↔ task ∈ ms;
  lg_purged seq : seq ∈ default ∅ (fs_purged s !! name) → seq ≤ hi;
  lg_pos seq : seq ∈ msg_seqs (file name s) → 0 < seq;
}.

Section mirror.
Implicit Types (t : topic) (name n : string) (s : FileStore).

Lemma topic_ok_mono hi hi' t : hi ≤ hi' → topic_ok hi t → topic_ok hi' t.
Proof.
  intros Hle [H1 H2 H3 H4 H5 H6 H7 H8 H9]. split; try done.
  - intros m Hm. specialize (H5 m Hm). lia.
  - intros task k Hk. specialize (H9 task k Hk). lia.
Qed.

Lemma topic_inv_mono hi hi' ringN name t : hi ≤ hi' → topic_inv hi ringN name t → topic_inv hi' ringN name t.
Proof. intros Hle [H1 H2 H3 H4 H5 H6 H7]. split; try done. by eapply topic_ok_mono. Qed.

Lemma log_ok_mono hi hi' recs : hi ≤ hi' → log_ok hi recs → log_ok hi' recs.
Proof. intros Hle [H1 H2 H3 H4]. split; try done. intros r Hr. specialize (H2 r Hr). lia. Qed.

Lemma logged_mono hi hi' name t r ms s : hi ≤ hi' → logged hi name t r ms s → logged hi' name t r ms s.
Proof.
  intros Hle [H1 H2 H3 H4 (lo & L1 & L2 & L3) H6 H7 H8 H9 H10]. split; try done.
  - by eapply log_ok_mono.
  - exists lo. split_and!; [done|lia|done].
  - intros seq Hs. specialize (H9 seq Hs). lia.
Qed.

Lemma logged_agree hi name t r ms s s' : agree_at name s s' → logged hi name t r ms s → logged hi name t r ms s'.
Proof.
  intros Ha [H1 H2 H3 H4 H5 H6 H7 H8 H9 H10]. pose proof (file_agree _ _ _ Ha) as Ef. destruct Ha as (E1 & _ & E3).
  split; rewrite ?Ef, ?E1, ?E3; done.
Qed.

(** ** How each call changes the store's copy *)

(** A record appended to the log of a retained topic. *)
Lemma logged_record hi hi' name t t' r ms ms' s rec :
  logged hi name t r ms s → hi ≤ hi' →
  log_ok hi' (file name s ++ [rec]) →
  me_ringFloor (scanMeta (file name s ++ [rec])) = t_ringFloor t' →
  (∃ lo, t_ringFloor t' ≤ lo ∧ lo ≤ hi' ∧
    ∀ m, m ∈ t_ring t' ↔ log_message name (file name s ++ [rec]) m ∧ m_RetractedAt m = 0%Z ∧ lo < m_Seq m) →
  (∀ m, m ∈ t_retracted t' → log_message name (file name s ++ [rec]) m) →
  (∀ task, default 0 (me_shown (scanMeta (file name s ++ [rec])) !! task) = shownMark task t') →
  (∀ task, me_members (scanMeta (file name s ++ [rec])) !! task = Some true ↔ task ∈ ms') →
  (∀ seq, seq ∈ msg_seqs [rec] → 0 < seq) →
  logged hi' name t' r ms' (append_record name rec s).
Proof.
  intros [H1 H2 H3 H4 H5 H6 H7 H8 H9 H10] Hhi G3 G4 G5 G6 G7 G8 G9.
  destruct (append_record_open name rec s r H1 H2) as (Ef & Er & Ep).
  split; rewrite ?Ef, ?Er, ?Ep; try done.
  - by destruct (file name s).
  - intros seq Hs. specialize (H9 seq Hs). lia.
  - intros seq. rewrite msg_seqs_app, elem_of_app. intros [Hs|Hs]; [by apply H10|by apply G9].
Qed.

Lemma append_no_msg hi name t r ms s rec x :
  logged hi name t r ms s → msg_seqs [rec] = [] →
  x ∈ msg_seqs (file name (append_record name rec s)) → x ∈ msg_seqs (file name s).
Proof.
  intros [H1 H2 _ _ _ _ _ _ _ _] E. destruct (append_record_open name rec s r H1 H2) as (-> & _).
  by rewrite msg_seqs_app, E, app_nil_r.
Qed.

(** A strictly sorted list is cut by a bound on its seqs. *)
Lemma suffix_cut (pre l : list RetainedMessage) lo :
  StronglySorted seq_lt (pre ++ l) → (∀ m, m ∈ pre ++ l → lo < m_Seq m) →
  ∃ lo', lo ≤ lo' ∧ (∀ m, m ∈ l ↔ m ∈ pre ++ l ∧ lo' < m_Seq m) ∧ (lo' = lo ∨ ∃ m, m ∈ pre ∧ lo' = m_Seq m).
Proof.
  intros Hs Hlo. destruct (last pre) as [d|] eqn:Ed.
  - pose proof Ed as (pre' & ->)%last_Some. exists (m_Seq d). assert (d ∈ pre' ++ [d]) as Hd by set_solver.
    split_and!; [apply N.lt_le_incl, Hlo; set_solver| |right; eauto]. intros m. split.
    + intros Hm. split; [set_solver|]. by apply (StronglySorted_app_1_elem_of seq_lt (pre' ++ [d]) l d m).
    + intros [[Hm|Hm]%elem_of_app Hlt]; [|done]. exfalso.
      pose proof (last_max (pre' ++ [d]) d m (StronglySorted_app_1_l _ _ _ Hs) Ed Hm). lia.
  - apply last_None in Ed as ->. exists lo. split_and!; [lia| |by left]. intros m. cbn. split; [|tauto]. intros Hm. auto.
Qed.

Lemma logged_append hi seq name t r ms s m pre l0 now :
  logged hi name t r ms s → topic_ok hi t → hi < seq → m_Seq m = seq → unwithdrawn name m = m →
  t_ring t = pre ++ l0 →
  logged seq name (t{{ t_lastPublishedAt := now; t_ring := l0 ++ [m] }}) r ms (Append name m s).
Proof.
  intros Hl Hok Hlt Em Hc Hring. pose proof Hl as [H1 H2 H3 H4 (lo & L1 & L2 & L3) H6 H7 H8 H9 H10].
  unfold Append. rewrite bool_decide_eq_false_2 by (intros Hp%H9; lia).
  destruct (log_append_msg hi seq name (file name s) m H3) as [G1 G2]; [lia|lia| | |].
  { rewrite Em. intros (x & Hx & Ex)%elem_of_msg_seqs. apply (lo_bound _ _ H3) in Hx. cbn in Hx. lia. }
  { rewrite Em. by apply (no_retract_above hi). }
  assert (∀ x, x ∈ pre ++ l0 → lo < m_Seq x) as Hlo by (intros x Hx; rewrite <-Hring in Hx; by apply L3 in Hx as (_ & _ & ?)).
  pose proof (ok_sorted _ _ Hok) as Hs. rewrite Hring in Hs.
  destruct (suffix_cut pre l0 lo Hs Hlo) as (lo' & K1 & K2 & K3).
  assert (lo' ≤ hi) as K4.
  { destruct K3 as [->|(x & Hx & ->)]; [done|]. apply (ok_bound _ _ Hok). rewrite Hring. set_solver. }
  eapply (logged_record hi seq); [exact Hl|lia|exact G1|..].
  - by rewrite scanMeta_snoc.
  - exists lo'. split_and!; [|lia|].
    { change (t_ringFloor t ≤ lo'). lia. }
    intros x. change (x ∈ l0 ++ [m] ↔ log_message name (file name s ++ [msgRecord m]) x ∧ m_RetractedAt x = 0%Z ∧ lo' < m_Seq x).
    rewrite G2, elem_of_app, list_elem_of_singleton, K2, <-Hring, L3, Hc. split.
    + intros [((? & ? & ?) & ?)| ->]; [auto|]. split_and!; [by right| |lia]. by rewrite <-Hc.
    + intros ([Hx| ->] & ? & ?); [left|by right]. split_and!; [done..|lia|done].
  - intros x Hx. apply G2. left. by apply H6.
  - intros task. rewrite scanMeta_snoc. exact (H7 task).
  - intros task. rewrite scanMeta_snoc. exact (H8 task).
  - intros x ->%list_elem_of_singleton. change (0 < m_Seq m). lia.
Qed.

(** A message of the ring is withdrawn. *)
Lemma logged_retract hi name t r ms s seq i m now kind by_ r0 t' :
  logged hi name t r ms s → topic_inv hi (t_cap t) name t → index_seq seq (t_ring t) = Some (i, m) → (0 < now)%Z →
  r0 `suffix_of` t_retracted t →
  t' = t{{ t_ring := delete_at i (t_ring t); t_retracted := r0 ++ [withdrawn m now kind by_] }} →
  logged hi name t' r ms (Retract name (withdrawn m now kind by_) s).
Proof.
  intros Hl Hti Ei Hnow [pre Hpre] ->. pose proof Hl as [H1 H2 H3 H4 (lo & L1 & L2 & L3) H6 H7 H8 H9 H10].
  pose proof (ti_ok _ _ _ _ Hti) as Hok. pose proof (index_seq_elem _ _ _ _ Ei) as Hm.
  pose proof (index_seq_Some _ _ _ _ Ei) as (_ & _ & _ & _ & Es).
  assert (m_Seq m ≤ hi) as Hb by (apply (ok_bound _ _ Hok), elem_of_app; by left).
  destruct (log_append_retract hi name (file name s) (m_Seq m) now kind by_ H3 Hb ltac:(lia)) as [G1 G2].
  pose proof (proj1 (L3 m) Hm) as (Hlm & _ & Hlom).
  assert (∀ x, m_Seq x = seq → ¬ (x ∈ t_retracted t)) as Hnr.
  { intros x Ex Hx. pose proof (ok_once _ _ Hok) as Ho. rewrite fmap_app, NoDup_app in Ho. destruct Ho as (_ & Ho & _).
    apply (Ho seq); [rewrite <-Es; by apply list_elem_of_fmap_2|rewrite <-Ex; by apply list_elem_of_fmap_2]. }
  eapply (logged_record hi hi); [exact Hl|lia|exact G1|..].
  - by rewrite scanMeta_snoc.
  - exists lo. split_and!; [done|done|]. intros x.
    change (x ∈ delete_at i (t_ring t) ↔ log_message name (file name s ++ [RRetract (m_Seq m) now kind by_]) x ∧
      m_RetractedAt x = 0%Z ∧ lo < m_Seq x).
    rewrite (delete_at_filter seq _ _ _ (topic_ok_ring_NoDup _ _ Hok) Ei), list_elem_of_filter, G2, L3, Es. split.
    + intros (? & ? & ? & ?). auto.
    + intros ([[? ?]|(y & _ & _ & ->)] & Hz & ?); [auto|]. change (now = 0%Z) in Hz. lia.
  - intros x Hx. change (x ∈ r0 ++ [withdrawn m now kind by_]) in Hx.
    apply G2. apply elem_of_app in Hx as [Hx| ->%list_elem_of_singleton].
    + left. assert (x ∈ t_retracted t) as Hx' by (rewrite Hpre; set_solver). split; [by apply H6|].
      intros E. apply (Hnr x); congruence.
    + right. by exists m.
  - intros task. rewrite scanMeta_snoc. exact (H7 task).
  - intros task. rewrite scanMeta_snoc. exact (H8 task).
  - by intros x ?%elem_of_nil.
Qed.

(** A record that is neither a message nor a withdrawal, and leaves the floor alone. *)
Lemma logged_neutral hi name t t' r ms ms' s rec :
  logged hi name t r ms s → neutral rec → rec_seq rec ≤ hi →
  me_ringFloor (scanMeta (file name s ++ [rec])) = me_ringFloor (scanMeta (file name s)) →
  t_ring t' = t_ring t → t_retracted t' = t_retracted t → t_ringFloor t' = t_ringFloor t →
  (∀ task, default 0 (me_shown (scanMeta (file name s ++ [rec])) !! task) = shownMark task t') →
  (∀ task, me_members (scanMeta (file name s ++ [rec])) !! task = Some true ↔ task ∈ ms') →
  logged hi name t' r ms' (append_record name rec s).
Proof.
  intros Hl Hn Hb Ef Er Ew Et Hsh Hms. pose proof Hl as [H1 H2 H3 H4 (lo & L1 & L2 & L3) H6 H7 H8 H9 H10].
  destruct (log_append_neutral hi hi name (file name s) rec H3) as [G1 G2]; [lia|done|done|].
  eapply (logged_record hi hi); [exact Hl|lia|exact G1|..]; try done.
  - by rewrite Ef, Et.
  - exists lo. rewrite Et. split_and!; [done|done|]. intros m. by rewrite Er, G2, L3.
  - intros m Hm. rewrite Ew in Hm. apply G2. by apply H6.
  - intros x Hx. destruct rec; try done; by apply elem_of_nil in Hx.
Qed.

Lemma logged_shown hi name t t' r ms s task seq :
  logged hi name t r ms s → seq ≤ hi →
  t_ring t' = t_ring t → t_retracted t' = t_retracted t → t_ringFloor t' = t_ringFloor t →
  (∀ task', shownMark task' t' = if decide (task' = task) then seq else shownMark task' t) →
  logged hi name t' r ms (SetShown name task seq s).
Proof.
  intros Hl Hb Er Ew Et Hm. apply (logged_neutral hi name t t' r ms ms); try done.
  - by rewrite scanMeta_snoc.
  - intros task'. rewrite scanMeta_snoc, Hm.
    change (default 0 (<[task := seq]> (me_shown (scanMeta (file name s))) !! task') =
      if decide (task' = task) then seq else shownMark task' t).
    destruct (decide (task' = task)) as [->|Hne]; [by rewrite lookup_insert_eq|].
    rewrite lookup_insert_ne by done. apply (lg_shown _ _ _ _ _ _ Hl).
  - intros task'. rewrite scanMeta_snoc. apply (lg_members _ _ _ _ _ _ Hl).
Qed.

Lemma logged_member hi name t r ms ms' s task on :
  logged hi name t r ms s → (∀ task', task' ∈ ms' ↔ if decide (task' = task) then on = true else task' ∈ ms) →
  logged hi name t r ms' (SetMember name task on s).
Proof.
  intros Hl Hm. apply (logged_neutral hi name t t r ms ms'); try done.
  - cbn. lia.
  - by rewrite scanMeta_snoc.
  - intros task'. rewrite scanMeta_snoc. apply (lg_shown _ _ _ _ _ _ Hl).
  - intros task'. rewrite scanMeta_snoc, Hm.
    change (<[task := on]> (me_members (scanMeta (file name s))) !! task' = Some true ↔
      if decide (task' = task) then on = true else task' ∈ ms).
    destruct (decide (task' = task)) as [->|Hne]; [rewrite lookup_insert_eq; split; congruence|].
    rewrite lookup_insert_ne by done. apply (lg_members _ _ _ _ _ _ Hl).
Qed.

Lemma logged_flush hi name t r ms s through :
  logged hi name t r ms s → through ≤ hi → (∀ m, m ∈ t_ring t ++ t_retracted t → m_Seq m ≤ through) →
  let t' := (dropThrough through t).1{{ t_ringFloor := if t_ringFloor t <? through then through else t_ringFloor t }} in
  logged hi name t' r ms (FlushRing name through s).1 ∧ (FlushRing name through s).2 = true.
Proof.
  intros Hl Hb Hall t'. pose proof Hl as [H1 H2 H3 H4 (lo & L1 & L2 & L3) H6 H7 H8 H9 H10].
  unfold FlushRing. rewrite H1. split; [|done]. cbn [fst].
  assert (logLocked name s = s) as -> by (unfold logLocked; by destruct (file name s)).
  destruct (log_append_neutral hi hi name (file name s) (RRingFloor through) H3) as [G1 G2]; [lia|done|done|].
  assert (t_ring t' = [] ∧ t_retracted t' = []) as [Er Ew].
  { split; apply elem_of_nil_inv; intros m [Hlt Hm]%above_elem; specialize (Hall m ltac:(set_solver)); lia. }
  set (fl := if t_ringFloor t <? through then through else t_ringFloor t) in *.
  eapply (logged_record hi hi); [exact Hl|lia|exact G1|..].
  - rewrite scanMeta_snoc. change ((if me_ringFloor (scanMeta (file name s)) <? through then through
      else me_ringFloor (scanMeta (file name s))) = fl). by rewrite H4.
  - exists (N.max lo through). split_and!; [|lia|].
    + change (fl ≤ N.max lo through). unfold fl. destruct (N.ltb_spec (t_ringFloor t) through); lia.
    + intros m. rewrite Er, G2. split; [by intros ?%elem_of_nil|]. intros (Hm & Hz & Hlo).
      assert (m ∈ t_ring t) as Hin by (apply L3; split_and!; [done|done|lia]).
      specialize (Hall m ltac:(set_solver)). lia.
  - intros m. rewrite Ew. by intros ?%elem_of_nil.
  - intros task. rewrite scanMeta_snoc. exact (H7 task).
  - intros task. rewrite scanMeta_snoc. exact (H8 task).
  - by intros x ?%elem_of_nil.
Qed.

(** The log a truncation leaves: the floor of the counter and the members. *)
Lemma scan_members name seq at_ (l : list TaskID) :
  let recs := RHdr name :: RFloor seq at_ :: ((λ task, RMember task true) <$> l) in
  msg_seqs recs = [] ∧ me_retracts (scanMeta recs) = ∅ ∧ me_shown (scanMeta recs) = ∅ ∧
  me_ringFloor (scanMeta recs) = 0 ∧ ∀ task, me_members (scanMeta recs) !! task = Some true ↔ task ∈ l.
Proof.
  cbn zeta. induction l as [|x l (I1 & I2 & I3 & I4 & I5)] using rev_ind.
  { split_and!; try done. intros task. by rewrite elem_of_nil. }
  rewrite fmap_app, fmap_cons, !app_comm_cons, scanMeta_snoc, msg_seqs_app, I1. split_and!; try done.
  intros task. set (sc := scanMeta _) in *.
  change (<[x := true]> (me_members sc) !! task = Some true ↔ task ∈ l ++ [x]).
  rewrite lookup_insert_Some, I5, elem_of_app, list_elem_of_singleton. split.
  - intros [[-> _]|[_ ?]]; auto.
  - destruct (decide (task = x)) as [->|]; [auto|]. intros [?|?]; auto.
Qed.

Lemma memberList_elem recs task : task ∈ memberList (scanMeta recs) ↔ me_members (scanMeta recs) !! task = Some true.
Proof.
  unfold memberList. rewrite merge_sort_Permutation, list_elem_of_fmap. split.
  - intros ([k v] & -> & [Hv Hin%elem_of_map_to_list]%list_elem_of_filter). cbn in Hv. by subst v.
  - intros Hk. exists (task, true). split; [done|]. apply list_elem_of_filter. split; [done|by apply elem_of_map_to_list].
Qed.

Lemma maxSeq_bound hi recs : (∀ r, r ∈ recs → rec_seq r ≤ hi) → me_maxSeq (scanMeta recs) ≤ hi.
Proof.
  induction recs as [|r recs IH] using rev_ind; intros Hb; [cbn; lia|]. rewrite scanMeta_snoc.
  assert (me_maxSeq (scanMeta recs) ≤ hi) as Hi by (apply IH; intros x Hx; apply Hb; set_solver).
  assert (rec_seq r ≤ hi) as Hr by (apply Hb; set_solver).
  assert (me_maxSeq (meta_step (scanMeta recs) r) =
    if me_maxSeq (scanMeta recs) <? rec_seq r then rec_seq r else me_maxSeq (scanMeta recs)) as -> by (by destruct r).
  destruct (N.ltb_spec (me_maxSeq (scanMeta recs)) (rec_seq r)); lia.
Qed.

Lemma maxSeq_above recs r : r ∈ recs → rec_seq r ≤ me_maxSeq (scanMeta recs).
Proof.
  induction recs as [|x recs IH] using rev_ind; intros Hr; [by apply elem_of_nil in Hr|]. rewrite scanMeta_snoc.
  assert (me_maxSeq (meta_step (scanMeta recs) x) =
    if me_maxSeq (scanMeta recs) <? rec_seq x then rec_seq x else me_maxSeq (scanMeta recs)) as -> by (by destruct x).
  apply elem_of_app in Hr as [Hr| ->%list_elem_of_singleton]; [specialize (IH Hr)|];
    destruct (N.ltb_spec (me_maxSeq (scanMeta recs)) (rec_seq x)); lia.
Qed.

(** Nothing is on the log: an empty topic. *)
Lemma logged_truncate hi name t t' r ms s now :
  logged hi name t r ms s → t_ring t' = [] → t_retracted t' = [] → t_shown t' = ∅ → t_ringFloor t' = 0 →
  logged hi name t' r ms (Truncate now name s) ∧ msg_seqs (file name (Truncate now name s)) = [].
Proof.
  intros Hl Er Ew Es Ef. pose proof Hl as [H1 H2 H3 H4 _ _ _ H8 H9 H10]. unfold Truncate, floorLine.
  set (me := scanMeta (file name s)). set (recs := RHdr name :: RFloor (me_maxSeq me) now :: _).
  assert (file name (write_file name recs s) = recs) as Efile.
  { unfold file. transitivity (default [] (<[name := recs]> (fs_files s) !! name)); [done|]. by rewrite lookup_insert_eq. }
  destruct (scan_members name (me_maxSeq me) now (memberList me)) as (M1 & M2 & M3 & M4 & M5). fold recs in M1, M2, M3, M4, M5.
  assert (∀ m, RMsg m ∈ recs → False) as Hno.
  { intros m Hm. assert (m_Seq m ∈ msg_seqs recs) as Hin by (apply elem_of_msg_seqs; eauto). rewrite M1 in Hin. by apply elem_of_nil in Hin. }
  split; [|by rewrite Efile]. split; rewrite ?Efile; try done.
  - split; [rewrite M1; constructor| | |].
    + intros x Hx. apply elem_of_cons in Hx as [->|Hx]; [cbn; lia|]. apply elem_of_cons in Hx as [->|Hx].
      * cbn. apply maxSeq_bound, (lo_bound _ _ H3).
      * apply list_elem_of_fmap in Hx as (task & -> & _). cbn. lia.
    + intros seq v. rewrite M2. by rewrite lookup_empty.
    + intros m Hm. by destruct (Hno m Hm).
  - by rewrite M4, Ef.
  - exists hi. rewrite Ef. split_and!; [lia|lia|]. intros m. rewrite Er. split; [by intros ?%elem_of_nil|].
    intros ((m0 & Hm & _) & _). by destruct (Hno m0 Hm).
  - intros m. rewrite Ew. by intros ?%elem_of_nil.
  - intros task. rewrite M3. unfold shownMark. by rewrite Es, lookup_empty.
  - intros task. rewrite M5. unfold me. by rewrite memberList_elem, H8.
  - intros x. rewrite M1. by intros ?%elem_of_nil.
Qed.

(** A purge of one seq: the topic has no entry of it left. *)
Lemma scan_filter_members seq recs :
  me_members (scanMeta (filter (λ r, of_message seq r = false) recs)) = me_members (scanMeta recs).
Proof.
  induction recs as [|r recs IH] using rev_ind; [done|]. rewrite filter_app, filter_cons, filter_nil.
  destruct (decide (of_message seq r = false)) as [Hk|Hk].
  - rewrite !scanMeta_snoc. destruct r as [| | | |tk on| |]; try exact IH. exact (f_equal (insert tk on) IH).
  - rewrite app_nil_r, scanMeta_snoc, IH. by destruct r.
Qed.

Lemma logged_remove hi name t t' r ms s seq :
  logged hi name t r ms s → seq ≤ hi →
  (∀ m, m ∈ t_ring t' ↔ m ∈ t_ring t ∧ m_Seq m ≠ seq) →
  (∀ m, m ∈ t_retracted t' → m ∈ t_retracted t ∧ m_Seq m ≠ seq) →
  t_shown t' = t_shown t → t_ringFloor t' = t_ringFloor t →
  logged hi name t' r ms (Remove name seq s).1 ∧
  ∀ x, x ∈ msg_seqs (file name (Remove name seq s).1) → x ∈ msg_seqs (file name s).
Proof.
  intros [H1 H2 H3 H4 (lo & L1 & L2 & L3) H6 H7 H8 H9 H10] Hseq Hr Hw Es Ef. unfold Remove.
  set (s1 := s{{ fs_purged := _ }}). change (file name s1) with (file name s).
  set (pu := {[seq]} ∪ default ∅ (fs_purged s !! name)).
  assert (fs_purged s1 !! name = Some pu) as Ep.
  { transitivity (<[name := pu]> (fs_purged s) !! name); [done|]. by rewrite lookup_insert_eq. }
  assert (∀ x, x ∈ pu → x ≤ hi) as Hpu by (unfold pu; intros x [->%elem_of_singleton|Hx]%elem_of_union; [done|by apply H9]).
  set (me := scanMeta (file name s)). case_bool_decide as Hin; cbn [fst].
  - set (recs := filter (λ r, of_message seq r = false) (file name s)).
    set (fl := floorLine (me_maxSeq me) (me_lastAt me)).
    assert (file name (write_file name (recs ++ [fl]) s1) = recs ++ [fl]) as Efile.
    { unfold file. transitivity (default [] (<[name := recs ++ [fl]]> (fs_files s1) !! name)); [done|]. by rewrite lookup_insert_eq. }
    destruct (log_filter hi name (file name s) seq H3) as [F1 F2]. fold recs in F1, F2.
    destruct (scan_filter seq (file name s)) as (_ & F3 & F4). fold recs in F3, F4.
    pose proof (scan_filter_members seq (file name s)) as F5. fold recs in F5.
    destruct (log_append_neutral hi hi name recs fl F1) as [G1 G2]; [lia|apply maxSeq_bound, (lo_bound _ _ H3)|done|].
    assert (∀ x, x ∈ msg_seqs (recs ++ [fl]) → x ∈ msg_seqs (file name s)) as G3.
    { intros x. rewrite msg_seqs_app, elem_of_app. intros [Hx|Hx]; [|by apply elem_of_nil in Hx].
      apply elem_of_msg_seqs in Hx as (m & [_ Hm]%list_elem_of_filter & <-). apply elem_of_msg_seqs. eauto. }
    split; [split; rewrite ?Efile, ?scanMeta_snoc|by rewrite Efile].
    + done.
    + by destruct recs.
    + done.
    + change (me_ringFloor (scanMeta recs) = t_ringFloor t'). by rewrite F4, Ef.
    + exists lo. rewrite Ef. split_and!; [done|done|]. intros m. rewrite Hr, G2, F2, L3. tauto.
    + intros m (Hm & Hne)%Hw. apply G2, F2. auto.
    + intros task. change (default 0 (me_shown (scanMeta recs) !! task) = shownMark task t').
      rewrite F3. unfold shownMark. rewrite Es. apply H7.
    + intros task. change (me_members (scanMeta recs) !! task = Some true ↔ task ∈ ms). by rewrite F5.
    + intros x. change (fs_purged (write_file name (recs ++ [fl]) s1)) with (fs_purged s1). rewrite Ep. apply Hpu.
    + intros x Hx. by apply H10, G3.
  - assert (∀ m, log_message name (file name s) m → m_Seq m ≠ seq) as Hne.
    { intros m Hm <-. apply Hin, elem_of_me_msgs. by eapply log_message_seq. }
    split; [|done]. split; change (file name s1) with (file name s); try done.
    + by rewrite Ef.
    + exists lo. rewrite Ef. split_and!; [done|done|]. intros m. rewrite Hr, L3. naive_solver.
    + intros m [Hm _]%Hw. by apply H6.
    + intros task. unfold shownMark. rewrite Es. apply H7.
    + intros x. rewrite Ep. apply Hpu.
Qed.

Lemma logged_retention hi name t r r' ms s :
  logged hi name t r ms s → logged hi name (t{{ t_retention := Some r' }}) r' ms (SetRetention name r' s) ∧
  file name (SetRetention name r' s) = file name s.
Proof.
  intros [H1 H2 H3 H4 H5 H6 H7 H8 H9 H10]. unfold SetRetention, logLocked.
  set (s1 := s{{ fs_ret := _ }}). change (file name s1) with (file name s).
  destruct (file name s) as [|x l] eqn:E; [done|]. split; [|by rewrite <-E].
  split; change (file name s1) with (file name s); rewrite ?E; try done.
  transitivity (<[name := r']> (fs_ret s) !! name); [done|]. by rewrite lookup_insert_eq.
Qed.
(** ** Giving a topic back to memory *)

Lemma mergeNewest_length have add (n : nat) : (length (mergeNewest have add n) ≤ n)%nat.
Proof.
  unfold mergeNewest. set (out := merge_sort _ _). destruct (Nat.ltb_spec n (length out)); [|done]. rewrite length_drop. lia.
Qed.

Lemma sorted_seqs_NoDup (l : list RetainedMessage) : StronglySorted seq_lt l → NoDup (m_Seq <$> l).
Proof.
  induction 1 as [|x l _ IH Hx]; cbn; constructor; [|done]. intros (y & E & Hy)%list_elem_of_fmap.
  rewrite Forall_forall in Hx. specialize (Hx y Hy). red in Hx. lia.
Qed.

Lemma tail_spec hi name ringN s :
  log_ok hi (file name s) → let '(live, wd) := Tail name ringN s in
  (NoDup (m_Seq <$> live) ∧ ∀ m, m ∈ live → log_message name (file name s) m ∧ m_RetractedAt m = 0%Z) ∧
  (NoDup (m_Seq <$> wd) ∧ ∀ m, m ∈ wd → log_message name (file name s) m ∧ m_RetractedAt m ≠ 0%Z).
Proof.
  intros Hok. unfold Tail, split_withdrawn. set (ms := merge_sort _ _).
  assert (NoDup (m_Seq <$> ms)) as Hnd by (unfold ms; rewrite merge_sort_Permutation; by eapply fetch_NoDup).
  assert (∀ m, m ∈ ms → log_message name (file name s) m) as Hin.
  { intros m. unfold ms. rewrite merge_sort_Permutation, elem_of_fetch. tauto. }
  assert (∀ (P : RetainedMessage → Prop) `{!∀ m, Decision (P m)}, NoDup (m_Seq <$> filter P ms)) as Hf.
  { intros P ?. eapply sublist_NoDup; [exact Hnd|]. apply sublist_fmap, sublist_filter. }
  split; (split; [apply Hf|]); intros m [Hz Hm]%list_elem_of_filter; auto.
Qed.

(** A live message of the log carries no withdrawal. *)
Lemma log_live_clean hi name recs m :
  log_ok hi recs → log_message name recs m → m_RetractedAt m = 0%Z → unwithdrawn name m = m.
Proof.
  intros Hok Hm Hz. pose proof (proj1 (log_message_live _ _ _ _ Hok Hm) Hz) as Hw. destruct Hm as (m0 & Hin & ->).
  unfold withdrawn_in, with_retract in *. change (m_Seq (record_message name m0)) with (m_Seq m0) in *.
  destruct (me_retracts (scanMeta recs) !! m_Seq m0) as [[[a b] c]|] eqn:E.
  - change (m_RetractedAt _) with a in Hz. pose proof (lo_stamp _ _ Hok _ _ E). done.
  - destruct (lo_clean _ _ Hok _ Hin) as (E1 & E2 & E3). destruct m0. unfold unwithdrawn, record_message. cbn in *. by subst.
Qed.

Lemma log_topic name recs m : log_message name recs m → m_Topic m = name.
Proof.
  intros (m0 & _ & ->). unfold with_retract. change (m_Seq (record_message name m0)) with (m_Seq m0).
  by destruct (me_retracts _ !! m_Seq m0) as [[[? ?] ?]|].
Qed.

(** A topic whose entries are messages of one log is well formed. *)
Lemma topic_inv_of_log hi ringN name recs t :
  log_ok hi recs → (0 < ringN)%nat → t_name t = name → t_cap t = ringN →
  StronglySorted seq_lt (t_ring t) → (length (t_ring t) ≤ ringN)%nat →
  NoDup (m_Seq <$> t_retracted t) → (length (t_retracted t) ≤ ringN)%nat →
  (∀ m, m ∈ t_ring t → log_message name recs m ∧ m_RetractedAt m = 0%Z) →
  (∀ m, m ∈ t_retracted t → log_message name recs m ∧ m_RetractedAt m ≠ 0%Z) →
  (∀ task k, t_shown t !! task = Some k → k ≤ hi) → (∀ seq, seq ∈ msg_seqs recs → 0 < seq) →
  (t_retention t = None → t_ringFloor t = 0) →
  topic_inv hi ringN name t.
Proof.
  intros Hok Hc En Ec Hs L1 Hnd L2 Hr Hw Hm Hpos Hf.
  assert (∀ m, m ∈ t_ring t ++ t_retracted t → log_message name recs m) as Hall
    by (intros m [Hx|Hx]%elem_of_app; [by apply Hr|by apply Hw]).
  split; [split| | | | | |]; rewrite ?Ec; try done.
  - intros m Hx. apply (log_message_bound hi name recs); [done|by apply Hall].
  - rewrite fmap_app. apply NoDup_app. split_and!; [by apply sorted_seqs_NoDup| |done].
    intros x (m1 & -> & H1)%list_elem_of_fmap (m2 & E & H2)%list_elem_of_fmap.
    destruct (Hr _ H1) as [G1 Z1], (Hw _ H2) as [G2 Z2]. apply Z2. by rewrite <-(log_message_unique hi name recs m1 m2).
  - intros m Hx. by apply Hr.
  - intros m Hx. by apply Hw.
  - intros m Hx. destruct (Hr _ Hx). by eapply log_live_clean.
  - intros m Hx. eapply log_topic. by apply Hw.
  - intros m Hx. apply Hpos. eapply log_message_seq. by apply Hall.
Qed.

(** What [ClearRetain] and the sweep leave in memory, refilled or not. *)
Lemma refill_inv hi ringN name t r ms s t' :
  topic_inv hi ringN name t → logged hi name t r ms s →
  t_name t' = t_name t → t_cap t' = t_cap t → t_shown t' = t_shown t → t_ringFloor t' = 0 →
  (t_ring t' = t_ring t ∧ t_retracted t' = t_retracted t ∨
   t_ring t' = mergeNewest (t_ring t) (Tail name ringN s).1 (t_cap t) ∧
   t_retracted t' = mergeNewest (t_retracted t) (Tail name ringN s).2 (t_cap t)) →
  topic_inv hi ringN name t' ∧
  ∀ seq, seq ∈ m_Seq <$> t_ring t' ++ t_retracted t' → seq ∈ msg_seqs (file name s).
Proof.
  intros [Ho T1 T2 T3 T4 T5 T6] [H1 H2 H3 H4 (lo & L1 & L2 & L3) H6 H7 H8 H9 H10] En Ec Esh Efl Hcase.
  pose proof (tail_spec hi name ringN s H3) as Ht. destruct (Tail name ringN s) as [live wd]. destruct Ht as [[N1 G1] [N2 G2]].
  pose proof Ho as [O1 O2 O3 O4 O5 O6 O7 O8 O9]. rewrite fmap_app, NoDup_app in O6. destruct O6 as (Nr & _ & Nw).
  assert (∀ m, m ∈ t_ring t → log_message name (file name s) m ∧ m_RetractedAt m = 0%Z) as Hring by (intros m Hm%L3; tauto).
  assert (∀ m, m ∈ t_retracted t → log_message name (file name s) m ∧ m_RetractedAt m ≠ 0%Z) as Hwd by (intros m Hm; auto).
  destruct (mergeNewest_spec (t_ring t) live (t_cap t) Nr N1) as (S1 & S2 & _).
  destruct (mergeNewest_spec (t_retracted t) wd (t_cap t) Nw N2) as (W1 & W2 & _).
  assert (StronglySorted seq_lt (t_ring t') ∧ (length (t_ring t') ≤ ringN)%nat ∧
    NoDup (m_Seq <$> t_retracted t') ∧ (length (t_retracted t') ≤ ringN)%nat ∧
    (∀ m, m ∈ t_ring t' → log_message name (file name s) m ∧ m_RetractedAt m = 0%Z) ∧
    (∀ m, m ∈ t_retracted t' → log_message name (file name s) m ∧ m_RetractedAt m ≠ 0%Z)) as (K1 & K2 & K3 & K4 & K5 & K6).
  { rewrite <-T2. destruct Hcase as [[-> ->]|[-> ->]]; [done|]. cbn [fst snd].
    split_and!; [done|apply mergeNewest_length|by apply sorted_seqs_NoDup|apply mergeNewest_length| |].
    - intros m [?|[? _]]%S2; auto.
    - intros m [?|[? _]]%W2; auto. }
  split.
  - eapply (topic_inv_of_log hi ringN name (file name s)); try done; try congruence.
    intros task k. rewrite Esh. apply O9.
  - intros seq (m & -> & Hm)%list_elem_of_fmap. eapply (log_message_seq name).
    apply elem_of_app in Hm as [Hm|Hm]; [by apply K5|by apply K6].
Qed.

(** ** The log of a topic that becomes retained *)

(** A log under construction: the messages on it so far, and no flush. *)
Record staged (hi : N) name (recs : list storeRecord) (have : RetainedMessage → Prop) : Prop := {
  sg_ok : log_ok hi recs;
  sg_msgs x : log_message name recs x ↔ have x;
  sg_retr seq v : me_retracts (scanMeta recs) !! seq = Some v → ∃ x, have x ∧ m_Seq x = seq;
  sg_floor : me_ringFloor (scanMeta recs) = 0;
}.

Lemma staged_fresh hi name recs have m :
  staged hi name recs have → (∀ x, have x → m_Seq x ≠ m_Seq m) →
  m_Seq m ∉ msg_seqs recs ∧ me_retracts (scanMeta recs) !! m_Seq m = None.
Proof.
  intros [H1 H2 H3 H4] Hne. split.
  - intros (m0 & Hm0 & E)%elem_of_msg_seqs.
    set (x := with_retract (scanMeta recs) (record_message name m0)).
    assert (log_message name recs x) as Hx by (by exists m0). apply (Hne x); [by apply H2|]. rewrite <-E.
    unfold x, with_retract. change (m_Seq (record_message name m0)) with (m_Seq m0).
    by destruct (me_retracts _ !! m_Seq m0) as [[[? ?] ?]|].
  - destruct (me_retracts (scanMeta recs) !! m_Seq m) as [v|] eqn:E; [|done].
    destruct (H3 _ _ E) as (x & Hx & Ex). by destruct (Hne x Hx).
Qed.

Lemma staged_msg hi name recs have m :
  staged hi name recs have → m_Seq m ≤ hi → unwithdrawn name m = m → (∀ x, have x → m_Seq x ≠ m_Seq m) →
  staged hi name (recs ++ [msgRecord m]) (λ x, have x ∨ x = m).
Proof.
  intros Hs Hb Hc Hne. destruct (staged_fresh _ _ _ _ _ Hs Hne) as [F1 F2]. destruct Hs as [H1 H2 H3 H4].
  destruct (log_append_msg hi hi name recs m H1) as [G1 G2]; [lia|done|done|done|]. split; [done| | |].
  - intros x. by rewrite G2, H2, Hc.
  - intros seq v. rewrite scan_retracts_other by done. intros (x & Hx & E)%H3. eauto.
  - by rewrite scanMeta_snoc.
Qed.

Lemma staged_wd hi name recs have m :
  staged hi name recs have → m_Seq m ≤ hi → m_Topic m = name → m_RetractedAt m ≠ 0%Z → (∀ x, have x → m_Seq x ≠ m_Seq m) →
  staged hi name (recs ++ [msgRecord m; retractRecord m]) (λ x, have x ∨ x = m).
Proof.
  intros Hs Hb Ht Hat Hne. destruct (staged_fresh _ _ _ _ _ Hs Hne) as [F1 F2]. destruct Hs as [H1 H2 H3 H4].
  destruct (log_append_msg hi hi name recs m H1) as [G1 G2]; [lia|done|done|done|].
  change [msgRecord m; retractRecord m] with ([msgRecord m] ++ [retractRecord m]). rewrite app_assoc.
  destruct (log_append_retract hi name _ (m_Seq m) (m_RetractedAt m) (m_RetractedBy m) (m_RetractedByTask m) G1 Hb Hat) as [K1 K2].
  split; [exact K1| | |].
  - intros x. unfold retractRecord. rewrite K2, G2, H2. split.
    + intros [[[Hx| ->] Hn]|(y & Hy & Ey & ->)]; [by left|done|right]. rewrite G2, H2 in Hy.
      destruct Hy as [Hy| ->]; [by destruct (Hne y Hy)|]. rewrite <-Ht. by destruct m.
    + intros [Hx| ->]; [left; auto|right]. exists (unwithdrawn name m). rewrite G2. split_and!; [by right|done|].
      rewrite <-Ht. by destruct m.
  - intros seq v. rewrite scanMeta_snoc.
    change (<[m_Seq m := (m_RetractedAt m, m_RetractedBy m, m_RetractedByTask m)]> (me_retracts (scanMeta (recs ++ [msgRecord m]))) !! seq
      = Some v → ∃ x, (have x ∨ x = m) ∧ m_Seq x = seq).
    rewrite lookup_insert_Some. intros [[<- _]|[_ E]]; [eauto|]. rewrite scan_retracts_other in E by done.
    destruct (H3 _ _ E) as (x & Hx & Ex). eauto.
  - rewrite !scanMeta_snoc. exact H4.
Qed.

Lemma staged_neutral hi name recs have r :
  staged hi name recs have → neutral r → rec_seq r ≤ hi → me_ringFloor (scanMeta (recs ++ [r])) = me_ringFloor (scanMeta recs) →
  staged hi name (recs ++ [r]) have.
Proof.
  intros [H1 H2 H3 H4] Hn Hb Hf. destruct (log_append_neutral hi hi name recs r H1) as [G1 G2]; [lia|done|done|].
  split; [done| | |by rewrite Hf].
  - intros x. by rewrite G2.
  - intros seq v. rewrite scan_retracts_other by (intros ? ? ? ->; done). apply H3.
Qed.

Lemma staged_ext hi name recs (P Q : RetainedMessage → Prop) : (∀ x, P x ↔ Q x) → staged hi name recs P → staged hi name recs Q.
Proof. intros He [H1 H2 H3 H4]. split; [done| | |done]; [intros x; by rewrite H2|]. intros seq v (x & Hx & E)%H3. exists x. by rewrite <-He. Qed.

(** The two lists of messages. *)
Lemma staged_list hi name (f : RetainedMessage → list storeRecord) (good : RetainedMessage → Prop) l recs have :
  (∀ recs have m, staged hi name recs have → good m → (∀ x, have x → m_Seq x ≠ m_Seq m) →
     staged hi name (recs ++ f m) (λ x, have x ∨ x = m)) →
  staged hi name recs have → NoDup (m_Seq <$> l) → (∀ m, m ∈ l → good m ∧ ∀ x, have x → m_Seq x ≠ m_Seq m) →
  staged hi name (recs ++ flat_map f l) (λ x, have x ∨ x ∈ l).
Proof.
  intros Hf. revert recs have. induction l as [|m l IH]; intros recs have Hs Hnd Hl.
  { cbn. rewrite app_nil_r. eapply staged_ext; [|exact Hs]. intros x. rewrite elem_of_nil. tauto. }
  rewrite fmap_cons, NoDup_cons in Hnd. destruct Hnd as [Hm Hnd]. cbn [flat_map]. rewrite app_assoc.
  destruct (Hl m ltac:(by left)) as [Hg Hh].
  eapply staged_ext; [|apply (IH (recs ++ f m) (λ x, have x ∨ x = m)); [by apply Hf|done|]].
  - intros x. cbn. rewrite elem_of_cons. tauto.
  - intros y Hy. destruct (Hl y ltac:(by right)) as [Hg' Hh']. split; [done|]. intros x [Hx| ->]; [auto|].
    intros E. apply Hm. rewrite E. by apply list_elem_of_fmap_2.
Qed.

Lemma staged_neutrals hi name rs recs have :
  staged hi name recs have →
  (∀ r, r ∈ rs → neutral r ∧ rec_seq r ≤ hi ∧ ∀ recs, me_ringFloor (scanMeta (recs ++ [r])) = me_ringFloor (scanMeta recs)) →
  staged hi name (recs ++ rs) have.
Proof.
  revert recs. induction rs as [|r rs IH]; intros recs Hs Hr; [by rewrite app_nil_r|].
  change (r :: rs) with ([r] ++ rs). rewrite app_assoc. apply IH; [|intros x Hx; apply Hr; by right].
  destruct (Hr r ltac:(by left)) as (? & ? & ?). by apply staged_neutral.
Qed.

(** Delivery marks and members, read back from the last record of each task. *)
Lemma scan_shown_list (l : list (TaskID * N)) recs task :
  NoDup l.*1 →
  me_shown (scanMeta (recs ++ ((λ '(tid, seq), RShown tid seq) <$> l))) !! task =
    match list_to_map (M := gmap TaskID N) l !! task with Some k => Some k | None => me_shown (scanMeta recs) !! task end.
Proof.
  induction l as [|[k v] l IH] using rev_ind; intros Hnd; [by rewrite app_nil_r|].
  rewrite fmap_app, NoDup_app in Hnd. destruct Hnd as (Hnd & Hk & _).
  rewrite fmap_app, app_assoc. cbn [fmap list_fmap]. rewrite scanMeta_snoc.
  specialize (IH Hnd). set (sc := scanMeta _) in *. change (me_shown (meta_step sc (RShown k v))) with (<[k := v]> (me_shown sc)).
  assert (k ∉ l.*1) as Hk' by (intros Hin; apply (Hk k Hin); by left).
  rewrite list_to_map_app. destruct (decide (task = k)) as [->|Hne].
  - rewrite lookup_insert_eq, lookup_union_r by (by apply not_elem_of_list_to_map). cbn. by rewrite lookup_insert_eq.
  - rewrite lookup_insert_ne by done. rewrite IH, lookup_union. cbn. rewrite lookup_insert_ne by done.
    rewrite lookup_empty. by destruct (list_to_map l !! task).
Qed.

Lemma scan_member_list (l : list TaskID) recs task :
  me_members (scanMeta (recs ++ ((λ tid, RMember tid true) <$> l))) !! task = Some true ↔
    task ∈ l ∨ me_members (scanMeta recs) !! task = Some true.
Proof.
  induction l as [|k l IH] using rev_ind; [rewrite app_nil_r, elem_of_nil; tauto|].
  rewrite fmap_app, app_assoc. cbn [fmap list_fmap]. rewrite scanMeta_snoc. set (sc := scanMeta _) in *.
  change (me_members (meta_step sc (RMember k true))) with (<[k := true]> (me_members sc)).
  rewrite lookup_insert_Some, IH, elem_of_app, list_elem_of_singleton. destruct (decide (task = k)) as [->|]; naive_solver.
Qed.

(** The record a call appends. *)
Definition log_call (o : store_op) : option (string * storeRecord) :=
  match o with
  | SAppend name m => Some (name, msgRecord m)
  | SRetract name m => Some (name, retractRecord m)
  | SSetShown name task seq => Some (name, RShown task seq)
  | SSetMember name task on => Some (name, RMember task on)
  | _ => None
  end.

Lemma log_call_apply now name o rec s r :
  log_call o = Some (name, rec) → fs_ret s !! name = Some r → file name s ≠ [] → fs_purged s !! name = None →
  (fs_apply now o s).1 = append_record name rec s ∧ op_topic o = name.
Proof.
  intros E Hr Hf Hp. destruct o as [| | |n' m|n' m| |n' task seq|n' task on|]; try done;
    injection E as -> <-; (split; [|done]); cbn [fs_apply fst]; try done.
  unfold Append. rewrite Hp. by rewrite bool_decide_eq_false_2 by set_solver.
Qed.

Lemma log_calls clock name r os recs k s :
  Forall2 (λ o rec, log_call o = Some (name, rec)) os recs →
  fs_ret s !! name = Some r → file name s ≠ [] → fs_purged s !! name = None →
  let s' := fs_from clock k os s in
  file name s' = file name s ++ recs ∧ fs_ret s' !! name = Some r ∧ fs_purged s' !! name = None ∧
  ∀ n, n ≠ name → agree_at n s s'.
Proof.
  intros Hos. revert k s. induction Hos as [|o rec os recs E _ IH]; intros k s Hr Hf Hp; cbn [fs_from].
  { rewrite app_nil_r. split_and!; try done. }
  destruct (log_call_apply (clock k) name o rec s r E Hr Hf Hp) as [Ea Et].
  pose proof (λ n, fs_apply_other (clock k) o s n) as Hag. rewrite Ea in Hag |- *. rewrite Et in Hag.
  destruct (append_record_open name rec s r Hr Hf) as (Ef & Er & Ep).
  destruct (IH (S k) (append_record name rec s)) as (G1 & G2 & G3 & G4).
  - by rewrite Er.
  - rewrite Ef. by destruct (file name s).
  - by rewrite Ep.
  - rewrite G1, Ef, <-app_assoc. split_and!; try done. intros n Hn. eapply agree_trans; [by apply Hag|by apply G4].
Qed.

(** The records of [retain_calls]. *)
Definition retain_records t (members : list TaskID) : list storeRecord :=
  (flat_map (λ m, [msgRecord m]) (t_ring t)) ++
  flat_map (λ m, [msgRecord m; retractRecord m]) (t_retracted t) ++
  ((λ '(tid, seq), RShown tid seq) <$> map_to_list (t_shown t)) ++
  ((λ tid, RMember tid true) <$> members).

Lemma retain_calls_records name t members :
  Forall2 (λ o rec, log_call o = Some (name, rec)) (retain_calls name t members) (retain_records t members).
Proof.
  unfold retain_calls, retain_records, snapshot, snapshotRetracted, snapshotShown.
  repeat apply Forall2_app.
  - induction (t_ring t) as [|m l IH]; cbn; by constructor.
  - induction (t_retracted t) as [|m l IH]; cbn; repeat constructor; done.
  - induction (map_to_list (t_shown t)) as [|[? ?] l IH]; cbn; by constructor.
  - induction members as [|? l IH]; cbn; by constructor.
Qed.

Lemma staged_retain hi ringN name t members :
  topic_inv hi ringN name t →
  staged hi name (RHdr name :: retain_records t members) (λ x, x ∈ t_ring t ∨ x ∈ t_retracted t).
Proof.
  intros [Ho T1 T2 T3 T4 T5 T6]. pose proof Ho as [O1 O2 O3 O4 O5 O6 O7 O8 O9].
  rewrite fmap_app, NoDup_app in O6. destruct O6 as (Nr & Nx & Nw). unfold retain_records.
  change (RHdr name :: ?l) with ([RHdr name] ++ l). rewrite (app_assoc [RHdr name]), app_assoc.
  apply staged_neutrals; cycle 1.
  { intros r [Hr|Hr]%elem_of_app; apply list_elem_of_fmap in Hr.
    - destruct Hr as ([task k] & -> & Hk%elem_of_map_to_list). split_and!; [done|exact (O9 _ _ Hk)|].
      intros recs. by rewrite scanMeta_snoc.
    - destruct Hr as (task & -> & _). split_and!; [done|cbn; lia|]. intros recs. by rewrite scanMeta_snoc. }
  assert (staged hi name [RHdr name] (λ _, False)) as H0.
  { split; [split| | |done].
    - constructor.
    - intros r ->%list_elem_of_singleton. cbn. lia.
    - done.
    - by intros m ?%list_elem_of_singleton.
    - intros x. split; [|done]. by intros (m0 & ?%list_elem_of_singleton & _).
    - done. }
  eapply staged_ext; [|apply (staged_list hi name (λ m, [msgRecord m; retractRecord m])
    (λ m, m_Seq m ≤ hi ∧ m_Topic m = name ∧ m_RetractedAt m ≠ 0%Z) (t_retracted t) _ (λ x, False ∨ x ∈ t_ring t))].
  - intros x. cbn. tauto.
  - intros recs have m Hs (? & ? & ?) Hne. by apply staged_wd.
  - apply (staged_list hi name (λ m, [msgRecord m]) (λ m, m_Seq m ≤ hi ∧ unwithdrawn name m = m)); [|done|done|].
    + intros recs have m Hs [? ?] Hne. by apply staged_msg.
    + intros m Hm. split; [|done]. split; [apply O5, elem_of_app; by left|by apply T3].
  - done.
  - intros m Hm. split_and!; [apply O5, elem_of_app; by right|by apply T4|by apply O8|]. intros x [[]|Hx] E.
    apply (Nx (m_Seq x)); [by apply list_elem_of_fmap_2|rewrite E; by apply list_elem_of_fmap_2].
Qed.

(** Records that write neither marks nor members. *)
Lemma scan_members_shown (l : list TaskID) recs :
  me_shown (scanMeta (recs ++ ((λ tid, RMember tid true) <$> l))) = me_shown (scanMeta recs).
Proof.
  induction l as [|k l IH] using rev_ind; [by rewrite app_nil_r|].
  rewrite fmap_app, app_assoc. cbn [fmap list_fmap]. rewrite scanMeta_snoc. exact IH.
Qed.

Lemma scan_shown_members (l : list (TaskID * N)) recs :
  me_members (scanMeta (recs ++ ((λ '(tid, seq), RShown tid seq) <$> l))) = me_members (scanMeta recs).
Proof.
  induction l as [|[k v] l IH] using rev_ind; [by rewrite app_nil_r|].
  rewrite fmap_app, app_assoc. cbn [fmap list_fmap]. rewrite scanMeta_snoc. exact IH.
Qed.

Lemma scan_quiet recs :
  Forall (λ r, match r with RShown _ _ | RMember _ _ => False | _ => True end) recs →
  me_shown (scanMeta recs) = ∅ ∧ me_members (scanMeta recs) = ∅.
Proof.
  induction recs as [|r recs IH] using rev_ind; [done|]. rewrite Forall_app, Forall_singleton. intros [Hr Hq].
  rewrite scanMeta_snoc. destruct r; try done; by apply IH.
Qed.

Lemma retain_quiet name (l1 l2 : list RetainedMessage) :
  let recs := (RHdr name :: flat_map (λ m, [msgRecord m]) l1) ++ flat_map (λ m, [msgRecord m; retractRecord m]) l2 in
  me_shown (scanMeta recs) = ∅ ∧ me_members (scanMeta recs) = ∅.
Proof.
  apply scan_quiet, Forall_app. split; [constructor; [done|]|]; apply Forall_flat_map, Forall_forall; intros m _; repeat constructor.
Qed.

(** A topic unknown to the store becomes retained. *)
Lemma logged_retain (clock : nat → Z) (hi : N) (ringN : nat) name t (r : Retention) (ms : gset TaskID) s (k k' : nat) :
  absent name s → topic_inv hi ringN name t → t_retention t = None →
  let s0 := (fs_apply (clock k) (SSetRetention name r) s).1 in
  let s1 := fs_from clock k' (retain_calls name t (elements ms)) s0 in
  logged hi name (t{{ t_retention := Some r }}) r ms s1 ∧
  (∀ seq, seq ∈ msg_seqs (file name s1) → seq ∈ m_Seq <$> t_ring t ++ t_retracted t) ∧
  ∀ n, n ≠ name → agree_at n s s1.
Proof.
  intros (A1 & A2 & A3) Hti Hnone s0 s1.
  assert (file name s0 = [RHdr name] ∧ fs_ret s0 !! name = Some r ∧ fs_purged s0 !! name = None) as (F1 & F2 & F3).
  { unfold s0. cbn [fs_apply fst]. unfold SetRetention, logLocked. set (sr := s{{ fs_ret := _ }}).
    assert (file name sr = []) as -> by (unfold file; change (fs_files sr) with (fs_files s); by rewrite A2).
    split_and!; [|apply lookup_insert_eq|done]. unfold file.
    transitivity (default [] (<[name := [RHdr name]]> (fs_files sr) !! name)); [done|]. by rewrite lookup_insert_eq. }
  destruct (log_calls clock name r _ _ k' s0 (retain_calls_records name t (elements ms)) F2) as (G1 & G2 & G3 & G4);
    [by rewrite F1|done|]. fold s1 in G1, G2, G3, G4. rewrite F1 in G1.
  pose proof (staged_retain hi ringN name t (elements ms) Hti) as [S1 S2 _ S4].
  pose proof Hti as [Ho T1 T2 T3 T4 T5 T6]. specialize (T6 Hnone).
  change ([RHdr name] ++ retain_records t (elements ms)) with (RHdr name :: retain_records t (elements ms)) in G1.
  assert (∀ seq, seq ∈ msg_seqs (RHdr name :: retain_records t (elements ms)) → seq ∈ m_Seq <$> t_ring t ++ t_retracted t) as Hseqs.
  { intros seq (m0 & Hm0 & <-)%elem_of_msg_seqs.
    set (recs := RHdr name :: retain_records t (elements ms)) in *.
    set (x := with_retract (scanMeta recs) (record_message name m0)).
    assert (log_message name recs x) as Hx%S2 by (by exists m0). apply list_elem_of_fmap. exists x. split; [|by apply elem_of_app].
    unfold x, with_retract. change (m_Seq (record_message name m0)) with (m_Seq m0).
    by destruct (me_retracts _ !! m_Seq m0) as [[[? ?] ?]|]. }
  split_and!.
  - split; rewrite ?G1; try done.
    + by rewrite S4, <-T6.
    + exists 0. change (t_ringFloor t ≤ 0 ∧ 0 ≤ hi ∧ ∀ m, m ∈ t_ring t ↔
        log_message name (RHdr name :: retain_records t (elements ms)) m ∧ m_RetractedAt m = 0%Z ∧ 0 < m_Seq m).
      split_and!; [lia|lia|]. intros m. rewrite S2. split.
      * intros Hm. split_and!; [by left|by apply (ok_live _ _ Ho)|apply T5, elem_of_app; by left].
      * intros ([Hm|Hm] & Hz & _); [done|]. by destruct (ok_withdrawn _ _ Ho m Hm).
    + intros m Hm. apply S2. by right.
    + intros task. unfold retain_records. rewrite !app_comm_cons, !app_assoc.
      rewrite (scan_members_shown (elements ms)). rewrite scan_shown_list by apply NoDup_fst_map_to_list.
      rewrite list_to_map_to_list. change (shownMark task (t{{ t_retention := Some r }})) with (shownMark task t).
      unfold shownMark. destruct (t_shown t !! task); [done|]. by rewrite (proj1 (retain_quiet name _ _)).
    + intros task. unfold retain_records. rewrite !app_comm_cons, !app_assoc, scan_member_list, elem_of_elements.
      rewrite scan_shown_members, (proj2 (retain_quiet name _ _)), lookup_empty. split; [by intros [?|?]|by left].
    + intros seq. rewrite G3. cbn. set_solver.
    + intros seq Hs%Hseqs. apply list_elem_of_fmap in Hs as (m & -> & Hm). by apply T5.
  - intros seq. rewrite G1. apply Hseqs.
  - intros n Hn. eapply agree_trans; [|by apply G4]. by apply fs_apply_other.
Qed.

End mirror.
