(* ===== verification/BoardLaws.v ===== *)
(** * The board and its store together

    The invariant of the board of [Board.v] running on the file store of
    [FileStore.v]: every topic is well formed, a seq belongs to one topic, and
    the log of a retained topic holds everything its ring does.  Each operation
    keeps it; a restart then loses no live message of a retained topic. *)

From stdpp Require Import prelude gmap strings list sorting.
From Stdlib Require Import NArith ZArith.
From coqutil Require Import Datatypes.RecordSetters.
From S2P Require Import Prelude GoStrings Caps Wire Topic TaskState BoardReach Board FileStore StoreMirror.

Import DoubleBraceUpdate.
Open Scope N_scope.
Open Scope stdpp_scope.
Set Default Goal Selector "!".

(** ** The invariant *)

Section invariant.
Context (clock : nat → Z) (conf : Config).
Implicit Types (b : Board) (t : topic) (name n : string) (h : list store_op).

#[local] Notation store h := (fs_of clock h).
#[local] Notation apply_at h o := (fs_apply (clock (length h)) o (store h)).1.

(** The members of a topic. *)
Definition mem b name : gset TaskID := default ∅ (b_members b !! name).

(** The seqs a topic answers for, in memory or on disk. *)
Definition owned b name (seq : N) : Prop :=
  ∃ t, b_topics b !! name = Some t ∧
    (seq ∈ m_Seq <$> t_ring t ++ t_retracted t ∨
     retained t = true ∧ ∃ h, b_store b = Some h ∧ seq ∈ msg_seqs (file name (store h))).

Record binv b : Prop := {
  bi_cfg : b_cfg b = conf;
  bi_ringN : (0 < RingN (b_cfg b))%nat;
  bi_topic name t : b_topics b !! name = Some t → topic_inv (b_seq b) (RingN (b_cfg b)) name t;
  bi_logged name t r : b_topics b !! name = Some t → t_retention t = Some r →
    ∃ h, b_store b = Some h ∧ logged (b_seq b) name t r (mem b name) (store h);
  bi_absent name h : b_store b = Some h →
    (∀ t, b_topics b !! name = Some t → t_retention t = None) → absent name (store h);
  bi_own n1 n2 seq : owned b n1 seq → owned b n2 seq → n1 = n2;
  bi_size : (size (b_topics b) ≤ MaxTopics (b_cfg b))%nat;
  bi_store : is_Some (b_store b);
}.

Lemma owned_bound b name seq : binv b → owned b name seq → seq ≤ b_seq b.
Proof.
  intros Hb (t & Ht & [(m & -> & Hm)%list_elem_of_fmap|(Hr & h & Hs & Hin)]).
  - exact (ok_bound _ _ (ti_ok _ _ _ _ (bi_topic _ Hb _ _ Ht)) _ Hm).
  - unfold retained in Hr. apply bool_decide_eq_true in Hr as [r Hr].
    destruct (bi_logged _ Hb _ _ _ Ht Hr) as (h' & Hs' & Hl). rewrite Hs in Hs'. apply (inj Some) in Hs' as <-.
    apply elem_of_msg_seqs in Hin as (m & Hm & <-). exact (lo_bound _ _ (lg_ok _ _ _ _ _ _ Hl) _ Hm).
Qed.

(** The two stores agree away from [name]. *)
Definition stores_agree name (o o' : option (list store_op)) : Prop :=
  match o, o' with
  | Some h, Some h' => ∀ n, n ≠ name → agree_at n (store h) (store h')
  | None, None => True
  | _, _ => False
  end.

(** An operation that changes one topic, and the store at that topic. *)
Lemma binv_update b b' name (ot : option topic) :
  binv b → b_cfg b' = b_cfg b → b_seq b ≤ b_seq b' →
  b_topics b' = partial_alter (λ _, ot) name (b_topics b) →
  stores_agree name (b_store b) (b_store b') →
  (∀ n, n ≠ name → b_members b' !! n = b_members b !! n) →
  (∀ t, ot = Some t → topic_inv (b_seq b') (RingN (b_cfg b)) name t) →
  (∀ t r, ot = Some t → t_retention t = Some r → ∃ h, b_store b' = Some h ∧ logged (b_seq b') name t r (mem b' name) (store h)) →
  ((∀ t, ot = Some t → t_retention t = None) → ∀ h, b_store b' = Some h → absent name (store h)) →
  (∀ seq, owned b' name seq → owned b name seq ∨ b_seq b < seq) →
  (is_Some ot → is_Some (b_topics b !! name) ∨ (size (b_topics b) < MaxTopics (b_cfg b))%nat) →
  binv b'.
Proof.
  intros Hb Ec Hseq Et Hst Hmem Hti Hlg Hab Hown Hroom. pose proof Hb as [H0 H1 H2 H3 H4 H5 H6 H7].
  assert (b_topics b' !! name = ot) as Hname by (rewrite Et; apply lookup_partial_alter_eq).
  assert (∀ n, n ≠ name → b_topics b' !! n = b_topics b !! n) as Hother
    by (intros n Hn; rewrite Et; by apply lookup_partial_alter_ne).
  assert (∀ n seq, n ≠ name → owned b' n seq → owned b n seq) as Howno.
  { intros n seq Hn (t & Ht & Hs). rewrite Hother in Ht by done. exists t. split; [done|].
    destruct Hs as [Hs|(Hr & h' & Eh & Hs)]; [by left|right]. split; [done|]. unfold stores_agree in Hst. rewrite Eh in Hst.
    destruct (b_store b) as [h|]; [|done]. exists h. split; [done|]. by rewrite <-(file_agree _ _ _ (Hst n Hn)). }
  split.
  - by rewrite Ec.
  - by rewrite Ec.
  - intros n t Ht. rewrite Ec. destruct (decide (n = name)) as [->|Hn]; [apply Hti; congruence|].
    rewrite Hother in Ht by done. eapply topic_inv_mono; [exact Hseq|by apply H2].
  - intros n t r Ht Hr. destruct (decide (n = name)) as [->|Hn]; [apply Hlg; congruence|].
    rewrite Hother in Ht by done. destruct (H3 n t r Ht Hr) as (h & Eh & Hl). rewrite Eh in Hst.
    unfold stores_agree in Hst. destruct (b_store b') as [h'|]; [|done]. exists h'. split; [done|].
    eapply logged_mono; [exact Hseq|]. unfold mem. rewrite Hmem by done. eapply logged_agree; [by apply Hst|done].
  - intros n h' Eh Hnr. destruct (decide (n = name)) as [->|Hn].
    + apply Hab; [|done]. intros t E. apply Hnr. congruence.
    + rewrite Eh in Hst. unfold stores_agree in Hst. destruct (b_store b) as [h|] eqn:Es; [|done].
      assert (absent n (store h)) as (A1 & A2 & A3).
      { apply (H4 n h eq_refl). intros t Ht. apply Hnr. by rewrite Hother. }
      destruct (Hst n Hn) as (E1 & E2 & E3). split_and!; congruence.
  - intros n1 n2 seq O1 O2.
    destruct (decide (n1 = name)) as [->|D1], (decide (n2 = name)) as [->|D2]; [done|..].
    + apply Howno in O2; [|done]. destruct (Hown _ O1) as [O1'|Hlt]; [by eapply H5|].
      pose proof (owned_bound _ _ _ Hb O2). lia.
    + apply Howno in O1; [|done]. destruct (Hown _ O2) as [O2'|Hlt]; [by eapply H5|].
      pose proof (owned_bound _ _ _ Hb O1). lia.
    + apply (H5 n1 n2 seq); by apply Howno.
  - rewrite Et, Ec. destruct ot as [t|].
    + change (partial_alter (λ _, Some t) name (b_topics b)) with (<[name := t]> (b_topics b)).
      destruct (b_topics b !! name) as [t0|] eqn:E0.
      * rewrite map_size_insert_Some; [done|by rewrite E0].
      * rewrite map_size_insert_None by done. destruct (Hroom ltac:(done)) as [[? ?]|?]; [done|lia].
    + change (partial_alter (λ _, None) name (b_topics b)) with (delete name (b_topics b)).
      etrans; [|exact H6]. apply map_subseteq_size, delete_subseteq.
  - destruct H7 as [h Eh]. unfold stores_agree in Hst. rewrite Eh in Hst. destruct (b_store b'); [eauto|done].
Qed.

(** Only the task states, the tickets or the calls differ. *)
Definition same_core b b' : Prop :=
  b_cfg b' = b_cfg b ∧ b_seq b' = b_seq b ∧ b_topics b' = b_topics b ∧ b_store b' = b_store b ∧ b_members b' = b_members b.

(** An operation that leaves the topics, the counter and the store alone. *)
Lemma binv_same b b' :
  same_core b b' → binv b → binv b'.
Proof.
  intros (E1 & E2 & E3 & E4 & E5) [H0 H1 H2 H3 H4 H5 H6 H7].
  assert (∀ n seq, owned b' n seq → owned b n seq) as Ho by (intros n seq; unfold owned; by rewrite E3, E4).
  split; unfold mem; rewrite ?E1, ?E2, ?E3, ?E4, ?E5; try done. intros n1 n2 seq O1 O2. by apply (H5 n1 n2 seq); apply Ho.
Qed.


(** A topic that is not retained, before and after; the store is not called. *)
Lemma binv_plain b b' name (ot : option topic) :
  binv b → b_cfg b' = b_cfg b → b_seq b ≤ b_seq b' → b_store b' = b_store b → b_members b' = b_members b →
  b_topics b' = partial_alter (λ _, ot) name (b_topics b) →
  (∀ t, b_topics b !! name = Some t → t_retention t = None) →
  (∀ t, ot = Some t → t_retention t = None ∧ topic_inv (b_seq b') (RingN (b_cfg b)) name t) →
  (∀ t seq, ot = Some t → seq ∈ m_Seq <$> t_ring t ++ t_retracted t → owned b name seq ∨ b_seq b < seq) →
  (is_Some ot → is_Some (b_topics b !! name) ∨ (size (b_topics b) < MaxTopics (b_cfg b))%nat) →
  binv b'.
Proof.
  intros Hb Ec Hseq Est Em Et Hold Hnew Hown Hroom.
  assert (b_topics b' !! name = ot) as Hname by (rewrite Et; apply lookup_partial_alter_eq).
  apply (binv_update b b' name ot); try done.
  - rewrite Est. destruct (b_store b); [|done]. intros n _. apply agree_refl.
  - by rewrite Em.
  - intros t Eo. by apply Hnew.
  - intros t r Eo Hr. destruct (Hnew t Eo) as [Hn _]. congruence.
  - intros _ h Eh. rewrite Est in Eh. exact (bi_absent _ Hb name h Eh Hold).
  - intros seq (t & Ht & Hs). rewrite Hname in Ht. destruct (Hnew t Ht) as [Hn _].
    destruct Hs as [Hs|(Hr & _)]; [by eapply Hown|]. unfold retained in Hr. apply bool_decide_eq_true in Hr as [r Hr]. congruence.
Qed.

Lemma stores_agree_snoc name h o : op_topic o = name → stores_agree name (Some h) (Some (h ++ [o])).
Proof. intros <- n Hn. rewrite fs_of_snoc. by apply fs_apply_other. Qed.

(** A retained topic that stays retained, with one call of the store. *)
Lemma binv_retained b b' name t t' r r' h o :
  binv b → b_cfg b' = b_cfg b → b_seq b ≤ b_seq b' →
  (∀ n, n ≠ name → b_members b' !! n = b_members b !! n) →
  b_topics b !! name = Some t → t_retention t = Some r → t_retention t' = Some r' →
  b_store b = Some h → b_store b' = Some (h ++ [o]) → op_topic o = name →
  b_topics b' = <[name := t']> (b_topics b) →
  topic_inv (b_seq b') (RingN (b_cfg b)) name t' →
  logged (b_seq b') name t' r' (mem b' name) (apply_at h o) →
  (∀ seq, seq ∈ msg_seqs (file name (apply_at h o)) → seq ∈ msg_seqs (file name (store h)) ∨ b_seq b < seq) →
  binv b'.
Proof.
  intros Hb Ec Hseq Em Ht Hr Hr' Es Es' Eo Et Hti Hl Hlog. rewrite <-fs_of_snoc in Hl, Hlog.
  apply (binv_update b b' name (Some t')); try done.
  - rewrite Es, Es'. by apply stores_agree_snoc.
  - by intros ? [= <-].
  - intros ? ? [= <-] E. rewrite Hr' in E. apply (inj Some) in E as <-. eauto.
  - intros Hn. specialize (Hn t' eq_refl). congruence.
  - intros seq (t0 & Ht0 & Hs). rewrite Et, lookup_insert_eq in Ht0. apply (inj Some) in Ht0 as <-.
    assert (seq ∈ msg_seqs (file name (store (h ++ [o])))) as Hin.
    { destruct Hs as [(m & -> & Hm)%list_elem_of_fmap|(_ & h' & Eh & Hs)].
      - apply (log_message_seq name). destruct (lg_ring _ _ _ _ _ _ Hl) as (lo & _ & _ & Hrg).
        apply elem_of_app in Hm as [Hm|Hm]; [exact (proj1 (proj1 (Hrg m) Hm))|by apply (lg_wd _ _ _ _ _ _ Hl)].
      - rewrite Es' in Eh. by apply (inj Some) in Eh as <-. }
    destruct (Hlog seq Hin) as [Hin'|Hlt]; [left|by right]. exists t. split; [done|]. right. split; [|eauto].
    unfold retained. by rewrite Hr, bool_decide_eq_true_2.
  - intros _. left. eauto.
Qed.

(** A retained topic is given up. *)
Lemma binv_dropped b b' name t t' r h :
  binv b → b_cfg b' = b_cfg b → b_seq b' = b_seq b → b_members b' = b_members b →
  b_topics b !! name = Some t → t_retention t = Some r → t_retention t' = None →
  b_store b = Some h → b_store b' = Some (h ++ [SDrop name]) →
  b_topics b' = <[name := t']> (b_topics b) →
  topic_inv (b_seq b) (RingN (b_cfg b)) name t' →
  (∀ seq, seq ∈ m_Seq <$> t_ring t' ++ t_retracted t' → seq ∈ msg_seqs (file name (store h))) →
  binv b'.
Proof.
  intros Hb Ec Eseq Em Ht Hr Hr' Es Es' Et Hti Hlog.
  apply (binv_update b b' name (Some t')); try done.
  - lia.
  - rewrite Es, Es'. by apply stores_agree_snoc.
  - by rewrite Em.
  - intros ? [= <-]. by rewrite Eseq.
  - intros ? ? [= <-] E. congruence.
  - intros _ h' Eh. rewrite Es' in Eh. apply (inj Some) in Eh as <-. rewrite fs_of_snoc. cbn [fs_apply fst].
    split_and!; apply lookup_delete_eq.
  - intros seq (t0 & Ht0 & Hs). rewrite Et, lookup_insert_eq in Ht0. apply (inj Some) in Ht0 as <-.
    destruct Hs as [Hs|(Hret & _)]; cycle 1.
    { unfold retained in Hret. apply bool_decide_eq_true in Hret as [? ?]. congruence. }
    left. exists t. split; [done|]. right. split; [|eauto]. unfold retained. by rewrite Hr, bool_decide_eq_true_2.
  - intros _. left. eauto.
Qed.

(** *** What leaves the topics alone *)

Lemma same_core_refl b : same_core b b.
Proof. done. Qed.
Lemma same_core_trans b1 b2 b3 : same_core b1 b2 → same_core b2 b3 → same_core b1 b3.
Proof. intros (?&?&?&?&?) (?&?&?&?&?). unfold same_core. split_and!; congruence. Qed.

Lemma same_core_foldl {A} (f : Board → A → Board) l b : (∀ b x, same_core b (f b x)) → same_core b (foldl f b l).
Proof.
  intros Hf. revert b. induction l as [|x l IH]; intros b; cbn [foldl]; [done|].
  eapply same_core_trans; [apply Hf|apply IH].
Qed.

Lemma same_core_on_states tid f b : same_core b (on_states tid f b).
Proof. apply same_core_foldl. done. Qed.

Lemma same_core_on_task k f b : same_core b (on_task k f b).
Proof. unfold on_task. by destruct (b_tasks b !! k). Qed.

Lemma same_core_emitWake ts b : same_core b (emitWake ts b).1.
Proof. unfold emitWake. by destruct (b_hook b). Qed.

Lemma same_core_wakes (wake : list taskState) b (n : nat) :
  same_core b (foldl (λ '(b, woken) ts, let '(b', ok) := emitWake ts b in (b', if ok then S woken else woken)) (b, n) wake).1.
Proof.
  revert b n. induction wake as [|ts wake IH]; intros b n; cbn [foldl]; [done|].
  destruct (emitWake ts b) as [b1 ok] eqn:E. eapply same_core_trans; [|apply IH].
  pose proof (same_core_emitWake ts b) as He. by rewrite E in He.
Qed.

Lemma same_core_deliver targets wake b : same_core b (deliver targets wake b).1.
Proof. unfold deliver. eapply same_core_trans; [|apply same_core_wakes]. by apply same_core_foldl. Qed.

Lemma same_core_hand_off name m targets b wake : same_core b (foldl (hand_off name m) (b, wake) targets).1.
Proof.
  revert b wake. induction targets as [|kv targets IH]; intros b wake; cbn [foldl]; [done|].
  unfold hand_off at 2. destruct (handOff name m kv.2) as [ts' took]. eapply same_core_trans; [|apply IH]. done.
Qed.

(** ** Publishing *)

Lemma retained_None t : retained t = false → t_retention t = None.
Proof. unfold retained. intros Hr%bool_decide_eq_false. destruct (t_retention t); [|done]. destruct Hr. eauto. Qed.
Lemma retained_Some t : retained t = true → ∃ r, t_retention t = Some r.
Proof. unfold retained. intros [r Hr]%bool_decide_eq_true. eauto. Qed.

Lemma older_spec l acc n z :
  foldl older acc l = (n, z) → n = acc.1 ∨ ∃ t, (n, t) ∈ l ∧ retained t = false.
Proof.
  revert acc. induction l as [|[k t] l IH]; intros acc E; cbn [foldl] in E; [left; by rewrite E|].
  apply IH in E as [->|(t' & Hin & Hr)]; [|right; exists t'; split; [by right|done]].
  unfold older. destruct acc as [on oz]. destruct (retained (k, t).2) eqn:Er; [by left|].
  destruct (_ || _); [right; exists t; split; [by left|done]|by left].
Qed.

(** What making room keeps: everything but one topic that is not retained. *)
Definition keeps_retained b b' : Prop :=
  b_cfg b' = b_cfg b ∧ b_seq b' = b_seq b ∧ b_store b' = b_store b ∧ b_members b' = b_members b ∧
  (∀ n t, b_topics b !! n = Some t → retained t = true → b_topics b' !! n = Some t).

Lemma binv_delete b name t :
  binv b → b_topics b !! name = Some t → retained t = false →
  binv (delete_topic name b) ∧ keeps_retained b (delete_topic name b).
Proof.
  intros Hb Ht Hr. split.
  - apply (binv_plain b _ name None); try done.
    intros t' Ht'. rewrite Ht in Ht'. apply (inj Some) in Ht' as <-. by apply retained_None.
  - split_and!; try done. intros n t' Ht' Hr'. transitivity (delete name (b_topics b) !! n); [done|].
    rewrite lookup_delete_ne; [done|]. intros ->. congruence.
Qed.

Lemma evictOldest_binv b : binv b → binv (evictOldestTopicLocked b) ∧ keeps_retained b (evictOldestTopicLocked b).
Proof.
  intros Hb. unfold evictOldestTopicLocked. destruct (foldl older _ _) as [n z] eqn:E.
  case_bool_decide as Hn; [done|]. apply older_spec in E as [->|(t & Ht%elem_of_map_to_list & Hr)]; [done|].
  by eapply binv_delete.
Qed.

Lemma topic_inv_new hi ringN name : (0 < ringN)%nat → topic_inv hi ringN name (newTopic name ringN).
Proof. intros Hr. split; try done; [by apply newTopic_ok|..]; intros m Hm; by apply elem_of_nil in Hm. Qed.

Lemma topic_for_binv name b :
  binv b → binv (topic_for name b).1 ∧ keeps_retained b (topic_for name b).1 ∧
    ∀ t, (topic_for name b).2 = Some t → b_topics (topic_for name b).1 !! name = Some t.
Proof.
  intros Hb. unfold topic_for. destruct (b_topics b !! name) as [t|] eqn:E; [by split_and!; [| |intros ? [= <-]]|].
  set (b1 := if (MaxTopics (b_cfg b) <=? size (b_topics b))%nat then evictOldestTopicLocked b else b).
  assert (binv b1 ∧ keeps_retained b b1) as [Hb1 (E1 & E2 & E3 & E4 & E5)]
    by (unfold b1; destruct (_ <=? _)%nat; [by apply evictOldest_binv|done]).
  assert (b_topics b1 !! name = None) as En.
  { unfold b1. destruct (_ <=? _)%nat; [|done]. unfold evictOldestTopicLocked. destruct (foldl older _ _) as [n z].
    case_bool_decide; [done|]. transitivity (delete n (b_topics b) !! name); [done|]. apply lookup_delete_None. by right. }
  destruct (Nat.leb_spec (MaxTopics (b_cfg b1)) (size (b_topics b1))) as [|Hroom]; [done|]. cbn [fst snd].
  assert (∀ n, b_topics (set_topic name (newTopic name (RingN (b_cfg b))) b1) !! n =
    <[name := newTopic name (RingN (b_cfg b))]> (b_topics b1) !! n) as Ent by done.
  split_and!.
  - apply (binv_plain b1 _ name (Some (newTopic name (RingN (b_cfg b))))); try done.
    + rewrite En. done.
    + intros t [= <-]. split; [done|]. rewrite E1. apply topic_inv_new, Hb.
    + intros t seq [= <-] Hs. by apply elem_of_nil in Hs.
    + intros _. by right.
  - split_and!; try done. intros n t Ht Hr. rewrite Ent, lookup_insert_ne; [by apply E5|]. intros ->. congruence.
  - intros t [= <-]. rewrite Ent. apply lookup_insert_eq.
Qed.

(** The topic of a message just published. *)
Lemma topic_inv_append hi ringN name t now seq e cfg l0 :
  topic_inv hi ringN name t → hi < seq → l0 `suffix_of` t_ring t →
  let m := new_message now (t_name t) seq e cfg in
  topic_ok seq (t{{ t_lastPublishedAt := now; t_ring := l0 ++ [m] }}) →
  topic_inv seq ringN name (t{{ t_lastPublishedAt := now; t_ring := l0 ++ [m] }}).
Proof.
  intros [Ho T1 T2 T3 T4 T5 T6] Hlt [pre Hpre] m Hok.
  assert (unwithdrawn name m = m) as Em by (unfold m; rewrite T1; done).
  assert (m_Seq m = seq) as Es by done. clearbody m. split; [done|done|done| |done| |done].
  - intros x [Hx|Hx]%elem_of_app; [apply T3; rewrite Hpre; set_solver|]. by apply list_elem_of_singleton in Hx as ->.
  - intros x Hx. change (x ∈ (l0 ++ [m]) ++ t_retracted t) in Hx.
    assert (x = m ∨ x ∈ t_ring t ++ t_retracted t) as [->|Hx'] by (rewrite Hpre; set_solver); [lia|by apply T5].
Qed.

Context {R : Type} `{!ReachSource R} (reach : option R).

(** A message is written to its topic, and to the store when that is retained. *)
Lemma publish_binv b name t now e cfg :
  binv b → b_topics b !! name = Some t → b_seq b + 1 < 2 ^ 64 →
  let seq := uint64 (b_seq b + 1) in
  ∃ t' m, appendLocked now seq e cfg t = Some (t', m) ∧ seq = b_seq b + 1 ∧ m = new_message now name seq e cfg ∧
    (∃ l0, t_ring t' = l0 ++ [m] ∧ l0 `suffix_of` t_ring t) ∧ t_retention t' = t_retention t ∧
    let b1 := set_topic name t' (b{{ b_seq := seq }}) in
    binv (if retained t then mirror (SAppend name m) b1 else b1).
Proof.
  intros Hb Ht Hov seq. assert (seq = b_seq b + 1) as Eseq by (apply N.mod_small; exact Hov). clearbody seq.
  pose proof (bi_topic _ Hb _ _ Ht) as Hti. pose proof (ti_ok _ _ _ _ Hti) as Hok.
  destruct (appendLocked_ok (b_seq b) t now seq e cfg Hok ltac:(lia)) as (l0 & Ea & Hsuf & Hok').
  assert (t_name t = name) as En by apply Hti.
  eexists _, _. split; [exact Ea|]. split; [done|]. split; [by rewrite En|]. split; [by exists l0|]. split; [done|]. cbn zeta.
  pose proof (topic_inv_append _ _ _ _ now seq e cfg l0 Hti ltac:(lia) Hsuf Hok') as Hti'. cbn zeta in Hti'.
  set (m := new_message now (t_name t) seq e cfg) in *.
  set (t' := t{{ t_lastPublishedAt := now; t_ring := l0 ++ [m] }}) in *.
  destruct (retained t) eqn:Hr.
  - apply retained_Some in Hr as [r Hr]. destruct (bi_logged _ Hb _ _ _ Ht Hr) as (h & Es & Hl).
    apply (binv_retained b _ name t t' r r h (SAppend name m)); try done.
    + change (b_seq b ≤ seq). lia.
    + change (b_store (mirror (SAppend name m) (set_topic name t' (b{{ b_seq := seq }})))) with
        ((λ h0, h0 ++ [SAppend name m]) <$> b_store b). by rewrite Es.
    + destruct Hsuf as [pre Hpre]. apply (logged_append (b_seq b) seq name t r _ (store h) m pre); try done; [lia|].
      unfold m. by rewrite En.
    + intros x Hx. cbn [fs_apply fst] in Hx. unfold Append in Hx.
      rewrite bool_decide_eq_false_2 in Hx by (intros Hp%(lg_purged _ _ _ _ _ _ Hl); change (m_Seq m) with seq in Hp; lia).
      rewrite (proj1 (append_record_open name (msgRecord m) _ r (lg_ret _ _ _ _ _ _ Hl) (lg_open _ _ _ _ _ _ Hl))) in Hx.
      rewrite msg_seqs_app, elem_of_app in Hx. destruct Hx as [Hx|Hx]; [by left|right].
      apply list_elem_of_singleton in Hx as ->. change (b_seq b < seq). lia.
  - apply retained_None in Hr as Hn. apply (binv_plain b _ name (Some t')); try done.
    + change (b_seq b ≤ seq). lia.
    + intros t0 Ht0. rewrite Ht in Ht0. by apply (inj Some) in Ht0 as <-.
    + intros ? [= <-]. done.
    + intros ? x [= <-] (y & -> & Hy)%list_elem_of_fmap. change (y ∈ (l0 ++ [m]) ++ t_retracted t) in Hy.
      destruct Hsuf as [pre Hpre].
      assert (y = m ∨ y ∈ t_ring t ++ t_retracted t) as [->|Hy'] by (rewrite Hpre; set_solver).
      * right. change (b_seq b < seq). lia.
      * left. exists t. split; [done|left]. by apply list_elem_of_fmap_2.
    + intros _. left. eauto.
Qed.

(** The three ways [Send] ends; it does not panic. *)
Lemma Send_cases now name e cfg b :
  binv b → b_seq b + 1 < 2 ^ 64 →
  let b' := (Send reach now name e cfg b).1 in
  binv b' ∧
  ((Send reach now name e cfg b).2 = SendError ErrPayloadTooLarge ∧ b' = b ∧ (MaxPayload (b_cfg b) < length (ev_payload e))%nat ∨
   (Send reach now name e cfg b).2 = SendError ErrTooManyTopics ∧ keeps_retained b b' ∧ topic_for name b = (b', None) ∨
   ∃ b1 t t' m, topic_for name b = (b1, Some t) ∧ m = new_message now name (b_seq b + 1) e (member_route name e cfg b) ∧
     (Send reach now name e cfg b).2 = Sent (b_seq b + 1) (length (send_targets reach name e (member_route name e cfg b) b1)) ∧
     (∃ l0, t_ring t' = l0 ++ [m] ∧ l0 `suffix_of` t_ring t) ∧ t_retention t' = t_retention t ∧
     b_seq b' = b_seq b + 1 ∧ b_topics b' = <[name := t']> (b_topics b1) ∧
     b_store b' = if retained t then (λ h, h ++ [SAppend name m]) <$> b_store b else b_store b).
Proof.
  intros Hb Hov b'. subst b'. unfold Send. destruct (Nat.ltb_spec (MaxPayload (b_cfg b)) (length (ev_payload e))) as [Hp|Hp].
  { split; [done|]. left. done. }
  set (cfg' := member_route name e cfg b).
  destruct (topic_for_binv name b Hb) as (Hb1 & Hk & Hget).
  destruct (topic_for name b) as [b1 [t|]] eqn:Et; cbn [fst snd] in *; cycle 1.
  { split; [done|]. right. left. done. }
  destruct Hk as (Ec & Esq & Est & Em & Hk). specialize (Hget t eq_refl).
  destruct (publish_binv b1 name t now e cfg' Hb1 Hget) as (t' & m & Ea & Eseq & Eqm & Hl0 & Hret & Hb2); [by rewrite Esq|].
  cbn zeta in *. set (seq := uint64 (b_seq b1 + 1)) in *.
  change (b_seq (b1{{ b_seq := seq }})) with seq. rewrite Ea.
  set (b2 := if retained t then _ else _) in *.
  set (targets := send_targets reach name e cfg' b1).
  set (hw := if sc_noWake cfg' then (b2, []) else foldl (hand_off name m) (b2, []) targets).
  assert (same_core b2 hw.1) as Hsc.
  { unfold hw. destruct (sc_noWake cfg'); [done|]. apply same_core_hand_off. }
  destruct hw as [b3 wake] eqn:Ehw. cbn [fst snd] in *.
  pose proof (same_core_trans _ _ _ Hsc (same_core_deliver targets.*2 wake b3)) as (F1 & F2 & F3 & F4 & F5).
  split; [apply (binv_same b2); [done|exact Hb2]|]. right. right. rewrite Esq in Eseq.
  exists b1, t, t', m. split_and!; try done.
  - by rewrite <-Eseq.
  - by rewrite <-Eseq.
  - rewrite F2, <-Eseq. unfold b2. by destruct (retained t).
  - rewrite F3. unfold b2. by destruct (retained t).
  - rewrite F4. unfold b2. destruct (retained t); [|exact Est].
    change (b_store (mirror (SAppend name m) (set_topic name t' (b1{{ b_seq := seq }})))) with
      ((λ h0, h0 ++ [SAppend name m]) <$> b_store b1). by rewrite Est.
Qed.

(** ** Delivering *)

(** Only the marks of a topic change. *)
Lemma topic_inv_shown hi ringN name t t' :
  topic_inv hi ringN name t → t_name t' = t_name t → t_cap t' = t_cap t → t_ring t' = t_ring t →
  t_retracted t' = t_retracted t → t_retention t' = t_retention t → t_ringFloor t' = t_ringFloor t →
  topic_ok hi t' → topic_inv hi ringN name t'.
Proof. intros [Ho T1 T2 T3 T4 T5 T6] E1 E2 E3 E4 E5 E6 Hok. split; rewrite ?E1, ?E2, ?E3, ?E4, ?E5, ?E6; done. Qed.

(** A change of one task's mark, mirrored when it is one. *)
Lemma mark_binv b name t t' task k :
  binv b → b_topics b !! name = Some t → t_name t' = t_name t → t_cap t' = t_cap t → t_ring t' = t_ring t →
  t_retracted t' = t_retracted t → t_retention t' = t_retention t → t_ringFloor t' = t_ringFloor t →
  topic_ok (b_seq b) t' → k ≤ b_seq b →
  (∀ task', shownMark task' t' = if decide (task' = task) then k else shownMark task' t) →
  binv (set_topic name t' (if retained t && negb (shownMark task t =? k) then mirror (SSetShown name task k) b else b)).
Proof.
  intros Hb Ht E1 E2 E3 E4 E5 E6 Hok Hk Hm. pose proof (bi_topic _ Hb _ _ Ht) as Hti.
  pose proof (topic_inv_shown _ _ _ _ t' Hti E1 E2 E3 E4 E5 E6 Hok) as Hti'.
  assert (∀ seq, seq ∈ m_Seq <$> t_ring t' ++ t_retracted t' → owned b name seq) as Hown.
  { intros seq. rewrite E3, E4. intros Hs. exists t. split; [done|by left]. }
  destruct (retained t) eqn:Hr; cbn [andb]; cycle 1.
  { apply retained_None in Hr as Hn. apply (binv_plain b _ name (Some t')); try done.
    - intros t0 Ht0. rewrite Ht in Ht0. by apply (inj Some) in Ht0 as <-.
    - intros ? [= <-]. split; [congruence|done].
    - intros ? seq [= <-] Hs. left. by apply Hown.
    - intros _. left. eauto. }
  pose proof Hr as Hr0. apply retained_Some in Hr as [r Hr]. destruct (bi_logged _ Hb _ _ _ Ht Hr) as (h & Es & Hl).
  destruct (N.eqb_spec (shownMark task t) k) as [E|E]; cbn [negb].
  - apply (binv_update b _ name (Some t')); try done.
    + change (stores_agree name (b_store b) (b_store b)). rewrite Es. intros n _. apply agree_refl.
    + by intros ? [= <-].
    + intros ? r' [= <-] Er. assert (r' = r) as -> by congruence. exists h. split; [done|].
      destruct Hl as [H1 H2 H3 H4 H5 H6 H7 H8 H9 H10]. split; rewrite ?E3, ?E4, ?E6; try done.
      intros task'. rewrite Hm, H7. case_decide; [by subst|done].
    + intros Hn. specialize (Hn t' eq_refl). congruence.
    + intros seq (t0 & Ht0 & Hs). left.
      assert (t0 = t') as ->.
      { transitivity (default t' (<[name := t']> (b_topics b) !! name)); [|by rewrite lookup_insert_eq].
        change (b_topics (set_topic name t' b) !! name) with (<[name := t']> (b_topics b) !! name) in Ht0. by rewrite Ht0. }
      destruct Hs as [Hs|(_ & h' & Eh & Hs)]; [by apply Hown|]. exists t. split; [done|right]. eauto.
    + intros _. left. eauto.
  - apply (binv_retained b _ name t t' r r h (SSetShown name task k)); try done.
    + congruence.
    + change (b_store (set_topic name t' (mirror (SSetShown name task k) b))) with ((λ h0, h0 ++ [SSetShown name task k]) <$> b_store b).
      by rewrite Es.
    + by apply (logged_shown (b_seq b) name t t').
    + intros x Hx. left. by refine (append_no_msg _ _ _ _ _ _ _ _ Hl _ Hx).
Qed.

Lemma advance_binv tid b out name : binv b → binv (advance_topic tid (b, out) name).1.
Proof.
  intros Hb. unfold advance_topic. destruct (b_topics b !! name) as [t|] eqn:Ht; [|done].
  pose proof (ti_ok _ _ _ _ (bi_topic _ Hb _ _ Ht)) as Hok.
  pose proof (takeUnshown_ok (b_seq b) tid t Hok) as Hok'.
  pose proof (takeUnshown_mark tid) as Hmk.
  assert (∀ task', shownMark task' (takeUnshown tid t).1 =
    if decide (task' = tid) then shownMark tid (takeUnshown tid t).1 else shownMark task' t) as Hm.
  { intros task'. case_decide as D; [by subst|]. unfold shownMark. rewrite Hmk.
    destruct (last _); [|done]. by rewrite decide_False. }
  pose proof (mark_binv b name t (takeUnshown tid t).1 tid (shownMark tid (takeUnshown tid t).1) Hb Ht) as G.
  assert (∀ t1, t1 = (takeUnshown tid t).1 → t_name t1 = t_name t ∧ t_cap t1 = t_cap t ∧ t_retention t1 = t_retention t ∧
    t_ringFloor t1 = t_ringFloor t) as Hf by (intros ? ->; unfold takeUnshown; cbn [fst]; by destruct (last _)).
  destruct (Hf _ eq_refl) as (F1 & F2 & F3 & F4).
  specialize (G F1 F2 (takeUnshown_ring tid t) (takeUnshown_retracted tid t) F3 F4 Hok' (shownMark_le _ tid _ Hok') Hm).
  destruct (takeUnshown tid t) as [t' got]. cbn [fst] in *. rewrite N.eqb_sym.
  destruct (retained t && _); exact G.
Qed.

Lemma InboxAdvance_binv k b : binv b → binv (InboxAdvance reach k b).1.
Proof.
  intros Hb. unfold InboxAdvance. destruct (b_tasks b !! k) as [ts|]; [|done].
  generalize (readablePatterns reach ts (snapshotPatterns ts)) as l, (@nil RetainedMessage) as out.
  intros l. revert b Hb. induction l as [|n l IH]; intros b Hb out; cbn [foldl]; [done|].
  pose proof (advance_binv (ts_tid ts) b out n Hb) as G. destruct (advance_topic _ _ _) as [b' out']. by apply IH.
Qed.

(** A loop over the topics that changes the one in hand only. *)
Lemma fold_topics (f : Board → string * topic → Board) b :
  (∀ b name t, binv b → b_topics b !! name = Some t →
     binv (f b (name, t)) ∧ ∀ n, n ≠ name → b_topics (f b (name, t)) !! n = b_topics b !! n) →
  binv b → binv (foldl f b (map_to_list (b_topics b))).
Proof.
  intros Hf Hb. pose proof (NoDup_fst_map_to_list (b_topics b)) as Hnd.
  assert (∀ n t, (n, t) ∈ map_to_list (b_topics b) → b_topics b !! n = Some t) as Hin by (intros n t; apply elem_of_map_to_list).
  revert Hb Hnd Hin. generalize (map_to_list (b_topics b)) as l. intros l. revert b.
  induction l as [|[n t] l IH]; intros b Hb Hnd Hin; cbn [foldl]; [done|].
  rewrite fmap_cons, NoDup_cons in Hnd. destruct Hnd as [Hn Hnd].
  destruct (Hf b n t Hb (Hin n t ltac:(by left))) as [Hb' Ho]. apply IH; [done|done|].
  intros n' t' Hin'. rewrite Ho; [apply Hin; by right|]. intros ->. apply Hn. by apply (list_elem_of_fmap_2 fst) in Hin'.
Qed.

Lemma ForgetShown_binv tid b : binv b → binv (ForgetShown tid b).
Proof.
  apply fold_topics. clear b. intros b name t Hb Ht. split.
  - pose proof (ti_ok _ _ _ _ (bi_topic _ Hb _ _ Ht)) as Hok.
    apply (mark_binv b name t (forgetShown tid t) tid 0); try done.
    + apply (topic_ok_sub (b_seq b) t); [done..|]. intros task k Hk. apply (ok_marks _ _ Hok task).
      change (delete tid (t_shown t) !! task = Some k) in Hk. by apply lookup_delete_Some in Hk as [_ ?].
    + lia.
    + intros task. unfold shownMark. change (t_shown (forgetShown tid t)) with (delete tid (t_shown t)).
      case_decide as D; [subst; by rewrite lookup_delete_eq|]. by rewrite lookup_delete_ne.
  - intros n Hn. transitivity (<[name := forgetShown tid t]> (b_topics b) !! n); [by destruct (retained t && _)|].
    by apply lookup_insert_ne.
Qed.

(** ** Withdrawing *)

(** A topic after one of its messages was withdrawn. *)
Lemma topic_inv_withdraw hi ringN name t seq i m now kind by_ r0 t' :
  topic_inv hi ringN name t → index_seq seq (t_ring t) = Some (i, m) → r0 `suffix_of` t_retracted t →
  t' = t{{ t_ring := delete_at i (t_ring t); t_retracted := r0 ++ [withdrawn m now kind by_] }} →
  topic_ok hi t' → topic_inv hi ringN name t'.
Proof.
  intros [Ho T1 T2 T3 T4 T5 T6] Ei [pre Hpre] -> Hok. pose proof (index_seq_elem _ _ _ _ Ei) as Hm.
  pose proof (delete_at_sublist _ _ _ _ Ei) as Hsub. split; [done|done|done| | | |done].
  - intros x Hx. apply T3. by eapply elem_of_sublist.
  - intros x [Hx| ->%list_elem_of_singleton]%elem_of_app; [apply T4; rewrite Hpre; set_solver|].
    rewrite <-(T3 m Hm). done.
  - intros x [Hx|Hx]%elem_of_app.
    + apply T5, elem_of_app. left. by eapply elem_of_sublist.
    + apply elem_of_app in Hx as [Hx| ->%list_elem_of_singleton].
      * apply T5, elem_of_app. right. rewrite Hpre. set_solver.
      * change (0 < m_Seq m). apply T5, elem_of_app. by left.
Qed.

(** The entry [withdrawnEntry] finds is the one just withdrawn. *)
Lemma withdrawnEntry_new hi t seq m r0 :
  topic_ok hi t → t_retracted t = r0 ++ [m] → m_Seq m = seq → withdrawnEntry seq t = Some m.
Proof.
  intros Hok Er Es. unfold withdrawnEntry. pose proof (ok_once _ _ Hok) as Hnd. rewrite fmap_app, NoDup_app in Hnd.
  destruct Hnd as (_ & _ & Hnd).
  destruct (proj2 (index_seq_elem_iff seq (t_retracted t) m Hnd)) as [i ->]; [|done]. split; [rewrite Er; set_solver|done].
Qed.

Lemma withdraw_binv b name t seq i m now kind by_ :
  binv b → b_topics b !! name = Some t → index_seq seq (t_ring t) = Some (i, m) → (0 < now)%Z →
  ∃ t', withdrawLocked i m now kind by_ t = Some t' ∧ binv (mirrorRetract name t' seq (set_topic name t' b)).
Proof.
  intros Hb Ht Ei Hnow. pose proof (bi_topic _ Hb _ _ Ht) as Hti. pose proof (ti_ok _ _ _ _ Hti) as Hok.
  destruct (withdrawLocked_ok _ t seq i m now kind by_ Hok Hnow Ei) as (r0 & Ew & Hsuf & Hok').
  eexists. split; [exact Ew|]. set (t' := t{{ t_ring := _; t_retracted := _ }}) in *.
  pose proof (topic_inv_withdraw _ _ _ _ _ _ _ now kind by_ r0 t' Hti Ei Hsuf eq_refl Hok') as Hti'.
  pose proof (index_seq_Some _ _ _ _ Ei) as (_ & _ & _ & _ & Es).
  unfold mirrorRetract. change (retained t') with (retained t).
  rewrite (withdrawnEntry_new _ t' seq (withdrawn m now kind by_) r0 Hok' eq_refl Es).
  destruct (retained t) eqn:Hr.
  - apply retained_Some in Hr as [r Hr]. destruct (bi_logged _ Hb _ _ _ Ht Hr) as (h & Eh & Hl).
    apply (binv_retained b _ name t t' r r h (SRetract name (withdrawn m now kind by_))); try done.
    + change (b_store (mirror (SRetract name (withdrawn m now kind by_)) (set_topic name t' b))) with
        ((λ h0, h0 ++ [SRetract name (withdrawn m now kind by_)]) <$> b_store b). by rewrite Eh.
    + apply (logged_retract (b_seq b) name t r _ (store h) seq i m now kind by_ r0 t'); try done.
      by rewrite (ti_cap _ _ _ _ Hti).
    + intros x Hx. left. by refine (append_no_msg _ _ _ _ _ _ _ _ Hl _ Hx).
  - apply retained_None in Hr as Hn. apply (binv_plain b _ name (Some t')); try done.
    + intros t0 Ht0. rewrite Ht in Ht0. by apply (inj Some) in Ht0 as <-.
    + by intros ? [= <-].
    + intros ? x [= <-] (y & -> & Hy)%list_elem_of_fmap. left. exists t. split; [done|left].
      destruct Hsuf as [pre Hpre]. pose proof (delete_at_sublist _ _ _ _ Ei) as Hsub.
      apply elem_of_app in Hy as [Hy|Hy]; [apply list_elem_of_fmap_2, elem_of_app; left; by eapply elem_of_sublist|].
      apply elem_of_app in Hy as [Hy| ->%list_elem_of_singleton].
      * apply list_elem_of_fmap_2, elem_of_app. right. rewrite Hpre. set_solver.
      * change (m_Seq m ∈ m_Seq <$> t_ring t ++ t_retracted t). apply list_elem_of_fmap_2, elem_of_app. left. by eapply index_seq_elem.
    + intros _. left. eauto.
Qed.

Lemma retract_scan_binv seq by_ now l b :
  binv b → (0 < now)%Z → (∀ n t, (n, t) ∈ l → b_topics b !! n = Some t) →
  ∃ b' on, retract_scan seq by_ now l b = Some (b', on) ∧ binv b'.
Proof.
  intros Hb Hnow. induction l as [|[n t] l IH]; intros Hin; cbn [retract_scan]; [eauto|].
  pose proof (Hin n t ltac:(by left)) as Ht. assert (∀ n t, (n, t) ∈ l → b_topics b !! n = Some t) as Hin' by (intros; apply Hin; by right).
  unfold retract. destruct (index_seq seq (t_ring t)) as [[i m]|] eqn:Ei; [|by apply IH].
  case_bool_decide; [|by apply IH].
  destruct (withdraw_binv b n t seq i m now RetractedBy_Author by_ Hb Ht Ei Hnow) as (t' & -> & Hb'). eauto.
Qed.

Lemma retractAsAuthor_binv seq by_ now b :
  binv b → (0 < now)%Z → ∃ b' on, retractAsAuthor seq by_ now b = Some (b', on) ∧ binv b'.
Proof. intros Hb Hnow. apply retract_scan_binv; [done|done|]. intros n t. apply elem_of_map_to_list. Qed.

Lemma ForceRetractSeq_binv name seq by_ now b :
  binv b → (0 < now)%Z → ∃ b' res, ForceRetractSeq name seq by_ now b = Some (b', res) ∧ binv b'.
Proof.
  intros Hb Hnow. unfold ForceRetractSeq. destruct (b_topics b !! name) as [t|] eqn:Ht; [|eauto].
  destruct (seq =? 0); [eauto|]. unfold forceRetract. destruct (index_seq seq (t_ring t)) as [[i m]|] eqn:Ei; [|cbn; eauto].
  destruct (withdraw_binv b name t seq i m now RetractedBy_PurgeCap by_ Hb Ht Ei Hnow) as (t' & -> & Hb'). cbn. eauto.
Qed.

(** ** Destroying *)

Lemma owned_ring b name t seq :
  b_topics b !! name = Some t → seq ∈ m_Seq <$> t_ring t ++ t_retracted t → owned b name seq.
Proof. intros Ht Hs. exists t. split; [done|by left]. Qed.

Lemma lookup_same b name t : b_topics b !! name = Some t → retained t = false → ∀ t', b_topics b !! name = Some t' → t_retention t' = None.
Proof. intros Ht Hr t' Ht'. rewrite Ht in Ht'. apply (inj Some) in Ht' as <-. by apply retained_None. Qed.

Lemma PurgeTopic_binv now name b : binv b → binv (PurgeTopic now name b).1.
Proof.
  intros Hb. unfold PurgeTopic. destruct (b_topics b !! name) as [t|] eqn:Ht; [|done].
  destruct (t_retention t) as [r|] eqn:Hr; cbn [fst]; cycle 1.
  { eapply (binv_delete b name t); [done|done|]. unfold retained. rewrite Hr. by apply bool_decide_eq_false_2; intros []. }
  destruct (bi_logged _ Hb _ _ _ Ht Hr) as (h & Eh & Hl). set (fresh := (newTopic _ _){{ t_retention := _; t_lastPublishedAt := _ }}).
  destruct (logged_truncate _ name t fresh r _ _ (clock (length h)) Hl) as [G1 G2]; try done.
  apply (binv_retained b _ name t fresh r r h (STruncate name)); try done.
  - change (b_store (mirror (STruncate name) (set_topic name fresh b))) with ((λ h0, h0 ++ [STruncate name]) <$> b_store b). by rewrite Eh.
  - pose proof (topic_inv_new (b_seq b) (RingN (b_cfg b)) name (bi_ringN _ Hb)) as [Ho T1 T2 T3 T4 T5 T6].
    split; try done. apply (topic_ok_sub (b_seq b) (newTopic name (RingN (b_cfg b)))); [done..|]. intros task k. apply Ho.
  - intros x Hx. rewrite (G2 : msg_seqs (file name (apply_at h (STruncate name))) = []) in Hx. by apply elem_of_nil in Hx.
Qed.

Lemma removeSeq_spec hi t seq :
  topic_ok hi t → let t' := (removeSeq seq t).1 in
  (∀ m, m ∈ t_ring t' ↔ m ∈ t_ring t ∧ m_Seq m ≠ seq) ∧ (∀ m, m ∈ t_retracted t' ↔ m ∈ t_retracted t ∧ m_Seq m ≠ seq) ∧
  t_name t' = t_name t ∧ t_cap t' = t_cap t ∧ t_shown t' = t_shown t ∧ t_retention t' = t_retention t ∧ t_ringFloor t' = t_ringFloor t.
Proof.
  intros Hok. pose proof (ok_once _ _ Hok) as Hnd. rewrite fmap_app, NoDup_app in Hnd. destruct Hnd as (Nr & Nx & Nw).
  unfold removeSeq. destruct (index_seq seq (t_ring t)) as [[i m]|] eqn:E; cbn [fst].
  { split_and!; try done; intros x.
    - change (x ∈ delete_at i (t_ring t) ↔ x ∈ t_ring t ∧ m_Seq x ≠ seq). rewrite (delete_at_filter seq _ _ _ Nr E), list_elem_of_filter. tauto.
    - change (x ∈ t_retracted t ↔ x ∈ t_retracted t ∧ m_Seq x ≠ seq). split; [|tauto]. intros Hx. split; [done|]. intros Es.
      apply (Nx (m_Seq x)); [|by apply list_elem_of_fmap_2]. rewrite Es.
      pose proof (index_seq_Some _ _ _ _ E) as (?&?&?&?&<-). apply list_elem_of_fmap_2. by eapply index_seq_elem. }
  assert (∀ x, x ∈ t_ring t ↔ x ∈ t_ring t ∧ m_Seq x ≠ seq) as Hr by (intros x; split; [|tauto]; intros Hx; split; [done|by eapply index_seq_None]).
  destruct (index_seq seq (t_retracted t)) as [[i m]|] eqn:E'; cbn [fst]; split_and!; try done; intros x.
  - change (x ∈ delete_at i (t_retracted t) ↔ x ∈ t_retracted t ∧ m_Seq x ≠ seq).
    rewrite (delete_at_filter seq _ _ _ Nw E'), list_elem_of_filter. tauto.
  - split; [|tauto]. intros Hx. split; [done|by eapply index_seq_None].
Qed.

Lemma PurgeSeq_binv disk_bytes name seq b :
  binv b → seq ≤ b_seq b → binv (PurgeSeq (H := file_store clock disk_bytes) name seq b).1.
Proof.
  intros Hb Hseq. unfold PurgeSeq. destruct (b_topics b !! name) as [t|] eqn:Ht; [|done].
  pose proof (bi_topic _ Hb _ _ Ht) as Hti. pose proof (ti_ok _ _ _ _ Hti) as Hok.
  pose proof (removeSeq_spec _ t seq Hok) as (G1 & G2 & G3 & G4 & G5 & G6 & G7).
  pose proof (removeSeq_ok _ t seq Hok) as Hok'. destruct (removeSeq seq t) as [t' removed]. cbn [fst] in *.
  assert (topic_inv (b_seq b) (RingN (b_cfg b)) name t') as Hti'.
  { destruct Hti as [Ho T1 T2 T3 T4 T5 T6]. split; [done|congruence|congruence| | | |by rewrite G6, G7].
    - intros m [Hm _]%G1. by apply T3.
    - intros m [Hm _]%G2. by apply T4.
    - intros m [[Hm _]%G1|[Hm _]%G2]%elem_of_app; apply T5, elem_of_app; auto. }
  destruct (retained t) eqn:Hr; cbn [fst].
  - apply retained_Some in Hr as [r Hr]. destruct (bi_logged _ Hb _ _ _ Ht Hr) as (h & Eh & Hl).
    destruct (logged_remove _ name t t' r _ _ seq Hl Hseq G1) as [K1 K2]; [intros m Hm; by apply G2|done|done|].
    apply (binv_retained b _ name t t' r r h (SRemove name seq)); try done.
    + congruence.
    + change (b_store (mirror (SRemove name seq) (set_topic name t' b))) with ((λ h0, h0 ++ [SRemove name seq]) <$> b_store b). by rewrite Eh.
    + intros x Hx. left. by apply K2.
  - apply (binv_plain b _ name (Some t')); try done.
    + by eapply lookup_same.
    + intros ? [= <-]. split; [|done]. rewrite G6. by apply retained_None.
    + intros ? x [= <-] (m & -> & Hm)%list_elem_of_fmap. left. apply (owned_ring b name t); [done|]. apply list_elem_of_fmap_2, elem_of_app.
      apply elem_of_app in Hm as [[Hm _]%G1|[Hm _]%G2]; auto.
    + intros _. left. eauto.
Qed.

Lemma Revoke_binv rid tid b : binv b → binv (Revoke rid tid b).
Proof.
  intros Hb. unfold Revoke. set (b1 := b{{ b_tickets := _; b_tasks := _ }}).
  assert (binv b1) as Hb1 by (by apply (binv_same b)).
  destruct (b_tasks b !! key_of rid tid) as [ts|]; [|done]. revert Hb1. generalize (snapshotPatterns ts) as l. clearbody b1.
  intros l. revert b1. induction l as [|p l IH]; intros b1 Hb1; cbn [foldl]; [done|]. apply IH. unfold revoke_topic.
  destruct (b_topics b1 !! p) as [t|] eqn:Ht; [|done]. destruct (anyTaskMatchesLocked p b1); [done|].
  destruct (negb (isEmpty t) || retained t) eqn:E; [done|]. apply orb_false_iff in E as [_ Hr].
  by apply (binv_delete b1 p t).
Qed.

(** ** Retention *)

Lemma newestSeq_le hi t : topic_ok hi t → newestSeq t ≤ hi.
Proof.
  intros Hok. unfold newestSeq. pose proof (ok_bound _ _ Hok) as Hb. revert Hb.
  generalize (t_ring t ++ t_retracted t) as l. intros l Hl. assert (0 ≤ hi) as H0 by lia. revert H0. generalize 0 as k.
  induction l as [|m l IH]; intros k Hk; cbn [foldl]; [done|]. apply IH; [intros x Hx; apply Hl; by right|].
  pose proof (Hl m ltac:(by left)). by destruct (k <? m_Seq m).
Qed.

Lemma Flush_binv disk_bytes name b : binv b → binv (Flush (H := file_store clock disk_bytes) name b).1.
Proof.
  intros Hb. unfold Flush. destruct (b_topics b !! name) as [t|] eqn:Ht; [|done].
  destruct (retained t) eqn:Hr; [|done]. cbn [negb]. destruct (newestSeq t =? 0); [done|].
  apply retained_Some in Hr as [r Hr]. destruct (bi_logged _ Hb _ _ _ Ht Hr) as (h & Eh & Hl).
  pose proof (bi_topic _ Hb _ _ Ht) as Hti. pose proof (ti_ok _ _ _ _ Hti) as Hok.
  destruct (logged_flush _ name t r _ _ (newestSeq t) Hl (newestSeq_le _ _ Hok)) as [G1 G2]; [intros m Hm; by apply newestSeq_max|].
  unfold store_call. rewrite Eh. change (bs_ok h (SFlushRing name (newestSeq t))) with (FlushRing name (newestSeq t) (store h)).2.
  rewrite G2. cbn [negb fst]. destruct (dropThrough (newestSeq t) t) as [t1 dropped] eqn:Ed.
  assert (t1 = (dropThrough (newestSeq t) t).1) as Et1 by (by rewrite Ed). cbn [fst]. subst t1. clear Ed.
  set (t' := (dropThrough (newestSeq t) t).1{{ t_ringFloor := _ }}).
  apply (binv_retained b _ name t t' r r h (SFlushRing name (newestSeq t))); try done.
  - change (b_store (set_topic name t' (mirror (SFlushRing name (newestSeq t)) b))) with
      ((λ h0, h0 ++ [SFlushRing name (newestSeq t)]) <$> b_store b). by rewrite Eh.
  - destruct Hti as [Ho T1 T2 T3 T4 T5 T6]. split; try done.
    + apply (topic_ok_sub _ t); [done|done|apply sublist_filter|apply sublist_filter|apply Ho].
    + intros m [_ Hm]%above_elem. by apply T3.
    + intros m [_ Hm]%above_elem. by apply T4.
    + intros m [[_ Hm]%above_elem|[_ Hm]%above_elem]%elem_of_app; apply T5, elem_of_app; auto.
    + intros Hn. change (t_retention t = None) in Hn. congruence.
  - intros x Hx. left. cbn [fs_apply] in Hx. unfold FlushRing in Hx. rewrite (lg_ret _ _ _ _ _ _ Hl) in Hx. cbn [fst] in Hx.
    assert (logLocked name (store h) = store h) as El.
    { unfold logLocked. pose proof (lg_open _ _ _ _ _ _ Hl). by destruct (file name (store h)). }
    rewrite El in Hx. by refine (append_no_msg _ _ _ _ _ _ _ _ Hl _ Hx).
Qed.

Lemma fs_of_app h os : store (h ++ os) = fs_from clock (length h) os (store h).
Proof.
  unfold fs_of. change (length h) with (0 + length h)%nat at 1. generalize (mkFileStore ∅ ∅ ∅) as s, 0%nat as k.
  induction h as [|o h IH]; intros s k; cbn [app fs_from length]; [by rewrite Nat.add_0_r|].
  by rewrite IH, Nat.add_succ_r.
Qed.

(** The calls of [Retain] all succeed on the file store. *)
Lemma store_calls_ok disk_bytes name recs os b h :
  b_store b = Some h → Forall2 (λ o rec, log_call o = Some (name, rec)) os recs →
  store_calls (H := file_store clock disk_bytes) os b = (b{{ b_store := Some (h ++ os) }}, true).
Proof.
  intros Eh Hos. revert b h Eh. induction Hos as [|o rec os recs E _ IH]; intros b h Eh; cbn [store_calls].
  { rewrite app_nil_r, <-Eh. by destruct b. }
  unfold store_call. rewrite Eh.
  assert (bs_ok (BoardStore := file_store clock disk_bytes) h o = true) as -> by (by destruct o).
  rewrite (IH _ (h ++ [o])); [|unfold mirror; by rewrite Eh]. by rewrite <-app_assoc.
Qed.

Lemma Retain_binv disk_bytes name r b : binv b → binv (Retain (H := file_store clock disk_bytes) name r b).1.
Proof.
  intros Hb. unfold Retain. destruct (Retainable name); [|done]. cbn [negb]. destruct (b_store b) as [h|] eqn:Eh; [|done].
  destruct (topic_for_binv name b Hb) as (Hb1 & (_ & _ & Es & _) & Hget).
  destruct (topic_for name b) as [b1 [t|]]; cbn [fst snd] in *; [|done]. specialize (Hget t eq_refl). rewrite Eh in Es.
  pose proof (bi_topic _ Hb1 _ _ Hget) as Hti. set (t' := t{{ t_retention := Some r }}).
  assert (topic_inv (b_seq b1) (RingN (b_cfg b1)) name t') as Hti'.
  { destruct Hti as [Ho T1 T2 T3 T4 T5 T6]. split; try done. by apply (topic_ok_sub _ t); [done..|apply Ho]. }
  unfold store_call. change (b_store (set_topic name t' b1)) with (b_store b1). rewrite Es.
  change (bs_ok h (SSetRetention name r)) with true. cbn [negb]. set (b2 := mirror _ _).
  assert (b_store b2 = Some (h ++ [SSetRetention name r])) as Es2.
  { transitivity ((λ h0, h0 ++ [SSetRetention name r]) <$> b_store b1); [done|]. by rewrite Es. }
  destruct (retained t) eqn:Hr; cbn [fst].
  - apply retained_Some in Hr as [r0 Hr]. destruct (bi_logged _ Hb1 _ _ _ Hget Hr) as (h' & Eh' & Hl).
    rewrite Es in Eh'. apply (inj Some) in Eh' as <-. destruct (logged_retention _ name t r0 r _ _ Hl) as [G1 G2].
    apply (binv_retained b1 _ name t t' r0 r h (SSetRetention name r)); try done.
    intros x Hx. left. by rewrite <-G2.
  - apply retained_None in Hr as Hn.
    rewrite (store_calls_ok disk_bytes name (retain_records t (elements (mem b1 name))) _ _ _ Es2) by exact (retain_calls_records name t _).
    cbn [fst]. set (calls := retain_calls name t' (elements (default ∅ (b_members b1 !! name)))). set (b3 := b2{{ b_store := _ }}).
    assert (absent name (store h)) as Hab by (apply (bi_absent _ Hb1 name h Es); by eapply lookup_same).
    destruct (logged_retain clock _ _ name t r (mem b1 name) _ (length h) (length (h ++ [SSetRetention name r])) Hab Hti Hn)
      as (G1 & G2 & G3). rewrite <-fs_of_snoc, <-fs_of_app in G1, G2, G3.
    apply (binv_update b1 _ name (Some t')); try done.
    + rewrite Es. exact G3.
    + by intros ? [= <-].
    + intros ? r' [= <-] Er. assert (r' = r) as -> by (change (Some r = Some r') in Er; congruence).
      eexists. split; [done|]. exact G1.
    + intros Hx. by specialize (Hx t' eq_refl).
    + intros seq (t0 & Ht0 & Hs). left. apply (owned_ring b1 name t); [done|].
      assert (t0 = t') as ->.
      { change (<[name := t']> (b_topics b1) !! name = Some t0) in Ht0. rewrite lookup_insert_eq in Ht0. by apply (inj Some) in Ht0. }
      destruct Hs as [Hs|(_ & h' & Eh' & Hs)]; [exact Hs|]. apply (inj Some) in Eh' as <-. by apply G2.
    + intros _. left. eauto.
Qed.

(** A retained topic is given up, its ring refilled when it had been flushed. *)
Lemma give_up_binv disk_bytes name t b :
  binv b → b_topics b !! name = Some t → retained t = true →
  ∃ t1 h, (if t_ringFloor t =? 0 then Some t else refillFromLog (H := file_store clock disk_bytes) name t b) = Some t1 ∧
    b_store b = Some h ∧
    ∀ t', t_name t' = t_name t1 → t_cap t' = t_cap t1 → t_shown t' = t_shown t1 → t_ring t' = t_ring t1 →
      t_retracted t' = t_retracted t1 → t_retention t' = None → t_ringFloor t' = 0 →
      binv (mirror (SDrop name) (set_topic name t' b)).
Proof.
  intros Hb Ht [r Hr]%retained_Some. destruct (bi_logged _ Hb _ _ _ Ht Hr) as (h & Eh & Hl).
  pose proof (bi_topic _ Hb _ _ Ht) as Hti.
  set (t1 := if t_ringFloor t =? 0 then t else t{{ t_ring := mergeNewest (t_ring t) (Tail name (RingN (b_cfg b)) (store h)).1 (t_cap t);
               t_retracted := mergeNewest (t_retracted t) (Tail name (RingN (b_cfg b)) (store h)).2 (t_cap t) }}).
  exists t1, h. split_and!; [|done|].
  - unfold t1, refillFromLog. rewrite Eh. destruct (t_ringFloor t =? 0); [done|]. cbn. by destruct (Tail _ _ _).
  - intros t' E1 E2 E3 E4 E5 E6 E7.
    assert (t_name t1 = t_name t ∧ t_cap t1 = t_cap t ∧ t_shown t1 = t_shown t) as (F1 & F2 & F3)
      by (unfold t1; by destruct (t_ringFloor t =? 0)).
    destruct (refill_inv _ _ name t r _ _ t' Hti Hl) as [G1 G2]; try congruence.
    { rewrite E4, E5. unfold t1. destruct (t_ringFloor t =? 0); [by left|by right]. }
    apply (binv_dropped b _ name t t' r h); try done.
    transitivity ((λ h0, h0 ++ [SDrop name]) <$> b_store b); [done|]. by rewrite Eh.
Qed.

Lemma ClearRetain_binv disk_bytes now name b : binv b → binv (ClearRetain (H := file_store clock disk_bytes) now name b).1.
Proof.
  intros Hb. unfold ClearRetain. destruct (b_topics b !! name) as [t|] eqn:Ht; [|done].
  destruct (retained t) eqn:Hr; [|done]. cbn [negb]. destruct (give_up_binv disk_bytes name t b Hb Ht Hr) as (t1 & h & -> & Eh & G).
  set (t' := t1{{ t_retention := _; t_ringFloor := _; t_lastPublishedAt := _ }}).
  specialize (G t' eq_refl eq_refl eq_refl eq_refl eq_refl eq_refl eq_refl).
  unfold store_call. change (b_store (set_topic name t' b)) with (b_store b). rewrite Eh. exact G.
Qed.

Lemma evict_binv disk_bytes now b name t :
  binv b → b_topics b !! name = Some t →
  let b' := evict_topic (H := file_store clock disk_bytes) now b (name, t) in
  binv b' ∧ ∀ n, n ≠ name → b_topics b' !! n = b_topics b !! n.
Proof.
  intros Hb Ht b'. subst b'. unfold evict_topic. destruct (t_retention t) as [r|] eqn:Hr.
  - destruct (ExpiresAt r (lastPublished t)) as [at_|]; [|done]. destruct (at_ <? now)%Z; [|done].
    assert (retained t = true) as Hret by (unfold retained; by rewrite Hr, bool_decide_eq_true_2).
    destruct (give_up_binv disk_bytes name t b Hb Ht Hret) as (t1 & h & -> & Eh & G). split; [by apply G|].
    intros n Hn. set (t' := t1{{ t_retention := _; t_ringFloor := _ }}).
    transitivity (<[name := t']> (b_topics b) !! n); [done|]. by apply lookup_insert_ne.
  - destruct (_ <? _)%Z; [|done]. assert (retained t = false) as Hret.
    { unfold retained. rewrite Hr. by apply bool_decide_eq_false_2; intros []. }
    split; [by eapply binv_delete|]. intros n Hn. transitivity (delete name (b_topics b) !! n); [done|]. by apply lookup_delete_ne.
Qed.

Lemma evictExpired_binv disk_bytes now b : binv b → binv (evictExpiredTopics (H := file_store clock disk_bytes) now b).
Proof. apply fold_topics. intros b' name t. apply evict_binv. Qed.

(** ** Membership *)

(** A change of the members of [name], mirrored when the topic is retained. *)
Lemma members_binv b b' name tid on :
  binv b → b_cfg b' = b_cfg b → b_seq b' = b_seq b → b_topics b' = b_topics b →
  (∀ n, n ≠ name → b_members b' !! n = b_members b !! n) →
  (∀ task, task ∈ mem b' name ↔ if decide (task = tid) then on = true else task ∈ mem b name) →
  b_store b' = (if retainedStoreLocked name b then (λ h, h ++ [SSetMember name tid on]) <$> b_store b else b_store b) →
  binv b'.
Proof.
  intros Hb Ec Es Et Hm Hms Est. unfold retainedStoreLocked in Est. destruct (b_topics b !! name) as [t|] eqn:Ht.
  2: { apply (binv_update b b' name None); try done; [lia| | | | ].
    - rewrite Et. symmetry. rewrite <-Ht. apply partial_alter_self.
    - rewrite Est. destruct (b_store b); [|done]. intros n _. apply agree_refl.
    - intros _ h Eh. rewrite Est in Eh. apply (bi_absent _ Hb name h Eh). by rewrite Ht.
    - intros seq (t & Ht' & _). rewrite Et in Ht'. congruence. }
  destruct (retained t) eqn:Hr; cbn [andb] in Est.
  - apply retained_Some in Hr as [r Hr]. destruct (bi_logged _ Hb _ _ _ Ht Hr) as (h & Eh & Hl).
    rewrite Eh, bool_decide_eq_true_2 in Est by done.
    apply (binv_retained b b' name t t r r h (SSetMember name tid on)); try done.
    + lia.
    + by rewrite Et, insert_id.
    + rewrite Es. by apply bi_topic.
    + rewrite Es. by apply (logged_member _ name t r (mem b name)).
    + intros x Hx. left. by refine (append_no_msg _ _ _ _ _ _ _ _ Hl _ Hx).
  - apply retained_None in Hr as Hn. apply (binv_update b b' name (Some t)); try done; [lia| | | | | | |intros _; left; eauto].
    + rewrite Et. symmetry. rewrite <-Ht. apply partial_alter_self.
    + rewrite Est. destruct (b_store b); [|done]. intros n _. apply agree_refl.
    + intros ? [= <-]. rewrite Es. by apply bi_topic.
    + intros ? ? [= <-] E. congruence.
    + intros _ h Eh. rewrite Est in Eh. apply (bi_absent _ Hb name h Eh). by eapply lookup_same.
    + intros seq (t0 & Ht0 & Hs). rewrite Et in Ht0. left. exists t0. split; [done|]. destruct Hs as [Hs|(Hx & _)]; [by left|].
      apply retained_Some in Hx as [? ?]. rewrite Ht in Ht0. apply (inj Some) in Ht0 as <-. congruence.
Qed.

Lemma Join_binv tid name b : binv b → binv (Join reach tid name b).1.
Proof.
  intros Hb. unfold Join. destruct (joinable_at reach tid name); [|done]. cbn [negb fst].
  set (b1 := b{{ b_members := addMemberLocked name tid (b_members b) }}).
  destruct (same_core_on_states tid (addPattern name) b1) as (E1 & E2 & E3 & E4 & E5). set (b2 := on_states _ _ _) in *.
  apply (members_binv b _ name tid true); try done.
  - by destruct (retainedStoreLocked _ _).
  - by destruct (retainedStoreLocked _ _).
  - by destruct (retainedStoreLocked _ _).
  - intros n Hn. transitivity (b_members b2 !! n); [by destruct (retainedStoreLocked _ _)|]. rewrite E5. by apply lookup_insert_ne.
  - intros task. assert (mem (if retainedStoreLocked name b1 then mirror (SSetMember name tid true) b2 else b2) name = mem b2 name) as ->
      by (by destruct (retainedStoreLocked _ _)).
    unfold mem. rewrite E5. assert (b_members b1 !! name = Some ({[tid]} ∪ mem b name)) as -> by apply lookup_insert_eq.
    cbn. fold (mem b name). case_decide; set_solver.
  - change (retainedStoreLocked name b1) with (retainedStoreLocked name b). destruct (retainedStoreLocked name b); [|exact E4].
    transitivity ((λ h, h ++ [SSetMember name tid true]) <$> b_store b2); [done|]. by rewrite E4.
Qed.

Lemma drop_members name tid (ms ms' : memberships) was :
  dropMemberLocked name tid ms = (ms', was) →
  (was = false ∧ ms' = ms) ∨
  (was = true ∧ (∀ n, n ≠ name → ms' !! n = ms !! n) ∧ default ∅ (ms' !! name) = default ∅ (ms !! name) ∖ {[tid]}).
Proof.
  unfold dropMemberLocked. destruct (ms !! name) as [s|] eqn:E; [|intros [= <- <-]; by left].
  case_bool_decide; [|intros [= <- <-]; by left]. intros [= <- <-]. right. split; [done|]. case_bool_decide as D.
  - split; [intros n Hn; by apply lookup_delete_ne|].
    assert ((delete name ms : memberships) !! name = None) as -> by apply lookup_delete_eq. exact (eq_sym D).
  - split; [intros n Hn; by apply lookup_insert_ne|].
    assert ((<[name := s ∖ {[tid]}]> ms : memberships) !! name = Some (s ∖ {[tid]})) as -> by apply lookup_insert_eq. done.
Qed.

Lemma Leave_binv tid name b : binv b → binv (Leave tid name b).
Proof.
  intros Hb. unfold Leave. destruct (dropMemberLocked name tid (b_members b)) as [ms' was] eqn:Ed.
  set (b1 := b{{ b_members := ms' }}).
  destruct (same_core_on_states tid (removePattern name) b1) as (E1 & E2 & E3 & E4 & E5). set (b2 := on_states _ _ _) in *.
  change (retainedStoreLocked name b1) with (retainedStoreLocked name b).
  destruct (drop_members _ _ _ _ _ Ed) as [[-> ->]|(-> & Hother & Hname)]; cbn [andb].
  { apply (binv_same b); [|done]. by split_and!. }
  apply (members_binv b _ name tid false); try done.
  - by destruct (retainedStoreLocked _ _).
  - by destruct (retainedStoreLocked _ _).
  - by destruct (retainedStoreLocked _ _).
  - intros n Hn. transitivity (b_members b2 !! n); [by destruct (retainedStoreLocked _ _)|]. rewrite E5. by apply Hother.
  - intros task. assert (mem (if retainedStoreLocked name b then mirror (SSetMember name tid false) b2 else b2) name = mem b2 name) as ->
      by (by destruct (retainedStoreLocked _ _)).
    unfold mem. rewrite E5. change (b_members b1) with ms'. rewrite Hname. case_decide; set_solver.
  - destruct (retainedStoreLocked name b); [|exact E4].
    transitivity ((λ h, h ++ [SSetMember name tid false]) <$> b_store b2); [done|]. by rewrite E4.
Qed.

(** ** Any sequence of operations *)

Inductive board_op :=
  | BRegisterTask (rid : list N) (tid : TaskID) (ticket : list N) (profile : string)
  | BAttach (c : nat) (rid : list N) (tid : TaskID) (host profile : string)
  | BDetach (k : ticketKey) (c : nat)
  | BRevoke (rid : list N) (tid : TaskID)
  | BForgetShown (tid : TaskID)
  | BJoin (tid : TaskID) (name : string)
  | BLeave (tid : TaskID) (name : string)
  | BSubscribe (k : ticketKey) (pattern : string)
  | BUnsubscribe (k : ticketKey) (pattern : string)
  | BSubscribeTask (tid : TaskID) (name : string)
  | BUnsubscribeTask (tid : TaskID) (name : string)
  | BSend (now : Z) (name : string) (e : envelope) (cfg : sendConfig)
  | BWake (name : string)
  | BInboxAdvance (k : ticketKey)
  | BWaitBegin (k : ticketKey) (name : string) (sinceSeq inReplyTo : N)
  | BWaitEnd (k : ticketKey) (name : string) (h : nat) (took : list RetainedMessage)
  | BRetractSeq (seq : N) (by_ : TaskID) (now : Z)
  | BRetireSeq (seq : N) (author : TaskID) (now : Z)
  | BForceRetractSeq (name : string) (seq : N) (by_ : TaskID) (now : Z)
  | BPurgeTopic (now : Z) (name : string)
  | BPurgeSeq (name : string) (seq : N)
  | BRetain (name : string) (r : Retention)
  | BClearRetain (now : Z) (name : string)
  | BEvictExpired (now : Z)
  | BFlush (name : string)
  | BNoteDelivered (k : ticketKey) (msgs : list RetainedMessage)
  | BClearContacts (tid : TaskID) (route : string).

Context (disk_bytes : list storeRecord → Z).
#[local] Instance disk : BoardStore := file_store clock disk_bytes.

(** [None] is a panic. *)
Definition board_step (o : board_op) b : option Board :=
  match o with
  | BRegisterTask rid tid ticket profile => Some (RegisterTask rid tid ticket profile b)
  | BAttach c rid tid host profile => Some (Attach c rid tid host profile b)
  | BDetach k c => Some (Detach k c b)
  | BRevoke rid tid => Some (Revoke rid tid b)
  | BForgetShown tid => Some (ForgetShown tid b)
  | BJoin tid name => Some (Join reach tid name b).1
  | BLeave tid name => Some (Leave tid name b)
  | BSubscribe k pattern => Some (Subscribe reach k pattern b).1
  | BUnsubscribe k pattern => Some (Unsubscribe k pattern b)
  | BSubscribeTask tid name => Some (SubscribeTask reach tid name b).1
  | BUnsubscribeTask tid name => Some (UnsubscribeTask tid name b)
  | BSend now name e cfg => let '(b', r) := Send reach now name e cfg b in if r is SendPanic then None else Some b'
  | BWake name => Some (Wake reach name b).1
  | BInboxAdvance k => Some (InboxAdvance reach k b).1
  | BWaitBegin k name sinceSeq inReplyTo => Some (Wait_begin reach k name sinceSeq inReplyTo b).1
  | BWaitEnd k name h took => Some (Wait_end k name h took b)
  | BRetractSeq seq by_ now => fst <$> RetractSeq seq by_ now b
  | BRetireSeq seq author now => fst <$> RetireSeq seq author now b
  | BForceRetractSeq name seq by_ now => fst <$> ForceRetractSeq name seq by_ now b
  | BPurgeTopic now name => Some (PurgeTopic now name b).1
  | BPurgeSeq name seq => Some (PurgeSeq name seq b).1
  | BRetain name r => Some (Retain name r b).1
  | BClearRetain now name => Some (ClearRetain now name b).1
  | BEvictExpired now => Some (evictExpiredTopics now b)
  | BFlush name => Some (Flush name b).1
  | BNoteDelivered k msgs => Some (NoteDelivered k msgs b)
  | BClearContacts tid route => Some (ClearContacts tid route b).1
  end.

(** The counter does not wrap, a withdrawal has a time, and a purge names a seq
    the board has issued. *)
Definition op_ok (o : board_op) b : Prop :=
  match o with
  | BSend _ _ _ _ => b_seq b + 1 < 2 ^ 64
  | BRetractSeq _ _ now | BRetireSeq _ _ now | BForceRetractSeq _ _ _ now => (0 < now)%Z
  | BPurgeSeq _ seq => seq ≤ b_seq b
  | _ => True
  end.

Lemma step_binv o b : binv b → op_ok o b → ∃ b', board_step o b = Some b' ∧ binv b'.
Proof.
  intros Hb Ho. assert (∀ b', same_core b b' → ∃ b1, Some b' = Some b1 ∧ binv b1) as Same
    by (intros b' Hs; exists b'; split; [done|by apply (binv_same b)]).
  destruct o; cbn [board_step op_ok] in *.
  - by apply Same.
  - by apply Same.
  - apply Same, same_core_on_task.
  - eexists; split; [done|]. by apply Revoke_binv.
  - eexists; split; [done|]. by apply ForgetShown_binv.
  - eexists; split; [done|]. by apply Join_binv.
  - eexists; split; [done|]. by apply Leave_binv.
  - apply Same. unfold Subscribe. case_bool_decide; [done|]. destruct (b_tasks b !! k); [|done].
    case_bool_decide; [done|]. by destruct (readableTopic reach _ _).
  - unfold Unsubscribe. destruct (b_tasks b !! k) as [ts|]; [|by apply Same]. eexists; split; [done|].
    set (b1 := if isMemberLocked _ _ _ then _ else _).
    assert (binv b1) as Hb1 by (unfold b1; destruct (isMemberLocked _ _ _); [by apply Leave_binv|done]).
    apply (binv_same b1); [apply same_core_on_task|done].
  - apply Same. unfold SubscribeTask. do 2 (case_bool_decide; [done|]).
    destruct (match reach with Some _ => _ | None => _ end); [done|]. destruct (statesOf tid b); [done|]. apply same_core_on_states.
  - unfold UnsubscribeTask. destruct (isMemberLocked _ _ _); [eexists; split; [done|by apply Leave_binv]|].
    apply Same, same_core_on_states.
  - destruct (Send_cases now name e cfg b Hb Ho) as [Hb' Hc]. destruct (Send reach now name e cfg b) as [b' r]. cbn [fst snd] in *.
    exists b'. split; [|done]. destruct Hc as [(-> & _)|[(-> & _)|(? & ? & ? & ? & _ & _ & -> & _)]]; done.
  - apply Same, same_core_deliver.
  - eexists; split; [done|]. by apply InboxAdvance_binv.
  - apply Same. unfold Wait_begin. destruct (b_tasks b !! k); [|done]. destruct (readableTopic reach _ _); [|done].
    cbn [negb]. by destruct (beginWait _ _ _ _).
  - apply Same. unfold Wait_end. destruct (b_tasks b !! k); [|done]. destruct (endWait _ _ _ _) as [ts' due].
    destruct due; [|done]. eapply same_core_trans; [|apply same_core_emitWake]. done.
  - unfold RetractSeq. destruct (_ || _); [by apply Same|].
    destruct (retractAsAuthor_binv seq by_ now b Hb Ho) as (b' & on & -> & Hb'). cbn. eauto.
  - unfold RetireSeq. destruct (_ =? _); [by apply Same|].
    destruct (retractAsAuthor_binv seq author now b Hb Ho) as (b' & on & -> & Hb'). cbn. eauto.
  - destruct (ForceRetractSeq_binv name seq by_ now b Hb Ho) as (b' & res & -> & Hb'). cbn. eauto.
  - eexists; split; [done|]. by apply PurgeTopic_binv.
  - eexists; split; [done|]. by apply PurgeSeq_binv.
  - eexists; split; [done|]. by apply Retain_binv.
  - eexists; split; [done|]. by apply ClearRetain_binv.
  - eexists; split; [done|]. by apply evictExpired_binv.
  - eexists; split; [done|]. by apply Flush_binv.
  - apply Same, same_core_on_task.
  - apply Same. unfold ClearContacts. cbn [fst]. apply same_core_on_states.
Qed.
End invariant.
