(* ===== verification/BoardSpec.v ===== *)
(** * What the board promises

    Theorems about any sequence of board operations on the file store: bounds, the
    lookups by seq, publishing, withdrawing, and that a restart from the log gives
    back every retained topic.  At the end, two sequences of calls after which a
    message is missing from the log. *)

From stdpp Require Import prelude gmap strings list sorting.
From Stdlib Require Import NArith ZArith.
From coqutil Require Import Datatypes.RecordSetters.
From S2P Require Import Prelude GoStrings Caps Wire Topic TaskState BoardReach Board FileStore StoreMirror BoardLaws.

Import DoubleBraceUpdate.
Open Scope N_scope.
Open Scope stdpp_scope.
Set Default Goal Selector "!".

(** ** Loading a store into a new board *)

Section attach.
Implicit Types (b : Board) (st : StoredTopic).

Lemma add_members name (l : list TaskID) (ms : memberships) :
  let ms' := foldl (λ ms tid, addMemberLocked name tid ms) ms l in
  (∀ n, n ≠ name → ms' !! n = ms !! n) ∧
  ∀ task, task ∈ (default ∅ (ms' !! name) : gset TaskID) ↔ task ∈ l ∨ task ∈ (default ∅ (ms !! name) : gset TaskID).
Proof.
  cbn zeta. revert ms. induction l as [|x l IH]; intros ms; cbn [foldl].
  { split; [done|]. intros task. rewrite elem_of_nil. tauto. }
  destruct (IH (addMemberLocked name x ms)) as [H1 H2]. split.
  - intros n Hn. rewrite H1 by done. by apply lookup_insert_ne.
  - intros task. rewrite H2. assert (addMemberLocked name x ms !! name = Some ({[x]} ∪ default ∅ (ms !! name))) as ->
      by apply lookup_insert_eq. cbn [default from_option id]. rewrite elem_of_cons, elem_of_union, elem_of_singleton. tauto.
Qed.

(** One turn of the loop of [AttachStore]. *)
Definition attach_one b st : Board :=
  set_topic (st_Name st) (load_topic (RingN (b_cfg b)) st)
    (b{{ b_members := foldl (λ ms tid, addMemberLocked (st_Name st) tid ms) (b_members b) (st_Members st) }}).

Lemma attach_fold (stored : list StoredTopic) b :
  NoDup (st_Name <$> stored) →
  let b' := foldl attach_one b stored in
  b_seq b' = b_seq b ∧
  (∀ st, st ∈ stored → b_topics b' !! st_Name st = Some (load_topic (RingN (b_cfg b)) st) ∧
     ∀ task, task ∈ mem b' (st_Name st) ↔ task ∈ st_Members st ∨ task ∈ mem b (st_Name st)) ∧
  (∀ n, n ∉ st_Name <$> stored → b_topics b' !! n = b_topics b !! n ∧ b_members b' !! n = b_members b !! n).
Proof.
  cbn zeta. revert b. induction stored as [|st l IH]; intros b Hnd; cbn [foldl].
  { split_and!; [done| |done]. intros st Hst. by apply elem_of_nil in Hst. }
  rewrite fmap_cons, NoDup_cons in Hnd. destruct Hnd as [Hst Hnd].
  destruct (IH (attach_one b st) Hnd) as (E & H1 & H2).
  destruct (add_members (st_Name st) (st_Members st) (b_members b)) as [M1 M2].
  assert (∀ n, n ≠ st_Name st → b_topics (attach_one b st) !! n = b_topics b !! n ∧ b_members (attach_one b st) !! n = b_members b !! n) as Ho.
  { intros n Hn. split; [by apply lookup_insert_ne|by apply M1]. }
  split_and!; [done| |].
  - intros x [->|Hx]%elem_of_cons.
    + destruct (H2 (st_Name st) Hst) as [E1 E2]. split.
      * rewrite E1. apply lookup_insert_eq.
      * intros task. unfold mem. rewrite E2. exact (M2 task).
    + destruct (H1 x Hx) as [E1 E2]. split; [done|]. intros task. rewrite E2. unfold mem.
      assert (st_Name x ≠ st_Name st) as Hne by (intros Ex; apply Hst; rewrite <-Ex; by apply list_elem_of_fmap_2).
      by destruct (Ho _ Hne) as [_ ->].
  - intros n Hn. rewrite fmap_cons, not_elem_of_cons in Hn. destruct Hn as [Hne Hn]. destruct (H2 n Hn) as [-> ->]. by apply Ho.
Qed.

Lemma foldl_max l k : k ≤ foldl N.max k l ∧ ∀ x, x ∈ l → x ≤ foldl N.max k l.
Proof.
  revert k. induction l as [|y l IH]; intros k; cbn [foldl]; [split; [done|by intros x ?%elem_of_nil]|].
  destruct (IH (N.max k y)) as [H1 H2]. split; [lia|]. intros x [->|Hx]%elem_of_cons; [lia|by apply H2].
Qed.

Lemma AttachStore_spec (stored : list StoredTopic) (archived : list N) b :
  NoDup (st_Name <$> stored) → b_topics b = ∅ → b_members b = ∅ →
  let b' := AttachStore stored archived b in
  (∀ st, st ∈ stored → b_topics b' !! st_Name st = Some (load_topic (RingN (b_cfg b)) st) ∧
     (∀ task, task ∈ mem b' (st_Name st) ↔ task ∈ st_Members st) ∧ st_MaxSeq st ≤ b_seq b') ∧
  (∀ n, n ∉ st_Name <$> stored → b_topics b' !! n = None) ∧ b_seq b ≤ b_seq b' ∧ ∀ seq, seq ∈ archived → seq ≤ b_seq b'.
Proof.
  intros Hnd Et Em b'. subst b'. unfold AttachStore.
  set (b0 := b{{ b_store := Some [] }}). change (foldl _ b0 stored) with (foldl attach_one b0 stored).
  destruct (attach_fold stored b0 Hnd) as (E & H1 & H2). set (b1 := foldl attach_one b0 stored) in *.
  destruct (foldl_max ((st_MaxSeq <$> stored) ++ archived) 0) as [_ Hmax]. set (high := foldl N.max 0 _) in *.
  set (b2 := if b_seq b1 <? high then _ else _).
  assert (b_topics b2 = b_topics b1 ∧ b_members b2 = b_members b1 ∧ b_seq b1 ≤ b_seq b2 ∧ high ≤ b_seq b2) as (F1 & F2 & F3 & F4).
  { unfold b2. destruct (N.ltb_spec (b_seq b1) high); (split_and!; [done|done| |]); try lia.
    - change (b_seq b1 ≤ high). lia.
    - change (high ≤ high). lia. }
  unfold mem. rewrite F1, F2. split_and!.
  - intros st Hst. destruct (H1 st Hst) as [G1 G2]. split_and!; [exact G1| |].
    + intros task. fold (mem b1 (st_Name st)). rewrite G2. unfold mem. change (b_members b0) with (b_members b).
      assert (b_members b !! st_Name st = None) as -> by (rewrite Em; apply lookup_empty). cbn. set_solver.
    + etrans; [apply Hmax, elem_of_app; left; by apply list_elem_of_fmap_2|done].
  - intros n Hn. destruct (H2 n Hn) as [-> _]. change (b_topics b0) with (b_topics b). by rewrite Et.
  - change (b_seq b) with (b_seq b0). by rewrite <-E.
  - intros seq Hseq. etrans; [apply Hmax, elem_of_app; by right|done].
Qed.
End attach.

(** ** Reachable boards *)

Section runs.
Context {R : Type} `{!ReachSource R} (reach : option R).
(** The time of each call of the store, and the size of a log. *)
Context (clock : nat → Z) (disk_bytes : list storeRecord → Z).
Implicit Types (b : Board) (cfg : Config) (os : list board_op).

#[local] Notation step := (board_step clock reach disk_bytes).

Fixpoint board_run os b : option Board :=
  match os with
  | [] => Some b
  | o :: os' => b' ← step o b; board_run os' b'
  end.

(** Each operation is called as [op_ok] asks. *)
Fixpoint run_ok os b : Prop :=
  match os with
  | [] => True
  | o :: os' => op_ok o b ∧ match step o b with Some b' => run_ok os' b' | None => True end
  end.

(** A new board on an empty directory. *)
Definition start cfg : Board := AttachStore [] [] (New cfg).

Lemma start_eq cfg : start cfg = (New cfg){{ b_store := Some [] }}.
Proof. unfold start, AttachStore. cbn. destruct (N.ltb_spec (SeqSeed cfg) 0); [lia|done]. Qed.

Lemma start_binv cfg : (0 < RingN cfg)%nat → binv clock cfg (start cfg).
Proof.
  intros Hr. rewrite start_eq. set (b := (New cfg){{ b_store := _ }}).
  assert (b_topics b = ∅) as Et by done. assert (b_store b = Some []) as Es by done. split.
  - done.
  - done.
  - intros n t. by rewrite Et, lookup_empty.
  - intros n t r. by rewrite Et, lookup_empty.
  - intros n h Eh _. rewrite Es in Eh. apply (inj Some) in Eh as <-. done.
  - intros n1 n2 seq (t & Ht & _). by rewrite Et, lookup_empty in Ht.
  - rewrite Et, map_size_empty. lia.
  - by rewrite Es.
Qed.

Lemma run_binv cfg os b :
  binv clock cfg b → run_ok os b → ∃ b', board_run os b = Some b' ∧ binv clock cfg b'.
Proof.
  revert b. induction os as [|o os IH]; intros b Hb Hok; cbn [board_run run_ok] in *; [eauto|]. destruct Hok as [Ho Hok].
  destruct (step_binv clock cfg reach disk_bytes o b Hb Ho) as (b1 & E & Hb1). rewrite E in *. by apply IH.
Qed.

Lemma reach_binv cfg os b :
  (0 < RingN cfg)%nat → run_ok os (start cfg) → board_run os (start cfg) = Some b → binv clock cfg b.
Proof.
  intros Hr Hok E. destruct (run_binv cfg os _ (start_binv cfg Hr) Hok) as (b' & E' & Hb). congruence.
Qed.

(** *** Finding a message by its seq *)

Lemma ring_owned b name t m :
  b_topics b !! name = Some t → m ∈ t_ring t ++ t_retracted t → owned clock b name (m_Seq m).
Proof. intros Ht Hm. apply (owned_ring clock b name t); [done|]. by apply list_elem_of_fmap_2. Qed.

Lemma scan_spec cfg (get : topic → list RetainedMessage) seq b name m :
  binv clock cfg b → (∀ t, get t `sublist_of` t_ring t ++ t_retracted t) →
  scan get seq b = Some (name, m) ↔ ∃ t, b_topics b !! name = Some t ∧ m ∈ get t ∧ m_Seq m = seq.
Proof.
  intros Hb Hget.
  assert (∀ n t, b_topics b !! n = Some t → NoDup (m_Seq <$> get t)) as Hnd.
  { intros n t Ht. eapply sublist_NoDup; [|apply sublist_fmap, Hget].
    exact (ok_once _ _ (ti_ok _ _ _ _ (bi_topic _ _ _ Hb _ _ Ht))). }
  set (f := λ nt : string * topic, m ← snd <$> index_seq seq (get nt.2); Some (nt.1, m)).
  assert (∀ n x, (n, x) ∈ omap f (map_to_list (b_topics b)) ↔ ∃ t, b_topics b !! n = Some t ∧ x ∈ get t ∧ m_Seq x = seq) as Hin.
  { intros n x. rewrite list_elem_of_omap. split.
    - intros ([n' t] & Hnt%elem_of_map_to_list & E). unfold f in E. cbn in E.
      destruct (index_seq seq (get t)) as [[i y]|] eqn:Ei; [|done]. cbn in E. injection E as -> ->. exists t.
      destruct (proj1 (index_seq_elem_iff seq (get t) x (Hnd _ _ Hnt)) (ex_intro _ i Ei)) as [? ?]. done.
    - intros (t & Ht & Hx). exists (n, t). split; [by apply elem_of_map_to_list|]. unfold f. cbn.
      destruct (proj2 (index_seq_elem_iff seq (get t) x (Hnd _ _ Ht)) Hx) as [i ->]. done. }
  unfold scan. fold f. destruct (N.eqb_spec seq 0) as [->|Hz].
  { split; [done|]. intros (t & Ht & Hm & E). pose proof (ti_pos _ _ _ _ (bi_topic _ _ _ Hb _ _ Ht) m) as Hpos.
    rewrite E in Hpos. specialize (Hpos (elem_of_sublist _ _ _ Hm (Hget t))). lia. }
  rewrite <-Hin. split.
  - intros E. apply head_Some_elem_of in E. done.
  - intros Hx. destruct (omap f _) as [|[n' x'] l] eqn:E; [by apply elem_of_nil in Hx|]. cbn. f_equal.
    destruct (proj1 (Hin name m) Hx) as (t & Ht & Hm & Es). destruct (proj1 (Hin n' x') ltac:(by left)) as (t' & Ht' & Hm' & Es').
    assert (n' = name) as ->.
    { apply (bi_own _ _ _ Hb n' name seq); [rewrite <-Es'|rewrite <-Es]; eapply ring_owned; try done; by eapply elem_of_sublist. }
    rewrite Ht in Ht'. apply (inj Some) in Ht' as <-. f_equal. apply (NoDup_seq_inj (get t)); [by eapply Hnd|done|done|congruence].
Qed.

Lemma snapshot_sub t : snapshot t `sublist_of` t_ring t ++ t_retracted t.
Proof. by apply sublist_inserts_r. Qed.
Lemma snapshotRetracted_sub t : snapshotRetracted t `sublist_of` t_ring t ++ t_retracted t.
Proof. by apply sublist_inserts_l. Qed.

Lemma LookupSeq_iff cfg b seq name from :
  binv clock cfg b →
  LookupSeq seq b = Some (name, from) ↔
    ∃ t m, b_topics b !! name = Some t ∧ m ∈ t_ring t ∧ m_Seq m = seq ∧ m_FromTask m = from.
Proof.
  intros Hb. unfold LookupSeq. rewrite fmap_Some. split.
  - intros ([n m] & Es & E). injection E as -> ->. apply (scan_spec cfg snapshot seq b n m Hb snapshot_sub) in Es as (t & ? & ? & ?). eauto 10.
  - intros (t & m & Ht & Hm & Es & Ef). exists (name, m). cbn. rewrite Ef. split; [|done].
    apply (scan_spec cfg snapshot seq b name m Hb snapshot_sub). eauto.
Qed.

Lemma Retained_iff cfg b seq m :
  binv clock cfg b → Retained seq b = Some m ↔ ∃ name t, b_topics b !! name = Some t ∧ m ∈ t_ring t ∧ m_Seq m = seq.
Proof.
  intros Hb. unfold Retained. rewrite fmap_Some. split.
  - intros ([n x] & Es & ->). apply (scan_spec cfg snapshot seq b n x Hb snapshot_sub) in Es as (t & ? & ? & ?). eauto.
  - intros (name & t & Ht & Hm). exists (name, m). split; [|done].
    apply (scan_spec cfg snapshot seq b name m Hb snapshot_sub). eauto.
Qed.

(** *** Withdrawing by the author *)

Lemma retract_scan_cases seq by_ now l b b' on :
  retract_scan seq by_ now l b = Some (b', on) →
  match on with
  | None => b' = b ∧ ∀ n t i m, (n, t) ∈ l → index_seq seq (t_ring t) = Some (i, m) → m_FromTask m ≠ by_
  | Some n => ∃ t i m t', (n, t) ∈ l ∧ index_seq seq (t_ring t) = Some (i, m) ∧ m_FromTask m = by_ ∧
      withdrawLocked i m now RetractedBy_Author by_ t = Some t' ∧ b' = mirrorRetract n t' seq (set_topic n t' b)
  end.
Proof.
  induction l as [|[n t] l IH]; cbn [retract_scan]; intros E.
  { injection E as <- <-. split; [done|]. intros n t i m Hin. by apply elem_of_nil in Hin. }
  unfold retract in E. destruct (index_seq seq (t_ring t)) as [[i m]|] eqn:Ei; cycle 1.
  { apply IH in E. destruct on as [n0|].
    - destruct E as (t0 & i0 & m0 & t' & Hin & E). exists t0, i0, m0, t'. split; [by right|done].
    - destruct E as [-> E]. split; [done|]. intros n0 t0 i0 m0 [[= -> ->]|Hin]%elem_of_cons E0; [congruence|by eapply E]. }
  case_bool_decide as Hby.
  - destruct (withdrawLocked i m now RetractedBy_Author by_ t) as [t'|] eqn:Ew; [|done]. cbn in E. injection E as <- <-.
    exists t, i, m, t'. split_and!; try done. by left.
  - apply IH in E. destruct on as [n0|].
    + destruct E as (t0 & i0 & m0 & t' & Hin & E). exists t0, i0, m0, t'. split; [by right|done].
    + destruct E as [-> E]. split; [done|]. intros n0 t0 i0 m0 [[= -> ->]|Hin]%elem_of_cons E0; [congruence|by eapply E].
Qed.

(** The board after a withdrawal: the message is in no ring, and a reply can still
    find it. *)
Lemma withdrawn_board cfg b b' name t i m now by_ t' seq :
  binv clock cfg b → binv clock cfg b' → (0 < now)%Z → b_topics b !! name = Some t → index_seq seq (t_ring t) = Some (i, m) →
  withdrawLocked i m now RetractedBy_Author by_ t = Some t' → b_topics b' = <[name := t']> (b_topics b) →
  Retained seq b' = None ∧ ReplyParent seq b' = Some (withdrawn m now RetractedBy_Author by_).
Proof.
  intros Hb Hb' Hnow Ht Ei Ew Et.
  pose proof (index_seq_elem _ _ _ _ Ei) as Hm. pose proof (index_seq_Some _ _ _ _ Ei) as (_ & _ & _ & _ & Es).
  destruct (withdrawLocked_ok _ t seq i m now RetractedBy_Author by_ (ti_ok _ _ _ _ (bi_topic _ _ _ Hb _ _ Ht)) Hnow Ei) as (r0 & Ew' & _ & Hok').
  rewrite Ew in Ew'. apply (inj Some) in Ew' as ->. set (t' := t{{ t_ring := _; t_retracted := _ }}) in *.
  assert (b_topics b' !! name = Some t') as Ht' by (rewrite Et; apply lookup_insert_eq).
  set (w := withdrawn m now RetractedBy_Author by_) in *.
  assert (w ∈ t_retracted t') as Hw by (change (w ∈ r0 ++ [w]); set_solver).
  assert (m_Seq w = seq) as Ews by exact Es.
  assert (Retained seq b' = None) as Hnone.
  { destruct (Retained seq b') as [x|] eqn:E; [|done]. exfalso.
    apply (Retained_iff cfg b' seq x Hb') in E as (n & u & Hu & Hx & Ex).
    assert (n = name) as ->.
    { apply (bi_own _ _ _ Hb' n name seq); [rewrite <-Ex|rewrite <-Ews]; eapply ring_owned; try done; apply elem_of_app; auto. }
    rewrite Ht' in Hu. apply (inj Some) in Hu as <-. pose proof (ok_once _ _ Hok') as Ho. rewrite fmap_app, NoDup_app in Ho.
    destruct Ho as (_ & Ho & _). apply (Ho seq); [rewrite <-Ex|rewrite <-Ews]; by apply list_elem_of_fmap_2. }
  split; [done|]. unfold ReplyParent. rewrite Hnone.
  assert (scan snapshotRetracted seq b' = Some (name, w)) as -> by (apply (scan_spec cfg); eauto using snapshotRetracted_sub). done.
Qed.
End runs.

Section claims.
Context {R : Type} `{!ReachSource R} (reach : option R).
Context (clock : nat → Z) (disk_bytes : list storeRecord → Z).
Context (cfg : Config) (os : list board_op) (b : Board).

(** The board [b] is what the calls [os] leave of a new one, each called as
    [op_ok] asks. *)
Definition reachable : Prop :=
  (0 < RingN cfg)%nat ∧ run_ok reach clock disk_bytes os (start cfg) ∧ board_run reach clock disk_bytes os (start cfg) = Some b.

Lemma reachable_binv : reachable → binv clock cfg b.
Proof. intros (Hr & Hok & E). by eapply reach_binv. Qed.

(** C34. No sequence of board operations panics or outgrows its configuration: there
    are at most [MaxTopics] topics, a topic holds at most [RingN] live and [RingN]
    withdrawn messages, its ring is in seq order below the counter, and no seq is
    held by two topics. *)
Theorem board_bounded :
  (0 < RingN cfg)%nat → run_ok reach clock disk_bytes os (start cfg) →
  ∃ b, board_run reach clock disk_bytes os (start cfg) = Some b ∧ (size (b_topics b) ≤ MaxTopics cfg)%nat ∧
    (∀ name t, b_topics b !! name = Some t →
       (length (snapshot t) ≤ RingN cfg)%nat ∧ (retractedCount t ≤ RingN cfg)%nat ∧ StronglySorted seq_lt (snapshot t) ∧
       ∀ m, m ∈ snapshotAll t → 0 < m_Seq m ≤ b_seq b) ∧
    (∀ n1 n2 t1 t2 m1 m2, b_topics b !! n1 = Some t1 → b_topics b !! n2 = Some t2 →
       m1 ∈ snapshotAll t1 → m2 ∈ snapshotAll t2 → m_Seq m1 = m_Seq m2 → n1 = n2 ∧ m1 = m2).
Proof.
  intros Hr Hok. destruct (run_binv reach clock disk_bytes cfg os _ (start_binv clock cfg Hr) Hok) as (b' & E & Hb).
  assert (∀ t m, m ∈ snapshotAll t ↔ m ∈ t_ring t ++ t_retracted t) as Hall
    by (intros t m; unfold snapshotAll; by rewrite merge_sort_Permutation).
  exists b'. pose proof (bi_cfg _ _ _ Hb) as Ec. split_and!; [done|rewrite <-Ec; apply Hb| |].
  - intros name t Ht. pose proof (bi_topic _ _ _ Hb _ _ Ht) as Hti. pose proof (ti_ok _ _ _ _ Hti) as Ho.
    assert (t_cap t = RingN cfg) as Ecap by (rewrite (ti_cap _ _ _ _ Hti); by rewrite Ec).
    rewrite <-Ecap. split_and!; [apply Ho|apply Ho|apply Ho|]. intros m Hm. apply Hall in Hm.
    split; [by apply (ti_pos _ _ _ _ Hti)|by apply (ok_bound _ _ Ho)].
  - intros n1 n2 t1 t2 m1 m2 H1 H2 M1 M2 Es. apply Hall in M1, M2.
    assert (n1 = n2) as <-.
    { apply (bi_own _ _ _ Hb n1 n2 (m_Seq m1)); [|rewrite Es]; by eapply ring_owned. }
    split; [done|]. rewrite H1 in H2. apply (inj Some) in H2 as <-.
    eapply NoDup_seq_inj; [exact (ok_once _ _ (ti_ok _ _ _ _ (bi_topic _ _ _ Hb _ _ H1)))|done|done|done].
Qed.

(** A seq is looked up exactly, whatever the order the topics are visited in:
    [Retained] and [LookupSeq] find a message when some ring holds it and only
    then, and [ReplyParent] also finds it among the withdrawn. *)
Theorem lookups_exact seq m name :
  reachable →
  (Retained seq b = Some m ↔ ∃ n t, b_topics b !! n = Some t ∧ m ∈ snapshot t ∧ m_Seq m = seq) ∧
  (∀ from, LookupSeq seq b = Some (name, from) ↔
     ∃ t x, b_topics b !! name = Some t ∧ x ∈ snapshot t ∧ m_Seq x = seq ∧ m_FromTask x = from) ∧
  (ReplyParent seq b = Some m ↔ ∃ n t, b_topics b !! n = Some t ∧ m ∈ snapshotAll t ∧ m_Seq m = seq).
Proof.
  intros Hreach. pose proof (reachable_binv Hreach) as Hb. split_and!.
  - by apply (Retained_iff clock cfg).
  - intros from. by apply (LookupSeq_iff clock cfg).
  - assert (∀ t x, x ∈ snapshotAll t ↔ x ∈ t_ring t ∨ x ∈ t_retracted t) as Hall
      by (intros t x; unfold snapshotAll; by rewrite merge_sort_Permutation, elem_of_app).
    assert (∀ x, snd <$> scan snapshotRetracted seq b = Some x ↔ ∃ n t, b_topics b !! n = Some t ∧ x ∈ t_retracted t ∧ m_Seq x = seq) as Hret.
    { intros x. rewrite fmap_Some. split.
      - intros ([n y] & Es & ->). apply (scan_spec clock cfg) in Es as (t & ? & ? & ?); eauto using snapshotRetracted_sub.
      - intros (n & t & Ht & Hx). exists (n, x). split; [|done]. apply (scan_spec clock cfg); eauto using snapshotRetracted_sub. }
    unfold ReplyParent. destruct (Retained seq b) as [y|] eqn:E.
    + pose proof E as (n & t & Ht & Hy & Ey)%(Retained_iff clock cfg); [|done]. split.
      * intros [= <-]. exists n, t. split_and!; [done|apply Hall; by left|done].
      * intros (n' & t' & Ht' & Hm & Em). f_equal.
        assert (n' = n) as ->.
        { apply (bi_own _ _ _ Hb n' n seq); [rewrite <-Em|rewrite <-Ey]; eapply ring_owned; try done; apply elem_of_app; [by apply Hall|by left]. }
        rewrite Ht in Ht'. apply (inj Some) in Ht' as <-.
        eapply NoDup_seq_inj; [exact (ok_once _ _ (ti_ok _ _ _ _ (bi_topic _ _ _ Hb _ _ Ht)))|..]; [apply elem_of_app; by left| |congruence].
        by apply elem_of_app, Hall.
    + rewrite Hret. split; intros (n & t & Ht & Hm & Em); exists n, t; (split_and!; [done| |done]); [apply Hall; by right|].
      apply Hall in Hm as [Hm|Hm]; [|done].
      assert (Retained seq b = Some m) as E' by (apply (Retained_iff clock cfg); eauto). congruence.
Qed.

(** When making room fails, nothing but retained topics is left. *)
Lemma older_finds l acc :
  (∀ n t, (n, t) ∈ l → n ≠ ""%string) → acc.1 ≠ ""%string ∨ (∃ n t, (n, t) ∈ l ∧ retained t = false) →
  (foldl older acc l).1 ≠ ""%string.
Proof.
  revert acc. induction l as [|[k t] l IH]; intros acc Hn Hx; cbn [foldl].
  { destruct Hx as [Hx|(n & t & Hin & _)]; [done|]. by apply elem_of_nil in Hin. }
  apply IH; [intros n u Hin; apply (Hn n u); by right|]. unfold older. destruct acc as [on oz]. cbn [fst snd] in *.
  destruct (retained t) eqn:Hr.
  - destruct Hx as [Hx|(n & u & [[= -> ->]|Hin]%elem_of_cons & Hu)]; [by left|congruence|right; eauto].
  - left. destruct (bool_decide_reflect (on = ""%string)) as [->|Hne]; cbn [orb].
    + cbn. apply (Hn k t). by left.
    + destruct (_ <? _)%Z; cbn; [apply (Hn k t); by left|done].
Qed.

Lemma topic_for_full name bd bd' :
  binv clock cfg bd → topic_for name bd = (bd', None) → b_topics bd !! ""%string = None →
  b_topics bd !! name = None ∧ ∀ n t, b_topics bd !! n = Some t → retained t = true.
Proof.
  intros Hb E Hempty. unfold topic_for in E. destruct (b_topics bd !! name) as [t|] eqn:Ht; [done|]. split; [done|].
  pose proof (bi_size _ _ _ Hb) as Hs. destruct (Nat.leb_spec (MaxTopics (b_cfg bd)) (size (b_topics bd))) as [Hf|Hf]; cycle 1.
  { destruct (Nat.leb_spec (MaxTopics (b_cfg bd)) (size (b_topics bd))); [lia|done]. }
  intros n t Hn. destruct (retained t) eqn:Hr; [done|exfalso].
  pose proof (older_finds (map_to_list (b_topics bd)) (""%string, 0%Z)) as Hfind. unfold evictOldestTopicLocked in E.
  destruct (foldl older _ _) as [n' z] eqn:Eo. cbn [fst] in Hfind.
  assert (n' ≠ ""%string) as Hne.
  { apply Hfind; [|right; exists n, t; split; [by apply elem_of_map_to_list|done]].
    intros k u Hk%elem_of_map_to_list ->. congruence. }
  apply older_spec in Eo as [?|(u & Hu%elem_of_map_to_list & _)]; [done|].
  rewrite bool_decide_eq_false_2 in E by done. change (b_topics (delete_topic n' bd)) with (delete n' (b_topics bd)) in E.
  change (b_cfg (delete_topic n' bd)) with (b_cfg bd) in E. rewrite map_size_delete_Some in E by eauto.
  assert (size (b_topics bd) ≠ 0%nat) as H0 by (intros H0%map_size_empty_inv; rewrite H0, lookup_empty in Hu; done).
  destruct (Nat.leb_spec (MaxTopics (b_cfg bd)) (Nat.pred (size (b_topics bd)))); [lia|done].
Qed.

(** [Send] takes the next seq and leaves the message as the newest of its topic,
    where a lookup by that seq finds it; when it fails the counter does not move,
    and it runs out of topics only when every topic is retained.  Either way no
    other retained topic is touched, so making room never costs one. *)
Theorem Send_publishes now name e sc :
  reachable → b_seq b + 1 < 2 ^ 64 →
  let b' := (Send reach now name e sc b).1 in
  (∀ n t, n ≠ name → b_topics b !! n = Some t → retained t = true → b_topics b' !! n = Some t) ∧
  match (Send reach now name e sc b).2 with
  | Sent seq _ =>
      seq = b_seq b + 1 ∧ b_seq b' = seq ∧ LookupSeq seq b' = Some (name, ev_fromTid e) ∧
      ∃ t', b_topics b' !! name = Some t' ∧ last (snapshot t') = Some (new_message now name seq e (member_route name e sc b))
  | SendError ErrPayloadTooLarge => b' = b ∧ (MaxPayload cfg < length (ev_payload e))%nat
  | SendError ErrTooManyTopics =>
      b_seq b' = b_seq b ∧ (b_topics b !! ""%string = None → ∀ n t, b_topics b !! n = Some t → retained t = true)
  | _ => False
  end.
Proof.
  intros Hreach Hov b'. pose proof (reachable_binv Hreach) as Hb.
  destruct (Send_cases clock cfg reach now name e sc b Hb Hov) as [Hb' Hc]. fold b' in Hb', Hc.
  destruct Hc as [(E & Eb & Hp)|[(E & (Ec & Es & Est & Em & Hk) & Ef)|(b1 & t & t' & m & Ef & Eqm & E & (l0 & Hl0 & _) & Hret & Esq & Et & _)]]; rewrite E.
  - rewrite Eb, <-(bi_cfg _ _ _ Hb). done.
  - split; [intros n t _; apply Hk|]. split; [done|]. intros Hn. by apply (topic_for_full name b b').
  - pose proof (topic_for_binv clock cfg name b Hb) as (_ & (_ & _ & _ & _ & Hk) & _). rewrite Ef in Hk. cbn [fst] in Hk.
    split_and!; try done.
    + intros n u Hn Hu Hr. rewrite Et, lookup_insert_ne by done. by apply Hk.
    + apply (LookupSeq_iff clock cfg); [done|]. exists t', m. rewrite Et, lookup_insert_eq, Hl0. subst m.
      split_and!; try done. set_solver.
    + exists t'. split; [rewrite Et; apply lookup_insert_eq|]. unfold snapshot. rewrite Hl0, last_snoc. by subst m.
Qed.

(** An author withdraws a message and nobody else does: [RetractSeq] succeeds
    exactly for the task that published the live message with that seq (never for
    the zero id), otherwise the board is unchanged.  Once withdrawn the message is
    in no ring, and a reply to it still finds its parent, stamped with the time. *)
Theorem RetractSeq_author seq by_ now :
  reachable → (0 < now)%Z →
  ∃ b' on, RetractSeq seq by_ now b = Some (b', on) ∧
    (∀ name, on = Some name ↔ by_ ≠ zeroID ∧ LookupSeq seq b = Some (name, by_)) ∧
    (on = None → b' = b) ∧
    (is_Some on → Retained seq b' = None ∧ ∃ m, ReplyParent seq b' = Some m ∧ m_RetractedAt m = now ∧ m_RetractedByTask m = by_).
Proof.
  intros Hreach Hnow. pose proof (reachable_binv Hreach) as Hb. unfold RetractSeq.
  destruct (N.eqb_spec seq 0) as [->|Hz]; cbn [orb].
  { exists b, None. split_and!; [done| |done|by intros []]. intros name. split; [done|]. by intros [_ ?]. }
  case_bool_decide as Hzero.
  { exists b, None. split_and!; [done| |done|by intros []]. intros name. split; [done|]. by intros [? _]. }
  destruct (retractAsAuthor_binv clock cfg seq by_ now b Hb Hnow) as (b' & on & E & Hb'). exists b', on. split; [done|].
  pose proof (retract_scan_cases seq by_ now _ b b' on E) as Hc. destruct on as [n|].
  - destruct Hc as (t & i & m & t' & Hin%elem_of_map_to_list & Ei & Hby & Ew & Eb').
    pose proof (index_seq_elem _ _ _ _ Ei) as Hm. pose proof (index_seq_Some _ _ _ _ Ei) as (_ & _ & _ & _ & Es).
    assert (b_topics b' = <[n := t']> (b_topics b)) as Et.
    { rewrite Eb'. unfold mirrorRetract. destruct (retained t'); [|done]. by destruct (withdrawnEntry seq t'). }
    split_and!.
    + intros name. split.
      * intros [= <-]. split; [done|]. apply (LookupSeq_iff clock cfg); [done|]. eauto 10.
      * intros [_ (u & x & Hu & Hx & Ex & _)%(LookupSeq_iff clock cfg)]; [|done]. f_equal.
        apply (bi_own _ _ _ Hb n name seq); [rewrite <-Es|rewrite <-Ex]; eapply ring_owned; try done; apply elem_of_app; by left.
    + done.
    + intros _. destruct (withdrawn_board clock cfg b b' n t i m now by_ t' seq Hb Hb' Hnow Hin Ei Ew Et) as [H1 H2].
      split; [done|]. eexists. split; [exact H2|]. done.
  - destruct Hc as [-> Hno]. split_and!; [|done|by intros []]. intros name. split; [done|].
    intros [_ (u & x & Hu & Hx & Ex & Ef)%(LookupSeq_iff clock cfg)]; [|done]. exfalso.
    destruct (proj2 (index_seq_elem_iff seq (t_ring u) x (topic_ok_ring_NoDup _ _ (ti_ok _ _ _ _ (bi_topic _ _ _ Hb _ _ Hu))))) as [i Hi]; [done|].
    apply (Hno name u i x); [by apply elem_of_map_to_list|done|done].
Qed.

(** The loaded copy of a topic. *)
Lemma load_one_spec s name t r ms hi :
  logged hi name t r ms s → topic_ok hi t → t_cap t = RingN cfg →
  let st := load_one (RingN cfg) (OpenFileStore s) name in let t' := load_topic (RingN cfg) st in
  st_Name st = name ∧ t_retention t' = Some (reopened r) ∧ t_ringFloor t' = t_ringFloor t ∧ (∀ task, shownMark task t' = shownMark task t) ∧
  t_ring t `suffix_of` t_ring t' ∧ (∀ task, task ∈ st_Members st ↔ task ∈ ms) ∧
  ∀ m, m ∈ t_ring t ++ t_retracted t → m_Seq m ≤ st_MaxSeq st.
Proof.
  intros [H1 H2 H3 H4 (lo & L1 & L2 & L3) H6 H7 H8 H9 H10] Hok Ecap. unfold load_one. change (file name (OpenFileStore s)) with (file name s). set (me := scanMeta (file name s)) in *.
  pose proof (load_suffix hi name (file name s) (RingN cfg) (me_ringFloor me) lo (t_ring t) H3 (ok_sorted _ _ Hok)) as Hsuf.
  rewrite <-Ecap in Hsuf at 1. specialize (Hsuf (ok_ring_len _ _ Hok)). rewrite H4 in Hsuf. specialize (Hsuf L1 L3).
  rewrite <-H4 in Hsuf at 1. fold me in Hsuf. destruct (split_withdrawn _) as [ring retracted]. cbn [fst] in Hsuf.
  assert (fs_ret (OpenFileStore s) !! name = Some (reopened r)) as Er.
  { unfold OpenFileStore. cbn [fs_ret]. by rewrite lookup_fmap, H1. }
  rewrite Er. cbn zeta. split_and!; try done.
  - intros task. unfold shownMark.
    change (default 0 (filter (λ kv : TaskID * N, kv.2 ≠ 0) (me_shown me) !! task) = shownMark task t). rewrite <-H7. fold me.
    destruct (me_shown me !! task) as [k|] eqn:E.
    + destruct (decide (k = 0)) as [->|Hk].
      * rewrite map_lookup_filter_None_2; [done|]. right. intros k Hk. rewrite E in Hk. apply (inj Some) in Hk as <-. by intros [].
      * by rewrite (map_lookup_filter_Some_2 _ _ _ _ E).
    + by rewrite map_lookup_filter_None_2; [|left].
  - intros task. change (task ∈ memberList me ↔ task ∈ ms). rewrite <-H8. unfold me. apply memberList_elem.
  - intros m Hm. change (m_Seq m ≤ me_maxSeq me).
    assert (log_message name (file name s) m) as Hlog.
    { apply elem_of_app in Hm as [Hm|Hm]; [by apply L3 in Hm as [? _]|by apply H6]. }
    apply log_message_seq, elem_of_msg_seqs in Hlog as (m0 & Hm0 & <-). exact (maxSeq_above (file name s) _ Hm0).
Qed.

Lemma Load_names s : NoDup (st_Name <$> Load (RingN cfg) s).
Proof.
  unfold Load. rewrite <-list_fmap_compose, (list_fmap_ext _ id); [|by intros i n _].
  rewrite list_fmap_id. unfold sort_strings. rewrite merge_sort_Permutation. apply NoDup_fst_map_to_list.
Qed.

Lemma Load_elem s st : st ∈ Load (RingN cfg) s ↔ ∃ name, is_Some (fs_ret s !! name) ∧ st = load_one (RingN cfg) s name.
Proof.
  unfold Load, sort_strings. rewrite list_elem_of_fmap. split.
  - intros (name & -> & Hn). rewrite merge_sort_Permutation, list_elem_of_fmap in Hn.
    destruct Hn as ([n r] & -> & Hr%elem_of_map_to_list). exists n. split; [eauto|done].
  - intros (name & [r Hr] & ->). exists name. split; [done|]. rewrite merge_sort_Permutation, list_elem_of_fmap.
    exists (name, r). split; [done|]. by apply elem_of_map_to_list.
Qed.

(** C14. A restart keeps every retained topic.  After any sequence of operations of
    a board started on an empty directory, of which none purges a seq not issued
    yet and all writes of the files succeed, a new board on the directory they
    left has each retained topic with its retention, its flush floor, every task's
    delivery mark and every member; its ring ends with all the live messages the
    topic had, and the counter starts above every message it had and above every
    archive's last.  A topic that was not retained is gone.  The store gives back
    the records it was given, so the strings are UTF-8. *)
Theorem retained_topics_survive_restart (archived : list N) :
  reachable →
  ∃ h, b_store b = Some h ∧
  let b' := AttachStore (Load (RingN cfg) (OpenFileStore (fs_of clock h))) archived (New cfg) in
  (∀ name t r, b_topics b !! name = Some t → t_retention t = Some r →
     ∃ t', b_topics b' !! name = Some t' ∧ t_retention t' = Some (reopened r) ∧ RingFloor name b' = RingFloor name b ∧
       (∀ task, shownMark task t' = shownMark task t) ∧ snapshot t `suffix_of` snapshot t' ∧
       (∀ task, isMemberLocked (b_members b') task name = isMemberLocked (b_members b) task name) ∧
       ∀ m, m ∈ snapshotAll t → m_Seq m ≤ b_seq b') ∧
  (∀ name, (∀ t, b_topics b !! name = Some t → retained t = false) → b_topics b' !! name = None) ∧
  (∀ seq, seq ∈ archived → seq ≤ b_seq b').
Proof.
  intros Hreach. pose proof (reachable_binv Hreach) as Hb. destruct (bi_store _ _ _ Hb) as [h Eh]. exists h. split; [done|].
  cbn zeta. set (s := fs_of clock h).
  destruct (AttachStore_spec (Load (RingN cfg) (OpenFileStore s)) archived (New cfg) (Load_names _) eq_refl eq_refl) as (G1 & G2 & _ & G3).
  set (b' := AttachStore _ _ _) in *. change (b_cfg (New cfg)) with cfg in G1.
  assert (∀ bd task name, isMemberLocked (b_members bd) task name = bool_decide (task ∈ mem bd name)) as Hmem.
  { intros bd task name. unfold isMemberLocked, mem. destruct (b_members bd !! name); [done|]. symmetry. by apply bool_decide_eq_false_2, not_elem_of_empty. }
  split_and!; [| |exact G3].
  - intros name t r Ht Hr. destruct (bi_logged _ _ _ Hb _ _ _ Ht Hr) as (h' & Eh' & Hl). rewrite Eh in Eh'. apply (inj Some) in Eh' as <-.
    fold s in Hl. pose proof (bi_topic _ _ _ Hb _ _ Ht) as Hti.
    assert (t_cap t = RingN cfg) as Ecap by (rewrite (ti_cap _ _ _ _ Hti); by rewrite (bi_cfg _ _ _ Hb)).
    destruct (load_one_spec s name t r _ _ Hl (ti_ok _ _ _ _ Hti) Ecap) as (L0 & L1 & L2 & L3 & L4 & L5 & L6).
    set (st := load_one (RingN cfg) (OpenFileStore s) name) in *.
    destruct (G1 st) as (K1 & K2 & K3).
    { apply Load_elem. exists name. split; [|done]. unfold OpenFileStore. cbn [fs_ret].
      rewrite lookup_fmap, (lg_ret _ _ _ _ _ _ Hl). eauto. }
    rewrite L0 in K1, K2. eexists. split; [exact K1|]. split_and!; try done.
    + unfold RingFloor. by rewrite K1, Ht.
    + intros task. rewrite !Hmem. apply bool_decide_ext. rewrite K2. apply L5.
    + intros m Hm. unfold snapshotAll in Hm. rewrite merge_sort_Permutation in Hm. etrans; [by apply L6|done].
  - intros name Hno. apply G2. intros (st & E & (n & [r Hn] & ->)%Load_elem)%list_elem_of_fmap.
    assert (n = name) as -> by (by rewrite E). unfold OpenFileStore in Hn. cbn [fs_ret] in Hn. rewrite lookup_fmap in Hn.
    destruct (bi_absent _ _ _ Hb name h Eh) as (A1 & _); [intros t Ht; by apply retained_None, Hno|].
    fold s in A1. by rewrite A1 in Hn.
Qed.
End claims.

(** ** Witnesses: a retained topic with three messages, one withdrawn *)

Module SampleBoard.
Definition cfg : Config := mkConfig 2 1000 4 16 0.
Definition r : Retention := mkRetention 0 true zeroID 5.
Definition clock (n : nat) : Z := Z.of_nat n + 1.
Definition bytes (l : list storeRecord) : Z := Z.of_nat (length l).
Definition k : ticketKey := key_of [] SampleTopic.a.
Definition ops : list board_op :=
  [BRegisterTask [] SampleTopic.a [1] "claude"; BSend 10 "news" (SampleTopic.say SampleTopic.a) SampleTopic.cfg;
   BJoin SampleTopic.a "news"; BRetain "news" r; BSend 11 "news" (SampleTopic.say SampleTopic.b) SampleTopic.cfg;
   BInboxAdvance k; BRetractSeq 1 SampleTopic.a 12; BSend 13 "chat" (SampleTopic.say SampleTopic.a) SampleTopic.cfg].
Definition reach : option TaskStore.Store := None.
Definition b : Board := default (start cfg) (board_run reach clock bytes ops (start cfg)).

Lemma ok : run_ok reach clock bytes ops (start cfg).
Proof. vm_compute. repeat split; reflexivity. Defined.

Lemma reached : reachable reach clock bytes cfg ops b.
Proof. split_and!; [vm_compute; lia|exact ok|vm_compute; reflexivity]. Defined.
End SampleBoard.

Lemma board_bounded_witness : (size (b_topics SampleBoard.b) ≤ MaxTopics SampleBoard.cfg)%nat.
Proof.
  destruct (board_bounded SampleBoard.reach SampleBoard.clock SampleBoard.bytes SampleBoard.cfg SampleBoard.ops
    ltac:(vm_compute; lia) SampleBoard.ok) as (b & E & Hs & _).
  assert (b = SampleBoard.b) as -> by (unfold SampleBoard.b; rewrite E; reflexivity). exact Hs.
Defined.

Lemma lookups_exact_witness : ∃ t x, b_topics SampleBoard.b !! "news" = Some t ∧ x ∈ snapshot t ∧ m_Seq x = 2 ∧ m_FromTask x = SampleTopic.b.
Proof.
  destruct (lookups_exact SampleBoard.reach SampleBoard.clock SampleBoard.bytes SampleBoard.cfg SampleBoard.ops SampleBoard.b 2
    (new_message 0 "" 0 (SampleTopic.say SampleTopic.a) SampleTopic.cfg) "news" SampleBoard.reached) as (_ & H & _).
  apply (proj1 (H SampleTopic.b)). vm_compute. reflexivity.
Defined.

Lemma Send_publishes_witness :
  LookupSeq 4 (Send SampleBoard.reach 20 "chat" (SampleTopic.say SampleTopic.b) SampleTopic.cfg SampleBoard.b).1 = Some ("chat"%string, SampleTopic.b).
Proof.
  destruct (Send_publishes SampleBoard.reach SampleBoard.clock SampleBoard.bytes SampleBoard.cfg SampleBoard.ops SampleBoard.b 20 "chat"
    (SampleTopic.say SampleTopic.b) SampleTopic.cfg SampleBoard.reached ltac:(vm_compute; reflexivity)) as [_ H].
  destruct (Send SampleBoard.reach 20 "chat" (SampleTopic.say SampleTopic.b) SampleTopic.cfg SampleBoard.b).2 as [seq n|[]|] eqn:E;
    try (vm_compute in E; discriminate).
  destruct H as (E1 & _ & H & _). rewrite E1 in H. exact H.
Defined.

Lemma RetractSeq_author_witness : ∃ b', RetractSeq 2 SampleTopic.b 30 SampleBoard.b = Some (b', Some "news"%string) ∧ Retained 2 b' = None.
Proof.
  destruct (RetractSeq_author SampleBoard.reach SampleBoard.clock SampleBoard.bytes SampleBoard.cfg SampleBoard.ops SampleBoard.b 2 SampleTopic.b 30
    SampleBoard.reached ltac:(lia)) as (b' & on & E & Hon & _ & Hw).
  assert (on = Some "news"%string) as -> by (apply Hon; split; [discriminate|vm_compute; reflexivity]).
  exists b'. split; [exact E|]. apply Hw. eauto.
Defined.

Lemma retained_topics_survive_restart_witness :
  ∃ h t', b_store SampleBoard.b = Some h ∧
    b_topics (AttachStore (Load 2 (OpenFileStore (fs_of SampleBoard.clock h))) [9] (New SampleBoard.cfg)) !! "news" = Some t' ∧
    shownMark SampleTopic.a t' = 2.
Proof.
  destruct (retained_topics_survive_restart SampleBoard.reach SampleBoard.clock SampleBoard.bytes SampleBoard.cfg SampleBoard.ops SampleBoard.b
    [9] SampleBoard.reached) as (h & Eh & H & _).
  destruct (b_topics SampleBoard.b !! "news") as [t|] eqn:Et; [|vm_compute in Et; discriminate].
  assert (t_retention t = Some SampleBoard.r ∧ shownMark SampleTopic.a t = 2) as [Er Em].
  { vm_compute in Et. injection Et as <-. split; vm_compute; reflexivity. }
  destruct (H "news"%string t SampleBoard.r Et Er) as (t' & E & _ & _ & Hm & _). exists h, t'. split_and!; [exact Eh|exact E|].
  rewrite Hm. exact Em.
Defined.

(** ** Messages the log misses *)

(** A purge of a seq that is not issued yet reports nothing removed, but the store
    then skips the message that gets that seq: it is live on the board and gone
    after a restart. *)
Theorem purge_ahead_unlogs_message :
  let b0 := (Retain (H := file_store SampleBoard.clock SampleBoard.bytes) "news" SampleBoard.r (start SampleBoard.cfg)).1 in
  let '(b1, res) := PurgeSeq (H := file_store SampleBoard.clock SampleBoard.bytes) "news" 1 b0 in
  let '(b2, sent) := Send SampleBoard.reach 10 "news" (SampleTopic.say SampleTopic.a) SampleTopic.cfg b1 in
  res = (false, true) ∧ sent = Sent 1 0 ∧ LookupSeq 1 b2 = Some ("news"%string, SampleTopic.a) ∧
  match b_store b2 with Some h => map st_Ring (Load 2 (OpenFileStore (fs_of SampleBoard.clock h))) = [[]] | None => False end.
Proof. vm_compute. split_and!; reflexivity. Qed.

(** A file store whose second call fails, and what it has on disk. *)
Definition disk_of (h : list store_op) : FileStore := fs_of SampleBoard.clock (take 1 h ++ drop 2 h).
Definition second_fails : BoardStore := {|
  bs_ok h o := negb (length h =? 1)%nat;
  bs_onDisk h name seq := (Remove name seq (disk_of h)).2;
  bs_Tail h name ringN := Some (Tail name ringN (disk_of h));
  bs_Page h name beforeSeq limit := Some (page_file name beforeSeq limit (file name (disk_of h)));
  bs_Bytes h name := 0%Z;
|}.

(** A [Retain] that fails half way leaves the topic marked as retained, so the
    retry that succeeds skips the messages the topic already had: they are on the
    board and not in the log. *)
Theorem Retain_retry_skips_messages :
  let b0 := (Send SampleBoard.reach 10 "news" (SampleTopic.say SampleTopic.a) SampleTopic.cfg (start SampleBoard.cfg)).1 in
  let '(b1, e1) := Retain (H := second_fails) "news" SampleBoard.r b0 in
  let '(b2, e2) := Retain (H := second_fails) "news" SampleBoard.r b1 in
  e1 = Some ErrStore ∧ e2 = None ∧ LookupSeq 1 b2 = Some ("news"%string, SampleTopic.a) ∧
  match b_store b2 with Some h => map st_Ring (Load 2 (OpenFileStore (disk_of h))) = [[]] | None => False end.
Proof. vm_compute. split_and!; reflexivity. Qed.
