(* ===== verification/Archive.v ===== *)
(** * Archives: [agentboard/archive.go] and [agentboard/archive_store.go]

    An archive is a topic's history frozen into a file of its own, named by a random
    id, whose header says what it holds.  The directory of archives is a map from
    ids to files; a file is its header and its records.  The header's seq enters
    [scanMeta] only as the highest seq, which nothing reads of an archive.  As for
    the topic logs, I/O errors are outside the model and times are whole
    milliseconds.  The random ids are an argument.

    Theorems: an archive pages exactly as its topic did when it was made, and from
    then on changes only by the purges that name it, whatever happens to the
    board; an agent pages out of it only what was not withdrawn; after a restart
    the counter starts above every message in it. *)

From stdpp Require Import prelude gmap strings list sorting.
From Stdlib Require Import NArith ZArith.
From coqutil Require Import Datatypes.RecordSetters.
From S2P Require Import Prelude GoStrings Caps Wire Topic TaskState BoardReach Board FileStore StoreMirror BoardLaws BoardSpec.

Import DoubleBraceUpdate.
Open Scope N_scope.
Open Scope stdpp_scope.
Set Default Goal Selector "!".

(** ** Files *)

Record ArchiveInfo := mkArchiveInfo {
  ar_ID : string; ar_Topic : string; ar_Through : N; ar_Count : Z;
  ar_CreatedAt : Z; ar_CreatedBy : TaskID; ar_Bytes : Z;
}.

(** The header record, by the fields [archiveHeader] writes. *)
Record header := mkHeader {
  h_Topic : string; h_Archive : string; h_Seq : N; h_AtMs : Z; h_Count : Z; h_ByTask : TaskID;
}.
Definition archiveHeader (info : ArchiveInfo) : header :=
  mkHeader (ar_Topic info) (ar_ID info) (ar_Through info) (ar_CreatedAt info) (ar_Count info) (ar_CreatedBy info).

Record archive := mkArchive { a_hdr : header; a_recs : list storeRecord }.
Notation archives := (gmap string archive).

Inductive archive_error := ErrArchiveEmpty | ErrBoard (e : board_error) | ErrNoDraw.

(** [archiveIDRe]: twelve lower-case hex digits. *)
Definition archivePath (id : string) : bool := bool_decide (String.length id = 12%nat) && forallb is_lhex (chars id).

(** The loop of [newArchiveIDLocked] over the ids drawn; it ends with a free one. *)
Fixpoint newArchiveIDLocked (draws : list (list N)) (dir : archives) : option string :=
  match draws with
  | [] => None
  | d :: draws => if decide (dir !! EncodeToString d = None) then Some (EncodeToString d) else newArchiveIDLocked draws dir
  end.

Definition highest (seqs : list N) : N := foldl (λ hi seq, if hi <? seq then seq else hi) 0 seqs.

(** The lines of a log [ArchiveLog] copies. *)
Definition archived_line (me : logMeta) (r : storeRecord) : bool :=
  match r with
  | RMsg m => bool_decide (m_Seq m ∈ me_msgs me)
  | RRetract seq _ _ _ => bool_decide (seq ∈ me_msgs me)
  | _ => false
  end.

(** The lines [ArchiveMessages] writes for a message. *)
Definition message_lines (m : RetainedMessage) : list storeRecord :=
  if (m_RetractedAt m =? 0)%Z then [msgRecord m] else [msgRecord m; retractRecord m].

Section store.
(** The size of a file. *)
Context (file_bytes : archive → Z).

Definition writeArchiveLocked (draws : list (list N)) (info : ArchiveInfo) (body : list storeRecord) (dir : archives)
    : archives * result archive_error ArchiveInfo :=
  match newArchiveIDLocked draws dir with
  | None => (dir, Err ErrNoDraw)
  | Some id =>
      let info := info{{ ar_ID := id }} in
      let a := mkArchive (archiveHeader info) body in
      (<[id := a]> dir, Ok (info{{ ar_Bytes := file_bytes a }}))
  end.

Definition ArchiveLog (draws : list (list N)) (topic : string) (by_ : TaskID) (at_ : Z) (s : FileStore) (dir : archives)
    : archives * result archive_error ArchiveInfo :=
  let me := scanMeta (file topic s) in
  if bool_decide (me_msgs me = ∅) then (dir, Err ErrArchiveEmpty)
  else
    let info := mkArchiveInfo "" topic (highest (elements (me_msgs me))) (Z.of_nat (size (me_msgs me))) at_ by_ 0 in
    writeArchiveLocked draws info (filter (λ r, archived_line me r = true) (file topic s)) dir.

Definition ArchiveMessages (draws : list (list N)) (topic : string) (msgs : list RetainedMessage) (by_ : TaskID) (at_ : Z)
    (dir : archives) : archives * result archive_error ArchiveInfo :=
  match msgs with
  | [] => (dir, Err ErrArchiveEmpty)
  | _ =>
      let info := mkArchiveInfo "" topic (highest (m_Seq <$> msgs)) (Z.of_nat (length msgs)) at_ by_ 0 in
      writeArchiveLocked draws info (flat_map message_lines msgs) dir
  end.

(** [None] is a file without an archive header. *)
Definition readArchiveInfo (a : archive) : option ArchiveInfo :=
  let h := a_hdr a in
  if bool_decide (h_Archive h = ""%string) then None
  else Some (mkArchiveInfo (h_Archive h) (h_Topic h) (h_Seq h) (h_Count h) (h_AtMs h) (h_ByTask h) (file_bytes a)).

(** [FileStore.Archives]: the files in order of their names, the unreadable skipped. *)
Definition store_Archives (dir : archives) : list ArchiveInfo :=
  omap (λ id, a ← dir !! id; if archivePath id then readArchiveInfo a else None) (sort_strings (map_to_list dir).*1).

Definition ArchiveOf (id : string) (dir : archives) : option ArchiveInfo :=
  if archivePath id then a ← dir !! id; readArchiveInfo a else None.

Definition ArchivePage (id : string) (beforeSeq : N) (limit : nat) (dir : archives) : list RetainedMessage :=
  match ArchiveOf id dir, dir !! id with
  | Some info, Some a => page_file (ar_Topic info) beforeSeq limit (a_recs a)
  | _, _ => []
  end.

Definition ArchiveRemove (id : string) (seq : N) (dir : archives) : archives * bool :=
  match ArchiveOf id dir, dir !! id with
  | Some info, Some a =>
      if seq =? 0 then (delete id dir, true)
      else if negb (bool_decide (seq ∈ me_msgs (scanMeta (a_recs a)))) then (dir, false)
      else
        let info := info{{ ar_Count := (ar_Count info - 1)%Z }} in
        (<[id := mkArchive (archiveHeader info) (filter (λ r, of_message seq r = false) (a_recs a))]> dir, true)
  | _, _ => (dir, false)
  end.

(** ** The board's side *)

(** The store behind the board after the calls it made, and the clock of each call. *)
Context (clock : nat → Z).

Definition Archive (draws : list (list N)) (topic : string) (by_ : TaskID) (now : Z) (b : Board) (dir : archives)
    : archives * result archive_error ArchiveInfo :=
  if negb (Retainable topic) then (dir, Err (ErrBoard ErrNotRetainable))
  else match b_store b with
  | None => (dir, Err (ErrBoard ErrNoStore))
  | Some h =>
      match b_topics b !! topic with
      | None => (dir, Err (ErrBoard ErrNoTopic))
      | Some t =>
          if retained t then ArchiveLog draws topic by_ now (fs_of clock h) dir
          else ArchiveMessages draws topic (snapshotAll t) by_ now dir
      end
  end.

(** [less] of [Board.Archives]: newest first, then by id. *)
Definition info_less (x y : ArchiveInfo) : bool :=
  if negb (ar_CreatedAt x =? ar_CreatedAt y)%Z then (ar_CreatedAt y <? ar_CreatedAt x)%Z
  else bool_decide (strict String.le (ar_ID x) (ar_ID y)).

Definition Archives (topic : string) (dir : archives) : list ArchiveInfo :=
  sort_stable info_less (filter (λ a, topic = ""%string ∨ ar_Topic a = topic) (store_Archives dir)).

Definition ArchivePageLive (fuel : nat) (id : string) (beforeSeq : N) (limit : nat) (dir : archives) : option (list RetainedMessage) :=
  page_live (λ before, Some (ArchivePage id before limit dir)) fuel beforeSeq limit [].

(** (removed, found) *)
Definition ArchivePurge (id : string) (seq : N) (dir : archives) : archives * (bool * bool) :=
  match ArchiveOf id dir with
  | None => (dir, (false, false))
  | Some _ => let '(dir, removed) := ArchiveRemove id seq dir in (dir, (removed, true))
  end.
End store.

(** ** What a file pages out *)

Section pages.
Implicit Types (recs : list storeRecord) (m x : RetainedMessage) (name : string) (l : list RetainedMessage).

Definition below (beforeSeq : N) m : Prop := beforeSeq = 0 ∨ m_Seq m < beforeSeq.

(** Every message of a log, newest first. *)
Definition all_messages name recs : list RetainedMessage :=
  merge_sort seq_ge (fetchMessages name (msg_seqs recs) (scanMeta recs) recs).

#[local] Instance seq_ge_total : Total seq_ge.
Proof. intros x y. unfold seq_ge. lia. Qed.
#[local] Instance seq_ge_trans : Transitive seq_ge.
Proof. intros x y z. unfold seq_ge. lia. Qed.

(** Lists of distinct messages, newest first, are told apart by their elements. *)
Lemma newest_first_unique l1 l2 :
  StronglySorted seq_ge l1 → StronglySorted seq_ge l2 → NoDup (m_Seq <$> l1) → NoDup (m_Seq <$> l2) →
  (∀ x, x ∈ l1 ↔ x ∈ l2) → l1 = l2.
Proof.
  intros S1 S2 N1 N2 He. eapply (StronglySorted_unique_strong seq_ge); [|exact S1|exact S2|].
  - intros x y Hx Hy H1 H2. apply He in Hy. unfold seq_ge in *. apply (NoDup_seq_inj l1); [done|done|done|lia].
  - apply NoDup_Permutation; [by eapply NoDup_fmap_1|by eapply NoDup_fmap_1|done].
Qed.

Lemma newest_first_sort l : StronglySorted seq_ge (merge_sort seq_ge l).
Proof. apply (StronglySorted_merge_sort seq_ge). Qed.

Lemma sublist_seqs_NoDup l1 l2 : l1 `sublist_of` l2 → NoDup (m_Seq <$> l2) → NoDup (m_Seq <$> l1).
Proof. intros Hs Hn. eapply sublist_NoDup; [exact Hn|by apply sublist_fmap]. Qed.

Lemma all_messages_spec hi name recs :
  log_ok hi recs →
  StronglySorted seq_ge (all_messages name recs) ∧ NoDup (m_Seq <$> all_messages name recs) ∧
  ∀ x, x ∈ all_messages name recs ↔ log_message name recs x.
Proof.
  intros Hok. unfold all_messages. split_and!; [apply newest_first_sort| |].
  - rewrite merge_sort_Permutation. by eapply fetch_NoDup.
  - intros x. rewrite merge_sort_Permutation, elem_of_fetch. split; [by intros []|]. eauto using log_message_seq.
Qed.

Lemma all_messages_seqs hi name recs : log_ok hi recs → m_Seq <$> all_messages name recs ≡ₚ msg_seqs recs.
Proof.
  intros Hok. destruct (all_messages_spec hi name recs Hok) as (_ & Hn & He).
  apply NoDup_Permutation; [done|apply Hok|]. intros seq. rewrite list_elem_of_fmap. split.
  - intros (m & -> & Hm). eapply log_message_seq. by apply He.
  - intros (m0 & Hm0 & <-)%elem_of_msg_seqs. exists (with_retract (scanMeta recs) (record_message name m0)). split.
    + unfold with_retract. change (m_Seq (record_message name m0)) with (m_Seq m0).
      by destruct (me_retracts _ !! m_Seq m0) as [[[? ?] ?]|].
    + apply He. by exists m0.
Qed.

(** [pageFile] hands out the newest messages below a seq. *)
Lemma page_file_spec hi name recs beforeSeq limit :
  log_ok hi recs →
  page_file name beforeSeq limit recs = take limit (filter (below beforeSeq) (all_messages name recs)).
Proof.
  intros Hok. destruct (all_messages_spec hi name recs Hok) as (Hs & Hn & He).
  set (L := take limit (filter (below beforeSeq) (all_messages name recs))).
  assert (L `sublist_of` all_messages name recs) as HL.
  { etrans; [apply sublist_take|apply sublist_filter]. }
  assert (reverse (sorted_seqs (scanMeta recs)) = m_Seq <$> all_messages name recs) as Er.
  { assert (∀ l1 l2 : list N, StronglySorted N.lt l1 → StronglySorted N.lt (reverse l2) → l1 ≡ₚ l2 → reverse l1 = l2) as Hu.
    { intros l1 l2 H1 H2 Hp. rewrite <-(reverse_involutive l2). f_equal. apply sorted_lt_unique; [done|done|].
      intros x. by rewrite elem_of_reverse, Hp. }
    destruct (sorted_seqs_spec recs) as [S1 S2]. apply Hu; [done| |].
    - clear -Hs Hn. induction (all_messages name recs) as [|x l IH]; [constructor|]. rewrite fmap_cons, reverse_cons.
      inversion Hs as [|? ? Hs' Hx]; subst. rewrite fmap_cons, NoDup_cons in Hn. destruct Hn as [Hx' Hn].
      apply StronglySorted_app. split_and!; [|by apply IH|repeat constructor].
      intros y z Hy ->%list_elem_of_singleton. apply elem_of_reverse, list_elem_of_fmap in Hy as (m & -> & Hm).
      rewrite Forall_forall in Hx. specialize (Hx m Hm). red in Hx. assert (m_Seq m ≠ m_Seq x); [|lia].
      intros E. apply Hx'. rewrite <-E. by apply list_elem_of_fmap_2.
    - etrans; [|symmetry; by eapply all_messages_seqs]. apply NoDup_Permutation; [|apply Hok|apply S2].
      clear -S1. induction S1 as [|x l _ IH Hx]; constructor; [|done].
      intros Hin. rewrite Forall_forall in Hx. specialize (Hx x Hin). lia. }
  unfold page_file. rewrite Er. assert (take limit (filter (λ seq, beforeSeq = 0 ∨ seq < beforeSeq) (m_Seq <$> all_messages name recs)) = m_Seq <$> L) as ->.
  { unfold L. rewrite fmap_take. f_equal. clear. induction (all_messages name recs) as [|x l IH]; [done|].
    rewrite fmap_cons, !filter_cons. destruct (decide (below beforeSeq x)) as [H|H]; [rewrite decide_True by done|rewrite decide_False by done; done].
    rewrite fmap_cons. by f_equal. }
  apply newest_first_unique.
  - apply newest_first_sort.
  - by eapply sublist_StronglySorted.
  - rewrite merge_sort_Permutation. by eapply fetch_NoDup.
  - by eapply sublist_seqs_NoDup.
  - intros x. rewrite merge_sort_Permutation, elem_of_fetch. split.
    + intros [Hx (y & E & Hy)%list_elem_of_fmap]. assert (x = y) as ->; [|done].
      apply (NoDup_seq_inj (all_messages name recs)); [done|by apply He| |done]. by eapply elem_of_sublist.
    + intros Hx. split; [|by apply list_elem_of_fmap_2]. apply He. by eapply elem_of_sublist.
Qed.

Lemma filter_none (P : RetainedMessage → Prop) `{!∀ x, Decision (P x)} l : (∀ x, x ∈ l → ¬ P x) → filter P l = [].
Proof.
  intros Hno. destruct (filter P l) as [|x k] eqn:E; [done|].
  assert (x ∈ filter P l) as [Hx Hin]%list_elem_of_filter by (rewrite E; by left). by destruct (Hno x).
Qed.

Lemma remove_one_length l m :
  NoDup (m_Seq <$> l) → m ∈ l → length (filter (λ x, m_Seq x ≠ m_Seq m) l) = (length l - 1)%nat.
Proof.
  induction l as [|x l IH]; intros Hn Hm; [by apply elem_of_nil in Hm|].
  rewrite fmap_cons, NoDup_cons in Hn. destruct Hn as [Hx Hn]. rewrite filter_cons. apply elem_of_cons in Hm as [-> |Hm].
  - rewrite decide_False by (by intros ?). rewrite filter_id; [cbn; lia|]. intros y Hy E. apply Hx. rewrite <-E. by apply list_elem_of_fmap_2.
  - rewrite decide_True; [|intros E; apply Hx; rewrite E; by apply list_elem_of_fmap_2]. cbn [length]. rewrite IH by done.
    destruct l; [by apply elem_of_nil in Hm|cbn; lia].
Qed.

(** A loop of pages over a list gives its newest live messages, once it has a turn
    per message. *)
Lemma page_live_spec (all : list RetainedMessage) (page : N → option (list RetainedMessage)) limit fuel beforeSeq out :
  StronglySorted seq_ge all → NoDup (m_Seq <$> all) → (∀ m, m ∈ all → 0 < m_Seq m) → (0 < limit)%nat →
  (∀ before, page before = Some (take limit (filter (below before) all))) →
  (length (filter (below beforeSeq) all) < fuel)%nat →
  page_live page fuel beforeSeq limit out =
    Some (out ++ take (limit - length out) (filter (λ m, m_RetractedAt m = 0%Z) (filter (below beforeSeq) all))).
Proof.
  intros Hs Hn Hp Hl Hpage. revert beforeSeq out. induction fuel as [|fuel IH]; intros beforeSeq out Hf; [lia|].
  cbn [page_live]. destruct (Nat.leb_spec limit (length out)) as [Ho|Ho].
  { replace (limit - length out)%nat with O by lia. by rewrite take_0, app_nil_r. }
  rewrite Hpage. cbn [mbind option_bind]. set (L := filter (below beforeSeq) all) in *.
  set (live := filter (λ m, m_RetractedAt m = 0%Z)). destruct (Nat.ltb_spec (length (take limit L)) limit) as [Hshort|Hfull].
  { rewrite length_take in Hshort. by rewrite (take_ge L) by lia. }
  rewrite length_take in Hfull. assert (limit ≤ length L)%nat as Hle by lia.
  destruct (last (take limit L)) as [m|] eqn:El.
  2:{ apply last_None in El. apply (f_equal length) in El. rewrite length_take in El. cbn in El. lia. }
  assert (filter (below (m_Seq m)) all = drop limit L) as Ed.
  { rewrite last_lookup, length_take, lookup_take in El. rewrite Nat.min_l in El by lia. rewrite decide_True in El by lia.
    assert (L `sublist_of` all) as HL by apply sublist_filter.
    assert (m ∈ L) as HmL by (by eapply list_elem_of_lookup_2).
    assert (0 < m_Seq m) as Hm0 by (by eapply Hp, elem_of_sublist).
    assert (StronglySorted seq_ge L) as HsL by (by eapply sublist_StronglySorted).
    assert (NoDup (m_Seq <$> L)) as HnL by (by eapply sublist_seqs_NoDup).
    assert (filter (below (m_Seq m)) all = filter (below (m_Seq m)) L) as ->.
    { unfold L. rewrite list_filter_filter. apply list_filter_iff. intros x.
      apply list_elem_of_filter in HmL as [HmL _]. unfold below in *. lia. }
    rewrite <-(take_drop_middle L (pred limit) m El) at 1. rewrite Nat.succ_pred_pos by lia.
    pose proof HsL as HsL'. pose proof HnL as HnL'. rewrite <-(take_drop_middle L (pred limit) m El), Nat.succ_pred_pos in HsL', HnL' by lia.
    rewrite fmap_app, fmap_cons in HnL'. apply NoDup_app in HnL' as (_ & _ & [Hmd _]%NoDup_cons).
    apply StronglySorted_app in HsL' as (Hlow & _ & Hsm). inversion Hsm as [|? ? _ Hge]; subst.
    rewrite filter_app, filter_cons, decide_False by (unfold below; lia).
    rewrite filter_none, filter_id; [done| |].
    - intros x Hx. rewrite Forall_forall in Hge. specialize (Hge x Hx). red in Hge. right.
      assert (m_Seq x ≠ m_Seq m); [|lia]. intros E. apply Hmd. rewrite <-E. by apply list_elem_of_fmap_2.
    - intros x Hx. specialize (Hlow x m Hx ltac:(by left)). unfold seq_ge, below in *. lia. }
  rewrite IH; [|rewrite Ed, length_drop; lia]. rewrite Ed, <-app_assoc. do 2 f_equal. fold live.
  assert (live L = live (take limit L) ++ live (drop limit L)) as -> by (unfold live; by rewrite <-filter_app, take_drop).
  rewrite length_app, length_take, take_app. f_equal. f_equal. lia.
Qed.
End pages.

(** ** What an archive is made of *)

Section making.
Implicit Types (recs : list storeRecord) (m : RetainedMessage) (name topic : string).

Lemma highest_spec (l : list N) : (∀ x, x ∈ l → x ≤ highest l) ∧ (l ≠ [] → highest l ∈ l).
Proof.
  unfold highest. assert (∀ k, k ≤ foldl (λ hi seq, if hi <? seq then seq else hi) k l ∧
    (∀ x, x ∈ l → x ≤ foldl (λ hi seq, if hi <? seq then seq else hi) k l) ∧
    (foldl (λ hi seq, if hi <? seq then seq else hi) k l = k ∨ foldl (λ hi seq, if hi <? seq then seq else hi) k l ∈ l)) as H.
  { induction l as [|y l IH]; intros k; cbn [foldl]; [split_and!; [done|by intros x ?%elem_of_nil|by left]|].
    destruct (IH (if k <? y then y else k)) as (H1 & H2 & H3). destruct (N.ltb_spec k y) as [Hlt|Hge].
    - split_and!; [lia| |]; [intros x [-> |Hx]%elem_of_cons; [done|by apply H2]|].
      right. destruct H3 as [-> |H3]; [by left|by right].
    - split_and!; [lia| |]; [intros x [-> |Hx]%elem_of_cons; [lia|by apply H2]|].
      destruct H3 as [-> |H3]; [by left|right; by right]. }
  destruct (H 0) as (_ & H2 & H3). split; [done|]. intros Hne. destruct H3 as [E|?]; [|done].
  destruct l as [|y l]; [done|]. rewrite E in H2 |- *. specialize (H2 y ltac:(by left)). assert (y = 0) as -> by lia. by left.
Qed.

#[export] Instance highest_proper : Proper (Permutation ==> eq) highest.
Proof.
  intros l l' Hp. destruct (highest_spec l) as [A1 A2], (highest_spec l') as [B1 B2].
  destruct l as [|x l]; [by apply Permutation_nil_l in Hp as ->|]. destruct l' as [|x' l']; [by apply Permutation_nil_r in Hp|].
  apply N.le_antisymm; [apply B1; rewrite <-Hp; by apply A2|apply A1; rewrite Hp; by apply B2].
Qed.

(** *** From a log *)

Lemma archived_seqs me recs :
  (∀ m, RMsg m ∈ recs → m_Seq m ∈ me_msgs me) → msg_seqs (filter (λ r, archived_line me r = true) recs) = msg_seqs recs.
Proof.
  induction recs as [|r recs IH]; intros Hin; [done|]. rewrite filter_cons.
  assert (msg_seqs (filter (λ r, archived_line me r = true) recs) = msg_seqs recs) as E by (apply IH; intros m Hm; apply Hin; by right).
  destruct r as [|m|seq a c d| | | |]; cbn [archived_line].
  - rewrite decide_False by done. exact E.
  - rewrite bool_decide_eq_true_2 by (apply Hin; by left). rewrite decide_True by done.
    change (m_Seq m :: msg_seqs (filter (λ r, archived_line me r = true) recs) = m_Seq m :: msg_seqs recs). by rewrite E.
  - destruct (decide _); exact E.
  - rewrite decide_False by done. exact E.
  - rewrite decide_False by done. exact E.
  - rewrite decide_False by done. exact E.
  - rewrite decide_False by done. exact E.
Qed.

Lemma archived_retracts me recs seq :
  seq ∈ me_msgs me →
  me_retracts (scanMeta (filter (λ r, archived_line me r = true) recs)) !! seq = me_retracts (scanMeta recs) !! seq.
Proof.
  intros Hin. induction recs as [|r recs IH] using rev_ind; [done|]. rewrite filter_app, filter_cons, filter_nil.
  destruct (decide (archived_line me r = true)) as [Hk|Hk].
  - rewrite !scanMeta_snoc. destruct r as [|m|s a c d| | | |]; try done.
    change (<[s := (a, c, d)]> (me_retracts (scanMeta (filter (λ r, archived_line me r = true) recs))) !! seq =
            <[s := (a, c, d)]> (me_retracts (scanMeta recs)) !! seq).
    destruct (decide (s = seq)) as [-> |Hne]; [by rewrite !lookup_insert_eq|by rewrite !lookup_insert_ne].
  - rewrite app_nil_r, IH. symmetry. apply scan_retracts_other. intros a c d ->. cbn [archived_line] in Hk.
    by rewrite bool_decide_eq_true_2 in Hk.
Qed.

Lemma archived_log hi name recs :
  log_ok hi recs →
  let me := scanMeta recs in let recs' := filter (λ r, archived_line me r = true) recs in
  log_ok (highest (elements (me_msgs me))) recs' ∧ msg_seqs recs' = msg_seqs recs ∧
  ∀ x, log_message name recs' x ↔ log_message name recs x.
Proof.
  intros Hok me recs'. pose proof Hok as [Hu Hb Hst Hc].
  assert (∀ m, RMsg m ∈ recs → m_Seq m ∈ me_msgs me) as Hms by (intros m Hm; apply elem_of_me_msgs, elem_of_msg_seqs; eauto).
  assert (msg_seqs recs' = msg_seqs recs) as Es by (by apply archived_seqs).
  assert (∀ m, RMsg m ∈ recs' ↔ RMsg m ∈ recs) as Hin.
  { intros m. unfold recs'. rewrite list_elem_of_filter. split; [by intros []|]. intros Hm. split; [|done].
    cbn [archived_line]. apply bool_decide_eq_true_2. auto. }
  assert (∀ m, RMsg m ∈ recs → with_retract (scanMeta recs') (record_message name m) = with_retract me (record_message name m)) as Hw.
  { intros m Hm. apply with_retract_same. apply archived_retracts. exact (Hms m Hm). }
  destruct (highest_spec (elements (me_msgs me))) as [Hhi _]. split; [|split; [done|]].
  - split.
    + by rewrite Es.
    + intros r [Hk _]%list_elem_of_filter. destruct r as [|m|seq a c d| | | |]; try done; cbn [archived_line] in Hk;
        apply bool_decide_eq_true_1 in Hk; by apply Hhi, elem_of_elements.
    + intros seq v Hv. destruct (retracts_bound _ _ _ Hv) as (a & c & d & [Hk _]%list_elem_of_filter). cbn [archived_line] in Hk.
      apply bool_decide_eq_true_1 in Hk. unfold recs' in Hv. rewrite archived_retracts in Hv by done. by eapply Hst.
    + intros m Hm%Hin. by apply Hc.
  - intros x. unfold log_message. split; intros (m & Hm & ->); exists m; rewrite Hin in *; (split; [done|]); by rewrite Hw.
Qed.

(** *** From memory *)

Lemma message_lines_seqs (msgs : list RetainedMessage) : msg_seqs (flat_map message_lines msgs) = m_Seq <$> msgs.
Proof.
  induction msgs as [|m msgs IH]; [done|]. cbn [flat_map]. rewrite msg_seqs_app, IH. unfold message_lines.
  by destruct (m_RetractedAt m =? 0)%Z.
Qed.

Lemma message_lines_log hi ringN name t :
  topic_inv hi ringN name t →
  let recs := flat_map message_lines (snapshotAll t) in
  log_ok (highest (m_Seq <$> snapshotAll t)) recs ∧ ∀ x, log_message name recs x ↔ x ∈ snapshotAll t.
Proof.
  intros Ht recs. destruct (highest_spec (m_Seq <$> snapshotAll t)) as [Hhi _]. set (top := highest (m_Seq <$> snapshotAll t)) in *.
  assert (∀ m, m ∈ snapshotAll t ↔ m ∈ t_ring t ++ t_retracted t) as Hall
    by (intros m; unfold snapshotAll; by rewrite merge_sort_Permutation).
  assert (staged top name recs (λ x, False ∨ x ∈ snapshotAll t)) as [S1 S2 _ _]; [|split; [done|intros x; rewrite S2; tauto]].
  apply (staged_list top name message_lines
    (λ m, m_Seq m ≤ top ∧ m_Topic m = name ∧ (m_RetractedAt m = 0%Z → unwithdrawn name m = m)) _ []).
  - intros recs0 have m Hs (Hb & Hn & Hc) Hne. unfold message_lines. destruct (Z.eqb_spec (m_RetractedAt m) 0) as [E|E].
    + by apply staged_msg; [| |apply Hc|].
    + by apply staged_wd.
  - split; [|intros x; split; [by intros (? & ?%elem_of_nil & _)|done]|by intros seq v|done].
    split; [constructor|by intros r ?%elem_of_nil|by intros seq v|by intros m ?%elem_of_nil].
  - unfold snapshotAll. rewrite merge_sort_Permutation. apply Ht.
  - intros m Hm. split; [|done]. split_and!.
    + apply Hhi. by apply list_elem_of_fmap_2.
    + apply Hall, elem_of_app in Hm as [Hm|Hm]; [|by apply Ht]. by rewrite <-(ti_clean _ _ _ _ Ht m Hm).
    + intros Hz. apply Hall, elem_of_app in Hm as [Hm|Hm]; [by apply Ht|]. by destruct (ok_withdrawn _ _ (ti_ok _ _ _ _ Ht) m Hm).
Qed.
End making.

(** ** The directory *)

Section directory.
Implicit Types (id name : string) (a : archive) (dir : archives) (info : ArchiveInfo).

Record archive_ok id a : Prop := {
  ao_id : h_Archive (a_hdr a) = id;
  ao_path : archivePath id = true;
  ao_log : log_ok (h_Seq (a_hdr a)) (a_recs a);
  ao_pos seq : seq ∈ msg_seqs (a_recs a) → 0 < seq;
  ao_count : h_Count (a_hdr a) = Z.of_nat (length (msg_seqs (a_recs a)));
}.
Definition dir_ok dir : Prop := ∀ id a, dir !! id = Some a → archive_ok id a.

(** What [rand.Read] fills six bytes with. *)
Definition draw_ok (d : list N) : Prop := length d = 6%nat ∧ Forall (λ x, x < 256) d.

(** The messages of an archive, newest first. *)
Definition frozen a : list RetainedMessage := all_messages (h_Topic (a_hdr a)) (a_recs a).

Lemma draw_path d : draw_ok d → archivePath (EncodeToString d) = true.
Proof.
  intros [Hl Hb]. unfold archivePath. rewrite <-chars_length. unfold EncodeToString. rewrite chars_unchars. apply andb_true_iff. split.
  - apply bool_decide_eq_true_2. assert (∀ l, length (flat_map (λ b : N, [hexdigit (b / 16); hexdigit (b `mod` 16)]) l) = 2 * length l)%nat as ->; [|lia].
    intros l. induction l as [|x l IH]; [done|]. cbn [flat_map]. rewrite length_app, IH. cbn. lia.
  - clear Hl. induction Hb as [|x d Hx _ IH]; [done|]. cbn [flat_map app forallb]. unfold is_lhex.
    assert (x / 16 < 16) by (apply N.Div0.div_lt_upper_bound; lia). assert (x `mod` 16 < 16) by (apply N.mod_lt; lia).
    rewrite !hexval_hexdigit, !lower_hexdigit by done. by rewrite !bool_decide_eq_true_2.
Qed.

Lemma new_id draws dir :
  Forall draw_ok draws →
  match newArchiveIDLocked draws dir with
  | Some id => dir !! id = None ∧ archivePath id = true
  | None => ∀ d, d ∈ draws → is_Some (dir !! EncodeToString d)
  end.
Proof.
  induction 1 as [|d draws Hd _ IH]; cbn [newArchiveIDLocked]; [by intros d ?%elem_of_nil|].
  destruct (decide (dir !! EncodeToString d = None)) as [E|E].
  - split; [done|by apply draw_path].
  - destruct (newArchiveIDLocked draws dir); [done|]. intros d' [-> |Hd']%elem_of_cons; [|by apply IH].
    by destruct (dir !! EncodeToString d).
Qed.

Lemma frozen_length id a : archive_ok id a → Z.of_nat (length (frozen a)) = h_Count (a_hdr a).
Proof.
  intros [_ _ Hl _ ->]. unfold frozen. rewrite <-(length_fmap m_Seq). by rewrite (Permutation_length (all_messages_seqs _ _ _ Hl)).
Qed.

Lemma frozen_spec id a : archive_ok id a →
  StronglySorted seq_ge (frozen a) ∧ NoDup (m_Seq <$> frozen a) ∧
  ∀ m, m ∈ frozen a → 0 < m_Seq m ≤ h_Seq (a_hdr a) ∧ m_Topic m = h_Topic (a_hdr a).
Proof.
  intros [_ _ Hl Hp _]. destruct (all_messages_spec _ (h_Topic (a_hdr a)) _ Hl) as (H1 & H2 & H3). split_and!; [done|done|].
  intros m Hm%H3. split; [|by eapply log_topic]. split; [by eapply Hp, log_message_seq|by eapply log_message_bound].
Qed.

(** *** Removing *)

Lemma frozen_remove id a seq c :
  archive_ok id a → c = (h_Count (a_hdr a) - 1)%Z → seq ∈ msg_seqs (a_recs a) →
  let a' := mkArchive ((a_hdr a){{ h_Count := c }}) (filter (λ r, of_message seq r = false) (a_recs a)) in
  archive_ok id a' ∧ frozen a' = filter (λ m, m_Seq m ≠ seq) (frozen a).
Proof.
  intros Hok -> Hseq a'. pose proof Hok as [E1 E2 Hl Hp Hc]. set (recs' := filter (λ r, of_message seq r = false) (a_recs a)).
  destruct (log_filter _ (h_Topic (a_hdr a)) _ seq Hl) as [Hl' Hm]. fold recs' in Hl', Hm.
  destruct (all_messages_spec _ (h_Topic (a_hdr a)) _ Hl) as (S1 & N1 & M1).
  destruct (all_messages_spec _ (h_Topic (a_hdr a)) _ Hl') as (S2 & N2 & M2).
  assert (all_messages (h_Topic (a_hdr a)) recs' = filter (λ m, m_Seq m ≠ seq) (frozen a)) as Ef.
  { apply newest_first_unique; [done|eapply sublist_StronglySorted; [exact S1|apply sublist_filter]|done| |].
    - eapply sublist_seqs_NoDup; [apply sublist_filter|exact N1].
    - intros x. rewrite M2, Hm, list_elem_of_filter. unfold frozen. rewrite M1. tauto. }
  split; [|exact Ef]. split; [done|done|done| |].
  - intros s Hs. apply Hp. apply elem_of_msg_seqs in Hs as (m & [_ Hin]%list_elem_of_filter & <-). apply elem_of_msg_seqs. eauto.
  - change (h_Count (a_hdr a) - 1 = Z.of_nat (length (msg_seqs recs')))%Z.
    assert (length (msg_seqs recs') = length (frozen a) - 1)%nat as ->.
    { rewrite <-(Permutation_length (all_messages_seqs _ (h_Topic (a_hdr a)) _ Hl')), length_fmap, Ef.
      rewrite <-(all_messages_seqs _ (h_Topic (a_hdr a)) _ Hl), list_elem_of_fmap in Hseq. destruct Hseq as (m & -> & Hm0).
      by apply remove_one_length. }
    rewrite Hc. assert (length (frozen a) = length (msg_seqs (a_recs a))) as ->.
    { rewrite <-(length_fmap m_Seq). apply Permutation_length. by eapply all_messages_seqs. }
    destruct (msg_seqs (a_recs a)); [by apply elem_of_nil in Hseq|]. cbn [length]. lia.
Qed.

(** The size of a file. *)
Context (file_bytes : archive → Z).

Lemma ArchiveOf_Some id a dir : dir_ok dir → dir !! id = Some a →
  ArchiveOf file_bytes id dir = Some (mkArchiveInfo id (h_Topic (a_hdr a)) (h_Seq (a_hdr a)) (h_Count (a_hdr a)) (h_AtMs (a_hdr a)) (h_ByTask (a_hdr a)) (file_bytes a)).
Proof.
  intros Hd Ha. destruct (Hd id a Ha) as [E1 E2 _ _ _]. unfold ArchiveOf, readArchiveInfo. rewrite E2, Ha. cbn [mbind option_bind].
  rewrite E1. rewrite bool_decide_eq_false_2; [done|]. intros ->. done.
Qed.

Lemma ArchiveOf_None id dir : dir !! id = None → ArchiveOf file_bytes id dir = None.
Proof. intros E. unfold ArchiveOf. rewrite E. by destruct (archivePath id). Qed.

(** The listing has every archive. *)
Lemma store_Archives_elem id a dir :
  dir_ok dir → dir !! id = Some a → ∃ info, info ∈ store_Archives file_bytes dir ∧ ar_Through info = h_Seq (a_hdr a).
Proof.
  intros Hd Ha. pose proof (ArchiveOf_Some id a dir Hd Ha) as Hof. unfold ArchiveOf in Hof. rewrite (ao_path _ _ (Hd id a Ha)), Ha in Hof.
  eexists. split; [apply list_elem_of_omap; exists id; rewrite (ao_path _ _ (Hd id a Ha)), Ha; split; [|exact Hof]|done].
  apply elem_of_sort_strings, list_elem_of_fmap. exists (id, a). split; [done|by apply elem_of_map_to_list].
Qed.

(** An archive pages out its messages. *)
Lemma ArchivePage_spec id a dir beforeSeq limit :
  dir_ok dir → dir !! id = Some a →
  ArchivePage file_bytes id beforeSeq limit dir = take limit (filter (below beforeSeq) (frozen a)).
Proof.
  intros Hd Ha. unfold ArchivePage. rewrite (ArchiveOf_Some id a dir Hd Ha), Ha. cbn [ar_Topic].
  by eapply page_file_spec, ao_log, Hd.
Qed.

(** *** Writing *)

Lemma write_archive draws info body dir :
  dir_ok dir → Forall draw_ok draws → log_ok (ar_Through info) body → (∀ seq, seq ∈ msg_seqs body → 0 < seq) →
  ar_Count info = Z.of_nat (length (msg_seqs body)) →
  match writeArchiveLocked file_bytes draws info body dir with
  | (dir', Ok info') =>
      ∃ a, dir !! ar_ID info' = None ∧ dir' = <[ar_ID info' := a]> dir ∧ dir_ok dir' ∧
        ArchiveOf file_bytes (ar_ID info') dir' = Some info' ∧ a_recs a = body ∧ h_Topic (a_hdr a) = ar_Topic info ∧
        ar_Topic info' = ar_Topic info ∧ ar_Through info' = ar_Through info ∧ ar_Count info' = ar_Count info ∧
        ar_CreatedAt info' = ar_CreatedAt info ∧ ar_CreatedBy info' = ar_CreatedBy info
  | (dir', Err e) => dir' = dir ∧ e = ErrNoDraw ∧ ∀ d, d ∈ draws → is_Some (dir !! EncodeToString d)
  end.
Proof.
  intros Hd Hdr Hl Hp Hc. unfold writeArchiveLocked. pose proof (new_id draws dir Hdr) as Hid.
  destruct (newArchiveIDLocked draws dir) as [id|]; [|done]. destruct Hid as [Hn Hpath].
  destruct info as [i0 tp th ct at_ by_ bs]. set (a := mkArchive _ body).
  exists a. assert (dir_ok (<[id := a]> dir)) as Hd'.
  { intros id' a'. rewrite lookup_insert_Some. intros [[<- <-]|[_ Ha]]; [|by apply Hd]. by split. }
  split_and!; try done. exact (ArchiveOf_Some id a _ Hd' (lookup_insert_eq _ _ _)).
Qed.
End directory.

(** ** The board and its archives *)

Section claims.
Context {R : Type} `{!ReachSource R} (reach : option R).
Context (clock : nat → Z) (disk_bytes : list storeRecord → Z) (file_bytes : archive → Z) (cfg : Config).
Implicit Types (b : Board) (dir : archives) (id topic : string).

#[local] Instance disk' : BoardStore := file_store clock disk_bytes.

(** What the topic held when the archive [info] of it was made. *)
Record made_of b topic (info : ArchiveInfo) dir dir' : Prop := {
  mo_topic : ar_Topic info = topic;
  mo_fresh : dir !! ar_ID info = None;
  mo_others id : id ≠ ar_ID info → dir' !! id = dir !! id;
  mo_info : ArchiveOf file_bytes (ar_ID info) dir' = Some info;
  mo_page beforeSeq limit : Page topic beforeSeq limit b = Some (ArchivePage file_bytes (ar_ID info) beforeSeq limit dir');
  mo_count : ar_Count info = Z.of_nat (length (ArchivePage file_bytes (ar_ID info) 0 (Z.to_nat (ar_Count info)) dir'));
  mo_through : m_Seq <$> head (ArchivePage file_bytes (ar_ID info) 0 1 dir') = Some (ar_Through info);
}.

Lemma head_highest (l : list RetainedMessage) (seqs : list N) :
  StronglySorted seq_ge l → m_Seq <$> l ≡ₚ seqs → seqs ≠ [] → m_Seq <$> head l = Some (highest seqs).
Proof.
  intros Hs Hp Hne. destruct (highest_spec seqs) as [H1 H2]. destruct l as [|m l]; [by apply Permutation_nil_l in Hp|].
  cbn. f_equal. specialize (H2 Hne). rewrite <-Hp in H2 at 2. apply list_elem_of_fmap in H2 as (x & Ex & Hx).
  assert (m_Seq m ≤ highest seqs) by (apply H1; rewrite <-Hp; by left).
  inversion Hs as [|? ? _ Hm]; subst. apply elem_of_cons in Hx as [-> |Hx]; [done|]. rewrite Forall_forall in Hm. specialize (Hm x Hx). red in Hm. lia.
Qed.

(** Why there is no archive. *)
Definition not_archived b topic (draws : list (list N)) dir (e : archive_error) : Prop :=
  match e with
  | ErrBoard ErrNotRetainable => Retainable topic = false
  | ErrBoard ErrNoTopic => b_topics b !! topic = None
  | ErrArchiveEmpty => is_Some (b_topics b !! topic) ∧ ∀ beforeSeq limit, Page topic beforeSeq limit b = Some []
  | ErrNoDraw => ∀ d, d ∈ draws → is_Some (dir !! EncodeToString d)
  | _ => False
  end.

(** What [Archive] answers and leaves. *)
Definition archive_result b topic by_ now draws dir (res : archives * result archive_error ArchiveInfo) : Prop :=
  match res with
  | (dir', Ok info) => made_of b topic info dir dir' ∧ dir_ok dir' ∧ ar_CreatedAt info = now ∧ ar_CreatedBy info = by_
  | (dir', Err e) => dir' = dir ∧ not_archived b topic draws dir e
  end.

Section made.
Context (b : Board) (dir : archives) (topic : string) (by_ : TaskID) (now : Z) (draws : list (list N)).
Hypothesis Hd : dir_ok dir.
Hypothesis Hdr : Forall draw_ok draws.

(** The pages of the topic are those of the records [recs]. *)
Definition pages_like (recs : list storeRecord) : Prop :=
  ∀ beforeSeq limit, Page topic beforeSeq limit b = Some (take limit (filter (below beforeSeq) (all_messages topic recs))).

(** A file that pages as the topic did makes the archive of it. *)
Lemma write_made body :
  let info := mkArchiveInfo "" topic (highest (msg_seqs body)) (Z.of_nat (length (msg_seqs body))) now by_ 0 in
  log_ok (highest (msg_seqs body)) body → (∀ seq, seq ∈ msg_seqs body → 0 < seq) → msg_seqs body ≠ [] → pages_like body →
  archive_result b topic by_ now draws dir (writeArchiveLocked file_bytes draws info body dir).
Proof.
  intros info Hl Hp Hne Hpage. pose proof (write_archive file_bytes draws info body dir Hd Hdr Hl Hp eq_refl) as Hw.
  destruct (writeArchiveLocked _ _ _ _ _) as [dir' [info'|e]]; [|by destruct Hw as (-> & -> & Hw)].
  destruct Hw as (a & Hn & -> & Hd' & Hi & Eb & Eh & Et' & Eth & Ec & Ea & Eby). cbn [info ar_Topic ar_Through ar_Count] in *.
  assert (∀ before limit, ArchivePage file_bytes (ar_ID info') before limit (<[ar_ID info' := a]> dir) = take limit (filter (below before) (all_messages topic body))) as Hap.
  { intros before limit. rewrite (ArchivePage_spec file_bytes _ a) by (done || apply lookup_insert_eq). unfold frozen. by rewrite Eb, Eh. }
  assert (∀ x, below 0 x) as H0 by (by left). split; [|done]. split; [done|done| |done| | |].
  - intros id Hne'. by apply lookup_insert_ne.
  - intros before limit. by rewrite Hpage, Hap.
  - rewrite Hap, filter_id by done. rewrite Ec, Nat2Z.id, length_take. f_equal.
    rewrite <-(length_fmap m_Seq (all_messages topic body)), (Permutation_length (all_messages_seqs _ topic _ Hl)). lia.
  - rewrite Hap, filter_id by done. rewrite Eth. destruct (all_messages_spec _ topic _ Hl) as (S1 & _ & _).
    rewrite <-(head_highest (all_messages topic body) (msg_seqs body) S1); [by destruct (all_messages topic body)|by eapply all_messages_seqs|done].
Qed.

Lemma ArchiveLog_made s hi :
  is_Some (b_topics b !! topic) → pages_like (file topic s) → log_ok hi (file topic s) → (∀ seq, seq ∈ msg_seqs (file topic s) → 0 < seq) →
  archive_result b topic by_ now draws dir (ArchiveLog file_bytes draws topic by_ now s dir).
Proof.
  intros Ht Hpage Hlok Hp. unfold ArchiveLog. set (recs := file topic s) in *. set (me := scanMeta recs).
  assert (elements (me_msgs me) ≡ₚ msg_seqs recs) as Hel.
  { apply NoDup_Permutation; [apply NoDup_elements|apply Hlok|]. intros seq. rewrite elem_of_elements. apply elem_of_me_msgs. }
  case_bool_decide as Hemp.
  { split; [done|]. split; [done|]. intros before limit. rewrite Hpage.
    assert (all_messages topic recs = []) as ->; [|by rewrite filter_nil, take_nil].
    pose proof (all_messages_seqs _ topic _ Hlok) as Hq. rewrite <-Hel, Hemp, elements_empty in Hq. by apply Permutation_nil_r, fmap_nil_inv in Hq. }
  destruct (archived_log _ topic _ Hlok) as (G1 & G2 & G3). fold me in G1, G2, G3. set (recs' := filter _ recs) in *.
  destruct (all_messages_spec _ topic _ Hlok) as (S1 & N1 & M1). destruct (all_messages_spec _ topic _ G1) as (S2 & N2 & M2).
  assert (size (me_msgs me) = length (msg_seqs recs')) as -> by (rewrite G2, <-(Permutation_length Hel); done).
  rewrite Hel, <-G2 in G1 |- *. apply write_made; [exact G1|by rewrite G2| |].
  - rewrite G2. intros E. apply Hemp. rewrite E in Hel. apply Permutation_nil_r in Hel. apply leibniz_equiv. by apply elements_empty_iff.
  - intros before limit. rewrite Hpage. do 3 f_equal. apply newest_first_unique; try done. intros x. by rewrite M1, M2, G3.
Qed.

Lemma ArchiveMessages_made t hi ringN :
  b_topics b !! topic = Some t → retained t = false → topic_inv hi ringN topic t →
  archive_result b topic by_ now draws dir (ArchiveMessages file_bytes draws topic (snapshotAll t) by_ now dir).
Proof.
  intros Et Ert Hti. destruct (message_lines_log _ _ _ _ Hti) as [G1 G2]. set (recs := flat_map _ _) in *.
  assert (msg_seqs recs = m_Seq <$> snapshotAll t) as Es by apply message_lines_seqs.
  assert (NoDup (m_Seq <$> (snapshot t ++ snapshotRetracted t))) as Hnd by apply Hti.
  assert (all_messages topic recs = merge_sort seq_ge (snapshot t ++ snapshotRetracted t)) as Ea.
  { destruct (all_messages_spec _ topic _ G1) as (S1 & N1 & M1).
    apply newest_first_unique; [done|apply newest_first_sort|done|by rewrite merge_sort_Permutation|].
    intros x. rewrite M1, G2. unfold snapshotAll. by rewrite !merge_sort_Permutation. }
  assert (pages_like recs) as Hpage by (intros before limit; unfold Page; by rewrite Et, Ert, Ea).
  destruct (decide (snapshotAll t = [])) as [Eall|Eall].
  - unfold ArchiveMessages. rewrite Eall. split; [done|]. split; [by rewrite Et|]. intros before limit. rewrite Hpage.
    assert (all_messages topic recs = []) as ->; [|by rewrite filter_nil, take_nil].
    rewrite Eall in Es. pose proof (all_messages_seqs _ topic _ G1) as Hq. rewrite Es in Hq. by apply Permutation_nil_r, fmap_nil_inv in Hq.
  - assert (ArchiveMessages file_bytes draws topic (snapshotAll t) by_ now dir = writeArchiveLocked file_bytes draws
      (mkArchiveInfo "" topic (highest (m_Seq <$> snapshotAll t)) (Z.of_nat (length (m_Seq <$> snapshotAll t))) now by_ 0) recs dir) as ->
      by (rewrite length_fmap; unfold recs; by destruct (snapshotAll t)).
    rewrite <-Es in G1 |- *. apply write_made; [exact G1| | |exact Hpage].
    + intros seq. rewrite Es, list_elem_of_fmap. intros (m & -> & Hm). apply (ti_pos _ _ _ _ Hti).
      unfold snapshotAll in Hm. by rewrite merge_sort_Permutation in Hm.
    + rewrite Es. by intros ?%fmap_nil_inv.
Qed.

Lemma Archive_made :
  binv clock cfg b → archive_result b topic by_ now draws dir (Archive file_bytes clock draws topic by_ now b dir).
Proof.
  intros Hb. unfold Archive. destruct (Retainable topic) eqn:Er; cbn [negb]; [|done].
  destruct (bi_store _ _ _ Hb) as [h Eh]. rewrite Eh. destruct (b_topics b !! topic) as [t|] eqn:Et; [|done].
  destruct (retained t) eqn:Ert; [|by eapply ArchiveMessages_made, Hb].
  destruct (retained_Some t Ert) as [r Hr]. destruct (bi_logged _ _ _ Hb _ _ _ Et Hr) as (h' & Eh' & Hlg).
  rewrite Eh in Eh'. apply (inj Some) in Eh' as <-. eapply ArchiveLog_made; [done| |apply Hlg|apply Hlg].
  intros before limit. unfold Page. rewrite Et, Ert, Eh. cbn [mbind option_bind].
  change (Some (page_file topic before limit (file topic (fs_of clock h))) = Some (take limit (filter (below before) (all_messages topic (file topic (fs_of clock h)))))).
  f_equal. by eapply page_file_spec, lg_ok.
Qed.
End made.

(** *** Any sequence of operations *)

Inductive arch_op :=
  | AOBoard (o : board_op)
  | AOArchive (draws : list (list N)) (topic : string) (by_ : TaskID) (now : Z)
  | AOPurge (id : string) (seq : N).

Definition arch_step (o : arch_op) (st : Board * archives) : option (Board * archives) :=
  let '(b, dir) := st in
  match o with
  | AOBoard o => b' ← board_step clock reach disk_bytes o b; Some (b', dir)
  | AOArchive draws topic by_ now => Some (b, (Archive file_bytes clock draws topic by_ now b dir).1)
  | AOPurge id seq => Some (b, (ArchivePurge file_bytes id seq dir).1)
  end.
Fixpoint arch_run (os : list arch_op) (st : Board * archives) : option (Board * archives) :=
  match os with [] => Some st | o :: os' => st' ← arch_step o st; arch_run os' st' end.

(** Board operations are called as [op_ok] asks, and ids are six random bytes. *)
Definition arch_op_ok (o : arch_op) (st : Board * archives) : Prop :=
  match o with AOBoard o => op_ok o st.1 | AOArchive draws _ _ _ => Forall draw_ok draws | AOPurge _ _ => True end.
Fixpoint arch_ok (os : list arch_op) (st : Board * archives) : Prop :=
  match os with
  | [] => True
  | o :: os' => arch_op_ok o st ∧ match arch_step o st with Some st' => arch_ok os' st' | None => True end
  end.

Definition purges (id : string) (seq : N) (o : arch_op) : bool :=
  match o with AOPurge id' seq' => bool_decide (id' = id) && (seq' =? seq) | _ => false end.
Definition purged (os : list arch_op) (id : string) (seq : N) : bool := existsb (purges id seq) os.

(** [a'] is [a] less the messages [gone] names. *)
Definition thinned (gone : N → bool) (a a' : archive) : Prop :=
  a_hdr a' = (a_hdr a){{ h_Count := Z.of_nat (length (frozen a')) }} ∧ frozen a' = filter (λ m, gone (m_Seq m) = false) (frozen a).

Lemma thinned_refl id a (gone : N → bool) :
  archive_ok id a → (∀ m, m ∈ frozen a → gone (m_Seq m) = false) → thinned gone a a.
Proof. intros Hok Hg. split; [rewrite (frozen_length id a Hok); by destruct (a_hdr a)|by rewrite filter_id]. Qed.

Lemma ArchivePurge_step id seq dir :
  dir_ok dir → let dir' := (ArchivePurge file_bytes id seq dir).1 in
  dir_ok dir' ∧ ∀ id' a, dir !! id' = Some a → purges id' 0 (AOPurge id seq) = false →
    ∃ a', dir' !! id' = Some a' ∧ thinned (λ s, purges id' s (AOPurge id seq)) a a'.
Proof.
  intros Hd dir'. assert (∀ id' a, dir !! id' = Some a → id' ≠ id → thinned (λ s, purges id' s (AOPurge id seq)) a a) as Hother.
  { intros id' a Ha Hne. apply (thinned_refl id' a); [by apply Hd|]. intros m _. cbn. by rewrite bool_decide_eq_false_2. }
  destruct (dir !! id) as [a|] eqn:Ha.
  2:{ unfold dir', ArchivePurge. rewrite ArchiveOf_None by done. split; [done|]. intros id' a' Ha' _. exists a'. split; [done|].
      apply Hother; [done|congruence]. }
  pose proof (Hd id a Ha) as Hok. unfold dir', ArchivePurge, ArchiveRemove. rewrite (ArchiveOf_Some file_bytes id a dir Hd Ha), Ha.
  destruct (N.eqb_spec seq 0) as [-> |Hs0].
  { cbn [fst]. split; [intros id' a' [_ Ha']%lookup_delete_Some; by apply Hd|]. intros id' a' Ha' Hp. cbn in Hp.
    rewrite andb_true_r in Hp. apply bool_decide_eq_false_1 in Hp. exists a'. split; [by rewrite lookup_delete_ne|by apply Hother]. }
  case_bool_decide as Hin; cbn [negb fst].
  - apply elem_of_me_msgs in Hin. destruct (frozen_remove id a seq _ Hok eq_refl Hin) as [Hok' Ef].
    set (a' := mkArchive (archiveHeader _) _).
    assert (a' = mkArchive ((a_hdr a){{ h_Count := (h_Count (a_hdr a) - 1)%Z }}) (filter (λ r, of_message seq r = false) (a_recs a))) as Ea'.
    { unfold a'. f_equal. destruct Hok as [Eid _ _ _ _]. revert Eid. clear. destruct (a_hdr a). by intros <-. }
    rewrite <-Ea' in Hok', Ef. split.
    + intros id' a''. rewrite lookup_insert_Some. intros [[<- <-]|[_ ?]]; [done|by apply Hd].
    + intros id' a'' Ha'' Hp. destruct (decide (id' = id)) as [-> |Hne].
      * exists a'. split; [by apply lookup_insert_eq|]. assert (a'' = a) as -> by congruence. split.
        -- rewrite (frozen_length id a' Hok'). rewrite Ea'. by destruct (a_hdr a).
        -- rewrite Ef. apply list_filter_iff. intros m. cbn. rewrite bool_decide_eq_true_2 by done. cbn. rewrite N.eqb_neq. naive_solver.
      * exists a''. split; [by rewrite lookup_insert_ne|by apply Hother].
  - split; [done|]. intros id' a'' Ha'' Hp. exists a''. split; [done|]. destruct (decide (id' = id)) as [-> |Hne]; [|by apply Hother].
    assert (a'' = a) as -> by congruence. apply (thinned_refl id a _ Hok). intros m Hm. cbn. apply andb_false_iff. right. apply N.eqb_neq.
    intros ->. apply Hin, elem_of_me_msgs. rewrite <-(all_messages_seqs _ (h_Topic (a_hdr a)) _ (ao_log _ _ Hok)). by apply list_elem_of_fmap_2.
Qed.

Lemma arch_step_inv o b dir :
  binv clock cfg b → dir_ok dir → arch_op_ok o (b, dir) →
  ∃ b' dir', arch_step o (b, dir) = Some (b', dir') ∧ binv clock cfg b' ∧ dir_ok dir' ∧
    ∀ id a, dir !! id = Some a → purges id 0 o = false → ∃ a', dir' !! id = Some a' ∧ thinned (λ s, purges id s o) a a'.
Proof.
  intros Hb Hd Ho. destruct o as [o|draws topic by_ now|id seq]; cbn [arch_step arch_op_ok fst] in *.
  - destruct (step_binv clock cfg reach disk_bytes o b Hb Ho) as (b' & -> & Hb'). exists b', dir. split_and!; [done|done|done|].
    intros id a Ha _. exists a. split; [done|]. by apply (thinned_refl id); [apply Hd|].
  - pose proof (Archive_made b dir topic by_ now draws Hd Ho Hb) as H.
    destruct (Archive _ _ _ _ _ _ _ _) as [dir' [info|e]]; cbn [archive_result fst] in *.
    + destruct H as ([_ Hf Hoth _ _ _ _] & Hd' & _). exists b, dir'. split_and!; [done|done|done|]. intros id a Ha _. exists a.
      split; [|by apply (thinned_refl id); [apply Hd|]]. rewrite Hoth; [done|]. intros ->. congruence.
    + destruct H as [-> _]. exists b, dir. split_and!; [done|done|done|]. intros id a Ha _. exists a. split; [done|].
      by apply (thinned_refl id); [apply Hd|].
  - destruct (ArchivePurge_step id seq dir Hd) as [Hd' Hf]. exists b, (ArchivePurge file_bytes id seq dir).1. done.
Qed.

Lemma arch_run_inv os b dir :
  binv clock cfg b → dir_ok dir → arch_ok os (b, dir) →
  ∃ b' dir', arch_run os (b, dir) = Some (b', dir') ∧ binv clock cfg b' ∧ dir_ok dir' ∧
    ∀ id a, dir !! id = Some a → purged os id 0 = false → ∃ a', dir' !! id = Some a' ∧ thinned (purged os id) a a'.
Proof.
  revert b dir. induction os as [|o os IH]; intros b dir Hb Hd Hok; cbn [arch_run arch_ok] in *.
  { exists b, dir. split_and!; [done|done|done|]. intros id a Ha _. exists a. split; [done|]. by apply (thinned_refl id); [apply Hd|]. }
  destruct Hok as [Ho Hok]. destruct (arch_step_inv o b dir Hb Hd Ho) as (b1 & dir1 & E & Hb1 & Hd1 & H1). rewrite E in *.
  destruct (IH b1 dir1 Hb1 Hd1 Hok) as (b2 & dir2 & E2 & Hb2 & Hd2 & H2). exists b2, dir2. split_and!; [done|done|done|].
  intros id a Ha Hp. unfold purged in Hp. cbn [existsb] in Hp. apply orb_false_iff in Hp as [Hp1 Hp2].
  destruct (H1 id a Ha Hp1) as (a1 & Ha1 & Eh1 & Ef1). destruct (H2 id a1 Ha1 Hp2) as (a2 & Ha2 & Eh2 & Ef2).
  exists a2. split; [done|]. split; [rewrite Eh2, Eh1; by destruct (a_hdr a)|].
  rewrite Ef2, Ef1, list_filter_filter. apply list_filter_iff. intros m. unfold purged. cbn [existsb]. rewrite orb_false_iff. tauto.
Qed.

(** The board and directory are what the calls [os] leave of a new board on an empty directory. *)
Definition arch_reach (os : list arch_op) (b : Board) (dir : archives) : Prop :=
  (0 < RingN cfg)%nat ∧ arch_ok os (start cfg, ∅) ∧ arch_run os (start cfg, ∅) = Some (b, dir).

Lemma arch_reach_inv os b dir : arch_reach os b dir → binv clock cfg b ∧ dir_ok dir.
Proof.
  intros (Hr & Hok & E). destruct (arch_run_inv os (start cfg) ∅ (start_binv clock cfg Hr)) as (b' & dir' & E' & Hb & Hd & _); [done|done|].
  by simplify_eq.
Qed.

(** C15. An archive is its topic's history.  On any board and directory the server can
    have reached, an archive that is made gets an unused id and leaves every other
    archive as it was, and it pages out, for every bound and limit, exactly what
    the topic pages out at that moment, the messages past the ring and the
    withdrawn included; its header counts them and names the newest seq.  When
    none is made the directory is unchanged and the answer says why: the topic may
    not be archived, does not exist or holds nothing. *)
Theorem archive_pages_as_its_topic os b dir draws topic by_ now :
  arch_reach os b dir → Forall draw_ok draws →
  let '(dir', res) := Archive file_bytes clock draws topic by_ now b dir in
  match res with
  | Ok info =>
      ArchiveOf file_bytes (ar_ID info) dir' = Some info ∧ ar_Topic info = topic ∧ ar_CreatedBy info = by_ ∧
      dir !! ar_ID info = None ∧ (∀ id, id ≠ ar_ID info → dir' !! id = dir !! id) ∧
      (∀ beforeSeq limit, Page topic beforeSeq limit b = Some (ArchivePage file_bytes (ar_ID info) beforeSeq limit dir')) ∧
      ar_Count info = Z.of_nat (length (ArchivePage file_bytes (ar_ID info) 0 (Z.to_nat (ar_Count info)) dir')) ∧
      m_Seq <$> head (ArchivePage file_bytes (ar_ID info) 0 1 dir') = Some (ar_Through info)
  | Err e => dir' = dir ∧ not_archived b topic draws dir e
  end.
Proof.
  intros (Hb & Hd)%arch_reach_inv Hdr. pose proof (Archive_made b dir topic by_ now draws Hd Hdr Hb) as H.
  destruct (Archive _ _ _ _ _ _ _ _) as [dir' [info|e]]; [|done]. by destruct H as ([] & _ & _ & ?).
Qed.

(** C16. Archives stay as they were made.  Whatever the board does afterwards, and
    whatever is archived, purged or destroyed, an archive that was not itself
    destroyed keeps its header and pages out exactly the messages it had less those
    purged from it, in the same order, and its count is right; read for an agent it
    pages out those that were not withdrawn.  A board started on the directory
    counts from above all of them. *)
Theorem archives_stay_frozen os b dir os' b' dir' id info :
  arch_reach os b dir → arch_ok os' (b, dir) → arch_run os' (b, dir) = Some (b', dir') →
  ArchiveOf file_bytes id dir = Some info → purged os' id 0 = false →
  let kept := filter (λ m, purged os' id (m_Seq m) = false) (ArchivePage file_bytes id 0 (Z.to_nat (ar_Count info)) dir) in
  (∃ info', ArchiveOf file_bytes id dir' = Some info' ∧ ar_Topic info' = ar_Topic info ∧ ar_Through info' = ar_Through info ∧
     ar_CreatedAt info' = ar_CreatedAt info ∧ ar_CreatedBy info' = ar_CreatedBy info ∧ ar_Count info' = Z.of_nat (length kept)) ∧
  (∀ beforeSeq limit, ArchivePage file_bytes id beforeSeq limit dir' = take limit (filter (below beforeSeq) kept)) ∧
  (∀ fuel beforeSeq limit, (0 < limit)%nat → (length kept < fuel)%nat →
     ArchivePageLive file_bytes fuel id beforeSeq limit dir' =
       Some (take limit (filter (λ m, m_RetractedAt m = 0%Z) (filter (below beforeSeq) kept)))) ∧
  (∀ h m, m ∈ kept →
     m_Seq m ≤ b_seq (AttachStore (Load (RingN cfg) (OpenFileStore (fs_of clock h))) (ar_Through <$> store_Archives file_bytes dir') (New cfg))).
Proof.
  intros (Hb & Hd)%arch_reach_inv Hok E Ei Hp. destruct (arch_run_inv os' b dir Hb Hd Hok) as (b1 & dir1 & E1 & _ & Hd' & Hf).
  rewrite E in E1. apply (inj Some) in E1. injection E1 as <- <-.
  destruct (dir !! id) as [a|] eqn:Ha; [|by rewrite ArchiveOf_None in Ei]. destruct (Hf id a Ha Hp) as (a' & Ha' & Eh & Ef).
  rewrite (ArchiveOf_Some file_bytes id a dir Hd Ha) in Ei. apply (inj Some) in Ei as <-. cbn [ar_Count ar_Topic ar_Through ar_CreatedAt ar_CreatedBy].
  assert (∀ x, below 0 x) as H0 by (by left). pose proof (Hd' id a' Ha') as Hok'. destruct (frozen_spec id a' Hok') as (S1 & N1 & M1).
  assert (ArchivePage file_bytes id 0 (Z.to_nat (h_Count (a_hdr a))) dir = frozen a) as Ep.
  { by rewrite (ArchivePage_spec file_bytes id a dir _ _ Hd Ha), filter_id, <-(frozen_length id a (Hd id a Ha)), Nat2Z.id, take_ge. }
  rewrite Ep, <-Ef. cbn zeta. split_and!.
  - eexists. split; [exact (ArchiveOf_Some file_bytes id a' dir' Hd' Ha')|]. rewrite Eh. by destruct (a_hdr a).
  - intros before limit. by apply ArchivePage_spec.
  - intros fuel before limit Hl Hfu. unfold ArchivePageLive. erewrite (page_live_spec (frozen a')); [|done|done| |done| |].
    + cbn [app length]. by rewrite Nat.sub_0_r.
    + intros m Hm. by apply M1.
    + intros before'. f_equal. by apply ArchivePage_spec.
    + eapply Nat.le_lt_trans; [apply length_filter|done].
  - intros h m Hm. destruct (AttachStore_spec (Load (RingN cfg) (OpenFileStore (fs_of clock h))) (ar_Through <$> store_Archives file_bytes dir')
      (New cfg) (Load_names _ _) eq_refl eq_refl) as (_ & _ & _ & Hs).
    destruct (store_Archives_elem file_bytes id a' dir' Hd' Ha') as (info' & Hi & Et).
    etrans; [apply (M1 m Hm)|]. apply Hs. rewrite <-Et. by apply list_elem_of_fmap_2.
Qed.
End claims.

(** ** Witnesses: an archive of a retained topic, then one message of it purged *)

Module SampleArchive.
Import SampleBoard.
Definition size_of (a : archive) : Z := Z.of_nat (length (a_recs a)).
Definition draw : list N := [1; 2; 3; 4; 5; 255].
Definition id : string := EncodeToString draw.
Definition made : list arch_op := (AOBoard <$> ops) ++ [AOArchive [draw] "news" zeroID 40].
Definition after : list arch_op := [AOPurge id 1; AOBoard (BPurgeTopic 50 "news")].
Definition st : Board * archives := default (start cfg, ∅) (arch_run reach clock bytes size_of made (start cfg, ∅)).
Definition st' : Board * archives := default st (arch_run reach clock bytes size_of after (st.1, st.2)).

Lemma run_default (o : option (Board * archives)) d :
  (if o then true else false) = true → o = Some ((default d o).1, (default d o).2).
Proof. by destruct o as [[]|]. Qed.

Lemma made_ok : arch_ok reach clock bytes size_of made (start cfg, ∅).
Proof. vm_compute. repeat split; try done; repeat constructor; try done. Qed.
Lemma made_reached : arch_reach reach clock bytes size_of cfg made st.1 st.2.
Proof. split; [by apply Nat.ltb_lt|]. split; [apply made_ok|]. apply run_default. vm_compute. reflexivity. Qed.
End SampleArchive.

Lemma archive_pages_as_its_topic_witness :
  let '(dir', res) := Archive SampleArchive.size_of SampleBoard.clock [[7; 7; 7; 7; 7; 7]] "news" zeroID 41 SampleArchive.st.1 SampleArchive.st.2 in
  match res with
  | Ok info => dir' !! SampleArchive.id = SampleArchive.st.2 !! SampleArchive.id ∧ ar_Topic info = "news"%string
  | Err _ => False
  end.
Proof.
  assert (Forall draw_ok [[7; 7; 7; 7; 7; 7]]) as Hd by (repeat constructor; by vm_compute).
  pose proof (archive_pages_as_its_topic SampleBoard.reach SampleBoard.clock SampleBoard.bytes SampleArchive.size_of SampleBoard.cfg SampleArchive.made
    SampleArchive.st.1 SampleArchive.st.2 _ "news" zeroID 41 SampleArchive.made_reached Hd) as H.
  assert (match (Archive SampleArchive.size_of SampleBoard.clock [[7; 7; 7; 7; 7; 7]] "news" zeroID 41 SampleArchive.st.1 SampleArchive.st.2).2 with
          | Ok info => bool_decide (SampleArchive.id ≠ ar_ID info) | Err _ => false end = true) as E by (vm_compute; reflexivity).
  destruct (Archive _ _ _ _ _ _ _ _) as [dir' [info|e]]; [|discriminate].
  destruct H as (_ & Ht & _ & _ & Ho & _). split; [|exact Ht]. apply Ho. exact (bool_decide_eq_true_1 _ E).
Defined.

Lemma archives_stay_frozen_witness :
  m_Seq <$> ArchivePage SampleArchive.size_of SampleArchive.id 0 9 SampleArchive.st'.2 = [2].
Proof.
  destruct (ArchiveOf SampleArchive.size_of SampleArchive.id SampleArchive.st.2) as [info|] eqn:Ei; [|vm_compute in Ei; discriminate].
  destruct (archives_stay_frozen SampleBoard.reach SampleBoard.clock SampleBoard.bytes SampleArchive.size_of SampleBoard.cfg SampleArchive.made
    SampleArchive.st.1 SampleArchive.st.2 SampleArchive.after SampleArchive.st'.1 SampleArchive.st'.2 SampleArchive.id info
    SampleArchive.made_reached) as (_ & H & _).
  - vm_compute. repeat split; done.
  - apply SampleArchive.run_default. vm_compute. reflexivity.
  - exact Ei.
  - vm_compute. reflexivity.
  - rewrite H. vm_compute in Ei. injection Ei as <-. vm_compute. reflexivity.
Defined.
