(* ===== verification/Frames.v ===== *)
(** * Frames of an exec stream: [server/ring_buffer.go], [server/notify_ring.go],
    [server/exec_frame_scan.go] and the frame helpers of [server/session_mux.go]

    A frame is a header (type and payload length) and its payload.  The header's
    codec is the third-party package [objtrsf/exec/frame]: it is the class
    [FrameCodec], and [LawfulFrames] is what its schema documents (a fixed-size
    header, the type in its first byte, a 32-bit length).  Bytes are [N]s; an [int]
    is a [nat] where the code keeps it non-negative, and [len(chunk)] is cut to 32
    bits where the code converts it. *)

From stdpp Require Import prelude list sorting.
From Stdlib Require Import NArith ZArith.
From coqutil Require Import Datatypes.RecordSetters.
From S2P Require Import Prelude Wire.

Import DoubleBraceUpdate.
Open Scope N_scope.
Open Scope stdpp_scope.
Set Default Goal Selector "!".

(** ** The ring of whole frames *)

Record RingBuffer := mkRingBuffer {
  rb_frames : list (list N);
  rb_cap : nat;
  rb_bytes : nat;
  rb_appendCount : nat;
}.

Definition NewRingBuffer (capacity : Z) : RingBuffer :=
  mkRingBuffer [] (if (capacity <=? 0)%Z then 1 else Z.to_nat capacity) 0 0.

(** [for r.bytes > r.cap && len(r.frames) > 1]. *)
Fixpoint evict (cap : nat) (frames : list (list N)) (bytes : nat) : list (list N) * nat :=
  match frames with
  | f :: ((_ :: _) as rest) =>
      if (cap <? bytes)%nat then evict cap rest (bytes - length f) else (frames, bytes)
  | _ => (frames, bytes)
  end.

Definition RingBuffer_Append (p : list N) (r : RingBuffer) : RingBuffer :=
  if (length p =? 0)%nat then r
  else
    let '(frames, bytes) := evict (rb_cap r) (rb_frames r ++ [p]) (rb_bytes r + length p) in
    mkRingBuffer frames (rb_cap r) bytes (S (rb_appendCount r)).

Definition OldestIndex (r : RingBuffer) : Z := (Z.of_nat (rb_appendCount r) - Z.of_nat (length (rb_frames r)))%Z.
Definition AppendCount (r : RingBuffer) : nat := rb_appendCount r.

Definition SnapshotFrom (mark : Z) (r : RingBuffer) : list N :=
  if (rb_bytes r =? 0)%nat then []
  else
    let firstIdx := OldestIndex r in
    let start := (mark - firstIdx)%Z in
    let start := if (start <? 0)%Z then 0%Z else start in
    if (Z.of_nat (length (rb_frames r)) <=? start)%Z then []
    else concat (drop (Z.to_nat start) (rb_frames r)).

Definition Snapshot (r : RingBuffer) : list N :=
  if (rb_bytes r =? 0)%nat then [] else concat (rb_frames r).

Definition RingBuffer_Len (r : RingBuffer) : nat := rb_bytes r.

(** ** The ring of notifications, over any event type *)

Record notifyRing (E : Type) := mkNotifyRing { nr_buf : list E; nr_cap : nat }.
Arguments mkNotifyRing {E} _ _.
Arguments nr_buf {E} _.
Arguments nr_cap {E} _.

Definition newNotifyRing {E} (capacity : Z) : notifyRing E :=
  mkNotifyRing [] (if (capacity <? 1)%Z then 1 else Z.to_nat capacity).

Definition notifyRing_append {E} (ev : E) (r : notifyRing E) : notifyRing E :=
  let buf := nr_buf r ++ [ev] in
  mkNotifyRing (if (nr_cap r <? length buf)%nat then drop (length buf - nr_cap r) buf else buf) (nr_cap r).

Definition notifyRing_snapshot {E} (r : notifyRing E) : list E := nr_buf r.

(** ** The frame codec *)

Class FrameCodec := {
  FrameHeaderSize : nat;
  DecodeHeader : list N → N * N;
  AppendHeader : N → N → list N;
  FrameType_Stdin : N;
  FrameType_Stdout : N;
  FrameType_Stderr : N;
  FrameType_Control : N;
  FrameType_Synth : N;
}.

Class LawfulFrames `{!FrameCodec} : Prop := {
  header_size_pos : (0 < FrameHeaderSize)%nat;
  header_size t n : length (AppendHeader t n) = FrameHeaderSize;
  header_first t n : head (AppendHeader t n) = Some t;
  header_decodes t n : t < 256 → n < 2 ^ 32 → DecodeHeader (AppendHeader t n) = (t, n);
  header_len_bound h : (DecodeHeader h).2 < 2 ^ 32;
}.

Section frames.
Context `{!FrameCodec}.

(** [frameHeaderAt]: type and length at the start of [b]. *)
Definition frameHeaderAt (b : list N) : N * N := DecodeHeader (take FrameHeaderSize b).

Definition encodeFrame (typ : N) (payload : list N) : list N :=
  AppendHeader typ (uint32 (N.of_nat (length payload))) ++ payload.

Definition encodeStdoutFrame (payload : list N) : list N := encodeFrame FrameType_Stdout payload.
Definition encodeSynthFrame (payload : list N) : list N := encodeFrame FrameType_Synth payload.

(** [readOneFrame] of a reader that has [r] left and then ends; [None] is the
    read error. *)
Definition readOneFrame (r : list N) : option (list N * list N) :=
  if (length r <? FrameHeaderSize)%nat then None
  else
    let total := (FrameHeaderSize + N.to_nat (frameHeaderAt r).2)%nat in
    if (length r <? total)%nat then None else Some (take total r, drop total r).

(** ** The frame scanner *)

Record frameScanner := mkFrameScanner {
  fs_hdr : list N;
  fs_typ : N;
  fs_remaining : N;
  fs_inPayload : bool;
}.

Definition newFrameScanner : frameScanner := mkFrameScanner [] 0 0 false.

(** A call of [onPayload] or of [onEmpty]. *)
Inductive frame_event := OnPayload (t : N) (run : list N) | OnEmpty (t : N).

(** The loop of [scan]; each turn consumes a byte, so the length of the chunk is
    fuel enough. *)
Fixpoint scan_loop (fuel : nat) (s : frameScanner) (chunk : list N) : frameScanner * list frame_event :=
  match fuel, chunk with
  | O, _ | _, [] => (s, [])
  | S fuel', _ =>
      if fs_inPayload s then
        let n := uint32 (N.of_nat (length chunk)) in
        let n := if fs_remaining s <? n then fs_remaining s else n in
        let run := take (N.to_nat n) chunk in
        let remaining := fs_remaining s - n in
        let s' := s{{ fs_remaining := remaining;
                      fs_inPayload := if remaining =? 0 then false else true }} in
        let '(s'', evs) := scan_loop fuel' s' (drop (N.to_nat n) chunk) in
        (s'', OnPayload (fs_typ s) run :: evs)
      else
        let need := (FrameHeaderSize - length (fs_hdr s))%nat in
        if (length chunk <? need)%nat then (s{{ fs_hdr := fs_hdr s ++ chunk }}, [])
        else
          let '(t, len) := DecodeHeader (fs_hdr s ++ take need chunk) in
          let rest := drop need chunk in
          if len =? 0 then
            let '(s'', evs) := scan_loop fuel' (s{{ fs_hdr := []; fs_typ := t }}) rest in
            (s'', OnEmpty t :: evs)
          else
            scan_loop fuel' (s{{ fs_hdr := []; fs_typ := t; fs_remaining := len; fs_inPayload := true }}) rest
  end.

Definition frameScanner_scan (s : frameScanner) (chunk : list N) : frameScanner * list frame_event :=
  scan_loop (length chunk) s chunk.

(** [execTapChannelOf], with the channels [0] stdin, [1] stdout, [2] stderr. *)
Definition execTapChannelOf (t : N) : option N :=
  if t =? FrameType_Stdin then Some 0
  else if (t =? FrameType_Stdout) || (t =? FrameType_Synth) then Some 1
  else if t =? FrameType_Stderr then Some 2
  else None.
End frames.

(** ** The ring: what it keeps *)

Section ring.
Implicit Types (fs : list (list N)) (r : RingBuffer) (c : nat).

(** Total size of a list of frames. *)
Definition total fs : nat := length (concat fs).

Lemma total_cons f fs : total (f :: fs) = (length f + total fs)%nat.
Proof. unfold total. cbn. apply length_app. Qed.

Lemma total_app fs1 fs2 : total (fs1 ++ fs2) = (total fs1 + total fs2)%nat.
Proof. unfold total. by rewrite concat_app, length_app. Qed.

Lemma evict_spec c fs :
  fs ≠ [] →
  ∃ k, evict c fs (total fs) = (drop k fs, total (drop k fs)) ∧ (k < length fs)%nat ∧
    (total (drop k fs) ≤ c ∨ length (drop k fs) = 1)%nat ∧
    (∀ j, (j < k)%nat → (c < total (drop j fs))%nat).
Proof.
  induction fs as [|f fs IH]; intros Hne; [done|]. destruct fs as [|g fs].
  { exists O. split_and!; [done|cbn; lia|by right|lia]. }
  cbn [evict]. destruct (Nat.ltb_spec c (total (f :: g :: fs))) as [Hc|Hc].
  - destruct IH as (k & E & Hk & Hfit & Hbig); [done|].
    exists (S k). split_and!; [|cbn in *; lia|done|].
    + rewrite total_cons, Nat.add_comm, Nat.add_sub. exact E.
    + intros [|j] Hj; [done|]. apply Hbig. lia.
  - exists O. split_and!; [done|cbn; lia|by left|lia].
Qed.

(** After the frames [fs], the ring holds those from index [k] on: they fit the
    budget or are one frame, and one more would not have fitted. *)
Definition ring_holds c fs k r : Prop :=
  rb_frames r = drop k fs ∧ rb_cap r = c ∧ rb_bytes r = total (drop k fs) ∧
  rb_appendCount r = length fs ∧ (k ≤ length fs)%nat ∧
  (total (drop k fs) ≤ c ∨ length (drop k fs) = 1)%nat ∧
  (∀ j, (j < k)%nat → (c < total (drop j fs))%nat) ∧ (fs ≠ [] → k < length fs)%nat.

Lemma ring_append_holds c fs k r p :
  p ≠ [] → ring_holds c fs k r → ∃ k', ring_holds c (fs ++ [p]) k' (RingBuffer_Append p r).
Proof.
  intros Hp (Ef & Ec & Eb & Ea & Hk & Hfit & Hbig & _). unfold RingBuffer_Append.
  destruct (Nat.eqb_spec (length p) 0) as [E|_]; [destruct p; done|].
  assert (drop k (fs ++ [p]) = rb_frames r ++ [p]) as Ed by (rewrite drop_app_le, Ef by done; done).
  assert (rb_bytes r + length p = total (rb_frames r ++ [p]))%nat as ->.
  { rewrite total_app, Eb, Ef. unfold total. cbn. by rewrite app_nil_r. }
  destruct (evict_spec (rb_cap r) (rb_frames r ++ [p])) as (i & -> & Hi & Hfit' & Hbig'); [by destruct (rb_frames r)|].
  exists (k + i)%nat. unfold ring_holds. cbn [rb_frames rb_cap rb_bytes rb_appendCount].
  assert (drop (k + i) (fs ++ [p]) = drop i (rb_frames r ++ [p])) as -> by (by rewrite <-Ed, drop_drop).
  rewrite <-Ed in Hi. rewrite length_drop, length_app in Hi. cbn in Hi.
  rewrite Ec in *. split_and!; try done.
  - rewrite length_app. cbn. lia.
  - rewrite length_app. cbn. lia.
  - intros j Hj. destruct (Nat.lt_ge_cases j k) as [Hjk|Hjk].
    + rewrite drop_app_le by lia. rewrite total_app. specialize (Hbig j Hjk). lia.
    + replace j with (k + (j - k))%nat by lia. rewrite <-drop_drop, Ed. apply Hbig'. lia.
  - intros _. rewrite length_app. cbn. lia.
Qed.

Definition ring_of (capacity : Z) (ps : list (list N)) : RingBuffer :=
  foldl (λ r p, RingBuffer_Append p r) (NewRingBuffer capacity) ps.

Lemma ring_of_holds capacity ps :
  ∃ k, ring_holds (rb_cap (NewRingBuffer capacity)) (filter (λ p, p ≠ []) ps) k (ring_of capacity ps).
Proof.
  induction ps as [|p ps [k IH]] using rev_ind.
  { exists O. split_and!; try done; try (cbn; lia). }
  unfold ring_of in *. rewrite foldl_app, filter_app. cbn [foldl].
  destruct (decide (p = [])) as [->|Hp].
  - rewrite filter_cons_False by tauto. rewrite filter_nil, app_nil_r. exists k. exact IH.
  - rewrite filter_cons_True, filter_nil by done. by eapply ring_append_holds.
Qed.

(** What a ring that holds the frames from [k] on hands out. *)
Lemma ring_snapshots c fs k r :
  Forall (λ p, p ≠ []) fs → ring_holds c fs k r →
  OldestIndex r = Z.of_nat k ∧ Snapshot r = concat (drop k fs) ∧
  ∀ mark, SnapshotFrom mark r = concat (drop (Nat.max (Z.to_nat mark) k) fs).
Proof.
  intros Hne (Ef & Ec & Eb & Ea & Hk & _ & _ & Hlt).
  assert (OldestIndex r = Z.of_nat k) as Eo by (unfold OldestIndex; rewrite Ea, Ef, length_drop; lia).
  split_and!; [done| |].
  - unfold Snapshot. rewrite Eb, Ef. destruct (Nat.eqb_spec (total (drop k fs)) 0) as [Ez|]; [|done].
    symmetry. by apply nil_length_inv.
  - intros mark. unfold SnapshotFrom. rewrite Eo, Eb, Ef. destruct (Nat.eqb_spec (total (drop k fs)) 0) as [Ez|Ez].
    + destruct (decide (fs = [])) as [->|Hfs]; [by rewrite drop_nil|].
      exfalso. destruct (drop k fs) as [|f rest] eqn:Ed.
      { apply (f_equal length) in Ed. rewrite length_drop in Ed. cbn in Ed. specialize (Hlt Hfs). lia. }
      rewrite total_cons in Ez. assert (f ∈ fs) as Hf.
      { eapply elem_of_sublist; [|apply (sublist_drop fs k)]. rewrite Ed. by left. }
      rewrite Forall_forall in Hne. specialize (Hne f Hf). destruct f; [done|cbn in Ez; lia].
    + assert ((if (mark - Z.of_nat k <? 0)%Z then 0 else mark - Z.of_nat k) =
              Z.of_nat (Nat.max (Z.to_nat mark) k - k))%Z as -> by (destruct (Z.ltb_spec (mark - Z.of_nat k) 0); lia).
      rewrite Nat2Z.id, drop_drop. replace (k + (Nat.max (Z.to_nat mark) k - k))%nat with (Nat.max (Z.to_nat mark) k) by lia.
      destruct (Z.leb_spec (Z.of_nat (length (drop k fs))) (Z.of_nat (Nat.max (Z.to_nat mark) k - k))) as [Hge|]; [|done].
      rewrite length_drop in Hge. by rewrite drop_ge by lia.
Qed.

(** The frame ring holds the longest suffix of everything appended that fits the
    byte budget (or the last frame alone), whole frames only, and [SnapshotFrom]
    replays exactly the surviving frames from a mark on, for any mark. *)
Theorem RingBuffer_window (capacity : Z) (ps : list (list N)) (mark : Z) :
  let r := ring_of capacity ps in
  let fs := filter (λ p, p ≠ []) ps in
  let c := rb_cap (NewRingBuffer capacity) in
  ∃ k, OldestIndex r = Z.of_nat k ∧ AppendCount r = length fs ∧ RingBuffer_Len r = total (drop k fs) ∧
    (total (drop k fs) ≤ c ∨ length (drop k fs) = 1)%nat ∧
    (∀ j, (j < k)%nat → (c < total (drop j fs))%nat) ∧
    Snapshot r = concat (drop k fs) ∧
    SnapshotFrom mark r = concat (drop (Nat.max (Z.to_nat mark) k) fs).
Proof.
  intros r fs c. destruct (ring_of_holds capacity ps) as (k & Hh). fold r fs c in Hh.
  assert (Forall (λ p, p ≠ []) fs) as Hne by (apply Forall_forall; intros p [? _]%list_elem_of_filter; done).
  destruct (ring_snapshots c fs k r Hne Hh) as (Eo & Es & Ef). destruct Hh as (_ & _ & Eb & Ea & _ & Hfit & Hbig & _).
  exists k. by split_and!.
Qed.

Lemma notifyRing_last {E} (capacity : Z) (evs : list E) :
  let r := foldl (λ (q : notifyRing E) e, notifyRing_append e q) (newNotifyRing capacity) evs in
  notifyRing_snapshot r = drop (length evs - nr_cap r) evs ∧ nr_cap r = nr_cap (newNotifyRing (E := E) capacity) ∧ (0 < nr_cap r)%nat.
Proof.
  induction evs as [|e evs IH] using rev_ind.
  { cbn. split_and!; [done|done|]. destruct (Z.ltb_spec capacity 1); lia. }
  cbn zeta in *. rewrite foldl_app. cbn [foldl]. set (r := foldl _ _ evs) in *.
  destruct IH as (Es & Ec & Hc). unfold notifyRing_snapshot, notifyRing_append in *. cbn [nr_buf nr_cap].
  split_and!; [|done|done]. rewrite Es, length_app, length_drop, length_app. cbn [length].
  destruct (Nat.ltb_spec (nr_cap r) (length evs - (length evs - nr_cap r) + 1)) as [Hlt|Hge].
  - replace (length evs - (length evs - nr_cap r) + 1 - nr_cap r)%nat with 1%nat by lia.
    replace (length evs + 1 - nr_cap r)%nat with ((length evs - nr_cap r) + 1)%nat by lia.
    rewrite <-drop_drop, (drop_app_le evs [e] (length evs - nr_cap r)) by lia. done.
  - replace (length evs - nr_cap r)%nat with O by lia. replace (length evs + 1 - nr_cap r)%nat with O by lia. done.
Qed.
End ring.

(** ** The scanner against a byte-at-a-time reference *)

(** What was reported, byte by byte. *)
Inductive frame_item := ItemByte (t c : N) | ItemEmpty (t : N).

Definition items (evs : list frame_event) : list frame_item :=
  flat_map (λ e, match e with OnPayload t run => ItemByte t <$> run | OnEmpty t => [ItemEmpty t] end) evs.

Section scanner.
Context `{!FrameCodec, !LawfulFrames}.
Implicit Types (s : frameScanner) (c t n : N) (bs chunk : list N).

(** One byte of the stream. *)
Definition byte_step s c : frameScanner * list frame_item :=
  if fs_inPayload s then
    let remaining := fs_remaining s - 1 in
    (s{{ fs_remaining := remaining; fs_inPayload := if remaining =? 0 then false else true }},
     [ItemByte (fs_typ s) c])
  else
    let hdr := fs_hdr s ++ [c] in
    if (length hdr <? FrameHeaderSize)%nat then (s{{ fs_hdr := hdr }}, [])
    else
      let '(t, len) := DecodeHeader hdr in
      if len =? 0 then (s{{ fs_hdr := []; fs_typ := t }}, [ItemEmpty t])
      else (s{{ fs_hdr := []; fs_typ := t; fs_remaining := len; fs_inPayload := true }}, []).

Fixpoint byte_run s bs : frameScanner * list frame_item :=
  match bs with
  | [] => (s, [])
  | c :: bs' =>
      let '(s', out) := byte_step s c in
      let '(s'', out') := byte_run s' bs' in (s'', out ++ out')
  end.

Lemma byte_run_app s bs1 bs2 :
  byte_run s (bs1 ++ bs2) =
    ((byte_run (byte_run s bs1).1 bs2).1, (byte_run s bs1).2 ++ (byte_run (byte_run s bs1).1 bs2).2).
Proof.
  revert s. induction bs1 as [|c bs1 IH]; intros s; cbn [app byte_run fst snd]; [by destruct (byte_run s bs2)|].
  destruct (byte_step s c) as [s' out]. rewrite IH. destruct (byte_run s' bs1) as [s1 o1]. cbn [fst snd].
  by rewrite app_assoc.
Qed.

Definition scanner_ok s : Prop :=
  if fs_inPayload s then 0 < fs_remaining s ∧ fs_remaining s < 2 ^ 32 ∧ fs_hdr s = []
  else (length (fs_hdr s) < FrameHeaderSize)%nat.

Lemma scanner_ok_header s :
  fs_inPayload s = false → (length (fs_hdr s) < FrameHeaderSize)%nat → scanner_ok s.
Proof. intros H1 H2. unfold scanner_ok. by rewrite H1. Qed.

Lemma byte_run_payload s bs :
  fs_inPayload s = true → N.of_nat (length bs) ≤ fs_remaining s → bs ≠ [] →
  byte_run s bs =
    (s{{ fs_remaining := fs_remaining s - N.of_nat (length bs);
         fs_inPayload := if fs_remaining s - N.of_nat (length bs) =? 0 then false else true }},
     ItemByte (fs_typ s) <$> bs).
Proof.
  revert s. induction bs as [|c bs IH]; intros s Hin Hle Hne; [done|]. cbn [byte_run byte_step length] in *.
  unfold byte_step. rewrite Hin. destruct bs as [|c' bs].
  - cbn [byte_run]. rewrite app_nil_r. done.
  - set (s' := s{{ fs_remaining := fs_remaining s - 1; fs_inPayload := _ }}).
    assert (fs_remaining s' = fs_remaining s - 1) as Er by done.
    assert (fs_inPayload s' = true) as Ei.
    { transitivity (if fs_remaining s - 1 =? 0 then false else true); [done|].
      destruct (N.eqb_spec (fs_remaining s - 1) 0); [cbn [length] in Hle; lia|done]. }
    rewrite IH; [|done|rewrite Er; cbn [length] in *; lia|done]. rewrite Er.
    replace (fs_remaining s - 1 - N.of_nat (length (c' :: bs)))
      with (fs_remaining s - N.of_nat (S (length (c' :: bs)))) by (cbn [length]; lia).
    done.
Qed.

Lemma byte_run_header s bs :
  fs_inPayload s = false → (length (fs_hdr s) + length bs < FrameHeaderSize)%nat →
  byte_run s bs = (s{{ fs_hdr := fs_hdr s ++ bs }}, []).
Proof.
  revert s. induction bs as [|c bs IH]; intros s Hin Hlt.
  - cbn [byte_run]. rewrite app_nil_r. by destruct s.
  - cbn [byte_run byte_step length] in *. unfold byte_step. rewrite Hin.
    rewrite (proj2 (Nat.ltb_lt _ _)) by (rewrite length_app; cbn; lia).
    rewrite IH; [|done|change (length (fs_hdr s ++ [c]) + length bs < FrameHeaderSize)%nat; rewrite length_app; cbn; lia].
    change (fs_hdr (s{{ fs_hdr := fs_hdr s ++ [c] }})) with (fs_hdr s ++ [c]). by rewrite <-app_assoc.
Qed.

(** The last byte of a header. *)
Lemma byte_run_full_header s bs :
  fs_inPayload s = false → (length (fs_hdr s) + length bs = FrameHeaderSize)%nat → bs ≠ [] →
  byte_run s bs =
    let '(t, len) := DecodeHeader (fs_hdr s ++ bs) in
    if len =? 0 then (s{{ fs_hdr := []; fs_typ := t }}, [ItemEmpty t])
    else (s{{ fs_hdr := []; fs_typ := t; fs_remaining := len; fs_inPayload := true }}, []).
Proof.
  intros Hin Hlen Hne. destruct (exists_last Hne) as (bs' & c & ->).
  rewrite length_app in Hlen. cbn in Hlen. rewrite byte_run_app, (byte_run_header s bs') by (done || lia).
  cbn [fst snd app byte_run]. unfold byte_step.
  set (s' := s{{ fs_hdr := fs_hdr s ++ bs' }}). change (fs_inPayload s') with (fs_inPayload s). rewrite Hin.
  change (fs_hdr s') with (fs_hdr s ++ bs'). rewrite <-app_assoc.
  destruct (Nat.ltb_spec (length (fs_hdr s ++ bs' ++ [c])) FrameHeaderSize) as [Hlt|_].
  { rewrite !length_app in Hlt. cbn in Hlt. lia. }
  destruct (DecodeHeader (fs_hdr s ++ bs' ++ [c])) as [t len]. destruct (len =? 0); by destruct s.
Qed.

(** [scan] does to a chunk what the reference does byte by byte. *)
Lemma scan_loop_bytes fuel s chunk :
  scanner_ok s → N.of_nat (length chunk) < 2 ^ 32 → (length chunk ≤ fuel)%nat →
  byte_run s chunk = ((scan_loop fuel s chunk).1, items (scan_loop fuel s chunk).2) ∧
  scanner_ok (scan_loop fuel s chunk).1.
Proof.
  revert s chunk. induction fuel as [|fuel IH]; intros s chunk Hok Hb Hf.
  { destruct chunk; [done|cbn in Hf; lia]. }
  destruct chunk as [|c0 chunk0]; [done|]. set (chunk := c0 :: chunk0) in *.
  assert (chunk ≠ []) as Hne by done. assert (0 < length chunk)%nat as Hpos by (cbn; lia).
  cbn [scan_loop]. subst chunk. fold (scan_loop fuel). set (chunk := c0 :: chunk0) in *.
  unfold scanner_ok in Hok. destruct (fs_inPayload s) eqn:Hin.
  - assert (uint32 (N.of_nat (length chunk)) = N.of_nat (length chunk)) as -> by (apply N.mod_small; lia).
    set (n := if fs_remaining s <? N.of_nat (length chunk) then _ else _).
    assert (n = N.min (fs_remaining s) (N.of_nat (length chunk))) as En
      by (unfold n; destruct (N.ltb_spec (fs_remaining s) (N.of_nat (length chunk))); lia).
    clearbody n. set (s' := s{{ fs_remaining := fs_remaining s - n; fs_inPayload := _ }}).
    assert (length (take (N.to_nat n) chunk) = N.to_nat n) as Hlt by (rewrite length_take; lia).
    assert (byte_run s (take (N.to_nat n) chunk) = (s', ItemByte (fs_typ s) <$> take (N.to_nat n) chunk)) as Er.
    { rewrite byte_run_payload; [|done|rewrite Hlt; lia|intros E0; rewrite E0 in Hlt; cbn in Hlt; lia].
      rewrite Hlt, N2Nat.id. done. }
    destruct (IH s' (drop (N.to_nat n) chunk)) as [E1 E2].
    + unfold scanner_ok. change (fs_inPayload s') with (if fs_remaining s - n =? 0 then false else true).
      change (fs_remaining s') with (fs_remaining s - n). change (fs_hdr s') with (fs_hdr s).
      destruct Hok as (_ & Hr & ->). destruct (N.eqb_spec (fs_remaining s - n) 0); [apply header_size_pos|split; [lia|split; [lia|done]]].
    + rewrite length_drop. lia.
    + rewrite length_drop. lia.
    + rewrite <-(take_drop (N.to_nat n) chunk) at 1. rewrite byte_run_app, Er. cbn [fst snd].
      rewrite E1. destruct (scan_loop fuel s' (drop (N.to_nat n) chunk)) as [s'' evs]. done.
  - set (need := (FrameHeaderSize - length (fs_hdr s))%nat).
    destruct (Nat.ltb_spec (length chunk) need) as [Hlt|Hge].
    { rewrite byte_run_header by (done || lia). split; [done|]. apply scanner_ok_header; [exact Hin|].
      change (length (fs_hdr s ++ chunk) < FrameHeaderSize)%nat. rewrite length_app. lia. }
    assert (length (take need chunk) = need) as Hlt by (rewrite length_take; lia).
    assert (length (fs_hdr s) + length (take need chunk) = FrameHeaderSize)%nat as Hfull by lia.
    pose proof (byte_run_full_header s (take need chunk) Hin Hfull) as Er.
    specialize (Er ltac:(intros E0; rewrite E0 in Hlt; cbn in Hlt; lia)).
    pose proof (header_len_bound (fs_hdr s ++ take need chunk)) as Hlb.
    destruct (DecodeHeader (fs_hdr s ++ take need chunk)) as [t len]. cbn [snd] in Hlb.
    assert (length (drop need chunk) ≤ fuel)%nat as Hf' by (rewrite length_drop; lia).
    assert (N.of_nat (length (drop need chunk)) < 2 ^ 32) as Hb' by (rewrite length_drop; lia).
    destruct (N.eqb_spec len 0) as [Hz|Hz].
    + destruct (IH (s{{ fs_hdr := []; fs_typ := t }}) (drop need chunk)) as [E1 E2]; [|done|done|].
      { apply scanner_ok_header; [exact Hin|apply header_size_pos]. }
      rewrite <-(take_drop need chunk) at 1. rewrite byte_run_app, Er. cbn [fst snd]. rewrite E1.
      destruct (scan_loop fuel _ (drop need chunk)) as [s'' evs]. done.
    + destruct (IH (s{{ fs_hdr := []; fs_typ := t; fs_remaining := len; fs_inPayload := true }}) (drop need chunk))
        as [E1 E2]; [split; [exact (proj1 (N.neq_0_lt_0 len) Hz)|split; [exact Hlb|done]]|done|done|].
      rewrite <-(take_drop need chunk) at 1. rewrite byte_run_app, Er. cbn [fst snd]. rewrite E1.
      destruct (scan_loop fuel _ (drop need chunk)) as [s'' evs]. done.
Qed.

(** Scanning a list of chunks. *)
Fixpoint scan_chunks s (chunks : list (list N)) : frameScanner * list frame_event :=
  match chunks with
  | [] => (s, [])
  | chunk :: cs =>
      let '(s', evs) := frameScanner_scan s chunk in
      let '(s'', evs') := scan_chunks s' cs in (s'', evs ++ evs')
  end.

Lemma items_app evs1 evs2 : items (evs1 ++ evs2) = items evs1 ++ items evs2.
Proof. apply flat_map_app. Qed.

Lemma scan_chunks_bytes s chunks :
  scanner_ok s → Forall (λ chunk, N.of_nat (length chunk) < 2 ^ 32) chunks →
  byte_run s (concat chunks) = ((scan_chunks s chunks).1, items (scan_chunks s chunks).2).
Proof.
  intros Hok Hc. revert s Hok. induction Hc as [|c cs Hc _ IH]; intros s Hok; [done|].
  cbn [concat scan_chunks]. rewrite byte_run_app. unfold frameScanner_scan.
  destruct (scan_loop_bytes (length c) s c) as [E Hok']; [done|done|done|]. rewrite E. cbn [fst snd].
  destruct (scan_loop (length c) s c) as [s' evs]. cbn [fst snd] in *. rewrite (IH s') by done.
  destruct (scan_chunks s' cs) as [s'' evs']. cbn [fst snd]. by rewrite items_app.
Qed.

Definition frame_items (f : N * list N) : list frame_item :=
  if (length f.2 =? 0)%nat then [ItemEmpty f.1] else ItemByte f.1 <$> f.2.

(** Between frames. *)
Definition at_boundary s : Prop := fs_inPayload s = false ∧ fs_hdr s = [].

Lemma byte_run_frame s t payload :
  at_boundary s → t < 256 → N.of_nat (length payload) < 2 ^ 32 →
  at_boundary (byte_run s (encodeFrame t payload)).1 ∧
  (byte_run s (encodeFrame t payload)).2 = frame_items (t, payload).
Proof.
  intros [Hin Hh] Ht Hp. unfold encodeFrame.
  assert (uint32 (N.of_nat (length payload)) = N.of_nat (length payload)) as -> by (by apply N.mod_small).
  set (n := N.of_nat (length payload)) in *. set (h := AppendHeader t n).
  assert (length h = FrameHeaderSize) as Hlen by apply header_size.
  pose proof header_size_pos as Hpos.
  rewrite byte_run_app, (byte_run_full_header s h); [|done|by rewrite Hh|intros E0; rewrite E0 in Hlen; cbn in Hlen; lia].
  rewrite Hh. cbn [app]. unfold h. rewrite header_decodes by done. unfold frame_items. cbn [fst snd].
  destruct (N.eqb_spec n 0) as [Hz|Hz]; destruct (Nat.eqb_spec (length payload) 0) as [Hz'|Hz']; try (subst n; lia).
  - apply nil_length_inv in Hz' as ->. cbn [byte_run fst snd app]. split; [split; [exact Hin|done]|done].
  - set (s' := s{{ fs_hdr := []; fs_typ := t; fs_remaining := n; fs_inPayload := true }}). cbn [fst snd app].
    rewrite (byte_run_payload s' payload); [|done|exact (N.le_refl n)|by intros ->]. cbn [fst snd].
    split; [|done]. split; [|done].
    transitivity (if n - n =? 0 then false else true); [done|]. by rewrite N.sub_diag.
Qed.

(** However the stream is cut into chunks, the scanner reports exactly the
    payload bytes of its frames, in order and under each frame's type, reports
    every empty frame, and ends between frames. *)
Theorem frameScanner_chunking (frames : list (N * list N)) (chunks : list (list N)) :
  Forall (λ f, f.1 < 256 ∧ N.of_nat (length f.2) < 2 ^ 32) frames →
  Forall (λ chunk, N.of_nat (length chunk) < 2 ^ 32) chunks →
  concat chunks = concat (map (λ f, encodeFrame f.1 f.2) frames) →
  items (scan_chunks newFrameScanner chunks).2 = flat_map frame_items frames ∧
  at_boundary (scan_chunks newFrameScanner chunks).1.
Proof.
  intros Hf Hc E. assert (scanner_ok newFrameScanner) as Hok by (apply scanner_ok_header; [done|apply header_size_pos]).
  pose proof (scan_chunks_bytes newFrameScanner chunks Hok Hc) as Hr. rewrite E in Hr. clear E Hok.
  assert (∀ s, at_boundary s → at_boundary (byte_run s (concat (map (λ f, encodeFrame f.1 f.2) frames))).1 ∧
    (byte_run s (concat (map (λ f, encodeFrame f.1 f.2) frames))).2 = flat_map frame_items frames) as G.
  { clear Hr Hc. induction Hf as [|[t p] fs [Ht Hp] _ IH]; intros s Hs; [done|]. cbn [map concat flat_map].
    rewrite byte_run_app. cbn [fst snd] in *. destruct (byte_run_frame s t p Hs Ht Hp) as [H1 H2].
    destruct (IH _ H1) as [H3 H4]. split; [done|]. by rewrite H2, H4. }
  destruct (G newFrameScanner) as [G1 G2]; [done|]. rewrite Hr in G1, G2. done.
Qed.

(** [readOneFrame] undoes [encodeFrame]. *)
Lemma readOneFrame_encode t payload rest :
  t < 256 → N.of_nat (length payload) < 2 ^ 32 →
  readOneFrame (encodeFrame t payload ++ rest) = Some (encodeFrame t payload, rest).
Proof.
  intros Ht Hp. unfold readOneFrame, frameHeaderAt, encodeFrame.
  assert (uint32 (N.of_nat (length payload)) = N.of_nat (length payload)) as -> by (by apply N.mod_small).
  pose proof (header_decodes t (N.of_nat (length payload)) Ht Hp) as Hd.
  pose proof (header_size t (N.of_nat (length payload))) as Hh.
  destruct (Nat.ltb_spec (length ((AppendHeader t (N.of_nat (length payload)) ++ payload) ++ rest)) FrameHeaderSize) as [Hlt|_].
  { rewrite !length_app in Hlt. lia. }
  assert (take FrameHeaderSize ((AppendHeader t (N.of_nat (length payload)) ++ payload) ++ rest) =
          AppendHeader t (N.of_nat (length payload))) as ->
    by (by rewrite <-app_assoc, <-Hh, take_app_length).
  rewrite Hd. cbn [snd]. rewrite Nat2N.id, <-Hh, <-length_app.
  destruct (Nat.ltb_spec (length ((AppendHeader t (N.of_nat (length payload)) ++ payload) ++ rest))
    (length (AppendHeader t (N.of_nat (length payload)) ++ payload))) as [Hlt|_].
  { rewrite !length_app in Hlt. lia. }
  by rewrite take_app_length, drop_app_length.
Qed.
End scanner.

(** ** A codec of the documented layout, and witnesses *)

Module SampleFrames.
(** One type byte and a 4-byte big-endian length. *)
#[local] Instance codec : FrameCodec := {
  FrameHeaderSize := 5;
  DecodeHeader h := (hd 0 h, be_decode (take 4 (tl h)) `mod` 2 ^ 32);
  AppendHeader t n := t :: be_encode 4 n;
  FrameType_Stdin := 0; FrameType_Stdout := 1; FrameType_Stderr := 2;
  FrameType_Control := 3; FrameType_Synth := 4;
}.

#[local] Instance codec_lawful : LawfulFrames.
Proof.
  split.
  - cbn. lia.
  - intros t n. cbn [AppendHeader codec]. cbn [length]. by rewrite length_be_encode.
  - done.
  - intros t n _ Hn. cbn [AppendHeader DecodeHeader codec hd tl].
    rewrite firstn_all2 by (by rewrite length_be_encode). rewrite be_roundtrip4 by done. by rewrite N.mod_small.
  - intros h. cbn [DecodeHeader codec snd]. by apply N.mod_upper_bound.
Qed.

Definition frames : list (N * list N) := [(1, [104; 105]); (3, []); (1, [33])].
Definition bytes : list N := concat (map (λ f, encodeFrame f.1 f.2) frames).
Definition chunks : list (list N) := [take 3 bytes; drop 3 (take 8 bytes); drop 8 bytes].
End SampleFrames.

#[local] Existing Instance SampleFrames.codec.
#[local] Existing Instance SampleFrames.codec_lawful.

Lemma frameScanner_chunking_witness :
  items (scan_chunks newFrameScanner SampleFrames.chunks).2 =
    [ItemByte 1 104; ItemByte 1 105; ItemEmpty 3; ItemByte 1 33].
Proof.
  apply (frameScanner_chunking SampleFrames.frames SampleFrames.chunks).
  - repeat apply Forall_cons_2; [split; vm_compute; reflexivity..|constructor].
  - repeat apply Forall_cons_2; [vm_compute; reflexivity..|constructor].
  - vm_compute. reflexivity.
Defined.
