(* ===== verification/VtScan.v ===== *)
(** * Replaying terminal output: [server/replay_ground_scan.go],
    [server/replay_query_strip.go] and [capReplayTail] of [server/session_mux.go]

    Both scanners walk output bytes one at a time with the same six states.  The
    ground scanner tells where a replay may be cropped; the query stripper holds
    back each escape sequence and drops the ones that would make the terminal
    answer.  A scanner kept across calls is explicit state. *)

From stdpp Require Import prelude list sorting.
From Stdlib Require Import NArith ZArith.
From S2P Require Import Prelude Wire Frames.

Open Scope N_scope.
Open Scope stdpp_scope.
Set Default Goal Selector "!".

(** ** The ground scanner *)

Inductive gsState := gsGround | gsEsc | gsEscInt | gsCSI | gsStr | gsStrEsc.

#[export] Instance gsState_eq_dec : EqDecision gsState.
Proof. solve_decision. Defined.

Definition ESC : N := 0x1b.

(** [c == 0x18 || c == 0x1a]: CAN and SUB. *)
Definition aborts (c : N) : bool := (c =? 0x18) || (c =? 0x1a).
(** [']'], ['P'], ['X'], ['^'], ['_']: what opens a string. *)
Definition opens_string (c : N) : bool :=
  (c =? 0x5d) || (c =? 0x50) || (c =? 0x58) || (c =? 0x5e) || (c =? 0x5f).
Definition between (lo hi c : N) : bool := (lo <=? c) && (c <=? hi).

Definition gs_step (st : gsState) (c : N) : gsState :=
  if aborts c then gsGround
  else match st with
  | gsGround => if c =? ESC then gsEsc else gsGround
  | gsEsc =>
      if c =? 0x5b then gsCSI
      else if opens_string c then gsStr
      else if c =? ESC then gsEsc
      else if between 0x20 0x2f c then gsEscInt
      else gsGround
  | gsEscInt =>
      if between 0x20 0x2f c then gsEscInt else if c =? ESC then gsEsc else gsGround
  | gsCSI =>
      if between 0x40 0x7e c then gsGround else if c =? ESC then gsEsc else gsCSI
  | gsStr =>
      if c =? 0x07 then gsGround else if c =? 0x9c then gsGround
      else if c =? ESC then gsStrEsc else gsStr
  | gsStrEsc =>
      if c =? 0x5c then gsGround else if c =? ESC then gsStrEsc else gsStr
  end.

Definition vtGroundScan_scan (st : gsState) (b : list N) : gsState := foldl gs_step st b.
Definition vtGroundScan_ground (st : gsState) : bool := bool_decide (st = gsGround).

(** ** Which sequences ask for an answer *)

(** [bytes.HasSuffix]. *)
Definition HasSuffix (l suf : list N) : bool := bool_decide (suf `suffix_of` l).

Definition csiSolicitsReply (body : list N) : bool :=
  match last body with
  | None => false
  | Some final =>
      let params := take (length body - 1) body in
      if final =? 0x6e then true
      else if final =? 0x63 then true
      else if final =? 0x70 then HasSuffix params [0x24]
      else if final =? 0x71 then match params with p :: _ => p =? 0x3e | [] => false end
      else false
  end.

(** The part of [body] after the last [';'], if there is one. *)
Fixpoint after_last_semi (body : list N) : option (list N) :=
  match body with
  | [] => None
  | c :: rest =>
      match after_last_semi rest with
      | Some tail => Some tail
      | None => if c =? 0x3b then Some rest else None
      end
  end.

Definition oscSolicitsReply (body : list N) : bool :=
  let judge body :=
    match after_last_semi body with Some tail => bool_decide (tail = [0x3f]) | None => false end in
  if HasSuffix body [0x07] || HasSuffix body [0x9c] then judge (take (length body - 1) body)
  else if HasSuffix body [ESC; 0x5c] then judge (take (length body - 2) body)
  else false.

Definition solicitsReply (seq : list N) : bool :=
  match seq with
  | e :: k :: body =>
      if negb (e =? ESC) then false
      else if k =? 0x5b then csiSolicitsReply body
      else if k =? 0x5d then oscSolicitsReply body
      else if k =? 0x50 then
        match body with
        | b0 :: b1 :: _ => (b1 =? 0x71) && ((b0 =? 0x2b) || (b0 =? 0x24))
        | _ => false
        end
      else false
  | _ => false
  end.

(** ** The query stripper *)

Record queryStripper := mkStripper { qs_st : gsState; qs_seq : list N }.

Definition newStripper : queryStripper := mkStripper gsGround [].
Definition stripper_pending (s : queryStripper) : list N := qs_seq s.

(** [flush]: the sequence goes out unless it asks something. *)
Definition flush (seq : list N) : list N := if solicitsReply seq then [] else seq.

(** One byte of [strip]: the new state and what is appended to [out]. *)
Definition strip_step (s : queryStripper) (c : N) : queryStripper * list N :=
  let seq := qs_seq s in
  if aborts c then (mkStripper gsGround [], seq ++ [c])
  else match qs_st s with
  | gsGround =>
      if c =? ESC then (mkStripper gsEsc (seq ++ [c]), []) else (mkStripper gsGround seq, [c])
  | gsEsc =>
      let seq' := seq ++ [c] in
      if c =? 0x5b then (mkStripper gsCSI seq', [])
      else if opens_string c then (mkStripper gsStr seq', [])
      else if c =? ESC then (mkStripper gsEsc [ESC], seq)
      else if between 0x20 0x2f c then (mkStripper gsEscInt seq', [])
      else (mkStripper gsGround [], flush seq')
  | gsEscInt =>
      let seq' := seq ++ [c] in
      if between 0x20 0x2f c then (mkStripper gsEscInt seq', [])
      else if c =? ESC then (mkStripper gsEsc seq', [])
      else (mkStripper gsGround [], flush seq')
  | gsCSI =>
      let seq' := seq ++ [c] in
      if between 0x40 0x7e c then (mkStripper gsGround [], flush seq')
      else if c =? ESC then (mkStripper gsEsc [ESC], seq)
      else (mkStripper gsCSI seq', [])
  | gsStr =>
      let seq' := seq ++ [c] in
      if (c =? 0x07) || (c =? 0x9c) then (mkStripper gsGround [], flush seq')
      else if c =? ESC then (mkStripper gsStrEsc seq', [])
      else (mkStripper gsStr seq', [])
  | gsStrEsc =>
      let seq' := seq ++ [c] in
      if c =? 0x5c then (mkStripper gsGround [], flush seq')
      else if c =? ESC then (mkStripper gsStrEsc seq', [])
      else (mkStripper gsStr seq', [])
  end.

Definition strip (s : queryStripper) (bs : list N) : queryStripper * list N :=
  foldl (λ '(s, out) c, let '(s', o) := strip_step s c in (s', out ++ o)) (s, []) bs.

Definition stripReplyQueries (bs : list N) : list N :=
  if negb (existsb (λ c, c =? ESC) bs) then bs
  else let '(s, out) := strip newStripper bs in out ++ stripper_pending s.

(** ** Over wire frames *)

Section replay.
Context `{!FrameCodec}.

(** The length of the first frame of [data], when it holds a whole one; the walks
    below stop at anything else. *)
Definition whole_frame (data : list N) : option nat :=
  if (length data <? FrameHeaderSize)%nat then None
  else
    let total := (FrameHeaderSize + N.to_nat (frameHeaderAt data).2)%nat in
    if (total =? 0)%nat || (length data <? total)%nat then None else Some total.

Definition is_output (fb : list N) : bool :=
  match fb with t :: _ => (t =? FrameType_Stdout) || (t =? FrameType_Stderr) | [] => false end.

(** The loop of [stripReplyQueriesFrames] from an offset: the rest of the output,
    the unparsed tail and the scanner. *)
Fixpoint strip_frames (fuel : nat) (s : queryStripper) (data : list N)
  : list N * list N * queryStripper :=
  match fuel, data with
  | O, _ | _, [] => ([], data, s)
  | S fuel', _ =>
      match whole_frame data with
      | None => ([], data, s)
      | Some total =>
          let fb := take total data in
          let '(s', piece) :=
            if is_output fb then
              let '(s', filtered) := strip s (drop FrameHeaderSize fb) in
              (s', match filtered with [] => [] | _ => encodeFrame (hd 0 fb) filtered end)
            else (s, fb) in
          let '(out, tail, s'') := strip_frames fuel' s' (drop total data) in
          (piece ++ out, tail, s'')
      end
  end.

Definition stripReplyQueriesFrames (data : list N) : list N :=
  if negb (existsb (λ c, c =? ESC) data) then data
  else
    let '(out, tail, s) := strip_frames (length data) newStripper data in
    let held := match stripper_pending s with [] => [] | pend => encodeStdoutFrame pend end in
    out ++ held ++ tail.

(** The loop of [capReplayTail]: [Inl off] is a return from inside it, [Inr last]
    the value of [lastGround] when it ends. *)
Fixpoint cap_loop_frames (fuel : nat) (data : list N) (lim off lastGround : nat) (st : gsState)
  : nat + nat :=
  match fuel with
  | O => inr lastGround
  | S fuel' =>
      let rest := drop off data in
      if (length data <=? off)%nat then inr lastGround
      else if vtGroundScan_ground st && (0 <? off)%nat && (length data - off <=? lim)%nat then inl off
      else
        let lastGround := if vtGroundScan_ground st then off else lastGround in
        match whole_frame rest with
        | None => inr lastGround
        | Some total =>
            cap_loop_frames fuel' data lim (off + total) lastGround
              (vtGroundScan_scan st (drop FrameHeaderSize (take total rest)))
        end
  end.

Definition capReplayTail (data : list N) (limit : N) : list N :=
  if (limit =? 0) || (N.of_nat (length data) <=? limit) then data
  else match cap_loop_frames (length data) data (N.to_nat limit) 0 0 gsGround with
       | inl off => drop off data
       | inr lastGround => drop lastGround data
       end.
End replay.

(** ** The stripper as a filter of sequences *)

Section stripper.
Implicit Types (s : queryStripper) (bs : list N) (c : N).

Lemma strip_acc s out bs :
  foldl (λ '(s, out) c, let '(s', o) := strip_step s c in (s', out ++ o)) (s, out) bs =
    ((strip s bs).1, out ++ (strip s bs).2).
Proof.
  unfold strip. revert s out. induction bs as [|c bs IH]; intros s out; cbn [foldl]; [by rewrite app_nil_r|].
  destruct (strip_step s c) as [s' o]. rewrite IH, (IH s' ([] ++ o)). cbn [fst snd app]. by rewrite app_assoc.
Qed.

Lemma strip_cons s c bs :
  strip s (c :: bs) = ((strip (strip_step s c).1 bs).1, (strip_step s c).2 ++ (strip (strip_step s c).1 bs).2).
Proof.
  unfold strip at 1. cbn [foldl]. destruct (strip_step s c) as [s' o]. rewrite strip_acc. done.
Qed.

Lemma strip_app s bs1 bs2 :
  strip s (bs1 ++ bs2) = ((strip (strip s bs1).1 bs2).1, (strip s bs1).2 ++ (strip (strip s bs1).1 bs2).2).
Proof.
  unfold strip at 1. rewrite foldl_app. fold (strip s bs1). destruct (strip s bs1) as [s' o]. by rewrite strip_acc.
Qed.

(** No proper part of [l] read from ground ends at ground: one sequence, not two. *)
Definition open_run (l : list N) : Prop :=
  ∀ p k, l = p ++ k → p ≠ [] → k ≠ [] → vtGroundScan_scan gsGround p ≠ gsGround.

(** The held bytes are an open sequence that starts with ESC. *)
Record stripper_ok s : Prop := {
  so_state : vtGroundScan_scan gsGround (qs_seq s) = qs_st s;
  so_ground : qs_st s = gsGround → qs_seq s = [];
  so_open : qs_st s ≠ gsGround → head (qs_seq s) = Some ESC;
  so_run : open_run (qs_seq s);
}.

(** A token: whether it is a complete sequence, and its bytes. *)
Definition token : Type := bool * list N.
Definition dropped (t : token) : Prop := t.1 = true ∧ solicitsReply t.2 = true.
#[local] Instance dropped_dec t : Decision (dropped t).
Proof. unfold dropped. apply _. Defined.
(** How a token was cut: nothing ends inside it; a complete one is an escape
    sequence read to its end; any other is one plain byte, an escape sequence
    broken off, or one cancelled by CAN or SUB. *)
Record well_cut (t : token) : Prop := {
  wc_run : open_run t.2;
  wc_complete : t.1 = true → head t.2 = Some ESC ∧ vtGroundScan_scan gsGround t.2 = gsGround;
  wc_raw : t.1 = false →
    (∃ c, t.2 = [c] ∧ c ≠ ESC) ∨ vtGroundScan_scan gsGround t.2 ≠ gsGround ∨
    (∃ c, last t.2 = Some c ∧ aborts c = true);
}.
Definition kept (toks : list token) : list N := concat (filter (λ t, ¬ dropped t) toks).*2.

Lemma kept_app toks1 toks2 : kept (toks1 ++ toks2) = kept toks1 ++ kept toks2.
Proof. unfold kept. by rewrite filter_app, fmap_app, concat_app. Qed.

Lemma kept_flush seq : kept [(true, seq)] = flush seq.
Proof.
  unfold kept, flush. destruct (solicitsReply seq) eqn:E.
  - rewrite filter_cons_False, filter_nil; [done|]. intros Hd. by apply Hd.
  - rewrite filter_cons_True, filter_nil; [cbn; by rewrite app_nil_r|]. intros [_ Hd]. cbn in Hd. congruence.
Qed.

Lemma kept_raw bs : kept [(false, bs)] = bs.
Proof. unfold kept. rewrite filter_cons_True by (intros [[=] _]). cbn. by rewrite app_nil_r. Qed.

Lemma scan_snoc st bs c : vtGroundScan_scan st (bs ++ [c]) = gs_step (vtGroundScan_scan st bs) c.
Proof. unfold vtGroundScan_scan. by rewrite foldl_app. Qed.

(** The four things a byte can do to the held sequence. *)
Inductive strip_case s c : queryStripper → list N → Prop :=
  | case_hold st :
      st ≠ gsGround → gs_step (qs_st s) c = st →
      strip_case s c (mkStripper st (qs_seq s ++ [c])) []
  | case_flush :
      gs_step (qs_st s) c = gsGround → qs_st s ≠ gsGround →
      strip_case s c (mkStripper gsGround []) (flush (qs_seq s ++ [c]))
  | case_pass :
      gs_step (qs_st s) c = gsGround → qs_st s = gsGround ∨ aborts c = true →
      strip_case s c (mkStripper gsGround []) (qs_seq s ++ [c])
  | case_restart :
      c = ESC → gs_step (qs_st s) c = gsEsc → qs_st s ≠ gsGround →
      strip_case s c (mkStripper gsEsc [ESC]) (qs_seq s).

Lemma gs_step_of st c : aborts c = false → gs_step st c =
  match st with
  | gsGround => if c =? ESC then gsEsc else gsGround
  | gsEsc => if c =? 0x5b then gsCSI else if opens_string c then gsStr else if c =? ESC then gsEsc
             else if between 0x20 0x2f c then gsEscInt else gsGround
  | gsEscInt => if between 0x20 0x2f c then gsEscInt else if c =? ESC then gsEsc else gsGround
  | gsCSI => if between 0x40 0x7e c then gsGround else if c =? ESC then gsEsc else gsCSI
  | gsStr => if (c =? 0x07) || (c =? 0x9c) then gsGround else if c =? ESC then gsStrEsc else gsStr
  | gsStrEsc => if c =? 0x5c then gsGround else if c =? ESC then gsStrEsc else gsStr
  end.
Proof. intros Ea. unfold gs_step. rewrite Ea. destruct st; try done. by destruct (c =? 7). Qed.

Lemma strip_step_case s c :
  stripper_ok s → strip_case s c (strip_step s c).1 (strip_step s c).2.
Proof.
  intros [_ Hg _ _]. destruct s as [st seq]. unfold strip_step. cbn [qs_st qs_seq] in *.
  destruct (aborts c) eqn:Ea.
  { apply case_pass; [unfold gs_step; by rewrite Ea|by right]. }
  pose proof (gs_step_of st c Ea) as Hst.
  destruct st; cbn [qs_st qs_seq] in *.
  1: { rewrite (Hg eq_refl). destruct (c =? ESC); cbn [fst snd].
    - by apply (case_hold (mkStripper gsGround []) c gsEsc).
    - apply (case_pass (mkStripper gsGround []) c); [done|by left]. }
  all: repeat match goal with |- context [if ?b then _ else _] => destruct b eqn:? end; cbn [fst snd];
    first [by apply case_flush | by eapply case_hold | apply case_restart; [by apply N.eqb_eq|done|done]].
Qed.

Lemma open_run_snoc l c :
  open_run l → (l ≠ [] → vtGroundScan_scan gsGround l ≠ gsGround) → open_run (l ++ [c]).
Proof.
  intros Hr Hl p k E Hp Hk. destruct k as [|d k] using rev_ind; [done|clear IHk].
  rewrite app_assoc in E. apply app_inj_tail in E as [-> _]. destruct k as [|e k].
  - rewrite app_nil_r in Hl. by apply Hl.
  - by apply (Hr p (e :: k)).
Qed.

Lemma newStripper_ok : stripper_ok newStripper.
Proof. split; [done|done|done|]. intros p k E Hp _. by destruct p. Qed.

(** What the held sequence and the next byte make together is still one run. *)
Lemma held_run s c : stripper_ok s → open_run (qs_seq s ++ [c]).
Proof.
  intros [Hs Hg Ho Hr]. apply open_run_snoc; [done|]. intros Hne. rewrite Hs. intros E. by apply Hne, Hg.
Qed.

Lemma token_one (t : token) : concat [t].*2 = t.2.
Proof. cbn. by rewrite app_nil_r. Qed.

Lemma strip_step_tokens s c :
  stripper_ok s →
  stripper_ok (strip_step s c).1 ∧ qs_st (strip_step s c).1 = gs_step (qs_st s) c ∧
  ∃ toks, concat toks.*2 ++ qs_seq (strip_step s c).1 = qs_seq s ++ [c] ∧
    (strip_step s c).2 = kept toks ∧ Forall well_cut toks.
Proof.
  intros Hok. pose proof (held_run s c Hok) as Hrun. pose proof Hok as [Hs Hg Ho Hr].
  assert (Hhead : qs_st s ≠ gsGround → head (qs_seq s ++ [c]) = Some ESC).
  { intros E. specialize (Ho E). by destruct (qs_seq s). }
  destruct (strip_step_case s c Hok) as [st Hst Est|Est Hne|Est Hw| -> Est Hne]; cbn [qs_st qs_seq].
  - split_and!; [|done|exists []; done]. split; cbn [qs_st qs_seq]; [by rewrite scan_snoc, Hs|done| |done].
    intros _. destruct (decide (qs_st s = gsGround)) as [E|E]; [|by apply Hhead].
    rewrite (Hg E). cbn. f_equal. rewrite E in Est. unfold gs_step in Est.
    destruct (aborts c); [congruence|]. destruct (N.eqb_spec c ESC); [done|congruence].
  - split_and!; [apply newStripper_ok|done|]. exists [(true, qs_seq s ++ [c])].
    rewrite token_one, app_nil_r, kept_flush. split_and!; [done|done|].
    apply Forall_singleton. split; [done| |done]. intros _. split; [by apply Hhead|]. cbn [snd]. by rewrite scan_snoc, Hs.
  - split_and!; [apply newStripper_ok|done|]. exists [(false, qs_seq s ++ [c])].
    rewrite token_one, app_nil_r, kept_raw. split_and!; [done|done|].
    apply Forall_singleton. split; [done|done|]. intros _. cbn [snd]. destruct (aborts c) eqn:Ea.
    + right; right. exists c. by rewrite last_snoc.
    + destruct Hw as [Hw|[=]]. left. exists c. rewrite (Hg Hw). split; [done|]. intros ->. by rewrite Hw in Est.
  - split_and!; [|done|].
    { split; [done|done|done|]. intros [|? [|]] k E Hp Hk; by destruct k. }
    exists [(false, qs_seq s)]. rewrite token_one, kept_raw. split_and!; [done|done|].
    apply Forall_singleton. split; [done|done|]. intros _. right; left. cbn [snd]. by rewrite Hs.
Qed.

Lemma strip_tokens s bs :
  stripper_ok s →
  stripper_ok (strip s bs).1 ∧ qs_st (strip s bs).1 = vtGroundScan_scan (qs_st s) bs ∧
  ∃ toks, concat toks.*2 ++ qs_seq (strip s bs).1 = qs_seq s ++ bs ∧
    (strip s bs).2 = kept toks ∧ Forall well_cut toks.
Proof.
  revert s. induction bs as [|c bs IH]; intros s Hok.
  { split_and!; [done|done|]. exists []. cbn. by rewrite app_nil_r. }
  rewrite strip_cons. cbn [fst snd]. destruct (strip_step_tokens s c Hok) as (Hok1 & Est1 & toks1 & E1 & O1 & C1).
  destruct (IH _ Hok1) as (Hok2 & Est2 & toks2 & E2 & O2 & C2).
  split_and!; [done|by rewrite Est2, Est1|]. exists (toks1 ++ toks2).
  rewrite fmap_app, concat_app, kept_app, O1, O2. split_and!; [|done|by apply Forall_app].
  rewrite <-app_assoc, E2, app_assoc, E1, <-app_assoc. done.
Qed.

Lemma strip_no_esc bs : existsb (λ c, c =? ESC) bs = false → strip newStripper bs = (newStripper, bs).
Proof.
  induction bs as [|c bs IH]; intros H; [done|]. cbn [existsb] in H. apply orb_false_iff in H as [Hc Hbs].
  rewrite strip_cons. unfold strip_step. cbn [newStripper qs_st qs_seq]. rewrite Hc.
  destruct (aborts c); cbn [fst snd app]; (change (mkStripper gsGround []) with newStripper; by rewrite IH).
Qed.

Lemma stripReplyQueries_strip bs :
  stripReplyQueries bs = (strip newStripper bs).2 ++ stripper_pending (strip newStripper bs).1.
Proof.
  unfold stripReplyQueries. destruct (existsb _ bs) eqn:E; cbn [negb].
  - by destruct (strip newStripper bs).
  - rewrite strip_no_esc by done. cbn. by rewrite app_nil_r.
Qed.

(** The stripper only takes out whole escape sequences: the output, and what is
    still held, is the input cut at its sequence boundaries, in order, with exactly
    those complete sequences missing that ask the terminal something; and it is at
    a sequence boundary exactly when the ground scanner is. *)
Theorem strip_removes_whole_queries bs :
  let s := (strip newStripper bs).1 in
  ∃ toks, concat toks.*2 ++ stripper_pending s = bs ∧
    stripReplyQueries bs = kept toks ++ stripper_pending s ∧
    Forall well_cut toks ∧ qs_st s = vtGroundScan_scan gsGround bs.
Proof.
  intros s. destruct (strip_tokens newStripper bs newStripper_ok) as (_ & Est & toks & E & O & C).
  exists toks. split_and!; [exact E|by rewrite stripReplyQueries_strip, O|done|done].
Qed.

End stripper.

(** Taking a query out can join its neighbours into another query: here a stray
    ESC and the text after a status request become a status request. *)
Theorem strip_splices_query :
  let bs := [ESC; ESC; 0x5b; 0x36; 0x6e; 0x5b; 0x36; 0x6e] in
  stripReplyQueries bs = [ESC; 0x5b; 0x36; 0x6e] ∧ solicitsReply (stripReplyQueries bs) = true.
Proof. by vm_compute. Qed.

(** A query right after an escape that was cut off at an intermediate byte is
    judged together with that escape, and passes. *)
Theorem strip_misses_query_after_intermediate :
  let bs := [ESC; 0x20; ESC; 0x5b; 0x36; 0x6e] in
  stripReplyQueries bs = bs ∧ solicitsReply (drop 2 bs) = true.
Proof. by vm_compute. Qed.

(** ** Over well-formed frames *)

Section wire_frames.
Context `{!FrameCodec, !LawfulFrames}.
Implicit Types (f : N * list N) (fs : list (N * list N)).

Definition encodes fs : list N := concat (map (λ f, encodeFrame f.1 f.2) fs).
Definition encodable f : Prop := f.1 < 256 ∧ N.of_nat (length f.2) < 2 ^ 32.

(** The type of an output frame. *)
Definition output_type (t : N) : bool := (t =? FrameType_Stdout) || (t =? FrameType_Stderr).
(** What the client's terminal is fed, and everything else. *)
Definition output_bytes fs : list N := concat (filter (λ f, output_type f.1 = true) fs).*2.
Definition others fs : list (N * list N) := filter (λ f, output_type f.1 = false) fs.

Lemma encodes_cons f fs : encodes (f :: fs) = encodeFrame f.1 f.2 ++ encodes fs.
Proof. done. Qed.

Lemma encodes_app fs1 fs2 : encodes (fs1 ++ fs2) = encodes fs1 ++ encodes fs2.
Proof. unfold encodes. by rewrite map_app, concat_app. Qed.

Lemma length_encodeFrame t p : length (encodeFrame t p) = (FrameHeaderSize + length p)%nat.
Proof. unfold encodeFrame. by rewrite length_app, header_size. Qed.

Lemma encodeFrame_payload t p : drop FrameHeaderSize (encodeFrame t p) = p.
Proof. unfold encodeFrame. erewrite <-(header_size t). apply drop_app_length. Qed.

Lemma encodeFrame_first t p : ∃ rest, encodeFrame t p = t :: rest.
Proof.
  unfold encodeFrame. pose proof (header_first t (uint32 (N.of_nat (length p)))) as Hh.
  destruct (AppendHeader t _) as [|t' h]; [done|]. injection Hh as ->. by eexists.
Qed.

Lemma whole_frame_encode f rest :
  encodable f → whole_frame (encodeFrame f.1 f.2 ++ rest) = Some (length (encodeFrame f.1 f.2)).
Proof.
  intros [Ht Hp]. pose proof (readOneFrame_encode f.1 f.2 rest Ht Hp) as Hr. revert Hr.
  unfold readOneFrame, whole_frame. pose proof header_size_pos as Hpos.
  destruct (_ <? FrameHeaderSize)%nat; [done|]. set (n := (FrameHeaderSize + _)%nat).
  assert (n =? 0 = false)%nat as -> by (apply Nat.eqb_neq; lia). cbn [orb].
  destruct (Nat.ltb_spec (length (encodeFrame f.1 f.2 ++ rest)) n) as [|Hle]; [done|]. intros [= E _].
  f_equal. rewrite <-E, length_take. lia.
Qed.

Lemma length_encodes fs : (length fs ≤ length (encodes fs))%nat.
Proof.
  induction fs as [|f fs IH]; [done|]. rewrite encodes_cons, length_app, length_encodeFrame.
  pose proof header_size_pos. cbn [length]. lia.
Qed.

Lemma output_bytes_cons f fs :
  output_bytes (f :: fs) = (if output_type f.1 then f.2 else []) ++ output_bytes fs.
Proof. unfold output_bytes. rewrite filter_cons. by destruct (output_type f.1). Qed.

Lemma others_cons f fs : others (f :: fs) = (if output_type f.1 then [] else [f]) ++ others fs.
Proof. unfold others. rewrite filter_cons. by destruct (output_type f.1). Qed.

Lemma output_bytes_app fs1 fs2 : output_bytes (fs1 ++ fs2) = output_bytes fs1 ++ output_bytes fs2.
Proof. unfold output_bytes. by rewrite filter_app, fmap_app, concat_app. Qed.

Lemma others_app fs1 fs2 : others (fs1 ++ fs2) = others fs1 ++ others fs2.
Proof. apply filter_app. Qed.

(** *** Stripping queries from framed output *)

Lemma strip_frames_encodes fuel s fs :
  Forall encodable fs → (length fs ≤ fuel)%nat →
  ∃ fs', strip_frames fuel s (encodes fs) = (encodes fs', [], (strip s (output_bytes fs)).1) ∧
    others fs' = others fs ∧ output_bytes fs' = (strip s (output_bytes fs)).2.
Proof.
  intros Hok. revert fuel s. induction Hok as [|f fs Hf _ IH]; intros fuel s Hfuel.
  { exists []. by destruct fuel. }
  destruct fuel as [|fuel]; [cbn in Hfuel; lia|]. cbn [length] in Hfuel. rewrite encodes_cons.
  cbn [strip_frames]. destruct (encodeFrame_first f.1 f.2) as [rest Er].
  rewrite whole_frame_encode, take_app_length, drop_app_length, Er by done. cbn [app is_output hd].
  rewrite <-Er, encodeFrame_payload. fold (output_type f.1). destruct (output_type f.1) eqn:Eo.
  - rewrite output_bytes_cons, others_cons, Eo, strip_app. cbn [fst snd app].
    destruct (strip s f.2) as [s' filtered] eqn:Es. cbn [fst snd].
    destruct (IH fuel s') as (fs' & -> & Eot & Eob); [lia|].
    destruct filtered as [|c cs] eqn:Ec.
    + exists fs'. done.
    + exists ((f.1, c :: cs) :: fs'). rewrite output_bytes_cons, others_cons. cbn [fst snd]. rewrite Eo, Eob. done.
  - rewrite output_bytes_cons, others_cons, Eo. cbn [app].
    destruct (IH fuel s) as (fs' & -> & Eot & Eob); [lia|]. exists (f :: fs').
    rewrite output_bytes_cons, others_cons, Eo, Eot. done.
Qed.

(** On framed output the filter gives frames again: every other frame as it was
    and in order, and the output frames carrying exactly the output bytes with
    their queries stripped, also those split over several frames. *)
Theorem stripReplyQueriesFrames_spec fs :
  Forall encodable fs →
  ∃ fs', stripReplyQueriesFrames (encodes fs) = encodes fs' ∧
    others fs' = others fs ∧ output_bytes fs' = stripReplyQueries (output_bytes fs).
Proof.
  intros Hok. assert (output_type FrameType_Stdout = true) as Hso by (unfold output_type; by rewrite N.eqb_refl).
  unfold stripReplyQueriesFrames. destruct (existsb _ (encodes fs)) eqn:E; cbn [negb].
  - destruct (strip_frames_encodes (length (encodes fs)) newStripper fs) as (fs' & -> & Eot & Eob);
      [done|apply length_encodes|]. rewrite stripReplyQueries_strip, app_nil_r.
    destruct (stripper_pending _) as [|c cs] eqn:Ep.
    + exists fs'. by rewrite !app_nil_r.
    + exists (fs' ++ [(FrameType_Stdout, c :: cs)]). unfold encodeStdoutFrame.
      rewrite encodes_app, others_app, output_bytes_app, Eot, Eob, encodes_cons.
      rewrite others_cons, output_bytes_cons. cbn [fst snd]. rewrite Hso. cbn. by rewrite !app_nil_r.
  - exists fs. split_and!; [done|done|]. rewrite stripReplyQueries_strip, strip_no_esc; [cbn; by rewrite app_nil_r|].
    clear Hok. induction fs as [|f fs IH]; [done|]. rewrite encodes_cons, existsb_app, orb_false_iff in E.
    destruct E as [E1 E2]. rewrite output_bytes_cons, existsb_app, IH, orb_false_r by done.
    unfold encodeFrame in E1. rewrite existsb_app, orb_false_iff in E1. destruct E1 as [_ E1]. by destruct (output_type f.1).
Qed.

(** *** Cropping framed output *)

(** Frame boundary [k] is a ground state of the scan from the start. *)
Definition ground_at fs (k : nat) : Prop :=
  vtGroundScan_scan gsGround (concat (take k fs).*2) = gsGround.
Definition size_from fs (k : nat) : nat := length (encodes (drop k fs)).

#[local] Instance ground_at_dec fs k : Decision (ground_at fs k).
Proof. unfold ground_at. apply _. Defined.

Lemma vtGroundScan_ground_true st : vtGroundScan_ground st = true ↔ st = gsGround.
Proof. apply bool_decide_eq_true. Qed.

Lemma encodes_drop fs k : drop (length (encodes (take k fs))) (encodes fs) = encodes (drop k fs).
Proof. rewrite <-(take_drop k fs) at 2. by rewrite encodes_app, drop_app_length. Qed.

Lemma size_from_take fs k : (length (encodes fs) - length (encodes (take k fs)) = size_from fs k)%nat.
Proof. unfold size_from. rewrite <-encodes_drop, length_drop. done. Qed.

Lemma take_S_frame fs k f : fs !! k = Some f → take (S k) fs = take k fs ++ [f].
Proof. apply take_S_r. Qed.

(** What the crop is: the largest fitting tail, or the smallest when none fits. *)
Definition crop_at fs (lim k : nat) : Prop :=
  (k < length fs)%nat ∧ ground_at fs k ∧ (∀ j, (j < k)%nat → ground_at fs j → (lim < size_from fs j)%nat) ∧
  (size_from fs k ≤ lim ∨ ∀ j, k < j < length fs → ¬ ground_at fs j)%nat.

Lemma cap_loop_spec fs lim fuel n g :
  Forall encodable fs → (lim < size_from fs 0)%nat → (n ≤ length fs)%nat → (length fs - n ≤ fuel)%nat →
  (g ≤ n)%nat → (g < length fs)%nat → ground_at fs g →
  (∀ j, g < j < n → ¬ ground_at fs j)%nat → (∀ j, (j < n)%nat → ground_at fs j → (lim < size_from fs j)%nat) →
  ∃ k, crop_at fs lim k ∧
    (λ r : nat + nat, r = inl (length (encodes (take k fs))) ∨ r = inr (length (encodes (take k fs))))
      (cap_loop_frames fuel (encodes fs) lim (length (encodes (take n fs))) (length (encodes (take g fs)))
         (vtGroundScan_scan gsGround (concat (take n fs).*2))).
Proof.
  intros Hok Hlim. revert n g. induction fuel as [|fuel IH]; intros n g Hn Hf Hgn Hgl Hg Hng Hbig.
  { exists g. split; [|by right]. split_and!; [done|done|intros; apply Hbig; [lia|done]|].
    right. intros j Hj. apply Hng. lia. }
  cbn [cap_loop_frames]. rewrite size_from_take. destruct (decide (n = length fs)) as [->|Hne].
  { rewrite (take_ge fs (length fs)), (proj2 (Nat.leb_le _ _)) by done. exists g. split; [|by right].
    split_and!; [done|done|intros; apply Hbig; [lia|done]|]. right. intros j Hj. apply Hng. lia. }
  destruct (lookup_lt_is_Some_2 fs n) as [f Hlk]; [lia|].
  assert (encodes (drop n fs) = encodeFrame f.1 f.2 ++ encodes (drop (S n) fs)) as Ed
    by (by rewrite (drop_S fs f n)).
  assert (encodable f) as Hfo by (by eapply Forall_lookup_1).
  pose proof header_size_pos as Hpos.
  destruct (Nat.leb_spec (length (encodes fs)) (length (encodes (take n fs)))) as [Hle|_].
  { pose proof (size_from_take fs n) as Hs. unfold size_from in Hs.
    rewrite Ed, length_app, length_encodeFrame in Hs. lia. }
  destruct (vtGroundScan_ground _ && _ && _) eqn:Ecut.
  { apply andb_true_iff in Ecut as [[Eg Eo]%andb_true_iff El]. apply vtGroundScan_ground_true in Eg.
    apply Nat.leb_le in El. exists n. split; [|by left]. split_and!; [lia|done|done|by left]. }
  rewrite encodes_drop, Ed, whole_frame_encode, take_app_length, encodeFrame_payload by done.
  assert (length (encodes (take n fs)) + length (encodeFrame f.1 f.2) = length (encodes (take (S n) fs)))%nat as ->.
  { rewrite (take_S_frame fs n f), encodes_app, encodes_cons, !length_app by done. cbn. lia. }
  assert (vtGroundScan_scan (vtGroundScan_scan gsGround (concat (take n fs).*2)) f.2 =
          vtGroundScan_scan gsGround (concat (take (S n) fs).*2)) as ->.
  { rewrite (take_S_frame fs n f), fmap_app, concat_app by done. cbn. rewrite app_nil_r.
    unfold vtGroundScan_scan. by rewrite foldl_app. }
  destruct (vtGroundScan_ground _) eqn:Eg.
  - apply vtGroundScan_ground_true in Eg. apply (IH (S n) n); try lia; [done|].
    intros j Hj Hgj. destruct (decide (j = n)) as [->|]; [|apply Hbig; [lia|done]].
    destruct (decide (n = 0)%nat) as [->|Hn0]; [done|].
    cbn [andb] in Ecut. apply andb_false_iff in Ecut as [Eo|El]; [|by apply Nat.leb_gt].
    apply Nat.ltb_ge in Eo. assert (length (take n fs) ≤ 0)%nat as Hz by (pose proof (length_encodes (take n fs)); lia).
    rewrite length_take in Hz. lia.
  - assert (¬ ground_at fs n) as Hngn by (intros Hgr; apply vtGroundScan_ground_true in Hgr; congruence).
    apply (IH (S n) g); try lia; [done| |].
    + intros j Hj. destruct (decide (j = n)) as [->|]; [done|apply Hng; lia].
    + intros j Hj Hgj. destruct (decide (j = n)) as [->|]; [done|apply Hbig; [lia|done]].
Qed.

Lemma capReplayTail_crop fs (limit : N) :
  Forall encodable fs → limit ≠ 0 → limit < N.of_nat (length (encodes fs)) →
  ∃ k, capReplayTail (encodes fs) limit = encodes (drop k fs) ∧ crop_at fs (N.to_nat limit) k.
Proof.
  intros Hok Hl0 Hlim. unfold capReplayTail.
  destruct (N.eqb_spec limit 0) as [|_]; [done|]. destruct (N.leb_spec (N.of_nat (length (encodes fs))) limit) as [|_]; [lia|].
  cbn [orb]. assert (0 < length fs)%nat as Hfs by (destruct fs; [cbn in Hlim; lia|cbn; lia]).
  destruct (cap_loop_spec fs (N.to_nat limit) (length (encodes fs)) 0 0) as (k & Hk & Hr);
    [done|change (size_from fs 0) with (length (encodes fs)); lia|lia|pose proof (length_encodes fs); lia|done|done|done|intros; lia|intros; lia|].
  exists k. split; [|done]. rewrite take_0 in Hr. cbn in Hr.
  by destruct Hr as [-> | ->]; rewrite encodes_drop.
Qed.

(** What a viewer may rely on: the tail starts where the output before it left no
    escape sequence open, it fits the limit if any such tail does, and otherwise no
    such boundary comes later. *)
Definition safe_crop fs (lim k : nat) : Prop :=
  let safe j := (j < length fs)%nat ∧ vtGroundScan_scan gsGround (output_bytes (take j fs)) = gsGround in
  safe k ∧ ((∃ j, safe j ∧ (size_from fs j ≤ lim)%nat) → (size_from fs k ≤ lim)%nat) ∧
  ((∀ j, safe j → (lim < size_from fs j)%nat) → ∀ j, (k < j)%nat → ¬ safe j).

Lemma output_only_bytes fs k :
  Forall (λ f, output_type f.1 = true) fs → output_bytes (take k fs) = concat (take k fs).*2.
Proof.
  intros Ho. unfold output_bytes. f_equal. f_equal. apply (Forall_take _ k) in Ho.
  induction Ho as [|f l Hf _ IH]; [done|]. by rewrite filter_cons, decide_True, IH by done.
Qed.

(** C36. A capped replay of output is never empty and starts at a frame boundary at which
    the ground scan of the output before it is outside any escape sequence; it fits
    the limit when some such tail does, and otherwise it starts at the last such
    boundary.  The frames are all of output: the scan reads the payload of other
    frames as output too. *)
Theorem capReplayTail_spec fs (limit : N) :
  Forall encodable fs → Forall (λ f, output_type f.1 = true) fs →
  limit ≠ 0 → limit < N.of_nat (length (encodes fs)) →
  ∃ k, capReplayTail (encodes fs) limit = encodes (drop k fs) ∧ safe_crop fs (N.to_nat limit) k.
Proof.
  intros Hok Hout Hl0 Hlim. destruct (capReplayTail_crop fs limit Hok Hl0 Hlim) as (k & Hk & H1 & H2 & H3 & H4).
  exists k. split; [done|]. unfold safe_crop.
  setoid_rewrite (output_only_bytes fs _ Hout). fold (ground_at fs).
  split_and!; [done|done| |].
  - intros (j & [Hj Hg] & Hs). destruct H4 as [|H4]; [done|].
    destruct (decide (j < k)%nat) as [Hlt|Hge]; [by specialize (H3 j Hlt Hg); lia|].
    destruct (decide (j = k)) as [->|]; [done|]. destruct (H4 j); [lia|done].
  - intros Hno j Hj [Hjl Hg]. destruct H4 as [H4|H4]; [specialize (Hno k (conj H1 H2)); lia|]. by apply (H4 j).
Qed.

End wire_frames.

(** ** On a concrete stream *)

#[local] Existing Instance SampleFrames.codec.
#[local] Existing Instance SampleFrames.codec_lawful.

Module SampleReplay.
(** A status request split over two output frames, with a control frame between. *)
Definition frames : list (N * list N) := [(1, [104; ESC; 0x5b]); (3, [7]); (1, [0x36; 0x6e; 105])].
(** Text, then a colour sequence split over two frames, then text. *)
Definition coloured : list (N * list N) := [(1, [104]); (1, [ESC; 0x5b]); (1, [0x31; 0x6d; 105]); (1, [106])].
(** A control frame whose payload contains CAN, inside a title sequence. *)
Definition resized : list (N * list N) := [(1, [ESC; 0x5d; 0x30; 0x3b]); (3, [0; 24]); (1, [104; 105; 7])].
End SampleReplay.

Ltac encodable_closed :=
  repeat apply Forall_cons_2; [split; vm_compute; reflexivity..|constructor].

Lemma stripReplyQueriesFrames_spec_witness :
  ∃ fs', stripReplyQueriesFrames (encodes SampleReplay.frames) = encodes fs' ∧
    others fs' = [(3, [7])] ∧ output_bytes fs' = [104; 105].
Proof.
  destruct (stripReplyQueriesFrames_spec SampleReplay.frames) as (fs' & E1 & E2 & E3); [encodable_closed|].
  exists fs'. split_and!; [exact E1|rewrite E2; reflexivity|rewrite E3; vm_compute; reflexivity].
Defined.

Lemma capReplayTail_spec_witness :
  ∃ k, capReplayTail (encodes SampleReplay.coloured) 15 = encodes (drop k SampleReplay.coloured) ∧
    safe_crop SampleReplay.coloured 15 k.
Proof.
  apply (capReplayTail_spec SampleReplay.coloured 15); [encodable_closed| |lia|vm_compute; reflexivity].
  repeat apply Forall_cons_2; [reflexivity..|constructor].
Defined.

(** The crop reads the payload of control frames as terminal output: one
    whose bytes include CAN makes it crop inside a title sequence, whose
    text then bleeds into the screen. *)
Theorem capReplayTail_reads_control_frames :
  let fs := SampleReplay.resized in
  capReplayTail (encodes fs) 8 = encodes (drop 2 fs) ∧
  vtGroundScan_scan gsGround (output_bytes (take 2 fs)) ≠ gsGround.
Proof. vm_compute. split; [reflexivity|discriminate]. Qed.
