(* ===== verification/TermMode.v ===== *)
(** * Terminal modes: [termmode/tracker.go]

    [Tracker] follows the DEC private modes a program sets in its output, one byte
    at a time, and writes the escape sequences that restore them.  A Go [int]
    parameter that comes from digits is a number below 2^63; the map of modes is a
    [gmap], whose iteration order the sorting of the keys removes. *)

From stdpp Require Import prelude gmap list sorting.
From Stdlib Require Import NArith ZArith.
From S2P Require Import Prelude VtScan.

Open Scope N_scope.
Open Scope stdpp_scope.
Set Default Goal Selector "!".

(** ** Decimal numbers *)

Definition is_digit (b : N) : bool := between 0x30 0x39 b.

(** [strconv.Itoa] of a non-negative [int]; 20 digits are enough for 64 bits. *)
Fixpoint digits (fuel : nat) (n : N) : list N :=
  match fuel with
  | O => []
  | S fuel' => if n <? 10 then [0x30 + n] else digits fuel' (n / 10) ++ [0x30 + n `mod` 10]
  end.
Definition Itoa (n : N) : list N := digits 20 n.

Definition decimal (ds : list N) : N := foldl (λ n d, 10 * n + (d - 0x30)) 0 ds.
(** [strconv.Atoi] of a string of digits: the error is the range error. *)
Definition Atoi (ds : list N) : option N :=
  let n := decimal ds in if n <? 2 ^ 63 then Some n else None.

(** ** The tracker *)

Inductive parseState := stNormal | stEsc | stCSI | stCSIIgnore | stCSIPrivate.

#[export] Instance parseState_eq_dec : EqDecision parseState.
Proof. solve_decision. Defined.

Record Tracker := mkTracker {
  tr_modes : gmap N bool;
  tr_st : parseState;
  tr_params : list N;
}.

Definition maxModeParams : nat := 64.
Definition decCursorVisible : N := 25.
Definition BracketedPaste : N := 2004.

Definition New : Tracker := mkTracker ∅ stNormal [].

Definition excludedFromPreamble (mode : N) : bool :=
  bool_decide (mode ∈ [47; 1047; 1048; 1049; 2026]).

(** The loop of [applyParams] from an index: [cur] is [t.params[start:i]]. *)
Fixpoint apply_from (set : bool) (cur ps : list N) (modes : gmap N bool) : gmap N bool :=
  let record :=
    match cur with
    | [] => modes
    | _ => match Atoi cur with Some n => <[n := set]> modes | None => modes end
    end in
  match ps with
  | [] => record
  | b :: ps' => if b =? 0x3b then apply_from set [] ps' record else apply_from set (cur ++ [b]) ps' modes
  end.
Definition applyParams (set : bool) (params : list N) (modes : gmap N bool) : gmap N bool :=
  apply_from set [] params modes.

(** One byte of [Feed]. *)
Definition feed_step (t : Tracker) (b : N) : Tracker :=
  let 'mkTracker modes st params := t in
  match st with
  | stNormal => if b =? 0x1b then mkTracker modes stEsc params else t
  | stEsc =>
      if b =? 0x5b then mkTracker modes stCSI params
      else if b =? 0x1b then t
      else mkTracker modes stNormal params
  | stCSI =>
      if b =? 0x3f then mkTracker modes stCSIPrivate []
      else if between 0x40 0x7e b then mkTracker modes stNormal params
      else mkTracker modes stCSIIgnore params
  | stCSIIgnore => if between 0x40 0x7e b then mkTracker modes stNormal params else t
  | stCSIPrivate =>
      if is_digit b || (b =? 0x3b) then
        if (maxModeParams <=? length params)%nat then mkTracker modes stNormal []
        else mkTracker modes stCSIPrivate (params ++ [b])
      else if (b =? 0x68) || (b =? 0x6c) then mkTracker (applyParams (b =? 0x68) params modes) stNormal []
      else mkTracker modes stNormal []
  end.

Definition Feed (t : Tracker) (payload : list N) : Tracker := foldl feed_step t payload.

(** [Mode]: the last value seen, or that none was. *)
Definition Mode (t : Tracker) (n : N) : option bool := tr_modes t !! n.

(** [t.modes[n]] of a map of booleans. *)
Definition mode_on (t : Tracker) (n : N) : bool := default false (tr_modes t !! n).
Definition OnAltScreen (t : Tracker) : bool := mode_on t 47 || mode_on t 1047 || mode_on t 1049.

Definition appendMode (out : list N) (mode : N) (set : bool) : list N :=
  out ++ [0x1b; 0x5b; 0x3f] ++ Itoa mode ++ [if set then 0x68 else 0x6c].

(** The modes [appendModesLocked] writes, in order. *)
Definition replayed_keys (t : Tracker) : list N :=
  merge_sort N.le
    (filter (λ m, m ≠ decCursorVisible ∧ excludedFromPreamble m = false) (map_to_list (tr_modes t)).*1).
Definition appendModesLocked (t : Tracker) (out : list N) : list N :=
  foldl (λ out m, appendMode out m (mode_on t m)) out (replayed_keys t).

(** The three sequences that lead in [Preamble]. *)
Definition preamble_head (onAlt : bool) (cursor : option bool) : list N :=
  let out := if onAlt && bool_decide (is_Some cursor) then appendMode [] 1049 false else [] in
  let out := match cursor with Some vis => appendMode out decCursorVisible vis | None => out end in
  if onAlt then appendMode out 1049 true else out.

(** [nil] and the empty slice are the empty list. *)
Definition Preamble (t : Tracker) : list N :=
  let onAlt := mode_on t 1049 || mode_on t 1047 || mode_on t 47 in
  appendModesLocked t (preamble_head onAlt (tr_modes t !! decCursorVisible)).

Definition Modes (t : Tracker) : list N := appendModesLocked t [].

(** ** Digits *)

Lemma decimal_snoc ds d : decimal (ds ++ [d]) = 10 * decimal ds + (d - 0x30).
Proof. unfold decimal. by rewrite foldl_app. Qed.

Lemma digits_spec fuel n :
  n < 10 ^ N.of_nat fuel → n ≠ 0 ∨ fuel ≠ O →
  decimal (digits fuel n) = n ∧ Forall (λ d, is_digit d = true) (digits fuel n) ∧
  (0 < length (digits fuel n) ≤ fuel)%nat.
Proof.
  revert n. induction fuel as [|fuel IH]; intros n Hn Hz; [cbn in Hn; lia|]. cbn [digits].
  rewrite Nat2N.inj_succ, N.pow_succ_r' in Hn.
  assert (∀ d, d < 10 → is_digit (0x30 + d) = true) as Hd.
  { intros d Hd. unfold is_digit, between. rewrite andb_true_iff, !N.leb_le. lia. }
  destruct (N.ltb_spec n 10) as [Hlt|Hge].
  - split_and!; [change (10 * 0 + (48 + n - 48) = n); lia|by apply Forall_singleton, Hd|cbn; lia|cbn; lia].
  - assert (n / 10 < 10 ^ N.of_nat fuel) as Hq by (apply N.Div0.div_lt_upper_bound; lia).
    assert (n / 10 ≠ 0) as Hq0 by (intros E; apply N.div_small_iff in E; lia).
    destruct (IH (n / 10) Hq (or_introl Hq0)) as (E & Hf & Hl).
    pose proof (N.mod_upper_bound n 10 ltac:(lia)) as Hm. pose proof (N.div_mod n 10 ltac:(lia)) as Hdm.
    split_and!.
    + rewrite decimal_snoc, E. remember (n / 10). remember (n `mod` 10). lia.
    + apply Forall_app. split; [done|]. by apply Forall_singleton, Hd.
    + rewrite length_app. cbn. lia.
    + rewrite length_app. cbn. lia.
Qed.

Lemma Itoa_spec n :
  n < 2 ^ 63 →
  Atoi (Itoa n) = Some n ∧ Forall (λ d, is_digit d = true) (Itoa n) ∧ (0 < length (Itoa n) ≤ 20)%nat.
Proof.
  intros Hn. destruct (digits_spec 20 n) as (E & Hf & Hl); [|by right|].
  { eapply N.lt_trans; [exact Hn|]. by vm_compute. }
  split_and!; [|done|exact (proj1 Hl)|exact (proj2 Hl)]. unfold Atoi, Itoa. rewrite E. by destruct (N.ltb_spec n (2 ^ 63)); [|lia].
Qed.

(** ** Reading a sequence back *)

Section tracker.
Implicit Types (t : Tracker) (bs ds : list N) (modes : gmap N bool).

Lemma Feed_app t bs1 bs2 : Feed t (bs1 ++ bs2) = Feed (Feed t bs1) bs2.
Proof. apply foldl_app. Qed.

Lemma is_digit_not_semi d : is_digit d = true → (d =? 0x3b) = false.
Proof. unfold is_digit, between. rewrite andb_true_iff, !N.leb_le. intros [? ?]. apply N.eqb_neq. lia. Qed.

Lemma Feed_digits modes ps ds :
  Forall (λ d, is_digit d = true) ds → (length ps + length ds ≤ maxModeParams)%nat →
  Feed (mkTracker modes stCSIPrivate ps) ds = mkTracker modes stCSIPrivate (ps ++ ds).
Proof.
  intros Hd. revert ps. induction Hd as [|d ds Hd _ IH]; intros ps Hl; cbn [Feed foldl].
  { by rewrite app_nil_r. }
  cbn [feed_step length] in *. rewrite Hd. cbn [orb].
  rewrite (proj2 (Nat.leb_gt maxModeParams (length ps))) by lia.
  fold (Feed (mkTracker modes stCSIPrivate (ps ++ [d])) ds).
  rewrite IH; [by rewrite <-app_assoc|]. rewrite length_app. cbn. lia.
Qed.

Lemma apply_from_digits set cur ds modes n :
  Forall (λ d, is_digit d = true) ds → cur ++ ds ≠ [] → Atoi (cur ++ ds) = Some n →
  apply_from set cur ds modes = <[n := set]> modes.
Proof.
  intros Hd. revert cur. induction Hd as [|d ds Hd _ IH]; intros cur Hne Ha.
  - rewrite app_nil_r in *. destruct cur; [done|]. cbn [apply_from]. by rewrite Ha.
  - cbn [apply_from]. rewrite is_digit_not_semi by done. apply IH; by rewrite <-app_assoc.
Qed.

(** One written sequence sets one mode. *)
Lemma Feed_appendMode t out m set :
  m < 2 ^ 63 → tr_st (Feed t out) = stNormal →
  Feed t (appendMode out m set) = mkTracker (<[m := set]> (tr_modes (Feed t out))) stNormal [].
Proof.
  intros Hm Hst. destruct (Itoa_spec m Hm) as (Ha & Hf & Hl). unfold appendMode. rewrite !Feed_app.
  destruct (Feed t out) as [modes st ps]. cbn [tr_st tr_modes] in *. subst st.
  change (Feed (mkTracker modes stNormal ps) [0x1b; 0x5b; 0x3f]) with (mkTracker modes stCSIPrivate []).
  rewrite Feed_digits by (done || unfold maxModeParams; cbn [length]; lia). cbn [app].
  assert (applyParams set (Itoa m) modes = <[m := set]> modes) as Ep.
  { apply apply_from_digits; [done|intros E; cbn [app] in E; rewrite E in Hl; cbn in Hl; lia|exact Ha]. }
  rewrite <-Ep. by destruct set.
Qed.

Lemma Feed_appendModes t out ks (f : N → bool) :
  Forall (λ m, m < 2 ^ 63) ks → tr_st (Feed t out) = stNormal →
  tr_st (Feed t (foldl (λ out m, appendMode out m (f m)) out ks)) = stNormal ∧
  ∀ n, Mode (Feed t (foldl (λ out m, appendMode out m (f m)) out ks)) n =
    if decide (n ∈ ks) then Some (f n) else Mode (Feed t out) n.
Proof.
  intros Hk. revert out. induction Hk as [|m ks Hm _ IH]; intros out Hst; cbn [foldl].
  { split; [done|]. intros n. destruct (decide (n ∈ [])) as [Hn|]; [by apply elem_of_nil in Hn|done]. }
  pose proof (Feed_appendMode t out m (f m) Hm Hst) as E.
  destruct (IH (appendMode out m (f m))) as [IH1 IH2]; [by rewrite E|]. split; [done|]. intros n. rewrite IH2, E.
  unfold Mode. cbn [tr_modes]. destruct (decide (n ∈ ks)) as [Hn|Hn].
  - by rewrite decide_True by by right.
  - destruct (decide (n = m)) as [->|Hne].
    + by rewrite lookup_insert_eq, decide_True by by left.
    + rewrite lookup_insert_ne by done. rewrite decide_False; [done|]. by rewrite elem_of_cons; intros [].
Qed.

(** Every mode number seen fits an [int], and the parameters stay in their cap. *)
Definition tracker_ok t : Prop :=
  (∀ n b, tr_modes t !! n = Some b → n < 2 ^ 63) ∧ (length (tr_params t) ≤ maxModeParams)%nat.

Lemma apply_from_ok set cur ps modes :
  (∀ n b, modes !! n = Some b → n < 2 ^ 63) →
  ∀ n b, apply_from set cur ps modes !! n = Some b → n < 2 ^ 63.
Proof.
  assert (∀ cur modes, (∀ n b, modes !! n = Some b → n < 2 ^ 63) → ∀ n b,
    match cur with [] => modes | _ => match Atoi cur with Some n => <[n := set]> modes | None => modes end end !! n = Some b →
    n < 2 ^ 63) as Hrec.
  { clear. intros cur modes Hok n b. destruct cur as [|c cur]; [apply Hok|]. unfold Atoi.
    destruct (N.ltb_spec (decimal (c :: cur)) (2 ^ 63)) as [Hlt|_]; [|apply Hok].
    rewrite lookup_insert_Some. intros [[<- _]|[_ Hl]]; [done|by eapply Hok]. }
  revert cur modes. induction ps as [|b ps IH]; intros cur modes Hok; cbn [apply_from]; [by apply Hrec|].
  destruct (b =? 0x3b); apply IH; [by apply Hrec|done].
Qed.

Lemma feed_step_ok t b : tracker_ok t → tracker_ok (feed_step t b).
Proof.
  destruct t as [modes st ps]. intros [Hm Hp]. cbn [tr_modes tr_params] in *. unfold tracker_ok.
  assert (0 ≤ maxModeParams)%nat as H0 by (unfold maxModeParams; lia).
  destruct st; cbn [feed_step];
    repeat match goal with |- context [if ?c then _ else _] => destruct c eqn:? end; cbn [tr_modes tr_params length];
    try done.
  - split; [done|]. rewrite length_app. cbn. match goal with H : (_ <=? _)%nat = false |- _ => apply Nat.leb_gt in H end. lia.
  - split; [|done]. intros n v. by apply apply_from_ok.
Qed.

Lemma Feed_ok t bs : tracker_ok t → tracker_ok (Feed t bs).
Proof. revert t. induction bs as [|b bs IH]; intros t Hok; [done|]. by apply IH, feed_step_ok. Qed.

Lemma New_ok : tracker_ok New.
Proof. split; [intros n b Hn; cbn [New tr_modes] in Hn; by rewrite lookup_empty in Hn|cbn; lia]. Qed.

Lemma elem_of_replayed_keys t n :
  n ∈ replayed_keys t ↔ is_Some (Mode t n) ∧ n ≠ decCursorVisible ∧ excludedFromPreamble n = false.
Proof.
  unfold replayed_keys, Mode. rewrite merge_sort_Permutation, list_elem_of_filter, list_elem_of_fmap.
  split.
  - intros [Hex ([k b] & -> & Hin)]. apply elem_of_map_to_list in Hin. cbn. eauto.
  - intros [[b Hb] Hex]. split; [done|]. exists (n, b). split; [done|]. by apply elem_of_map_to_list.
Qed.

Lemma replayed_keys_bound t : tracker_ok t → Forall (λ m, m < 2 ^ 63) (replayed_keys t).
Proof. intros [Hm _]. apply Forall_forall. intros n [[b Hb] _]%elem_of_replayed_keys. by eapply Hm. Qed.

(** What the head of the preamble leaves behind: the cursor mode, and the
    alternate screen exactly when it is on. *)
Lemma preamble_head_spec t (onAlt : bool) (cursor : option bool) :
  let out := preamble_head onAlt cursor in
  tr_st t = stNormal →
  tr_st (Feed t out) = stNormal ∧
  tr_modes (Feed t out) =
    (if onAlt then <[1049 := true]> else id)
      (match cursor with Some vis => <[decCursorVisible := vis]> | None => id end (tr_modes t)).
Proof.
  intros out Hst. subst out. unfold preamble_head.
  assert (tr_st (Feed t []) = stNormal) as H0 by done.
  assert (1049 < 2 ^ 63) as Ha by lia. assert (decCursorVisible < 2 ^ 63) as Hc by (unfold decCursorVisible; lia).
  destruct cursor as [vis|]; [rewrite bool_decide_eq_true_2 by done|rewrite bool_decide_eq_false_2 by (by intros [])].
  - destruct onAlt; cbn [andb id].
    + pose proof (Feed_appendMode t [] 1049 false Ha H0) as E1.
      pose proof (Feed_appendMode t _ decCursorVisible vis Hc (f_equal tr_st E1)) as E2.
      pose proof (Feed_appendMode t _ 1049 true Ha (f_equal tr_st E2)) as E3.
      rewrite E3, E2, E1. cbn [tr_st tr_modes]. split; [done|]. change (Feed t []) with t. unfold decCursorVisible.
      by rewrite (insert_insert_ne _ 25 1049), insert_insert_eq, (insert_insert_ne _ 1049 25) by done.
    + by rewrite Feed_appendMode by done.
  - destruct onAlt; cbn [andb id]; [by rewrite Feed_appendMode by done|done].
Qed.

(** C38. The preamble carries the tracked state: a fresh tracker fed the preamble
    of a tracker agrees with it on the value of every mode that is replayed, set
    or never seen, is on the alternate screen exactly when it is, and is between
    sequences.  This is about what the tracker holds, whatever bytes it was fed. *)
Theorem Preamble_restores bs :
  let t := Feed New bs in
  let client := Feed New (Preamble t) in
  (∀ n, excludedFromPreamble n = false → Mode client n = Mode t n) ∧
  OnAltScreen client = OnAltScreen t ∧ tr_st client = stNormal.
Proof.
  intros t client. pose proof (Feed_ok New bs New_ok) as Hok. fold t in Hok.
  set (onAlt := mode_on t 1049 || mode_on t 1047 || mode_on t 47).
  destruct (preamble_head_spec New onAlt (tr_modes t !! decCursorVisible)) as [Hst Hm]; [done|].
  destruct (Feed_appendModes New _ (replayed_keys t) (mode_on t) (replayed_keys_bound t Hok) Hst) as [Hst' Hmode].
  fold (appendModesLocked t (preamble_head onAlt (tr_modes t !! decCursorVisible))) in Hst', Hmode.
  fold (Preamble t) in Hst', Hmode. fold client in Hst', Hmode.
  assert (∀ n, excludedFromPreamble n = true → n ≠ 1049 → Mode client n = None) as Hex.
  { intros n Hn H1049. rewrite Hmode, decide_False by (rewrite elem_of_replayed_keys, Hn; naive_solver).
    unfold Mode. rewrite Hm. assert (n ≠ decCursorVisible) as Hc by (intros ->; done).
    destruct onAlt, (tr_modes t !! decCursorVisible); cbn [id New tr_modes]; by rewrite ?lookup_insert_ne, lookup_empty. }
  split_and!; [| |done].
  - intros n Hn. rewrite Hmode. destruct (decide _) as [Hin|Hout].
    + apply elem_of_replayed_keys in Hin as [[b Hb] _]. unfold mode_on, Mode in *. by rewrite Hb.
    + rewrite elem_of_replayed_keys in Hout. unfold Mode at 1. rewrite Hm.
      assert (n ≠ 1049) as Ha by (intros ->; done). destruct (decide (n = decCursorVisible)) as [->|Hc].
      * destruct onAlt, (tr_modes t !! decCursorVisible) eqn:E; cbn [id New tr_modes];
          rewrite ?lookup_insert_ne, ?lookup_insert_eq, ?lookup_empty by done; unfold Mode; by rewrite E.
      * assert (Mode t n = None) as -> by (destruct (Mode t n) as [b|] eqn:E; [exfalso; apply Hout; split; [by exists b|done]|done]).
        destruct onAlt, (tr_modes t !! decCursorVisible); cbn [id New tr_modes]; by rewrite ?lookup_insert_ne, lookup_empty.
  - assert (Mode client 1049 = if onAlt then Some true else None) as H1049.
    { rewrite Hmode, decide_False by (rewrite elem_of_replayed_keys; naive_solver). unfold Mode. rewrite Hm.
      destruct onAlt, (tr_modes t !! decCursorVisible); cbn [id New tr_modes];
        by rewrite ?lookup_insert_eq, ?lookup_insert_ne, ?lookup_empty. }
    unfold OnAltScreen, mode_on. fold (Mode client 47) (Mode client 1047) (Mode client 1049).
    rewrite (Hex 47), (Hex 1047), H1049 by done. cbn [default from_option orb].
    transitivity onAlt; [by destruct onAlt|]. unfold onAlt, mode_on. fold (Mode t 47) (Mode t 1047) (Mode t 1049).
    by destruct (default false (Mode t 47)), (default false (Mode t 1047)), (default false (Mode t 1049)).
Qed.

End tracker.

(** A mode switch right after an escape sequence that was cut off is not seen:
    the tracker reads the ESC as part of the unfinished sequence, where the ground
    scanner, and a terminal, start over. *)
Theorem Feed_misses_mode_after_cut_sequence :
  let cut := [0x1b; 0x5b; 0x33] in
  let hide := appendMode [] decCursorVisible false in
  Mode (Feed New hide) decCursorVisible = Some false ∧
  Mode (Feed New (cut ++ hide)) decCursorVisible = None ∧
  vtGroundScan_scan gsGround (cut ++ take 1 hide) = gsEsc.
Proof. by vm_compute. Qed.
