(* ===== verification/Utf8.v ===== *)
(** * UTF-8 and decimal numbers

    What the code uses of Go's [unicode/utf8], [strconv] and [encoding/base64]: decoding and
    encoding of runes, validity, [Atoi], and base64 without padding.  Bytes and
    runes are [N]. *)

From stdpp Require Import prelude gmap strings list.
From Stdlib Require Import NArith ZArith.
From S2P Require Import Prelude GoStrings TermMode.

Open Scope N_scope.
Open Scope stdpp_scope.
Set Default Goal Selector "!".

(** ** Integers and UTF-8 *)

(** The value of a 64-bit [int]. *)
Definition int64 (z : Z) : Z := ((z + 2 ^ 63) `mod` 2 ^ 64 - 2 ^ 63)%Z.

Definition RuneError : N := 0xFFFD.

Definition in_range (lo hi b : N) : bool := (lo <=? b) && (b <=? hi).
Definition is_cont (b : N) : bool := in_range 0x80 0xBF b.

(** The length a first byte announces and the range of the second byte; [None] for
    a byte that stands alone, or for none. *)
Definition utf8_first (b : N) : option (nat * N * N) :=
  if in_range 0xC2 0xDF b then Some (2%nat, 0x80, 0xBF)
  else if b =? 0xE0 then Some (3%nat, 0xA0, 0xBF)
  else if b =? 0xED then Some (3%nat, 0x80, 0x9F)
  else if in_range 0xE1 0xEF b then Some (3%nat, 0x80, 0xBF)
  else if b =? 0xF0 then Some (4%nat, 0x90, 0xBF)
  else if b =? 0xF4 then Some (4%nat, 0x80, 0x8F)
  else if in_range 0xF1 0xF3 b then Some (4%nat, 0x80, 0xBF)
  else None.

(** [utf8.FullRune]. *)
Definition FullRune (p : list N) : bool :=
  match p with
  | [] => false
  | b0 :: rest =>
      match utf8_first b0 with
      | None => true
      | Some (size, lo, hi) =>
          (size <=? length p)%nat
          || match rest with
             | [] => false
             | b1 :: rest => negb (in_range lo hi b1) || match rest with [] => false | b2 :: _ => negb (is_cont b2) end
             end
      end
  end.

(** [utf8.DecodeRune]. *)
Definition DecodeRune (p : list N) : N * nat :=
  match p with
  | [] => (RuneError, 0%nat)
  | b0 :: rest =>
      if b0 <? 0x80 then (b0, 1%nat)
      else match utf8_first b0, rest with
      | Some (2%nat, lo, hi), b1 :: _ =>
          if in_range lo hi b1 then (N.lor (N.shiftl (N.land b0 0x1F) 6) (N.land b1 0x3F), 2%nat) else (RuneError, 1%nat)
      | Some (3%nat, lo, hi), b1 :: b2 :: _ =>
          if in_range lo hi b1 && is_cont b2
          then (N.lor (N.lor (N.shiftl (N.land b0 0x0F) 12) (N.shiftl (N.land b1 0x3F) 6)) (N.land b2 0x3F), 3%nat)
          else (RuneError, 1%nat)
      | Some (4%nat, lo, hi), b1 :: b2 :: b3 :: _ =>
          if in_range lo hi b1 && is_cont b2 && is_cont b3
          then (N.lor (N.lor (N.lor (N.shiftl (N.land b0 0x07) 18) (N.shiftl (N.land b1 0x3F) 12))
                  (N.shiftl (N.land b2 0x3F) 6)) (N.land b3 0x3F), 4%nat)
          else (RuneError, 1%nat)
      | _, _ => (RuneError, 1%nat)
      end
  end.

(** [utf8.ValidString], at most [fuel] runes. *)
Fixpoint valid_from (fuel : nat) (p : list N) : bool :=
  match fuel, p with
  | _, [] => true
  | O, _ => false
  | S fuel, _ =>
      let '(r, n) := DecodeRune p in
      if (r =? RuneError) && (n =? 1)%nat then false else valid_from fuel (drop n p)
  end.
Definition ValidString (p : list N) : bool := valid_from (length p) p.

(** [utf8.AppendRune]; an invalid rune is written as [RuneError]. *)
Definition EncodeRune (r : N) : list N :=
  let r := if (0x10FFFF <? r) || in_range 0xD800 0xDFFF r then RuneError else r in
  if r <? 0x80 then [r]
  else if r <? 0x800 then [N.lor 0xC0 (N.shiftr r 6); N.lor 0x80 (N.land r 0x3F)]
  else if r <? 0x10000 then
    [N.lor 0xE0 (N.shiftr r 12); N.lor 0x80 (N.land (N.shiftr r 6) 0x3F); N.lor 0x80 (N.land r 0x3F)]
  else [N.lor 0xF0 (N.shiftr r 18); N.lor 0x80 (N.land (N.shiftr r 12) 0x3F);
        N.lor 0x80 (N.land (N.shiftr r 6) 0x3F); N.lor 0x80 (N.land r 0x3F)].

(** The conversions [[]rune(s)] and [string(runes)]. *)
Fixpoint runes_from (fuel : nat) (p : list N) : list N :=
  match fuel, p with
  | O, _ | _, [] => []
  | S fuel, _ => let '(r, n) := DecodeRune p in r :: runes_from fuel (drop n p)
  end.
Definition to_runes (p : list N) : list N := runes_from (length p) p.
Definition of_runes (rs : list N) : list N := rs ≫= EncodeRune.

(** [strconv.Atoi]; [None] is its error. *)
Definition AtoiZ (s : list N) : option Z :=
  let '(neg, ds) := match s with
                    | 0x2D :: ds => (true, ds)
                    | 0x2B :: ds => (false, ds)
                    | _ => (false, s)
                    end in
  if bool_decide (ds = []) || negb (forallb is_digit ds) then None
  else let v := if neg then (- Z.of_N (decimal ds))%Z else Z.of_N (decimal ds) in
       if ((- 2 ^ 63 <=? v) && (v <? 2 ^ 63))%Z then Some v else None.

(** [utf8.RuneStart]. *)
Definition RuneStart (b : N) : bool := negb (is_cont b).

(** The first byte of the last rune, looked for backwards from [i], not below [lim]. *)
Fixpoint back_to_start (k : nat) (lim : nat) (p : list N) (i : nat) : option nat :=
  match k with
  | O => None
  | S k =>
      if (i <? lim)%nat then None
      else match p !! i with
           | Some b => if RuneStart b then Some i else match i with O => None | S i => back_to_start k lim p i end
           | None => None
           end
  end.

(** [utf8.DecodeLastRune]. *)
Definition DecodeLastRune (p : list N) : N * nat :=
  match last p with
  | None => (RuneError, 0%nat)
  | Some b =>
      if b <? 0x80 then (b, 1%nat)
      else
        let n := length p in
        let start := if (n =? 1)%nat then 0%nat else default 0%nat (back_to_start 4 (n - 4) p (n - 2)) in
        let '(r, size) := DecodeRune (drop start p) in
        if (start + size =? n)%nat then (r, size) else (RuneError, 1%nat)
  end.

(** [unicode.IsSpace]. *)
Definition IsSpace (r : N) : bool :=
  in_range 0x09 0x0D r || (r =? 0x20) || (r =? 0x85) || (r =? 0xA0) || (r =? 0x1680) || in_range 0x2000 0x200A r
  || (r =? 0x2028) || (r =? 0x2029) || (r =? 0x202F) || (r =? 0x205F) || (r =? 0x3000).

Fixpoint trim_left (fuel : nat) (p : list N) : list N :=
  match fuel, p with
  | O, _ | _, [] => p
  | S fuel, _ => let '(r, n) := DecodeRune p in if IsSpace r then trim_left fuel (drop n p) else p
  end.

Fixpoint trim_right (fuel : nat) (p : list N) : list N :=
  match fuel, p with
  | O, _ | _, [] => p
  | S fuel, _ => let '(r, n) := DecodeLastRune p in if IsSpace r then trim_right fuel (take (length p - n) p) else p
  end.

(** [strings.TrimSpace]. *)
Definition TrimSpace (p : list N) : list N :=
  let p := trim_left (length p) p in trim_right (length p) p.

(** [strings.Split] on one byte. *)
Fixpoint split_on (sep : N) (p : list N) : list (list N) :=
  match p with
  | [] => [[]]
  | b :: p =>
      if b =? sep then [] :: split_on sep p
      else match split_on sep p with
           | [] => [[b]]
           | seg :: segs => (b :: seg) :: segs
           end
  end.

(** [strings.IndexByte] as the two halves around the first [sep]. *)
Fixpoint cut_byte (sep : N) (p : list N) : option (list N * list N) :=
  match p with
  | [] => None
  | b :: p => if b =? sep then Some ([], p) else '(l, r) ← cut_byte sep p; Some (b :: l, r)
  end.

(** ** Base64, standard alphabet, no padding *)

Definition b64_char (v : N) : N :=
  if v <? 26 then 0x41 + v else if v <? 52 then 0x61 + (v - 26) else if v <? 62 then 0x30 + (v - 52)
  else if v =? 62 then 0x2B else 0x2F.

Definition b64_value (c : N) : option N :=
  if in_range 0x41 0x5A c then Some (c - 0x41)
  else if in_range 0x61 0x7A c then Some (c - 0x61 + 26)
  else if in_range 0x30 0x39 c then Some (c - 0x30 + 52)
  else if c =? 0x2B then Some 62 else if c =? 0x2F then Some 63 else None.

(** [base64.StdEncoding.EncodeToString]; [pad] is the padding character, if any. *)
Fixpoint b64_encode (pad : list N) (p : list N) : list N :=
  match p with
  | [] => []
  | [a] => [b64_char (N.shiftr a 2); b64_char (N.shiftl (N.land a 3) 4)] ++ pad ++ pad
  | [a; b] => [b64_char (N.shiftr a 2); b64_char (N.lor (N.shiftl (N.land a 3) 4) (N.shiftr b 4));
               b64_char (N.shiftl (N.land b 15) 2)] ++ pad
  | a :: b :: c :: p =>
      b64_char (N.shiftr a 2) :: b64_char (N.lor (N.shiftl (N.land a 3) 4) (N.shiftr b 4))
      :: b64_char (N.lor (N.shiftl (N.land b 15) 2) (N.shiftr c 6)) :: b64_char (N.land c 63) :: b64_encode pad p
  end.

(** [base64.RawStdEncoding.DecodeString] of characters other than CR and LF, which
    it would skip. *)
Fixpoint b64_decode (p : list N) : option (list N) :=
  match p with
  | [] => Some []
  | [_] => None
  | [c0; c1] =>
      v0 ← b64_value c0; v1 ← b64_value c1;
      Some [N.lor (N.shiftl v0 2) (N.shiftr v1 4)]
  | [c0; c1; c2] =>
      v0 ← b64_value c0; v1 ← b64_value c1; v2 ← b64_value c2;
      Some [N.lor (N.shiftl v0 2) (N.shiftr v1 4); N.lor (N.shiftl (N.land v1 15) 4) (N.shiftr v2 2)]
  | c0 :: c1 :: c2 :: c3 :: p =>
      v0 ← b64_value c0; v1 ← b64_value c1; v2 ← b64_value c2; v3 ← b64_value c3;
      rest ← b64_decode p;
      Some (N.lor (N.shiftl v0 2) (N.shiftr v1 4) :: N.lor (N.shiftl (N.land v1 15) 4) (N.shiftr v2 2)
            :: N.lor (N.shiftl (N.land v2 3) 6) v3 :: rest)
  end.

(** ** Laws *)

Lemma in_range_spec lo hi b : in_range lo hi b = true ↔ lo ≤ b ∧ b ≤ hi.
Proof. unfold in_range. rewrite andb_true_iff, !N.leb_le. done. Qed.

Lemma land_mask b k : N.land b (N.ones k) = b `mod` 2 ^ k.
Proof. apply N.land_ones. Qed.

Lemma lor_shift a b k : b < 2 ^ k → N.lor (N.shiftl a k) b = a * 2 ^ k + b.
Proof.
  intros Hb. assert (N.land (N.shiftl a k) b = 0) as Hz.
  { apply N.bits_inj_0. intros i. rewrite N.land_spec. destruct (N.ltb_spec i k) as [Hi|Hi]; [by rewrite N.shiftl_spec_low|].
    destruct (N.eq_dec b 0) as [->|Hb0]; [by rewrite N.bits_0, andb_false_r|].
    rewrite (N.bits_above_log2 b i), andb_false_r; [done|]. apply N.log2_lt_pow2 in Hb; lia. }
  rewrite <-N.lxor_lor, <-N.add_nocarry_lxor by done. by rewrite N.shiftl_mul_pow2.
Qed.

#[local] Ltac Zify.zify_post_hook ::= Z.to_euclidean_division_equations.

Lemma land_0x3F b : N.land b 0x3F = b `mod` 64.
Proof. exact (land_mask b 6). Qed.
Lemma lor_0x80 b : b < 64 → N.lor 0x80 b = 0x80 + b.
Proof. exact (lor_shift 2 b 6). Qed.

(** A lead byte and its continuations make a rune, and are read back from it. *)
Lemma encode2 b0 b1 :
  0xC2 ≤ b0 ≤ 0xDF → 0x80 ≤ b1 ≤ 0xBF →
  let r := N.lor (N.shiftl (N.land b0 0x1F) 6) (N.land b1 0x3F) in EncodeRune r = [b0; b1].
Proof.
  intros H0 H1 r. assert (r = (b0 - 0xC0) * 64 + (b1 - 0x80)) as Hr.
  { unfold r. change 0x1F with (N.ones 5). rewrite land_mask, land_0x3F, lor_shift by (by apply N.mod_lt).
    change (2 ^ 5) with 32. change (2 ^ 6) with 64. lia. }
  clearbody r. unfold EncodeRune, in_range. destruct (N.ltb_spec 0x10FFFF r), (N.leb_spec 0xD800 r); try lia. cbn [orb andb].
  destruct (N.ltb_spec r 0x80); [lia|]. destruct (N.ltb_spec r 0x800); [|lia].
  rewrite N.shiftr_div_pow2, land_0x3F. change (2 ^ 6) with 64. rewrite lor_0x80 by lia. change 0xC0 with (N.shiftl 3 6).
  rewrite lor_shift by (change (2 ^ 6) with 64; lia). change (2 ^ 6) with 64. f_equal; [lia|]. f_equal. lia.
Qed.

Lemma encode3 b0 b1 b2 lo hi :
  utf8_first b0 = Some (3%nat, lo, hi) → in_range lo hi b1 = true → is_cont b2 = true →
  let r := N.lor (N.lor (N.shiftl (N.land b0 0x0F) 12) (N.shiftl (N.land b1 0x3F) 6)) (N.land b2 0x3F) in
  EncodeRune r = [b0; b1; b2].
Proof.
  intros H0 [H1 H1']%in_range_spec [H2 H2']%in_range_spec r.
  assert (0xE0 ≤ b0 ≤ 0xEF ∧ (b0 = 0xE0 → 0xA0 ≤ b1) ∧ (b0 = 0xED → b1 ≤ 0x9F) ∧ 0x80 ≤ b1 ≤ 0xBF) as (Hb0 & Hlo & Hhi & Hb1).
  { revert H0. unfold utf8_first, in_range.
    destruct (N.leb_spec 0xC2 b0), (N.leb_spec b0 0xDF); cbn [andb]; try done; destruct (N.eqb_spec b0 0xE0); try (intros [= <- <-]; lia);
    destruct (N.eqb_spec b0 0xED); try (intros [= <- <-]; lia); destruct (N.leb_spec 0xE1 b0), (N.leb_spec b0 0xEF); cbn [andb];
    try (intros [= <- <-]; lia); destruct (N.eqb_spec b0 0xF0); try done; destruct (N.eqb_spec b0 0xF4); try done;
    destruct (N.leb_spec 0xF1 b0), (N.leb_spec b0 0xF3); done. }
  assert (r = (b0 - 0xE0) * 4096 + (b1 - 0x80) * 64 + (b2 - 0x80)) as Hr.
  { unfold r. change 0x0F with (N.ones 4). rewrite land_mask, !land_0x3F. change (2 ^ 4) with 16.
    replace (N.shiftl (b0 `mod` 16) 12) with (N.shiftl (N.shiftl (b0 `mod` 16) 6) 6) by (by rewrite N.shiftl_shiftl).
    rewrite <-N.shiftl_lor, lor_shift, lor_shift by (by apply N.mod_lt). change (2 ^ 6) with 64. lia. }
  clearbody r. unfold EncodeRune, in_range. destruct (N.ltb_spec 0x10FFFF r); [lia|]. cbn [orb].
  replace ((0xD800 <=? r) && (r <=? 0xDFFF)) with false
    by (symmetry; apply andb_false_iff; rewrite !N.leb_gt; lia).
  destruct (N.ltb_spec r 0x80); [lia|]. destruct (N.ltb_spec r 0x800); [lia|]. destruct (N.ltb_spec r 0x10000); [|lia].
  rewrite !N.shiftr_div_pow2, !land_0x3F. change (2 ^ 6) with 64. change (2 ^ 12) with 4096. rewrite !lor_0x80 by lia.
  change 0xE0 with (N.shiftl 14 4). rewrite lor_shift by (change (2 ^ 4) with 16; lia). change (2 ^ 4) with 16.
  f_equal; [lia|]. f_equal; [lia|]. f_equal. lia.
Qed.

Lemma encode4 b0 b1 b2 b3 lo hi :
  utf8_first b0 = Some (4%nat, lo, hi) → in_range lo hi b1 = true → is_cont b2 = true → is_cont b3 = true →
  let r := N.lor (N.lor (N.lor (N.shiftl (N.land b0 0x07) 18) (N.shiftl (N.land b1 0x3F) 12)) (N.shiftl (N.land b2 0x3F) 6))
             (N.land b3 0x3F) in
  EncodeRune r = [b0; b1; b2; b3].
Proof.
  intros H0 [H1 H1']%in_range_spec [H2 H2']%in_range_spec [H3 H3']%in_range_spec r.
  assert (0xF0 ≤ b0 ≤ 0xF4 ∧ (b0 = 0xF0 → 0x90 ≤ b1) ∧ (b0 = 0xF4 → b1 ≤ 0x8F) ∧ 0x80 ≤ b1 ≤ 0xBF) as (Hb0 & Hlo & Hhi & Hb1).
  { revert H0. unfold utf8_first, in_range.
    destruct (N.leb_spec 0xC2 b0), (N.leb_spec b0 0xDF); cbn [andb]; try done; destruct (N.eqb_spec b0 0xE0); try done;
    destruct (N.eqb_spec b0 0xED); try done; destruct (N.leb_spec 0xE1 b0), (N.leb_spec b0 0xEF); cbn [andb]; try done;
    destruct (N.eqb_spec b0 0xF0); try (intros [= <- <-]; lia); destruct (N.eqb_spec b0 0xF4); try (intros [= <- <-]; lia);
    destruct (N.leb_spec 0xF1 b0), (N.leb_spec b0 0xF3); cbn [andb]; try done; intros [= <- <-]; lia. }
  assert (r = (b0 - 0xF0) * 262144 + (b1 - 0x80) * 4096 + (b2 - 0x80) * 64 + (b3 - 0x80)) as Hr.
  { unfold r. change 0x07 with (N.ones 3). rewrite land_mask, !land_0x3F. change (2 ^ 3) with 8.
    replace (N.shiftl (b0 `mod` 8) 18) with (N.shiftl (N.shiftl (N.shiftl (b0 `mod` 8) 6) 6) 6) by (by rewrite !N.shiftl_shiftl).
    replace (N.shiftl (b1 `mod` 64) 12) with (N.shiftl (N.shiftl (b1 `mod` 64) 6) 6) by (by rewrite N.shiftl_shiftl).
    rewrite <-!N.shiftl_lor. rewrite !lor_shift by (by apply N.mod_lt). change (2 ^ 6) with 64. lia. }
  clearbody r. unfold EncodeRune, in_range. destruct (N.ltb_spec 0x10FFFF r); [lia|]. cbn [orb].
  replace ((0xD800 <=? r) && (r <=? 0xDFFF)) with false
    by (symmetry; apply andb_false_iff; rewrite !N.leb_gt; lia).
  destruct (N.ltb_spec r 0x80); [lia|]. destruct (N.ltb_spec r 0x800); [lia|]. destruct (N.ltb_spec r 0x10000); [lia|].
  rewrite !N.shiftr_div_pow2, !land_0x3F. change (2 ^ 6) with 64. change (2 ^ 12) with 4096. change (2 ^ 18) with 262144.
  rewrite !lor_0x80 by lia. change 0xF0 with (N.shiftl 30 3). rewrite lor_shift by (change (2 ^ 3) with 8; lia). change (2 ^ 3) with 8.
  f_equal; [lia|]. f_equal; [lia|]. f_equal; [lia|]. f_equal. lia.
Qed.

(** ** Encoding a scalar value *)

(** A Unicode scalar value: in range and no surrogate. *)
Definition scalar (r : N) : bool := (r <=? 0x10FFFF) && negb (in_range 0xD800 0xDFFF r).

Lemma first2 b : 0xC2 ≤ b ≤ 0xDF → utf8_first b = Some (2%nat, 0x80, 0xBF).
Proof. intros H. unfold utf8_first. by rewrite (proj2 (in_range_spec 0xC2 0xDF b)) by lia. Qed.

Lemma first3 b : 0xE0 ≤ b ≤ 0xEF → utf8_first b = Some (3%nat, if b =? 0xE0 then 0xA0 else 0x80, if b =? 0xED then 0x9F else 0xBF).
Proof.
  intros H. unfold utf8_first, in_range. destruct (N.leb_spec b 0xDF); [lia|]. rewrite andb_false_r.
  destruct (N.eqb_spec b 0xE0) as [->|]; [done|]. destruct (N.eqb_spec b 0xED) as [->|]; [done|].
  by destruct (N.leb_spec 0xE1 b), (N.leb_spec b 0xEF); try lia.
Qed.

Lemma first4 b : 0xF0 ≤ b ≤ 0xF4 → utf8_first b = Some (4%nat, if b =? 0xF0 then 0x90 else 0x80, if b =? 0xF4 then 0x8F else 0xBF).
Proof.
  intros H. unfold utf8_first, in_range. destruct (N.leb_spec b 0xDF), (N.leb_spec b 0xEF); try lia. rewrite !andb_false_r.
  destruct (N.eqb_spec b 0xE0), (N.eqb_spec b 0xED); try lia.
  destruct (N.eqb_spec b 0xF0) as [->|]; [done|]. destruct (N.eqb_spec b 0xF4) as [->|]; [done|].
  by destruct (N.leb_spec 0xF1 b), (N.leb_spec b 0xF3); try lia.
Qed.

(** What a byte-by-byte reader of one rune needs: no proper prefix of the encoding is
    a full rune, the encoding is one and decodes to the rune, and a rune beyond
    ASCII has no ASCII byte. *)
Definition reads_as (r : N) (bs : list N) : Prop :=
  DecodeRune bs = (r, length bs) ∧ FullRune bs = true ∧ (0 < length bs ≤ 4)%nat ∧
  (∀ k, (0 < k < length bs)%nat → FullRune (take k bs) = false) ∧ Forall (λ b, 0x80 ≤ b) bs ∧ (1 < length bs)%nat.

Lemma reads2 b0 b1 : 0xC2 ≤ b0 ≤ 0xDF → 0x80 ≤ b1 ≤ 0xBF → reads_as ((b0 - 0xC0) * 64 + (b1 - 0x80)) [b0; b1].
Proof.
  intros H0 H1. unfold reads_as. cbn [DecodeRune FullRune length]. rewrite (first2 b0 H0), (proj2 (in_range_spec 0x80 0xBF b1)) by lia.
  destruct (N.ltb_spec b0 0x80); [lia|]. split_and!; [|done|lia|lia| |repeat constructor; lia|lia].
  - f_equal. change 0x1F with (N.ones 5). rewrite land_mask, land_0x3F, lor_shift by (by apply N.mod_lt).
    change (2 ^ 5) with 32. change (2 ^ 6) with 64. lia.
  - intros [|[|k]] Hk; [lia| |cbn in Hk; lia]. cbn [take FullRune]. by rewrite (first2 b0 H0).
Qed.

Lemma reads3 b0 b1 b2 :
  0xE0 ≤ b0 ≤ 0xEF → 0x80 ≤ b1 ≤ 0xBF → 0x80 ≤ b2 ≤ 0xBF → (b0 = 0xE0 → 0xA0 ≤ b1) → (b0 = 0xED → b1 ≤ 0x9F) →
  reads_as ((b0 - 0xE0) * 4096 + (b1 - 0x80) * 64 + (b2 - 0x80)) [b0; b1; b2].
Proof.
  intros H0 H1 H2 Hlo Hhi. unfold reads_as. cbn [DecodeRune FullRune length].
  assert (in_range (if b0 =? 0xE0 then 0xA0 else 0x80) (if b0 =? 0xED then 0x9F else 0xBF) b1 = true) as Hb1.
  { apply in_range_spec. destruct (N.eqb_spec b0 0xE0), (N.eqb_spec b0 0xED); lia. }
  assert (is_cont b2 = true) as Hb2 by (apply in_range_spec; lia).
  rewrite (first3 b0 H0), Hb1, Hb2. destruct (N.ltb_spec b0 0x80); [lia|]. split_and!; [|done|lia|lia| |repeat constructor; lia|lia].
  - f_equal. change 0x0F with (N.ones 4). rewrite land_mask, !land_0x3F. change (2 ^ 4) with 16.
    replace (N.shiftl (b0 `mod` 16) 12) with (N.shiftl (N.shiftl (b0 `mod` 16) 6) 6) by (by rewrite N.shiftl_shiftl).
    rewrite <-N.shiftl_lor, lor_shift, lor_shift by (by apply N.mod_lt). change (2 ^ 6) with 64. lia.
  - intros [|[|[|k]]] Hk; [lia|..|cbn in Hk; lia]; cbn [take FullRune]; rewrite (first3 b0 H0); [done|]. by rewrite Hb1.
Qed.

Lemma reads4 b0 b1 b2 b3 :
  0xF0 ≤ b0 ≤ 0xF4 → 0x80 ≤ b1 ≤ 0xBF → 0x80 ≤ b2 ≤ 0xBF → 0x80 ≤ b3 ≤ 0xBF → (b0 = 0xF0 → 0x90 ≤ b1) → (b0 = 0xF4 → b1 ≤ 0x8F) →
  reads_as ((b0 - 0xF0) * 262144 + (b1 - 0x80) * 4096 + (b2 - 0x80) * 64 + (b3 - 0x80)) [b0; b1; b2; b3].
Proof.
  intros H0 H1 H2 H3 Hlo Hhi. unfold reads_as. cbn [DecodeRune FullRune length].
  assert (in_range (if b0 =? 0xF0 then 0x90 else 0x80) (if b0 =? 0xF4 then 0x8F else 0xBF) b1 = true) as Hb1.
  { apply in_range_spec. destruct (N.eqb_spec b0 0xF0), (N.eqb_spec b0 0xF4); lia. }
  assert (is_cont b2 = true) as Hb2 by (apply in_range_spec; lia). assert (is_cont b3 = true) as Hb3 by (apply in_range_spec; lia).
  rewrite (first4 b0 H0), Hb1, Hb2, Hb3. destruct (N.ltb_spec b0 0x80); [lia|]. split_and!; [|done|lia|lia| |repeat constructor; lia|lia].
  - f_equal. change 0x07 with (N.ones 3). rewrite land_mask, !land_0x3F. change (2 ^ 3) with 8.
    replace (N.shiftl (b0 `mod` 8) 18) with (N.shiftl (N.shiftl (N.shiftl (b0 `mod` 8) 6) 6) 6) by (by rewrite !N.shiftl_shiftl).
    replace (N.shiftl (b1 `mod` 64) 12) with (N.shiftl (N.shiftl (b1 `mod` 64) 6) 6) by (by rewrite N.shiftl_shiftl).
    rewrite <-!N.shiftl_lor. rewrite !lor_shift by (by apply N.mod_lt). change (2 ^ 6) with 64. lia.
  - intros [|[|[|[|k]]]] Hk; [lia|..|cbn in Hk; lia]; cbn [take FullRune]; rewrite (first4 b0 H0); [done|by rewrite Hb1|]. by rewrite Hb1, Hb2.
Qed.

Lemma EncodeRune_reads r : scalar r = true → 0x80 ≤ r → reads_as r (EncodeRune r).
Proof.
  unfold scalar. intros [Hmax%N.leb_le Hsur%negb_true_iff]%andb_prop Hr. unfold EncodeRune. rewrite Hsur.
  unfold in_range in Hsur. rewrite andb_false_iff, !N.leb_gt in Hsur.
  destruct (N.ltb_spec 0x10FFFF r); [lia|]. cbn [orb]. destruct (N.ltb_spec r 0x80); [lia|].
  rewrite !N.shiftr_div_pow2, !land_0x3F. change (2 ^ 6) with 64. change (2 ^ 12) with 4096. change (2 ^ 18) with 262144.
  rewrite !lor_0x80 by (by apply N.mod_lt). destruct (N.ltb_spec r 0x800).
  { change 0xC0 with (N.shiftl 3 6). rewrite lor_shift by (change (2 ^ 6) with 64; lia). change (3 * 2 ^ 6) with 0xC0.
    replace r with ((0xC0 + r / 64 - 0xC0) * 64 + (0x80 + r `mod` 64 - 0x80)) at 1 by lia. apply reads2; lia. }
  destruct (N.ltb_spec r 0x10000).
  { change 0xE0 with (N.shiftl 14 4). rewrite lor_shift by (change (2 ^ 4) with 16; lia). change (14 * 2 ^ 4) with 0xE0.
    replace r with ((0xE0 + r / 4096 - 0xE0) * 4096 + (0x80 + (r / 64) `mod` 64 - 0x80) * 64 + (0x80 + r `mod` 64 - 0x80)) at 1 by lia.
    apply reads3; lia. }
  change 0xF0 with (N.shiftl 30 3). rewrite lor_shift by (change (2 ^ 3) with 8; lia). change (30 * 2 ^ 3) with 0xF0.
  replace r with ((0xF0 + r / 262144 - 0xF0) * 262144 + (0x80 + (r / 4096) `mod` 64 - 0x80) * 4096 + (0x80 + (r / 64) `mod` 64 - 0x80) * 64
    + (0x80 + r `mod` 64 - 0x80)) at 1 by lia. apply reads4; lia.
Qed.

Lemma EncodeRune_ascii r : r < 0x80 → EncodeRune r = [r].
Proof.
  intros H. unfold EncodeRune, in_range. destruct (N.ltb_spec 0x10FFFF r), (N.leb_spec 0xD800 r); try lia. cbn [orb andb].
  by destruct (N.ltb_spec r 0x80); [|lia].
Qed.

Lemma lor_ge a b : a ≤ N.lor a b.
Proof.
  assert (N.lor a b = a + N.ldiff b a) as ->; [|lia]. rewrite N.add_nocarry_lxor.
  - apply N.bits_inj. intros i. rewrite N.lor_spec, N.lxor_spec, N.ldiff_spec. by destruct (N.testbit a i), (N.testbit b i).
  - apply N.bits_inj_0. intros i. rewrite N.land_spec, N.ldiff_spec. by destruct (N.testbit a i), (N.testbit b i).
Qed.

Lemma EncodeRune_high r : 0x80 ≤ r → Forall (λ b, 0x80 ≤ b) (EncodeRune r).
Proof.
  intros Hr. unfold EncodeRune. set (r' := if (0x10FFFF <? r) || in_range 0xD800 0xDFFF r then RuneError else r).
  assert (0x80 ≤ r') as Hr' by (unfold r', RuneError; destruct (_ || _); lia). clearbody r'.
  destruct (N.ltb_spec r' 0x80); [lia|].
  assert (∀ k b, 0x80 ≤ k → 0x80 ≤ N.lor k b) as Hk by (intros k b Hk; pose proof (lor_ge k b); lia).
  destruct (r' <? 0x800); [|destruct (r' <? 0x10000)]; repeat (apply Forall_cons_2; [apply Hk; lia|]); constructor.
Qed.

(** What [DecodeRune] does on a string: one byte in error, or the whole encoding of
    a rune, whatever follows it. *)
Lemma DecodeRune_inv p r n :
  p ≠ [] → DecodeRune p = (r, n) →
  (r = RuneError ∧ n = 1%nat) ∨
  ((0 < n ≤ length p)%nat ∧ EncodeRune r = take n p ∧ ∀ q, DecodeRune (take n p ++ q) = (r, n)).
Proof.
  destruct p as [|b0 p]; [done|]. intros _. cbn [DecodeRune]. destruct (N.ltb_spec b0 0x80) as [Hb|Hb].
  { intros [= <- <-]. right. cbn [take app length]. split; [lia|]. split.
    - unfold EncodeRune, in_range. destruct (N.ltb_spec 0x10FFFF b0), (N.leb_spec 0xD800 b0); try lia. cbn [orb andb].
      by destruct (N.ltb_spec b0 0x80); [|lia].
    - intros q. cbn [DecodeRune]. by destruct (N.ltb_spec b0 0x80); [|lia]. }
  destruct (utf8_first b0) as [[[size lo] hi]|] eqn:Ef; [|intros [= <- <-]; by left].
  destruct size as [|[|[|[|[|size]]]]]; try (intros [= <- <-]; by left).
  - destruct p as [|b1 p]; [intros [= <- <-]; by left|]. destruct (in_range lo hi b1) eqn:E1; intros [= <- <-]; [right|by left].
    cbn [take app length]. split; [lia|]. split.
    + apply encode2; [|apply in_range_spec in E1; revert Ef; unfold utf8_first].
      * revert Ef. unfold utf8_first. destruct (in_range 0xC2 0xDF b0) eqn:E; [by apply in_range_spec in E|].
        by repeat (destruct (_ =? _); [done|] || (destruct (in_range _ _ b0); [done|])).
      * destruct (in_range 0xC2 0xDF b0); [by intros [= <- <-]|].
        by repeat (destruct (_ =? _); [done|] || (destruct (in_range _ _ b0); [done|])).
    + intros q. cbn [DecodeRune]. destruct (N.ltb_spec b0 0x80); [lia|]. by rewrite Ef, E1.
  - destruct p as [|b1 [|b2 p]]; try (intros [= <- <-]; by left).
    destruct (in_range lo hi b1 && is_cont b2) eqn:E1; intros [= <- <-]; [right|by left]. pose proof E1 as [E2 E3]%andb_prop.
    cbn [take app length]. split; [lia|]. split; [symmetry; by rewrite (encode3 b0 b1 b2 lo hi)|].
    intros q. cbn [DecodeRune]. destruct (N.ltb_spec b0 0x80); [lia|]. by rewrite Ef, E1.
  - destruct p as [|b1 [|b2 [|b3 p]]]; try (intros [= <- <-]; by left).
    destruct (in_range lo hi b1 && is_cont b2 && is_cont b3) eqn:E1; intros [= <- <-]; [right|by left].
    pose proof E1 as [[E2 E3]%andb_prop E4]%andb_prop.
    cbn [take app length]. split; [lia|]. split; [symmetry; by rewrite (encode4 b0 b1 b2 b3 lo hi)|].
    intros q. cbn [DecodeRune]. destruct (N.ltb_spec b0 0x80); [lia|]. by rewrite Ef, E1.
Qed.

(** ** Base64 *)

Lemma b64_value_char v : v < 64 → b64_value (b64_char v) = Some v.
Proof.
  intros Hv. assert (Forall (λ v, b64_value (b64_char v) = Some v) (N.of_nat <$> seq 0 64)) as H
    by (apply (bool_decide_unpack _); by vm_compute).
  rewrite Forall_forall in H. apply H, list_elem_of_fmap. exists (N.to_nat v). rewrite N2Nat.id. split; [done|]. apply elem_of_seq. lia.
Qed.

(** The characters of an encoding: letters, digits, [+] and [/]. *)
Definition is_b64 (c : N) : bool :=
  in_range 0x41 0x5A c || in_range 0x61 0x7A c || in_range 0x30 0x39 c || (c =? 0x2B) || (c =? 0x2F).

Lemma b64_char_is v : v < 64 → is_b64 (b64_char v) = true.
Proof.
  intros Hv. assert (Forall (λ v, is_b64 (b64_char v) = true) (N.of_nat <$> seq 0 64)) as H
    by (apply (bool_decide_unpack _); by vm_compute).
  rewrite Forall_forall in H. apply H, list_elem_of_fmap. exists (N.to_nat v). rewrite N2Nat.id. split; [done|]. apply elem_of_seq. lia.
Qed.

(** Three bytes at a time. *)
Lemma list3_ind {A} (P : list A → Prop) :
  P [] → (∀ a, P [a]) → (∀ a b, P [a; b]) → (∀ a b c l, P l → P (a :: b :: c :: l)) → ∀ l, P l.
Proof.
  intros H0 H1 H2 H3 l. remember (length l) as n eqn:Hn. revert l Hn. induction n as [n IH] using lt_wf_ind. intros l ->.
  destruct l as [|a [|b [|c l]]]; [done..|]. apply H3, (IH (length l)); [cbn; lia|done].
Qed.

Section base64.
Context (a b c : N) (Ha : a < 256) (Hb : b < 256) (Hc : c < 256).

Lemma b64_sextets :
  N.shiftr a 2 = a / 4 ∧ N.shiftl (N.land a 3) 4 = a `mod` 4 * 16 ∧
  N.lor (N.shiftl (N.land a 3) 4) (N.shiftr b 4) = a `mod` 4 * 16 + b / 16 ∧
  N.shiftl (N.land b 15) 2 = b `mod` 16 * 4 ∧
  N.lor (N.shiftl (N.land b 15) 2) (N.shiftr c 6) = b `mod` 16 * 4 + c / 64 ∧ N.land c 63 = c `mod` 64.
Proof.
  change 3 with (N.ones 2). change 15 with (N.ones 4). change 63 with (N.ones 6). rewrite !land_mask, !N.shiftr_div_pow2.
  change (2 ^ 2) with 4. change (2 ^ 4) with 16. change (2 ^ 6) with 64.
  rewrite !lor_shift by (change (2 ^ 4) with 16; change (2 ^ 2) with 4; lia). rewrite !N.shiftl_mul_pow2. by split_and!.
Qed.
End base64.

Lemma b64_octets v0 v1 v2 v3 :
  v0 < 64 → v1 < 64 → v2 < 64 → v3 < 64 →
  N.lor (N.shiftl v0 2) (N.shiftr v1 4) = v0 * 4 + v1 / 16 ∧
  N.lor (N.shiftl (N.land v1 15) 4) (N.shiftr v2 2) = v1 `mod` 16 * 16 + v2 / 4 ∧
  N.lor (N.shiftl (N.land v2 3) 6) v3 = v2 `mod` 4 * 64 + v3.
Proof.
  intros H0 H1 H2 H3. change 15 with (N.ones 4). change 3 with (N.ones 2). rewrite !land_mask, !N.shiftr_div_pow2.
  change (2 ^ 2) with 4. change (2 ^ 4) with 16.
  rewrite !lor_shift by (change (2 ^ 4) with 16; change (2 ^ 2) with 4; change (2 ^ 6) with 64; lia). by split_and!.
Qed.

Lemma b64_decode4 c0 c1 c2 c3 p :
  b64_decode (c0 :: c1 :: c2 :: c3 :: p) =
    (v0 ← b64_value c0; v1 ← b64_value c1; v2 ← b64_value c2; v3 ← b64_value c3;
     rest ← b64_decode p;
     Some (N.lor (N.shiftl v0 2) (N.shiftr v1 4) :: N.lor (N.shiftl (N.land v1 15) 4) (N.shiftr v2 2)
           :: N.lor (N.shiftl (N.land v2 3) 6) v3 :: rest)).
Proof. by destruct p. Qed.

Lemma b64_roundtrip p : Forall (λ b, b < 256) p → b64_decode (b64_encode [] p) = Some p.
Proof.
  induction p as [|a|a b|a b c p IH] using list3_ind; intros H.
  - done.
  - apply Forall_cons in H as [Ha _]. cbn [b64_encode app b64_decode].
    destruct (b64_sextets a 0 0 ltac:(lia) ltac:(lia) ltac:(lia)) as (-> & -> & _). rewrite !b64_value_char by lia. cbn [mbind option_bind].
    destruct (b64_octets (a / 4) (a `mod` 4 * 16) 0 0 ltac:(lia) ltac:(lia) ltac:(lia) ltac:(lia)) as (-> & _). do 2 f_equal. lia.
  - apply Forall_cons in H as [Ha [Hb _]%Forall_cons]. cbn [b64_encode app b64_decode].
    destruct (b64_sextets a b 0 ltac:(lia) ltac:(lia) ltac:(lia)) as (-> & _ & -> & -> & _). rewrite !b64_value_char by lia. cbn [mbind option_bind].
    destruct (b64_octets (a / 4) (a `mod` 4 * 16 + b / 16) (b `mod` 16 * 4) 0 ltac:(lia) ltac:(lia) ltac:(lia) ltac:(lia)) as (-> & -> & _).
    f_equal. f_equal; [lia|]. f_equal. lia.
  - apply Forall_cons in H as [Ha [Hb [Hc Hp]%Forall_cons]%Forall_cons]. cbn [b64_encode].
    destruct (b64_sextets a b c ltac:(lia) ltac:(lia) ltac:(lia)) as (-> & _ & -> & _ & -> & ->).
    rewrite b64_decode4, !b64_value_char by lia. cbn [mbind option_bind]. rewrite (IH Hp). cbn [mbind option_bind].
    destruct (b64_octets (a / 4) (a `mod` 4 * 16 + b / 16) (b `mod` 16 * 4 + c / 64) (c `mod` 64)
      ltac:(lia) ltac:(lia) ltac:(lia) ltac:(lia)) as (-> & -> & ->).
    f_equal. f_equal; [lia|]. f_equal; [lia|]. f_equal. lia.
Qed.

Lemma b64_chars p : Forall (λ b, b < 256) p → Forall (λ c, is_b64 c = true) (b64_encode [] p).
Proof.
  induction p as [|a|a b|a b c p IH] using list3_ind; intros H; [constructor|..].
  - apply Forall_cons in H as [Ha _]. cbn [b64_encode app]. destruct (b64_sextets a 0 0 ltac:(lia) ltac:(lia) ltac:(lia)) as (-> & -> & _).
    repeat constructor; apply b64_char_is; lia.
  - apply Forall_cons in H as [Ha [Hb _]%Forall_cons]. cbn [b64_encode app].
    destruct (b64_sextets a b 0 ltac:(lia) ltac:(lia) ltac:(lia)) as (-> & _ & -> & -> & _). repeat constructor; apply b64_char_is; lia.
  - apply Forall_cons in H as [Ha [Hb [Hc Hp]%Forall_cons]%Forall_cons]. cbn [b64_encode].
    destruct (b64_sextets a b c ltac:(lia) ltac:(lia) ltac:(lia)) as (-> & _ & -> & _ & -> & ->).
    repeat (apply Forall_cons_2; [apply b64_char_is; lia|]). by apply IH.
Qed.

(** The padded form is the other with at most two padding characters behind it. *)
Lemma b64_padded pad p :
  ∃ n, b64_encode [pad] p = b64_encode [] p ++ replicate n pad ∧ (length (b64_encode [pad] p) = 4 * ((length p + 2) / 3))%nat.
Proof.
  induction p as [|a|a b|a b c p (n & IH & IHl)] using list3_ind.
  - by exists 0%nat.
  - exists 2%nat. by split.
  - exists 1%nat. by split.
  - exists n. cbn [b64_encode length]. rewrite IH. split; [done|]. rewrite <-IH, IHl.
    replace (S (S (S (length p))) + 2)%nat with ((length p + 2) + 1 * 3)%nat by lia. rewrite Nat.div_add by done. lia.
Qed.

Lemma b64_value_lt c v : b64_value c = Some v → v < 64.
Proof.
  unfold b64_value, in_range. destruct (N.leb_spec 0x41 c), (N.leb_spec c 0x5A); cbn [andb]; try (intros [= <-]; lia);
  destruct (N.leb_spec 0x61 c), (N.leb_spec c 0x7A); cbn [andb]; try (intros [= <-]; lia);
  destruct (N.leb_spec 0x30 c), (N.leb_spec c 0x39); cbn [andb]; try (intros [= <-]; lia);
  destruct (c =? 0x2B); try (intros [= <-]; lia); destruct (c =? 0x2F); try done; intros [= <-]; lia.
Qed.

Lemma list4_ind {A} (P : list A → Prop) :
  P [] → (∀ a, P [a]) → (∀ a b, P [a; b]) → (∀ a b c, P [a; b; c]) → (∀ a b c d l, P l → P (a :: b :: c :: d :: l)) → ∀ l, P l.
Proof.
  intros H0 H1 H2 H3 H4 l. remember (length l) as n eqn:Hn. revert l Hn. induction n as [n IH] using lt_wf_ind. intros l ->.
  destruct l as [|a [|b [|c [|d l]]]]; [done..|]. apply H4, (IH (length l)); [cbn; lia|done].
Qed.

Lemma b64_decode_bytes p q : b64_decode p = Some q → Forall (λ b, b < 256) q.
Proof.
  revert q. induction p as [|c0|c0 c1|c0 c1 c2|c0 c1 c2 c3 p IH] using list4_ind; intros q.
  - intros [= <-]. constructor.
  - done.
  - intros (v0 & H0%b64_value_lt & (v1 & H1%b64_value_lt & [= <-])%bind_Some)%bind_Some.
    destruct (b64_octets v0 v1 0 0 H0 H1 ltac:(lia) ltac:(lia)) as (-> & _). repeat constructor. lia.
  - intros (v0 & H0%b64_value_lt & (v1 & H1%b64_value_lt & (v2 & H2%b64_value_lt & [= <-])%bind_Some)%bind_Some)%bind_Some.
    destruct (b64_octets v0 v1 v2 0 H0 H1 H2 ltac:(lia)) as (-> & -> & _). repeat constructor; lia.
  - rewrite b64_decode4. intros (v0 & H0%b64_value_lt & (v1 & H1%b64_value_lt & (v2 & H2%b64_value_lt & (v3 & H3%b64_value_lt
      & (rest & Hr & [= <-])%bind_Some)%bind_Some)%bind_Some)%bind_Some)%bind_Some.
    destruct (b64_octets v0 v1 v2 v3 H0 H1 H2 H3) as (-> & -> & ->). repeat (apply Forall_cons_2; [lia|]). by apply IH.
Qed.

(** ** Splitting and trimming *)

Lemma split_on_app sep p q : sep ∉ p → split_on sep (p ++ sep :: q) = p :: split_on sep q.
Proof.
  induction p as [|b p IH]; intros Hn; cbn [app split_on]; [by rewrite N.eqb_refl|].
  destruct (N.eqb_spec b sep) as [->|_]; [set_solver|]. by rewrite IH by set_solver.
Qed.

Lemma split_on_none sep p : sep ∉ p → split_on sep p = [p].
Proof.
  induction p as [|b p IH]; intros Hn; cbn [split_on]; [done|]. destruct (N.eqb_spec b sep) as [->|_]; [set_solver|].
  by rewrite IH by set_solver.
Qed.

Lemma split_on_cons sep p : split_on sep p ≠ [].
Proof. destruct p as [|b p]; cbn [split_on]; [done|]. destruct (b =? sep); [done|]. by destruct (split_on sep p). Qed.

Lemma split_on_cat sep p q : split_on sep (p ++ sep :: q) = split_on sep p ++ split_on sep q.
Proof.
  induction p as [|b p IH]; cbn [app split_on]; [by rewrite N.eqb_refl|]. destruct (b =? sep); [by rewrite IH|].
  rewrite IH. pose proof (split_on_cons sep p). by destruct (split_on sep p).
Qed.

Lemma cut_byte_app sep p q : sep ∉ p → cut_byte sep (p ++ sep :: q) = Some (p, q).
Proof.
  induction p as [|b p IH]; intros Hn; cbn [app cut_byte]; [by rewrite N.eqb_refl|].
  destruct (N.eqb_spec b sep) as [->|_]; [set_solver|]. by rewrite IH by set_solver.
Qed.

Lemma trim_right_prefix fuel p : trim_right fuel p `prefix_of` p.
Proof.
  revert p. induction fuel as [|fuel IH]; intros p; [by destruct p|]. destruct p as [|b p]; [done|]. cbn [trim_right].
  destruct (DecodeLastRune (b :: p)) as [r n]. destruct (IsSpace r); [|done].
  etrans; [apply IH|]. apply prefix_take.
Qed.

(** A byte that is ASCII and no space. *)
Definition solid (b : N) : bool := (b <? 0x80) && negb (IsSpace b).

Lemma trim_left_solid fuel b p : solid b = true → trim_left fuel (b :: p) = b :: p.
Proof.
  intros [Hb Hs]%andb_prop. destruct fuel; [done|]. cbn [trim_left DecodeRune]. rewrite Hb. by destruct (IsSpace b).
Qed.

Lemma TrimSpace_solid p : Forall (λ b, solid b = true) p → TrimSpace p = p.
Proof.
  intros H. unfold TrimSpace. assert (trim_left (length p) p = p) as ->.
  { destruct H as [|b p Hb H]; [done|]. by apply trim_left_solid. }
  destruct p as [|b0 p0] using rev_ind; [done|]. clear IHp0. apply Forall_app in H as [_ [Hb _]%Forall_cons].
  apply andb_prop in Hb as [Hb Hs]. destruct (length (p0 ++ [b0])) as [|k]; [by destruct (p0 ++ [b0])|].
  destruct (p0 ++ [b0]) as [|x l] eqn:E; [by destruct p0|]. cbn [trim_right]. unfold DecodeLastRune. rewrite <-E, last_snoc, Hb.
  by destruct (IsSpace b0).
Qed.
