(* ===== verification/Mux.v ===== *)
(** * The session multiplexer: [server/session_mux.go]

    A mux owns the runner's stream of a session: it records every frame, forwards
    it to the attached control client and to the observers, and forwards their
    input.  Its goroutines meet at [m.mu]; here each stretch of code between two
    acquisitions of the lock is one [event], so that a list of events is one
    interleaving.  The pump's place in its loop is the field [mx_pump].

    A stream is what was written to it and whether it still takes writes; an
    observer's queue and stream carry [entry]s, whose constructor says where the
    bytes come from (the program has the bytes only).  The terminal grid
    ([vtgrid.Terminal]) is the interface [Grid]. *)

From stdpp Require Import prelude gmap list sorting.
From Stdlib Require Import NArith ZArith.
From coqutil Require Import Datatypes.RecordSetters.
From S2P Require Import Prelude Wire Frames VtScan TermMode.

Import DoubleBraceUpdate.
Open Scope N_scope.
Open Scope stdpp_scope.
Set Default Goal Selector "!".

(** ** Interfaces *)

(** The operations of [vtgrid.Terminal] the mux uses. *)
Class Grid := {
  grid : Type;
  grid_New : N → N → grid;
  grid_Write : list N → grid → grid;
  TakeProgramStatusQueries : grid → nat * grid;
  grid_Resize : N → N → grid → grid;
  Repaint : grid → list N;
  Cursor : grid → N * N;
  grid_Size : grid → N * N;
}.

(** [exec/frame]'s control frames: the size a complete frame decodes to, and the
    encoding of one. *)
Class ControlCodec := {
  ReadWindowSize : list N → option (N * N);
  AppendWindowSize : N → N → list N;
}.

(** ** Data *)

Record stream := mkStream { s_out : list (list N); s_up : bool }.

(** Where the bytes sent to an observer come from. *)
Inductive entry := Replay (b : list N) | Live (b : list N) | Size (b : list N).
Definition entry_bytes (e : entry) : list N := match e with Replay b | Live b | Size b => b end.

Record viewerConn := mkViewer {
  v_out : list entry;
  v_up : bool;
  v_ch : list entry;
  v_acc : list N;
  v_cowriter : bool;
  v_allowResize : bool;
}.

Definition viewerQueueDepth : nat := 256.

Inductive hook := OnAttach | OnDetach | OnObservers | OnStop.

(** Where [runnerPump] is: reading; a frame recorded; the control stream picked;
    the frame sent to it. *)
Inductive pump := PumpRead | PumpRecorded (fb : list N) | PumpPicked (fb : list N) (tui : option N)
  | PumpSent (fb : list N).

Section mux.
Context `{!FrameCodec, !ControlCodec, !Grid}.

(** [mx_frames] is every frame recorded so far, [mx_tuis] the control streams by
    identity with the bytes each has not yet parsed, [mx_next] the next observer's
    identity. *)
Record SessionMux := mkMux {
  mx_stopped : bool;
  mx_terminal : bool;
  mx_runner : stream;
  mx_ring : RingBuffer;
  mx_modes : Tracker;
  mx_screen : grid;
  mx_lastOutput : Z;
  mx_mainMark : Z;
  mx_altTransitions : list (Z * bool);
  mx_altBeforeOldest : bool;
  mx_tui : option N;
  mx_tuis : gmap N (stream * list N);
  mx_viewers : gmap N viewerConn;
  mx_next : N;
  mx_lastWinSize : list N;
  mx_hooks : list hook;
  mx_pump : pump;
  mx_frames : list (list N);
}.

Implicit Types (m : SessionMux) (fb : list N).

Definition NewSessionMux (pty : bool) (ring : RingBuffer) : SessionMux :=
  mkMux false pty (mkStream [] true) ring New (grid_New 80 24) 0 0 [] false None ∅ ∅ 0 [] [] PumpRead [].

(** ** Streams *)

(** [AppendData]: [None] is the write error. *)
Definition AppendData (b : list N) (s : stream) : option stream :=
  if s_up s then Some (mkStream (s_out s ++ [b]) true) else None.
Definition CloseBoth (s : stream) : stream := mkStream (s_out s) false.

Definition close_tui (id : N) m : SessionMux :=
  m{{ mx_tuis := alter (λ sa, (CloseBoth sa.1, sa.2)) id (mx_tuis m) }}.
Definition fire (h : hook) m : SessionMux := m{{ mx_hooks := mx_hooks m ++ [h] }}.

(** Writes one frame to the runner; false is the write error. *)
Definition writeFrameToRunner fb m : SessionMux * bool :=
  match AppendData fb (mx_runner m) with
  | Some s => (m{{ mx_runner := s }}, true)
  | None => (m, false)
  end.

(** ** Recording a frame *)

Definition ProgramStatusQueryReply : list N :=
  [0x1b; 0x5d; 55; 53; 48; 49; 59; 63; 58; 115; 116; 97; 116; 101; 115; 61; 105; 100; 108; 101; 44; 119; 111;
   114; 107; 105; 110; 103; 44; 100; 111; 110; 101; 44; 98; 108; 111; 99; 107; 101; 100; 44; 101; 114; 114;
   111; 114; 58; 107; 105; 110; 100; 115; 61; 112; 101; 114; 109; 105; 115; 115; 105; 111; 110; 44; 113; 117;
   101; 115; 116; 105; 111; 110; 44; 97; 117; 116; 104; 0x1b; 0x5c].

Fixpoint answerProgramStatusProbes (n : nat) m : SessionMux :=
  match n with
  | O => m
  | S n' =>
      let '(m', ok) := writeFrameToRunner (encodeFrame FrameType_Stdin ProgramStatusQueryReply) m in
      if ok then answerProgramStatusProbes n' m' else m'
  end.

Definition record_output (payload : list N) (now : Z) m : SessionMux :=
  let m :=
    if mx_terminal m then
      let '(probes, scr) := TakeProgramStatusQueries (grid_Write payload (mx_screen m)) in
      answerProgramStatusProbes probes (m{{ mx_modes := Feed (mx_modes m) payload; mx_screen := scr }})
    else m in
  m{{ mx_lastOutput := now }}.

Definition record_switch (wasAlt : bool) m : SessionMux :=
  let nowAlt := OnAltScreen (mx_modes m) in
  if eqb nowAlt wasAlt then m
  else
    let idx := (Z.of_nat (AppendCount (mx_ring m)) - 1)%Z in
    let m := if wasAlt && negb nowAlt then m{{ mx_mainMark := idx }} else m in
    m{{ mx_altTransitions := mx_altTransitions m ++ [(idx, nowAlt)] }}.

Definition recordFrame (now : Z) fb m : SessionMux :=
  let wasAlt := OnAltScreen (mx_modes m) in
  let m :=
    if (FrameHeaderSize <=? length fb)%nat && is_output fb
    then record_output (drop FrameHeaderSize fb) now m else m in
  let m := m{{ mx_ring := RingBuffer_Append fb (mx_ring m); mx_frames := mx_frames m ++ [fb] }} in
  record_switch wasAlt m.

Definition loadScreen (b : list N) m : SessionMux :=
  if (length b =? 0)%nat || negb (mx_terminal m) then m
  else m{{ mx_modes := Feed (mx_modes m) b;
           mx_screen := (TakeProgramStatusQueries (grid_Write b (mx_screen m))).2 }}.

(** ** Observers *)

(** [dropViewerLocked] *)
Definition dropViewer (id : N) m : SessionMux :=
  match mx_viewers m !! id with
  | None => m
  | Some _ => fire OnObservers (m{{ mx_viewers := delete id (mx_viewers m) }})
  end.

(** A non-blocking send to one observer; [None] when its queue is full. *)
Definition enqueue (e : entry) (v : viewerConn) : option viewerConn :=
  if (length (v_ch v) <? viewerQueueDepth)%nat then Some (v{{ v_ch := v_ch v ++ [e] }}) else None.

(** [fanoutToViewersLocked], and the fan-out of [runnerPump]: every observer with
    room gets the entry, the others are dropped. *)
Definition fanoutToViewersLocked (e : entry) m : SessionMux :=
  let full := filter (λ kv : N * viewerConn, enqueue e kv.2 = None) (map_to_list (mx_viewers m)) in
  m{{ mx_viewers := omap (enqueue e) (mx_viewers m);
      mx_hooks := mx_hooks m ++ replicate (length full) OnObservers }}.

(** ** Window sizes *)

Definition winSizeOf fb : option (N * N) :=
  if (length fb <? FrameHeaderSize)%nat || negb (hd 0 fb =? FrameType_Control) then None
  else ReadWindowSize fb.
Definition frameIsWinSize fb : bool := bool_decide (is_Some (winSizeOf fb)).

Definition winSizeFrame (rows cols : N) : list N :=
  encodeFrame FrameType_Control (AppendWindowSize rows cols).

Definition applyWinSizeFrame fb m : SessionMux * bool :=
  let m := fanoutToViewersLocked (Size fb) (m{{ mx_lastWinSize := fb }}) in
  let m :=
    match winSizeOf fb with
    | Some (cols, rows) =>
        if (0 <? cols) && (0 <? rows) then m{{ mx_screen := grid_Resize cols rows (mx_screen m) }} else m
    | None => m
    end in
  writeFrameToRunner fb m.

Definition applyObserverWinSize fb m : SessionMux * bool :=
  match mx_tui m with Some _ => (m, true) | None => applyWinSizeFrame fb m end.

(** ** Input *)

(** The loop of [forwardControlFrames] and of [forwardObserverFrames]: [handle]
    is what one complete frame does; [None] is the failed write. *)
Fixpoint forward_frames (handle : list N → SessionMux → SessionMux * bool) (fuel : nat) (acc : list N) m
  : SessionMux * option (list N) :=
  match fuel with
  | O => (m, Some acc)
  | S fuel' =>
      match readOneFrame acc with
      | None => (m, Some acc)
      | Some (fb, rest) =>
          let '(m', ok) := handle fb m in
          if ok then forward_frames handle fuel' rest m' else (m', None)
      end
  end.

Definition control_frame fb m : SessionMux * bool :=
  if frameIsWinSize fb then applyWinSizeFrame fb m else writeFrameToRunner fb m.
Definition forwardControlFrames (acc : list N) m : SessionMux * option (list N) :=
  forward_frames control_frame (length acc) acc m.

Definition observer_frame (cowriter allowResize : bool) fb m : SessionMux * bool :=
  if frameIsWinSize fb then if allowResize then applyObserverWinSize fb m else (m, true)
  else if cowriter then writeFrameToRunner fb m
  else (m, true).
Definition forwardObserverFrames (cowriter allowResize : bool) (acc : list N) m
  : SessionMux * option (list N) :=
  forward_frames (observer_frame cowriter allowResize) (length acc) acc m.

(** ** Detaching and stopping *)

(** [detachLocked]; [detachOnly] is the same under the lock. *)
Definition detachLocked (id : N) m : SessionMux :=
  if decide (mx_tui m = Some id) then fire OnDetach (close_tui id (m{{ mx_tui := None }})) else m.

Definition Stop m : SessionMux :=
  if mx_stopped m then m
  else
    let m' := match mx_tui m with Some id => close_tui id m | None => m end in
    fire OnStop (m'{{ mx_stopped := true; mx_tui := None; mx_viewers := ∅; mx_runner := CloseBoth (mx_runner m) }}).

Definition IsAttached m : bool := bool_decide (is_Some (mx_tui m)).

Definition ObserverCounts m : nat * nat :=
  let vs := (map_to_list (mx_viewers m)).*2 in
  (length (filter (λ v, v_cowriter v = false) vs), length (filter (λ v, v_cowriter v = true) vs)).
Definition ViewerCount m : nat := (ObserverCounts m).1.

(** ** What a client is sent first *)

(** The loop of [altAtOldestSurviving]. *)
Fixpoint prune (oldest : Z) (before : bool) (ts : list (Z * bool)) : bool * list (Z * bool) :=
  match ts with
  | (i, entered) :: ts' => if (i <? oldest)%Z then prune oldest entered ts' else (before, ts)
  | [] => (before, [])
  end.

Definition altAtOldestSurviving m : bool * SessionMux :=
  let '(before, ts) := prune (OldestIndex (mx_ring m)) (mx_altBeforeOldest m) (mx_altTransitions m) in
  (before, m{{ mx_altBeforeOldest := before; mx_altTransitions := ts }}).

Definition replayRing m : list N * SessionMux :=
  if OnAltScreen (mx_modes m) then (Snapshot (mx_ring m), m)
  else
    let '(alt, m') := altAtOldestSurviving m in
    (if alt then SnapshotFrom (mx_mainMark m) (mx_ring m) else Snapshot (mx_ring m), m').

Definition replaySnapshot m : list N * SessionMux :=
  let '(b, m') := replayRing m in (stripReplyQueriesFrames b, m').

Definition screenRepaint m : list N := if mx_terminal m then Repaint (mx_screen m) else [].
Definition screenSize m : N * N := grid_Size (mx_screen m).

(** A synthesised frame, unless it would be empty. *)
Definition synth (b : list N) : list N := match b with [] => [] | _ => encodeSynthFrame b end.

Definition tui_replay m : list N * SessionMux :=
  let '(ring, m') := replaySnapshot m in
  (synth (Preamble (mx_modes m)) ++ ring ++ synth (screenRepaint m), m').

Definition observer_replay (limit : N) m : list N * SessionMux :=
  let '(ring, m') := replaySnapshot m in
  (mx_lastWinSize m ++ synth (Preamble (mx_modes m)) ++ capReplayTail ring limit ++ synth (screenRepaint m), m').

(** ** Attaching *)

(** [Attach] up to the release of the lock, and the takeover; false is the error
    of a stopped mux. *)
Definition Attach_take (id : N) m : SessionMux * bool :=
  if mx_stopped m then (m, false)
  else
    let m' := m{{ mx_tui := Some id; mx_tuis := <[id := (mkStream [] true, [])]> (mx_tuis m) }} in
    (match mx_tui m with Some old => close_tui old m' | None => m' end, true).

(** The rest of [Attach]; false is the write error. *)
Definition Attach_replay (id : N) m : SessionMux * bool :=
  let '(replay, m) := tui_replay m in
  match replay, mx_tuis m !! id with
  | [], _ => (fire OnAttach m, true)
  | _, Some (s, acc) =>
      match AppendData replay s with
      | Some s' => (fire OnAttach (m{{ mx_tuis := <[id := (s', acc)]> (mx_tuis m) }}), true)
      | None => (if decide (mx_tui m = Some id) then m{{ mx_tui := None }} else m, false)
      end
  | _, None => (m, false)
  end.

Definition attachObserver (forwardInput : bool) (replayLimit : N) (allowResize : bool) m : SessionMux * bool :=
  if mx_stopped m then (m, false)
  else
    let '(replay, m) := observer_replay replayLimit m in
    let v := mkViewer [] true (match replay with [] => [] | _ => [Replay replay] end) [] forwardInput allowResize in
    (fire OnObservers (m{{ mx_viewers := <[mx_next m := v]> (mx_viewers m); mx_next := mx_next m + 1 }}), true).
Definition AttachViewer := attachObserver false.
Definition AttachCoWriter := attachObserver true.

(** ** The pumps *)

(** [runnerPump]: pick the control stream, send to it, fan out. *)
Definition pump_pick m : SessionMux :=
  match mx_pump m with PumpRecorded fb => m{{ mx_pump := PumpPicked fb (mx_tui m) }} | _ => m end.

Definition pump_send m : SessionMux :=
  match mx_pump m with
  | PumpPicked fb tui =>
      let m := m{{ mx_pump := PumpSent fb }} in
      match tui with
      | None => m
      | Some id =>
          match mx_tuis m !! id with
          | None => m
          | Some (s, acc) =>
              match AppendData fb s with
              | Some s' => m{{ mx_tuis := <[id := (s', acc)]> (mx_tuis m) }}
              | None => detachLocked id m
              end
          end
      end
  | _ => m
  end.

Definition pump_fan m : SessionMux :=
  match mx_pump m with
  | PumpSent fb => fanoutToViewersLocked (Live fb) (m{{ mx_pump := PumpRead }})
  | _ => m
  end.

(** One read of [runnerPump]; [None] is the end of the runner's stream. *)
Definition pump_read (now : Z) (next : option (list N)) m : SessionMux :=
  match mx_pump m with
  | PumpRead =>
      if mx_stopped m then m
      else match next with
           | Some fb => (recordFrame now fb m){{ mx_pump := PumpRecorded fb }}
           | None => Stop m
           end
  | _ => m
  end.

Definition viewerOutputPump (id : N) m : SessionMux :=
  match mx_viewers m !! id with
  | Some v =>
      match v_ch v with
      | [] => m
      | e :: rest =>
          if v_up v then m{{ mx_viewers := <[id := v{{ v_out := v_out v ++ [e]; v_ch := rest }}]> (mx_viewers m) }}
          else dropViewer id m
      end
  | None => m
  end.

(** One read of [tuiPump]. *)
Definition tuiPump (id : N) (data : list N) (eof : bool) m : SessionMux :=
  match mx_tuis m !! id with
  | None => m
  | Some (_, acc) =>
      let '(m, carry) := match data with [] => (m, Some acc) | _ => forwardControlFrames (acc ++ data) m end in
      match carry with
      | None => Stop m
      | Some acc =>
          let m := m{{ mx_tuis := alter (λ sa, (sa.1, acc)) id (mx_tuis m) }} in
          if eof then detachLocked id m else m
      end
  end.

(** One read of [observerInputPump]. *)
Definition observerInputPump (id : N) (data : list N) (eof : bool) m : SessionMux :=
  match mx_viewers m !! id with
  | None => m
  | Some v =>
      let '(m, carry) :=
        match data with
        | [] => (m, Some (v_acc v))
        | _ => forwardObserverFrames (v_cowriter v) (v_allowResize v) (v_acc v ++ data) m
        end in
      match carry with
      | None => Stop m
      | Some acc =>
          let m := m{{ mx_viewers := alter (λ v, v{{ v_acc := acc }}) id (mx_viewers m) }} in
          if eof then dropViewer id m else m
      end
  end.

(** ** Interleavings *)

Inductive event :=
  | EvRunner (now : Z) (next : option (list N)) | EvPick | EvSend | EvFan
  | EvAttach (id : N) | EvAttachReplay (id : N)
  | EvObserve (forwardInput : bool) (replayLimit : N) (allowResize : bool)
  | EvViewerPump (id : N)
  | EvTuiRead (id : N) (data : list N) (eof : bool)
  | EvViewerRead (id : N) (data : list N) (eof : bool)
  | EvTuiDown (id : N) | EvViewerDown (id : N) | EvRunnerDown
  | EvDrop (id : N) | EvStop.

Definition step m (e : event) : SessionMux :=
  match e with
  | EvRunner now next => pump_read now next m
  | EvPick => pump_pick m
  | EvSend => pump_send m
  | EvFan => pump_fan m
  | EvAttach id => if decide (is_Some (mx_tuis m !! id)) then m else (Attach_take id m).1
  | EvAttachReplay id => (Attach_replay id m).1
  | EvObserve fwd limit resize => (attachObserver fwd limit resize m).1
  | EvViewerPump id => viewerOutputPump id m
  | EvTuiRead id data eof => tuiPump id data eof m
  | EvViewerRead id data eof => observerInputPump id data eof m
  | EvTuiDown id => close_tui id m
  | EvViewerDown id => m{{ mx_viewers := alter (λ v, v{{ v_up := false }}) id (mx_viewers m) }}
  | EvRunnerDown => m{{ mx_runner := CloseBoth (mx_runner m) }}
  | EvDrop id => dropViewer id m
  | EvStop => Stop m
  end.
Definition run m (evs : list event) : SessionMux := foldl step m evs.

(** ** Across a restart *)

(** The loop of [loadHeldCapture]: the size applied, the screen loaded. *)
Fixpoint load_frames (fuel : nat) (b : list N) (gotSize gotScreen : bool) m : SessionMux * (bool * bool * bool) :=
  match fuel with
  | O => (m, (gotSize, gotScreen, true))
  | S fuel' =>
      match readOneFrame b with
      | None => (m, (gotSize, gotScreen, true))
      | Some (fb, rest) =>
          if frameIsWinSize fb then
            let '(m', ok) := applyWinSizeFrame fb m in
            if ok then load_frames fuel' rest true gotScreen m' else (m', (gotSize, gotScreen, false))
          else if (FrameHeaderSize <? length fb)%nat && (hd 0 fb =? FrameType_Synth) then
            load_frames fuel' rest gotSize true (loadScreen (drop FrameHeaderSize fb) m)
          else load_frames fuel' rest gotSize gotScreen m
      end
  end.
Definition loadHeldCapture (b : list N) m := load_frames (length b) b false false m.

Definition heldCapture m : list N :=
  let out := mx_lastWinSize m in
  if negb (mx_terminal m) then out
  else
    let rp := Repaint (mx_screen m) in
    let '(x, y) := Cursor (mx_screen m) in
    match rp with
    | [] => out
    | _ =>
        let screen := rp ++ Modes (mx_modes m) ++ [0x1b; 0x5b] ++ Itoa (y + 1) ++ [0x3b] ++ Itoa (x + 1) ++ [0x48] in
        out ++ encodeSynthFrame screen
    end.

(** ** Watchers *)

(** One tick of [activityWatcher]: the new edge state, and the call it makes. *)
Definition activity_tick (threshold now : Z) (busy : bool) m : bool * option (bool * Z) :=
  let lo := mx_lastOutput m in
  let nowBusy := negb (lo =? 0)%Z && (now - lo <? threshold)%Z in
  if eqb nowBusy busy then (busy, None) else (nowBusy, Some (nowBusy, lo)).

(** One poll of [ArmIdleWatcher]: [Some] is the call that ends it. *)
Definition idle_poll (threshold now : Z) m : option (bool * Z) :=
  let lo := mx_lastOutput m in
  if mx_stopped m then Some (true, lo)
  else if negb (lo =? 0)%Z && (threshold <=? now - lo)%Z then Some (false, lo)
  else None.
End mux.

(** ** What a step leaves alone *)

Section quiet.
Context `{!FrameCodec, !ControlCodec, !Grid}.
Implicit Types (m : SessionMux) (v : viewerConn) (fb : list N).

(** Everything an observer was ever sent. *)
Definition v_log v : list entry := v_out v ++ v_ch v.
Definition lives (es : list entry) : list (list N) :=
  omap (λ e, match e with Live b => Some b | _ => None end) es.

(** The frame the pump is working on. *)
Definition pump_frame m : option (list N) :=
  match mx_pump m with PumpRead => None | PumpRecorded fb | PumpPicked fb _ | PumpSent fb => Some fb end.

(** The history of the runner's output. *)
Definition history m : bool * RingBuffer * Tracker * Z * list (list N) :=
  (mx_terminal m, mx_ring m, mx_modes m, mx_mainMark m, mx_frames m).

(** [quiet m m']: between [m] and [m'] no frame of the runner was recorded or
    fanned out; switches of the alternate screen may have been pruned, observers
    may have come and gone and been sent sizes. *)
Record quiet m m' : Prop := {
  q_history : history m' = history m;
  q_pump : pump_frame m' = pump_frame m;
  q_alt : ∀ i, (OldestIndex (mx_ring m) ≤ i)%Z →
    (prune i (mx_altBeforeOldest m') (mx_altTransitions m')).1 =
    (prune i (mx_altBeforeOldest m) (mx_altTransitions m)).1;
  q_alt_mem : ∀ x, x ∈ mx_altTransitions m' → x ∈ mx_altTransitions m;
  q_next : mx_next m ≤ mx_next m';
  q_viewers : ∀ id v', id < mx_next m → mx_viewers m' !! id = Some v' →
    ∃ v es, mx_viewers m !! id = Some v ∧ v_log v' = v_log v ++ es ∧ lives es = [];
}.

Lemma lives_app es1 es2 : lives (es1 ++ es2) = lives es1 ++ lives es2.
Proof. apply omap_app. Qed.

#[export] Instance quiet_preorder : PreOrder quiet.
Proof.
  split.
  - intros m. split; try done. intros id v' _ E. exists v', []. by rewrite app_nil_r.
  - intros m1 m2 m3 [Hh1 Hp1 Ha1 Hm1 Hn1 Hv1] [Hh2 Hp2 Ha2 Hm2 Hn2 Hv2].
    assert (mx_ring m2 = mx_ring m1) as Er by (unfold history in *; congruence).
    split; [congruence|congruence| |auto|lia|].
    + intros i Hi. rewrite Ha2 by (by rewrite Er). by apply Ha1.
    + intros id v3 Hid E3. destruct (Hv2 id v3) as (v2 & es2 & E2 & L2 & N2); [lia|done|].
      destruct (Hv1 id v2) as (v1 & es1 & E1 & L1 & N1); [done|done|].
      exists v1, (es1 ++ es2). split_and!; [done|by rewrite L2, L1, app_assoc|]. by rewrite lives_app, N1, N2.
Qed.

(** A change of other fields. *)
Lemma quiet_same m m' :
  history m' = history m → pump_frame m' = pump_frame m → mx_altBeforeOldest m' = mx_altBeforeOldest m →
  mx_altTransitions m' = mx_altTransitions m → mx_next m' = mx_next m → mx_viewers m' = mx_viewers m →
  quiet m m'.
Proof.
  intros Hh Hp Hb Ht Hn Hv. split; [done|done|by rewrite Hb, Ht|by rewrite Ht|by rewrite Hn|].
  intros id v' _ E. rewrite Hv in E. exists v', []. by rewrite app_nil_r.
Qed.

(** A change of the observers only. *)
Lemma quiet_viewers m vs :
  (∀ id v', vs !! id = Some v' →
    ∃ v es, mx_viewers m !! id = Some v ∧ v_log v' = v_log v ++ es ∧ lives es = []) →
  quiet m (m{{ mx_viewers := vs }}).
Proof. intros Hvs. split; try done. intros id v' _ E. exact (Hvs id v' E). Qed.

Lemma quiet_close_tui id m : quiet m (close_tui id m).
Proof. by apply quiet_same. Qed.
Lemma quiet_fire h m : quiet m (fire h m).
Proof. by apply quiet_same. Qed.
Lemma quiet_tui o m : quiet m (m{{ mx_tui := o }}).
Proof. by apply quiet_same. Qed.
Lemma quiet_tuis ts m : quiet m (m{{ mx_tuis := ts }}).
Proof. by apply quiet_same. Qed.

#[local] Hint Resolve quiet_close_tui quiet_fire quiet_tui quiet_tuis : core.

Lemma quiet_write fb m : quiet m (writeFrameToRunner fb m).1.
Proof. unfold writeFrameToRunner. destruct (AppendData fb (mx_runner m)); [by apply quiet_same|done]. Qed.

Lemma quiet_drop id m : quiet m (dropViewer id m).
Proof.
  unfold dropViewer. destruct (mx_viewers m !! id); [|done]. etransitivity; [|apply quiet_fire].
  apply quiet_viewers. intros id' v' E. apply lookup_delete_Some in E as [_ E]. exists v', []. by rewrite app_nil_r.
Qed.

(** What the fan-out does to each observer that stays. *)
Lemma enqueue_log e v v' : enqueue e v = Some v' → v_log v' = v_log v ++ [e].
Proof.
  unfold enqueue. destruct (_ <? _)%nat; [|done]. intros Hq. apply (inj Some) in Hq as <-.
  unfold v_log. by rewrite <-app_assoc.
Qed.

Lemma fanout_viewers e m id v' :
  mx_viewers (fanoutToViewersLocked e m) !! id = Some v' →
  ∃ v, mx_viewers m !! id = Some v ∧ v_log v' = v_log v ++ [e].
Proof.
  intros E. change (omap (enqueue e) (mx_viewers m) !! id = Some v') in E.
  rewrite lookup_omap in E. destruct (mx_viewers m !! id) as [v|]; [|done]. exists v. split; [done|].
  by apply enqueue_log.
Qed.

Lemma quiet_fanout_size b m : quiet m (fanoutToViewersLocked (Size b) m).
Proof.
  split; try done. intros id v' _ E. destruct (fanout_viewers _ _ _ _ E) as (v & E' & L). by exists v, [Size b].
Qed.

Lemma quiet_winsize fb m : quiet m (applyWinSizeFrame fb m).1.
Proof.
  unfold applyWinSizeFrame. etransitivity; [|apply quiet_write].
  transitivity (m{{ mx_lastWinSize := fb }}); [by apply quiet_same|].
  etransitivity; [apply quiet_fanout_size|]. destruct (winSizeOf fb) as [[cols rows]|]; [|done].
  destruct (_ && _); [by apply quiet_same|done].
Qed.

Lemma quiet_control fb m : quiet m (control_frame fb m).1.
Proof. unfold control_frame. destruct (frameIsWinSize fb); [apply quiet_winsize|apply quiet_write]. Qed.

Lemma quiet_observer cw rs fb m : quiet m (observer_frame cw rs fb m).1.
Proof.
  unfold observer_frame, applyObserverWinSize. destruct (frameIsWinSize fb), rs, cw, (mx_tui m); try done;
    first [apply quiet_winsize | apply quiet_write].
Qed.

Lemma quiet_forward handle fuel acc m :
  (∀ fb m, quiet m (handle fb m).1) → quiet m (forward_frames handle fuel acc m).1.
Proof.
  intros Hh. revert acc m. induction fuel as [|fuel IH]; intros acc m; cbn [forward_frames]; [done|].
  destruct (readOneFrame acc) as [[fb rest]|]; [|done]. pose proof (Hh fb m) as Hq.
  destruct (handle fb m) as [m' []]; cbn [fst] in *; [|done]. etransitivity; [exact Hq|apply IH].
Qed.

Lemma quiet_detach id m : quiet m (detachLocked id m).
Proof.
  unfold detachLocked. destruct (decide _); [|done].
  etransitivity; [apply quiet_tui|]. etransitivity; [apply quiet_close_tui|apply quiet_fire].
Qed.

Lemma quiet_stop m : quiet m (Stop m).
Proof.
  unfold Stop. destruct (mx_stopped m); [done|]. etransitivity; [|apply quiet_fire].
  transitivity (match mx_tui m with Some id => close_tui id m | None => m end); [by destruct (mx_tui m)|].
  by split.
Qed.

Lemma prune_prune o i b ts :
  (o ≤ i)%Z → (prune i (prune o b ts).1 (prune o b ts).2).1 = (prune i b ts).1.
Proof.
  intros Hi. revert b. induction ts as [|[k e] ts IH]; intros b; [done|]. cbn [prune].
  destruct (Z.ltb_spec k o) as [Hk|Hk].
  - rewrite IH. by destruct (Z.ltb_spec k i); [|lia].
  - done.
Qed.

Lemma prune_subset o b ts x : x ∈ (prune o b ts).2 → x ∈ ts.
Proof.
  revert b. induction ts as [|[k e] ts IH]; intros b; [done|]. cbn [prune].
  destruct (k <? o)%Z; [|done]. intros Hx. right. by eapply IH.
Qed.

Lemma quiet_altAtOldest m : quiet m (altAtOldestSurviving m).2.
Proof.
  unfold altAtOldestSurviving.
  pose proof (prune_prune (OldestIndex (mx_ring m))) as Hpp.
  pose proof (prune_subset (OldestIndex (mx_ring m)) (mx_altBeforeOldest m) (mx_altTransitions m)) as Hps.
  destruct (prune _ _ _) as [before ts] eqn:E. cbn [snd] in *. split; try done.
  - intros i Hi. change ((prune i before ts).1 = (prune i (mx_altBeforeOldest m) (mx_altTransitions m)).1).
    rewrite <-(Hpp i (mx_altBeforeOldest m) (mx_altTransitions m) Hi), E. done.
  - intros id v' _ Ev. exists v', []. by rewrite app_nil_r.
Qed.

Lemma quiet_replayRing m : quiet m (replayRing m).2.
Proof.
  unfold replayRing. destruct (OnAltScreen (mx_modes m)); [done|].
  pose proof (quiet_altAtOldest m) as Hq. by destruct (altAtOldestSurviving m).
Qed.

Lemma quiet_replaySnapshot m : quiet m (replaySnapshot m).2.
Proof. unfold replaySnapshot. pose proof (quiet_replayRing m) as Hq. by destruct (replayRing m). Qed.

Lemma quiet_observer_replay limit m : quiet m (observer_replay limit m).2.
Proof. unfold observer_replay. pose proof (quiet_replaySnapshot m) as Hq. by destruct (replaySnapshot m). Qed.

Lemma quiet_Attach_take id m : quiet m (Attach_take id m).1.
Proof.
  unfold Attach_take. destruct (mx_stopped m); [done|]. cbn [fst]. set (m' := m{{ mx_tui := Some id; mx_tuis := _ }}).
  transitivity m'; [by apply quiet_same|]. by destruct (mx_tui m).
Qed.

Lemma quiet_Attach_replay id m : quiet m (Attach_replay id m).1.
Proof.
  unfold Attach_replay, tui_replay. pose proof (quiet_replaySnapshot m) as Hq.
  destruct (replaySnapshot m) as [ring m']. cbn [snd] in Hq. etransitivity; [exact Hq|].
  destruct (_ ++ _); [by cbn [fst]|]. destruct (mx_tuis m' !! id) as [[st acc]|]; [|done].
  destruct (AppendData _ st); cbn [fst]; [etransitivity; [apply quiet_tuis|apply quiet_fire]|]. by destruct (decide _).
Qed.

(** A new observer starts with the replay in its queue. *)
Definition replay_queue (b : list N) : list entry := match b with [] => [] | _ => [Replay b] end.

Lemma attachObserver_spec fwd limit resize m :
  mx_stopped m = false → let m' := (attachObserver fwd limit resize m).1 in
  quiet m m' ∧ mx_next m' = mx_next m + 1 ∧
  ∃ v, mx_viewers m' !! mx_next m = Some v ∧ v_log v = replay_queue (observer_replay limit m).1.
Proof.
  intros Hs m'. subst m'. unfold attachObserver. rewrite Hs. pose proof (quiet_observer_replay limit m) as Hq.
  assert (mx_next (observer_replay limit m).2 = mx_next m) as En.
  { unfold observer_replay, replaySnapshot, replayRing, altAtOldestSurviving.
    destruct (OnAltScreen _); [done|]. by destruct (prune _ _ _). }
  destruct (observer_replay limit m) as [replay m1]. cbn [fst snd] in *. split_and!.
  - etransitivity; [exact Hq|]. etransitivity; [|apply quiet_fire]. split; try done.
    + exact (N.le_add_r (mx_next m1) 1).
    + intros id v' Hid E. match type of E with mx_viewers (m1{{ mx_viewers := ?vs; mx_next := _ }}) !! _ = _ => change (vs !! id = Some v') in E end.
      rewrite lookup_insert_ne in E by lia. exists v', []. by rewrite app_nil_r.
  - rewrite <-En. done.
  - rewrite <-En. eexists. split; [apply lookup_insert_eq|]. done.
Qed.

Lemma quiet_viewerOutputPump id m : quiet m (viewerOutputPump id m).
Proof.
  unfold viewerOutputPump. destruct (mx_viewers m !! id) as [v|] eqn:Ev; [|done].
  destruct (v_ch v) as [|e rest] eqn:Ec; [done|]. destruct (v_up v); [|apply quiet_drop].
  apply quiet_viewers. intros id' v' E. apply lookup_insert_Some in E as [[<- <-]|[_ E]].
  - exists v, []. split_and!; [done| |done]. unfold v_log. rewrite Ec, app_nil_r.
    transitivity ((v_out v ++ [e]) ++ rest); [done|]. by rewrite <-app_assoc.
  - exists v', []. by rewrite app_nil_r.
Qed.

Lemma quiet_alter_viewer (f : viewerConn → viewerConn) id m :
  (∀ v, v_log (f v) = v_log v) → quiet m (m{{ mx_viewers := alter f id (mx_viewers m) }}).
Proof.
  intros Hf. apply quiet_viewers. intros id' v' E. destruct (decide (id' = id)) as [->|Hne].
  - rewrite lookup_alter_eq in E. destruct (mx_viewers m !! id) as [v|]; [|done].
    apply (inj Some) in E as <-. exists v, []. by rewrite app_nil_r.
  - rewrite lookup_alter_ne in E by done. exists v', []. by rewrite app_nil_r.
Qed.

Lemma quiet_tuiPump id data eof m : quiet m (tuiPump id data eof m).
Proof.
  unfold tuiPump. destruct (mx_tuis m !! id) as [[st acc]|]; [|done].
  set (r := match data with [] => _ | _ => _ end).
  assert (quiet m r.1) as Hq by (subst r; destruct data; [done|apply quiet_forward, quiet_control]).
  destruct r as [m' [acc'|]]; cbn [fst] in Hq; (etransitivity; [exact Hq|]); [|apply quiet_stop].
  etransitivity; [apply quiet_tuis|]. destruct eof; [apply quiet_detach|done].
Qed.

Lemma quiet_observerInputPump id data eof m : quiet m (observerInputPump id data eof m).
Proof.
  unfold observerInputPump. destruct (mx_viewers m !! id) as [v|]; [|done].
  set (r := match data with [] => _ | _ => _ end).
  assert (quiet m r.1) as Hq by (subst r; destruct data; [done|apply quiet_forward, quiet_observer]).
  destruct r as [m' [acc'|]]; cbn [fst] in Hq; (etransitivity; [exact Hq|]); [|apply quiet_stop].
  transitivity (m'{{ mx_viewers := alter (λ v : viewerConn, v{{ v_acc := acc' }}) id (mx_viewers m') }});
    [by apply quiet_alter_viewer|]. destruct eof; [apply quiet_drop|done].
Qed.

Lemma quiet_pump_pick m : quiet m (pump_pick m).
Proof.
  unfold pump_pick. destruct (mx_pump m) eqn:E; try done. apply quiet_same; try done.
  unfold pump_frame. by rewrite E.
Qed.

Lemma quiet_pump_send m : quiet m (pump_send m).
Proof.
  unfold pump_send. destruct (mx_pump m) as [| |fb tui|] eqn:E; try done.
  transitivity (m{{ mx_pump := PumpSent fb }}).
  { apply quiet_same; try done. unfold pump_frame. by rewrite E. }
  destruct tui as [id|]; [|done]. destruct (_ !! id) as [[st acc]|]; [|done].
  destruct (AppendData fb st); [apply quiet_tuis|apply quiet_detach].
Qed.

(** The two steps that are not quiet: a frame recorded, and a frame fanned out. *)
Inductive step_case m (e : event) : SessionMux → Prop :=
  | step_quiet m' : quiet m m' → step_case m e m'
  | step_record now fb :
      e = EvRunner now (Some fb) → mx_pump m = PumpRead →
      step_case m e ((recordFrame now fb m){{ mx_pump := PumpRecorded fb }})
  | step_fan fb :
      mx_pump m = PumpSent fb → step_case m e (fanoutToViewersLocked (Live fb) (m{{ mx_pump := PumpRead }})).

Lemma step_cases m e : step_case m e (step m e).
Proof.
  destruct e as [now next| | | |id|id|fwd limit resize|id|id data eof|id data eof|id|id| |id|]; cbn [step].
  1: { unfold pump_read. destruct (mx_pump m) eqn:E; try (by apply step_quiet).
    destruct (mx_stopped m); [by apply step_quiet|]. destruct next; [by apply step_record|apply step_quiet, quiet_stop]. }
  3: { unfold pump_fan. destruct (mx_pump m) eqn:E; try (by apply step_quiet). by apply step_fan. }
  all: apply step_quiet.
  - apply quiet_pump_pick.
  - apply quiet_pump_send.
  - destruct (decide _); [done|apply quiet_Attach_take].
  - apply quiet_Attach_replay.
  - destruct (mx_stopped m) eqn:E; [unfold attachObserver; by rewrite E|by apply attachObserver_spec].
  - apply quiet_viewerOutputPump.
  - apply quiet_tuiPump.
  - apply quiet_observerInputPump.
  - apply quiet_close_tui.
  - by apply quiet_alter_viewer.
  - by apply quiet_same.
  - apply quiet_drop.
  - apply quiet_stop.
Qed.
End quiet.

(** ** Recording *)

Section recording.
Context `{!FrameCodec, !ControlCodec, !Grid}.
Implicit Types (m : SessionMux) (v : viewerConn) (fb : list N).

(** What a frame does to the terminal modes. *)
Definition feed_frame (terminal : bool) (t : Tracker) fb : Tracker :=
  if terminal && ((FrameHeaderSize <=? length fb)%nat && is_output fb) then Feed t (drop FrameHeaderSize fb) else t.

Lemma answer_runner n m : ∃ s, answerProgramStatusProbes n m = m{{ mx_runner := s }}.
Proof.
  revert m. induction n as [|n IH]; intros m; cbn [answerProgramStatusProbes]; [exists (mx_runner m); by destruct m|].
  unfold writeFrameToRunner. destruct (AppendData _ (mx_runner m)) as [s|]; [|exists (mx_runner m); by destruct m].
  destruct (IH (m{{ mx_runner := s }})) as [s' ->]. by exists s'.
Qed.

(** The fields a recorded frame touches. *)
Record recorded fb m m' : Prop := {
  rec_frames : mx_frames m' = mx_frames m ++ [fb];
  rec_ring : mx_ring m' = RingBuffer_Append fb (mx_ring m);
  rec_modes : mx_modes m' = feed_frame (mx_terminal m) (mx_modes m) fb;
  rec_terminal : mx_terminal m' = mx_terminal m;
  rec_viewers : mx_viewers m' = mx_viewers m;
  rec_next : mx_next m' = mx_next m;
  rec_before : mx_altBeforeOldest m' = mx_altBeforeOldest m;
  rec_switch :
    let idx := (Z.of_nat (AppendCount (mx_ring m')) - 1)%Z in
    let was := OnAltScreen (mx_modes m) in
    let now := OnAltScreen (mx_modes m') in
    mx_altTransitions m' = mx_altTransitions m ++ (if eqb now was then [] else [(idx, now)]) ∧
    mx_mainMark m' = if was && negb now then idx else mx_mainMark m;
}.

Lemma record_switch_recorded fb m m1 :
  mx_frames m1 = mx_frames m ++ [fb] → mx_ring m1 = RingBuffer_Append fb (mx_ring m) →
  mx_modes m1 = feed_frame (mx_terminal m) (mx_modes m) fb → mx_terminal m1 = mx_terminal m →
  mx_viewers m1 = mx_viewers m → mx_next m1 = mx_next m → mx_altBeforeOldest m1 = mx_altBeforeOldest m →
  mx_altTransitions m1 = mx_altTransitions m → mx_mainMark m1 = mx_mainMark m →
  recorded fb m (record_switch (OnAltScreen (mx_modes m)) m1).
Proof.
  intros Ef Er Em Et Ev En Eb Ea Ek. unfold record_switch.
  destruct (OnAltScreen (mx_modes m1)) eqn:E1, (OnAltScreen (mx_modes m)) eqn:E2; cbn [eqb andb negb];
    (split; [exact Ef|exact Er|exact Em|exact Et|exact Ev|exact En|exact Eb|]); cbn zeta; rewrite E2.
  all: match goal with |- context [OnAltScreen (mx_modes ?x)] => change (OnAltScreen (mx_modes x)) with (OnAltScreen (mx_modes m1)) end.
  all: rewrite E1; cbn [eqb andb negb]; rewrite <-Ea, ?app_nil_r; try rewrite <-Ek; by split.
Qed.

Lemma recordFrame_recorded now fb m : recorded fb m (recordFrame now fb m).
Proof.
  unfold recordFrame. apply record_switch_recorded; destruct (_ && is_output fb) eqn:E; try done.
  all: unfold record_output; destruct (mx_terminal m) eqn:Et; try done.
  all: try (destruct (TakeProgramStatusQueries _) as [probes scr];
    destruct (answer_runner probes (m{{ mx_modes := Feed (mx_modes m) (drop FrameHeaderSize fb); mx_screen := scr }})) as [s ->];
    try done).
  all: unfold feed_frame; rewrite ?E; done.
Qed.

(** How many frames have been fanned out to the observers. *)
Definition fanned m : nat := (length (mx_frames m) - match pump_frame m with Some _ => 1 | None => 0 end)%nat.
Definition pump_ok m : Prop := ∀ fb, pump_frame m = Some fb → ∃ fs, mx_frames m = fs ++ [fb].

Lemma quiet_frames m m' : quiet m m' → mx_frames m' = mx_frames m ∧ fanned m' = fanned m.
Proof.
  intros [Hh Hp _ _ _ _]. assert (mx_frames m' = mx_frames m) as E by (unfold history in Hh; congruence).
  unfold fanned. by rewrite E, Hp.
Qed.

Lemma pump_ok_step m e : pump_ok m → pump_ok (step m e).
Proof.
  intros Hok. destruct (step_cases m e) as [m' Hq|now fb _ Hp|fb Hp].
  - destruct (quiet_frames _ _ Hq) as [E _]. intros fb. rewrite (q_pump _ _ Hq), E. apply Hok.
  - intros fb' E'. apply (inj Some) in E' as <-. exists (mx_frames m).
    exact (rec_frames _ _ _ (recordFrame_recorded now fb m)).
  - intros fb' E'. done.
Qed.

Lemma pump_ok_run m evs : pump_ok m → pump_ok (run m evs).
Proof. revert m. induction evs as [|e evs IH]; intros m Hok; [done|]. by apply IH, pump_ok_step. Qed.

Lemma pump_ok_New pty ring : pump_ok (NewSessionMux pty ring).
Proof. intros fb. done. Qed.

(** An observer [id] that joined when [from] frames had been fanned out, and was
    first sent [first], has since been sent every frame from there on, in order. *)
Definition follows (id : N) (first : list entry) (from : nat) (old : list (list N)) m : Prop :=
  id < mx_next m ∧ old `prefix_of` mx_frames m ∧ (from ≤ fanned m)%nat ∧
  ∀ v, mx_viewers m !! id = Some v →
    ∃ rest, v_log v = first ++ rest ∧ lives rest = drop from (take (fanned m) (mx_frames m)).

Lemma follows_quiet id first from old m m' : quiet m m' → follows id first from old m → follows id first from old m'.
Proof.
  intros Hq (Hid & Hold & Hfrom & Hv). destruct (quiet_frames _ _ Hq) as [Ef Efan].
  pose proof (q_next _ _ Hq) as Hn. split_and!; [lia|by rewrite Ef|by rewrite Efan|].
  intros v' E'. destruct (q_viewers _ _ Hq id v' Hid E') as (v & es & E & L & N0).
  destruct (Hv v E) as (rest & L' & Hl). exists (rest ++ es).
  by rewrite L, L', app_assoc, lives_app, N0, app_nil_r, Ef, Efan.
Qed.

Lemma follows_step id first from old m e :
  pump_ok m → follows id first from old m → follows id first from old (step m e).
Proof.
  intros Hok Hf. destruct (step_cases m e) as [m' Hq|now fb _ Hp|fb Hp]; [by eapply follows_quiet|..].
  - destruct Hf as (Hid & Hold & Hfrom & Hv). pose proof (recordFrame_recorded now fb m) as Hr.
    set (m' := (recordFrame now fb m){{ mx_pump := PumpRecorded fb }}).
    assert (mx_frames m' = mx_frames m ++ [fb]) as Ef by exact (rec_frames _ _ _ Hr).
    assert (fanned m = length (mx_frames m)) as Ea by (unfold fanned, pump_frame; rewrite Hp; lia).
    assert (fanned m' = fanned m) as Efan.
    { rewrite Ea. unfold fanned. rewrite Ef, length_app. change (pump_frame m') with (Some fb). cbn. lia. }
    split_and!; [|rewrite Ef; by apply prefix_app_r|by rewrite Efan|].
    + change (id < mx_next (recordFrame now fb m)). by rewrite (rec_next _ _ _ Hr).
    + intros v E. assert (mx_viewers m !! id = Some v) as E0 by (rewrite <-(rec_viewers _ _ _ Hr); exact E).
      destruct (Hv v E0) as (rest & L & Hl). exists rest. split; [done|].
      rewrite Efan, Ef, take_app_le by lia. exact Hl.
  - destruct Hf as (Hid & Hold & Hfrom & Hv).
    set (m' := fanoutToViewersLocked (Live fb) (m{{ mx_pump := PumpRead }})).
    destruct (Hok fb) as [fs Efs]; [unfold pump_frame; by rewrite Hp|].
    assert (fanned m = length fs) as Ea by (unfold fanned, pump_frame; rewrite Hp, Efs, length_app; cbn; lia).
    assert (fanned m' = S (length fs)) as Efan.
    { unfold fanned. change (pump_frame m') with (@None (list N)). change (mx_frames m') with (mx_frames m).
      rewrite Efs, length_app. cbn. lia. }
    split_and!; [exact Hid|exact Hold|lia|]. intros v' E'.
    destruct (fanout_viewers _ _ _ _ E') as (v & E & L). change (mx_viewers m !! id = Some v) in E.
    destruct (Hv v E) as (rest & L' & Hl). exists (rest ++ [Live fb]). rewrite L, L', lives_app, Hl, Efan, Ea.
    change (mx_frames m') with (mx_frames m). rewrite Efs, <-app_assoc. split; [done|].
    rewrite take_app_length, (take_ge (fs ++ [fb])) by (rewrite length_app; cbn; lia).
    by rewrite drop_app_le by lia.
Qed.

(** C17. An observer misses no output: in every interleaving of the mux's goroutines
    its stream is the replay taken when it joined followed by every frame from
    some point on, in order and without a gap.  That point is at most one frame
    before the end of what the replay was made from, so at most one frame reaches
    it both in the replay and live. *)
Theorem observer_misses_nothing pty ring evs1 fwd limit resize evs2 :
  let m1 := run (NewSessionMux pty ring) evs1 in
  let m2 := run (step m1 (EvObserve fwd limit resize)) evs2 in
  mx_stopped m1 = false →
  mx_frames m1 `prefix_of` mx_frames m2 ∧ (fanned m1 ≤ length (mx_frames m1) ≤ S (fanned m1))%nat ∧
  ∀ v, mx_viewers m2 !! mx_next m1 = Some v →
    ∃ rest, v_log v = replay_queue (observer_replay limit m1).1 ++ rest ∧
      lives rest = drop (fanned m1) (take (fanned m2) (mx_frames m2)).
Proof.
  intros m1 m2 Hs. destruct (attachObserver_spec fwd limit resize m1 Hs) as (Hq & Hn & v & Ev & Lv).
  change (attachObserver fwd limit resize m1).1 with (step m1 (EvObserve fwd limit resize)) in *.
  set (m1' := step m1 (EvObserve fwd limit resize)) in *.
  assert (pump_ok m1) as Hok by apply pump_ok_run, pump_ok_New.
  destruct (quiet_frames _ _ Hq) as [Ef Efan].
  assert (follows (mx_next m1) (replay_queue (observer_replay limit m1).1) (fanned m1) (mx_frames m1) m1') as Hf.
  { split_and!; [lia|by rewrite Ef|by rewrite Efan|]. intros v' E'. rewrite Ev in E'. apply (inj Some) in E' as <-.
    exists []. rewrite app_nil_r. split; [done|]. rewrite Efan, Ef. symmetry. apply drop_ge. rewrite length_take. lia. }
  assert (pump_ok m1') as Hok' by by apply pump_ok_step.
  assert (follows (mx_next m1) (replay_queue (observer_replay limit m1).1) (fanned m1) (mx_frames m1) m2) as (_ & Hp & _ & Hv).
  { subst m2. clear -Hf Hok'. revert Hf Hok'. generalize m1'. induction evs2 as [|e evs2 IH]; intros m Hf Hok; [done|].
    cbn [run foldl]. apply IH; [by apply follows_step|by apply pump_ok_step]. }
  split_and!; [done|unfold fanned; lia| |done]. unfold fanned. destruct (pump_frame m1) eqn:E; lia.
Qed.

(** ** The alternate screen *)

(** The terminal modes after the frames [fs] of a session that started clean, and
    whether it is on the alternate screen before frame [i]. *)
Definition track (terminal : bool) (fs : list (list N)) : Tracker := foldl (feed_frame terminal) New fs.
Definition alt_at m (i : nat) : bool := OnAltScreen (track (mx_terminal m) (take i (mx_frames m))).

Lemma prune_below i j b ts :
  (∀ x, x ∈ ts → (x.1 < i)%Z) → (i ≤ j)%Z → (prune j b ts).1 = (prune i b ts).1.
Proof.
  intros Hts Hij. revert b. induction ts as [|[k e] ts IH]; intros b; [done|]. cbn [prune].
  assert (k < i)%Z as Hk by (apply (Hts (k, e)); by left).
  destruct (Z.ltb_spec k i), (Z.ltb_spec k j); try lia. apply IH. intros x Hx. apply Hts. by right.
Qed.

Lemma prune_snoc i b ts k e :
  (∀ x, x ∈ ts → (x.1 < k)%Z) →
  (prune i b (ts ++ [(k, e)])).1 = if (k <? i)%Z then e else (prune i b ts).1.
Proof.
  intros Hts. revert b. induction ts as [|[k' e'] ts IH]; intros b; cbn [app prune].
  { by destruct (k <? i)%Z. }
  assert (k' < k)%Z as Hk by (apply (Hts (k', e')); by left).
  destruct (Z.ltb_spec k' i) as [Hi|Hi].
  - apply IH. intros x Hx. apply Hts. by right.
  - destruct (Z.ltb_spec k i); [lia|done].
Qed.

Lemma length_evict c fs b : (length (evict c fs b).1 ≤ length fs)%nat.
Proof.
  revert b. induction fs as [|f fs IH]; intros b; [done|]. cbn [evict]. destruct fs as [|g fs]; [done|].
  destruct (c <? b)%nat; [|done]. specialize (IH (b - length f)%nat). cbn [length] in *. lia.
Qed.

Lemma OldestIndex_Append fb r : (OldestIndex r ≤ OldestIndex (RingBuffer_Append fb r))%Z.
Proof.
  unfold RingBuffer_Append. destruct (length fb =? 0)%nat; [done|].
  pose proof (length_evict (rb_cap r) (rb_frames r ++ [fb]) (rb_bytes r + length fb)) as Hl.
  destruct (evict _ _ _) as [fs b]. cbn [fst] in Hl. rewrite length_app in Hl. unfold OldestIndex.
  cbn [rb_appendCount rb_frames length] in *. lia.
Qed.

Record alt_inv (capacity : Z) m : Prop := {
  ai_full : Forall (λ fb, fb ≠ []) (mx_frames m);
  ai_ring : mx_ring m = ring_of capacity (mx_frames m);
  ai_modes : mx_modes m = track (mx_terminal m) (mx_frames m);
  ai_bound : ∀ x, x ∈ mx_altTransitions m → (x.1 < Z.of_nat (length (mx_frames m)))%Z;
  ai_state : ∀ i, (OldestIndex (mx_ring m) ≤ Z.of_nat i)%Z → (i ≤ length (mx_frames m))%nat →
    (prune (Z.of_nat i) (mx_altBeforeOldest m) (mx_altTransitions m)).1 = alt_at m i;
  ai_mark : OnAltScreen (mx_modes m) = false →
    ∀ i, (i ≤ length (mx_frames m))%nat → alt_at m i = true →
    ∃ k, mx_mainMark m = Z.of_nat k ∧ (i ≤ k < length (mx_frames m))%nat ∧ alt_at m k = true ∧
      ∀ j, (k < j ≤ length (mx_frames m))%nat → alt_at m j = false;
}.

Lemma alt_inv_New pty capacity : alt_inv capacity (NewSessionMux pty (NewRingBuffer capacity)).
Proof.
  split; try done.
  - intros x Hx. by apply elem_of_nil in Hx.
  - intros i _ Hi. unfold alt_at. cbn [length] in Hi. by destruct i.
  - intros _ i _ Hi. unfold alt_at in Hi. cbn [mx_frames NewSessionMux] in Hi. by rewrite take_nil in Hi.
Qed.

Lemma alt_inv_quiet capacity m m' : quiet m m' → alt_inv capacity m → alt_inv capacity m'.
Proof.
  intros [Hh _ Ha Hm _ _] [I1 I2 I3 I4 I5 I6]. unfold history in Hh.
  assert (mx_terminal m' = mx_terminal m) as Et by congruence. assert (mx_ring m' = mx_ring m) as Er by congruence.
  assert (mx_modes m' = mx_modes m) as Em by congruence. assert (mx_frames m' = mx_frames m) as Ef by congruence.
  assert (mx_mainMark m' = mx_mainMark m) as Ek by congruence.
  split; unfold alt_at; rewrite ?Et, ?Er, ?Em, ?Ef, ?Ek; [done|done|done| | |exact I6].
  - intros x Hx. by apply I4, Hm.
  - intros i Hi Hn. rewrite Ha by done. by apply I5.
Qed.

Lemma alt_at_recorded fb m m' :
  recorded fb m m' → mx_modes m = track (mx_terminal m) (mx_frames m) →
  (∀ i, (i ≤ length (mx_frames m))%nat → alt_at m' i = alt_at m i) ∧
  alt_at m (length (mx_frames m)) = OnAltScreen (mx_modes m) ∧
  alt_at m' (S (length (mx_frames m))) = OnAltScreen (mx_modes m') ∧
  mx_modes m' = track (mx_terminal m') (mx_frames m').
Proof.
  intros Hr Em. unfold alt_at. rewrite (rec_terminal _ _ _ Hr), (rec_frames _ _ _ Hr), (rec_modes _ _ _ Hr), Em.
  assert (track (mx_terminal m) (mx_frames m ++ [fb]) =
    feed_frame (mx_terminal m) (track (mx_terminal m) (mx_frames m)) fb) as E by (unfold track; by rewrite foldl_app).
  split_and!; [| | |done].
  - intros i Hi. by rewrite take_app_le.
  - by rewrite take_ge by lia.
  - by rewrite take_ge, E by (rewrite length_app; cbn; lia).
Qed.

Lemma ring_count capacity fs :
  Forall (λ fb, fb ≠ []) fs → AppendCount (ring_of capacity fs) = length fs.
Proof.
  intros Hf. destruct (ring_of_holds capacity fs) as (k & _ & _ & _ & E & _). unfold AppendCount. rewrite E.
  f_equal. clear E. induction Hf as [|f fs Hf _ IH]; [done|]. by rewrite filter_cons_True, IH.
Qed.

Lemma alt_inv_recorded capacity fb m m' :
  fb ≠ [] → recorded fb m m' → alt_inv capacity m → alt_inv capacity m'.
Proof.
  intros Hfb Hr [I1 I2 I3 I4 I5 I6]. destruct (alt_at_recorded fb m m' Hr I3) as (Hold & Hn & Hn' & I3').
  pose proof (rec_frames _ _ _ Hr) as Ef. destruct (rec_switch _ _ _ Hr) as [Ets Emark].
  assert (Forall (λ fb, fb ≠ []) (mx_frames m')) as I1' by (rewrite Ef; apply Forall_app; by split; [|constructor]).
  assert (mx_ring m' = ring_of capacity (mx_frames m')) as I2'.
  { rewrite (rec_ring _ _ _ Hr), Ef, I2. unfold ring_of. by rewrite foldl_app. }
  assert (length (mx_frames m') = S (length (mx_frames m))) as El by (rewrite Ef, length_app; cbn; lia).
  assert (Z.of_nat (AppendCount (mx_ring m')) - 1 = Z.of_nat (length (mx_frames m)))%Z as Eidx
    by (rewrite I2', ring_count, El by done; lia).
  rewrite Eidx in Ets, Emark. set (n := length (mx_frames m)) in *. split; [done|done|done| | |].
  - intros x. rewrite Ets, El, elem_of_app. intros [Hx|Hx]; [specialize (I4 x Hx); lia|].
    destruct (eqb _ _); [by apply elem_of_nil in Hx|]. apply list_elem_of_singleton in Hx as ->. cbn. lia.
  - intros i Hi Hin. rewrite El in Hin. rewrite (rec_before _ _ _ Hr), Ets.
    assert (OldestIndex (mx_ring m) ≤ Z.of_nat i)%Z as Hi0
      by (etransitivity; [|exact Hi]; rewrite (rec_ring _ _ _ Hr); apply OldestIndex_Append).
    assert (OldestIndex (mx_ring m) ≤ Z.of_nat n)%Z as Hn0
      by (unfold OldestIndex; change (rb_appendCount (mx_ring m)) with (AppendCount (mx_ring m)); rewrite I2, ring_count by done; lia).
    destruct (eqb (OnAltScreen (mx_modes m')) (OnAltScreen (mx_modes m))) eqn:Eb.
    + rewrite app_nil_r. apply eqb_prop in Eb. destruct (decide (i = S n)) as [->|Hne].
      * rewrite (prune_below (Z.of_nat n)) by (done || lia). rewrite I5, Hn, Hn' by (done || lia). done.
      * rewrite Hold by lia. apply I5; [done|lia].
    + rewrite prune_snoc by done. destruct (Z.ltb_spec (Z.of_nat n) (Z.of_nat i)) as [Hlt|Hge].
      * replace i with (S n) by lia. done.
      * rewrite Hold by lia. apply I5; [done|lia].
  - intros Hoff i Hi Halt. rewrite El in *. destruct (decide (i = S n)) as [->|Hne]; [congruence|].
    rewrite Hold in Halt by lia. rewrite Emark, Hoff, andb_true_r. destruct (OnAltScreen (mx_modes m)) eqn:Eon.
    + exists n. split_and!; [done|lia|lia|rewrite Hold by lia; congruence|].
      intros j Hj. replace j with (S n) by lia. congruence.
    + destruct (I6 eq_refl i) as (k & Ek & Hk & Hka & Hkj); [lia|done|]. exists k.
      split_and!; [done|lia|lia|by rewrite Hold by lia|]. intros j Hj.
      destruct (decide (j = S n)) as [->|]; [congruence|]. rewrite Hold by lia. apply Hkj. lia.
Qed.

Definition event_ok (e : event) : Prop :=
  match e with EvRunner _ (Some fb) => fb ≠ [] | _ => True end.

Lemma alt_inv_run capacity m evs : Forall event_ok evs → alt_inv capacity m → alt_inv capacity (run m evs).
Proof.
  intros He. revert m. induction He as [|e evs He _ IH]; intros m Hm; [done|]. cbn [run foldl]. apply IH.
  destruct (step_cases m e) as [m' Hq|now fb -> Hp|fb Hp].
  - by eapply alt_inv_quiet.
  - destruct (alt_inv_recorded capacity fb m (recordFrame now fb m)) as [I1 I2 I3 I4 I5 I6];
      [done|apply recordFrame_recorded|done|]. by split.
  - destruct Hm as [I1 I2 I3 I4 I5 I6]. by split.
Qed.

(** The replay of a session that is back on the primary screen never begins
    inside a finished full-screen episode: it is the whole surviving ring, when
    the ring begins on the primary screen, and otherwise it starts with the frame
    that left the alternate screen for the last time.  While a full-screen program
    runs it is the whole ring. *)
Theorem replayRing_starts_on_primary pty capacity evs :
  Forall event_ok evs →
  let m := run (NewSessionMux pty (NewRingBuffer capacity)) evs in
  ∃ oldest k, OldestIndex (mx_ring m) = Z.of_nat oldest ∧ (oldest ≤ k)%nat ∧
    (replayRing m).1 = concat (drop k (mx_frames m)) ∧
    (OnAltScreen (mx_modes m) = true → k = oldest) ∧
    (OnAltScreen (mx_modes m) = false →
      (altAtOldestSurviving m).1 = alt_at m oldest ∧
      (alt_at m k = false ∧ k = oldest ∨
       alt_at m k = true ∧ (k < length (mx_frames m))%nat ∧
       ∀ j, (k < j ≤ length (mx_frames m))%nat → alt_at m j = false)).
Proof.
  intros He m. assert (alt_inv capacity m) as [I1 I2 I3 I4 I5 I6] by (apply alt_inv_run; [done|apply alt_inv_New]).
  destruct (ring_of_holds capacity (mx_frames m)) as (o & Hring).
  assert (filter (λ p, p ≠ []) (mx_frames m) = mx_frames m) as Ef.
  { clear -I1. induction I1 as [|f fs Hf _ IH]; [done|]. by rewrite filter_cons_True, IH. }
  rewrite Ef, <-I2 in Hring. destruct (ring_snapshots _ _ _ _ I1 Hring) as (Eo & Esnap & Hfrom).
  destruct Hring as (_ & _ & _ & _ & Ho & _).
  unfold replayRing, altAtOldestSurviving. rewrite Eo.
  destruct (OnAltScreen (mx_modes m)) eqn:Eon; [by exists o, o|].
  pose proof (I5 o) as Ho'. rewrite Eo in Ho'. specialize (Ho' ltac:(lia) Ho).
  destruct (prune _ _ _) as [before ts]. cbn [fst] in *. subst before. exists o.
  destruct (alt_at m o) eqn:Eao; [|exists o; split_and!; [done|done|done|done|by auto]].
  destruct (I6 eq_refl o Ho Eao) as (k & Ek & Hk & Hka & Hkj). exists k.
  split_and!; [done|lia| |done|intros _; split; [done|right; split_and!; [done|lia|done]]].
  rewrite Hfrom. f_equal. f_equal. lia.
Qed.
End recording.

(** ** Input *)

Section input.
Context `{!FrameCodec, !LawfulFrames, !ControlCodec, !Grid}.
Implicit Types (m : SessionMux) (v : viewerConn) (fb acc : list N) (handle : list N → SessionMux → SessionMux * bool).

Lemma readOneFrame_shorter acc fb rest : readOneFrame acc = Some (fb, rest) → (length rest < length acc)%nat.
Proof.
  unfold readOneFrame. pose proof header_size_pos as Hpos. destruct (_ <? FrameHeaderSize)%nat eqn:Eh; [done|].
  set (n := (FrameHeaderSize + _)%nat). destruct (Nat.ltb_spec (length acc) n); [done|].
  intros [= _ <-]. rewrite length_drop. lia.
Qed.

Lemma readOneFrame_app acc fb rest more :
  readOneFrame acc = Some (fb, rest) → readOneFrame (acc ++ more) = Some (fb, rest ++ more).
Proof.
  unfold readOneFrame, frameHeaderAt. destruct (Nat.ltb_spec (length acc) FrameHeaderSize) as [|Hh]; [done|].
  rewrite length_app, take_app_le by done. destruct (Nat.ltb_spec (length acc + length more) FrameHeaderSize); [lia|].
  set (n := (FrameHeaderSize + _)%nat). destruct (Nat.ltb_spec (length acc) n) as [|Hn]; [done|].
  destruct (Nat.ltb_spec (length acc + length more) n); [lia|]. intros [= <- <-].
  by rewrite take_app_le, drop_app_le by done.
Qed.

Lemma readOneFrame_encodes f fs :
  encodable f → readOneFrame (encodes (f :: fs)) = Some (encodeFrame f.1 f.2, encodes fs).
Proof. intros [Ht Hp]. rewrite encodes_cons. by apply readOneFrame_encode. Qed.

(** Enough fuel is enough. *)
Lemma forward_fuel handle fuel1 fuel2 acc m :
  (length acc ≤ fuel1)%nat → (length acc ≤ fuel2)%nat →
  forward_frames handle fuel1 acc m = forward_frames handle fuel2 acc m.
Proof.
  revert fuel2 acc m. induction fuel1 as [|fuel1 IH]; intros fuel2 acc m K1 K2.
  - destruct fuel2 as [|fuel2]; [done|]. destruct acc; [|cbn in K1; lia]. cbn [forward_frames].
    destruct (readOneFrame []) as [[fb rest]|] eqn:E; [|done]. apply readOneFrame_shorter in E. cbn in E. lia.
  - destruct fuel2 as [|fuel2].
    + destruct acc; [|cbn in K2; lia]. cbn [forward_frames].
      destruct (readOneFrame []) as [[fb rest]|] eqn:E; [|done]. apply readOneFrame_shorter in E. cbn in E. lia.
    + cbn [forward_frames]. destruct (readOneFrame acc) as [[fb rest]|] eqn:E; [|done].
      apply readOneFrame_shorter in E. destruct (handle fb m) as [m' []]; [|done]. apply IH; lia.
Qed.

Definition forward handle acc m := forward_frames handle (length acc) acc m.

Lemma forward_unfold handle acc m :
  forward handle acc m =
    match readOneFrame acc with
    | None => (m, Some acc)
    | Some (fb, rest) => let '(m', ok) := handle fb m in if ok then forward handle rest m' else (m', None)
    end.
Proof.
  unfold forward. rewrite (forward_fuel handle _ (S (length acc))) by lia. cbn [forward_frames].
  destruct (readOneFrame acc) as [[fb rest]|] eqn:E; [|done]. apply readOneFrame_shorter in E.
  destruct (handle fb m) as [m' []]; [|done]. apply forward_fuel; lia.
Qed.

Lemma forward_app handle acc more m :
  forward handle (acc ++ more) m =
    match forward handle acc m with
    | (m', Some carry) => forward handle (carry ++ more) m'
    | (m', None) => (m', None)
    end.
Proof.
  remember (length acc) as n eqn:En. revert acc m En. induction (lt_wf n) as [n _ IH]. intros acc m ->.
  rewrite (forward_unfold handle acc m). destruct (readOneFrame acc) as [[fb rest]|] eqn:E; [|done].
  rewrite (forward_unfold handle (acc ++ more) m), (readOneFrame_app _ _ _ _ E). apply readOneFrame_shorter in E.
  destruct (handle fb m) as [m' []]; [|done]. by eapply IH.
Qed.

(** A stream read in chunks, each call given what the last one left. *)
Fixpoint forward_chunks handle acc (chunks : list (list N)) m : SessionMux * option (list N) :=
  match chunks with
  | [] => (m, Some acc)
  | c :: cs =>
      match forward handle (acc ++ c) m with
      | (m', Some carry) => forward_chunks handle carry cs m'
      | (m', None) => (m', None)
      end
  end.

(** However a client's input is cut into reads, the mux does to it what it would
    do to the whole: the same frames are written to the runner, whole and in
    order, the same sizes applied, and the same bytes are left over.  This holds
    for the control client and for observers. *)
Theorem forward_chunking handle (chunks : list (list N)) m :
  chunks ≠ [] → forward_chunks handle [] chunks m = forward handle (concat chunks) m.
Proof.
  intros Hne. assert (∀ cs c acc m, forward_chunks handle acc (c :: cs) m = forward handle (acc ++ c ++ concat cs) m) as G.
  { clear Hne chunks m. intros cs. induction cs as [|c' cs IH]; intros c acc m; cbn [forward_chunks concat].
    - rewrite app_nil_r. by destruct (forward handle (acc ++ c) m) as [m' []].
    - rewrite app_assoc, (forward_app handle (acc ++ c)). destruct (forward handle (acc ++ c) m) as [m' [carry|]]; [|done].
      rewrite <-IH. done. }
  destruct chunks as [|c cs]; [done|]. apply G.
Qed.

(** *** Who may type and resize *)

(** Whether a frame of an observer is handed to the runner. *)
Definition permitted (cowriter allowResize : bool) m fb : bool :=
  if frameIsWinSize fb then allowResize && negb (IsAttached m) else cowriter.

(** The parts of the mux a client's input can change. *)
Definition input_state m := (mx_runner m, mx_lastWinSize m, mx_tui m).

Lemma write_up fb m :
  s_up (mx_runner m) = true →
  (writeFrameToRunner fb m).2 = true ∧
  input_state (writeFrameToRunner fb m).1 = (mkStream (s_out (mx_runner m) ++ [fb]) true, mx_lastWinSize m, mx_tui m).
Proof. intros Hup. unfold writeFrameToRunner, AppendData. by rewrite Hup. Qed.

Lemma winsize_up fb m :
  s_up (mx_runner m) = true →
  (applyWinSizeFrame fb m).2 = true ∧
  input_state (applyWinSizeFrame fb m).1 = (mkStream (s_out (mx_runner m) ++ [fb]) true, fb, mx_tui m).
Proof.
  intros Hup. unfold applyWinSizeFrame.
  set (m1 := fanoutToViewersLocked (Size fb) (m{{ mx_lastWinSize := fb }})).
  set (m2 := match winSizeOf fb with Some _ => _ | None => m1 end).
  assert (input_state m2 = (mx_runner m, fb, mx_tui m)) as E.
  { subst m2. destruct (winSizeOf fb) as [[cols rows]|]; [destruct (_ && _)|]; done. }
  unfold input_state in E. destruct (write_up fb m2) as [K1 K2]; [congruence|]. split; [done|]. congruence.
Qed.

Lemma observer_frame_up cw rs fb m :
  s_up (mx_runner m) = true → let m' := (observer_frame cw rs fb m).1 in
  (observer_frame cw rs fb m).2 = true ∧
  input_state m' =
    if permitted cw rs m fb
    then (mkStream (s_out (mx_runner m) ++ [fb]) true, if frameIsWinSize fb then fb else mx_lastWinSize m, mx_tui m)
    else input_state m.
Proof.
  intros Hup m'. subst m'. unfold observer_frame, permitted, applyObserverWinSize, IsAttached.
  destruct (frameIsWinSize fb).
  - destruct rs; cbn [andb]; [|done]. destruct (mx_tui m) as [id|] eqn:Et.
    + by rewrite bool_decide_eq_true_2.
    + rewrite bool_decide_eq_false_2 by (by intros []). cbn [negb]. rewrite <-Et. by apply winsize_up.
  - destruct cw; [by apply write_up|done].
Qed.

Definition wire (f : N * list N) : list N := encodeFrame f.1 f.2.

(** The last size among the frames, or the one before. *)
Definition last_size (old : list N) (fbs : list (list N)) : list N :=
  default old (last (filter (λ fb, frameIsWinSize fb = true) fbs)).

(** C37. An observer's input reaches the session only as far as it may.  Of a viewer, or
    a cowriter that was not also let resize, and while the runner's stream is up,
    exactly the frames it is permitted to send are written to the runner, whole and
    in order: what a cowriter types but no size, and of a viewer that may resize the
    sizes, while nobody holds the control seat.  The size on record is the last
    permitted one, and an observer that is neither cowriter nor allowed to resize
    changes nothing at all. *)
Theorem observer_input_authority cw rs (fs : list (N * list N)) m :
  cw && rs = false → Forall encodable fs → s_up (mx_runner m) = true →
  let sent := filter (λ fb, permitted cw rs m fb = true) (wire <$> fs) in
  let '(m', carry) := forwardObserverFrames cw rs (encodes fs) m in
  carry = Some [] ∧
  mx_runner m' = mkStream (s_out (mx_runner m) ++ sent) true ∧
  mx_lastWinSize m' = last_size (mx_lastWinSize m) sent ∧ mx_tui m' = mx_tui m ∧
  (cw = false → rs = false → m' = m).
Proof.
  intros _ Hok. unfold forwardObserverFrames. fold (forward (observer_frame cw rs) (encodes fs) m).
  revert m. induction Hok as [|f fs Hf _ IH]; intros m Hup; cbn zeta.
  { rewrite forward_unfold. unfold readOneFrame. pose proof header_size_pos.
    destruct (Nat.ltb_spec (length (encodes [])) FrameHeaderSize) as [_|Hge]; [|cbn in Hge; lia].
    cbn [fmap list_fmap]. rewrite filter_nil, app_nil_r. split_and!; [done| |done|done|done].
    destruct (mx_runner m) as [out up]. cbn in *. by subst up. }
  rewrite forward_unfold, readOneFrame_encodes by done. fold (wire f).
  destruct (observer_frame_up cw rs (wire f) m Hup) as [Ht Ei].
  assert (cw = false → rs = false → (observer_frame cw rs (wire f) m).1 = m) as Hnone.
  { intros -> ->. unfold observer_frame. by destruct (frameIsWinSize _). }
  destruct (observer_frame cw rs (wire f) m) as [m1 ok]. cbn [fst snd] in *. subst ok.
  assert (mx_tui m1 = mx_tui m) as Etui by (unfold input_state in Ei; destruct (permitted cw rs m (wire f)); congruence).
  assert (s_up (mx_runner m1) = true) as Hup1 by (unfold input_state in Ei; destruct (permitted cw rs m (wire f));
    [injection Ei as -> _ _; done|congruence]).
  assert (∀ fb, permitted cw rs m1 fb = permitted cw rs m fb) as Hperm by (intros fb; unfold permitted, IsAttached; by rewrite Etui).
  specialize (IH m1 Hup1). cbn zeta in IH. destruct (forward (observer_frame cw rs) (encodes fs) m1) as [m2 carry].
  destruct IH as (-> & Er & Es & Et2 & Hn). rewrite fmap_cons, filter_cons.
  rewrite (list_filter_iff (λ fb, permitted cw rs m1 fb = true) (λ fb, permitted cw rs m fb = true)) in Er, Es by (intros fb; by rewrite Hperm).
  unfold input_state in Ei. destruct (permitted cw rs m (wire f)) eqn:Ep; cbn [decide].
  - rewrite decide_True by done. injection Ei as Er1 Es1 _. rewrite Er1 in Er. cbn [s_out] in Er. rewrite Es1 in Es.
    split_and!; [done|by rewrite Er, <-app_assoc| |congruence|].
    + rewrite Es. unfold last_size. rewrite filter_cons. destruct (frameIsWinSize (wire f)) eqn:Ew.
      * rewrite decide_True by done. rewrite last_cons. by destruct (last _).
      * by rewrite decide_False.
    + intros E1 E2. rewrite Hn by done. by apply Hnone.
  - rewrite decide_False by done. injection Ei as Er1 Es1 _. rewrite Er1 in Er. rewrite Es1 in Es.
    split_and!; [done|done|done|congruence|]. intros E1 E2. rewrite Hn by done. by apply Hnone.
Qed.
End input.

(** ** On a concrete session *)

#[local] Existing Instance SampleFrames.codec.
#[local] Existing Instance SampleFrames.codec_lawful.

Module SampleMux.
(** A grid that only knows its size. *)
#[local] Instance size_grid : Grid := {
  grid := N * N;
  grid_New c r := (c, r); grid_Write _ g := g; TakeProgramStatusQueries g := (O, g);
  grid_Resize c r _ := (c, r); Repaint _ := []; Cursor _ := (0, 0); grid_Size g := g;
}.
(** A size is a zero byte, the rows and the columns. *)
#[local] Instance size_codec : ControlCodec := {
  ReadWindowSize fb := match drop FrameHeaderSize fb with [0; r; c] => Some (c, r) | _ => None end;
  AppendWindowSize r c := [0; r; c];
}.

Definition hello : list N := encodeStdoutFrame [104; 105].
Definition keys : N * list N := (FrameType_Stdin, [97]).
Definition size : N * list N := (FrameType_Control, [0; 24; 80]).
Definition start : SessionMux := NewSessionMux true (NewRingBuffer 1000).
(** A full-screen program starts and leaves again, with a ring of one frame. *)
Definition episode : list event :=
  EvRunner 1 (Some (encodeStdoutFrame (appendMode [] 1049 true))) :: [EvPick; EvSend; EvFan] ++
  EvRunner 2 (Some hello) :: [EvPick; EvSend; EvFan] ++
  EvRunner 3 (Some (encodeStdoutFrame (appendMode [] 1049 false))) :: [EvPick; EvSend; EvFan].
End SampleMux.

#[local] Existing Instance SampleMux.size_grid.
#[local] Existing Instance SampleMux.size_codec.

Lemma observer_misses_nothing_witness :
  let m1 := run SampleMux.start [EvRunner 1 (Some SampleMux.hello)] in
  let m2 := run (step m1 (EvObserve false 0 false)) [EvPick; EvSend; EvFan] in
  ∃ v rest, mx_viewers m2 !! 0 = Some v ∧ v_log v = [Replay SampleMux.hello] ++ rest ∧ lives rest = [SampleMux.hello].
Proof.
  intros m1 m2.
  destruct (observer_misses_nothing true (NewRingBuffer 1000) [EvRunner 1 (Some SampleMux.hello)] false 0 false
    [EvPick; EvSend; EvFan]) as (_ & _ & H); [vm_compute; reflexivity|].
  destruct (mx_viewers m2 !! 0) as [v|] eqn:E.
  - destruct (H v E) as (rest & Hl & Hr). exists v, rest. split_and!; [done|exact Hl|rewrite Hr; vm_compute; reflexivity].
  - exfalso. revert E. vm_compute. discriminate.
Defined.

Lemma replayRing_starts_on_primary_witness :
  let m := run (NewSessionMux true (NewRingBuffer 10)) SampleMux.episode in
  ∃ oldest k, OldestIndex (mx_ring m) = Z.of_nat oldest ∧ (oldest ≤ k)%nat ∧
    (replayRing m).1 = concat (drop k (mx_frames m)).
Proof.
  intros m. destruct (replayRing_starts_on_primary true 10 SampleMux.episode) as (o & k & H1 & H2 & H3 & _).
  - unfold SampleMux.episode. cbn [app]. repeat apply Forall_cons_2; [vm_compute; discriminate || exact I..|constructor].
  - exists o, k. split_and!; [exact H1|exact H2|exact H3].
Defined.

Lemma forward_chunking_witness :
  let input := encodes [SampleMux.keys; SampleMux.size] in
  forward_chunks control_frame [] [take 3 input; drop 3 input] SampleMux.start =
    forwardControlFrames input SampleMux.start.
Proof.
  intros input. rewrite (forward_chunking control_frame [take 3 input; drop 3 input] SampleMux.start) by discriminate.
  reflexivity.
Defined.

Lemma observer_input_authority_witness :
  let '(m', carry) := forwardObserverFrames true false (encodes [SampleMux.size; SampleMux.keys]) SampleMux.start in
  carry = Some [] ∧ mx_runner m' = mkStream [wire SampleMux.keys] true.
Proof.
  pose proof (observer_input_authority true false [SampleMux.size; SampleMux.keys] SampleMux.start) as H.
  destruct (forwardObserverFrames _ _ _ _) as [m' carry]. destruct H as (H1 & H2 & _).
  - reflexivity.
  - repeat apply Forall_cons_2; [split; vm_compute; reflexivity..|constructor].
  - reflexivity.
  - split; [exact H1|rewrite H2; vm_compute; reflexivity].
Defined.

(** Live output can reach an attaching control client before its replay, and again
    in it: the stream is installed under the lock but the replay is written after
    the lock is released. *)
Theorem Attach_live_before_replay :
  let m := run SampleMux.start [EvAttach 7; EvRunner 1 (Some SampleMux.hello); EvPick; EvSend; EvAttachReplay 7] in
  (mx_tuis m !! 7) = Some (mkStream [SampleMux.hello; SampleMux.hello] true, []).
Proof. by vm_compute. Qed.

(** A mux that was loaded with a screen on the alternate buffer does not know that
    its ring begins inside a full-screen episode: once the program has left it, the
    replay still begins with the episode's frames. *)
Theorem loadScreen_forgets_alternate_screen :
  let m := loadScreen (appendMode [] 1049 true) SampleMux.start in
  let m' := run m [EvRunner 1 (Some SampleMux.hello); EvPick; EvSend; EvFan;
                   EvRunner 2 (Some (encodeStdoutFrame (appendMode [] 1049 false))); EvPick; EvSend; EvFan] in
  OnAltScreen (mx_modes m) = true ∧ OnAltScreen (mx_modes m') = false ∧
  (altAtOldestSurviving m').1 = false ∧ OldestIndex (mx_ring m') = 0%Z ∧ mx_mainMark m' = 1%Z ∧
  SampleMux.hello `prefix_of` (replayRing m').1.
Proof. split_and!; try (vm_compute; reflexivity). eexists. vm_compute. reflexivity. Qed.
