(* ===== verification/Paths.v ===== *)
(** * Repository paths and profile names: [runner/protocol/pathmatch.go] and
    [agent_profile_name.go]

    [path.Clean] is modelled on characters.  The extensions of a profile name are
    ASCII and no other character has one of their letters as its lower case, so
    lowering ASCII decides the same suffixes. *)

From stdpp Require Import prelude strings list.
From Stdlib Require Import NArith Ascii.
From S2P Require Import Prelude GoStrings.

Open Scope N_scope.
Open Scope stdpp_scope.
Set Default Goal Selector "!".

(** ** [path.Clean] *)

Definition slash : ascii := ascii_of_N 47.
Definition point : ascii := ascii_of_N 46.

Fixpoint split_path (l : list ascii) : list (list ascii) :=
  match l with
  | [] => [[]]
  | c :: l' =>
      if bool_decide (c = slash) then [] :: split_path l'
      else match split_path l' with [] => [[c]] | x :: xs => (c :: x) :: xs end
  end.

(** One element of the path; [out] is the cleaned path so far, last element first. *)
Definition clean_step (rooted : bool) (out : list (list ascii)) (x : list ascii) : list (list ascii) :=
  if bool_decide (x = []) || bool_decide (x = [point]) then out
  else if bool_decide (x = [point; point]) then
    match out with
    | y :: out' => if bool_decide (y = [point; point]) then x :: out else out'
    | [] => if rooted then [] else [x]
    end
  else x :: out.

Definition rooted (s : string) : bool := bool_decide (head (chars s) = Some slash).
Definition elements_of (s : string) : list (list ascii) :=
  reverse (foldl (clean_step (rooted s)) [] (split_path (chars s))).

Fixpoint join_path (l : list (list ascii)) : list ascii :=
  match l with
  | [] => []
  | [x] => x
  | x :: l' => x ++ slash :: join_path l'
  end.

Definition clean_chars (s : string) : list ascii :=
  if rooted s then slash :: join_path (elements_of s)
  else match elements_of s with [] => [point] | l => join_path l end.
Definition path_Clean (s : string) : string := unchars (clean_chars s).

(** ** [pathmatch.go] *)

Definition isDriveLetter (c : ascii) : bool :=
  let n := N_of_ascii c in ((97 <=? n) && (n <=? 122)) || ((65 <=? n) && (n <=? 90)).

Definition isAbsCrossOS (p : string) : bool :=
  if rooted p then true
  else match chars p with
       | c :: d :: e :: _ => isDriveLetter c && bool_decide (d = ascii_of_N 58) && bool_decide (e = slash)
       | _ => false
       end.

Definition MatchLen (root repo : string) : nat :=
  if negb (isAbsCrossOS root) || negb (isAbsCrossOS repo) then 0
  else
    let r := path_Clean root in
    let p := path_Clean repo in
    if negb (HasPrefix p r) then 0
    else if (String.length p =? String.length r)%nat then String.length r
    else if bool_decide (r = "/"%string) then String.length r
    else if negb (bool_decide (chars p !! String.length r = Some slash)) then 0
    else String.length r.

Definition IsUnderRoot (root repo : string) : bool := (0 <? MatchLen root repo)%nat.

(** ** [agent_profile_name.go] *)

Definition windowsExecExts : list string := [".exe"; ".bat"; ".cmd"; ".com"]%string.

Definition has_suffix (s t : string) : bool :=
  bool_decide (drop (length (chars s) - length (chars t)) (chars s) = chars t).

Definition NormalizeAgentProfileName (name : string) : string :=
  match find_first (λ ext, has_suffix (ToLower name) ext && (String.length ext <? String.length name)%nat) windowsExecExts with
  | Some ext => unchars (take (String.length name - String.length ext) (chars name))
  | None => name
  end.

Definition EqualAgentProfileName (a b : string) : bool :=
  bool_decide (NormalizeAgentProfileName a = NormalizeAgentProfileName b).

(** ** Cleaned paths *)

(** An element of a cleaned path. *)
Definition element (x : list ascii) : Prop := x ≠ [] ∧ x ≠ [point] ∧ slash ∉ x.

Lemma split_path_no_slash l : Forall (λ x, slash ∉ x) (split_path l).
Proof.
  induction l as [|c l IH]; cbn [split_path]; [repeat constructor; apply not_elem_of_nil|].
  case_bool_decide as Hc; [constructor; [apply not_elem_of_nil|done]|].
  destruct (split_path l) as [|x xs]; [repeat constructor; set_solver|]. inversion IH; subst. constructor; [set_solver|done].
Qed.

Lemma elements_ok s : Forall element (elements_of s).
Proof.
  unfold elements_of. apply Forall_reverse. generalize (rooted s) as ro. intros ro.
  assert (∀ l out, Forall (λ x, slash ∉ x) l → Forall element out → Forall element (foldl (clean_step ro) out l)) as G.
  { induction l as [|x l IH]; intros out Hl Hout; cbn [foldl]; [done|]. inversion Hl as [|? ? Hx Hl']; subst.
    apply IH; [done|]. unfold clean_step. case_bool_decide; [done|]. case_bool_decide; [done|]. cbn [orb].
    case_bool_decide; [|by constructor]. destruct out as [|y out]; [destruct ro; repeat constructor; done|].
    inversion Hout; subst. case_bool_decide; [by constructor|done]. }
  apply G; [apply split_path_no_slash|constructor].
Qed.

(** Two texts that agree up to their first slash. *)
Lemma cut_at_slash x y s t :
  slash ∉ x → slash ∉ y → (s = [] ∨ ∃ s', s = slash :: s') → (t = [] ∨ ∃ t', t = slash :: t') →
  x ++ s = y ++ t → x = y ∧ s = t.
Proof.
  revert y. induction x as [|c x IH]; intros y Hx Hy Hs Ht E.
  - destruct y as [|d y]; [done|]. cbn in E. destruct Hs as [->|(s' & ->)]; [done|]. injection E as <- _. set_solver.
  - destruct y as [|d y].
    + cbn in E. destruct Ht as [->|(t' & ->)]; [done|]. injection E as -> _. set_solver.
    + injection E as <- E. apply IH in E as [-> ->]; [done|set_solver|set_solver|done|done].
Qed.

Lemma join_cons x l : join_path (x :: l) = x ++ match l with [] => [] | _ => slash :: join_path l end.
Proof. destruct l; [by rewrite app_nil_r|done]. Qed.

Lemma join_app l1 l2 : l1 ≠ [] → l2 ≠ [] → join_path (l1 ++ l2) = join_path l1 ++ slash :: join_path l2.
Proof.
  intros H1 H2. induction l1 as [|x l1 IH]; [done|]. destruct l1 as [|y l1].
  - cbn [app]. rewrite join_cons. destruct l2; [done|]. done.
  - change (join_path ((x :: y :: l1) ++ l2)) with (x ++ slash :: join_path ((y :: l1) ++ l2)).
    change (join_path (x :: y :: l1)) with (x ++ slash :: join_path (y :: l1)). rewrite IH by done. by rewrite <-app_assoc.
Qed.

(** A prefix of the text that ends at a boundary is a prefix of the elements. *)
Lemma join_prefix R P :
  R ≠ [] → Forall element R → Forall element P →
  (join_path P = join_path R ∨ ∃ rest, join_path P = join_path R ++ slash :: rest) ↔ R `prefix_of` P.
Proof.
  intros HR FR FP. split.
  - revert P FP. induction R as [|x R IH]; [done|]. intros P FP H. inversion FR as [|? ? [Ex [_ Hx]] FR']; subst.
    destruct P as [|y P].
    { change (join_path []) with (@nil ascii) in H. rewrite join_cons in H. destruct H as [H|(rest & H)]; [|by destruct x].
      symmetry in H. by apply app_eq_nil in H as [? _]. }
    inversion FP as [|? ? [_ [_ Hy]] FP']; subst. rewrite !join_cons in H.
    assert (∃ t, y ++ match P with [] => [] | _ => slash :: join_path P end = x ++ t ∧ (t = [] ∨ ∃ t', t = slash :: t') ∧
      (R ≠ [] → P ≠ [] → slash :: join_path P = t → join_path P = join_path R ∨ ∃ rest, join_path P = join_path R ++ slash :: rest) ∧
      (R ≠ [] → t ≠ [])) as (t & Et & Ht & Hnext & Hne).
    { destruct H as [H|(rest & H)].
      - eexists. split; [exact H|]. split_and!; [destruct R; eauto| |by destruct R].
        intros HR' _ E. destruct R as [|z R]; [done|]. injection E as E. by left.
      - rewrite <-app_assoc in H. eexists. split; [exact H|]. split_and!; [destruct R; cbn; eauto| |by destruct R].
        intros HR' _ E. destruct R as [|z R]; [done|]. cbn [app] in E. injection E as E. right. eauto. }
    apply cut_at_slash in Et as [-> Et]; [|done|done|destruct P; eauto|done].
    destruct R as [|z R]; [by apply prefix_cons, prefix_nil|]. apply prefix_cons. apply IH; [done|done|done|].
    destruct P as [|w P]; [by destruct (Hne ltac:(done))|]. by apply Hnext.
  - intros [Q ->]. destruct Q as [|z Q]; [left; by rewrite app_nil_r|]. right. eexists. by apply join_app.
Qed.

Lemma join_nonempty R : R ≠ [] → Forall element R → ∃ c l, join_path R = c :: l ∧ c ≠ slash.
Proof.
  intros HR FR. destruct R as [|x R]; [done|]. inversion FR as [|? ? [Ex [_ Hx]] _]; subst. rewrite join_cons.
  destruct x as [|c x]; [done|]. cbn. do 2 eexists. split; [done|]. set_solver.
Qed.

Lemma HasPrefix_chars s p : HasPrefix s p = true ↔ chars p `prefix_of` chars s.
Proof.
  rewrite HasPrefix_spec. split.
  - intros [t ->]. exists (chars t). induction p as [|c p IH]; [done|].
    change (String c p +:+ t) with (String c (p +:+ t)). unfold chars in *. cbn. by rewrite IH.
  - intros [l E]. exists (unchars l). apply chars_inj. rewrite E. clear E. induction p as [|c p IH]; [by rewrite <-(chars_unchars l) at 1|].
    change (String c p +:+ unchars l) with (String c (p +:+ unchars l)). unfold chars in *. cbn. by rewrite IH.
Qed.

(** The test of [MatchLen], on characters. *)
Definition match_rule (r p : list ascii) : Prop :=
  p = r ∨ (r = [slash] ∧ [slash] `prefix_of` p) ∨ ∃ rest, p = r ++ slash :: rest.

Lemma MatchLen_rule root repo :
  isAbsCrossOS root = true → isAbsCrossOS repo = true →
  let r := clean_chars root in let p := clean_chars repo in
  MatchLen root repo = length r ∧ match_rule r p ∨ MatchLen root repo = 0%nat ∧ ¬ match_rule r p.
Proof.
  intros A1 A2 r p. unfold MatchLen. rewrite A1, A2. cbn [negb orb].
  assert (chars (path_Clean root) = r ∧ chars (path_Clean repo) = p) as [Er Ep] by (by split; apply chars_unchars).
  rewrite <-!chars_length, Er, Ep. pose proof (HasPrefix_chars (path_Clean repo) (path_Clean root)) as Hp. rewrite Er, Ep in Hp.
  destruct (HasPrefix (path_Clean repo) (path_Clean root)); cbn [negb]; cycle 1.
  { right. split; [done|]. intros Hr. enough (false = true) by done. apply Hp.
    destruct Hr as [->|[[-> H]|(rest & ->)]]; [done|done|by eexists]. }
  destruct (proj1 Hp eq_refl) as [l El]. clear Hp. destruct (Nat.eqb_spec (length p) (length r)) as [Hl|Hl].
  { left. split; [done|]. left. rewrite El, length_app in Hl. destruct l; [by rewrite app_nil_r in El|cbn in Hl; lia]. }
  case_bool_decide as Hs.
  { left. split; [done|]. right. left. rewrite Hs in Er. change (chars "/") with [slash] in Er. split; [done|]. rewrite Er. by exists l. }
  rewrite El, lookup_app_r, Nat.sub_diag by lia. destruct l as [|c l]; [rewrite El, app_nil_r in Hl; lia|]. cbn [lookup list_lookup].
  case_bool_decide as Hc; cbn [negb].
  - left. split; [done|]. injection Hc as ->. right. right. eauto.
  - right. split; [done|]. intros [E|[[E _]|(rest & E)]].
    + rewrite <-(app_nil_r r) in E at 2. by apply app_inv_head in E.
    + apply Hs, chars_inj. by rewrite Er, E.
    + apply app_inv_head in E. injection E as -> _. done.
Qed.

(** Cleaned texts of absolute paths match as their elements do. *)
Lemma match_rule_elements root repo :
  rooted root = true ∨ elements_of root ≠ [] →
  match_rule (clean_chars root) (clean_chars repo) ↔
    rooted root = rooted repo ∧ elements_of root `prefix_of` elements_of repo.
Proof.
  pose proof (elements_ok root) as FR. pose proof (elements_ok repo) as FP. unfold match_rule, clean_chars.
  destruct (rooted root) eqn:Rr; intros Hne.
  - destruct (rooted repo) eqn:Rp.
    + destruct (elements_of root) as [|x R] eqn:ER.
      { split; [intros _; split; [done|by apply prefix_nil]|]. intros _. right. left. split; [done|]. by eexists. }
      rewrite <-join_prefix by done. destruct (join_nonempty (x :: R) ltac:(done) FR) as (c & l & Ec & _). rewrite Ec. split.
      * intros [E|[[E _]|(rest & E)]]; [injection E as E; auto|done|]. injection E as E. split; [done|]. right. eauto.
      * intros [_ [->|(rest & ->)]]; [by left|]. right. right. by exists rest.
    + split; [|by intros []]. assert (∃ c l, match elements_of repo with [] => [point] | l => join_path l end = c :: l ∧ c ≠ slash) as (c & l & E & Hc).
      { destruct (elements_of repo) eqn:EP; [by exists point, []|]. rewrite <-EP. by apply join_nonempty; rewrite EP. }
      rewrite E. intros [H|[[_ [t H]]|(rest & H)]]; injection H as H _; done.
  - destruct Hne as [?|Hne]; [done|]. destruct (join_nonempty _ Hne FR) as (c & l & Ec & Hc).
    assert (match elements_of root with [] => [point] | l => join_path l end = join_path (elements_of root)) as -> by (by destruct (elements_of root)).
    destruct (rooted repo) eqn:Rp.
    + split; [|by intros []]. rewrite Ec. intros [H|[[H _]|(rest & H)]]; injection H as H _; done.
    + destruct (elements_of repo) as [|y P] eqn:EP.
      * split; [|by intros [_ ?%prefix_nil_inv]]. intros [H|[[H _]|(rest & H)]]; exfalso.
        -- destruct (elements_of root) as [|x R]; [done|]. inversion FR as [|? ? (N1 & N2 & _) _]; subst. rewrite join_cons in H.
           destruct R; [rewrite app_nil_r in H; by subst|]. destruct x as [|a x]; [done|]. injection H as _ H. by destruct x.
        -- rewrite Ec in H. by injection H as -> _.
        -- rewrite Ec in H. injection H as _ H. by destruct l.
      * rewrite <-EP in FP |- *.
        rewrite <-join_prefix by done. rewrite Ec. split.
        -- intros [H|[[H _]|H]]; [auto| |auto]. by injection H as -> _.
        -- intros [_ [H|H]]; auto.
Qed.

(** [IsUnderRoot], the test behind [allowed_roots], is containment of
    directories: of two absolute paths the repository is under the root exactly
    when both are of one form and the cleaned root's elements are the first ones
    of the repository's, and nothing is under a path that is not absolute.  (A
    drive path that cleans to nothing has no elements and is left out.) *)
Theorem IsUnderRoot_spec root repo :
  (isAbsCrossOS root = false ∨ isAbsCrossOS repo = false → IsUnderRoot root repo = false) ∧
  (isAbsCrossOS root = true → isAbsCrossOS repo = true → rooted root = true ∨ elements_of root ≠ [] →
   IsUnderRoot root repo = true ↔ rooted root = rooted repo ∧ elements_of root `prefix_of` elements_of repo).
Proof.
  unfold IsUnderRoot. split.
  - unfold MatchLen. intros [-> | ->]; [done|]. by rewrite orb_comm.
  - intros A1 A2 Hne. rewrite <-match_rule_elements by done.
    assert (clean_chars root ≠ []) as Hc.
    { unfold clean_chars. destruct (rooted root); [done|]. destruct Hne as [?|Hne]; [done|].
      destruct (join_nonempty _ Hne (elements_ok root)) as (c & l & E & _). destruct (elements_of root); [done|]. by rewrite E. }
    destruct (MatchLen_rule root repo A1 A2) as [[-> H]|[-> H]]; [|by split].
    split; [done|]. intros _. apply Nat.ltb_lt. destruct (clean_chars root); [done|cbn; lia].
Qed.

Lemma IsUnderRoot_spec_witness :
  IsUnderRoot "/home/u/" "/home/x/../u//proj" = true ∧ IsUnderRoot "/home/u" "/home/user" = false.
Proof.
  split.
  - apply (IsUnderRoot_spec "/home/u/" "/home/x/../u//proj"); [reflexivity|reflexivity|left; reflexivity|].
    split; [reflexivity|]. eexists. vm_compute. reflexivity.
  - vm_compute. reflexivity.
Defined.
