(* ===== verification/Registry.v ===== *)
(** * The runner registry: [server/registry.go]

    Every method runs under the registry's lock, so each is one function on the
    record; a reading of the clock is an argument.  A connection id is the tuple of
    the fields of [objproto.ConnectionID] (transport, address bytes, port, number);
    its printed form only breaks ties and is a parameter.  [Via] and
    [ViaDialAddr], the relay chain of a runner, are left out: no method of the
    registry reads them.  The value snapshots the methods return are the entries
    themselves. *)

From stdpp Require Import prelude gmap strings list sorting.
From Stdlib Require Import NArith ZArith.
From coqutil Require Import Datatypes.RecordSetters.
From S2P Require Import Prelude GoStrings Wire Wal Paths.

Import DoubleBraceUpdate.
Open Scope N_scope.
Open Scope stdpp_scope.
Set Default Goal Selector "!".

(** ** Data *)

Definition ConnectionID : Type := string * list N * N * N.
Definition zeroConn : ConnectionID := (""%string, [], 0, 0).
Definition conn_addr (c : ConnectionID) : list N := c.1.1.2.

Record RunnerEntry := mkRunnerEntry {
  re_ID : ConnectionID;
  re_Identity : list N;
  re_Hostname : string;
  re_GOOS : string;
  re_AllowedRoots : list string;
  re_MaxTasks : nat;
  re_AgentBin : string;
  re_AgentProfiles : list string;
  re_SkillsInjected : bool;
  re_Key : option (list N);
  re_ActiveTasks : gset string;
  re_ConnectedAt : Z;
  re_LastTaskActivity : Z;
  re_Conn : bool;
  re_Link : N;
  re_LinkRecord : N;
  re_LinkVia : list N;
}.

Inductive RunnerStatus := RunnerStatus_Offline | RunnerStatus_Busy | RunnerStatus_Idle.
#[export] Instance RunnerStatus_eq_dec : EqDecision RunnerStatus.
Proof. solve_decision. Defined.

(** The hooks, as the calls made. *)
Inductive registry_call := OnAdd (e : RunnerEntry) | OnRemove (id : ConnectionID) (snap : RunnerEntry).

Record Registry := mkRegistry {
  rg_runners : gmap ConnectionID RunnerEntry;
  rg_byIdentity : gmap (list N) ConnectionID;
  rg_calls : list registry_call;
}.

Definition NewRegistry : Registry := mkRegistry ∅ ∅ [].

(** ** Entries *)

Definition load (e : RunnerEntry) : nat := size (re_ActiveTasks e).

Definition RunnerEntry_Status (e : RunnerEntry) : RunnerStatus :=
  if negb (re_Conn e) then RunnerStatus_Offline
  else if (re_MaxTasks e <=? load e)%nat then RunnerStatus_Busy
  else RunnerStatus_Idle.

Definition HasProfile (name : string) (e : RunnerEntry) : bool :=
  match re_AgentProfiles e with
  | [] => EqualAgentProfileName name (re_AgentBin e)
  | ps => existsb (λ p, EqualAgentProfileName p name) ps
  end.

Definition DefaultProfile (e : RunnerEntry) : string :=
  match re_AgentProfiles e with p :: _ => p | [] => re_AgentBin e end.

(** ** Selecting *)

(** [ToObjproto] of a selector's address. *)
Definition conn_of (transport : string) (ip : list N) (port unique : N) : ConnectionID :=
  (transport, if (length ip =? 4)%nat || (length ip =? 16)%nat then ip else [], port, unique).

Definition selectorMatches (sel : RunnerSelector) (e : RunnerEntry) : bool :=
  match sel with
  | SelAny => true
  | SelByRunnerId want => negb (bool_decide (want = zeroID)) && bool_decide (want = re_Identity e)
  | SelByConnId transport ip port unique => bool_decide (conn_of transport ip port unique = re_ID e)
  | SelByHostname h => bool_decide (h = re_Hostname e)
  | SelByIp ip => bool_decide (conn_addr (re_ID e) = ip)
  end.

(** [r.byIdentity[identity]], the zero connection when there is none. *)
Definition holder (r : Registry) (identity : list N) : ConnectionID := default zeroConn (rg_byIdentity r !! identity).

Definition selects (r : Registry) (sel : RunnerSelector) (e : RunnerEntry) : bool :=
  if negb (selectorMatches sel e) then false
  else match sel with
       | SelByRunnerId _ => bool_decide (holder r (re_Identity e) = re_ID e)
       | _ => true
       end.

(** ** Operations *)

Definition put_runner (id : ConnectionID) (e : RunnerEntry) (r : Registry) : Registry :=
  r{{ rg_runners := <[id := e]> (rg_runners r) }}.
Definition reg_call (c : registry_call) (r : Registry) : Registry := r{{ rg_calls := rg_calls r ++ [c] }}.

(** The holder of [e]'s identity is another registered connection with another key. *)
Definition held_by_other_key (e : RunnerEntry) (r : Registry) : bool :=
  match rg_byIdentity r !! re_Identity e with
  | Some prevID =>
      if bool_decide (prevID = re_ID e) then false
      else match rg_runners r !! prevID with
           | Some prev =>
               match re_Key prev with
               | Some k => negb (bool_decide (k = default [] (re_Key e)))
               | None => false
               end
           | None => false
           end
  | None => false
  end.

(** The displaced connection, or [None] for [ErrIdentityKeyMismatch]. *)
Definition Add (e : RunnerEntry) (r : Registry) : Registry * option ConnectionID :=
  let identified := negb (bool_decide (re_Identity e = zeroID)) in
  if identified && held_by_other_key e r then (r, None)
  else
    let displaced :=
      if identified then
        match rg_byIdentity r !! re_Identity e with
        | Some prev => if bool_decide (prev = re_ID e) then zeroConn else prev
        | None => zeroConn
        end
      else zeroConn in
    let r := put_runner (re_ID e) e r in
    let r := if identified then r{{ rg_byIdentity := <[re_Identity e := re_ID e]> (rg_byIdentity r) }} else r in
    (reg_call (OnAdd e) r, Some displaced).

Definition on_runner (id : ConnectionID) (f : RunnerEntry → RunnerEntry) (r : Registry) : Registry :=
  match rg_runners r !! id with Some e => put_runner id (f e) r | None => r end.

Definition SetLink (id : ConnectionID) (link record : N) (r : Registry) : Registry :=
  on_runner id (λ e, e{{ re_Link := link; re_LinkRecord := record }}) r.

Definition Registry_Remove (id : ConnectionID) (r : Registry) : Registry :=
  match rg_runners r !! id with
  | None => r
  | Some e =>
      let r := r{{ rg_runners := delete id (rg_runners r) }} in
      let r := if negb (bool_decide (re_Identity e = zeroID)) && bool_decide (holder r (re_Identity e) = id)
               then r{{ rg_byIdentity := delete (re_Identity e) (rg_byIdentity r) }} else r in
      reg_call (OnRemove id e) r
  end.

Definition GetLiveByIdentity (rid : list N) (r : Registry) : option RunnerEntry :=
  if bool_decide (rid = zeroID) then None
  else id ← rg_byIdentity r !! rid; rg_runners r !! id.
Definition GetByIdentity := GetLiveByIdentity.
Definition Registry_Get (id : ConnectionID) (r : Registry) : option RunnerEntry := rg_runners r !! id.
Definition GetByConnectionID := Registry_Get.

Definition ownsTask (id : ConnectionID) (taskID : string) (r : Registry) : bool :=
  match rg_runners r !! id with
  | None => false
  | Some e =>
      if bool_decide (re_Identity e = zeroID) || negb (bool_decide (holder r (re_Identity e) = id)) then false
      else bool_decide (taskID ∈ re_ActiveTasks e)
  end.

Definition isCurrentRunner (id : ConnectionID) (identity : list N) (r : Registry) : bool :=
  match rg_runners r !! id with
  | None => false
  | Some e => negb (bool_decide (identity = zeroID)) && bool_decide (re_Identity e = identity) &&
              bool_decide (holder r identity = id)
  end.

Definition NoteTaskActivity (ts : Z) (id : ConnectionID) (r : Registry) : Registry * bool :=
  (on_runner id (λ e, e{{ re_LastTaskActivity := ts }}) r, bool_decide (is_Some (rg_runners r !! id))).

Definition BindTask (now : Z) (id : ConnectionID) (taskID : string) (r : Registry) : Registry * bool :=
  match rg_runners r !! id with
  | None => (r, false)
  | Some e =>
      if (re_MaxTasks e <=? load e)%nat then (r, false)
      else (put_runner id (e{{ re_ActiveTasks := {[taskID]} ∪ re_ActiveTasks e; re_LastTaskActivity := now }}) r, true)
  end.

Definition UnbindTask (now : Z) (id : ConnectionID) (taskID : string) (r : Registry) : Registry :=
  on_runner id (λ e, e{{ re_ActiveTasks := re_ActiveTasks e ∖ {[taskID]}; re_LastTaskActivity := now }}) r.

Definition Registry_List (r : Registry) : list RunnerEntry := (map_to_list (rg_runners r)).*2.

(** ** Candidates *)

Definition bestRootScore (roots : list string) (repo : string) : nat :=
  foldl (λ best root, if (best <? MatchLen root repo)%nat then MatchLen root repo else best) 0%nat roots.

Section candidates.
(** [ConnectionID.String]. *)
Variable (conn_string : ConnectionID → string).

Definition cand_le (x y : RunnerEntry) : Prop :=
  (re_ConnectedAt x < re_ConnectedAt y)%Z ∨
  re_ConnectedAt x = re_ConnectedAt y ∧ String.le (conn_string (re_ID x)) (conn_string (re_ID y)).
#[export] Instance cand_le_dec : RelDecision cand_le.
Proof. intros x y. unfold cand_le. apply _. Defined.

Definition Candidates (repo : string) (sel : RunnerSelector) (r : Registry) : list RunnerEntry :=
  let score e := bestRootScore (re_AllowedRoots e) repo in
  let matches := filter (λ e, selects r sel e = true ∧ score e ≠ 0%nat) (Registry_List r) in
  let maxScore := foldl (λ m e, if (m <? score e)%nat then score e else m) 0%nat matches in
  merge_sort cand_le (filter (λ e, score e = maxScore) matches).
End candidates.

(** ** The registry over time *)

Inductive registry_op :=
  | RAdd (e : RunnerEntry)
  | RSetLink (id : ConnectionID) (link record : N)
  | RRemove (id : ConnectionID)
  | RNote (ts : Z) (id : ConnectionID)
  | RBind (now : Z) (id : ConnectionID) (task : string)
  | RUnbind (now : Z) (id : ConnectionID) (task : string).

Definition registry_step (r : Registry) (o : registry_op) : Registry :=
  match o with
  | RAdd e => (Add e r).1
  | RSetLink id link record => SetLink id link record r
  | RRemove id => Registry_Remove id r
  | RNote ts id => (NoteTaskActivity ts id r).1
  | RBind now id task => (BindTask now id task r).1
  | RUnbind now id task => UnbindTask now id task r
  end.

(** A connection has an id and keeps the identity it said hello with, and a new
    entry fits its own limit. *)
Definition registry_op_ok (r : Registry) (o : registry_op) : Prop :=
  match o with
  | RAdd e => re_ID e ≠ zeroConn ∧ (load e ≤ re_MaxTasks e)%nat ∧ ∀ e', rg_runners r !! re_ID e = Some e' → re_Identity e' = re_Identity e
  | _ => True
  end.

Record registry_ok (r : Registry) : Prop := {
  rok_key c e : rg_runners r !! c = Some e → re_ID e = c;
  rok_cap c e : rg_runners r !! c = Some e → (load e ≤ re_MaxTasks e)%nat;
  rok_holder i c : rg_byIdentity r !! i = Some c → i ≠ zeroID ∧ ∃ e, rg_runners r !! c = Some e ∧ re_Identity e = i;
  rok_nonzero : rg_runners r !! zeroConn = None;
}.

Inductive registry_reach : Registry → Prop :=
  | registry_new : registry_reach NewRegistry
  | registry_next r o : registry_reach r → registry_op_ok r o → registry_reach (registry_step r o).

(** ** Every operation keeps the invariant *)

Section laws.
Implicit Types (r : Registry) (e : RunnerEntry) (c : ConnectionID).

Lemma on_runner_ok c f r :
  (∀ e, rg_runners r !! c = Some e → re_ID (f e) = re_ID e ∧ re_Identity (f e) = re_Identity e ∧
     ((load e ≤ re_MaxTasks e)%nat → (load (f e) ≤ re_MaxTasks (f e))%nat)) →
  registry_ok r → registry_ok (on_runner c f r).
Proof.
  intros Hf Hr. unfold on_runner. destruct (rg_runners r !! c) as [e|] eqn:E; [|done].
  destruct (Hf e eq_refl) as (F1 & F2 & F3). destruct Hr as [H1 H2 H3 H4].
  assert (∀ c' e', rg_runners (put_runner c (f e) r) !! c' = Some e' → c' = c ∧ e' = f e ∨ rg_runners r !! c' = Some e') as Hl.
  { intros c' e' El. change (<[c := f e]> (rg_runners r) !! c' = Some e') in El.
    apply lookup_insert_Some in El as [[<- <-]|[_ El]]; auto. }
  split.
  - intros c' e' [[-> ->]|El]%Hl; [rewrite F1; by apply H1|by apply H1].
  - intros c' e' [[-> ->]|El]%Hl; [by apply F3, (H2 c)|by apply (H2 c')].
  - intros i c' Hi. destruct (H3 i c' Hi) as (Hz & e' & He' & Ei). split; [done|].
    change (rg_runners (put_runner c (f e) r)) with (<[c := f e]> (rg_runners r)).
    destruct (decide (c' = c)) as [->|Hne]; [|exists e'; by rewrite lookup_insert_ne].
    exists (f e). rewrite lookup_insert_eq. split; [done|]. rewrite F2. congruence.
  - change (<[c := f e]> (rg_runners r) !! zeroConn = None). rewrite lookup_insert_ne; [done|]. intros ->. congruence.
Qed.

Lemma BindTask_on_runner now c task r :
  (BindTask now c task r).1 = r ∨
  (BindTask now c task r).1 =
    on_runner c (λ e, e{{ re_ActiveTasks := {[task]} ∪ re_ActiveTasks e; re_LastTaskActivity := now }}) r ∧
  ∃ e, rg_runners r !! c = Some e ∧ (load e < re_MaxTasks e)%nat.
Proof.
  unfold BindTask, on_runner. destruct (rg_runners r !! c) as [e|] eqn:E; [|by left].
  destruct (Nat.leb_spec (re_MaxTasks e) (load e)); [by left|right]. split; [done|eauto].
Qed.

Lemma Add_ok e r :
  registry_ok r → re_ID e ≠ zeroConn → (load e ≤ re_MaxTasks e)%nat → (∀ e', rg_runners r !! re_ID e = Some e' → re_Identity e' = re_Identity e) →
  registry_ok (Add e r).1.
Proof.
  intros Hr Hnz Hcap Hid. pose proof Hr as [H1 H2 H3 H4]. unfold Add. destruct (_ && held_by_other_key e r); [done|]. cbn [fst].
  set (r1 := put_runner (re_ID e) e r).
  assert (∀ c' e', rg_runners r1 !! c' = Some e' → c' = re_ID e ∧ e' = e ∨ rg_runners r !! c' = Some e') as Hl.
  { intros c' e' El. change (<[re_ID e := e]> (rg_runners r) !! c' = Some e') in El.
    apply lookup_insert_Some in El as [[<- <-]|[_ El]]; auto. }
  assert (∀ i c', rg_byIdentity r !! i = Some c' → i ≠ zeroID ∧ ∃ e', rg_runners r1 !! c' = Some e' ∧ re_Identity e' = i) as H3'.
  { intros i c' Hi. destruct (H3 i c' Hi) as (Hz & e' & He' & Ei). split; [done|].
    change (rg_runners r1) with (<[re_ID e := e]> (rg_runners r)).
    destruct (decide (c' = re_ID e)) as [->|Hne]; [|exists e'; by rewrite lookup_insert_ne].
    exists e. rewrite lookup_insert_eq. split; [done|]. rewrite <-(Hid e' He'). done. }
  assert (rg_runners r1 !! zeroConn = None) as H4'.
  { change (<[re_ID e := e]> (rg_runners r) !! zeroConn = None). by rewrite lookup_insert_ne. }
  destruct (bool_decide_reflect (re_Identity e = zeroID)) as [Hz|Hz]; cbn [negb].
  - split; [intros c' e' [[-> ->]|El]%Hl; [done|by apply H1]|intros c' e' [[-> ->]|El]%Hl; [done|by apply (H2 c')]|exact H3'|exact H4'].
  - split; [intros c' e' [[-> ->]|El]%Hl; [done|by apply H1]|intros c' e' [[-> ->]|El]%Hl; [done|by apply (H2 c')]| |exact H4'].
    intros i c' Hi. change (<[re_Identity e := re_ID e]> (rg_byIdentity r) !! i = Some c') in Hi.
    apply lookup_insert_Some in Hi as [[<- <-]|[_ Hi]]; [|by apply H3']. split; [done|]. exists e. split; [|done].
    apply lookup_insert_eq.
Qed.

Lemma Remove_cases c r e :
  c ≠ zeroConn → rg_runners r !! c = Some e →
  rg_runners (Registry_Remove c r) = delete c (rg_runners r) ∧
  (rg_byIdentity (Registry_Remove c r) = rg_byIdentity r ∧ ¬ (re_Identity e ≠ zeroID ∧ rg_byIdentity r !! re_Identity e = Some c) ∨
   rg_byIdentity (Registry_Remove c r) = delete (re_Identity e) (rg_byIdentity r) ∧ rg_byIdentity r !! re_Identity e = Some c).
Proof.
  intros Hc E. unfold Registry_Remove. rewrite E.
  case_bool_decide as Hz; cbn [negb andb]; [split; [done|]; left; split; [done|]; tauto|].
  unfold holder. change (rg_byIdentity (r{{ rg_runners := delete c (rg_runners r) }})) with (rg_byIdentity r).
  case_bool_decide as Hh; (split; [done|]).
  - right. split; [done|]. destruct (rg_byIdentity r !! re_Identity e); [cbn in Hh; by subst|cbn in Hh; congruence].
  - left. split; [done|]. intros [_ Hb]. apply Hh. by rewrite Hb.
Qed.

Lemma Remove_ok c r : registry_ok r → registry_ok (Registry_Remove c r).
Proof.
  intros Hr. pose proof Hr as [H1 H2 H3 H4]. destruct (rg_runners r !! c) as [e|] eqn:E; cycle 1.
  { unfold Registry_Remove. by rewrite E. }
  destruct (Remove_cases c r e ltac:(congruence) E) as [El Hb].
  assert (∀ c' e', rg_runners (Registry_Remove c r) !! c' = Some e' → rg_runners r !! c' = Some e') as Hl.
  { intros c' e'. rewrite El. by intros [_ ?]%lookup_delete_Some. }
  split; [intros c' e' Hc%Hl; by apply H1|intros c' e' Hc%Hl; by apply (H2 c')| |rewrite El; apply lookup_delete_None; by right].
  intros i c' Hi.
  assert (rg_byIdentity r !! i = Some c' ∧ c' ≠ c) as [Hi' Hne].
  { destruct Hb as [[Eb Hno]|[Eb _]]; rewrite Eb in Hi.
    - split; [done|]. intros ->. destruct (H3 i c Hi) as (Hz & e' & He' & <-). rewrite E in He'. apply (inj Some) in He' as <-. by apply Hno.
    - apply lookup_delete_Some in Hi as [Hne Hi]. split; [done|]. intros ->. destruct (H3 i c Hi) as (_ & e' & He' & <-).
      rewrite E in He'. apply (inj Some) in He' as <-. done. }
  destruct (H3 i c' Hi') as (Hz & e' & He' & Ei). split; [done|]. exists e'. split; [|done]. by rewrite El, lookup_delete_ne.
Qed.

Lemma registry_step_ok r o : registry_ok r → registry_op_ok r o → registry_ok (registry_step r o).
Proof.
  intros Hr Ho. destruct o as [e|id link record|id|ts id|now id task|now id task]; cbn [registry_step registry_op_ok] in *.
  - destruct Ho as (? & ? & ?). by apply Add_ok.
  - by apply on_runner_ok.
  - by apply Remove_ok.
  - by apply on_runner_ok.
  - destruct (BindTask_on_runner now id task r) as [->|[-> (e & E & Hlt)]]; [done|]. apply on_runner_ok; [|done].
    intros e' E'. rewrite E in E'. apply (inj Some) in E' as <-. split_and!; [done|done|]. intros _.
    change (size ({[task]} ∪ re_ActiveTasks e) ≤ re_MaxTasks e)%nat. unfold load in Hlt.
    pose proof (size_union_alt ({[task]} : gset string) (re_ActiveTasks e)) as Hs. rewrite size_singleton in Hs.
    pose proof (subseteq_size (re_ActiveTasks e ∖ {[task]}) (re_ActiveTasks e) ltac:(set_solver)). lia.
  - apply on_runner_ok; [|done]. intros e _. split_and!; [done|done|]. intros Hc. etrans; [|exact Hc].
    change (size (re_ActiveTasks e ∖ {[task]}) ≤ size (re_ActiveTasks e))%nat. apply (subseteq_size (C := gset string)). set_solver.
Qed.

Lemma registry_reach_ok r : registry_reach r → registry_ok r.
Proof. induction 1 as [|r o _ IH Ho]; [split; try done; intros ? ?; by rewrite ?lookup_empty|by apply registry_step_ok]. Qed.

(** C31. However runners come, go, reconnect and are given work, no runner holds more
    tasks than its limit, an identity is held by one registered connection that
    said hello with it, and only that connection may report on the runner's tasks:
    of two connections of one runner at most one owns a task. *)
Theorem registry_invariant r :
  registry_reach r →
  (∀ c e, rg_runners r !! c = Some e → (size (re_ActiveTasks e) ≤ re_MaxTasks e)%nat) ∧
  (∀ i e, GetByIdentity i r = Some e → re_Identity e = i ∧ isCurrentRunner (re_ID e) i r = true) ∧
  (∀ c task, ownsTask c task r = true → ∃ e, GetByIdentity (re_Identity e) r = Some e ∧ re_ID e = c ∧ task ∈ re_ActiveTasks e) ∧
  (∀ c1 c2 e1 e2 t1 t2, rg_runners r !! c1 = Some e1 → rg_runners r !! c2 = Some e2 → re_Identity e1 = re_Identity e2 →
     ownsTask c1 t1 r = true → ownsTask c2 t2 r = true → c1 = c2).
Proof.
  intros Hr%registry_reach_ok. pose proof Hr as [H1 H2 H3 H4].
  assert (∀ c task, ownsTask c task r = true → ∃ e, rg_runners r !! c = Some e ∧ re_Identity e ≠ zeroID ∧
    rg_byIdentity r !! re_Identity e = Some c ∧ task ∈ re_ActiveTasks e) as Hown.
  { intros c task. unfold ownsTask. destruct (rg_runners r !! c) as [e|] eqn:E; [|done].
    case_bool_decide as Hz; [done|]. case_bool_decide as Hh; [|done]. cbn. intros Ht%bool_decide_eq_true. exists e.
    split_and!; try done. unfold holder in Hh. destruct (rg_byIdentity r !! re_Identity e) as [c'|] eqn:Ec; [by cbn in Hh; subst|].
    cbn in Hh. subst c. congruence. }
  assert (∀ i e, GetByIdentity i r = Some e → i ≠ zeroID ∧ rg_byIdentity r !! i = Some (re_ID e) ∧ rg_runners r !! re_ID e = Some e ∧ re_Identity e = i) as Hget.
  { intros i e. unfold GetByIdentity, GetLiveByIdentity. case_bool_decide as Hz; [done|]. intros (c & Hc & He)%bind_Some.
    pose proof (H1 _ _ He) as <-. destruct (H3 _ _ Hc) as (_ & e' & He' & Ei). rewrite He in He'. apply (inj Some) in He' as <-. done. }
  split_and!.
  - exact H2.
  - intros i e (Hz & Hc & He & Ei)%Hget. split; [done|]. unfold isCurrentRunner. rewrite He.
    rewrite (bool_decide_eq_false_2 _ Hz), (bool_decide_eq_true_2 _ Ei). apply bool_decide_eq_true_2. unfold holder. by rewrite Hc.
  - intros c task (e & He & Hz & Hb & Ht)%Hown. exists e. split_and!; [|by apply H1|done].
    unfold GetByIdentity, GetLiveByIdentity. rewrite bool_decide_eq_false_2 by done. by rewrite Hb.
  - intros c1 c2 e1 e2 t1 t2 E1 E2 Ei (x1 & X1 & _ & B1 & _)%Hown (x2 & X2 & _ & B2 & _)%Hown. congruence.
Qed.

(** An identity does not change hands without its key: while the connection that
    holds it is registered, the only step that gives it to another connection is
    that connection's hello with the same key; a step that ends the holding is the
    holder's own removal.  So the late teardown of a displaced connection does not
    take the identity from its successor. *)
Theorem identity_takeover_needs_key r o i c e k :
  registry_reach r → registry_op_ok r o →
  rg_byIdentity r !! i = Some c → rg_runners r !! c = Some e → re_Key e = Some k →
  let r' := registry_step r o in
  rg_byIdentity r' !! i = Some c ∨
  (∃ e', o = RAdd e' ∧ re_Identity e' = i ∧ default [] (re_Key e') = k ∧ rg_byIdentity r' !! i = Some (re_ID e')) ∨
  (o = RRemove c ∧ rg_byIdentity r' !! i = None).
Proof.
  intros Hr%registry_reach_ok Ho Hi He Hk r'. subst r'. pose proof Hr as [H1 H2 H3 H4].
  assert (∀ c' f, rg_byIdentity (on_runner c' f r) = rg_byIdentity r) as Hon
    by (intros c' f; unfold on_runner; by destruct (rg_runners r !! c')).
  destruct o as [e'|id link record|id|ts id|now id task|now id task]; cbn [registry_step].
  - unfold Add. destruct (bool_decide_reflect (re_Identity e' = zeroID)) as [Hz|Hz]; cbn [negb andb fst]; [by left|].
    destruct (held_by_other_key e' r) eqn:Eh; cbn [fst]; [by left|].
    set (r1 := reg_call _ _). assert (rg_byIdentity r1 = <[re_Identity e' := re_ID e']> (rg_byIdentity r)) as Eb by done.
    rewrite Eb. destruct (decide (re_Identity e' = i)) as [Ei|Hne]; [|left; by rewrite lookup_insert_ne].
    rewrite Ei, lookup_insert_eq. unfold held_by_other_key in Eh. rewrite Ei, Hi in Eh.
    case_bool_decide as Hc; [left; by rewrite Hc|]. rewrite He, Hk in Eh. apply negb_false_iff, bool_decide_eq_true in Eh.
    right. left. exists e'. split_and!; [done|done|by rewrite Eh|done].
  - left. unfold SetLink. by rewrite Hon.
  - destruct (rg_runners r !! id) as [x|] eqn:E; [|left; unfold Registry_Remove; by rewrite E].
    destruct (Remove_cases id r x ltac:(congruence) E) as [_ [[-> _]|[-> Hb]]]; [by left|].
    destruct (decide (id = c)) as [->|Hne].
    + right. right. split; [done|]. destruct (H3 i c Hi) as (_ & e0 & He0 & Ei). rewrite E in He0. apply (inj Some) in He0 as <-.
      rewrite Ei. apply lookup_delete_eq.
    + left. destruct (decide (re_Identity x = i)) as [Ex|Hx]; [|by rewrite lookup_delete_ne].
      congruence.
  - left. cbn. by rewrite Hon.
  - left. destruct (BindTask_on_runner now id task r) as [->|[-> _]]; [done|]. by rewrite Hon.
  - left. unfold UnbindTask. by rewrite Hon.
Qed.

Lemma max_fold_spec {A} (f : A → nat) (l : list A) m :
  let n := foldl (λ m x, if (m <? f x)%nat then f x else m) m l in
  (m ≤ n)%nat ∧ Forall (λ x, f x ≤ n)%nat l ∧ (n = m ∨ ∃ x, x ∈ l ∧ n = f x).
Proof.
  revert m. induction l as [|x l IH]; intros m; cbn [foldl]; [by auto|].
  set (m' := if (m <? f x)%nat then f x else m). destruct (IH m') as (I1 & I2 & I3).
  assert (m ≤ m' ∧ f x ≤ m')%nat as [] by (subst m'; destruct (Nat.ltb_spec m (f x)); lia).
  split_and!; [lia|constructor; [lia|done]|].
  destruct I3 as [E|(y & Hy & E)]; [|right; exists y; set_solver].
  rewrite E. subst m'. destruct (Nat.ltb_spec m (f x)); [right; exists x; set_solver|by left].
Qed.

Lemma bestRootScore_spec roots repo :
  (∀ root, root ∈ roots → (MatchLen root repo ≤ bestRootScore roots repo)%nat) ∧
  (bestRootScore roots repo ≠ 0%nat → ∃ root, root ∈ roots ∧ MatchLen root repo = bestRootScore roots repo).
Proof.
  unfold bestRootScore. destruct (max_fold_spec (λ root, MatchLen root repo) roots 0) as (_ & H2 & H3). split.
  - intros root Hr. rewrite Forall_forall in H2. by apply H2.
  - intros Hne. destruct H3 as [|(x & Hx & E)]; [done|]. by exists x.
Qed.

Lemma elem_of_Registry_List r e : registry_ok r → e ∈ Registry_List r ↔ rg_runners r !! re_ID e = Some e.
Proof.
  intros [H1 _ _ _]. unfold Registry_List. rewrite list_elem_of_fmap. split.
  - intros ((c & e') & -> & Hin%elem_of_map_to_list). cbn. by rewrite (H1 _ _ Hin).
  - intros He. exists (re_ID e, e). split; [done|]. by apply elem_of_map_to_list.
Qed.

Lemma Registry_List_NoDup r : registry_ok r → NoDup (Registry_List r).
Proof.
  intros [H1 _ _ _]. unfold Registry_List. apply NoDup_fmap_2_strong; [|apply NoDup_map_to_list].
  intros [c1 e1] [c2 e2] E1%elem_of_map_to_list E2%elem_of_map_to_list. cbn. intros <-.
  by rewrite <-(H1 _ _ E1), <-(H1 _ _ E2).
Qed.

Section candidates_laws.
Variable (conn_string : ConnectionID → string).

#[local] Instance cand_le_total : Total (cand_le conn_string).
Proof.
  intros x y. unfold cand_le. destruct (Ztrichotomy_inf (re_ConnectedAt x) (re_ConnectedAt y)) as [[H|H]|H]; [by auto| |by right; left; lia].
  rewrite H. destruct (total String.le (conn_string (re_ID x)) (conn_string (re_ID y))); auto.
Qed.
#[local] Instance cand_le_trans : Transitive (cand_le conn_string).
Proof.
  intros x y z [H1|[H1 H1']] [H2|[H2 H2']]; unfold cand_le; [left; lia..|]. right. split; [lia|by etrans].
Qed.

(** The runners offered for a repository are exactly the registered ones that the
    selector picks, that have a root over the repository, and that no other picked
    runner beats with a deeper root; each comes once, the longest connected first.
    No root over the repository on any picked runner means none. *)
Theorem Candidates_spec repo sel r :
  registry_reach r →
  let picked e := rg_runners r !! re_ID e = Some e ∧ selects r sel e = true in
  let out := Candidates conn_string repo sel r in
  (∀ e, e ∈ out ↔ picked e ∧ (∃ root, root ∈ re_AllowedRoots e ∧ IsUnderRoot root repo = true ∧
     ∀ e' root', picked e' → root' ∈ re_AllowedRoots e' → (MatchLen root' repo ≤ MatchLen root repo)%nat)) ∧
  NoDup out ∧ StronglySorted (cand_le conn_string) out ∧
  (out = [] ↔ ∀ e root, picked e → root ∈ re_AllowedRoots e → IsUnderRoot root repo = false).
Proof.
  intros Hr%registry_reach_ok picked out.
  set (score e := bestRootScore (re_AllowedRoots e) repo).
  set (matches := filter (λ e, selects r sel e = true ∧ score e ≠ 0%nat) (Registry_List r)).
  set (top := foldl (λ m e, if (m <? score e)%nat then score e else m) 0%nat matches).
  assert (out = merge_sort (cand_le conn_string) (filter (λ e, score e = top) matches)) as Eout by done.
  assert (∀ e, e ∈ matches ↔ picked e ∧ score e ≠ 0%nat) as Hm.
  { intros e. unfold matches. rewrite list_elem_of_filter, elem_of_Registry_List by done. unfold picked. tauto. }
  assert (∀ e, e ∈ out ↔ (picked e ∧ score e ≠ 0%nat) ∧ score e = top) as Hout.
  { intros e. rewrite Eout, (merge_sort_Permutation (cand_le conn_string)), list_elem_of_filter, Hm. tauto. }
  destruct (max_fold_spec score matches 0) as (_ & Hle & Htop). rewrite Forall_forall in Hle. fold top in Hle, Htop.
  assert (∀ e root, root ∈ re_AllowedRoots e → (MatchLen root repo ≤ score e)%nat) as Hs1
    by (intros e root; apply bestRootScore_spec).
  assert (∀ e, score e ≠ 0%nat → ∃ root, root ∈ re_AllowedRoots e ∧ MatchLen root repo = score e) as Hs2
    by (intros e; apply bestRootScore_spec).
  assert (∀ e root, picked e → root ∈ re_AllowedRoots e → IsUnderRoot root repo = true → ∃ x, x ∈ out) as Hex.
  { intros e root Hp Hin Hu%Nat.ltb_lt. pose proof (Hs1 e root Hin). assert (e ∈ matches) as He by (apply Hm; split; [done|lia]).
    pose proof (Hle e He). destruct Htop as [Ht|(x & Hx & Ht)]; [lia|]. exists x. rewrite Hout, <-Hm. done. }
  assert (∀ e, e ∈ out ↔ picked e ∧ (∃ root, root ∈ re_AllowedRoots e ∧ IsUnderRoot root repo = true ∧
     ∀ e' root', picked e' → root' ∈ re_AllowedRoots e' → (MatchLen root' repo ≤ MatchLen root repo)%nat)) as Hspec.
  { intros e. rewrite Hout. split.
    - intros [[Hp Hne] Et]. split; [done|]. destruct (Hs2 e Hne) as (root & Hin & Em). exists root.
      split_and!; [done|apply Nat.ltb_lt; lia|]. intros e' root' Hp' Hin'. pose proof (Hs1 e' root' Hin'). rewrite Em, Et.
      destruct (decide (score e' = 0%nat)); [lia|]. pose proof (Hle e' ltac:(by apply Hm)). lia.
    - intros [Hp (root & Hin & Hu%Nat.ltb_lt & Hmax)]. pose proof (Hs1 e root Hin). split; [split; [done|lia]|].
      pose proof (Hle e ltac:(apply Hm; split; [done|lia])). destruct Htop as [Ht|(x & Hx & Ht)]; [lia|].
      apply Hm in Hx as [Hpx Hnx]. destruct (Hs2 x Hnx) as (root' & Hin' & Em'). pose proof (Hmax x root' Hpx Hin'). lia. }
  split_and!; [exact Hspec| |rewrite Eout; by apply StronglySorted_merge_sort; apply _|].
  - rewrite Eout, (merge_sort_Permutation (cand_le conn_string)). by apply NoDup_filter, NoDup_filter, Registry_List_NoDup.
  - split.
    + intros E e root Hp Hin. destruct (IsUnderRoot root repo) eqn:Hu; [|done].
      destruct (Hex e root Hp Hin Hu) as [x Hx]. rewrite E in Hx. by apply not_elem_of_nil in Hx.
    + intros Hnone. destruct out as [|x l]; [done|]. destruct (proj1 (Hspec x) ltac:(left)) as [Hp (root & Hin & Hu & _)].
      by rewrite (Hnone x root Hp Hin) in Hu.
Qed.
End candidates_laws.
End laws.

(** ** Witnesses *)

Definition id_w : list N := 1 :: replicate 15 0.
Definition conn_w (n : N) : ConnectionID := ("udp"%string, [127; 0; 0; 1], 9000, n).
Definition runner_w (n : N) : RunnerEntry :=
  mkRunnerEntry (conn_w n) id_w "h1" "linux" ["/srv"%string; "/srv/repo"%string] 1 "claude" [] true (Some [7; 7]) ∅
    (Z.of_N n) 0 true 0 0 zeroID.
Definition ops_w : list registry_op := [RAdd (runner_w 1); RBind 5 (conn_w 1) "t1"; RAdd (runner_w 2); RBind 6 (conn_w 2) "t1"].
Definition reg_w : Registry := foldl registry_step NewRegistry ops_w.

Lemma reg_reach_w : registry_reach reg_w.
Proof.
  unfold reg_w, ops_w. cbn [foldl]. apply registry_next; [|done].
  apply registry_next; [apply registry_next; [apply registry_next; [apply registry_new|]|done]|].
  all: repeat split; [vm_compute; discriminate|vm_compute; lia|].
  all: intros e'; vm_compute; discriminate.
Qed.

Lemma registry_invariant_witness :
  rg_runners reg_w !! conn_w 1 ≠ None ∧ ownsTask (conn_w 2) "t1" reg_w = true ∧ ownsTask (conn_w 1) "t1" reg_w = false ∧
  ∃ e, GetByIdentity (re_Identity e) reg_w = Some e ∧ re_ID e = conn_w 2 ∧ "t1"%string ∈ re_ActiveTasks e.
Proof.
  split; [vm_compute; discriminate|]. split; [by vm_compute|]. split; [by vm_compute|].
  apply (registry_invariant reg_w reg_reach_w). by vm_compute.
Defined.

(** The first connection's late teardown, after the second took the identity over. *)
Lemma identity_takeover_needs_key_witness :
  rg_byIdentity (registry_step reg_w (RRemove (conn_w 1))) !! id_w = Some (conn_w 2).
Proof.
  edestruct (identity_takeover_needs_key reg_w (RRemove (conn_w 1)) id_w (conn_w 2)) as [H|[(e' & H & _)|[H _]]];
    [exact reg_reach_w|done|by vm_compute|by vm_compute|by vm_compute|exact H|discriminate H|discriminate H].
Defined.

Lemma Candidates_spec_witness :
  Candidates (λ _, ""%string) "/srv/repo/x" (SelByRunnerId id_w) reg_w = [default (runner_w 2) (rg_runners reg_w !! conn_w 2)] ∧
  NoDup (Candidates (λ _, ""%string) "/srv/repo/x" SelAny reg_w).
Proof. split; [by vm_compute|]. apply (Candidates_spec (λ _, ""%string) "/srv/repo/x" SelAny reg_w reg_reach_w). Defined.
