(* ===== verification/Scheduler.v ===== *)
(** * Handing tasks to runners

    [server/scheduler.go], [TryDispatch] and [OnCancel] of [server/dispatch.go],
    [sendAssign] of [server/server.go], the register and revoke wrappers of
    [server/boardkey.go], and [expireHeldTasks] of [server/hold.go].  These join
    three components: the registry, the task store and the board, here the fields
    of [Server]; a message that left for a runner is an entry of [sv_sent].

    A pass holds the scheduler's lock; it is one function of the state, so a
    runner's answer is applied before or after it.  The order in which [List]
    returns the runners is an argument.  What is not the server's own comes from
    [send_env]: the clock, the ticket drawn ([None] when the read fails), whether
    the stream, the encoding and the writes succeed, and whether the message is
    sent.  [Conn] is read from the registry's entry. *)

From stdpp Require Import prelude gmap strings list.
From Stdlib Require Import NArith ZArith.
From coqutil Require Import Datatypes.RecordSetters.
From S2P Require Import Prelude GoStrings Scope Delegate Wire Wal TaskStore Replay Topic TaskState BoardReach Board Paths Registry.

Import DoubleBraceUpdate.
Open Scope N_scope.
Open Scope stdpp_scope.
Set Default Goal Selector "!".

Inductive sent :=
  | SentAssign (to : ConnectionID) (task : string) (ticket : list N)
  | SentOpenExec (to : ConnectionID) (task : string) (ticket : list N)
  | SentCancel (to : ConnectionID) (task : string).

Record Server := mkServer {
  sv_reg : Registry;
  sv_tasks : Store;
  sv_board : Board;
  sv_resending : gset string;
  sv_sent : list sent;
}.

Record send_env := mkSendEnv {
  se_bind : Z;
  se_unbind : Z;
  se_assign : Z;
  se_wal : Z;
  se_ticket : option (list N);
  se_body : bool;
  se_send : bool;
}.

(** ** [boardkey.go] *)

Definition boardRegisterTask (runner : list N) (taskIDHex : string) (ticket : list N) (agentProfile : string)
    (resumeConversation : bool) (b : Board) : Board :=
  if bool_decide (runner = zeroID) then b
  else
    let tid := taskIDFromHex taskIDHex in
    let b := if negb resumeConversation then ForgetShown tid b else b in
    RegisterTask runner tid ticket agentProfile b.

Definition boardRevokeTask (runner : list N) (taskIDHex : string) (b : Board) : Board :=
  Revoke runner (taskIDFromHex taskIDHex) b.

Definition identityOfConn (c : ConnectionID) (r : Registry) : list N :=
  match Registry_Get c r with Some e => re_Identity e | None => zeroID end.

(** ** Sending an assignment *)

Definition on_board (f : Board → Board) (sv : Server) : Server := sv{{ sv_board := f (sv_board sv) }}.
Definition on_reg (f : Registry → Registry) (sv : Server) : Server := sv{{ sv_reg := f (sv_reg sv) }}.
Definition on_tasks (f : Store → Store) (sv : Server) : Server := sv{{ sv_tasks := f (sv_tasks sv) }}.
Definition send_message (m : sent) (sv : Server) : Server := sv{{ sv_sent := sv_sent sv ++ [m] }}.

(** [false] for an error. *)
Definition sendAssign (env : send_env) (runnerID : ConnectionID) (taskID : string) (sv : Server) : Server * bool :=
  match Registry_Get runnerID (sv_reg sv) with
  | None => (sv, false)
  | Some entry =>
      if negb (re_Conn entry) then (sv, false)
      else
        match Get taskID (sv_tasks sv) with
        | None => (sv, false)
        | Some task =>
            match se_ticket env with
            | None => (sv, false)
            | Some ticket =>
                let sv := on_board (boardRegisterTask (re_Identity entry) taskID ticket (te_AgentProfile task)
                                      (te_ResumeConversation task)) sv in
                if negb (se_body env) then (sv, false)
                else if negb (se_send env) then (sv, false)
                else (send_message (SentAssign runnerID taskID ticket) sv, true)
            end
        end
  end.

(** ** A pass of the scheduler *)

Definition eligible (reg : Registry) (runner : RunnerEntry) (t : TaskEntry) : bool :=
  if negb (selects reg (te_Selector t) runner) then false
  else bool_decide (te_AgentProfile t = ""%string) || HasProfile (te_AgentProfile t) runner.

(** The loop over the runner's roots. *)
Fixpoint next_task (ok : TaskEntry → bool) (roots : list string) (s : Store) : option TaskEntry :=
  match roots with
  | [] => None
  | root :: roots =>
      match NextQueuedForRepoFunc root (Some ok) s with
      | Some t => Some t
      | None => next_task ok roots s
      end
  end.

Definition tick_runner (env : ConnectionID → send_env) (sv : Server) (runner : RunnerEntry) : Server :=
  if negb (bool_decide (RunnerEntry_Status runner = RunnerStatus_Idle)) then sv
  else
    match next_task (eligible (sv_reg sv) runner) (re_AllowedRoots runner) (sv_tasks sv) with
    | None => sv
    | Some task =>
        let en := env (re_ID runner) in
        let '(reg, bound) := BindTask (se_bind en) (re_ID runner) (te_ID task) (sv_reg sv) in
        if negb bound then sv
        else
          let '(sv, sent) := sendAssign en (re_ID runner) (te_ID task) (sv{{ sv_reg := reg }}) in
          if negb sent then on_reg (UnbindTask (se_unbind en) (re_ID runner) (te_ID task)) sv
          else on_tasks (Assign (se_assign en) (se_wal en) (te_ID task) (re_Identity runner) "" (re_SkillsInjected runner)) sv
    end.

(** [order] is what [List] returned. *)
Definition Tick (env : ConnectionID → send_env) (order : list RunnerEntry) (sv : Server) : Server :=
  foldl (tick_runner env) sv order.

(** ** [TryDispatch] *)

Section dispatch.
Variable (conn_string : ConnectionID → string).

(** The loop body: the state and whether the task was handed over. *)
Definition try_candidate (env : ConnectionID → send_env) (task : TaskEntry) (runner : RunnerEntry) (sv : Server)
    : Server * bool :=
  let en := env (re_ID runner) in
  let unbind := on_reg (UnbindTask (se_unbind en) (re_ID runner) (te_ID task)) in
  let revoke := on_board (boardRevokeTask (re_Identity runner) (te_ID task)) in
  if (re_MaxTasks runner <=? load runner)%nat then (sv, false)
  else if negb (re_Conn runner) then (sv, false)
  else
    let '(reg, bound) := BindTask (se_bind en) (re_ID runner) (te_ID task) (sv_reg sv) in
    if negb bound then (sv, false)
    else
      let sv := sv{{ sv_reg := reg }} in
      match se_ticket en with
      | None => (unbind sv, false)
      | Some ticket =>
          let sv := on_board (boardRegisterTask (re_Identity runner) (te_ID task) ticket (te_AgentProfile task)
                                (te_ResumeConversation task)) sv in
          if negb (se_body en) then (unbind (revoke sv), false)
          else if negb (se_send en) then (unbind (revoke sv), false)
          else (on_tasks (Assign (se_assign en) (se_wal en) (te_ID task) (re_Identity runner) "" (re_SkillsInjected runner))
                  (send_message (SentAssign (re_ID runner) (te_ID task) ticket) sv), true)
      end.

Fixpoint try_candidates (env : ConnectionID → send_env) (task : TaskEntry) (candidates : list RunnerEntry) (sv : Server)
    : Server * bool :=
  match candidates with
  | [] => (sv, false)
  | runner :: rest =>
      let '(sv, done_) := try_candidate env task runner sv in
      if done_ then (sv, true) else try_candidates env task rest sv
  end.

Definition TryDispatch (env : ConnectionID → send_env) (task : TaskEntry) (sv : Server) : Server * bool :=
  try_candidates env task (Candidates conn_string (te_RepoPath task) (te_Selector task) (sv_reg sv)) sv.
End dispatch.

(** ** Cancelling *)

(** [sendCancel]; the error of a failed send is only logged. *)
Definition sendCancel (ok : bool) (entry : RunnerEntry) (taskID : string) (sv : Server) : Server :=
  if ok then send_message (SentCancel (re_ID entry) taskID) sv else sv.

(** The state and whether a resend loop was started. *)
Definition OnCancel_run (ok : bool) (taskID : string) (sv : Server) : Server * bool :=
  match Get taskID (sv_tasks sv) with
  | None => (sv, false)
  | Some task =>
      if bool_decide (te_AssignedTo task = zeroID) then (sv, false)
      else
        let sv := on_board (boardRevokeTask (te_AssignedTo task) taskID) sv in
        match GetByIdentity (te_AssignedTo task) (sv_reg sv) with
        | None => (sv, false)
        | Some entry =>
            if negb (re_Conn entry) then (sv, false)
            else
              let sv := sendCancel ok entry taskID sv in
              if bool_decide (taskID ∈ sv_resending sv) then (sv, false)
              else (sv{{ sv_resending := {[taskID]} ∪ sv_resending sv }}, true)
        end
  end.

Definition defaultCancelResendDelays : list Z := [3; 6; 12; 24; 30; 30; 30; 30]%Z.

(** The loop's turn after one delay: [None] when it stops. *)
Definition resend_turn (ok : bool) (taskID : string) (sv : Server) : option Server :=
  match Get taskID (sv_tasks sv) with
  | Some task =>
      if negb (bool_decide (te_Status task = Cancelled)) then None
      else match GetByIdentity (te_AssignedTo task) (sv_reg sv) with
           | Some entry => if negb (re_Conn entry) then None else Some (sendCancel ok entry taskID sv)
           | None => None
           end
  | None => None
  end.

(** The loop's end, deferred: on a stop and after the last delay. *)
Definition resend_done (taskID : string) (sv : Server) : Server := sv{{ sv_resending := sv_resending sv ∖ {[taskID]} }}.

(** ** Held tasks *)

Definition expire_one (now : Z) (clock : string → Z * Z) (acc : Store * Z) (t : TaskEntry) : Store * Z :=
  let '(s, earliest) := acc in
  if negb (bool_decide (te_Status t = Held)) then (s, earliest)
  else if negb (te_HoldDeadline t =? 0)%Z && (te_HoldDeadline t <=? now)%Z then
    (FailHeld (clock (te_ID t)).1 (clock (te_ID t)).2 (te_ID t) "hold_expired" s, earliest)
  else if negb (te_HoldDeadline t =? 0)%Z && ((earliest =? 0)%Z || (te_HoldDeadline t <? earliest)%Z) then
    (s, te_HoldDeadline t)
  else (s, earliest).

(** [clock] gives the readings [FailHeld] takes for each task. *)
Definition expireHeldTasks (now : Z) (clock : string → Z * Z) (s : Store) : Store * Z :=
  foldl (expire_one now clock) (s, 0%Z) (List_ 0 s).

(** ** One runner's turn *)

Definition ids_ok (s : Store) : Prop := ∀ id e, st_tasks s !! id = Some e → te_ID e = id.

(** What a turn may do to a runner's entry: [A] are its tasks afterwards. *)
Definition with_tasks (A : gset string) (ts : Z) (e : RunnerEntry) : RunnerEntry :=
  e{{ re_ActiveTasks := A; re_LastTaskActivity := ts }}.

Section tick_laws.
Implicit Types (sv : Server) (r : Registry) (s : Store) (e : RunnerEntry) (t : TaskEntry) (c : ConnectionID).

Lemma with_tasks_active A ts e : re_ActiveTasks (with_tasks A ts e) = A.
Proof. done. Qed.

Lemma StoreOk_ids s : StoreOk s → ids_ok s.
Proof. intros Hs id e He. by eapply ok_ID, store_entries. Qed.

Lemma on_runner_lookup c f r c' :
  rg_runners (on_runner c f r) !! c' = (if decide (c' = c) then f else id) <$> rg_runners r !! c'.
Proof.
  unfold on_runner. destruct (rg_runners r !! c) as [e|] eqn:E.
  - change (<[c := f e]> (rg_runners r) !! c' = (if decide (c' = c) then f else id) <$> rg_runners r !! c').
    case_decide as Hc; [subst; by rewrite lookup_insert_eq, E|]. rewrite lookup_insert_ne by done. by rewrite option_fmap_id.
  - case_decide as Hc; [subst; by rewrite E|by rewrite option_fmap_id].
Qed.

Lemma on_runner_byIdentity c f r : rg_byIdentity (on_runner c f r) = rg_byIdentity r.
Proof. unfold on_runner. by destruct (rg_runners r !! c). Qed.

Lemma eligible_ext r r' e t : rg_byIdentity r' = rg_byIdentity r → eligible r' e t = eligible r e t.
Proof. intros E. unfold eligible, selects, holder. by rewrite E. Qed.

Lemma next_task_ext f g roots s : (∀ t, f t = g t) → next_task f roots s = next_task g roots s.
Proof.
  intros E. induction roots as [|root roots IH]; [done|]. cbn [next_task].
  assert (NextQueuedForRepoFunc root (Some f) s = NextQueuedForRepoFunc root (Some g) s) as ->
    by (apply find_first_ext; intros x _; by rewrite E).
  by destruct (NextQueuedForRepoFunc root (Some g) s).
Qed.

(** The tasks the store lists, [List_] without a limit. *)
Definition listed s : list TaskEntry := omap (λ id, st_tasks s !! id) (st_order s).

Lemma List_0_listed s : List_ 0 s = listed s.
Proof. done. Qed.

Lemma elem_of_listed s t : ids_ok s → t ∈ listed s → st_tasks s !! te_ID t = Some t.
Proof. intros Hs. unfold listed. rewrite list_elem_of_omap. intros (id & _ & Ht). by rewrite (Hs _ _ Ht). Qed.

Lemma next_task_Some f roots s t :
  next_task f roots s = Some t → t ∈ listed s ∧ te_RepoPath t ∈ roots ∧ te_Status t = Queued ∧ f t = true.
Proof.
  induction roots as [|root roots IH]; [done|]. cbn [next_task].
  destruct (NextQueuedForRepoFunc root (Some f) s) as [t'|] eqn:E.
  - intros [= <-]. apply find_first_Some in E as [Hin Hf]. apply andb_true_iff in Hf as [[H1 H2]%andb_true_iff Hf].
    apply bool_decide_eq_true in H1, H2. split_and!; [done|set_solver|done|done].
  - intros (H1 & H2 & H3 & H4)%IH. split_and!; [done|by right|done|done].
Qed.

Lemma next_task_None f roots s t :
  next_task f roots s = None → t ∈ listed s → te_RepoPath t ∈ roots → te_Status t = Queued → f t = false.
Proof.
  induction roots as [|root roots IH]; [by intros _ _ ?%not_elem_of_nil|]. cbn [next_task].
  destruct (NextQueuedForRepoFunc root (Some f) s) as [t'|] eqn:E; [done|]. intros Hn Hin Hr Hq.
  apply elem_of_cons in Hr as [Hr|Hr]; [|by apply IH]. pose proof (proj1 (find_first_None _ _) E t Hin) as Hf.
  cbn in Hf. by rewrite !bool_decide_eq_true_2 in Hf.
Qed.

Lemma Idle_inv e : RunnerEntry_Status e = RunnerStatus_Idle → re_Conn e = true ∧ (load e < re_MaxTasks e)%nat.
Proof. unfold RunnerEntry_Status. destruct (re_Conn e); [|done]. cbn. destruct (Nat.leb_spec (re_MaxTasks e) (load e)); [done|]. by split. Qed.

Lemma BindTask_some now c task r e :
  rg_runners r !! c = Some e → (load e < re_MaxTasks e)%nat →
  BindTask now c task r = (on_runner c (λ e, with_tasks ({[task]} ∪ re_ActiveTasks e) now e) r, true).
Proof. intros E Hlt. unfold BindTask, on_runner. rewrite E. destruct (Nat.leb_spec (re_MaxTasks e) (load e)); [lia|done]. Qed.

(** Between the reservations [A] and [A'] only tasks that are Queued lost theirs. *)
Definition released sv (A A' : gset string) : Prop :=
  ∀ x, x ∈ A → x ∈ A' ∨ te_Status <$> st_tasks (sv_tasks sv) !! x = Some Queued.

(** What a turn of the pass does: nothing but the roll-back of a failed send, or one
    task handed over. *)
Inductive turn env sv e : Server → Prop :=
  | turn_none sv' f :
      sv_reg sv' = on_runner (re_ID e) f (sv_reg sv) →
      (∀ x, ∃ A ts, f x = with_tasks A ts x ∧ A ⊆ re_ActiveTasks x ∧ released sv (re_ActiveTasks x) A) →
      sv_tasks sv' = sv_tasks sv → sv_sent sv' = sv_sent sv →
      (RunnerEntry_Status e = RunnerStatus_Idle →
       is_Some (se_ticket (env (re_ID e))) → se_body (env (re_ID e)) = true → se_send (env (re_ID e)) = true →
       next_task (eligible (sv_reg sv) e) (re_AllowedRoots e) (sv_tasks sv) = None) →
      turn env sv e sv'
  | turn_sent sv' t ticket now at_ tw :
      RunnerEntry_Status e = RunnerStatus_Idle →
      next_task (eligible (sv_reg sv) e) (re_AllowedRoots e) (sv_tasks sv) = Some t →
      sv_reg sv' = on_runner (re_ID e) (λ x, with_tasks ({[te_ID t]} ∪ re_ActiveTasks x) now x) (sv_reg sv) →
      sv_tasks sv' = Assign at_ tw (te_ID t) (re_Identity e) "" (re_SkillsInjected e) (sv_tasks sv) →
      sv_sent sv' = sv_sent sv ++ [SentAssign (re_ID e) (te_ID t) ticket] →
      turn env sv e sv'.

Lemma on_runner_id c r : on_runner c (λ e, with_tasks (re_ActiveTasks e) (re_LastTaskActivity e) e) r = r.
Proof.
  unfold on_runner. destruct (rg_runners r !! c) as [e|] eqn:E; [|done].
  assert (with_tasks (re_ActiveTasks e) (re_LastTaskActivity e) e = e) as -> by (by destruct e).
  unfold put_runner. rewrite insert_id by done. by destruct r.
Qed.

Lemma on_runner_compose c f g r : on_runner c f (on_runner c g r) = on_runner c (f ∘ g) r.
Proof.
  unfold on_runner at 2 3. destruct (rg_runners r !! c) as [e|] eqn:E; [|unfold on_runner; by rewrite E].
  unfold on_runner. change (rg_runners (put_runner c (g e) r)) with (<[c := g e]> (rg_runners r)). rewrite lookup_insert_eq.
  change (mkRegistry (<[c := f (g e)]> (<[c := g e]> (rg_runners r))) (rg_byIdentity r) (rg_calls r) = put_runner c (f (g e)) r).
  by rewrite insert_insert_eq.
Qed.

Lemma tick_runner_turn env sv e :
  rg_runners (sv_reg sv) !! re_ID e = Some e → ids_ok (sv_tasks sv) → turn env sv e (tick_runner env sv e).
Proof.
  intros He Hids.
  unfold tick_runner. case_bool_decide as Hidle; cbn [negb]; cycle 1.
  { eapply turn_none; [symmetry; apply on_runner_id|intros x; eexists _, _; split_and!; [done|done|intros y; by left]|done|done|done]. }
  destruct (next_task _ _ _) as [t|] eqn:En; cycle 1.
  { eapply turn_none; [symmetry; apply on_runner_id|intros x; eexists _, _; split_and!; [done|done|intros y; by left]|done|done|done]. }
  destruct (Idle_inv e Hidle) as [Hconn Hload]. rewrite (BindTask_some _ _ _ _ e) by done. cbn [negb].
  set (bind := λ x, with_tasks _ _ x). set (sv1 := sv{{ sv_reg := _ }}).
  destruct (next_task_Some _ _ _ _ En) as (Hin & _ & Hq & _). apply elem_of_listed in Hin; [|done].
  assert (Registry_Get (re_ID e) (sv_reg sv1) = Some (bind e)) as Hget.
  { change (rg_runners (on_runner (re_ID e) bind (sv_reg sv)) !! re_ID e = Some (bind e)).
    rewrite on_runner_lookup, decide_True by done. by rewrite He. }
  unfold sendAssign. rewrite Hget. change (re_Conn (bind e)) with (re_Conn e). rewrite Hconn. cbn [negb].
  change (Get (te_ID t) (sv_tasks sv1)) with (st_tasks (sv_tasks sv) !! te_ID t). rewrite Hin.
  assert (∀ sv2, sv_reg sv2 = on_runner (re_ID e) bind (sv_reg sv) → sv_tasks sv2 = sv_tasks sv → sv_sent sv2 = sv_sent sv →
    ¬ (is_Some (se_ticket (env (re_ID e))) ∧ se_body (env (re_ID e)) = true ∧ se_send (env (re_ID e)) = true) →
    turn env sv e (on_reg (UnbindTask (se_unbind (env (re_ID e))) (re_ID e) (te_ID t)) sv2)) as Hfail.
  { intros sv2 R2 T2 S2 Hno. eapply turn_none.
    - unfold on_reg. cbn. rewrite R2. unfold UnbindTask. apply on_runner_compose.
    - intros x. exists (({[te_ID t]} ∪ re_ActiveTasks x) ∖ {[te_ID t]}), (se_unbind (env (re_ID e))).
      split_and!; [done|set_solver|]. intros y Hy. destruct (decide (y = te_ID t)) as [->|]; [right|left; set_solver].
      rewrite Hin. by rewrite <-Hq.
    - done.
    - done.
    - tauto. }
  destruct (se_ticket (env (re_ID e))) as [ticket|] eqn:Et; cycle 1.
  { cbn [negb]. apply Hfail; [done..|]. intros [[? ?] _]. done. }
  destruct (se_body (env (re_ID e))) eqn:Eb; cbn [negb]; [|apply Hfail; [done..|]; naive_solver].
  destruct (se_send (env (re_ID e))) eqn:Es; cbn [negb]; [|apply Hfail; [done..|]; naive_solver].
  eapply turn_sent; done.
Qed.

(** ** The whole pass *)

(** A task handed over: the runner, the task as it was, the ticket. *)
Definition dispatch : Type := RunnerEntry * TaskEntry * list N.
Definition d_runner (d : dispatch) : RunnerEntry := d.1.1.
Definition d_task (d : dispatch) : TaskEntry := d.1.2.
Definition d_message (d : dispatch) : sent := SentAssign (re_ID (d_runner d)) (te_ID (d_task d)) d.2.
Implicit Types (d : dispatch) (ds : list dispatch).

(** The runner may be given the task, judged before the pass. *)
Definition fit sv e t : Prop :=
  RunnerEntry_Status e = RunnerStatus_Idle ∧ rg_runners (sv_reg sv) !! re_ID e = Some e ∧
  t ∈ List_ 0 (sv_tasks sv) ∧ te_Status t = Queued ∧ te_RepoPath t ∈ re_AllowedRoots e ∧
  selects (sv_reg sv) (te_Selector t) e = true ∧ (te_AgentProfile t = ""%string ∨ HasProfile (te_AgentProfile t) e = true).

Definition sends_work (env : ConnectionID → send_env) : Prop :=
  ∀ c, is_Some (se_ticket (env c)) ∧ se_body (env c) = true ∧ se_send (env c) = true.

Record pass_inv env sv0 (done_ : list RunnerEntry) ds sv : Prop := {
  pi_sent : sv_sent sv = sv_sent sv0 ++ (d_message <$> ds);
  pi_fit d : d ∈ ds → d_runner d ∈ done_ ∧ fit sv0 (d_runner d) (d_task d);
  pi_runners : NoDup ((re_ID ∘ d_runner) <$> ds);
  pi_tasks : NoDup ((te_ID ∘ d_task) <$> ds);
  pi_order : st_order (sv_tasks sv) = st_order (sv_tasks sv0);
  pi_ids : ids_ok (sv_tasks sv);
  pi_unsent id : id ∉ (te_ID ∘ d_task) <$> ds → st_tasks (sv_tasks sv) !! id = st_tasks (sv_tasks sv0) !! id;
  pi_running d : d ∈ ds → ∃ x, st_tasks (sv_tasks sv) !! te_ID (d_task d) = Some x ∧ te_Status x = Running ∧
    te_AssignedTo x = re_Identity (d_runner d);
  pi_holders : rg_byIdentity (sv_reg sv) = rg_byIdentity (sv_reg sv0);
  pi_reg c : c ∉ re_ID <$> done_ → rg_runners (sv_reg sv) !! c = rg_runners (sv_reg sv0) !! c;
  pi_bound c e' x : rg_runners (sv_reg sv) !! c = Some e' → x ∈ re_ActiveTasks e' →
    (∃ d, d ∈ ds ∧ re_ID (d_runner d) = c ∧ te_ID (d_task d) = x) ∨
    ∃ e, rg_runners (sv_reg sv0) !! c = Some e ∧ x ∈ re_ActiveTasks e;
  pi_kept c : match rg_runners (sv_reg sv0) !! c, rg_runners (sv_reg sv) !! c with
    | Some e, Some e' => e' = with_tasks (re_ActiveTasks e') (re_LastTaskActivity e') e ∧
        released sv0 (re_ActiveTasks e) (re_ActiveTasks e')
    | None, None => True
    | _, _ => False
    end;
  pi_holds d : d ∈ ds → ∃ e', rg_runners (sv_reg sv) !! re_ID (d_runner d) = Some e' ∧ te_ID (d_task d) ∈ re_ActiveTasks e';
  pi_full : sends_work env → ∀ e t, e ∈ done_ → e ∈ d_runner <$> ds ∨ ¬ (fit sv0 e t ∧ t ∈ listed (sv_tasks sv));
}.

Lemma eligible_fit r e t :
  eligible r e t = true ↔ selects r (te_Selector t) e = true ∧ (te_AgentProfile t = ""%string ∨ HasProfile (te_AgentProfile t) e = true).
Proof.
  unfold eligible. destruct (selects r (te_Selector t) e); cbn [negb]; [|naive_solver].
  rewrite orb_true_iff, bool_decide_eq_true. tauto.
Qed.

Lemma wal_write_order tw ev s : st_order (wal_write tw ev s) = st_order s.
Proof. unfold wal_write. by destruct (st_wal s). Qed.

Lemma call_keeps h s : st_order (call h s) = st_order s ∧ st_tasks (call h s) = st_tasks s.
Proof. done. Qed.

Lemma Assign_queued at_ tw id rid wt sk s t :
  st_tasks s !! id = Some t → te_Status t = Queued →
  st_order (Assign at_ tw id rid wt sk s) = st_order s ∧
  ∃ x, st_tasks (Assign at_ tw id rid wt sk s) = <[id := x]> (st_tasks s) ∧
    te_Status x = Running ∧ te_AssignedTo x = rid ∧ te_ID x = te_ID t.
Proof.
  intros Ht Hq. unfold Assign. rewrite Ht. rewrite (bool_decide_eq_false_2 (te_Status t = Detached)) by (by rewrite Hq). cbn [negb].
  split; [etrans; [apply call_keeps|]; etrans; [apply wal_write_order|done]|]. eexists. split; [etrans; [apply call_keeps|]; etrans; [apply wal_write_tasks|reflexivity]|].
  by split_and!.
Qed.

Lemma listed_mono s s' x id :
  st_order s' = st_order s → st_tasks s' = <[id := x]> (st_tasks s) →
  ∀ t, t ∈ listed s' → t = x ∨ t ∈ listed s.
Proof.
  intros Ho Ht t. unfold listed. rewrite !list_elem_of_omap, Ho, Ht. intros (i & Hi & Hl).
  apply lookup_insert_Some in Hl as [[_ <-]|[_ Hl]]; [by left|right; eauto].
Qed.

Lemma pass_start env sv : ids_ok (sv_tasks sv) → pass_inv env sv [] [] sv.
Proof.
  intros Hids. split; try done; try (by intros ? ?%not_elem_of_nil); [by rewrite app_nil_r|constructor|constructor| | |].
  - intros c e' x He Hx. right. eauto.
  - intros c. destruct (rg_runners _ !! c) as [e|]; [|done]. split; [by destruct e|intros y; by left].
  - by intros _ e t ?%not_elem_of_nil.
Qed.

(** A turn that hands nothing over. *)
Lemma pass_none env sv0 done_ ds sv sv' e f :
  pass_inv env sv0 done_ ds sv → re_ID e ∉ re_ID <$> done_ →
  sv_reg sv' = on_runner (re_ID e) f (sv_reg sv) →
  (∀ x, ∃ A ts, f x = with_tasks A ts x ∧ A ⊆ re_ActiveTasks x ∧ released sv (re_ActiveTasks x) A) →
  sv_tasks sv' = sv_tasks sv → sv_sent sv' = sv_sent sv →
  (sends_work env → ∀ t, ¬ (fit sv0 e t ∧ t ∈ listed (sv_tasks sv))) →
  pass_inv env sv0 (done_ ++ [e]) ds sv'.
Proof.
  intros [] Hnew Hreg Hf Ht Hs Hfull.
  split; rewrite ?Hs, ?Ht; try done.
  - intros d Hd. destruct (pi_fit0 d Hd). split; [set_solver|done].
  - by rewrite Hreg, on_runner_byIdentity.
  - intros c Hc. rewrite fmap_app in Hc. rewrite Hreg, on_runner_lookup, decide_False by set_solver.
    rewrite option_fmap_id. apply pi_reg0. set_solver.
  - intros c e' x. rewrite Hreg, on_runner_lookup. case_decide as Hc; [|rewrite option_fmap_id; by apply pi_bound0].
    intros (e0 & He0 & ->)%fmap_Some. destruct (Hf e0) as (A & ts & -> & HA & _). rewrite with_tasks_active. intros Hx. apply (pi_bound0 c e0); [done|set_solver].
  - intros c. specialize (pi_kept0 c). rewrite Hreg, on_runner_lookup. case_decide as Hc; [|by rewrite option_fmap_id].
    destruct (rg_runners (sv_reg sv0) !! c) as [e1|], (rg_runners (sv_reg sv) !! c) as [e2|]; try done. cbn [fmap option_fmap option_map].
    destruct (Hf e2) as (A & ts & -> & _ & HA), pi_kept0 as [K1 K2]. split; [exact (f_equal (with_tasks _ _) K1)|]. rewrite with_tasks_active.
    intros y Hy. destruct (K2 y Hy) as [Hy2|]; [|by right]. destruct (HA y Hy2) as [|Hq]; [by left|right].
    rewrite <-pi_unsent0; [done|]. intros (d & -> & Hd)%list_elem_of_fmap. destruct (pi_running0 d Hd) as (x & Hx & Hr & _).
    unfold compose in Hq. rewrite Hx in Hq. injection Hq as Hq. congruence.
  - intros d Hd. destruct (pi_holds0 d Hd) as (e' & He' & Hin). exists e'. split; [|done].
    rewrite Hreg, on_runner_lookup, decide_False; [by rewrite option_fmap_id|]. intros E.
    destruct (pi_fit0 d Hd) as [Hdone _]. apply Hnew. rewrite <-E. by apply list_elem_of_fmap_2.
  - intros Hw e' t [He|He%list_elem_of_singleton]%elem_of_app; [by apply pi_full0|subst e']. right. by apply Hfull.
Qed.

(** A turn that hands one task over. *)
Lemma pass_sent env sv0 done_ ds sv sv' e t ticket now at_ tw :
  pass_inv env sv0 done_ ds sv → re_ID e ∉ re_ID <$> done_ →
  fit sv0 e t → st_tasks (sv_tasks sv) !! te_ID t = Some t → rg_runners (sv_reg sv) !! re_ID e = Some e →
  sv_reg sv' = on_runner (re_ID e) (λ x, with_tasks ({[te_ID t]} ∪ re_ActiveTasks x) now x) (sv_reg sv) →
  sv_tasks sv' = Assign at_ tw (te_ID t) (re_Identity e) "" (re_SkillsInjected e) (sv_tasks sv) →
  sv_sent sv' = sv_sent sv ++ [SentAssign (re_ID e) (te_ID t) ticket] →
  pass_inv env sv0 (done_ ++ [e]) (ds ++ [(e, t, ticket)]) sv'.
Proof.
  intros [] Hnew Hfit Ht He Hreg Htasks Hs. pose proof Hfit as (_ & _ & _ & Hq & _).
  destruct (Assign_queued at_ tw (te_ID t) (re_Identity e) "" (re_SkillsInjected e) _ _ Ht Hq) as (Eo & x & Ex & X1 & X2 & X3).
  rewrite <-Htasks in Eo, Ex.
  assert (∀ d, d ∈ ds → te_ID (d_task d) ≠ te_ID t) as Hne.
  { intros d Hd E. destruct (pi_running0 d Hd) as (y & Hy & Hr & _). rewrite E, Ht in Hy. apply (inj Some) in Hy as <-. congruence. }
  assert (∀ d, d ∈ ds → re_ID (d_runner d) ≠ re_ID e) as Hne'.
  { intros d Hd E. destruct (pi_fit0 d Hd) as [Hdone _]. apply Hnew. rewrite <-E. by apply list_elem_of_fmap_2. }
  assert (∀ c, rg_runners (sv_reg sv') !! c =
    if decide (c = re_ID e) then Some (with_tasks ({[te_ID t]} ∪ re_ActiveTasks e) now e) else rg_runners (sv_reg sv) !! c) as Hlook.
  { intros c. rewrite Hreg, on_runner_lookup. case_decide; [subst; by rewrite He|by rewrite option_fmap_id]. }
  split.
  - by rewrite Hs, pi_sent0, fmap_app, <-app_assoc.
  - intros d [Hd| ->%list_elem_of_singleton]%elem_of_app; [|split; [set_solver|done]].
    destruct (pi_fit0 d Hd). split; [set_solver|done].
  - rewrite fmap_app. apply NoDup_app. split_and!; [done| |apply NoDup_singleton].
    intros c (d & Ec & Hd)%list_elem_of_fmap E%list_elem_of_singleton. apply (Hne' d Hd). by transitivity c.
  - rewrite fmap_app. apply NoDup_app. split_and!; [done| |apply NoDup_singleton].
    intros c (d & Ec & Hd)%list_elem_of_fmap E%list_elem_of_singleton. apply (Hne d Hd). by transitivity c.
  - by rewrite Eo.
  - intros id y. rewrite Ex. intros [[<- <-]|[_ Hy]]%lookup_insert_Some; [done|by apply pi_ids0].
  - intros id Hid. rewrite fmap_app in Hid. rewrite Ex, lookup_insert_ne by set_solver. apply pi_unsent0. set_solver.
  - intros d [Hd| ->%list_elem_of_singleton]%elem_of_app; rewrite Ex.
    + rewrite lookup_insert_ne by (intros E; by apply (Hne d)). by apply pi_running0.
    + exists x. by rewrite lookup_insert_eq.
  - by rewrite Hreg, on_runner_byIdentity.
  - intros c Hc. rewrite fmap_app in Hc. rewrite Hlook, decide_False by set_solver. apply pi_reg0. set_solver.
  - intros c e' y. rewrite Hlook. case_decide as Hc.
    + intros E; apply (inj Some) in E as <-. rewrite with_tasks_active. intros [->%elem_of_singleton|Hy]%elem_of_union.
      * left. exists (e, t, ticket). split_and!; [set_solver|done|done].
      * destruct (pi_bound0 c e y ltac:(by subst) Hy) as [(d & Hd & E)|Hr]; [left; exists d; set_solver|by right].
    + intros Hl Hy. destruct (pi_bound0 c e' y Hl Hy) as [(d & Hd & E)|Hr]; [left; exists d; set_solver|by right].
  - intros c. specialize (pi_kept0 c). rewrite Hlook. case_decide as Hc; [|done]. rewrite Hc, He in pi_kept0. rewrite Hc.
    destruct (rg_runners (sv_reg sv0) !! re_ID e) as [e1|]; [|done]. destruct pi_kept0 as [K1 K2]. split; [exact (f_equal (with_tasks _ _) K1)|].
    rewrite with_tasks_active. intros y Hy. destruct (K2 y Hy); [left; set_solver|by right].
  - intros d [Hd| ->%list_elem_of_singleton]%elem_of_app; rewrite Hlook.
    + rewrite decide_False by by apply Hne'. by apply pi_holds0.
    + rewrite decide_True by done. eexists. split; [done|]. rewrite with_tasks_active. set_solver.
  - intros Hw e' t' [He'| ->%list_elem_of_singleton]%elem_of_app; [|left; set_solver].
    destruct (pi_full0 Hw e' t' He') as [Hd|Hno]; [left; set_solver|right]. intros [Hf Hin]. apply Hno. split; [done|].
    destruct (listed_mono _ _ _ _ Eo Ex t' Hin) as [->|?]; [|done]. destruct Hf as (_ & _ & _ & Hq' & _). congruence.
Qed.

Lemma pass_run env sv0 order :
  ids_ok (sv_tasks sv0) → NoDup (re_ID <$> order) → (∀ e, e ∈ order → rg_runners (sv_reg sv0) !! re_ID e = Some e) →
  ∃ ds, pass_inv env sv0 order ds (Tick env order sv0).
Proof.
  intros Hids. induction order as [|e order IH] using rev_ind; intros Hnd Hin; [exists []; by apply pass_start|].
  rewrite fmap_app in Hnd. apply NoDup_app in Hnd as (Hnd & Hnew & _).
  destruct IH as [ds Hp]; [done|intros x Hx; apply Hin; set_solver|]. unfold Tick in Hp |- *. rewrite foldl_app. cbn [foldl].
  set (sv := foldl _ sv0 order) in *.
  assert (re_ID e ∉ re_ID <$> order) as He by (intros Hx; apply (Hnew _ Hx); set_solver).
  assert (rg_runners (sv_reg sv0) !! re_ID e = Some e) as He0 by (apply Hin; set_solver).
  pose proof (pi_reg _ _ _ _ _ Hp _ He) as Hreg. rewrite He0 in Hreg.
  assert (∀ t, eligible (sv_reg sv) e t = eligible (sv_reg sv0) e t) as Hel
    by (intros t; apply eligible_ext, (pi_holders _ _ _ _ _ Hp)).
  destruct (tick_runner_turn env sv e Hreg (pi_ids _ _ _ _ _ Hp)) as [sv' f R1 F1 T1 S1 N1|sv' t ticket now at_ tw I1 N1 R1 T1 S1].
  - exists ds. eapply pass_none; try done. intros Hw t [(Hidle & _ & _ & Hq & Hroot & Hsel) Hl].
    destruct (Hw (re_ID e)) as (W1 & W2 & W3). pose proof (next_task_None _ _ _ t (N1 Hidle W1 W2 W3) Hl Hroot Hq) as Hf.
    rewrite Hel in Hf. apply eligible_fit in Hsel. congruence.
  - exists (ds ++ [(e, t, ticket)]). destruct (next_task_Some _ _ _ _ N1) as (Hl & Hroot & Hq & Hf).
    pose proof (elem_of_listed _ _ (pi_ids _ _ _ _ _ Hp) Hl) as Ht. eapply pass_sent; try done.
    rewrite Hel in Hf. apply eligible_fit in Hf. split_and!; try done; [|by apply Hf..].
    change (t ∈ listed (sv_tasks sv0)). unfold listed in Hl |- *. rewrite (pi_order _ _ _ _ _ Hp) in Hl.
    apply list_elem_of_omap in Hl as (id & Hid & Hlid). apply list_elem_of_omap. exists id. split; [done|].
    pose proof (pi_ids _ _ _ _ _ Hp _ _ Hlid) as <-. rewrite <-(pi_unsent _ _ _ _ _ Hp); [done|].
    intros (d & E & Hd)%list_elem_of_fmap. destruct (pi_running _ _ _ _ _ Hp d Hd) as (x & Hx & Hr & _).
    unfold compose in E. rewrite <-E, Ht in Hx. apply (inj Some) in Hx as <-. congruence.
Qed.

Lemma sendAssign_reg en c task sv : sv_reg (sendAssign en c task sv).1 = sv_reg sv.
Proof. unfold sendAssign. by repeat (case_match; try done). Qed.

Lemma tick_runner_reach env sv e : registry_reach (sv_reg sv) → registry_reach (sv_reg (tick_runner env sv e)).
Proof.
  intros Hr. unfold tick_runner. case_bool_decide; cbn [negb]; [|done]. destruct (next_task _ _ _) as [t|]; [|done].
  pose proof (registry_next _ (RBind (se_bind (env (re_ID e))) (re_ID e) (te_ID t)) Hr I) as Hb. cbn [registry_step] in Hb.
  destruct (BindTask _ _ _ _) as [reg ok]. destruct ok; cbn [negb]; [|done]. cbn [fst] in Hb.
  pose proof (sendAssign_reg (env (re_ID e)) (re_ID e) (te_ID t) (sv{{ sv_reg := reg }})) as Hs.
  destruct (sendAssign _ _ _ _) as [sv1 ok]. cbn [fst] in Hs. change (sv_reg (sv{{ sv_reg := reg }})) with reg in Hs.
  destruct ok; cbn [negb].
  - change (registry_reach (sv_reg sv1)). by rewrite Hs.
  - pose proof (registry_next _ (RUnbind (se_unbind (env (re_ID e))) (re_ID e) (te_ID t)) Hb I) as Hu. rewrite <-Hs in Hu. exact Hu.
Qed.

Lemma Tick_reach env order sv : registry_reach (sv_reg sv) → registry_reach (sv_reg (Tick env order sv)).
Proof. revert sv. unfold Tick. induction order as [|e order IH]; intros sv Hr; [done|]. by apply IH, tick_runner_reach. Qed.

Lemma pass_of_list env sv order :
  registry_reach (sv_reg sv) → StoreOk (sv_tasks sv) → order ≡ₚ Registry_List (sv_reg sv) →
  ∃ ds, pass_inv env sv order ds (Tick env order sv).
Proof.
  intros Hr%registry_reach_ok Hs Ho. apply pass_run; [by apply StoreOk_ids| |].
  - rewrite Ho. unfold Registry_List. rewrite <-list_fmap_compose.
    rewrite (list_fmap_ext _ fst); [apply NoDup_fst_map_to_list|]. intros i [c e] Hi.
    apply (rok_key _ Hr). by apply elem_of_map_to_list, list_elem_of_lookup; exists i.
  - intros e. rewrite Ho. by apply elem_of_Registry_List.
Qed.

(** C18. A scheduling pass, whichever sends fail and in whatever order the runners come,
    hands out only Queued tasks, each to an idle registered runner with the task's
    repository equal to one of its roots, that the task's selector picks and that has
    its profile; at most one task to a runner and a task to at most one runner.  A
    task handed over is Running there and reserved there; any other task is as it
    was.  No runner comes, goes or changes but in its reservations and its last
    activity: it holds no task it did not hold and was not handed, no more than its
    limit, and what it held it still holds unless the task was Queued, whose
    reservation from an earlier run the roll-back of a failed send takes. *)
Theorem Tick_safe env order sv :
  registry_reach (sv_reg sv) → StoreOk (sv_tasks sv) → order ≡ₚ Registry_List (sv_reg sv) →
  let sv' := Tick env order sv in
  ∃ ds, sv_sent sv' = sv_sent sv ++ (d_message <$> ds) ∧
    NoDup ((re_ID ∘ d_runner) <$> ds) ∧ NoDup ((te_ID ∘ d_task) <$> ds) ∧
    (∀ d, d ∈ ds → fit sv (d_runner d) (d_task d) ∧
       (∃ x, Get (te_ID (d_task d)) (sv_tasks sv') = Some x ∧ te_Status x = Running ∧ te_AssignedTo x = re_Identity (d_runner d)) ∧
       ∃ e, Registry_Get (re_ID (d_runner d)) (sv_reg sv') = Some e ∧ te_ID (d_task d) ∈ re_ActiveTasks e) ∧
    (∀ id, id ∉ (te_ID ∘ d_task) <$> ds → Get id (sv_tasks sv') = Get id (sv_tasks sv)) ∧
    (∀ c e, Registry_Get c (sv_reg sv') = Some e → (load e ≤ re_MaxTasks e)%nat ∧
       ∀ x, x ∈ re_ActiveTasks e → (∃ d, d ∈ ds ∧ re_ID (d_runner d) = c ∧ te_ID (d_task d) = x) ∨
         ∃ e0, Registry_Get c (sv_reg sv) = Some e0 ∧ x ∈ re_ActiveTasks e0) ∧
    (∀ c, match Registry_Get c (sv_reg sv), Registry_Get c (sv_reg sv') with
          | Some e, Some e' => e' = with_tasks (re_ActiveTasks e') (re_LastTaskActivity e') e ∧
              released sv (re_ActiveTasks e) (re_ActiveTasks e')
          | None, None => True
          | _, _ => False
          end).
Proof.
  intros Hr Hs Ho sv'. destruct (pass_of_list env sv order Hr Hs Ho) as [ds Hp]. fold sv' in Hp. exists ds.
  pose proof (registry_reach_ok _ (Tick_reach env order sv Hr)) as Hok. fold sv' in Hok.
  split_and!; [apply Hp..| | | |exact (pi_kept _ _ _ _ _ Hp)].
  - intros d Hd. split_and!; [by apply Hp|by apply (pi_running _ _ _ _ _ Hp)|by apply (pi_holds _ _ _ _ _ Hp)].
  - apply Hp.
  - intros c e He. split; [by apply (rok_cap _ Hok c)|]. intros x. by apply (pi_bound _ _ _ _ _ Hp).
Qed.

(** C33. A pass leaves no work behind that it could have handed out: when every send
    goes through, a runner that was idle and was not given a task had none among
    those still listed that a pass may give it, one that is Queued, whose repository
    is itself one of the runner's roots, whose selector picks the runner and whose
    profile it has. *)
Theorem Tick_complete env order sv e t :
  registry_reach (sv_reg sv) → StoreOk (sv_tasks sv) → order ≡ₚ Registry_List (sv_reg sv) → sends_work env →
  let sv' := Tick env order sv in
  fit sv e t → t ∈ List_ 0 (sv_tasks sv') →
  ∃ t' ticket, SentAssign (re_ID e) (te_ID t') ticket ∈ drop (length (sv_sent sv)) (sv_sent sv') ∧ fit sv e t'.
Proof.
  intros Hr Hs Ho Hw sv' Hfit Hl. destruct (pass_of_list env sv order Hr Hs Ho) as [ds Hp]. fold sv' in Hp.
  pose proof Hfit as (_ & He & _).
  assert (e ∈ order) as Hin by (rewrite Ho; by apply elem_of_Registry_List; [apply registry_reach_ok|]).
  destruct (pi_full _ _ _ _ _ Hp Hw e t Hin) as [(d & -> & Hd)%list_elem_of_fmap|Hno]; [|by destruct Hno].
  exists (d_task d), d.2. split; [|by apply Hp]. rewrite (pi_sent _ _ _ _ _ Hp), drop_app_length. by apply (list_elem_of_fmap_2 d_message).
Qed.
End tick_laws.

(** ** Held tasks expire *)

Section hold_laws.
Implicit Types (s : Store) (t : TaskEntry).

Definition expired (now : Z) t : Prop := te_Status t = Held ∧ te_HoldDeadline t ≠ 0%Z ∧ (te_HoldDeadline t ≤ now)%Z.
Definition outstanding (now : Z) t : Prop := te_Status t = Held ∧ te_HoldDeadline t ≠ 0%Z ∧ (now < te_HoldDeadline t)%Z.
Definition hold_failed (reason : string) t : Prop :=
  te_Status t = Failed ∧ te_ErrorMsg t = reason ∧ te_HoldID t = ""%string ∧ te_HoldDeadline t = 0%Z.

Lemma FailHeld_lookup at_ tw id reason s t :
  st_tasks s !! id = Some t → te_Status t = Held ∨ hold_failed reason t →
  ∃ x, st_tasks (FailHeld at_ tw id reason s) = <[id := x]> (st_tasks s) ∧ hold_failed reason x.
Proof.
  intros Ht Hst. unfold FailHeld. rewrite Ht. case_bool_decide as Hh; cbn [negb].
  - eexists. split; [etrans; [apply call_keeps|]; etrans; [apply wal_write_tasks|reflexivity]|]. by split_and!.
  - destruct Hst as [?|Hf]; [done|]. exists t. split; [by rewrite insert_id|done].
Qed.

(** The passed and the coming deadlines among the tasks seen, and the earliest. *)
Record expire_inv now s (seen : list TaskEntry) s' (next : Z) : Prop := {
  xi_failed t : t ∈ seen → expired now t → ∃ x, st_tasks s' !! te_ID t = Some x ∧ hold_failed "hold_expired" x;
  xi_kept id : (∀ t, t ∈ seen → expired now t → te_ID t ≠ id) → st_tasks s' !! id = st_tasks s !! id;
  xi_next : next = 0%Z ∨ ∃ t, t ∈ seen ∧ outstanding now t ∧ te_HoldDeadline t = next;
  xi_least t : t ∈ seen → outstanding now t → next ≠ 0%Z ∧ (next ≤ te_HoldDeadline t)%Z;
}.

Lemma expire_one_inv now clock s seen s' next t :
  st_tasks s !! te_ID t = Some t → (∀ x, x ∈ seen → st_tasks s !! te_ID x = Some x) →
  expire_inv now s seen s' next →
  let '(s'', next') := expire_one now clock (s', next) t in expire_inv now s (seen ++ [t]) s'' next'.
Proof.
  intros Ht Hseen [H1 H2 H3 H4]. unfold expire_one.
  assert (∀ x, x ∈ seen ++ [t] → x ∈ seen ∨ x = t) as Hsp by (intros x; set_solver).
  assert (¬ expired now t → ∀ next', (next' = 0%Z ∨ ∃ t0, t0 ∈ seen ++ [t] ∧ outstanding now t0 ∧ te_HoldDeadline t0 = next') →
    (∀ t0, t0 ∈ seen ++ [t] → outstanding now t0 → next' ≠ 0%Z ∧ (next' ≤ te_HoldDeadline t0)%Z) →
    expire_inv now s (seen ++ [t]) s' next') as Hkeep.
  { intros Hne next' N1 N2. split; [| |done|done].
    - intros x [Hx| ->]%Hsp; [by apply H1|done].
    - intros id Hid. apply H2. intros x Hx. apply Hid. set_solver. }
  case_bool_decide as Hh; cbn [negb]; cycle 1.
  { apply Hkeep; [by intros []|set_solver|]. intros x [Hx| ->]%Hsp; [by apply H4|by intros []]. }
  destruct (Z.eqb_spec (te_HoldDeadline t) 0) as [Hz|Hz]; cbn [negb andb].
  { apply Hkeep; [by intros (_ & ? & _)|set_solver|]. intros x [Hx| ->]%Hsp; [by apply H4|by intros (_ & ? & _)]. }
  destruct (Z.leb_spec (te_HoldDeadline t) now) as [Hle|Hlt].
  - set (at_ := (clock (te_ID t)).1). set (tw := (clock (te_ID t)).2).
    assert (∃ y, st_tasks s' !! te_ID t = Some y ∧ (te_Status y = Held ∨ hold_failed "hold_expired" y)) as (y & Hy & Hst).
    { destruct (decide (Exists (λ x, te_ID x = te_ID t) seen)) as [(x & Hx & E)%Exists_exists|Hn].
      - assert (x = t) as -> by (pose proof (Hseen x Hx) as Hx'; rewrite E, Ht in Hx'; by apply (inj Some) in Hx').
        destruct (H1 t Hx ltac:(done)) as (y & Hy & Hf). eauto.
      - exists t. split; [|by left]. rewrite H2; [done|]. intros x Hx _ E. apply Hn, Exists_exists. eauto. }
    destruct (FailHeld_lookup at_ tw _ _ _ _ Hy Hst) as (x & Ex & Hx). split.
    + intros z Hz' Hez. rewrite Ex. destruct (decide (te_ID t = te_ID z)) as [<-|Hne]; [exists x; by rewrite lookup_insert_eq|].
      rewrite lookup_insert_ne by done. apply Hsp in Hz' as [Hz'| ->]; [by apply H1|done].
    + intros id Hid. rewrite Ex, lookup_insert_ne by (apply Hid; [set_solver|done]). apply H2. intros z Hz'. apply Hid. set_solver.
    + set_solver.
    + intros z [Hz'| ->]%Hsp; [by apply H4|]. intros (_ & _ & ?). lia.
  - assert (¬ expired now t) as Hne by (intros (_ & _ & ?); lia). assert (outstanding now t) as Ho by done.
    destruct (Z.eqb_spec next 0) as [Hn|Hn]; cbn [orb]; [|destruct (Z.ltb_spec (te_HoldDeadline t) next) as [Hl|Hl]].
    + apply Hkeep; [done|right; exists t; set_solver|]. intros x [Hx| ->]%Hsp Hox; [|split; [done|lia]].
      by destruct (H4 x Hx Hox).
    + apply Hkeep; [done|right; exists t; set_solver|]. intros x [Hx| ->]%Hsp Hox; [|split; [done|lia]].
      destruct (H4 x Hx Hox). split; [done|lia].
    + apply Hkeep; [done|set_solver|]. intros x [Hx| ->]%Hsp Hox; [by apply H4|by split].
Qed.

(** A sweep of the held tasks at [now] fails exactly the listed ones whose deadline
    has passed, with [hold_expired] and the hold cleared; every other task is as it
    was.  It answers the earliest deadline still to come, zero when there is none,
    so the next timer is always later than this sweep and the watcher ends when no
    deadline is left. *)
Theorem expireHeldTasks_spec now clock s :
  StoreOk s →
  let '(s', next) := expireHeldTasks now clock s in
  (∀ t, t ∈ List_ 0 s → expired now t → ∃ x, Get (te_ID t) s' = Some x ∧ hold_failed "hold_expired" x) ∧
  (∀ id, (∀ t, t ∈ List_ 0 s → expired now t → te_ID t ≠ id) → Get id s' = Get id s) ∧
  (next = 0%Z ↔ ∀ t, t ∈ List_ 0 s → ¬ outstanding now t) ∧
  (next ≠ 0%Z → (now < next)%Z ∧ (∃ t, t ∈ List_ 0 s ∧ outstanding now t ∧ te_HoldDeadline t = next) ∧
     ∀ t, t ∈ List_ 0 s → outstanding now t → (next ≤ te_HoldDeadline t)%Z).
Proof.
  intros Hids%StoreOk_ids. unfold expireHeldTasks. rewrite List_0_listed.
  assert (∀ t, t ∈ listed s → st_tasks s !! te_ID t = Some t) as Hl by (intros t; by apply elem_of_listed).
  assert (∀ l, (∀ t, t ∈ l → st_tasks s !! te_ID t = Some t) →
    let '(s', next) := foldl (expire_one now clock) (s, 0%Z) l in expire_inv now s l s' next) as Hfold.
  { induction l as [|t l IH] using rev_ind; intros Hin.
    - split; try done; [by intros t ?%not_elem_of_nil|by left|by intros t ?%not_elem_of_nil].
    - rewrite foldl_app. cbn [foldl]. specialize (IH ltac:(intros; apply Hin; set_solver)).
      destruct (foldl _ _ l) as [s1 n1]. apply expire_one_inv; [apply Hin; set_solver|intros; apply Hin; set_solver|done]. }
  specialize (Hfold _ Hl). destruct (foldl _ _ _) as [s' next]. destruct Hfold as [H1 H2 H3 H4].
  split_and!; [done|done| |].
  - split; [intros -> t Ht Ho; by destruct (H4 t Ht Ho)|]. intros Hno. destruct H3 as [?|(t & Ht & Ho & _)]; [done|]. by destruct (Hno t Ht).
  - intros Hne. destruct H3 as [?|(t & Ht & Ho & E)]; [done|]. split_and!; [destruct Ho as (_ & _ & ?); lia|by exists t|].
    intros t' Ht' Ho'. by apply H4.
Qed.
End hold_laws.

(** ** Tickets *)

Section ticket_laws.
Implicit Types (b : Board).

Lemma RegisterTask_tickets rid tid ticket p b :
  b_tickets (RegisterTask rid tid ticket p b) = <[key_of rid tid := ticket]> (b_tickets b).
Proof. done. Qed.

Lemma ForgetShown_tickets tid b : b_tickets (ForgetShown tid b) = b_tickets b.
Proof.
  unfold ForgetShown. generalize (map_to_list (b_topics b)) as l. intros l. revert b.
  induction l as [|[name t] l IH]; intros b; cbn [foldl]; [done|]. rewrite IH. by destruct (_ && _).
Qed.

Lemma revoke_topics_keep l b :
  b_tickets (foldl revoke_topic b l) = b_tickets b ∧ b_tasks (foldl revoke_topic b l) = b_tasks b.
Proof.
  revert b. induction l as [|p l IH]; intros b; cbn [foldl]; [done|]. destruct (IH (revoke_topic b p)) as [-> ->].
  unfold revoke_topic. by repeat (case_match; try done).
Qed.

Lemma Revoke_drops rid tid b :
  b_tickets (Revoke rid tid b) = delete (key_of rid tid) (b_tickets b) ∧
  b_tasks (Revoke rid tid b) = delete (key_of rid tid) (b_tasks b).
Proof.
  unfold Revoke. destruct (b_tasks b !! key_of rid tid) as [ts|]; [|done].
  by destruct (revoke_topics_keep (snapshotPatterns ts) (b{{ b_tickets := delete (key_of rid tid) (b_tickets b); b_tasks := delete (key_of rid tid) (b_tasks b) }})) as [-> ->].
Qed.

Lemma boardRegisterTask_tickets rid id ticket p resume b :
  b_tickets (boardRegisterTask rid id ticket p resume b) =
  if decide (rid = zeroID) then b_tickets b else <[key_of rid (taskIDFromHex id) := ticket]> (b_tickets b).
Proof.
  unfold boardRegisterTask. case_bool_decide as Hz; [by rewrite decide_True|]. rewrite decide_False by done.
  rewrite RegisterTask_tickets. destruct resume; cbn [negb]; [done|]. by rewrite ForgetShown_tickets.
Qed.

Lemma roll_back_tickets rid id ticket p resume b :
  b_tickets (boardRevokeTask rid id (boardRegisterTask rid id ticket p resume b)) ⊆ b_tickets b.
Proof.
  unfold boardRevokeTask. destruct (Revoke_drops rid (taskIDFromHex id) (boardRegisterTask rid id ticket p resume b)) as [-> _].
  rewrite boardRegisterTask_tickets. case_decide; [apply delete_subseteq|].
  rewrite delete_insert_eq. apply delete_subseteq.
Qed.
End ticket_laws.

(** ** Dispatching one task *)

Section dispatch_laws.
Context (conn_string : ConnectionID → string).
Implicit Types (sv : Server) (e : RunnerEntry).

(** Nothing handed over, nothing left behind. *)
Record rolled_back sv sv' : Prop := {
  rb_tasks : sv_tasks sv' = sv_tasks sv;
  rb_sent : sv_sent sv' = sv_sent sv;
  rb_tickets : b_tickets (sv_board sv') ⊆ b_tickets (sv_board sv);
  rb_bound c e' : rg_runners (sv_reg sv') !! c = Some e' →
    ∃ e, rg_runners (sv_reg sv) !! c = Some e ∧ re_ActiveTasks e' ⊆ re_ActiveTasks e;
}.

#[local] Instance rolled_back_po : PreOrder rolled_back.
Proof.
  split.
  - intros sv. split; [done..|]. intros c e' He. by exists e'.
  - intros sv1 sv2 sv3 [A1 A2 A3 A4] [B1 B2 B3 B4]. split; [congruence|congruence|by etrans|].
    intros c e' (e2 & He2 & H2)%B4. destruct (A4 c e2 He2) as (e1 & He1 & H1). exists e1. split; [done|by etrans].
Qed.

Record handed_over env (task : TaskEntry) e (ticket : list N) sv sv' : Prop := {
  ho_sent : sv_sent sv' = sv_sent sv ++ [SentAssign (re_ID e) (te_ID task) ticket];
  ho_ticket : se_ticket (env (re_ID e)) = Some ticket;
  ho_tasks : sv_tasks sv' = Assign (se_assign (env (re_ID e))) (se_wal (env (re_ID e))) (te_ID task) (re_Identity e) ""
    (re_SkillsInjected e) (sv_tasks sv);
  ho_board : re_Identity e ≠ zeroID → b_tickets (sv_board sv') !! key_of (re_Identity e) (taskIDFromHex (te_ID task)) = Some ticket;
  ho_bound : ∃ e', Registry_Get (re_ID e) (sv_reg sv') = Some e' ∧ te_ID task ∈ re_ActiveTasks e';
}.

Lemma try_candidate_cases env task e sv :
  let '(sv', ok) := try_candidate env task e sv in
  if ok then ∃ ticket, handed_over env task e ticket sv sv' else rolled_back sv sv'.
Proof.
  unfold try_candidate. destruct (re_MaxTasks e <=? load e)%nat; [done|]. destruct (re_Conn e); cbn [negb]; [|done].
  unfold BindTask. destruct (rg_runners (sv_reg sv) !! re_ID e) as [e0|] eqn:E0; cbn [negb]; [|done].
  destruct (re_MaxTasks e0 <=? load e0)%nat; cbn [negb]; [done|].
  set (bind := with_tasks ({[te_ID task]} ∪ re_ActiveTasks e0) (se_bind (env (re_ID e))) e0).
  set (reg := put_runner (re_ID e) bind (sv_reg sv)). set (sv1 := sv{{ sv_reg := reg }}).
  assert (∀ f, b_tickets (f (sv_board sv)) ⊆ b_tickets (sv_board sv) →
    rolled_back sv (on_reg (UnbindTask (se_unbind (env (re_ID e))) (re_ID e) (te_ID task)) (on_board f sv1))) as Hroll.
  { intros f Hf. split; [done|done|exact Hf|]. intros c e' He'.
    change (rg_runners (on_runner (re_ID e) (λ x, with_tasks (re_ActiveTasks x ∖ {[te_ID task]}) (se_unbind (env (re_ID e))) x) reg) !! c = Some e') in He'.
    rewrite on_runner_lookup in He'. change (rg_runners reg) with (<[re_ID e := bind]> (rg_runners (sv_reg sv))) in He'.
    case_decide as Hc; [subst c; rewrite lookup_insert_eq in He'|rewrite lookup_insert_ne, option_fmap_id in He' by done; by exists e'].
    apply (inj Some) in He' as <-. exists e0. split; [done|]. rewrite with_tasks_active. subst bind. rewrite with_tasks_active. set_solver. }
  destruct (se_ticket (env (re_ID e))) as [ticket|] eqn:Et; [|exact (Hroll id ltac:(done))].
  set (register := boardRegisterTask _ _ ticket _ _).
  assert (rolled_back sv (on_reg (UnbindTask (se_unbind (env (re_ID e))) (re_ID e) (te_ID task))
    (on_board (boardRevokeTask (re_Identity e) (te_ID task)) (on_board register sv1)))) as Hback
    by exact (Hroll (boardRevokeTask (re_Identity e) (te_ID task) ∘ register) (roll_back_tickets _ _ _ _ _ _)).
  destruct (se_body (env (re_ID e))); cbn [negb]; [|exact Hback]. destruct (se_send (env (re_ID e))); cbn [negb]; [|exact Hback].
  exists ticket. split; [done|done|done| |].
  - intros Hz. change (b_tickets (register (sv_board sv)) !! key_of (re_Identity e) (taskIDFromHex (te_ID task)) = Some ticket).
    subst register. rewrite boardRegisterTask_tickets, decide_False by done. apply lookup_insert_eq.
  - exists bind. split; [apply lookup_insert_eq|]. subst bind. rewrite with_tasks_active. set_solver.
Qed.

(** [TryDispatch] hands the task to one of the candidates or leaves no trace: on
    success exactly one AssignTask leaves, to a candidate, with the ticket the board
    then holds for that runner and task, and the task is Running and reserved
    there; on failure the store is as it was, nothing was sent, and neither a
    ticket nor a reservation is left of the attempts. *)
Theorem TryDispatch_spec env task sv :
  let '(sv', ok) := TryDispatch conn_string env task sv in
  if ok then ∃ e ticket sv1, e ∈ Candidates conn_string (te_RepoPath task) (te_Selector task) (sv_reg sv) ∧
    rolled_back sv sv1 ∧ handed_over env task e ticket sv1 sv'
  else rolled_back sv sv'.
Proof.
  unfold TryDispatch. set (l := Candidates _ _ _ _). clearbody l. revert sv.
  induction l as [|e l IH]; intros sv; cbn [try_candidates]; [done|].
  pose proof (try_candidate_cases env task e sv) as Hc. destruct (try_candidate env task e sv) as [sv1 [|]].
  - destruct Hc as [ticket Hh]. exists e, ticket, sv. split_and!; [by left|done|done].
  - specialize (IH sv1). destruct (try_candidates env task l sv1) as [sv2 [|]]; [|by etrans].
    destruct IH as (e' & ticket & sv3 & Hin & Hr & Hh). exists e', ticket, sv3. split_and!; [by right|by etrans|done].
Qed.

(** Cancelling takes the agent's access at once, whether or not the runner hears of
    it: for a task that was handed to a runner, the board holds neither a ticket nor
    a state for it afterwards.  A CancelTask goes only to the connection that holds
    the runner's identity, and a resend loop starts only when none is running. *)
Theorem OnCancel_revokes ok id sv t :
  Get id (sv_tasks sv) = Some t → te_AssignedTo t ≠ zeroID →
  let '(sv', loop) := OnCancel_run ok id sv in
  let k := key_of (te_AssignedTo t) (taskIDFromHex id) in
  b_tickets (sv_board sv') !! k = None ∧ b_tasks (sv_board sv') !! k = None ∧
  sv_tasks sv' = sv_tasks sv ∧ sv_reg sv' = sv_reg sv ∧
  (sv_sent sv' = sv_sent sv ∨ ∃ e, GetByIdentity (te_AssignedTo t) (sv_reg sv) = Some e ∧ re_Conn e = true ∧
     sv_sent sv' = sv_sent sv ++ [SentCancel (re_ID e) id]) ∧
  (loop = true → id ∉ sv_resending sv ∧ id ∈ sv_resending sv') ∧
  (loop = false → sv_resending sv' = sv_resending sv).
Proof.
  intros Ht Hz. unfold OnCancel_run. rewrite Ht, bool_decide_eq_false_2 by done.
  set (k := key_of (te_AssignedTo t) (taskIDFromHex id)). set (sv1 := on_board _ sv).
  assert (b_tickets (sv_board sv1) !! k = None ∧ b_tasks (sv_board sv1) !! k = None) as [K1 K2].
  { change (sv_board sv1) with (Revoke (te_AssignedTo t) (taskIDFromHex id) (sv_board sv)).
    destruct (Revoke_drops (te_AssignedTo t) (taskIDFromHex id) (sv_board sv)) as [-> ->]. by rewrite !lookup_delete_eq. }
  change (sv_reg sv1) with (sv_reg sv).
  destruct (GetByIdentity (te_AssignedTo t) (sv_reg sv)) as [e|] eqn:Ee; [|by split_and!; try done; left].
  destruct (re_Conn e) eqn:Ec; cbn [negb]; [|by split_and!; try done; left].
  assert (sv_sent (sendCancel ok e id sv1) = sv_sent sv ∨ sv_sent (sendCancel ok e id sv1) = sv_sent sv ++ [SentCancel (re_ID e) id]) as Hs
    by (destruct ok; [by right|by left]).
  assert (sv_board (sendCancel ok e id sv1) = sv_board sv1 ∧ sv_resending (sendCancel ok e id sv1) = sv_resending sv ∧
    sv_tasks (sendCancel ok e id sv1) = sv_tasks sv ∧ sv_reg (sendCancel ok e id sv1) = sv_reg sv) as (B & Q & T & R) by (by destruct ok).
  case_bool_decide as Hr; rewrite Q in Hr.
  - rewrite B, T, R. split_and!; try done; [destruct Hs; [by left|right; by exists e]].
  - set (sv2 := (sendCancel ok e id sv1){{ sv_resending := _ }}).
    change (sv_board sv2) with (sv_board (sendCancel ok e id sv1)). rewrite B.
    split_and!; try done; [destruct Hs; [by left|right; by exists e]|].
    intros _. split; [done|]. change (id ∈ {[id]} ∪ sv_resending (sendCancel ok e id sv1)). set_solver.
Qed.
End dispatch_laws.

(** ** A sample server *)

Module SampleSched.
Definition tid : TaskID := replicate 15 0 ++ [10].
Definition id : string := EncodeToString tid.
Definition create (repo : string) : op :=
  OpCreate id 1 1 1 repo "go" 0 1 zeroID "" SelAny [] (mkGrant 0 DefaultScope 0 DefaultScope) "claude".
Definition tasks (repo : string) : Store := run (SetWAL (Some []) NewTaskStore) [create repo].
Definition held : Store :=
  run (SetWAL (Some []) NewTaskStore) [create "/srv"; OpAssign 3 3 id id_w "" true; OpMarkHold 4 id (EncodeToString id_w) "h1" 100].
Definition reg : Registry := (Add (runner_w 1) NewRegistry).1.
Definition server (s : Store) : Server := mkServer reg s (New (mkConfig 8 0 8 100 1)) ∅ [].
Definition env (body : bool) : ConnectionID → send_env := λ _, mkSendEnv 5 6 7 7 (Some [9]) body true.

Lemma reg_reach : registry_reach reg.
Proof.
  apply (registry_next _ (RAdd (runner_w 1)) registry_new). repeat split; [vm_compute; discriminate|vm_compute; lia|].
  intros e'. vm_compute. discriminate.
Qed.

Lemma create_ok repo : op_ok (create repo).
Proof.
  assert (wal_ok DefaultScope) as Hd by (split_and!; try done; by apply sample_ids_ok).
  split_and!; try done. apply wf_zeroID.
Qed.

Lemma tasks_ok repo : StoreOk (tasks repo).
Proof. apply run_StoreOk. by apply Forall_singleton, create_ok. Qed.

Lemma held_ok : StoreOk held.
Proof. apply run_StoreOk. apply Forall_cons_2; [apply create_ok|]. by repeat constructor. Qed.
End SampleSched.

Lemma Tick_safe_witness :
  let sv' := Tick (SampleSched.env true) (Registry_List SampleSched.reg) (SampleSched.server (SampleSched.tasks "/srv")) in
  sv_sent sv' = [SentAssign (conn_w 1) SampleSched.id [9]] ∧
  ∀ c e, Registry_Get c (sv_reg sv') = Some e → (load e ≤ re_MaxTasks e)%nat.
Proof.
  split; [by vm_compute|].
  destruct (Tick_safe (SampleSched.env true) (Registry_List SampleSched.reg) (SampleSched.server (SampleSched.tasks "/srv"))
    SampleSched.reg_reach (SampleSched.tasks_ok _) ltac:(done)) as (ds & _ & _ & _ & _ & _ & H & _).
  intros c e He. by apply (H c e).
Defined.

(** The sample runner takes one task; a second one stays listed and the runner was
    given the first. *)
Lemma Tick_complete_witness :
  let s := run (SampleSched.tasks "/srv") [OpCreate "b" 2 2 2 "/srv" "go" 0 1 zeroID "" SelAny [] (mkGrant 0 DefaultScope 0 DefaultScope) ""] in
  let sv' := Tick (SampleSched.env true) (Registry_List SampleSched.reg) (SampleSched.server s) in
  (te_ID <$> List_ 0 (sv_tasks sv')) = [SampleSched.id; "b"%string] ∧
  ∃ t' ticket, SentAssign (conn_w 1) (te_ID t') ticket ∈ sv_sent sv'.
Proof.
  intros s sv'. split; [by vm_compute|].
  edestruct (Tick_complete (SampleSched.env true) (Registry_List SampleSched.reg) (SampleSched.server s) (runner_w 1)
    (default zeroEntry (Get "b" s))) as (t' & ticket & H & _).
  - apply SampleSched.reg_reach.
  - apply (run_StoreOk [SampleSched.create "/srv"; OpCreate "b" 2 2 2 "/srv" "go" 0 1 zeroID "" SelAny [] (mkGrant 0 DefaultScope 0 DefaultScope) ""]).
    repeat apply Forall_cons_2; [apply SampleSched.create_ok| |constructor]. destruct (SampleSched.create_ok "/srv") as (H1 & _ & _ & H2 & H3).
    by split_and!.
  - done.
  - intros c. by split_and!.
  - split_and!; [by vm_compute|by vm_compute|vm_compute; set_solver|by vm_compute|vm_compute; set_solver|by vm_compute|by left; vm_compute].
  - vm_compute. set_solver.
  - exists t', ticket. exact H.
Defined.

Lemma expireHeldTasks_spec_witness :
  let '(s', next) := expireHeldTasks 100 (λ _, (101, 102)%Z) SampleSched.held in
  (te_Status <$> Get SampleSched.id s') = Some Failed ∧ (next = 0%Z ↔ ∀ t, t ∈ List_ 0 SampleSched.held → ¬ outstanding 100 t).
Proof.
  pose proof (expireHeldTasks_spec 100 (λ _, (101, 102)%Z) SampleSched.held SampleSched.held_ok) as H.
  destruct (expireHeldTasks 100 (λ _, (101, 102)%Z) SampleSched.held) as [s' next] eqn:E. split; [|apply H].
  change s' with (s', next).1. rewrite <-E. by vm_compute.
Defined.

Lemma OnCancel_revokes_witness :
  let sv := Tick (SampleSched.env true) (Registry_List SampleSched.reg) (SampleSched.server (SampleSched.tasks "/srv")) in
  let k := key_of id_w (taskIDFromHex SampleSched.id) in
  b_tickets (sv_board sv) !! k = Some [9] ∧ b_tickets (sv_board (OnCancel_run false SampleSched.id sv).1) !! k = None.
Proof.
  intros sv k. split; [by vm_compute|].
  set (t := default zeroEntry (Get SampleSched.id (sv_tasks sv))).
  pose proof (OnCancel_revokes false SampleSched.id sv t ltac:(by vm_compute) ltac:(by vm_compute)) as H.
  destruct (OnCancel_run false SampleSched.id sv) as [sv' loop]. apply H.
Defined.

(** ** Two gaps *)

(** A task for a directory below a runner's root is accepted, since a candidate
    exists, and never started: no pass touches it, however idle the runner, because
    the pass compares the task's repository with the roots for equality. *)
Theorem subdirectory_task_waits conn_string :
  let sv := SampleSched.server (SampleSched.tasks "/srv/app") in
  (re_ID <$> Candidates conn_string "/srv/app" SelAny (sv_reg sv)) = [conn_w 1] ∧
  (te_Status <$> Get SampleSched.id (sv_tasks sv)) = Some Queued ∧
  ∀ env, Tick env (Registry_List (sv_reg sv)) sv = sv.
Proof. split_and!; [by vm_compute|by vm_compute|intros env; by vm_compute]. Qed.

(** A pass whose send fails after the ticket was drawn leaves the task Queued and
    the slot free, and leaves the ticket and the agent's state on the board, under
    a runner that never got the task; [TryDispatch] under the same failure leaves
    none. *)
Theorem failed_assign_keeps_ticket :
  let sv := SampleSched.server (SampleSched.tasks "/srv") in
  let sv' := Tick (SampleSched.env false) (Registry_List (sv_reg sv)) sv in
  let k := key_of id_w SampleSched.tid in
  (te_Status <$> Get SampleSched.id (sv_tasks sv')) = Some Queued ∧ sv_sent sv' = [] ∧
  (re_ActiveTasks <$> Registry_Get (conn_w 1) (sv_reg sv')) = Some ∅ ∧
  b_tickets (sv_board sv') !! k = Some [9] ∧ is_Some (b_tasks (sv_board sv') !! k) ∧
  b_tickets (sv_board (TryDispatch (λ _, ""%string) (SampleSched.env false) (default zeroEntry (Get SampleSched.id (sv_tasks sv))) sv).1) = ∅.
Proof. split_and!; [by vm_compute..|vm_compute; by eexists|by vm_compute]. Qed.
