(* ===== verification/RunnerHandler.v ===== *)
(** * Runners come, report and go

    The messages of [server/runner_handler.go] that change the server's state, the
    re-adoption of held tasks ([server/readopt.go]), the end of a connection
    ([failAndRevokeTasksOf] of [server/server.go]), and the part of
    [handleOpenInteractive] ([server/task_handler.go]) after the capacity gate.  All are functions of [Server].

    A decoded message is a record; the clock readings come as functions of the
    task.  [hello_outcome] is what the caller of the handler sees: a refused
    connection is dropped.  The relay chain of an origin is its runner's identity.
    Sessions, forwards and events are outside.

    A handler is one step.  The server locks the registry, the tasks and the board apart, so
    the steps of handlers that run at the same time mix; what the whole steps keep is the
    invariant the handlers are written for, and [open_overbooks] is a mix that breaks it. *)

From stdpp Require Import prelude gmap strings list.
From Stdlib Require Import NArith ZArith.
From coqutil Require Import Datatypes.RecordSetters.
From S2P Require Import Prelude GoStrings Scope Delegate Wire Wal TaskStore Replay Topic TaskState BoardReach Board Paths Registry Scheduler.

Import DoubleBraceUpdate.
Open Scope N_scope.
Open Scope stdpp_scope.
Set Default Goal Selector "!".

(** ** Messages *)

Record HeldTasksReport := mkHeldTasksReport { hr_HoldId : list N; hr_Tasks : list (TaskID * list N) }.

Record RunnerHello := mkRunnerHello {
  rh_RunnerId : list N;
  rh_Hostname : string;
  rh_Goos : string;
  rh_MaxTasks : nat;
  rh_AllowedRoots : list string;
  rh_AgentBin : string;
  rh_SkillsInjected : bool;
  rh_AgentProfiles : list string;
  rh_Held : HeldTasksReport;
}.

Record DialOrigin := mkDialOrigin {
  do_Link : N;
  do_RecordID : N;
  do_ExpectKey : option (list N);
  do_Via : option (list N);
}.
Definition RunnerLink_DialedIn : N := 0.
Definition TaskKind_Interactive : N := 1.
Definition TaskKind_Stream : N := 2.

(** The readings of the clock one task's handling takes. *)
Record clock := mkClock { ck_bind : Z; ck_unbind : Z; ck_now : Z; ck_wal : Z }.

(** ** Re-adoption *)

Record readopt_acc := mkReadopt { ra_server : Server; ra_accepted : list TaskID; ra_rebind : list string }.

Definition readopt_one (clk : string → clock) (identity : list N) (reportHold : string) (acc : readopt_acc)
    (ht : TaskID * list N) : readopt_acc :=
  let sv := ra_server acc in
  let taskID := EncodeToString ht.1 in
  match Get taskID (sv_tasks sv) with
  | None => acc
  | Some t =>
      if negb (bool_decide (te_Status t = Held)) then acc
      else if negb (bool_decide (te_HoldID t = reportHold)) then acc
      else if negb (bool_decide (te_AssignedTo t = identity)) then acc
      else
        let ck := clk taskID in
        let sv := match GetByIdentity identity (sv_reg sv) with
                  | None => sv
                  | Some e => on_reg (λ r, (BindTask (ck_bind ck) (re_ID e) taskID r).1) sv
                  end in
        let sv := on_board (boardRegisterTask identity taskID ht.2 (te_AgentProfile t) true) sv in
        let session := (te_Kind t =? TaskKind_Interactive) || (te_Kind t =? TaskKind_Stream) in
        match MarkReadopted (ck_now ck) (ck_wal ck) taskID (EncodeToString identity) reportHold session (sv_tasks sv) with
        | (s, Some _) => acc{{ ra_server := sv{{ sv_tasks := s }} }}
        | (s, None) =>
            mkReadopt (sv{{ sv_tasks := s }}) (ra_accepted acc ++ [ht.1])
              (if session then ra_rebind acc ++ [taskID] else ra_rebind acc)
        end
  end.

(** One task of the second loop. *)
Definition fail_unaccepted (clk : string → clock) (identity : list N) (accepted : list string) (s : Store) (t : TaskEntry)
    : Store :=
  if negb (bool_decide (te_Status t = Held)) || negb (bool_decide (te_AssignedTo t = identity)) then s
  else if bool_decide (te_ID t ∈ accepted) then s
  else FailHeld (ck_now (clk (te_ID t))) (ck_wal (clk (te_ID t))) (te_ID t) "not_held_by_runner" s.

Definition readoptHeldTasks (clk : string → clock) (identity : list N) (report : HeldTasksReport) (sv : Server)
    : readopt_acc :=
  if bool_decide (identity = zeroID) then mkReadopt sv [] []
  else
    let out := foldl (readopt_one clk identity (EncodeToString (hr_HoldId report))) (mkReadopt sv [] []) (hr_Tasks report) in
    let s := sv_tasks (ra_server out) in
    out{{ ra_server := (ra_server out){{ sv_tasks :=
      foldl (fail_unaccepted clk identity (EncodeToString <$> ra_accepted out)) s (List_ 0 s) }} }}.

(** ** The hello *)

Definition hello_entry (now : Z) (c : ConnectionID) (key : option (list N)) (origin : option DialOrigin)
    (hello : RunnerHello) : RunnerEntry :=
  {| re_ID := c; re_Identity := rh_RunnerId hello; re_Hostname := rh_Hostname hello; re_GOOS := rh_Goos hello;
     re_AllowedRoots := path_Clean <$> rh_AllowedRoots hello;
     re_MaxTasks := if (rh_MaxTasks hello <? 1)%nat then 1%nat else rh_MaxTasks hello;
     re_AgentBin := rh_AgentBin hello; re_AgentProfiles := rh_AgentProfiles hello;
     re_SkillsInjected := rh_SkillsInjected hello; re_Key := key; re_ActiveTasks := ∅;
     re_ConnectedAt := now; re_LastTaskActivity := now; re_Conn := true;
     re_Link := match origin with Some o => do_Link o | None => RunnerLink_DialedIn end;
     re_LinkRecord := match origin with Some o => do_RecordID o | None => 0 end;
     re_LinkVia := match origin with Some o => default zeroID (do_Via o) | None => zeroID end |}.

(** The origin's record is bound to another key. *)
Definition wrong_record_key (key : option (list N)) (origin : option DialOrigin) : bool :=
  match origin with
  | Some o => match do_ExpectKey o with Some k => negb (bool_decide (k = default [] key)) | None => false end
  | None => false
  end.

Inductive hello_outcome :=
  | HelloRefused
  | HelloRegistered (displaced : ConnectionID) (accepted : list TaskID) (rebind : list string) (declined : bool).

(** [shuttingDown] is the flag the hold sequence sets. *)
Definition handle_hello (now : Z) (clk : string → clock) (shuttingDown : bool) (c : ConnectionID) (key : option (list N))
    (origin : option DialOrigin) (hello : RunnerHello) (sv : Server) : Server * hello_outcome :=
  let entry := hello_entry now c key origin hello in
  if wrong_record_key key origin then (sv, HelloRefused)
  else
    match Add entry (sv_reg sv) with
    | (_, None) => (sv, HelloRefused)
    | (reg, Some displaced) =>
        let sv := sv{{ sv_reg := reg }} in
        if shuttingDown then (sv, HelloRegistered displaced [] [] true)
        else
          let out := readoptHeldTasks clk (rh_RunnerId hello) (rh_Held hello) sv in
          (ra_server out, HelloRegistered displaced (ra_accepted out) (ra_rebind out) false)
    end.

(** ** Reports *)

Definition acceptTaskReport (c : ConnectionID) (taskID : string) (sv : Server) : bool := ownsTask c taskID (sv_reg sv).

Definition handle_accepted (now : Z) (c : ConnectionID) (tid : TaskID) (sv : Server) : Server :=
  if negb (acceptTaskReport c (EncodeToString tid) sv) then sv
  else on_reg (λ r, (NoteTaskActivity now c r).1) sv.

Definition handle_started (c : ConnectionID) (tid : TaskID) (worktreeDir : string) (sv : Server) : Server :=
  if negb (acceptTaskReport c (EncodeToString tid) sv) then sv
  else on_tasks (λ s, (SetWorktreeDir (EncodeToString tid) worktreeDir s).1) sv.

Definition handle_finished (ck : clock) (c : ConnectionID) (tid : TaskID) (exit : Z) (msg : string) (sv : Server) : Server :=
  let taskID := EncodeToString tid in
  if negb (acceptTaskReport c taskID sv) then sv
  else
    let sv := on_tasks (Finish (ck_now ck) (ck_wal ck) taskID exit msg) sv in
    let sv := on_reg (UnbindTask (ck_unbind ck) c taskID) sv in
    on_board (boardRevokeTask (identityOfConn c (sv_reg sv)) taskID) sv.

(** ** The end of a connection *)

Definition fail_and_revoke_one (clk : string → clock) (identity : list N) (sv : Server) (taskID : string) : Server :=
  let sv := on_tasks (MarkFailed (ck_now (clk taskID)) (ck_wal (clk taskID)) taskID "runner_disconnected") sv in
  on_board (boardRevokeTask identity taskID) sv.

Definition failAndRevokeTasksOf (clk : string → clock) (snap : RunnerEntry) (sv : Server) : Server :=
  foldl (fail_and_revoke_one clk (re_Identity snap)) sv (elements (re_ActiveTasks snap)).

(** [Registry.Remove] with its hook. *)
Definition runner_gone (clk : string → clock) (c : ConnectionID) (sv : Server) : Server :=
  let snap := Registry_Get c (sv_reg sv) in
  let sv := on_reg (Registry_Remove c) sv in
  match snap with Some e => failAndRevokeTasksOf clk e sv | None => sv end.

(** ** Opening on a runner *)

(** After the capacity gate, for a task that was created or resumed; [false] is an
    error answer and [reason] what failed.  [runner] is the entry the candidates were
    computed from, which may be old, and the answer of [BindTask] is not looked at.
    The body flag of [en] covers the streams and the checks of the request. *)
Definition open_on_runner (en : send_env) (ck : clock) (runner : RunnerEntry) (taskID resolved : string)
    (resumeConversation detached : bool) (reason : string) (sv : Server) : Server * bool :=
  let sv := on_tasks (Assign (se_assign en) (se_wal en) taskID (re_Identity runner) "" (re_SkillsInjected runner)) sv in
  let sv := on_reg (λ r, (BindTask (se_bind en) (re_ID runner) taskID r).1) sv in
  let finishWithError sv :=
    let sv := on_tasks (Finish (ck_now ck) (ck_wal ck) taskID (-1) ("server: " +:+ reason)) sv in
    let sv := on_reg (UnbindTask (se_unbind en) (re_ID runner) taskID) sv in
    on_board (boardRevokeTask (re_Identity runner) taskID) sv in
  match se_ticket en with
  | None => (finishWithError sv, false)
  | Some ticket =>
      let sv := on_board (boardRegisterTask (re_Identity runner) taskID ticket resolved resumeConversation) sv in
      if negb (se_body en) then (finishWithError sv, false)
      else if negb (re_Conn runner) then (finishWithError sv, false)
      else if negb (se_send en) then (finishWithError sv, false)
      else
        let sv := send_message (SentOpenExec (re_ID runner) taskID ticket) sv in
        (if detached then on_tasks (λ s, (SetDetached (ck_now ck) taskID s).1) sv else sv, true)
  end.

(** ** What a store operation leaves live *)

Definition live (t : TaskEntry) : Prop := te_Status t = Running ∨ te_Status t = Detached.
#[export] Instance live_dec t : Decision (live t).
Proof. unfold live. apply _. Defined.

(** The entry [m'] of [id] afterwards, from the one before: its id is kept and it is
    live only if it was. *)
Definition kept (id : string) (m : option TaskEntry) (m' : TaskEntry) : Prop :=
  (∃ m0, m = Some m0 ∧ te_ID m' = te_ID m0 ∧ (live m' → live m0)) ∨ te_ID m' = id ∧ ¬ live m'.
Definition touched (s s' : Store) : Prop := ∀ id m', st_tasks s' !! id = Some m' → kept id (st_tasks s !! id) m'.

Section touched_laws.
Implicit Types (s : Store).

#[export] Instance touched_po : PreOrder touched.
Proof.
  split.
  - intros s id m' Hm. left. by exists m'.
  - intros s1 s2 s3 H1 H2 id m3 H3. destruct (H2 id m3 H3) as [(m2 & E2 & I2 & L2)|?]; [|by right].
    destruct (H1 id m2 E2) as [(m1 & E1 & I1 & L1)|[I1 L1]]; [left; exists m1|right]; naive_solver congruence.
Qed.

Lemma touched_tasks s s' : st_tasks s' = st_tasks s → touched s s'.
Proof. intros E id m' Hm. rewrite E in Hm. left. by exists m'. Qed.

Lemma touched_sub s s' : (∀ id m', st_tasks s' !! id = Some m' → st_tasks s !! id = Some m') → touched s s'.
Proof. intros E id m' Hm%E. left. by exists m'. Qed.

Lemma touched_wal s s' tw ev : touched s s' → touched s (wal_write tw ev s').
Proof. intros H. etrans; [exact H|]. apply touched_tasks, wal_write_tasks. Qed.

Lemma touched_call s s' h : touched s s' → touched s (call h s').
Proof. intros H. etrans; [exact H|]. by apply touched_tasks. Qed.

Lemma touched_put s id m m' :
  st_tasks s !! id = Some m → te_ID m' = te_ID m → (live m' → live m) → touched s (put id m' s).
Proof.
  intros Hm Hid Hl j x Hx. rewrite put_lookup in Hx. case_decide as Hj; [|left; by exists x].
  subst j. apply (inj Some) in Hx as <-. left. by exists m.
Qed.

Lemma touched_new s id m' : te_ID m' = id → ¬ live m' → touched s (put id m' s).
Proof.
  intros Hid Hl j x Hx. rewrite put_lookup in Hx. case_decide as Hj; [|left; by exists x].
  subst j. apply (inj Some) in Hx as <-. by right.
Qed.

(** The operations other than the two that start a task on a runner. *)
Definition quiet (o : op) : bool :=
  match o with OpAssign _ _ _ _ _ _ | OpMarkReadopted _ _ _ _ _ _ => false | _ => true end.

Local Ltac dead := let H := fresh in intros [H|H]; discriminate H.
Local Ltac touch :=
  repeat (apply touched_call || apply touched_wal); first [reflexivity|eapply touched_put; [eassumption|done|first [done|dead]]].

Lemma Finish_touched now tw id exit msg s : touched s (Finish now tw id exit msg s).
Proof.
  unfold Finish. destruct (st_tasks s !! id) as [e|] eqn:E; [|done].
  destruct (te_Status e) eqn:Es; try done; destruct (exit =? 0)%Z; touch.
Qed.

Lemma MarkFailed_touched now tw id reason s : touched s (MarkFailed now tw id reason s).
Proof. unfold MarkFailed. destruct (st_tasks s !! id) as [e|] eqn:E; [|done]. destruct (te_Status e) eqn:Es; try done; touch. Qed.

Lemma FailHeld_touched now tw id reason s : touched s (FailHeld now tw id reason s).
Proof. unfold FailHeld. destruct (st_tasks s !! id) as [e|] eqn:E; [|done]. case_bool_decide; cbn [negb]; [touch|done]. Qed.

Lemma SetDetached_touched now id s : touched s (SetDetached now id s).1.
Proof.
  unfold SetDetached. destruct (st_tasks s !! id) as [e|] eqn:E; [|done]. case_bool_decide; cbn [negb fst]; [|done].
  eapply touched_put; [done|done|]. intros _. by left.
Qed.

Lemma Create_touched id t1 t2 t3 repo prompt kind origin creator bound sel args g profile s :
  touched s (Create id t1 t2 t3 repo prompt kind origin creator bound sel args g profile s).
Proof.
  unfold Create. apply touched_call, touched_wal. etrans; [|by apply touched_tasks].
  case_bool_decide; (apply touched_new; [done|dead]).
Qed.

Lemma SwapWithParent_touched t1 t2 id s : touched s (SwapWithParent t1 t2 id s).1.
Proof.
  unfold SwapWithParent. destruct (st_tasks s !! id) as [t|] eqn:E; [|done]. case_bool_decide; [done|].
  destruct (st_tasks s !! EncodeToString (te_CreatorTaskID t)) as [p|] eqn:Ep; [|done]. case_bool_decide; [done|].
  cbn [fst]. unfold writeParentChangedLocked. apply touched_wal, touched_wal.
  transitivity (put id (t{{ te_CreatorTaskID := te_CreatorTaskID p }}) s); [by eapply touched_put|]. case_bool_decide as He.
  - eapply touched_put; [rewrite He; apply put_lookup_eq|done|done].
  - eapply touched_put; [rewrite put_lookup_ne by done; exact Ep|done|done].
Qed.

Lemma Resume_touched t1 t2 t3 id prompt args sel bound k u nk profile resumer s :
  touched s (Resume t1 t2 t3 id prompt args sel bound k u nk profile resumer s).1.
Proof.
  unfold Resume. destruct (st_tasks s !! id) as [e|] eqn:E; [|done]. destruct (terminal (te_Status e)) eqn:Et; cbn [negb]; [|done].
  match goal with |- context [put id ?x s] => set (e' := x) end.
  assert (touched s (put id e' s)) as H by (eapply touched_put; [done|done|dead]).
  destruct (GrantUpdate_Any u); cbn [fst]; apply touched_call; [|by apply touched_wal].
  unfold writeCapsChangedLocked. apply touched_wal. etrans; [apply touched_wal, H|].
  eapply touched_put; [rewrite wal_write_tasks; apply put_lookup_eq|..].
  - pose proof (update_same_but_grant u t2 (mkAuthorityWrite AuthoritySource_Resume resumer) e') as Hs. apply (sbg_ID _ _ Hs).
  - intros Hl. exfalso. revert Hl. unfold live. rewrite applyGrant_status. by intros [|].
Qed.

Lemma step_touched o s : quiet o = true → touched s (step s o).
Proof.
  intros Hq. destruct o; try discriminate Hq; cbn [step].
  - apply Create_touched.
  - unfold SetCaps. destruct (st_tasks s !! id) as [e|] eqn:E; [|done]. cbn [fst]. unfold writeCapsChangedLocked. apply touched_wal.
    eapply touched_put; [done|apply (sbg_ID _ _ (update_same_but_grant _ _ _ _))|unfold live; by rewrite applyGrant_status].
  - unfold SetParent. destruct (st_tasks s !! id) as [e|] eqn:E; [|done]. repeat case_match; cbn [fst]; unfold writeParentChangedLocked; touch.
  - apply SwapWithParent_touched.
  - unfold SetProgress. destruct (st_tasks s !! id) as [e|] eqn:E; [|done]. cbn [fst]. touch.
  - unfold SetLifecycle. destruct (st_tasks s !! id) as [e|] eqn:E; [|done]. repeat case_match; cbn [fst]; touch.
  - unfold restoreProgress. destruct (st_tasks s !! pl_TaskID l) as [e|] eqn:E; [|done]. repeat case_match; cbn [fst]; touch.
  - unfold SetWorktreeDir. destruct (st_tasks s !! id) as [e|] eqn:E; [|done]. cbn [fst]. touch.
  - unfold SetResumeConversation. destruct (st_tasks s !! id) as [e|] eqn:E; [|done]. cbn [fst]. touch.
  - unfold SetRingBufferBytes. destruct (st_tasks s !! id) as [e|] eqn:E; [|done]. cbn [fst]. touch.
  - apply Resume_touched.
  - apply Finish_touched.
  - unfold Cancel. destruct (st_tasks s !! id) as [e|] eqn:E; [|done]. destruct (te_Status e); touch.
  - apply MarkFailed_touched.
  - apply SetDetached_touched.
  - apply FailHeld_touched.
  - unfold MarkHold. destruct (st_tasks s !! id) as [e|] eqn:E; [|done]. repeat case_match; cbn [fst]; touch.
  - unfold MarkAttached. destruct (st_tasks s !! id) as [e|] eqn:E; [|done]. cbn [fst].
    destruct attached; cbn [andb]; [|touch]. case_bool_decide as Hd; [|touch]. eapply touched_put; [done|done|]. intros _. by right.
  - apply touched_sub, PruneByIDs_lookup.
  - apply touched_sub, PruneTerminal_lookup.
Qed.
End touched_laws.

(** ** The server over time *)

Inductive server_op :=
  | SvStore (o : op)
  | SvCancelled (ok : bool) (id : string)
  | SvResend (ok : bool) (id : string)
  | SvTick (env : ConnectionID → send_env) (order : list RunnerEntry)
  | SvExpire (now : Z) (clk : string → Z * Z)
  | SvHello (now : Z) (clk : string → clock) (shuttingDown : bool) (c : ConnectionID) (key : option (list N))
      (origin : option DialOrigin) (hello : RunnerHello)
  | SvAccepted (now : Z) (c : ConnectionID) (tid : TaskID)
  | SvStarted (c : ConnectionID) (tid : TaskID) (worktreeDir : string)
  | SvFinished (ck : clock) (c : ConnectionID) (tid : TaskID) (exit : Z) (msg : string)
  | SvGone (clk : string → clock) (c : ConnectionID)
  | SvOpen (en : send_env) (ck : clock) (runner : RunnerEntry) (taskID resolved : string) (resume detached : bool) (reason : string).

Definition server_step (sv : Server) (o : server_op) : Server :=
  match o with
  | SvStore o => on_tasks (λ s, step s o) sv
  | SvCancelled ok id => (OnCancel_run ok id sv).1
  | SvResend ok id => match resend_turn ok id sv with Some sv' => sv' | None => resend_done id sv end
  | SvTick env order => Tick env order sv
  | SvExpire now clk => on_tasks (λ s, (expireHeldTasks now clk s).1) sv
  | SvHello now clk down c key origin hello => (handle_hello now clk down c key origin hello sv).1
  | SvAccepted now c tid => handle_accepted now c tid sv
  | SvStarted c tid wt => handle_started c tid wt sv
  | SvFinished ck c tid exit msg => handle_finished ck c tid exit msg sv
  | SvGone clk c => runner_gone clk c sv
  | SvOpen en ck runner id resolved resume detached reason => (open_on_runner en ck runner id resolved resume detached reason sv).1
  end.

(** The store operations of other handlers do not start tasks; a connection says
    hello once, with an identity, and reports no more held tasks than it takes; an
    open was let through the capacity gate on the entry as it is. *)
Definition server_op_ok (sv : Server) (o : server_op) : Prop :=
  match o with
  | SvStore o => quiet o = true
  | SvHello _ _ _ c _ _ hello =>
      c ≠ zeroConn ∧ rg_runners (sv_reg sv) !! c = None ∧ rh_RunnerId hello ≠ zeroID ∧
      (length (hr_Tasks (rh_Held hello)) ≤ rh_MaxTasks hello)%nat
  | SvOpen _ _ runner _ _ _ _ _ =>
      rg_runners (sv_reg sv) !! re_ID runner = Some runner ∧ (load runner < re_MaxTasks runner)%nat
  | _ => True
  end.

(** A server starts with no connection and no live task: a restart's replay has
    swept the ones the crash cut off. *)
Inductive server_reach : Server → Prop :=
  | server_start s b : ids_ok s → (∀ id m, st_tasks s !! id = Some m → ¬ live m) → server_reach (mkServer NewRegistry s b ∅ [])
  | server_next sv o : server_reach sv → server_op_ok sv o → server_reach (server_step sv o).

Definition reserved (r : Registry) (id : string) : Prop := ∃ c e, rg_runners r !! c = Some e ∧ id ∈ re_ActiveTasks e.

Record sv_inv (sv : Server) : Prop := {
  si_reg : registry_reach (sv_reg sv);
  si_ids : ids_ok (sv_tasks sv);
  si_live id m : st_tasks (sv_tasks sv) !! id = Some m → live m → reserved (sv_reg sv) id;
}.

Section server_laws.
Implicit Types (sv : Server) (r : Registry) (s : Store).

Lemma touched_ids s s' : ids_ok s → touched s s' → ids_ok s'.
Proof. intros Hs Ht id m' Hm. destruct (Ht id m' Hm) as [(m & Em & E & _)|[E _]]; [|done]. rewrite E. by apply Hs. Qed.

Lemma sv_inv_touched sv sv' :
  sv_inv sv → sv_reg sv' = sv_reg sv → touched (sv_tasks sv) (sv_tasks sv') → sv_inv sv'.
Proof.
  intros [H1 H2 H3] Hr Ht. split; [by rewrite Hr|by eapply touched_ids|]. rewrite Hr.
  intros id m' Hm Hl. destruct (Ht id m' Hm) as [(m & Em & _ & Hlm)|[_ Hn]]; [|done]. by apply (H3 id m); auto.
Qed.

Lemma reserved_on_runner c f r id :
  (∀ e, id ∈ re_ActiveTasks e → id ∈ re_ActiveTasks (f e)) → reserved r id → reserved (on_runner c f r) id.
Proof.
  intros Hf (c' & e & He & Hin). exists c', (if decide (c' = c) then f e else e). rewrite on_runner_lookup, He.
  case_decide; cbn; [split; [done|by apply Hf]|done].
Qed.

Lemma BindTask_reserved now c task r id : reserved r id → reserved (BindTask now c task r).1 id.
Proof.
  intros Hr. destruct (BindTask_on_runner now c task r) as [->|[-> _]]; [done|]. apply reserved_on_runner; [|done].
  intros e He. change (id ∈ {[task]} ∪ re_ActiveTasks e). set_solver.
Qed.

Lemma BindTask_reserves now c task r : (BindTask now c task r).2 = true → reserved (BindTask now c task r).1 task.
Proof.
  unfold BindTask. destruct (rg_runners r !! c) as [e|]; [|done]. destruct (_ <=? _)%nat; [done|]. intros _.
  eexists c, _. split; [apply lookup_insert_eq|]. change (task ∈ {[task]} ∪ re_ActiveTasks e). set_solver.
Qed.

Lemma UnbindTask_reserved now c task r id : id ≠ task → reserved r id → reserved (UnbindTask now c task r) id.
Proof.
  intros Hne. apply reserved_on_runner. intros e He. change (id ∈ re_ActiveTasks e ∖ {[task]}). set_solver.
Qed.

(** A task was started: only its own entry may have become live. *)
Definition started (id : string) (s s' : Store) : Prop :=
  ∀ j m', st_tasks s' !! j = Some m' → (∃ m, st_tasks s !! j = Some m ∧ te_ID m' = te_ID m) ∧ (j ≠ id → st_tasks s !! j = Some m').

Lemma started_put id m m' s : st_tasks s !! id = Some m → te_ID m' = te_ID m → started id s (put id m' s).
Proof.
  intros Hm Hid j x. rewrite put_lookup. case_decide as Hj; [|intros Hx; split; [by exists x|done]].
  subst j. intros E; apply (inj Some) in E as <-. split; [by exists m|done].
Qed.

Lemma started_tasks id s s1 s2 : st_tasks s2 = st_tasks s1 → started id s s1 → started id s s2.
Proof. unfold started. by intros ->. Qed.

Lemma started_refl id s : started id s s.
Proof. intros j m' Hm. split; [by exists m'|done]. Qed.

Lemma Assign_started now tw id rid wt sk s : started id s (Assign now tw id rid wt sk s).
Proof.
  unfold Assign. destruct (st_tasks s !! id) as [e|] eqn:E; [|apply started_refl].
  case_bool_decide; cbn [negb]; [by eapply started_put|].
  eapply started_tasks; [etrans; [apply call_tasks|apply wal_write_tasks]|by eapply started_put].
Qed.

Lemma MarkReadopted_started now tw id rid hold d s : started id s (MarkReadopted now tw id rid hold d s).1.
Proof.
  unfold MarkReadopted. destruct (st_tasks s !! id) as [e|] eqn:E; [|apply started_refl].
  case_bool_decide; cbn [negb fst]; [|apply started_refl].
  eapply started_tasks; [etrans; [apply call_tasks|apply wal_write_tasks]|]. by destruct d; eapply started_put.
Qed.

Lemma sv_inv_started sv sv' id :
  sv_inv sv → registry_reach (sv_reg sv') → (∀ j, reserved (sv_reg sv) j → reserved (sv_reg sv') j) →
  reserved (sv_reg sv') id → started id (sv_tasks sv) (sv_tasks sv') → sv_inv sv'.
Proof.
  intros [H1 H2 H3] Hreg Hb Hid Hst. split; [done| |].
  - intros j m' Hm. destruct (Hst j m' Hm) as [(m & Em & E) _]. rewrite E. by apply H2.
  - intros j m' Hm Hl. destruct (decide (j = id)) as [->|Hne]; [done|].
    apply Hb, (H3 j m'); [by apply (Hst j m' Hm)|done].
Qed.

(** ** Each step keeps the invariant *)

Lemma Finish_ends now tw id exit msg s m : st_tasks (Finish now tw id exit msg s) !! id = Some m → ¬ live m.
Proof.
  unfold Finish. destruct (st_tasks s !! id) as [e|] eqn:E; [|congruence].
  destruct (te_Status e) eqn:Es; [..| |];
    try (rewrite call_tasks, wal_write_tasks, put_lookup_eq; intros Hm; apply (inj Some) in Hm as <-; destruct (exit =? 0)%Z; by intros [H|H]; discriminate H).
  - rewrite E. intros Hm; apply (inj Some) in Hm as <-. unfold live. rewrite Es. by intros [|].
  - rewrite E. intros Hm; apply (inj Some) in Hm as <-. unfold live. rewrite Es. by intros [|].
Qed.

Lemma MarkFailed_ends now tw id reason s m : st_tasks (MarkFailed now tw id reason s) !! id = Some m → ¬ live m.
Proof.
  unfold MarkFailed. destruct (st_tasks s !! id) as [e|] eqn:E; [|congruence].
  destruct (te_Status e) eqn:Es;
    try (rewrite call_tasks, wal_write_tasks, put_lookup_eq; intros Hm; apply (inj Some) in Hm as <-; by intros [H|H]; discriminate H);
    (rewrite E; intros Hm; apply (inj Some) in Hm as <-; unfold live; rewrite Es; by intros [|]).
Qed.

Lemma sv_inv_finished sv sv' now tw ub c id exit msg :
  sv_inv sv → sv_reg sv' = UnbindTask ub c id (sv_reg sv) → sv_tasks sv' = Finish now tw id exit msg (sv_tasks sv) → sv_inv sv'.
Proof.
  intros [H1 H2 H3] Hr Ht. pose proof (Finish_touched now tw id exit msg (sv_tasks sv)) as Hto. rewrite <-Ht in Hto. split.
  - rewrite Hr. exact (registry_next _ (RUnbind ub c id) H1 I).
  - by eapply touched_ids.
  - intros j m' Hm Hl. destruct (decide (j = id)) as [->|Hne]; [rewrite Ht in Hm; by destruct (Finish_ends _ _ _ _ _ _ _ Hm)|].
    rewrite Hr. apply UnbindTask_reserved; [done|]. destruct (Hto j m' Hm) as [(m & Em & _ & Hlm)|[_ Hn]]; [|done]. by apply (H3 j m); auto.
Qed.

Lemma BindTask_reach now c task r : registry_reach r → registry_reach (BindTask now c task r).1.
Proof. intros Hr. exact (registry_next _ (RBind now c task) Hr I). Qed.

Lemma tick_runner_inv env sv e : sv_inv sv → sv_inv (tick_runner env sv e).
Proof.
  intros Hsv. pose proof Hsv as [H1 H2 H3]. unfold tick_runner. case_bool_decide; cbn [negb]; [|done].
  destruct (next_task _ _ _) as [t|] eqn:En; [|done]. destruct (next_task_Some _ _ _ _ En) as (Hl & _ & Hq & _).
  pose proof (elem_of_listed _ _ H2 Hl) as Ht. set (en := env (re_ID e)).
  pose proof (BindTask_reach (se_bind en) (re_ID e) (te_ID t) _ H1) as Hreach.
  pose proof (λ j, BindTask_reserved (se_bind en) (re_ID e) (te_ID t) (sv_reg sv) j) as Hres.
  pose proof (BindTask_reserves (se_bind en) (re_ID e) (te_ID t) (sv_reg sv)) as Hid.
  destruct (BindTask _ _ _ _) as [reg ok]. cbn [fst snd] in *. destruct ok; cbn [negb]; [|done].
  pose proof (sendAssign_reg en (re_ID e) (te_ID t) (sv{{ sv_reg := reg }})) as Hs.
  assert (sv_tasks (sendAssign en (re_ID e) (te_ID t) (sv{{ sv_reg := reg }})).1 = sv_tasks sv) as Hst
    by (unfold sendAssign; by repeat (case_match; try done)).
  destruct (sendAssign _ _ _ _) as [sv1 ok]. cbn [fst] in Hs, Hst. change (sv_reg (sv{{ sv_reg := reg }})) with reg in Hs.
  destruct ok; cbn [negb].
  - apply (sv_inv_started sv _ (te_ID t)); [done|..].
    + change (registry_reach (sv_reg sv1)). by rewrite Hs.
    + intros j Hj. change (reserved (sv_reg sv1) j). rewrite Hs. by apply Hres.
    + change (reserved (sv_reg sv1) (te_ID t)). rewrite Hs. by apply Hid.
    + unfold on_tasks. change (started (te_ID t) (sv_tasks sv) (Assign (se_assign en) (se_wal en) (te_ID t) (re_Identity e) "" (re_SkillsInjected e) (sv_tasks sv1))).
      rewrite Hst. apply Assign_started.
  - split.
    + change (registry_reach (UnbindTask (se_unbind en) (re_ID e) (te_ID t) (sv_reg sv1))). rewrite Hs.
      exact (registry_next _ (RUnbind _ _ _) Hreach I).
    + change (ids_ok (sv_tasks sv1)). by rewrite Hst.
    + intros j m Hm Hlm. change (st_tasks (sv_tasks sv1) !! j = Some m) in Hm. rewrite Hst in Hm.
      change (reserved (UnbindTask (se_unbind en) (re_ID e) (te_ID t) (sv_reg sv1)) j). rewrite Hs.
      apply UnbindTask_reserved; [|by apply Hres, (H3 j m)]. intros ->. rewrite Ht in Hm. apply (inj Some) in Hm as <-.
      unfold live in Hlm. rewrite Hq in Hlm. by destruct Hlm.
Qed.

Lemma Tick_inv env order sv : sv_inv sv → sv_inv (Tick env order sv).
Proof. revert sv. unfold Tick. induction order as [|e order IH]; intros sv Hs; [done|]. by apply IH, tick_runner_inv. Qed.

Lemma open_inv en ck e id resolved resume detached reason sv :
  sv_inv sv → rg_runners (sv_reg sv) !! re_ID e = Some e → (load e < re_MaxTasks e)%nat →
  sv_inv (open_on_runner en ck e id resolved resume detached reason sv).1.
Proof.
  intros Hsv He Hload. unfold open_on_runner.
  set (sv1 := on_reg _ (on_tasks _ sv)).
  assert (sv_inv sv1) as Hsv1.
  { apply (sv_inv_started sv _ id); [done|..].
    - apply BindTask_reach, Hsv.
    - intros j. apply BindTask_reserved.
    - apply BindTask_reserves. change (sv_reg (on_tasks _ sv)) with (sv_reg sv). by rewrite (BindTask_some _ _ _ _ e).
    - apply Assign_started. }
  assert (∀ f, sv_inv (on_board (boardRevokeTask (re_Identity e) id) (on_reg (UnbindTask (se_unbind en) (re_ID e) id)
    (on_tasks (Finish (ck_now ck) (ck_wal ck) id (-1) ("server: " +:+ reason)) (on_board f sv1))))) as Hfin
    by (intros f; by eapply (sv_inv_finished sv1)).
  destruct (se_ticket en) as [ticket|]; [|exact (Hfin (λ b, b))].
  destruct (se_body en); cbn [negb fst]; [|apply Hfin]. destruct (re_Conn e); cbn [negb fst]; [|apply Hfin].
  destruct (se_send en); cbn [negb fst]; [|apply Hfin].
  destruct detached; (eapply sv_inv_touched; [exact Hsv1|done|]); [apply SetDetached_touched|done].
Qed.

Lemma foldl_touched {A} (f : Store → A → Store) l s : (∀ s x, touched s (f s x)) → touched s (foldl f s l).
Proof. intros Hf. revert s. induction l as [|x l IH]; intros s; cbn [foldl]; [done|]. etrans; [apply Hf|apply IH]. Qed.

Lemma expire_touched now clk s : touched s (expireHeldTasks now clk s).1.
Proof.
  unfold expireHeldTasks.
  assert (∀ l acc, touched acc.1 (foldl (expire_one now clk) acc l).1) as H; [|apply (H _ (s, 0%Z))].
  induction l as [|t l IH]; intros [s1 n]; cbn [foldl]; [done|]. etrans; [|apply IH]. unfold expire_one.
  repeat case_match; cbn [fst]; try done. apply FailHeld_touched.
Qed.

Lemma fail_unaccepted_touched clk rid acc s t : touched s (fail_unaccepted clk rid acc s t).
Proof. unfold fail_unaccepted. repeat case_match; try done. apply FailHeld_touched. Qed.

Lemma GetByIdentity_entry rid r e :
  registry_ok r → GetByIdentity rid r = Some e → rg_runners r !! re_ID e = Some e ∧ rg_byIdentity r !! rid = Some (re_ID e) ∧ rid ≠ zeroID.
Proof.
  intros Hr. unfold GetByIdentity, GetLiveByIdentity. case_bool_decide as Hz; [done|]. intros (c & Hc & He)%bind_Some.
  by rewrite (rok_key _ Hr _ _ He).
Qed.

(** The runner whose hello is handled still has room for [n] tasks. *)
Definition has_room (rid : list N) (n : nat) r : Prop := ∃ e, GetByIdentity rid r = Some e ∧ (load e + n ≤ re_MaxTasks e)%nat.

Lemma has_room_bind rid n e now task r :
  registry_ok r → GetByIdentity rid r = Some e → (load e + S n ≤ re_MaxTasks e)%nat →
  (BindTask now (re_ID e) task r).2 = true ∧ has_room rid n (BindTask now (re_ID e) task r).1.
Proof.
  intros Hr He Hroom. destruct (GetByIdentity_entry _ _ _ Hr He) as (Hl & Hb & Hz).
  rewrite (BindTask_some _ _ _ _ e) by (done || lia). split; [done|].
  exists (with_tasks ({[task]} ∪ re_ActiveTasks e) now e). split.
  - unfold GetByIdentity, GetLiveByIdentity. rewrite bool_decide_eq_false_2 by done. cbn [fst].
    rewrite on_runner_byIdentity, Hb. cbn. rewrite on_runner_lookup, decide_True by done. by rewrite Hl.
  - change (size ({[task]} ∪ re_ActiveTasks e) + n ≤ re_MaxTasks e)%nat. unfold load in Hroom.
    pose proof (size_union_alt ({[task]} : gset string) (re_ActiveTasks e)) as Hs. rewrite size_singleton in Hs.
    pose proof (subseteq_size (re_ActiveTasks e ∖ {[task]}) (re_ActiveTasks e) ltac:(set_solver)). lia.
Qed.

Lemma readopt_one_inv clk rid hold acc ht n :
  sv_inv (ra_server acc) → has_room rid (S n) (sv_reg (ra_server acc)) →
  let acc' := readopt_one clk rid hold acc ht in sv_inv (ra_server acc') ∧ has_room rid n (sv_reg (ra_server acc')).
Proof.
  intros Hsv (e & He & Hroom). cbv zeta. unfold readopt_one.
  assert (sv_inv (ra_server acc) ∧ has_room rid n (sv_reg (ra_server acc))) as Hsame.
  { split; [done|]. exists e. split; [done|lia]. }
  set (id := EncodeToString ht.1). destruct (Get id (sv_tasks (ra_server acc))) as [t|]; [|exact Hsame].
  case_bool_decide; cbn [negb]; [|exact Hsame]. case_bool_decide; cbn [negb]; [|exact Hsame]. case_bool_decide; cbn [negb]; [|exact Hsame].
  rewrite He. pose proof (registry_reach_ok _ (si_reg _ Hsv)) as Hok.
  destruct (has_room_bind rid n e (ck_bind (clk id)) id _ Hok He Hroom) as [Hb Hroom'].
  set (sv1 := on_board _ (on_reg _ (ra_server acc))). set (session := _ || _).
  pose proof (MarkReadopted_started (ck_now (clk id)) (ck_wal (clk id)) id (EncodeToString rid) hold session (sv_tasks sv1)) as Hst.
  destruct (MarkReadopted _ _ _ _ _ _ _) as [s' err]. cbn [fst] in Hst.
  assert (sv_inv (sv1{{ sv_tasks := s' }})) as Hinv.
  { apply (sv_inv_started (ra_server acc) _ id); [done|apply BindTask_reach, Hsv|intros j; apply BindTask_reserved|by apply BindTask_reserves|exact Hst]. }
  destruct err; (split; [exact Hinv|exact Hroom']).
Qed.

Lemma readopt_inv clk rid report sv :
  sv_inv sv → has_room rid (length (hr_Tasks report)) (sv_reg sv) → sv_inv (ra_server (readoptHeldTasks clk rid report sv)).
Proof.
  intros Hsv Hroom. unfold readoptHeldTasks. case_bool_decide; [done|].
  assert (∀ l acc, sv_inv (ra_server acc) → has_room rid (length l) (sv_reg (ra_server acc)) →
    sv_inv (ra_server (foldl (readopt_one clk rid (EncodeToString (hr_HoldId report))) acc l))) as Hfold.
  { induction l as [|ht l IH]; intros acc Ha Hr; cbn [foldl]; [done|]. cbn [length] in Hr.
    destruct (readopt_one_inv clk rid (EncodeToString (hr_HoldId report)) acc ht (length l) Ha Hr). by apply IH. }
  specialize (Hfold (hr_Tasks report) (mkReadopt sv [] []) Hsv Hroom). set (out := foldl _ _ _) in *.
  eapply sv_inv_touched; [exact Hfold|done|]. apply foldl_touched. intros s t. apply fail_unaccepted_touched.
Qed.

Lemma Add_registered e r r' d :
  re_Identity e ≠ zeroID → Add e r = (r', Some d) →
  rg_runners r' = <[re_ID e := e]> (rg_runners r) ∧ GetByIdentity (re_Identity e) r' = Some e.
Proof.
  intros Hz. unfold Add. rewrite bool_decide_eq_false_2 by done. cbn [negb andb]. destruct (held_by_other_key e r); [done|].
  intros E. apply (f_equal fst) in E. cbn [fst] in E. subst r'. split; [done|].
  unfold GetByIdentity, GetLiveByIdentity. rewrite bool_decide_eq_false_2 by done.
  assert (∀ (m : gmap (list N) ConnectionID) (n : gmap ConnectionID RunnerEntry) i c x,
    m !! i = Some c → n !! c = Some x → (id ← m !! i; n !! id) = Some x) as Hb by (intros * -> ?; done).
  eapply Hb; apply lookup_insert_eq.
Qed.

Lemma hello_inv now clk down c key origin hello sv :
  sv_inv sv → server_op_ok sv (SvHello now clk down c key origin hello) → sv_inv (handle_hello now clk down c key origin hello sv).1.
Proof.
  intros Hsv (Hc & Hnew & Hz & Hlen). unfold handle_hello. destruct (wrong_record_key key origin); [done|].
  set (e := hello_entry now c key origin hello).
  assert (registry_reach (Add e (sv_reg sv)).1) as Hreach.
  { apply (registry_next _ (RAdd e) (si_reg _ Hsv)). split_and!; [done|unfold load; cbn; rewrite size_empty; apply Nat.le_0_l|].
    intros e' He'. change (re_ID e) with c in He'. congruence. }
  destruct (Add e (sv_reg sv)) as [reg [d|]] eqn:Ea; [|done]. cbn [fst] in Hreach.
  destruct (Add_registered e (sv_reg sv) reg d Hz Ea) as [El Eg]. change (re_ID e) with c in El.
  assert (sv_inv (sv{{ sv_reg := reg }})) as Hsv1.
  { destruct Hsv as [H1 H2 H3]. split; [done|done|]. intros id m Hm Hl. destruct (H3 id m Hm Hl) as (c' & e' & He' & Hin).
    exists c', e'. split; [|done]. change (rg_runners reg !! c' = Some e'). rewrite El, lookup_insert_ne; [done|]. intros ->. congruence. }
  destruct down; [done|]. cbn [fst]. apply readopt_inv; [done|]. exists e. split; [done|].
  change (size (∅ : gset string) + length (hr_Tasks (rh_Held hello)) ≤ if (rh_MaxTasks hello <? 1)%nat then 1%nat else rh_MaxTasks hello)%nat.
  rewrite size_empty. destruct (Nat.ltb_spec (rh_MaxTasks hello) 1); lia.
Qed.

(** The tasks of a snapshot after the loop of [failAndRevokeTasksOf]. *)
Lemma fail_and_revoke_fold clk rid sv l :
  let sv' := foldl (fail_and_revoke_one clk rid) sv l in
  sv_reg sv' = sv_reg sv ∧ touched (sv_tasks sv) (sv_tasks sv') ∧
  (∀ id m, id ∈ l → st_tasks (sv_tasks sv') !! id = Some m → ¬ live m) ∧
  (∀ id, id ∈ l → b_tickets (sv_board sv') !! key_of rid (taskIDFromHex id) = None).
Proof.
  induction l as [|x l IH] using rev_ind; cbv zeta; [split_and!; [done|done|by intros id m ?%not_elem_of_nil|by intros id ?%not_elem_of_nil]|].
  rewrite foldl_app. cbn [foldl]. destruct IH as (I1 & I2 & I3 & I4). set (svl := foldl _ sv l) in *.
  pose proof (MarkFailed_touched (ck_now (clk x)) (ck_wal (clk x)) x "runner_disconnected" (sv_tasks svl)) as Ht.
  split_and!; [exact I1|etrans; [exact I2|exact Ht]| |].
  - intros id m Hin Hm.
    change (st_tasks (MarkFailed (ck_now (clk x)) (ck_wal (clk x)) x "runner_disconnected" (sv_tasks svl)) !! id = Some m) in Hm.
    destruct (decide (id = x)) as [->|Hne]; [by eapply MarkFailed_ends|].
    destruct (Ht id m Hm) as [(m0 & Em & _ & Hl)|[_ Hl]]; [|done]. intros Hlm. eapply I3; [|exact Em|auto].
    apply elem_of_app in Hin as [?|?%list_elem_of_singleton]; done.
  - intros id Hin. change (b_tickets (Revoke rid (taskIDFromHex x) (sv_board svl)) !! key_of rid (taskIDFromHex id) = None).
    destruct (Revoke_drops rid (taskIDFromHex x) (sv_board svl)) as [-> _]. apply lookup_delete_None.
    apply elem_of_app in Hin as [Hin|E%list_elem_of_singleton]; [right; by apply I4|left; by subst].
Qed.

Lemma runner_gone_cases clk c e sv :
  registry_reach (sv_reg sv) → rg_runners (sv_reg sv) !! c = Some e →
  let sv' := runner_gone clk c sv in
  rg_runners (sv_reg sv') = delete c (rg_runners (sv_reg sv)) ∧ registry_reach (sv_reg sv') ∧
  touched (sv_tasks sv) (sv_tasks sv') ∧
  (∀ id m, id ∈ re_ActiveTasks e → st_tasks (sv_tasks sv') !! id = Some m → ¬ live m) ∧
  (∀ id, id ∈ re_ActiveTasks e → b_tickets (sv_board sv') !! key_of (re_Identity e) (taskIDFromHex id) = None).
Proof.
  intros Hr E. cbv zeta. unfold runner_gone, Registry_Get. rewrite E.
  pose proof (registry_next _ (RRemove c) Hr I) as Hreach. pose proof (registry_reach_ok _ Hr) as Hok.
  destruct (Remove_cases c (sv_reg sv) e ltac:(intros ->; by rewrite (rok_nonzero _ Hok) in E) E) as [El _].
  destruct (fail_and_revoke_fold clk (re_Identity e) (on_reg (Registry_Remove c) sv) (elements (re_ActiveTasks e))) as (F1 & F2 & F3 & F4).
  fold (failAndRevokeTasksOf clk e (on_reg (Registry_Remove c) sv)) in F1, F2, F3, F4. rewrite F1.
  split_and!; [exact El|exact Hreach|exact F2| |].
  - intros id m Hin. by apply F3, elem_of_elements.
  - intros id Hin. by apply F4, elem_of_elements.
Qed.

Lemma gone_inv clk c sv : sv_inv sv → sv_inv (runner_gone clk c sv).
Proof.
  intros Hsv. pose proof Hsv as [H1 H2 H3].
  destruct (rg_runners (sv_reg sv) !! c) as [e|] eqn:E; cycle 1.
  { assert (Registry_Remove c (sv_reg sv) = sv_reg sv) as Er by (unfold Registry_Remove; by rewrite E).
    unfold runner_gone, Registry_Get. rewrite E. eapply sv_inv_touched; [exact Hsv|exact Er|done]. }
  destruct (runner_gone_cases clk c e sv H1 E) as (F1 & F2 & F3 & F4 & _). split; [done|by eapply touched_ids|].
  intros id m Hm Hl. destruct (F3 id m Hm) as [(m0 & Em & _ & Hlm)|[_ Hn]]; [|done].
  destruct (H3 id m0 Em (Hlm Hl)) as (c' & e' & He' & Hin). exists c', e'. split; [|done]. rewrite F1, lookup_delete_ne; [done|].
  intros <-. rewrite E in He'. apply (inj Some) in He' as <-. by apply (F4 id m).
Qed.

Lemma server_step_inv sv o : sv_inv sv → server_op_ok sv o → sv_inv (server_step sv o).
Proof.
  intros Hsv Ho. destruct o as [o|ok id|ok id|env order|now clk|now clk down c key origin hello|now c tid|c tid wt|ck c tid exit msg|clk c|en ck e id resolved resume detached reason]; cbn [server_step].
  - eapply sv_inv_touched; [exact Hsv|done|by apply step_touched].
  - unfold OnCancel_run. repeat case_match; try done; destruct ok; by eapply sv_inv_touched.
  - assert (sv_inv (resend_done id sv)) by by eapply sv_inv_touched.
    unfold resend_turn. repeat case_match; simplify_eq; try done. destruct ok; by eapply sv_inv_touched.
  - by apply Tick_inv.
  - eapply sv_inv_touched; [exact Hsv|done|apply expire_touched].
  - by apply hello_inv.
  - unfold handle_accepted. destruct (acceptTaskReport _ _ _); cbn [negb]; [|done]. destruct Hsv as [H1 H2 H3].
    split; [exact (registry_next _ (RNote now c) H1 I)|done|]. intros id m Hm Hl. by apply reserved_on_runner; [|apply (H3 id m)].
  - unfold handle_started. destruct (acceptTaskReport _ _ _); cbn [negb]; [|done].
    eapply sv_inv_touched; [exact Hsv|done|exact (step_touched (OpSetWorktreeDir _ _) _ eq_refl)].
  - unfold handle_finished. destruct (acceptTaskReport _ _ _); cbn [negb]; [|done]. by eapply (sv_inv_finished sv).
  - by apply gone_inv.
  - destruct Ho. by apply open_inv.
Qed.

Lemma server_reach_inv sv : server_reach sv → sv_inv sv.
Proof.
  induction 1 as [s b Hids Hno|sv o _ IH Ho]; [|by apply server_step_inv]. split; [constructor|done|].
  intros id m Hm Hl. by destruct (Hno id m Hm).
Qed.

(** C19. In whatever order hellos, reports, ends of connections, scheduling
    passes, opens, cancels, sweeps and the other store operations come, each run
    as a whole with the capacity test of an open included, a task that is Running
    or Detached is reserved on a registered runner, and no runner is over its
    limit: nothing runs that no teardown would end, and without runners nothing
    runs.  A runner reports no more held tasks than its limit, and a connection
    says hello once. *)
Theorem live_tasks_are_reserved sv :
  server_reach sv →
  (∀ id t, Get id (sv_tasks sv) = Some t → te_Status t = Running ∨ te_Status t = Detached →
     ∃ c e, Registry_Get c (sv_reg sv) = Some e ∧ id ∈ re_ActiveTasks e) ∧
  (∀ c e, Registry_Get c (sv_reg sv) = Some e → (load e ≤ re_MaxTasks e)%nat).
Proof.
  intros Hsv%server_reach_inv. split; [exact (si_live _ Hsv)|]. intros c e. apply (rok_cap _ (registry_reach_ok _ (si_reg _ Hsv))).
Qed.

(** When a runner's connection ends, none of the tasks reserved on it is Running
    or Detached afterwards and none has a ticket under the runner's identity; a task
    that still runs is reserved on another connection. *)
Theorem runner_gone_ends_its_tasks clk c e sv :
  server_reach sv → Registry_Get c (sv_reg sv) = Some e →
  let sv' := runner_gone clk c sv in
  Registry_Get c (sv_reg sv') = None ∧
  (∀ id, id ∈ re_ActiveTasks e →
     b_tickets (sv_board sv') !! key_of (re_Identity e) (taskIDFromHex id) = None ∧
     ∀ t, Get id (sv_tasks sv') = Some t → te_Status t ≠ Running ∧ te_Status t ≠ Detached) ∧
  (∀ id t, Get id (sv_tasks sv') = Some t → te_Status t = Running ∨ te_Status t = Detached →
     ∃ c' e', c' ≠ c ∧ Registry_Get c' (sv_reg sv') = Some e' ∧ id ∈ re_ActiveTasks e').
Proof.
  intros Hsv%server_reach_inv E sv'. destruct (runner_gone_cases clk c e sv (si_reg _ Hsv) E) as (F1 & _ & _ & F4 & F5). fold sv' in F1, F4, F5.
  pose proof (gone_inv clk c sv Hsv) as Hsv'. fold sv' in Hsv'.
  assert (Registry_Get c (sv_reg sv') = None) as Hnone by (unfold Registry_Get; by rewrite F1, lookup_delete_eq).
  split_and!; [done| |].
  - intros id Hin. split; [by apply F5|]. intros t Ht. pose proof (F4 id t Hin Ht) as Hl. unfold live in Hl. tauto.
  - intros id t Ht Hl. destruct (si_live _ Hsv' id t Ht Hl) as (c' & e' & He' & Hin). exists c', e'. split_and!; [|done|done].
    intros ->. unfold Registry_Get in Hnone. congruence.
Qed.
End server_laws.

(** ** What a hello takes back *)

Section readopt_laws.
Implicit Types (sv : Server) (s : Store) (t : TaskEntry).

(** The report may take the task back. *)
Definition readoptable (rid : list N) (hold : string) t : Prop :=
  te_Status t = Held ∧ te_HoldID t = hold ∧ te_AssignedTo t = rid.
Definition hexes (l : list (TaskID * list N)) : list string := EncodeToString <$> l.*1.

Lemma taskIDFromHex_Encode id : wf_id id → taskIDFromHex (EncodeToString id) = id.
Proof.
  intros [Hl Hb]. unfold taskIDFromHex. rewrite (hex_prefix_decode _ id) by (by apply DecodeString_EncodeToString).
  by apply copy16_wf.
Qed.

Record readopt_inv_ rid hold sv (l : list (TaskID * list N)) (acc : readopt_acc) : Prop := {
  rd_in id : id ∈ EncodeToString <$> ra_accepted acc ↔
    id ∈ hexes l ∧ ∃ t, st_tasks (sv_tasks sv) !! id = Some t ∧ readoptable rid hold t;
  rd_out id : id ∉ EncodeToString <$> ra_accepted acc → st_tasks (sv_tasks (ra_server acc)) !! id = st_tasks (sv_tasks sv) !! id;
  rd_live id : id ∈ EncodeToString <$> ra_accepted acc →
    ∃ t, st_tasks (sv_tasks (ra_server acc)) !! id = Some t ∧ live t ∧ te_AssignedTo t = rid;
  rd_ticket tid : tid ∈ ra_accepted acc →
    ∃ ticket, (tid, ticket) ∈ l ∧ b_tickets (sv_board (ra_server acc)) !! key_of rid tid = Some ticket;
  rd_order : st_order (sv_tasks (ra_server acc)) = st_order (sv_tasks sv);
  rd_ids : ids_ok (sv_tasks (ra_server acc));
}.

Lemma MarkReadopted_held now tw id rid hold d s t :
  st_tasks s !! id = Some t → te_Status t = Held →
  ∃ s' t', MarkReadopted now tw id rid hold d s = (s', None) ∧ st_order s' = st_order s ∧
    st_tasks s' = <[id := t']> (st_tasks s) ∧ live t' ∧ te_AssignedTo t' = te_AssignedTo t ∧ te_ID t' = te_ID t.
Proof.
  intros Ht Hh. unfold MarkReadopted. rewrite Ht. rewrite (bool_decide_eq_true_2 (te_Status t = Held)) by done. cbn [negb].
  eexists _, _. split; [reflexivity|]. split; [etrans; [apply call_keeps|]; etrans; [apply wal_write_order|done]|].
  split; [etrans; [apply call_keeps|]; etrans; [apply wal_write_tasks|reflexivity]|].
  destruct d; (split_and!; [|done|done]); [by right|by left].
Qed.

Lemma readopt_one_spec clk rid hold sv l acc ht :
  rid ≠ zeroID → Forall (λ x, wf_id x.1) (l ++ [ht]) → readopt_inv_ rid hold sv l acc →
  readopt_inv_ rid hold sv (l ++ [ht]) (readopt_one clk rid hold acc ht).
Proof.
  intros Hz Hwf [R1 R2 R3 R4 R5 R6]. unfold readopt_one. set (id := EncodeToString ht.1).
  assert (∀ j, j ∈ hexes (l ++ [ht]) ↔ j ∈ hexes l ∨ j = id) as Hhex.
  { intros j. unfold hexes. rewrite !fmap_app, elem_of_app. cbn. by rewrite list_elem_of_singleton. }
  assert (¬ (∃ t, st_tasks (sv_tasks (ra_server acc)) !! id = Some t ∧ readoptable rid hold t) → readopt_inv_ rid hold sv (l ++ [ht]) acc) as Hskip.
  { intros Hno. split; [|done|done| |done|done].
    - intros j. rewrite R1, Hhex. split; [tauto|]. intros [[Hj| ->] Hok]; [done|]. split; [|done].
      destruct (decide (id ∈ EncodeToString <$> ra_accepted acc)) as [Hin|Hin]; [by apply R1 in Hin as [? _]|].
      destruct Hno. by rewrite R2.
    - intros tid Htid. destruct (R4 tid Htid) as (ticket & Hin & Ht). exists ticket. split; [set_solver|done]. }
  unfold Get. destruct (st_tasks (sv_tasks (ra_server acc)) !! id) as [t|] eqn:Et; [|by apply Hskip; intros (? & ? & _)].
  case_bool_decide as H1; cbn [negb]; [|apply Hskip; intros (? & E & H & _); simplify_eq; done].
  case_bool_decide as H2; cbn [negb]; [|apply Hskip; intros (? & E & _ & H & _); simplify_eq; done].
  case_bool_decide as H3; cbn [negb]; [|apply Hskip; intros (? & E & _ & _ & H); simplify_eq; done].
  set (sv1 := match GetByIdentity rid _ with Some e => _ | None => _ end).
  assert (sv_tasks sv1 = sv_tasks (ra_server acc) ∧ sv_board sv1 = sv_board (ra_server acc)) as [T1 B1]
    by (unfold sv1; by destruct (GetByIdentity rid (sv_reg (ra_server acc)))).
  set (session := _ || _). set (sv2 := on_board _ sv1). change (sv_tasks sv2) with (sv_tasks sv1). rewrite T1.
  destruct (MarkReadopted_held (ck_now (clk id)) (ck_wal (clk id)) id (EncodeToString rid) hold session _ _ Et H1)
    as (s' & t' & -> & O' & L' & V' & A' & I').
  assert (id ∉ EncodeToString <$> ra_accepted acc) as Hnew.
  { intros (t0 & Et0 & Hl & _)%R3. rewrite Et in Et0. apply (inj Some) in Et0 as <-. unfold live in Hl. rewrite H1 in Hl. by destruct Hl. }
  assert (∀ j, j ∈ EncodeToString <$> (ra_accepted acc ++ [ht.1]) ↔ j ∈ EncodeToString <$> ra_accepted acc ∨ j = id) as Hacc.
  { intros j. rewrite fmap_app, elem_of_app. cbn. by rewrite list_elem_of_singleton. }
  apply Forall_app in Hwf as [_ Hwf%Forall_inv].
  split; cbn [ra_server ra_accepted].
  - intros j. rewrite Hacc, R1, Hhex. split.
    + intros [[? ?]| ->]; [split; [by left|done]|split; [by right|]]. exists t. split; [by rewrite <-R2|done].
    + intros [[Hj| ->] Hok]; [left; by split|by right].
  - intros j Hj. change (st_tasks s' !! j = st_tasks (sv_tasks sv) !! j). rewrite Hacc in Hj. rewrite L', lookup_insert_ne by (intros <-; tauto).
    apply R2. tauto.
  - intros j Hj. change (∃ t0, st_tasks s' !! j = Some t0 ∧ live t0 ∧ te_AssignedTo t0 = rid). rewrite L'.
    destruct (decide (j = id)) as [->|Hne]; [exists t'; rewrite lookup_insert_eq, A'; done|].
    rewrite lookup_insert_ne by done. apply R3. rewrite Hacc in Hj. tauto.
  - intros tid Htid. change (∃ ticket, (tid, ticket) ∈ l ++ [ht] ∧ b_tickets (boardRegisterTask rid id ht.2 (te_AgentProfile t) true (sv_board sv1)) !! key_of rid tid = Some ticket).
    rewrite boardRegisterTask_tickets, decide_False, B1 by done. unfold id. rewrite (taskIDFromHex_Encode ht.1 Hwf).
    apply elem_of_app in Htid as [Htid|E%list_elem_of_singleton].
    + destruct (R4 tid Htid) as (ticket & Hin & Ht). exists ticket. split; [set_solver|]. rewrite lookup_insert_ne; [done|].
      intros E. injection E as E. apply Hnew. unfold id. rewrite E. by apply list_elem_of_fmap_2.
    + subst tid. exists ht.2. rewrite lookup_insert_eq. split; [destruct ht; set_solver|done].
  - change (st_order s' = st_order (sv_tasks sv)). by rewrite O'.
  - intros j x. change (st_tasks s' !! j = Some x → te_ID x = j). rewrite L'.
    intros [[<- <-]|[_ Hx]]%lookup_insert_Some; [rewrite I'; by apply R6|by apply R6].
Qed.

Lemma readopt_fold clk rid hold sv l :
  rid ≠ zeroID → Forall (λ x, wf_id x.1) l → ids_ok (sv_tasks sv) →
  readopt_inv_ rid hold sv l (foldl (readopt_one clk rid hold) (mkReadopt sv [] []) l).
Proof.
  intros Hz Hwf Hids. induction l as [|ht l IH] using rev_ind.
  - split; try done; [|by intros ? ?%not_elem_of_nil..]. intros id. split; [by intros ?%not_elem_of_nil|by intros [?%not_elem_of_nil _]].
  - rewrite foldl_app. cbn [foldl]. apply readopt_one_spec; [done|done|]. apply IH. by apply Forall_app in Hwf as [? _].
Qed.

(** The second loop: [over] is what it fails. *)
Definition over rid (accepted : list string) t : Prop := te_Status t = Held ∧ te_AssignedTo t = rid ∧ te_ID t ∉ accepted.

Lemma fail_unaccepted_fold clk rid accepted s l :
  (∀ t, t ∈ l → st_tasks s !! te_ID t = Some t) →
  let s' := foldl (fail_unaccepted clk rid accepted) s l in
  (∀ t, t ∈ l → over rid accepted t → ∃ x, st_tasks s' !! te_ID t = Some x ∧ hold_failed "not_held_by_runner" x) ∧
  (∀ id, (∀ t, t ∈ l → over rid accepted t → te_ID t ≠ id) → st_tasks s' !! id = st_tasks s !! id).
Proof.
  induction l as [|t l IH] using rev_ind; intros Hl; cbv zeta; [split; [by intros t ?%not_elem_of_nil|done]|].
  rewrite foldl_app. cbn [foldl]. destruct IH as [I1 I2]; [intros x Hx; apply Hl; set_solver|]. set (s1 := foldl _ s l) in *.
  assert (st_tasks s !! te_ID t = Some t) as Ht by (apply Hl; set_solver).
  destruct (decide (over rid accepted t)) as [Ho|Hno].
  - pose proof Ho as (O1 & O2 & O3).
    assert (fail_unaccepted clk rid accepted s1 t = FailHeld (ck_now (clk (te_ID t))) (ck_wal (clk (te_ID t))) (te_ID t) "not_held_by_runner" s1) as ->.
    { unfold fail_unaccepted. rewrite (bool_decide_eq_true_2 _ O1), (bool_decide_eq_true_2 _ O2), (bool_decide_eq_false_2 _ O3). done. }
    assert (∃ y, st_tasks s1 !! te_ID t = Some y ∧ (te_Status y = Held ∨ hold_failed "not_held_by_runner" y)) as (y & Hy & Hst).
    { destruct (decide (Exists (λ x, te_ID x = te_ID t) l)) as [(x & Hx & E)%Exists_exists|Hn].
      - assert (st_tasks s !! te_ID x = Some x) as Hx' by (apply Hl; set_solver). rewrite E, Ht in Hx'. apply (inj Some) in Hx' as <-.
        destruct (I1 t Hx Ho) as (y & Hy & Hf). eauto.
      - exists t. split; [|by left]. rewrite I2; [done|]. intros x Hx _ E. apply Hn, Exists_exists. eauto. }
    destruct (FailHeld_lookup (ck_now (clk (te_ID t))) (ck_wal (clk (te_ID t))) _ _ _ _ Hy Hst) as (x & -> & Hx). split.
    + intros z [Hz|E%list_elem_of_singleton]%elem_of_app Hoz; [|subst z; exists x; by rewrite lookup_insert_eq].
      destruct (decide (te_ID t = te_ID z)) as [<-|Hne]; [exists x; by rewrite lookup_insert_eq|]. rewrite lookup_insert_ne by done. by apply I1.
    + intros id Hid. rewrite lookup_insert_ne by (apply Hid; [set_solver|done]). apply I2. intros z Hz. apply Hid. set_solver.
  - assert (fail_unaccepted clk rid accepted s1 t = s1) as ->.
    { unfold fail_unaccepted. case_bool_decide as O1; [|done]. case_bool_decide as O2; [|done]. cbn [negb orb].
      case_bool_decide as O3; [done|]. by destruct Hno. }
    split.
    + intros z [Hz|E%list_elem_of_singleton]%elem_of_app Hoz; [by apply I1|by subst z].
    + intros id Hid. apply I2. intros z Hz. apply Hid. set_solver.
Qed.

(** C32. A reconnecting runner gets back exactly the tasks it reports that are held
    under the hold it names and were its own: those run again, with the ticket it
    reported.  Every other held task of the runner is failed, so none of them stays
    held, and no task that was not held by this runner changes. *)
Theorem readoptHeldTasks_spec clk rid report sv :
  rid ≠ zeroID → ids_ok (sv_tasks sv) → Forall (λ x, wf_id x.1) (hr_Tasks report) →
  let hold := EncodeToString (hr_HoldId report) in
  let out := readoptHeldTasks clk rid report sv in
  let accepted := EncodeToString <$> ra_accepted out in
  (∀ id, id ∈ accepted ↔ id ∈ hexes (hr_Tasks report) ∧ ∃ t, Get id (sv_tasks sv) = Some t ∧ readoptable rid hold t) ∧
  (∀ id, id ∈ accepted → ∃ t, Get id (sv_tasks (ra_server out)) = Some t ∧ live t ∧ te_AssignedTo t = rid) ∧
  (∀ tid, tid ∈ ra_accepted out → ∃ ticket, (tid, ticket) ∈ hr_Tasks report ∧
     b_tickets (sv_board (ra_server out)) !! key_of rid tid = Some ticket) ∧
  (∀ t, t ∈ List_ 0 (sv_tasks sv) → te_Status t = Held → te_AssignedTo t = rid → te_ID t ∉ accepted →
     ∃ x, Get (te_ID t) (sv_tasks (ra_server out)) = Some x ∧ hold_failed "not_held_by_runner" x) ∧
  (∀ id t, Get id (sv_tasks sv) = Some t → ¬ (te_Status t = Held ∧ te_AssignedTo t = rid) →
     Get id (sv_tasks (ra_server out)) = Some t).
Proof.
  intros Hz Hids Hwf hold out accepted. pose proof (readopt_fold clk rid hold sv (hr_Tasks report) Hz Hwf Hids) as [R1 R2 R3 R4 R5 R6].
  set (mid := foldl (readopt_one clk rid hold) _ (hr_Tasks report)) in *. set (s1 := sv_tasks (ra_server mid)) in *.
  set (s2 := foldl (fail_unaccepted clk rid (EncodeToString <$> ra_accepted mid)) s1 (List_ 0 s1)).
  assert (out = mid{{ ra_server := (ra_server mid){{ sv_tasks := s2 }} }}) as Eout
    by (unfold out, readoptHeldTasks; by rewrite bool_decide_eq_false_2).
  subst accepted. rewrite Eout. clear Eout out. set (accepted := EncodeToString <$> ra_accepted mid) in *.
  destruct (fail_unaccepted_fold clk rid accepted s1 (List_ 0 s1)) as [F1 F2]; [intros t; by apply elem_of_listed|]. fold s2 in F1, F2.
  split_and!; [exact R1| |exact R4| |].
  - intros id Hin. destruct (R3 id Hin) as (t & Ht & Hl). exists t. split; [|done]. unfold Get. rewrite F2; [done|].
    intros x _ (_ & _ & Hx) E. by rewrite E in Hx.
  - intros t Ht Hh Ha Hn. apply F1; [|done]. rewrite List_0_listed in Ht |- *. unfold listed in Ht |- *. rewrite R5.
    apply list_elem_of_omap in Ht as (i & Hi & Hti). apply list_elem_of_omap. exists i. split; [done|]. rewrite R2; [done|].
    by rewrite <-(Hids _ _ Hti).
  - intros id t Ht Hno. unfold Get.
    assert (id ∉ accepted) as Hin by (intros (_ & t0 & Et0 & Hr1 & _ & Hr2)%R1; unfold Get in Ht; simplify_eq; by destruct Hno).
    rewrite F2; [by rewrite R2|]. intros x Hx (Hx1 & Hx2 & Hx3) E. apply (elem_of_listed _ _ R6) in Hx. rewrite E in Hx, Hx3.
    rewrite R2 in Hx by done. unfold Get in Ht. simplify_eq. by destruct Hno.
Qed.
End readopt_laws.

(** ** A sample run *)

Module SampleRunner.
Definition ck : clock := mkClock 20 21 22 23.
Definition hello (held : list (TaskID * list N)) : RunnerHello :=
  mkRunnerHello id_w "h1" "linux" 1 ["/srv"%string] "claude" true [] (mkHeldTasksReport [170] held).
Definition says_hello (n : N) : server_op := SvHello (Z.of_N n) (λ _, ck) false (conn_w n) (Some [7; 7]) None (hello []).
Definition tick (sv : Server) : Server := server_step sv (SvTick (SampleSched.env true) (Registry_List (sv_reg sv))).
Definition cancel_and_resume (sv : Server) : Server :=
  foldl server_step sv
    [SvStore (OpCancel 10 10 SampleSched.id); SvCancelled true SampleSched.id;
     SvStore (OpResume 11 11 11 SampleSched.id "again" [] SelAny "" 1 (mkGrantUpdate false false false false (mkGrant 0 DefaultScope 0 DefaultScope)) 0 "claude" zeroID)].
Definition status (sv : Server) : option TaskStatus := te_Status <$> Get SampleSched.id (sv_tasks sv).

Definition sv0 : Server := mkServer NewRegistry (SampleSched.tasks "/srv") (New (mkConfig 8 0 8 100 1)) ∅ [].
Definition sv1 : Server := server_step sv0 (says_hello 1).
(** The task runs on the first connection. *)
Definition sv2 : Server := tick sv1.
(** Cancelled and resumed, waiting for a runner; the first run has not reported. *)
Definition sv3 : Server := cancel_and_resume sv2.
(** The runner reconnected before that, and the task runs on the new connection. *)
Definition sv4 : Server := tick (cancel_and_resume (server_step sv2 (says_hello 2))).

Lemma reach2 : server_reach sv2.
Proof.
  apply server_next; [|done]. apply server_next.
  - apply server_start; [apply StoreOk_ids, SampleSched.tasks_ok|].
    intros id m Hm Hl. pose proof (elem_of_map_to_list (st_tasks (SampleSched.tasks "/srv")) id m) as [_ H]. specialize (H Hm). clear Hm.
    vm_compute in H. apply list_elem_of_singleton in H. injection H as -> ->. by destruct Hl.
  - split_and!; [vm_compute; discriminate|by vm_compute|vm_compute; discriminate|vm_compute; lia].
Qed.

(** A store whose one task is held under [aa], and a server on it. *)
Definition held : Store :=
  run (SetWAL (Some []) NewTaskStore) [SampleSched.create "/srv"; OpAssign 3 3 SampleSched.id id_w "" true;
    OpMarkHold 4 SampleSched.id (EncodeToString id_w) "aa" 100].
Definition svh : Server := SampleSched.server held.

Lemma held_ids : ids_ok held.
Proof. apply StoreOk_ids, run_StoreOk. apply Forall_cons_2; [apply SampleSched.create_ok|]. by repeat constructor. Qed.
End SampleRunner.

Lemma live_tasks_are_reserved_witness :
  SampleRunner.status SampleRunner.sv2 = Some Running ∧
  ∃ c e, Registry_Get c (sv_reg SampleRunner.sv2) = Some e ∧ SampleSched.id ∈ re_ActiveTasks e.
Proof.
  split; [by vm_compute|].
  apply (proj1 (live_tasks_are_reserved SampleRunner.sv2 SampleRunner.reach2) SampleSched.id
    (default zeroEntry (Get SampleSched.id (sv_tasks SampleRunner.sv2)))); [by vm_compute|left; by vm_compute].
Defined.

Lemma runner_gone_ends_its_tasks_witness :
  let sv' := runner_gone (λ _, SampleRunner.ck) (conn_w 1) SampleRunner.sv2 in
  Registry_Get (conn_w 1) (sv_reg sv') = None ∧ SampleRunner.status sv' = Some Failed.
Proof.
  split; [|by vm_compute].
  apply (runner_gone_ends_its_tasks (λ _, SampleRunner.ck) (conn_w 1)
    (default (runner_w 1) (Registry_Get (conn_w 1) (sv_reg SampleRunner.sv2))) SampleRunner.sv2 SampleRunner.reach2). by vm_compute.
Defined.

Lemma readoptHeldTasks_spec_witness :
  let out := readoptHeldTasks (λ _, SampleRunner.ck) id_w (mkHeldTasksReport [170] [(SampleSched.tid, [5])]) SampleRunner.svh in
  ra_accepted out = [SampleSched.tid] ∧
  ∃ t, Get SampleSched.id (sv_tasks (ra_server out)) = Some t ∧ live t ∧ te_AssignedTo t = id_w.
Proof.
  split; [by vm_compute|].
  destruct (readoptHeldTasks_spec (λ _, SampleRunner.ck) id_w (mkHeldTasksReport [170] [(SampleSched.tid, [5])]) SampleRunner.svh) as (_ & H & _).
  - vm_compute. discriminate.
  - exact SampleRunner.held_ids.
  - apply Forall_singleton. split; [by vm_compute|by vm_compute; repeat constructor].
  - apply H. vm_compute. by left.
Defined.

(** ** Two runs of one task *)

(** A task that was cancelled and resumed is ended by the late report of its first
    run: the first runner still owns the task's slot, so the report is accepted, and
    [Finish] moves the waiting task to Failed although nothing was started since.
    The resumed run never happens. *)
Theorem late_report_ends_resumed_task :
  let sv' := server_step SampleRunner.sv3 (SvFinished SampleRunner.ck (conn_w 1) SampleSched.tid (-1) "killed") in
  SampleRunner.status SampleRunner.sv3 = Some Queued ∧ SampleRunner.status sv' = Some Failed ∧
  sv_sent sv' = [SentAssign (conn_w 1) SampleSched.id [9]; SentCancel (conn_w 1) SampleSched.id].
Proof. split_and!; by vm_compute. Qed.

(** The same for a runner that reconnected: the teardown of its displaced connection
    fails the task that the new connection is running, and takes its agent's ticket,
    while the new connection holds the slot. *)
Theorem late_teardown_ends_resumed_task :
  let sv' := server_step SampleRunner.sv4 (SvGone (λ _, SampleRunner.ck) (conn_w 1)) in
  let k := key_of id_w SampleSched.tid in
  SampleRunner.status SampleRunner.sv4 = Some Running ∧ ownsTask (conn_w 2) SampleSched.id (sv_reg SampleRunner.sv4) = true ∧
  b_tickets (sv_board SampleRunner.sv4) !! k = Some [9] ∧
  SampleRunner.status sv' = Some Failed ∧ ownsTask (conn_w 2) SampleSched.id (sv_reg sv') = true ∧
  b_tickets (sv_board sv') !! k = None.
Proof. split_and!; by vm_compute. Qed.

(** An open tests the capacity of the runner on the entry it was handed, and does not
    look at the answer of [BindTask].  When the last slot is given away in between,
    here by a scheduling pass, the second task runs without a reservation: the
    reports of the runner on it are refused, and the end of its connection does not end it. *)
Theorem open_overbooks :
  let entry := default (runner_w 1) (Registry_Get (conn_w 1) (sv_reg SampleRunner.sv1)) in
  let sv := server_step SampleRunner.sv2
    (SvStore (OpCreate "b" 2 2 2 "/srv" "go" 1 1 zeroID "" SelAny [] (mkGrant 0 DefaultScope 0 DefaultScope) "claude")) in
  let '(sv', ok) := open_on_runner (SampleSched.env true (conn_w 1)) SampleRunner.ck entry "b" "claude" false false "" sv in
  load entry = 0%nat ∧ re_MaxTasks entry = 1%nat ∧ ok = true ∧
  (te_Status <$> Get "b" (sv_tasks sv')) = Some Running ∧ ownsTask (conn_w 1) "b" (sv_reg sv') = false ∧
  (te_Status <$> Get "b" (sv_tasks (runner_gone (λ _, SampleRunner.ck) (conn_w 1) sv'))) = Some Running.
Proof. vm_compute. split_and!; reflexivity. Qed.
