(* ===== verification/Gates.v ===== *)
(** * The authority gates of the server: [server/capabilities.go],
    [server/pubsub_authz.go] and [server/task_event_audience.go]

    A request reaches a handler over a connection; the connection's principal
    task, recorded when the connection was authenticated, decides what the
    request may do.  The gates are functions of the recorded principals and of
    the task store.  An operator connection has no principal, the zero id.

    Theorems: a caller whose record is gone keeps no authority, the widened index of
    a restore only adds descendants, the audience of an event is the audience of the
    row, and an override may act outside what a listing shows. *)

From stdpp Require Import prelude gmap strings list sorting.
From Stdlib Require Import NArith ZArith.
From coqutil Require Import Datatypes.RecordSetters.
From S2P Require Import Prelude GoStrings Caps Scope Sets Reach Attenuate Delegate View Wire Wal TaskStore Replay Topic BoardReach.

Import DoubleBraceUpdate.
Open Scope N_scope.
Open Scope stdpp_scope.
Set Default Goal Selector "!".

(** ** Connections

    [clientKinds] and [principals] of [TaskHandler], by connection id. *)

Definition ClientKind_Unspecified : N := 0.

Record Conns := mkConns {
  cn_kinds : gmap string N;
  cn_principals : gmap string TaskID;
}.

Definition noConns : Conns := mkConns ∅ ∅.

Definition lookupClientKind (c : Conns) (cid : string) : N :=
  default ClientKind_Unspecified (cn_kinds c !! cid).

Definition lookupPrincipal (c : Conns) (cid : string) : TaskID :=
  default zeroID (cn_principals c !! cid).

Definition is_operator (c : Conns) (cid : string) : bool := bool_decide (lookupPrincipal c cid = zeroID).

(** ** Capability sets *)

Definition hasCap (have want : N) : bool := have .&. want =? want.
Definition hasAnyCap (have want : N) : bool := negb (have .&. want =? 0).

(** The kinds the capability table is keyed by, with the bit each needs. *)
Inductive gated_kind :=
  | TaskControlKind_Cancel | TaskControlKind_PruneTasks | TaskControlKind_Notify
  | TaskControlKind_ProgressClear | TaskControlKind_DialRunner | TaskControlKind_RunnerEnroll
  | TaskControlKind_RunnerUnenroll | TaskControlKind_RunnerKeys | TaskControlKind_RunnerDialAdd
  | TaskControlKind_RunnerDialList | TaskControlKind_RunnerDialRemove | TaskControlKind_RunnerKick
  | TaskControlKind_BoardTopics | TaskControlKind_BoardRead | TaskControlKind_BoardPurge
  | TaskControlKind_BoardRetain | TaskControlKind_BoardFlush | TaskControlKind_BoardArchive
  | TaskControlKind_BoardArchives | TaskControlKind_BoardArchiveRead | TaskControlKind_BoardArchivePurge
  | TaskControlKind_BoardRetract | TaskControlKind_BoardContactsClear | TaskControlKind_BoardMembership
  | TaskControlKind_BoardSubscribers | TaskControlKind_BoardSend | TaskControlKind_BoardWake
  | TaskControlKind_GitQuery | TaskControlKind_OpenExecRun | TaskControlKind_OpenForwardTap
  | TaskControlKind_OpenExecTap.

Definition requiredCap (k : gated_kind) : N :=
  match k with
  | TaskControlKind_Cancel => Capability_Cancel
  | TaskControlKind_PruneTasks => Capability_Prune
  | TaskControlKind_Notify => Capability_Notify
  | TaskControlKind_ProgressClear => Capability_Cancel
  | TaskControlKind_DialRunner => Capability_RunnerAdmin
  | TaskControlKind_RunnerEnroll => Capability_RunnerEnroll
  | TaskControlKind_RunnerUnenroll => Capability_RunnerEnroll
  | TaskControlKind_RunnerKeys => Capability_RunnerEnroll
  | TaskControlKind_RunnerDialAdd => Capability_RunnerAdmin
  | TaskControlKind_RunnerDialList => Capability_RunnerAdmin
  | TaskControlKind_RunnerDialRemove => Capability_RunnerAdmin
  | TaskControlKind_RunnerKick => Capability_RunnerEnroll
  | TaskControlKind_BoardTopics => Capability_BoardObserve
  | TaskControlKind_BoardRead => Capability_BoardObserve
  | TaskControlKind_BoardPurge => Capability_BoardPurge
  | TaskControlKind_BoardRetain => Capability_BoardPersist
  | TaskControlKind_BoardFlush => Capability_BoardPersist
  | TaskControlKind_BoardArchive => Capability_BoardPersist
  | TaskControlKind_BoardArchives => Capability_BoardObserve
  | TaskControlKind_BoardArchiveRead => Capability_BoardObserve
  | TaskControlKind_BoardArchivePurge => Capability_BoardPurge
  | TaskControlKind_BoardRetract => Capability_BoardPurge
  | TaskControlKind_BoardContactsClear => Capability_BoardPurge
  | TaskControlKind_BoardMembership => Capability_BoardMember
  | TaskControlKind_BoardSubscribers => Capability_BoardObserve
  | TaskControlKind_BoardSend => Capability_BoardSend
  | TaskControlKind_BoardWake => Capability_BoardSend
  | TaskControlKind_GitQuery => Capability_FileRead
  | TaskControlKind_OpenExecRun => Capability_ExecRun
  | TaskControlKind_OpenForwardTap => Capability_ForwardTap
  | TaskControlKind_OpenExecTap => Capability_ExecTap
  end.

Definition resumeRequestCap (resumeID : TaskID) (exact : bool) : N :=
  if bool_decide (resumeID = zeroID) then Capability_Spawn
  else if exact then Capability_Resume .|. Capability_ResumeExact
  else Capability_Resume.

Definition resumeRequestBits (exact : bool) : list N :=
  if exact then [Capability_Resume; Capability_ResumeExact] else [Capability_Resume].

(** ** The gates *)

Section gates.
Context (c : Conns) (s : Store).

Definition callerCaps (cid : string) : N :=
  let pid := lookupPrincipal c cid in
  if bool_decide (pid = zeroID) then Capability_All
  else match Get (EncodeToString pid) s with
       | Some t => te_Capabilities t
       | None => Capability_None
       end.

Definition visibilitySet (callerHex : string) (scope : Scope) : bool * gset string :=
  VisibleSet callerHex scope (childIndexOf s).

Definition scopeSetWith (cid : string) (want : N) (children : gmap string (list string))
    : bool * gset string :=
  let pid := lookupPrincipal c cid in
  if bool_decide (pid = zeroID) then (true, ∅)
  else
    let callerHex := EncodeToString pid in
    let scope := match Get callerHex s with Some t => te_Scope t | None => DefaultScope end in
    if want =? Capability_None then visibilitySet callerHex scope
    else ActionSet callerHex scope want children.

Definition scopeSet (cid : string) (want : N) : bool * gset string :=
  scopeSetWith cid want (childIndexOf s).

Definition inScope (cid : string) (want : N) (targetHex : string) : bool :=
  let '(all, allowed) := scopeSet cid want in all || bool_decide (targetHex ∈ allowed).

Definition authorize (cid : string) (want : N) (targetHex : string) : bool :=
  if negb (hasCap (callerCaps cid) want) then false else inScope cid want targetHex.

Definition resumeTargetAllowed (cid : string) (exact : bool) (targetHex : string) : bool :=
  let held := callerCaps cid in
  existsb (λ resumeBit, hasCap held resumeBit && inScope cid resumeBit targetHex) (resumeRequestBits exact).

Definition controlSeatAllowed (cid resumeHex : string) : bool :=
  let pid := lookupPrincipal c cid in
  if bool_decide (pid = zeroID) then true
  else if negb (bool_decide (resumeHex = ""))
  then inScope cid (AttachModeScopeCap AttachMode_Control) resumeHex
  else match Get (EncodeToString pid) s with
       | Some self => CoversNewChild (te_Scope self) Capability_ExecControl
       | None => false
       end.

Definition resizeAllowed (cid targetHex : string) : bool :=
  hasCap (callerCaps cid) Capability_ExecResize && inScope cid Capability_ExecResize targetHex.

Definition with_base (b : N) : Scope := mkScope b [] 0 false false [] [].

Definition granter (cid : string) (caps : N) : option Granter :=
  let pid := lookupPrincipal c cid in
  if bool_decide (pid = zeroID) then None
  else
    let hexID := EncodeToString pid in
    let held := match Get hexID s with
                | Some t => mkGrant caps (te_Scope t) (te_DelegateCaps t) (te_DelegateScope t)
                | None => mkGrant caps (with_base ScopeBase_None) 0 (with_base ScopeBase_None)
                end in
    Some (NewGranter hexID held (childIndexOf s)).

(** [rec, _ := h.Tasks.Get(idHex)]: the zero record when there is none. *)
Definition resumedCaps (idHex : string) (override : bool) (g : option Granter) (requested : N) : N :=
  if override then ChildCaps g requested
  else te_Capabilities (default zeroEntry (Get idHex s)).

Definition visibleToCaller (cid : string) : bool * gset string :=
  if bool_decide (lookupPrincipal c cid = zeroID) then (true, ∅) else scopeSet cid Capability_None.

Definition listVisibleToCaller (cid : string) : bool * gset string * string :=
  let '(all, allowed) := visibleToCaller cid in
  if all then (true, ∅, ""%string)
  else match Get (EncodeToString (lookupPrincipal c cid)) s with
       | None => (false, allowed, ""%string)
       | Some self =>
           if bool_decide (te_CreatorTaskID self = zeroID) then (false, allowed, ""%string)
           else
             let creatorHex := EncodeToString (te_CreatorTaskID self) in
             if bool_decide (creatorHex ∈ allowed) then (false, allowed, ""%string)
             else (false, allowed, creatorHex)
       end.

(** [server/task_event_audience.go]. *)
Inductive taskAudience := audienceNone | audienceFull | audienceParentHop.

Definition taskEventAudience (subCID taskHex : string) : taskAudience :=
  let '(all, allowed, parentHex) := listVisibleToCaller subCID in
  if all || bool_decide (taskHex ∈ allowed) then audienceFull
  else if negb (bool_decide (parentHex = "")) && bool_decide (parentHex = taskHex) then audienceParentHop
  else audienceNone.

Definition seesEverything (cid : string) : bool := (visibleToCaller cid).1.
End gates.

(** [None] is a connection with no agent state, or one not yet attached. *)
Definition agentCallerCaps (s : Store) (identity : option TaskID) : N :=
  match identity with
  | None => Capability_None
  | Some tid =>
      if bool_decide (tid = zeroID) then Capability_None
      else match Get (EncodeToString tid) s with
           | Some t => te_Capabilities t
           | None => Capability_None
           end
  end.

(** ** The creator index of a restore *)

(** One round of the event loop; the state is the index and the ids seen. *)
Definition wal_child (acc : gmap string (list string) * gset string) (ev : WALEvent)
    : gmap string (list string) * gset string :=
  let '(out, seen) := acc in
  if negb (bool_decide (ev_Type ev = "task_created")) || bool_decide (ev_TaskID ev = "")
     || bool_decide (ev_CreatorTaskID ev = "") then acc
  else if bool_decide (ev_TaskID ev ∈ seen) then acc
  else (<[ev_CreatorTaskID ev := kids out (ev_CreatorTaskID ev) ++ [ev_TaskID ev]]> out,
        {[ev_TaskID ev]} ∪ seen).

(** Every child the base index holds. *)
Definition index_children (base : gmap string (list string)) : gset string :=
  list_to_set (mjoin (snd <$> map_to_list base)).

Definition walChildIndex (base : gmap string (list string)) (events : list WALEvent)
    : gmap string (list string) :=
  (foldl wal_child (base, index_children base) events).1.

(** ** The rows of [ls]

    The part of [handleList] that decides which tasks a caller is shown, which
    row is stripped to what [redactParentTaskInfo] keeps and on which the actor
    of the last grant is withheld. *)

Record list_row := mkListRow {
  lr_task : TaskEntry;
  lr_redacted : bool;
  lr_actorHidden : bool;
}.

Definition filteredTasks (c : Conns) (s : Store) (cid : string) : list TaskEntry * string :=
  let '(all, allowed, parentHex) := listVisibleToCaller c s cid in
  let tasks := List_ 100 s in
  if all then (tasks, ""%string)
  else
    let '(hop, redactedHex) :=
      if negb (bool_decide (parentHex = "")) then
        match Get parentHex s with Some p => ([p], parentHex) | None => ([], ""%string) end
      else ([], ""%string) in
    (hop ++ filter (λ t, te_ID t ∈ allowed) tasks, redactedHex).

Definition list_row_of (c : Conns) (s : Store) (cid redactedHex : string) (t : TaskEntry) : list_row :=
  let '(all, allowed, parentHex) := listVisibleToCaller c s cid in
  let a := te_AuthorityActor t in
  let aHex := EncodeToString a in
  {| lr_task := t;
     lr_redacted := bool_decide (te_ID t = redactedHex);
     lr_actorHidden := negb all && negb (bool_decide (a = zeroID))
                       && negb (bool_decide (aHex ∈ allowed)) && negb (bool_decide (aHex = parentHex)) |}.

Definition handleList_rows (c : Conns) (s : Store) (cid : string) : list list_row :=
  let '(tasks, redactedHex) := filteredTasks c s cid in
  list_row_of c s cid redactedHex <$> tasks.

(** ** Lemmas *)

#[export] Instance taskAudience_eq_dec : EqDecision taskAudience.
Proof. solve_decision. Defined.

Lemma hasCap_has have want : single want → hasCap have want = has have want.
Proof.
  intros [i ->]. rewrite has_pow2. unfold hasCap. apply eq_true_iff_eq. rewrite N.eqb_eq. split.
  - intros E. apply (f_equal (λ n, N.testbit n i)) in E. rewrite N.land_spec, N.pow2_bits_true in E.
    by destruct (N.testbit have i).
  - intros E. apply N.bits_inj. intros j. rewrite N.land_spec. destruct (N.eq_dec i j) as [->|Hne].
    + by rewrite E, N.pow2_bits_true.
    + rewrite N.pow2_bits_false by done. by rewrite andb_false_r.
Qed.

Lemma inScope_in_set c s cid want x : inScope c s cid want x = in_set (scopeSet c s cid want) x.
Proof. unfold inScope, in_set. by destruct (scopeSet _ _ _ _). Qed.

(** The agent of connection [cid] is the task recorded as [e]. *)
Definition agent_of (c : Conns) (s : Store) (cid : string) (e : TaskEntry) : Prop :=
  lookupPrincipal c cid ≠ zeroID ∧ Get (EncodeToString (lookupPrincipal c cid)) s = Some e ∧
  te_ID e = EncodeToString (lookupPrincipal c cid).

Lemma agent_scopeSet c s cid e want ch :
  agent_of c s cid e → want ≠ 0 →
  scopeSetWith c s cid want ch = ActionSet (te_ID e) (te_Scope e) want ch.
Proof.
  intros (Hz & Hg & Hid) Hw. unfold scopeSetWith. rewrite bool_decide_eq_false_2, Hg, Hid by done.
  by destruct (N.eqb_spec want Capability_None).
Qed.

Lemma agent_caps c s cid e : agent_of c s cid e → callerCaps c s cid = te_Capabilities e.
Proof. intros (Hz & Hg & _). unfold callerCaps. by rewrite bool_decide_eq_false_2, Hg. Qed.

Lemma agent_authorize c s cid e want x :
  agent_of c s cid e → single want →
  authorize c s cid want x =
    has (te_Capabilities e) want && in_set (ActionSet (te_ID e) (te_Scope e) want (childIndexOf s)) x.
Proof.
  intros He Hs. unfold authorize. rewrite (agent_caps _ _ _ _ He), hasCap_has by done.
  rewrite inScope_in_set. unfold scopeSet. destruct (has _ want); [|done]. cbn [negb andb].
  rewrite (agent_scopeSet _ _ _ _ _ _ He); [done|]. destruct Hs as [i ->]. by apply N.pow_nonzero.
Qed.

Lemma EncodeToString_nonempty x : wf_id x → EncodeToString x ≠ "".
Proof.
  intros [Hl _] E. pose proof (length_EncodeToString x) as H. rewrite E, Hl in H. done.
Qed.

(** [listVisibleToCaller] by cases. *)
Lemma listVisible_parent c s cid all allowed parentHex :
  listVisibleToCaller c s cid = (all, allowed, parentHex) →
  (parentHex ≠ "" → all = false ∧ parentHex ∉ allowed).
Proof.
  unfold listVisibleToCaller. destruct (visibleToCaller c s cid) as [al alw].
  destruct al; [intros [= <- <- <-]; done|].
  destruct (Get _ s); [|intros [= <- <- <-]; done]. case_bool_decide; [intros [= <- <- <-]; done|].
  case_bool_decide; intros [= <- <- <-]; done.
Qed.

Lemma filteredTasks_spec c s cid t :
  StoreOk s →
  (t ∈ (filteredTasks c s cid).1 ↔
     match taskEventAudience c s cid (te_ID t) with
     | audienceFull => t ∈ List_ 100 s
     | audienceParentHop => Get (te_ID t) s = Some t
     | audienceNone => False
     end) ∧
  (t ∈ (filteredTasks c s cid).1 →
     te_ID t = (filteredTasks c s cid).2 ∧ te_ID t ≠ "" ↔ taskEventAudience c s cid (te_ID t) = audienceParentHop).
Proof.
  intros Hs. unfold filteredTasks, taskEventAudience.
  destruct (listVisibleToCaller c s cid) as [[all allowed] parentHex] eqn:E.
  pose proof (listVisible_parent _ _ _ _ _ _ E) as Hp. destruct all; cbn [orb fst snd].
  { split; [done|]. intros _. split; [intros [? ?]; done|done]. }
  destruct (bool_decide_reflect (parentHex = "")) as [->|Hne]; cbn [negb andb fst snd app].
  { rewrite list_elem_of_filter. case_bool_decide; split; try tauto; split; (tauto || done). }
  specialize (Hp Hne) as [_ Hp]. destruct (Get parentHex s) as [p|] eqn:Eg; cbn [fst snd app].
  - pose proof (ok_ID _ _ (store_entries _ _ Eg)) as Hid.
    rewrite elem_of_cons, list_elem_of_filter.
    destruct (bool_decide_reflect (te_ID t ∈ allowed)) as [Hin|Hni].
    + split; [naive_solver|]. intros _. split; [intros [? _]; congruence|done].
    + destruct (bool_decide_reflect (parentHex = te_ID t)) as [Ht|Ht]; [rewrite <-Ht, Eg|];
        (split; [naive_solver|]); intros H; (split; [naive_solver|]); try done; by intros _.
  - rewrite list_elem_of_filter. destruct (bool_decide_reflect (te_ID t ∈ allowed)) as [Hin|Hni].
    + split; [naive_solver|]. intros _. split; [intros [-> ?]; done|done].
    + destruct (bool_decide_reflect (parentHex = te_ID t)) as [Ht|Ht]; [rewrite <-Ht, Eg|];
        (split; [naive_solver|]); naive_solver.
Qed.

(** Task ids are the hex of sixteen bytes, as [TaskStore.Create] makes them. *)
Definition HexIds (s : Store) : Prop :=
  ∀ id e, st_tasks s !! id = Some e → ∃ x, wf_id x ∧ id = EncodeToString x.

Lemma elem_of_List limit s t : StoreOk s → t ∈ List_ limit s → Get (te_ID t) s = Some t.
Proof.
  intros Hs (id & _ & E)%list_elem_of_omap. unfold Get. by rewrite (ok_ID _ _ (store_entries _ _ E)).
Qed.

Lemma filteredTasks_named c s cid t :
  StoreOk s → HexIds s → t ∈ (filteredTasks c s cid).1 → Get (te_ID t) s = Some t ∧ te_ID t ≠ "".
Proof.
  intros Hs Hh Ht. assert (Get (te_ID t) s = Some t) as Hg.
  { apply (proj1 (filteredTasks_spec c s cid t Hs)) in Ht. destruct (taskEventAudience c s cid (te_ID t)); [done| |done].
    by apply (elem_of_List 100). }
  split; [done|]. destruct (Hh _ _ Hg) as (x & Hx & ->). by apply EncodeToString_nonempty.
Qed.

Lemma list_row_actor c s cid red t :
  wf_id (te_AuthorityActor t) →
  lr_actorHidden (list_row_of c s cid red t) = true ↔
    te_AuthorityActor t ≠ zeroID ∧
    taskEventAudience c s cid (EncodeToString (te_AuthorityActor t)) = audienceNone.
Proof.
  intros Hw. unfold list_row_of, taskEventAudience.
  destruct (listVisibleToCaller c s cid) as [[all allowed] parentHex] eqn:E. cbn [lr_actorHidden].
  pose proof (EncodeToString_nonempty _ Hw) as Hne.
  destruct all; cbn [negb andb orb]; [split; [done|intros [_ ?]; done]|].
  repeat case_bool_decide; cbn; naive_solver.
Qed.

(** Adding edges to an index adds descendants and takes none away. *)
Lemma wal_child_le acc ev : index_le acc.1 (wal_child acc ev).1.
Proof.
  destruct acc as [out seen]. unfold wal_child. intros a b Hb. cbn [fst] in *. repeat case_match; try done. cbn [fst].
  destruct (decide (a = ev_CreatorTaskID ev)) as [->|Hne].
  - unfold child_of, kids. rewrite lookup_insert_eq. cbn. apply elem_of_app. by left.
  - unfold child_of, kids. by rewrite lookup_insert_ne.
Qed.

Lemma wal_index_le acc events : index_le acc.1 (foldl wal_child acc events).1.
Proof.
  revert acc. induction events as [|ev events IH]; intros acc; cbn; [done|].
  intros a b Hb. apply IH, wal_child_le, Hb.
Qed.

(** ** Theorems *)

(** The creator of the caller's task, if it has one, is still in the store. *)
Definition creator_present c s cid : Prop :=
  ∀ self, Get (EncodeToString (lookupPrincipal c cid)) s = Some self → te_CreatorTaskID self ≠ zeroID →
    is_Some (Get (EncodeToString (te_CreatorTaskID self)) s).

(** C26. What a caller whose creator is still in the store is listed is what it is told
    of by the status events of a task, in the same form: a row is in full exactly
    for a task in whose full audience it is, stripped exactly for its own creator, and
    the actor of the last grant is withheld on a row exactly when it is in no
    audience of that actor.  Among the last hundred tasks every one of whose full
    audience it is has a row, and its creator has one whatever its age. *)
Theorem list_rows_match_events c s cid :
  StoreOk s → HexIds s → creator_present c s cid →
  (∀ r, r ∈ handleList_rows c s cid →
     taskEventAudience c s cid (te_ID (lr_task r)) =
       (if lr_redacted r then audienceParentHop else audienceFull) ∧
     (lr_actorHidden r = true ↔
        te_AuthorityActor (lr_task r) ≠ zeroID ∧
        taskEventAudience c s cid (EncodeToString (te_AuthorityActor (lr_task r))) = audienceNone)) ∧
  (∀ t, t ∈ List_ 100 s → taskEventAudience c s cid (te_ID t) = audienceFull →
     ∃ r, r ∈ handleList_rows c s cid ∧ lr_task r = t) ∧
  (∀ t, Get (te_ID t) s = Some t → taskEventAudience c s cid (te_ID t) = audienceParentHop →
     ∃ r, r ∈ handleList_rows c s cid ∧ lr_task r = t).
Proof.
  intros Hs Hh _. unfold handleList_rows.
  pose proof (λ t, filteredTasks_spec c s cid t Hs) as Hspec.
  pose proof (λ t, filteredTasks_named c s cid t Hs Hh) as Hnm.
  destruct (filteredTasks c s cid) as [tasks red]. cbn [fst snd] in *.
  assert (∀ t, t ∈ tasks → ∃ r, r ∈ list_row_of c s cid red <$> tasks ∧ lr_task r = t) as Hrow.
  { intros t Ht. exists (list_row_of c s cid red t). split; [by apply list_elem_of_fmap_2|].
    unfold list_row_of. by destruct (listVisibleToCaller c s cid) as [[??]?]. }
  split_and!.
  - intros r (t & -> & Ht)%list_elem_of_fmap. destruct (Hnm t Ht) as [Hg Hne].
    destruct (Hspec t) as [H1 H2]. specialize (H2 Ht).
    assert (lr_task (list_row_of c s cid red t) = t) as Elt
      by (unfold list_row_of; by destruct (listVisibleToCaller c s cid) as [[??]?]).
    assert (lr_redacted (list_row_of c s cid red t) = bool_decide (te_ID t = red)) as Elr
      by (unfold list_row_of; by destruct (listVisibleToCaller c s cid) as [[??]?]).
    rewrite Elt, Elr. split; [|apply list_row_actor, (ok_actor _ _ (store_entries _ _ Hg))].
    apply H1 in Ht. destruct (taskEventAudience c s cid (te_ID t)) eqn:Ea; try done.
    + rewrite bool_decide_eq_false_2; [done|]. intros Hr. by pose proof (proj1 H2 (conj Hr Hne)).
    + rewrite bool_decide_eq_true_2; [done|]. by apply H2.
  - intros t Ht Ha. apply Hrow, Hspec. by rewrite Ha.
  - intros t Ht Ha. apply Hrow, Hspec. by rewrite Ha.
Qed.

(** Restore's index keeps every descendant the live index knows: what a scope
    admits over the live index it admits over the widened one. *)
Lemma walChildIndex_widens hex scope want base events x :
  in_set (ActionSet hex scope want base) x = true →
  in_set (ActionSet hex scope want (walChildIndex base events)) x = true.
Proof. apply ActionSet_index_mono. apply (wal_index_le (base, index_children base)). Qed.

(** A connection whose principal is no longer in the store may do nothing. *)
Lemma gone_principal_denied c s cid want exact x :
  lookupPrincipal c cid ≠ zeroID → Get (EncodeToString (lookupPrincipal c cid)) s = None → want ≠ 0 →
  authorize c s cid want x = false ∧ hasAnyCap (callerCaps c s cid) want = false ∧
  resumeTargetAllowed c s cid exact x = false ∧ controlSeatAllowed c s cid "" = false.
Proof.
  intros Hz Hg Hw. assert (callerCaps c s cid = 0) as Hc
    by (unfold callerCaps; by rewrite bool_decide_eq_false_2, Hg).
  unfold authorize, resumeTargetAllowed, controlSeatAllowed. rewrite Hc. split_and!.
  - unfold hasCap. rewrite N.land_0_l. by destruct (N.eqb_spec 0 want).
  - unfold hasAnyCap. by rewrite N.land_0_l.
  - by destruct exact.
  - by rewrite bool_decide_eq_false_2, Hg.
Qed.

(** A scope the server accepts may act outside what its holder is shown: an override
    gives its bits a base of their own, which no clause of the visible set reads. *)
Lemma acts_outside_what_ls_shows :
  ∃ sc, Validate sc = None ∧
    ActionSet "t" sc Capability_Cancel ∅ = (true, ∅) ∧
    VisibleSet "t" sc ∅ = (false, {["t"%string]}).
Proof.
  exists (mkScope ScopeBase_None [] 0 false false [] [mkOverride Capability_Cancel ScopeBase_Global false []]).
  split_and!; by vm_compute.
Qed.

Lemma list_rows_match_events_witness :
  let c := mkConns ∅ {[ "conn"%string := SampleReach.c ]} in
  (lr_redacted <$> handleList_rows c SampleReach.s "conn" = [true; false]) ∧
  (∀ r, r ∈ handleList_rows c SampleReach.s "conn" →
     taskEventAudience c SampleReach.s "conn" (te_ID (lr_task r)) =
       (if lr_redacted r then audienceParentHop else audienceFull)).
Proof.
  intros c. split; [by vm_compute|]. intros r Hr.
  refine (proj1 (proj1 (list_rows_match_events c SampleReach.s "conn" _ _ _) r Hr)).
  - apply run_StoreOk, SampleReach.ops_ok.
  - intros id e He. change (st_tasks SampleReach.s) with (st_tasks SampleReach.s) in He.
    assert (id ∈ dom (st_tasks SampleReach.s)) as Hid by (by apply elem_of_dom).
    assert (dom (st_tasks SampleReach.s) = {[EncodeToString SampleReach.p; EncodeToString SampleReach.c]}) as Ed
      by (apply (bool_decide_unpack _); by vm_compute).
    rewrite Ed in Hid. apply elem_of_union in Hid as [ ->%elem_of_singleton| ->%elem_of_singleton];
      eexists; (split; [|reflexivity]); split; try done; by repeat constructor.
  - intros self Hs _. vm_compute in Hs. apply (inj Some) in Hs as <-. vm_compute. eexists. reflexivity.
Defined.
