(* ===== verification/BoardHandlers.v ===== *)
(** * The board's request handlers: [server/board_handler.go],
    [server/agent_taskcontrol.go], [server/board_archive_handler.go] and the reply
    rules of [server/agent_handler.go]

    A request is handled against the recorded connections, the task store, which
    is the board's [ReachSource], the board and its directory of archives.  The
    board is set, as the server does before it accepts connections.  An agent's
    connection holds a pointer to its task's state ([ConnState]): the state the board
    has under a key, or one that a revocation took from the board, which then lives
    as long as its connections.  A request works on such a state as if the board had
    it under a key no task can have, except that nothing published reaches it.
    [None] is a panic.  Clock readings, drawn ids and the reads of a payload
    stream are arguments.  Rows keep the board's times where the wire has unix
    milliseconds; failing to open a response stream is outside the model.  A wait
    is two steps, before and after it blocked; the waits that were let begin are
    recorded, with the task store of that moment, and no handler reads the record.

    Theorems: every request changes the board by operations its caller is entitled
    to and does not panic; what is handed to an agent is live and of topics the
    agent may read, or its own. *)

From stdpp Require Import prelude gmap strings list sorting.
From Stdlib Require Import NArith ZArith.
From coqutil Require Import Datatypes.RecordSetters.
From S2P Require Import Prelude GoStrings Caps Scope Sets Reach Wire Wal TaskStore Replay Topic TaskState BoardReach Board FileStore StoreMirror BoardLaws BoardSpec Archive Registry Gates.

Import DoubleBraceUpdate.
Open Scope N_scope.
Open Scope stdpp_scope.
Set Default Goal Selector "!".

(** ** Answers *)

Inductive SendStatus :=
  | SendStatus_Ok | SendStatus_PayloadTooLarge | SendStatus_TooManyTopics | SendStatus_BadFrame
  | SendStatus_UnknownInReplyTo | SendStatus_NoReplyRoute.
Inductive SubscribeStatus := SubscribeStatus_Ok | SubscribeStatus_BadPattern.
Inductive BoardStatus := BoardStatus_Ok | BoardStatus_NotFound | BoardStatus_StoreError.
Inductive AgentReadSeqStatus := AgentReadSeqStatus_Ok | AgentReadSeqStatus_NotFound.
Inductive AgentReadPageStatus := AgentReadPageStatus_Ok | AgentReadPageStatus_NotFound | AgentReadPageStatus_StoreError.
Inductive AgentRetractStatus := AgentRetractStatus_Ok | AgentRetractStatus_NotFound.
Inductive BoardRetainStatus :=
  | BoardRetainStatus_Ok | BoardRetainStatus_NotRetainable | BoardRetainStatus_NotPublishable
  | BoardRetainStatus_BadRequest | BoardRetainStatus_StoreError | BoardRetainStatus_TooManyTopics.
Inductive BoardMembershipStatus :=
  | BoardMembershipStatus_Ok | BoardMembershipStatus_NotFound | BoardMembershipStatus_NotReadable
  | BoardMembershipStatus_NotJoinable | BoardMembershipStatus_NotPublishable | BoardMembershipStatus_BadRequest.
Inductive BoardFlushStatus :=
  | BoardFlushStatus_Ok | BoardFlushStatus_NotFound | BoardFlushStatus_NotRetained
  | BoardFlushStatus_NotPublishable | BoardFlushStatus_StoreError.
Inductive BoardArchiveStatus :=
  | BoardArchiveStatus_Ok | BoardArchiveStatus_NotFound | BoardArchiveStatus_NotArchivable
  | BoardArchiveStatus_NotPublishable | BoardArchiveStatus_Empty | BoardArchiveStatus_StoreError.

(** A byte of the request; a value past the last is answered bad_request. *)
Inductive BoardMembershipOp :=
  | BoardMembershipOp_Subscribe | BoardMembershipOp_Unsubscribe | BoardMembershipOp_Join
  | BoardMembershipOp_Leave | BoardMembershipOp_Other.

Record DeliveredMessage := mkDelivered {
  dm_Seq : N; dm_InReplyTo : N; dm_FromRunnerId : list N; dm_FromTaskId : TaskID; dm_SenderKind : SenderKind;
  dm_Topic : string; dm_Payload : list N; dm_FromHostname : string; dm_FromAgentProfile : string; dm_ReplyToTopic : string;
}.
Record RetainedMeta := mkRetainedMeta {
  me_Seq : N; me_InReplyTo : N; me_FromRunner : list N; me_FromTask : TaskID; me_Size : N; me_ReceivedAt : Z;
  me_SenderKind : SenderKind; me_FromHostname : string; me_FromAgentProfile : string; me_ReplyToTopic : string;
}.
Record BoardMessageRow := mkBoardMessageRow {
  mr_Seq : N; mr_InReplyTo : N; mr_ReceivedAt : Z; mr_FromTask : TaskID; mr_SenderKind : SenderKind;
  mr_Body : list N; mr_FromHostname : string; mr_FromAgentProfile : string; mr_ReplyToTopic : string;
  mr_Retracted : option (Z * RetractedBy * TaskID);
}.
Record BoardTopicRow := mkBoardTopicRow {
  tr_Name : string; tr_LastSeq : N; tr_LastPublishedAt : Z; tr_MsgCount : N; tr_RetractedCount : N }.
Record BoardTopicRetention := mkBoardTopicRetention {
  rr_Name : string; rr_SetBy : TaskID; rr_DiskBytes : Z; rr_ExpiresAt : Z; rr_RingFloor : N; rr_Forever : bool; rr_TTL : Z }.
Record BoardArchiveRow := mkBoardArchiveRow {
  aw_Id : string; aw_Topic : string; aw_ThroughSeq : N; aw_Count : N; aw_CreatedAt : Z; aw_CreatedBy : TaskID; aw_DiskBytes : Z }.

(** A task-control response: its status and the body of its stream.  [Reading] and
    [Waiting] are no response yet: the payload has not ended, or the wait blocks. *)
Inductive response :=
  | PermissionDenied (required : N)
  | SubscribeResponse (status : SubscribeStatus)
  | SendResponse (status : SendStatus) (seq deliveredTo : N)
  | Reading
  | Waiting (handle : nat)
  | WaitResponse (timedOut : bool) (nextCursor : N) (body : list DeliveredMessage)
  | InboxResponse (nextCursor : N) (body : list DeliveredMessage)
  | InboxAdvanceResponse (body : list DeliveredMessage)
  | ReadSeqResponse (status : AgentReadSeqStatus) (body : list DeliveredMessage)
  | ReadPageResponse (status : AgentReadPageStatus) (body : list DeliveredMessage)
  | ListRetainedResponse (status : BoardStatus) (ownOnly : bool) (body : list RetainedMeta)
  | RetractResponse (status : AgentRetractStatus)
  | ListContactsResponse (contacts : list string)
  | ListSubscriptionsResponse (subs : list (string * bool))
  | BoardTopicsResponse (topics : list BoardTopicRow) (retention : list BoardTopicRetention)
  | BoardSubscribersResponse (rows : list SubscriberRow)
  | BoardReadResponse (status : BoardStatus) (rows : list BoardMessageRow)
  | BoardRetractResponse (status : BoardStatus)
  | BoardContactsClearResponse (status : BoardStatus) (removed : N)
  | BoardPurgeResponse (status : BoardStatus) (purged : N)
  | BoardWakeResponse (woken : N)
  | BoardRetainResponse (status : BoardRetainStatus)
  | BoardMembershipResponse (status : BoardMembershipStatus)
  | BoardFlushResponse (status : BoardFlushStatus) (through dropped : N)
  | BoardArchiveResponse (status : BoardArchiveStatus) (id : string) (through count : N)
  | BoardArchivesResponse (status : BoardStatus) (rows : list BoardArchiveRow).

Definition clampU16 (n : nat) : N := N.min (N.of_nat n) 65535.

Definition delivered_row (m : RetainedMessage) : DeliveredMessage :=
  mkDelivered (m_Seq m) (m_InReplyTo m) (m_FromRunner m) (m_FromTask m) (m_SenderKind m) (m_Topic m) (m_Payload m)
    (m_FromHostname m) (m_FromAgentProfile m) (m_ReplyToTopic m).

Definition retained_meta (m : RetainedMessage) : RetainedMeta :=
  mkRetainedMeta (m_Seq m) (m_InReplyTo m) (m_FromRunner m) (m_FromTask m) (N.min (N.of_nat (length (m_Payload m))) (2 ^ 32 - 1))
    (m_ReceivedAt m) (m_SenderKind m) (m_FromHostname m) (m_FromAgentProfile m) (m_ReplyToTopic m).

Definition boardMessageRow (m : RetainedMessage) : BoardMessageRow :=
  mkBoardMessageRow (m_Seq m) (m_InReplyTo m) (m_ReceivedAt m) (m_FromTask m) (m_SenderKind m) (m_Payload m)
    (m_FromHostname m) (m_FromAgentProfile m) (m_ReplyToTopic m)
    (if (m_RetractedAt m =? 0)%Z then None else Some (m_RetractedAt m, m_RetractedBy m, m_RetractedByTask m)).

(** ** Payload streams *)

Inductive payload_error := errPayloadTooLarge | errStream.

(** The reads of a stream in order, an error being the last; [None] is a stream that
    has not ended. *)
Fixpoint read_stream (max : nat) (raw : list N) (reads : list (option (list N * bool))) : option (result payload_error (list N)) :=
  match reads with
  | [] => None
  | None :: _ => Some (Err errStream)
  | Some (data, eof) :: reads =>
      let raw := raw ++ data in
      if negb (length data =? 0)%nat && (max <? length raw)%nat then Some (Err errPayloadTooLarge)
      else if eof : bool then Some (Ok raw)
      else read_stream max raw reads
  end.

(** [stream] is [None] when no stream of that id shows up. *)
Definition readAgentPayloadStream (max : nat) (stream : option (list (option (list N * bool)))) : option (result payload_error (list N)) :=
  match stream with
  | None => Some (Err errStream)
  | Some reads => read_stream max [] reads
  end.

(** ** Reply rules *)

Definition resolveReplyTarget (topic : string) (inReplyTo : N) (b : Board) : result SendStatus string :=
  if inReplyTo =? 0 then Ok topic
  else match ReplyParent inReplyTo b with
       | None => Err SendStatus_UnknownInReplyTo
       | Some parent =>
           if negb (bool_decide (topic = ""%string)) then Ok topic
           else if negb (bool_decide (m_ReplyToTopic parent = ""%string)) then Ok (m_ReplyToTopic parent)
           else if negb (bool_decide (m_SenderKind parent = SenderKind_Agent)) then Err SendStatus_NoReplyRoute
           else Ok (SelfTopic (m_FromTask parent))
       end.

(** The message a reply retires. *)
Definition retired_parent (parentSeq : N) (replier : TaskID) (b : Board) : option RetainedMessage :=
  if (parentSeq =? 0) || bool_decide (replier = zeroID) then None
  else
    m ← Retained parentSeq b;
    if m_NoRetireOnReply m then None
    else if negb (bool_decide (m_Topic m = SelfTopic replier)) || bool_decide (m_FromTask m = replier) then None
    else Some m.

Definition retireRepliedParent (parentSeq : N) (replier : TaskID) (now : Z) (b : Board) : option Board :=
  match retired_parent parentSeq replier b with
  | None => Some b
  | Some m => fst <$> RetireSeq parentSeq (m_FromTask m) now b
  end.

Definition send_status (e : board_error) : SendStatus :=
  match e with
  | ErrPayloadTooLarge => SendStatus_PayloadTooLarge
  | ErrTooManyTopics => SendStatus_TooManyTopics
  | _ => SendStatus_BadFrame
  end.

(** ** Requests *)

Record SendRequest := mkSendRequest {
  sr_Topic : string; sr_InReplyTo : N; sr_ReplyToTopic : string;
  sr_NoRetireOnReply : bool; sr_NoWake : bool; sr_NoContact : bool; sr_ExcludeSelf : bool;
}.

(** How a wait came back: with what it found, at its timeout, on a closed
    connection or a closed board. *)
Inductive wait_end := WaitFound | WaitTimeout | WaitGone | WaitClosed.

Inductive request :=
  | AgentSubscribe (pattern : string)
  | AgentUnsubscribe (pattern : string)
  | AgentSend (r : SendRequest) (stream : option (list (option (list N * bool))))
  | AgentWait (pattern : string) (since inReplyTo : N)
  | AgentWaited (pattern : string) (since inReplyTo : N) (handle : nat) (how : wait_end)
  | AgentInbox (since : N)
  | AgentInboxAdvance
  | AgentReadSeq (seq : N)
  | AgentReadPage (topic : string) (beforeSeq : N) (limit : nat)
  | AgentListRetained (topic : string)
  | AgentRetract (seq : N)
  | AgentListContacts
  | AgentListSubscriptions
  | AgentArchives (topic : string)
  | AgentArchiveRead (id : string) (beforeSeq : N) (limit : nat)
  | BoardTopics
  | BoardSubscribers (topic : string)
  | BoardRead (topic : string) (beforeSeq : N) (limit : nat)
  | BoardRetract (topic : string) (seq : N)
  | BoardContactsClear (task : TaskID) (topic : string)
  | BoardPurge (topic : string) (seq : N)
  | BoardSend (r : SendRequest) (stream : option (list (option (list N * bool))))
  | BoardWake (topic : string)
  | BoardRetain (topic : string) (clear forever : bool) (ttlMs : N)
  | BoardFlush (topic : string)
  | BoardArchive (topic : string)
  | BoardArchives (topic : string)
  | BoardArchiveRead (id : string) (beforeSeq : N) (limit : nat)
  | BoardArchivePurge (id : string) (seq : N)
  | BoardMembership (op : BoardMembershipOp) (task : TaskID) (topic : string).

(** The request's entry in the capability table; the agent face has none. *)
Definition kind_of (q : request) : option gated_kind :=
  match q with
  | BoardTopics => Some TaskControlKind_BoardTopics
  | BoardSubscribers _ => Some TaskControlKind_BoardSubscribers
  | BoardRead _ _ _ => Some TaskControlKind_BoardRead
  | BoardRetract _ _ => Some TaskControlKind_BoardRetract
  | BoardContactsClear _ _ => Some TaskControlKind_BoardContactsClear
  | BoardPurge _ _ => Some TaskControlKind_BoardPurge
  | BoardSend _ _ => Some TaskControlKind_BoardSend
  | BoardWake _ => Some TaskControlKind_BoardWake
  | BoardRetain _ _ _ _ => Some TaskControlKind_BoardRetain
  | BoardFlush _ => Some TaskControlKind_BoardFlush
  | BoardArchive _ => Some TaskControlKind_BoardArchive
  | BoardArchives _ => Some TaskControlKind_BoardArchives
  | BoardArchiveRead _ _ _ => Some TaskControlKind_BoardArchiveRead
  | BoardArchivePurge _ _ => Some TaskControlKind_BoardArchivePurge
  | BoardMembership _ _ _ => Some TaskControlKind_BoardMembership
  | _ => None
  end.

(** ** Handlers *)

Definition Millisecond : Z := 1000000.
Definition MaxInt64 : Z := 2 ^ 63 - 1.
(** [time.Duration(ms) * time.Millisecond], in 64 bits. *)
Definition ttl_duration (ms : N) : Z := ((Z.of_N ms * Millisecond + 2 ^ 63) `mod` 2 ^ 64 - 2 ^ 63)%Z.

Record world := mkWorld { w_board : Board; w_dir : archives }.

(** The key a state gone from the board is worked on under; keys of tasks are
    hexadecimal. *)
Definition gone_key : ticketKey := ("-", "-")%string.
(** The board with [ts] there, or with nothing. *)
Definition with_gone (ts : option taskState) (b : Board) : Board :=
  b{{ b_tasks := partial_alter (λ _, ts) gone_key (b_tasks b) }}.

Section handlers.
Context `{!BoardStore} (file_bytes : archive → Z) (clock : nat → Z).
(** The caller: what is recorded of it, and its task on the board. *)
Context (c : Conns) (s : Store) (cid : string) (st : option ticketKey).
(** The clock at the first and the second reading, the ids drawn, the turns of a
    loop over pages. *)
Context (now later : Z) (draws : list (list N)) (fuel : nat).
Implicit Types (b : Board) (dir : archives) (w : world).

#[local] Notation reach := (Some s).
Definition by_principal : TaskID := lookupPrincipal c cid.

(** [boardState] and [ConnState.Identity]. *)
Definition own_state b : option taskState := k ← st; b_tasks b !! k.
Definition Identity b : list N * TaskID * string * string :=
  match own_state b with Some ts => identity ts | None => (zeroID, zeroID, ""%string, ""%string) end.
Definition self_id b : TaskID := let '(_, tid, _, _) := Identity b in tid.

Definition Readable (topic : string) b : bool :=
  match own_state b with Some ts => readableTopic reach ts topic | None => false end.

Definition note_delivered_st (msgs : list RetainedMessage) b : Board :=
  match st with Some k => NoteDelivered k msgs b | None => b end.

(** [deliveredBody]. *)
Definition deliveredBody (msgs : list RetainedMessage) b : Board * list DeliveredMessage :=
  (note_delivered_st msgs b, delivered_row <$> msgs).

(** *** The agent face *)

Definition handleAgentSubscribe (pattern : string) (remove : bool) b : Board * response :=
  match st with
  | None => (b, SubscribeResponse SubscribeStatus_BadPattern)
  | Some k =>
      if remove then (Unsubscribe k pattern b, SubscribeResponse SubscribeStatus_Ok)
      else match Subscribe reach k pattern b with
           | (b, Some ErrNotPermitted) => (b, PermissionDenied Capability_BoardObserve)
           | (b, Some _) => (b, SubscribeResponse SubscribeStatus_BadPattern)
           | (b, None) => (b, SubscribeResponse SubscribeStatus_Ok)
           end
  end.

(** What follows the read of the payload. *)
Definition agentPublish (k : ticketKey) (r : SendRequest) (payload : list N) b : option (Board * response) :=
  let '(fromRid, fromTid, fromHost, fromProfile) := Identity b in
  match resolveReplyTarget (sr_Topic r) (sr_InReplyTo r) b with
  | Err rst => Some (b, SendResponse rst 0 0)
  | Ok destTopic =>
      if negb (Publishable reach k destTopic b) then Some (b, PermissionDenied Capability_BoardPeer)
      else if negb (bool_decide (sr_ReplyToTopic r = ""%string)) && negb (Publishable reach k (sr_ReplyToTopic r) b)
      then Some (b, PermissionDenied Capability_BoardPeer)
      else
        let cfg := mkSendConfig (sr_NoRetireOnReply r) (sr_ReplyToTopic r) SenderKind_Agent false (sr_NoContact r) (sr_ExcludeSelf r) in
        let gone := b_tasks b !! gone_key in
        match Send reach now destTopic (mkEnvelope payload fromRid fromTid fromHost fromProfile (sr_InReplyTo r)) cfg (with_gone None b) with
        | (b, Sent seq deliveredTo) =>
            let b := with_gone gone b in
            b ← (if sr_InReplyTo r =? 0 then Some b else retireRepliedParent (sr_InReplyTo r) fromTid later b);
            Some (b, SendResponse SendStatus_Ok seq (clampU16 deliveredTo))
        | (b, SendError e) => Some (with_gone gone b, SendResponse (send_status e) 0 0)
        | (_, SendPanic) => None
        end
  end.

Definition read_failed (e : payload_error) : response :=
  SendResponse (match e with errPayloadTooLarge => SendStatus_PayloadTooLarge | errStream => SendStatus_BadFrame end) 0 0.

(** A stream that has not ended yet keeps the request without an answer; it changes
    nothing, and the request counts when it has ended. *)
Definition handleAgentSend (r : SendRequest) (stream : option (list (option (list N * bool)))) b : option (Board * response) :=
  match st with
  | None => Some (b, SendResponse SendStatus_BadFrame 0 0)
  | Some k =>
      match readAgentPayloadStream (MaxPayload (b_cfg b)) stream with
      | None => Some (b, Reading)
      | Some (Err e) => Some (b, read_failed e)
      | Some (Ok payload) => agentPublish k r payload b
      end
  end.

Definition handleAgentWait (pattern : string) (since inReplyTo : N) b : Board * response :=
  match st with
  | None => (b, WaitResponse true since [])
  | Some k =>
      match Wait_begin reach k pattern since inReplyTo b with
      | (b, inl h) => (b, Waiting h)
      | (b, inr ErrNotPermitted) => (b, PermissionDenied Capability_BoardObserve)
      | (b, inr _) => (b, WaitResponse false since [])
      end
  end.

(** The end of a wait: what it found, [endWait], the answer. *)
Definition handleAgentWaited (pattern : string) (since inReplyTo : N) (h : nat) (how : wait_end) b : Board * response :=
  match st with
  | None => (b, WaitResponse true since [])
  | Some k =>
      let msgs := match how with WaitFound => Wait_scan k pattern since inReplyTo b | _ => [] end in
      let b := Wait_end k pattern h msgs b in
      let '(b, body) := deliveredBody msgs b in
      (b, WaitResponse (match how with WaitTimeout => true | _ => false end)
            (foldl (λ cur m, if cur <? m_Seq m then m_Seq m else cur) since msgs) body)
  end.

Definition handleAgentInbox (since : N) b : Board * response :=
  let '(msgs, next) := match st with Some k => Inbox reach k since b | None => ([], since) end in
  let '(b, body) := deliveredBody msgs b in (b, InboxResponse next body).

Definition handleAgentInboxAdvance b : Board * response :=
  let '(b, msgs) := match st with Some k => InboxAdvance reach k b | None => (b, []) end in
  let '(b, body) := deliveredBody msgs b in (b, InboxAdvanceResponse body).

Definition handleAgentReadSeq (seq : N) b : Board * response :=
  match st, Retained seq b with
  | Some k, Some m =>
      if Subscribes reach k (m_Topic m) b then
        let '(b, body) := deliveredBody [m] b in (b, ReadSeqResponse AgentReadSeqStatus_Ok body)
      else (b, ReadSeqResponse AgentReadSeqStatus_NotFound [])
  | _, _ => (b, ReadSeqResponse AgentReadSeqStatus_NotFound [])
  end.

Definition handleAgentReadPage (topic : string) (beforeSeq : N) (limit : nat) b : Board * response :=
  match st with
  | None => (b, ReadPageResponse AgentReadPageStatus_NotFound [])
  | Some k =>
      if (limit =? 0)%nat || negb (Subscribes reach k topic b) then (b, ReadPageResponse AgentReadPageStatus_NotFound [])
      else match ListRetained topic b with
           | None => (b, ReadPageResponse AgentReadPageStatus_NotFound [])
           | Some _ =>
               match PageLive fuel topic beforeSeq limit b with
               | None => (b, ReadPageResponse AgentReadPageStatus_StoreError [])
               | Some page => let '(b, body) := deliveredBody page b in (b, ReadPageResponse AgentReadPageStatus_Ok body)
               end
           end
  end.

Definition handleAgentListRetained (topic : string) b : response :=
  let ownOnly := negb (Readable topic b) in
  match ListRetained topic b with
  | None => ListRetainedResponse BoardStatus_NotFound false []
  | Some msgs =>
      let skip m := ownOnly && (negb (bool_decide (is_Some (own_state b))) || negb (bool_decide (m_FromTask m = self_id b))) in
      ListRetainedResponse BoardStatus_Ok ownOnly (retained_meta <$> filter (λ m, skip m = false) msgs)
  end.

Definition handleAgentRetract (seq : N) b : option (Board * response) :=
  match st with
  | None => Some (b, RetractResponse AgentRetractStatus_NotFound)
  | Some _ =>
      '(b, on) ← RetractSeq seq (self_id b) now b;
      Some (b, RetractResponse (if on : option string then AgentRetractStatus_Ok else AgentRetractStatus_NotFound))
  end.

Definition handleAgentListContacts b : response :=
  ListContactsResponse (match st with Some k => Contacts k b | None => [] end).

Definition handleAgentListSubscriptions b : response :=
  ListSubscriptionsResponse
    (match st with
     | Some k => (λ p, (p, isMemberLocked (b_members b) (self_id b) p)) <$> ListSubscriptions k b
     | None => []
     end).

(** *** The operator face *)

Definition topic_row b (r : string * N * Z * nat) : BoardTopicRow :=
  let '(name, lastSeq, lastPublishedAt, msgCount) := r in
  mkBoardTopicRow name lastSeq lastPublishedAt (clampU16 msgCount) (clampU16 (default O (RetractedCount name b))).

Definition retention_row b (r : string * N * Z * nat) : option BoardTopicRetention :=
  let '(name, _, lastPublishedAt, _) := r in
  '(ret, disk) ← RetentionOf name b;
  Some (mkBoardTopicRetention name (r_SetBy ret) disk (default 0%Z (ExpiresAt ret lastPublishedAt)) (RingFloor name b)
          (r_Forever ret) (if r_Forever ret then 0%Z else r_TTL ret)).

Definition handleBoardTopics b : response :=
  BoardTopicsResponse (topic_row b <$> ListTopics b) (omap (retention_row b) (ListTopics b)).

Definition handleBoardSubscribers (topic : string) b : response :=
  BoardSubscribersResponse (ListSubscribers reach topic b).

Definition handleBoardRead (topic : string) (beforeSeq : N) (limit : nat) b : response :=
  match ListRetained topic b with
  | None => BoardReadResponse BoardStatus_NotFound []
  | Some msgs =>
      if (0 <? limit)%nat then
        match Page topic beforeSeq limit b with
        | None => BoardReadResponse BoardStatus_StoreError []
        | Some page => BoardReadResponse BoardStatus_Ok (boardMessageRow <$> page)
        end
      else
        let msgs := match ListRetracted topic b with
                    | Some ((_ :: _) as withdrawn) => merge_sort seq_le (msgs ++ withdrawn)
                    | _ => msgs
                    end in
        BoardReadResponse BoardStatus_Ok (boardMessageRow <$> msgs)
  end.

Definition handleBoardRetract (topic : string) (seq : N) b : option (Board * response) :=
  '(b, (retracted, found)) ← ForceRetractSeq topic seq by_principal now b;
  Some (b, BoardRetractResponse (if (found : bool) && (retracted : bool) then BoardStatus_Ok else BoardStatus_NotFound)).

Definition handleBoardContactsClear (task : TaskID) (topic : string) b : Board * response :=
  if inScope c s cid Capability_BoardPurge (EncodeToString task) then
    match ClearContacts task topic b with
    | (b, (n, true)) => (b, BoardContactsClearResponse BoardStatus_Ok (N.min (N.of_nat n) 255))
    | (b, (_, false)) => (b, BoardContactsClearResponse BoardStatus_NotFound 0)
    end
  else (b, BoardContactsClearResponse BoardStatus_NotFound 0).

Definition handleBoardPurge (topic : string) (seq : N) b : Board * response :=
  if seq =? 0 then
    match PurgeTopic now topic b with
    | (b, None) => (b, BoardPurgeResponse BoardStatus_NotFound 0)
    | (b, Some n) => (b, BoardPurgeResponse BoardStatus_Ok (clampU16 n))
    end
  else
    match PurgeSeq topic seq b with
    | (b, (removed, found)) =>
        if negb found || negb removed then (b, BoardPurgeResponse BoardStatus_NotFound 0)
        else (b, BoardPurgeResponse BoardStatus_Ok 1)
    end.

Definition boardPublish (r : SendRequest) (payload : list N) b : option (Board * (N * nat * SendStatus)) :=
  match resolveReplyTarget (sr_Topic r) (sr_InReplyTo r) b with
  | Err status => Some (b, (0, O, status))
  | Ok dest =>
      let cfg := mkSendConfig (sr_NoRetireOnReply r) (sr_ReplyToTopic r) SenderKind_Operator (sr_NoWake r) false (sr_ExcludeSelf r) in
      match Send reach now dest (mkEnvelope payload zeroID by_principal "" "" (sr_InReplyTo r)) cfg b with
      | (b, Sent seq delivered) => Some (b, (seq, delivered, SendStatus_Ok))
      | (b, SendError e) => Some (b, (0, O, send_status e))
      | (_, SendPanic) => None
      end
  end.

Definition handleBoardSend (r : SendRequest) (stream : option (list (option (list N * bool)))) b : option (Board * response) :=
  match readAgentPayloadStream (MaxPayload (b_cfg b)) stream with
  | None => Some (b, Reading)
  | Some (Err e) => Some (b, read_failed e)
  | Some (Ok payload) =>
      '(b, (seq, delivered, status)) ← boardPublish r payload b;
      Some (b, SendResponse status seq (clampU16 delivered))
  end.

Definition handleBoardWake (topic : string) b : Board * response :=
  let '(b, woken) := Wake reach topic b in (b, BoardWakeResponse (clampU16 woken)).

(** May the caller name the topic in a request that keeps its history: an operator
    any, a task one it may publish to. *)
Definition keeps_topic (topic : string) b : bool :=
  bool_decide (by_principal = zeroID) || PublishableBy reach by_principal topic b.

Definition retain_status (e : option board_error) : BoardRetainStatus :=
  match e with
  | None => BoardRetainStatus_Ok
  | Some ErrNotRetainable => BoardRetainStatus_NotRetainable
  | Some ErrTooManyTopics => BoardRetainStatus_TooManyTopics
  | Some _ => BoardRetainStatus_StoreError
  end.

Definition handleBoardRetain (topic : string) (clear forever : bool) (ttlMs : N) b : Board * response :=
  if negb (keeps_topic topic b) then (b, BoardRetainResponse BoardRetainStatus_NotPublishable)
  else if clear then let '(b, e) := ClearRetain now topic b in (b, BoardRetainResponse (retain_status e))
  else if negb forever && (MaxInt64 / Millisecond <? Z.of_N ttlMs)%Z then (b, BoardRetainResponse BoardRetainStatus_BadRequest)
  else if forever || (0 <? ttlMs) then
    let '(b, e) := Retain topic (mkRetention (ttl_duration ttlMs) forever by_principal now) b in
    (b, BoardRetainResponse (retain_status e))
  else (b, BoardRetainResponse BoardRetainStatus_BadRequest).

Definition membership_status (e : option board_error) : BoardMembershipStatus :=
  match e with
  | None => BoardMembershipStatus_Ok
  | Some ErrNotJoinable => BoardMembershipStatus_NotJoinable
  | Some (ErrNotPermitted | ErrReservedTopic) => BoardMembershipStatus_NotReadable
  | Some ErrNotRunning => BoardMembershipStatus_NotFound
  | Some _ => BoardMembershipStatus_BadRequest
  end.

Definition handleBoardMembership (op : BoardMembershipOp) (task : TaskID) (topic : string) b : Board * response :=
  let taskHex := EncodeToString task in
  let answer status := BoardMembershipResponse status in
  match Get taskHex s with
  | None => (b, answer BoardMembershipStatus_NotFound)
  | Some _ =>
      if bool_decide (by_principal = task) || negb (inScope c s cid Capability_BoardMember taskHex)
      then (b, answer BoardMembershipStatus_NotFound)
      else match op with
           | BoardMembershipOp_Subscribe => let '(b, e) := SubscribeTask reach task topic b in (b, answer (membership_status e))
           | BoardMembershipOp_Unsubscribe => (UnsubscribeTask task topic b, answer BoardMembershipStatus_Ok)
           | BoardMembershipOp_Join =>
               if negb (bool_decide (by_principal = zeroID)) && negb (GrantableBy s (b_members b) by_principal topic)
               then (b, answer BoardMembershipStatus_NotPublishable)
               else let '(b, e) := Join reach task topic b in (b, answer (membership_status e))
           | BoardMembershipOp_Leave => (Leave task topic b, answer BoardMembershipStatus_Ok)
           | BoardMembershipOp_Other => (b, answer BoardMembershipStatus_BadRequest)
           end
  end.

Definition handleBoardFlush (topic : string) b : Board * response :=
  if negb (keeps_topic topic b) then (b, BoardFlushResponse BoardFlushStatus_NotPublishable 0 0)
  else match Flush topic b with
       | (b, inl (through, dropped)) => (b, BoardFlushResponse BoardFlushStatus_Ok through (clampU16 dropped))
       | (b, inr ErrNoTopic) => (b, BoardFlushResponse BoardFlushStatus_NotFound 0 0)
       | (b, inr ErrNotRetained) => (b, BoardFlushResponse BoardFlushStatus_NotRetained 0 0)
       | (b, inr _) => (b, BoardFlushResponse BoardFlushStatus_StoreError 0 0)
       end.

(** *** Archives *)

(** [uint32] of a count. *)
Definition count32 (x : Z) : N := Z.to_N (x `mod` 2 ^ 32)%Z.

Definition handleBoardArchive (topic : string) b dir : archives * response :=
  if negb (Retainable topic) then (dir, BoardArchiveResponse BoardArchiveStatus_NotArchivable "" 0 0)
  else if negb (keeps_topic topic b) then (dir, BoardArchiveResponse BoardArchiveStatus_NotPublishable "" 0 0)
  else match Archive file_bytes clock draws topic by_principal now b dir with
       | (dir, Ok info) => (dir, BoardArchiveResponse BoardArchiveStatus_Ok (ar_ID info) (ar_Through info) (count32 (ar_Count info)))
       | (dir, Err (ErrBoard ErrNoTopic)) => (dir, BoardArchiveResponse BoardArchiveStatus_NotFound "" 0 0)
       | (dir, Err (ErrBoard ErrNotRetainable)) => (dir, BoardArchiveResponse BoardArchiveStatus_NotArchivable "" 0 0)
       | (dir, Err ErrArchiveEmpty) => (dir, BoardArchiveResponse BoardArchiveStatus_Empty "" 0 0)
       | (dir, Err _) => (dir, BoardArchiveResponse BoardArchiveStatus_StoreError "" 0 0)
       end.

Definition archive_row (a : ArchiveInfo) : BoardArchiveRow :=
  mkBoardArchiveRow (ar_ID a) (ar_Topic a) (ar_Through a) (count32 (ar_Count a)) (ar_CreatedAt a) (ar_CreatedBy a) (ar_Bytes a).

(** A board without a store has no archives. *)
Definition stored_dir b dir : archives := if b_store b then dir else ∅.

Definition handleBoardArchives (topic : string) b dir : response :=
  BoardArchivesResponse BoardStatus_Ok (archive_row <$> Archives file_bytes topic (stored_dir b dir)).

Definition handleBoardArchiveRead (id : string) (beforeSeq : N) (limit : nat) b dir : response :=
  if (limit =? 0)%nat then BoardReadResponse BoardStatus_NotFound []
  else match ArchiveOf file_bytes id (stored_dir b dir) with
       | None => BoardReadResponse BoardStatus_NotFound []
       | Some _ => BoardReadResponse BoardStatus_Ok (boardMessageRow <$> ArchivePage file_bytes id beforeSeq limit (stored_dir b dir))
       end.

Definition handleBoardArchivePurge (id : string) (seq : N) b dir : archives * response :=
  match b_store b with
  | None => (dir, BoardPurgeResponse BoardStatus_NotFound 0)
  | Some _ =>
      match ArchiveOf file_bytes id dir with
      | None => (dir, BoardPurgeResponse BoardStatus_NotFound 0)
      | Some info =>
          let '(dir, (removed, _)) := ArchivePurge file_bytes id seq dir in
          (dir, if negb removed then BoardPurgeResponse BoardStatus_NotFound 0
                else BoardPurgeResponse BoardStatus_Ok (if seq =? 0 then clampU16 (Z.to_nat (ar_Count info)) else 1))
      end
  end.

Definition handleAgentArchives (topic : string) b dir : response :=
  if bool_decide (topic = ""%string) || negb (Readable topic b) then BoardArchivesResponse BoardStatus_NotFound []
  else handleBoardArchives topic b dir.

Definition handleAgentArchiveRead (id : string) (beforeSeq : N) (limit : nat) b dir : Board * response :=
  if negb (bool_decide (is_Some st)) || (limit =? 0)%nat then (b, ReadPageResponse AgentReadPageStatus_NotFound [])
  else match ArchiveOf file_bytes id (stored_dir b dir) with
       | None => (b, ReadPageResponse AgentReadPageStatus_NotFound [])
       | Some info =>
           if negb (Readable (ar_Topic info) b) then (b, ReadPageResponse AgentReadPageStatus_NotFound [])
           else match ArchivePageLive file_bytes fuel id beforeSeq limit (stored_dir b dir) with
                | None => (b, ReadPageResponse AgentReadPageStatus_StoreError [])
                | Some page => let '(b, body) := deliveredBody page b in (b, ReadPageResponse AgentReadPageStatus_Ok body)
                end
       end.

(** *** Dispatch *)

Definition on_board (f : Board → Board * response) w : option (world * response) :=
  let '(b, r) := f (w_board w) in Some (mkWorld b (w_dir w), r).
Definition on_board_opt (f : Board → option (Board * response)) w : option (world * response) :=
  '(b, r) ← f (w_board w); Some (mkWorld b (w_dir w), r).
Definition on_dir (f : archives → archives * response) w : option (world * response) :=
  let '(dir, r) := f (w_dir w) in Some (mkWorld (w_board w) dir, r).

Definition dispatch_board (q : request) w : option (world * response) :=
  match q with
  | AgentSubscribe pattern => on_board (handleAgentSubscribe pattern false) w
  | AgentUnsubscribe pattern => on_board (handleAgentSubscribe pattern true) w
  | AgentSend r stream => on_board_opt (handleAgentSend r stream) w
  | AgentWait pattern since inReplyTo => on_board (handleAgentWait pattern since inReplyTo) w
  | AgentWaited pattern since inReplyTo h how => on_board (handleAgentWaited pattern since inReplyTo h how) w
  | AgentInbox since => on_board (handleAgentInbox since) w
  | AgentInboxAdvance => on_board handleAgentInboxAdvance w
  | AgentReadSeq seq => on_board (handleAgentReadSeq seq) w
  | AgentReadPage topic beforeSeq limit => on_board (handleAgentReadPage topic beforeSeq limit) w
  | AgentListRetained topic => Some (w, handleAgentListRetained topic (w_board w))
  | AgentRetract seq => on_board_opt (handleAgentRetract seq) w
  | AgentListContacts => Some (w, handleAgentListContacts (w_board w))
  | AgentListSubscriptions => Some (w, handleAgentListSubscriptions (w_board w))
  | AgentArchives topic => Some (w, handleAgentArchives topic (w_board w) (w_dir w))
  | AgentArchiveRead id beforeSeq limit => on_board (λ b, handleAgentArchiveRead id beforeSeq limit b (w_dir w)) w
  | BoardTopics => Some (w, handleBoardTopics (w_board w))
  | BoardSubscribers topic => Some (w, handleBoardSubscribers topic (w_board w))
  | BoardRead topic beforeSeq limit => Some (w, handleBoardRead topic beforeSeq limit (w_board w))
  | BoardRetract topic seq => on_board_opt (handleBoardRetract topic seq) w
  | BoardContactsClear task topic => on_board (handleBoardContactsClear task topic) w
  | BoardPurge topic seq => on_board (handleBoardPurge topic seq) w
  | BoardSend r stream => on_board_opt (handleBoardSend r stream) w
  | BoardWake topic => on_board (handleBoardWake topic) w
  | BoardRetain topic clear forever ttlMs => on_board (handleBoardRetain topic clear forever ttlMs) w
  | BoardFlush topic => on_board (handleBoardFlush topic) w
  | BoardArchive topic => on_dir (handleBoardArchive topic (w_board w)) w
  | BoardArchives topic => Some (w, handleBoardArchives topic (w_board w) (w_dir w))
  | BoardArchiveRead id beforeSeq limit => Some (w, handleBoardArchiveRead id beforeSeq limit (w_board w) (w_dir w))
  | BoardArchivePurge id seq => on_dir (handleBoardArchivePurge id seq (w_board w)) w
  | BoardMembership op task topic => on_board (handleBoardMembership op task topic) w
  end.

End handlers.

(** ** The whole *)

(** The task of an agent's connection: its state on the board, or one gone from it. *)
Inductive conn_task := LiveTask (k : ticketKey) | GoneTask (n : N).

(** The board and the archives, the states gone from the board, and the waits let
    begin: the topic, the task and the task store of that moment. *)
Record face := mkFace { f_world : world; f_gone : gmap N taskState; f_waits : list (string * TaskID * Store) }.

Definition own_key (ct : option conn_task) : option ticketKey :=
  match ct with Some (LiveTask k) => Some k | Some (GoneTask _) => Some gone_key | None => None end.

(** What the request works on, and what is left when it is done. *)
Definition lent (ct : option conn_task) (f : face) : world :=
  match ct with
  | Some (GoneTask n) =>
      match f_gone f !! n with
      | Some ts => mkWorld (with_gone (Some ts) (w_board (f_world f))) (w_dir (f_world f))
      | None => f_world f
      end
  | _ => f_world f
  end.
Definition put_back (ct : option conn_task) (w : world) (f : face) : face :=
  match ct with
  | Some (GoneTask n) =>
      match f_gone f !! n with
      | Some _ => f{{ f_world := mkWorld (with_gone (b_tasks (w_board (f_world f)) !! gone_key) (w_board w)) (w_dir w);
                      f_gone := partial_alter (λ _, b_tasks (w_board w) !! gone_key) n (f_gone f) }}
      | None => f{{ f_world := w }}
      end
  | _ => f{{ f_world := w }}
  end.

Definition note_wait (q : request) (r : response) (self : TaskID) (s : Store) (f : face) : face :=
  match q, r with
  | AgentWait pattern _ _, Waiting _ => f{{ f_waits := f_waits f ++ [(pattern, self, s)] }}
  | _, _ => f
  end.

(** [Handle]: the central capability gate, then the request's case. *)
Definition handle_board `{!BoardStore} (file_bytes : archive → Z) (clock : nat → Z) (c : Conns) (s : Store) (cid : string)
    (ct : option conn_task) (now later : Z) (draws : list (list N)) (fuel : nat) (q : request) (f : face) : option (face * response) :=
  let dispatch := dispatch_board file_bytes clock c s cid (own_key ct) now later draws fuel q in
  match kind_of q with
  | Some k =>
      if negb (Gates.hasCap (callerCaps c s cid) (requiredCap k)) then Some (f, PermissionDenied (requiredCap k))
      else '(w, r) ← dispatch (f_world f); Some (f{{ f_world := w }}, r)
  | None =>
      '(w, r) ← dispatch (lent ct f);
      Some (note_wait q r (self_id (own_key ct) (w_board (lent ct f))) s (put_back ct w f), r)
  end.

(** ** What a caller is entitled to *)

Section authority.
Context (clock : nat → Z) (disk_bytes : list storeRecord → Z) (file_bytes : archive → Z) (cfg : Config).
#[local] Instance face_disk : BoardStore := file_store clock disk_bytes.

Section caller.
Context (c : Conns) (s : Store) (cid : string) (st : option ticketKey) (self : TaskID).
Context (waited : option string) (waits : list (string * TaskID * Store)).
Implicit Types (b : Board) (o : board_op) (w : world).

Definition holds (cap : N) : Prop := Gates.hasCap (callerCaps c s cid) cap = true.
Definition over_task (cap : N) (tid : TaskID) : Prop := holds cap ∧ inScope c s cid cap (EncodeToString tid) = true.
Definition over_topic (name : string) b : Prop :=
  holds Capability_BoardPersist ∧ (by_principal c cid = zeroID ∨ PublishableBy (Some s) (by_principal c cid) name b = true).

(** A message in the caller's own name, on a topic its task may publish to, with a
    reply route it may publish to. *)
Definition publishes_as_agent (name : string) (e : envelope) (sc : sendConfig) b : Prop :=
  ∃ k, st = Some k ∧ (ev_fromRid e, ev_fromTid e, ev_fromHost e, ev_fromProfile e) = Identity st b ∧
    sc_senderKind sc = SenderKind_Agent ∧ Publishable (Some s) k name b = true ∧
    (sc_replyToTopic sc = ""%string ∨ Publishable (Some s) k (sc_replyToTopic sc) b = true).

(** A live message someone else addressed to the task, that its author lets a reply
    withdraw. *)
Definition answered (seq : N) (author : TaskID) b : Prop :=
  ∃ m, Retained seq b = Some m ∧ m_FromTask m = author ∧ m_Topic m = SelfTopic self ∧
    author ≠ self ∧ self ≠ zeroID ∧ m_NoRetireOnReply m = false.

(** The task was let wait on the topic, which it could read when it began to. *)
Definition let_wait (name : string) : Prop := ∃ s0, (name, self, s0) ∈ waits ∧ readableFor s0 self name = true.

(** A message the task may be given: it is not withdrawn, and the task may read its
    topic, or this is the return of a wait on it that it was let begin. *)
Definition handed (m : RetainedMessage) : Prop :=
  m_RetractedAt m = 0%Z ∧ (readableFor s self (m_Topic m) = true ∨ waited = Some (m_Topic m) ∧ let_wait (m_Topic m)).

Definition entitled_op o b : Prop :=
  match o with
  | BSubscribe k _ | BUnsubscribe k _ | BWaitBegin k _ _ _ | BWaitEnd k _ _ _ | BInboxAdvance k => st = Some k
  | BNoteDelivered k msgs => st = Some k ∧ Forall handed msgs
  | BRetractSeq _ by_ _ => is_Some st ∧ by_ = self
  | BRetireSeq seq author _ => is_Some st ∧ answered seq author b
  | BSend _ name e sc =>
      publishes_as_agent name e sc b ∨
      holds Capability_BoardSend ∧ ev_fromTid e = by_principal c cid ∧ sc_senderKind sc = SenderKind_Operator
  | BWake _ => holds Capability_BoardSend
  | BForceRetractSeq _ _ by_ _ => holds Capability_BoardPurge ∧ by_ = by_principal c cid
  | BPurgeTopic _ _ | BPurgeSeq _ _ => holds Capability_BoardPurge
  | BClearContacts tid _ => over_task Capability_BoardPurge tid
  | BRetain name r => over_topic name b ∧ r_SetBy r = by_principal c cid
  | BClearRetain _ name | BFlush name => over_topic name b
  | BJoin tid name =>
      over_task Capability_BoardMember tid ∧ tid ≠ by_principal c cid ∧
      (by_principal c cid = zeroID ∨ GrantableBy s (b_members b) (by_principal c cid) name = true)
  | BLeave tid _ | BSubscribeTask tid _ | BUnsubscribeTask tid _ => over_task Capability_BoardMember tid ∧ tid ≠ by_principal c cid
  | _ => False
  end.

Definition entitled (o : arch_op) b : Prop :=
  match o with
  | AOBoard o => entitled_op o b
  | AOArchive _ topic by_ _ => over_topic topic b ∧ by_ = by_principal c cid
  | AOPurge _ _ => holds Capability_BoardPurge
  end.

(** An operation of a connection.  What an agent publishes does not reach a state gone
    from the board. *)
Definition own_board_step o b : option Board :=
  match o with
  | BSend _ _ _ sc =>
      if bool_decide (sc_senderKind sc = SenderKind_Agent)
      then with_gone (b_tasks b !! gone_key) <$> board_step clock (Some s) disk_bytes o (with_gone None b)
      else board_step clock (Some s) disk_bytes o b
  | _ => board_step clock (Some s) disk_bytes o b
  end.
Definition own_step (o : arch_op) (x : Board * archives) : option (Board * archives) :=
  match o with
  | AOBoard o => b' ← own_board_step o x.1; Some (b', x.2)
  | _ => arch_step (Some s) clock disk_bytes file_bytes o x
  end.
Fixpoint own_run (os : list arch_op) (x : Board * archives) : option (Board * archives) :=
  match os with [] => Some x | o :: os' => x' ← own_step o x; own_run os' x' end.

Fixpoint all_entitled (os : list arch_op) (x : Board * archives) : Prop :=
  match os with
  | [] => True
  | o :: os' =>
      arch_op_ok o x ∧ entitled o x.1 ∧
      match own_step o x with Some x' => all_entitled os' x' | None => False end
  end.

(** The request is answered, and what it did is a sequence of operations its caller is
    entitled to; a denied one did nothing. *)
Definition outcome (x : option (world * response)) w : Prop :=
  ∃ os w' r, x = Some (w', r) ∧ all_entitled os (w_board w, w_dir w) ∧
    own_run os (w_board w, w_dir w) = Some (w_board w', w_dir w') ∧
    (∀ cap, r = PermissionDenied cap → w' = w).

Lemma out_same w r : outcome (Some (w, r)) w.
Proof. by exists [], w, r. Qed.

Lemma out_one o b' r w :
  op_ok o (w_board w) → entitled_op o (w_board w) → own_board_step o (w_board w) = Some b' →
  (∀ cap, r = PermissionDenied cap → b' = w_board w) → outcome (Some (mkWorld b' (w_dir w), r)) w.
Proof.
  intros Ho He Es Hr. exists [AOBoard o], (mkWorld b' (w_dir w)), r. cbn [all_entitled own_run own_step arch_op_ok entitled fst snd]. rewrite Es.
  split_and!; try done. intros cap E. rewrite (Hr cap E). by destruct w.
Qed.

Lemma out_two o o2 b1 b' r w :
  op_ok o (w_board w) → entitled_op o (w_board w) → own_board_step o (w_board w) = Some b1 →
  op_ok o2 b1 → entitled_op o2 b1 → own_board_step o2 b1 = Some b' →
  (∀ cap, r ≠ PermissionDenied cap) → outcome (Some (mkWorld b' (w_dir w), r)) w.
Proof.
  intros Ho He Es Ho2 He2 Es2 Hr. exists [AOBoard o; AOBoard o2], (mkWorld b' (w_dir w)), r.
  cbn [all_entitled own_run own_step arch_op_ok entitled fst snd]. rewrite Es. cbn [mbind option_bind].
  cbn [all_entitled own_run own_step arch_op_ok entitled fst snd]. rewrite Es2. split_and!; try done. intros cap E. by destruct (Hr cap).
Qed.
End caller.

(** ** What is read out of the board *)

Section reads.
Context (s : Store) (st : option ticketKey) (waited : option string) (waits : list (string * TaskID * Store)).
Implicit Types (b : Board) (m : RetainedMessage) (dir : archives).

Lemma ring_live b name t m :
  binv clock cfg b → b_topics b !! name = Some t → m ∈ t_ring t → m_RetractedAt m = 0%Z ∧ m_Topic m = name.
Proof. intros Hb Ht Hm. by rewrite <-(ti_clean _ _ _ _ (bi_topic _ _ _ Hb _ _ Ht) m Hm). Qed.

Lemma own_self k ts b : st = Some k → b_tasks b !! k = Some ts → self_id st b = ts_tid ts.
Proof. intros -> E. unfold self_id, Identity, own_state. cbn [mbind option_bind]. by rewrite E. Qed.

Lemma own_readable name b : Readable s st name b = true → readableFor s (self_id st b) name = true.
Proof.
  unfold Readable. destruct (own_state st b) as [ts|] eqn:E; [|done]. unfold self_id, Identity. rewrite E. done.
Qed.

Lemma handed_pattern k ts name b m :
  st = Some k → b_tasks b !! k = Some ts → name ∈ readablePatterns (Some s) ts (snapshotPatterns ts) →
  m_RetractedAt m = 0%Z ∧ m_Topic m = name → handed s (self_id st b) waited waits m.
Proof.
  intros Est Ek [Hr _]%list_elem_of_filter [Hz <-]. split; [done|left]. by rewrite (own_self k ts b Est Ek).
Qed.

Lemma Inbox_handed k sinceSeq b :
  binv clock cfg b → st = Some k → Forall (handed s (self_id st b) waited waits) (Inbox (Some s) k sinceSeq b).1.
Proof.
  intros Hb Est. unfold Inbox. destruct (b_tasks b !! k) as [ts|] eqn:Ek; [|done]. cbn [fst]. apply Forall_forall.
  intros m [_ Hm]%list_elem_of_filter. apply list_elem_of_In, in_flat_map in Hm as (p & Hp%list_elem_of_In & Hm%list_elem_of_In).
  destruct (b_topics b !! p) as [t|] eqn:Et; [|by apply elem_of_nil in Hm]. unfold since, above in Hm. apply list_elem_of_filter in Hm as [_ Hm].
  eapply handed_pattern; [done|done|done|]. by eapply ring_live.
Qed.

Lemma InboxAdvance_handed k b :
  binv clock cfg b → st = Some k → Forall (handed s (self_id st b) waited waits) (InboxAdvance (Some s) k b).2.
Proof.
  intros Hb Est. unfold InboxAdvance. destruct (b_tasks b !! k) as [ts|] eqn:Ek; [|done].
  assert (∀ names acc, binv clock cfg acc.1 → Forall (handed s (self_id st b) waited waits) acc.2 →
    names ⊆ readablePatterns (Some s) ts (snapshotPatterns ts) →
    Forall (handed s (self_id st b) waited waits) (foldl (advance_topic (ts_tid ts)) acc names).2) as H; [|by apply H].
  induction names as [|name names IH]; intros [b1 out] Hb1 Hout Hsub; [done|]. cbn [foldl fst snd] in *.
  apply IH; [by apply (advance_binv clock cfg)| |set_solver]. unfold advance_topic.
  destruct (b_topics b1 !! name) as [t|] eqn:Et; [|done]. unfold takeUnshown. cbn [snd]. apply Forall_app. split; [done|].
  apply Forall_forall. intros m [_ Hm]%list_elem_of_filter. unfold above in Hm. apply list_elem_of_filter in Hm as [_ Hm].
  eapply handed_pattern; [done|done|apply Hsub; by left|]. by eapply ring_live.
Qed.

Lemma Wait_scan_handed k name sinceSeq inReplyTo b :
  binv clock cfg b → waited = Some name → let_wait (self_id st b) waits name → Forall (handed s (self_id st b) waited waits) (Wait_scan k name sinceSeq inReplyTo b).
Proof.
  intros Hb Hw Hlet. unfold Wait_scan. destruct (b_tasks b !! k) as [ts|]; [|done]. destruct (b_topics b !! name) as [t|] eqn:Et; [|done].
  apply Forall_forall. intros m [_ Hm]%list_elem_of_filter. unfold since, above in Hm. apply list_elem_of_filter in Hm as [_ Hm].
  destruct (ring_live b name t m Hb Et Hm) as [Hz Hn]. split; [done|]. right. by rewrite Hn.
Qed.

Lemma Retained_handed k seq m b :
  binv clock cfg b → st = Some k → Retained seq b = Some m → Subscribes (Some s) k (m_Topic m) b = true →
  handed s (self_id st b) waited waits m.
Proof.
  intros Hb Est Hm Hs. apply (Retained_iff clock cfg) in Hm as (n & t & Ht & Hm & _); [|done].
  destruct (ring_live b n t m Hb Ht Hm) as [Hz _]. split; [done|left]. unfold Subscribes in Hs. destruct (b_tasks b !! k) as [ts|] eqn:Ek; [|done].
  apply andb_true_iff in Hs as [_ Hs]. by rewrite (own_self k ts b Est Ek).
Qed.

(** A loop over pages hands out unwithdrawn messages of the pages. *)
Lemma page_live_elem (page : N → option (list RetainedMessage)) f before limit out l m :
  page_live page f before limit out = Some l → m ∈ l →
  m ∈ out ∨ m_RetractedAt m = 0%Z ∧ ∃ before' p, page before' = Some p ∧ m ∈ p.
Proof.
  revert before out. induction f as [|f IH]; intros before out E Hm; cbn [page_live] in E; [left; congruence|].
  destruct (limit <=? length out)%nat; [left; congruence|]. destruct (page before) as [p|] eqn:Ep; [|done]. cbn [mbind option_bind] in E.
  set (out' := out ++ _) in E.
  assert (m ∈ out' → m ∈ out ∨ m_RetractedAt m = 0%Z ∧ ∃ before' p, page before' = Some p ∧ m ∈ p) as Hout.
  { intros [H|H]%elem_of_app; [by left|right]. assert (m ∈ filter (λ m, m_RetractedAt m = 0%Z) p) as [Hz Hp]%list_elem_of_filter by (eapply elem_of_sublist; [exact H|apply sublist_take]). eauto. }
  destruct (length p <? limit)%nat; [apply (inj Some) in E as ->; auto|]. destruct (last p) as [x|]; [|apply (inj Some) in E as ->; auto].
  destruct (IH _ _ E Hm) as [H|H]; auto.
Qed.

Lemma page_file_topic name before limit recs m : m ∈ page_file name before limit recs → m_Topic m = name.
Proof.
  unfold page_file. rewrite merge_sort_Permutation, elem_of_fetch. intros [(m0 & _ & ->) _]. unfold with_retract.
  by destruct (me_retracts _ !! _) as [[[? ?] ?]|].
Qed.

Lemma Page_topic b name before limit p m :
  binv clock cfg b → Page name before limit b = Some p → m ∈ p → m_Topic m = name.
Proof.
  intros Hb E Hm. unfold Page in E. destruct (b_topics b !! name) as [t|] eqn:Et; [|by apply (inj Some) in E as <-; apply elem_of_nil in Hm].
  destruct (retained t).
  - destruct (b_store b) as [h|]; [|done]. cbn in E. apply (inj Some) in E as <-. by eapply page_file_topic.
  - apply (inj Some) in E as <-. eapply elem_of_sublist in Hm; [|apply sublist_take]. apply list_elem_of_filter in Hm as [_ H].
    rewrite merge_sort_Permutation, elem_of_app in H. destruct H as [H|H]; [by eapply ring_live|].
    by eapply ti_topic; [eapply bi_topic|].
Qed.
End reads.

(** ** Every request is such operations *)

Section requests.
Context (c : Conns) (s : Store) (cid : string) (st : option ticketKey) (waited : option string) (waits : list (string * TaskID * Store)).
Context (now later : Z) (draws : list (list N)) (fuel : nat).
Implicit Types (b : Board) (w : world).

(** The counter has not run out, the clock is past Go's zero time, ids are six bytes,
    and a purge names a seq the board has issued. *)
Definition world_ok (q : request) w : Prop :=
  b_seq (w_board w) + 1 < 2 ^ 64 ∧ (0 < now)%Z ∧ (0 < later)%Z ∧ Forall draw_ok draws ∧
  match q with BoardPurge _ seq => seq ≤ b_seq (w_board w) | _ => True end.

#[local] Notation dispatch := (dispatch_board file_bytes clock c s cid st now later draws fuel).
#[local] Notation out w x := (outcome c s cid st (self_id st (w_board w)) waited waits x w).

Lemma deliver_outcome r b w msgs :
  w_board w = b → Forall (handed s (self_id st (w_board w)) waited waits) msgs → (∀ cap, r ≠ PermissionDenied cap) →
  out w (Some (mkWorld (deliveredBody st msgs b).1 (w_dir w), r)).
Proof.
  intros <- Hm Hr. unfold deliveredBody, note_delivered_st. cbn [fst]. destruct st as [k|] eqn:Est.
  - by eapply (out_one _ _ _ _ _ _ _ (BNoteDelivered k msgs)); [| | |intros cap ?; by destruct (Hr cap)].
  - destruct w. apply out_same.
Qed.

Lemma after_outcome o r b w msgs :
  op_ok o (w_board w) → entitled_op c s cid st (self_id st (w_board w)) waited waits o (w_board w) →
  own_board_step s o (w_board w) = Some b → Forall (handed s (self_id st (w_board w)) waited waits) msgs →
  (∀ cap, r ≠ PermissionDenied cap) → out w (Some (mkWorld (deliveredBody st msgs b).1 (w_dir w), r)).
Proof.
  intros Ho He Es Hm Hr. unfold deliveredBody, note_delivered_st. cbn [fst]. destruct st as [k|] eqn:Est.
  - by eapply (out_two _ _ _ _ _ _ _ o (BNoteDelivered k msgs) b).
  - eapply (out_one _ _ _ _ _ _ _ o); [done|done|done|]. intros cap ?. by destruct (Hr cap).
Qed.

Lemma AgentSubscribe_outcome pattern remove w :
  out w (on_board (handleAgentSubscribe s st pattern remove) w).
Proof.
  unfold on_board, handleAgentSubscribe. destruct st as [k|] eqn:Est; [|destruct w; apply out_same]. destruct remove.
  - by eapply (out_one _ _ _ _ _ _ _ (BUnsubscribe k pattern)).
  - assert (board_step clock (Some s) disk_bytes (BSubscribe k pattern) (w_board w) = Some (Subscribe (Some s) k pattern (w_board w)).1) as Es by done.
    unfold Subscribe in Es |- *. case_bool_decide; [by eapply (out_one _ _ _ _ _ _ _ (BSubscribe k pattern))|].
    destruct (b_tasks _ !! k) as [ts|]; [|by eapply (out_one _ _ _ _ _ _ _ (BSubscribe k pattern))].
    case_bool_decide; [by eapply (out_one _ _ _ _ _ _ _ (BSubscribe k pattern))|].
    destruct (readableTopic _ _ _); by eapply (out_one _ _ _ _ _ _ _ (BSubscribe k pattern)).
Qed.

Lemma same_core_with_gone ts b : same_core b (with_gone ts b).
Proof. done. Qed.

(** What an agent publishes, on the board without the state gone from it. *)
Lemma agent_send_step at_ dest e sc b :
  binv clock cfg b → b_seq b + 1 < 2 ^ 64 → sc_senderKind sc = SenderKind_Agent →
  ∃ b1, own_board_step s (BSend at_ dest e sc) b = Some b1 ∧
    match Send (Some s) at_ dest e sc (with_gone None b) with
    | (b2, SendPanic) => False
    | (b2, _) => Some (with_gone (b_tasks b !! gone_key) b2) = Some b1
    end ∧ binv clock cfg b1.
Proof.
  intros Hb Hseq Hk. unfold own_board_step. rewrite bool_decide_eq_true_2 by done.
  destruct (step_binv clock cfg (Some s) disk_bytes (BSend at_ dest e sc) (with_gone None b)) as (b2 & Es & Hb2);
    [by eapply binv_same; [apply same_core_with_gone|]|done|].
  rewrite Es. eexists. split; [done|]. split; [|by eapply binv_same; [apply same_core_with_gone|]].
  cbn [board_step] in Es. destruct (Send _ _ _ _ _ _) as [b3 [| |]]; [| |done]; by apply (inj Some) in Es as ->.
Qed.

Lemma agentPublish_outcome k r payload w :
  binv clock cfg (w_board w) → b_seq (w_board w) + 1 < 2 ^ 64 → (0 < later)%Z → st = Some k →
  out w (on_board_opt (agentPublish s st now later k r payload) w).
Proof.
  intros Hb Hseq Hl Est. unfold on_board_opt, agentPublish. destruct (Identity st (w_board w)) as [[[fromRid fromTid] fromHost] fromProfile] eqn:Ei.
  assert (self_id st (w_board w) = fromTid) as Eself by (unfold self_id; by rewrite Ei).
  destruct (resolveReplyTarget _ _ _) as [dest|rst]; [|destruct w; apply out_same].
  destruct (Publishable (Some s) k dest (w_board w)) eqn:Hp; cbn [negb]; [|destruct w; apply out_same].
  destruct (negb _ && _) eqn:Hroute; [destruct w; apply out_same|].
  set (e := mkEnvelope _ _ _ _ _ _). set (sc := mkSendConfig _ _ _ _ _ _).
  assert (entitled_op c s cid st (self_id st (w_board w)) waited waits (BSend now dest e sc) (w_board w)) as He.
  { left. exists k. split_and!; [done|by rewrite Ei|done|done|]. apply andb_false_iff in Hroute as [H|H]; [left|right].
    - apply negb_false_iff in H. by apply bool_decide_eq_true_1 in H.
    - by apply negb_false_iff in H. }
  destruct (agent_send_step now dest e sc (w_board w) Hb Hseq eq_refl) as (b1 & Es & Es' & Hb1).
  destruct (Send (Some s) now dest e sc (with_gone None (w_board w))) as [b2 [seq n|err|]]; [| |done].
  - apply (inj Some) in Es'. rewrite Es'. destruct (sr_InReplyTo r =? 0); [cbn [mbind option_bind]; by eapply (out_one _ _ _ _ _ _ _ (BSend now dest e sc))|].
    unfold retireRepliedParent. destruct (retired_parent _ _ _) as [m|] eqn:Em; [|cbn [mbind option_bind]; by eapply (out_one _ _ _ _ _ _ _ (BSend now dest e sc))].
    destruct (step_binv clock cfg (Some s) disk_bytes (BRetireSeq (sr_InReplyTo r) (m_FromTask m) later) _ Hb1 Hl) as (b3 & Es3 & Hb3).
    pose proof Es3 as Es3'. cbn [board_step] in Es3'. rewrite Es3'. cbn [mbind option_bind].
    eapply (out_two _ _ _ _ _ _ _ (BSend now dest e sc) (BRetireSeq (sr_InReplyTo r) (m_FromTask m) later)); [exact Hseq|exact He|exact Es|exact Hl| |exact Es3|done]. split; [by rewrite Est|].
    unfold retired_parent in Em. destruct (_ || _) eqn:Ez in Em; [done|]. apply orb_false_iff in Ez as [_ Ez].
    destruct (Retained _ b1) as [m'|] eqn:Er; cbn [mbind option_bind] in Em; [|done].
    destruct (m_NoRetireOnReply m') eqn:En; [done|]. destruct (_ || _) eqn:Et in Em; [done|]. apply (inj Some) in Em as ->.
    apply orb_false_iff in Et as [Et1 Et2]. apply negb_false_iff, bool_decide_eq_true_1 in Et1. apply bool_decide_eq_false_1 in Et2, Ez.
    exists m. by rewrite Eself.
  - apply (inj Some) in Es'. rewrite Es'. cbn [mbind option_bind]. by eapply (out_one _ _ _ _ _ _ _ (BSend now dest e sc)).
Qed.

Lemma AgentSend_outcome r stream w :
  binv clock cfg (w_board w) → b_seq (w_board w) + 1 < 2 ^ 64 → (0 < later)%Z →
  out w (on_board_opt (handleAgentSend s st now later r stream) w).
Proof.
  intros Hb Hseq Hl. unfold on_board_opt at 1, handleAgentSend. destruct st as [k|] eqn:Est; [|destruct w; apply out_same].
  destruct (readAgentPayloadStream _ _) as [[payload|e]|]; [|destruct w; apply out_same|destruct w; apply out_same].
  rewrite <-Est. by apply agentPublish_outcome.
Qed.

Lemma AgentWait_outcome pattern since inReplyTo w :
  out w (on_board (handleAgentWait s st pattern since inReplyTo) w).
Proof.
  unfold on_board, handleAgentWait. destruct st as [k|] eqn:Est; [|destruct w; apply out_same].
  assert (board_step clock (Some s) disk_bytes (BWaitBegin k pattern since inReplyTo) (w_board w) =
    Some (Wait_begin (Some s) k pattern since inReplyTo (w_board w)).1) as Es by done.
  unfold Wait_begin in Es |- *. destruct (b_tasks _ !! k) as [ts|]; [|by eapply (out_one _ _ _ _ _ _ _ (BWaitBegin k pattern since inReplyTo))].
  destruct (readableTopic _ _ _); cbn [negb] in *; [|by eapply (out_one _ _ _ _ _ _ _ (BWaitBegin k pattern since inReplyTo))].
  destruct (beginWait _ _ _ _) as [ts' h]. by eapply (out_one _ _ _ _ _ _ _ (BWaitBegin k pattern since inReplyTo)).
Qed.

Lemma AgentWaited_outcome pattern since inReplyTo h how w :
  binv clock cfg (w_board w) → waited = Some pattern → let_wait (self_id st (w_board w)) waits pattern →
  out w (on_board (handleAgentWaited st pattern since inReplyTo h how) w).
Proof.
  intros Hb Hw Hlet. unfold on_board, handleAgentWaited. destruct st as [k|] eqn:Est; [|destruct w; apply out_same].
  rewrite <-Est in Hlet. set (msgs := match how with WaitFound => _ | _ => _ end). rewrite <-Est. destruct (deliveredBody st msgs _) as [b' body] eqn:Ed.
  assert (b' = (deliveredBody st msgs (Wait_end k pattern h msgs (w_board w))).1) as -> by (by rewrite Ed).
  apply (after_outcome (BWaitEnd k pattern h msgs)); [done|done|done| |done]. unfold msgs. destruct how; try done. by apply Wait_scan_handed.
Qed.

Lemma AgentInboxAdvance_outcome w : binv clock cfg (w_board w) → out w (on_board (handleAgentInboxAdvance s st) w).
Proof.
  intros Hb. unfold on_board, handleAgentInboxAdvance. destruct st as [k|] eqn:Est.
  - destruct (InboxAdvance (Some s) k (w_board w)) as [b1 msgs] eqn:E. rewrite <-Est. destruct (deliveredBody st msgs b1) as [b' body] eqn:Ed.
    assert (b' = (deliveredBody st msgs b1).1) as -> by (by rewrite Ed).
    apply (after_outcome (BInboxAdvance k)); [done|done|exact (f_equal (λ x, Some x.1) E)| |done].
    pose proof (InboxAdvance_handed s st waited waits k (w_board w) Hb Est) as H. by rewrite E in H.
  - destruct w. apply out_same.
Qed.

Lemma AgentRetract_outcome seq w :
  binv clock cfg (w_board w) → (0 < now)%Z → out w (on_board_opt (handleAgentRetract st now seq) w).
Proof.
  intros Hb Hn. unfold on_board_opt, handleAgentRetract. destruct st as [k|] eqn:Est; [|destruct w; apply out_same]. rewrite <-Est.
  destruct (step_binv clock cfg (Some s) disk_bytes (BRetractSeq seq (self_id st (w_board w)) now) _ Hb Hn) as (b1 & Es & _).
  pose proof Es as Es'. cbn [board_step] in Es'. destruct (RetractSeq _ _ _ _) as [[b2 on]|]; [|done]. apply (inj Some) in Es' as <-.
  cbn [mbind option_bind]. by eapply (out_one _ _ _ _ _ _ _ (BRetractSeq seq (self_id st (w_board w)) now)); [|rewrite Est| |].
Qed.

Definition waited_on (q : request) : option string := match q with AgentWaited pattern _ _ _ _ => Some pattern | _ => None end.
(** The messages of a response's body. *)
Definition body_of (r : response) : list DeliveredMessage :=
  match r with
  | WaitResponse _ _ body | InboxResponse _ body | InboxAdvanceResponse body | ReadSeqResponse _ body | ReadPageResponse _ body => body
  | _ => []
  end.

(** A read of the agent face: its body is messages the task may be given, noted as
    delivered. *)
Definition reads (x : option (world * response)) w : Prop :=
  ∃ msgs b' r, x = Some (mkWorld b' (w_dir w), r) ∧ body_of r = delivered_row <$> msgs ∧ (∀ cap, r ≠ PermissionDenied cap) ∧
    Forall (handed s (self_id st (w_board w)) waited waits) msgs ∧ (own_state st (w_board w) = None → msgs = []) ∧
    (b' = (deliveredBody st msgs (w_board w)).1 ∨ b' = w_board w).

Lemma reads_body msgs (f : list DeliveredMessage → response) w :
  Forall (handed s (self_id st (w_board w)) waited waits) msgs → (own_state st (w_board w) = None → msgs = []) →
  (∀ body, body_of (f body) = body) → (∀ body cap, f body ≠ PermissionDenied cap) →
  reads (on_board (λ b, let '(b', body) := deliveredBody st msgs b in (b', f body)) w) w.
Proof.
  intros Hm Hn Hf Hr. exists msgs. do 2 eexists. split_and!; [reflexivity|by rewrite Hf|done|done|done|by left].
Qed.

Lemma reads_none r w : body_of r = [] → (∀ cap, r ≠ PermissionDenied cap) → reads (on_board (λ b, (b, r)) w) w.
Proof. intros Hr Hn. exists []. do 2 eexists. split_and!; [reflexivity|done|done|done|done|by right]. Qed.

Lemma own_Subscribes k name b : st = Some k → own_state st b = None → Subscribes (Some s) k name b = false.
Proof. intros -> Hn. unfold Subscribes, own_state in *. cbn [mbind option_bind] in Hn. by destruct (b_tasks b !! k). Qed.

Lemma AgentInbox_reads sinceSeq w : binv clock cfg (w_board w) → reads (dispatch (AgentInbox sinceSeq) w) w.
Proof.
  intros Hb. cbn [dispatch_board]. unfold on_board, handleAgentInbox. destruct st as [k|] eqn:Est.
  - pose proof (Inbox_handed s st waited waits k sinceSeq (w_board w) Hb Est) as H. rewrite <-Est.
    assert (own_state st (w_board w) = None → (Inbox (Some s) k sinceSeq (w_board w)).1 = []) as Hn.
    { unfold own_state, Inbox. rewrite Est. cbn [mbind option_bind]. by intros ->. }
    destruct (Inbox _ _ _ _) as [msgs next]. by apply (reads_body msgs (InboxResponse next)).
  - rewrite <-Est. by apply (reads_body [] (InboxResponse sinceSeq)).
Qed.

Lemma AgentReadSeq_reads seq w : binv clock cfg (w_board w) → reads (dispatch (AgentReadSeq seq) w) w.
Proof.
  intros Hb. cbn [dispatch_board]. unfold on_board, handleAgentReadSeq. destruct st as [k|] eqn:Est; [|by apply reads_none].
  destruct (Retained _ _) as [m|] eqn:Em; [|by apply reads_none]. destruct (Subscribes _ _ _ _) eqn:Hs; [|by apply reads_none].
  rewrite <-Est. apply (reads_body [m] (ReadSeqResponse AgentReadSeqStatus_Ok)); [| |done|done].
  - apply Forall_singleton. by eapply Retained_handed.
  - intros Hn. by rewrite (own_Subscribes _ _ _ Est Hn) in Hs.
Qed.

Lemma AgentReadPage_reads topic beforeSeq limit w : binv clock cfg (w_board w) → reads (dispatch (AgentReadPage topic beforeSeq limit) w) w.
Proof.
  intros Hb. cbn [dispatch_board]. unfold on_board, handleAgentReadPage. destruct st as [k|] eqn:Est; [|by apply reads_none].
  destruct (_ || _) eqn:Hs; [by apply reads_none|]. apply orb_false_iff in Hs as [_ Hs%negb_false_iff].
  destruct (ListRetained _ _); [|by apply reads_none]. destruct (PageLive _ _ _ _ _) as [page|] eqn:Ep; [|by apply reads_none].
  rewrite <-Est. apply (reads_body page (ReadPageResponse AgentReadPageStatus_Ok)); [|intros Hn; by rewrite (own_Subscribes _ _ _ Est Hn) in Hs|done|done]. apply Forall_forall. intros m Hm.
  destruct (page_live_elem _ _ _ _ _ _ _ Ep Hm) as [?%elem_of_nil|(Hz & before' & p & Hp & Hin)]; [done|].
  split; [done|left]. rewrite (Page_topic _ _ _ _ _ _ Hb Hp Hin). unfold Subscribes in Hs.
  destruct (b_tasks (w_board w) !! k) as [ts|] eqn:Ek; [|done]. apply andb_true_iff in Hs as [_ Hs]. by rewrite (own_self st k ts).
Qed.

Lemma AgentArchiveRead_reads id beforeSeq limit w : reads (dispatch (AgentArchiveRead id beforeSeq limit) w) w.
Proof.
  cbn [dispatch_board]. unfold on_board, handleAgentArchiveRead. destruct (_ || _); [by apply reads_none|].
  destruct (ArchiveOf _ _ _) as [info|] eqn:Ea; [|by apply reads_none]. destruct (Readable _ _ _ _) eqn:Hs; cbn [negb]; [|by apply reads_none].
  destruct (ArchivePageLive _ _ _ _ _ _) as [page|] eqn:Ep; [|by apply reads_none].
  apply (reads_body page (ReadPageResponse AgentReadPageStatus_Ok)); [|intros Hn; unfold Readable in Hs; by rewrite Hn in Hs|done|done]. apply Forall_forall. intros m Hm.
  destruct (page_live_elem _ _ _ _ _ _ _ Ep Hm) as [?%elem_of_nil|(Hz & before' & p & Hp & Hin)]; [done|].
  split; [done|left]. apply (inj Some) in Hp as <-. unfold ArchivePage in Hin. rewrite Ea in Hin.
  destruct (stored_dir _ _ !! id) as [a|]; [|by apply elem_of_nil in Hin]. rewrite (page_file_topic _ _ _ _ _ Hin). by apply own_readable.
Qed.

Lemma AgentRead_reads q w :
  match q with AgentInbox _ | AgentReadSeq _ | AgentReadPage _ _ _ | AgentArchiveRead _ _ _ => True | _ => False end →
  binv clock cfg (w_board w) → reads (dispatch q w) w.
Proof.
  intros Hq Hb. destruct q; try done; auto using AgentInbox_reads, AgentReadSeq_reads, AgentReadPage_reads, AgentArchiveRead_reads.
Qed.

Lemma reads_outcome x w : reads x w → out w x.
Proof.
  intros (msgs & b' & r & -> & _ & Hr & Hm & _ & [-> | ->]); [by apply deliver_outcome|]. destruct w. apply out_same.
Qed.

Lemma subscribe_body pattern remove w w' r : on_board (handleAgentSubscribe s st pattern remove) w = Some (w', r) → body_of r = [].
Proof.
  unfold on_board, handleAgentSubscribe. destruct st as [k|]; [|by intros [= _ <-]]. destruct remove; [by intros [= _ <-]|].
  destruct (Subscribe _ _ _ _) as [b [e|]]; [destruct e|]; by intros [= _ <-].
Qed.

Lemma send_body rq stream w w' r : on_board_opt (handleAgentSend s st now later rq stream) w = Some (w', r) → body_of r = [].
Proof.
  unfold on_board_opt, handleAgentSend. destruct st as [k|] eqn:Est; [|by intros [= _ <-]]. rewrite <-Est.
  destruct (readAgentPayloadStream _ _) as [[payload|e]|]; [|by intros [= _ <-]|by intros [= _ <-]].
  unfold agentPublish. destruct (Identity _ _) as [[[? ?] ?] ?]. destruct (resolveReplyTarget _ _ _); [|by intros [= _ <-]].
  destruct (negb _); [by intros [= _ <-]|]. destruct (negb _ && _); [by intros [= _ <-]|].
  destruct (Send _ _ _ _ _ _) as [b [seq n|e|]]; [|by intros [= _ <-]|done].
  destruct (if _ =? _ then _ else _); [|done]. by intros [= _ <-].
Qed.

Lemma wait_body pattern sinceSeq inReplyTo w w' r : on_board (handleAgentWait s st pattern sinceSeq inReplyTo) w = Some (w', r) → body_of r = [].
Proof.
  unfold on_board, handleAgentWait. destruct st as [k|]; [|by intros [= _ <-]].
  destruct (Wait_begin _ _ _ _ _ _) as [b [h|e]]; [|destruct e]; by intros [= _ <-].
Qed.

Lemma retract_body seq w w' r : on_board_opt (handleAgentRetract st now seq) w = Some (w', r) → body_of r = [].
Proof.
  unfold on_board_opt, handleAgentRetract. destruct st; [|by intros [= _ <-]]. destruct (RetractSeq _ _ _ _) as [[b on]|]; [|done].
  by intros [= _ <-].
Qed.

(** The body of an answer of the agent face. *)
Lemma agent_body q w w' r :
  binv clock cfg (w_board w) → waited = waited_on q →
  (∀ pattern, waited_on q = Some pattern → let_wait (self_id st (w_board w)) waits pattern) →
  kind_of q = None → dispatch q w = Some (w', r) →
  ∃ msgs, body_of r = delivered_row <$> msgs ∧ Forall (handed s (self_id st (w_board w)) waited waits) msgs ∧
    (own_state st (w_board w) = None → msgs = []).
Proof.
  intros Hb Hw Hlet Hk E. assert (reads (dispatch q w) w ∨ body_of r = [] ∨
    (∃ p sq irt h how, q = AgentWaited p sq irt h how) ∨ q = AgentInboxAdvance) as [H|[H|[(p & sq & irt & h & how & ->)| ->]]].
  { destruct q; try discriminate Hk; try (left; apply AgentRead_reads; [exact I|done]); try (right; right; left; by repeat eexists);
      try (by repeat right); right; left; cbn [dispatch_board] in E.
    - by apply subscribe_body in E.
    - by apply subscribe_body in E.
    - by apply send_body in E.
    - by apply wait_body in E.
    - apply (inj Some) in E. injection E as _ <-. unfold handleAgentListRetained. by destruct (ListRetained _ _).
    - unfold on_board_opt in E. by apply retract_body in E.
    - apply (inj Some) in E. by injection E as _ <-.
    - apply (inj Some) in E. by injection E as _ <-.
    - apply (inj Some) in E. injection E as _ <-. unfold handleAgentArchives. by destruct (_ || _). }
  - destruct H as (msgs & b' & r' & E' & Hb' & _ & Hm & Hn & _). rewrite E in E'. apply (inj Some) in E'. injection E' as _ ->. eauto.
  - exists []. by rewrite H.
  - cbn [dispatch_board] in E. unfold on_board, handleAgentWaited in E. destruct st as [k|] eqn:Est; [|apply (inj Some) in E; injection E as _ <-; by exists []].
    apply (inj Some) in E. injection E as _ <-. eexists. split; [reflexivity|]. destruct how; try done. rewrite <-Est. split; [apply Wait_scan_handed; [done|done|rewrite Est; by apply (Hlet p)]|].
    unfold own_state, Wait_scan. rewrite Est. cbn [mbind option_bind]. by intros ->.
  - cbn [dispatch_board] in E. unfold on_board, handleAgentInboxAdvance in E. destruct st as [k|] eqn:Est; [|apply (inj Some) in E; injection E as _ <-; by exists []].
    pose proof (InboxAdvance_handed s st waited waits k (w_board w) Hb Est) as H. rewrite <-Est.
    assert (own_state st (w_board w) = None → (InboxAdvance (Some s) k (w_board w)).2 = []) as Hn.
    { unfold own_state, InboxAdvance. rewrite Est. cbn [mbind option_bind]. by intros ->. }
    destruct (InboxAdvance _ _ _) as [b1 msgs]. apply (inj Some) in E. injection E as _ <-. by exists msgs.
Qed.

Lemma BoardSend_outcome r stream w :
  binv clock cfg (w_board w) → b_seq (w_board w) + 1 < 2 ^ 64 → holds c s cid Capability_BoardSend →
  out w (on_board_opt (handleBoardSend c s cid now r stream) w).
Proof.
  intros Hb Hseq Hcap. unfold on_board_opt, handleBoardSend. destruct (readAgentPayloadStream _ _) as [[payload|e]|]; [|destruct w; apply out_same|destruct w; apply out_same].
  unfold boardPublish. destruct (resolveReplyTarget _ _ _) as [dest|status]; [|destruct w; apply out_same].
  set (e := mkEnvelope _ _ _ _ _ _). set (sc := mkSendConfig _ _ _ _ _ _).
  destruct (step_binv clock cfg (Some s) disk_bytes (BSend now dest e sc) _ Hb Hseq) as (b1 & Es & _). pose proof Es as Es'. cbn [board_step] in Es'.
  assert (entitled_op c s cid st (self_id st (w_board w)) waited waits (BSend now dest e sc) (w_board w)) as He by (by right).
  destruct (Send (Some s) now dest e sc (w_board w)) as [b2 [seq n|err|]]; [| |done];
    apply (inj Some) in Es' as ->; cbn [mbind option_bind]; by eapply (out_one _ _ _ _ _ _ _ (BSend now dest e sc)).
Qed.

Lemma keeps_over name b : holds c s cid Capability_BoardPersist → keeps_topic c s cid name b = true → over_topic c s cid name b.
Proof. intros Hh [H|H]%orb_true_iff; split; try done; [left|by right]. by apply bool_decide_eq_true_1 in H. Qed.

Lemma BoardRetain_outcome topic clear forever ttlMs w :
  holds c s cid Capability_BoardPersist → out w (on_board (handleBoardRetain c s cid now topic clear forever ttlMs) w).
Proof.
  intros Hcap. unfold on_board, handleBoardRetain. destruct (keeps_topic _ _ _ _ _) eqn:Hk; cbn [negb]; [|destruct w; apply out_same].
  apply keeps_over in Hk; [|done]. destruct clear.
  - destruct (ClearRetain _ _ _) as [b e] eqn:E. eapply (out_one _ _ _ _ _ _ _ (BClearRetain now topic)); [done|done| |done].
    exact (f_equal (λ x, Some x.1) E).
  - destruct (_ && _); [destruct w; apply out_same|]. destruct (_ || _); [|destruct w; apply out_same]. set (r := mkRetention _ _ _ _).
    destruct (Retain _ _ _) as [b e] eqn:E. eapply (out_one _ _ _ _ _ _ _ (BRetain topic r)); [done|done| |done]. exact (f_equal (λ x, Some x.1) E).
Qed.

Lemma BoardMembership_outcome op task topic w :
  holds c s cid Capability_BoardMember → out w (on_board (handleBoardMembership c s cid op task topic) w).
Proof.
  intros Hcap. unfold on_board, handleBoardMembership. destruct (Get _ s); [|destruct w; apply out_same].
  destruct (_ || _) eqn:Ht; [destruct w; apply out_same|]. apply orb_false_iff in Ht as [Hne%bool_decide_eq_false_1 Hin%negb_false_iff].
  assert (over_task c s cid Capability_BoardMember task) as Ho by done. assert (task ≠ by_principal c cid) as Hne' by congruence.
  destruct op.
  - destruct (SubscribeTask _ _ _ _) as [b e] eqn:E. eapply (out_one _ _ _ _ _ _ _ (BSubscribeTask task topic)); [done|done| |done].
    exact (f_equal (λ x, Some x.1) E).
  - by eapply (out_one _ _ _ _ _ _ _ (BUnsubscribeTask task topic)).
  - destruct (_ && _) eqn:Hg; [destruct w; apply out_same|]. destruct (Join _ _ _ _) as [b e] eqn:E.
    eapply (out_one _ _ _ _ _ _ _ (BJoin task topic)); [done| | |done]; [|exact (f_equal (λ x, Some x.1) E)].
    split; [done|]. split; [done|]. apply andb_false_iff in Hg as [Hg%negb_false_iff|Hg%negb_false_iff]; [left|by right].
    by apply bool_decide_eq_true_1 in Hg.
  - by eapply (out_one _ _ _ _ _ _ _ (BLeave task topic)).
  - destruct w. apply out_same.
Qed.

Lemma BoardFlush_outcome topic w :
  holds c s cid Capability_BoardPersist → out w (on_board (handleBoardFlush c s cid topic) w).
Proof.
  intros Hcap. unfold on_board, handleBoardFlush. destruct (keeps_topic _ _ _ _ _) eqn:Hk; cbn [negb]; [|destruct w; apply out_same].
  apply keeps_over in Hk; [|done].
  assert (∀ r, (∀ cap, r ≠ PermissionDenied cap) → out w (Some (mkWorld (Flush topic (w_board w)).1 (w_dir w), r))) as H.
  { intros r Hr. eapply (out_one _ _ _ _ _ _ _ (BFlush topic)); [done|done|done|]. intros cap ?. by destruct (Hr cap). }
  destruct (Flush topic (w_board w)) as [b [[through dropped]|e]]; [by apply H|]. destruct e; by apply H.
Qed.

Lemma BoardPurge_outcome topic seq w :
  holds c s cid Capability_BoardPurge → seq ≤ b_seq (w_board w) → out w (on_board (handleBoardPurge now topic seq) w).
Proof.
  intros Hcap Hs. unfold on_board, handleBoardPurge. destruct (seq =? 0).
  - destruct (PurgeTopic _ _ _) as [b [n|]] eqn:E; (eapply (out_one _ _ _ _ _ _ _ (BPurgeTopic now topic)); [done|done| |done]; exact (f_equal (λ x, Some x.1) E)).
  - destruct (PurgeSeq _ _ _) as [b [removed found]] eqn:E.
    destruct (_ || _); (eapply (out_one _ _ _ _ _ _ _ (BPurgeSeq topic seq)); [done|done| |done]; exact (f_equal (λ x, Some x.1) E)).
Qed.

Lemma BoardContactsClear_outcome task topic w :
  holds c s cid Capability_BoardPurge → out w (on_board (handleBoardContactsClear c s cid task topic) w).
Proof.
  intros Hcap. unfold on_board, handleBoardContactsClear. destruct (inScope _ _ _ _ _) eqn:Hi; [|destruct w; apply out_same].
  destruct (ClearContacts _ _ _) as [b [n [|]]] eqn:E; (eapply (out_one _ _ _ _ _ _ _ (BClearContacts task topic)); [done|done| |done]; exact (f_equal (λ x, Some x.1) E)).
Qed.

Lemma BoardRetract_outcome topic seq w :
  binv clock cfg (w_board w) → (0 < now)%Z → holds c s cid Capability_BoardPurge →
  out w (on_board_opt (handleBoardRetract c cid now topic seq) w).
Proof.
  intros Hb Hn Hcap. unfold on_board_opt, handleBoardRetract.
  destruct (step_binv clock cfg (Some s) disk_bytes (BForceRetractSeq topic seq (by_principal c cid) now) _ Hb Hn) as (b1 & Es & _).
  pose proof Es as Es'. cbn [board_step] in Es'. destruct (ForceRetractSeq _ _ _ _ _) as [[b2 [retracted found]]|]; [|done].
  apply (inj Some) in Es' as <-. cbn [mbind option_bind]. by eapply (out_one _ _ _ _ _ _ _ (BForceRetractSeq topic seq (by_principal c cid) now)).
Qed.

Lemma BoardWake_outcome topic w : holds c s cid Capability_BoardSend → out w (on_board (handleBoardWake s topic) w).
Proof.
  intros Hcap. unfold on_board, handleBoardWake. destruct (Wake _ _ _) as [b n] eqn:E.
  eapply (out_one _ _ _ _ _ _ _ (BWake topic)); [done|done| |done]. exact (f_equal (λ x, Some x.1) E).
Qed.

(** One operation on the archives. *)
Lemma out_arch o dir' r w :
  arch_op_ok o (w_board w, w_dir w) → entitled c s cid st (self_id st (w_board w)) waited waits o (w_board w) →
  own_step s o (w_board w, w_dir w) = Some (w_board w, dir') →
  (∀ cap, r ≠ PermissionDenied cap) → out w (Some (mkWorld (w_board w) dir', r)).
Proof.
  intros Ho He Es Hr. exists [o], (mkWorld (w_board w) dir'), r. cbn [all_entitled own_run fst]. rewrite Es.
  split_and!; try done. intros cap E. by destruct (Hr cap).
Qed.

Lemma BoardArchive_outcome topic w :
  holds c s cid Capability_BoardPersist → Forall draw_ok draws →
  out w (on_dir (handleBoardArchive file_bytes clock c s cid now draws topic (w_board w)) w).
Proof.
  intros Hcap Hd. unfold on_dir, handleBoardArchive. destruct (Retainable topic); cbn [negb]; [|destruct w; apply out_same].
  destruct (keeps_topic _ _ _ _ _) eqn:Hk; cbn [negb]; [|destruct w; apply out_same]. apply keeps_over in Hk; [|done].
  assert (∀ r, (∀ cap, r ≠ PermissionDenied cap) →
    out w (Some (mkWorld (w_board w) (Archive file_bytes clock draws topic (by_principal c cid) now (w_board w) (w_dir w)).1, r))) as H.
  { intros r Hr. by eapply (out_arch (AOArchive draws topic (by_principal c cid) now)). }
  destruct (Archive _ _ _ _ _ _ _ _) as [dir' [info|e]]; [by apply H|]. destruct e as [|e|]; [by apply H| |by apply H]. destruct e; by apply H.
Qed.

Lemma BoardArchivePurge_outcome id seq w :
  holds c s cid Capability_BoardPurge → out w (on_dir (handleBoardArchivePurge file_bytes id seq (w_board w)) w).
Proof.
  intros Hcap. unfold on_dir, handleBoardArchivePurge. destruct (b_store _); [|destruct w; apply out_same].
  destruct (ArchiveOf _ _ _); [|destruct w; apply out_same]. destruct (ArchivePurge _ _ _ _) as [dir' [removed found]] eqn:E.
  eapply (out_arch (AOPurge id seq)); [done|done| |by destruct removed]. exact (f_equal (λ x, Some (w_board w, x.1)) E).
Qed.

Lemma gated_outcome q w k :
  binv clock cfg (w_board w) → world_ok q w → kind_of q = Some k → holds c s cid (requiredCap k) → out w (dispatch q w).
Proof.
  intros Hb (Hseq & Hn & Hl & Hd & Hq) Ek Hcap.
  destruct q; try discriminate Ek; apply (inj Some) in Ek as <-; cbn [dispatch_board requiredCap] in *;
    eauto using out_same, BoardRetract_outcome, BoardContactsClear_outcome, BoardPurge_outcome, BoardSend_outcome, BoardWake_outcome,
      BoardRetain_outcome, BoardFlush_outcome, BoardArchive_outcome, BoardArchivePurge_outcome, BoardMembership_outcome.
Qed.

Lemma agent_outcome q w :
  binv clock cfg (w_board w) → world_ok q w → waited = waited_on q →
  (∀ pattern, waited_on q = Some pattern → let_wait (self_id st (w_board w)) waits pattern) →
  kind_of q = None → out w (dispatch q w).
Proof.
  intros Hb (Hseq & Hn & Hl & Hd & Hq) Hw Hlet Ek.
  destruct q; try discriminate Ek; try (apply reads_outcome, AgentRead_reads; [exact I|done]); cbn [dispatch_board waited_on] in *;
    eauto using out_same, AgentSubscribe_outcome, AgentSend_outcome, AgentWait_outcome, AgentWaited_outcome, AgentInboxAdvance_outcome,
      AgentRetract_outcome.
Qed.
End requests.

(** ** The server's boards *)

(** What the server does to the board outside these requests: tasks and connections
    come and go, topics expire, and it publishes under its own name. *)
Definition internal (o : board_op) : bool :=
  match o with
  | BRegisterTask _ _ _ _ | BAttach _ _ _ _ _ | BDetach _ _ | BForgetShown _ | BEvictExpired _ => true
  | BSend _ _ _ sc => bool_decide (sc_senderKind sc = SenderKind_Server)
  | _ => false
  end.

Definition request_ok (ct : option conn_task) (now later : Z) (draws : list (list N)) (q : request) (f : face) : Prop :=
  world_ok now later draws q (f_world f) ∧
  ∀ pattern, waited_on q = Some pattern →
    ∃ s0, (pattern, self_id (own_key ct) (w_board (lent ct f)), s0) ∈ f_waits f.

(** The boards and archives of a server started empty, whoever asked for what in
    between, under whichever task store.  A revocation leaves the state it takes from
    the board to the connections that hold it. *)
Inductive served : face → Prop :=
  | served_start : (0 < RingN cfg)%nat → served (mkFace (mkWorld (start cfg) ∅) ∅ [])
  | served_internal s o b dir b' gone waits :
      served (mkFace (mkWorld b dir) gone waits) → internal o = true → op_ok o b →
      board_step clock (Some s) disk_bytes o b = Some b' → served (mkFace (mkWorld b' dir) gone waits)
  | served_revoke rid tid n b dir gone waits :
      served (mkFace (mkWorld b dir) gone waits) → gone !! n = None →
      served (mkFace (mkWorld (Revoke rid tid b) dir) (partial_alter (λ _, b_tasks b !! key_of rid tid) n gone) waits)
  | served_detach n c ts w gone waits :
      served (mkFace w gone waits) → gone !! n = Some ts → served (mkFace w (<[n := detachConn c ts]> gone) waits)
  | served_request c s cid ct now later draws fuel q f f' r :
      served f → request_ok ct now later draws q f →
      handle_board file_bytes clock c s cid ct now later draws fuel q f = Some (f', r) → served f'.

Lemma own_step_inv s o b dir :
  binv clock cfg b → dir_ok dir → arch_op_ok o (b, dir) →
  ∃ b' dir', own_step s o (b, dir) = Some (b', dir') ∧ binv clock cfg b' ∧ dir_ok dir'.
Proof.
  intros Hb Hd Ho.
  assert (∀ x, x = arch_step (Some s) clock disk_bytes file_bytes o (b, dir) →
    ∃ b' dir', x = Some (b', dir') ∧ binv clock cfg b' ∧ dir_ok dir') as Hplain.
  { intros x ->. destruct (arch_step_inv (Some s) clock disk_bytes file_bytes cfg o b dir Hb Hd Ho) as (b' & dir' & E & ? & ? & _). by exists b', dir'. }
  destruct o as [o|draws topic by_ now|id seq]; [|by apply Hplain..]. cbn [own_step arch_op_ok fst snd] in *.
  destruct o; try (by apply Hplain). unfold own_board_step. case_bool_decide as Hk; [|by apply Hplain].
  destruct (step_binv clock cfg (Some s) disk_bytes (BSend now name e cfg0) (with_gone None b)) as (b2 & -> & Hb2);
    [by eapply binv_same; [apply same_core_with_gone|]|exact Ho|].
  do 2 eexists. split; [reflexivity|]. split; [|done]. by eapply binv_same; [apply same_core_with_gone|].
Qed.

Lemma entitled_inv c s cid st self waited waits os b dir x :
  binv clock cfg b → dir_ok dir → all_entitled c s cid st self waited waits os (b, dir) → own_run s os (b, dir) = Some x →
  binv clock cfg x.1 ∧ dir_ok x.2.
Proof.
  revert b dir. induction os as [|o os IH]; intros b dir Hb Hd; cbn [all_entitled own_run]; [by intros _ [= <-]|].
  intros (Ho & _ & H). destruct (own_step_inv s o b dir Hb Hd Ho) as (b' & dir' & E & Hb' & Hd'). rewrite E in *. by apply IH.
Qed.

(** The waits on record were begun on topics their tasks could read. *)
Definition waits_ok (f : face) : Prop :=
  ∀ pattern self s0, (pattern, self, s0) ∈ f_waits f → readableFor s0 self pattern = true.

Lemma lent_binv ct f : binv clock cfg (w_board (f_world f)) → binv clock cfg (w_board (lent ct f)).
Proof.
  intros Hb. unfold lent. destruct ct as [[k|n]|]; [done| |done]. destruct (f_gone f !! n); [|done].
  by eapply binv_same; [apply same_core_with_gone|].
Qed.

Lemma lent_dir ct f : w_dir (lent ct f) = w_dir (f_world f).
Proof. unfold lent. destruct ct as [[k|n]|]; [done| |done]. by destruct (f_gone f !! n). Qed.

Lemma lent_seq ct f : b_seq (w_board (lent ct f)) = b_seq (w_board (f_world f)).
Proof. unfold lent. destruct ct as [[k|n]|]; [done| |done]. by destruct (f_gone f !! n). Qed.

Lemma lent_ok ct now later draws q f : world_ok now later draws q (f_world f) → world_ok now later draws q (lent ct f).
Proof. unfold world_ok. by rewrite lent_seq. Qed.

Lemma put_back_core ct w f :
  same_core (w_board w) (w_board (f_world (put_back ct w f))) ∧ w_dir (f_world (put_back ct w f)) = w_dir w ∧
  f_waits (put_back ct w f) = f_waits f.
Proof. unfold put_back. destruct ct as [[k|n]|]; [done| |done]. by destruct (f_gone f !! n). Qed.

Lemma put_back_lent ct f : put_back ct (lent ct f) f = f.
Proof.
  unfold put_back, lent. destruct f as [[b dir] gone waits]. cbn [f_gone f_world]. destruct ct as [[k|n]|]; [done| |done].
  destruct (gone !! n) as [ts|] eqn:E; [|done]. cbn [w_board w_dir].
  assert (b_tasks (with_gone (Some ts) b) !! gone_key = Some ts) as -> by apply lookup_partial_alter_eq.
  unfold with_gone. destruct b as [cfg' topics tasks seq tickets members st hook calls].
  change (mkFace (mkWorld (mkBoard cfg' topics (partial_alter (λ _, tasks !! gone_key) gone_key (partial_alter (λ _, Some ts) gone_key tasks))
    seq tickets members st hook calls) dir) (partial_alter (λ _, Some ts) n gone) waits =
    mkFace (mkWorld (mkBoard cfg' topics tasks seq tickets members st hook calls) dir) gone waits).
  do 2 f_equal; [|by apply partial_alter_id; rewrite E]. f_equal. apply map_eq. intros i.
  destruct (decide (gone_key = i)) as [<-|Hn]; [by rewrite lookup_partial_alter_eq|by rewrite !lookup_partial_alter_ne].
Qed.

Lemma note_wait_world q r self s f : f_world (note_wait q r self s f) = f_world f.
Proof. unfold note_wait. destruct q; try done. by destruct r. Qed.

(** A wait that is let begin is on a topic its task may read. *)
Lemma wait_let c s cid st now later draws fuel pattern since inReplyTo w w' h :
  dispatch_board file_bytes clock c s cid st now later draws fuel (AgentWait pattern since inReplyTo) w = Some (w', Waiting h) →
  readableFor s (self_id st (w_board w)) pattern = true.
Proof.
  cbn [dispatch_board]. unfold on_board, handleAgentWait. destruct st as [k|] eqn:Est; [|done]. unfold Wait_begin.
  destruct (b_tasks _ !! k) as [ts|] eqn:Ek; [|done]. destruct (readableTopic _ ts pattern) eqn:Hr; cbn [negb]; [|done].
  intros _. by rewrite (own_self (Some k) k ts).
Qed.

(** One request, on whatever board. *)
Lemma handle_outcome c s cid ct now later draws fuel q f :
  binv clock cfg (w_board (f_world f)) → waits_ok f → request_ok ct now later draws q f →
  ∃ os f' r b' dir', handle_board file_bytes clock c s cid ct now later draws fuel q f = Some (f', r) ∧
    let w := match kind_of q with None => lent ct f | Some _ => f_world f end in
    all_entitled c s cid (own_key ct) (self_id (own_key ct) (w_board w)) (waited_on q) (f_waits f) os (w_board w, w_dir w) ∧
    own_run s os (w_board w, w_dir w) = Some (b', dir') ∧
    f' = match kind_of q with
         | None => note_wait q r (self_id (own_key ct) (w_board w)) s (put_back ct (mkWorld b' dir') f)
         | Some _ => f{{ f_world := mkWorld b' dir' }}
         end ∧
    waits_ok f' ∧ (∀ cap, r = PermissionDenied cap → f' = f).
Proof.
  intros Hb Hw [Hq Hwt]. unfold handle_board. destruct (kind_of q) as [k|] eqn:Ek.
  - destruct (Gates.hasCap _ _) eqn:Hcap; cbn [negb]; cycle 1.
    { exists [], f. do 3 eexists. split; [reflexivity|]. cbn [all_entitled own_run]. split; [done|]. split; [reflexivity|].
      split; [|done]. by destruct f as [[] ?]. }
    destruct (gated_outcome c s cid (own_key ct) (waited_on q) (f_waits f) now later draws fuel q (f_world f) k Hb Hq Ek Hcap)
      as (os & w' & r & -> & Ha & Hr & Hd). cbn [mbind option_bind].
    exists os. do 2 eexists. exists (w_board w'), (w_dir w'). split; [reflexivity|]. split; [exact Ha|]. split; [exact Hr|].
    split; [by destruct w'|]. split; [exact Hw|]. intros cap E. rewrite (Hd cap E). by destruct f.
  - destruct (agent_outcome c s cid (own_key ct) (waited_on q) (f_waits f) now later draws fuel q (lent ct f))
      as (os & w' & r & E & Ha & Hr & Hd); [by apply lent_binv|by apply lent_ok|done| |done|].
    { intros pattern Hp. destruct (Hwt pattern Hp) as [s0 Hin]. exists s0. split; [done|]. by eapply Hw. }
    rewrite E. cbn [mbind option_bind]. exists os. do 2 eexists. exists (w_board w'), (w_dir w'). split; [reflexivity|].
    split; [exact Ha|]. split; [exact Hr|]. destruct w' as [b' dir']. cbn [w_board w_dir]. split; [done|].
    destruct (put_back_core ct (mkWorld b' dir') f) as (_ & _ & Ewaits). split.
    + intros pattern self s0. unfold note_wait. destruct q; try (rewrite Ewaits; by apply Hw). destruct r; try (rewrite Ewaits; by apply Hw).
      cbn [f_waits]. intros [Hin|Hin]%elem_of_app; [rewrite Ewaits in Hin; by eapply Hw|].
      apply list_elem_of_singleton in Hin as [= -> -> ->]. by eapply wait_let.
    + intros cap ->. rewrite (Hd cap eq_refl), put_back_lent. by destruct q.
Qed.

Lemma served_inv f : served f → binv clock cfg (w_board (f_world f)) ∧ dir_ok (w_dir (f_world f)) ∧ waits_ok f.
Proof.
  induction 1 as [Hr|s o b dir b' gone waits _ (Hb & Hd & Hw) _ Ho Es|rid tid n b dir gone waits _ (Hb & Hd & Hw) _
    |n c ts w gone waits _ IH _|c s cid ct now later draws fuel q f f' r _ (Hb & Hd & Hw) Hq E]; cbn [f_world w_board w_dir] in *.
  - split; [by apply start_binv|]. split; [done|]. by intros pattern self s0 ?%elem_of_nil.
  - split; [|done]. destruct (step_binv clock cfg (Some s) disk_bytes o b Hb Ho) as (b1 & Es1 & Hb1). rewrite Es in Es1. by apply (inj Some) in Es1 as ->.
  - split; [|done]. destruct (step_binv clock cfg None disk_bytes (BRevoke rid tid) b Hb I) as (b1 & Es1 & Hb1). by apply (inj Some) in Es1 as <-.
  - done.
  - destruct (handle_outcome c s cid ct now later draws fuel q f Hb Hw Hq) as (os & f1 & r1 & b' & dir' & E1 & Ha & Hrun & Ef & Hw' & _).
    rewrite E in E1. apply (inj Some) in E1. injection E1 as <- <-.
    assert (binv clock cfg b' ∧ dir_ok dir') as [Hb' Hd'].
    { eapply (entitled_inv _ _ _ _ _ _ _ _ _ _ (b', dir')); [| |exact Ha|exact Hrun]; (destruct (kind_of q); [done|]);
        [by apply lent_binv|by rewrite lent_dir]. }
    subst f'. destruct (kind_of q); [done|]. rewrite note_wait_world. destruct (put_back_core ct (mkWorld b' dir') f) as (Hc & -> & _).
    split; [|done]. by eapply binv_same.
Qed.


(** *** Reads *)

(** What a listing shows of a topic's ring. *)
Lemma ListRetained_rows s st topic b ownOnly metas x :
  handleAgentListRetained s st topic b = ListRetainedResponse BoardStatus_Ok ownOnly metas → x ∈ metas →
  ∃ t m, b_topics b !! topic = Some t ∧ m ∈ snapshot t ∧ x = retained_meta m ∧
    (readableFor s (self_id st b) topic = true ∨ is_Some (own_state st b) ∧ m_FromTask m = self_id st b).
Proof.
  unfold handleAgentListRetained, ListRetained. destruct (b_topics b !! topic) as [t|] eqn:Et; [|done]. cbn [fmap option_fmap option_map].
  intros [= _ <-] (m & -> & [Hk Hm]%list_elem_of_filter)%list_elem_of_fmap. exists t, m. split_and!; [done|done|done|].
  apply andb_false_iff in Hk as [Hk%negb_false_iff|Hk]; [left; by apply own_readable|right].
  apply orb_false_iff in Hk as [H1%negb_false_iff H2%negb_false_iff]. by apply bool_decide_eq_true_1 in H1, H2.
Qed.

Lemma Archives_topic topic dir a : topic ≠ ""%string → a ∈ Archives file_bytes topic dir → ar_Topic a = topic.
Proof.
  intros Hne Ha. unfold Archives in Ha. rewrite sort_stable_perm in Ha. apply list_elem_of_filter in Ha as [[?|?] _]; done.
Qed.

(** C5. An agent is shown only what it may read.  Whatever an agent asks of any
    board of a server started on an empty directory, the return of a wait that
    blocked apart, also after the board has revoked its task: every message in the
    answer is not withdrawn and of a topic its task may read at that moment; a row
    of a listing of a topic's ring is of a live message there, of a topic the task
    may read or else one it wrote itself; and archives are listed only for a topic
    it may read.  A connection that is no task's is shown no message at all. *)
Theorem agent_reads_confined c s cid ct now later draws fuel q f f' r :
  served f → kind_of q = None → waited_on q = None →
  handle_board file_bytes clock c s cid ct now later draws fuel q f = Some (f', r) →
  let st := own_key ct in
  let b := w_board (lent ct f) in
  let self := self_id st b in
  (∀ d, d ∈ body_of r → ∃ m, d = delivered_row m ∧ m_RetractedAt m = 0%Z ∧ readableFor s self (m_Topic m) = true) ∧
  (∀ topic ownOnly metas x, q = AgentListRetained topic → r = ListRetainedResponse BoardStatus_Ok ownOnly metas → x ∈ metas →
     ∃ t m, b_topics b !! topic = Some t ∧ m ∈ snapshot t ∧ x = retained_meta m ∧
       (readableFor s self topic = true ∨ is_Some (own_state st b) ∧ m_FromTask m = self)) ∧
  (∀ topic rows row, q = AgentArchives topic → r = BoardArchivesResponse BoardStatus_Ok rows → row ∈ rows →
     aw_Topic row = topic ∧ readableFor s self topic = true) ∧
  (own_state st b = None → body_of r = []).
Proof.
  intros Hf Hk Hnw E st b self. destruct (served_inv f Hf) as (Hb & _ & _). apply (lent_binv ct) in Hb. fold b in Hb.
  unfold handle_board in E. rewrite Hk in E. fold st in E.
  destruct (dispatch_board _ _ _ _ _ _ _ _ _ _ _ _) as [[w' r']|] eqn:Ed; [|done]. cbn [mbind option_bind] in E.
  apply (inj Some) in E. injection E as _ ->.
  destruct (agent_body c s cid st None [] now later draws fuel q (lent ct f) w' r Hb) as (msgs & Eb & Hm & Hn); [done|by rewrite Hnw|done|done|].
  fold b self in Hm, Hn.
  split_and!.
  - intros d. rewrite Eb. intros (m & -> & Hin)%list_elem_of_fmap. exists m. split; [done|]. rewrite Forall_forall in Hm.
    destruct (Hm m Hin) as [? [?|[? _]]]; done.
  - intros topic ownOnly metas x -> -> Hx. cbn [dispatch_board] in Ed. apply (inj Some) in Ed. injection Ed as _ Ed. by eapply ListRetained_rows.
  - intros topic rows row -> -> Hrow. cbn [dispatch_board] in Ed. apply (inj Some) in Ed. injection Ed as _ Ed. unfold handleAgentArchives in Ed.
    destruct (_ || _) eqn:Ht in Ed; [done|]. apply orb_false_iff in Ht as [Ht%bool_decide_eq_false_1 Hr%negb_false_iff].
    injection Ed as <-. apply list_elem_of_fmap in Hrow as (a & -> & Ha). split; [by eapply Archives_topic|by apply own_readable].
  - intros Hst. by rewrite Eb, Hn.
Qed.
End authority.

(** ** Witnesses: a task writes to its creator, which reads it, after the board has
    revoked the writer *)

Module SampleFace.
Import SampleReach.
Definition kp : ticketKey := key_of [1] p.
Definition kc : ticketKey := key_of [2] c.
Definition conns : Conns := mkConns ∅ {["p" := p; "c" := c]}.
#[local] Instance sample_disk : BoardStore := file_store SampleBoard.clock SampleBoard.bytes.

Definition handle (s : Store) (cid : string) (ct : conn_task) (now : Z) (q : request) (f : face) : option (face * response) :=
  handle_board SampleArchive.size_of SampleBoard.clock conns s cid (Some ct) now (now + 1) [] 9 q f.
Definition internal_step (s : Store) (o : board_op) (f : face) : face :=
  mkFace (mkWorld (default (w_board (f_world f)) (board_step SampleBoard.clock (Some s) SampleBoard.bytes o (w_board (f_world f))))
    (w_dir (f_world f))) (f_gone f) (f_waits f).

Definition r : SendRequest := mkSendRequest (SelfTopic p) 0 "" false false false false.
Definition send : request := AgentSend r (Some [Some ([1; 2], false); Some ([3], true)]).

Definition f0 : face := mkFace (mkWorld (start SampleBoard.cfg) ∅) ∅ [].
Definition f1 : face := internal_step s (BRegisterTask [1] p [5] "") f0.
Definition f2 : face := internal_step s (BRegisterTask [2] c [6] "") f1.
(** The task [c] is revoked while a connection of it is open. *)
Definition f2' : face :=
  mkFace (mkWorld (Revoke [2] c (w_board (f_world f2))) (w_dir (f_world f2)))
    (partial_alter (λ _, b_tasks (w_board (f_world f2)) !! key_of [2] c) 0 (f_gone f2)) (f_waits f2).
Definition f3 : face := (default (f2', PermissionDenied 0) (handle s "c" (GoneTask 0) 20 send f2')).1.

Lemma answered_default (x : option (face * response)) d :
  (if x then true else false) = true → x = Some ((default d x).1, (default d x).2).
Proof. by destruct x as [[]|]. Qed.

Lemma f2_served : served SampleBoard.clock SampleBoard.bytes SampleArchive.size_of SampleBoard.cfg f2.
Proof.
  eapply (served_internal _ _ _ _ s (BRegisterTask [2] c [6] "") (w_board (f_world f1))); [|reflexivity|exact I|reflexivity].
  eapply (served_internal _ _ _ _ s (BRegisterTask [1] p [5] "") (w_board (f_world f0))); [|reflexivity|exact I|reflexivity].
  apply served_start. by apply Nat.ltb_lt.
Qed.

Lemma f2'_served : served SampleBoard.clock SampleBoard.bytes SampleArchive.size_of SampleBoard.cfg f2'.
Proof. apply (served_revoke _ _ _ _ [2] c 0 (w_board (f_world f2))); [apply f2_served|reflexivity]. Qed.

Lemma send_ok : request_ok (Some (GoneTask 0)) 20 21 [] send f2'.
Proof. split; [split_and!; by vm_compute|]. intros pattern Hp. discriminate Hp. Qed.

Lemma f3_served : served SampleBoard.clock SampleBoard.bytes SampleArchive.size_of SampleBoard.cfg f3.
Proof.
  eapply (served_request _ _ _ _ conns s "c" (Some (GoneTask 0)) 20 21 [] 9 send f2'); [apply f2'_served|apply send_ok|].
  apply answered_default. vm_compute. reflexivity.
Qed.

(** Stores in which the task may and may not observe the board. *)
Definition can_observe : Store := run (SetWAL (Some []) NewTaskStore) [spawn p zeroID Capability_BoardPeer; spawn c p Capability_BoardObserve].
Definition wait : request := AgentWait (SelfTopic p) 0 0.
Definition waited : request := AgentWaited (SelfTopic p) 0 0 0 WaitFound.
Definition news : board_op :=
  BSend 30 (SelfTopic p) (mkEnvelope [7] zeroID zeroID "" "" 0) (mkSendConfig false "" SenderKind_Server false false false).
Definition blocked : face := (default (f2, PermissionDenied 0) (handle can_observe "c" (LiveTask kc) 20 wait f2)).1.
Definition found : option response := snd <$> handle s "c" (LiveTask kc) 40 waited (internal_step s news blocked).
End SampleFace.


Lemma agent_reads_confined_witness :
  ∃ d, (∃ m, d = delivered_row m ∧ m_RetractedAt m = 0%Z ∧ readableFor SampleReach.s SampleReach.p (m_Topic m) = true) ∧ dm_Payload d = [1; 2; 3].
Proof.
  assert ((if SampleFace.handle SampleReach.s "p" (LiveTask SampleFace.kp) 30 (AgentInbox 0) SampleFace.f3 then true else false) = true) as E0
    by (vm_compute; reflexivity).
  pose proof (SampleFace.answered_default (SampleFace.handle SampleReach.s "p" (LiveTask SampleFace.kp) 30 (AgentInbox 0) SampleFace.f3)
    (SampleFace.f2, PermissionDenied 0) E0) as E.
  destruct (agent_reads_confined SampleBoard.clock SampleBoard.bytes SampleArchive.size_of SampleBoard.cfg SampleFace.conns SampleReach.s "p"
    (Some (LiveTask SampleFace.kp)) 30 31 [] 9 (AgentInbox 0) SampleFace.f3 _ _
    SampleFace.f3_served eq_refl eq_refl E) as [H _].
  assert (head (dm_Payload <$> body_of (default (SampleFace.f2, PermissionDenied 0)
    (SampleFace.handle SampleReach.s "p" (LiveTask SampleFace.kp) 30 (AgentInbox 0) SampleFace.f3)).2) = Some [1; 2; 3]) as Hd by (vm_compute; reflexivity).
  destruct (body_of _) as [|d l]; [discriminate|]. exists d. split; [|by injection Hd].
  assert (self_id (Some SampleFace.kp) (w_board (lent (Some (LiveTask SampleFace.kp)) SampleFace.f3)) = SampleReach.p) as <- by (vm_compute; reflexivity).
  apply H. by left.
Defined.

(** A blocked wait is checked once, when it begins: the message it returns may be of a
    topic its task has since lost the right to read. *)
Lemma wait_outlives_its_right :
  (∃ h, snd <$> SampleFace.handle SampleFace.can_observe "c" (LiveTask SampleFace.kc) 20 SampleFace.wait SampleFace.f2 = Some (Waiting h)) ∧
  (∃ next d, SampleFace.found = Some (WaitResponse false next [d]) ∧ dm_Payload d = [7] ∧ dm_Topic d = SelfTopic SampleReach.p) ∧
  readableFor SampleReach.s SampleReach.c (SelfTopic SampleReach.p) = false ∧
  snd <$> SampleFace.handle SampleReach.s "c" (LiveTask SampleFace.kc) 40 SampleFace.wait
      (SampleFace.internal_step SampleReach.s SampleFace.news SampleFace.blocked) =
    Some (PermissionDenied Capability_BoardObserve).
Proof.
  split_and!.
  - exists 0%nat. vm_compute. reflexivity.
  - exists 1. eexists. split; [vm_compute; reflexivity|]. split; reflexivity.
  - vm_compute. reflexivity.
  - vm_compute. reflexivity.
Qed.

(** Revoking a task leaves its open connections their state: one goes on publishing in the
    task's name, and a subscription it makes is answered ok, though nothing published is delivered to it. *)
Lemma revoked_connection_still_publishes :
  b_tasks (w_board (f_world SampleFace.f2')) !! SampleFace.kc = None ∧
  (∃ seq n, snd <$> SampleFace.handle SampleReach.s "c" (GoneTask 0) 20 SampleFace.send SampleFace.f2' = Some (SendResponse SendStatus_Ok seq n)) ∧
  (m_FromTask <$> Retained 1 (w_board (f_world SampleFace.f3))) = Some SampleReach.c ∧
  snd <$> SampleFace.handle SampleReach.s "c" (GoneTask 0) 20 (AgentSubscribe "news") SampleFace.f2' = Some (SubscribeResponse SubscribeStatus_Ok) ∧
  subscribers "news" (w_board (f_world (default (SampleFace.f2', PermissionDenied 0)
    (SampleFace.handle SampleReach.s "c" (GoneTask 0) 20 (AgentSubscribe "news") SampleFace.f2')).1)) = [].
Proof.
  split_and!; [vm_compute; reflexivity| |vm_compute; reflexivity..]. exists 1. eexists. vm_compute. reflexivity.
Qed.
