(* ===== verification/Keys.v ===== *)
(** * Runner keys and dial records: [server/runnerkeys.go],
    [server/runner_keys_handler.go], [server/runnerdials.go] and
    [server/runner_dial_handler.go]

    Two small stores the operator manages: the keys a runner may register with
    and the runners the server keeps dialing, each bound to such a key.  Both are a
    map in memory written to a file after every change.  A file is the list of its
    rows; of the JSON text only what it does to a string is modelled, which is that every byte that
    is no part of a UTF-8 character is written as U+FFFD.  Whether a write succeeds is an
    argument.  Checking the text of a dial candidate is a parameter: the grammar is
    [objproto]'s.  The loops that dial are the calls made to them.  Adding a dial record is two
    steps, as the store is locked once to look for the candidates and once to add
    the record.

    Theorems: whatever is added and removed and whichever writes fail, the dial
    records in memory are those a restart reads back, as JSON writes them; the keys are, as
    long as the writes of the key file succeed; two requests at a time can add one
    candidate twice; an
    unenroll whose write fails has taken the key out of memory only, answers that
    there is no such key and closes no runner on it. *)

From stdpp Require Import prelude gmap strings list sorting.
From Stdlib Require Import NArith ZArith Ascii.
From coqutil Require Import Datatypes.RecordSetters.
From S2P Require Import Prelude Utf8 GoStrings Caps Scope Wire Wal TaskStore Replay Topic BoardReach Registry Gates.

Import DoubleBraceUpdate.
Open Scope N_scope.
Open Scope stdpp_scope.
Set Default Goal Selector "!".

Definition PublicKeySize : nat := 32.

(** ** Strings in JSON *)

Definition str_bytes (s : string) : list N := N_of_ascii <$> chars s.

(** [encoding/json] writes a byte that [utf8.DecodeRune] refuses as U+FFFD and
    everything else so that it is read back. *)
Fixpoint json_bytes (fuel : nat) (p : list N) : list N :=
  match fuel, p with
  | O, _ | _, [] => []
  | S fuel, _ =>
      let '(r, n) := DecodeRune p in
      (if (r =? RuneError) && (n =? 1)%nat then [0xEF; 0xBF; 0xBD] else take n p) ++ json_bytes fuel (drop n p)
  end.
Definition json_string (s : string) : string := bytes (json_bytes (String.length s) (str_bytes s)).
Definition utf8 (s : string) : Prop := ValidString (str_bytes s) = true.

(** ** The enrolled runner keys *)

Record RunnerKeyRecord := mkRunnerKeyRecord {
  rk_Key : list N; rk_Label : string; rk_EnrolledAt : Z; rk_EnrolledBy : string }.

Record runnerKeyJSON := mkRunnerKeyJSON {
  rj_Key : string; rj_Label : string; rj_EnrolledAt : Z; rj_EnrolledBy : string }.

(** [ks_path]: whether the store has a file; [ks_file]: its rows, if there is one. *)
Record RunnerKeyStore := mkRunnerKeyStore {
  ks_path : bool;
  ks_keys : gmap string RunnerKeyRecord;
  ks_file : option (list runnerKeyJSON);
}.

Definition key_row (id : string) (r : RunnerKeyRecord) : runnerKeyJSON :=
  mkRunnerKeyJSON (json_string id) (json_string (rk_Label r)) (rk_EnrolledAt r) (json_string (rk_EnrolledBy r)).

Definition row_less (a b : runnerKeyJSON) : bool := bool_decide (strict String.le (rj_Key a) (rj_Key b)).

(** [ok]: the write and the rename succeed. *)
Definition saveLocked (ok : bool) (st : RunnerKeyStore) : RunnerKeyStore * bool :=
  if negb (ks_path st) then (st, true)
  else if ok then
    (st{{ ks_file := Some (sort_stable row_less ((λ p, key_row p.1 p.2) <$> map_to_list (ks_keys st))) }}, true)
  else (st, false).

(** One row of the file; [None] stops the load. *)
Definition load_row (acc : option (gmap string RunnerKeyRecord)) (r : runnerKeyJSON)
    : option (gmap string RunnerKeyRecord) :=
  keys ← acc;
  k ← DecodeString (rj_Key r);
  if (length k =? PublicKeySize)%nat
  then Some (<[rj_Key r := mkRunnerKeyRecord k (rj_Label r) (rj_EnrolledAt r) (rj_EnrolledBy r)]> keys)
  else None.

Definition LoadRunnerKeyStore (path : bool) (file : option (list runnerKeyJSON)) (initial : list RunnerKeyRecord)
    : option RunnerKeyStore :=
  let loaded := match file with
                | Some rows => if path then foldl load_row (Some ∅) rows else Some ∅
                | None => Some ∅
                end in
  keys ← loaded;
  Some (mkRunnerKeyStore path (foldl (λ m r, <[EncodeToString (rk_Key r) := r]> m) keys initial) file).

Definition Lookup (pub : list N) (st : RunnerKeyStore) : option RunnerKeyRecord := ks_keys st !! EncodeToString pub.

(** Whether the key was added, and whether the write succeeded. *)
Definition Enroll (ok : bool) (rec : RunnerKeyRecord) (st : RunnerKeyStore) : RunnerKeyStore * bool * bool :=
  let id := EncodeToString (rk_Key rec) in
  match ks_keys st !! id with
  | Some cur =>
      if bool_decide (rk_Label rec = "") || bool_decide (rk_Label rec = rk_Label cur) then (st, false, true)
      else
        let '(st, good) := saveLocked ok
          st{{ ks_keys := <[id := cur{{ rk_Label := rk_Label rec }}]> (ks_keys st) }} in
        (st, false, good)
  | None =>
      let '(st, good) := saveLocked ok st{{ ks_keys := <[id := rec]> (ks_keys st) }} in
      (st, true, good)
  end.

Inductive key_error := ErrKeyNotFound | ErrAmbiguousPrefix | ErrPrefixTooShort.

Definition Resolve (prefixHex : string) (st : RunnerKeyStore) : result key_error RunnerKeyRecord :=
  let p := ToLower (TrimSpace prefixHex) in
  if (String.length p <? 8)%nat then Err ErrPrefixTooShort
  else match filter (λ kv : string * RunnerKeyRecord, HasPrefix kv.1 p = true) (map_to_list (ks_keys st)) with
       | [] => Err ErrKeyNotFound
       | [kv] => Ok kv.2
       | _ => Err ErrAmbiguousPrefix
       end.

Inductive remove_error := RemoveNotFound | RemoveWriteFailed.

Definition Remove (ok : bool) (pub : list N) (st : RunnerKeyStore) : RunnerKeyStore * option remove_error :=
  let id := EncodeToString pub in
  match ks_keys st !! id with
  | None => (st, Some RemoveNotFound)
  | Some _ =>
      let '(st, good) := saveLocked ok st{{ ks_keys := delete id (ks_keys st) }} in
      (st, if good then None else Some RemoveWriteFailed)
  end.

Definition record_less (a b : RunnerKeyRecord) : bool :=
  if negb (rk_EnrolledAt a =? rk_EnrolledAt b)%Z then (rk_EnrolledAt a <? rk_EnrolledAt b)%Z
  else bool_decide (strict String.le (EncodeToString (rk_Key a)) (EncodeToString (rk_Key b))).

Definition List_keys (st : RunnerKeyStore) : list RunnerKeyRecord :=
  sort_stable record_less ((map_to_list (ks_keys st)).*2).

(** ** Dial records *)

Record RunnerDialRecord := mkRunnerDialRecord {
  rd_ID : N; rd_Candidates : list string; rd_Key : list N; rd_Label : string; rd_AddedAt : Z; rd_AddedBy : string }.

Record runnerDialJSON := mkRunnerDialJSON {
  dj_ID : N; dj_Candidates : list string; dj_Key : string; dj_Label : string; dj_AddedAt : Z; dj_AddedBy : string }.

Record RunnerDialStore := mkRunnerDialStore {
  ds_path : bool;
  ds_recs : gmap N RunnerDialRecord;
  ds_file : option (list runnerDialJSON);
}.

Definition dial_row (r : RunnerDialRecord) : runnerDialJSON :=
  mkRunnerDialJSON (rd_ID r) (json_string <$> rd_Candidates r) (json_string (EncodeToString (rd_Key r))) (json_string (rd_Label r))
    (rd_AddedAt r) (json_string (rd_AddedBy r)).

Definition dial_rows (recs : gmap N RunnerDialRecord) : list runnerDialJSON :=
  sort_stable (λ a b, dj_ID a <? dj_ID b) (dial_row <$> (map_to_list recs).*2).

Definition saveDialsLocked (ok : bool) (st : RunnerDialStore) : RunnerDialStore * bool :=
  if negb (ds_path st) then (st, true)
  else if ok then (st{{ ds_file := Some (dial_rows (ds_recs st)) }}, true)
  else (st, false).

Definition load_dial (acc : option (gmap N RunnerDialRecord)) (r : runnerDialJSON)
    : option (gmap N RunnerDialRecord) :=
  recs ← acc;
  k ← DecodeString (dj_Key r);
  if negb (length k =? PublicKeySize)%nat then None
  else if dj_ID r =? 0 then None
  else Some (<[dj_ID r := mkRunnerDialRecord (dj_ID r) (dj_Candidates r) k (dj_Label r) (dj_AddedAt r) (dj_AddedBy r)]> recs).

Definition LoadRunnerDialStore (path : bool) (file : option (list runnerDialJSON)) : option RunnerDialStore :=
  if negb path then Some (mkRunnerDialStore path ∅ file)
  else match file with
       | None => Some (mkRunnerDialStore path ∅ file)
       | Some rows => recs ← foldl load_dial (Some ∅) rows; Some (mkRunnerDialStore path recs file)
       end.

(** [draws]: the random ids drawn, in turn; [None] when they run out or reading
    them fails. *)
Fixpoint fresh_id (draws : list N) (recs : gmap N RunnerDialRecord) : option N :=
  match draws with
  | [] => None
  | id :: draws => if negb (id =? 0) && bool_decide (recs !! id = None) then Some id else fresh_id draws recs
  end.

Definition DialStore_Add (ok : bool) (draws : list N) (rec : RunnerDialRecord) (st : RunnerDialStore)
    : RunnerDialStore * option RunnerDialRecord :=
  match fresh_id draws (ds_recs st) with
  | None => (st, None)
  | Some id =>
      let rec := rec{{ rd_ID := id }} in
      let '(st, good) := saveDialsLocked ok st{{ ds_recs := <[id := rec]> (ds_recs st) }} in
      if good then (st, Some rec) else (st{{ ds_recs := delete id (ds_recs st) }}, None)
  end.

Definition DialStore_Remove (ok : bool) (id : N) (st : RunnerDialStore)
    : RunnerDialStore * (RunnerDialRecord + remove_error) :=
  match ds_recs st !! id with
  | None => (st, inr RemoveNotFound)
  | Some r =>
      let '(st, good) := saveDialsLocked ok st{{ ds_recs := delete id (ds_recs st) }} in
      if good then (st, inl r) else (st{{ ds_recs := <[id := r]> (ds_recs st) }}, inr RemoveWriteFailed)
  end.

Definition dial_less (a b : RunnerDialRecord) : bool :=
  if negb (rd_AddedAt a =? rd_AddedAt b)%Z then (rd_AddedAt a <? rd_AddedAt b)%Z else rd_ID a <? rd_ID b.

Definition on_key (key : list N) (recs : gmap N RunnerDialRecord) : list RunnerDialRecord :=
  filter (λ r, rd_Key r = key) (map_to_list recs).*2.

Definition RemoveByKey (ok : bool) (key : list N) (st : RunnerDialStore) : RunnerDialStore * list RunnerDialRecord :=
  let out := on_key key (ds_recs st) in
  let kept := st{{ ds_recs := filter (λ kv : N * RunnerDialRecord, rd_Key kv.2 ≠ key) (ds_recs st) }} in
  match out with
  | [] => (kept, [])
  | _ =>
      let '(st, good) := saveDialsLocked ok kept in
      if good then (st, sort_stable dial_less out)
      else (st{{ ds_recs := foldl (λ m r, <[rd_ID r := r]> m) (ds_recs st) out }}, [])
  end.

Definition DialStore_List (st : RunnerDialStore) : list RunnerDialRecord :=
  sort_stable dial_less (map_to_list (ds_recs st)).*2.

Definition OwnerOfCandidate (text : string) (st : RunnerDialStore) : option N :=
  rd_ID <$> find_first (λ r, bool_decide (text ∈ rd_Candidates r)) (map_to_list (ds_recs st)).*2.

(** *** The key verbs *)

Inductive RunnerKeyStatus :=
  | RunnerKeyStatus_Ok | RunnerKeyStatus_InvalidKey | RunnerKeyStatus_AlreadyEnrolled
  | RunnerKeyStatus_AmbiguousPrefix | RunnerKeyStatus_NotFound | RunnerKeyStatus_InUse.

Definition enrolledBy (c : Conns) (cid : string) : string :=
  let p := lookupPrincipal c cid in
  if bool_decide (p = zeroID) then "operator" else "task:" +:+ EncodeToString p.

Definition handleRunnerEnroll (ok : bool) (now : Z) (c : Conns) (cid : string) (key : list N) (label : string)
    (keys : option RunnerKeyStore) : option RunnerKeyStore * RunnerKeyStatus :=
  match keys with
  | None => (keys, RunnerKeyStatus_InvalidKey)
  | Some st =>
      if bool_decide (key = replicate PublicKeySize 0) then (keys, RunnerKeyStatus_InvalidKey)
      else
        let '(st, added, good) := Enroll ok (mkRunnerKeyRecord key label now (enrolledBy c cid)) st in
        (Some st, if negb good then RunnerKeyStatus_InvalidKey
                  else if negb added then RunnerKeyStatus_AlreadyEnrolled
                  else RunnerKeyStatus_Ok)
  end.

(** The connections of the registered runners that authenticated with [key], in
    the order of [Registry.List]. *)
Definition runnersOnKey (key : list N) (runners : list RunnerEntry) : list ConnectionID :=
  re_ID <$> filter (λ e, re_Key e = Some key) runners.

(** The dial loops stopped are the ids returned. *)
Definition removeDialsOfKey (ok : bool) (rec : RunnerKeyRecord) (dials : option RunnerDialStore)
    : option RunnerDialStore * list N :=
  match dials with
  | None => (None, [])
  | Some d => let '(d, out) := RemoveByKey ok (rk_Key rec) d in (Some d, rd_ID <$> out)
  end.

(** The stores, and the dial records that were checked and not added yet. *)
Record key_verbs := mkKeyVerbs {
  kv_keys : option RunnerKeyStore; kv_dials : option RunnerDialStore; kv_adding : list RunnerDialRecord }.

(** What an unenroll answers: the status, the connections it closes and the dial
    records it removes. *)
Record unenrolled := mkUnenrolled {
  un_status : RunnerKeyStatus; un_closed : list ConnectionID; un_dials : list N }.

Definition handleRunnerUnenroll (ok okDials : bool) (rawPrefix : string) (force : bool)
    (runners : list RunnerEntry) (v : key_verbs) : key_verbs * unenrolled :=
  let prefix := ToLower rawPrefix in
  let n := String.length prefix in
  let refuse st := (v, mkUnenrolled st [] []) in
  match kv_keys v with
  | None => refuse RunnerKeyStatus_InvalidKey
  | Some st =>
      if (n <? 8)%nat || (64 <? n)%nat then refuse RunnerKeyStatus_InvalidKey
      else match DecodeString (str_take (2 * (n / 2)) prefix) with
      | None => refuse RunnerKeyStatus_InvalidKey
      | Some _ =>
          match Resolve prefix st with
          | Err ErrAmbiguousPrefix => refuse RunnerKeyStatus_AmbiguousPrefix
          | Err _ => refuse RunnerKeyStatus_NotFound
          | Ok rec =>
              let conns := runnersOnKey (rk_Key rec) runners in
              if negb (bool_decide (conns = [])) && negb force then refuse RunnerKeyStatus_InUse
              else
                let '(st, e) := Remove ok (rk_Key rec) st in
                match e with
                | Some _ => (v{{ kv_keys := Some st }}, mkUnenrolled RunnerKeyStatus_NotFound [] [])
                | None =>
                    let '(dials, ids) := removeDialsOfKey okDials rec (kv_dials v) in
                    (mkKeyVerbs (Some st) dials (kv_adding v), mkUnenrolled RunnerKeyStatus_Ok conns ids)
                end
          end
      end
  end.

(** *** The dial verbs *)

Definition dialMaxCandidates : nat := 8.
Definition dialMaxCandidateBytes : nat := 512.
Definition dialMaxLabel : nat := 64.

Inductive RunnerDialStatus :=
  | RunnerDialStatus_Ok | RunnerDialStatus_InvalidCandidates | RunnerDialStatus_AmbiguousKey
  | RunnerDialStatus_KeyNotFound | RunnerDialStatus_DuplicateCandidate | RunnerDialStatus_StoreFailed
  | RunnerDialStatus_NotFound.

Section dial_verbs.
(** [dialable c]: [cli.ParseCandidate] accepts [c] and [DialLegs] has its transport. *)
Context (dialable : string → bool).

(** [runnerDialAdd] up to the loop over the candidates: a refusal, or the record to
    add. *)
Definition dialAdd_check (now : Z) (c : Conns) (cid : string)
    (cands : list string) (keyPrefix label : string) (v : key_verbs) : key_verbs * option RunnerDialStatus :=
  let refuse st := (v, Some st) in
  match kv_dials v, kv_keys v with
  | Some dials, Some keys =>
      if (dialMaxLabel <? String.length label)%nat || (length cands =? 0)%nat
         || (dialMaxCandidates <? length cands)%nat then refuse RunnerDialStatus_InvalidCandidates
      else if negb (forallb dialable cands) then refuse RunnerDialStatus_InvalidCandidates
      else if (dialMaxCandidateBytes <? sum_list (String.length <$> cands))%nat
      then refuse RunnerDialStatus_InvalidCandidates
      else match Resolve keyPrefix keys with
      | Err ErrAmbiguousPrefix => refuse RunnerDialStatus_AmbiguousKey
      | Err _ => refuse RunnerDialStatus_KeyNotFound
      | Ok key =>
          if existsb (λ x, bool_decide (is_Some (OwnerOfCandidate x dials))) cands
          then refuse RunnerDialStatus_DuplicateCandidate
          else (v{{ kv_adding := kv_adding v ++ [mkRunnerDialRecord 0 cands (rk_Key key) label now (enrolledBy c cid)] }}, None)
      end
  | _, _ => refuse RunnerDialStatus_InvalidCandidates
  end.

(** The rest of it, for the [i]-th of the requests under way. *)
Definition dialAdd_store (ok : bool) (draws : list N) (i : nat) (v : key_verbs) : key_verbs * option (RunnerDialStatus * N) :=
  match kv_dials v, kv_adding v !! i with
  | Some dials, Some rec =>
      let '(dials, rec) := DialStore_Add ok draws rec dials in
      let v := v{{ kv_dials := Some dials; kv_adding := delete i (kv_adding v) }} in
      match rec with
      | None => (v, Some (RunnerDialStatus_StoreFailed, 0))
      | Some rec => (v, Some (RunnerDialStatus_Ok, rd_ID rec))
      end
  | _, _ => (v, None)
  end.

Definition handleRunnerDialRemove (ok : bool) (id : N) (v : key_verbs) : key_verbs * RunnerDialStatus :=
  match kv_dials v with
  | None => (v, RunnerDialStatus_NotFound)
  | Some d =>
      let '(d, r) := DialStore_Remove ok id d in
      (v{{ kv_dials := Some d }},
       match r with
       | inl _ => RunnerDialStatus_Ok
       | inr RemoveNotFound => RunnerDialStatus_NotFound
       | inr RemoveWriteFailed => RunnerDialStatus_StoreFailed
       end)
  end.
End dial_verbs.

(** *** Sequences of verbs *)

Inductive verb :=
  | VEnroll (ok : bool) (now : Z) (cid : string) (key : list N) (label : string)
  | VUnenroll (ok okDials : bool) (prefix : string) (force : bool) (runners : list RunnerEntry)
  | VDialCheck (now : Z) (cid : string) (cands : list string) (keyPrefix label : string)
  | VDialAdd (ok : bool) (draws : list N) (i : nat)
  | VDialRemove (ok : bool) (id : N).

Definition verb_step (dialable : string → bool) (c : Conns) (v : key_verbs) (o : verb) : key_verbs :=
  match o with
  | VEnroll ok now cid key label => v{{ kv_keys := (handleRunnerEnroll ok now c cid key label (kv_keys v)).1 }}
  | VUnenroll ok okd prefix force runners => (handleRunnerUnenroll ok okd prefix force runners v).1
  | VDialCheck now cid cands kp label => (dialAdd_check dialable now c cid cands kp label v).1
  | VDialAdd ok draws i => (dialAdd_store ok draws i v).1
  | VDialRemove ok id => (handleRunnerDialRemove ok id v).1
  end.

(** A key on the wire is 32 bytes. *)
Definition wf_key (k : list N) : Prop := length k = PublicKeySize ∧ Forall (λ b, b < 256) k.
#[export] Instance wf_key_dec k : Decision (wf_key k).
Proof. apply _. Defined.

Definition verb_ok (o : verb) : Prop := match o with VEnroll _ _ _ key _ => wf_key key | _ => True end.

(** The write of the key file, where the verb makes one, succeeds. *)
Definition key_write_ok (o : verb) : Prop :=
  match o with VEnroll ok _ _ _ _ => ok = true | VUnenroll ok _ _ _ _ => ok = true | _ => True end.

(** Both stores of a server with a data directory, at its first start. *)
Definition no_verbs : key_verbs :=
  mkKeyVerbs (Some (mkRunnerKeyStore true ∅ None)) (Some (mkRunnerDialStore true ∅ None)) [].

(** ** What JSON keeps *)

Lemma str_bytes_length s : length (str_bytes s) = String.length s.
Proof. unfold str_bytes. by rewrite length_fmap, chars_length. Qed.

Lemma bytes_str s : bytes (str_bytes s) = s.
Proof.
  unfold bytes, str_bytes. rewrite <-list_fmap_compose. transitivity (unchars (chars s)); [|apply unchars_chars]. f_equal.
  induction (chars s) as [|x l IH]; [done|]. rewrite fmap_cons, IH. f_equal. apply ascii_N_embedding.
Qed.

Lemma json_bytes_valid fuel p : valid_from fuel p = true → json_bytes fuel p = p.
Proof.
  revert p. induction fuel as [|fuel IH]; intros [|b p]; cbn [valid_from json_bytes]; try done.
  destruct (DecodeRune (b :: p)) as [r n]. destruct (_ && _); [done|]. intros H. rewrite IH by done. apply take_drop.
Qed.

Lemma json_string_utf8 s : utf8 s → json_string s = s.
Proof.
  unfold utf8, json_string, ValidString. rewrite str_bytes_length. intros H. rewrite json_bytes_valid by done. apply bytes_str.
Qed.

Lemma valid_ascii p : Forall (λ b, b < 0x80) p → ValidString p = true.
Proof.
  unfold ValidString. induction p as [|b p IH]; intros H; [done|]. apply Forall_cons in H as [Hb H]. cbn [length valid_from DecodeRune].
  rewrite (proj2 (N.ltb_lt _ _) Hb). destruct (N.eqb_spec b RuneError) as [->|_]; [by vm_compute in Hb|by apply IH].
Qed.

Lemma hexdigit_ascii n : n < 16 → N_of_ascii (hexdigit n) < 0x80.
Proof.
  intros Hn. unfold hexdigit. destruct (N.ltb_spec n 10); rewrite N_ascii_embedding; lia.
Qed.

Lemma utf8_hex l : Forall (λ b, b < 256) l → utf8 (EncodeToString l).
Proof.
  intros Hl. apply valid_ascii. unfold str_bytes, EncodeToString. rewrite chars_unchars. apply Forall_fmap, Forall_forall. intros x Hx.
  apply list_elem_of_In, in_flat_map in Hx as (y & Hy%list_elem_of_In & Hx). rewrite Forall_forall in Hl. specialize (Hl y Hy).
  cbn in Hx. destruct Hx as [<-|[<-|[]]]; apply hexdigit_ascii; [by apply N.Div0.div_lt_upper_bound|by apply N.mod_lt].
Qed.

(** A record as it is read back. *)
Definition json_key (r : RunnerKeyRecord) : RunnerKeyRecord :=
  mkRunnerKeyRecord (rk_Key r) (json_string (rk_Label r)) (rk_EnrolledAt r) (json_string (rk_EnrolledBy r)).
Definition json_dial (r : RunnerDialRecord) : RunnerDialRecord :=
  mkRunnerDialRecord (rd_ID r) (json_string <$> rd_Candidates r) (rd_Key r) (json_string (rd_Label r)) (rd_AddedAt r)
    (json_string (rd_AddedBy r)).

Definition key_utf8 (r : RunnerKeyRecord) : Prop := utf8 (rk_Label r) ∧ utf8 (rk_EnrolledBy r).
Definition dial_utf8 (r : RunnerDialRecord) : Prop := Forall utf8 (rd_Candidates r) ∧ utf8 (rd_Label r) ∧ utf8 (rd_AddedBy r).

Lemma json_key_utf8 r : key_utf8 r → json_key r = r.
Proof. intros [H1 H2]. unfold json_key. rewrite !json_string_utf8 by done. by destruct r. Qed.

Lemma json_dial_utf8 r : dial_utf8 r → json_dial r = r.
Proof.
  intros (H1 & H2 & H3). unfold json_dial. rewrite !json_string_utf8 by done.
  assert (json_string <$> rd_Candidates r = rd_Candidates r) as ->; [|by destruct r].
  induction H1 as [|x l Hx _ IH]; [done|]. rewrite fmap_cons. f_equal; [by apply json_string_utf8|done].
Qed.

Lemma fmap_same {K A} `{Countable K} (f : A → A) (m : gmap K A) : (∀ k x, m !! k = Some x → f x = x) → f <$> m = m.
Proof.
  intros Hf. apply map_eq. intros k. rewrite lookup_fmap. destruct (m !! k) as [x|] eqn:E; [|done]. cbn. by rewrite (Hf k x E).
Qed.

(** ** Reading a file back *)

Section reading.
Context {K Row Rec : Type} `{Countable K}.
Context (key_of_row : Row → K) (rec_of_row : Row → Rec) (load1 : option (gmap K Rec) → Row → option (gmap K Rec)).

Lemma load_rows rows m :
  (∀ m r, r ∈ rows → load1 (Some m) r = Some (<[key_of_row r := rec_of_row r]> m)) →
  NoDup (key_of_row <$> rows) →
  ∃ m', foldl load1 (Some m) rows = Some m' ∧
    (∀ r, r ∈ rows → m' !! key_of_row r = Some (rec_of_row r)) ∧
    (∀ k, k ∉ key_of_row <$> rows → m' !! k = m !! k).
Proof.
  induction rows as [|r rows IH] using rev_ind; intros Hl Hnd; [by exists m; split_and!; [|set_solver|]|].
  rewrite fmap_app, NoDup_app in Hnd. destruct Hnd as (Hnd & Hd & _).
  destruct IH as (m' & Hf & Hin & Hout); [set_solver|done|].
  exists (<[key_of_row r := rec_of_row r]> m'). rewrite foldl_app, Hf. cbn. split_and!.
  - apply Hl. set_solver.
  - intros r' [Hr'| ->%list_elem_of_singleton]%elem_of_app; [|by rewrite lookup_insert_eq].
    rewrite lookup_insert_ne; [by apply Hin|]. intros E. apply (Hd (key_of_row r')); [by apply list_elem_of_fmap_2|].
    cbn. rewrite E. set_solver.
  - intros k Hk. rewrite fmap_app, not_elem_of_app in Hk. destruct Hk as [Hk1 Hk2].
    rewrite lookup_insert_ne; [by apply Hout|]. intros E. apply Hk2. cbn. set_solver.
Qed.

(** A map written as the rows of its values, in any order, is read back. *)
Lemma load_written (recs : gmap K Rec) (g : Rec → Rec) (row : K * Rec → Row) rows :
  rows ≡ₚ row <$> map_to_list recs →
  (∀ k r, recs !! k = Some r →
     key_of_row (row (k, r)) = k ∧ rec_of_row (row (k, r)) = g r ∧
     ∀ m, load1 (Some m) (row (k, r)) = Some (<[k := g r]> m)) →
  foldl load1 (Some ∅) rows = Some (g <$> recs).
Proof.
  intros Hp Hrow.
  assert (∀ r, r ∈ rows → ∃ k v, recs !! k = Some v ∧ r = row (k, v)) as Hrows.
  { intros r. rewrite Hp. intros ([k v] & -> & Hkv%elem_of_map_to_list)%list_elem_of_fmap. eauto. }
  assert (key_of_row <$> rows ≡ₚ (map_to_list recs).*1) as Hkeys.
  { rewrite Hp, <-list_fmap_compose. apply reflexive_eq, list_fmap_ext. intros i [k v] Hi%list_elem_of_lookup_2. cbn.
    by apply Hrow, elem_of_map_to_list. }
  destruct (load_rows rows ∅) as (m' & Hf & Hin & Hout).
  { intros m r (k & v & Hkv & ->)%Hrows. destruct (Hrow k v Hkv) as (-> & -> & Hl). apply Hl. }
  { rewrite Hkeys. apply NoDup_fst_map_to_list. }
  rewrite Hf. f_equal. apply map_eq. intros k. rewrite lookup_fmap. destruct (recs !! k) as [v|] eqn:E.
  - destruct (Hrow k v E) as (Ek & Ev & _). assert (row (k, v) ∈ rows) as Hr
      by (rewrite Hp; by apply list_elem_of_fmap_2, elem_of_map_to_list).
    apply Hin in Hr. by rewrite Ek, Ev in Hr.
  - rewrite Hout; [apply lookup_empty|]. rewrite Hkeys. intros (kv & -> & Hkv)%list_elem_of_fmap.
    apply elem_of_map_to_list' in Hkv. congruence.
Qed.
End reading.

(** ** The key store *)

Record keys_ok (st : RunnerKeyStore) : Prop := {
  ko_path : ks_path st = true;
  ko_wf id r : ks_keys st !! id = Some r → id = EncodeToString (rk_Key r) ∧ wf_key (rk_Key r);
}.

(** The file reads back as what is in memory. *)
Definition keys_synced (st : RunnerKeyStore) : Prop :=
  foldl load_row (Some ∅) (default [] (ks_file st)) = Some (json_key <$> ks_keys st).

Lemma saveLocked_synced ok st st' good :
  keys_ok st → saveLocked ok st = (st', good) →
  keys_ok st' ∧ ks_keys st' = ks_keys st ∧ good = ok ∧ (ok = true → keys_synced st') ∧
  (ok = false → ks_file st' = ks_file st).
Proof.
  intros Hk. unfold saveLocked. rewrite (ko_path _ Hk). cbn [negb]. destruct ok; intros [= <- <-]; [|by split_and!].
  split_and!; try done.
  { split; [by apply Hk|]. intros id r. apply (ko_wf _ Hk). }
  intros _. unfold keys_synced.
  change (foldl load_row (Some ∅) (sort_stable row_less ((λ p, key_row p.1 p.2) <$> map_to_list (ks_keys st))) = Some (json_key <$> ks_keys st)).
  apply (load_written rj_Key (λ r, mkRunnerKeyRecord (default [] (DecodeString (rj_Key r))) (rj_Label r) (rj_EnrolledAt r) (rj_EnrolledBy r))
    load_row (ks_keys st) json_key (λ p, key_row p.1 p.2)); [apply sort_stable_perm|].
  intros k r Hr. destruct (ko_wf _ Hk _ _ Hr) as [-> [Hl Hb]].
  assert (DecodeString (EncodeToString (rk_Key r)) = Some (rk_Key r)) as Hd by (by apply DecodeString_EncodeToString).
  cbn [key_row rj_Key rj_Label rj_EnrolledAt rj_EnrolledBy fst snd]. rewrite (json_string_utf8 _ (utf8_hex _ Hb)), Hd. cbn [default]. split_and!; [done|done|].
  intros m. unfold load_row. cbn [mbind option_bind rj_Key rj_Label rj_EnrolledAt rj_EnrolledBy key_row].
  rewrite (json_string_utf8 _ (utf8_hex _ Hb)), Hd. cbn [mbind option_bind]. by rewrite Hl.
Qed.

Definition keys_step (st st' : RunnerKeyStore) (good : Prop) : Prop :=
  keys_ok st' ∧ (good → keys_synced st → keys_synced st').

Lemma keys_step_refl st good : keys_ok st → keys_step st st good.
Proof. by split. Qed.

Lemma keys_step_save ok st m st' g :
  keys_ok st → keys_ok st{{ ks_keys := m }} → saveLocked ok st{{ ks_keys := m }} = (st', g) →
  keys_step st st' (ok = true).
Proof. intros _ Hm Hs. destruct (saveLocked_synced _ _ _ _ Hm Hs) as (? & _ & _ & ? & _). by split; auto. Qed.

Lemma keys_ok_insert st id r :
  keys_ok st → id = EncodeToString (rk_Key r) → wf_key (rk_Key r) →
  keys_ok st{{ ks_keys := <[id := r]> (ks_keys st) }}.
Proof.
  intros Hk -> Hw. split; [by apply Hk|]. intros id' r'.
  change (ks_keys st{{ks_keys:=_}}) with (<[EncodeToString (rk_Key r) := r]> (ks_keys st)).
  intros [[<- <-]|[_ E]]%lookup_insert_Some; [done|]. by apply (ko_wf _ Hk).
Qed.

Lemma Enroll_step ok rec st st' a g :
  keys_ok st → wf_key (rk_Key rec) → Enroll ok rec st = (st', a, g) → keys_step st st' (ok = true).
Proof.
  intros Hk Hw. unfold Enroll. destruct (ks_keys st !! EncodeToString (rk_Key rec)) as [cur|] eqn:E.
  - destruct (_ || _); [intros [= <- _ _]; by apply keys_step_refl|]. destruct (saveLocked ok _) as [st1 g1] eqn:Es.
    intros [= <- _ _]. eapply keys_step_save; [done| |exact Es].
    destruct (ko_wf _ Hk _ _ E) as [Hid Hwc]. by apply keys_ok_insert.
  - destruct (saveLocked ok _) as [st1 g1] eqn:Es. intros [= <- _ _].
    eapply keys_step_save; [done| |exact Es]. by apply keys_ok_insert.
Qed.

Lemma Remove_step ok pub st st' e :
  keys_ok st → Remove ok pub st = (st', e) → keys_step st st' (ok = true).
Proof.
  intros Hk. unfold Remove. destruct (ks_keys st !! EncodeToString pub) as [cur|] eqn:E;
    [|intros [= <- _]; by apply keys_step_refl].
  destruct (saveLocked ok _) as [st1 g1] eqn:Es. intros [= <- _]. eapply keys_step_save; [done| |exact Es].
  split; [by apply Hk|]. intros id r.
  change (ks_keys st{{ks_keys:=_}}) with (delete (EncodeToString pub) (ks_keys st)).
  intros [_ Hr]%lookup_delete_Some. by apply (ko_wf _ Hk).
Qed.

Lemma Resolve_found prefix st rec :
  keys_ok st → Resolve prefix st = Ok rec → wf_key (rk_Key rec) ∧ Lookup (rk_Key rec) st = Some rec.
Proof.
  intros Hk. unfold Resolve. case_match; [done|].
  destruct (filter _ _) as [|kv [|? ?]] eqn:Ef; [done| |done]. intros [= <-].
  assert (kv ∈ filter (λ kv : string * RunnerKeyRecord, HasPrefix kv.1 (ToLower (TrimSpace prefix)) = true)
    (map_to_list (ks_keys st))) as Hin by (rewrite Ef; by left).
  apply list_elem_of_filter in Hin as [_ Hin]. apply elem_of_map_to_list' in Hin.
  destruct (ko_wf _ Hk _ _ Hin) as [Hid Hw]. split; [done|]. unfold Lookup. by rewrite <-Hid.
Qed.

(** ** The dial store *)

Record dials_ok (st : RunnerDialStore) : Prop := {
  do_path : ds_path st = true;
  do_wf id r : ds_recs st !! id = Some r → rd_ID r = id ∧ id ≠ 0 ∧ wf_key (rd_Key r);
  do_synced : foldl load_dial (Some ∅) (default [] (ds_file st)) = Some (json_dial <$> ds_recs st);
}.

Lemma dial_rows_load recs :
  (∀ id r, recs !! id = Some r → rd_ID r = id ∧ id ≠ 0 ∧ wf_key (rd_Key r)) →
  foldl load_dial (Some ∅) (dial_rows recs) = Some (json_dial <$> recs).
Proof.
  intros Hw.
  apply (load_written dj_ID (λ r, mkRunnerDialRecord (dj_ID r) (dj_Candidates r) (default [] (DecodeString (dj_Key r)))
    (dj_Label r) (dj_AddedAt r) (dj_AddedBy r)) load_dial recs json_dial (λ p, dial_row p.2)).
  { unfold dial_rows. rewrite sort_stable_perm. by rewrite <-list_fmap_compose. }
  intros k r Hr. destruct (Hw _ _ Hr) as (Hid & Hz & [Hl Hb]).
  assert (DecodeString (EncodeToString (rd_Key r)) = Some (rd_Key r)) as Hd by (by apply DecodeString_EncodeToString).
  unfold dial_row, load_dial. cbn [snd dj_ID dj_Candidates dj_Key dj_Label dj_AddedAt dj_AddedBy mbind option_bind].
  rewrite (json_string_utf8 _ (utf8_hex _ Hb)), Hd. cbn [mbind option_bind default from_option]. rewrite Hl, Hid. destruct r as [i ? ? ? ? ?].
  cbn in Hid |- *. subst i. split_and!; [done..|]. intros m. by destruct (N.eqb_spec k 0).
Qed.

(** A change of the records, written: the map may be anything well formed. *)
Lemma dials_ok_written st recs :
  ds_path st = true → (∀ id r, recs !! id = Some r → rd_ID r = id ∧ id ≠ 0 ∧ wf_key (rd_Key r)) →
  dials_ok st{{ ds_recs := recs }}{{ ds_file := Some (dial_rows recs) }}.
Proof. intros Hp Hw. split; [done|exact Hw|]. by apply dial_rows_load. Qed.

Lemma save_dials ok st recs :
  dials_ok st →
  saveDialsLocked ok st{{ ds_recs := recs }} =
    if ok then (st{{ ds_recs := recs }}{{ ds_file := Some (dial_rows recs) }}, true)
    else (st{{ ds_recs := recs }}, false).
Proof. intros Hd. unfold saveDialsLocked. change (ds_path st{{ds_recs:=recs}}) with (ds_path st). by rewrite (do_path _ Hd). Qed.

(** Rolling the records back to what they were gives the store back. *)
Lemma dials_rollback st recs recs' :
  recs' = ds_recs st → st{{ ds_recs := recs }}{{ ds_recs := recs' }} = st.
Proof. intros ->. by destruct st. Qed.

Lemma dials_ok_subset st recs :
  dials_ok st → recs ⊆ ds_recs st → dials_ok st{{ ds_recs := recs }}{{ ds_file := Some (dial_rows recs) }}.
Proof.
  intros Hd Hs. apply dials_ok_written; [apply Hd|].
  intros id r Hr. eapply (do_wf _ Hd), lookup_weaken; done.
Qed.

Lemma fresh_id_spec draws recs id : fresh_id draws recs = Some id → id ≠ 0 ∧ recs !! id = None.
Proof.
  induction draws as [|d draws IH]; cbn; [done|]. destruct (N.eqb_spec d 0); cbn; [done|].
  case_bool_decide; [by intros [= <-]|done].
Qed.

Lemma DialStore_Add_ok ok draws rec st :
  dials_ok st → wf_key (rd_Key rec) → dials_ok (DialStore_Add ok draws rec st).1.
Proof.
  intros Hd Hw. unfold DialStore_Add. destruct (fresh_id draws (ds_recs st)) as [id|] eqn:Ef; [|done].
  apply fresh_id_spec in Ef as [Hz Hn]. rewrite (save_dials ok) by done.
  destruct ok.
  - set (rec' := rec{{ rd_ID := id }}). cbn [fst]. apply dials_ok_written; [apply Hd|].
    intros i r [[<- <-]|[_ Hr]]%lookup_insert_Some; [by split_and!|by apply (do_wf _ Hd)].
  - cbn [fst]. rewrite dials_rollback; [done|].
    change (ds_recs st{{ds_recs:=?m}}) with m. by apply delete_insert_id.
Qed.

Lemma DialStore_Remove_ok ok id st : dials_ok st → dials_ok (DialStore_Remove ok id st).1.
Proof.
  intros Hd. unfold DialStore_Remove. destruct (ds_recs st !! id) as [r|] eqn:E; [|done].
  rewrite (save_dials ok) by done. destruct ok; cbn [fst].
  - apply dials_ok_subset; [done|]. apply delete_subseteq.
  - rewrite dials_rollback; [done|]. change (ds_recs st{{ds_recs:=?m}}) with m. by rewrite insert_delete_id.
Qed.

Lemma elem_of_on_key key recs r : r ∈ on_key key recs ↔ rd_Key r = key ∧ ∃ id, recs !! id = Some r.
Proof.
  unfold on_key. rewrite list_elem_of_filter, list_elem_of_fmap. split.
  - intros [Hk ([id r'] & -> & Hr)]. apply elem_of_map_to_list in Hr. eauto.
  - intros [Hk [id Hr]]. split; [done|]. exists (id, r). by rewrite elem_of_map_to_list.
Qed.

Lemma foldl_insert_recs (l : list RunnerDialRecord) (m : gmap N RunnerDialRecord) id :
  NoDup (rd_ID <$> l) →
  foldl (λ m r, <[rd_ID r := r]> m) m l !! id =
    match find_first (λ r, rd_ID r =? id) l with Some r => Some r | None => m !! id end.
Proof.
  revert m. induction l as [|r l IH]; intros m; cbn; [done|]. intros [Hn Hnd]%NoDup_cons. rewrite IH by done.
  destruct (N.eqb_spec (rd_ID r) id) as [<-|Hne].
  - rewrite (proj2 (find_first_None _ l)); [by rewrite lookup_insert_eq|].
    intros x Hx. apply N.eqb_neq. intros E. apply Hn. rewrite <-E. by apply list_elem_of_fmap_2.
  - case_match; [done|]. by rewrite lookup_insert_ne.
Qed.

Lemma on_key_NoDup key st : dials_ok st → NoDup (rd_ID <$> on_key key (ds_recs st)).
Proof.
  intros Hd. unfold on_key. eapply sublist_NoDup; [|apply sublist_fmap, sublist_filter].
  assert (rd_ID <$> (map_to_list (ds_recs st)).*2 = (map_to_list (ds_recs st)).*1) as ->.
  { rewrite <-list_fmap_compose. apply list_fmap_ext. intros i [k r] Hi%list_elem_of_lookup_2. cbn.
    by apply (do_wf _ Hd), elem_of_map_to_list. }
  apply NoDup_fst_map_to_list.
Qed.

Lemma RemoveByKey_ok ok key st : dials_ok st → dials_ok (RemoveByKey ok key st).1.
Proof.
  intros Hd. unfold RemoveByKey. set (kept := filter _ (ds_recs st)).
  destruct (on_key key (ds_recs st)) as [|r0 l0] eqn:El.
  - cbn [fst]. assert (kept = ds_recs st) as ->; [|by destruct st].
    apply map_filter_id. intros id r Hr Hk. assert (r ∈ on_key key (ds_recs st)) by (apply elem_of_on_key; eauto).
    rewrite El in H. by apply not_elem_of_nil in H.
  - rewrite <-El. rewrite (save_dials ok) by done. destruct ok; cbn [fst].
    + apply dials_ok_subset; [done|]. apply map_filter_subseteq.
    + rewrite dials_rollback; [done|]. change (ds_recs st{{ds_recs:=?m}}) with m. apply map_eq. intros id.
      rewrite foldl_insert_recs by (by apply on_key_NoDup).
      destruct (find_first _ _) as [r|] eqn:Ef.
      * apply find_first_Some in Ef as [[_ [id' Hr]]%elem_of_on_key Hid%N.eqb_eq].
        destruct (do_wf _ Hd _ _ Hr) as [Hid' _]. congruence.
      * rewrite find_first_None in Ef. unfold kept. rewrite map_lookup_filter. destruct (ds_recs st !! id) as [r|] eqn:Er; [|done].
        cbn. rewrite option_guard_True; [done|]. intros Hk.
        assert (r ∈ on_key key (ds_recs st)) as Hin by (apply elem_of_on_key; eauto).
        specialize (Ef r Hin). apply N.eqb_neq in Ef. by destruct (do_wf _ Hd _ _ Er).
Qed.

(** ** Any sequence of verbs *)

Record verbs_inv (v : key_verbs) : Prop := {
  vi_keys st : kv_keys v = Some st → keys_ok st;
  vi_dials d : kv_dials v = Some d → dials_ok d;
  vi_adding r : r ∈ kv_adding v → wf_key (rd_Key r);
}.

Definition synced (v : key_verbs) : Prop := ∀ st, kv_keys v = Some st → keys_synced st.

Lemma enroll_inv ok now c cid key label v :
  verbs_inv v → wf_key key →
  let v' := v{{ kv_keys := (handleRunnerEnroll ok now c cid key label (kv_keys v)).1 }} in
  verbs_inv v' ∧ (ok = true → synced v → synced v').
Proof.
  intros Hv Hw v'.
  assert (kv_keys v' = (handleRunnerEnroll ok now c cid key label (kv_keys v)).1) as Ek by done.
  assert (kv_dials v' = kv_dials v) as Ed by done.
  enough (∀ st', kv_keys v' = Some st' → keys_ok st' ∧ (ok = true → synced v → keys_synced st')) as Hen.
  { split; [split; [by apply Hen|rewrite Ed; apply Hv|apply Hv]|]. intros ? ? st' Hst'. by apply Hen. }
  intros st'. rewrite Ek. unfold handleRunnerEnroll. destruct (kv_keys v) as [st|] eqn:E; [|done].
  pose proof (vi_keys _ Hv _ E) as Hk. case_bool_decide.
  - intros [= <-]. split; [done|]. intros _ Hs. by apply Hs.
  - destruct (Enroll ok _ st) as [[st1 a] g] eqn:Ee. intros [= <-].
    destruct (Enroll_step ok (mkRunnerKeyRecord key label now (enrolledBy c cid)) _ _ _ _ Hk Hw Ee) as [? Hs]. split; [done|]. intros Hok Hsy. by apply Hs, Hsy.
Qed.

Lemma removeDials_ok ok rec dials :
  (∀ d, dials = Some d → dials_ok d) → ∀ d, (removeDialsOfKey ok rec dials).1 = Some d → dials_ok d.
Proof.
  intros Hd d. unfold removeDialsOfKey. destruct dials as [d0|]; [|done].
  pose proof (RemoveByKey_ok ok (rk_Key rec) d0 (Hd d0 eq_refl)) as H.
  destruct (RemoveByKey ok (rk_Key rec) d0) as [d1 out]. by intros [= <-].
Qed.

Lemma unenroll_inv ok okd prefix force runners v :
  verbs_inv v →
  let v' := (handleRunnerUnenroll ok okd prefix force runners v).1 in
  verbs_inv v' ∧ (ok = true → synced v → synced v').
Proof.
  intros Hv. unfold handleRunnerUnenroll. destruct (kv_keys v) as [st|] eqn:E; [|done].
  pose proof (vi_keys _ Hv _ E) as Hk. case_match; [done|]. case_match; [|done].
  destruct (Resolve _ st) as [rec|[]]; [|done..]. case_match; [done|].
  destruct (Remove ok (rk_Key rec) st) as [st1 e] eqn:Er.
  destruct (Remove_step _ _ _ _ _ Hk Er) as [Hk1 Hs1]. destruct e.
  - cbn [fst]. split; [split; [by intros ? [= <-]|apply Hv|apply Hv]|]. intros Hok Hsy ? [= <-]. by apply Hs1, Hsy.
  - pose proof (removeDials_ok okd rec (kv_dials v) (vi_dials _ Hv)) as Hd.
    destruct (removeDialsOfKey okd rec (kv_dials v)) as [dials ids]. cbn [fst] in *.
    split; [split; [by intros ? [= <-]|exact Hd|apply Hv]|]. intros Hok Hsy ? [= <-]. by apply Hs1, Hsy.
Qed.

Lemma dialCheck_inv dialable now c cid cands kp label v :
  verbs_inv v →
  let v' := (dialAdd_check dialable now c cid cands kp label v).1 in
  verbs_inv v' ∧ kv_keys v' = kv_keys v.
Proof.
  intros Hv. unfold dialAdd_check. destruct (kv_dials v) as [d|] eqn:Ed; [|done].
  destruct (kv_keys v) as [st|] eqn:Ek; [|done]. do 3 (case_match; [done|]).
  destruct (Resolve kp st) as [rec|[]] eqn:Er; [|done..].
  destruct (existsb _ cands); [done|]. cbn [fst]. split; [|done].
  apply Resolve_found in Er as [Hw _]; [|by apply Hv]. split; [apply Hv|apply Hv|].
  intros r [Hr| ->%list_elem_of_singleton]%elem_of_app; [by apply Hv|done].
Qed.

Lemma dialAdd_inv ok draws i v :
  verbs_inv v → verbs_inv (dialAdd_store ok draws i v).1 ∧ kv_keys (dialAdd_store ok draws i v).1 = kv_keys v.
Proof.
  intros Hv. unfold dialAdd_store. destruct (kv_dials v) as [d|] eqn:Ed; [|done].
  destruct (kv_adding v !! i) as [rec|] eqn:Ei; [|done].
  pose proof (DialStore_Add_ok ok draws rec d (vi_dials _ Hv _ Ed)) as Hadd.
  destruct (DialStore_Add ok draws rec d) as [d1 r]. cbn [fst] in Hadd.
  assert (dials_ok d1) as Hd1 by (apply Hadd, (vi_adding _ Hv); by eapply list_elem_of_lookup_2).
  assert (∀ r, r ∈ delete i (kv_adding v) → wf_key (rd_Key r)) as Hadding
    by (intros x Hx%list_elem_of_delete_inv; by apply Hv).
  destruct r; cbn [fst]; (split; [split; [apply Hv|by intros ? [= <-]|done]|done]).
Qed.

Lemma dialRemove_inv ok id v :
  verbs_inv v → verbs_inv (handleRunnerDialRemove ok id v).1 ∧ kv_keys (handleRunnerDialRemove ok id v).1 = kv_keys v.
Proof.
  intros Hv. unfold handleRunnerDialRemove. destruct (kv_dials v) as [d|] eqn:Ed; [|done].
  pose proof (DialStore_Remove_ok ok id d (vi_dials _ Hv _ Ed)) as H.
  destruct (DialStore_Remove ok id d) as [d1 r]. cbn [fst] in *. split; [split; [apply Hv|by intros ? [= <-]|apply Hv]|done].
Qed.

Lemma verbs_run dialable c ops v :
  verbs_inv v → Forall verb_ok ops →
  let v' := foldl (verb_step dialable c) v ops in
  verbs_inv v' ∧ (Forall key_write_ok ops → synced v → synced v').
Proof.
  revert v. induction ops as [|o ops IH]; intros v Hv Hops; cbn [foldl]; [done|].
  apply Forall_cons in Hops as [Ho Hops].
  assert (verbs_inv (verb_step dialable c v o) ∧ (key_write_ok o → synced v → synced (verb_step dialable c v o))) as [H1 H2].
  { destruct o; cbn [verb_step key_write_ok verb_ok] in *.
    - by apply enroll_inv.
    - by apply unenroll_inv.
    - destruct (dialCheck_inv dialable now c cid cands keyPrefix label v Hv) as [? E]. split; [done|].
      intros _ Hs st. rewrite E. apply Hs.
    - destruct (dialAdd_inv ok draws i v Hv) as [? E]. split; [done|]. intros _ Hs st. rewrite E. apply Hs.
    - destruct (dialRemove_inv ok id v Hv) as [? E]. split; [done|]. intros _ Hs st. rewrite E. apply Hs. }
  destruct (IH _ H1 Hops) as [H3 H4]. split; [done|]. intros [Hw Hws]%Forall_cons Hs. by apply H4, H2.
Qed.

(** A verb never drops a store. *)
Lemma verb_both dialable c v o :
  is_Some (kv_keys v) ∧ is_Some (kv_dials v) →
  is_Some (kv_keys (verb_step dialable c v o)) ∧ is_Some (kv_dials (verb_step dialable c v o)).
Proof.
  destruct v as [[st|] [d|] adding]; intros [[??] [??]]; try done. destruct o; cbn [verb_step].
  - unfold handleRunnerEnroll. cbn [kv_keys]. destruct (bool_decide _); [by split; eexists|].
    destruct (Enroll _ _ _) as [[??]?]. by split; eexists.
  - unfold handleRunnerUnenroll. cbn [kv_keys kv_dials]. case_match; [by split; eexists|].
    case_match; [|by split; eexists]. destruct (Resolve _ st) as [rec|[]]; [|by split; eexists..].
    case_match; [by split; eexists|]. destruct (Remove _ _ st) as [st1 [e|]]; [by split; eexists|].
    unfold removeDialsOfKey. destruct (RemoveByKey _ _ d). by split; eexists.
  - unfold dialAdd_check. cbn [kv_keys kv_dials]. do 3 (case_match; [by split; eexists|]).
    destruct (Resolve _ st) as [rec|[]]; [|by split; eexists..]. case_match; by split; eexists.
  - unfold dialAdd_store. cbn [kv_dials kv_adding]. destruct (adding !! i); [|by split; eexists].
    destruct (DialStore_Add _ _ _ d) as [d1 [?|]]; by split; eexists.
  - unfold handleRunnerDialRemove. cbn [kv_dials]. destruct (DialStore_Remove _ _ d). by split; eexists.
Qed.

Lemma no_verbs_inv : verbs_inv no_verbs ∧ synced no_verbs.
Proof.
  split; [split|].
  - intros st [= <-]. split; [done|]. intros id r. cbn. by rewrite lookup_empty.
  - intros d [= <-]. split; try done; intros *; cbn; by rewrite lookup_empty.
  - by intros r ?%not_elem_of_nil.
  - by intros st [= <-].
Qed.

(** ** Theorems *)

(** C28. However keys are enrolled and removed and dial records added and removed,
    two additions at a time included, and whichever writes of the files fail, the
    dial records a restart reads back are those in memory with every byte that is
    no part of a UTF-8 character written as U+FFFD, so exactly those when their
    strings are UTF-8; each is bound to a key of 32 bytes and none has the id 0.
    When the writes of the key file succeed, the keys a restart reads back are
    those in memory in the same way. *)
Theorem stores_survive_restart (dialable : string → bool) (c : Conns) (ops : list verb) :
  Forall verb_ok ops →
  ∃ k d adding, foldl (verb_step dialable c) no_verbs ops = mkKeyVerbs (Some k) (Some d) adding ∧
    LoadRunnerDialStore true (ds_file d) = Some d{{ ds_recs := json_dial <$> ds_recs d }} ∧
    (map_Forall (λ _, dial_utf8) (ds_recs d) → LoadRunnerDialStore true (ds_file d) = Some d) ∧
    (∀ id r, ds_recs d !! id = Some r → rd_ID r = id ∧ id ≠ 0 ∧ length (rd_Key r) = PublicKeySize) ∧
    (Forall key_write_ok ops →
       LoadRunnerKeyStore true (ks_file k) [] = Some k{{ ks_keys := json_key <$> ks_keys k }} ∧
       (map_Forall (λ _, key_utf8) (ks_keys k) → LoadRunnerKeyStore true (ks_file k) [] = Some k)).
Proof.
  intros Hops. destruct no_verbs_inv as [Hi Hs].
  destruct (verbs_run dialable c ops no_verbs Hi Hops) as [Hv Hsy].
  assert (is_Some (kv_keys (foldl (verb_step dialable c) no_verbs ops)) ∧
          is_Some (kv_dials (foldl (verb_step dialable c) no_verbs ops))) as [[k Hk] [d Hd]].
  { clear. induction ops as [|o ops IH] using rev_ind; [by split; eexists|].
    rewrite foldl_app. by apply verb_both. }
  destruct (foldl _ _ ops) as [keys dials adding]. cbn in Hk, Hd. subst. exists k, d, adding. split; [done|].
  pose proof (vi_dials _ Hv d eq_refl) as Hdok. pose proof (vi_keys _ Hv k eq_refl) as Hkok.
  assert (LoadRunnerDialStore true (ds_file d) = Some d{{ ds_recs := json_dial <$> ds_recs d }}) as Hload.
  { unfold LoadRunnerDialStore. cbn [negb]. pose proof (do_synced _ Hdok) as E. pose proof (do_path _ Hdok) as Ep.
    destruct d as [path recs [rows|]]; cbn in *; subst path; [by rewrite E|]. injection E as E. by rewrite <-E. }
  split; [done|]. split; [|split].
  - intros Hu. rewrite Hload, fmap_same; [by destruct d|]. intros id r Hr. apply json_dial_utf8. by eapply Hu.
  - intros id r Hr. by destruct (do_wf _ Hdok _ _ Hr) as (? & ? & ? & _).
  - intros Hw. pose proof (Hsy Hw Hs k eq_refl) as E. unfold keys_synced in E. pose proof (ko_path _ Hkok) as Ep.
    assert (LoadRunnerKeyStore true (ks_file k) [] = Some k{{ ks_keys := json_key <$> ks_keys k }}) as Hk.
    { unfold LoadRunnerKeyStore. destruct k as [path m [rows|]]; cbn in *; subst path; [by rewrite E|]. injection E as E. by rewrite <-E. }
    split; [done|]. intros Hu. rewrite Hk, fmap_same; [by destruct k|]. intros id r Hr. apply json_key_utf8. by eapply Hu.
Qed.

(** An unenroll whose write of the key file fails has taken the key out of memory
    and left it in the file, answers that there is no such key, and closes none of the
    connections that authenticated with it: they run on, and a restart enrolls the key
    again. *)
Theorem unenroll_failed_write okd prefix runners v st rec :
  kv_keys v = Some st → keys_ok st → (8 ≤ String.length (ToLower prefix) ≤ 64)%nat →
  is_Some (DecodeString (str_take (2 * (String.length (ToLower prefix) / 2)) (ToLower prefix))) →
  Resolve (ToLower prefix) st = Ok rec →
  let '(v', u) := handleRunnerUnenroll false okd prefix true runners v in
  un_status u = RunnerKeyStatus_NotFound ∧ un_closed u = [] ∧ un_dials u = [] ∧
  ∃ st', kv_keys v' = Some st' ∧ Lookup (rk_Key rec) st = Some rec ∧ Lookup (rk_Key rec) st' = None ∧
         ks_file st' = ks_file st.
Proof.
  intros Hv Hk [Hn1 Hn2] [raw Hraw] Hr. destruct (Resolve_found _ _ _ Hk Hr) as [_ Hl].
  unfold handleRunnerUnenroll. set (n := String.length (ToLower prefix)) in *. cbn zeta. rewrite Hv.
  assert ((n <? 8)%nat || (64 <? n)%nat = false) as ->
    by (apply orb_false_iff; split; apply Nat.ltb_ge; lia).
  rewrite Hraw, Hr. cbn [negb]. rewrite andb_false_r. unfold Remove. unfold Lookup in Hl. rewrite Hl. unfold saveLocked.
  change (ks_path st{{ks_keys:=?m}}) with (ks_path st). rewrite (ko_path _ Hk). cbn [negb].
  split_and!; try done. eexists. split_and!; [done|done| |done]. unfold Lookup.
  change (ks_keys st{{ks_keys:=?m}}) with m. by rewrite lookup_delete_eq.
Qed.

(** ** Witnesses *)

Module SampleKeys.
Definition key : list N := replicate 31 0 ++ [7].
Definition prefix : string := EncodeToString key.
Definition ops : list verb :=
  [ VEnroll true 5 "op" key "box"; VDialCheck 6 "op" ["ws:a:1-*"] prefix "first"; VDialAdd true [0; 3] 0;
    VDialCheck 7 "op" ["ws:b:1-*"] prefix "second"; VDialAdd false [4] 0; VDialRemove false 3 ].
Definition final : key_verbs := foldl (verb_step (λ _, true) noConns) no_verbs ops.
Definition st : RunnerKeyStore := default (mkRunnerKeyStore true ∅ None) (kv_keys final).
(** Two requests for one candidate, both checked before either is added. *)
Definition both : key_verbs := foldl (verb_step (λ _, true) noConns) no_verbs
  [ VEnroll true 5 "op" key "box"; VDialCheck 6 "op" ["ws:a:1-*"] prefix ""; VDialCheck 6 "op" ["ws:a:1-*"] prefix "";
    VDialAdd true [3] 0; VDialAdd true [4] 0 ].
(** A label that is no UTF-8. *)
Definition label : string := bytes [0xC3; 0x28].
Definition relabelled : key_verbs := foldl (verb_step (λ _, true) noConns) no_verbs [ VEnroll true 5 "op" key label ].
End SampleKeys.

(** The candidates are looked for and the record is added under separate locks, so two
    requests can add a candidate twice. *)
Theorem dial_add_races :
  (rd_Candidates <$> default ∅ (ds_recs <$> kv_dials SampleKeys.both) !! 3) = Some ["ws:a:1-*"%string] ∧
  (rd_Candidates <$> default ∅ (ds_recs <$> kv_dials SampleKeys.both) !! 4) = Some ["ws:a:1-*"%string].
Proof. by vm_compute. Qed.

(** A label that is no UTF-8 is not the one a restart reads back. *)
Lemma label_not_read_back :
  (rk_Label <$> (kv_keys SampleKeys.relabelled ≫= Lookup SampleKeys.key)) = Some SampleKeys.label ∧
  (rk_Label <$> (kv_keys SampleKeys.relabelled ≫= λ k, LoadRunnerKeyStore true (ks_file k) [] ≫= Lookup SampleKeys.key)) =
    Some (bytes [0xEF; 0xBF; 0xBD; 0x28]).
Proof. by vm_compute. Qed.

Lemma stores_survive_restart_witness :
  ∃ k d adding, SampleKeys.final = mkKeyVerbs (Some k) (Some d) adding ∧ size (ds_recs d) = 1%nat ∧
    LoadRunnerDialStore true (ds_file d) = Some d{{ ds_recs := json_dial <$> ds_recs d }} ∧
    LoadRunnerKeyStore true (ks_file k) [] = Some k{{ ks_keys := json_key <$> ks_keys k }}.
Proof.
  destruct (stores_survive_restart (λ _, true) noConns SampleKeys.ops) as (k & d & adding & E & Hd & _ & _ & Hk).
  - repeat constructor; by apply (bool_decide_unpack _).
  - exists k, d, adding. split; [done|]. split_and!; [|done|apply Hk; by repeat constructor].
    change (foldl _ _ _) with SampleKeys.final in E.
    assert (size (ds_recs (default (mkRunnerDialStore true ∅ None) (kv_dials SampleKeys.final))) = 1%nat) as Hs by by vm_compute.
    by rewrite E in Hs.
Defined.

Lemma unenroll_failed_write_witness :
  let '(v', u) := handleRunnerUnenroll false true SampleKeys.prefix true [] SampleKeys.final in
  un_status u = RunnerKeyStatus_NotFound ∧ un_closed u = [] ∧ un_dials u = [] ∧
  ∃ st', kv_keys v' = Some st' ∧
    Lookup SampleKeys.key SampleKeys.st = Some (mkRunnerKeyRecord SampleKeys.key "box" 5 "operator") ∧
    Lookup SampleKeys.key st' = None ∧ ks_file st' = ks_file SampleKeys.st.
Proof.
  apply (unenroll_failed_write true SampleKeys.prefix [] SampleKeys.final SampleKeys.st
           (mkRunnerKeyRecord SampleKeys.key "box" 5 "operator")).
  - by vm_compute.
  - apply (vi_keys SampleKeys.final); [|by vm_compute].
    apply (verbs_run (λ _, true) noConns SampleKeys.ops); [apply no_verbs_inv|].
    repeat constructor; by apply (bool_decide_unpack _).
  - vm_compute. lia.
  - eexists. by vm_compute.
  - by vm_compute.
Defined.
