(* ===== verification/Auth.v ===== *)
(** * Who a connection is: [server/psk.go], [RecordClientIdentity] of
    [server/task_handler.go], [establishAgentIdentity] of [server/agent_handler.go]
    and the receive loop of [server/server.go]

    The first message of a connection authenticates it: an operator surface
    proves the operator secret, an agent the ticket of its task, a runner an
    enrolled key.  The gate fixes the role, the identity is recorded once, and
    every later message is let through by role.

    What the model takes as parameters: the key derivation of [objproto] and the
    primitives of [crypto] (HMAC-SHA512 and Ed25519 verification), and the
    generated decoder of the request.  So is whether [trsf.AutoReceive] still hands
    over messages once the callback has cancelled the context of its connection: the
    comments of [server/server.go] say that the cancellation does not wake it on the UDP leg.

    Theorems: a message is handed to the task handler only on a connection whose
    first message proved the operator secret or the ticket of exactly the task it
    acts as, and to the runner handler only on one signed by an enrolled key; and
    what an agent whose ticket goes between the gate and the recording of its identity may
    do if messages are still handed over after that. *)

From stdpp Require Import prelude gmap strings list sorting.
From Stdlib Require Import NArith ZArith Ascii.
From coqutil Require Import Datatypes.RecordSetters.
From S2P Require Import Prelude GoStrings Caps Scope Wire Wal TaskStore Replay Topic BoardReach Board Registry Gates Keys.

Import DoubleBraceUpdate.
Open Scope N_scope.
Open Scope stdpp_scope.
Set Default Goal Selector "!".

(** ** Constants of the protocol *)

Definition AuthRole_Client : N := 2.
Definition AuthRole_Runner : N := 3.
Definition ClientKind_Agent : N := 4.
Definition AppKind_Pubsub : N := 64.
Definition AppKind_TaskControl : N := 65.
Definition AppKind_RunnerControl : N := 67.
Definition AppKind_PskAuth : N := 69.
Definition AppKind_Telemetry : N := 73.
Definition TaskControlKind_ClientHello : N := 6.
Definition RunnerMessageType_Hello : N := 0.

Inductive PskAuthStatus :=
  | PskAuthStatus_Ok | PskAuthStatus_BadPsk | PskAuthStatus_BadTicket | PskAuthStatus_NoIdentity
  | PskAuthStatus_NotEnrolled.

Inductive ClientHelloStatus := ClientHelloStatus_Ok | ClientHelloStatus_UnknownTask.

(** ** Requests *)

Record AgentInfo := mkAgentInfo { ai_RunnerId : list N; ai_TaskId : TaskID; ai_Hostname : string }.

Record ClientHello := mkClientHello { ch_Kind : N; ch_info : option AgentInfo }.

(** [ClientHello.AgentInfo]. *)
Definition hello_AgentInfo (h : ClientHello) : option AgentInfo :=
  if ch_Kind h =? ClientKind_Agent then ch_info h else None.

Record RunnerAuth := mkRunnerAuth {
  ra_Key : list N; ra_Sig : list N; ra_RunnerId : list N; ra_Hostname : string }.

Record PskAuthRequest := mkPskAuthRequest {
  pa_Binder : list N;
  pa_Role : N;
  pa_client : option ClientHello;
  pa_runner : option RunnerAuth;
}.

(** [PskAuthRequest.ClientHello] and [PskAuthRequest.RunnerAuth]: the arm of the role. *)
Definition req_ClientHello (r : PskAuthRequest) : option ClientHello :=
  if pa_Role r =? AuthRole_Client then pa_client r else None.
Definition req_RunnerAuth (r : PskAuthRequest) : option RunnerAuth :=
  if pa_Role r =? AuthRole_Runner then pa_runner r else None.

(** ** The gate *)

Record pskGate := mkPskGate {
  pg_authed : bool;
  pg_rejected : option PskAuthStatus;
  pg_role : N;
  pg_runnerKey : option (list N);
}.

Definition newPSKGate : pskGate := mkPskGate false None 0 None.

(** What the rest of the server holds while a message is dealt with: the tickets
    of the board, the same a moment later, the enrolled keys and the task store. *)
Record gate_env := mkGateEnv {
  ge_tickets : gmap ticketKey (list N);
  ge_tickets' : gmap ticketKey (list N);
  ge_keys : RunnerKeyStore;
  ge_tasks : Store;
}.

(** [registry.Ticket] of the board. *)
Definition Ticket (tickets : gmap ticketKey (list N)) (rid : list N) (tid : TaskID) : option (list N) :=
  tickets !! key_of rid tid.

(** [AllowsMessage]. *)
Definition AllowsMessage (g : pskGate) (data : list N) : bool :=
  if negb (pg_authed g) then false
  else match data with
       | [] => false
       | k :: rest =>
           if (k =? AppKind_Pubsub) || (k =? AppKind_Telemetry) then
             (pg_role g =? AuthRole_Client) || (pg_role g =? AuthRole_Runner)
           else if k =? AppKind_TaskControl then
             (pg_role g =? AuthRole_Client)
             && match rest with [] => false | t :: _ => negb (t =? TaskControlKind_ClientHello) end
           else if k =? AppKind_RunnerControl then
             (pg_role g =? AuthRole_Runner)
             && match rest with [] => false | t :: _ => negb (t =? RunnerMessageType_Hello) end
           else false
       end.

(** [respond]: a refusal is also remembered. *)
Definition respond (st : PskAuthStatus) (g : pskGate) : pskGate :=
  match st with PskAuthStatus_Ok => g | _ => g{{ pg_rejected := Some st }} end.

(** What [Check] returns: whether the message was a [PskAuth] one, whether the
    connection must be closed, the accepted request, and the status sent. *)
Record check_result := mkCheckResult {
  cr_isPSKMsg : bool; cr_shouldClose : bool; cr_accepted : option PskAuthRequest; cr_sent : option PskAuthStatus }.

Section gate.
Context (DeriveKey : list N → string → N → option (list N)) (hmac_sha512 : list N → list N → list N)
        (ed25519_Verify : list N → list N → list N → bool).
Context (DecodeExact : list N → option PskAuthRequest).
Context (operatorPSK : list N).

Definition ComputePSKBinder (psk transcript : list N) : option (list N) :=
  binderKey ← DeriveKey psk "ksdk-psk-binder" 32; Some (hmac_sha512 binderKey transcript).

(** ["agent-harness runner-auth v1\x00"] and the transcript. *)
Definition runnerAuthMessage (transcript : list N) : list N :=
  (N_of_ascii <$> chars "agent-harness runner-auth v1") ++ [0] ++ transcript.

Definition VerifyRunnerAuth (pub transcript sig : list N) : bool :=
  if negb (length pub =? PublicKeySize)%nat then false
  else ed25519_Verify pub (runnerAuthMessage transcript) sig.

Definition agentBinderOK (e : gate_env) (hello : ClientHello) (binder transcript : list N) : bool :=
  match hello_AgentInfo hello with
  | None => false
  | Some info =>
      match Ticket (ge_tickets e) (ai_RunnerId info) (ai_TaskId info) with
      | None => false
      | Some ticket => bool_decide (ComputePSKBinder ticket transcript = Some binder)
      end
  end.

Definition keyEnrolled (e : gate_env) (key : list N) : bool := bool_decide (is_Some (Lookup key (ge_keys e))).

Definition binderKey (req : PskAuthRequest) : list N :=
  if pa_Role req =? AuthRole_Client then
    match req_ClientHello req with
    | Some h => if negb (ch_Kind h =? ClientKind_Agent) then operatorPSK else []
    | None => []
    end
  else [].

Definition is_agent_hello (req : PskAuthRequest) : option ClientHello :=
  match req_ClientHello req with
  | Some h => if ch_Kind h =? ClientKind_Agent then Some h else None
  | None => None
  end.

(** Step 2: the binder; [Some st] is the refusal. *)
Definition check_binder (e : gate_env) (req : PskAuthRequest) (transcript : list N) : option PskAuthStatus :=
  match is_agent_hello req with
  | Some hello =>
      if negb (agentBinderOK e hello (pa_Binder req) transcript) then Some PskAuthStatus_BadTicket else None
  | None =>
      match binderKey req with
      | [] => None
      | key => if bool_decide (ComputePSKBinder key transcript = Some (pa_Binder req)) then None
               else Some PskAuthStatus_BadPsk
      end
  end.

(** Step 2b: the runner's key. *)
Definition check_runner (e : gate_env) (req : PskAuthRequest) (transcript : list N) (g : pskGate)
    : pskGate * option PskAuthStatus :=
  if pa_Role req =? AuthRole_Runner then
    match req_RunnerAuth req with
    | None => (g, Some PskAuthStatus_NoIdentity)
    | Some auth =>
        if negb (VerifyRunnerAuth (ra_Key auth) transcript (ra_Sig auth)) then (g, Some PskAuthStatus_BadPsk)
        else if negb (keyEnrolled e (ra_Key auth)) then (g, Some PskAuthStatus_NotEnrolled)
        else (g{{ pg_runnerKey := Some (ra_Key auth) }}, None)
    end
  else (g, None).

(** Step 3: an identity is there. *)
Definition check_identity (req : PskAuthRequest) : bool :=
  if pa_Role req =? AuthRole_Client then bool_decide (is_Some (req_ClientHello req))
  else if pa_Role req =? AuthRole_Runner then
    match req_RunnerAuth req with Some a => negb (bool_decide (ra_RunnerId a = zeroID)) | None => false end
  else false.

Definition Check (e : gate_env) (data transcript : list N) (g : pskGate) : pskGate * check_result :=
  if pg_authed g then (g, mkCheckResult false false None None)
  else match data with
  | [] => (g, mkCheckResult false true None None)
  | k :: body =>
      if negb (k =? AppKind_PskAuth) then (g, mkCheckResult false true None None)
      else
        let refuse g st := (respond st g, mkCheckResult true true None (Some st)) in
        match DecodeExact body with
        | None => refuse g PskAuthStatus_NoIdentity
        | Some req =>
            match check_binder e req transcript with
            | Some st => refuse g st
            | None =>
                let '(g, bad) := check_runner e req transcript g in
                match bad with
                | Some st => refuse g st
                | None =>
                    if negb (check_identity req) then refuse g PskAuthStatus_NoIdentity
                    else (g{{ pg_role := pa_Role req; pg_authed := true }},
                          mkCheckResult true false (Some req) (Some PskAuthStatus_Ok))
                end
            end
        end
  end.

(** ** Recording who it is *)

(** The agent half of a connection: its task state on the board. *)
Record agentConn := mkAgentConn { ac_runner : list N; ac_task : TaskID; ac_hostname : string; ac_profile : string }.

Definition establishAgentIdentity (e : gate_env) (info : AgentInfo) : ClientHelloStatus * option agentConn :=
  match Ticket (ge_tickets' e) (ai_RunnerId info) (ai_TaskId info) with
  | None => (ClientHelloStatus_UnknownTask, None)
  | Some _ =>
      let profile := match Get (EncodeToString (ai_TaskId info)) (ge_tasks e) with
                     | Some t => te_AgentProfile t
                     | None => ""%string
                     end in
      (ClientHelloStatus_Ok, Some (mkAgentConn (ai_RunnerId info) (ai_TaskId info) (ai_Hostname info) profile))
  end.

Definition RecordClientIdentity (e : gate_env) (cid : string) (hello : ClientHello) (c : Conns)
    : Conns * option agentConn * ClientHelloStatus :=
  let '(status, ac) :=
    if ch_Kind hello =? ClientKind_Agent then
      match hello_AgentInfo hello with
      | Some info => establishAgentIdentity e info
      | None => (ClientHelloStatus_Ok, None)
      end
    else (ClientHelloStatus_Ok, None) in
  match status with
  | ClientHelloStatus_Ok =>
      let c := c{{ cn_kinds := <[cid := ch_Kind hello]> (cn_kinds c) }} in
      let c := match hello_AgentInfo hello with
               | Some info => c{{ cn_principals := <[cid := ai_TaskId info]> (cn_principals c) }}
               | None => c
               end in
      (c, ac, status)
  | _ => (c, ac, status)
  end.

(** ** The receive loop of one connection *)

(** What a message is handed to, with the principal it is handled under. *)
Inductive handled :=
  | HandledPubsub (data : list N)
  | HandledTaskControl (principal : TaskID) (data : list N)
  | HandledRunner (data : list N)
  | HandledTelemetry (data : list N)
  | HandledRunnerHello (auth : RunnerAuth).

Record conn_state := mkConnState {
  cs_gate : pskGate;
  cs_closed : bool;
  cs_conns : Conns;
  cs_agent : option agentConn;
  cs_handled : list handled;
}.

Definition open_conn (c : Conns) : conn_state := mkConnState newPSKGate false c None [].

Definition close_conn (s : conn_state) : conn_state := s{{ cs_closed := true }}.
Definition hand (h : handled) (s : conn_state) : conn_state := s{{ cs_handled := cs_handled s ++ [h] }}.

Definition pskDispatchIdentity (e : gate_env) (cid : string) (req : PskAuthRequest) (s : conn_state) : conn_state * bool :=
  if pa_Role req =? AuthRole_Client then
    match req_ClientHello req with
    | None => (s, false)
    | Some hello =>
        let '(c, ac, status) := RecordClientIdentity e cid hello (cs_conns s) in
        (s{{ cs_conns := c; cs_agent := match ac with Some _ => ac | None => cs_agent s end }},
         match status with ClientHelloStatus_Ok => true | _ => false end)
    end
  else if pa_Role req =? AuthRole_Runner then
    match req_RunnerAuth req with
    | None => (s, false)
    | Some a => (hand (HandledRunnerHello a) s, true)
    end
  else (s, false).

(** [Dispatcher.Dispatch]: what is routed where. *)
Definition dispatch (cid : string) (data : list N) (s : conn_state) : conn_state :=
  match data with
  | k :: _ =>
      if k =? AppKind_RunnerControl then hand (HandledRunner data) s
      else if k =? AppKind_TaskControl then hand (HandledTaskControl (lookupPrincipal (cs_conns s) cid) data) s
      else if k =? AppKind_Telemetry then hand (HandledTelemetry data) s
      else s
  | [] => s
  end.

(** The callback of [AutoReceive]; [after_cancel] is whether that still calls it for
    messages that come after a cancel. *)
Definition receive (after_cancel : bool) (transcript : list N) (cid : string) (s : conn_state) (m : gate_env * list N)
    : conn_state :=
  let '(e, data) := m in
  if cs_closed s && negb after_cancel then s
  else match data with
  | [] => s
  | k :: _ =>
      let '(g, r) := Check e data transcript (cs_gate s) in
      let s := s{{ cs_gate := g }} in
      if cr_isPSKMsg r || negb (pg_authed g) then
        let s := if cr_shouldClose r then close_conn s else s in
        match cr_accepted r with
        | Some req =>
            let '(s, ok) := pskDispatchIdentity e cid req s in
            if ok then s else close_conn s
        | None => s
        end
      else if k =? AppKind_PskAuth then s
      else if negb (AllowsMessage g data) then close_conn s
      else if k =? AppKind_Pubsub then hand (HandledPubsub data) s
      else dispatch cid data s
  end.

(** ** What the gate establishes *)

(** One of the messages is the authentication request [req], received in [e]. *)
Definition requested (ms : list (gate_env * list N)) (e : gate_env) (req : PskAuthRequest) : Prop :=
  ∃ body, (e, AppKind_PskAuth :: body) ∈ ms ∧ DecodeExact body = Some req.

(** The operator secret was proved (there is none to prove when none is configured). *)
Definition operator_proof (transcript : list N) (req : PskAuthRequest) : Prop :=
  (∃ hello, req_ClientHello req = Some hello ∧ ch_Kind hello ≠ ClientKind_Agent) ∧
  (operatorPSK ≠ [] → ComputePSKBinder operatorPSK transcript = Some (pa_Binder req)).

(** The ticket of [p] was proved. *)
Definition agent_proof (transcript : list N) (e : gate_env) (req : PskAuthRequest) (p : TaskID) : Prop :=
  ∃ hello info ticket, req_ClientHello req = Some hello ∧ hello_AgentInfo hello = Some info ∧
    p = ai_TaskId info ∧ Ticket (ge_tickets e) (ai_RunnerId info) p = Some ticket ∧
    ComputePSKBinder ticket transcript = Some (pa_Binder req).

(** What the identity of a connection rests on: no message is handed over after a
    cancel, or no ticket goes between the gate and the recording of the identity. *)
Definition identity_stands (after_cancel : bool) (ms : list (gate_env * list N)) : Prop :=
  after_cancel = false ∨ ∀ e data, (e, data) ∈ ms → ge_tickets' e = ge_tickets e.

Definition client_proof (transcript : list N) (ms : list (gate_env * list N)) (p : TaskID) : Prop :=
  ∃ e req, requested ms e req ∧ (p = zeroID ∧ operator_proof transcript req ∨ agent_proof transcript e req p).

(** An enrolled key signed the transcript, for a runner that has an identity. *)
Definition runner_proof (transcript : list N) (ms : list (gate_env * list N)) : Prop :=
  ∃ e req auth, requested ms e req ∧ req_RunnerAuth req = Some auth ∧
    VerifyRunnerAuth (ra_Key auth) transcript (ra_Sig auth) = true ∧
    is_Some (Lookup (ra_Key auth) (ge_keys e)) ∧ ra_RunnerId auth ≠ zeroID.

Lemma check_binder_client e req transcript :
  check_binder e req transcript = None → is_Some (req_ClientHello req) →
  match is_agent_hello req with
  | Some hello => ∃ info, hello_AgentInfo hello = Some info ∧ req_ClientHello req = Some hello ∧
                          agent_proof transcript e req (ai_TaskId info)
  | None => operator_proof transcript req
  end.
Proof.
  unfold check_binder, is_agent_hello. intros Hb [hello Hh]. rewrite Hh in *.
  destruct (N.eqb_spec (ch_Kind hello) ClientKind_Agent) as [Hk|Hk].
  - destruct (agentBinderOK e hello (pa_Binder req) transcript) eqn:Ha; [|done]. unfold agentBinderOK in Ha.
    destruct (hello_AgentInfo hello) as [info|] eqn:Ei; [|done]. exists info. split_and!; [done..|].
    destruct (Ticket _ _ _) as [ticket|] eqn:Et; [|done]. apply bool_decide_eq_true in Ha.
    exists hello, info, ticket. done.
  - split; [by exists hello|]. intros Hne. unfold binderKey in Hb. unfold req_ClientHello in Hh.
    destruct (N.eqb_spec (pa_Role req) AuthRole_Client) as [Hr|Hr]; [|done].
    assert (req_ClientHello req = Some hello) as E by (unfold req_ClientHello; by rewrite Hr).
    rewrite E in Hb. rewrite (proj2 (N.eqb_neq _ _) Hk) in Hb. cbn [negb] in Hb.
    destruct operatorPSK as [|k0 psk0] eqn:Ep; [done|]. rewrite <-Ep in *. by case_bool_decide.
Qed.

Lemma check_runner_signed e req transcript g g' :
  pa_Role req = AuthRole_Runner → check_runner e req transcript g = (g', None) →
  ∃ auth, req_RunnerAuth req = Some auth ∧ VerifyRunnerAuth (ra_Key auth) transcript (ra_Sig auth) = true ∧
    is_Some (Lookup (ra_Key auth) (ge_keys e)) ∧ pg_runnerKey g' = Some (ra_Key auth).
Proof.
  intros Hr. unfold check_runner. rewrite Hr, N.eqb_refl. destruct (req_RunnerAuth req) as [auth|]; [|done].
  destruct (VerifyRunnerAuth _ _ _) eqn:Ev; [|done]. unfold keyEnrolled. case_bool_decide; [|done].
  cbn [negb]. intros [= <-]. by exists auth.
Qed.

(** What an accepted request was checked for. *)
Lemma Check_accepted e data transcript g g' r req :
  Check e data transcript g = (g', r) → cr_accepted r = Some req →
  pg_authed g = false ∧ r = mkCheckResult true false (Some req) (Some PskAuthStatus_Ok) ∧
  pg_authed g' = true ∧ pg_role g' = pa_Role req ∧
  (∃ body, data = AppKind_PskAuth :: body ∧ DecodeExact body = Some req) ∧
  check_binder e req transcript = None ∧ check_identity req = true ∧
  (pa_Role req = AuthRole_Runner → ∃ auth, req_RunnerAuth req = Some auth ∧
     VerifyRunnerAuth (ra_Key auth) transcript (ra_Sig auth) = true ∧ is_Some (Lookup (ra_Key auth) (ge_keys e))).
Proof.
  unfold Check. destruct (pg_authed g) eqn:Ea; [intros [= <- <-]; done|].
  destruct data as [|k body]; [intros [= <- <-]; done|].
  destruct (N.eqb_spec k AppKind_PskAuth) as [->|]; [|intros [= <- <-]; done]. cbn [negb].
  destruct (DecodeExact body) as [req0|] eqn:Ed; [|intros [= <- <-]; done].
  destruct (check_binder e req0 transcript) eqn:Eb; [intros [= <- <-]; done|].
  destruct (check_runner e req0 transcript g) as [g1 bad] eqn:Er. destruct bad; [intros [= <- <-]; done|].
  destruct (check_identity req0) eqn:Ei; [|intros [= <- <-]; done]. intros [= <- <-] [= <-].
  split_and!; try done; [by exists body|]. intros Hr. destruct (check_runner_signed _ _ _ _ _ Hr Er) as (auth & ? & ? & ? & _).
  by exists auth.
Qed.

Lemma respond_authed st g : pg_authed (respond st g) = pg_authed g.
Proof. by destruct st. Qed.

(** What [Check] leaves when it accepts nothing. *)
Lemma Check_refused e data transcript g g' r :
  Check e data transcript g = (g', r) → cr_accepted r = None →
  pg_authed g' = pg_authed g ∧ (pg_authed g = true → g' = g ∧ cr_isPSKMsg r = false).
Proof.
  unfold Check. destruct (pg_authed g) eqn:Ea; [intros [= <- <-]; by rewrite Ea|].
  destruct data as [|k body]; [intros [= <- <-]; by rewrite Ea|].
  destruct (N.eqb_spec k AppKind_PskAuth); [|intros [= <- <-]; by rewrite Ea]. cbn [negb].
  destruct (DecodeExact body) as [req|]; [|intros [= <- <-] _; by split].
  destruct (check_binder e req transcript) as [st|]; [intros [= <- <-] _; by rewrite (respond_authed st g)|].
  destruct (check_runner e req transcript g) as [g1 bad] eqn:Er.
  assert (pg_authed g1 = false) as E1.
  { unfold check_runner in Er. repeat case_match; by injection Er as <- _. }
  destruct bad as [st|]; [intros [= <- <-] _; by rewrite (respond_authed st g1)|].
  destruct (check_identity req); [by intros [= <- <-]|]. intros [= <- <-] _. by split.
Qed.

Record conn_inv (after_cancel : bool) (transcript : list N) (cid : string) (ms : list (gate_env * list N)) (s : conn_state) : Prop := {
  ci_fresh : pg_authed (cs_gate s) = false → cn_principals (cs_conns s) !! cid = None ∧ cs_handled s = [];
  ci_open : pg_authed (cs_gate s) = true → cs_closed s = false ∨ after_cancel = true →
    (pg_role (cs_gate s) = AuthRole_Client ∧ client_proof transcript ms (lookupPrincipal (cs_conns s) cid)) ∨
    (pg_role (cs_gate s) = AuthRole_Runner ∧ runner_proof transcript ms);
  ci_handled h : h ∈ cs_handled s →
    match h with
    | HandledTaskControl p _ => p = lookupPrincipal (cs_conns s) cid ∧ client_proof transcript ms p
    | HandledRunner _ | HandledRunnerHello _ => runner_proof transcript ms
    | _ => True
    end;
}.

Lemma requested_mono ms ms' e req : (∀ m, m ∈ ms → m ∈ ms') → requested ms e req → requested ms' e req.
Proof. intros H (body & Hin & Hd). exists body. auto. Qed.

Lemma client_proof_mono transcript ms ms' p :
  (∀ m, m ∈ ms → m ∈ ms') → client_proof transcript ms p → client_proof transcript ms' p.
Proof. intros H (e & req & Hr & Hp). exists e, req. split; [by eapply requested_mono|done]. Qed.

Lemma runner_proof_mono transcript ms ms' :
  (∀ m, m ∈ ms → m ∈ ms') → runner_proof transcript ms → runner_proof transcript ms'.
Proof. intros H (e & req & auth & Hr & Hp). exists e, req, auth. split; [by eapply requested_mono|done]. Qed.

Lemma conn_inv_mono ac transcript cid ms ms' s :
  (∀ m, m ∈ ms → m ∈ ms') → conn_inv ac transcript cid ms s → conn_inv ac transcript cid ms' s.
Proof.
  intros H Hi. split; [apply Hi| |].
  - intros Ha Hc. destruct (ci_open _ _ _ _ _ Hi Ha Hc) as [[??]|[??]]; [left|right]; (split; [done|]);
      [by eapply client_proof_mono|by eapply runner_proof_mono].
  - intros h Hh. pose proof (ci_handled _ _ _ _ _ Hi h Hh) as Hp. destruct h; try done.
    + destruct Hp. split; [done|]. by eapply client_proof_mono.
    + by eapply runner_proof_mono.
    + by eapply runner_proof_mono.
Qed.

(** Handing a message over keeps the gate and the identities. *)
Lemma conn_inv_hand ac transcript cid ms s h :
  conn_inv ac transcript cid ms s → pg_authed (cs_gate s) = true →
  match h with
  | HandledTaskControl p _ => p = lookupPrincipal (cs_conns s) cid ∧ client_proof transcript ms p
  | HandledRunner _ | HandledRunnerHello _ => runner_proof transcript ms
  | _ => True
  end → conn_inv ac transcript cid ms (hand h s).
Proof.
  intros Hi Ha Hh. split.
  - intros Hf. change (cs_gate (hand h s)) with (cs_gate s) in Hf. congruence.
  - exact (ci_open _ _ _ _ _ Hi).
  - intros h' Hin. change (cs_handled (hand h s)) with (cs_handled s ++ [h]) in Hin.
    apply elem_of_app in Hin as [Hin| ->%list_elem_of_singleton]; [by apply (ci_handled _ _ _ _ _ Hi)|done].
Qed.

Lemma conn_inv_close ac transcript cid ms s : conn_inv ac transcript cid ms s → conn_inv ac transcript cid ms (close_conn s).
Proof.
  intros Hi. split; [exact (ci_fresh _ _ _ _ _ Hi)| |exact (ci_handled _ _ _ _ _ Hi)].
  intros Ha [Hc|Hc]; [done|]. apply (ci_open _ _ _ _ _ Hi Ha). by right.
Qed.

Lemma dispatch_inv ac transcript cid ms s data :
  conn_inv ac transcript cid ms s → pg_authed (cs_gate s) = true → cs_closed s = false ∨ ac = true →
  AllowsMessage (cs_gate s) data = true → conn_inv ac transcript cid ms (dispatch cid data s).
Proof.
  intros Hi Ha Hc Hal. unfold AllowsMessage in Hal. rewrite Ha in Hal. cbn [negb] in Hal. unfold dispatch.
  destruct data as [|k rest]; [done|].
  destruct (ci_open _ _ _ _ _ Hi Ha Hc) as [[Hr Hp]|[Hr Hp]]; rewrite Hr in Hal;
    destruct (N.eqb_spec k AppKind_RunnerControl) as [->|Hn1]; try (by apply conn_inv_hand); try done;
    destruct (N.eqb_spec k AppKind_TaskControl) as [->|Hn2]; try (by apply conn_inv_hand); try done;
    destruct (N.eqb_spec k AppKind_Telemetry) as [->|Hn3]; by try apply conn_inv_hand.
Qed.

(** The identity recorded for an accepted client is the one it proved. *)
Lemma accept_client e cid transcript ms req s s' ok :
  requested ms e req → check_binder e req transcript = None → is_Some (req_ClientHello req) →
  pa_Role req = AuthRole_Client → cn_principals (cs_conns s) !! cid = None →
  pskDispatchIdentity e cid req s = (s', ok) →
  cs_gate s' = cs_gate s ∧ cs_closed s' = cs_closed s ∧ cs_handled s' = cs_handled s ∧
  (ok = true → client_proof transcript ms (lookupPrincipal (cs_conns s') cid)) ∧
  (ge_tickets' e = ge_tickets e → ok = true).
Proof.
  intros Hreq Hb Hh Hr Hp. pose proof (check_binder_client _ _ _ Hb Hh) as Hpr. destruct Hh as [hello Hh].
  unfold pskDispatchIdentity. rewrite Hr, N.eqb_refl, Hh. unfold RecordClientIdentity.
  unfold is_agent_hello in Hpr. rewrite Hh in Hpr.
  destruct (N.eqb_spec (ch_Kind hello) ClientKind_Agent) as [Hk|Hk].
  - destruct Hpr as (info & Hi & Hk' & Hpr). rewrite Hi.
    assert (ge_tickets' e = ge_tickets e → (establishAgentIdentity e info).1 = ClientHelloStatus_Ok) as Hsame.
    { intros Et. unfold establishAgentIdentity. rewrite Et. destruct Hpr as (h' & info' & ticket & Hh' & Hi' & _ & Ht & _).
      assert (h' = hello) as -> by congruence. assert (info' = info) as -> by congruence. by rewrite Ht. }
    destruct (establishAgentIdentity e info) as [[] ac]; intros [= <- <-]; (split_and!; try done); [|by intros Et%Hsame].
    intros _. exists e, req. split; [done|]. right. unfold lookupPrincipal.
    change (cn_principals _) with (<[cid := ai_TaskId info]> (cn_principals (cs_conns s))).
    by rewrite lookup_insert_eq.
  - assert (hello_AgentInfo hello = None) as ->
      by (unfold hello_AgentInfo; by rewrite (proj2 (N.eqb_neq _ _) Hk)).
    intros [= <- <-]. split_and!; try done; []. intros _. exists e, req. split; [done|]. left.
    split; [|done]. unfold lookupPrincipal. change (cn_principals _) with (cn_principals (cs_conns s)). by rewrite Hp.
Qed.

Lemma receive_inv ac transcript cid ms s m :
  identity_stands ac (ms ++ [m]) → conn_inv ac transcript cid ms s → conn_inv ac transcript cid (ms ++ [m]) (receive ac transcript cid s m).
Proof.
  intros Hst Hi0. assert (conn_inv ac transcript cid (ms ++ [m]) s) as Hi by (eapply conn_inv_mono; [|done]; set_solver).
  destruct m as [e data]. unfold receive. destruct (cs_closed s && negb ac) eqn:Ecl; [done|].
  assert (cs_closed s = false ∨ ac = true) as Ec by (apply andb_false_iff in Ecl as [?|?%negb_false_iff]; auto). clear Ecl.
  destruct data as [|k rest] eqn:Edata; [done|]. rewrite <-Edata in *.
  destruct (Check e data transcript (cs_gate s)) as [g r] eqn:Ech.
  destruct (cr_accepted r) as [req|] eqn:Eacc.
  - destruct (Check_accepted _ _ _ _ _ _ _ Ech Eacc) as (Ha & -> & Ha' & Hrole & (body & Hd & Hdec) & Hb & Hid & Hrun).
    destruct (ci_fresh _ _ _ _ _ Hi Ha) as [Hp Hh]. cbn [cr_isPSKMsg cr_shouldClose orb].
    set (s1 := s{{ cs_gate := g }}).
    assert (requested (ms ++ [(e, data)]) e req) as Hreq by (exists body; rewrite <-Hd; set_solver).
    assert (pa_Role req = AuthRole_Client ∧ is_Some (req_ClientHello req) ∨
            pa_Role req = AuthRole_Runner ∧ ∃ a, req_RunnerAuth req = Some a ∧ ra_RunnerId a ≠ zeroID) as [[Hr Hcl]|[Hr (a & Hra & Hz)]].
    { unfold check_identity in Hid. destruct (N.eqb_spec (pa_Role req) AuthRole_Client); [left; by case_bool_decide|].
      destruct (N.eqb_spec (pa_Role req) AuthRole_Runner); [|done]. right. split; [done|].
      destruct (req_RunnerAuth req) as [a|]; [|done]. exists a. split; [done|]. by case_bool_decide. }
    + destruct (pskDispatchIdentity e cid req s1) as [s2 ok] eqn:Epd.
      destruct (accept_client e cid transcript (ms ++ [(e, data)]) req s1 s2 ok Hreq Hb Hcl Hr Hp Epd) as (Hg & Hcl2 & Hh2 & Hcp & Hsame).
      assert (pg_authed (cs_gate s2) = true) as Ha2 by (by rewrite Hg).
      assert (cs_handled s2 = []) as Hh3 by (rewrite Hh2; done).
      destruct ok.
      * split; [congruence| |rewrite Hh3; set_solver]. intros _ _. left. split; [|by apply Hcp].
        rewrite Hg. change (cs_gate s1) with g. congruence.
      * split; [intros Hf; change (pg_authed (cs_gate s2) = false) in Hf; congruence| |].
        { intros _ [Hc|Hc]; [done|]. destruct Hst as [Hst|Hst]; [congruence|].
          assert (false = true); [|done]. apply Hsame. apply (Hst e data). set_solver. }
        change (cs_handled (close_conn s2)) with (cs_handled s2). rewrite Hh3. set_solver.
    + destruct (Hrun Hr) as (a' & Ha1 & Hv & Hl). assert (a' = a) as -> by congruence.
      assert (runner_proof transcript (ms ++ [(e, data)])) as Hrp by (exists e, req, a; done).
      unfold pskDispatchIdentity. rewrite Hr, Hra. cbn [N.eqb].
      change (AuthRole_Runner =? AuthRole_Client) with false. rewrite N.eqb_refl.
      split.
      * intros Hf. change (pg_authed g = false) in Hf. congruence.
      * intros _ _. right. split; [|done]. change (pg_role g = AuthRole_Runner). congruence.
      * intros h Hin. change (h ∈ cs_handled s ++ [HandledRunnerHello a]) in Hin. rewrite Hh in Hin.
        by apply list_elem_of_singleton in Hin as ->.
  - destruct (Check_refused _ _ _ _ _ _ Ech Eacc) as [Hau Hsame].
    destruct (pg_authed (cs_gate s)) eqn:Ea.
    + destruct (Hsame eq_refl) as [-> Hps]. rewrite Hps, Ea. cbn [orb negb].
      assert (s{{ cs_gate := cs_gate s }} = s) as -> by (by destruct s).
      destruct (k =? AppKind_PskAuth); [done|]. destruct (AllowsMessage (cs_gate s) data) eqn:Eal; cbn [negb]; [|by apply conn_inv_close].
      destruct (k =? AppKind_Pubsub); [by apply conn_inv_hand|]. by apply dispatch_inv.
    + rewrite Hau. cbn [negb]. rewrite orb_true_r.
      assert (conn_inv ac transcript cid (ms ++ [(e, data)]) s{{ cs_gate := g }}) as Hg.
      { split; [|intros Hf; change (pg_authed g = true) in Hf; congruence|exact (ci_handled _ _ _ _ _ Hi)].
        intros _. by apply (ci_fresh _ _ _ _ _ Hi). }
      destruct (cr_shouldClose r); [by apply conn_inv_close|done].
Qed.

Lemma open_conn_inv ac transcript cid c : cn_principals c !! cid = None → conn_inv ac transcript cid [] (open_conn c).
Proof. intros Hp. split; [done|done|]. intros h Hh. by apply not_elem_of_nil in Hh. Qed.

Lemma receive_all_inv ac transcript cid c ms :
  identity_stands ac ms → cn_principals c !! cid = None →
  conn_inv ac transcript cid ms (foldl (receive ac transcript cid) (open_conn c) ms).
Proof.
  intros Hst Hp. induction ms as [|m ms IH] using rev_ind; [by apply open_conn_inv|].
  rewrite foldl_app. apply receive_inv; [done|]. apply IH. destruct Hst as [?|Hst]; [by left|right].
  intros e data Hin. apply (Hst e data). apply elem_of_app. by left.
Qed.

(** ** Theorems *)

(** C3. Whatever a peer sends, and however the tickets and the enrolled keys
    change meanwhile: a message reaches the task handler only on a connection that
    proved the operator secret over its own transcript, when one is configured,
    and then has no principal, or that proved the ticket the board held for
    exactly the task it is handled as; the principal is the same for every message
    of the connection.  As long as no ticket is ever issued for the zero id, a
    message handled with the operator's authority is one on which the operator
    secret, when configured, was proved.  A message reaches the runner handler only
    on a connection signed by a key enrolled at that time, by a runner with an
    identity.  This is for a connection id with no principal recorded before, and
    either [AutoReceive] hands over nothing after the callback cancelled its
    context or no ticket goes between the gate's check and the recording of the
    identity. *)
Theorem connection_identity (after_cancel : bool) (transcript : list N) (cid : string) (c : Conns) (ms : list (gate_env * list N)) :
  identity_stands after_cancel ms →
  cn_principals c !! cid = None →
  let s := foldl (receive after_cancel transcript cid) (open_conn c) ms in
  (∀ p d, HandledTaskControl p d ∈ cs_handled s →
     p = lookupPrincipal (cs_conns s) cid ∧ client_proof transcript ms p ∧
     ((∀ e data rid, (e, data) ∈ ms → Ticket (ge_tickets e) rid zeroID = None) →
      is_operator (cs_conns s) cid = true → ∃ e req, requested ms e req ∧ operator_proof transcript req)) ∧
  (∀ d, HandledRunner d ∈ cs_handled s → runner_proof transcript ms) ∧
  (∀ a, HandledRunnerHello a ∈ cs_handled s → runner_proof transcript ms).
Proof.
  intros Hst Hp s. pose proof (receive_all_inv after_cancel transcript cid c ms Hst Hp) as Hi. fold s in Hi. split_and!.
  - intros p d Hin. destruct (ci_handled _ _ _ _ _ Hi _ Hin) as [Hpe Hpr]. split_and!; [done..|].
    intros Hz Hop. unfold is_operator in Hop. apply bool_decide_eq_true in Hop. rewrite Hop in Hpe. subst p.
    destruct Hpr as (e & req & Hreq & [[_ Hpr]|Hpr]); [by exists e, req|]. exfalso.
    destruct Hpr as (hello & info & ticket & _ & _ & Hid & Ht & _). destruct Hreq as (body & Hm & _).
    by rewrite (Hz _ _ _ Hm) in Ht.
  - intros d Hin. exact (ci_handled _ _ _ _ _ Hi _ Hin).
  - intros a Hin. exact (ci_handled _ _ _ _ _ Hi _ Hin).
Qed.
End gate.

(** ** Witness: an operator that proves its secret and sends one request *)

Module SampleAuth.
Definition derive (k : list N) (_ : string) (_ : N) : option (list N) := Some k.
Definition mac (k t : list N) : list N := k ++ t.
Definition verify (pub msg sig : list N) : bool := bool_decide (sig = pub).
Definition decode (body : list N) : option PskAuthRequest :=
  Some (mkPskAuthRequest body AuthRole_Client (Some (mkClientHello 1 None)) None).
Definition env : gate_env := mkGateEnv ∅ ∅ (mkRunnerKeyStore true ∅ None) NewTaskStore.
Definition ms : list (gate_env * list N) := [(env, [AppKind_PskAuth; 1; 2; 9]); (env, [AppKind_TaskControl; 1])].
Definition final : conn_state := foldl (receive derive mac verify decode [1; 2] true [9] "c") (open_conn noConns) ms.

(** An agent with the ticket [3; 3] of its task, revoked after the gate has read it. *)
Definition task : TaskID := repeat 7 16.
Definition runner : list N := repeat 8 16.
Definition decode_agent (body : list N) : option PskAuthRequest :=
  Some (mkPskAuthRequest body AuthRole_Client (Some (mkClientHello ClientKind_Agent (Some (mkAgentInfo runner task "h")))) None).
Definition revoked : gate_env := mkGateEnv {[ key_of runner task := [3; 3] ]} ∅ (mkRunnerKeyStore true ∅ None) NewTaskStore.
Definition agent_ms : list (gate_env * list N) := [(revoked, [AppKind_PskAuth; 3; 3; 9]); (revoked, [AppKind_TaskControl; 1])].
Definition agent_conn (after_cancel : bool) : conn_state :=
  foldl (receive derive mac verify decode_agent [1; 2] after_cancel [9] "c") (open_conn noConns) agent_ms.
End SampleAuth.

(** The gate and the recording of the identity read the tickets each on its own.  A
    ticket revoked between the two leaves a connection that the gate has accepted and
    that has no principal; the callback cancels the context, and a message handed over
    after that would be handled with the operator's authority. *)
Theorem unrecorded_agent_acts_as_operator :
  cs_handled (SampleAuth.agent_conn false) = [] ∧
  cs_handled (SampleAuth.agent_conn true) = [HandledTaskControl zeroID [AppKind_TaskControl; 1]] ∧
  is_operator (cs_conns (SampleAuth.agent_conn true)) "c" = true.
Proof. split_and!; by vm_compute. Qed.

Lemma connection_identity_witness :
  cs_handled SampleAuth.final = [HandledTaskControl zeroID [AppKind_TaskControl; 1]] ∧
  ∃ e req, requested SampleAuth.decode SampleAuth.ms e req ∧
    operator_proof SampleAuth.derive SampleAuth.mac [1; 2] [9] req.
Proof.
  assert (cs_handled SampleAuth.final = [HandledTaskControl zeroID [AppKind_TaskControl; 1]]) as E by by vm_compute.
  split; [done|].
  pose proof (connection_identity SampleAuth.derive SampleAuth.mac SampleAuth.verify SampleAuth.decode [1; 2] true [9] "c"
    noConns SampleAuth.ms) as [H _].
  { right. intros e data Hin. unfold SampleAuth.ms in Hin.
    by apply elem_of_cons in Hin as [[= -> _]|[[= -> _]|Hin%not_elem_of_nil]%elem_of_cons]. }
  { done. }
  change (foldl _ _ _) with SampleAuth.final in H. rewrite E in H.
  specialize (H zeroID [AppKind_TaskControl; 1] ltac:(by left)) as (_ & _ & H). apply H; [|by vm_compute].
  intros e data rid Hin. unfold SampleAuth.ms in Hin.
  apply elem_of_cons in Hin as [[= -> _]|[[= -> _]|Hin]%elem_of_cons]; [by apply lookup_empty..|by apply not_elem_of_nil in Hin].
Defined.
