(* ===== verification/GrantHandlers.v ===== *)
(** * Operator changes of the tree and of its grants: [server/set_caps_handler.go],
    [server/set_parent_handler.go], and the cancel and prune cases of
    [server/task_handler.go]

    A handler is a function of the recorded connections, the request and the
    store; readings of the clock are arguments, and the order in which Go's map of
    descendants is walked is an argument [order].  The hooks that close
    connections are parameters, called with the ids the result lists.

    Theorems: what [caps set] does to the store is what [authority.WhatIf] shows
    of the listing, for every request and walk order; a re-parent and a swap keep
    the tree a forest and change no grant; a caller with a principal changes
    nothing through either; cancel and prune end only tasks in the caller's scope
    for that capability. *)

From stdpp Require Import prelude gmap strings list sorting relations.
From Stdlib Require Import NArith ZArith.
From coqutil Require Import Datatypes.RecordSetters.
From S2P Require Import Prelude GoStrings Caps Scope Sets Reach Attenuate Delegate View WhatIf Wire Wal TaskStore Replay Topic BoardReach Registry Scheduler Gates.

Import DoubleBraceUpdate.
Open Scope N_scope.
Open Scope stdpp_scope.
Set Default Goal Selector "!".

Definition AuthoritySource_OperatorCapsSet : N := 3.
Definition AuthoritySource_Cascade : N := 4.

(** ** [set_caps] *)

Record SetCapsRequest := mkSetCapsRequest {
  sr_TaskId : TaskID;
  sr_CapsPresent : bool; sr_Caps : N;
  sr_ScopePresent : bool; sr_Scope : TaskScope; sr_Overrides : list WireOverride;
  sr_DelegateCapsPresent : bool; sr_DelegateCaps : N;
  sr_DelegateScopePresent : bool; sr_DelegateScope : TaskScope;
  sr_Cascade : bool;
  sr_KeepConns : bool;
}.

Inductive SetCapsStatus :=
  | SetCapsStatus_Ok | SetCapsStatus_NotOperator | SetCapsStatus_NotFound | SetCapsStatus_InvalidScope.

(** The answer: [sa_Dropped] are the tasks whose connections and data-plane grants
    are withdrawn. *)
Record SetCapsAnswer := mkSetCapsAnswer {
  sa_Status : SetCapsStatus;
  sa_Affected : list TaskID;
  sa_Dropped : list string;
  sa_ConnsClosed : N;
  sa_OnChange : bool;
}.

(** The ids of the response: the affected ones that are sixteen bytes of hex. *)
Definition wire_ids (affected : list string) : list TaskID :=
  omap (λ h, raw ← DecodeString h; if (length raw =? 16)%nat then Some raw else None) affected.

Definition refuse_caps (st : SetCapsStatus) : SetCapsAnswer := mkSetCapsAnswer st [] [] 0 false.

Definition sc_update (req : SetCapsRequest) (newScope bound : Scope) : GrantUpdate :=
  mkGrantUpdate (sr_CapsPresent req) (sr_ScopePresent req) (sr_DelegateCapsPresent req)
    (sr_DelegateScopePresent req) (mkGrant (sr_Caps req) newScope (sr_DelegateCaps req) bound).

(** [GrantUpdate] with the scopes validated in the order of the code; [None] is
    the invalid-scope answer. *)
Definition sc_grant_update (req : SetCapsRequest) : option GrantUpdate :=
  scope ← (if sr_ScopePresent req then
             let newScope := ScopeFromWire (sr_Scope req) (sr_Overrides req) in
             match Validate newScope with Some _ => None | None => Some newScope end
           else Some zeroScope);
  bound ← (if sr_DelegateScopePresent req then
             let bound := ScopeFromWire (sr_DelegateScope req) [] in
             match Validate bound with Some _ => None | None => Some bound end
           else Some zeroScope);
  Some (sc_update req scope bound).

(** One round of the cascade loop. *)
Definition cascade_child (target : Task) (children : gmap string (list string)) (boundWritten : bool)
    (actor : TaskID) (tm : string → Z * Z) (targetHex : string)
    (acc : Store * list string * bool) (childHex : string) : Store * list string * bool :=
  let '(s, affected, narrowed) := acc in
  if bool_decide (childHex = targetHex) then acc
  else match Get childHex s with
  | None => acc
  | Some cBefore =>
      let cu := mkGrantUpdate true true boundWritten boundWritten
                  (CascadeClamp target (TaskEntry_Grant cBefore) childHex boundWritten children) in
      match SetCaps (tm childHex).1 (tm childHex).2 childHex cu (mkAuthorityWrite AuthoritySource_Cascade actor) s with
      | (s, None) => (s, affected, narrowed)
      | (s, Some cAfter) =>
          (s, affected ++ [childHex],
           narrowed || IsNarrowing (te_Capabilities cBefore) (te_Scope cBefore)
                                   (te_Capabilities cAfter) (te_Scope cAfter))
      end
  end.

Definition task_of (e : TaskEntry) : Task :=
  {| t_ID := te_ID e; t_Creator := creatorHex (te_CreatorTaskID e); t_Caps := te_Capabilities e;
     t_Scope := te_Scope e; t_DelegateCaps := te_DelegateCaps e; t_DelegateScope := te_DelegateScope e |}.

Section set_caps.
(** [DropConnsForPrincipal] and [RevokeDataPlaneForTask]: how many they end. *)
Context (dropConns revokeDataPlane : string → N).
Context (tm : string → Z * Z) (order : list string).

Definition handleSetCaps (c : Conns) (cid : string) (req : SetCapsRequest) (s : Store) : Store * SetCapsAnswer :=
  if negb (is_operator c cid) then (s, refuse_caps SetCapsStatus_NotOperator)
  else
    let targetHex := EncodeToString (sr_TaskId req) in
    match Get targetHex s with
    | None => (s, refuse_caps SetCapsStatus_NotFound)
    | Some before =>
        match sc_grant_update req with
        | None => (s, refuse_caps SetCapsStatus_InvalidScope)
        | Some u =>
            match SetCaps (tm targetHex).1 (tm targetHex).2 targetHex u
                    (mkAuthorityWrite AuthoritySource_OperatorCapsSet zeroID) s with
            | (s, None) => (s, refuse_caps SetCapsStatus_NotFound)
            | (s, Some after) =>
                let narrowed := IsNarrowing (te_Capabilities before) (te_Scope before)
                                            (te_Capabilities after) (te_Scope after) in
                let '(s, affected, narrowed) :=
                  if sr_Cascade req then
                    let children := childIndexOf s in
                    let boundWritten := gu_DelegateCaps u || gu_DelegateScope u in
                    foldl (cascade_child (task_of after) children boundWritten (sr_TaskId req) tm targetHex)
                      (s, [targetHex], narrowed) order
                  else (s, [targetHex], narrowed) in
                let dropped := if narrowed && negb (sr_KeepConns req) then affected else [] in
                (s, mkSetCapsAnswer SetCapsStatus_Ok (wire_ids affected) dropped
                      (foldl (λ n id, uint32 (uint32 (n + dropConns id) + revokeDataPlane id)) 0 dropped) true)
            end
        end
    end.
End set_caps.

(** ** [set_parent] *)

Record SetParentRequest := mkSetParentRequest { pr_TaskId : TaskID; pr_ParentId : TaskID; pr_Swap : bool }.

Inductive SetParentStatus :=
  | SetParentStatus_Ok | SetParentStatus_NotOperator | SetParentStatus_SwapTakesNoParent
  | SetParentStatus_NotFound | SetParentStatus_NoParent | SetParentStatus_ParentNotFound
  | SetParentStatus_WouldCycle.

Record SetParentAnswer := mkSetParentAnswer {
  pa_Status : SetParentStatus; pa_OldParent : TaskID; pa_NewParent : TaskID; pa_Swapped : TaskID; pa_OnChange : bool }.

Definition refuse_parent (st : SetParentStatus) : SetParentAnswer := mkSetParentAnswer st zeroID zeroID zeroID false.

Definition handleSetParent (tWal1 tWal2 : Z) (c : Conns) (cid : string) (req : SetParentRequest) (s : Store)
    : Store * SetParentAnswer :=
  if negb (is_operator c cid) then (s, refuse_parent SetParentStatus_NotOperator)
  else
    let targetHex := EncodeToString (pr_TaskId req) in
    if pr_Swap req then
      if negb (bool_decide (pr_ParentId req = zeroID)) then (s, refuse_parent SetParentStatus_SwapTakesNoParent)
      else match SwapWithParent tWal1 tWal2 targetHex s with
      | (s, Ok (target, former)) =>
          let formerID := taskIDFromHex (te_ID former) in
          (s, mkSetParentAnswer SetParentStatus_Ok formerID (te_CreatorTaskID target) formerID true)
      | (s, Err ErrSwapNotFound) => (s, refuse_parent SetParentStatus_NotFound)
      | (s, Err ErrSwapNoParent) => (s, refuse_parent SetParentStatus_NoParent)
      | (s, Err ErrSwapParentMissing) => (s, refuse_parent SetParentStatus_ParentNotFound)
      end
    else match Get targetHex s with
    | None => (s, refuse_parent SetParentStatus_NotFound)
    | Some before =>
        let parentHex := EncodeToString (pr_ParentId req) in
        let rooted := bool_decide (pr_ParentId req = zeroID) in
        if negb rooted && bool_decide (Get parentHex s = None)
        then (s, refuse_parent SetParentStatus_ParentNotFound)
        else if negb rooted && bool_decide (parentHex ∈ DescendantsOf (childIndexOf s) targetHex ∅)
        then (s, refuse_parent SetParentStatus_WouldCycle)
        else match SetParent tWal1 targetHex (pr_ParentId req) s with
        | (s, None) => (s, refuse_parent SetParentStatus_NotFound)
        | (s, Some after) =>
            (s, mkSetParentAnswer SetParentStatus_Ok (te_CreatorTaskID before) (te_CreatorTaskID after) zeroID true)
        end
    end.

(** ** [cancel] and [prune_tasks], with the table's capability check *)

Inductive CancelResult := CancelResult_Ok | CancelResult_NoSuchTask.

(** [None] is the permission-denied answer of [Handle]. *)
Definition handle_cancel (now tWal : Z) (c : Conns) (cid : string) (taskId : TaskID) (s : Store)
    : Store * option CancelResult :=
  if negb (hasCap (callerCaps c s cid) (requiredCap TaskControlKind_Cancel)) then (s, None)
  else
    let taskID := EncodeToString taskId in
    if inScope c s cid Capability_Cancel taskID then (Cancel now tWal taskID s, Some CancelResult_Ok)
    else (s, Some CancelResult_NoSuchTask).

Record PruneTasksRequest := mkPruneTasksRequest { pq_TaskIds : list TaskID; pq_BeforeTs : Z; pq_Force : bool }.

(** [PruneFn] of [server/server.go]. *)
Definition PruneFn (now : Z) (allowed : option (gset string)) (req : PruneTasksRequest) (s : Store)
    : Store * (nat * nat * nat) :=
  match pq_TaskIds req with
  | [] => let '(s, n) := PruneTerminal now allowed (pq_BeforeTs req) s in (s, (n, O, O))
  | ids => PruneByIDs now allowed (EncodeToString <$> ids) (pq_Force req) s
  end.

Definition handle_prune (now : Z) (c : Conns) (cid : string) (req : PruneTasksRequest) (s : Store)
    : Store * option (nat * nat * nat) :=
  if negb (hasCap (callerCaps c s cid) (requiredCap TaskControlKind_PruneTasks)) then (s, None)
  else
    let '(all, set) := scopeSet c s cid Capability_Prune in
    let '(s, counts) := PruneFn now (if all then None else Some set) req s in
    (s, Some counts).

(** ** The store as a listing *)

Definition store_tasks (s : Store) : list Task := task_of <$> List_ 0 s.

(** What the handlers rely on of a store: entries under their own hex ids, each
    listed once. *)
Record forest (s : Store) : Prop := {
  fo_ok : StoreOk s;
  fo_hex : HexIds s;
  fo_nodup : NoDup (st_order s);
  fo_listed id : is_Some (st_tasks s !! id) → id ∈ st_order s;
}.

Lemma elem_of_store_tasks s t :
  forest s → t ∈ store_tasks s ↔ ∃ e, st_tasks s !! t_ID t = Some e ∧ t = task_of e.
Proof.
  intros Hf. unfold store_tasks. rewrite list_elem_of_fmap. split.
  - intros (e & -> & He). exists e. split; [|done]. by apply (elem_of_List 0 s e (fo_ok _ Hf)).
  - intros (e & He & ->). exists e. split; [done|]. cbn in He. unfold List_. cbn. apply list_elem_of_omap.
    exists (te_ID e). split; [|done]. apply (fo_listed _ Hf). by eexists.
Qed.

Lemma omap_ids_sublist s (l : list string) :
  StoreOk s → (te_ID <$> omap (λ id, st_tasks s !! id) l) `sublist_of` l.
Proof.
  intros Hs. induction l as [|id l IH]; [done|]. cbn. destruct (st_tasks s !! id) as [e|] eqn:E; cbn.
  - rewrite (ok_ID _ _ (store_entries _ _ E)). by constructor.
  - by constructor.
Qed.

Lemma store_tasks_NoDup s : forest s → NoDup (t_ID <$> store_tasks s).
Proof.
  intros Hf. unfold store_tasks. rewrite <-list_fmap_compose.
  eapply (sublist_NoDup (te_ID <$> List_ 0 s) (st_order s)); [apply Hf|]. by apply omap_ids_sublist, Hf.
Qed.

(** A store whose entries are those of [s] changed one by one. *)
Lemma List_map s s' (h : TaskEntry → TaskEntry) :
  st_order s' = st_order s → (∀ id, st_tasks s' !! id = h <$> st_tasks s !! id) →
  List_ 0 s' = h <$> List_ 0 s.
Proof.
  intros Ho Ht. rewrite (List_0_listed s), (List_0_listed s'). unfold listed. rewrite Ho. clear Ho.
  induction (st_order s) as [|id l IH]; [reflexivity|]. cbn [omap list_omap].
  rewrite Ht. destruct (st_tasks s !! id) as [e|]; cbn [fmap option_fmap option_map list_fmap]; by rewrite <-IH.
Qed.

Lemma creatorHex_root x : wf_id x → creatorHex x = "" ↔ x = zeroID.
Proof.
  intros Hx. unfold creatorHex. case_bool_decide as E; [done|]. split; [|done].
  intros Hn. by destruct (EncodeToString_nonempty x Hx).
Qed.

(** The index of the gates is the one of the listing. *)
Lemma childIndexOf_view s : StoreOk s → childIndexOf s = v_children (newView (store_tasks s)).
Proof.
  intros Hs. unfold childIndexOf, store_tasks.
  assert (Forall (λ e, wf_id (te_CreatorTaskID e)) (List_ 0 s)) as Hw.
  { apply Forall_forall. intros e He. eapply ok_creator, (store_entries (te_ID e)). by apply (elem_of_List 0). }
  induction (List_ 0 s) as [|e l IH] using rev_ind; [done|].
  apply Forall_app in Hw as [Hl [He _]%Forall_cons]. rewrite fmap_app. cbn [fmap list_fmap].
  rewrite newView_snoc_children, foldl_app. cbn [foldl]. rewrite (IH Hl). unfold index_child, view_add. cbn [v_children].
  change (t_Creator (task_of e)) with (creatorHex (te_CreatorTaskID e)). change (t_ID (task_of e)) with (te_ID e).
  pose proof (creatorHex_root _ He) as Hr. unfold creatorHex in *.
  destruct (bool_decide_reflect (te_CreatorTaskID e = zeroID)) as [Ez|Ez]; [done|].
  rewrite bool_decide_eq_false_2; [done|]. by intros E%Hr.
Qed.

(** ** [caps set] on the store *)

Definition put_entry (id : string) (e : TaskEntry) (s s' : Store) : Prop :=
  st_tasks s' = <[id := e]> (st_tasks s) ∧ st_order s' = st_order s.

Lemma SetCaps_put t1 t2 id u by_ s e :
  st_tasks s !! id = Some e →
  let e' := stampAuthority t1 by_ (applyBound u (applyCaps u e)) in
  ∃ s', SetCaps t1 t2 id u by_ s = (s', Some e') ∧ put_entry id e' s s'.
Proof.
  intros He e'. unfold SetCaps. rewrite He. eexists. split; [reflexivity|]. unfold writeCapsChangedLocked. split.
  - by rewrite wal_write_tasks.
  - by rewrite wal_write_order.
Qed.

(** What the cascade makes of one entry. *)
Definition clamp_entry (target : Task) (children : gmap string (list string)) (bound : bool) (actor : TaskID)
    (tm : string → Z * Z) (e : TaskEntry) : TaskEntry :=
  let cu := mkGrantUpdate true true bound bound
              (CascadeClamp target (TaskEntry_Grant e) (te_ID e) bound children) in
  stampAuthority (tm (te_ID e)).1 (mkAuthorityWrite AuthoritySource_Cascade actor) (applyBound cu (applyCaps cu e)).

Lemma clamp_entry_ID target ch bound actor tm e : te_ID (clamp_entry target ch bound actor tm e) = te_ID e.
Proof. by destruct bound. Qed.

Lemma task_of_clamp target ch bound actor tm e :
  task_of (clamp_entry target ch bound actor tm e) = clamped target bound ch (task_of e).
Proof.
  unfold clamp_entry, clamped, task_of, setGrant, applyBound, applyCaps, stampAuthority. destruct bound; [done|].
  unfold CascadeClamp. done.
Qed.

Definition regrant_of (req : SetCapsRequest) : Regrant :=
  {| rg_Target := EncodeToString (sr_TaskId req);
     rg_Caps := if sr_CapsPresent req then Some (sr_Caps req) else None;
     rg_Scope := if sr_ScopePresent req then Some (ScopeFromWire (sr_Scope req) (sr_Overrides req)) else None;
     rg_DelegateCaps := if sr_DelegateCapsPresent req then Some (sr_DelegateCaps req) else None;
     rg_DelegateScope := if sr_DelegateScopePresent req then Some (ScopeFromWire (sr_DelegateScope req) []) else None;
     rg_Cascade := sr_Cascade req |}.

(** The half-by-half update is the preview's, and is refused for the same scopes. *)
Lemma regrant_update req e t1 by_ :
  match sc_grant_update req with
  | Some u => regrant_task (regrant_of req) (task_of e) = Ok (task_of (stampAuthority t1 by_ (applyBound u (applyCaps u e))))
              ∧ gu_DelegateCaps u = sr_DelegateCapsPresent req ∧ gu_DelegateScope u = sr_DelegateScopePresent req
  | None => ∃ err, regrant_task (regrant_of req) (task_of e) = Err err
  end.
Proof.
  unfold sc_grant_update, regrant_task, regrant_of, sc_update. cbn [rg_Caps rg_Scope rg_DelegateCaps rg_DelegateScope].
  destruct (sr_ScopePresent req) eqn:E1.
  - destruct (Validate (ScopeFromWire (sr_Scope req) (sr_Overrides req))); [by eexists|]. cbn [mbind option_bind res_bind].
    destruct (sr_DelegateScopePresent req) eqn:E2.
    + change (Overrides (ScopeFromWire (sr_DelegateScope req) [])) with (@nil ScopeOverride). cbn [app].
      destruct (Validate (ScopeFromWire (sr_DelegateScope req) [])); [by eexists|]. cbn [mbind option_bind res_bind].
      by destruct (sr_CapsPresent req), (sr_DelegateCapsPresent req).
    + cbn [mbind option_bind res_bind]. by destruct (sr_CapsPresent req), (sr_DelegateCapsPresent req).
  - cbn [mbind option_bind res_bind]. destruct (sr_DelegateScopePresent req) eqn:E2.
    + change (Overrides (ScopeFromWire (sr_DelegateScope req) [])) with (@nil ScopeOverride).
      destruct (Validate (ScopeFromWire (sr_DelegateScope req) [])); [by eexists|]. cbn [mbind option_bind res_bind].
      by destruct (sr_CapsPresent req), (sr_DelegateCapsPresent req).
    + cbn [mbind option_bind res_bind]. by destruct (sr_CapsPresent req), (sr_DelegateCapsPresent req).
Qed.

Section cascade_store.
Context (target : Task) (ch : gmap string (list string)) (bound : bool) (actor : TaskID) (tm : string → Z * Z)
        (targetHex : string).

Definition clamp_in (ds : list string) (e : TaskEntry) : TaskEntry :=
  if bool_decide (te_ID e ∈ ds ∧ te_ID e ≠ targetHex) then clamp_entry target ch bound actor tm e else e.

(** The loop over the descendants clamps each stored one once, in whatever order
    it meets them, and reports those. *)
Lemma cascade_store ds s affected narrowed :
  (∀ id e, st_tasks s !! id = Some e → te_ID e = id) → NoDup ds →
  let '(s', affected', narrowed') :=
    foldl (cascade_child target ch bound actor tm targetHex) (s, affected, narrowed) ds in
  st_order s' = st_order s ∧ (∀ id, st_tasks s' !! id = clamp_in ds <$> st_tasks s !! id) ∧
  affected' = affected ++ filter (λ d, d ≠ targetHex ∧ is_Some (st_tasks s !! d)) ds.
Proof.
  revert s affected narrowed. induction ds as [|d ds IH]; intros s affected narrowed Hid Hnd.
  { cbn. split_and!; [done| |by rewrite app_nil_r]. intros id. unfold clamp_in.
    destruct (st_tasks s !! id); [|done]. cbn [fmap option_fmap option_map]. rewrite bool_decide_eq_false_2; [done|]. intros [?%not_elem_of_nil _]. done. }
  apply NoDup_cons in Hnd as [Hd Hnd]. cbn [foldl].
  assert (∀ s1 narrowed1 extra,
    (∀ id e, st_tasks s1 !! id = Some e → te_ID e = id) → st_order s1 = st_order s →
    (∀ id, st_tasks s1 !! id = (λ e, if bool_decide (te_ID e = d ∧ d ≠ targetHex)
        then clamp_entry target ch bound actor tm e else e) <$> st_tasks s !! id) →
    extra = filter (λ d, d ≠ targetHex ∧ is_Some (st_tasks s !! d)) [d] →
    let '(s', affected', narrowed') :=
      foldl (cascade_child target ch bound actor tm targetHex) (s1, affected ++ extra, narrowed1) ds in
    st_order s' = st_order s ∧ (∀ id, st_tasks s' !! id = clamp_in (d :: ds) <$> st_tasks s !! id) ∧
    affected' = affected ++ filter (λ d, d ≠ targetHex ∧ is_Some (st_tasks s !! d)) (d :: ds)) as Hstep.
  { intros s1 n1 extra Hid1 Ho1 Ht1 ->. specialize (IH s1 (affected ++ filter (λ d, d ≠ targetHex ∧ is_Some (st_tasks s !! d)) [d]) n1 Hid1 Hnd).
    destruct (foldl _ _ ds) as [[s' a'] n']. destruct IH as (IH1 & IH2 & IH3). split_and!; [congruence| |].
    - intros id. rewrite IH2, Ht1. destruct (st_tasks s !! id) as [e|]; [|done]. cbn [fmap option_fmap option_map]. f_equal. unfold clamp_in.
      destruct (bool_decide_reflect (te_ID e = d ∧ d ≠ targetHex)) as [[<- Hn]|Hn].
      + rewrite clamp_entry_ID.
        rewrite (bool_decide_eq_false_2 (te_ID e ∈ ds ∧ _)) by (by intros [? _]).
        rewrite bool_decide_eq_true_2; [done|]. split; [by left|done].
      + rewrite (bool_decide_ext (te_ID e ∈ ds ∧ te_ID e ≠ targetHex) (te_ID e ∈ d :: ds ∧ te_ID e ≠ targetHex)); [done|].
        rewrite elem_of_cons. naive_solver.
    - rewrite IH3, <-app_assoc. f_equal.
      rewrite (filter_ext_elem (λ d, d ≠ targetHex ∧ is_Some (st_tasks s1 !! d))
                 (λ d, d ≠ targetHex ∧ is_Some (st_tasks s !! d)) ds); [by rewrite <-filter_app|].
      intros x _. rewrite Ht1, fmap_is_Some. done. }
  unfold cascade_child at 2. destruct (bool_decide_reflect (d = targetHex)) as [->|Hne].
  - specialize (Hstep s narrowed []). rewrite app_nil_r in Hstep. apply Hstep; try done.
    + intros id. destruct (st_tasks s !! id); [|done]. cbn [fmap option_fmap option_map]. rewrite bool_decide_eq_false_2; naive_solver.
    + rewrite filter_cons_False by tauto. done.
  - unfold Get. destruct (st_tasks s !! d) as [e|] eqn:Ee.
    + destruct (SetCaps_put (tm d).1 (tm d).2 d
        (mkGrantUpdate true true bound bound (CascadeClamp target (TaskEntry_Grant e) d bound ch))
        (mkAuthorityWrite AuthoritySource_Cascade actor) s e Ee) as (s1 & -> & Hp1 & Hp2).
      pose proof (Hid _ _ Ee) as Hed. apply Hstep; [| done | |].
      * intros id e'. rewrite Hp1. intros [[<- <-]|[_ ?]]%lookup_insert_Some; [by destruct bound|by apply Hid].
      * intros id. rewrite Hp1. destruct (decide (d = id)) as [<-|Ed].
        -- rewrite lookup_insert_eq, Ee. cbn [fmap option_fmap option_map]. rewrite bool_decide_eq_true_2 by done. unfold clamp_entry. by rewrite Hed.
        -- rewrite lookup_insert_ne by done. destruct (st_tasks s !! id) as [e'|] eqn:Ee'; [|done]. cbn [fmap option_fmap option_map]. rewrite bool_decide_eq_false_2; [done|].
           intros [E _]. apply Ed. rewrite <-E. by apply Hid in Ee'.
      * rewrite filter_cons_True; [done|]. split; [done|]. by eexists.
    + specialize (Hstep s narrowed []). rewrite app_nil_r in Hstep. apply Hstep; try done.
      * intros id. destruct (st_tasks s !! id) as [e|] eqn:E; [|done]. cbn [fmap option_fmap option_map]. rewrite bool_decide_eq_false_2; [done|].
        intros [Eq _]. pose proof (Hid _ _ E). congruence.
      * rewrite filter_cons_False; [done|]. rewrite Ee. intros [_ [? ?]]. done.
Qed.
End cascade_store.

Lemma childIndexOf_map s s' h :
  List_ 0 s' = h <$> List_ 0 s → (∀ e, te_ID (h e) = te_ID e ∧ te_CreatorTaskID (h e) = te_CreatorTaskID e) →
  childIndexOf s' = childIndexOf s.
Proof.
  intros HL Hh. unfold childIndexOf. rewrite HL. clear HL. generalize (∅ : gmap string (list string)).
  induction (List_ 0 s) as [|e l IH]; [done|]. intros m. cbn [fmap list_fmap foldl].
  assert (index_child m (h e) = index_child m e) as -> by (unfold index_child; by destruct (Hh e) as [-> ->]).
  apply IH.
Qed.

(** The re-granted entry. *)
Definition regrant_entry (t : Z) (u : GrantUpdate) (e : TaskEntry) : TaskEntry :=
  stampAuthority t (mkAuthorityWrite AuthoritySource_OperatorCapsSet zeroID) (applyBound u (applyCaps u e)).

Lemma regrant_entry_keeps t u e :
  te_ID (regrant_entry t u e) = te_ID e ∧ te_CreatorTaskID (regrant_entry t u e) = te_CreatorTaskID e.
Proof. by destruct u as [[] [] [] [] ?]. Qed.

Section set_caps_laws.
Context (dropConns revokeDataPlane : string → N) (tm : string → Z * Z) (order : list string).
Context (c : Conns) (cid : string) (req : SetCapsRequest) (s : Store).
Hypothesis Hforest : forest s.
Hypothesis Horder : order ≡ₚ elements (DescendantsOf (childIndexOf s) (EncodeToString (sr_TaskId req)) ∅).
Let targetHex := EncodeToString (sr_TaskId req).

(** What an accepted request makes of each entry. *)
Definition set_caps_entry (u : GrantUpdate) (after : TaskEntry) (e : TaskEntry) : TaskEntry :=
  if bool_decide (te_ID e = targetHex) then regrant_entry (tm targetHex).1 u e
  else if sr_Cascade req && bool_decide (te_ID e ∈ order)
       then clamp_entry (task_of after) (childIndexOf s) (gu_DelegateCaps u || gu_DelegateScope u)
              (sr_TaskId req) tm e
       else e.

Lemma set_caps_run e0 u :
  is_operator c cid = true → Get targetHex s = Some e0 → sc_grant_update req = Some u →
  let after := regrant_entry (tm targetHex).1 u e0 in
  let affected := targetHex :: (if sr_Cascade req then filter (λ d, d ≠ targetHex ∧ is_Some (st_tasks s !! d)) order else []) in
  ∃ s' n dropped, handleSetCaps dropConns revokeDataPlane tm order c cid req s =
      (s', mkSetCapsAnswer SetCapsStatus_Ok (wire_ids affected) dropped n true) ∧
    List_ 0 s' = set_caps_entry u after <$> List_ 0 s ∧
    (dropped = affected ∨ dropped = []) ∧
    (sr_KeepConns req = true → dropped = []) ∧
    (sr_Cascade req = false → sr_KeepConns req = false →
       IsNarrowing (te_Capabilities e0) (te_Scope e0) (te_Capabilities after) (te_Scope after) = true → dropped = affected).
Proof.
  intros Hop Hg Hu after affected. unfold handleSetCaps. rewrite Hop. cbn [negb]. fold targetHex. cbn zeta. rewrite Hg, Hu.
  destruct (SetCaps_put (tm targetHex).1 (tm targetHex).2 targetHex u
    (mkAuthorityWrite AuthoritySource_OperatorCapsSet zeroID) s e0 Hg) as (s1 & -> & Hp1 & Hp2).
  fold targetHex. change (stampAuthority _ _ _) with after.
  assert (∀ id e, st_tasks s !! id = Some e → te_ID e = id) as Hids
    by (intros id e He; exact (ok_ID _ _ (fo_ok _ Hforest id e He))).
  assert (∀ id, st_tasks s1 !! id =
    (λ e, if bool_decide (te_ID e = targetHex) then regrant_entry (tm targetHex).1 u e else e) <$> st_tasks s !! id) as Hs1.
  { intros id. rewrite Hp1. destruct (decide (targetHex = id)) as [<-|Hn].
    - rewrite lookup_insert_eq. unfold Get in Hg. rewrite Hg. cbn [fmap option_fmap option_map].
      by rewrite (bool_decide_eq_true_2 _ (Hids _ _ Hg)).
    - rewrite lookup_insert_ne by done. destruct (st_tasks s !! id) as [e|] eqn:E; [|done].
      cbn [fmap option_fmap option_map]. rewrite bool_decide_eq_false_2; [done|]. rewrite (Hids _ _ E). congruence. }
  assert (childIndexOf s1 = childIndexOf s) as Hci.
  { apply (childIndexOf_map s s1 (λ e, if bool_decide (te_ID e = targetHex) then regrant_entry (tm targetHex).1 u e else e));
      [by apply List_map|]. intros e. destruct (bool_decide (te_ID e = targetHex)); [apply regrant_entry_keeps|done]. }
  destruct (sr_Cascade req) eqn:Ec.
  - rewrite Hci. pose proof (cascade_store (task_of after) (childIndexOf s) (gu_DelegateCaps u || gu_DelegateScope u)
      (sr_TaskId req) tm targetHex order s1 [targetHex]
      (IsNarrowing (te_Capabilities e0) (te_Scope e0) (te_Capabilities after) (te_Scope after))) as Hcs.
    destruct (foldl _ _ order) as [[s' affected'] narrowed]. destruct Hcs as (Ho & Ht & ->).
    { intros id e. rewrite Hs1. intros (e' & He' & ->)%fmap_Some. case_bool_decide; [|by apply Hids].
      rewrite (proj1 (regrant_entry_keeps _ _ _)). by apply Hids. }
    { rewrite Horder. apply NoDup_elements. }
    assert (filter (λ d, d ≠ targetHex ∧ is_Some (st_tasks s1 !! d)) order =
            filter (λ d, d ≠ targetHex ∧ is_Some (st_tasks s !! d)) order) as Ef.
    { apply filter_ext_elem. intros x _. rewrite Hs1, fmap_is_Some. done. }
    rewrite Ef. fold affected. exists s'.
    eexists _, (if narrowed && negb (sr_KeepConns req) then affected else []). split; [reflexivity|]. split.
    { apply List_map; [congruence|]. intros id. rewrite Ht, Hs1. destruct (st_tasks s !! id) as [e|]; [|done].
      cbn [fmap option_fmap option_map]. f_equal. unfold clamp_in, set_caps_entry. rewrite Ec. cbn [andb].
      destruct (bool_decide_reflect (te_ID e = targetHex)) as [E|E].
      - rewrite bool_decide_eq_false_2; [done|]. rewrite (proj1 (regrant_entry_keeps _ _ _)). naive_solver.
      - rewrite (bool_decide_ext (te_ID e ∈ order ∧ te_ID e ≠ targetHex) (te_ID e ∈ order)); [done|]. naive_solver. }
    split_and!; [destruct (narrowed && _); auto|by intros ->; rewrite andb_false_r|done].
  - exists s1. set (nw := IsNarrowing (te_Capabilities e0) (te_Scope e0) (te_Capabilities after) (te_Scope after)).
    eexists _, (if nw && negb (sr_KeepConns req) then affected else []). split; [reflexivity|]. split.
    { apply List_map; [done|]. intros id. rewrite Hs1. destruct (st_tasks s !! id) as [e|]; [|done].
      cbn [fmap option_fmap option_map]. unfold set_caps_entry. rewrite Ec. done. }
    split_and!; [destruct (nw && _); auto|by intros ->; rewrite andb_false_r|by intros _ -> ->].
Qed.
End set_caps_laws.

(** ** The preview of a re-grant *)

(** The preview succeeds exactly when the request is accepted. *)
Lemma apply_regrant_total before c t0 t :
  NoDup (t_ID <$> before) → t0 ∈ before → t_ID t0 = rg_Target c → regrant_task c t0 = Ok t →
  ∃ after, apply_regrant before c = Ok after.
Proof.
  intros Hnd [i Hi]%list_elem_of_lookup_1 Hid Ht. unfold apply_regrant.
  assert (index_of before !! rg_Target c = Some i) as -> by (apply index_of_spec; eauto).
  rewrite Hi, Ht. cbn [res_bind]. destruct (rg_Cascade c); by eexists.
Qed.

Lemma elem_of_wire_ids l id :
  (∀ x, x ∈ l → ∃ y, wf_id y ∧ x = EncodeToString y) → id ∈ EncodeToString <$> wire_ids l ↔ id ∈ l.
Proof.
  intros Hl. rewrite list_elem_of_fmap. unfold wire_ids. split.
  - intros (y & -> & (x & Hx & Hy)%list_elem_of_omap). destruct (Hl x Hx) as (z & [Hz1 Hz2] & ->).
    rewrite (DecodeString_EncodeToString z Hz2) in Hy. cbn in Hy. rewrite Hz1 in Hy. cbn in Hy. by injection Hy as ->.
  - intros Hin. destruct (Hl id Hin) as (z & [Hz1 Hz2] & ->). exists z. split; [done|]. apply list_elem_of_omap.
    exists (EncodeToString z). split; [done|]. rewrite (DecodeString_EncodeToString z Hz2). cbn. by rewrite Hz1.
Qed.

Lemma order_descends (ch : gmap string (list string)) (root : string) (order : list string) id :
  order ≡ₚ elements (DescendantsOf ch root ∅) → id ∈ order ↔ descends ch root id.
Proof. intros ->. rewrite elem_of_elements, elem_of_DescendantsOf. set_solver. Qed.

Section preview.
Context (s : Store) (req : SetCapsRequest) (tm : string → Z * Z) (order : list string).
Hypothesis Hf : forest s.
Hypothesis Horder : order ≡ₚ elements (DescendantsOf (childIndexOf s) (EncodeToString (sr_TaskId req)) ∅).

Lemma task_of_stored id e : st_tasks s !! id = Some e → t_ID (task_of e) = id ∧ task_of e ∈ store_tasks s.
Proof.
  intros He. pose proof (ok_ID _ _ (fo_ok _ Hf _ _ He)) as Hid. split; [done|].
  apply elem_of_store_tasks; [done|]. exists e. split; [|done]. cbn. by rewrite Hid.
Qed.

(** An accepted preview is of a stored target. *)
Lemma preview_target after :
  apply_regrant (store_tasks s) (regrant_of req) = Ok after →
  ∃ e0 t, Get (EncodeToString (sr_TaskId req)) s = Some e0 ∧ regrant_task (regrant_of req) (task_of e0) = Ok t.
Proof.
  intros Happ. destruct (apply_regrant_lookup _ _ _ (store_tasks_NoDup _ Hf) Happ) as (t0 & t & Ht0 & Hid0 & Hrg & _).
  apply elem_of_store_tasks in Ht0 as (e' & He' & ->); [|done]. rewrite Hid0 in He'. by exists e', t.
Qed.

Lemma preview_listing e0 u after :
  Get (EncodeToString (sr_TaskId req)) s = Some e0 → sc_grant_update req = Some u →
  apply_regrant (store_tasks s) (regrant_of req) = Ok after →
  after = task_of <$> (set_caps_entry tm order req s u (regrant_entry (tm (EncodeToString (sr_TaskId req))).1 u e0) <$> List_ 0 s).
Proof.
  intros Hg Hu Happ. pose proof (store_tasks_NoDup _ Hf) as Hnd.
  destruct (apply_regrant_lookup _ _ _ Hnd Happ) as (t0 & t & Ht0 & Hid0 & Hrg & Hlk).
  assert (t0 = task_of e0) as ->.
  { apply elem_of_store_tasks in Ht0 as (e' & He' & ->); [|done]. cbn [task_of t_ID] in He', Hid0.
    rewrite Hid0 in He'. unfold Get in Hg. cbn [rg_Target regrant_of] in He'. congruence. }
  pose proof (regrant_update req e0 (tm (EncodeToString (sr_TaskId req))).1
    (mkAuthorityWrite AuthoritySource_OperatorCapsSet zeroID)) as Hru. rewrite Hu in Hru.
  destruct Hru as (Hru & Hdc & Hds). rewrite Hrg in Hru. injection Hru as ->.
  rewrite <-childIndexOf_view in Hlk by apply Hf.
  apply list_eq. intros k. rewrite Hlk. unfold store_tasks. rewrite !list_lookup_fmap.
  destruct (List_ 0 s !! k) as [e1|] eqn:Ek; [|done]. cbn [fmap option_fmap option_map]. f_equal.
  unfold set_caps_entry. change (t_ID (task_of e1)) with (te_ID e1). cbn [regrant_of rg_Target rg_Cascade rg_DelegateCaps rg_DelegateScope].
  destruct (bool_decide_reflect (te_ID e1 = EncodeToString (sr_TaskId req))) as [E|E].
  - assert (e1 = e0) as ->; [|done]. apply list_elem_of_lookup_2 in Ek. apply (elem_of_List 0) in Ek; [|apply Hf].
    rewrite E in Ek. congruence.
  - rewrite (bool_decide_ext _ _ (iff_sym (order_descends _ _ _ (te_ID e1) Horder))).
    destruct (sr_Cascade req && bool_decide (te_ID e1 ∈ order)); [|done]. rewrite task_of_clamp, Hdc, Hds.
    by destruct (sr_DelegateCapsPresent req), (sr_DelegateScopePresent req).
Qed.
End preview.

(** ** Theorems *)

(** C10. [caps set] does to the stored tasks exactly what the preview shows of the
    listing: for every request of an operator, cascading or not and in whatever order
    the descendants are walked, the tasks afterwards are the listing the preview
    computes and the answer names the target and, on a cascade, every descendant; a
    request the preview refuses leaves the store as it was and closes no connection.
    A caller that has a principal task changes nothing. *)
Theorem set_caps_is_the_preview dropConns revokeDataPlane tm order c cid req s :
  forest s →
  order ≡ₚ elements (DescendantsOf (childIndexOf s) (EncodeToString (sr_TaskId req)) ∅) →
  let '(s', a) := handleSetCaps dropConns revokeDataPlane tm order c cid req s in
  if is_operator c cid then
    match apply_regrant (store_tasks s) (regrant_of req) with
    | Ok after =>
        sa_Status a = SetCapsStatus_Ok ∧ store_tasks s' = after ∧
        (∀ id, id ∈ EncodeToString <$> sa_Affected a ↔
           id = EncodeToString (sr_TaskId req) ∨
           (sr_Cascade req = true ∧ descends (childIndexOf s) (EncodeToString (sr_TaskId req)) id)) ∧
        (∀ id, id ∈ sa_Dropped a → sr_KeepConns req = false ∧ id ∈ EncodeToString <$> sa_Affected a)
    | Err _ => s' = s ∧ sa_Status a ≠ SetCapsStatus_Ok ∧ sa_Dropped a = []
    end
  else s' = s ∧ sa_Status a = SetCapsStatus_NotOperator ∧ sa_Dropped a = [].
Proof.
  intros Hf Ho. destruct (is_operator c cid) eqn:Hop; [|unfold handleSetCaps; by rewrite Hop].
  set (targetHex := EncodeToString (sr_TaskId req)) in *.
  destruct (Get targetHex s) as [e0|] eqn:Hg.
  - pose proof (regrant_update req e0 (tm targetHex).1 (mkAuthorityWrite AuthoritySource_OperatorCapsSet zeroID)) as Hru.
    destruct (sc_grant_update req) as [u|] eqn:Hu.
    + destruct Hru as (Hru & _).
      destruct (task_of_stored s Hf _ _ Hg) as [Hid Hin].
      destruct (apply_regrant_total _ (regrant_of req) _ _ (store_tasks_NoDup _ Hf) Hin Hid Hru) as (after & Happ).
      rewrite Happ.
      destruct (set_caps_run dropConns revokeDataPlane tm order c cid req s Hf Ho e0 u Hop Hg Hu)
        as (s' & n & dropped & -> & HL & Hd & Hk & _).
      assert (∀ x, x ∈ targetHex :: (if sr_Cascade req then filter (λ d, d ≠ targetHex ∧ is_Some (st_tasks s !! d)) order else [])
        → ∃ y, wf_id y ∧ x = EncodeToString y) as Hhex.
      { intros x [->|Hx]%elem_of_cons; [by eapply (fo_hex _ Hf)|]. destruct (sr_Cascade req); [|by apply not_elem_of_nil in Hx].
        apply list_elem_of_filter in Hx as [[_ [e He]] _]. by eapply (fo_hex _ Hf). }
      cbn [sa_Status sa_Affected sa_Dropped]. split_and!; [done| | |].
      * unfold store_tasks at 1. rewrite HL. symmetry. by apply (preview_listing s req tm order Hf Ho e0 u after).
      * intros id. rewrite elem_of_wire_ids by done. rewrite elem_of_cons.
        destruct (sr_Cascade req); [|rewrite elem_of_nil; naive_solver].
        rewrite list_elem_of_filter, (order_descends _ _ _ _ Ho). split; [tauto|].
        intros [->|[_ Hd']]; [by left|]. destruct (decide (id = targetHex)) as [->|Hn]; [by left|]. right.
        split_and!; [done| |done]. rewrite childIndexOf_view in Hd' by apply Hf.
        apply descends_listed in Hd'; [|apply list_elem_of_fmap; by exists (task_of e0)].
        apply list_elem_of_fmap in Hd' as (t & -> & (e & He & _)%elem_of_store_tasks); [by eexists|done].
      * intros id Hd1. rewrite elem_of_wire_ids by done. split.
        -- destruct (sr_KeepConns req); [|done]. rewrite Hk in Hd1 by done. by apply not_elem_of_nil in Hd1.
        -- destruct Hd as [->| ->]; [done|by apply not_elem_of_nil in Hd1].
    + destruct Hru as [err Hru]. unfold handleSetCaps. rewrite Hop. cbn zeta. fold targetHex. rewrite Hg, Hu. cbn [negb].
      destruct (apply_regrant (store_tasks s) (regrant_of req)) as [after|] eqn:Happ; [exfalso|done].
      apply preview_target in Happ as (e' & t & He' & Ht); [|done]. fold targetHex in He'. congruence.
  - unfold handleSetCaps. rewrite Hop. cbn zeta. fold targetHex. rewrite Hg. cbn [negb].
    destruct (apply_regrant (store_tasks s) (regrant_of req)) as [after|] eqn:Happ; [exfalso|done].
    apply preview_target in Happ as (e' & t & He' & _); [|done]. fold targetHex in He'. congruence.
Qed.

(** ** Moving a task *)

Section swap.
Context (ch ch' : gmap string (list string)) (t p : string).
Hypothesis Hac : acyclic ch.
Hypothesis Htp : t ∈ kids ch p.

(** The edges after the swap other than the turned one: the old ones that led to
    neither task, and the parent's old edge, now to the task. *)
Definition kept_edge (a b : string) : Prop :=
  (b ∈ kids ch a ∧ b ≠ t ∧ b ≠ p) ∨ (b = t ∧ p ∈ kids ch a).

Hypothesis Hch' : ∀ a b, b ∈ kids ch' a → kept_edge a b ∨ (a = t ∧ b = p).

Lemma kept_edge_path a b : kept_edge a b → ∃ z, z ∈ kids ch a ∧ descends ch z b.
Proof.
  intros [(Hb & _)|[-> Hp]]; [exists b; by split|]. exists p. split; [done|]. by apply rtc_once.
Qed.

Lemma kept_path a b : rtc kept_edge a b → descends ch a b.
Proof.
  induction 1 as [|a z b (y & Hy & Hyz)%kept_edge_path _ IH]; [done|]. eapply rtc_l; [exact Hy|]. by transitivity z.
Qed.

(** The former parent no longer leads to the task. *)
Lemma no_way_back : ¬ rtc kept_edge p t.
Proof.
  intros H. apply rtc_inv_r in H as [E|(y & Hy & Hyt)].
  - rewrite E in Htp. by destruct (Hac t t Htp).
  - destruct Hyt as [(_ & Hn & _)|[_ Hp]]; [done|]. exact (Hac y p Hp (kept_path p y Hy)).
Qed.

Lemma swapped_path a b : descends ch' a b → rtc kept_edge a b ∨ (rtc kept_edge a t ∧ rtc kept_edge p b).
Proof.
  induction 1 as [|a z b Haz _ IH]; [by left|]. destruct (Hch' _ _ Haz) as [He|[-> ->]].
  - destruct IH as [IH|[IH1 IH2]]; [left|right; split; [|done]]; by eapply rtc_l.
  - right. split; [done|]. by destruct IH as [IH|[IH _]]; [|destruct (no_way_back IH)].
Qed.

Lemma swap_acyclic : acyclic ch'.
Proof.
  intros a b Hab Hba. destruct (swapped_path _ _ Hba) as [Hp|[Hp1 Hp2]], (Hch' _ _ Hab) as [He|[-> ->]].
  - destruct (kept_edge_path _ _ He) as (z & Hz & Hzb). apply (Hac a z Hz). transitivity b; [done|by apply kept_path].
  - by apply no_way_back.
  - apply no_way_back. transitivity a; [done|]. by eapply rtc_l.
  - by apply no_way_back.
Qed.
End swap.

Lemma forest_kids s a b :
  forest s → b ∈ kids (childIndexOf s) a ↔
    ∃ e, st_tasks s !! b = Some e ∧ te_CreatorTaskID e ≠ zeroID ∧ EncodeToString (te_CreatorTaskID e) = a.
Proof.
  intros Hf. rewrite childIndexOf_view by apply Hf. rewrite newView_kids. split.
  - intros (Ha & t & (e & He & ->)%elem_of_store_tasks & Hc & <-); [|done]. exists e. cbn [task_of t_ID t_Creator] in *.
    split; [done|]. unfold creatorHex in Hc. case_bool_decide; [by subst a|done].
  - intros (e & He & Hz & <-). pose proof (fo_ok _ Hf _ _ He) as Hok. split; [by apply EncodeToString_nonempty, Hok|].
    exists (task_of e). rewrite elem_of_store_tasks by done. cbn [task_of t_ID t_Creator]. rewrite (ok_ID _ _ Hok).
    split_and!; [by exists e| |done]. unfold creatorHex. by rewrite bool_decide_eq_false_2.
Qed.

Lemma entry_ok_moved id e p : entry_ok id e → wf_id p → entry_ok id e{{ te_CreatorTaskID := p }}.
Proof. intros Hok Hp. by split; [apply Hok|..|apply Hok]; try apply Hok. Qed.

Lemma forest_put s s' id e' :
  forest s → is_Some (st_tasks s !! id) → entry_ok id e' → put_entry id e' s s' → forest s'.
Proof.
  intros Hf Hs Hok [Ht Ho]. split.
  - intros i e. rewrite Ht. intros [[<- <-]|[_ He]]%lookup_insert_Some; [done|]. by apply (fo_ok _ Hf).
  - intros i e. rewrite Ht. intros [[<- <-]|[_ He]]%lookup_insert_Some; [|by apply (fo_hex _ Hf _ _ He)].
    destruct Hs as [e0 He0]. by apply (fo_hex _ Hf _ _ He0).
  - rewrite Ho. apply Hf.
  - intros i. rewrite Ht, Ho. intros [Hi|Hi]%lookup_insert_is_Some; [subst i; by apply (fo_listed _ Hf)|].
    by apply (fo_listed _ Hf), Hi.
Qed.

Definition creator_in (s : Store) (id : string) : option TaskID := te_CreatorTaskID <$> st_tasks s !! id.

(** [s'] is [s] with the creator links given by [f] and nothing else changed in
    what the tree and the grants are made of. *)
Definition relinked (s s' : Store) (f : string → option TaskID) : Prop :=
  (∀ id, creator_in s' id = f id) ∧
  (∀ id, TaskEntry_Grant <$> st_tasks s' !! id = TaskEntry_Grant <$> st_tasks s !! id).

Lemma put_relinked s s' id e p :
  st_tasks s !! id = Some e → put_entry id e{{ te_CreatorTaskID := p }} s s' →
  relinked s s' (λ i, if bool_decide (i = id) then Some p else creator_in s i).
Proof.
  intros He [Ht _]. split; intros i; unfold creator_in; rewrite Ht; destruct (decide (id = i)) as [<-|Hn].
  - by rewrite lookup_insert_eq, bool_decide_eq_true_2.
  - by rewrite lookup_insert_ne, bool_decide_eq_false_2.
  - by rewrite lookup_insert_eq, He.
  - by rewrite lookup_insert_ne.
Qed.

Lemma SetParent_put t id p s e :
  st_tasks s !! id = Some e →
  ∃ s', SetParent t id p s = (s', Some e{{ te_CreatorTaskID := p }}) ∧ put_entry id e{{ te_CreatorTaskID := p }} s s'.
Proof.
  intros He. unfold SetParent. rewrite He. eexists. split; [reflexivity|]. unfold writeParentChangedLocked. split.
  - by rewrite wal_write_tasks.
  - by rewrite wal_write_order.
Qed.

Lemma forest_reparent s s' id e p :
  forest s → acyclic (childIndexOf s) → st_tasks s !! id = Some e → wf_id p →
  (p ≠ zeroID → ¬ descends (childIndexOf s) id (EncodeToString p)) →
  put_entry id e{{ te_CreatorTaskID := p }} s s' → forest s' ∧ acyclic (childIndexOf s').
Proof.
  intros Hf Hac He Hp Hno Hput.
  assert (forest s') as Hf' by (eapply forest_put; [done|by eexists|by apply entry_ok_moved; [apply (fo_ok _ Hf)|]|done]).
  split; [done|]. destruct Hput as [Ht _].
  assert (∀ a b, b ∈ kids (childIndexOf s') a → b ∈ kids (childIndexOf s) a ∨ (a = EncodeToString p ∧ a ≠ "" ∧ b = id)) as Hk.
  { intros a b. rewrite !forest_kids by done. intros (e' & He' & Hz & Ha). rewrite Ht in He'.
    apply lookup_insert_Some in He' as [[<- <-]|[_ He']]; [|left; eauto].
    change (te_CreatorTaskID _) with p in Hz, Ha. right. subst a. split_and!; [done| |done]. by apply EncodeToString_nonempty. }
  intros a b Hab Hba. pose proof (reparent_path _ _ _ _ _ _ Hk Hba) as Hpath.
  destruct (Hk _ _ Hab) as [Hold|(-> & Hne & ->)].
  - destruct Hpath as [Hd|(_ & Hd1 & Hd2)]; [by apply (Hac _ _ Hold)|].
    destruct (decide (p = zeroID)) as [->|Hz].
    { (* a root is no one's parent, so the new edge is not there *)
      assert (descends (childIndexOf s') b a → descends (childIndexOf s) b a) as Hsub.
      { apply rtc_subrel. intros x y. unfold child_of. rewrite !forest_kids by done. intros (e' & He' & Hz & Hx).
        rewrite Ht in He'. apply lookup_insert_Some in He' as [[_ <-]|[_ He']]; [done|]. eauto. }
      by apply (Hac _ _ Hold), Hsub. }
    apply (Hno Hz). transitivity a; [done|]. by eapply rtc_l.
  - assert (p ≠ zeroID) as Hz.
    { intros ->. apply forest_kids in Hab as (e' & He' & Hz & _); [|done]. rewrite Ht, lookup_insert_eq in He'.
      by injection He' as <-. }
    destruct Hpath as [Hd|(_ & Hd & _)]; by apply (Hno Hz).
Qed.

Lemma taskIDFromHex_EncodeToString x : wf_id x → taskIDFromHex (EncodeToString x) = x.
Proof.
  intros Hx. destruct (decide (x = zeroID)) as [->|Hn]; [by vm_compute|].
  pose proof (taskIDFromHex_creatorHex x Hx) as E. unfold creatorHex in E. by rewrite bool_decide_eq_false_2 in E.
Qed.

Lemma forest_swap t1 t2 s x :
  forest s → acyclic (childIndexOf s) → wf_id x →
  match SwapWithParent t1 t2 (EncodeToString x) s with
  | (s', Err _) => s' = s
  | (s', Ok (t, p)) =>
      forest s' ∧ acyclic (childIndexOf s') ∧
      ∃ pid g, pid ≠ zeroID ∧ creator_in s (EncodeToString x) = Some pid ∧ creator_in s (EncodeToString pid) = Some g ∧
        te_ID p = EncodeToString pid ∧ te_CreatorTaskID t = g ∧
        relinked s s' (λ i, if bool_decide (i = EncodeToString pid) then Some x
                            else if bool_decide (i = EncodeToString x) then Some g else creator_in s i)
  end.
Proof.
  intros Hf Hac Hx. unfold SwapWithParent. destruct (st_tasks s !! EncodeToString x) as [t|] eqn:Et; [|done].
  case_bool_decide as Hz; [done|]. destruct (st_tasks s !! EncodeToString (te_CreatorTaskID t)) as [p|] eqn:Ep; [|done].
  case_bool_decide as Hx0; [done|].
  set (pid := te_CreatorTaskID t) in *. set (grand := te_CreatorTaskID p).
  assert (taskIDFromHex (EncodeToString x) = x) as Htid by (by apply taskIDFromHex_EncodeToString).
  assert (EncodeToString x ∈ kids (childIndexOf s) (EncodeToString pid)) as Hxp by (apply forest_kids; [done|by exists t]).
  assert (EncodeToString pid ≠ EncodeToString x) as Hne.
  { intros E. rewrite E in Hxp. by destruct (Hac _ _ Hxp). }
  rewrite !(bool_decide_eq_false_2 (EncodeToString pid = EncodeToString x)) by done. rewrite Htid.
  set (t' := t{{ te_CreatorTaskID := grand }}). set (p' := p{{ te_CreatorTaskID := x }}).
  set (s' := writeParentChangedLocked t2 p' _).
  assert (st_tasks s' = <[EncodeToString pid := p']> (<[EncodeToString x := t']> (st_tasks s))) as Hts.
  { unfold s', writeParentChangedLocked. rewrite !wal_write_tasks. reflexivity. }
  assert (st_order s' = st_order s) as Hos by (unfold s', writeParentChangedLocked; rewrite !wal_write_order; reflexivity).
  pose proof (fo_ok _ Hf _ _ Et) as Hokt. pose proof (fo_ok _ Hf _ _ Ep) as Hokp.
  set (s1 := put (EncodeToString x) t' s).
  assert (forest s1) as Hf1 by (apply (forest_put s s1 (EncodeToString x) t'); [done|by eexists|apply entry_ok_moved; [done|apply Hokp]|split; reflexivity]).
  assert (st_tasks s1 !! EncodeToString pid = Some p) as Ep1.
  { change (st_tasks s1) with (<[EncodeToString x := t']> (st_tasks s)). by rewrite lookup_insert_ne. }
  assert (forest s') as Hf'.
  { apply (forest_put s1 s' (EncodeToString pid) p'); [done|by eexists|by apply entry_ok_moved|]. by split; rewrite ?Hts, ?Hos. }
  split; [done|]. split.
  - apply (swap_acyclic (childIndexOf s) (childIndexOf s') (EncodeToString x) (EncodeToString pid) Hac Hxp).
    intros a b. rewrite forest_kids by done. rewrite Hts. intros (e & He & Hcz & Ha).
    apply lookup_insert_Some in He as [[<- <-]|[Hb He]]; [by right|]. left.
    apply lookup_insert_Some in He as [[<- <-]|[Hb' He]].
    + right. split; [done|]. apply forest_kids; [done|]. by exists p.
    + left. split_and!; [|congruence|congruence]. apply forest_kids; [done|]. by exists e.
  - exists pid, grand. split_and!; [done| | |exact (ok_ID _ _ Hokp)|done|]; [by unfold creator_in; rewrite Et|by unfold creator_in; rewrite Ep|].
    split; intros i; unfold creator_in; rewrite Hts; destruct (decide (EncodeToString pid = i)) as [<-|Hn1].
    + by rewrite lookup_insert_eq, bool_decide_eq_true_2.
    + rewrite lookup_insert_ne, (bool_decide_eq_false_2 (i = EncodeToString pid)) by done.
      destruct (decide (EncodeToString x = i)) as [<-|Hn2]; [by rewrite lookup_insert_eq, bool_decide_eq_true_2|].
      by rewrite lookup_insert_ne, bool_decide_eq_false_2.
    + by rewrite lookup_insert_eq, Ep.
    + rewrite lookup_insert_ne by done. destruct (decide (EncodeToString x = i)) as [<-|Hn2]; [by rewrite lookup_insert_eq, Et|].
      by rewrite lookup_insert_ne.
Qed.

(** C24. An operator moving a task, under another parent or in its parent's place,
    keeps the tree a forest without cycles and changes no grant.  An accepted move
    re-points the task alone; an accepted swap puts it where its parent was and the
    parent below it, its other children staying with it; every refusal, and every
    request of a caller that has a principal task, leaves the store as it was. *)
Theorem set_parent_keeps_forest tWal1 tWal2 c cid req s :
  forest s → acyclic (childIndexOf s) → wf_id (pr_TaskId req) → wf_id (pr_ParentId req) →
  let target := EncodeToString (pr_TaskId req) in
  let '(s', a) := handleSetParent tWal1 tWal2 c cid req s in
  forest s' ∧ acyclic (childIndexOf s') ∧
  match pa_Status a with
  | SetParentStatus_Ok =>
      is_operator c cid = true ∧
      if pr_Swap req then
        ∃ pid g, pid ≠ zeroID ∧ creator_in s target = Some pid ∧ creator_in s (EncodeToString pid) = Some g ∧
          pa_NewParent a = g ∧
          relinked s s' (λ i, if bool_decide (i = EncodeToString pid) then Some (pr_TaskId req)
                              else if bool_decide (i = target) then Some g else creator_in s i)
      else relinked s s' (λ i, if bool_decide (i = target) then Some (pr_ParentId req) else creator_in s i)
  | _ => s' = s
  end.
Proof.
  intros Hf Hac Ht Hp target. unfold handleSetParent. destruct (is_operator c cid); [|done]. cbn [negb]. cbn zeta. fold target.
  destruct (pr_Swap req).
  - destruct (negb _); [done|]. pose proof (forest_swap tWal1 tWal2 s (pr_TaskId req) Hf Hac Ht) as Hs. fold target in Hs.
    destruct (SwapWithParent tWal1 tWal2 target s) as [s' [[t p]|[]]]; [|by subst..].
    destruct Hs as (Hf' & Hac' & pid & g & Hpz & Hc1 & Hc2 & _ & Hg & Hr). split_and!; [done..|].
    cbn [pa_Status pa_NewParent]. split; [done|]. by exists pid, g.
  - unfold Get. destruct (st_tasks s !! target) as [e|] eqn:Ee; [|done].
    destruct (negb _ && bool_decide (_ = None)); [done|].
    destruct (negb (bool_decide (pr_ParentId req = zeroID)) && bool_decide (_ ∈ _)) eqn:Ed; [done|].
    destruct (SetParent_put tWal1 target (pr_ParentId req) s e Ee) as (s' & -> & Hput). cbn [pa_Status].
    destruct (forest_reparent s s' target e (pr_ParentId req) Hf Hac Ee Hp) as [Hf' Hac']; [|done|].
    + intros Hz Hd. rewrite (bool_decide_eq_false_2 _ Hz) in Ed. cbn [negb andb] in Ed.
      rewrite bool_decide_eq_false, elem_of_DescendantsOf in Ed. apply Ed. by right.
    + split_and!; [done..|]. by eapply put_relinked.
Qed.

(** ** Ending tasks *)

(** A task is as it was, or was removed and could be. *)
Definition pruned_within (allowed : option (gset string)) (tasks tasks' : gmap string TaskEntry) : Prop :=
  ∀ id, tasks' !! id = tasks !! id ∨ (tasks' !! id = None ∧ in_allowed allowed id = true).

Lemma logged_prune_tasks now l s :
  st_tasks (log_pruned now l s) = st_tasks s ∧ st_order (log_pruned now l s) = st_order s.
Proof.
  unfold log_pruned.
  assert (∀ l s, st_tasks (foldl (λ s id, call (OnPrune id) s) s l) = st_tasks s ∧
    st_order (foldl (λ s id, call (OnPrune id) s) s l) = st_order s) as Hcalls.
  { clear. induction l as [|x l IH]; intros s; [done|]. cbn [foldl]. apply (IH (call (OnPrune x) s)). }
  destruct (Hcalls l (foldl (λ s id, wal_write now (walEvent "task_pruned" id){{ ev_Ts := now }} s) s l)) as (-> & ->).
  clear Hcalls. revert s. induction l as [|x l IH]; intros s; [done|]. cbn [foldl].
  destruct (IH (wal_write now (walEvent "task_pruned" x){{ ev_Ts := now }} s)) as [-> ->].
  by rewrite wal_write_tasks, wal_write_order.
Qed.

Lemma prune_one_within allowed force ids acc :
  pruned_within allowed acc.1 (foldl (prune_one allowed force) acc ids).1.
Proof.
  revert acc. induction ids as [|x ids IH]; intros [tasks cnt]; [by left|]. cbn [foldl]. intros id.
  destruct (IH (prune_one allowed force (tasks, cnt) x) id) as [E|?]; [|by right]. rewrite E. clear E IH.
  unfold prune_one. destruct (in_allowed allowed x) eqn:Ea; cbn [negb]; [|by left].
  destruct (tasks !! x) as [t|]; [|by left]. destruct (negb (terminal (te_Status t)) && negb force); [by left|]. cbn [fst].
  destruct (decide (x = id)) as [<-|Hn]; [right; by rewrite lookup_delete_eq|left; by rewrite lookup_delete_ne].
Qed.

Lemma prune_terminal_within allowed cutoff ids acc :
  pruned_within allowed acc.1.1 (foldl (prune_terminal_one allowed cutoff) acc ids).1.1.
Proof.
  revert acc. induction ids as [|x ids IH]; intros [[tasks keep] pruned]; [by left|]. cbn [foldl]. intros id.
  destruct (IH (prune_terminal_one allowed cutoff (tasks, keep, pruned) x) id) as [E|?]; [|by right]. rewrite E. clear E IH.
  unfold prune_terminal_one. destruct (tasks !! x) as [t|]; [|by left].
  destruct (in_allowed allowed x) eqn:Ea; cbn [negb]; [|by left]. destruct (terminal (te_Status t) && _); [|by left]. cbn [fst].
  destruct (decide (x = id)) as [<-|Hn]; [right; by rewrite lookup_delete_eq|left; by rewrite lookup_delete_ne].
Qed.

Lemma PruneFn_within now allowed req s : pruned_within allowed (st_tasks s) (st_tasks (PruneFn now allowed req s).1).
Proof.
  unfold PruneFn. destruct (pq_TaskIds req) as [|x ids].
  - unfold PruneTerminal. pose proof (prune_terminal_within allowed (pq_BeforeTs req) (st_order s) (st_tasks s, [], [])) as H.
    destruct (foldl _ _ (st_order s)) as [[tasks keep] pruned]. cbn [fst] in *.
    by rewrite (proj1 (logged_prune_tasks now pruned s{{ st_tasks := tasks; st_order := keep }})).
  - unfold PruneByIDs. pose proof (prune_one_within allowed (pq_Force req) (EncodeToString <$> x :: ids) (st_tasks s, mkPruneCounts [] 0 0)) as H.
    destruct (foldl _ _ (EncodeToString <$> x :: ids)) as [tasks cnt]. cbn [fst] in *.
    by rewrite (proj1 (logged_prune_tasks now (pc_pruned cnt) s{{ st_tasks := tasks;
      st_order := filter (λ id, id ∉ (list_to_set (pc_pruned cnt) : gset string)) (st_order s) }})).
Qed.

Lemma Cancel_other now t id i s : i ≠ id → st_tasks (Cancel now t id s) !! i = st_tasks s !! i.
Proof.
  intros Hi. unfold Cancel. destruct (st_tasks s !! id) as [e|]; [|done].
  destruct (te_Status e); try done; rewrite (proj2 (call_keeps _ _)), wal_write_tasks; by apply lookup_insert_ne.
Qed.

(** A cancel or a prune touches only tasks its caller is authorised for.  A cancel
    that answers ok was of a task the caller holds [cancel] over, and no other task
    changes; a task a prune removed is one the caller holds [prune] over and
    every other task is as it was.  Refused requests
    change nothing. *)
Theorem ending_needs_authority now tWal c cid taskId req s :
  (let '(s', r) := handle_cancel now tWal c cid taskId s in
   (r = Some CancelResult_Ok → authorize c s cid Capability_Cancel (EncodeToString taskId) = true) ∧
   (r ≠ Some CancelResult_Ok → s' = s) ∧
   (∀ id, id ≠ EncodeToString taskId → st_tasks s' !! id = st_tasks s !! id)) ∧
  (let '(s', r) := handle_prune now c cid req s in
   (r = None → s' = s) ∧
   (∀ id, st_tasks s' !! id = st_tasks s !! id ∨
          (st_tasks s' !! id = None ∧ authorize c s cid Capability_Prune id = true))).
Proof.
  split.
  - unfold handle_cancel, authorize. cbn [requiredCap].
    destruct (hasCap (callerCaps c s cid) Capability_Cancel); cbn [negb]; [|done].
    destruct (inScope c s cid Capability_Cancel (EncodeToString taskId)); [|done].
    split_and!; [done|done|]. intros id Hid. by apply Cancel_other.
  - unfold handle_prune, authorize. cbn [requiredCap].
    destruct (hasCap (callerCaps c s cid) Capability_Prune); cbn [negb]; [|split; [done|by left]].
    unfold inScope. destruct (scopeSet c s cid Capability_Prune) as [all set].
    pose proof (PruneFn_within now (if all then None else Some set) req s) as H.
    destruct (PruneFn now _ req s) as [s' counts]. split; [done|]. intros id.
    destruct (H id) as [?|[? Ha]]; [by left|]. right. split; [done|]. by destruct all.
Qed.

(** ** Witnesses *)

Module SampleTree.
Definition spawn := SampleReach.spawn.
Definition p : TaskID := SampleReach.p.
Definition c : TaskID := SampleReach.c.
Definition g : TaskID := replicate 15 0 ++ [12].
Definition ops : list op := [spawn p zeroID Capability_All; spawn c p Capability_Cancel; spawn g c Capability_Cancel].
Definition s : Store := run (SetWAL (Some []) NewTaskStore) ops.
Definition hexes : list string := EncodeToString <$> [p; c; g].
Definition none_scope : TaskScope := ToWire zeroScope.

(** Take every capability but spawn from [p] and all below it. *)
Definition lower : SetCapsRequest :=
  mkSetCapsRequest p true Capability_Spawn false none_scope [] false 0 false none_scope true false.

Lemma kept_ops_ok : Forall op_ok ops.
Proof.
  assert (wal_ok DefaultScope) as Hd by (split_and!; try done; by apply sample_ids_ok).
  repeat constructor; try done.
Qed.

Lemma s_hex : HexIds s.
Proof.
  intros id e He.
  assert (id ∈ dom (st_tasks s)) as Hid by (by apply elem_of_dom).
  assert (dom (st_tasks s) = list_to_set hexes) as Ed by (apply (bool_decide_unpack _); by vm_compute).
  rewrite Ed in Hid. apply elem_of_list_to_set in Hid. unfold hexes in Hid. apply list_elem_of_fmap in Hid as (x & -> & Hx).
  exists x. split; [|done]. apply (list_elem_of_In) in Hx. cbn in Hx.
  destruct Hx as [<-|[<-|[<-|[]]]]; apply (bool_decide_unpack _); by vm_compute.
Qed.

Lemma s_forest : forest s.
Proof.
  split; [apply run_StoreOk, kept_ops_ok|apply s_hex|apply (bool_decide_unpack _); by vm_compute|].
  intros id [e He]. assert (id ∈ dom (st_tasks s)) as Hid by (by apply elem_of_dom).
  assert (dom (st_tasks s) = list_to_set (st_order s)) as Ed by (apply (bool_decide_unpack _); by vm_compute).
  rewrite Ed in Hid. by apply elem_of_list_to_set in Hid.
Qed.

(** The tree is [p] above [c] above [g]: the last byte of an id grows along it. *)
Lemma s_acyclic : acyclic (childIndexOf s).
Proof.
  assert (∀ a b, b ∈ kids (childIndexOf s) a → (a, b) ∈ [(EncodeToString p, EncodeToString c); (EncodeToString c, EncodeToString g)]) as Hk.
  { intros a b Hb.
    assert (map_to_list (childIndexOf s) ≡ₚ [(EncodeToString p, [EncodeToString c]); (EncodeToString c, [EncodeToString g])]) as Hm
      by (apply (bool_decide_unpack _); by vm_compute).
    unfold kids in Hb. destruct (childIndexOf s !! a) as [l|] eqn:E; [|by apply not_elem_of_nil in Hb].
    apply elem_of_map_to_list in E. rewrite Hm in E. cbn [default] in Hb. apply list_elem_of_In in E. cbn [In] in E.
    destruct E as [[= <- <-]|[[= <- <-]|[]]]; apply list_elem_of_singleton in Hb as ->; [by left|by right; left]. }
  assert (∀ a b, descends (childIndexOf s) a b → a = b ∨ a = EncodeToString p ∨ (a = EncodeToString c ∧ b = EncodeToString g)) as Hd.
  { induction 1 as [|a z b Hz _ IH]; [by left|]. apply Hk in Hz. apply list_elem_of_In in Hz. cbn in Hz.
    destruct Hz as [[= <- <-]|[[= <- <-]|[]]]; [by right; left|]. right. right.
    destruct IH as [<-|[E|[E _]]]; [done|by vm_compute in E..]. }
  intros a b Hab Hba. apply Hd in Hba. apply Hk in Hab. apply list_elem_of_In in Hab. cbn in Hab.
  destruct Hab as [[= <- <-]|[[= <- <-]|[]]]; destruct Hba as [E|[E|[E1 E2]]];
    first [by vm_compute in E | by vm_compute in E1 | by vm_compute in E2].
Qed.
End SampleTree.

Lemma set_caps_is_the_preview_witness :
  let '(s', a) := handleSetCaps (λ _, 1) (λ _, 0) (λ _, (3%Z, 4%Z)) (rev SampleTree.hexes) noConns "op" SampleTree.lower SampleTree.s in
  sa_Status a = SetCapsStatus_Ok ∧ length (sa_Dropped a) = 3%nat ∧
  Ok (store_tasks s') = apply_regrant (store_tasks SampleTree.s) (regrant_of SampleTree.lower).
Proof.
  assert (rev SampleTree.hexes ≡ₚ elements (DescendantsOf (childIndexOf SampleTree.s) (EncodeToString (sr_TaskId SampleTree.lower)) ∅)) as Ho
    by (apply (bool_decide_unpack _); by vm_compute).
  pose proof (set_caps_is_the_preview (λ _, 1) (λ _, 0) (λ _, (3%Z, 4%Z)) (rev SampleTree.hexes) noConns "op" SampleTree.lower
    SampleTree.s SampleTree.s_forest Ho) as H.
  assert (length (sa_Dropped (handleSetCaps (λ _, 1) (λ _, 0) (λ _, (3%Z, 4%Z)) (rev SampleTree.hexes) noConns "op"
    SampleTree.lower SampleTree.s).2) = 3%nat) as Hl by by vm_compute.
  destruct (handleSetCaps _ _ _ _ _ _ _ _) as [s' a]. cbn [snd] in Hl.
  change (is_operator noConns "op") with true in H. cbn iota in H.
  destruct (apply_regrant _ _) as [after|]; destruct H as (H1 & H2 & H3); [by subst|]. by rewrite H3 in Hl.
Defined.

Lemma set_parent_keeps_forest_witness :
  let '(s', a) := handleSetParent 3 4 noConns "op" (mkSetParentRequest SampleTree.c zeroID true) SampleTree.s in
  pa_Status a = SetParentStatus_Ok ∧ acyclic (childIndexOf s') ∧
  creator_in s' (EncodeToString SampleTree.p) = Some SampleTree.c.
Proof.
  pose proof (set_parent_keeps_forest 3 4 noConns "op" (mkSetParentRequest SampleTree.c zeroID true) SampleTree.s
    SampleTree.s_forest SampleTree.s_acyclic) as H.
  assert (pa_Status (handleSetParent 3 4 noConns "op" (mkSetParentRequest SampleTree.c zeroID true) SampleTree.s).2
    = SetParentStatus_Ok) as Hst by by vm_compute.
  assert (creator_in (handleSetParent 3 4 noConns "op" (mkSetParentRequest SampleTree.c zeroID true) SampleTree.s).1
    (EncodeToString SampleTree.p) = Some SampleTree.c) as Hc by by vm_compute.
  destruct (handleSetParent _ _ _ _ _ _) as [s' a]. cbn [fst snd] in *. split_and!; [done| |done].
  apply H; apply (bool_decide_unpack _); by vm_compute.
Defined.
