(* ===== verification/Submit.v ===== *)
(** * Starting tasks: the submit and open handlers of [server/task_handler.go] and
    [server/candidates.go]

    A request to start or resume a task is bounded by its caller's authority,
    routed to one runner and profile, and recorded; an interactive open then goes
    on to the runner ([RunnerHandler.open_on_runner]).  A new task id and the
    readings of the clock are arguments; the printed form of a connection id is a
    parameter, as in [Registry.v].

    Theorems: a task an agent starts is authorised for nothing its creator is not,
    at every later state of the tree; a submit is accepted exactly when one runner
    and profile is left and then records one queued task for them, and every other
    answer leaves the store as it was; an exact resume restores the recorded
    settings; an interactive resume tells its caller about a task outside its
    scope. *)

From stdpp Require Import prelude gmap strings list sorting pretty.
From Stdlib Require Import NArith ZArith.
From coqutil Require Import Datatypes.RecordSetters.
From S2P Require Import Prelude GoStrings Caps Scope Sets Reach Attenuate Delegate View WhatIf Wire Wal TaskStore Replay Topic BoardReach Board Paths Registry Scheduler RunnerHandler Gates GrantHandlers.

Import DoubleBraceUpdate.
Open Scope N_scope.
Open Scope stdpp_scope.
Set Default Goal Selector "!".

Definition TaskKind_Oneshot : N := 0.

Definition TaskKind_String (k : N) : string :=
  if k =? TaskKind_Oneshot then "Oneshot"
  else if k =? TaskKind_Interactive then "Interactive"
  else if k =? TaskKind_Stream then "Stream"
  else "TaskKind(" +:+ pretty k +:+ ")".

Definition isZeroTaskID (t : TaskID) : bool := bool_decide (t = zeroID).

(** [Selector.Kind != RunnerSelectorKind_Any]. *)
Definition pinned (sel : RunnerSelector) : bool := match sel with SelAny => false | _ => true end.

(** ** Requests *)

(** The fields a submit and an open have in common. *)
Record start_request := mkStartRequest {
  rq_RepoPath : string;
  rq_Selector : RunnerSelector;
  rq_ExtraArgs : list string;
  rq_AgentProfile : string;
  rq_RequestedCaps : N;
  rq_Scope : TaskScope; rq_Overrides : list WireOverride;
  rq_DelegateCaps : N; rq_DelegateScope : TaskScope;
  rq_ResumeTaskId : TaskID;
  rq_ResumeExact : bool; rq_ResumeConversation : bool;
  rq_ResumeCapsOverride : bool; rq_ScopePresent : bool;
  rq_DelegateCapsPresent : bool; rq_DelegateScopePresent : bool;
}.

Record SubmitRequest := mkSubmitRequest { sb_req : start_request; sb_Prompt : string }.

Record OpenInteractiveRequest := mkOpenRequest {
  oi_req : start_request; oi_Detached : bool; oi_EventStream : bool }.

Definition interactiveKind (r : OpenInteractiveRequest) : N :=
  if oi_EventStream r then TaskKind_Stream else TaskKind_Interactive.

(** ** Authority *)

Record grantRequest := mkGrantRequest {
  gq_Caps : N; gq_Scope : Scope; gq_DelegateCaps : N; gq_DelegateScope : Scope;
  gq_CapsPresent : bool; gq_ScopePresent : bool; gq_DelegateCapsPresent : bool; gq_DelegateScopePresent : bool }.

(** [submitGrantRequest] and [openGrantRequest], which read the same fields. *)
Definition startGrantRequest (r : start_request) : grantRequest :=
  {| gq_Caps := rq_RequestedCaps r; gq_Scope := ScopeFromWire (rq_Scope r) (rq_Overrides r);
     gq_DelegateCaps := rq_DelegateCaps r; gq_DelegateScope := ScopeFromWire (rq_DelegateScope r) [];
     gq_CapsPresent := rq_ResumeCapsOverride r; gq_ScopePresent := rq_ScopePresent r;
     gq_DelegateCapsPresent := rq_DelegateCapsPresent r; gq_DelegateScopePresent := rq_DelegateScopePresent r |}.

Definition grantFor (s : Store) (g : option Granter) (r : grantRequest) (idHex : string)
    : result grant_error GrantUpdate :=
  let fresh := bool_decide (idHex = "") in
  let uCaps := fresh || gq_CapsPresent r in
  let uScope := fresh || gq_ScopePresent r in
  let uDelegateCaps := fresh || gq_DelegateCapsPresent r in
  let uDelegateScope := fresh || gq_DelegateScopePresent r in
  let caps := if fresh then ChildCaps g (gq_Caps r) else resumedCaps s idHex (gq_CapsPresent r) g (gq_Caps r) in
  let scope := ChildScope g (gq_Scope r) caps in
  match scope, uScope with
  | Err e, true => Err e
  | _, _ =>
      let '(dcaps, dscope) := ChildBound g (gq_DelegateCaps r) (gq_DelegateScope r) idHex in
      match dscope, uDelegateScope with
      | Err e, true => Err e
      | _, _ => Ok (mkGrantUpdate uCaps uScope uDelegateCaps uDelegateScope
                      (mkGrant caps (value_of scope) dcaps (value_of dscope)))
      end
  end.

(** ** Routing *)

Definition filterByProfile (cands : list RunnerEntry) (profile : string) : list RunnerEntry :=
  filter (λ c, HasProfile profile c = true) cands.

Definition preferLastRunner (cands : list RunnerEntry) (last : list N) : list RunnerEntry :=
  if bool_decide (last = zeroID) then cands
  else match find_first (λ c, bool_decide (re_Identity c = last)) cands with
       | Some c => [c]
       | None => cands
       end.

Definition interactiveCombo : Type := RunnerEntry * string.

Definition advertisedProfiles (e : RunnerEntry) : list string :=
  match re_AgentProfiles e with
  | [] => if negb (bool_decide (re_AgentBin e = "")) then [re_AgentBin e] else [""%string]
  | ps => ps
  end.

Definition expandCombos (cands : list RunnerEntry) (profile : string) (sel : RunnerSelector) : list interactiveCombo :=
  if negb (bool_decide (profile = "")) then (λ c, (c, profile)) <$> filterByProfile cands profile
  else if negb (pinned sel) then cands ≫= λ c, (λ p, (c, p)) <$> advertisedProfiles c
  else (λ c, (c, DefaultProfile c)) <$> cands.

(** The names a refusal for want of a profile lists: each once, in order. *)
Definition add_name (acc : list string * gset string) (p : string) : list string * gset string :=
  let '(names, seen) := acc in
  if bool_decide (p ∈ seen) then acc else (names ++ [p], {[p]} ∪ seen).

Definition candidate_names (c : RunnerEntry) : list string :=
  match re_AgentProfiles c with
  | [] => if bool_decide (re_AgentBin c = "") then [] else [re_AgentBin c]
  | ps => ps
  end.

Definition profileUnavailableMsg (requested : string) (cands : list RunnerEntry) : string :=
  let names := (foldl add_name ([], ∅) (cands ≫= candidate_names)).1 in
  "profile unavailable: " +:+ requested +:+ "; advertised: " +:+ GoStrings.Join (sort_strings names) ", ".

Definition matchedRoot (roots : list string) (repo : string) : string :=
  (foldl (λ '(best, bestRoot) root,
            if (best <? MatchLen root repo)%nat then (MatchLen root repo, root) else (best, bestRoot))
     (0%nat, ""%string) roots).2.

Record RunnerCandidate := mkRunnerCandidate {
  rc_RunnerId : list N; rc_Cid : string; rc_Hostname : string; rc_MatchedRoot : string;
  rc_ActiveTasks : N; rc_MaxTasks : N; rc_Profiles : list string }.

Section start.
(** [ConnectionID.String]. *)
Context (conn_string : ConnectionID → string).

(** One round of [candidatesBody]: the row of the combo's connection gets its
    profile, a new connection a new row. *)
Definition add_candidate (repo : string) (rows : list RunnerCandidate) (c : interactiveCombo) : list RunnerCandidate :=
  let '(e, profile) := c in
  let key := conn_string (re_ID e) in
  if existsb (λ r, bool_decide (rc_Cid r = key)) rows then
    (λ r, if bool_decide (rc_Cid r = key) then r{{ rc_Profiles := rc_Profiles r ++ [profile] }} else r) <$> rows
  else rows ++ [mkRunnerCandidate (re_Identity e) key (re_Hostname e) (matchedRoot (re_AllowedRoots e) repo)
                  (uint16 (N.of_nat (load e))) (uint16 (N.of_nat (re_MaxTasks e))) [profile]].

Definition candidatesBody (combos : list interactiveCombo) (repo : string) : list RunnerCandidate :=
  foldl (add_candidate repo) [] combos.

(** ** Exact resumes *)

Record exactFields := mkExactFields {
  ef_Prompt : string; ef_ExtraArgs : list string; ef_AgentProfile : string; ef_CapsOverride : bool;
  ef_ScopePresent : bool; ef_DelegateCapsPresent : bool; ef_DelegateScopePresent : bool; ef_Kind : N }.

(** [""] for a valid exact resume of [rec]. *)
Definition exactMismatch (req : exactFields) (rec : TaskEntry) : string :=
  if negb (bool_decide (ef_Prompt req = "")) then "prompt"
  else if negb (bool_decide (ef_ExtraArgs req = [])) then "--agent-arg"
  else if negb (bool_decide (ef_AgentProfile req = "")) then "--agent"
  else if ef_CapsOverride req then "--caps"
  else if ef_ScopePresent req then "--scope"
  else if ef_DelegateCapsPresent req then "--delegate-caps"
  else if ef_DelegateScopePresent req then "--delegate-scope"
  else if negb (ef_Kind req =? te_Kind rec)
  then "kind (the task was recorded as " +:+ TaskKind_String (te_Kind rec) +:+ ")"
  else "".

Definition exact_of (prompt : string) (kind : N) (r : start_request) : exactFields :=
  mkExactFields prompt (rq_ExtraArgs r) (rq_AgentProfile r) (rq_ResumeCapsOverride r) (rq_ScopePresent r)
    (rq_DelegateCapsPresent r) (rq_DelegateScopePresent r) kind.

Definition exact_msg (field : string) : string :=
  "resume_exact: " +:+ field +:+ " is a setting; an exact resume takes the task's recorded one".

(** ** [submit] *)

Inductive SubmitStatus :=
  | SubmitStatus_Ok | SubmitStatus_NoRunner | SubmitStatus_PinnedNotFound | SubmitStatus_AmbiguousRunner
  | SubmitStatus_ScopeNotPermitted | SubmitStatus_ProfileUnavailable | SubmitStatus_ResumeNotFound
  | SubmitStatus_ResumeNotTerminal | SubmitStatus_ResumeExactMismatch.

(** The response and, for an ambiguous runner, the candidates it streams. *)
Record SubmitAnswer := mkSubmitAnswer {
  su_Status : SubmitStatus; su_TaskId : TaskID; su_ErrorMsg : string; su_Body : option (list RunnerCandidate) }.

Definition submit_refused (st : SubmitStatus) (msg : string) : SubmitAnswer := mkSubmitAnswer st zeroID msg None.

(** The readings of the clock of a creation and of a resume. *)
Record start_clock := mkStartClock { sk_created : Z; sk_stamp : Z; sk_wal : Z; sk_wal2 : Z }.

Definition handleSubmitResume (ck : start_clock) (r : Registry) (c : Conns) (cid : string) (req : SubmitRequest)
    (origin callerCaps : N) (s : Store) : Store * SubmitAnswer :=
  let q := sb_req req in
  let idHex := EncodeToString (rq_ResumeTaskId q) in
  if negb (resumeTargetAllowed c s cid (rq_ResumeExact q) idHex) then (s, submit_refused SubmitStatus_ResumeNotFound "")
  else match grantFor s (granter c s cid callerCaps) (startGrantRequest q) idHex with
  | Err e => (s, submit_refused SubmitStatus_ScopeNotPermitted (grant_error_text e))
  | Ok grant =>
      match Get idHex s with
      | None => (s, submit_refused SubmitStatus_ResumeNotFound "")
      | Some rec =>
          let exact := rq_ResumeExact q in
          let field := if exact then exactMismatch (exact_of (sb_Prompt req) TaskKind_Oneshot q) rec else "" in
          if negb (bool_decide (field = "")) then
            (s, submit_refused SubmitStatus_ResumeExactMismatch (exact_msg field))
          else
            let '(prompt, args) := if exact then (te_Prompt rec, te_ExtraArgs rec)
                                   else (sb_Prompt req, rq_ExtraArgs q) in
            let cands := Candidates conn_string (te_RepoPath rec) (rq_Selector q) r in
            match cands with
            | [] => (s, submit_refused (if pinned (rq_Selector q) then SubmitStatus_PinnedNotFound
                                        else SubmitStatus_NoRunner) "")
            | _ =>
                let resolved := if exact then te_AgentProfile rec
                                else if bool_decide (rq_AgentProfile q = "") then te_AgentProfile rec
                                else rq_AgentProfile q in
                let filtered := if negb (bool_decide (resolved = "")) then filterByProfile cands resolved else cands in
                match filtered with
                | [] => (s, submit_refused SubmitStatus_ProfileUnavailable (profileUnavailableMsg resolved cands))
                | _ =>
                    let cands := if exact && negb (pinned (rq_Selector q))
                                 then preferLastRunner filtered (te_AssignedTo rec) else filtered in
                    match cands with
                    | [bound] =>
                        match Resume (sk_wal ck) (sk_stamp ck) (sk_wal2 ck) idHex prompt args (rq_Selector q)
                                (conn_string (re_ID bound)) origin grant TaskKind_Oneshot resolved
                                (lookupPrincipal c cid) s with
                        | (s, Err ResumeErrNotFound) => (s, submit_refused SubmitStatus_ResumeNotFound "")
                        | (s, Err ResumeErrNotTerminal) => (s, submit_refused SubmitStatus_ResumeNotTerminal "")
                        | (s, Ok _) =>
                            ((SetResumeConversation idHex (rq_ResumeConversation q) s).1,
                             mkSubmitAnswer SubmitStatus_Ok (rq_ResumeTaskId q) "" None)
                        end
                    | _ =>
                        let combos := (λ c, (c, if bool_decide (resolved = "") then DefaultProfile c else resolved)) <$> cands in
                        (s, mkSubmitAnswer SubmitStatus_AmbiguousRunner zeroID ""
                              (Some (candidatesBody combos (te_RepoPath rec))))
                    end
                end
            end
      end
  end.

(** [newID]: the hex id [Create] draws. *)
Definition handleSubmit (ck : start_clock) (newID : string) (r : Registry) (c : Conns) (cid : string)
    (req : SubmitRequest) (origin : N) (creator : TaskID) (creatorCaps : N) (s : Store) : Store * SubmitAnswer :=
  let q := sb_req req in
  if negb (isZeroTaskID (rq_ResumeTaskId q)) then handleSubmitResume ck r c cid req origin creatorCaps s
  else if rq_ResumeExact q then
    (s, submit_refused SubmitStatus_ResumeExactMismatch (exact_msg "--resume (an exact resume names the task it restores)"))
  else match grantFor s (granter c s cid creatorCaps) (startGrantRequest q) "" with
  | Err e => (s, submit_refused SubmitStatus_ScopeNotPermitted (grant_error_text e))
  | Ok grant =>
      let repo := path_Clean (rq_RepoPath q) in
      let cands := Candidates conn_string repo (rq_Selector q) r in
      match cands with
      | [] => (s, submit_refused (if pinned (rq_Selector q) then SubmitStatus_PinnedNotFound
                                  else SubmitStatus_NoRunner) "")
      | _ =>
          let profile := rq_AgentProfile q in
          if negb (bool_decide (profile = "")) && bool_decide (filterByProfile cands profile = []) then
            (s, submit_refused SubmitStatus_ProfileUnavailable (profileUnavailableMsg profile cands))
          else match expandCombos cands profile (rq_Selector q) with
          | [(bound, resolved)] =>
              let s := Create newID (sk_created ck) (sk_stamp ck) (sk_wal ck) repo (sb_Prompt req) TaskKind_Oneshot
                         origin creator (conn_string (re_ID bound)) (rq_Selector q) (rq_ExtraArgs q) (gu_To grant)
                         resolved s in
              ((SetResumeConversation newID (rq_ResumeConversation q) s).1,
               mkSubmitAnswer SubmitStatus_Ok (taskIDFromHex newID) "" None)
          | combos =>
              (s, mkSubmitAnswer SubmitStatus_AmbiguousRunner zeroID "" (Some (candidatesBody combos repo)))
          end
      end
  end.

(** The dispatch case: [None] is the permission-denied answer. *)
Definition handle_submit (ck : start_clock) (newID : string) (r : Registry) (c : Conns) (cid : string)
    (req : SubmitRequest) (s : Store) : Store * option SubmitAnswer :=
  let caps := callerCaps c s cid in
  if negb (hasAnyCap caps (resumeRequestCap (rq_ResumeTaskId (sb_req req)) (rq_ResumeExact (sb_req req)))) then (s, None)
  else
    let '(s, a) := handleSubmit ck newID r c cid req (lookupClientKind c cid) (lookupPrincipal c cid) caps s in
    (s, Some a).

(** ** [open_interactive] *)

Inductive OpenInteractiveStatus :=
  | OpenInteractiveStatus_Ok | OpenInteractiveStatus_InternalError | OpenInteractiveStatus_NoRunnerForRepo
  | OpenInteractiveStatus_PinnedNotFound | OpenInteractiveStatus_AmbiguousRunner | OpenInteractiveStatus_RunnerBusy
  | OpenInteractiveStatus_ResumeNotFound | OpenInteractiveStatus_ResumeNotTerminal
  | OpenInteractiveStatus_ProfileUnavailable | OpenInteractiveStatus_ScopeNotPermitted
  | OpenInteractiveStatus_DetachRequired | OpenInteractiveStatus_ResumeExactMismatch.

Record OpenAnswer := mkOpenAnswer {
  op_Status : OpenInteractiveStatus; op_TaskId : TaskID; op_ErrorMsg : string; op_Body : option (list RunnerCandidate) }.

Definition open_refused (st : OpenInteractiveStatus) (msg : string) : OpenAnswer := mkOpenAnswer st zeroID msg None.

(** The repo, the recorded entry of an exact resume and the arguments to run with,
    or the refusal. *)
Definition open_target (c : Conns) (cid : string) (req : OpenInteractiveRequest) (s : Store)
    : result OpenAnswer (string * option TaskEntry * list string) :=
  let q := oi_req req in
  let idHex := EncodeToString (rq_ResumeTaskId q) in
  if isZeroTaskID (rq_ResumeTaskId q) then Ok (path_Clean (rq_RepoPath q), None, rq_ExtraArgs q)
  else if negb (resumeTargetAllowed c s cid (rq_ResumeExact q) idHex)
  then Err (open_refused OpenInteractiveStatus_ResumeNotFound "")
  else match PeekRepo idHex s with
  | None => Err (open_refused OpenInteractiveStatus_ResumeNotFound "")
  | Some (repo, _) =>
      if rq_ResumeExact q then
        match Get idHex s with
        | None => Err (open_refused OpenInteractiveStatus_ResumeNotFound "")
        | Some rec =>
            let field := exactMismatch (exact_of "" (interactiveKind req) q) rec in
            if negb (bool_decide (field = "")) then
              Err (open_refused OpenInteractiveStatus_ResumeExactMismatch (exact_msg field))
            else Ok (repo, Some rec, te_ExtraArgs rec)
        end
      else Ok (repo, None, rq_ExtraArgs q)
  end.

(** The candidates once an exact resume has preferred its last runner. *)
Definition open_cands (q : start_request) (exactRec : option TaskEntry) (cands : list RunnerEntry) : list RunnerEntry :=
  match exactRec, rq_Selector q with
  | Some rec, SelAny =>
      let pool := if bool_decide (te_AgentProfile rec = "") then cands else filterByProfile cands (te_AgentProfile rec) in
      let last := preferLastRunner pool (te_AssignedTo rec) in
      if (length last =? 1)%nat && (1 <? length pool)%nat then last else cands
  | _, _ => cands
  end.

Definition open_profile (q : start_request) (idHex : string) (exactRec : option TaskEntry) (s : Store) : string :=
  match exactRec with
  | Some rec => te_AgentProfile rec
  | None =>
      if bool_decide (rq_AgentProfile q = "") && negb (isZeroTaskID (rq_ResumeTaskId q)) && pinned (rq_Selector q)
      then match Get idHex s with Some existing => te_AgentProfile existing | None => rq_AgentProfile q end
      else rq_AgentProfile q
  end.

Definition resume_refusal (e : ResumeError) : OpenInteractiveStatus :=
  match e with
  | ResumeErrNotFound => OpenInteractiveStatus_ResumeNotFound
  | ResumeErrNotTerminal => OpenInteractiveStatus_ResumeNotTerminal
  end.

(** The entry the open runs under: a new one or the resumed one. *)
Definition open_entry (ck : start_clock) (newID : string) (c : Conns) (cid : string) (req : OpenInteractiveRequest)
    (origin : N) (creator : TaskID) (grant : GrantUpdate) (repo : string) (args : list string) (runner : RunnerEntry)
    (resolved : string) (s : Store) : Store * result ResumeError string :=
  let q := oi_req req in
  if isZeroTaskID (rq_ResumeTaskId q) then
    let s := Create newID (sk_created ck) (sk_stamp ck) (sk_wal ck) repo "" (interactiveKind req) origin creator
               (conn_string (re_ID runner)) (rq_Selector q) (rq_ExtraArgs q) (gu_To grant) resolved s in
    ((SetResumeConversation newID (rq_ResumeConversation q) s).1, Ok newID)
  else
    let idHex := EncodeToString (rq_ResumeTaskId q) in
    match Resume (sk_wal ck) (sk_stamp ck) (sk_wal2 ck) idHex "" args (rq_Selector q) (conn_string (re_ID runner)) origin
            grant (interactiveKind req) resolved (lookupPrincipal c cid) s with
    | (s, Err e) => (s, Err e)
    | (s, Ok _) => ((SetResumeConversation idHex (rq_ResumeConversation q) s).1, Ok idHex)
    end.

(** [reason] is what fails in [open_on_runner], if anything does. *)
Definition handleOpenInteractive (en : send_env) (rck : clock) (reason : string) (ck : start_clock) (newID : string)
    (c : Conns) (cid : string) (req : OpenInteractiveRequest) (origin : N) (creator : TaskID) (creatorCaps : N)
    (sv : Server) : Server * OpenAnswer :=
  let q := oi_req req in
  let s := sv_tasks sv in
  let idHex := if isZeroTaskID (rq_ResumeTaskId q) then "" else EncodeToString (rq_ResumeTaskId q) in
  match grantFor s (granter c s cid creatorCaps) (startGrantRequest q) idHex with
  | Err e => (sv, open_refused OpenInteractiveStatus_ScopeNotPermitted (grant_error_text e))
  | Ok grant =>
      if rq_ResumeExact q && isZeroTaskID (rq_ResumeTaskId q) then
        (sv, open_refused OpenInteractiveStatus_ResumeExactMismatch "")
      else match open_target c cid req s with
      | Err a => (sv, a)
      | Ok (repo, exactRec, args) =>
          if negb (oi_Detached req) && negb (controlSeatAllowed c s cid idHex) then
            (sv, open_refused OpenInteractiveStatus_DetachRequired "")
          else match Candidates conn_string repo (rq_Selector q) (sv_reg sv) with
          | [] => (sv, open_refused (if pinned (rq_Selector q) then OpenInteractiveStatus_PinnedNotFound
                                     else OpenInteractiveStatus_NoRunnerForRepo) "")
          | cands =>
              match expandCombos (open_cands q exactRec cands) (open_profile q idHex exactRec s) (rq_Selector q) with
              | [] => (sv, open_refused OpenInteractiveStatus_ProfileUnavailable "")
              | [(runner, resolved)] =>
                  if (re_MaxTasks runner <=? load runner)%nat then (sv, open_refused OpenInteractiveStatus_RunnerBusy "")
                  else match open_entry ck newID c cid req origin creator grant repo args runner resolved s with
                  | (s, Err e) => (sv{{ sv_tasks := s }}, open_refused (resume_refusal e) "")
                  | (s, Ok taskID) =>
                      match open_on_runner en rck runner taskID resolved (rq_ResumeConversation q) (oi_Detached req)
                              reason (sv{{ sv_tasks := s }}) with
                      | (sv, true) => (sv, mkOpenAnswer OpenInteractiveStatus_Ok (taskIDFromHex taskID) "" None)
                      | (sv, false) => (sv, open_refused OpenInteractiveStatus_InternalError "")
                      end
                  end
              | combos => (sv, mkOpenAnswer OpenInteractiveStatus_AmbiguousRunner zeroID "" (Some (candidatesBody combos repo)))
              end
          end
      end
  end.

Definition handle_open (en : send_env) (rck : clock) (reason : string) (ck : start_clock) (newID : string) (c : Conns)
    (cid : string) (req : OpenInteractiveRequest) (sv : Server) : Server * option OpenAnswer :=
  let q := oi_req req in
  let caps := callerCaps c (sv_tasks sv) cid in
  if negb (hasAnyCap caps (resumeRequestCap (rq_ResumeTaskId q) (rq_ResumeExact q))) then (sv, None)
  else if negb (oi_Detached req) && negb (hasAnyCap caps (AttachModeCap AttachMode_Control)) then (sv, None)
  else
    let '(sv, a) := handleOpenInteractive en rck reason ck newID c cid req (lookupClientKind c cid)
                      (lookupPrincipal c cid) caps sv in
    (sv, Some a).
End start.

(** ** The tree a start adds to *)

(** What the tree and the gates read of an entry. *)
Definition skel (e : TaskEntry) : string * TaskID * Grant := (te_ID e, te_CreatorTaskID e, TaskEntry_Grant e).

Definition same_skel (s s' : Store) : Prop :=
  st_order s' = st_order s ∧ ∀ id, skel <$> st_tasks s' !! id = skel <$> st_tasks s !! id.

#[export] Instance same_skel_po : PreOrder same_skel.
Proof.
  split; [by split|]. intros s1 s2 s3 [O1 H1] [O2 H2]. split; [congruence|]. intros id. by rewrite H2.
Qed.

Lemma put_skel id e e' s : st_tasks s !! id = Some e → skel e' = skel e → same_skel s (put id e' s).
Proof.
  intros He Hsk. split; [done|]. intros i. rewrite put_lookup. case_decide as Hi; [|done].
  subst i. rewrite He. cbn [fmap option_fmap option_map]. by rewrite Hsk.
Qed.

Lemma wal_skel t ev s s' : same_skel s s' → same_skel s (wal_write t ev s').
Proof. intros H. etrans; [exact H|]. split; [apply wal_write_order|]. intros id. by rewrite wal_write_tasks. Qed.

Lemma call_skel h s s' : same_skel s s' → same_skel s (call h s').
Proof. intros H. etrans; [exact H|]. split; [apply call_keeps|]. intros id. by rewrite (proj2 (call_keeps _ _)). Qed.

#[export] Hint Resolve wal_skel call_skel put_skel : harness.

Lemma SetResumeConversation_skel id b s : same_skel s (SetResumeConversation id b s).1.
Proof. unfold SetResumeConversation. destruct (st_tasks s !! id) eqn:E; cbn [fst]; [by eapply put_skel|done]. Qed.

Lemma SetResumeConversation_tasks id b s m e :
  st_tasks s = <[id := e]> m →
  st_tasks (SetResumeConversation id b s).1 = <[id := e{{ te_ResumeConversation := b }}]> m ∧
  st_order (SetResumeConversation id b s).1 = st_order s.
Proof.
  intros H. unfold SetResumeConversation. rewrite H, lookup_insert_eq. cbn [fst].
  change (<[id := e{{ te_ResumeConversation := b }}]> (st_tasks s) = <[id := e{{ te_ResumeConversation := b }}]> m ∧ st_order s = st_order s).
  rewrite H. split; [apply insert_insert_eq|done].
Qed.

Lemma Assign_skel now t id runner wt sk s : same_skel s (Assign now t id runner wt sk s).
Proof.
  unfold Assign. destruct (st_tasks s !! id) as [e|] eqn:E; [|done]. destruct (negb _).
  - by apply call_skel, wal_skel, (put_skel _ e).
  - by apply (put_skel _ e).
Qed.

Lemma SetDetached_skel now id s : same_skel s (SetDetached now id s).1.
Proof.
  unfold SetDetached. destruct (st_tasks s !! id) as [e|] eqn:E; [|done]. destruct (negb _); [done|]. by apply (put_skel _ e).
Qed.

Lemma index_child_kids l m a b :
  b ∈ kids (foldl index_child m l) a ↔
    b ∈ kids m a ∨ ∃ e, e ∈ l ∧ te_ID e = b ∧ te_CreatorTaskID e ≠ zeroID ∧ EncodeToString (te_CreatorTaskID e) = a.
Proof.
  revert m. induction l as [|e l IH]; intros m; cbn [foldl].
  { split; [by left|]. intros [?|(? & ?%not_elem_of_nil & _)]; done. }
  rewrite IH. setoid_rewrite elem_of_cons. unfold index_child.
  destruct (bool_decide_reflect (te_CreatorTaskID e = zeroID)) as [Hz|Hz]; [naive_solver|].
  destruct (decide (a = EncodeToString (te_CreatorTaskID e))) as [->|Ha].
  - assert (∀ v, kids (<[EncodeToString (te_CreatorTaskID e) := v]> m) (EncodeToString (te_CreatorTaskID e)) = v) as ->
      by (intros v; unfold kids; by rewrite lookup_insert_eq).
    rewrite elem_of_app, list_elem_of_singleton. naive_solver.
  - assert (∀ v, kids (<[EncodeToString (te_CreatorTaskID e) := v]> m) a = kids m a) as ->
      by (intros v; unfold kids; by rewrite lookup_insert_ne).
    naive_solver.
Qed.

Lemma childIndexOf_kids s a b :
  b ∈ kids (childIndexOf s) a ↔
    ∃ e, e ∈ listed s ∧ te_ID e = b ∧ te_CreatorTaskID e ≠ zeroID ∧ EncodeToString (te_CreatorTaskID e) = a.
Proof.
  unfold childIndexOf. rewrite index_child_kids, List_0_listed. split; [|by right].
  intros [H|?]; [|done]. by apply not_elem_of_nil in H.
Qed.

Lemma same_skel_listed s s' : same_skel s s' → skel <$> listed s' = skel <$> listed s.
Proof.
  intros [Ho Ht]. unfold listed. rewrite Ho. clear Ho. induction (st_order s) as [|id l IH]; [done|]. cbn [omap list_omap].
  specialize (Ht id). destruct (st_tasks s' !! id), (st_tasks s !! id); try done.
  apply (inj Some) in Ht. rewrite !fmap_cons. by rewrite IH, Ht.
Qed.

Lemma same_skel_index s s' : same_skel s s' → childIndexOf s' = childIndexOf s.
Proof.
  intros H%same_skel_listed. unfold childIndexOf. rewrite (List_0_listed s), (List_0_listed s').
  revert H. generalize (listed s), (listed s'), (∅ : gmap string (list string)).
  intros l l' m H. revert l m H. induction l' as [|e' l' IH]; intros l m H.
  - symmetry in H. by apply fmap_nil_inv in H as ->.
  - symmetry in H. apply fmap_cons_inv in H as (e & l0 & He & Hl & ->). injection He as H1 H2 _ _ _ _. cbn [foldl].
    rewrite <-(IH l0) by done. f_equal. unfold index_child. by rewrite H1, H2.
Qed.

(** ** What a creation adds *)

Lemma Create_put id t1 t2 t3 repo prompt kind origin creator bound sel args g profile s :
  let s' := Create id t1 t2 t3 repo prompt kind origin creator bound sel args g profile s in
  ∃ e, st_tasks s' = <[id := e]> (st_tasks s) ∧ st_order s' = st_order s ++ [id] ∧
    skel e = (id, creator, g) ∧ te_Status e = Queued ∧ te_RepoPath e = repo ∧ te_Prompt e = prompt ∧
    te_Kind e = kind ∧ te_AgentProfile e = profile ∧ te_BoundRunnerID e = bound ∧ te_ExtraArgs e = args ∧
    te_OriginKind e = origin ∧ te_Selector e = sel.
Proof.
  intros s'. unfold s', Create. eexists. rewrite (proj1 (call_keeps _ _)), (proj2 (call_keeps _ _)), wal_write_tasks, wal_write_order.
  split; [reflexivity|]. split; [done|]. destruct g. destruct (bool_decide _); by split_and!.
Qed.

Section added.
Context (s s' : Store) (id : string) (p e : TaskEntry).
Hypothesis Hfresh : st_tasks s !! id = None.
Hypothesis Hkids : kids (childIndexOf s) id = [].
Hypothesis Hp : p ∈ listed s.
Hypothesis Hpid : st_tasks s !! te_ID p = Some p.
Hypothesis Htasks : st_tasks s' = <[id := e]> (st_tasks s).
Hypothesis Horder : st_order s' = st_order s ++ [id].
Hypothesis He : te_ID e = id ∧ te_CreatorTaskID e ≠ zeroID ∧ EncodeToString (te_CreatorTaskID e) = te_ID p.

Lemma added_listed x : x ∈ listed s' ↔ x ∈ listed s ∨ x = e.
Proof.
  unfold listed. rewrite Horder, omap_app, elem_of_app, Htasks. cbn [omap list_omap]. rewrite lookup_insert_eq, list_elem_of_singleton.
  rewrite !list_elem_of_omap. split.
  - intros [(i & Hi & Hx)| ->]; [|by right]. apply lookup_insert_Some in Hx as [[_ <-]|[_ Hx]]; [by right|]. left. eauto.
  - intros [(i & Hi & Hx)| ->]; [|by right]. left. exists i. split; [done|]. rewrite lookup_insert_ne; [done|]. congruence.
Qed.

Lemma added_kids a b : b ∈ kids (childIndexOf s') a ↔ b ∈ kids (childIndexOf s) a ∨ (a = te_ID p ∧ b = id).
Proof.
  rewrite !childIndexOf_kids. setoid_rewrite added_listed. destruct He as (E1 & E2 & E3). split.
  - intros (x & [Hx| ->] & <- & Hz & <-); [left; eauto|]. right. done.
  - intros [(x & Hx & ?)|[-> ->]]; [exists x; tauto|]. exists e. tauto.
Qed.

Lemma added_index_le : index_le (childIndexOf s) (childIndexOf s').
Proof. intros a b Hb. apply added_kids. by left. Qed.

Lemma added_below : below (childIndexOf s') (te_ID p) id.
Proof.
  assert (te_ID p ≠ id) as Hne by congruence. split.
  - apply rtc_once, added_kids. by right.
  - intros Hd. apply rtc_inv in Hd as [Hd|(z & Hz & _)]; [done|]. apply added_kids in Hz as [Hz|[Hz _]]; [|done].
    rewrite Hkids in Hz. by apply not_elem_of_nil in Hz.
Qed.
End added.

(** [newID] is a task of [s'] created under [p], and at every later state that has
    kept the two grants and the tree between them it may act on nothing but itself
    that [p] may not, and see nothing but itself that [p] does not. *)
Definition handed_down (s s' : Store) (p : TaskEntry) (newID : string) : Prop :=
  ∃ e, Get newID s' = Some e ∧ te_ID e = newID ∧
    (∀ bit, single bit → has (te_Capabilities e) bit = true → has (te_Capabilities p) bit = true ∧ has (te_DelegateCaps p) bit = true) ∧
    index_le (childIndexOf s) (childIndexOf s') ∧ below (childIndexOf s') (te_ID p) newID ∧
    ∀ c2 s2 cid cid' p2 e2,
      agent_of c2 s2 cid p2 → agent_of c2 s2 cid' e2 → skel p2 = skel p → skel e2 = skel e →
      index_le (childIndexOf s) (childIndexOf s2) → below (childIndexOf s2) (te_ID p) newID →
      (∀ want x, want ∈ each_cap → authorize c2 s2 cid' want x = true → x = newID ∨ authorize c2 s2 cid want x = true) ∧
      (∀ x, in_set (visibleToCaller c2 s2 cid') x = true → x = newID ∨ in_set (visibleToCaller c2 s2 cid) x = true).

Lemma agent_visible c s cid e :
  agent_of c s cid e → visibleToCaller c s cid = VisibleSet (te_ID e) (te_Scope e) (childIndexOf s).
Proof.
  intros (Hz & Hg & Hid). unfold visibleToCaller, scopeSet, scopeSetWith, visibilitySet.
  rewrite bool_decide_eq_false_2, Hg, Hid by done. done.
Qed.

(** The grant of a fresh start by an agent: its capabilities and its scope. *)
Lemma grantFor_fresh c s cid p r u :
  agent_of c s cid p → grantFor s (granter c s cid (te_Capabilities p)) r "" = Ok u →
  g_Caps (gu_To u) = te_Capabilities p .&. te_DelegateCaps p .&. gq_Caps r ∧
  ChildScope (Some (NewGranter (te_ID p) (TaskEntry_Grant p) (childIndexOf s))) (gq_Scope r) (g_Caps (gu_To u)) =
    Ok (g_Scope (gu_To u)).
Proof.
  intros (Hz & Hg & Hid). unfold granter. rewrite bool_decide_eq_false_2, Hg, <-Hid by done.
  unfold grantFor. rewrite bool_decide_eq_true_2 by done. cbn [orb]. fold (TaskEntry_Grant p).
  set (g := NewGranter _ _ _). destruct (ChildScope (Some g) (gq_Scope r) (ChildCaps (Some g) (gq_Caps r))) as [sc|] eqn:Es; [|done].
  destruct (ChildBound _ _ _ _) as [dc [ds|]]; [|done]. intros [= <-]. cbn [gu_To g_Caps g_Scope value_of]. by split.
Qed.

Lemma agent_listed c s cid p : forest s → agent_of c s cid p → p ∈ listed s ∧ st_tasks s !! te_ID p = Some p.
Proof.
  intros Hf (_ & Hg & Hid). unfold Get in Hg. rewrite <-Hid in Hg. split; [|done].
  apply list_elem_of_omap. exists (te_ID p). split; [|done]. by apply (fo_listed _ Hf).
Qed.

(** A creation with that grant hands down. *)
Lemma create_handed_down c s s1 s' cid p r u newID e :
  agent_of c s cid p → forest s → Validate (te_Scope p) = None → scope_known (te_Scope p) →
  st_tasks s !! newID = None → kids (childIndexOf s) newID = [] →
  grantFor s (granter c s cid (te_Capabilities p)) r "" = Ok u →
  st_tasks s1 = <[newID := e]> (st_tasks s) → st_order s1 = st_order s ++ [newID] →
  skel e = (newID, lookupPrincipal c cid, gu_To u) → same_skel s1 s' →
  handed_down s s' p newID.
Proof.
  intros Hag Hf Hval Hkn Hfr Hk Hgr Ht Ho Hsk Hss. apply (grantFor_fresh _ _ _ _ _ _ Hag) in Hgr as [Hcaps Hscope].
  destruct (agent_listed _ _ _ _ Hf Hag) as [Hl Hp]. injection Hsk as Hid Hcr Hg.
  assert (te_Capabilities e = g_Caps (gu_To u)) as Hc1 by (by rewrite <-Hg).
  assert (te_Scope e = g_Scope (gu_To u)) as Hc2 by (by rewrite <-Hg).
  assert (te_ID e = newID ∧ te_CreatorTaskID e ≠ zeroID ∧ EncodeToString (te_CreatorTaskID e) = te_ID p) as He.
  { rewrite Hcr. destruct Hag as (? & ? & ->). done. }
  assert (skel <$> st_tasks s' !! newID = Some (skel e)) as Hs' by (rewrite (proj2 Hss), Ht, lookup_insert_eq; done).
  destruct (st_tasks s' !! newID) as [e'|] eqn:Ee'; [|done]. apply (inj Some) in Hs'. pose proof Hs' as [= I1 I2 I3 I4 I5 I6].
  exists e'. split; [done|]. rewrite (same_skel_index _ _ Hss). split; [congruence|]. split.
  { intros bit Hb. rewrite I3, Hc1, Hcaps, !has_land by done. destruct (has _ bit), (has (te_DelegateCaps p) bit); done. }
  split; [by eapply added_index_le|]. split; [by eapply added_below|].
  intros c2 s2 cidp cidc p2 e2 Hp2 He2 Sp Se Hle Hb. injection Sp as P1 P2 P3 P4 P5 P6. rewrite Hs' in Se. injection Se as E1 E2 E3 E4 E5 E6.
  assert (Confined (childIndexOf s2) newID (g_Scope (gu_To u)) (g_Caps (gu_To u)) (te_ID p) (te_Scope p)) as [Hacts Hsees]
    by (by eapply (ChildScope_own (te_ID p) (TaskEntry_Grant p))).
  split.
  - intros want x Hw. rewrite (agent_authorize _ _ _ _ _ _ He2), (agent_authorize _ _ _ _ _ _ Hp2) by auto with harness.
    rewrite E1, E3, E4, P1, P3, P4, Hid, Hc1, Hc2. intros [Hh Hin]%andb_prop.
    assert (has (te_Capabilities p) want = true) as ->.
    { revert Hh. rewrite Hcaps, !has_land by auto with harness. by destruct (has (te_Capabilities p) want). }
    apply (Hacts want x Hw); [|done]. apply ExercisedBits_incl; [by auto with harness|done].
  - intros x. rewrite (agent_visible _ _ _ _ He2), (agent_visible _ _ _ _ Hp2), E1, E4, P1, P4, Hid, Hc2. apply Hsees.
Qed.

(** ** Fresh starts *)

Section outcomes.
Context (conn_string : ConnectionID → string).

(** A fresh submit by cases: refused, or one combo left and its task created. *)
Lemma handleSubmit_fresh ck newID r c cid req origin creator caps s s' a :
  rq_ResumeTaskId (sb_req req) = zeroID → rq_ResumeExact (sb_req req) = false →
  handleSubmit conn_string ck newID r c cid req origin creator caps s = (s', a) →
  let q := sb_req req in
  let repo := path_Clean (rq_RepoPath q) in
  let grant := grantFor s (granter c s cid caps) (startGrantRequest q) "" in
  let combos := expandCombos (Candidates conn_string repo (rq_Selector q) r) (rq_AgentProfile q) (rq_Selector q) in
  (s' = s ∧ su_Status a ≠ SubmitStatus_Ok ∧ (∀ u bound profile, grant = Ok u → combos ≠ [(bound, profile)])) ∨
  (∃ u bound profile, su_Status a = SubmitStatus_Ok ∧ su_TaskId a = taskIDFromHex newID ∧ grant = Ok u ∧ combos = [(bound, profile)] ∧
     s' = (SetResumeConversation newID (rq_ResumeConversation q)
             (Create newID (sk_created ck) (sk_stamp ck) (sk_wal ck) repo (sb_Prompt req) TaskKind_Oneshot origin creator
                (conn_string (re_ID bound)) (rq_Selector q) (rq_ExtraArgs q) (gu_To u) profile s)).1).
Proof.
  intros Hz Hx H q repo grant combos. unfold handleSubmit in H. fold q in H, Hz, Hx. rewrite Hz in H. unfold isZeroTaskID in H.
  rewrite bool_decide_eq_true_2, Hx in H by done. cbn [negb] in H. fold grant repo in H.
  destruct grant as [u|err] eqn:Eg; [|injection H as <- <-; left; split_and!; try done].
  subst combos. destruct (Candidates conn_string repo (rq_Selector q) r) as [|e0 cands] eqn:Ec.
  { injection H as <- <-. left. split_and!; [done|by destruct (pinned _)|]. intros ? ? ? _.
    unfold expandCombos. by repeat destruct (negb _). }
  set (cs := e0 :: cands) in *.
  destruct (negb (bool_decide (rq_AgentProfile q = "")) && bool_decide (filterByProfile cs (rq_AgentProfile q) = [])) eqn:Ep.
  { injection H as <- <-. left. split_and!; [done|done|]. intros ? ? ? _. apply andb_prop in Ep as [E1 E2].
    unfold expandCombos. rewrite E1. apply bool_decide_eq_true in E2. by rewrite E2. }
  destruct (expandCombos cs (rq_AgentProfile q) (rq_Selector q)) as [|[bound profile] [|]].
  - injection H as <- <-. left. by split_and!.
  - injection H as <- <-. right. by exists u, bound, profile.
  - injection H as <- <-. left. by split_and!.
Qed.

Lemma handleSubmit_started ck newID r c cid req origin creator caps s s' a :
  rq_ResumeTaskId (sb_req req) = zeroID → su_Status a = SubmitStatus_Ok →
  handleSubmit conn_string ck newID r c cid req origin creator caps s = (s', a) →
  ∃ u s1 e, grantFor s (granter c s cid caps) (startGrantRequest (sb_req req)) "" = Ok u ∧
    st_tasks s1 = <[newID := e]> (st_tasks s) ∧ st_order s1 = st_order s ++ [newID] ∧
    skel e = (newID, creator, gu_To u) ∧ same_skel s1 s'.
Proof.
  intros Hz Hok H. destruct (rq_ResumeExact (sb_req req)) eqn:Hx.
  { unfold handleSubmit in H. rewrite Hz in H. unfold isZeroTaskID in H. rewrite bool_decide_eq_true_2, Hx in H by done.
    cbn [negb] in H. injection H as <- <-. done. }
  destruct (handleSubmit_fresh _ _ _ _ _ _ _ _ _ _ _ _ Hz Hx H) as [(_ & Hn & _)|(u & bound & profile & _ & _ & Hg & _ & ->)]; [done|].
  destruct (Create_put newID (sk_created ck) (sk_stamp ck) (sk_wal ck) (path_Clean (rq_RepoPath (sb_req req))) (sb_Prompt req)
    TaskKind_Oneshot origin creator (conn_string (re_ID bound)) (rq_Selector (sb_req req)) (rq_ExtraArgs (sb_req req)) (gu_To u)
    profile s) as (e & Ht & Ho & Hs & _).
  eexists u, _, e. split_and!; [done|done|done|done|]. apply SetResumeConversation_skel.
Qed.

Lemma open_on_runner_skel en ck runner id resolved resume detached reason sv sv' :
  open_on_runner en ck runner id resolved resume detached reason sv = (sv', true) →
  same_skel (sv_tasks sv) (sv_tasks sv').
Proof.
  unfold open_on_runner. destruct (se_ticket en) as [tk|]; [|done].
  destruct (se_body en), (re_Conn runner), (se_send en); cbn [negb]; try done.
  destruct detached; intros [= <-].
  - etrans; [|apply SetDetached_skel]. apply Assign_skel.
  - apply Assign_skel.
Qed.

Lemma handleOpen_started en rck reason ck newID c cid req origin creator caps sv sv' a :
  rq_ResumeTaskId (oi_req req) = zeroID → op_Status a = OpenInteractiveStatus_Ok →
  handleOpenInteractive conn_string en rck reason ck newID c cid req origin creator caps sv = (sv', a) →
  ∃ u s1 e, grantFor (sv_tasks sv) (granter c (sv_tasks sv) cid caps) (startGrantRequest (oi_req req)) "" = Ok u ∧
    st_tasks s1 = <[newID := e]> (st_tasks (sv_tasks sv)) ∧ st_order s1 = st_order (sv_tasks sv) ++ [newID] ∧
    skel e = (newID, creator, gu_To u) ∧ same_skel s1 (sv_tasks sv').
Proof.
  intros Hz Hok H. unfold handleOpenInteractive, open_target, open_entry, isZeroTaskID in H. rewrite Hz in H.
  rewrite !bool_decide_eq_true_2 in H by done.
  destruct (grantFor _ _ _ "") as [u|] eqn:Eg; [|injection H as <- <-; done].
  destruct (rq_ResumeExact _ && true); [injection H as <- <-; done|].
  destruct (negb _ && negb _); [injection H as <- <-; done|].
  destruct (Candidates _ _ _ _) as [|e0 cands] eqn:Ec; [destruct (pinned _); injection H as <- <-; done|].
  destruct (expandCombos _ _ _) as [|[runner resolved] [|]]; [injection H as <- <-; done| |injection H as <- <-; done].
  destruct (_ <=? _)%nat; [injection H as <- <-; done|].
  match type of H with context [open_on_runner _ _ _ _ _ _ _ _ ?x] => set (sv1 := x) in H end.
  destruct (open_on_runner _ _ _ _ _ _ _ _ sv1) as [sv2 [|]] eqn:Eo; [|injection H as <- <-; done].
  injection H as <- <-. apply open_on_runner_skel in Eo.
  destruct (Create_put newID (sk_created ck) (sk_stamp ck) (sk_wal ck) (path_Clean (rq_RepoPath (oi_req req))) ""
    (interactiveKind req) origin creator (conn_string (re_ID runner)) (rq_Selector (oi_req req)) (rq_ExtraArgs (oi_req req)) (gu_To u)
    resolved (sv_tasks sv)) as (e & Ht & Ho & Hs & _).
  eexists u, _, e. split_and!; [done|done|done|done|]. etrans; [apply SetResumeConversation_skel|exact Eo].
Qed.

(** ** Exact resumes *)

(** Of a resume without grant fields: the store it leaves. *)
Lemma Resume_plain t1 t2 t3 id prompt args sel bound k u nk profile resumer s s' e :
  GrantUpdate_Any u = false → Resume t1 t2 t3 id prompt args sel bound k u nk profile resumer s = (s', Ok e) →
  ∃ rec, st_tasks s !! id = Some rec ∧ terminal (te_Status rec) = true ∧ st_tasks s' = <[id := e]> (st_tasks s) ∧
    te_Status e = Queued ∧ te_Prompt e = prompt ∧ te_ExtraArgs e = args ∧ te_Kind e = nk ∧ te_AgentProfile e = profile ∧
    te_BoundRunnerID e = bound ∧ te_RepoPath e = te_RepoPath rec ∧ skel e = skel rec ∧
    te_AuthorityActor e = te_AuthorityActor rec.
Proof.
  intros Hu. unfold Resume. destruct (st_tasks s !! id) as [rec|]; [|done]. destruct (terminal (te_Status rec)) eqn:Et; [|done].
  cbn [negb]. rewrite Hu. intros [= <- <-]. exists rec. rewrite (proj2 (call_keeps _ _)), wal_write_tasks. by split_and!.
Qed.

Lemma Resume_err t1 t2 t3 id prompt args sel bound k u nk profile resumer s s' e :
  Resume t1 t2 t3 id prompt args sel bound k u nk profile resumer s = (s', Err e) → s' = s.
Proof.
  unfold Resume. destruct (st_tasks s !! id) as [rec|]; [|by intros [= <- _]].
  destruct (negb _); [by intros [= <- _]|]. by destruct (GrantUpdate_Any u).
Qed.

Lemma exactMismatch_none prompt kind q rec :
  exactMismatch (exact_of prompt kind q) rec = "" →
  kind = te_Kind rec ∧ rq_ResumeCapsOverride q = false ∧ rq_ScopePresent q = false ∧
  rq_DelegateCapsPresent q = false ∧ rq_DelegateScopePresent q = false.
Proof.
  unfold exactMismatch, exact_of. cbn [ef_Prompt ef_ExtraArgs ef_AgentProfile ef_CapsOverride ef_ScopePresent
    ef_DelegateCapsPresent ef_DelegateScopePresent ef_Kind].
  destruct (bool_decide (prompt = "")); [|done]. destruct (bool_decide (rq_ExtraArgs q = [])); [|done].
  destruct (bool_decide (rq_AgentProfile q = "")); [|done]. cbn [negb].
  destruct (rq_ResumeCapsOverride q), (rq_ScopePresent q), (rq_DelegateCapsPresent q), (rq_DelegateScopePresent q); try done.
  destruct (N.eqb_spec kind (te_Kind rec)); [|done]. intros _. by split_and!.
Qed.

Lemma grantFor_untouched s g q idHex u :
  idHex ≠ "" → rq_ResumeCapsOverride q = false → rq_ScopePresent q = false →
  rq_DelegateCapsPresent q = false → rq_DelegateScopePresent q = false →
  grantFor s g (startGrantRequest q) idHex = Ok u → GrantUpdate_Any u = false.
Proof.
  intros Hid H1 H2 H3 H4. unfold grantFor, startGrantRequest. rewrite bool_decide_eq_false_2 by done.
  cbn [gq_CapsPresent gq_ScopePresent gq_DelegateCapsPresent gq_DelegateScopePresent orb]. rewrite H1, H2, H3, H4.
  destruct (ChildScope _ _ _); destruct (ChildBound _ _ _ _) as [? [?|]]; by intros [= <-].
Qed.

Lemma preferLastRunner_single l last b :
  preferLastRunner l last = [b] → b ∈ l ∧ (last ≠ zeroID → (∃ c, c ∈ l ∧ re_Identity c = last) → re_Identity b = last).
Proof.
  unfold preferLastRunner. case_bool_decide as Hz; [intros ->; split; [by left|done]|].
  destruct (find_first _ l) as [x|] eqn:Ef.
  - intros [= <-]. apply find_first_Some in Ef as [Hin Hx]. apply bool_decide_eq_true in Hx. by split.
  - intros ->. split; [by left|]. intros _ (c & Hc & Hi). 
    by apply (proj1 (find_first_None _ _) Ef), bool_decide_eq_false in Hc.
Qed.

(** The runners a recorded profile leaves, and the one an unpinned resume prefers. *)
Definition offering (cands : list RunnerEntry) (profile : string) : list RunnerEntry :=
  if negb (bool_decide (profile = "")) then filterByProfile cands profile else cands.

Lemma elem_of_offering cands profile b :
  b ∈ offering cands profile ↔ b ∈ cands ∧ (profile ≠ "" → HasProfile profile b = true).
Proof.
  unfold offering, filterByProfile. case_bool_decide; cbn [negb]; [tauto|]. rewrite list_elem_of_filter. tauto.
Qed.

Lemma exact_route cands rec sel bound :
  (if negb (pinned sel) then preferLastRunner (offering cands (te_AgentProfile rec)) (te_AssignedTo rec)
   else offering cands (te_AgentProfile rec)) = [bound] →
  let offers b := b ∈ cands ∧ (te_AgentProfile rec ≠ "" → HasProfile (te_AgentProfile rec) b = true) in
  offers bound ∧
  (sel = SelAny → te_AssignedTo rec ≠ zeroID → (∃ b, offers b ∧ re_Identity b = te_AssignedTo rec) →
     re_Identity bound = te_AssignedTo rec).
Proof.
  intros H offers. unfold offers. setoid_rewrite <-elem_of_offering. destruct sel; cbn [pinned negb] in H;
    [|by rewrite H; split; [left|]..].
  apply preferLastRunner_single in H as [H1 H2]. split; [done|]. intros _. apply H2.
Qed.

(** ** The choices of a start *)

(** A runner and a profile a fresh start could go to. *)
Definition viable (r : Registry) (q : start_request) (repo : string) (e : RunnerEntry) (p : string) : Prop :=
  e ∈ Candidates conn_string repo (rq_Selector q) r ∧
  if bool_decide (rq_AgentProfile q = "")
  then if pinned (rq_Selector q) then p = DefaultProfile e else p ∈ advertisedProfiles e
  else p = rq_AgentProfile q ∧ HasProfile p e = true.

Lemma elem_of_expandCombos cands profile sel e p :
  (e, p) ∈ expandCombos cands profile sel ↔
    e ∈ cands ∧
    if bool_decide (profile = "") then if pinned sel then p = DefaultProfile e else p ∈ advertisedProfiles e
    else p = profile ∧ HasProfile p e = true.
Proof.
  unfold expandCombos. destruct (bool_decide_reflect (profile = "")) as [->|Hp]; cbn [negb].
  - destruct (pinned sel); cbn [negb].
    + rewrite list_elem_of_fmap. naive_solver.
    + rewrite list_elem_of_bind. setoid_rewrite list_elem_of_fmap. naive_solver.
  - unfold filterByProfile. rewrite list_elem_of_fmap. setoid_rewrite list_elem_of_filter. naive_solver.
Qed.

Lemma Candidates_NoDup repo sel r : registry_reach r → NoDup (Candidates conn_string repo sel r).
Proof.
  intros Hr%registry_reach_ok. unfold Candidates. rewrite (merge_sort_Permutation (cand_le conn_string)).
  by apply NoDup_filter, NoDup_filter, Registry_List_NoDup.
Qed.

Lemma expandCombos_NoDup cands profile sel :
  NoDup cands → (∀ e, e ∈ cands → NoDup (re_AgentProfiles e)) → NoDup (expandCombos cands profile sel).
Proof.
  intros Hn Hp. assert (∀ e, e ∈ cands → NoDup (advertisedProfiles e)) as Ha.
  { intros e He. unfold advertisedProfiles. pose proof (Hp e He) as Hpe. destruct (re_AgentProfiles e); [|done].
    destruct (negb _); apply NoDup_singleton. }
  unfold expandCombos. destruct (negb (bool_decide _)); [|destruct (negb _)].
  - apply NoDup_fmap_2; [by intros ?? [= ->]|]. by apply NoDup_filter.
  - apply NoDup_bind; [|intros e He; apply NoDup_fmap_2; [by intros ?? [= ->]|by apply Ha]|done].
    intros e1 e2 [x y] _ _ (? & [= -> ->] & _)%list_elem_of_fmap (? & [= -> ->] & _)%list_elem_of_fmap. done.
  - apply NoDup_fmap_2; [by intros ?? [= ->]|done].
Qed.

Lemma expandCombos_nil e0 cands profile sel :
  expandCombos (e0 :: cands) profile sel = [] →
  negb (bool_decide (profile = "")) && bool_decide (filterByProfile (e0 :: cands) profile = []) = true.
Proof.
  unfold expandCombos. destruct (negb (bool_decide (profile = ""))); cbn [andb].
  - intros H%fmap_nil_inv. by apply bool_decide_eq_true.
  - destruct (negb _); [|done]. cbn [mbind list_bind]. intros [H _]%app_nil. unfold advertisedProfiles in H.
    destruct (re_AgentProfiles e0); [|done]. by destruct (negb _).
Qed.

(** The rows offer exactly the combos, one row per connection. *)
Lemma add_candidate_spec repo rows c :
  NoDup (rc_Cid <$> rows) →
  NoDup (rc_Cid <$> add_candidate conn_string repo rows c) ∧
  ∀ cid p, (∃ row, row ∈ add_candidate conn_string repo rows c ∧ rc_Cid row = cid ∧ p ∈ rc_Profiles row) ↔
    (∃ row, row ∈ rows ∧ rc_Cid row = cid ∧ p ∈ rc_Profiles row) ∨ (conn_string (re_ID c.1) = cid ∧ c.2 = p).
Proof.
  intros Hn. destruct c as [e pr]. unfold add_candidate. set (key := conn_string (re_ID e)). cbn [fst snd].
  destruct (existsb _ rows) eqn:Ex.
  - split.
    + rewrite <-list_fmap_compose. erewrite list_fmap_ext; [exact Hn|]. intros i x _. cbn [compose]. by case_bool_decide.
    + apply existsb_exists in Ex as (r0 & Hr0%list_elem_of_In & Hk%bool_decide_eq_true). intros cid p. split.
      * intros (row & (r & -> & Hr)%list_elem_of_fmap & Hc & Hp). revert Hc Hp. case_bool_decide as E; [|intros; left; by exists r].
        change (rc_Cid r = cid → p ∈ rc_Profiles r ++ [pr] → (∃ row, row ∈ rows ∧ rc_Cid row = cid ∧ p ∈ rc_Profiles row) ∨ key = cid ∧ pr = p).
        intros <- [Hp| ->%list_elem_of_singleton]%elem_of_app; [left; by exists r|by right].
      * intros H. assert (∃ r, r ∈ rows ∧ rc_Cid r = cid ∧ (p ∈ rc_Profiles r ∨ key = cid ∧ pr = p)) as (r & Hr & Hc & Hp)
          by (destruct H as [(r & ? & ? & ?)|[<- <-]]; [by exists r; auto|by exists r0; auto]).
        eexists. split; [by apply list_elem_of_fmap_2|]. case_bool_decide as E; [|split; [done|]; destruct Hp as [?|[Hp _]]; congruence].
        change (rc_Cid r = cid ∧ p ∈ rc_Profiles r ++ [pr]). split; [done|]. rewrite elem_of_app, list_elem_of_singleton. naive_solver.
  - assert (∀ r, r ∈ rows → rc_Cid r ≠ key) as Hnk.
    { intros r Hr E. assert (existsb (λ r, bool_decide (rc_Cid r = key)) rows = true); [|congruence].
      apply existsb_exists. exists r. by rewrite <-list_elem_of_In, bool_decide_eq_true. }
    split.
    + rewrite fmap_app. apply NoDup_app. split_and!; [done| |by apply NoDup_singleton].
      intros x (r & -> & Hr)%list_elem_of_fmap. cbn. rewrite list_elem_of_singleton. by apply Hnk.
    + intros cid p. setoid_rewrite elem_of_app. setoid_rewrite list_elem_of_singleton. split.
      * intros (row & [Hr| ->] & Hc & Hp); [left; by exists row|right]. cbn in Hc, Hp. by apply list_elem_of_singleton in Hp.
      * intros [(row & ? & ? & ?)|[<- <-]]; [exists row; auto|]. eexists. split; [by right|]. cbn. split; [done|by left].
Qed.

Lemma candidatesBody_spec combos repo :
  NoDup (rc_Cid <$> candidatesBody conn_string combos repo) ∧
  ∀ cid p, (∃ row, row ∈ candidatesBody conn_string combos repo ∧ rc_Cid row = cid ∧ p ∈ rc_Profiles row) ↔
    ∃ e, (e, p) ∈ combos ∧ conn_string (re_ID e) = cid.
Proof.
  unfold candidatesBody. induction combos as [|c l IH] using rev_ind.
  { split; [constructor|]. intros cid p. split; [intros (? & []%not_elem_of_nil & _)|intros (? & []%not_elem_of_nil & _)]. }
  rewrite foldl_app. cbn [foldl]. destruct IH as [Hn IH]. destruct (add_candidate_spec repo _ c Hn) as [H1 H2]. split; [done|].
  intros cid p. rewrite H2, IH. setoid_rewrite elem_of_app. setoid_rewrite list_elem_of_singleton. destruct c. naive_solver.
Qed.
End outcomes.

(** ** Theorems *)


(** C13. An exact resume by submit restores the task as it was recorded.  A submit
    that resumes a task exactly, when answered ok, found the task finished and
    inside a resume scope of the caller, and queues it with the recorded repo,
    prompt, arguments, profile, kind, creator and grant, the grant's author
    included; it is bound to a candidate that offers the profile and, unless the
    caller pinned one, to the runner that last ran it if that one still does.  Any
    other answer leaves the store as it was. *)
Theorem exact_resume_restores conn_string ck newID r c cid req s s' a :
  let q := sb_req req in
  let id := EncodeToString (rq_ResumeTaskId q) in
  wf_id (rq_ResumeTaskId q) → rq_ResumeTaskId q ≠ zeroID → rq_ResumeExact q = true →
  handle_submit conn_string ck newID r c cid req s = (s', Some a) →
  (su_Status a ≠ SubmitStatus_Ok → s' = s) ∧
  (su_Status a = SubmitStatus_Ok →
   resumeTargetAllowed c s cid true id = true ∧
   ∃ rec e bound,
     Get id s = Some rec ∧ terminal (te_Status rec) = true ∧ st_tasks s' = <[id := e]> (st_tasks s) ∧
     te_Status e = Queued ∧ te_Prompt e = te_Prompt rec ∧ te_ExtraArgs e = te_ExtraArgs rec ∧
     te_Kind e = te_Kind rec ∧ te_AgentProfile e = te_AgentProfile rec ∧ te_RepoPath e = te_RepoPath rec ∧
     skel e = skel rec ∧ te_AuthorityActor e = te_AuthorityActor rec ∧
     te_BoundRunnerID e = conn_string (re_ID bound) ∧
     let offers b := b ∈ Candidates conn_string (te_RepoPath rec) (rq_Selector q) r ∧
                     (te_AgentProfile rec ≠ "" → HasProfile (te_AgentProfile rec) b = true) in
     offers bound ∧
     (rq_Selector q = SelAny → te_AssignedTo rec ≠ zeroID →
        (∃ b, offers b ∧ re_Identity b = te_AssignedTo rec) → re_Identity bound = te_AssignedTo rec)).
Proof.
  intros q id Hwf Hz Hx H. unfold handle_submit in H. destruct (negb _); [done|].
  destruct (handleSubmit _ _ _ _ _ _ _ _ _ _ _) as [s1 a1] eqn:E. injection H as <- <-.
  unfold handleSubmit in E. fold q in E. unfold isZeroTaskID in E. rewrite bool_decide_eq_false_2 in E by done. cbn [negb] in E.
  unfold handleSubmitResume in E. fold q in E. fold id in E. rewrite Hx in E.
  destruct (resumeTargetAllowed c s cid true id); cbn [negb] in E; [|injection E as <- <-; by split].
  destruct (grantFor _ _ _ _) as [u|] eqn:Eg; [|injection E as <- <-; by split].
  destruct (Get id s) as [rec|] eqn:Er; [|injection E as <- <-; by split].
  destruct (bool_decide_reflect (exactMismatch (exact_of (sb_Prompt req) TaskKind_Oneshot q) rec = "")) as [Em|_];
    cbn [negb andb] in E; [|injection E as <- <-; by split].
  destruct (exactMismatch_none _ _ _ _ Em) as (Hkind & H1 & H2 & H3 & H4).
  assert (GrantUpdate_Any u = false) as Hu.
  { apply (grantFor_untouched s (granter c s cid (callerCaps c s cid)) q id); [by apply EncodeToString_nonempty|done..]. }
  destruct (Candidates _ _ _ _) as [|e0 cands] eqn:Ec; [destruct (pinned _); injection E as <- <-; by split|].
  set (cs := e0 :: cands) in *. fold (offering cs (te_AgentProfile rec)) in E. set (fl := offering _ _) in E.
  destruct fl as [|f0 fl'] eqn:Ef; [injection E as <- <-; by split|]. rewrite <-Ef in E. clear f0 fl' Ef.
  destruct (if negb (pinned (rq_Selector q)) then _ else _) as [|bound [|]] eqn:Ep;
    [injection E as <- <-; by split| |injection E as <- <-; by split].
  destruct (Resume _ _ _ _ _ _ _ _ _ _ _ _ _ _) as [s2 [e|err]] eqn:Es; cycle 1.
  { apply Resume_err in Es as ->. destruct err; injection E as <- <-; by split. }
  injection E as <- <-. split; [done|]. intros _. split; [done|].
  apply (Resume_plain _ _ _ _ _ _ _ _ _ _ _ _ _ _ _ _ Hu) in Es as (rec' & Er' & Ht & Hs2 & R1 & R2 & R3 & R4 & R5 & R6 & R7 & R8 & R9).
  unfold Get in Er. rewrite Er in Er'. injection Er' as <-.
  exists rec, e{{ te_ResumeConversation := rq_ResumeConversation q }}, bound.
  rewrite (proj1 (SetResumeConversation_tasks _ _ _ _ _ Hs2)).
  rewrite Hkind in R4. pose proof (exact_route _ _ _ _ Ep) as [Ho1 Ho2]. rewrite Ec.
  split_and!; try done.
Qed.

(** C25. What a fresh submit answers, and why.  It is accepted exactly when the caller
    may hand down what it asks for and one runner and profile is left, and then one
    queued task is recorded, bound to that runner with that profile; a second
    choice is answered with rows that offer exactly the choices, each
    connection once; the other answers each name the one reason there is no choice, and
    leave the store as it was. *)
Theorem submit_choices conn_string ck newID r c cid req origin creator caps s :
  let q := sb_req req in
  let repo := path_Clean (rq_RepoPath q) in
  let grant := grantFor s (granter c s cid caps) (startGrantRequest q) "" in
  let can := viable conn_string r q repo in
  rq_ResumeTaskId q = zeroID → rq_ResumeExact q = false →
  registry_reach r → (∀ e, e ∈ Candidates conn_string repo (rq_Selector q) r → NoDup (re_AgentProfiles e)) →
  let '(s', a) := handleSubmit conn_string ck newID r c cid req origin creator caps s in
  match su_Status a with
  | SubmitStatus_Ok => ∃ u e p t, grant = Ok u ∧ (∀ e' p', can e' p' ↔ e' = e ∧ p' = p) ∧
      st_tasks s' = <[newID := t]> (st_tasks s) ∧ st_order s' = st_order s ++ [newID] ∧
      te_Status t = Queued ∧ te_BoundRunnerID t = conn_string (re_ID e) ∧ te_AgentProfile t = p ∧
      te_RepoPath t = repo ∧ te_Prompt t = sb_Prompt req ∧ skel t = (newID, creator, gu_To u)
  | SubmitStatus_AmbiguousRunner => s' = s ∧
      (∃ x y : interactiveCombo, x ≠ y ∧ can x.1 x.2 ∧ can y.1 y.2) ∧
      ∃ rows, su_Body a = Some rows ∧ NoDup (rc_Cid <$> rows) ∧
        ∀ k p, (∃ row, row ∈ rows ∧ rc_Cid row = k ∧ p ∈ rc_Profiles row) ↔ ∃ e, can e p ∧ conn_string (re_ID e) = k
  | SubmitStatus_NoRunner => s' = s ∧ pinned (rq_Selector q) = false ∧ Candidates conn_string repo (rq_Selector q) r = []
  | SubmitStatus_PinnedNotFound => s' = s ∧ pinned (rq_Selector q) = true ∧ Candidates conn_string repo (rq_Selector q) r = []
  | SubmitStatus_ProfileUnavailable => s' = s ∧ rq_AgentProfile q ≠ "" ∧
      ∀ e, e ∈ Candidates conn_string repo (rq_Selector q) r → HasProfile (rq_AgentProfile q) e = false
  | SubmitStatus_ScopeNotPermitted => s' = s ∧ ∃ err, grant = Err err
  | _ => False
  end.
Proof.
  intros q repo grant can Hz Hx Hr Hnd.
  destruct (handleSubmit conn_string ck newID r c cid req origin creator caps s) as [s' a] eqn:H.
  unfold handleSubmit in H. fold q in H. rewrite Hz in H. unfold isZeroTaskID in H.
  rewrite bool_decide_eq_true_2, Hx in H by done. cbn [negb] in H. fold grant repo in H.
  destruct grant as [u|err] eqn:Eg; [|injection H as <- <-; split; [done|by eexists]].
  pose proof (λ e p, elem_of_expandCombos (Candidates conn_string repo (rq_Selector q) r) (rq_AgentProfile q) (rq_Selector q) e p) as Hin.
  fold (viable conn_string r q repo) in Hin.
  pose proof (expandCombos_NoDup _ (rq_AgentProfile q) (rq_Selector q) (Candidates_NoDup conn_string repo (rq_Selector q) r Hr) Hnd) as Hn2.
  destruct (Candidates conn_string repo (rq_Selector q) r) as [|e0 cands] eqn:Ec.
  { injection H as <- <-. by destruct (pinned (rq_Selector q)). }
  set (cs := e0 :: cands) in *.
  destruct (negb (bool_decide (rq_AgentProfile q = "")) && bool_decide (filterByProfile cs (rq_AgentProfile q) = [])) eqn:Ep.
  { apply andb_prop in Ep as [E1 E2]. apply negb_true_iff, bool_decide_eq_false in E1. apply bool_decide_eq_true in E2.
    injection H as <- <-. split_and!; [done|done|]. intros e He. apply not_true_is_false. intros E.
    assert (e ∈ filterByProfile cs (rq_AgentProfile q)) as Hf by (by apply list_elem_of_filter). rewrite E2 in Hf. by apply not_elem_of_nil in Hf. }
  assert (∀ e p, can e p ↔ (e, p) ∈ expandCombos cs (rq_AgentProfile q) (rq_Selector q)) as Hcan.
  { intros e p. rewrite Hin. unfold can, viable. by rewrite Ec. }
  destruct (expandCombos cs (rq_AgentProfile q) (rq_Selector q)) as [|[bound profile] [|y l]] eqn:Ex.
  - apply expandCombos_nil in Ex. unfold cs in Ep. by rewrite Ex in Ep.
  - injection H as <- <-.
    destruct (Create_put newID (sk_created ck) (sk_stamp ck) (sk_wal ck) repo (sb_Prompt req) TaskKind_Oneshot origin creator
      (conn_string (re_ID bound)) (rq_Selector q) (rq_ExtraArgs q) (gu_To u) profile s) as (t & Ht & Ho & T1 & T2 & T3 & T4 & _ & T6 & T7 & _).
    destruct (SetResumeConversation_tasks newID (rq_ResumeConversation q) _ _ _ Ht) as [-> ->].
    exists u, bound, profile, t{{ te_ResumeConversation := rq_ResumeConversation q }}. split_and!; try done.
    intros e' p'. rewrite Hcan, list_elem_of_singleton. naive_solver.
  - injection H as <- <-. split; [done|]. split.
    + exists (bound, profile), y. rewrite !Hcan. destruct y as [e1 p1]. split_and!; [|by left|by right; left].
      intros E. rewrite E in Hn2. apply NoDup_cons in Hn2 as [Hn _]. apply Hn. by left.
    + eexists. split; [reflexivity|]. destruct (candidatesBody_spec conn_string ((bound, profile) :: y :: l) repo) as [B1 B2].
      split; [done|]. intros k p. rewrite B2. by setoid_rewrite Hcan.
Qed.

(** ** Witnesses *)

Module SampleStart.
Definition p : TaskID := SampleTree.p.
Definition k : TaskID := SampleTree.c.
Definition t : TaskID := SampleTree.g.
Definition nid : TaskID := replicate 15 0 ++ [13].
Definition newID : string := EncodeToString nid.

Definition spawn (id creator : TaskID) (caps : N) (sc : Scope) : op :=
  OpCreate (EncodeToString id) 1 1 1 "/srv" "go" 0 1 creator "" SelAny [] (mkGrant caps sc Capability_All DefaultScope) "".

(** [p] watches its subtree and acts on nothing; [t] is none of its business. *)
Definition watch : Scope := mkScope ScopeBase_None [] ScopeBase_Subtree true false [] [].
Definition watched (caps : N) : Store :=
  run (SetWAL (Some []) NewTaskStore) [spawn p zeroID Capability_All watch; spawn k p 0 DefaultScope; spawn t zeroID caps DefaultScope].
Definition conns : Conns := mkConns ∅ {["w"%string := p]}.
Definition conn_string (c : ConnectionID) : string := "r".
Definition ck : start_clock := mkStartClock 5 5 5 5.

Definition plain : start_request :=
  mkStartRequest "/srv" SelAny [] "" Capability_Cancel (ToWire DefaultScope) [] 0 (ToWire DefaultScope) zeroID
    false false false false false false.
(** Resume [t] with the scope narrowed to [k]. *)
Definition probe : start_request :=
  mkStartRequest "/srv" SelAny [] "" 0 (ToWire (mkScope ScopeBase_None [EncodeToString k] 0 false false [] [])) [] 0
    SampleTree.none_scope t false false false true false false.
Definition exact (id : TaskID) : start_request :=
  mkStartRequest "" SelAny [] "" 0 SampleTree.none_scope [] 0 SampleTree.none_scope id true true false false false false.

(** A single agent that may do and delegate everything. *)
Definition ops : list op := [spawn p zeroID Capability_All DefaultScope].
Definition s : Store := run (SetWAL (Some []) NewTaskStore) ops.
(** The same, after its task ended on the sample runner. *)
Definition ended : Store := run s [OpAssign 3 3 (EncodeToString p) id_w "" true; OpFinish 4 4 (EncodeToString p) 0 ""].

Definition entry : TaskEntry := default zeroEntry (Get (EncodeToString p) s).

Lemma sample_forest : forest s.
Proof.
  assert (dom (st_tasks s) = {[EncodeToString p]}) as Ed by (apply (bool_decide_unpack _); by vm_compute).
  assert (∀ id, is_Some (st_tasks s !! id) → id = EncodeToString p) as Hd.
  { intros id Hid%elem_of_dom. rewrite Ed in Hid. by apply elem_of_singleton in Hid. }
  split.
  - apply run_StoreOk. assert (wal_ok DefaultScope) as Hw by (split_and!; try done; by apply sample_ids_ok).
    apply Forall_singleton. split_and!; try done. apply wf_zeroID.
  - intros id e He. exists p. split; [apply (bool_decide_unpack _); by vm_compute|]. apply Hd. by exists e.
  - apply (bool_decide_unpack _). by vm_compute.
  - intros id ->%Hd. vm_compute. by left.
Qed.

Lemma s_agent : agent_of conns s "w" entry.
Proof. by split_and!. Qed.
End SampleStart.


Lemma exact_resume_restores_witness :
  let '(s', a) := handle_submit SampleStart.conn_string SampleStart.ck "" SampleSched.reg SampleStart.conns "op"
                    (mkSubmitRequest (SampleStart.exact SampleStart.p) "") SampleStart.ended in
  (su_Status <$> a) = Some SubmitStatus_Ok ∧
  ∃ e, st_tasks s' !! EncodeToString SampleStart.p = Some e ∧ te_Prompt e = "go" ∧ te_Status e = Queued ∧
       te_Capabilities e = Capability_All.
Proof.
  destruct (handle_submit _ _ _ _ _ _ _ _) as [s' [a|]] eqn:E; [|by vm_compute in E].
  assert (su_Status a = SubmitStatus_Ok) as Ha.
  { assert (a = default (submit_refused SubmitStatus_NoRunner "") (handle_submit SampleStart.conn_string SampleStart.ck ""
      SampleSched.reg SampleStart.conns "op" (mkSubmitRequest (SampleStart.exact SampleStart.p) "") SampleStart.ended).2) as -> by (by rewrite E).
    by vm_compute. }
  split; [cbn; by rewrite Ha|].
  destruct (exact_resume_restores SampleStart.conn_string SampleStart.ck "" SampleSched.reg SampleStart.conns "op"
    (mkSubmitRequest (SampleStart.exact SampleStart.p) "") SampleStart.ended s' a) as [_ H];
    [apply (bool_decide_unpack _); by vm_compute|done|done|exact E|].
  destruct (H Ha) as (_ & rec & e & bound & Hg & _ & -> & Hq & Hpr & _ & _ & _ & _ & Hsk & _). exists e.
  change (Get (EncodeToString SampleStart.p) SampleStart.ended = Some rec) in Hg.
  assert (rec = default zeroEntry (Get (EncodeToString SampleStart.p) SampleStart.ended)) as -> by (by rewrite Hg).
  rewrite lookup_insert_eq, Hpr, Hq. pose proof (f_equal (λ x, g_Caps x.2) Hsk) as Hc.
  change (te_Capabilities e = te_Capabilities (default zeroEntry (Get (EncodeToString SampleStart.p) SampleStart.ended))) in Hc.
  rewrite Hc. split_and!; [done|by vm_compute|done|by vm_compute].
Defined.

Lemma submit_choices_witness :
  let '(s', a) := handleSubmit SampleStart.conn_string SampleStart.ck SampleStart.newID SampleSched.reg SampleStart.conns "op"
                    (mkSubmitRequest SampleStart.plain "go") 1 zeroID Capability_All SampleStart.s in
  su_Status a = SubmitStatus_Ok ∧ ∃ t, st_tasks s' = <[SampleStart.newID := t]> (st_tasks SampleStart.s) ∧ te_AgentProfile t = "claude".
Proof.
  pose proof (submit_choices SampleStart.conn_string SampleStart.ck SampleStart.newID SampleSched.reg SampleStart.conns "op"
    (mkSubmitRequest SampleStart.plain "go") 1 zeroID Capability_All SampleStart.s) as H.
  specialize (H ltac:(done) ltac:(done) SampleSched.reg_reach). cbv zeta in H.
  assert (Candidates SampleStart.conn_string (path_Clean "/srv") SelAny SampleSched.reg = [runner_w 1]) as Hc
    by (by vm_compute).
  specialize (H ltac:(intros e He; change (e ∈ Candidates SampleStart.conn_string (path_Clean "/srv") SelAny SampleSched.reg) in He;
    rewrite Hc in He; apply list_elem_of_singleton in He as ->; constructor)).
  destruct (handleSubmit _ _ _ _ _ _ _ _ _ _ _) as [s' a] eqn:E.
  assert (su_Status a = SubmitStatus_Ok) as Ha.
  { assert (a = (handleSubmit SampleStart.conn_string SampleStart.ck SampleStart.newID SampleSched.reg SampleStart.conns "op"
      (mkSubmitRequest SampleStart.plain "go") 1 zeroID Capability_All SampleStart.s).2) as -> by (by rewrite E). by vm_compute. }
  rewrite Ha in H. split; [done|]. destruct H as (u & e & p & t & _ & Hcan & Ht & _ & _ & _ & Hp & _). exists t. split; [done|].
  rewrite Hp. symmetry. apply (proj1 (Hcan (runner_w 1) "claude"%string)). split; [|by left].
  change (runner_w 1 ∈ Candidates SampleStart.conn_string (path_Clean "/srv") SelAny SampleSched.reg). rewrite Hc. by left.
Defined.

(** C40. Both resume paths are to report a task outside the caller's scope as absent.  A
    submit does, whatever the request asks for; an interactive open weighs the
    requested scope against the task's recorded capabilities before it looks at the
    target, so its answer tells apart two capability sets of a task the caller
    neither may resume nor is shown. *)
Theorem open_resume_oracle :
  (∀ conn_string ck newID r c cid req s,
     rq_ResumeTaskId (sb_req req) ≠ zeroID →
     resumeTargetAllowed c s cid (rq_ResumeExact (sb_req req)) (EncodeToString (rq_ResumeTaskId (sb_req req))) = false →
     (handle_submit conn_string ck newID r c cid req s).2 = None ∨
     handle_submit conn_string ck newID r c cid req s = (s, Some (submit_refused SubmitStatus_ResumeNotFound ""))) ∧
  let ask caps := (handle_open SampleStart.conn_string (SampleSched.env true (conn_w 1)) (mkClock 0 0 0 0) "" SampleStart.ck "n"
                     SampleStart.conns "w" (mkOpenRequest SampleStart.probe true false)
                     (SampleSched.server (SampleStart.watched caps))).2 in
  (∀ caps, resumeTargetAllowed SampleStart.conns (SampleStart.watched caps) "w" false (EncodeToString SampleStart.t) = false) ∧
  taskEventAudience SampleStart.conns (SampleStart.watched 0) "w" (EncodeToString SampleStart.t) = audienceNone ∧
  (op_Status <$> ask 0) = Some OpenInteractiveStatus_ResumeNotFound ∧
  (op_Status <$> ask Capability_Cancel) = Some OpenInteractiveStatus_ScopeNotPermitted.
Proof.
  split; [|split_and!; [by intros caps; vm_compute|by vm_compute|by vm_compute|by vm_compute]].
  intros conn_string ck newID r c cid req s Hz Hn. unfold handle_submit. destruct (negb _); [by left|right].
  unfold handleSubmit, isZeroTaskID. rewrite bool_decide_eq_false_2 by done. cbn [negb].
  unfold handleSubmitResume. by rewrite Hn.
Qed.
