(* ===== verification/PubSub.v ===== *)
(** * The pubsub broker: [pubsub/pubsub.go], [pubsub/frame.go], [topics/topics.go],
    and the server's use of it ([server/pubsub_authz.go], [server/notify_ring.go],
    [server/notify_replay.go])

    The broker keeps, per topic, the subscribers that joined it, and gives each a
    stream of its own; a publish writes one frame to each.  Its lock covers joining, leaving and
    the snapshot a publish takes; the authorizer of a join runs before the lock, and the
    deliveries of a publish happen after it is released, one subscriber at a time, the payload
    picked in one step and written in another, and interleave with everything else.  So
    the system is a state and a step function whose steps are those pieces;
    an execution is a list of steps.  Pointers ([*Subscriber], [*Tap], streams) are
    numbers.  Numbers of publications, the history of publications, the tags on
    frames and the list of picks with the server each was made at are bookkeeping that
    no step reads.

    The transport is a list of the frames written to each stream; a write that blocks
    is a step that is taken late or never, and one to a closed stream is lost.

    Theorems: the broker's tables stay consistent; a subscriber's stream is the
    backlog of the moment it joined followed by the publications made since, each
    once, the ones of one writer in order; what reaches a subscriber of a task log
    was written by the owner of the task and let through by the gate when it was
    picked; and a reader gets back exactly the messages written, however the bytes
    are cut. *)

From stdpp Require Import prelude gmap strings list sorting pretty.
From Stdlib Require Import NArith ZArith.
From coqutil Require Import Datatypes.RecordSetters.
From S2P Require Import Prelude GoStrings Caps Scope Sets Wire Wal TaskStore Topic BoardReach Paths Registry Gates Auth.

Import DoubleBraceUpdate.
Open Scope N_scope.
Open Scope stdpp_scope.
Set Default Goal Selector "!".

(** ** Frames: [pubsub/frame.go] *)

Definition MaxFrameLen : N := N.shiftl 16 20.

(** [PubSubFrame.MustAppend(nil)] after [SetData]: the length in four bytes, then
    the data. *)
Definition encode_frame (msg : list N) : list N := be_encode 4 (N.of_nat (length msg)) ++ msg.

(** The bytes [WriteFrame] hands to the stream in one call. *)
Definition WriteFrame (msg : list N) : option (list N) :=
  if MaxFrameLen <=? N.of_nat (length msg) then None
  else if 4294967295 <? N.of_nat (length msg) then None
  else Some (encode_frame msg).

(** [PubSubFrameHeader.Decode] and [PubSubFrame.Decode]. *)
Definition decode_header (buf : list N) : option (N * list N) :=
  if (length buf <? 4)%nat then None else Some (be_decode (take 4 buf), drop 4 buf).

Definition decode_frame (buf : list N) : option (list N * list N) :=
  '(n, rest) ← decode_header buf;
  if N.of_nat (length rest) <? n then None else Some (take (N.to_nat n) rest, drop (N.to_nat n) rest).

Inductive read_error := EOF | UnexpectedEOF | FrameTooLargeError (len : N) | DecodeFrame | StreamError.

#[export] Instance read_error_eq_dec : EqDecision read_error.
Proof. solve_decision. Defined.

Record FrameReader := mkFrameReader { fr_buf : list N; fr_eof : bool; fr_err : option read_error }.

Definition NewFrameReader : FrameReader := mkFrameReader [] false None.

(** One answer of [ReadDirect]: data and whether the stream ended, or an error. *)
Inductive read_direct := RdData (data : list N) (eof : bool) | RdErr.

(** The head of the loop: a message or an error, or [None] when more bytes are
    needed. *)
Definition next_head (r : FrameReader) : option (FrameReader * result read_error (list N)) :=
  let more := if fr_eof r
              then let e := match fr_buf r with [] => EOF | _ => UnexpectedEOF end in
                   Some (r{{ fr_err := Some e }}, Err e)
              else None in
  match decode_header (fr_buf r) with
  | Some (n, rest) =>
      if MaxFrameLen <=? n then Some (r{{ fr_err := Some (FrameTooLargeError n) }}, Err (FrameTooLargeError n))
      else if n <=? N.of_nat (length rest) then
        match decode_frame (fr_buf r) with
        | None => Some (r{{ fr_err := Some DecodeFrame }}, Err DecodeFrame)
        | Some (data, tail) => Some (r{{ fr_buf := tail }}, Ok data)
        end
      else more
  | None => more
  end.

(** [Next] against the answers still to come; [None] is a call that waits for the
    stream. *)
Fixpoint next_loop (r : FrameReader) (src : list read_direct)
    : FrameReader * list read_direct * option (result read_error (list N)) :=
  match next_head r with
  | Some (r, out) => (r, src, Some out)
  | None =>
      match src with
      | [] => (r, [], None)
      | RdErr :: src => (r{{ fr_err := Some StreamError }}, src, Some (Err StreamError))
      | RdData data eof :: src => next_loop (r{{ fr_buf := fr_buf r ++ data; fr_eof := eof }}) src
      end
  end.

Definition Next (r : FrameReader) (src : list read_direct)
    : FrameReader * list read_direct * option (result read_error (list N)) :=
  match fr_err r with
  | Some e => (r, src, Some (Err e))
  | None => next_loop r src
  end.

(** Calls of [Next] until one answers an error or waits, at most [fuel]. *)
Fixpoint read_all (fuel : nat) (r : FrameReader) (src : list read_direct) : list (list N) * option read_error :=
  match fuel with
  | O => ([], None)
  | S fuel =>
      match Next r src with
      | (r, src, Some (Ok msg)) => let '(msgs, e) := read_all fuel r src in (msg :: msgs, e)
      | (_, _, Some (Err e)) => ([], Some e)
      | (_, _, None) => ([], None)
      end
  end.

(** ** Topics *)

Definition RunnersStatus : string := "runners.status".
Definition TasksStatus : string := "tasks.status".
Definition TaskLog (taskID : string) : string := "task." +:+ taskID +:+ ".log".
Definition TaskStatus_topic (taskID : string) : string := "task." +:+ taskID +:+ ".status".
Definition Notifications : string := "notifications".
Definition ConnsStatus : string := "conns.status".
Definition ForwardsStatus : string := "forwards.status".
Definition ExecsStatus : string := "execs.status".

(** [strings.CutSuffix]. *)
Definition CutSuffix (s suffix : string) : option string :=
  let n := (String.length s - String.length suffix)%nat in
  if (String.length suffix <=? String.length s)%nat && bool_decide (str_drop n s = suffix) then Some (str_take n s) else None.

Definition ParseTaskLog (topic : string) : option string :=
  id ← CutPrefix topic "task.";
  id ← CutSuffix id ".log";
  if bool_decide (id = "") then None else Some id.

(** ** The broker *)

Record topicJoinInfo := mkJoinInfo { ji_name : string; ji_conn : N }.

Record JoinGrant := mkJoinGrant { jg_Allow : bool; jg_Publish : bool }.

Record Subscriber := mkSubscriber { ss_id : ConnectionID; ss_topics : gmap string topicJoinInfo }.

Definition NewSubscriber (id : ConnectionID) : Subscriber := mkSubscriber id ∅.

Definition AddSubscriber (sl : list N) (sub : N) : list N := sl ++ [sub].

(** Takes out the first occurrence. *)
Fixpoint RemoveSubscriber (sl : list N) (sub : N) : list N :=
  match sl with
  | [] => []
  | s :: sl => if s =? sub then sl else s :: RemoveSubscriber sl sub
  end.

Record PubSub := mkPubSub { ps_topics : gmap string (list N); ps_taps : gmap string (list N) }.

Definition NewPubSub : PubSub := mkPubSub ∅ ∅.

(** ** The rest of the server a join or a delivery asks *)

Record world := mkWorld { w_conns : Conns; w_tasks : Store; w_reg : Registry; w_roles : gmap ConnectionID N }.

Section server.
(** [ConnectionID.String]. *)
Context (conn_string : ConnectionID → string).

Definition authorizeJoin (w : world) (role : N) (cid : ConnectionID) (topic : string) : JoinGrant :=
  if role =? AuthRole_Runner then
    match ParseTaskLog topic with
    | Some taskHex => if ownsTask cid taskHex (w_reg w) then mkJoinGrant true true else mkJoinGrant false false
    | None => mkJoinGrant false false
    end
  else if role =? AuthRole_Client then
    match ParseTaskLog topic with
    | Some taskHex => mkJoinGrant (authorize (w_conns w) (w_tasks w) (conn_string cid) Capability_ExecView taskHex) false
    | None =>
        if bool_decide (topic = Notifications)
        then mkJoinGrant (seesEverything (w_conns w) (w_tasks w) (conn_string cid)) false
        else mkJoinGrant true false
    end
  else mkJoinGrant false false.

(** [taskLogDelivery]: the filter asks the server as it is when it is called. *)
Definition taskLogDelivery (topic : string) : option (world → ConnectionID → bool) :=
  match ParseTaskLog topic with
  | None => None
  | Some taskHex => Some (λ w cid, authorize (w_conns w) (w_tasks w) (conn_string cid) Capability_ExecView taskHex)
  end.

(** [notifyRing] with the encoded events. *)
Definition notify_cap : nat := 64.
Definition ring_append (ev : list N) (buf : list (list N)) : list (list N) :=
  let buf := buf ++ [ev] in
  if (notify_cap <? length buf)%nat then drop (length buf - notify_cap) buf else buf.

Definition replayNotifications (ring : list (list N)) (topic : string) : list (list N) :=
  if bool_decide (topic = Notifications) then ring else [].

(** ** Publications *)

(** The payload one subscriber gets, asked when its turn comes; [None] skips it. *)
Definition picker : Type := world → ConnectionID → option (list N).

(** [PublishFiltered] on top of [PublishSelect]. *)
Definition pick_filtered (msg : list N) (allow : option (world → ConnectionID → bool)) : picker :=
  match allow with
  | None => λ _ _, Some msg
  | Some allow => λ w cid, if allow w cid then Some msg else None
  end.

(** A publish after its snapshot: the streams left to send to, what was picked for
    the first of them once it was asked for, the taps left, and the stream whose
    reader runs the publish, if one does. *)
Record publication := mkPublication {
  pb_topic : string; pb_msg : list N; pb_pick : picker;
  pb_pending : list (N * ConnectionID); pb_picked : option (option (list N)); pb_taps : list N; pb_reader : option N }.

(** A frame, with the publication it came from; the backlog's have none. *)
Record frame := mkFrame { fm_pub : option N; fm_msg : list N }.

(** A subscriber's stream and the goroutine that reads it: what was written to it,
    and the publication the reader is in. *)
Record sub_stream := mkStream {
  sm_out : list frame; sm_closed : bool;
  sm_topic : string; sm_cid : ConnectionID; sm_publish : bool; sm_deliver : option (world → ConnectionID → bool);
  sm_busy : option N;
  sm_joined : world; sm_first : N; sm_backlog : list (list N) }.

(** A [Subscribe] between the answer of the authorizer, which runs unlocked, and the
    lock: the grant it holds, and the server at the time it was asked. *)
Record joining := mkJoining { jn_topic : string; jn_nick : string; jn_sub : N; jn_grant : JoinGrant; jn_asked : world }.

Record System := mkSystem {
  sy_world : world; sy_ps : PubSub; sy_subs : gmap N Subscriber; sy_streams : gmap N sub_stream;
  sy_ring : list (list N);
  sy_pubs : gmap N publication;
  sy_history : gmap N publication;
  sy_picks : list (N * N * world);
  sy_joining : list joining;
  sy_tapped : list (N * N);
  sy_nextStream : N; sy_nextPub : N; sy_nextSub : N; sy_nextTap : N }.

Definition NewSystem (w : world) : System := mkSystem w NewPubSub ∅ ∅ [] ∅ ∅ [] [] [] 0 0 0 0.

(** [WriteFrame] on a stream: over the cap or closed, nothing is written. *)
Definition write_frame (tag : option N) (msg : list N) (st : sub_stream) : sub_stream :=
  match WriteFrame msg with
  | None => st
  | Some _ => if sm_closed st then st else st{{ sm_out := sm_out st ++ [mkFrame tag msg] }}
  end.

Inductive Status := Status_Ok | Status_AlreadySubscribed | Status_UnknownTopic | Status_Forbidden.

(** The status and the stream id of a response. *)
Definition PubSubResponse : Type := Status * option N.

(** The head of [Subscribe]: the authorizer, asked with the role the connection
    authenticated as; none yet is refused.  The answer is [None] while the call goes on. *)
Definition Subscribe_ask (topic nickName : string) (sub : N) (sy : System) : System * option PubSubResponse :=
  match sy_subs sy !! sub with
  | None => (sy, Some (Status_UnknownTopic, None))
  | Some s =>
      let w := sy_world sy in
      let grant := authorizeJoin w (default 0 (w_roles w !! ss_id s)) (ss_id s) topic in
      if negb (jg_Allow grant) then (sy, Some (Status_Forbidden, None))
      else (sy{{ sy_joining := sy_joining sy ++ [mkJoining topic nickName sub grant w] }}, None)
  end.

(** The rest of [Subscribe], under the lock. *)
Definition Subscribe (j : joining) (sy : System) : System * PubSubResponse :=
  match sy_subs sy !! jn_sub j with
  | None => (sy, (Status_UnknownTopic, None))
  | Some s =>
      let topic := jn_topic j in
      match ss_topics s !! topic with
      | Some info => (sy, (Status_AlreadySubscribed, Some (ji_conn info)))
      | None =>
          let id := sy_nextStream sy in
          let publish := jg_Publish (jn_grant j) in
          let deliver := if publish then taskLogDelivery topic else None in
          let backlog := replayNotifications (sy_ring sy) topic in
          let st := mkStream [] false topic (ss_id s) publish deliver None (jn_asked j) (sy_nextPub sy) backlog in
          let st := foldl (λ st msg, write_frame None msg st) st backlog in
          let list := default [] (ps_topics (sy_ps sy) !! topic) in
          (sy{{ sy_subs := <[jn_sub j := s{{ ss_topics := <[topic := mkJoinInfo (jn_nick j) id]> (ss_topics s) }}]> (sy_subs sy);
                sy_ps := (sy_ps sy){{ ps_topics := <[topic := AddSubscriber list (jn_sub j)]> (ps_topics (sy_ps sy)) }};
                sy_streams := <[id := st]> (sy_streams sy); sy_nextStream := id + 1 }},
           (Status_Ok, Some id))
      end
  end.

Definition close_stream (id : N) (streams : gmap N sub_stream) : gmap N sub_stream :=
  alter (λ st, st{{ sm_closed := true }}) id streams.

Definition Unsubscribe (topic : string) (sub : N) (sy : System) : System * PubSubResponse :=
  match ps_topics (sy_ps sy) !! topic with
  | None => (sy, (Status_UnknownTopic, None))
  | Some sl =>
      let sl := RemoveSubscriber sl sub in
      let topics := match sl with
                    | [] => delete topic (ps_topics (sy_ps sy))
                    | _ => <[topic := sl]> (ps_topics (sy_ps sy))
                    end in
      let sy := sy{{ sy_ps := (sy_ps sy){{ ps_topics := topics }} }} in
      match sy_subs sy !! sub with
      | None => (sy, (Status_UnknownTopic, None))
      | Some s =>
          match ss_topics s !! topic with
          | None => (sy, (Status_UnknownTopic, None))
          | Some info =>
              (sy{{ sy_subs := <[sub := s{{ ss_topics := delete topic (ss_topics s) }}]> (sy_subs sy);
                    sy_streams := close_stream (ji_conn info) (sy_streams sy) }},
               (Status_Ok, Some (ji_conn info)))
          end
      end
  end.

Definition LeaveAll (sub : N) (sy : System) : System :=
  match sy_subs sy !! sub with
  | None => sy
  | Some s => foldl (λ sy '(topic, _), (Unsubscribe topic sub sy).1) sy (map_to_list (ss_topics s))
  end.

Definition TapSubscribe (topic : string) (sy : System) : System * N :=
  let t := sy_nextTap sy in
  (sy{{ sy_ps := (sy_ps sy){{ ps_taps := <[topic := default [] (ps_taps (sy_ps sy) !! topic) ++ [t]]> (ps_taps (sy_ps sy)) }};
        sy_nextTap := t + 1 }}, t).

Definition TapUnsubscribe (topic : string) (t : N) (sy : System) : System :=
  match ps_taps (sy_ps sy) !! topic with
  | None => sy
  | Some sl =>
      if bool_decide (t ∈ sl)
      then sy{{ sy_ps := (sy_ps sy){{ ps_taps := <[topic := RemoveSubscriber sl t]> (ps_taps (sy_ps sy)) }} }}
      else sy
  end.

(** The part of [PublishSelect] under the lock: the streams and the taps of the
    topic. *)
Definition snapshot_subs (topic : string) (sy : System) : list (N * ConnectionID) :=
  omap (λ sub, s ← sy_subs sy !! sub; info ← ss_topics s !! topic; Some (ji_conn info, ss_id s))
    (default [] (ps_topics (sy_ps sy) !! topic)).

Definition PublishSelect (topic : string) (msg : list N) (pick : picker) (reader : option N) (sy : System) : System :=
  let id := sy_nextPub sy in
  let p := mkPublication topic msg pick (snapshot_subs topic sy) None (default [] (ps_taps (sy_ps sy) !! topic)) reader in
  sy{{ sy_pubs := <[id := p]> (sy_pubs sy); sy_history := <[id := p]> (sy_history sy); sy_nextPub := id + 1 }}.

(** One turn of the loops after the lock: the payload picked for the next subscriber,
    the write of it, which may come much later as a write blocks on a full stream,
    else a tap, else the return to the caller. *)
Definition deliver_one (id : N) (sy : System) : System :=
  match sy_pubs sy !! id with
  | None => sy
  | Some p =>
      match pb_pending p, pb_taps p with
      | (st, cid) :: rest, _ =>
          match pb_picked p with
          | None =>
              sy{{ sy_pubs := <[id := p{{ pb_picked := Some (pb_pick p (sy_world sy) cid) }}]> (sy_pubs sy);
                   sy_picks := sy_picks sy ++ [(id, st, sy_world sy)] }}
          | Some out =>
              let sy := sy{{ sy_pubs := <[id := p{{ pb_pending := rest; pb_picked := None }}]> (sy_pubs sy) }} in
              match out with
              | None => sy
              | Some out => sy{{ sy_streams := alter (write_frame (Some id) out) st (sy_streams sy) }}
              end
          end
      | [], t :: rest =>
          sy{{ sy_pubs := <[id := p{{ pb_taps := rest }}]> (sy_pubs sy); sy_tapped := sy_tapped sy ++ [(t, id)] }}
      | [], [] =>
          let sy := sy{{ sy_pubs := delete id (sy_pubs sy) }} in
          match pb_reader p with
          | None => sy
          | Some r => sy{{ sy_streams := alter (λ st, st{{ sm_busy := None }}) r (sy_streams sy) }}
          end
      end
  end.

(** One round of a stream's reader with the bytes it read. *)
Definition reader_round (r : N) (data : list N) (sy : System) : System :=
  match sy_streams sy !! r with
  | None => sy
  | Some st =>
      match sm_busy st, data with
      | Some _, _ | None, [] => sy
      | None, _ =>
          if negb (sm_publish st) then sy
          else
            let sy := sy{{ sy_streams := <[r := st{{ sm_busy := Some (sy_nextPub sy) }}]> (sy_streams sy) }} in
            PublishSelect (sm_topic st) data (pick_filtered data (sm_deliver st)) (Some r) sy
      end
  end.

(** ** Executions *)

Inductive sys_op :=
  | SyConnect (cid : ConnectionID)
  | SyWorld (w : world)
  | SyAsk (topic nickName : string) (sub : N)
  | SySubscribe (k : nat)
  | SyUnsubscribe (topic : string) (sub : N)
  | SyLeaveAll (sub : N)
  | SyTap (topic : string)
  | SyUntap (topic : string) (t : N)
  | SyRead (stream : N) (data : list N)
  | SyNotify (ev : list N)
  | SyPublish (topic : string) (msg : list N) (pick : picker)
  | SyDeliver (pub : N).

Definition sys_step (sy : System) (o : sys_op) : System :=
  match o with
  | SyConnect cid => sy{{ sy_subs := <[sy_nextSub sy := NewSubscriber cid]> (sy_subs sy); sy_nextSub := sy_nextSub sy + 1 }}
  | SyWorld w => sy{{ sy_world := w }}
  | SyAsk topic nick sub => (Subscribe_ask topic nick sub sy).1
  | SySubscribe k =>
      match sy_joining sy !! k with
      | None => sy
      | Some j => (Subscribe j (sy{{ sy_joining := delete k (sy_joining sy) }})).1
      end
  | SyUnsubscribe topic sub => (Unsubscribe topic sub sy).1
  | SyLeaveAll sub => LeaveAll sub sy
  | SyTap topic => (TapSubscribe topic sy).1
  | SyUntap topic t => TapUnsubscribe topic t sy
  | SyRead r data => reader_round r data sy
  | SyNotify ev => sy{{ sy_ring := ring_append ev (sy_ring sy) }}
  | SyPublish topic msg pick => PublishSelect topic msg pick None sy
  | SyDeliver id => deliver_one id sy
  end.
End server.

(** ** The frame reader *)

(** What a source still has to give; one that ends is chunks of data, the last
    of which says so. *)
Definition src_bytes (src : list read_direct) : list N :=
  src ≫= λ x, match x with RdData data _ => data | RdErr => [] end.

Inductive ends : list read_direct → Prop :=
  | ends_last data : ends [RdData data true]
  | ends_more data src : ends src → ends (RdData data false :: src).

(** A reader that has had no error, and the bytes it has not returned. *)
Definition reading (r : FrameReader) (src : list read_direct) : Prop :=
  fr_err r = None ∧ (fr_eof r = true ∧ src = [] ∨ fr_eof r = false ∧ ends src).
Definition unread (r : FrameReader) (src : list read_direct) : list N := fr_buf r ++ src_bytes src.

Lemma reading_step r src :
  reading r src → fr_eof r = false →
  ∃ data eof src', src = RdData data eof :: src' ∧
    reading (r{{ fr_buf := fr_buf r ++ data; fr_eof := eof }}) src' ∧
    unread (r{{ fr_buf := fr_buf r ++ data; fr_eof := eof }}) src' = unread r src.
Proof.
  intros [He [[? _]|[_ Hs]]] Hf; [congruence|]. destruct Hs as [data|data src' Hs].
  - exists data, true, []. split; [done|]. split; [split; [done|by left]|]. 
    change ((fr_buf r ++ data) ++ [] = fr_buf r ++ data ++ []). by rewrite app_assoc.
  - exists data, false, src'. split; [done|]. split; [split; [done|by right]|]. 
    change ((fr_buf r ++ data) ++ src_bytes src' = fr_buf r ++ data ++ src_bytes src'). by rewrite app_assoc.
Qed.

Lemma decode_header_app n buf rest :
  n < 2 ^ 32 → decode_header (be_encode 4 n ++ buf ++ rest) = Some (n, buf ++ rest).
Proof.
  intros Hn. pose proof (length_be_encode 4 n) as Hl. unfold decode_header. rewrite length_app, Hl.
  destruct (Nat.ltb_spec (4 + length (buf ++ rest)) 4); [lia|].
  rewrite take_app_length', drop_app_length' by done. by rewrite be_roundtrip4.
Qed.

Lemma MaxFrameLen_fits n : n < MaxFrameLen → n < 2 ^ 32.
Proof. intros H. etrans; [exact H|]. by vm_compute. Qed.

(** A header with enough bytes behind it is a message; with too few, or no header
    yet, the loop goes on unless the stream has ended. *)
Lemma next_head_ready r msg rest :
  N.of_nat (length msg) < MaxFrameLen → fr_buf r = encode_frame msg ++ rest →
  next_head r = Some (r{{ fr_buf := rest }}, Ok msg).
Proof.
  intros Hm Hb. unfold next_head, decode_frame. rewrite Hb. unfold encode_frame. rewrite <-app_assoc.
  rewrite decode_header_app by (by apply MaxFrameLen_fits). cbn [mbind option_bind].
  destruct (N.leb_spec MaxFrameLen (N.of_nat (length msg))); [lia|].
  destruct (N.leb_spec (N.of_nat (length msg)) (N.of_nat (length (msg ++ rest)))) as [_|Hl];
    [|rewrite length_app in Hl; lia].
  destruct (N.ltb_spec (N.of_nat (length (msg ++ rest))) (N.of_nat (length msg))) as [Hl|_];
    [rewrite length_app in Hl; lia|].
  by rewrite Nat2N.id, take_app_length, drop_app_length.
Qed.

Lemma next_head_short r n part :
  n < MaxFrameLen → fr_buf r ++ part = be_encode 4 n ++ drop 4 (fr_buf r ++ part) →
  (length (fr_buf r) < 4 + N.to_nat n)%nat →
  next_head r = if fr_eof r
                then let e := match fr_buf r with [] => EOF | _ => UnexpectedEOF end in
                     Some (r{{ fr_err := Some e }}, Err e)
                else None.
Proof.
  intros Hn Hpre Hlen. unfold next_head, decode_header. destruct (Nat.ltb_spec (length (fr_buf r)) 4) as [_|H4]; [done|].
  assert (take 4 (fr_buf r) = be_encode 4 n) as ->.
  { rewrite <-(take_app_le _ part) by done. rewrite Hpre. by rewrite take_app_length' by (by rewrite length_be_encode). }
  rewrite be_roundtrip4 by (by apply MaxFrameLen_fits). destruct (N.leb_spec MaxFrameLen n); [lia|].
  destruct (N.leb_spec n (N.of_nat (length (drop 4 (fr_buf r))))) as [Hd|_]; [|done]. rewrite length_drop in Hd. lia.
Qed.

Lemma Next_message r src msg rest :
  reading r src → N.of_nat (length msg) < MaxFrameLen → unread r src = encode_frame msg ++ rest →
  ∃ r' src', Next r src = (r', src', Some (Ok msg)) ∧ reading r' src' ∧ unread r' src' = rest.
Proof.
  intros Hr Hm Hu. unfold Next. destruct Hr as [He Hr]. rewrite He. assert (reading r src) as Hr' by done. clear He Hr.
  remember (length src) as k eqn:Hk. revert r src Hk Hr' Hu.
  induction k as [k IH] using lt_wf_ind. intros r src -> Hr Hu.
  destruct (decide (4 + length msg ≤ length (fr_buf r)))%nat as [Hl|Hl].
  - set (rest' := drop (length (encode_frame msg)) (fr_buf r)).
    assert (length (encode_frame msg) = 4 + length msg)%nat as Hel by (unfold encode_frame; by rewrite length_app, length_be_encode).
    assert (fr_buf r = encode_frame msg ++ rest') as Hb.
    { rewrite <-(take_drop (length (encode_frame msg)) (fr_buf r)) at 1. f_equal.
      rewrite <-(take_app_le _ (src_bytes src)) by lia. fold (unread r src). rewrite Hu. by apply take_app_length. }
    assert (next_loop r src = (r{{ fr_buf := rest' }}, src, Some (Ok msg))) as ->
      by (destruct src; cbn [next_loop]; by rewrite (next_head_ready r msg rest' Hm Hb)).
    eexists _, _. split; [reflexivity|]. split; [exact Hr|].
    unfold unread in Hu. rewrite Hb, <-app_assoc in Hu. by apply app_inv_head in Hu.
  - assert (next_head r = if fr_eof r then let e := match fr_buf r with [] => EOF | _ => UnexpectedEOF end in
              Some (r{{ fr_err := Some e }}, Err e) else None) as Hh.
    { apply (next_head_short r (N.of_nat (length msg)) (src_bytes src)); [done| |rewrite Nat2N.id; lia].
      fold (unread r src). rewrite Hu. unfold encode_frame. rewrite <-!app_assoc. f_equal. }
    destruct (fr_eof r) eqn:Ee.
    { exfalso. destruct Hr as [_ [[_ ->]|[? _]]]; [|congruence]. unfold unread in Hu. cbn [src_bytes mbind list_bind] in Hu. rewrite app_nil_r in Hu.
      apply (f_equal length) in Hu. unfold encode_frame in Hu. rewrite !length_app, length_be_encode in Hu. lia. }
    destruct (reading_step r src Hr Ee) as (data & eof & src' & -> & Hr' & Hu').
    cbn [next_loop]. rewrite Hh. apply (IH (length src') ltac:(cbn; lia)); [done|done|]. by rewrite Hu'.
Qed.

(** Bytes that are no whole frame are read to their end. *)
Lemma Next_rest r src n part :
  reading r src → n < MaxFrameLen → unread r src = part → (length part < 4 + N.to_nat n)%nat →
  part ++ drop (length part) (be_encode 4 n) = be_encode 4 n ++ drop 4 part →
  ∃ r' src', Next r src = (r', src', Some (Err match part with [] => EOF | _ => UnexpectedEOF end)).
Proof.
  intros Hr Hn Hu Hlen Hpre. unfold Next. pose proof (proj1 Hr) as ->. revert r Hr Hu.
  assert (∀ buf more, part = buf ++ more →
    buf ++ (more ++ drop (length part) (be_encode 4 n)) = be_encode 4 n ++ drop 4 (buf ++ (more ++ drop (length part) (be_encode 4 n)))) as Hb.
  { intros buf more E. rewrite app_assoc, <-E, Hpre. by rewrite drop_app_length' by (by rewrite length_be_encode). }
  remember (length src) as k eqn:Hk. revert src Hk. induction k as [k IH] using lt_wf_ind. intros src -> r Hr Hu.
  assert (next_head r = if fr_eof r then let e := match fr_buf r with [] => EOF | _ => UnexpectedEOF end in
            Some (r{{ fr_err := Some e }}, Err e) else None) as Hh.
  { apply (next_head_short r n (src_bytes src ++ drop (length part) (be_encode 4 n))); [done|by apply Hb|].
    apply (f_equal length) in Hu. unfold unread in Hu. rewrite length_app in Hu. lia. }
  destruct (fr_eof r) eqn:Ee.
  - destruct Hr as [_ [[_ ->]|[? _]]]; [|congruence]. unfold unread in Hu. cbn [src_bytes mbind list_bind] in Hu. rewrite app_nil_r in Hu. subst part.
    cbn [next_loop]. rewrite Hh. by eexists _, _.
  - destruct (reading_step r src Hr Ee) as (data & eof & src' & -> & Hr' & Hu').
    cbn [next_loop]. rewrite Hh. apply (IH (length src') ltac:(cbn; lia)); [done|done|]. by rewrite Hu'.
Qed.

(** A header of a frame over the cap is refused as soon as it is there. *)
Lemma Next_refused r src n rest :
  reading r src → MaxFrameLen ≤ n → n < 2 ^ 32 → unread r src = be_encode 4 n ++ rest →
  ∃ r' src', Next r src = (r', src', Some (Err (FrameTooLargeError n))).
Proof.
  intros Hr Hn Hn32 Hu. unfold Next. pose proof (proj1 Hr) as ->. pose proof (length_be_encode 4 n) as Hl.
  remember (length src) as k eqn:Hk. revert r src Hk Hr Hu. induction k as [k IH] using lt_wf_ind. intros r src -> Hr Hu.
  destruct (decide (4 ≤ length (fr_buf r)))%nat as [H4|H4].
  - assert (fr_buf r = be_encode 4 n ++ drop 4 (fr_buf r)) as Hb.
    { rewrite <-(take_drop 4 (fr_buf r)) at 1. f_equal. rewrite <-(take_app_le _ (src_bytes src)) by lia.
      fold (unread r src). rewrite Hu. by apply take_app_length'. }
    assert (next_head r = Some (r{{ fr_err := Some (FrameTooLargeError n) }}, Err (FrameTooLargeError n))) as Hh.
    { unfold next_head. rewrite Hb. pose proof (decode_header_app n (drop 4 (fr_buf r)) [] Hn32) as Hd.
      rewrite app_nil_r in Hd. rewrite Hd. by destruct (N.leb_spec MaxFrameLen n); [|lia]. }
    destruct src; cbn [next_loop]; rewrite Hh; by eexists _, _.
  - assert (next_head r = if fr_eof r then let e := match fr_buf r with [] => EOF | _ => UnexpectedEOF end in
              Some (r{{ fr_err := Some e }}, Err e) else None) as Hh.
    { unfold next_head, decode_header. by destruct (Nat.ltb_spec (length (fr_buf r)) 4); [|lia]. }
    destruct (fr_eof r) eqn:Ee.
    { exfalso. destruct Hr as [_ [[_ ->]|[? _]]]; [|congruence]. unfold unread in Hu. cbn [src_bytes mbind list_bind] in Hu.
      rewrite app_nil_r in Hu. apply (f_equal length) in Hu. rewrite length_app in Hu. lia. }
    destruct (reading_step r src Hr Ee) as (data & eof & src' & -> & Hr' & Hu').
    cbn [next_loop]. rewrite Hh. apply (IH (length src') ltac:(cbn; lia)); [done|done|]. by rewrite Hu'.
Qed.

Lemma WriteFrame_fits m : is_Some (WriteFrame m) ↔ N.of_nat (length m) < MaxFrameLen.
Proof.
  unfold WriteFrame. destruct (N.leb_spec MaxFrameLen (N.of_nat (length m))) as [H|H]; [split; [by intros []|lia]|].
  pose proof (MaxFrameLen_fits _ H). destruct (N.ltb_spec 4294967295 (N.of_nat (length m))); [lia|]. by split; [|eexists].
Qed.

(** The writer and the reader have the same cap. *)
Lemma refused_alike m src :
  N.of_nat (length m) < 2 ^ 32 → ends src → src_bytes src = encode_frame m →
  WriteFrame m = None ↔ ∃ r' src', Next NewFrameReader src = (r', src', Some (Err (FrameTooLargeError (N.of_nat (length m))))).
Proof.
  intros H32 He Hs. assert (reading NewFrameReader src) as Hr by (split; [done|by right]).
  split.
  - intros Hw. apply (Next_refused NewFrameReader src _ m); [done| |done|done].
    destruct (N.lt_ge_cases (N.of_nat (length m)) MaxFrameLen) as [Hlt%WriteFrame_fits|]; [|done]. rewrite Hw in Hlt. by destruct Hlt.
  - intros (r' & src' & Hn). apply eq_None_not_Some. intros Hlt%WriteFrame_fits.
    destruct (Next_message NewFrameReader src m [] Hr Hlt) as (r1 & src1 & Hm & _); [by rewrite app_nil_r|]. congruence.
Qed.

Lemma frame_prefix msg k :
  let part := take k (encode_frame msg) in
  part ++ drop (length part) (be_encode 4 (N.of_nat (length msg))) = be_encode 4 (N.of_nat (length msg)) ++ drop 4 part.
Proof.
  intros part. unfold part, encode_frame. set (h := be_encode 4 _). assert (length h = 4%nat) as Hh by apply length_be_encode.
  rewrite length_take, length_app, Hh. destruct (decide (k ≤ 4)%nat) as [Hk|Hk].
  - rewrite take_app_le by lia. rewrite (drop_ge (take k h)) by (rewrite length_take; lia). rewrite app_nil_r.
    by rewrite Nat.min_l by lia; apply take_drop.
  - rewrite take_app_ge, Hh by lia. rewrite (drop_ge h), app_nil_r by lia. by rewrite drop_app_length' by lia.
Qed.

Lemma read_all_messages msgs tail r src :
  reading r src → Forall (λ m, N.of_nat (length m) < MaxFrameLen) msgs →
  unread r src = concat (encode_frame <$> msgs) ++ tail →
  ∃ r' src', reading r' src' ∧ unread r' src' = tail ∧
    ∀ fuel, read_all (length msgs + fuel) r src = (let '(ms, e) := read_all fuel r' src' in (msgs ++ ms, e)).
Proof.
  intros Hr Hall. revert r src Hr. induction Hall as [|m msgs Hm Hall IH]; intros r src Hr Hu.
  - exists r, src. split; [done|]. split; [done|]. intros fuel. cbn [length Nat.add app]. by destruct (read_all fuel r src).
  - rewrite fmap_cons in Hu. cbn [concat] in Hu. rewrite <-app_assoc in Hu.
    destruct (Next_message r src m _ Hr Hm Hu) as (r1 & src1 & Hn & Hr1 & Hu1).
    destruct (IH r1 src1 Hr1 Hu1) as (r' & src' & Hr' & Hu' & Hall').
    exists r', src'. split; [done|]. split; [done|]. intros fuel. cbn [length Nat.add read_all]. rewrite Hn, Hall'.
    by destruct (read_all fuel r' src').
Qed.

(** C29. A subscriber gets back exactly the messages that were written.  However
    the bytes of the frames are cut into reads, a reader of a stream that ends
    answers every message in order and then end-of-file; cut off inside a frame,
    it answers the whole ones and then that the end was unexpected.  A message
    whose length four bytes can say is refused by the writer exactly when a reader
    of its frame would answer that the frame is too large. *)
Theorem frames_roundtrip msgs cut k src :
  Forall (λ m, is_Some (WriteFrame m)) msgs → is_Some (WriteFrame cut) → (k < length (encode_frame cut))%nat →
  ends src → src_bytes src = concat (encode_frame <$> msgs) ++ take k (encode_frame cut) →
  ∃ n, (∀ fuel, read_all (n + fuel) NewFrameReader src =
          (msgs, Some match k with O => EOF | S _ => UnexpectedEOF end)) ∧
       (∀ m src', N.of_nat (length m) < 2 ^ 32 → ends src' → src_bytes src' = encode_frame m →
          WriteFrame m = None ↔
          ∃ r' rest, Next NewFrameReader src' = (r', rest, Some (Err (FrameTooLargeError (N.of_nat (length m)))))).
Proof.
  intros Hm Hc%WriteFrame_fits Hk He Hs. rewrite (Forall_iff _ _ _ WriteFrame_fits) in Hm. exists (length msgs + 1)%nat.
  split; [|apply refused_alike].
  destruct (read_all_messages msgs (take k (encode_frame cut)) NewFrameReader src) as (r' & src' & Hr' & Hu' & Hall);
    [split; [done|by right]|done|done|].
  assert (length (encode_frame cut) = 4 + length cut)%nat as Hl by (unfold encode_frame; by rewrite length_app, length_be_encode).
  destruct (Next_rest r' src' (N.of_nat (length cut)) _ Hr' Hc Hu') as (r2 & src2 & Hn);
    [rewrite length_take, Nat2N.id; lia|apply frame_prefix|].
  intros fuel. rewrite <-Nat.add_assoc, Hall. cbn [Nat.add read_all]. rewrite Hn, app_nil_r. do 2 f_equal.
  destruct k; [done|]. unfold encode_frame. by destruct (be_encode 4 _) eqn:E.
Qed.

(** ** The tables *)

Section tables.
Context (conn_string : ConnectionID → string).
Implicit Types (sy : System).

Definition joined_to sy (sub : N) (t : string) (id : N) : Prop :=
  ∃ s info, sy_subs sy !! sub = Some s ∧ ss_topics s !! t = Some info ∧ ji_conn info = id.

(** A topic lists exactly the subscribers that joined it, each once, and goes with
    the last; each join has a stream of its own, open, for that topic and
    connection, and every open stream is some join's. *)
Record tables_ok sy : Prop := {
  to_list t sl : ps_topics (sy_ps sy) !! t = Some sl → sl ≠ [] ∧ NoDup sl;
  to_member t sub : sub ∈ default [] (ps_topics (sy_ps sy) !! t) ↔ ∃ id, joined_to sy sub t id;
  to_stream sub s t info : sy_subs sy !! sub = Some s → ss_topics s !! t = Some info →
    ∃ st, sy_streams sy !! ji_conn info = Some st ∧ sm_topic st = t ∧ sm_cid st = ss_id s ∧ sm_closed st = false;
  to_inj sub t sub' t' id : joined_to sy sub t id → joined_to sy sub' t' id → sub = sub' ∧ t = t';
  to_open id st : sy_streams sy !! id = Some st → sm_closed st = false → ∃ sub, joined_to sy sub (sm_topic st) id;
  to_fresh id st : sy_streams sy !! id = Some st → id < sy_nextStream sy;
  to_freshSub sub s : sy_subs sy !! sub = Some s → sub < sy_nextSub sy;
}.

Lemma tables_ok_same sy sy' :
  tables_ok sy → sy_ps sy' = sy_ps sy ∨ ps_topics (sy_ps sy') = ps_topics (sy_ps sy) → sy_subs sy' = sy_subs sy →
  sy_nextStream sy' = sy_nextStream sy → sy_nextSub sy' = sy_nextSub sy →
  (∀ id, (λ st, (sm_topic st, sm_cid st, sm_closed st)) <$> sy_streams sy' !! id =
         (λ st, (sm_topic st, sm_cid st, sm_closed st)) <$> sy_streams sy !! id) →
  tables_ok sy'.
Proof.
  intros [H1 H2 H3 H4 H5 H6 H7] Hps' Hs Hn Hn' Hst.
  assert (ps_topics (sy_ps sy') = ps_topics (sy_ps sy)) as Hps by (by destruct Hps' as [->|]). clear Hps'.
  assert (∀ sub t id, joined_to sy' sub t id ↔ joined_to sy sub t id) as Hj by (intros; unfold joined_to; by rewrite Hs).
  assert (∀ id st, sy_streams sy' !! id = Some st → ∃ st0, sy_streams sy !! id = Some st0 ∧ sm_topic st = sm_topic st0 ∧
    sm_cid st = sm_cid st0 ∧ sm_closed st = sm_closed st0) as Hback.
  { intros id st E. specialize (Hst id). rewrite E in Hst. destruct (sy_streams sy !! id) as [st0|]; [|done].
    injection Hst as ???. by exists st0. }
  split.
  - by rewrite Hps.
  - intros t sub. rewrite Hps, H2. by setoid_rewrite Hj.
  - intros sub s t info E1 E2. rewrite Hs in E1. destruct (H3 _ _ _ _ E1 E2) as (st & E & ? & ? & ?). specialize (Hst (ji_conn info)).
    rewrite E in Hst. destruct (sy_streams sy' !! ji_conn info) as [st'|]; [|done]. injection Hst as ???. exists st'. naive_solver congruence.
  - intros sub t sub' t' id. rewrite !Hj. apply H4.
  - intros id st E Hc. destruct (Hback _ _ E) as (st0 & E0 & ? & ? & ?). setoid_rewrite Hj.
    destruct (H5 id st0 E0) as [sub Hsub]; [congruence|]. exists sub. congruence.
  - intros id st E. destruct (Hback _ _ E) as (st0 & E0 & _). rewrite Hn. by eapply H6.
  - intros sub s. rewrite Hs, Hn'. apply H7.
Qed.

Lemma RemoveSubscriber_elem sl sub x : NoDup sl → x ∈ RemoveSubscriber sl sub ↔ x ∈ sl ∧ x ≠ sub.
Proof.
  induction sl as [|y sl IH]; intros Hn; cbn [RemoveSubscriber]; [set_solver|]. apply NoDup_cons in Hn as [Hy Hn].
  destruct (N.eqb_spec y sub) as [->|Hne]; rewrite ?elem_of_cons, ?IH by done; naive_solver congruence.
Qed.

Lemma RemoveSubscriber_NoDup sl sub : NoDup sl → NoDup (RemoveSubscriber sl sub).
Proof.
  induction sl as [|y sl IH]; intros Hn; cbn [RemoveSubscriber]; [done|]. apply NoDup_cons in Hn as [Hy Hn].
  destruct (y =? sub); [done|]. constructor; [|by apply IH]. rewrite RemoveSubscriber_elem by done. tauto.
Qed.

Lemma RemoveSubscriber_absent sl sub : sub ∉ sl → RemoveSubscriber sl sub = sl.
Proof.
  induction sl as [|y sl IH]; intros Hn; cbn [RemoveSubscriber]; [done|]. destruct (N.eqb_spec y sub) as [->|_]; [set_solver|].
  by rewrite IH by set_solver.
Qed.

Lemma write_frame_fields tag msg st :
  sm_topic (write_frame tag msg st) = sm_topic st ∧ sm_cid (write_frame tag msg st) = sm_cid st ∧
  sm_closed (write_frame tag msg st) = sm_closed st.
Proof. unfold write_frame. destruct (WriteFrame msg); [|done]. by destruct (sm_closed st) eqn:E. Qed.

Lemma write_backlog_fields msgs st :
  let st' := foldl (λ st msg, write_frame None msg st) st msgs in
  sm_topic st' = sm_topic st ∧ sm_cid st' = sm_cid st ∧ sm_closed st' = sm_closed st.
Proof.
  revert st. induction msgs as [|m msgs IH]; intros st; cbn [foldl]; [done|]. destruct (IH (write_frame None m st)) as (-> & -> & ->).
  apply write_frame_fields.
Qed.

Lemma tables_join sy sy' sub s t nick st :
  tables_ok sy → sy_subs sy !! sub = Some s → ss_topics s !! t = None →
  sm_topic st = t → sm_cid st = ss_id s → sm_closed st = false →
  sy_subs sy' = <[sub := s{{ ss_topics := <[t := mkJoinInfo nick (sy_nextStream sy)]> (ss_topics s) }}]> (sy_subs sy) →
  ps_topics (sy_ps sy') = <[t := AddSubscriber (default [] (ps_topics (sy_ps sy) !! t)) sub]> (ps_topics (sy_ps sy)) →
  sy_streams sy' = <[sy_nextStream sy := st]> (sy_streams sy) → sy_nextStream sy' = sy_nextStream sy + 1 →
  sy_nextSub sy' = sy_nextSub sy → tables_ok sy'.
Proof.
  intros [H1 H2 H3 H4 H5 H6 H7] Hs Hnt Ht Hc Ho Esubs Eps Est En En'. set (id := sy_nextStream sy) in *.
  assert (∀ st, sy_streams sy !! id ≠ Some st) as Hfr by (intros st' E%H6; unfold id in E; lia).
  assert (∀ sub' t' j, joined_to sy' sub' t' j ↔ joined_to sy sub' t' j ∨ (sub' = sub ∧ t' = t ∧ j = id)) as Hj.
  { intros sub' t' j. unfold joined_to. rewrite Esubs. destruct (decide (sub' = sub)) as [->|Hn].
    - rewrite lookup_insert_eq. split.
      + intros (s' & info & [= <-] & E & <-). change (<[t := mkJoinInfo nick id]> (ss_topics s) !! t' = Some info) in E.
        apply lookup_insert_Some in E as [[<- <-]|[_ E]]; [by right|left; by eexists s, info].
      + intros [(s' & info & E1 & E2 & <-)|(_ & -> & ->)].
        * rewrite Hs in E1. injection E1 as <-. eexists _, info. split; [done|]. split; [|done].
          change (<[t := mkJoinInfo nick id]> (ss_topics s) !! t' = Some info). rewrite lookup_insert_ne; congruence.
        * eexists _, (mkJoinInfo nick id). split; [done|]. split; [|done].
          change (<[t := mkJoinInfo nick id]> (ss_topics s) !! t = Some (mkJoinInfo nick id)). apply lookup_insert_eq.
    - rewrite lookup_insert_ne by done. naive_solver. }
  assert (sub ∉ default [] (ps_topics (sy_ps sy) !! t)) as Hnm.
  { rewrite H2. intros (j & s' & info & E1 & E2 & _). congruence. }
  split.
  - intros t' sl. rewrite Eps. intros [[<- <-]|[_ E]]%lookup_insert_Some; [|by apply (H1 t')]. unfold AddSubscriber.
    split; [by destruct (default [] _)|]. apply NoDup_app. split_and!; [|set_solver|apply NoDup_singleton].
    destruct (ps_topics (sy_ps sy) !! t) as [sl|] eqn:E; [by apply (H1 t)|constructor].
  - intros t' sub'. rewrite Eps. destruct (decide (t' = t)) as [->|Hn].
    + rewrite lookup_insert_eq. cbn [default]. unfold AddSubscriber. setoid_rewrite elem_of_app. rewrite H2, list_elem_of_singleton.
      setoid_rewrite Hj. naive_solver.
    + rewrite lookup_insert_ne by done. rewrite H2. setoid_rewrite Hj. naive_solver.
  - intros sub' s' t' info E1 E2. assert (joined_to sy' sub' t' (ji_conn info)) as Hj' by (by exists s', info).
    rewrite Est. apply Hj in Hj' as [Hold|(-> & -> & Hid)].
    + destruct Hold as (s0 & info0 & F1 & F2 & F3). destruct (H3 _ _ _ _ F1 F2) as (st0 & G & ? & ? & ?). rewrite F3 in G.
      exists st0. rewrite lookup_insert_ne by (intros ->; by eapply Hfr). split_and!; try done.
      rewrite Esubs in E1. apply lookup_insert_Some in E1 as [[<- <-]|[_ E1]]; [|congruence]. rewrite Hs in F1. injection F1 as <-. done.
    + rewrite Hid, lookup_insert_eq. exists st. rewrite Esubs, lookup_insert_eq in E1. injection E1 as <-. by split_and!.
  - intros sub1 t1 sub2 t2 j. rewrite !Hj. intros [J1|(-> & -> & ->)] [J2|(-> & -> & E)]; [by eapply H4| | |done].
    + subst j. destruct J1 as (s1 & i1 & F1 & F2 & F3). destruct (H3 _ _ _ _ F1 F2) as (st1 & G & _). rewrite F3 in G. by apply Hfr in G.
    + destruct J2 as (s1 & i1 & F1 & F2 & F3). destruct (H3 _ _ _ _ F1 F2) as (st1 & G & _). rewrite F3 in G. by apply Hfr in G.
  - intros j st'. rewrite Est. setoid_rewrite Hj. intros [[<- <-]|[_ E]]%lookup_insert_Some Hcl.
    + exists sub. right. by rewrite Ht.
    + destruct (H5 _ _ E Hcl) as [sub' ?]. exists sub'. by left.
  - intros j st'. rewrite Est, En. intros [[<- _]|[_ E]]%lookup_insert_Some; [lia|]. apply H6 in E. fold id in E. lia.
  - intros sub' s'. rewrite Esubs, En'. intros [[<- _]|[_ E]]%lookup_insert_Some; [by apply (H7 _ s)|by eapply H7].
Qed.

Lemma Subscribe_tables j sy : tables_ok sy → tables_ok (Subscribe conn_string j sy).1.
Proof.
  intros Hok. unfold Subscribe. destruct (sy_subs sy !! jn_sub j) as [s|] eqn:Es; [|done].
  destruct (ss_topics s !! jn_topic j) as [info|] eqn:Et; [done|]. cbn [fst].
  match goal with |- context [foldl ?f ?st ?l] => destruct (write_backlog_fields l st) as (F1 & F2 & F3); set (st1 := foldl f st l) in * end.
  by eapply (tables_join sy _ (jn_sub j) s (jn_topic j) (jn_nick j) st1).
Qed.

Lemma tables_leave sy sy' sub s t info sl :
  tables_ok sy → sy_subs sy !! sub = Some s → ss_topics s !! t = Some info → ps_topics (sy_ps sy) !! t = Some sl →
  sy_subs sy' = <[sub := s{{ ss_topics := delete t (ss_topics s) }}]> (sy_subs sy) →
  ps_topics (sy_ps sy') = match RemoveSubscriber sl sub with [] => delete t (ps_topics (sy_ps sy))
                          | _ => <[t := RemoveSubscriber sl sub]> (ps_topics (sy_ps sy)) end →
  sy_streams sy' = close_stream (ji_conn info) (sy_streams sy) → sy_nextStream sy' = sy_nextStream sy →
  sy_nextSub sy' = sy_nextSub sy → tables_ok sy'.
Proof.
  intros [H1 H2 H3 H4 H5 H6 H7] Hs Hi Hsl Esubs Eps Est En En'.
  assert (∀ t', default [] (ps_topics (sy_ps sy') !! t') =
    if bool_decide (t' = t) then RemoveSubscriber sl sub else default [] (ps_topics (sy_ps sy) !! t')) as Hdef.
  { intros t'. rewrite Eps. case_bool_decide as E; [subst t'|]; destruct (RemoveSubscriber sl sub);
      rewrite ?lookup_delete_eq, ?lookup_insert_eq, ?lookup_delete_ne, ?lookup_insert_ne by done; done. }
  assert (∀ sub' t' j, joined_to sy' sub' t' j ↔ joined_to sy sub' t' j ∧ ¬ (sub' = sub ∧ t' = t)) as Hj.
  { intros sub' t' j. unfold joined_to. rewrite Esubs. destruct (decide (sub' = sub)) as [->|Hn].
    - rewrite lookup_insert_eq. split.
      + intros (s' & i' & [= <-] & E & <-). change (delete t (ss_topics s) !! t' = Some i') in E.
        apply lookup_delete_Some in E as [Hne E]. split; [by eexists s, i'|naive_solver].
      + intros [(s' & i' & E1 & E2 & <-) Hne]. rewrite Hs in E1. injection E1 as <-. eexists _, i'. split; [done|]. split; [|done].
        change (delete t (ss_topics s) !! t' = Some i'). rewrite lookup_delete_ne; [done|naive_solver].
    - rewrite lookup_insert_ne by done. naive_solver. }
  assert (joined_to sy sub t (ji_conn info)) as Hme by (by exists s, info).
  pose proof (H1 _ _ Hsl) as [_ Hnd].
  split.
  - intros t' sl' E. specialize (Hdef t'). rewrite E in Hdef. cbn [default from_option] in Hdef. unfold id in Hdef. revert Hdef. case_bool_decide as Et.
    + intros ->. split; [|by apply RemoveSubscriber_NoDup]. intros En0. rewrite Eps, En0 in E. subst t'. by rewrite lookup_delete_eq in E.
    + intros ->. rewrite Eps in E. destruct (ps_topics (sy_ps sy) !! t') as [sl0|] eqn:E0; [by apply (H1 t')|].
      exfalso. destruct (RemoveSubscriber sl sub); [rewrite lookup_delete_ne in E by done|rewrite lookup_insert_ne in E by done]; congruence.
  - intros t' sub'. rewrite Hdef. setoid_rewrite Hj. case_bool_decide as Et.
    + subst t'. rewrite RemoveSubscriber_elem by done. specialize (H2 t sub'). rewrite Hsl in H2. change (sub' ∈ sl ↔ ∃ id, joined_to sy sub' t id) in H2. rewrite H2. naive_solver.
    + rewrite H2. naive_solver.
  - intros sub' s' t' i' E1 E2. assert (joined_to sy' sub' t' (ji_conn i')) as Hj' by (by exists s', i').
    apply Hj in Hj' as [Hold Hne]. destruct Hold as (s0 & i0 & F1 & F2 & F3). destruct (H3 _ _ _ _ F1 F2) as (st0 & G & ? & ? & ?).
    rewrite F3 in G. exists st0. rewrite Est. unfold close_stream. rewrite lookup_alter_ne; cycle 1.
    { intros E. apply Hne. eapply (H4 sub' t' sub t (ji_conn i')); [by exists s0, i0|]. rewrite <-E. done. }
    split_and!; try done. rewrite Esubs in E1. apply lookup_insert_Some in E1 as [[<- <-]|[_ E1]]; [|congruence].
    rewrite Hs in F1. injection F1 as <-. done.
  - intros sub1 t1 sub2 t2 j. rewrite !Hj. intros [J1 _] [J2 _]. by eapply H4.
  - intros j st'. rewrite Est. unfold close_stream. setoid_rewrite Hj. destruct (decide (ji_conn info = j)) as [<-|Hn].
    + rewrite lookup_alter_eq. intros (st0 & _ & ->)%fmap_Some Hcl. by change (true = false) in Hcl.
    + rewrite lookup_alter_ne by done. intros E Hcl. destruct (H5 _ _ E Hcl) as [sub' Hs']. exists sub'. split; [done|].
      intros [-> Et]. rewrite Et in Hs'. destruct Hs' as (s1 & i1 & F1 & F2 & F3). congruence.
  - intros j st'. rewrite Est, En. unfold close_stream. destruct (decide (ji_conn info = j)) as [<-|Hn].
    + rewrite lookup_alter_eq. intros (st0 & E & _)%fmap_Some. by eapply H6.
    + rewrite lookup_alter_ne by done. apply H6.
  - intros sub' s'. rewrite Esubs, En'. intros [[<- _]|[_ E]]%lookup_insert_Some; [by apply (H7 _ s)|by eapply H7].
Qed.

(** The two ways a leave can go. *)
Lemma Unsubscribe_cases t sub sy :
  tables_ok sy →
  (∃ s info sl, sy_subs sy !! sub = Some s ∧ ss_topics s !! t = Some info ∧ ps_topics (sy_ps sy) !! t = Some sl) ∨
  ps_topics (sy_ps (Unsubscribe t sub sy).1) = ps_topics (sy_ps sy) ∧
    (Unsubscribe t sub sy).1 = sy{{ sy_ps := sy_ps (Unsubscribe t sub sy).1 }} ∧ ps_taps (sy_ps (Unsubscribe t sub sy).1) = ps_taps (sy_ps sy).
Proof.
  intros [H1 H2 _ _ _ _ _]. unfold Unsubscribe. destruct (ps_topics (sy_ps sy) !! t) as [sl|] eqn:Et; [|right; by destruct sy].
  destruct (decide (sub ∈ sl)) as [Hin|Hni].
  - left. assert (∃ id, joined_to sy sub t id) as (id & s & info & E1 & E2 & _) by (apply H2; by rewrite Et). by exists s, info, sl.
  - right. rewrite RemoveSubscriber_absent by done. destruct (H1 t sl Et) as [Hne _]. destruct sl as [|x sl]; [done|].
    match goal with |- context [match sy_subs ?y !! sub with _ => _ end] => set (sy1 := y) end.
    change (sy_subs sy1) with (sy_subs sy).
    assert (∀ s, sy_subs sy !! sub = Some s → ss_topics s !! t = None) as Hnone.
    { intros s E. apply eq_None_not_Some. intros [info Ei]. apply Hni. specialize (H2 t sub). rewrite Et in H2. apply H2.
      by exists (ji_conn info), s, info. }
    assert (ps_topics (sy_ps sy1) = ps_topics (sy_ps sy)) as Hp by (by apply insert_id).
    destruct (sy_subs sy !! sub) as [s|]; [rewrite (Hnone s) by done|]; (split; [exact Hp|]); by destruct sy.
Qed.

Lemma Unsubscribe_tables t sub sy : tables_ok sy → tables_ok (Unsubscribe t sub sy).1.
Proof.
  intros Hok. destruct (Unsubscribe_cases t sub sy Hok) as [(s & info & sl & E1 & E2 & E3)|(Hp & Hsy & _)].
  - unfold Unsubscribe. rewrite E3.
    match goal with |- context [match sy_subs ?y !! sub with _ => _ end] => set (sy1 := y) end.
    change (sy_subs sy1) with (sy_subs sy). rewrite E1, E2. by eapply (tables_leave sy _ sub s t info sl).
  - eapply tables_ok_same; [exact Hok|by right|by rewrite Hsy..].
Qed.

(** A map of streams changed in a way the tables do not look at. *)
Lemma alter_fields (f : sub_stream → sub_stream) k (m : gmap N sub_stream) id :
  (∀ st, sm_topic (f st) = sm_topic st ∧ sm_cid (f st) = sm_cid st ∧ sm_closed (f st) = sm_closed st) →
  (λ st, (sm_topic st, sm_cid st, sm_closed st)) <$> alter f k m !! id =
  (λ st, (sm_topic st, sm_cid st, sm_closed st)) <$> m !! id.
Proof.
  intros Hf. destruct (decide (k = id)) as [->|Hn]; [|by rewrite lookup_alter_ne].
  rewrite lookup_alter_eq. destruct (m !! id) as [st|]; [|done]. cbn [fmap option_fmap option_map]. by destruct (Hf st) as (-> & -> & ->).
Qed.

Lemma deliver_tables id sy : tables_ok sy → tables_ok (deliver_one id sy).
Proof.
  intros Hok. unfold deliver_one. destruct (sy_pubs sy !! id) as [p|]; [|done]. destruct (pb_pending p) as [|[st cid] rest].
  - destruct (pb_taps p) as [|t rest]; [|by apply (tables_ok_same sy); auto].
    destruct (pb_reader p) as [r|]; [|by apply (tables_ok_same sy); auto]. apply (tables_ok_same sy); auto. intros j.
    by apply alter_fields.
  - destruct (pb_picked p) as [[out|]|]; apply (tables_ok_same sy); auto. intros j.
    apply alter_fields. intros st'. apply write_frame_fields.
Qed.

Lemma publish_tables t msg pick reader sy : tables_ok sy → tables_ok (PublishSelect t msg pick reader sy).
Proof. intros Hok. by apply (tables_ok_same sy); auto. Qed.

Lemma reader_tables r data sy : tables_ok sy → tables_ok (reader_round r data sy).
Proof.
  intros Hok. unfold reader_round. destruct (sy_streams sy !! r) as [st|] eqn:Er; [|done].
  destruct (sm_busy st), data; try done. destruct (negb _); [done|]. apply publish_tables. apply (tables_ok_same sy); auto. intros j.
  change (sy_streams _ !! j) with (<[r := st{{ sm_busy := Some (sy_nextPub sy) }}]> (sy_streams sy) !! j) at 1.
  destruct (decide (r = j)) as [->|Hn]; [by rewrite lookup_insert_eq, Er|by rewrite lookup_insert_ne].
Qed.

Lemma ask_tables t nick sub sy : tables_ok sy → tables_ok (Subscribe_ask conn_string t nick sub sy).1.
Proof.
  intros Hok. unfold Subscribe_ask. destruct (sy_subs sy !! sub) as [s|]; [|done].
  destruct (negb _); [done|]. by apply (tables_ok_same sy); auto.
Qed.

Lemma connect_tables cid sy :
  tables_ok sy → tables_ok (sy{{ sy_subs := <[sy_nextSub sy := NewSubscriber cid]> (sy_subs sy); sy_nextSub := sy_nextSub sy + 1 }}).
Proof.
  intros [H1 H2 H3 H4 H5 H6 H7]. match goal with |- tables_ok ?x => set (sy' := x) end.
  assert (sy_subs sy' = <[sy_nextSub sy := NewSubscriber cid]> (sy_subs sy)) as Es by done.
  assert (∀ sub t id, joined_to sy' sub t id ↔ joined_to sy sub t id) as Hj.
  { intros sub t id. unfold joined_to. rewrite Es. destruct (decide (sub = sy_nextSub sy)) as [->|Hn].
    - rewrite lookup_insert_eq. split; [by intros (s & info & [= <-] & E & _)|]. intros (s & info & E%H7 & _). lia.
    - by rewrite lookup_insert_ne. }
  split; try done.
  - intros t sub. setoid_rewrite Hj. apply (H2 t sub).
  - intros sub s t info. rewrite Es. intros [[<- <-]|[_ E]]%lookup_insert_Some Ei; [done|]. by apply (H3 sub s t info).
  - intros sub t sub' t' id. rewrite !Hj. apply H4.
  - intros id st E Hc. setoid_rewrite Hj. by apply H5.
  - intros sub s. rewrite Es. change (sy_nextSub sy') with (sy_nextSub sy + 1). intros [[<- _]|[_ E%H7]]%lookup_insert_Some; lia.
Qed.

Lemma step_tables o sy : tables_ok sy → tables_ok (sys_step conn_string sy o).
Proof.
  intros Hok. destruct o; cbn [sys_step].
  - by apply connect_tables.
  - by apply (tables_ok_same sy); auto.
  - by apply ask_tables.
  - destruct (sy_joining sy !! k) as [j|]; [|done]. apply Subscribe_tables. by apply (tables_ok_same sy); auto.
  - by apply Unsubscribe_tables.
  - unfold LeaveAll. destruct (sy_subs sy !! sub) as [s|]; [|done].
    revert sy Hok. induction (map_to_list (ss_topics s)) as [|[t info] l IH]; intros sy Hok; cbn [foldl]; [done|].
    by apply IH, Unsubscribe_tables.
  - apply (tables_ok_same sy); auto.
  - unfold TapUnsubscribe. destruct (ps_taps (sy_ps sy) !! topic); [|done]. case_bool_decide; [|done]. by apply (tables_ok_same sy); auto.
  - by apply reader_tables.
  - by apply (tables_ok_same sy); auto.
  - by apply publish_tables.
  - by apply deliver_tables.
Qed.

Lemma tables_start w : tables_ok (NewSystem w).
Proof.
  split; try done.
  - intros t sub. split; [by intros ?%not_elem_of_nil|]. by intros (id & s & info & ? & _).
  - by intros sub t sub' t' id (s & info & ? & _).
Qed.
End tables.

(** C27. The broker's tables agree in every interleaving.  A topic is listed exactly while
    someone has joined it, and lists each subscriber that has, once; every join has
    an open stream for its topic and connection that no other join shares, and a
    stream is open only while its join stands. *)
Theorem broker_tables_agree conn_string w ops :
  let sy := foldl (sys_step conn_string) (NewSystem w) ops in
  (∀ t sl, ps_topics (sy_ps sy) !! t = Some sl →
     sl ≠ [] ∧ NoDup sl ∧ ∀ sub, sub ∈ sl ↔ ∃ id, joined_to sy sub t id) ∧
  (∀ t sub id, joined_to sy sub t id → ∃ sl, ps_topics (sy_ps sy) !! t = Some sl ∧ sub ∈ sl) ∧
  (∀ sub t id, joined_to sy sub t id → ∃ s st, sy_subs sy !! sub = Some s ∧ sy_streams sy !! id = Some st ∧
     sm_topic st = t ∧ sm_cid st = ss_id s ∧ sm_closed st = false ∧
     ∀ sub' t', joined_to sy sub' t' id → sub' = sub ∧ t' = t) ∧
  (∀ id st, sy_streams sy !! id = Some st → sm_closed st = false → ∃ sub, joined_to sy sub (sm_topic st) id).
Proof.
  intros sy. assert (tables_ok sy) as [H1 H2 H3 H4 H5 _ _].
  { unfold sy. induction ops as [|o ops IH] using rev_ind; [apply tables_start|]. rewrite foldl_app. by apply step_tables. }
  split_and!.
  - intros t sl E. destruct (H1 t sl E) as [? ?]. split_and!; [done|done|]. intros sub. specialize (H2 t sub). by rewrite E in H2.
  - intros t sub id Hj. assert (sub ∈ default [] (ps_topics (sy_ps sy) !! t)) as Hin by (apply H2; by exists id).
    destruct (ps_topics (sy_ps sy) !! t) as [sl|]; [by exists sl|by apply not_elem_of_nil in Hin].
  - intros sub t id (s & info & E1 & E2 & <-). destruct (H3 _ _ _ _ E1 E2) as (st & ? & ? & ? & ?). exists s, st.
    split_and!; try done. intros sub' t' Hj. apply (H4 _ _ _ _ _ Hj). by exists s, info.
  - done.
Qed.

(** ** What reaches a stream *)

Section deliveries.
Context (conn_string : ConnectionID → string).
Implicit Types (sy : System).

(** What never changes of a stream. *)
Definition static (st : sub_stream) : string * ConnectionID * bool * option (world → ConnectionID → bool) * world * N * list (list N) :=
  (sm_topic st, sm_cid st, sm_publish st, sm_deliver st, sm_joined st, sm_first st, sm_backlog st).

Definition published (f : N * list N) : frame := mkFrame (Some f.1) f.2.
Definition backlog_frames (l : list (list N)) : list frame := mkFrame None <$> filter (λ m, is_Some (WriteFrame m)) l.

(** [b] comes after [a] on a stream: another publication, and a later one when one
    reader ran both. *)
Definition after (history : gmap N publication) (a b : N) : Prop :=
  a ≠ b ∧ ∀ ha hb r, history !! a = Some ha → history !! b = Some hb → pb_reader ha = Some r → pb_reader hb = Some r → a < b.

(** A publication and a stream: it was sent there, with the payload picked when its
    turn came, and the turn of that stream is over. *)
Definition sent_ok sy (d : N) (st : sub_stream) (f : N * list N) : Prop :=
  ∃ h w, sy_history sy !! f.1 = Some h ∧ pb_topic h = sm_topic st ∧ sm_first st ≤ f.1 ∧ pb_pick h w (sm_cid st) = Some f.2 ∧
    (f.1, d, w) ∈ sy_picks sy ∧ ∀ p, sy_pubs sy !! f.1 = Some p → d ∉ (pb_pending p).*1.

(** The publications since the join: the stream is in the snapshot, and unless
    its turn is still to come it was sent one, passed over or the message was too long. *)
Definition dealt_with sy (d : N) (st : sub_stream) (fs : list (N * list N)) : Prop :=
  ∀ id h, sy_history sy !! id = Some h → pb_topic h = sm_topic st → sm_first st ≤ id →
    (∃ p, sy_pubs sy !! id = Some p ∧ d ∈ (pb_pending p).*1) ∨ (∃ m, (id, m) ∈ fs) ∨
    (∃ w, (id, d, w) ∈ sy_picks sy ∧
       (pb_pick h w (sm_cid st) = None ∨ ∃ m, pb_pick h w (sm_cid st) = Some m ∧ WriteFrame m = None)).

Record stream_ok sy (d : N) (st : sub_stream) : Prop := {
  sk_frames : ∃ fs, sm_out st = backlog_frames (sm_backlog st) ++ (published <$> fs) ∧
    StronglySorted (after (sy_history sy)) fs.*1 ∧ Forall (sent_ok sy d st) fs ∧
    (sm_closed st = false → dealt_with sy d st fs);
  sk_first : sm_first st ≤ sy_nextPub sy;
}.

Record pubs_ok sy : Prop := {
  po_hist id : is_Some (sy_history sy !! id) ↔ id < sy_nextPub sy;
  po_live id p : sy_pubs sy !! id = Some p → ∃ h, sy_history sy !! id = Some h ∧ pb_topic p = pb_topic h ∧ pb_pick p = pb_pick h ∧
    pb_reader p = pb_reader h ∧ pb_pending p `suffix_of` pb_pending h;
  po_snap id h : sy_history sy !! id = Some h → NoDup (pb_pending h).*1;
  po_cid id h d cid : sy_history sy !! id = Some h → (d, cid) ∈ pb_pending h →
    ∃ st, sy_streams sy !! d = Some st ∧ sm_cid st = cid ∧ sm_topic st = pb_topic h ∧ sm_first st ≤ id;
  po_busy id p r : sy_pubs sy !! id = Some p → pb_reader p = Some r → ∃ st, sy_streams sy !! r = Some st ∧ sm_busy st = Some id;
  po_last r st id : sy_streams sy !! r = Some st → sm_busy st = Some id →
    ∀ id' h, sy_history sy !! id' = Some h → pb_reader h = Some r → id' ≤ id;
  po_picked id p out : sy_pubs sy !! id = Some p → pb_picked p = Some out →
    ∃ d cid rest w, pb_pending p = (d, cid) :: rest ∧ (id, d, w) ∈ sy_picks sy ∧ pb_pick p w cid = out;
  po_asked id d w : (id, d, w) ∈ sy_picks sy → id < sy_nextPub sy ∧
    ∀ p, sy_pubs sy !! id = Some p → d ∈ (pb_pending p).*1 → is_Some (pb_picked p) ∧ ∃ cid rest, pb_pending p = (d, cid) :: rest;
  po_once : NoDup (sy_picks sy).*1;
}.

Record sys_ok sy : Prop := {
  sy_tables : tables_ok sy;
  sy_pubsok : pubs_ok sy;
  sy_streamsok d st : sy_streams sy !! d = Some st → stream_ok sy d st;
}.

Lemma NoDup_picks (l : list (N * N * world)) x w w' : NoDup l.*1 → (x, w) ∈ l → (x, w') ∈ l → w = w'.
Proof.
  intros Hn (i & Hi)%list_elem_of_lookup (j & Hj)%list_elem_of_lookup.
  assert (i = j) as -> by (eapply (NoDup_lookup l.*1 i j x); [done|by rewrite list_lookup_fmap, Hi|by rewrite list_lookup_fmap, Hj]).
  congruence.
Qed.

Lemma write_frame_static tag m st : static (write_frame tag m st) = static st ∧ sm_busy (write_frame tag m st) = sm_busy st.
Proof. unfold write_frame. destruct (WriteFrame m); [|done]. by destruct (sm_closed st). Qed.

Lemma write_backlog msgs st :
  sm_closed st = false →
  let st' := foldl (λ st msg, write_frame None msg st) st msgs in
  static st' = static st ∧ sm_busy st' = sm_busy st ∧ sm_out st' = sm_out st ++ backlog_frames msgs.
Proof.
  revert st. induction msgs as [|m msgs IH]; intros st Hc; cbn [foldl]; [by rewrite app_nil_r|].
  destruct (IH (write_frame None m st)) as (H1 & H2 & H3); [by rewrite (proj2 (proj2 (write_frame_fields None m st)))|].
  destruct (write_frame_static None m st) as [F1 F2]. rewrite H1, H2, H3, F1, F2. split_and!; [done..|].
  unfold write_frame, backlog_frames. rewrite Hc, filter_cons. destruct (WriteFrame m) as [b|].
  - rewrite decide_True by (by eexists). rewrite fmap_cons.
    change ((sm_out st ++ [mkFrame None m]) ++ (mkFrame None <$> filter (λ m, is_Some (WriteFrame m)) msgs) =
      sm_out st ++ mkFrame None m :: (mkFrame None <$> filter (λ m, is_Some (WriteFrame m)) msgs)). by rewrite <-app_assoc.
  - rewrite decide_False by (by intros []). done.
Qed.

(** A step that adds no publication and sends nothing: streams keep what they are
    and what was written to them, and are closed at most. *)
Definition kept_stream (st st' : sub_stream) : Prop :=
  static st' = static st ∧ sm_busy st' = sm_busy st ∧ sm_out st' = sm_out st ∧ (sm_closed st' = false → sm_closed st = false).

Lemma stream_ok_kept sy sy' d st st' :
  stream_ok sy d st → kept_stream st st' → sy_history sy' = sy_history sy → sy_picks sy' = sy_picks sy →
  sy_pubs sy' = sy_pubs sy → sy_nextPub sy' = sy_nextPub sy → stream_ok sy' d st'.
Proof.
  intros [(fs & F1 & F2 & F3 & F4) Hf] (Hs & _ & Ho & Hc) Eh Es Ep En. injection Hs as S1 S2 S3 S4 S5 S6 S7.
  split; [|by rewrite S6, En]. exists fs. rewrite Ho, S7, Eh. split_and!; [done|done| |].
  - eapply Forall_impl; [exact F3|]. unfold sent_ok. by rewrite Eh, Es, Ep, S1, S2, S6.
  - intros Hcl%Hc%F4. unfold dealt_with. by rewrite Eh, Es, Ep, S1, S2, S6.
Qed.

Lemma sys_ok_kept sy sy' :
  sys_ok sy → tables_ok sy' → sy_history sy' = sy_history sy → sy_picks sy' = sy_picks sy → sy_pubs sy' = sy_pubs sy →
  sy_nextPub sy' = sy_nextPub sy →
  (∀ d st, sy_streams sy !! d = Some st → ∃ st', sy_streams sy' !! d = Some st' ∧ kept_stream st st') →
  (∀ d st', sy_streams sy' !! d = Some st' → is_Some (sy_streams sy !! d)) →
  sys_ok sy'.
Proof.
  intros [Ht Hp Hs] Ht' Eh Es Ep En Hfwd Hdom.
  assert (∀ d st', sy_streams sy' !! d = Some st' → ∃ st, sy_streams sy !! d = Some st ∧ kept_stream st st') as Hback.
  { intros d st' E. destruct (Hdom _ _ E) as [st E0]. destruct (Hfwd d st E0) as (st'' & E' & K). exists st. by simplify_eq. }
  split; [done| |].
  - destruct Hp as [P1 P2 P3 P4 P5 P6 P7 P8 P9]. split; rewrite ?Eh, ?Ep, ?En, ?Es; try done.
    + intros id h d cid E1 E2. destruct (P4 id h d cid E1 E2) as (st & E & ? & ? & ?). destruct (Hfwd d st E) as (st' & E' & K & _).
      injection K as S1 S2 S3 S4 S5 S6 S7. exists st'. by rewrite S1, S2, S6.
    + intros id p r E1 E2. destruct (P5 id p r E1 E2) as (st & E & ?). destruct (Hfwd r st E) as (st' & E' & _ & K & _).
      exists st'. by rewrite K.
    + intros r st' id E1 E2. destruct (Hback r st' E1) as (st & E & _ & K & _). apply (P6 r st id E). by rewrite <-K.
  - intros d st' E. destruct (Hback d st' E) as (st & E0 & K). by eapply stream_ok_kept; [apply Hs|..].
Qed.

Lemma sys_ok_join sy sy' d st :
  sys_ok sy → tables_ok sy' → sy_history sy' = sy_history sy → sy_picks sy' = sy_picks sy → sy_pubs sy' = sy_pubs sy →
  sy_nextPub sy' = sy_nextPub sy → sy_streams sy !! d = None → sy_streams sy' = <[d := st]> (sy_streams sy) →
  sm_busy st = None → sm_first st = sy_nextPub sy → sm_out st = backlog_frames (sm_backlog st) → sys_ok sy'.
Proof.
  intros [Ht [P1 P2 P3 P4 P5 P6 P7 P8 P9] Hs] Ht' Eh Es Ep En Hd Est Hb Hf Ho.
  assert (∀ j x, sy_streams sy !! j = Some x → sy_streams sy' !! j = Some x) as Hfwd
    by (intros j x E; rewrite Est, lookup_insert_ne; congruence).
  split; [done| |].
  - split; rewrite ?Eh, ?Ep, ?En, ?Es; try done.
    + intros id h j cid E1 E2. destruct (P4 id h j cid E1 E2) as (x & E & ?). exists x. auto.
    + intros id p r E1 E2. destruct (P5 id p r E1 E2) as (x & E & ?). exists x. auto.
    + intros r x id. rewrite Est. intros [[<- <-]|[_ E]]%lookup_insert_Some; [congruence|by apply P6].
  - intros j x. rewrite Est. intros [[<- <-]|[_ E]]%lookup_insert_Some.
    + split; [|by rewrite Hf, En]. exists []. rewrite Ho, app_nil_r. split_and!; [done|constructor|constructor|].
      intros _ id h E _ Hle. rewrite Eh in E. assert (id < sy_nextPub sy) by (apply P1; by eexists). lia.
    + by eapply stream_ok_kept; [apply Hs|..].
Qed.

Lemma snapshot_elem sy t d cid :
  (d, cid) ∈ snapshot_subs t sy →
  ∃ sub s info, sub ∈ default [] (ps_topics (sy_ps sy) !! t) ∧ sy_subs sy !! sub = Some s ∧ ss_topics s !! t = Some info ∧
    ji_conn info = d ∧ ss_id s = cid.
Proof.
  unfold snapshot_subs. rewrite list_elem_of_omap. intros (sub & Hin & E). apply bind_Some in E as (s & Es & E).
  apply bind_Some in E as (info & Ei & [= <- <-]). by exists sub, s, info.
Qed.

Lemma snapshot_NoDup sy t : tables_ok sy → NoDup (snapshot_subs t sy).*1.
Proof.
  intros [H1 _ _ H4 _ _ _]. unfold snapshot_subs. set (l := default [] _).
  assert (NoDup l) as Hn by (unfold l; destruct (ps_topics (sy_ps sy) !! t) as [sl|] eqn:E; [by apply (H1 t)|constructor]).
  clearbody l. induction Hn as [|sub l Hsub Hn IH]; [constructor|]. cbn [omap list_omap].
  destruct (sy_subs sy !! sub) as [s|] eqn:Es; cbn [mbind option_bind]; [|done].
  destruct (ss_topics s !! t) as [info|] eqn:Ei; cbn [mbind option_bind]; [|done]. rewrite fmap_cons. cbn [fst].
  constructor; [|done]. intros ([d cid] & Ed & (sub' & Hin & E)%list_elem_of_omap)%list_elem_of_fmap.
  apply bind_Some in E as (s' & Es' & E). apply bind_Some in E as (info' & Ei' & [= <- <-]). cbn [fst] in Ed.
  destruct (H4 sub t sub' t (ji_conn info)) as [-> _]; [by exists s, info|rewrite Ed; by exists s', info'|done].
Qed.

Lemma snapshot_has sy d st :
  tables_ok sy → sy_streams sy !! d = Some st → sm_closed st = false → d ∈ (snapshot_subs (sm_topic st) sy).*1.
Proof.
  intros [_ H2 _ _ H5 _ _] E Hc. destruct (H5 d st E Hc) as (sub & Hj). pose proof Hj as (s & info & E1 & E2 & <-).
  apply list_elem_of_fmap. exists (ji_conn info, ss_id s). split; [done|]. unfold snapshot_subs. apply list_elem_of_omap. exists sub.
  split; [apply H2; by exists (ji_conn info)|]. rewrite E1. cbn [mbind option_bind]. by rewrite E2.
Qed.

Lemma StronglySorted_impl {A} (R S : A → A → Prop) l :
  (∀ x y, x ∈ l → y ∈ l → R x y → S x y) → StronglySorted R l → StronglySorted S l.
Proof.
  intros H Hs. induction Hs as [|x l Hs IH Hx]; [constructor|]. constructor.
  - apply IH. intros y z ? ?. apply H; by right.
  - rewrite Forall_forall in *. intros y Hy. apply H; [by left|by right|by apply Hx].
Qed.

Lemma StronglySorted_snoc {A} (R : A → A → Prop) l x :
  StronglySorted R l → (∀ y, y ∈ l → R y x) → StronglySorted R (l ++ [x]).
Proof.
  intros Hs Hx. induction Hs as [|y l Hs IH Hy]; [repeat constructor|]. cbn [app]. constructor.
  - apply IH. intros z Hz. apply Hx. by right.
  - apply Forall_app. split; [done|]. apply Forall_singleton. apply Hx. by left.
Qed.

(** A new publication: the streams are as they were, but for its reader. *)
Lemma sys_ok_publish sy sy' t msg pick taps reader :
  let id := sy_nextPub sy in
  let p := mkPublication t msg pick (snapshot_subs t sy) None taps reader in
  sys_ok sy → tables_ok sy' → sy_history sy' = <[id := p]> (sy_history sy) → sy_picks sy' = sy_picks sy →
  sy_pubs sy' = <[id := p]> (sy_pubs sy) → sy_nextPub sy' = id + 1 →
  (∀ d st, sy_streams sy !! d = Some st → ∃ st', sy_streams sy' !! d = Some st' ∧ static st' = static st ∧ sm_out st' = sm_out st ∧
     sm_closed st' = sm_closed st ∧ sm_busy st' = if bool_decide (reader = Some d) then Some id else sm_busy st) →
  (∀ d st', sy_streams sy' !! d = Some st' → is_Some (sy_streams sy !! d)) →
  (∀ r, reader = Some r → ∃ st, sy_streams sy !! r = Some st ∧ sm_busy st = None) →
  sys_ok sy'.
Proof.
  intros id p [Ht [P1 P2 P3 P4 P5 P6 P7 P8 P9] Hs] Ht' Eh Es Ep En Hfwd Hdom Hrd.
  assert (∀ j h, sy_history sy !! j = Some h → j < id) as Hlt by (intros j h E; apply P1; by eexists).
  assert (∀ j q, sy_pubs sy !! j = Some q → j < id) as Hlt' by (intros j q E; destruct (P2 _ _ E) as (h & ? & _); by eapply Hlt).
  split; [done| |].
  - split.
    + intros j. rewrite Eh, En. destruct (decide (id = j)) as [<-|Hn]; [rewrite lookup_insert_eq; split; [lia|by eexists]|].
      rewrite lookup_insert_ne, P1 by done. fold id. lia.
    + intros j q. rewrite Ep, Eh. intros [[<- <-]|[Hn E]]%lookup_insert_Some; [exists p; rewrite lookup_insert_eq; by split_and!|].
      rewrite lookup_insert_ne by done. by apply P2.
    + intros j h. rewrite Eh. intros [[<- <-]|[Hn E]]%lookup_insert_Some; [by apply snapshot_NoDup|by apply (P3 j)].
    + intros j h d cid. rewrite Eh. intros [[<- <-]|[Hn E]]%lookup_insert_Some Hin.
      * apply snapshot_elem in Hin as (sub & s & info & _ & E1 & E2 & <- & <-).
        destruct (to_stream _ Ht _ _ _ _ E1 E2) as (st & E & ? & ? & _). destruct (Hfwd _ _ E) as (st' & E' & K & _).
        injection K as S1 S2 S3 S4 S5 S6 S7. exists st'. rewrite S1, S2, S6. split_and!; try done. apply (sk_first _ _ _ (Hs _ _ E)).
      * destruct (P4 j h d cid E Hin) as (st & E0 & ? & ? & ?). destruct (Hfwd _ _ E0) as (st' & E' & K & _).
        injection K as S1 S2 S3 S4 S5 S6 S7. exists st'. by rewrite S1, S2, S6.
    + intros j q r. rewrite Ep. intros [[<- <-]|[Hn E]]%lookup_insert_Some Hr.
      * cbn [p pb_reader] in Hr. destruct (Hrd r Hr) as (st & E & _). destruct (Hfwd _ _ E) as (st' & E' & _ & _ & _ & Hb).
        rewrite bool_decide_eq_true_2 in Hb by done. by exists st'.
      * destruct (P5 j q r E Hr) as (st & E0 & Hb0). destruct (Hfwd _ _ E0) as (st' & E' & _ & _ & _ & Hb). exists st'. split; [done|].
        rewrite Hb. rewrite bool_decide_eq_false_2; [done|]. intros Hrr. destruct (Hrd r Hrr) as (st0 & E1 & Hb1). congruence.
    + intros r st' j E Hb j' h Eh' Hr'. destruct (Hdom _ _ E) as [st E0]. destruct (Hfwd _ _ E0) as (st'' & E' & _ & _ & _ & Hb').
      assert (st'' = st') as -> by congruence. rewrite Hb' in Hb. rewrite Eh in Eh'. revert Hb. case_bool_decide as Hc.
      * intros [= <-]. apply lookup_insert_Some in Eh' as [[<- _]|[_ Eh']]; [lia|]. specialize (Hlt _ _ Eh'). lia.
      * intros Hb. apply lookup_insert_Some in Eh' as [[<- <-]|[_ Eh']]; [done|]. by apply (P6 r st j E0 Hb j' h).
    + intros j q out. rewrite Ep, Es. intros [[<- <-]|[_ E]]%lookup_insert_Some Hq; [done|]. by apply (P7 j q out).
    + intros j d w. rewrite Ep, Es, En. intros Hin. destruct (P8 j d w Hin) as [Hj Hq]. fold id in Hj. split; [lia|].
      rewrite lookup_insert_ne by lia. exact Hq.
    + by rewrite Es.
  - intros d st' E. destruct (Hdom _ _ E) as [st E0]. destruct (Hfwd _ _ E0) as (st'' & E' & K & Ko & Kc & _).
    assert (st'' = st') as -> by congruence. injection K as S1 S2 S3 S4 S5 S6 S7.
    destruct (Hs _ _ E0) as [(fs & F1 & F2 & F3 & F4) Hf]. split; [|rewrite S6, En; fold id in Hf; lia].
    assert (∀ f, f ∈ fs → f.1 < id) as Hfs.
    { intros f Hin. rewrite Forall_forall in F3. destruct (F3 f Hin) as (h & _ & Hh & _). by eapply Hlt. }
    exists fs. rewrite Ko, S7, Kc. split_and!; [done| | |].
    + eapply StronglySorted_impl; [|exact F2]. intros a b (fa & -> & Ha)%list_elem_of_fmap (fb & -> & Hb)%list_elem_of_fmap [Hne Hr].
      split; [done|]. intros ha hb r. rewrite Eh. apply Hfs in Ha, Hb. rewrite !lookup_insert_ne by lia. apply Hr.
    + apply Forall_forall. intros f Hin. rewrite Forall_forall in F3. destruct (F3 f Hin) as (h & w & Hh & ? & ? & ? & ? & Hp).
      apply Hfs in Hin. exists h, w. rewrite Eh, Es, Ep, S1, S2, S6, !lookup_insert_ne by lia. by split_and!.
    + intros Hcl j h. rewrite Eh, Es, S1, S2, S6, Ep. intros [[<- <-]|[Hn Ej]]%lookup_insert_Some Htp Hle.
      * left. exists p. rewrite lookup_insert_eq. split; [done|]. cbn [p pb_pending]. change t with (pb_topic p). rewrite Htp.
        by apply snapshot_has.
      * rewrite lookup_insert_ne by done. by apply (F4 Hcl j h).
Qed.

(** The write to one stream [d] of the publication [id]: [out] is what was picked for
    it at [w]. *)
Section turn.
Context (sy sy' : System) (id d : N) (cid : ConnectionID) (p : publication) (rest : list (N * ConnectionID)).
Context (w : world) (out : option (list N)).
Hypothesis Hok : sys_ok sy.
Hypothesis Htab : tables_ok sy'.
Hypothesis Hp : sy_pubs sy !! id = Some p.
Hypothesis Hpend : pb_pending p = (d, cid) :: rest.
Hypothesis Hout : pb_pick p w cid = out.
Hypothesis Hasked : (id, d, w) ∈ sy_picks sy.
Hypothesis Eh : sy_history sy' = sy_history sy.
Hypothesis Ep : sy_pubs sy' = <[id := p{{ pb_pending := rest; pb_picked := None }}]> (sy_pubs sy).
Hypothesis En : sy_nextPub sy' = sy_nextPub sy.
Hypothesis Es : sy_picks sy' = sy_picks sy.
Hypothesis Est : sy_streams sy' = match out with None => sy_streams sy
                                  | Some m => alter (write_frame (Some id) m) d (sy_streams sy) end.

Lemma turn_history : ∃ h, sy_history sy !! id = Some h ∧ pb_topic p = pb_topic h ∧ pb_pick p = pb_pick h ∧ pb_reader p = pb_reader h ∧
  (d, cid) ∈ pb_pending h ∧ d ∉ rest.*1.
Proof.
  destruct (sy_pubsok _ Hok) as [_ P2 P3 _ _ _ _ _ _]. destruct (P2 _ _ Hp) as (h & H1 & H2 & H3 & H4 & [k Hk]). exists h. rewrite Hpend in Hk.
  split_and!; try done.
  - rewrite Hk. apply elem_of_app. right. by left.
  - apply P3 in H1. rewrite Hk, fmap_app, fmap_cons in H1. apply NoDup_app in H1 as (_ & _ & H1). by apply NoDup_cons in H1 as [? _].
Qed.

Lemma turn_stream j : static <$> sy_streams sy' !! j = static <$> sy_streams sy !! j ∧
  sm_busy <$> sy_streams sy' !! j = sm_busy <$> sy_streams sy !! j.
Proof.
  rewrite Est. destruct out as [m|]; [|done]. destruct (decide (d = j)) as [<-|Hn]; [|by rewrite lookup_alter_ne].
  rewrite lookup_alter_eq. destruct (sy_streams sy !! d) as [st|]; [|done]. cbn [fmap option_fmap option_map].
  by destruct (write_frame_static (Some id) m st) as [-> ->].
Qed.

Lemma turn_fwd j st : sy_streams sy !! j = Some st → ∃ st', sy_streams sy' !! j = Some st' ∧ static st' = static st ∧ sm_busy st' = sm_busy st.
Proof.
  intros E. destruct (turn_stream j) as [H1 H2]. rewrite E in H1, H2. destruct (sy_streams sy' !! j) as [st'|]; [|done].
  exists st'. cbn [fmap option_fmap option_map] in H1, H2. split_and!; congruence.
Qed.

Lemma turn_pubs : pubs_ok sy'.
Proof.
  destruct (sy_pubsok _ Hok) as [P1 P2 P3 P4 P5 P6 P7 P8 P9]. split; rewrite ?Eh, ?En, ?Es; try done.
  - intros j q. rewrite Ep. intros [[<- <-]|[_ E]]%lookup_insert_Some; [|by apply P2].
    destruct (P2 _ _ Hp) as (h & H1 & H2 & H3 & H4 & H5). exists h. split_and!; try done.
    change (rest `suffix_of` pb_pending h). rewrite Hpend in H5. by eapply suffix_cons_l.
  - intros j h d' cid' E1 E2. destruct (P4 j h d' cid' E1 E2) as (st & E & ? & ? & ?). destruct (turn_fwd _ _ E) as (st' & E' & K & _).
    injection K as S1 S2 S3 S4 S5 S6 S7. exists st'. by rewrite S1, S2, S6.
  - intros j q r. rewrite Ep. intros [[<- <-]|[_ E]]%lookup_insert_Some Hr.
    + destruct (P5 id p r Hp Hr) as (st & E & ?). destruct (turn_fwd _ _ E) as (st' & E' & _ & K). exists st'. by rewrite K.
    + destruct (P5 j q r E Hr) as (st & E0 & ?). destruct (turn_fwd _ _ E0) as (st' & E' & _ & K). exists st'. by rewrite K.
  - intros r st' j E Hb. destruct (turn_stream r) as [_ H2]. rewrite E in H2. destruct (sy_streams sy !! r) as [st|] eqn:E0; [|done].
    apply (P6 r st j E0). cbn [fmap option_fmap option_map] in H2. congruence.
  - intros j q o. rewrite Ep. intros [[<- <-]|[_ E]]%lookup_insert_Some Hq; [done|by apply (P7 j q o)].
  - intros j d' w' Hin. destruct (P8 j d' w' Hin) as [Hj Hq]. split; [done|]. intros q. rewrite Ep.
    intros [[<- <-]|[_ E]]%lookup_insert_Some; [|by apply Hq]. intros Hd. change (d' ∈ rest.*1) in Hd. destruct (Hq p Hp) as (_ & cid' & rest' & E); [rewrite Hpend, fmap_cons; by right|].
    rewrite Hpend in E. injection E as <- <- <-. destruct turn_history as (h & _ & _ & _ & _ & _ & Hn). done.
Qed.

(** The frames already on a stream stay dealt with. *)
Lemma turn_sent j st st' f : static st' = static st → sent_ok sy j st f → sent_ok sy' j st' f.
Proof.
  intros K (h & w' & H1 & H2 & H3 & H4 & H5 & H6). injection K as S1 S2 S3 S4 S5 S6 S7. exists h, w'. rewrite Eh, S1, S2, S6.
  split_and!; try done.
  - by rewrite Es.
  - intros q. rewrite Ep. intros [[Ei <-]|[_ E]]%lookup_insert_Some; [|by apply H6]. intros Hin. rewrite <-Ei in H6. apply (H6 p Hp).
    rewrite Hpend, fmap_cons. by right.
Qed.

Lemma turn_dealt j st st' fs fs' :
  static st' = static st → fs ⊆ fs' →
  (j = d → (∃ m, (id, m) ∈ fs') ∨ match out with None => True | Some m => WriteFrame m = None end) →
  sm_cid st = cid ∨ j ≠ d →
  dealt_with sy j st fs → dealt_with sy' j st' fs'.
Proof.
  intros K Hsub Hme Hcid H i h. injection K as S1 S2 S3 S4 S5 S6 S7. rewrite Eh, S1, S2, S6. intros H1 H2 H3.
  destruct turn_history as (h0 & T1 & _ & T3 & _). destruct (decide (i = id)) as [->|Hi].
  - assert (h0 = h) as -> by congruence. destruct (decide (j = d)) as [->|Hj].
    + destruct (Hme eq_refl) as [[m Hm]|Hm]; [right; left; by exists m|]. right. right. exists w. destruct Hcid as [->|?]; [|done].
      rewrite Es. split; [done|]. rewrite <-T3, Hout. destruct out as [m|]; [right; by exists m|by left].
    + destruct (H id h H1 H2 H3) as [(q & E & Hin)|[[m Hm]|Hw]]; [|right; left; exists m; by apply Hsub|right; right; by rewrite Es].
      left. rewrite Ep, lookup_insert_eq. eexists. split; [done|]. change (j ∈ rest.*1). rewrite Hp in E. injection E as <-.
      rewrite Hpend, fmap_cons in Hin. apply elem_of_cons in Hin as [?|?]; [done|done].
  - destruct (H i h H1 H2 H3) as [(q & E & Hin)|[[m Hm]|Hw]]; [|right; left; exists m; by apply Hsub|right; right; by rewrite Es].
    left. exists q. by rewrite Ep, lookup_insert_ne.
Qed.

Lemma turn_after st fs f :
  sy_streams sy !! d = Some st → Forall (sent_ok sy d st) fs → f ∈ fs → after (sy_history sy') f.1 id.
Proof.
  intros E F3 Hf. rewrite Forall_forall in F3. destruct (F3 f Hf) as (h & w' & H1 & _ & _ & _ & _ & H6). rewrite Eh. split.
  - intros Ei. rewrite Ei in H6. apply (H6 p Hp). rewrite Hpend, fmap_cons. by left.
  - intros ha hb r E1 E2 R1 R2. destruct (sy_pubsok _ Hok) as [_ P2 _ _ P5 P6 _ _ _]. destruct (P2 _ _ Hp) as (h0 & G1 & _ & _ & G4 & _).
    assert (hb = h0) as -> by congruence. rewrite <-G4 in R2. destruct (P5 id p r Hp R2) as (str & Er & Hb).
    pose proof (P6 r str id Er Hb f.1 ha E1 R1). assert (f.1 ≠ id); [|lia]. intros Ei. rewrite Ei in H6. apply (H6 p Hp).
    rewrite Hpend, fmap_cons. by left.
Qed.

Lemma turn_ok : sys_ok sy'.
Proof.
  split; [exact Htab|exact turn_pubs|]. destruct turn_history as (h & T1 & T2 & T3 & T4 & T5 & T6).
  destruct (po_cid _ (sy_pubsok _ Hok) _ _ _ _ T1 T5) as (std & Ed & Hcid & Htop & Hfirst).
  intros j st' E'. destruct (decide (j = d)) as [->|Hj]; cycle 1.
  - assert (sy_streams sy !! j = Some st') as E.
    { rewrite Est in E'. destruct out; [|done]. by rewrite lookup_alter_ne in E' by done. }
    destruct (sy_streamsok _ Hok _ _ E) as [(fs & F1 & F2 & F3 & F4) Hf]. split; [|by rewrite En]. exists fs. rewrite Eh. split_and!; [done|done| |].
    + eapply Forall_impl; [exact F3|]. intros f. by apply turn_sent.
    + intros Hcl. eapply turn_dealt; [done|done|done|by right|by apply F4].
  - destruct (sy_streamsok _ Hok _ _ Ed) as [(fs & F1 & F2 & F3 & F4) Hf].
    assert (static st' = static std) as K by (destruct (turn_fwd _ _ Ed) as (x & E & K & _); congruence).
    pose proof K as [= S1 S2 S3 S4 S5 S6 S7]. split; [|by rewrite S6, En].
    assert (Forall (sent_ok sy' d st') fs) as F3' by (eapply Forall_impl; [exact F3|]; intros f; by apply turn_sent).
    assert (∀ m, out = Some m → st' = write_frame (Some id) m std) as Hw.
    { intros m ->. rewrite Est, lookup_alter_eq, Ed in E'. cbn [fmap option_fmap option_map] in E'. congruence. }
    assert (out = None → st' = std) as Hw0 by (intros ->; rewrite Est in E'; congruence).
    pose proof (λ x fs', turn_dealt d std x fs fs') as Hdl. pose proof (turn_after std fs) as Haf.
    destruct out as [m|] eqn:Eo; cycle 1.
    { rewrite (Hw0 eq_refl) in *. exists fs. rewrite Eh. split_and!; try done. intros Hcl.
      apply Hdl; [done|done|by right|by left|by apply F4]. }
    rewrite (Hw m eq_refl) in *. clear Hw Hw0. unfold write_frame in *. destruct (WriteFrame m) as [b|] eqn:Ew; cycle 1.
    { exists fs. rewrite Eh. split_and!; try done. intros Hcl. apply Hdl; [done|done|by right|by left|by apply F4]. }
    destruct (sm_closed std) eqn:Ec.
    { exists fs. rewrite Eh, Ec. by split_and!. }
    exists (fs ++ [(id, m)]). rewrite fmap_app, fmap_app. split_and!.
    + change (sm_out std ++ [mkFrame (Some id) m] = backlog_frames (sm_backlog std) ++ (published <$> fs) ++ [mkFrame (Some id) m]).
      by rewrite F1, app_assoc.
    + apply StronglySorted_snoc; [by rewrite Eh|]. intros a (f & -> & Hin)%list_elem_of_fmap. by apply Haf.
    + apply Forall_app. split; [done|]. apply Forall_singleton. exists h, w. rewrite Eh. cbn [fst snd]. split_and!; try done.
      * rewrite S2, Hcid, <-T3. exact Hout.
      * by rewrite Es.
      * intros q. rewrite Ep, lookup_insert_eq. intros [= <-]. exact T6.
    + intros _. apply Hdl; [done|set_solver| |by left|by apply F4].
      intros _. left. exists m. set_solver.
Qed.
End turn.

(** A turn that writes to no stream: the payload is picked for the first one left, or
    a tap is called. *)
Lemma sys_ok_quiet sy sy' id p p' asked :
  sys_ok sy → tables_ok sy' → sy_pubs sy !! id = Some p → pb_pending p' = pb_pending p → pb_topic p' = pb_topic p →
  pb_pick p' = pb_pick p → pb_reader p' = pb_reader p → sy_history sy' = sy_history sy → sy_picks sy' = sy_picks sy ++ asked →
  (asked = [] ∧ pb_picked p' = pb_picked p ∨
   ∃ d cid rest w, pb_pending p = (d, cid) :: rest ∧ pb_picked p = None ∧ asked = [(id, d, w)] ∧
     pb_picked p' = Some (pb_pick p w cid)) →
  sy_pubs sy' = <[id := p']> (sy_pubs sy) → sy_nextPub sy' = sy_nextPub sy → sy_streams sy' = sy_streams sy → sys_ok sy'.
Proof.
  intros [Ht [P1 P2 P3 P4 P5 P6 P7 P8 P9] Hs] Ht' Hp K1 K2 K3 K4 Eh Es Hask Ep En Est.
  assert (∀ x, x ∈ sy_picks sy → x ∈ sy_picks sy') as Hmono by (intros x Hx; rewrite Es; apply elem_of_app; by left).
  split; [done| |].
  - split; rewrite ?Eh, ?En, ?Est; try done.
    + intros j q. rewrite Ep. intros [[<- <-]|[_ E]]%lookup_insert_Some; [rewrite K1, K2, K3, K4; by apply P2|by apply P2].
    + intros j q r. rewrite Ep. intros [[<- <-]|[_ E]]%lookup_insert_Some; [rewrite K4; by apply P5|by apply P5].
    + intros j q out. rewrite Ep. intros [[<- <-]|[_ E]]%lookup_insert_Some Hq; cycle 1.
      { destruct (P7 j q out E Hq) as (d & cid & rest & w & ? & ? & ?). exists d, cid, rest, w. auto. }
      rewrite K1, K3. destruct Hask as [[_ K5]|(d & cid & rest & w & G1 & _ & G3 & G4)].
      * rewrite K5 in Hq. destruct (P7 id p out Hp Hq) as (d & cid & rest & w & ? & ? & ?). exists d, cid, rest, w. auto.
      * exists d, cid, rest, w. split_and!; [done| |congruence]. rewrite Es, G3. apply elem_of_app. right. by left.
    + intros j d w. rewrite Es, Ep. intros [Hin|Hin]%elem_of_app.
      * destruct (P8 j d w Hin) as [Hj Hq]. split; [done|]. intros q [[<- <-]|[_ E]]%lookup_insert_Some; [|by apply Hq].
        rewrite K1. intros Hd. destruct (Hq p Hp Hd) as [[x Hx] ?]. split; [|done].
        destruct Hask as [[_ ->]|(? & ? & ? & ? & _ & G2 & _)]; [by eexists|congruence].
      * destruct Hask as [[-> _]|(d' & cid & rest & w' & G1 & _ & -> & G4)]; [by apply not_elem_of_nil in Hin|].
        apply list_elem_of_singleton in Hin as [= -> -> ->]. split.
        { apply P1. destruct (P2 id p Hp) as (h & ? & _). by eexists. }
        intros q. rewrite lookup_insert_eq. intros [= <-] _. rewrite K1, G4. split; [by eexists|by exists cid, rest].
    + rewrite Es, fmap_app. destruct Hask as [[-> _]|(d & cid & rest & w & G1 & G2 & -> & _)]; [by rewrite app_nil_r|].
      apply NoDup_app. split_and!; [done| |apply NoDup_singleton]. intros x ([[j d'] w'] & -> & Hin)%list_elem_of_fmap Hx.
      apply list_elem_of_singleton in Hx as [= -> ->]. destruct (P8 _ _ _ Hin) as [_ Hq].
      destruct (Hq p Hp) as [[y Hy] _]; [by rewrite G1; left|congruence].
  - intros d st. rewrite Est. intros E. destruct (Hs _ _ E) as [(fs & F1 & F2 & F3 & F4) Hf]. split; [|by rewrite En]. exists fs. rewrite Eh.
    split_and!; [done|done| |].
    + eapply Forall_impl; [exact F3|]. intros f (h & w & H1 & H2 & H3 & H4 & H5 & H6). exists h, w. rewrite Eh. split_and!; try done; [by apply Hmono|].
      intros q. rewrite Ep. intros [[Ei <-]|[_ E']]%lookup_insert_Some; [|by apply H6]. rewrite K1. rewrite <-Ei in H6. by apply H6.
    + intros Hc j h. rewrite Eh, Ep. intros H1 H2 H3. destruct (F4 Hc j h H1 H2 H3) as [(q & Eq & Hin)|[?|(w & ? & ?)]];
        [left|by right; left|right; right; exists w; split; [by apply Hmono|done]].
      destruct (decide (id = j)) as [<-|Hn]; [|exists q; by rewrite lookup_insert_ne].
      exists p'. rewrite lookup_insert_eq, K1. split; [done|]. rewrite Hp in Eq. by injection Eq as <-.
Qed.

Lemma sys_ok_done sy sy' id p :
  sys_ok sy → tables_ok sy' → sy_pubs sy !! id = Some p → pb_pending p = [] → sy_history sy' = sy_history sy →
  sy_picks sy' = sy_picks sy → sy_pubs sy' = delete id (sy_pubs sy) → sy_nextPub sy' = sy_nextPub sy →
  sy_streams sy' = match pb_reader p with None => sy_streams sy
                   | Some r => alter (λ st, st{{ sm_busy := None }}) r (sy_streams sy) end → sys_ok sy'.
Proof.
  intros [Ht [P1 P2 P3 P4 P5 P6 P7 P8 P9] Hs] Ht' Hp Hnil Eh Es Ep En Est.
  assert (∀ d st, sy_streams sy !! d = Some st → ∃ st', sy_streams sy' !! d = Some st' ∧ static st' = static st ∧ sm_out st' = sm_out st ∧
    sm_closed st' = sm_closed st ∧ (sm_busy st' = sm_busy st ∨ (pb_reader p = Some d ∧ sm_busy st' = None))) as Hfwd.
  { intros d st E. rewrite Est. destruct (pb_reader p) as [r|]; [|by exists st; split_and!; [..|left]]. destruct (decide (r = d)) as [->|Hn].
    - rewrite lookup_alter_eq, E. eexists. split; [done|]. split_and!; try done. by right.
    - rewrite lookup_alter_ne by done. by exists st; split_and!; [..|left]. }
  assert (∀ d st', sy_streams sy' !! d = Some st' → ∃ st, sy_streams sy !! d = Some st) as Hdom.
  { intros d st'. rewrite Est. destruct (pb_reader p) as [r|]; [|by eexists].
    destruct (decide (r = d)) as [->|Hn]; [rewrite lookup_alter_eq; intros (st & E & _)%fmap_Some; by exists st|].
    rewrite lookup_alter_ne by done. by eexists. }
  split; [done| |].
  - split; rewrite ?Eh, ?En, ?Es; try done.
    + intros j q. rewrite Ep. intros [_ E]%lookup_delete_Some. by apply P2.
    + intros j h d cid E1 E2. destruct (P4 j h d cid E1 E2) as (st & E & ? & ? & ?). destruct (Hfwd _ _ E) as (st' & E' & K & _).
      injection K as S1 S2 S3 S4 S5 S6 S7. exists st'. by rewrite S1, S2, S6.
    + intros j q r. rewrite Ep. intros [Hne E]%lookup_delete_Some Hr. destruct (P5 j q r E Hr) as (st & E0 & Hb).
      destruct (Hfwd _ _ E0) as (st' & E' & _ & _ & _ & [K|[K _]]); [exists st'; by rewrite K|].
      destruct (P5 id p r Hp K) as (st1 & E1 & Hb1). congruence.
    + intros r st' j E Hb. destruct (Hdom _ _ E) as [st E0]. destruct (Hfwd _ _ E0) as (st'' & E' & _ & _ & _ & K).
      assert (st'' = st') as -> by congruence. destruct K as [K|[_ K]]; [|congruence]. apply (P6 r st j E0). congruence.
    + intros j q out. rewrite Ep. intros [_ E]%lookup_delete_Some. by apply P7.
    + intros j d w Hin. destruct (P8 j d w Hin) as [? Hq]. split; [done|]. intros q. rewrite Ep. intros [_ E]%lookup_delete_Some. by apply Hq.
  - intros d st' E. destruct (Hdom _ _ E) as [st E0]. destruct (Hfwd _ _ E0) as (st'' & E' & K & Ko & Kc & _).
    assert (st'' = st') as -> by congruence. injection K as S1 S2 S3 S4 S5 S6 S7.
    destruct (Hs _ _ E0) as [(fs & F1 & F2 & F3 & F4) Hf]. split; [|by rewrite S6, En]. exists fs. rewrite Ko, S7, Kc, Eh. split_and!; [done|done| |].
    + eapply Forall_impl; [exact F3|]. intros f (h & w & H1 & H2 & H3 & H4 & H5 & H6). exists h, w. rewrite Eh, Es, S1, S2, S6. split_and!; try done.
      intros q. rewrite Ep. intros [_ E1]%lookup_delete_Some. by apply H6.
    + intros Hc j h. rewrite Eh, Es, Ep, S1, S2, S6. intros H1 H2 H3. destruct (F4 Hc j h H1 H2 H3) as [(q & Eq & Hin)|?]; [left|by right].
      exists q. rewrite lookup_delete_ne; [done|]. intros ->. assert (q = p) as -> by congruence. rewrite Hnil in Hin. by apply not_elem_of_nil in Hin.
Qed.

Lemma sys_ok_same sy sy' :
  sys_ok sy → tables_ok sy' → sy_history sy' = sy_history sy → sy_picks sy' = sy_picks sy → sy_pubs sy' = sy_pubs sy →
  sy_nextPub sy' = sy_nextPub sy → sy_streams sy' = sy_streams sy → sys_ok sy'.
Proof.
  intros Hok Ht Eh Es Ep En Est. eapply sys_ok_kept; [done..| |].
  - intros d st E. exists st. by rewrite Est.
  - intros d st. rewrite Est. by eexists.
Qed.

Lemma Subscribe_ok j sy : sys_ok sy → sys_ok (Subscribe conn_string j sy).1.
Proof.
  intros Hok. pose proof (Subscribe_tables conn_string j sy (sy_tables _ Hok)) as Ht. revert Ht.
  unfold Subscribe. destruct (sy_subs sy !! jn_sub j) as [s|] eqn:Es; [|done].
  destruct (ss_topics s !! jn_topic j) as [info|] eqn:Et; [done|]. cbn [fst].
  match goal with |- context [foldl ?f ?st ?l] => destruct (write_backlog l st eq_refl) as (F1 & F2 & F3); set (st1 := foldl f st l) in * end.
  injection F1 as S1 S2 S3 S4 S5 S6 S7. intros Ht. eapply (sys_ok_join sy _ (sy_nextStream sy) st1); try done.
  - destruct (sy_streams sy !! sy_nextStream sy) eqn:E; [|done]. apply (to_fresh _ (sy_tables _ Hok)) in E. lia.
  - by rewrite S7.
Qed.

Lemma Unsubscribe_ok t sub sy : sys_ok sy → sys_ok (Unsubscribe t sub sy).1.
Proof.
  intros Hok. pose proof (Unsubscribe_tables t sub sy (sy_tables _ Hok)) as Ht. revert Ht.
  destruct (Unsubscribe_cases t sub sy (sy_tables _ Hok)) as [(s & info & sl & E1 & E2 & E3)|(_ & Hsy & _)].
  - unfold Unsubscribe. rewrite E3.
    match goal with |- context [match sy_subs ?y !! sub with _ => _ end] => set (sy1 := y) end.
    change (sy_subs sy1) with (sy_subs sy). rewrite E1, E2. cbn [fst]. intros Ht. eapply (sys_ok_kept sy); try done.
    + intros d st E. change (∃ st', close_stream (ji_conn info) (sy_streams sy) !! d = Some st' ∧ kept_stream st st'). unfold close_stream.
      destruct (decide (ji_conn info = d)) as [<-|Hn].
      * rewrite lookup_alter_eq, E. eexists. by split.
      * rewrite lookup_alter_ne by done. by exists st.
    + intros d st. change (close_stream (ji_conn info) (sy_streams sy) !! d = Some st → is_Some (sy_streams sy !! d)). unfold close_stream.
      destruct (decide (ji_conn info = d)) as [<-|Hn]; [rewrite lookup_alter_eq; intros (x & -> & _)%fmap_Some; by eexists|].
      rewrite lookup_alter_ne by done. by eexists.
  - intros Ht. eapply sys_ok_same; [exact Hok|done|by rewrite Hsy..].
Qed.

Lemma deliver_ok id sy : sys_ok sy → sys_ok (deliver_one id sy).
Proof.
  intros Hok. pose proof (deliver_tables id sy (sy_tables _ Hok)) as Ht. revert Ht. unfold deliver_one.
  destruct (sy_pubs sy !! id) as [p|] eqn:Ep; [|done]. destruct (pb_pending p) as [|[d cid] rest] eqn:Epend.
  - destruct (pb_taps p) as [|t rest].
    + intros Ht. eapply (sys_ok_done sy _ id p); try done; by destruct (pb_reader p).
    + intros Ht. eapply (sys_ok_quiet sy _ id p (p{{ pb_taps := rest }}) []); try done; [by rewrite app_nil_r|by left].
  - destruct (pb_picked p) as [out|] eqn:Eo.
    + destruct (po_picked _ (sy_pubsok _ Hok) _ _ _ Ep Eo) as (d' & cid' & rest' & w & E & Hin & Hw). rewrite Epend in E.
      injection E as <- <- <-. destruct out as [out|]; intros Ht; by eapply (turn_ok sy _ id d cid p rest w).
    + intros Ht. eapply (sys_ok_quiet sy _ id p (p{{ pb_picked := Some (pb_pick p (sy_world sy) cid) }}) [(id, d, sy_world sy)]); try done.
      right. by exists d, cid, rest, (sy_world sy).
Qed.

Lemma publish_ok t msg pick sy : sys_ok sy → sys_ok (PublishSelect t msg pick None sy).
Proof.
  intros Hok. eapply (sys_ok_publish sy _ t msg pick _ None); try done; [by apply publish_tables, Hok|].
  intros d st E. by exists st.
Qed.

Lemma reader_ok r data sy : sys_ok sy → sys_ok (reader_round r data sy).
Proof.
  intros Hok. pose proof (reader_tables r data sy (sy_tables _ Hok)) as Ht. revert Ht. unfold reader_round.
  destruct (sy_streams sy !! r) as [st|] eqn:Er; [|done]. destruct (sm_busy st) eqn:Eb, data as [|b data]; try done.
  destruct (negb _); [done|]. intros Ht.
  eapply (sys_ok_publish sy _ (sm_topic st) (b :: data) _ _ (Some r)); try done.
  - intros d x E. change (∃ st', <[r := st{{ sm_busy := Some (sy_nextPub sy) }}]> (sy_streams sy) !! d = Some st' ∧ static st' = static x ∧
      sm_out st' = sm_out x ∧ sm_closed st' = sm_closed x ∧ sm_busy st' = if bool_decide (Some r = Some d) then Some (sy_nextPub sy) else sm_busy x).
    destruct (decide (r = d)) as [->|Hn].
    + rewrite lookup_insert_eq. rewrite Er in E. injection E as <-. eexists. split; [done|]. by rewrite bool_decide_eq_true_2.
    + rewrite lookup_insert_ne by done. exists x. rewrite bool_decide_eq_false_2 by congruence. done.
  - intros d x. change (<[r := st{{ sm_busy := Some (sy_nextPub sy) }}]> (sy_streams sy) !! d = Some x → is_Some (sy_streams sy !! d)).
    intros [[<- _]|[_ E]]%lookup_insert_Some; by eexists.
  - intros r' [= <-]. by exists st.
Qed.

Lemma step_ok o sy : sys_ok sy → sys_ok (sys_step conn_string sy o).
Proof.
  intros Hok. pose proof (step_tables conn_string o sy (sy_tables _ Hok)) as Ht. revert Ht. destruct o; cbn [sys_step].
  - intros Ht. by eapply (sys_ok_same sy).
  - intros Ht. by eapply (sys_ok_same sy).
  - intros Ht. revert Ht. unfold Subscribe_ask. destruct (sy_subs sy !! sub) as [s|]; [|done].
    destruct (negb _); [done|]. intros Ht. by eapply (sys_ok_same sy).
  - intros _. destruct (sy_joining sy !! k) as [j|]; [|done]. apply Subscribe_ok. eapply (sys_ok_same sy); try done.
    by apply (tables_ok_same sy); auto; apply Hok.
  - intros _. by apply Unsubscribe_ok.
  - intros _. unfold LeaveAll. destruct (sy_subs sy !! sub) as [s|]; [|done].
    revert sy Hok. induction (map_to_list (ss_topics s)) as [|[t info] l IH]; intros sy Hok; cbn [foldl]; [done|].
    by apply IH, Unsubscribe_ok.
  - intros Ht. by eapply (sys_ok_same sy).
  - unfold TapUnsubscribe. destruct (ps_taps (sy_ps sy) !! topic); [|done]. case_bool_decide; [|done]. intros Ht. by eapply (sys_ok_same sy).
  - intros _. by apply reader_ok.
  - intros Ht. by eapply (sys_ok_same sy).
  - intros _. by apply publish_ok.
  - intros _. by apply deliver_ok.
Qed.

Lemma run_ok w ops : sys_ok (foldl (sys_step conn_string) (NewSystem w) ops).
Proof.
  induction ops as [|o ops IH] using rev_ind; [|rewrite foldl_app; by apply step_ok].
  split; [apply tables_start| |done]. split; try done.
  - intros id. split; [by intros []|]. cbn. lia.
  - by intros id d w' ?%not_elem_of_nil.
  - constructor.
Qed.
End deliveries.

(** C12. What a subscriber reads is the backlog of the moment it joined and then
    publications to its topic since, in every interleaving of joins, leaves,
    publishes, picks and writes.  Each publication is there at most once, with the
    payload that was picked for its connection, and those read from one writer's
    stream are in the order they were read.  While the stream is open, a
    publication made since the join that has returned was picked for exactly once,
    and is there unless nothing was picked then or the payload does not fit a
    frame. *)
Theorem subscriber_stream conn_string w ops d st :
  let sy := foldl (sys_step conn_string) (NewSystem w) ops in
  sy_streams sy !! d = Some st →
  ∃ fs, sm_out st = backlog_frames (sm_backlog st) ++ (published <$> fs) ∧ NoDup fs.*1 ∧
    (∀ i j a b ha hb r, (i < j)%nat → fs.*1 !! i = Some a → fs.*1 !! j = Some b →
       sy_history sy !! a = Some ha → sy_history sy !! b = Some hb →
       pb_reader ha = Some r → pb_reader hb = Some r → a < b) ∧
    NoDup (sy_picks sy).*1 ∧
    (∀ id m, (id, m) ∈ fs → ∃ h w', sy_history sy !! id = Some h ∧ pb_topic h = sm_topic st ∧ sm_first st ≤ id ∧
       (id, d, w') ∈ sy_picks sy ∧ pb_pick h w' (sm_cid st) = Some m) ∧
    (∀ id h, sm_closed st = false → sy_history sy !! id = Some h → pb_topic h = sm_topic st → sm_first st ≤ id →
       sy_pubs sy !! id = None →
       ∃ w', (id, d, w') ∈ sy_picks sy ∧
         match pb_pick h w' (sm_cid st) with
         | None => id ∉ fs.*1
         | Some m => (id, m) ∈ fs ∨ WriteFrame m = None
         end).
Proof.
  intros sy E. pose proof (run_ok conn_string w ops) as Hok. fold sy in Hok.
  destruct (sk_frames _ _ _ (sy_streamsok _ Hok d st E)) as (fs & F1 & F2 & F3 & F4). exists fs. rewrite Forall_forall in F3.
  split_and!; [done| | |apply po_once, Hok| |].
  - clear -F2. induction F2 as [|a l Hs IH Ha]; [constructor|]. constructor; [|done]. intros Hin. rewrite Forall_forall in Ha. by destruct (Ha a Hin).
  - intros i j a b ha hb r Hij Hi Hj E1 E2 R1 R2. revert i j Hij Hi Hj. clear -F2 E1 E2 R1 R2.
    induction F2 as [|x l Hs IH Hx]; intros i j Hij Hi Hj; [done|]. rewrite Forall_forall in Hx. destruct j as [|j]; [lia|].
    destruct i as [|i]; [|apply (IH i j); [lia|done|done]]. injection Hi as ->. change (l !! j = Some b) in Hj. apply list_elem_of_lookup_2 in Hj.
    by apply (proj2 (Hx b Hj) ha hb r).
  - intros id m Hin. destruct (F3 _ Hin) as (h & w' & H1 & H2 & H3 & H4 & H5 & _). by exists h, w'.
  - intros id h Hc H1 H2 H3 Hdone. destruct (F4 Hc id h H1 H2 H3) as [(p & Ep & _)|[[m' Hm']|(w' & Hw' & Hn)]]; [congruence|..].
    + destruct (F3 _ Hm') as (h' & w' & G1 & _ & _ & G4 & G5 & _). cbn [fst snd] in G1, G4, G5. assert (h' = h) as -> by congruence.
      exists w'. split; [done|]. rewrite G4. by left.
    + exists w'. split; [done|]. destruct Hn as [Hn|(m & Hm & Hf)]; [|rewrite Hm; by right]. rewrite Hn.
      intros ([i m] & -> & Hin)%list_elem_of_fmap. destruct (F3 _ Hin) as (h' & w2 & G1 & _ & _ & G4 & G5 & _). cbn [fst snd] in *.
      assert (w2 = w') as -> by (by eapply (NoDup_picks (sy_picks sy)); [apply po_once, Hok|..]). congruence.
Qed.

(** ** Who writes a task log, and who reads it *)

Section logs.
Context (conn_string : ConnectionID → string).
Implicit Types (sy : System).

(** The server publishes to no task log. *)
Definition op_topic_ok (o : sys_op) : Prop :=
  match o with SyPublish topic _ _ => ParseTaskLog topic = None | _ => True end.

Record readers_ok sy : Prop := {
  ro_joined d st : sy_streams sy !! d = Some st →
    let grant := authorizeJoin conn_string (sm_joined st) (default 0 (w_roles (sm_joined st) !! sm_cid st)) (sm_cid st) (sm_topic st) in
    jg_Allow grant = true ∧ sm_publish st = jg_Publish grant ∧
    sm_deliver st = (if jg_Publish grant then taskLogDelivery conn_string (sm_topic st) else None) ∧
    (sm_topic st ≠ Notifications → sm_backlog st = []);
  ro_asked j : j ∈ sy_joining sy → ∃ s, sy_subs sy !! jn_sub j = Some s ∧ jg_Allow (jn_grant j) = true ∧
    jn_grant j = authorizeJoin conn_string (jn_asked j) (default 0 (w_roles (jn_asked j) !! ss_id s)) (ss_id s) (jn_topic j);
  ro_hist id h r : sy_history sy !! id = Some h → pb_reader h = Some r →
    ∃ st, sy_streams sy !! r = Some st ∧ sm_publish st = true ∧ pb_topic h = sm_topic st ∧ pb_pick h = pick_filtered (pb_msg h) (sm_deliver st);
  ro_server id h : sy_history sy !! id = Some h → pb_reader h = None → ParseTaskLog (pb_topic h) = None;
}.

Lemma readers_ok_static sy sy' :
  readers_ok sy → sy_history sy' = sy_history sy →
  (∀ d, static <$> sy_streams sy' !! d = static <$> sy_streams sy !! d) → sy_joining sy' ⊆ sy_joining sy →
  (∀ sub s, sy_subs sy !! sub = Some s → ∃ s', sy_subs sy' !! sub = Some s' ∧ ss_id s' = ss_id s) → readers_ok sy'.
Proof.
  intros [H1 HA H2 H3] Eh Hs Hj Hsub.
  assert (∀ d st', sy_streams sy' !! d = Some st' → ∃ st, sy_streams sy !! d = Some st ∧ static st' = static st) as Hback.
  { intros d st' E. specialize (Hs d). rewrite E in Hs. destruct (sy_streams sy !! d) as [st|]; [|done]. exists st. split; [done|].
    by apply (inj Some) in Hs. }
  split.
  - intros d st' E. destruct (Hback _ _ E) as (st & E0 & K). injection K as S1 S2 S3 S4 S5 S6 S7. rewrite S1, S2, S3, S4, S5, S7. by apply (H1 d).
  - intros j Hin%Hj. destruct (HA j Hin) as (s & E & ? & ?). destruct (Hsub _ _ E) as (s' & E' & K). exists s'. by rewrite K.
  - intros id h r. rewrite Eh. intros E Hr. destruct (H2 id h r E Hr) as (st & E0 & ? & ? & ?). specialize (Hs r). rewrite E0 in Hs.
    destruct (sy_streams sy' !! r) as [st'|]; [|done]. apply (inj Some) in Hs. injection Hs as S1 S2 S3 S4 S5 S6 S7. exists st'.
    by rewrite S1, S3, S4.
  - by rewrite Eh.
Qed.

Lemma alter_static (f : sub_stream → sub_stream) k (m : gmap N sub_stream) d :
  (∀ st, static (f st) = static st) → static <$> alter f k m !! d = static <$> m !! d.
Proof.
  intros Hf. destruct (decide (k = d)) as [->|Hn]; [|by rewrite lookup_alter_ne].
  rewrite lookup_alter_eq. destruct (m !! d); [|done]. cbn [fmap option_fmap option_map]. by rewrite Hf.
Qed.

(** A step that touches neither the streams nor the calls of [Subscribe] under way. *)
Lemma readers_ok_same sy sy' :
  readers_ok sy → sy_history sy' = sy_history sy → sy_streams sy' = sy_streams sy → sy_joining sy' = sy_joining sy →
  sy_subs sy' = sy_subs sy → readers_ok sy'.
Proof.
  intros Hok Eh Es Ej Esub. apply (readers_ok_static sy); [done|done|by rewrite Es|by rewrite Ej|]. rewrite Esub. by eauto.
Qed.

Lemma subs_kept (subs : gmap N Subscriber) k s f :
  subs !! k = Some s →
  ∀ sub x, subs !! sub = Some x → ∃ x', <[k := s{{ ss_topics := f }}]> subs !! sub = Some x' ∧ ss_id x' = ss_id x.
Proof.
  intros Hk sub x E. destruct (decide (k = sub)) as [->|Hn]; [|rewrite lookup_insert_ne by done; by exists x].
  rewrite lookup_insert_eq. eexists. split; [done|]. rewrite Hk in E. by injection E as <-.
Qed.

Lemma Unsubscribe_readers t sub sy : readers_ok sy → readers_ok (Unsubscribe t sub sy).1.
Proof.
  intros Hok. unfold Unsubscribe. destruct (ps_topics (sy_ps sy) !! t) as [sl|]; [|done].
  match goal with |- context [match sy_subs ?y !! sub with _ => _ end] => set (sy1 := y) end.
  assert (readers_ok sy1) as Hok1 by (by apply (readers_ok_same sy)).
  destruct (sy_subs sy1 !! sub) as [s|] eqn:Es; [|done]. destruct (ss_topics s !! t) as [info|]; [|done].
  apply (readers_ok_static sy1); [done|done| |done|by apply subs_kept]. intros d. by apply alter_static.
Qed.

Lemma publish_readers t msg pick sy :
  readers_ok sy → ParseTaskLog t = None → readers_ok (PublishSelect t msg pick None sy).
Proof.
  intros [H1 HA H2 H3] Ht. split; [done|done|..].
  - intros id h r. change (<[sy_nextPub sy := mkPublication t msg pick (snapshot_subs t sy) None (default [] (ps_taps (sy_ps sy) !! t)) None]> (sy_history sy) !! id
      = Some h → pb_reader h = Some r → ∃ st, sy_streams sy !! r = Some st ∧ sm_publish st = true ∧ pb_topic h = sm_topic st ∧
      pb_pick h = pick_filtered (pb_msg h) (sm_deliver st)). intros [[_ <-]|[_ E]]%lookup_insert_Some Hr; [done|]. by apply (H2 id).
  - intros id h. change (<[sy_nextPub sy := mkPublication t msg pick (snapshot_subs t sy) None (default [] (ps_taps (sy_ps sy) !! t)) None]> (sy_history sy) !! id
      = Some h → pb_reader h = None → ParseTaskLog (pb_topic h) = None). intros [[_ <-]|[_ E]]%lookup_insert_Some Hr; [done|]. by apply (H3 id).
Qed.

Lemma reader_readers r data sy : readers_ok sy → readers_ok (reader_round r data sy).
Proof.
  intros Hok. unfold reader_round. destruct (sy_streams sy !! r) as [st|] eqn:Er; [|done].
  destruct (sm_busy st), data as [|b data]; try done. destruct (sm_publish st) eqn:Epub; [|done]. cbn [negb].
  match goal with |- context [PublishSelect _ _ _ _ ?y] => set (sy1 := y) end.
  assert (readers_ok sy1) as [H1 HA H2 H3].
  { apply (readers_ok_static sy); [done|done| |done|by eauto]. intros d.
    change (static <$> <[r := st{{ sm_busy := Some (sy_nextPub sy) }}]> (sy_streams sy) !! d = static <$> sy_streams sy !! d).
    destruct (decide (r = d)) as [->|Hn]; [by rewrite lookup_insert_eq, Er|by rewrite lookup_insert_ne]. }
  set (p := mkPublication (sm_topic st) (b :: data) (pick_filtered (b :: data) (sm_deliver st)) (snapshot_subs (sm_topic st) sy1)
    None (default [] (ps_taps (sy_ps sy1) !! sm_topic st)) (Some r)).
  split; [done|done|..].
  - intros id h r'. change (<[sy_nextPub sy := p]> (sy_history sy) !! id = Some h → pb_reader h = Some r' → ∃ st0, sy_streams sy1 !! r' = Some st0 ∧
      sm_publish st0 = true ∧ pb_topic h = sm_topic st0 ∧ pb_pick h = pick_filtered (pb_msg h) (sm_deliver st0)).
    intros [[_ <-]|[_ E]]%lookup_insert_Some Hr; [|by apply (H2 id)]. injection Hr as <-. exists (st{{ sm_busy := Some (sy_nextPub sy) }}).
    split; [apply lookup_insert_eq|]. done.
  - intros id h. change (<[sy_nextPub sy := p]> (sy_history sy) !! id = Some h → pb_reader h = None → ParseTaskLog (pb_topic h) = None).
    intros [[_ <-]|[_ E]]%lookup_insert_Some Hr; [done|]. by apply (H3 id).
Qed.

Lemma ask_readers t nick sub sy : readers_ok sy → readers_ok (Subscribe_ask conn_string t nick sub sy).1.
Proof.
  intros Hok. unfold Subscribe_ask. destruct (sy_subs sy !! sub) as [s|] eqn:Es; [|done].
  set (g := authorizeJoin _ _ _ _ _). destruct (jg_Allow g) eqn:Ea; [|done]. cbn [negb fst].
  destruct Hok as [H1 HA H2 H3]. split; [done| |done|done]. intros j [Hin|Hin]%elem_of_app; [by apply HA|].
  apply list_elem_of_singleton in Hin as ->. by exists s.
Qed.

Lemma Subscribe_readers j sy :
  sys_ok sy → readers_ok sy →
  (∃ s, sy_subs sy !! jn_sub j = Some s ∧ jg_Allow (jn_grant j) = true ∧
    jn_grant j = authorizeJoin conn_string (jn_asked j) (default 0 (w_roles (jn_asked j) !! ss_id s)) (ss_id s) (jn_topic j)) →
  readers_ok (Subscribe conn_string j sy).1.
Proof.
  intros Hsys [H1 HA H2 H3] (s & Es & Hal & Hg). unfold Subscribe. rewrite Es.
  destruct (ss_topics s !! jn_topic j) as [info|]; [done|]. cbn [fst].
  match goal with |- context [foldl ?f ?st ?l] => destruct (write_backlog l st eq_refl) as (F1 & _ & _); set (st1 := foldl f st l) in * end.
  injection F1 as S1 S2 S3 S4 S5 S6 S7.
  assert (sy_streams sy !! sy_nextStream sy = None) as Hfr.
  { destruct (sy_streams sy !! sy_nextStream sy) eqn:E; [|done]. apply (to_fresh _ (sy_tables _ Hsys)) in E. lia. }
  split; [| | |done].
  - intros d st. change (<[sy_nextStream sy := st1]> (sy_streams sy) !! d = Some st →
      let grant := authorizeJoin conn_string (sm_joined st) (default 0 (w_roles (sm_joined st) !! sm_cid st)) (sm_cid st) (sm_topic st) in
      jg_Allow grant = true ∧ sm_publish st = jg_Publish grant ∧
      sm_deliver st = (if jg_Publish grant then taskLogDelivery conn_string (sm_topic st) else None) ∧
      (sm_topic st ≠ Notifications → sm_backlog st = [])).
    intros [[_ <-]|[_ E]]%lookup_insert_Some; [|by apply (H1 d)]. rewrite S1, S2, S3, S4, S5, S7. cbn [sm_topic sm_cid sm_joined sm_publish sm_deliver sm_backlog]. rewrite <-Hg. split_and!; try done.
    intros Hn. unfold replayNotifications. by rewrite bool_decide_eq_false_2.
  - intros j' Hin. destruct (HA j' Hin) as (s' & E & ? & ?). destruct (subs_kept (sy_subs sy) (jn_sub j) s
      (<[jn_topic j := mkJoinInfo (jn_nick j) (sy_nextStream sy)]> (ss_topics s)) Es _ _ E) as (x & Ex & K). exists x. by rewrite K.
  - intros id h r E Hr. destruct (H2 id h r E Hr) as (st & E0 & ?). exists st. split; [|done].
    change (<[sy_nextStream sy := st1]> (sy_streams sy) !! r = Some st). rewrite lookup_insert_ne; [done|]. congruence.
Qed.

Lemma deliver_readers id sy : readers_ok sy → readers_ok (deliver_one id sy).
Proof.
  intros Hok. unfold deliver_one. destruct (sy_pubs sy !! id) as [p|]; [|done]. destruct (pb_pending p) as [|[st cid] rest].
  - destruct (pb_taps p) as [|t rest]; [|by apply (readers_ok_same sy)].
    destruct (pb_reader p) as [r|]; [|by apply (readers_ok_same sy)]. apply (readers_ok_static sy); [done|done| |done|by eauto]. intros d.
    by apply alter_static.
  - destruct (pb_picked p) as [[out|]|]; [|by apply (readers_ok_same sy)..].
    apply (readers_ok_static sy); [done|done| |done|by eauto]. intros d. apply alter_static. intros x. apply write_frame_static.
Qed.

Lemma step_readers o sy : op_topic_ok o → sys_ok sy → readers_ok sy → readers_ok (sys_step conn_string sy o).
Proof.
  intros Ho Hsys Hok. destruct o; cbn [sys_step op_topic_ok] in *; try by apply (readers_ok_same sy).
  - apply (readers_ok_static sy); [done|done|done|done|]. intros sub s E. exists s. split; [|done].
    change (<[sy_nextSub sy := NewSubscriber cid]> (sy_subs sy) !! sub = Some s). rewrite lookup_insert_ne; [done|].
    intros Hx. apply (to_freshSub _ (sy_tables _ Hsys)) in E. lia.
  - by apply ask_readers.
  - destruct (sy_joining sy !! k) as [j|] eqn:Ej; [|done].
    assert (tables_ok (sy{{ sy_joining := delete k (sy_joining sy) }})) as Ht by (by apply (tables_ok_same sy); auto; apply Hsys).
    apply Subscribe_readers; [by eapply (sys_ok_same sy)| |].
    + apply (readers_ok_static sy); [done|done|done| |by eauto]. apply list_subseteq_delete.
    + apply (ro_asked _ Hok). by eapply list_elem_of_lookup_2.
  - by apply Unsubscribe_readers.
  - unfold LeaveAll. destruct (sy_subs sy !! sub) as [s|]; [|done]. clear Hsys.
    revert sy Hok. induction (map_to_list (ss_topics s)) as [|[t info] l IH]; intros sy Hok; cbn [foldl]; [done|].
    by apply IH, Unsubscribe_readers.
  - unfold TapUnsubscribe. destruct (ps_taps (sy_ps sy) !! topic); [|done]. case_bool_decide; [|done]. by apply (readers_ok_same sy).
  - by apply reader_readers.
  - by apply publish_readers.
  - by apply deliver_readers.
Qed.

Lemma run_readers w ops : Forall op_topic_ok ops → readers_ok (foldl (sys_step conn_string) (NewSystem w) ops).
Proof.
  induction ops as [|o ops IH] using rev_ind; intros Hops; [split; try done; by intros j ?%not_elem_of_nil|]. apply Forall_app in Hops as [Hops [Ho _]%Forall_cons].
  rewrite foldl_app. cbn [foldl]. apply step_readers; [done|apply run_ok|by apply IH].
Qed.

(** A connection that may publish is a runner that owns the task of the log. *)
Lemma publish_grant w role cid topic :
  jg_Publish (authorizeJoin conn_string w role cid topic) = true →
  role = AuthRole_Runner ∧ ∃ task, ParseTaskLog topic = Some task ∧ ownsTask cid task (w_reg w) = true.
Proof.
  unfold authorizeJoin. destruct (N.eqb_spec role AuthRole_Runner) as [->|_].
  - destruct (ParseTaskLog topic) as [task|]; [|done]. destruct (ownsTask cid task (w_reg w)) eqn:E; [|done]. intros _. by split; [|exists task].
  - destruct (role =? AuthRole_Client); [|done]. destruct (ParseTaskLog topic); [done|]. by case_bool_decide.
Qed.
End logs.

(** [ParseTaskLog] is the inverse of [TaskLog]. *)
Lemma CutSuffix_spec s suffix x : CutSuffix s suffix = Some x ↔ s = x +:+ suffix.
Proof.
  unfold CutSuffix, str_take, str_drop. rewrite <-!chars_length. split.
  - destruct (_ <=? _)%nat; [|done]. case_bool_decide as E; [|done]. cbn [andb]. intros [= <-]. apply chars_inj. rewrite chars_app, chars_unchars.
    apply (f_equal chars) in E. rewrite chars_unchars in E. rewrite <-(take_drop (length (chars s) - length (chars suffix)) (chars s)) at 1.
    by rewrite E.
  - intros ->. rewrite chars_app, length_app. destruct (Nat.leb_spec (length (chars suffix)) (length (chars x) + length (chars suffix))); [|lia].
    replace (length (chars x) + length (chars suffix) - length (chars suffix))%nat with (length (chars x)) by lia.
    rewrite take_app_length, drop_app_length, !unchars_chars. by rewrite bool_decide_eq_true_2.
Qed.

Lemma CutPrefix_spec s p x : CutPrefix s p = Some x → s = p +:+ x.
Proof.
  unfold CutPrefix, str_drop. destruct (HasPrefix s p) eqn:E; [|done]. intros [= <-]. apply HasPrefix_spec in E as [t ->].
  apply chars_inj. by rewrite !chars_app, chars_unchars, <-chars_length, drop_app_length.
Qed.

Lemma ParseTaskLog_TaskLog topic id : ParseTaskLog topic = Some id ↔ topic = TaskLog id ∧ id ≠ "".
Proof.
  unfold ParseTaskLog, TaskLog. split.
  - intros (rest & H1 & (x & H2 & H3)%bind_Some)%bind_Some. apply CutPrefix_spec in H1 as ->. apply CutSuffix_spec in H2 as ->.
    revert H3. case_bool_decide; [done|]. by intros [= ->].
  - intros [-> Hn]. rewrite CutPrefix_app. cbn [mbind option_bind]. rewrite (proj2 (CutSuffix_spec _ _ _) eq_refl).
    cbn [mbind option_bind]. by rewrite bool_decide_eq_false_2.
Qed.

(** C11. What reaches a subscriber of a task log, in every interleaving with
    changes of grants, principals, roles and ownership: every frame is the bytes
    of one read from a runner's stream for the same task, of a connection that had
    authenticated as a runner and owned the task when the authorizer answered its
    join, and the subscriber's connection was authorised to view the task at the
    one moment the filter was asked for it, which is before the write and may be
    long before, as the write blocks.  The server itself publishes to no task log. *)
Theorem log_authority conn_string w ops d st task f :
  Forall op_topic_ok ops →
  let sy := foldl (sys_step conn_string) (NewSystem w) ops in
  sy_streams sy !! d = Some st → sm_topic st = TaskLog task → task ≠ "" → f ∈ sm_out st →
  ∃ id h r writer w', fm_pub f = Some id ∧ sy_history sy !! id = Some h ∧ fm_msg f = pb_msg h ∧
    (id, d, w') ∈ sy_picks sy ∧ (∀ w2, (id, d, w2) ∈ sy_picks sy → w2 = w') ∧
    authorize (w_conns w') (w_tasks w') (conn_string (sm_cid st)) Capability_ExecView task = true ∧
    pb_reader h = Some r ∧ sy_streams sy !! r = Some writer ∧ sm_topic writer = TaskLog task ∧
    w_roles (sm_joined writer) !! sm_cid writer = Some AuthRole_Runner ∧
    ownsTask (sm_cid writer) task (w_reg (sm_joined writer)) = true.
Proof.
  intros Hops sy E Et Hne Hf. pose proof (run_ok conn_string w ops) as Hok. pose proof (run_readers conn_string w ops Hops) as [R1 _ R2 R3].
  fold sy in Hok, R1, R2, R3. assert (ParseTaskLog (sm_topic st) = Some task) as Hp by (by apply ParseTaskLog_TaskLog).
  destruct (sk_frames _ _ _ (sy_streamsok _ Hok d st E)) as (fs & F1 & _ & F3 & _). rewrite Forall_forall in F3.
  destruct (R1 d st E) as (_ & _ & _ & Hb). rewrite Hb in F1; cycle 1.
  { intros En. rewrite En in Hp. by vm_compute in Hp. }
  rewrite F1 in Hf. apply list_elem_of_fmap in Hf as ([id m] & -> & Hin).
  destruct (F3 _ Hin) as (h & w' & H1 & H2 & _ & H4 & H5 & _). cbn [fst snd] in *.
  destruct (pb_reader h) as [r|] eqn:Er; [|by rewrite <-H2, (R3 id h H1 Er) in Hp].
  destruct (R2 id h r H1 Er) as (writer & Ew & Hpub & Htop & Hpick). destruct (R1 r writer Ew) as (_ & J1 & J2 & _).
  rewrite Hpub in J1. symmetry in J1. rewrite J1 in J2. apply publish_grant in J1 as (Hrole & task' & Ht' & Hown).
  assert (ParseTaskLog (sm_topic writer) = Some task) as Hpw by (by rewrite <-Htop, H2). assert (task' = task) as -> by congruence.
  unfold taskLogDelivery in J2. rewrite Hpw in J2. rewrite Hpick, J2 in H4. cbn [pick_filtered] in H4.
  destruct (authorize _ _ _ _ _) eqn:Ea in H4; [|done]. injection H4 as <-.
  exists id, h, r, writer, w'. apply ParseTaskLog_TaskLog in Hpw as [Hpw _]. split_and!; try done.
  { intros w2 Hw2. eapply (NoDup_picks (sy_picks sy)); [apply po_once, Hok|done|done]. }
  destruct (w_roles (sm_joined writer) !! sm_cid writer) as [ro|]; [|by vm_compute in Hrole]. change (ro = AuthRole_Runner) in Hrole. by subst ro.
Qed.

(** ** Witnesses *)

Lemma frames_roundtrip_witness :
  read_all 4 NewFrameReader [RdData [0; 0] false; RdData [0; 1; 7; 0; 0; 0] false; RdData [0; 0; 0] false; RdData [0; 5; 9] true]
    = ([[7]; []], Some UnexpectedEOF).
Proof.
  destruct (frames_roundtrip [[7]; []] [9; 9; 9; 9; 9] 5
    [RdData [0; 0] false; RdData [0; 1; 7; 0; 0; 0] false; RdData [0; 0; 0] false; RdData [0; 5; 9] true]) as (n & H & _).
  - by repeat (constructor; [by eexists; vm_compute|]).
  - by eexists; vm_compute.
  - vm_compute. lia.
  - by repeat constructor.
  - by vm_compute.
  - assert (∀ fuel, (4 ≤ fuel)%nat → read_all fuel NewFrameReader
      [RdData [0; 0] false; RdData [0; 1; 7; 0; 0; 0] false; RdData [0; 0; 0] false; RdData [0; 5; 9] true] =
      read_all 4 NewFrameReader [RdData [0; 0] false; RdData [0; 1; 7; 0; 0; 0] false; RdData [0; 0; 0] false; RdData [0; 5; 9] true]) as Hm.
    { intros fuel Hl. destruct fuel as [|[|[|[|fuel]]]]; [lia..|]. by vm_compute. }
    rewrite <-(Hm (n + 4)%nat) by lia. by rewrite (H 4%nat).
Defined.

Lemma some_default {A} (o : option A) d : match o with Some _ => true | None => false end = true → o = Some (default d o).
Proof. by destruct o. Qed.

Module SampleLog.
Definition task : string := EncodeToString SampleReach.p.
Definition runner_c : ConnectionID := conn_w 1.
Definition client_c : ConnectionID := conn_w 2.
Definition reg : Registry := (BindTask 1 runner_c task (Add (runner_w 1) NewRegistry).1).1.
Definition w : world := mkWorld noConns SampleReach.s reg {[runner_c := AuthRole_Runner; client_c := AuthRole_Client]}.
(** The runner and an operator join the log, and the runner writes to it. *)
Definition ops : list sys_op :=
  [SyWorld w; SyConnect runner_c; SyConnect client_c; SyAsk (TaskLog task) "r" 0; SyAsk (TaskLog task) "c" 1; SySubscribe 0; SySubscribe 0;
   SyRead 0 [1; 2]; SyDeliver 0; SyDeliver 0; SyDeliver 0; SyDeliver 0; SyDeliver 0;
   SyRead 0 [3]; SyDeliver 1; SyDeliver 1; SyDeliver 1; SyDeliver 1; SyDeliver 1].
Definition str (c : ConnectionID) : string := pretty (c.2).
Definition sy : System := foldl (sys_step str) (NewSystem w) ops.
Definition client_stream : sub_stream := default (mkStream [] false "" client_c false None None w 0 []) (sy_streams sy !! 1).

Lemma client_at : sy_streams (foldl (sys_step str) (NewSystem w) ops) !! 1 = Some client_stream.
Proof.
  unfold client_stream, sy. apply some_default. by vm_compute.
Qed.
End SampleLog.

Lemma subscriber_stream_witness :
  (fm_msg <$> sm_out SampleLog.client_stream) = [[1; 2]; [3]] ∧
  ∃ fs, sm_out SampleLog.client_stream = backlog_frames (sm_backlog SampleLog.client_stream) ++ (published <$> fs) ∧ NoDup fs.*1.
Proof.
  split; [by vm_compute|].
  pose proof (subscriber_stream SampleLog.str SampleLog.w SampleLog.ops 1 SampleLog.client_stream SampleLog.client_at) as (fs & H1 & H2 & _).
  exact (ex_intro _ fs (conj H1 H2)).
Defined.

Lemma log_authority_witness :
  ∃ f w', f ∈ sm_out SampleLog.client_stream ∧
    authorize (w_conns w') (w_tasks w') (SampleLog.str SampleLog.client_c) Capability_ExecView SampleLog.task = true.
Proof.
  assert (mkFrame (Some 0) [1; 2] ∈ sm_out SampleLog.client_stream) as Hin by (vm_compute; by left).
  assert (sm_topic SampleLog.client_stream = TaskLog SampleLog.task) as Ht by (by vm_compute).
  assert (SampleLog.task ≠ "") as Hn by (by vm_compute).
  assert (sm_cid SampleLog.client_stream = SampleLog.client_c) as Hc by (by vm_compute).
  pose proof (log_authority SampleLog.str SampleLog.w SampleLog.ops 1 SampleLog.client_stream SampleLog.task (mkFrame (Some 0) [1; 2])
    ltac:(by repeat constructor) SampleLog.client_at Ht Hn Hin) as (id & h & r & writer & w' & _ & _ & _ & _ & _ & Ha & _).
  rewrite Hc in Ha. exact (ex_intro _ _ (ex_intro _ w' (conj Hin Ha))).
Defined.
