(* ===== verification/VtStatus.v ===== *)
(** * Program status and titles: [vtgrid/program_status.go] and the text rules of
    [vtgrid/repaint.go]

    A program reports its state in an OSC 7501 string; a screen that is repainted
    re-emits the report it holds.  Strings are lists of bytes.

    Theorems: a report that was accepted, written out again, is accepted as the
    same report; a title that leaves the model holds no control character, is valid
    UTF-8 and fits its bound, and a clean one is untouched. *)

From stdpp Require Import prelude gmap strings list.
From Stdlib Require Import NArith ZArith Ascii.
From S2P Require Import Prelude GoStrings TermMode Utf8.

Open Scope N_scope.
Open Scope stdpp_scope.
Set Default Goal Selector "!".

(** The bytes of a literal. *)
Definition lit (s : string) : list N := N_of_ascii <$> chars s.

Record ProgramStatus := mkProgramStatus { ps_State : list N; ps_Kind : list N; ps_Msg : list N }.

#[export] Instance ProgramStatus_eq_dec : EqDecision ProgramStatus.
Proof. solve_decision. Defined.

Definition noStatus : ProgramStatus := mkProgramStatus [] [] [].

Definition programStatusMaxSequence : nat := 4096.
Definition programStatusMaxKey : nat := 16.
Definition programStatusMaxMsgEnc : nat := 2732.
Definition programStatusMaxMsgDec : nat := 2048.
Definition programStatusMaxTitleEnc : nat := 256.
Definition programStatusMaxTitleDec : nat := 192.
Definition programStatusMaxApp : nat := 32.
Definition programStatusMaxID : nat := 128.
Definition programStatusMaxIDDepth : nat := 8.

Definition is_lower (b : N) : bool := in_range 0x61 0x7A b.
Definition is_alnum (b : N) : bool := is_lower b || in_range 0x41 0x5A b || in_range 0x30 0x39 b.

(** The three regular expressions. *)
Definition psKeyRE (s : list N) : bool := negb (bool_decide (s = [])) && forallb is_lower s.
Definition psValueRE (s : list N) : bool := forallb (λ b, is_alnum b || bool_decide (b ∈ lit "_.,+/=-")) s.
Definition psSegmentRE (s : list N) : bool :=
  (1 <=? length s)%nat && (length s <=? 32)%nat && forallb (λ b, is_alnum b || bool_decide (b ∈ lit "_.+-")) s.

Definition programStatusState (s : list N) : bool :=
  bool_decide (s ∈ [lit "idle"; lit "working"; lit "done"; lit "blocked"; lit "error"]).
Definition programStatusKind (s : list N) : bool := bool_decide (s ∈ [lit "permission"; lit "question"; lit "auth"]).

Definition validProgramStatusID (id : list N) : bool :=
  if (programStatusMaxID <? length id)%nat then false
  else let segs := split_on 0x2F id in
       if (programStatusMaxIDDepth <? length segs)%nat then false else forallb psSegmentRE segs.

(** A rune the terminal would act on. *)
Definition is_control (r : N) : bool := (r <? 0x20) || (r =? 0x7F) || in_range 0x80 0x9F r.

(** [for _, r := range string(b)]: no control character, [fuel] runes at most. *)
Fixpoint clean_from (fuel : nat) (p : list N) : bool :=
  match fuel, p with
  | _, [] => true
  | O, _ => false
  | S fuel, _ => let '(r, n) := DecodeRune p in negb (is_control r) && clean_from fuel (drop n p)
  end.

(** [strings.TrimRight] of one byte. *)
Fixpoint trim_right_byte (c : N) (p : list N) : list N :=
  match p with
  | [] => []
  | b :: p => match trim_right_byte c p with
              | [] => if b =? c then [] else [b]
              | p => b :: p
              end
  end.

Definition decodeProgramStatusText (enc : list N) (maxEnc maxDec : nat) : option (list N) :=
  if (maxEnc <? length enc)%nat then None
  else match b64_decode (trim_right_byte 0x3D enc) with
       | None => None
       | Some b =>
           if (maxDec <? length b)%nat || negb (ValidString b) then None
           else if clean_from (length b) b then Some b else None
       end.

(** The state of the loop over the pairs; [None] discards the report. *)
Definition status_pair (acc : option (gmap (list N) (list N) * list N)) (pair : list N) : option (gmap (list N) (list N) * list N) :=
  '(pairs, msg) ← acc;
  match cut_byte 0x3D pair with
  | None => Some (pairs, msg)
  | Some (k, v) =>
      let key := TrimSpace k in
      let value := TrimSpace v in
      if (programStatusMaxKey <? length key)%nat
         || (bool_decide (key = lit "app") && (programStatusMaxApp <? length value)%nat)
         || (bool_decide (key = lit "id") && negb (validProgramStatusID value)) then None
      else if negb (psKeyRE key) || negb (psValueRE value) then Some (pairs, msg)
      else if bool_decide (key = lit "msg") then
        text ← decodeProgramStatusText value programStatusMaxMsgEnc programStatusMaxMsgDec; Some (pairs, text)
      else if bool_decide (key = lit "title") then
        _ ← decodeProgramStatusText value programStatusMaxTitleEnc programStatusMaxTitleDec; Some (pairs, msg)
      else Some (<[key := value]> pairs, msg)
  end.

(** A probe, a report to take, or one to ignore. *)
Inductive status_parse := StQuery | StReport (st : ProgramStatus) | StIgnore.

Definition ParseProgramStatus (body : list N) : status_parse :=
  if (programStatusMaxSequence <? length body)%nat then StIgnore
  else if bool_decide (TrimSpace body = lit "?") then StQuery
  else match foldl status_pair (Some (∅, [])) (split_on 0x3A body) with
  | None => StIgnore
  | Some (pairs, msg) =>
      if bool_decide (is_Some (pairs !! lit "id")) then StIgnore
      else match pairs !! lit "state" with
      | None => StIgnore
      | Some state =>
          if bool_decide (state = lit "clear") then StReport noStatus
          else if negb (programStatusState state) then StIgnore
          else
            let k := default [] (pairs !! lit "kind") in
            StReport (mkProgramStatus state (if bool_decide (state = lit "blocked") && programStatusKind k then k else []) msg)
      end
  end.

(** [programStatusOSC]: the report as the bytes of an OSC string. *)
Definition programStatusBody (st : ProgramStatus) : list N :=
  lit "state=" ++ ps_State st ++
  (if bool_decide (ps_Kind st = []) then [] else lit ":kind=" ++ ps_Kind st) ++
  (if bool_decide (ps_Msg st = []) then [] else lit ":msg=" ++ b64_encode [0x3D] (ps_Msg st)).

Definition programStatusOSC (st : ProgramStatus) : list N := [0x1B] ++ lit "]7501;" ++ programStatusBody st ++ [0x07].

(** [SanitizeTitle]: [out] is what was written so far. *)
Fixpoint sanitize_from (fuel : nat) (maxBytes : nat) (out title : list N) : list N :=
  match fuel, title with
  | O, _ | _, [] => out
  | S fuel, _ =>
      let '(r, n) := DecodeRune title in
      let rest := drop n title in
      if ((r =? RuneError) && (n =? 1)%nat) || is_control r then sanitize_from fuel maxBytes out rest
      else if (maxBytes <? length out + n)%nat then out
      else sanitize_from fuel maxBytes (out ++ EncodeRune r) rest
  end.
Definition SanitizeTitle (title : list N) (maxBytes : nat) : list N := sanitize_from (length title) maxBytes [] title.

Definition titleOSC (title : list N) : list N := [0x1B] ++ lit "]0;" ++ SanitizeTitle title (length title) ++ [0x07].

(** ** Clean text *)

(** Valid UTF-8 without control characters, rune by rune. *)
Inductive text : list N → Prop :=
  | text_nil : text []
  | text_rune p r n :
      p ≠ [] → DecodeRune p = (r, n) → (r = RuneError ∧ n = 1%nat → False) → is_control r = false → text (drop n p) → text p.

Lemma text_sound p fuel : text p → (length p ≤ fuel)%nat → valid_from fuel p = true ∧ clean_from fuel p = true.
Proof.
  intros Ht. revert fuel. induction Ht as [|p r n Hp Hd He Hc Ht IH]; intros fuel Hl; [by destruct fuel|].
  destruct p as [|b p]; [done|]. destruct fuel as [|fuel]; [cbn in Hl; lia|].
  destruct (DecodeRune_inv _ _ _ Hp Hd) as [?|(Hn & _ & _)]; [done|]. cbn [valid_from clean_from]. rewrite Hd, Hc. cbn [negb andb].
  destruct (IH fuel) as [-> ->]; [rewrite length_drop; cbn [length] in *; lia|]. split; [|done].
  destruct (N.eqb_spec r RuneError), (Nat.eqb_spec n 1); try done. by destruct He.
Qed.

Lemma text_complete p fuel : (length p ≤ fuel)%nat → valid_from fuel p = true → clean_from fuel p = true → text p.
Proof.
  revert p. induction fuel as [|fuel IH]; intros p Hl Hv Hc; [destruct p; [constructor|cbn in Hl; lia]|].
  destruct p as [|b p]; [constructor|]. cbn [valid_from clean_from] in Hv, Hc. destruct (DecodeRune (b :: p)) as [r n] eqn:Hd.
  apply andb_prop in Hc as [Hc1 Hc2]. apply negb_true_iff in Hc1.
  assert (¬ (r = RuneError ∧ n = 1%nat)) as He.
  { intros [-> ->]. by rewrite N.eqb_refl, Nat.eqb_refl in Hv. }
  apply (text_rune _ r n); [done..|]. destruct (DecodeRune_inv (b :: p) r n ltac:(done) Hd) as [?|(Hn & _ & _)]; [done|].
  apply IH; [rewrite length_drop; cbn [length] in *; lia| |done]. revert Hv.
  destruct (N.eqb_spec r RuneError), (Nat.eqb_spec n 1); cbn [andb]; try done.
Qed.

Lemma text_app p q : text p → text q → text (p ++ q).
Proof.
  intros Hp Hq. induction Hp as [|p r n Hne Hd He Hc Ht IH]; [done|].
  destruct (DecodeRune_inv _ _ _ Hne Hd) as [?|(Hn & Henc & Happ)]; [done|].
  apply (text_rune _ r n); [by destruct p| |done|done|].
  - rewrite <-(take_drop n p) at 1. rewrite <-app_assoc. apply Happ.
  - by rewrite drop_app_le by lia.
Qed.

Lemma text_one p r n : p ≠ [] → DecodeRune p = (r, n) → ¬ (r = RuneError ∧ n = 1%nat) → is_control r = false →
  text (EncodeRune r) ∧ length (EncodeRune r) = n ∧ EncodeRune r = take n p ∧ (0 < n ≤ length p)%nat.
Proof.
  intros Hp Hd He Hc. destruct (DecodeRune_inv _ _ _ Hp Hd) as [?|(Hn & Henc & Happ)]; [done|].
  assert (length (EncodeRune r) = n) as Hl by (rewrite Henc, length_take; lia).
  split_and!; [|done|done|lia|lia]. specialize (Happ []). rewrite app_nil_r, <-Henc in Happ.
  apply (text_rune _ r n); [by destruct (EncodeRune r); [cbn in Hl; lia|]|done|done|done|]. rewrite drop_ge by lia. constructor.
Qed.

Lemma sanitize_text fuel maxBytes out title :
  text out → (length out ≤ maxBytes)%nat →
  text (sanitize_from fuel maxBytes out title) ∧ (length (sanitize_from fuel maxBytes out title) ≤ maxBytes)%nat.
Proof.
  revert out title. induction fuel as [|fuel IH]; intros out title Ho Hl; [done|]. destruct title as [|b title]; [done|].
  cbn [sanitize_from]. destruct (DecodeRune (b :: title)) as [r n] eqn:Hd.
  destruct ((r =? RuneError) && (n =? 1)%nat) eqn:He; cbn [orb]; [by apply IH|]. destruct (is_control r) eqn:Hc; [by apply IH|].
  assert (¬ (r = RuneError ∧ n = 1%nat)) as Hn by (intros [-> ->]; by rewrite N.eqb_refl, Nat.eqb_refl in He).
  destruct (text_one (b :: title) r n ltac:(done) Hd Hn Hc) as (Ht & Hlen & _ & _).
  destruct (Nat.ltb_spec maxBytes (length out + n)); [done|]. apply IH; [by apply text_app|]. rewrite length_app. lia.
Qed.

Lemma sanitize_clean fuel maxBytes out title :
  text title → (length title ≤ fuel)%nat → (length out + length title ≤ maxBytes)%nat →
  sanitize_from fuel maxBytes out title = out ++ title.
Proof.
  intros Ht. revert fuel out. induction Ht as [|p r n Hne Hd He Hc Ht IH]; intros fuel out Hf Hl.
  { rewrite app_nil_r. by destruct fuel. }
  destruct p as [|b p]; [done|]. destruct fuel as [|fuel]; [cbn in Hf; lia|]. cbn [sanitize_from]. rewrite Hd, Hc.
  destruct (text_one _ _ _ Hne Hd He Hc) as (_ & Hlen & Henc & Hn).
  replace ((r =? RuneError) && (n =? 1)%nat) with false; cycle 1.
  { symmetry. destruct (N.eqb_spec r RuneError), (Nat.eqb_spec n 1); try done. by destruct He. }
  cbn [orb]. destruct (Nat.ltb_spec maxBytes (length out + n)) as [Hm|Hm]; [lia|].
  rewrite IH; [|rewrite length_drop; cbn [length] in *; lia|rewrite length_app, length_drop, Hlen; lia].
  by rewrite Henc, <-app_assoc, take_drop.
Qed.

(** A title that leaves the model is safe to show: whatever bytes a program set it to
    and whatever the bound, the result is valid UTF-8 with no C0, DEL or C1 control
    character and no longer than the bound, and a title that was already so is
    unchanged. *)
Theorem SanitizeTitle_safe title maxBytes :
  let out := SanitizeTitle title maxBytes in
  ValidString out = true ∧ clean_from (length out) out = true ∧ (length out ≤ maxBytes)%nat ∧
  (ValidString title = true ∧ clean_from (length title) title = true ∧ (length title ≤ maxBytes)%nat → out = title).
Proof.
  intros out. destruct (sanitize_text (length title) maxBytes [] title) as [Ht Hl]; [constructor|cbn; lia|].
  destruct (text_sound _ (length out) Ht ltac:(done)) as [H1 H2]. split_and!; [done|done|done|].
  intros (V & C & L). apply (sanitize_clean (length title) maxBytes []); [|done|done]. by apply (text_complete _ (length title)).
Qed.

(** ** Reports that were accepted *)

(** The text a [msg] can hold. *)
Definition good_text (maxDec : nat) (m : list N) : Prop :=
  (length m ≤ maxDec)%nat ∧ ValidString m = true ∧ clean_from (length m) m = true ∧ Forall (λ b, b < 256) m.

Lemma decode_good enc maxEnc maxDec m : decodeProgramStatusText enc maxEnc maxDec = Some m → good_text maxDec m.
Proof.
  unfold decodeProgramStatusText. destruct (_ <? _)%nat; [done|]. destruct (b64_decode _) as [b|] eqn:Ed; [|done].
  destruct (Nat.ltb_spec maxDec (length b)); [done|]. destruct (ValidString b) eqn:Ev; [|done]. cbn [orb negb].
  destruct (clean_from (length b) b) eqn:Ec; [|done]. intros [= <-]. split_and!; [lia|done|done|]. by eapply b64_decode_bytes.
Qed.

Lemma status_pair_good acc pair pairs msg :
  status_pair acc pair = Some (pairs, msg) →
  ∃ pairs' msg', acc = Some (pairs', msg') ∧ (msg = msg' ∨ good_text programStatusMaxMsgDec msg).
Proof.
  destruct acc as [[pairs' msg']|]; [|done]. intros H. exists pairs', msg'. split; [done|]. revert H. unfold status_pair. cbn [mbind option_bind].
  destruct (cut_byte 0x3D pair) as [[k v]|]; [|intros [= _ <-]; by left]. destruct (_ || _); [done|].
  destruct (_ || _); [intros [= _ <-]; by left|]. destruct (bool_decide (TrimSpace k = lit "msg")).
  { intros (t & Ht%decode_good & [= _ <-])%bind_Some. by right. }
  destruct (bool_decide (TrimSpace k = lit "title")); [intros (t & _ & [= _ <-])%bind_Some; by left|intros [= _ <-]; by left].
Qed.

Lemma status_fold_good l acc pairs msg :
  foldl status_pair acc l = Some (pairs, msg) →
  ∃ pairs' msg', acc = Some (pairs', msg') ∧ (msg = msg' ∨ good_text programStatusMaxMsgDec msg).
Proof.
  revert acc. induction l as [|pair l IH]; intros acc; cbn [foldl]; [intros ->; naive_solver|].
  intros (p1 & m1 & (p0 & m0 & -> & Hm)%status_pair_good & Hm')%IH. exists p0, m0. split; [done|]. naive_solver.
Qed.

(** What every accepted report satisfies. *)
Definition status_ok (st : ProgramStatus) : Prop :=
  programStatusState (ps_State st) = true ∧
  (ps_Kind st = [] ∨ (ps_State st = lit "blocked" ∧ programStatusKind (ps_Kind st) = true)) ∧
  (ps_Msg st = [] ∨ good_text programStatusMaxMsgDec (ps_Msg st)).

Lemma accepted_ok body st : ParseProgramStatus body = StReport st → st = noStatus ∨ status_ok st.
Proof.
  unfold ParseProgramStatus. destruct (_ <? _)%nat; [done|]. case_bool_decide; [done|].
  destruct (foldl _ _ _) as [[pairs msg]|] eqn:Ef; [|done]. case_bool_decide; [done|].
  destruct (pairs !! lit "state") as [state|]; [|done]. case_bool_decide; [intros [= <-]; by left|].
  destruct (programStatusState state) eqn:Es; [|done]. intros [= <-]. right. split; [done|]. cbn [ps_State ps_Kind ps_Msg]. split.
  - destruct (bool_decide (state = lit "blocked")) eqn:Eb, (programStatusKind (default [] (pairs !! lit "kind"))) eqn:Ek;
      cbn [andb]; [right|by left..]. by apply bool_decide_eq_true in Eb.
  - apply status_fold_good in Ef as (? & ? & [= <- <-] & Hm). done.
Qed.

(** ** Writing a report out *)

Lemma trim_right_pads c p n : c ∉ p → trim_right_byte c (p ++ replicate n c) = p.
Proof.
  induction p as [|b p IH]; intros Hc; cbn [app].
  - induction n as [|n IH]; cbn [replicate trim_right_byte]; [done|]. by rewrite IH, N.eqb_refl.
  - cbn [trim_right_byte]. rewrite IH by set_solver. destruct p; [|done]. destruct (N.eqb_spec b c) as [->|_]; [set_solver|done].
Qed.

Lemma b64_no_pad p : Forall (λ b, b < 256) p → 0x3D ∉ b64_encode [] p.
Proof. intros H%b64_chars Hin. rewrite Forall_forall in H. by specialize (H _ Hin). Qed.

Lemma encoded_length (m : list N) :
  (length m ≤ programStatusMaxMsgDec)%nat → (length (b64_encode [0x3D%N] m) ≤ programStatusMaxMsgEnc)%nat.
Proof.
  intros Hl. destruct (b64_padded 0x3D m) as (n & _ & ->). unfold programStatusMaxMsgDec, programStatusMaxMsgEnc in *.
  assert ((length m + 2) / 3 ≤ 683)%nat; [|lia]. transitivity ((2048 + 2) / 3)%nat; [apply Nat.Div0.div_le_mono; lia|by vm_compute].
Qed.

Lemma decode_encoded m :
  good_text programStatusMaxMsgDec m →
  decodeProgramStatusText (b64_encode [0x3D] m) programStatusMaxMsgEnc programStatusMaxMsgDec = Some m.
Proof.
  intros (Hl & Hv & Hc & Hb). unfold decodeProgramStatusText. pose proof (encoded_length m Hl).
  destruct (Nat.ltb_spec programStatusMaxMsgEnc (length (b64_encode [0x3D] m))); [lia|]. destruct (b64_padded 0x3D m) as (n & -> & _).
  rewrite trim_right_pads by (by apply b64_no_pad). rewrite b64_roundtrip, Hv, Hc by done.
  by destruct (Nat.ltb_spec programStatusMaxMsgDec (length m)); [lia|].
Qed.

(** The characters of an encoded text are those a value may have, and none is a
    space or a separator. *)
Lemma encoded_chars m :
  Forall (λ b, b < 256) m →
  Forall (λ c, solid c = true ∧ c ≠ 0x3A ∧ (is_alnum c || bool_decide (c ∈ lit "_.,+/=-")) = true) (b64_encode [0x3D] m).
Proof.
  intros Hb. destruct (b64_padded 0x3D m) as (n & -> & _). apply Forall_app. split; [|by apply Forall_replicate].
  eapply Forall_impl; [by apply b64_chars|]. cbv beta. intros c Hc.
  assert (c < 256) as Hlt.
  { revert Hc. unfold is_b64, in_range. destruct (N.ltb_spec c 256); [done|]. destruct (N.leb_spec c 0x5A), (N.leb_spec c 0x7A), (N.leb_spec c 0x39),
      (N.eqb_spec c 0x2B), (N.eqb_spec c 0x2F); lia. }
  revert c Hlt Hc. assert (Forall (λ c, is_b64 c = true → solid c = true ∧ c ≠ 0x3A ∧ (is_alnum c || bool_decide (c ∈ lit "_.,+/=-")) = true)
    (N.of_nat <$> seq 0 256)) as H.
  { apply (bool_decide_unpack _). by vm_compute. }
  intros c Hlt Hc. rewrite Forall_forall in H. apply H; [|done]. apply list_elem_of_fmap. exists (N.to_nat c). split; [lia|]. apply elem_of_seq. lia.
Qed.

(** The states and kinds a report can hold, and its text before the message. *)
Definition shapes : list (list N * list N) :=
  [(lit "idle", []); (lit "working", []); (lit "done", []); (lit "blocked", []); (lit "error", []);
   (lit "blocked", lit "permission"); (lit "blocked", lit "question"); (lit "blocked", lit "auth")].
Definition status_head (state kind : list N) : list N :=
  lit "state=" ++ state ++ (if bool_decide (kind = []) then [] else lit ":kind=" ++ kind).

Lemma status_shape st : status_ok st → (ps_State st, ps_Kind st) ∈ shapes.
Proof.
  destruct st as [state kind msg]. intros (Hs & Hk & _). cbn [ps_State ps_Kind] in *. unfold programStatusState in Hs. case_bool_decide as Hin; [|done].
  destruct Hk as [->|[-> Hk]].
  - unfold shapes. set_solver.
  - unfold programStatusKind in Hk. case_bool_decide as Hkin; [|done]. unfold shapes. set_solver.
Qed.

(** The pairs of the head, read by the loop. *)
Definition head_fits (state kind : list N) (pairs : gmap (list N) (list N)) : bool :=
  bool_decide (pairs !! lit "id" = None) && bool_decide (pairs !! lit "state" = Some state) && bool_decide (state ≠ lit "clear") &&
  programStatusState state &&
  bool_decide ((let k := default [] (pairs !! lit "kind") in
    if bool_decide (state = lit "blocked") && programStatusKind k then k else []) = kind) &&
  (length (status_head state kind) <=? 64)%nat && bool_decide (head (status_head state kind) = Some 0x73).
Definition head_read (state kind : list N) : bool :=
  match foldl status_pair (Some (∅, [])) (split_on 0x3A (status_head state kind)) with
  | Some (pairs, []) => head_fits state kind pairs
  | _ => false
  end.

Lemma heads_read : forallb (λ sk, head_read sk.1 sk.2) shapes = true.
Proof. by vm_compute. Qed.

Lemma head_read_inv state kind :
  head_read state kind = true →
  ∃ pairs, foldl status_pair (Some (∅, [])) (split_on 0x3A (status_head state kind)) = Some (pairs, []) ∧ head_fits state kind pairs = true.
Proof. unfold head_read. destruct (foldl _ _ _) as [[pairs [|]]|]; [|done..]. intros H. by exists pairs. Qed.

Lemma msg_pair_read pairs m :
  good_text programStatusMaxMsgDec m →
  status_pair (Some (pairs, [])) (lit "msg=" ++ b64_encode [0x3D] m) = Some (pairs, m).
Proof.
  intros Hm. pose proof Hm as (Hl & _ & _ & Hb). pose proof (encoded_chars m Hb) as Hch. unfold status_pair. cbn [mbind option_bind].
  change (lit "msg=" ++ b64_encode [0x3D] m) with (lit "msg" ++ 0x3D :: b64_encode [0x3D] m).
  rewrite cut_byte_app by (apply (bool_decide_unpack _); by vm_compute).
  rewrite (TrimSpace_solid (b64_encode _ _)) by (eapply Forall_impl; [done|]; naive_solver).
  replace (psValueRE (b64_encode [0x3D] m)) with true; cycle 1.
  { symmetry. unfold psValueRE. apply forallb_forall. intros c Hc%list_elem_of_In. rewrite Forall_forall in Hch. naive_solver. }
  change (TrimSpace (lit "msg")) with (lit "msg"). change (psKeyRE (lit "msg")) with true.
  change (bool_decide (lit "msg" = lit "app")) with false. change (bool_decide (lit "msg" = lit "id")) with false.
  change (bool_decide (lit "msg" = lit "msg")) with true. change (programStatusMaxKey <? length (lit "msg"))%nat with false.
  cbn [orb andb negb]. by rewrite decode_encoded.
Qed.

Lemma body_not_query body : head body = Some 0x73 → TrimSpace body ≠ lit "?".
Proof.
  destruct body as [|b body]; [done|]. intros [= ->] H. unfold TrimSpace in H. rewrite trim_left_solid in H by done.
  pose proof (trim_right_prefix (length (0x73 :: body)) (0x73 :: body)) as Hp. rewrite H in Hp. by apply prefix_cons_inv_1 in Hp.
Qed.

(** The written body is the head, then nothing or the message's pair. *)
Lemma body_read state kind msg pairs :
  msg = [] ∨ good_text programStatusMaxMsgDec msg →
  foldl status_pair (Some (∅, [])) (split_on 0x3A (status_head state kind)) = Some (pairs, []) →
  ∃ tl, programStatusBody (mkProgramStatus state kind msg) = status_head state kind ++ tl ∧ (length tl ≤ 2740)%nat ∧
    foldl status_pair (Some (∅, [])) (split_on 0x3A (status_head state kind ++ tl)) = Some (pairs, msg).
Proof.
  intros Hm Hf. unfold programStatusBody. cbn [ps_State ps_Kind ps_Msg]. destruct (decide (msg = [])) as [->|Em].
  - rewrite (bool_decide_eq_true_2 ([] = [])) by done. exists []. unfold status_head in *. rewrite !app_nil_r in *. split; [done|]. by split; [cbn; lia|].
  - rewrite (bool_decide_eq_false_2 _ Em). destruct Hm as [?|Hm]; [done|]. exists (0x3A :: lit "msg=" ++ b64_encode [0x3D] msg).
    pose proof Hm as (Hl & _ & _ & Hb). split; [unfold status_head; by rewrite <-!app_assoc|]. split.
    + pose proof (encoded_length msg Hl) as Hle. unfold programStatusMaxMsgEnc in Hle. cbn [length]. rewrite length_app. change (length (lit "msg=")) with 4%nat. lia.
    + rewrite split_on_cat, foldl_app, Hf, split_on_none; [cbn [foldl]; by apply msg_pair_read|].
      pose proof (encoded_chars msg Hb) as Hch. rewrite Forall_forall in Hch. intros [Hc|Hc]%elem_of_app; [|by apply Hch in Hc as (_ & ? & _)].
      revert Hc. apply (bool_decide_unpack (0x3A ∉ lit "msg=")). by vm_compute.
Qed.

Lemma written_parses st : status_ok st → ParseProgramStatus (programStatusBody st) = StReport st.
Proof.
  intros Hok. pose proof (status_shape st Hok) as Hin. destruct Hok as (_ & _ & Hm).
  pose proof heads_read as Hr. rewrite forallb_forall in Hr. apply list_elem_of_In, Hr in Hin.
  destruct st as [state kind msg]. cbn [fst snd ps_State ps_Kind ps_Msg] in *.
  apply head_read_inv in Hin as (pairs & Hf & [[[[[[Hid Hst]%andb_prop Hnc]%andb_prop Hws]%andb_prop Hkind]%andb_prop Hlen]%andb_prop Hhd]%andb_prop).
  apply bool_decide_eq_true in Hid, Hst, Hnc, Hkind, Hhd. apply Nat.leb_le in Hlen.
  destruct (body_read state kind msg pairs Hm Hf) as (tl & Eb & Hl & Ef).
  unfold ParseProgramStatus. rewrite Eb. destruct (Nat.ltb_spec programStatusMaxSequence (length (status_head state kind ++ tl))) as [Hlt|_].
  { rewrite length_app in Hlt. unfold programStatusMaxSequence in Hlt. lia. }
  rewrite bool_decide_eq_false_2 by (apply body_not_query; by destruct (status_head state kind)).
  rewrite Ef, Hid, Hst. rewrite bool_decide_eq_false_2 by (intros [? ?]; done). rewrite (bool_decide_eq_false_2 _ Hnc), Hws. cbn [negb].
  do 2 f_equal. exact Hkind.
Qed.

(** The written body goes through a terminal's string buffer whole: it is short, and
    holds no byte that would end the string. *)
Definition inert (b : N) : bool := negb (b =? 0x07) && negb (b =? 0x1B).

(** Clean text is inert too. *)
Lemma text_inert p : text p → forallb inert p = true.
Proof.
  induction 1 as [|p r n Hne Hd He Hc Ht IH]; [done|]. destruct (text_one _ _ _ Hne Hd He Hc) as (_ & _ & Henc & _).
  rewrite <-(take_drop n p), forallb_app, IH, andb_true_r, <-Henc. destruct (N.ltb_spec r 0x80) as [Hr|Hr].
  - rewrite EncodeRune_ascii by done. cbn [forallb]. rewrite andb_true_r. unfold inert.
    destruct (N.eqb_spec r 0x07) as [->|]; [done|]. by destruct (N.eqb_spec r 0x1B) as [->|].
  - pose proof (EncodeRune_high r Hr) as Hh. apply forallb_forall. intros b Hb%list_elem_of_In. rewrite Forall_forall in Hh. apply Hh in Hb.
    unfold inert. by destruct (N.eqb_spec b 0x07), (N.eqb_spec b 0x1B); try lia.
Qed.

Lemma heads_short : forallb (λ sk, forallb inert (status_head sk.1 sk.2) && (length (status_head sk.1 sk.2) <=? 64)%nat) shapes = true.
Proof. by vm_compute. Qed.

Lemma body_inert st : status_ok st → forallb inert (programStatusBody st) = true ∧ (length (programStatusBody st) ≤ 2810)%nat.
Proof.
  intros Hok. pose proof (status_shape st Hok) as Hin. destruct Hok as (_ & _ & Hm).
  pose proof heads_short as Hh. rewrite forallb_forall in Hh. apply list_elem_of_In, Hh in Hin. apply andb_prop in Hin as [Hi Hl%Nat.leb_le].
  destruct st as [state kind msg]. cbn [fst snd ps_State ps_Kind ps_Msg] in *.
  assert (programStatusBody (mkProgramStatus state kind msg) =
    status_head state kind ++ (if bool_decide (msg = []) then [] else lit ":msg=" ++ b64_encode [0x3D] msg)) as ->.
  { unfold programStatusBody, status_head. by rewrite <-!app_assoc. }
  rewrite forallb_app, length_app, Hi. cbn [andb]. case_bool_decide; [split; [done|cbn [length]; lia]|]. destruct Hm as [?|(Hlen & _ & _ & Hb)]; [done|].
  rewrite forallb_app, length_app. change (forallb inert (lit ":msg=")) with true. change (length (lit ":msg=")) with 5%nat. cbn [andb]. split.
  - pose proof (encoded_chars msg Hb) as Hc. rewrite Forall_forall in Hc. apply forallb_forall. intros b Hin%list_elem_of_In. apply Hc in Hin as (_ & _ & Hv).
    unfold inert. destruct (N.eqb_spec b 0x07) as [->|]; [done|]. by destruct (N.eqb_spec b 0x1B) as [->|].
  - pose proof (encoded_length msg Hlen) as He. unfold programStatusMaxMsgEnc in He. lia.
Qed.

(** A report survives a repaint: whatever report body a program sent, if it was accepted
    as a record with a state, the body that [programStatusOSC] writes for that record
    is accepted again as exactly that record. *)
Theorem status_roundtrip body st :
  ParseProgramStatus body = StReport st → ps_State st ≠ [] → ParseProgramStatus (programStatusBody st) = StReport st.
Proof. intros [-> |H]%accepted_ok Hs; [done|by apply written_parses]. Qed.

(** A record with spaces, an unknown key and unpadded base64 reads as the same record when repainted. *)
Lemma status_roundtrip_witness :
  let body := lit "kind=permission: state = blocked :x=1:msg=aGk" in
  let st := mkProgramStatus (lit "blocked") (lit "permission") (lit "hi") in
  ParseProgramStatus body = StReport st ∧ programStatusBody st = lit "state=blocked:kind=permission:msg=aGk=" ∧
  ParseProgramStatus (programStatusBody st) = StReport st.
Proof.
  intros body st. split; [by vm_compute|]. split; [by vm_compute|]. apply (status_roundtrip body); [by vm_compute|done].
Defined.
