(* ===== verification/VtGrid.v ===== *)
(** * Cells and screens: [vtgrid/cell.go] and [vtgrid/screen.go]

    The grid a terminal draws on.  Bytes, runes and table indexes are [N];
    coordinates and sizes are [Z].  Every access that Go checks at run time is an
    [option]: [None] is the panic of an index or slice out of range.

    Lemmas: on a screen of its dimensions, every operation returns, keeps the
    dimensions and adds nothing but blanks; a scroll moves exactly the rows of its
    region. *)

From stdpp Require Import prelude gmap strings list.
From Stdlib Require Import NArith ZArith.
From coqutil Require Import Datatypes.RecordSetters.
From S2P Require Import Prelude GoStrings TermMode Utf8 VtStatus.

Import DoubleBraceUpdate.
Open Scope N_scope.
Open Scope stdpp_scope.
Set Default Goal Selector "!".

(** ** Cells *)

Definition AttrBold : N := 1.
Definition AttrFaint : N := 2.
Definition AttrItalic : N := 4.
Definition AttrBlink : N := 8.
Definition AttrRapidBlink : N := 16.
Definition AttrReverse : N := 32.
Definition AttrConceal : N := 64.
Definition AttrStrike : N := 128.

Definition UnderlineNone : N := 0.
Definition UnderlineSingle : N := 1.
Definition UnderlineDashed : N := 5.

Inductive Color := ColorDefault | Basic (n : N) | Indexed (n : N) | RGB (r g b : N).

#[export] Instance Color_eq_dec : EqDecision Color.
Proof. solve_decision. Defined.

Record Cell := mkCell {
  c_Rune : N; c_Width : nat; c_Attr : N; c_Under : N; c_FG : Color; c_BG : Color; c_UnderFG : Color;
  c_link : N; c_combining : N }.

#[export] Instance Cell_eq_dec : EqDecision Cell.
Proof. solve_decision. Defined.

Definition blank (bg : Color) : Cell := mkCell 0x20 1 0 0 ColorDefault bg ColorDefault 0 0.

Definition IsBlank (c : Cell) : bool := (c_Rune c =? 0x20) || (c_Rune c =? 0).

Record pen := mkPen { p_Attr : N; p_Under : N; p_FG : Color; p_BG : Color; p_UnderFG : Color; p_link : N }.

#[export] Instance pen_eq_dec : EqDecision pen.
Proof. solve_decision. Defined.

Definition zeroPen : pen := mkPen 0 0 ColorDefault ColorDefault ColorDefault 0.
Definition pen_reset (p : pen) : pen := zeroPen{{ p_link := p_link p }}.

(** ** Screens *)

Record screen := mkScreen { s_cols : Z; s_rows : Z; s_lines : list (list Cell); s_top : Z; s_bottom : Z }.

Definition makeRow (cols : Z) (bg : Color) : list Cell := replicate (Z.to_nat cols) (blank bg).

Definition newScreen (cols rows : Z) (bg : Color) : screen :=
  mkScreen cols rows (replicate (Z.to_nat rows) (makeRow cols bg)) 0 (rows - 1).

(** [l[i]] and [l[i] = v]: out of range panics. *)
Definition index {A} (l : list A) (i : Z) : option A := if (i <? 0)%Z then None else l !! Z.to_nat i.
Definition set_index {A} (l : list A) (i : Z) (v : A) : option (list A) :=
  if ((i <? 0) || (Z.of_nat (length l) <=? i))%Z then None else Some (<[Z.to_nat i := v]> l).

Definition set_row (s : screen) (y : Z) (row : list Cell) : option screen :=
  lines ← set_index (s_lines s) y row; Some (s{{ s_lines := lines }}).

Definition clearRow (s : screen) (y : Z) (bg : Color) : option screen :=
  row ← index (s_lines s) y; set_row s y (replicate (length row) (blank bg)).

(** [for x := x0; x <= x1; x++ { row[x] = b }]. *)
Definition fill (row : list Cell) (x0 x1 : Z) (b : Cell) : option (list Cell) :=
  if (x1 <? x0)%Z then Some row
  else if ((x0 <? 0) || (Z.of_nat (length row) <=? x1))%Z then None
  else Some (take (Z.to_nat x0) row ++ replicate (Z.to_nat (x1 - x0 + 1)) b ++ drop (Z.to_nat (x1 + 1)) row).

Definition clearCells (s : screen) (y x0 x1 : Z) (bg : Color) : option screen :=
  if ((y <? 0) || (s_rows s <=? y))%Z then Some s
  else
    let x0 := if (x0 <? 0)%Z then 0%Z else x0 in
    let x1 := if (s_cols s <=? x1)%Z then (s_cols s - 1)%Z else x1 in
    row ← index (s_lines s) y; row ← fill row x0 x1 (blank bg); set_row s y row.

(** [for y := y0; y < y0 + n; y++ { clearRow(y) }]. *)
Fixpoint clearRows (n : nat) (y : Z) (bg : Color) (s : screen) : option screen :=
  match n with O => Some s | S n => s ← clearRow s y bg; clearRows n (y + 1) bg s end.

(** The rows of [lines[lo:hi]]; a bound out of range panics. *)
Definition slice {A} (l : list A) (lo hi : Z) : option (list A) :=
  if ((lo <? 0) || (hi <? lo) || (Z.of_nat (length l) <? hi))%Z then None
  else Some (take (Z.to_nat (hi - lo)) (drop (Z.to_nat lo) l)).

Definition blank_row (bg : Color) (row : list Cell) : list Cell := replicate (length row) (blank bg).

Definition scrollRegionUp (s : screen) (top bottom n : Z) (bg : Color) : option screen :=
  let height := (bottom - top + 1)%Z in
  if ((n <=? 0) || (height <=? 0))%Z then Some s
  else if (height <=? n)%Z then clearRows (Z.to_nat height) top bg s
  else
    head ← slice (s_lines s) 0 top; spill ← slice (s_lines s) top (top + n);
    kept ← slice (s_lines s) (top + n) (bottom + 1); tail ← slice (s_lines s) (bottom + 1) (Z.of_nat (length (s_lines s)));
    Some (s{{ s_lines := head ++ kept ++ (blank_row bg <$> spill) ++ tail }}).

Definition scrollRegionDown (s : screen) (top bottom n : Z) (bg : Color) : option screen :=
  let height := (bottom - top + 1)%Z in
  if ((n <=? 0) || (height <=? 0))%Z then Some s
  else if (height <=? n)%Z then clearRows (Z.to_nat height) top bg s
  else
    head ← slice (s_lines s) 0 top; kept ← slice (s_lines s) top (bottom - n + 1);
    spill ← slice (s_lines s) (bottom - n + 1) (bottom + 1); tail ← slice (s_lines s) (bottom + 1) (Z.of_nat (length (s_lines s)));
    Some (s{{ s_lines := head ++ (blank_row bg <$> spill) ++ kept ++ tail }}).

Definition scrollUp (s : screen) (n : Z) (bg : Color) : option screen := scrollRegionUp s (s_top s) (s_bottom s) n bg.
Definition scrollDown (s : screen) (n : Z) (bg : Color) : option screen := scrollRegionDown s (s_top s) (s_bottom s) n bg.

Definition insertLines (s : screen) (y n : Z) (bg : Color) : option screen :=
  if ((y <? s_top s) || (s_bottom s <? y))%Z then Some s else scrollRegionDown s y (s_bottom s) n bg.
Definition deleteLines (s : screen) (y n : Z) (bg : Color) : option screen :=
  if ((y <? s_top s) || (s_bottom s <? y))%Z then Some s else scrollRegionUp s y (s_bottom s) n bg.

(** The new row is the cells before the cursor, the blanks, and what of the rest
    still fits; a row of another length than the screen's would panic or be cut. *)
Definition insertChars (s : screen) (y x n : Z) (bg : Color) : option screen :=
  if ((y <? 0) || (s_rows s <=? y) || (x <? 0) || (s_cols s <=? x) || (n <=? 0))%Z then Some s
  else
    let n := if (s_cols s - x <? n)%Z then (s_cols s - x)%Z else n in
    row ← index (s_lines s) y;
    if negb (Z.of_nat (length row) =? s_cols s)%Z then None
    else
      before ← slice row 0 x; rest ← slice row x (s_cols s - n);
      set_row s y (before ++ replicate (Z.to_nat n) (blank bg) ++ rest).

Definition deleteChars (s : screen) (y x n : Z) (bg : Color) : option screen :=
  if ((y <? 0) || (s_rows s <=? y) || (x <? 0) || (s_cols s <=? x) || (n <=? 0))%Z then Some s
  else
    let n := if (s_cols s - x <? n)%Z then (s_cols s - x)%Z else n in
    row ← index (s_lines s) y;
    if negb (Z.of_nat (length row) =? s_cols s)%Z then None
    else
      before ← slice row 0 x; rest ← slice row (x + n) (s_cols s);
      set_row s y (before ++ rest ++ replicate (Z.to_nat n) (blank bg)).

(** One row of a resized screen. *)
Definition resize_row (s : screen) (cols : Z) (bg : Color) (y : nat) : option (list Cell) :=
  match s_lines s !! y with
  | None => Some (makeRow cols bg)
  | Some row =>
      kept ← slice row 0 (Z.min cols (s_cols s));
      Some (kept ++ drop (length kept) (makeRow cols bg))
  end.

Definition resize_screen (s : screen) (cols rows : Z) (bg : Color) : option screen :=
  if ((cols =? s_cols s) && (rows =? s_rows s))%Z then Some s
  else lines ← mapM (resize_row s cols bg) (seq 0 (Z.to_nat rows)); Some (mkScreen cols rows lines 0 (rows - 1)).

(** ** Screens of their dimensions *)

Lemma index_ok {A} (l : list A) i : (0 ≤ i < Z.of_nat (length l))%Z → ∃ v, index l i = Some v ∧ l !! Z.to_nat i = Some v.
Proof.
  intros Hi. unfold index. destruct (Z.ltb_spec i 0); [lia|]. destruct (lookup_lt_is_Some_2 l (Z.to_nat i)) as [v Hv]; [lia|]. by exists v.
Qed.

Lemma set_index_ok {A} (l : list A) i v : (0 ≤ i < Z.of_nat (length l))%Z → set_index l i v = Some (<[Z.to_nat i := v]> l).
Proof. intros Hi. unfold set_index. destruct (Z.ltb_spec i 0), (Z.leb_spec (Z.of_nat (length l)) i); try lia. done. Qed.

Lemma slice_ok {A} (l : list A) lo hi :
  (0 ≤ lo ≤ hi)%Z → (hi ≤ Z.of_nat (length l))%Z → slice l lo hi = Some (take (Z.to_nat (hi - lo)) (drop (Z.to_nat lo) l)).
Proof. intros H1 H2. unfold slice. destruct (Z.ltb_spec lo 0), (Z.ltb_spec hi lo), (Z.ltb_spec (Z.of_nat (length l)) hi); try lia. done. Qed.

Section screens.
  Context (cols rows : Z) (P : Cell → Prop) (Hcols : (1 ≤ cols)%Z) (Hrows : (1 ≤ rows)%Z) (Hblank : ∀ bg, P (blank bg)).

(** A row of [cols] cells, each with the property; a screen of [rows] of them, with
    its scroll region inside. *)
Definition row_ok (row : list Cell) : Prop := Z.of_nat (length row) = cols ∧ Forall P row.
Definition lines_ok (lines : list (list Cell)) : Prop := Z.of_nat (length lines) = rows ∧ Forall row_ok lines.
Definition screen_ok (s : screen) : Prop :=
  s_cols s = cols ∧ s_rows s = rows ∧ lines_ok (s_lines s) ∧ (0 ≤ s_top s ≤ s_bottom s)%Z ∧ (s_bottom s < rows)%Z.

Lemma blanks_ok n bg : Forall P (replicate n (blank bg)).
Proof. by apply Forall_replicate. Qed.

Lemma blank_row_ok row bg : row_ok row → row_ok (blank_row bg row).
Proof. intros [H _]. split; [by unfold blank_row; rewrite length_replicate|apply blanks_ok]. Qed.

Lemma makeRow_ok bg : row_ok (makeRow cols bg).
Proof. split; [unfold makeRow; rewrite length_replicate; lia|apply blanks_ok]. Qed.

Lemma newScreen_ok bg : screen_ok (newScreen cols rows bg).
Proof.
  split_and!; try done; cbn [newScreen s_top s_bottom s_lines]; try lia. split; [rewrite length_replicate; lia|].
  apply Forall_replicate, makeRow_ok.
Qed.

Lemma lines_row lines y : lines_ok lines → (0 ≤ y < rows)%Z → ∃ row, index lines y = Some row ∧ lines !! Z.to_nat y = Some row ∧ row_ok row.
Proof.
  intros [Hl Hf] Hy. destruct (index_ok lines y) as (row & Hi & Hr); [lia|]. exists row. split_and!; [done..|]. by eapply Forall_lookup_1.
Qed.

Lemma with_lines_ok s lines : screen_ok s → lines_ok lines → screen_ok (s{{ s_lines := lines }}).
Proof. intros (H1 & H2 & _ & H3 & H4) Hl. exact (conj H1 (conj H2 (conj Hl (conj H3 H4)))). Qed.

Lemma set_row_ok s y row : screen_ok s → (0 ≤ y < rows)%Z → row_ok row →
  set_row s y row = Some (s{{ s_lines := <[Z.to_nat y := row]> (s_lines s) }}) ∧ screen_ok (s{{ s_lines := <[Z.to_nat y := row]> (s_lines s) }}).
Proof.
  intros Hs Hy Hr. pose proof Hs as (_ & _ & [Hl Hf] & _). unfold set_row. rewrite set_index_ok by lia. split; [done|].
  apply with_lines_ok; [done|]. split; [by rewrite length_insert|]. by apply Forall_insert.
Qed.

(** An operation on a row that keeps it a row keeps the screen. *)
Lemma row_op_ok s y (f : list Cell → option (list Cell)) :
  screen_ok s → (0 ≤ y < rows)%Z → (∀ row, row_ok row → ∃ row', f row = Some row' ∧ row_ok row') →
  ∃ s', (row ← index (s_lines s) y; row ← f row; set_row s y row) = Some s' ∧ screen_ok s'.
Proof.
  intros Hs Hy Hf. pose proof Hs as (_ & _ & Hl & _). destruct (lines_row _ y Hl Hy) as (row & -> & _ & Hr). cbn [mbind option_bind].
  destruct (Hf row Hr) as (row' & -> & Hr'). cbn [mbind option_bind]. destruct (set_row_ok s y row' Hs Hy Hr') as [-> H]. by eexists.
Qed.

Lemma clearRow_lines s y bg : screen_ok s → (0 ≤ y < rows)%Z →
  clearRow s y bg = Some (s{{ s_lines := <[Z.to_nat y := makeRow cols bg]> (s_lines s) }}).
Proof.
  intros Hs Hy. pose proof Hs as (_ & _ & Hl & _). unfold clearRow. destruct (lines_row _ y Hl Hy) as (row & -> & _ & Hr). cbn [mbind option_bind].
  replace (replicate (length row) (blank bg)) with (makeRow cols bg) by (unfold makeRow; f_equal; destruct Hr; lia).
  by apply set_row_ok, makeRow_ok.
Qed.

Lemma clearRow_ok s y bg : screen_ok s → (0 ≤ y < rows)%Z → ∃ s', clearRow s y bg = Some s' ∧ screen_ok s'.
Proof. intros Hs Hy. rewrite clearRow_lines by done. eexists; split; [done|]. by apply set_row_ok, makeRow_ok. Qed.

Lemma clearRows_spec n y bg s :
  screen_ok s → (0 ≤ y)%Z → (y + Z.of_nat n ≤ rows)%Z →
  ∃ s', clearRows n y bg s = Some s' ∧ screen_ok s' ∧ s_top s' = s_top s ∧ s_bottom s' = s_bottom s ∧
    ∀ j, s_lines s' !! j = if decide (Z.to_nat y ≤ j < Z.to_nat y + n)%nat then Some (makeRow cols bg) else s_lines s !! j.
Proof.
  revert y s. induction n as [|n IH]; intros y s Hs Hy Hn; cbn [clearRows].
  { exists s. split_and!; try done. intros j. by rewrite decide_False by lia. }
  rewrite clearRow_lines by (done || lia). cbn [mbind option_bind].
  destruct (IH (y + 1)%Z (s{{ s_lines := <[Z.to_nat y := makeRow cols bg]> (s_lines s) }})) as (s' & E & Hok & Ht & Hb & Hj); [|lia..|].
  { apply set_row_ok; [done|lia|apply makeRow_ok]. }
  exists s'. split_and!; try done. intros j. rewrite Hj. change (s_lines (s{{ s_lines := ?l }})) with l. pose proof Hs as (_ & _ & [Hl _] & _).
  destruct (decide (j = Z.to_nat y)) as [->|Hne].
  - rewrite decide_False, decide_True by lia. rewrite list_lookup_insert_eq by lia. done.
  - rewrite list_lookup_insert_ne by done. destruct (decide (Z.to_nat (y + 1) ≤ j < Z.to_nat (y + 1) + n)%nat).
    + by rewrite decide_True by lia.
    + by rewrite decide_False by lia.
Qed.

Lemma clearRows_ok n y bg s : screen_ok s → (0 ≤ y)%Z → (y + Z.of_nat n ≤ rows)%Z → ∃ s', clearRows n y bg s = Some s' ∧ screen_ok s'.
Proof. intros Hs Hy Hn. destruct (clearRows_spec n y bg s Hs Hy Hn) as (s' & ? & ? & _). by exists s'. Qed.

Lemma fill_ok row x0 x1 bg : row_ok row → (0 ≤ x0)%Z → (x1 < cols)%Z → ∃ row', fill row x0 x1 (blank bg) = Some row' ∧ row_ok row'.
Proof.
  intros [Hl Hp] H0 H1. unfold fill. destruct (Z.ltb_spec x1 x0); [by exists row|].
  destruct (Z.ltb_spec x0 0), (Z.leb_spec (Z.of_nat (length row)) x1); try lia. cbn [orb]. eexists. split; [done|]. split.
  - rewrite !length_app, length_take, length_replicate, length_drop. lia.
  - apply Forall_app. split; [by apply Forall_take|]. apply Forall_app. split; [apply blanks_ok|by apply Forall_drop].
Qed.

Lemma clearCells_ok s y x0 x1 bg : screen_ok s → ∃ s', clearCells s y x0 x1 bg = Some s' ∧ screen_ok s'.
Proof.
  intros Hs. unfold clearCells. pose proof Hs as (Ec & Er & _). rewrite Ec, Er.
  destruct (Z.ltb_spec y 0), (Z.leb_spec rows y); cbn [orb]; try by exists s.
  apply (row_op_ok s y (λ row, fill row (if (x0 <? 0)%Z then 0%Z else x0) (if (cols <=? x1)%Z then (cols - 1)%Z else x1) (blank bg))); [done|lia|].
  intros row Hr. apply fill_ok; [done|..].
  - destruct (Z.ltb_spec x0 0); lia.
  - destruct (Z.leb_spec cols x1); lia.
Qed.

(** What a scroll of the region by [n] leaves on row [y]. *)
Definition scrolled_up (lines : list (list Cell)) (top bottom n : Z) (bg : Color) (y : Z) : option (list Cell) :=
  if ((y <? top) || (bottom <? y))%Z then index lines y
  else if (y + n <=? bottom)%Z then index lines (y + n) else Some (makeRow cols bg).
Definition scrolled_down (lines : list (list Cell)) (top bottom n : Z) (bg : Color) (y : Z) : option (list Cell) :=
  if ((y <? top) || (bottom <? y))%Z then index lines y
  else if (top <=? y - n)%Z then index lines (y - n) else Some (makeRow cols bg).

Lemma blank_rows_map bg l : Forall row_ok l → blank_row bg <$> l = replicate (length l) (makeRow cols bg).
Proof.
  induction 1 as [|row l [Hl _] _ IH]; [done|]. cbn [length replicate]. rewrite fmap_cons, IH. f_equal. unfold blank_row, makeRow. f_equal. lia.
Qed.

Lemma scrollRegionUp_spec s top bottom n bg :
  screen_ok s → (0 ≤ top ≤ bottom)%Z → (bottom < rows)%Z → (0 < n)%Z →
  ∃ s', scrollRegionUp s top bottom n bg = Some s' ∧ screen_ok s' ∧ s_top s' = s_top s ∧ s_bottom s' = s_bottom s ∧
    ∀ y, (0 ≤ y < rows)%Z → index (s_lines s') y = scrolled_up (s_lines s) top bottom n bg y.
Proof.
  intros Hs Ht Hb Hn. unfold scrollRegionUp. destruct (Z.leb_spec n 0), (Z.leb_spec (bottom - top + 1) 0); try lia. cbn [orb].
  destruct (Z.leb_spec (bottom - top + 1) n) as [Hall|Hsome].
  - destruct (clearRows_spec (Z.to_nat (bottom - top + 1)) top bg s Hs) as (s' & -> & Hok & E1 & E2 & Hj); [lia..|].
    exists s'. split_and!; try done. intros y Hy. unfold scrolled_up, index.
    destruct (Z.ltb_spec y 0); [lia|]. rewrite Hj.
    destruct (Z.ltb_spec y top), (Z.ltb_spec bottom y); cbn [orb]; try (by rewrite decide_False by lia).
    rewrite decide_True by lia. by destruct (Z.leb_spec (y + n) bottom); [lia|].
  - pose proof Hs as (_ & _ & Hlo & _). pose proof Hlo as [Hl Hf]. rewrite !slice_ok by lia. cbn [mbind option_bind]. eexists. split; [done|].
    rewrite blank_rows_map by (by apply Forall_take, Forall_drop).
    rewrite Z.sub_0_r, drop_0, length_take, length_drop.
    rewrite (take_ge (drop (Z.to_nat (bottom + 1)) (s_lines s))) by (rewrite length_drop; lia).
    split; [apply with_lines_ok; [done|]; split; [rewrite !length_app, !length_take, length_replicate, !length_drop; lia|]|split; [done|split; [done|]]].
    + repeat apply Forall_app_2; try (by auto using Forall_take, Forall_drop). apply Forall_replicate, makeRow_ok.
    + intros y Hy. change (s_lines (s{{ s_lines := ?l }})) with l. unfold scrolled_up, index. destruct (Z.ltb_spec y 0); [lia|].
      destruct (Z.ltb_spec y top) as [Hyt|Hyt]; cbn [orb].
      { rewrite lookup_app_l by (rewrite length_take; lia). by rewrite lookup_take_lt by lia. }
      rewrite lookup_app_r by (rewrite length_take; lia). rewrite length_take, Nat.min_l by lia.
      destruct (Z.ltb_spec bottom y) as [Hyb|Hyb].
      { rewrite lookup_app_r by (rewrite length_take, length_drop; lia). rewrite length_take, length_drop, Nat.min_l by lia.
        rewrite lookup_app_r by (rewrite length_replicate; lia). rewrite length_replicate, lookup_drop. f_equal. lia. }
      destruct (Z.leb_spec (y + n) bottom) as [Hin|Hin].
      { rewrite lookup_app_l by (rewrite length_take, length_drop; lia). rewrite lookup_take_lt by lia. rewrite lookup_drop.
        destruct (Z.ltb_spec (y + n) 0); [lia|]. f_equal. lia. }
      rewrite lookup_app_r by (rewrite length_take, length_drop; lia). rewrite length_take, length_drop, Nat.min_l by lia.
      rewrite lookup_app_l by (rewrite length_replicate; lia). apply lookup_replicate_2. lia.
Qed.

Lemma scrollRegionDown_spec s top bottom n bg :
  screen_ok s → (0 ≤ top ≤ bottom)%Z → (bottom < rows)%Z → (0 < n)%Z →
  ∃ s', scrollRegionDown s top bottom n bg = Some s' ∧ screen_ok s' ∧ s_top s' = s_top s ∧ s_bottom s' = s_bottom s ∧
    ∀ y, (0 ≤ y < rows)%Z → index (s_lines s') y = scrolled_down (s_lines s) top bottom n bg y.
Proof.
  intros Hs Ht Hb Hn. unfold scrollRegionDown. destruct (Z.leb_spec n 0), (Z.leb_spec (bottom - top + 1) 0); try lia. cbn [orb].
  destruct (Z.leb_spec (bottom - top + 1) n) as [Hall|Hsome].
  - destruct (clearRows_spec (Z.to_nat (bottom - top + 1)) top bg s Hs) as (s' & -> & Hok & E1 & E2 & Hj); [lia..|].
    exists s'. split_and!; try done. intros y Hy. unfold scrolled_down, index.
    destruct (Z.ltb_spec y 0); [lia|]. rewrite Hj.
    destruct (Z.ltb_spec y top), (Z.ltb_spec bottom y); cbn [orb]; try (by rewrite decide_False by lia).
    rewrite decide_True by lia. by destruct (Z.leb_spec top (y - n)); [lia|].
  - pose proof Hs as (_ & _ & Hlo & _). pose proof Hlo as [Hl Hf]. rewrite !slice_ok by lia. cbn [mbind option_bind]. eexists. split; [done|].
    rewrite blank_rows_map by (by apply Forall_take, Forall_drop).
    rewrite Z.sub_0_r, drop_0, length_take, length_drop.
    rewrite (take_ge (drop (Z.to_nat (bottom + 1)) (s_lines s))) by (rewrite length_drop; lia).
    split; [apply with_lines_ok; [done|]; split; [rewrite !length_app, !length_take, length_replicate, !length_drop; lia|]|split; [done|split; [done|]]].
    + repeat apply Forall_app_2; try (by auto using Forall_take, Forall_drop). apply Forall_replicate, makeRow_ok.
    + intros y Hy. change (s_lines (s{{ s_lines := ?l }})) with l. unfold scrolled_down, index. destruct (Z.ltb_spec y 0); [lia|].
      destruct (Z.ltb_spec y top) as [Hyt|Hyt]; cbn [orb].
      { rewrite lookup_app_l by (rewrite length_take; lia). by rewrite lookup_take_lt by lia. }
      rewrite lookup_app_r by (rewrite length_take; lia). rewrite length_take, Nat.min_l by lia.
      destruct (Z.ltb_spec bottom y) as [Hyb|Hyb].
      { rewrite lookup_app_r by (rewrite length_replicate; lia). rewrite length_replicate.
        rewrite lookup_app_r by (rewrite length_take, length_drop; lia). rewrite length_take, length_drop, lookup_drop. f_equal. lia. }
      destruct (Z.leb_spec top (y - n)) as [Hin|Hin].
      { rewrite lookup_app_r by (rewrite length_replicate; lia). rewrite length_replicate.
        rewrite lookup_app_l by (rewrite length_take, length_drop; lia). rewrite lookup_take_lt by lia. rewrite lookup_drop.
        destruct (Z.ltb_spec (y - n) 0); [lia|]. f_equal. lia. }
      rewrite lookup_app_l by (rewrite length_replicate; lia). apply lookup_replicate_2. lia.
Qed.

Lemma scrollRegion_ok up s top bottom n bg :
  screen_ok s → (0 ≤ top ≤ bottom)%Z → (bottom < rows)%Z →
  ∃ s', (if up : bool then scrollRegionUp else scrollRegionDown) s top bottom n bg = Some s' ∧ screen_ok s' ∧
    s_top s' = s_top s ∧ s_bottom s' = s_bottom s.
Proof.
  intros Hs Ht Hb. destruct (Z.leb_spec n 0) as [Hn|Hn].
  - exists s. split; [|by split_and!]. destruct up; unfold scrollRegionUp, scrollRegionDown; by rewrite (proj2 (Z.leb_le n 0) Hn).
  - destruct up.
    + destruct (scrollRegionUp_spec s top bottom n bg Hs Ht Hb Hn) as (s' & ? & ? & ? & ? & _). by exists s'.
    + destruct (scrollRegionDown_spec s top bottom n bg Hs Ht Hb Hn) as (s' & ? & ? & ? & ? & _). by exists s'.
Qed.

Lemma scrollUp_ok s n bg : screen_ok s → ∃ s', scrollUp s n bg = Some s' ∧ screen_ok s'.
Proof. intros Hs. pose proof Hs as (_ & _ & _ & Ht & Hb). destruct (scrollRegion_ok true s _ _ n bg Hs Ht Hb) as (s' & E & ? & _). exists s'. by split. Qed.

Lemma scrollDown_ok s n bg : screen_ok s → ∃ s', scrollDown s n bg = Some s' ∧ screen_ok s'.
Proof. intros Hs. pose proof Hs as (_ & _ & _ & Ht & Hb). destruct (scrollRegion_ok false s _ _ n bg Hs Ht Hb) as (s' & E & ? & _). exists s'. by split. Qed.

Lemma insertLines_ok s y n bg : screen_ok s → ∃ s', insertLines s y n bg = Some s' ∧ screen_ok s'.
Proof.
  intros Hs. pose proof Hs as (_ & _ & _ & Ht & Hb). unfold insertLines. destruct (Z.ltb_spec y (s_top s)), (Z.ltb_spec (s_bottom s) y); cbn [orb]; try by exists s.
  destruct (scrollRegion_ok false s y (s_bottom s) n bg Hs ltac:(lia) Hb) as (s' & ? & ? & _). by exists s'.
Qed.

Lemma deleteLines_ok s y n bg : screen_ok s → ∃ s', deleteLines s y n bg = Some s' ∧ screen_ok s'.
Proof.
  intros Hs. pose proof Hs as (_ & _ & _ & Ht & Hb). unfold deleteLines. destruct (Z.ltb_spec y (s_top s)), (Z.ltb_spec (s_bottom s) y); cbn [orb]; try by exists s.
  destruct (scrollRegion_ok true s y (s_bottom s) n bg Hs ltac:(lia) Hb) as (s' & ? & ? & _). by exists s'.
Qed.

(** The clamped count of [insertChars] and [deleteChars]. *)
Lemma clamp_count x n : (0 ≤ x < cols)%Z → (0 < n)%Z → (0 < (if (cols - x <? n)%Z then (cols - x)%Z else n) ≤ cols - x)%Z.
Proof. destruct (Z.ltb_spec (cols - x) n); lia. Qed.

Lemma insertChars_ok s y x n bg : screen_ok s → ∃ s', insertChars s y x n bg = Some s' ∧ screen_ok s'.
Proof.
  intros Hs. unfold insertChars. pose proof Hs as (Ec & Er & _). rewrite Ec, Er.
  destruct (Z.ltb_spec y 0), (Z.leb_spec rows y), (Z.ltb_spec x 0), (Z.leb_spec cols x), (Z.leb_spec n 0); cbn [orb]; try by exists s.
  pose proof (clamp_count x n ltac:(lia) ltac:(lia)) as Hn. set (m := if (cols - x <? n)%Z then (cols - x)%Z else n) in *.
  pose proof Hs as (_ & _ & Hl & _). destruct (lines_row _ y Hl) as (row & -> & _ & Hr & Hp); [lia|]. cbn [mbind option_bind].
  rewrite (proj2 (Z.eqb_eq _ _)) by lia. cbn [negb]. rewrite !slice_ok by lia. cbn [mbind option_bind].
  edestruct (set_row_ok s y) as [-> Hok]; [done|lia| |by eexists]. split.
  - rewrite !length_app, !length_take, length_replicate, !length_drop. lia.
  - repeat apply Forall_app_2; auto using Forall_take, Forall_drop. apply blanks_ok.
Qed.

Lemma deleteChars_ok s y x n bg : screen_ok s → ∃ s', deleteChars s y x n bg = Some s' ∧ screen_ok s'.
Proof.
  intros Hs. unfold deleteChars. pose proof Hs as (Ec & Er & _). rewrite Ec, Er.
  destruct (Z.ltb_spec y 0), (Z.leb_spec rows y), (Z.ltb_spec x 0), (Z.leb_spec cols x), (Z.leb_spec n 0); cbn [orb]; try by exists s.
  pose proof (clamp_count x n ltac:(lia) ltac:(lia)) as Hn. set (m := if (cols - x <? n)%Z then (cols - x)%Z else n) in *.
  pose proof Hs as (_ & _ & Hl & _). destruct (lines_row _ y Hl) as (row & -> & _ & Hr & Hp); [lia|]. cbn [mbind option_bind].
  rewrite (proj2 (Z.eqb_eq _ _)) by lia. cbn [negb]. rewrite !slice_ok by lia. cbn [mbind option_bind].
  edestruct (set_row_ok s y) as [-> Hok]; [done|lia| |by eexists]. split.
  - rewrite !length_app, !length_take, length_replicate, !length_drop. lia.
  - repeat apply Forall_app_2; auto using Forall_take, Forall_drop. apply blanks_ok.
Qed.

Lemma with_region_lines_ok s top bottom : screen_ok s → (0 ≤ top ≤ bottom)%Z → (bottom < rows)%Z → screen_ok (s{{ s_top := top }}{{ s_bottom := bottom }}).
Proof. intros (H1 & H2 & H3 & _) H4 H5. exact (conj H1 (conj H2 (conj H3 (conj H4 H5)))). Qed.
End screens.

Lemma screen_ok_mono cols rows (P Q : Cell → Prop) s : (∀ c, P c → Q c) → screen_ok cols rows P s → screen_ok cols rows Q s.
Proof.
  intros HPQ (H1 & H2 & [H3 H4] & H5 & H6). refine (conj H1 (conj H2 (conj (conj H3 _) (conj H5 H6)))).
  eapply Forall_impl; [done|]. intros row [Hl Hr]. split; [done|]. by eapply Forall_impl.
Qed.

Lemma mapM_total {A B} (f : A → option B) (Q : B → Prop) l :
  Forall (λ x, ∃ y, f x = Some y ∧ Q y) l → ∃ l', mapM f l = Some l' ∧ length l' = length l ∧ Forall Q l'.
Proof.
  induction 1 as [|x l (y & E & Hy) _ (l' & IH & Hl & HQ)]; [by exists []|]. exists (y :: l').
  cbn [mapM]. rewrite E. cbn [mbind option_bind]. rewrite IH. split; [done|]. split; [by cbn; f_equal|by constructor].
Qed.

Lemma resize_row_ok cols rows cols' P s bg y :
  (1 ≤ cols')%Z → (1 ≤ cols)%Z → (∀ bg, P (blank bg)) → screen_ok cols rows P s →
  ∃ row, resize_row s cols' bg y = Some row ∧ row_ok cols' P row.
Proof.
  intros Hc Hc0 Hb (Ec & _ & [_ Hf] & _). unfold resize_row. destruct (s_lines s !! y) as [row|] eqn:Ey.
  - apply (Forall_lookup_1 _ _ _ _ Hf) in Ey as [Hrl Hrp]. rewrite Ec, slice_ok by lia. cbn [mbind option_bind].
    eexists. split; [done|]. rewrite drop_0. split.
    + unfold makeRow. rewrite length_app, length_drop, length_replicate, length_take. lia.
    + apply Forall_app. split; [by apply Forall_take|]. by apply Forall_drop, Forall_replicate.
  - eexists. split; [done|]. by apply makeRow_ok.
Qed.

Lemma resize_screen_ok cols rows cols' rows' P s bg :
  (1 ≤ cols')%Z → (1 ≤ rows')%Z → (1 ≤ cols)%Z → (∀ bg, P (blank bg)) → screen_ok cols rows P s →
  ∃ s', resize_screen s cols' rows' bg = Some s' ∧ screen_ok cols' rows' P s'.
Proof.
  intros Hc Hr Hc0 Hb Hs. pose proof Hs as (Ec & Er & _). unfold resize_screen. rewrite Ec, Er.
  destruct ((cols' =? cols)%Z && (rows' =? rows)%Z) eqn:E.
  { apply andb_prop in E as [->%Z.eqb_eq ->%Z.eqb_eq]. by exists s. }
  destruct (mapM_total (resize_row s cols' bg) (row_ok cols' P) (seq 0 (Z.to_nat rows'))) as (lines & -> & Hlen & Hok).
  { apply Forall_true. intros y. by eapply resize_row_ok. }
  cbn [mbind option_bind]. eexists. split; [done|].
  rewrite length_seq in Hlen. unfold screen_ok, lines_ok. cbn [s_cols s_rows s_lines s_top s_bottom]. split_and!; try done; lia.
Qed.

(** What [op] does to the rows of [s], by the row each one is afterwards. *)
Definition rows_become (cols rows : Z) (P : Cell → Prop) (s : screen) (op : option screen) (row : Z → option (list Cell)) : Prop :=
  ∃ s', op = Some s' ∧ screen_ok cols rows P s' ∧ s_top s' = s_top s ∧ s_bottom s' = s_bottom s ∧
    ∀ y, (0 ≤ y < rows)%Z → index (s_lines s') y = row y.

(** Scrolling moves exactly its region: on a screen of its dimensions, scrolling up (down)
    by any positive count moves each row of the scroll region up (down) by it,
    leaves blank rows in the pen's background where nothing moved in, and leaves
    the rows outside the region and the region itself as they were; deleting
    (inserting) lines at a row is the same with the region cut to start at that
    row, and does nothing when the row is outside the region. *)
Theorem scroll_moves_region cols rows P s n bg y0 :
  (1 ≤ cols)%Z → (∀ bg, P (blank bg)) → screen_ok cols rows P s → (0 < n)%Z →
  let region y := (s_top s <= y <= s_bottom s)%Z in
  rows_become cols rows P s (scrollUp s n bg) (scrolled_up cols (s_lines s) (s_top s) (s_bottom s) n bg) ∧
  rows_become cols rows P s (scrollDown s n bg) (scrolled_down cols (s_lines s) (s_top s) (s_bottom s) n bg) ∧
  (region y0 → rows_become cols rows P s (deleteLines s y0 n bg) (scrolled_up cols (s_lines s) y0 (s_bottom s) n bg)) ∧
  (region y0 → rows_become cols rows P s (insertLines s y0 n bg) (scrolled_down cols (s_lines s) y0 (s_bottom s) n bg)) ∧
  (¬ region y0 → deleteLines s y0 n bg = Some s ∧ insertLines s y0 n bg = Some s).
Proof.
  intros Hc Hb Hs Hn region. pose proof Hs as (_ & _ & _ & Ht & Hbt). unfold rows_become, scrollUp, scrollDown, deleteLines, insertLines. split_and!.
  - apply scrollRegionUp_spec; done || lia.
  - apply scrollRegionDown_spec; done || lia.
  - intros Hy. unfold region in Hy. destruct (Z.ltb_spec y0 (s_top s)), (Z.ltb_spec (s_bottom s) y0); try lia. apply scrollRegionUp_spec; done || lia.
  - intros Hy. unfold region in Hy. destruct (Z.ltb_spec y0 (s_top s)), (Z.ltb_spec (s_bottom s) y0); try lia. apply scrollRegionDown_spec; done || lia.
  - intros Hy. unfold region in Hy. by destruct (Z.ltb_spec y0 (s_top s)), (Z.ltb_spec (s_bottom s) y0); try lia.
Qed.

(** Five rows, the region the middle three: two lines scroll out of it. *)
Lemma scroll_moves_region_witness :
  let s := (newScreen 2 5 (Basic 1)){{ s_top := 1%Z }}{{ s_bottom := 3%Z }} in
  rows_become 2 5 (λ _, True) s (scrollUp s 2 ColorDefault) (scrolled_up 2 (s_lines s) 1 3 2 ColorDefault).
Proof.
  intros s. apply (scroll_moves_region 2 5 (λ _, True) s 2 ColorDefault 0); [lia|done| |lia].
  apply with_region_lines_ok; [|lia|lia]. apply newScreen_ok; [lia|lia|done].
Defined.
