(* ===== verification/VtTerm.v ===== *)
(** * The terminal: [vtgrid/sidetable.go], [vtgrid/terminal.go] and [vtgrid/csi.go]

    A [Terminal] takes the bytes of a session and keeps the grid they draw.
    Parameters of a control sequence are 64-bit [int]s, with their wrap-around
    where they enter the arithmetic; [None] is a run-time panic.  The width of a
    rune is a parameter (the library go-runewidth), 0, 1 or 2.  A size is any
    integer; Go cannot allocate a grid beyond its limit, which no caller asks for,
    as they all pass 16-bit sizes.

    What holds of it is in [VtTermLaws], and what a repaint does to it in
    [VtRepaint]. *)

From stdpp Require Import prelude gmap strings list.
From Stdlib Require Import NArith ZArith.
From coqutil Require Import Datatypes.RecordSetters.
From S2P Require Import Prelude GoStrings TermMode Utf8 VtStatus VtGrid.

Import DoubleBraceUpdate.
Open Scope N_scope.
Open Scope stdpp_scope.
Set Default Goal Selector "!".

(** ** State *)

Record Link := mkLink { l_URL : list N; l_Params : list N }.

Definition maxLinks : nat := 4096.
Definition maxClusters : nat := 4096.
Definition maxCombining : nat := 8.
Definition maxParams : nat := 128.
Definition maxString : nat := 4096.

Record savedCursor := mkSaved { sc_x : Z; sc_y : Z; sc_pen : pen; sc_originMode : bool; sc_valid : bool }.

Inductive parseState := stGround | stEsc | stEscInt | stCSI | stStr | stStrEsc.

(** [t.scr] is the alternate screen when [altActive], the primary one otherwise;
    [utf8buf] is [t.utf8buf[:t.utf8n]]. *)
Record Terminal := mkTerminal {
  t_pri : screen; t_alt : screen; t_cols : Z; t_rows : Z; t_x : Z; t_y : Z; t_pen : pen;
  t_autowrap : bool; t_originMode : bool; t_cursorVis : bool; t_pendingWrap : bool;
  t_links : list Link; t_linkIndex : gmap (list N) N; t_combining : list (list N); t_combIndex : gmap (list N) N;
  t_lastX : Z; t_lastY : Z; t_saved : savedCursor; t_savedAlt : savedCursor; t_tabs : list bool; t_title : list N;
  t_altActive : bool; t_program : ProgramStatus; t_programQueries : Z;
  t_st : parseState; t_params : list N; t_strIntro : N; t_strBuf : list N; t_utf8buf : list N }.

Definition scr (t : Terminal) : screen := if t_altActive t then t_alt t else t_pri t.
Definition set_scr (t : Terminal) (s : screen) : Terminal :=
  if t_altActive t then t{{ t_alt := s }} else t{{ t_pri := s }}.
(** A call of one of the current screen's methods. *)
Definition on_scr (t : Terminal) (f : screen → option screen) : option Terminal := s ← f (scr t); Some (set_scr t s).

Definition bg (t : Terminal) : Color := p_BG (t_pen t).

Definition noSaved : savedCursor := mkSaved 0 0 zeroPen false false.

Definition resetTabs (t : Terminal) : Terminal :=
  t{{ t_tabs := (λ x, (8 <=? x)%nat && (x `mod` 8 =? 0)%nat) <$> seq 0 (Z.to_nat (t_cols t)) }}.

Definition New (cols rows : Z) : Terminal :=
  let cols := if (cols <? 1)%Z then 1%Z else cols in
  let rows := if (rows <? 1)%Z then 1%Z else rows in
  let s := newScreen cols rows ColorDefault in
  resetTabs (mkTerminal s s cols rows 0 0 zeroPen true false true false [] ∅ [] ∅ (-1) (-1) noSaved noSaved [] [] false
    noStatus 0 stGround [] 0 [] []).

(** ** Reading the grid *)

Definition zeroCell : Cell := mkCell 0 0 0 0 ColorDefault ColorDefault ColorDefault 0 0.

Definition CellAt (t : Terminal) (x y : Z) : option Cell :=
  if ((x <? 0) || (y <? 0) || (t_cols t <=? x) || (t_rows t <=? y))%Z then Some zeroCell
  else row ← index (s_lines (scr t)) y; index row x.

Definition LinkOf (t : Terminal) (c : Cell) : option Link :=
  if c_link c =? 0 then None else t_links t !! N.to_nat (c_link c).

(** The marks of a cell, [""] for index 0 or one past the table. *)
Definition marks (t : Terminal) (c : Cell) : list N :=
  if c_combining c =? 0 then [] else default [] (t_combining t !! N.to_nat (c_combining c)).

Definition Text (t : Terminal) (c : Cell) : list N :=
  if (c_Width c =? 0)%nat then []
  else if c_Rune c =? 0 then [0x20]
  else EncodeRune (c_Rune c) ++ marks t c.

Definition row_text (t : Terminal) (row : list Cell) : list N :=
  row ≫= λ c, if (c_Width c =? 0)%nat then [] else Text t c.
(** [Lines]: the first [cols] cells of the first [rows] rows. *)
Definition Lines (t : Terminal) : option (list (list N)) :=
  rows ← slice (s_lines (scr t)) 0 (t_rows t);
  mapM (λ row, cells ← slice row 0 (t_cols t); Some (row_text t cells)) rows.

(** ** Side tables *)

(** The conversion to a 16-bit index. *)
Definition uint16 (n : nat) : N := N.of_nat n `mod` 0x10000.

Definition link_key (l : Link) : list N := l_Params l ++ [0] ++ l_URL l.

Definition internLink (t : Terminal) (l : Link) : Terminal * N :=
  if bool_decide (l_URL l = []) then (t, 0)
  else match t_linkIndex t !! link_key l with
  | Some id => (t, id)
  | None =>
      if (maxLinks <=? length (t_links t))%nat then (t, 0)
      else
        let t := if bool_decide (length (t_links t) = 0%nat) then t{{ t_links := [mkLink [] []] }}{{ t_linkIndex := ∅ }} else t in
        let t := t{{ t_links := t_links t ++ [l] }} in
        let id := uint16 (length (t_links t) - 1) in
        (t{{ t_linkIndex := <[link_key l := id]> (t_linkIndex t) }}, id)
  end.

Definition internCombining (t : Terminal) (runes : list N) : Terminal * N :=
  if bool_decide (runes = []) then (t, 0)
  else match t_combIndex t !! of_runes runes with
  | Some id => (t, id)
  | None =>
      if (maxClusters <=? length (t_combining t))%nat then (t, 0)
      else
        let t := if bool_decide (length (t_combining t) = 0%nat) then t{{ t_combining := [[]] }}{{ t_combIndex := ∅ }} else t in
        let t := t{{ t_combining := t_combining t ++ [of_runes runes] }} in
        let id := uint16 (length (t_combining t) - 1) in
        (t{{ t_combIndex := <[of_runes runes := id]> (t_combIndex t) }}, id)
  end.

Definition addCombining (t : Terminal) (r : N) : option Terminal :=
  let x := t_lastX t in
  let y := t_lastY t in
  if ((x <? 0) || (y <? 0) || (t_cols t <=? x) || (t_rows t <=? y))%Z then Some t
  else
    row ← index (s_lines (scr t)) y; cell ← index row x;
    if c_Rune cell =? 0 then Some t
    else
      let prev := marks t cell in
      if (maxCombining <=? length (to_runes prev))%nat then Some t
      else
        let '(t, id) := internCombining t (to_runes (prev ++ EncodeRune r)) in
        row ← set_index row x (cell{{ c_combining := id }}); on_scr t (λ s, set_row s y row).

(** ** The cursor *)

Definition clampCursor (t : Terminal) : Terminal :=
  let clamp v hi := if (hi <=? v)%Z then (hi - 1)%Z else v in
  let floor v := if (v <? 0)%Z then 0%Z else v in
  t{{ t_x := floor (clamp (t_x t) (t_cols t)) }}{{ t_y := floor (clamp (t_y t) (t_rows t)) }}.

Definition Resize (t : Terminal) (cols rows : Z) : option Terminal :=
  let cols := if (cols <? 1)%Z then 1%Z else cols in
  let rows := if (rows <? 1)%Z then 1%Z else rows in
  if ((cols =? t_cols t) && (rows =? t_rows t))%Z then Some t
  else
    pri ← resize_screen (t_pri t) cols rows (bg t);
    alt ← resize_screen (t_alt t) cols rows (bg t);
    let t := t{{ t_pri := pri }}{{ t_alt := alt }}{{ t_cols := cols }}{{ t_rows := rows }} in
    Some ((clampCursor (resetTabs t)){{ t_pendingWrap := false }}).

(** The first stop of [n] columns from [x] up, and down. *)
Fixpoint next_stop (n : nat) (x : Z) (tabs : list bool) : option (option Z) :=
  match n with
  | O => Some None
  | S n => b ← index tabs x; if (b : bool) then Some (Some x) else next_stop n (x + 1) tabs
  end.
Fixpoint prev_stop (n : nat) (x : Z) (tabs : list bool) : option (option Z) :=
  match n with
  | O => Some None
  | S n => b ← index tabs x; if (b : bool) then Some (Some x) else prev_stop n (x - 1) tabs
  end.

Definition tab (t : Terminal) : option Terminal :=
  stop ← next_stop (Z.to_nat (t_cols t - (t_x t + 1))) (t_x t + 1) (t_tabs t);
  Some match stop with
       | Some x => t{{ t_x := x }}{{ t_pendingWrap := false }}
       | None => if (t_x t =? t_cols t - 1)%Z then t else t{{ t_x := (t_cols t - 1)%Z }}{{ t_pendingWrap := false }}
       end.

Definition backTab (t : Terminal) : option Terminal :=
  stop ← prev_stop (Z.to_nat (t_x t - 1)) (t_x t - 1) (t_tabs t);
  Some (t{{ t_pendingWrap := false }}{{ t_x := default 0%Z stop }}).

Definition lineFeed (t : Terminal) : option Terminal :=
  let t := t{{ t_pendingWrap := false }} in
  if (t_y t =? s_bottom (scr t))%Z then on_scr t (λ s, scrollUp s 1 (bg t))
  else Some (if (t_y t <? t_rows t - 1)%Z then t{{ t_y := (t_y t + 1)%Z }} else t).

Definition reverseIndex (t : Terminal) : option Terminal :=
  let t := t{{ t_pendingWrap := false }} in
  if (t_y t =? s_top (scr t))%Z then on_scr t (λ s, scrollDown s 1 (bg t))
  else Some (if (0 <? t_y t)%Z then t{{ t_y := (t_y t - 1)%Z }} else t).

Definition control (t : Terminal) (b : N) : option Terminal :=
  if b =? 0x08 then
    Some (if t_pendingWrap t then t{{ t_pendingWrap := false }}
          else if (0 <? t_x t)%Z then t{{ t_x := (t_x t - 1)%Z }} else t)
  else if b =? 0x09 then tab t
  else if in_range 0x0A 0x0C b then lineFeed t
  else Some (if b =? 0x0D then t{{ t_x := 0%Z }}{{ t_pendingWrap := false }} else t).

Definition saveCursor (t : Terminal) : Terminal :=
  let s := mkSaved (t_x t) (t_y t) (t_pen t) (t_originMode t) true in
  if t_altActive t then t{{ t_savedAlt := s }} else t{{ t_saved := s }}.

Definition restoreCursor (t : Terminal) : Terminal :=
  let s := if t_altActive t then t_savedAlt t else t_saved t in
  if negb (sc_valid s) then t{{ t_x := 0%Z }}{{ t_y := 0%Z }}
  else clampCursor (t{{ t_x := sc_x s }}{{ t_y := sc_y s }}{{ t_pen := sc_pen s }}{{ t_originMode := sc_originMode s }}
                     {{ t_pendingWrap := false }}).

Definition with_region (s : screen) (top bottom : Z) : screen := s{{ s_top := top }}{{ s_bottom := bottom }}.

Definition reset (t : Terminal) : option Terminal :=
  let t := t{{ t_pen := pen_reset (t_pen t) }}{{ t_autowrap := true }}{{ t_originMode := false }}{{ t_cursorVis := true }}
            {{ t_pendingWrap := false }}{{ t_x := 0%Z }}{{ t_y := 0%Z }}{{ t_altActive := false }} in
  pri ← clearRows (Z.to_nat (t_rows t)) 0 ColorDefault (with_region (t_pri t) 0 (t_rows t - 1));
  alt ← clearRows (Z.to_nat (t_rows t)) 0 ColorDefault (with_region (t_alt t) 0 (t_rows t - 1));
  Some ((resetTabs (t{{ t_pri := pri }}{{ t_alt := alt }})){{ t_program := noStatus }}).

(** ** Control sequences *)

(** [n] and [sub], which are appended to together. *)
Record csiParams := mkParams { cp_prefix : N; cp_vals : list (Z * bool) }.

Definition param (p : csiParams) (i : nat) : option Z := fst <$> cp_vals p !! i.
Definition sub (p : csiParams) (i : nat) : bool := default false (snd <$> cp_vals p !! i).

Definition at_ (p : csiParams) (i : nat) (def : Z) : Z :=
  match param p i with Some v => if (v =? 0)%Z then def else v | None => def end.
Definition atRaw (p : csiParams) (i : nat) : Z := default 0%Z (param p i).

(** One value: an empty or unreadable one is 0. *)
Definition csi_value (s : list N) : Z := default 0%Z (AtoiZ s).

(** The loop over the bytes: [seg] is [b[start:i]], [colon] the separator before it. *)
Fixpoint csi_vals (b : list N) (seg : list N) (colon : bool) : list (Z * bool) :=
  match b with
  | [] => [(csi_value seg, colon)]
  | c :: b =>
      if (c =? 0x3B) || (c =? 0x3A) then (csi_value seg, colon) :: csi_vals b [] (c =? 0x3A)
      else csi_vals b (seg ++ [c]) colon
  end.

Definition is_prefix_byte (c : N) : bool := bool_decide (c ∈ lit "?><=").

Definition parseCSIParams (b : list N) : csiParams :=
  let '(prefix, b) := match b with
                      | c :: rest => if is_prefix_byte c then (c, rest) else (0, b)
                      | [] => (0, [])
                      end in
  mkParams prefix (match b with [] => [] | _ => csi_vals b [] false end).

Definition clampToRegion (t : Terminal) : Terminal :=
  let x := if (t_x t <? 0)%Z then 0%Z else t_x t in
  let x := if (t_cols t <=? x)%Z then (t_cols t - 1)%Z else x in
  let lo := if t_originMode t then s_top (scr t) else 0%Z in
  let hi := if t_originMode t then s_bottom (scr t) else (t_rows t - 1)%Z in
  let y := if (t_y t <? lo)%Z then lo else t_y t in
  let y := if (hi <? y)%Z then hi else y in
  t{{ t_x := x }}{{ t_y := y }}.

Definition moveCursor (t : Terminal) (dx dy : Z) : Terminal :=
  clampToRegion (t{{ t_pendingWrap := false }}{{ t_x := int64 (t_x t + dx) }}{{ t_y := int64 (t_y t + dy) }}).
Definition setCursor (t : Terminal) (x y : Z) : Terminal :=
  clampToRegion (t{{ t_pendingWrap := false }}{{ t_x := x }}{{ t_y := y }}).
Definition setCursorRow (t : Terminal) (row : Z) : Terminal :=
  let row := if t_originMode t then int64 (row + s_top (scr t)) else row in
  clampToRegion (t{{ t_pendingWrap := false }}{{ t_y := row }}).

Definition clearTabs (t : Terminal) (mode : Z) : option Terminal :=
  if (mode =? 0)%Z then
    if ((0 <=? t_x t) && (t_x t <? t_cols t))%Z then tabs ← set_index (t_tabs t) (t_x t) false; Some (t{{ t_tabs := tabs }})
    else Some t
  else Some (if (mode =? 3)%Z then t{{ t_tabs := replicate (length (t_tabs t)) false }} else t).

Definition eraseLine (t : Terminal) (mode : Z) : option Terminal :=
  let t := t{{ t_pendingWrap := false }} in
  if (mode =? 0)%Z then on_scr t (λ s, clearCells s (t_y t) (t_x t) (t_cols t - 1) (bg t))
  else if (mode =? 1)%Z then on_scr t (λ s, clearCells s (t_y t) 0 (t_x t) (bg t))
  else if (mode =? 2)%Z then on_scr t (λ s, clearCells s (t_y t) 0 (t_cols t - 1) (bg t))
  else Some t.

Definition eraseDisplay (t : Terminal) (mode : Z) : option Terminal :=
  let t := t{{ t_pendingWrap := false }} in
  if (mode =? 0)%Z then
    t ← on_scr t (λ s, clearCells s (t_y t) (t_x t) (t_cols t - 1) (bg t));
    on_scr t (clearRows (Z.to_nat (t_rows t - (t_y t + 1))) (t_y t + 1) (bg t))
  else if (mode =? 1)%Z then
    t ← on_scr t (clearRows (Z.to_nat (t_y t)) 0 (bg t));
    on_scr t (λ s, clearCells s (t_y t) 0 (t_x t) (bg t))
  else if ((mode =? 2) || (mode =? 3))%Z then on_scr t (clearRows (Z.to_nat (t_rows t)) 0 (bg t))
  else Some t.

Definition setScrollRegion (t : Terminal) (p : csiParams) : Terminal :=
  let top := int64 (at_ p 0 1 - 1) in
  let bottom := int64 (at_ p 1 (t_rows t) - 1) in
  let top := if (top <? 0)%Z then 0%Z else top in
  let bottom := if (t_rows t <=? bottom)%Z then (t_rows t - 1)%Z else bottom in
  if (bottom <=? top)%Z then t
  else (set_scr t (with_region (scr t) top bottom)){{ t_x := 0%Z }}{{ t_y := if t_originMode t then top else 0%Z }}
         {{ t_pendingWrap := false }}.

Definition switchScreen (t : Terminal) (toAlt saveRestore : bool) : option Terminal :=
  if bool_decide (toAlt = t_altActive t) then Some t
  else if toAlt then
    let t := if saveRestore then saveCursor t else t in
    let t := t{{ t_altActive := true }} in
    let t := set_scr t (with_region (scr t) 0 (t_rows t - 1)) in
    t ← on_scr t (clearRows (Z.to_nat (t_rows t)) 0 (bg t));
    let t := if saveRestore then t else t{{ t_x := 0%Z }}{{ t_y := 0%Z }} in
    Some (t{{ t_pendingWrap := false }})
  else
    let t := t{{ t_altActive := false }} in
    let t := if saveRestore then restoreCursor t else t in
    Some (clampCursor (t{{ t_pendingWrap := false }})).

(** One mode of [setModes]. *)
Definition set_mode (set : bool) (t : Terminal) (m : Z) : option Terminal :=
  if (m =? 6)%Z then Some (t{{ t_originMode := set }}{{ t_x := 0%Z }}{{ t_y := if set then s_top (scr t) else 0%Z }})
  else if (m =? 7)%Z then Some (t{{ t_autowrap := set }}{{ t_pendingWrap := false }})
  else if (m =? 25)%Z then Some (t{{ t_cursorVis := set }})
  else if ((m =? 47) || (m =? 1047))%Z then switchScreen t set false
  else if (m =? 1048)%Z then Some (if set then saveCursor t else restoreCursor t)
  else if (m =? 1049)%Z then switchScreen t set true
  else Some t.

Definition setModes (t : Terminal) (p : csiParams) (set : bool) : option Terminal :=
  if negb (cp_prefix p =? 0x3F) then Some t
  else foldl (λ acc m, t ← acc; set_mode set t m.1) (Some t) (cp_vals p).

(** ** SGR *)

Definition uint8 (v : Z) : N := Z.to_N (v `mod` 256).

(** The index of the last parameter used, and the colour, if one was read. *)
Definition extendedColor (p : csiParams) (i : nat) : nat * option Color :=
  let len := length (cp_vals p) in
  if (len <=? i + 1)%nat then (i, None)
  else
    let colon := sub p (i + 1) in
    let v j := uint8 (atRaw p j) in
    if (atRaw p (i + 1) =? 5)%Z then
      if (i + 2 <? len)%nat then ((i + 2)%nat, Some (Indexed (v (i + 2)%nat))) else ((i + 1)%nat, None)
    else if (atRaw p (i + 1) =? 2)%Z then
      let j := if colon && (i + 2 + 3 <? len)%nat && sub p (i + 2) then (i + 3)%nat else (i + 2)%nat in
      if (j + 2 <? len)%nat then ((j + 2)%nat, Some (RGB (v j) (v (j + 1)%nat) (v (j + 2)%nat))) else ((len - 1)%nat, None)
    else ((i + 1)%nat, None).

Definition set_attr (p : pen) (a : N) : pen := p{{ p_Attr := N.lor (p_Attr p) a }}.
Definition clear_attr (p : pen) (a : N) : pen := p{{ p_Attr := N.ldiff (p_Attr p) a }}.

Definition sgr_underline (p : csiParams) (i : nat) : N :=
  if (i + 1 <? length (cp_vals p))%nat && sub p (i + 1) then
    let u := atRaw p (i + 1) in
    if (u <=? Z.of_N UnderlineDashed)%Z then uint8 u else UnderlineSingle
  else UnderlineSingle.

(** The codes that set one thing, and take no other parameter. *)
Definition sgr_simple (c : Z) (pn : pen) : pen :=
  (if c =? 0 then pen_reset pn
   else if c =? 1 then set_attr pn AttrBold
   else if c =? 2 then set_attr pn AttrFaint
   else if c =? 3 then set_attr pn AttrItalic
   else if c =? 5 then set_attr pn AttrBlink
   else if c =? 6 then set_attr pn AttrRapidBlink
   else if c =? 7 then set_attr pn AttrReverse
   else if c =? 8 then set_attr pn AttrConceal
   else if c =? 9 then set_attr pn AttrStrike
   else if (c =? 21) || (c =? 22) then clear_attr pn (N.lor AttrBold AttrFaint)
   else if c =? 23 then clear_attr pn AttrItalic
   else if c =? 24 then pn{{ p_Under := UnderlineNone }}{{ p_UnderFG := ColorDefault }}
   else if c =? 25 then clear_attr pn (N.lor AttrBlink AttrRapidBlink)
   else if c =? 27 then clear_attr pn AttrReverse
   else if c =? 28 then clear_attr pn AttrConceal
   else if c =? 29 then clear_attr pn AttrStrike
   else if (30 <=? c) && (c <=? 37) then pn{{ p_FG := Basic (uint8 (c - 30)) }}
   else if c =? 39 then pn{{ p_FG := ColorDefault }}
   else if (40 <=? c) && (c <=? 47) then pn{{ p_BG := Basic (uint8 (c - 40)) }}
   else if c =? 49 then pn{{ p_BG := ColorDefault }}
   else if c =? 59 then pn{{ p_UnderFG := ColorDefault }}
   else if (90 <=? c) && (c <=? 97) then pn{{ p_FG := Basic (uint8 (c - 90 + 8)) }}
   else if (100 <=? c) && (c <=? 107) then pn{{ p_BG := Basic (uint8 (c - 100 + 8)) }}
   else pn)%Z.

(** One turn of the loop: the code at [i], and the index of the last parameter used. *)
Definition sgr_code (p : csiParams) (i : nat) (c : Z) (pn : pen) : pen * nat :=
  if (c =? 4)%Z then (pn{{ p_Under := sgr_underline p i }}, i)
  else if (c =? 38)%Z then
    let '(j, col) := extendedColor p i in (pn{{ p_FG := default (p_FG pn) col }}, j)
  else if (c =? 48)%Z then
    let '(j, col) := extendedColor p i in (pn{{ p_BG := default (p_BG pn) col }}, j)
  else if (c =? 58)%Z then
    let '(j, col) := extendedColor p i in (pn{{ p_UnderFG := default (p_UnderFG pn) col }}, j)
  else (sgr_simple c pn, i).

(** [for i := ...; i < len(p.n); i++]: [i] grows at every turn. *)
Fixpoint sgr_from (fuel : nat) (p : csiParams) (i : nat) (pn : pen) : pen :=
  match fuel with
  | O => pn
  | S fuel =>
      match param p i with
      | None => pn
      | Some c =>
          if sub p i then sgr_from fuel p (i + 1) pn
          else let '(pn, j) := sgr_code p i c pn in sgr_from fuel p (j + 1) pn
      end
  end.

Definition sgr_pen (p : csiParams) (pn : pen) : pen :=
  if bool_decide (cp_vals p = []) then pen_reset pn else sgr_from (length (cp_vals p)) p 0 pn.
Definition sgr (t : Terminal) (p : csiParams) : Terminal := t{{ t_pen := sgr_pen p (t_pen t) }}.

(** ** Dispatch *)

Definition is_final (final : N) (s : string) : bool := bool_decide (final ∈ lit s).
Definition home_x (t : Terminal) : Terminal := t{{ t_x := 0%Z }}.
Definition no_wrap (t : Terminal) : Terminal := t{{ t_pendingWrap := false }}.

(** [for i := n; i > 0; i--]. *)
Definition repeat_op (n : Z) (f : Terminal → option Terminal) (t : Terminal) : option Terminal :=
  Z.iter n (λ acc, acc ≫= f) (Some t).

Definition dispatchCSI (t : Terminal) (final : N) : option Terminal :=
  let p := parseCSIParams (t_params t) in
  let n := at_ p 0 1 in
  let f := is_final final in
  if negb (cp_prefix p =? 0) then
    if f "h" then setModes t p true else if f "l" then setModes t p false else Some t
  else if f "A" then Some (moveCursor t 0 (int64 (- n)))
  else if f "Be" then Some (moveCursor t 0 n)
  else if f "Ca" then Some (moveCursor t n 0)
  else if f "D" then Some (moveCursor t (int64 (- n)) 0)
  else if f "E" then Some (moveCursor (home_x t) 0 n)
  else if f "F" then Some (moveCursor (home_x t) 0 (int64 (- n)))
  else if f "G`" then Some (setCursor t (int64 (n - 1)) (t_y t))
  else if f "d" then Some (setCursorRow t (int64 (n - 1)))
  else if f "Hf" then
    let t := setCursorRow t (int64 (n - 1)) in Some (setCursor t (int64 (at_ p 1 1 - 1)) (t_y t))
  else if f "I" then repeat_op n tab t
  else if f "Z" then repeat_op n backTab t
  else if f "J" then eraseDisplay t (atRaw p 0)
  else if f "K" then eraseLine t (atRaw p 0)
  else if f "L" then no_wrap <$> (home_x <$> on_scr t (λ s, insertLines s (t_y t) n (bg t)))
  else if f "M" then no_wrap <$> (home_x <$> on_scr t (λ s, deleteLines s (t_y t) n (bg t)))
  else if f "@" then no_wrap <$> on_scr t (λ s, insertChars s (t_y t) (t_x t) n (bg t))
  else if f "P" then no_wrap <$> on_scr t (λ s, deleteChars s (t_y t) (t_x t) n (bg t))
  else if f "X" then no_wrap <$> on_scr t (λ s, clearCells s (t_y t) (t_x t) (int64 (t_x t + n - 1)) (bg t))
  else if f "S" then on_scr t (λ s, scrollUp s n (bg t))
  else if f "T" then on_scr t (λ s, scrollDown s n (bg t))
  else if f "g" then clearTabs t (atRaw p 0)
  else if f "m" then Some (sgr t p)
  else if f "r" then Some (setScrollRegion t p)
  else if f "s" then Some (saveCursor t)
  else if f "u" then Some (restoreCursor t)
  else Some t.

(** ** Strings *)

Definition strAppend (t : Terminal) (b : N) : Terminal :=
  if (length (t_strBuf t) <? maxString)%nat then t{{ t_strBuf := t_strBuf t ++ [b] }} else t.

(** [OSC 8]: the rest after the command. *)
Definition osc_link (t : Terminal) (rest : list N) : Terminal :=
  match cut_byte 0x3B rest with
  | None => t
  | Some (params, uri) =>
      if negb (ValidString uri) || negb (ValidString params) then t
      else let '(t, id) := internLink t (mkLink uri params) in t{{ t_pen := (t_pen t){{ p_link := id }} }}
  end.

Definition osc_status (t : Terminal) (rest : list N) : Terminal :=
  if (maxString <=? length (t_strBuf t))%nat then t
  else match ParseProgramStatus rest with
       | StQuery => t{{ t_programQueries := int64 (t_programQueries t + 1) }}
       | StReport st => t{{ t_program := st }}
       | StIgnore => t
       end.

Definition endString (t : Terminal) : Terminal :=
  if negb (t_strIntro t =? 0x5D) then t
  else match cut_byte 0x3B (t_strBuf t) with
  | None => t
  | Some (cmd, rest) =>
      if bool_decide (cmd = lit "0") || bool_decide (cmd = lit "2") then (if ValidString rest then t{{ t_title := rest }} else t)
      else if bool_decide (cmd = lit "7501") then osc_status t rest
      else if bool_decide (cmd = lit "8") then osc_link t rest
      else t
  end.

Definition str (t : Terminal) (b : N) : Terminal :=
  if b =? 0x07 then (endString t){{ t_st := stGround }}
  else if b =? 0x1B then t{{ t_st := stStrEsc }}
  else strAppend t b.

Definition csi (t : Terminal) (b : N) : option Terminal :=
  if in_range 0x40 0x7E b then t ← dispatchCSI t b; Some (t{{ t_st := stGround }})
  else Some (if (length (t_params t) <? maxParams)%nat then t{{ t_params := t_params t ++ [b] }} else t).

Definition escape (t : Terminal) (b : N) : option Terminal :=
  let t := t{{ t_st := stGround }} in
  let f := is_final b in
  if f "[" then Some (t{{ t_params := [] }}{{ t_st := stCSI }})
  else if f "]PX^_" then Some (t{{ t_strIntro := b }}{{ t_strBuf := [] }}{{ t_st := stStr }})
  else if b =? 0x1B then Some (t{{ t_st := stEsc }})
  else if f "()*+-./# " then Some (t{{ t_st := stEscInt }})
  else if f "M" then reverseIndex t
  else if f "D" then lineFeed t
  else if f "E" then lineFeed (home_x t)
  else if f "H" then
    if ((0 <=? t_x t) && (t_x t <? t_cols t))%Z then tabs ← set_index (t_tabs t) (t_x t) true; Some (t{{ t_tabs := tabs }})
    else Some t
  else if f "7" then Some (saveCursor t)
  else if f "8" then Some (restoreCursor t)
  else if f "c" then reset t
  else Some t.

Definition penCell (t : Terminal) (r : N) (w : nat) : Cell :=
  let p := t_pen t in mkCell r w (p_Attr p) (p_Under p) (p_FG p) (p_BG p) (p_UnderFG p) (p_link p) 0.

(** ** Glyphs and the input loop *)

Section width.
  Context (runeWidth : N → nat).

(** The row after a glyph of width [w] lands at [x]. *)
Definition put_glyph (t : Terminal) (row : list Cell) (x : Z) (r : N) (w : nat) : option (list Cell) :=
  here ← index row x;
  row ← (if ((0 <? x)%Z && (c_Width here =? 0)%nat)%bool then set_index row (x - 1) (blank (bg t)) else Some row);
  row ← (if ((x + 1 <? t_cols t)%Z && (c_Width here =? 2)%nat)%bool then set_index row (x + 1) (blank (bg t)) else Some row);
  row ← set_index row x (penCell t r w);
  if ((w =? 2)%nat && (x + 1 <? t_cols t)%Z)%bool then set_index row (x + 1) (penCell t 0 0) else Some row.

(** The glyph at the cursor, which then moves past it. *)
Definition print_here (t : Terminal) (r : N) (w : nat) : option Terminal :=
  row ← index (s_lines (scr t)) (t_y t); row ← put_glyph t row (t_x t) r w;
  t ← on_scr t (λ s, set_row s (t_y t) row);
  let t := t{{ t_lastX := t_x t }}{{ t_lastY := t_y t }} in
  let x := (t_x t + Z.of_nat w)%Z in
  Some (if (t_cols t <=? x)%Z
        then t{{ t_x := (t_cols t - 1)%Z }}{{ t_pendingWrap := if t_autowrap t then true else t_pendingWrap t }}
        else t{{ t_x := x }}).

Definition print (t : Terminal) (r : N) : option Terminal :=
  let w := runeWidth r in
  if (w =? 0)%nat then addCombining t r
  else
    t ← (if t_pendingWrap t then lineFeed (home_x (no_wrap t)) else Some t);
    if (t_cols t <? t_x t + Z.of_nat w)%Z then
      if negb (t_autowrap t) then Some t else t ← lineFeed (home_x t); print_here t r w
    else print_here t r w.

Definition ground (t : Terminal) (b : N) : option Terminal :=
  if b =? 0x1B then Some (t{{ t_utf8buf := [] }}{{ t_st := stEsc }})
  else if b <? 0x20 then control (t{{ t_utf8buf := [] }}) b
  else if b =? 0x7F then Some t
  else if (0 <? length (t_utf8buf t))%nat || (0x80 <=? b) then
    if (4 <=? length (t_utf8buf t))%nat then None
    else
      let buf := t_utf8buf t ++ [b] in
      if FullRune buf then
        let '(r, size) := DecodeRune buf in
        let t := t{{ t_utf8buf := [] }} in
        if (r =? RuneError) && (size =? 1)%nat then Some t else print t r
      else if (length buf =? 4)%nat then Some (t{{ t_utf8buf := [] }})
      else Some (t{{ t_utf8buf := buf }})
  else print t b.

Definition feed (t : Terminal) (b : N) : option Terminal :=
  match t_st t with
  | stGround => ground t b
  | stEsc => escape t b
  | stEscInt => Some (if in_range 0x20 0x2F b then t else t{{ t_st := stGround }})
  | stCSI => csi t b
  | stStr => Some (str t b)
  | stStrEsc =>
      Some (if b =? 0x5C then (endString t){{ t_st := stGround }}
            else if b =? 0x1B then t
            else (strAppend (strAppend t 0x1B) b){{ t_st := stStr }})
  end.

Definition Write (t : Terminal) (p : list N) : option Terminal := foldl (λ acc b, t ← acc; feed t b) (Some t) p.

(** What the owner of a terminal does to it. *)
Inductive term_op := OpWrite (p : list N) | OpResize (cols rows : Z) | OpTakeQueries.

Definition TakeProgramStatusQueries (t : Terminal) : Terminal * Z := (t{{ t_programQueries := 0%Z }}, t_programQueries t).

Definition term_step (t : Terminal) (o : term_op) : option Terminal :=
  match o with
  | OpWrite p => Write t p
  | OpResize cols rows => Resize t cols rows
  | OpTakeQueries => Some (TakeProgramStatusQueries t).1
  end.
Definition term_run (t : Terminal) (ops : list term_op) : option Terminal :=
  foldl (λ acc o, t ← acc; term_step t o) (Some t) ops.
End width.
