(* ===== verification/VtTermLaws.v ===== *)
(** * The terminal never panics and keeps its shape

    The invariant of a [Terminal] and its preservation by every operation of
    [vtgrid/terminal.go], [vtgrid/csi.go] and [vtgrid/sidetable.go], then the claims
    about whole runs: bytes written, resizes and queries in any order. *)

From stdpp Require Import prelude gmap strings list.
From Stdlib Require Import NArith ZArith.
From coqutil Require Import Datatypes.RecordSetters.
From S2P Require Import Prelude GoStrings TermMode Utf8 VtStatus VtGrid VtTerm.

Import DoubleBraceUpdate.
Open Scope N_scope.
Open Scope stdpp_scope.
Set Default Goal Selector "!".

(** ** The invariant *)

(** An index into a table of [len] entries; 0 is none. *)
Definition in_table (len : nat) (id : N) : Prop := id = 0 ∨ (N.to_nat id < len)%nat.
Definition cell_ok (links combs : nat) (c : Cell) : Prop :=
  in_table links (c_link c) ∧ in_table combs (c_combining c) ∧ (c_Width c ≤ 2)%nat.

(** The terminal's own well-formedness: what the methods rely on. *)
Record wf (t : Terminal) : Prop := mk_wf {
  wf_dims : (1 ≤ t_cols t)%Z ∧ (1 ≤ t_rows t)%Z;
  wf_x : (0 ≤ t_x t < t_cols t)%Z;
  wf_y : (0 ≤ t_y t < t_rows t)%Z;
  wf_pri : screen_ok (t_cols t) (t_rows t) (cell_ok (length (t_links t)) (length (t_combining t))) (t_pri t);
  wf_alt : screen_ok (t_cols t) (t_rows t) (cell_ok (length (t_links t)) (length (t_combining t))) (t_alt t);
  wf_tabs : Z.of_nat (length (t_tabs t)) = t_cols t;
  wf_pen : in_table (length (t_links t)) (p_link (t_pen t));
  wf_saved : in_table (length (t_links t)) (p_link (sc_pen (t_saved t)));
  wf_savedAlt : in_table (length (t_links t)) (p_link (sc_pen (t_savedAlt t)));
  wf_links : (length (t_links t) ≤ maxLinks)%nat;
  wf_linkIndex : map_Forall (λ _ id, (N.to_nat id < length (t_links t))%nat) (t_linkIndex t);
  wf_combining : (length (t_combining t) ≤ maxClusters)%nat;
  wf_combIndex : map_Forall (λ _ id, (N.to_nat id < length (t_combining t))%nat) (t_combIndex t);
  wf_params : (length (t_params t) ≤ maxParams)%nat;
  wf_strBuf : (length (t_strBuf t) ≤ maxString)%nat;
  wf_utf8buf : (length (t_utf8buf t) < 4)%nat;
  wf_title : (length (t_title t) + 2 ≤ maxString)%nat;
  wf_program : t_program t = noStatus ∨ status_ok (t_program t) }.

Definition good (o : option Terminal) : Prop := ∃ t, o = Some t ∧ wf t.

(** The fields an update does not touch. *)
Ltac keep H := destruct H; constructor; try assumption.

Lemma good_Some t : wf t → good (Some t).
Proof. intros H. by exists t. Qed.

Lemma good_bind o (f : Terminal → option Terminal) : good o → (∀ t, wf t → good (f t)) → good (o ≫= f).
Proof. intros (t & -> & Ht) Hf. by apply Hf. Qed.

Lemma good_fmap o f : good o → (∀ t, wf t → wf (f t)) → good (f <$> o).
Proof. intros (t & -> & Ht) Hf. eexists. split; [done|]. by apply Hf. Qed.

Lemma blank_ok links combs c : cell_ok links combs (blank c).
Proof. split_and!; [by left|by left|cbn; lia]. Qed.

Lemma wf_xy t x y : wf t → (0 ≤ x < t_cols t)%Z → (0 ≤ y < t_rows t)%Z → wf (t{{ t_x := x }}{{ t_y := y }}).
Proof. intros H ? ?. keep H. Qed.

Lemma wf_at_x t x : wf t → (0 ≤ x < t_cols t)%Z → wf (t{{ t_x := x }}).
Proof. intros H ?. keep H. Qed.

Lemma wf_at_y t y : wf t → (0 ≤ y < t_rows t)%Z → wf (t{{ t_y := y }}).
Proof. intros H ?. keep H. Qed.

Lemma wf_no_wrap t b : wf t → wf (t{{ t_pendingWrap := b }}).
Proof. intros H. keep H. Qed.

Lemma wf_st t st : wf t → wf (t{{ t_st := st }}).
Proof. intros H. keep H. Qed.

Lemma wf_home t : wf t → wf (home_x t).
Proof. intros H. apply wf_at_x; [done|]. destruct H. lia. Qed.

(** The current screen, and a new one in its place. *)
Lemma wf_scr t : wf t → screen_ok (t_cols t) (t_rows t) (cell_ok (length (t_links t)) (length (t_combining t))) (scr t).
Proof. intros H. unfold scr. destruct (t_altActive t); by destruct H. Qed.

Lemma wf_set_scr t s :
  wf t → screen_ok (t_cols t) (t_rows t) (cell_ok (length (t_links t)) (length (t_combining t))) s → wf (set_scr t s).
Proof. intros H Hs. unfold set_scr. destruct (t_altActive t); keep H. Qed.

Lemma good_on_scr t f :
  wf t →
  (∀ s, screen_ok (t_cols t) (t_rows t) (cell_ok (length (t_links t)) (length (t_combining t))) s →
     ∃ s', f s = Some s' ∧ screen_ok (t_cols t) (t_rows t) (cell_ok (length (t_links t)) (length (t_combining t))) s') →
  good (on_scr t f).
Proof.
  intros H Hf. unfold on_scr. destruct (Hf (scr t) (wf_scr t H)) as (s' & -> & Hs). apply good_Some. by apply wf_set_scr.
Qed.

Lemma resetTabs_length t : length (t_tabs (resetTabs t)) = Z.to_nat (t_cols t).
Proof. unfold resetTabs. change (t_tabs (t{{ t_tabs := ?l }})) with l. by rewrite length_fmap, length_seq. Qed.

Lemma New_wf cols rows : wf (New cols rows).
Proof.
  set (c := if (cols <? 1)%Z then 1%Z else cols). set (r := if (rows <? 1)%Z then 1%Z else rows).
  assert (1 ≤ c)%Z as Hc by (unfold c; destruct (Z.ltb_spec cols 1); lia). assert (1 ≤ r)%Z as Hr by (unfold r; destruct (Z.ltb_spec rows 1); lia).
  constructor.
  - done.
  - change (0 ≤ 0 < c)%Z. lia.
  - change (0 ≤ 0 < r)%Z. lia.
  - apply (newScreen_ok c r _ Hc Hr). apply blank_ok.
  - apply (newScreen_ok c r _ Hc Hr). apply blank_ok.
  - unfold New. rewrite resetTabs_length. change (Z.of_nat (Z.to_nat c) = c). lia.
  - by left.
  - by left.
  - by left.
  - cbn. unfold maxLinks. lia.
  - by apply map_Forall_empty.
  - cbn. unfold maxClusters. lia.
  - by apply map_Forall_empty.
  - cbn. unfold maxParams. lia.
  - cbn. unfold maxString. lia.
  - cbn. lia.
  - cbn. unfold maxString. lia.
  - by left.
Qed.

(** ** The cursor *)

Definition clamp (v hi : Z) : Z := let v := if (hi <=? v)%Z then (hi - 1)%Z else v in if (v <? 0)%Z then 0%Z else v.

Lemma clamp_range v hi : (1 ≤ hi)%Z → (0 ≤ clamp v hi < hi)%Z.
Proof. intros H. unfold clamp. destruct (Z.leb_spec hi v); [destruct (Z.ltb_spec (hi - 1) 0)|destruct (Z.ltb_spec v 0)]; lia. Qed.

(** Everything but the cursor's position: what a clamp needs. *)
Definition wf_but_cursor (t : Terminal) : Prop := wf (t{{ t_x := 0%Z }}{{ t_y := 0%Z }}).

Lemma wf_but_intro t : wf t → wf_but_cursor t.
Proof. intros H. apply wf_xy; [done|..]; destruct H; lia. Qed.

Lemma wf_but_xy t x y : wf_but_cursor t → (0 ≤ x < t_cols t)%Z → (0 ≤ y < t_rows t)%Z → wf (t{{ t_x := x }}{{ t_y := y }}).
Proof. intros H ? ?. keep H. Qed.

Lemma clampCursor_wf t : wf_but_cursor t → wf (clampCursor t).
Proof. intros H. destruct (wf_dims _ H). apply (wf_but_xy t (clamp (t_x t) _) (clamp (t_y t) _)); [done|by apply clamp_range..]. Qed.

Lemma clampToRegion_wf t : wf_but_cursor t → wf (clampToRegion t).
Proof.
  intros H. destruct (wf_dims _ H) as [Hc Hr]. pose proof (wf_scr _ H) as (_ & _ & _ & Ht & Hb).
  change (scr (t{{ t_x := 0%Z }}{{ t_y := 0%Z }})) with (scr t) in Ht, Hb.
  change (t_rows (t{{ t_x := 0%Z }}{{ t_y := 0%Z }})) with (t_rows t) in Hb, Hr. change (t_cols (t{{ t_x := 0%Z }}{{ t_y := 0%Z }})) with (t_cols t) in Hc.
  unfold clampToRegion. apply wf_but_xy; [done|..].
  - destruct (Z.ltb_spec (t_x t) 0); [destruct (Z.leb_spec (t_cols t) 0)|destruct (Z.leb_spec (t_cols t) (t_x t))]; lia.
  - destruct (t_originMode t).
    + destruct (Z.ltb_spec (t_y t) (s_top (scr t)));
        [destruct (Z.ltb_spec (s_bottom (scr t)) (s_top (scr t)))|destruct (Z.ltb_spec (s_bottom (scr t)) (t_y t))]; lia.
    + destruct (Z.ltb_spec (t_y t) 0); [destruct (Z.ltb_spec (t_rows t - 1) 0)|destruct (Z.ltb_spec (t_rows t - 1) (t_y t))]; lia.
Qed.

Lemma moveCursor_wf t dx dy : wf t → wf (moveCursor t dx dy).
Proof. intros H%wf_but_intro. apply clampToRegion_wf. unfold wf_but_cursor in *. keep H. Qed.

Lemma setCursor_wf t x y : wf t → wf (setCursor t x y).
Proof. intros H%wf_but_intro. apply clampToRegion_wf. unfold wf_but_cursor in *. keep H. Qed.

Lemma setCursorRow_wf t row : wf t → wf (setCursorRow t row).
Proof. intros H%wf_but_intro. apply clampToRegion_wf. unfold wf_but_cursor in *. keep H. Qed.

Lemma Resize_good t cols rows : wf t → good (Resize t cols rows).
Proof.
  intros H. unfold Resize. set (c := if (cols <? 1)%Z then 1%Z else cols). set (r := if (rows <? 1)%Z then 1%Z else rows).
  assert (1 ≤ c)%Z as Hc by (unfold c; destruct (Z.ltb_spec cols 1); lia). assert (1 ≤ r)%Z as Hr by (unfold r; destruct (Z.ltb_spec rows 1); lia).
  destruct (_ && _); [by apply good_Some|]. destruct (wf_dims _ H) as [H1 _].
  destruct (resize_screen_ok _ _ c r _ (t_pri t) (bg t) Hc Hr H1 (blank_ok _ _) (wf_pri _ H)) as (pri & -> & Hp).
  destruct (resize_screen_ok _ _ c r _ (t_alt t) (bg t) Hc Hr H1 (blank_ok _ _) (wf_alt _ H)) as (alt & -> & Ha).
  apply good_Some, wf_no_wrap, clampCursor_wf. unfold wf_but_cursor. keep H.
  - by split.
  - change (0 ≤ 0 < c)%Z. lia.
  - change (0 ≤ 0 < r)%Z. lia.
  - change (Z.of_nat (length (t_tabs (resetTabs (t{{ t_pri := pri }}{{ t_alt := alt }}{{ t_cols := c }}{{ t_rows := r }})))) = c).
    rewrite resetTabs_length. change (Z.of_nat (Z.to_nat c) = c). lia.
Qed.

Lemma next_stop_ok n x tabs : (0 ≤ x)%Z → (x + Z.of_nat n ≤ Z.of_nat (length tabs))%Z →
  ∃ stop, next_stop n x tabs = Some stop ∧ ∀ s, stop = Some s → (x ≤ s < x + Z.of_nat n)%Z ∧ index tabs s = Some true.
Proof.
  revert x. induction n as [|n IH]; intros x Hx Hn; cbn [next_stop]; [by exists None|].
  destruct (index_ok tabs x) as (b & E & _); [lia|]. rewrite E. cbn [mbind option_bind].
  destruct b; [exists (Some x); split; [done|]; intros s [= <-]; split; [lia|done]|].
  destruct (IH (x + 1)%Z) as (stop & -> & Hs); [lia..|]. exists stop. split; [done|]. intros s [? ?]%Hs. split; [lia|done].
Qed.

Lemma prev_stop_ok n x tabs : (Z.of_nat n ≤ x + 1)%Z → (x < Z.of_nat (length tabs))%Z →
  ∃ stop, prev_stop n x tabs = Some stop ∧ ∀ s, stop = Some s → (x - Z.of_nat n < s ≤ x)%Z.
Proof.
  revert x. induction n as [|n IH]; intros x Hx Hn; cbn [prev_stop]; [by exists None|].
  destruct (index_ok tabs x) as (b & E & _); [lia|]. rewrite E. cbn [mbind option_bind].
  destruct b; [exists (Some x); split; [done|]; intros s [= <-]; lia|].
  destruct (IH (x - 1)%Z) as (stop & -> & Hs); [lia..|]. exists stop. split; [done|]. intros s ?%Hs. lia.
Qed.

Lemma tab_good t : wf t → good (tab t).
Proof.
  intros H. unfold tab. pose proof (wf_x _ H). pose proof (wf_tabs _ H) as Ht.
  destruct (next_stop_ok (Z.to_nat (t_cols t - (t_x t + 1))) (t_x t + 1) (t_tabs t)) as (stop & -> & Hs); [lia..|]. cbn [mbind option_bind].
  apply good_Some. destruct stop as [x|].
  - destruct (Hs x eq_refl) as [? _]. apply wf_no_wrap, wf_at_x; [done|lia].
  - destruct (t_x t =? t_cols t - 1)%Z; [done|]. apply wf_no_wrap, wf_at_x; [done|lia].
Qed.

Lemma backTab_good t : wf t → good (backTab t).
Proof.
  intros H. unfold backTab. pose proof (wf_x _ H). pose proof (wf_tabs _ H) as Ht.
  destruct (prev_stop_ok (Z.to_nat (t_x t - 1)) (t_x t - 1) (t_tabs t)) as (stop & -> & Hs); [lia..|]. cbn [mbind option_bind].
  apply good_Some, wf_at_x; [by apply wf_no_wrap|]. change (0 ≤ default 0%Z stop < t_cols t)%Z. destruct stop as [x|]; cbn [default]; [|lia].
  specialize (Hs x eq_refl). change (0 ≤ x < t_cols t)%Z. lia.
Qed.

Lemma lineFeed_good t : wf t → good (lineFeed t).
Proof.
  intros H. unfold lineFeed. assert (wf (t{{ t_pendingWrap := false }})) as H' by by apply wf_no_wrap.
  set (u := t{{ t_pendingWrap := false }}) in *. clearbody u. clear H t. destruct (wf_dims _ H').
  destruct (_ =? _)%Z; [apply good_on_scr; [done|]; intros s Hs; by apply scrollUp_ok; [..|apply blank_ok|]|].
  apply good_Some. destruct (Z.ltb_spec (t_y u) (t_rows u - 1)); [|done]. apply wf_at_y; [done|]. pose proof (wf_y _ H'). lia.
Qed.

Lemma reverseIndex_good t : wf t → good (reverseIndex t).
Proof.
  intros H. unfold reverseIndex. assert (wf (t{{ t_pendingWrap := false }})) as H' by by apply wf_no_wrap.
  set (u := t{{ t_pendingWrap := false }}) in *. clearbody u. clear H t. destruct (wf_dims _ H').
  destruct (_ =? _)%Z; [apply good_on_scr; [done|]; intros s Hs; by apply scrollDown_ok; [..|apply blank_ok|]|].
  apply good_Some. destruct (Z.ltb_spec 0 (t_y u)); [|done]. apply wf_at_y; [done|]. pose proof (wf_y _ H'). lia.
Qed.

Lemma control_good t b : wf t → good (control t b).
Proof.
  intros H. unfold control. pose proof (wf_x _ H). destruct (b =? 0x08).
  { apply good_Some. destruct (t_pendingWrap t); [by apply wf_no_wrap|]. destruct (Z.ltb_spec 0 (t_x t)); [|done]. apply wf_at_x; [done|lia]. }
  destruct (b =? 0x09); [by apply tab_good|]. destruct (in_range _ _ b); [by apply lineFeed_good|].
  apply good_Some. destruct (b =? 0x0D); [|done]. by apply wf_no_wrap, wf_home.
Qed.

Lemma saveCursor_wf t : wf t → wf (saveCursor t).
Proof. intros H. unfold saveCursor. destruct (t_altActive t); keep H. Qed.

Lemma restoreCursor_wf t : wf t → wf (restoreCursor t).
Proof.
  intros H. unfold restoreCursor.
  assert (in_table (length (t_links t)) (p_link (sc_pen (if t_altActive t then t_savedAlt t else t_saved t)))) as Hp
    by (destruct (t_altActive t); by destruct H).
  destruct (negb _); [by apply wf_but_intro|]. apply clampCursor_wf. apply wf_but_intro in H. unfold wf_but_cursor in *. keep H.
Qed.

Lemma clear_all_ok t s color : wf t →
  screen_ok (t_cols t) (t_rows t) (cell_ok (length (t_links t)) (length (t_combining t))) s →
  ∃ s', clearRows (Z.to_nat (t_rows t)) 0 color (with_region s 0 (t_rows t - 1)) = Some s' ∧
    screen_ok (t_cols t) (t_rows t) (cell_ok (length (t_links t)) (length (t_combining t))) s'.
Proof.
  intros H Hs. destruct (wf_dims _ H). apply clearRows_ok; [done|apply blank_ok| |lia..]. apply with_region_lines_ok; [done|lia..].
Qed.

Lemma reset_good t : wf t → good (reset t).
Proof.
  intros H. unfold reset.
  assert (wf (t{{ t_pen := pen_reset (t_pen t) }}{{ t_autowrap := true }}{{ t_originMode := false }}{{ t_cursorVis := true }}
            {{ t_pendingWrap := false }}{{ t_x := 0%Z }}{{ t_y := 0%Z }}{{ t_altActive := false }})) as H'.
  { apply wf_but_intro in H. unfold wf_but_cursor in H. keep H. }
  set (u := apply_update _ _) in *. clearbody u. clear H t.
  destruct (clear_all_ok u (t_pri u) ColorDefault H' (wf_pri _ H')) as (pri & -> & Hp). cbn [mbind option_bind].
  destruct (clear_all_ok u (t_alt u) ColorDefault H' (wf_alt _ H')) as (alt & -> & Ha). cbn [mbind option_bind].
  apply good_Some. destruct (wf_dims _ H'). keep H'; [|by left].
  change (Z.of_nat (length (t_tabs (resetTabs (u{{ t_pri := pri }}{{ t_alt := alt }})))) = t_cols u).
  rewrite resetTabs_length. change (Z.of_nat (Z.to_nat (t_cols u)) = t_cols u). lia.
Qed.

(** ** Control sequences *)

Lemma set_tabs_wf t tabs : wf t → length tabs = length (t_tabs t) → wf (t{{ t_tabs := tabs }}).
Proof. intros H Hl. keep H. change (Z.of_nat (length tabs) = t_cols t). by rewrite Hl. Qed.

Lemma set_tab_good t b : wf t → good (tabs ← set_index (t_tabs t) (t_x t) b; Some (t{{ t_tabs := tabs }})).
Proof.
  intros H. pose proof (wf_x _ H). pose proof (wf_tabs _ H). rewrite set_index_ok by lia. apply good_Some, set_tabs_wf; [done|].
  by rewrite length_insert.
Qed.

Lemma clearTabs_good t mode : wf t → good (clearTabs t mode).
Proof.
  intros H. unfold clearTabs. destruct (mode =? 0)%Z.
  - destruct (_ && _); [by apply set_tab_good|by apply good_Some].
  - apply good_Some. destruct (mode =? 3)%Z; [|done]. apply set_tabs_wf; [done|]. by rewrite length_replicate.
Qed.

Lemma clearCells_good t y x0 x1 c : wf t → good (on_scr t (λ s, clearCells s y x0 x1 c)).
Proof.
  intros H. destruct (wf_dims _ H). apply good_on_scr; [done|]. intros s Hs. apply clearCells_ok; [done..|apply blank_ok|done].
Qed.

Lemma clearRows_good t n y c : wf t → (0 ≤ y)%Z → (y + Z.of_nat n ≤ t_rows t)%Z → good (on_scr t (clearRows n y c)).
Proof.
  intros H Hy Hn. destruct (wf_dims _ H). apply good_on_scr; [done|]. intros s Hs. by apply clearRows_ok; [|apply blank_ok|..].
Qed.

Lemma on_scr_fields t f t' : on_scr t f = Some t' → t_y t' = t_y t ∧ t_rows t' = t_rows t ∧ t_x t' = t_x t ∧ t_cols t' = t_cols t.
Proof. unfold on_scr, set_scr. intros (s & _ & [= <-])%bind_Some. by destruct (t_altActive t). Qed.

Lemma eraseLine_good t mode : wf t → good (eraseLine t mode).
Proof.
  intros H. apply (wf_no_wrap _ false) in H. unfold eraseLine. repeat (destruct (mode =? _)%Z; [by apply clearCells_good|]). by apply good_Some.
Qed.

Lemma eraseDisplay_good t mode : wf t → good (eraseDisplay t mode).
Proof.
  intros H. apply (wf_no_wrap _ false) in H. unfold eraseDisplay. set (u := t{{ t_pendingWrap := false }}) in *. clearbody u. clear t.
  destruct (mode =? 0)%Z.
  { apply good_bind; [by apply clearCells_good|]. intros v Hv. pose proof (wf_y _ Hv). apply clearRows_good; [done|lia..]. }
  destruct (mode =? 1)%Z.
  { apply good_bind; [|intros v Hv; by apply clearCells_good]. pose proof (wf_y _ H). apply clearRows_good; [done|lia..]. }
  destruct (_ || _); [|by apply good_Some]. destruct (wf_dims _ H). apply clearRows_good; [done|lia..].
Qed.

Lemma setScrollRegion_wf t p : wf t → wf (setScrollRegion t p).
Proof.
  intros H. unfold setScrollRegion. destruct (wf_dims _ H) as [Hc Hr].
  set (top := if (int64 (at_ p 0 1 - 1) <? 0)%Z then 0%Z else int64 (at_ p 0 1 - 1)).
  set (bottom := if (t_rows t <=? int64 (at_ p 1 (t_rows t) - 1))%Z then (t_rows t - 1)%Z else int64 (at_ p 1 (t_rows t) - 1)).
  assert (0 ≤ top)%Z by (unfold top; destruct (Z.ltb_spec (int64 (at_ p 0 1 - 1)) 0); lia).
  assert (bottom < t_rows t)%Z by (unfold bottom; destruct (Z.leb_spec (t_rows t) (int64 (at_ p 1 (t_rows t) - 1))); lia).
  clearbody top bottom. destruct (Z.leb_spec bottom top); [done|].
  assert (wf (set_scr t (with_region (scr t) top bottom))) as Hs.
  { apply wf_set_scr; [done|]. apply with_region_lines_ok; [by apply wf_scr|lia..]. }
  apply wf_no_wrap, wf_xy; [done|..].
  - unfold set_scr. destruct (t_altActive t); change (0 ≤ 0 < t_cols t)%Z; lia.
  - assert (0 ≤ (if t_originMode t then top else 0) < t_rows t)%Z by (destruct (t_originMode t); lia).
    unfold set_scr. by destruct (t_altActive t).
Qed.

Lemma switchScreen_good t toAlt saveRestore : wf t → good (switchScreen t toAlt saveRestore).
Proof.
  intros H. unfold switchScreen. case_bool_decide; [by apply good_Some|]. destruct toAlt.
  - assert (wf ((if saveRestore then saveCursor t else t){{ t_altActive := true }})) as Hu.
    { assert (wf (if saveRestore then saveCursor t else t)) as Hs by (destruct saveRestore; [by apply saveCursor_wf|done]). keep Hs. }
    set (u := apply_update _ _) in *. clearbody u. destruct (wf_dims _ Hu).
    assert (wf (set_scr u (with_region (scr u) 0 (t_rows u - 1)))) as Hv.
    { apply wf_set_scr; [done|]. apply with_region_lines_ok; [by apply wf_scr|lia..]. }
    apply good_bind.
    { destruct (wf_dims _ Hv). apply clearRows_good; [done|lia..]. }
    intros v Hw. apply good_Some, wf_no_wrap. destruct saveRestore; [done|]. by apply wf_but_intro.
  - apply good_Some, clampCursor_wf, wf_but_intro, wf_no_wrap.
    assert (wf (t{{ t_altActive := false }})) as Hu by keep H. destruct saveRestore; [by apply restoreCursor_wf|done].
Qed.

Lemma set_mode_good set t m : wf t → good (set_mode set t m).
Proof.
  intros H. unfold set_mode. destruct (m =? 6)%Z.
  { apply good_Some. pose proof (wf_scr _ H) as (_ & _ & _ & ? & ?). pose proof (wf_x _ H). destruct (wf_dims _ H). apply wf_xy; [keep H|change (0 ≤ 0 < t_cols t)%Z; lia|].
    change (0 ≤ (if set then s_top (scr t) else 0) < t_rows t)%Z. destruct set; lia. }
  destruct (m =? 7)%Z; [apply good_Some, wf_no_wrap; keep H|]. destruct (m =? 25)%Z; [apply good_Some; keep H|].
  destruct (_ || _); [by apply switchScreen_good|]. destruct (m =? 1048)%Z.
  { apply good_Some. destruct set; [by apply saveCursor_wf|by apply restoreCursor_wf]. }
  destruct (m =? 1049)%Z; [by apply switchScreen_good|by apply good_Some].
Qed.

Lemma good_foldl {A} (f : Terminal → A → option Terminal) l t :
  (∀ t a, wf t → good (f t a)) → wf t → good (foldl (λ acc a, t ← acc; f t a) (Some t) l).
Proof.
  intros Hf. revert t. induction l as [|a l IH]; intros t Ht; cbn [foldl mbind option_bind]; [by apply good_Some|].
  destruct (Hf t a Ht) as (t' & -> & Ht'). by apply IH.
Qed.

Lemma setModes_good t p set : wf t → good (setModes t p set).
Proof.
  intros H. unfold setModes. destruct (negb _); [by apply good_Some|].
  apply (good_foldl (λ t m, set_mode set t m.1)); [|done]. intros u m Hu. by apply set_mode_good.
Qed.

(** SGR never touches the hyperlink. *)
Lemma sgr_simple_link c pn : p_link (sgr_simple c pn) = p_link pn.
Proof.
  unfold sgr_simple. repeat (destruct (_ =? _)%Z; [done|]).
  repeat match goal with
         | |- p_link (if ?b then _ else _) = _ => destruct b; [done|]
         end. done.
Qed.

Lemma sgr_code_link p i c pn : p_link (sgr_code p i c pn).1 = p_link pn.
Proof.
  unfold sgr_code. destruct (c =? 4)%Z; [done|].
  repeat (destruct (c =? _)%Z; [by destruct (extendedColor p i)|]). apply sgr_simple_link.
Qed.

Lemma sgr_pen_link p pn : p_link (sgr_pen p pn) = p_link pn.
Proof.
  unfold sgr_pen. case_bool_decide; [done|]. generalize 0%nat. generalize (length (cp_vals p)). intros fuel i. revert i pn.
  induction fuel as [|fuel IH]; intros i pn; cbn [sgr_from]; [done|]. destruct (param p i) as [c|]; [|done].
  destruct (sub p i); [apply IH|]. pose proof (sgr_code_link p i c pn) as Hl. destruct (sgr_code p i c pn) as [pn' j]. by rewrite IH.
Qed.

Lemma repeat_good n f t : (∀ t, wf t → good (f t)) → wf t → good (repeat_op n f t).
Proof.
  intros Hf Ht. unfold repeat_op. destruct n as [|n|n]; [by apply good_Some| |by apply good_Some]. cbn [Z.iter].
  apply Pos.iter_invariant; [|by apply good_Some]. intros o (u & -> & Hu). by apply Hf.
Qed.

Lemma good_if (b : bool) o1 o2 : good o1 → good o2 → good (if b then o1 else o2).
Proof. by destruct b. Qed.

(** A screen's method, then an update of the cursor. *)
Lemma scr_op_good t (f : screen → option screen) g :
  wf t →
  (∀ s, screen_ok (t_cols t) (t_rows t) (cell_ok (length (t_links t)) (length (t_combining t))) s →
     ∃ s', f s = Some s' ∧ screen_ok (t_cols t) (t_rows t) (cell_ok (length (t_links t)) (length (t_combining t))) s') →
  (∀ t, wf t → wf (g t)) → good (g <$> on_scr t f).
Proof. intros H Hf Hg. by apply good_fmap; [apply good_on_scr|]. Qed.

Lemma no_wrap_wf t : wf t → wf (no_wrap t).
Proof. apply wf_no_wrap. Qed.

Lemma sgr_wf t p : wf t → wf (sgr t p).
Proof. intros H. keep H. change (in_table (length (t_links t)) (p_link (sgr_pen p (t_pen t)))). by rewrite sgr_pen_link. Qed.

Lemma dispatchCSI_good t final : wf t → good (dispatchCSI t final).
Proof.
  intros H. unfold dispatchCSI. set (p := parseCSIParams _). destruct (wf_dims _ H) as [Hc Hr]. cbv zeta. apply good_if.
  { apply good_if; [by apply setModes_good|]. apply good_if; [by apply setModes_good|by apply good_Some]. }
  do 4 (apply good_if; [by apply good_Some, moveCursor_wf|]).
  do 2 (apply good_if; [by apply good_Some, moveCursor_wf, wf_home|]).
  apply good_if; [by apply good_Some, setCursor_wf|].
  apply good_if; [by apply good_Some, setCursorRow_wf|].
  apply good_if; [by apply good_Some, setCursor_wf, setCursorRow_wf|].
  apply good_if; [by apply repeat_good; [apply tab_good|]|].
  apply good_if; [by apply repeat_good; [apply backTab_good|]|].
  apply good_if; [by apply eraseDisplay_good|].
  apply good_if; [by apply eraseLine_good|].
  apply good_if; [apply good_fmap; [|apply no_wrap_wf]; apply scr_op_good; [done| |apply wf_home]; intros s Hs; by apply insertLines_ok; [..|apply blank_ok|]|].
  apply good_if; [apply good_fmap; [|apply no_wrap_wf]; apply scr_op_good; [done| |apply wf_home]; intros s Hs; by apply deleteLines_ok; [..|apply blank_ok|]|].
  apply good_if; [apply scr_op_good; [done| |apply no_wrap_wf]; intros s Hs; apply insertChars_ok; [done..|apply blank_ok|done]|].
  apply good_if; [apply scr_op_good; [done| |apply no_wrap_wf]; intros s Hs; apply deleteChars_ok; [done..|apply blank_ok|done]|].
  apply good_if; [apply good_fmap; [by apply clearCells_good|apply no_wrap_wf]|].
  apply good_if; [apply good_on_scr; [done|]; intros s Hs; by apply scrollUp_ok; [..|apply blank_ok|]|].
  apply good_if; [apply good_on_scr; [done|]; intros s Hs; by apply scrollDown_ok; [..|apply blank_ok|]|].
  apply good_if; [by apply clearTabs_good|].
  apply good_if; [by apply good_Some, sgr_wf|].
  apply good_if; [by apply good_Some, setScrollRegion_wf|].
  apply good_if; [by apply good_Some, saveCursor_wf|].
  apply good_if; [by apply good_Some, restoreCursor_wf|]. by apply good_Some.
Qed.

(** ** Side tables *)

Lemma in_table_mono a b id : (a ≤ b)%nat → in_table a id → in_table b id.
Proof. intros ? [?|?]; [by left|right; lia]. Qed.

Lemma cell_ok_mono l1 l2 c1 c2 c : (l1 ≤ l2)%nat → (c1 ≤ c2)%nat → cell_ok l1 c1 c → cell_ok l2 c2 c.
Proof. intros ? ? (? & ? & ?). split_and!; [by eapply in_table_mono..|done]. Qed.

(** Longer tables with their indexes keep the invariant. *)
Lemma wf_links_grow t links idx :
  wf t → (length (t_links t) ≤ length links ≤ maxLinks)%nat → map_Forall (λ _ id, (N.to_nat id < length links)%nat) idx →
  wf (t{{ t_links := links }}{{ t_linkIndex := idx }}).
Proof.
  intros H [H1 H2] Hi. keep H; try (by eapply in_table_mono).
  - eapply screen_ok_mono; [|exact wf_pri0]. intros c. by apply cell_ok_mono.
  - eapply screen_ok_mono; [|exact wf_alt0]. intros c. by apply cell_ok_mono.
Qed.

Lemma wf_combs_grow t combs idx :
  wf t → (length (t_combining t) ≤ length combs ≤ maxClusters)%nat → map_Forall (λ _ id, (N.to_nat id < length combs)%nat) idx →
  wf (t{{ t_combining := combs }}{{ t_combIndex := idx }}).
Proof.
  intros H [H1 H2] Hi. keep H.
  - eapply screen_ok_mono; [|exact wf_pri0]. intros c. by apply cell_ok_mono.
  - eapply screen_ok_mono; [|exact wf_alt0]. intros c. by apply cell_ok_mono.
Qed.

Lemma uint16_small n : (n ≤ 4096)%nat → N.to_nat (uint16 n) = n.
Proof. intros Hn. unfold uint16. rewrite N.mod_small by lia. lia. Qed.

(** Adding an entry to a table of at most 4096, and its index. *)
Lemma grown_index {A} (tbl : list A) (idx : gmap (list N) N) k v :
  (length tbl < 4096)%nat → map_Forall (λ _ id, (N.to_nat id < length tbl)%nat) idx →
  map_Forall (λ _ id, (N.to_nat id < length (tbl ++ [v]))%nat) (<[k := uint16 (length (tbl ++ [v]) - 1)]> idx) ∧
  (N.to_nat (uint16 (length (tbl ++ [v]) - 1)) < length (tbl ++ [v]))%nat.
Proof.
  intros Hl Hi. assert (length (tbl ++ [v]) = S (length tbl)) as E by (rewrite length_app; cbn; lia).
  rewrite uint16_small by lia. split; [|lia]. apply map_Forall_insert_2; [rewrite uint16_small; lia|].
  eapply map_Forall_impl; [done|]. cbv beta. intros ? ? ?. lia.
Qed.

Lemma internLink_wf t l : wf t → wf (internLink t l).1 ∧ in_table (length (t_links (internLink t l).1)) (internLink t l).2.
Proof.
  intros H. unfold internLink. case_bool_decide; [split; [done|by left]|]. destruct (t_linkIndex t !! link_key l) as [id|] eqn:E.
  { split; [done|]. right. by apply (wf_linkIndex _ H) in E. }
  destruct (Nat.leb_spec maxLinks (length (t_links t))) as [?|Hlt]; [split; [done|by left]|].
  set (u := if bool_decide (length (t_links t) = 0%nat) then _ else t).
  assert (wf u ∧ (length (t_links u) < 4096)%nat) as [Hu Hl].
  { unfold u, maxLinks in *. case_bool_decide as E0; [|done]. split; [|cbn; lia]. apply wf_links_grow; [done|unfold maxLinks; cbn; lia|apply map_Forall_empty]. }
  clearbody u. destruct (grown_index (t_links u) (t_linkIndex u) (link_key l) l Hl (wf_linkIndex _ Hu)) as [Hi Hid].
  split; [|by right]. apply (wf_links_grow u (t_links u ++ [l])); [done| |done]. rewrite length_app. unfold maxLinks. cbn [length]. lia.
Qed.

Lemma internCombining_wf t rs :
  wf t → wf (internCombining t rs).1 ∧ in_table (length (t_combining (internCombining t rs).1)) (internCombining t rs).2.
Proof.
  intros H. unfold internCombining. case_bool_decide; [split; [done|by left]|]. destruct (t_combIndex t !! of_runes rs) as [id|] eqn:E.
  { split; [done|]. right. by apply (wf_combIndex _ H) in E. }
  destruct (Nat.leb_spec maxClusters (length (t_combining t))) as [?|Hlt]; [split; [done|by left]|].
  set (u := if bool_decide (length (t_combining t) = 0%nat) then _ else t).
  assert (wf u ∧ (length (t_combining u) < 4096)%nat) as [Hu Hl].
  { unfold u, maxClusters in *. case_bool_decide as E0; [|done]. split; [|cbn; lia].
    apply wf_combs_grow; [done|unfold maxClusters; cbn; lia|apply map_Forall_empty]. }
  clearbody u. destruct (grown_index (t_combining u) (t_combIndex u) (of_runes rs) (of_runes rs) Hl (wf_combIndex _ Hu)) as [Hi Hid].
  split; [|by right]. apply (wf_combs_grow u (t_combining u ++ [of_runes rs])); [done| |done]. rewrite length_app. unfold maxClusters. cbn [length]. lia.
Qed.

(** Interning a cluster changes only the table, which grows. *)
Lemma internCombining_keeps t rs :
  let u := (internCombining t rs).1 in
  scr u = scr t ∧ t_cols u = t_cols t ∧ t_rows u = t_rows t ∧ t_links u = t_links t ∧ (length (t_combining t) ≤ length (t_combining u))%nat.
Proof.
  unfold internCombining. case_bool_decide; [by split_and!|]. destruct (_ !! _); [by split_and!|]. destruct (_ <=? _)%nat; [by split_and!|].
  case_bool_decide as E; split_and!; try done; cbn [fst].
  - rewrite E. lia.
  - change (length (t_combining t) ≤ length (t_combining t ++ [of_runes rs]))%nat. rewrite length_app. lia.
Qed.

Lemma addCombining_good t r : wf t → good (addCombining t r).
Proof.
  intros H. unfold addCombining. destruct (Z.ltb_spec (t_lastX t) 0), (Z.ltb_spec (t_lastY t) 0), (Z.leb_spec (t_cols t) (t_lastX t)),
    (Z.leb_spec (t_rows t) (t_lastY t)); cbn [orb]; try by apply good_Some.
  pose proof (wf_scr _ H) as (_ & _ & Hl & _). destruct (lines_row _ _ _ _ (t_lastY t) Hl) as (row & -> & _ & Hr); [lia|]. cbn [mbind option_bind].
  pose proof Hr as [Hlen Hcells]. destruct (index_ok row (t_lastX t)) as (cell & -> & Hc); [lia|]. cbn [mbind option_bind].
  destruct (c_Rune cell =? 0); [by apply good_Some|]. destruct (_ <=? _)%nat; [by apply good_Some|].
  set (rs := to_runes _). pose proof (internCombining_wf t rs H) as [Hu Hid]. pose proof (internCombining_keeps t rs) as (Es & Ec & Er & El & Hg).
  destruct (internCombining t rs) as [u id]. cbn [fst snd] in *. rewrite set_index_ok by lia. cbn [mbind option_bind].
  apply good_on_scr; [done|]. intros s Hs. edestruct (set_row_ok (t_cols u) (t_rows u)) as [-> Hok]; [exact Hs|lia| |by eexists].
  split; [rewrite length_insert; lia|]. apply Forall_insert.
  - eapply Forall_impl; [done|]. intros c. apply cell_ok_mono; [by rewrite El|done].
  - apply (Forall_lookup_1 _ _ _ _ Hcells) in Hc as (Hlk & _ & Hw). split_and!; [|done|done]. change (in_table (length (t_links u)) (c_link cell)). by rewrite El.
Qed.

(** ** Strings *)

Lemma osc_link_wf t rest : wf t → wf (osc_link t rest).
Proof.
  intros H. unfold osc_link. destruct (cut_byte _ rest) as [[params uri]|]; [|done]. destruct (_ || _); [done|].
  pose proof (internLink_wf t (mkLink uri params) H) as [Hu Hid]. destruct (internLink t _) as [u id]. cbn [fst snd] in *. keep Hu.
Qed.

Lemma cut_byte_inv sep p l r : cut_byte sep p = Some (l, r) → p = l ++ sep :: r.
Proof.
  revert l. induction p as [|b p IH]; intros l; cbn [cut_byte]; [done|]. destruct (N.eqb_spec b sep) as [->|_]; [by intros [= <- <-]|].
  intros ([l' r'] & E & [= <- <-])%bind_Some. by rewrite (IH l' E).
Qed.

Lemma endString_wf t : wf t → wf (endString t).
Proof.
  intros H. unfold endString. destruct (negb _); [done|]. destruct (cut_byte _ _) as [[cmd rest]|] eqn:Ec; [|done].
  destruct (_ || _) eqn:Eo.
  { destruct (ValidString rest); [|done]. pose proof (wf_strBuf _ H) as Hl. apply cut_byte_inv in Ec. rewrite Ec, length_app in Hl. keep H.
    change (length rest + 2 ≤ maxString)%nat. destruct cmd; [by vm_compute in Eo|]. cbn [length] in Hl. lia. }
  clear Eo. case_bool_decide.
  { unfold osc_status. destruct (_ <=? _)%nat; [done|]. destruct (ParseProgramStatus rest) eqn:Ep; [keep H| |done].
    apply accepted_ok in Ep. keep H. }
  case_bool_decide; [by apply osc_link_wf|done].
Qed.

Lemma strAppend_wf t b : wf t → wf (strAppend t b).
Proof.
  intros H. unfold strAppend. destruct (Nat.ltb_spec (length (t_strBuf t)) maxString); [|done]. keep H.
  change (length (t_strBuf t ++ [b]) ≤ maxString)%nat. rewrite length_app. cbn [length]. lia.
Qed.

Lemma str_wf t b : wf t → wf (str t b).
Proof.
  intros H. unfold str. destruct (b =? 0x07); [by apply wf_st, endString_wf|]. destruct (b =? 0x1B); [by apply wf_st|by apply strAppend_wf].
Qed.

Lemma csi_good t b : wf t → good (csi t b).
Proof.
  intros H. unfold csi. destruct (in_range _ _ b).
  { apply good_bind; [by apply dispatchCSI_good|]. intros u Hu. by apply good_Some, wf_st. }
  apply good_Some. destruct (Nat.ltb_spec (length (t_params t)) maxParams); [|done]. keep H.
  change (length (t_params t ++ [b]) ≤ maxParams)%nat. rewrite length_app. cbn [length]. lia.
Qed.

Lemma escape_good t b : wf t → good (escape t b).
Proof.
  intros H. apply (wf_st _ stGround) in H. unfold escape. set (u := t{{ t_st := stGround }}) in *. clearbody u. clear t. cbv zeta.
  apply good_if; [apply good_Some; keep H; cbn; unfold maxParams; lia|].
  apply good_if; [apply good_Some; keep H; cbn; unfold maxString; lia|].
  do 2 (apply good_if; [by apply good_Some, wf_st|]).
  apply good_if; [by apply reverseIndex_good|]. apply good_if; [by apply lineFeed_good|].
  apply good_if; [by apply lineFeed_good, wf_home|].
  apply good_if; [apply good_if; [by apply set_tab_good|by apply good_Some]|].
  apply good_if; [by apply good_Some, saveCursor_wf|]. apply good_if; [by apply good_Some, restoreCursor_wf|].
  apply good_if; [by apply reset_good|by apply good_Some].
Qed.

(** ** Glyphs *)

Section width.
  Context (runeWidth : N → nat) (HrW : ∀ r, (runeWidth r ≤ 2)%nat).

Lemma penCell_ok t r w : wf t → (w ≤ 2)%nat → cell_ok (length (t_links t)) (length (t_combining t)) (penCell t r w).
Proof. intros H Hw. split_and!; [by destruct H|by left|done]. Qed.

Lemma set_cell_ok cols P row x c :
  row_ok cols P row → (0 ≤ x < cols)%Z → P c → set_index row x c = Some (<[Z.to_nat x := c]> row) ∧ row_ok cols P (<[Z.to_nat x := c]> row).
Proof.
  intros [Hl Hp] Hx Hc. rewrite set_index_ok by lia. split; [done|]. split; [by rewrite length_insert|by apply Forall_insert].
Qed.

Lemma put_glyph_ok t row r w :
  wf t → row_ok (t_cols t) (cell_ok (length (t_links t)) (length (t_combining t))) row → (w ≤ 2)%nat →
  ∃ row', put_glyph t row (t_x t) r w = Some row' ∧ row_ok (t_cols t) (cell_ok (length (t_links t)) (length (t_combining t))) row'.
Proof.
  intros H Hr Hw. pose proof (wf_x _ H) as Hx. unfold put_glyph. set (P := cell_ok _ _) in *.
  destruct (index_ok row (t_x t)) as (here & -> & _); [destruct Hr; lia|]. cbn [mbind option_bind].
  assert (∃ row1, (if ((0 <? t_x t)%Z && (c_Width here =? 0)%nat)%bool then set_index row (t_x t - 1) (blank (bg t)) else Some row) = Some row1 ∧ row_ok (t_cols t) P row1)
    as (row1 & -> & H1).
  { destruct (Z.ltb_spec 0 (t_x t)), (c_Width here =? 0)%nat; cbn [andb]; try by exists row.
    destruct (set_cell_ok _ P row (t_x t - 1) (blank (bg t)) Hr ltac:(lia) (blank_ok _ _ _)) as [-> ?]. by eexists. }
  cbn [mbind option_bind].
  assert (∃ row2, (if ((t_x t + 1 <? t_cols t)%Z && (c_Width here =? 2)%nat)%bool then set_index row1 (t_x t + 1) (blank (bg t)) else Some row1) = Some row2 ∧ row_ok (t_cols t) P row2)
    as (row2 & -> & H2).
  { destruct (Z.ltb_spec (t_x t + 1) (t_cols t)), (c_Width here =? 2)%nat; cbn [andb]; try by exists row1.
    destruct (set_cell_ok _ P row1 (t_x t + 1) (blank (bg t)) H1 ltac:(lia) (blank_ok _ _ _)) as [-> ?]. by eexists. }
  cbn [mbind option_bind]. destruct (set_cell_ok _ P row2 (t_x t) (penCell t r w) H2 Hx (penCell_ok t r w H Hw)) as [-> H3]. cbn [mbind option_bind].
  destruct (w =? 2)%nat, (Z.ltb_spec (t_x t + 1) (t_cols t)); cbn [andb]; try by eexists.
  destruct (set_cell_ok (t_cols t) P _ (t_x t + 1) (penCell t 0 0) H3 ltac:(lia) (penCell_ok t 0 0 H ltac:(lia))) as [-> ?]. by eexists.
Qed.

Lemma print_here_good t r w : wf t → (w ≤ 2)%nat → good (print_here t r w).
Proof.
  intros H Hw. unfold print_here. pose proof (wf_scr _ H) as (_ & _ & Hl & _). pose proof (wf_y _ H) as Hy.
  destruct (lines_row _ _ _ _ (t_y t) Hl Hy) as (row & -> & _ & Hr). cbn [mbind option_bind].
  destruct (put_glyph_ok t row r w H Hr Hw) as (row' & -> & Hr'). cbn [mbind option_bind].
  apply good_bind; [apply good_on_scr; [done|]; intros s Hs; destruct (set_row_ok _ _ _ s (t_y t) row' Hs Hy Hr') as [-> ?]; by eexists|].
  intros u Hu. apply good_Some. assert (wf (u{{ t_lastX := t_x u }}{{ t_lastY := t_y u }})) as Hv by keep Hu.
  set (v := apply_update _ _) in *. clearbody v. pose proof (wf_x _ Hv).
  destruct (Z.leb_spec (t_cols v) (t_x v + Z.of_nat w)); [apply wf_no_wrap|]; apply wf_at_x; try done; lia.
Qed.

Lemma print_good t r : wf t → good (print runeWidth t r).
Proof.
  intros H. unfold print. destruct (runeWidth r =? 0)%nat; [by apply addCombining_good|]. apply good_bind.
  { destruct (t_pendingWrap t); [by apply lineFeed_good, wf_home, wf_no_wrap|by apply good_Some]. }
  intros u Hu. apply good_if; [|by apply print_here_good]. apply good_if; [by apply good_Some|].
  apply good_bind; [by apply lineFeed_good, wf_home|]. intros v Hv. by apply print_here_good.
Qed.

Lemma wf_buf t buf : wf t → (length buf < 4)%nat → wf (t{{ t_utf8buf := buf }}).
Proof. intros H Hb. keep H. Qed.

Lemma ground_good t b : wf t → good (ground runeWidth t b).
Proof.
  intros H. assert (wf (t{{ t_utf8buf := [] }})) as H0 by (apply wf_buf; [done|cbn; lia]). unfold ground. destruct (b =? 0x1B); [by apply good_Some, wf_st|].
  destruct (b <? 0x20); [by apply control_good|]. destruct (b =? 0x7F); [by apply good_Some|]. destruct (_ || _); [|by apply print_good].
  pose proof (wf_utf8buf _ H). destruct (Nat.leb_spec 4 (length (t_utf8buf t))); [lia|]. destruct (FullRune _).
  { destruct (DecodeRune _) as [r size]. destruct (_ && _); [by apply good_Some|by apply print_good]. }
  destruct (Nat.eqb_spec (length (t_utf8buf t ++ [b])) 4) as [?|Hne]; [by apply good_Some|]. apply good_Some, wf_buf; [done|].
  rewrite length_app in *. cbn [length] in *. lia.
Qed.

Lemma feed_good t b : wf t → good (feed runeWidth t b).
Proof.
  intros H. unfold feed. destruct (t_st t).
  - by apply ground_good.
  - by apply escape_good.
  - apply good_Some. destruct (in_range _ _ b); [done|by apply wf_st].
  - by apply csi_good.
  - by apply good_Some, str_wf.
  - apply good_Some. destruct (b =? 0x5C); [by apply wf_st, endString_wf|]. destruct (b =? 0x1B); [done|]. by apply wf_st, strAppend_wf, strAppend_wf.
Qed.

Lemma Write_good t p : wf t → good (Write runeWidth t p).
Proof. apply (good_foldl (feed runeWidth)). intros. by apply feed_good. Qed.

Lemma term_step_good t o : wf t → good (term_step runeWidth t o).
Proof.
  intros H. destruct o as [p|cols rows|]; [by apply Write_good|by apply Resize_good|]. apply good_Some. keep H.
Qed.

Lemma term_run_good t ops : wf t → good (term_run runeWidth t ops).
Proof. apply (good_foldl (term_step runeWidth)). intros. by apply term_step_good. Qed.
End width.

(** A well-formed terminal can be read everywhere. *)
Lemma Lines_total t : wf t → ∃ lines, Lines t = Some lines ∧ Z.of_nat (length lines) = t_rows t.
Proof.
  intros H. pose proof (wf_scr _ H) as (_ & _ & [Hl Hf] & _). unfold Lines. destruct (wf_dims _ H). rewrite slice_ok by lia. cbn [mbind option_bind].
  rewrite Z.sub_0_r, drop_0, take_ge by lia.
  destruct (mapM_total (λ row, cells ← slice row 0 (t_cols t); Some (row_text t cells)) (λ _, True) (s_lines (scr t))) as (ls & -> & El & _).
  { eapply Forall_impl; [exact Hf|]. intros row [Hr _]. cbv beta. rewrite slice_ok by lia. by eexists. }
  exists ls. split; [done|lia].
Qed.

(** C8. No input breaks the terminal: from a new terminal of any requested size, and a width
    function that answers 0, 1 or 2, every sequence of writes of any bytes,
    resizes to any size and query takes returns without a panic, and leaves a grid
    of [rows] lines of [cols] cells on both screens, the cursor on it, both scroll
    regions inside it, one tab flag per column, every cell's hyperlink and
    combining index inside its table, the tables and parser buffers within their
    caps; and the screen can be read as [rows] lines. *)
Theorem terminal_well_formed runeWidth cols rows ops :
  (∀ r, (runeWidth r ≤ 2)%nat) →
  ∃ t lines, term_run runeWidth (New cols rows) ops = Some t ∧ wf t ∧ Lines t = Some lines ∧ Z.of_nat (length lines) = t_rows t.
Proof.
  intros HrW. destruct (term_run_good runeWidth HrW (New cols rows) ops (New_wf cols rows)) as (t & Hr & Ht).
  destruct (Lines_total t Ht) as (lines & Hl & Hn). by exists t, lines.
Qed.

(** Latin letters of width 1, combining marks of width 0, CJK of width 2. *)
Definition demo_width (r : N) : nat := if in_range 0x300 0x36F r then 0%nat else if 0x1100 <=? r then 2%nat else 1%nat.

(** Scroll region, origin mode, a wide glyph, a mark, an oversized move, then a resize to nothing. *)
Lemma terminal_well_formed_witness :
  let ops := [OpWrite ([0x1B] ++ lit "[2;3r" ++ [0x1B] ++ lit "[?6h" ++ [0xE3; 0x81; 0x8B; 0xCC; 0x81; 0x1B] ++ lit "[9223372036854775807C");
              OpTakeQueries; OpResize 0 (-5); OpWrite (lit "x")] in
  ∃ t lines, term_run demo_width (New 4 4) ops = Some t ∧ wf t ∧ Lines t = Some lines ∧ Z.of_nat (length lines) = t_rows t.
Proof.
  intros ops. apply (terminal_well_formed demo_width 4 4 ops). intros r. unfold demo_width. destruct (in_range _ _ r); [lia|]. destruct (_ <=? r); lia.
Defined.

(** ** The tab loops *)

(** A tab moves the cursor right, or finds it in the last column and does nothing. *)
Lemma tab_step t : wf t → (t_x t < t_cols t - 1)%Z →
  ∃ u, tab t = Some u ∧ wf u ∧ t_cols u = t_cols t ∧ (t_x t < t_x u)%Z.
Proof.
  intros H Hx. destruct (tab_good t H) as (u & E & Hu). exists u. split; [done|]. split; [done|]. revert E. unfold tab.
  pose proof (wf_x _ H). pose proof (wf_tabs _ H).
  destruct (next_stop_ok (Z.to_nat (t_cols t - (t_x t + 1))) (t_x t + 1) (t_tabs t)) as (stop & -> & Hs); [lia..|]. cbn [mbind option_bind].
  intros [= <-]. destruct stop as [x|].
  - destruct (Hs x eq_refl). split; [done|]. change (t_x t < x)%Z. lia.
  - rewrite (proj2 (Z.eqb_neq _ _)) by lia. split; [done|]. change (t_x t < t_cols t - 1)%Z. lia.
Qed.

Lemma tab_fixed t : t_x t = (t_cols t - 1)%Z → tab t = Some t.
Proof.
  intros Hx. unfold tab. replace (Z.to_nat (t_cols t - (t_x t + 1))) with 0%nat by lia. cbn [next_stop mbind option_bind].
  by rewrite (proj2 (Z.eqb_eq _ _) Hx).
Qed.

Lemma repeat_op_S n f t : (0 ≤ n)%Z → repeat_op (n + 1) f t = f t ≫= repeat_op n f.
Proof.
  intros Hn. unfold repeat_op. destruct n as [|n|n]; [|clear Hn|lia].
  - change (f t = f t ≫= λ t, Some t). by destruct (f t).
  - cbn [Z.iter]. change (Zpos n + 1)%Z with (Zpos (n + 1)). cbn [Z.iter]. rewrite Pos.add_1_r, Pos.iter_succ_r. cbn [mbind option_bind].
    destruct (f t) as [u|]; [done|]. cbn [mbind option_bind]. induction n as [|n IH] using Pos.peano_ind; [done|]. by rewrite Pos.iter_succ, IH.
Qed.

Lemma repeat_fixed n f t : f t = Some t → repeat_op n f t = Some t.
Proof.
  intros Hf. unfold repeat_op. destruct n as [|n|n]; [done| |done]. cbn [Z.iter].
  induction n as [|n IH] using Pos.peano_ind; [done|]. by rewrite Pos.iter_succ, IH.
Qed.

(** After [k] rounds the loop is where it stays. *)
Lemma repeat_settles f k t (meas : Terminal → Z) :
  (∀ t, wf t → (meas t ≤ 0)%Z → f t = Some t) →
  (∀ t, wf t → (0 < meas t)%Z → ∃ u, f t = Some u ∧ wf u ∧ (meas u < meas t)%Z) →
  wf t → (meas t ≤ Z.of_nat k)%Z → ∀ n, (Z.of_nat k ≤ n)%Z → repeat_op n f t = repeat_op (Z.of_nat k) f t.
Proof.
  intros Hfix Hstep. revert t. induction k as [|k IH]; intros t Ht Hm n Hn.
  { rewrite !repeat_fixed; [done|by apply Hfix..]. }
  destruct (Z.leb_spec (meas t) 0) as [H0|H0]; [rewrite !repeat_fixed; [done|by apply Hfix..]|].
  destruct (Hstep t Ht H0) as (u & E & Hu & Hlt). replace n with ((n - 1) + 1)%Z by lia. replace (Z.of_nat (S k)) with (Z.of_nat k + 1)%Z by lia.
  rewrite !repeat_op_S by lia. rewrite E. cbn [mbind option_bind]. apply IH; [done|lia..].
Qed.

(** One round of CBT moves left, or leaves column 0 with no pending wrap. *)
Lemma backTab_step t : wf t → (0 < t_x t)%Z → ∃ u, backTab t = Some u ∧ wf u ∧ t_pendingWrap u = false ∧ (t_x u < t_x t)%Z.
Proof.
  intros H Hx. destruct (backTab_good t H) as (u & E & Hu). exists u. revert E. unfold backTab. pose proof (wf_x _ H). pose proof (wf_tabs _ H).
  destruct (prev_stop_ok (Z.to_nat (t_x t - 1)) (t_x t - 1) (t_tabs t)) as (stop & -> & Hs); [lia..|]. cbn [mbind option_bind].
  intros [= <-]. split_and!; [done|done|done|]. change (default 0 stop < t_x t)%Z. destruct stop as [x|].
  - specialize (Hs x eq_refl). change (x < t_x t)%Z. lia.
  - change (0 < t_x t)%Z. lia.
Qed.

Lemma terminal_eta t : t{{ t_pendingWrap := t_pendingWrap t }}{{ t_x := t_x t }} = t.
Proof. by destruct t. Qed.

Lemma backTab_fixed t : wf t → t_x t = 0%Z → t_pendingWrap t = false → backTab t = Some t.
Proof.
  intros H Hx Hp. unfold backTab. rewrite Hx. cbn [Z.to_nat Z.sub Z.opp Z.add prev_stop mbind option_bind default].
  f_equal. rewrite <-(terminal_eta t) at 2. by rewrite Hx, Hp.
Qed.

(** The loops of CHT and CBT settle: whatever the count a program gives, on a well-formed
    terminal the result of [n] tabs, or of [n] back tabs, with [n] at least the
    width of the grid plus one, is the result of width plus one of them.  The code
    runs all [n] rounds, up to 2^63 - 1 of them, so one sequence of 22 bytes holds
    [Write] for that long. *)
Theorem tab_loops_settle t n :
  wf t → (t_cols t + 1 ≤ n)%Z →
  repeat_op n tab t = repeat_op (t_cols t + 1) tab t ∧ repeat_op n backTab t = repeat_op (t_cols t + 1) backTab t.
Proof.
  intros H Hn. destruct (wf_dims _ H) as [Hc _]. pose proof (wf_x _ H). split.
  - rewrite <-(Z2Nat.id (t_cols t + 1)) by lia. apply (repeat_settles _ _ _ (λ t, t_cols t - 1 - t_x t)%Z); [| |done|lia..].
    + intros u Hu ?. pose proof (wf_x _ Hu). apply tab_fixed. lia.
    + intros u Hu ?. destruct (tab_step u Hu ltac:(lia)) as (v & ? & ? & ? & ?). exists v. split_and!; [done|done|lia].
  - rewrite <-(Z2Nat.id (t_cols t + 1)) by lia.
    apply (repeat_settles _ _ _ (λ t, t_x t + if t_pendingWrap t then 1 else 0)%Z); [| |done|destruct (t_pendingWrap t); lia|lia].
    + intros u Hu Hm. pose proof (wf_x _ Hu). destruct (t_pendingWrap u) eqn:Ep; [lia|]. apply backTab_fixed; [done|lia|done].
    + intros u Hu Hm. destruct (Z.ltb_spec 0 (t_x u)) as [Hx|Hx].
      * destruct (backTab_step u Hu Hx) as (v & ? & ? & Hp & ?). exists v. rewrite Hp. split_and!; [done|done|]. destruct (t_pendingWrap u); lia.
      * destruct (backTab_good u Hu) as (v & E & Hv). exists v. split_and!; [done|done|]. pose proof (wf_x _ Hu). revert E. unfold backTab.
        replace (t_x u) with 0%Z by lia. intros [= <-]. change (0 + 0 < 0 + (if t_pendingWrap u then 1 else 0))%Z. destruct (t_pendingWrap u); lia.
Qed.

Lemma tab_loops_settle_witness :
  repeat_op (2 ^ 62) tab (New 80 24) = repeat_op 81 tab (New 80 24) ∧ repeat_op (2 ^ 62) backTab (New 80 24) = repeat_op 81 backTab (New 80 24).
Proof. apply (tab_loops_settle (New 80 24) (2 ^ 62)); [apply New_wf|by vm_compute]. Defined.
