(* ===== verification/VtAnsi.v ===== *)
(** * Writing a screen out: [vtgrid/ansi.go] and [vtgrid/repaint.go]

    The grid as text with SGR escapes ([ANSI]), and as a program that puts a
    terminal into this state ([Repaint]). *)

From stdpp Require Import prelude gmap strings list.
From Stdlib Require Import NArith ZArith.
From coqutil Require Import Datatypes.RecordSetters.
From S2P Require Import Prelude GoStrings TermMode Utf8 VtStatus VtGrid VtTerm.

Import DoubleBraceUpdate.
Open Scope N_scope.
Open Scope stdpp_scope.
Set Default Goal Selector "!".

(** ** SGR *)

Definition appendColorSGR (c : Color) (base ext bright : N) : list N :=
  match c with
  | ColorDefault => []
  | Basic n =>
      if base =? 0 then [0x3B] ++ Itoa ext ++ lit ";5;" ++ Itoa n
      else if n <? 8 then [0x3B] ++ Itoa (base + n)
      else [0x3B] ++ Itoa (bright + n - 8)
  | Indexed n => [0x3B] ++ Itoa ext ++ lit ";5;" ++ Itoa n
  | RGB r g b => [0x3B] ++ Itoa ext ++ lit ";2;" ++ Itoa r ++ [0x3B] ++ Itoa g ++ [0x3B] ++ Itoa b
  end.

(** The attributes and their codes, in the order they are written. *)
Definition sgr_attrs : list (N * list N) :=
  [(AttrBold, lit ";1"); (AttrFaint, lit ";2"); (AttrItalic, lit ";3"); (AttrBlink, lit ";5"); (AttrRapidBlink, lit ";6");
   (AttrReverse, lit ";7"); (AttrConceal, lit ";8"); (AttrStrike, lit ";9")].

(** The function [sgr] of a pen. *)
Definition sgr_text (p : pen) : list N :=
  [0x1B] ++ lit "[0"
  ++ (sgr_attrs ≫= λ m, if N.land (p_Attr p) m.1 =? 0 then [] else m.2)
  ++ (if p_Under p =? UnderlineNone then [] else if p_Under p =? UnderlineSingle then lit ";4" else lit ";4:" ++ Itoa (p_Under p))
  ++ appendColorSGR (p_UnderFG p) 0 58 0
  ++ appendColorSGR (p_FG p) 30 38 90
  ++ appendColorSGR (p_BG p) 40 48 100
  ++ [0x6D].

(** ** Rows *)

Definition isDefaultBlank (c : Cell) : bool :=
  if negb (c_Rune c =? 0) && negb (c_Rune c =? 0x20) then false
  else bool_decide (c{{ c_Rune := 0x20 }} = blank ColorDefault).

(** [row[:end+1]], [end] the index [lastVisibleCell] returns. *)
Fixpoint visibleCells (row : list Cell) : list Cell :=
  match row with
  | [] => []
  | c :: row => match visibleCells row with
                | [] => if isDefaultBlank c then [] else [c]
                | cells => c :: cells
                end
  end.

Definition writeLinkSGR (t : Terminal) (id : N) : list N :=
  [0x1B] ++ lit "]8;" ++
  (match (if id =? 0 then None else t_links t !! N.to_nat id) with
   | Some l => l_Params l ++ [0x3B] ++ l_URL l
   | None => [0x3B]
   end) ++ [0x1B; 0x5C].

Definition cell_pen (c : Cell) : pen := mkPen (c_Attr c) (c_Under c) (c_FG c) (c_BG c) (c_UnderFG c) (c_link c).
Definition styleOnly (p : pen) : pen := p{{ p_link := 0 }}.

(** The loop's variables: the text written, [cur], [styled] and [link]. *)
Record ansi_state := mkAnsi { as_out : list N; as_cur : pen; as_styled : bool; as_link : N }.

Definition ansi_cell (t : Terminal) (st : ansi_state) (c : Cell) : ansi_state :=
  if (c_Width c =? 0)%nat then st
  else
    let want := cell_pen c in
    let st := if p_link want =? as_link st then st
              else st{{ as_out := as_out st ++ writeLinkSGR t (p_link want) }}{{ as_link := p_link want }} in
    let st := if bool_decide (styleOnly want = styleOnly (as_cur st)) then st
              else mkAnsi (as_out st ++ sgr_text (styleOnly want)) want (negb (bool_decide (styleOnly want = zeroPen))) (as_link st) in
    st{{ as_out := as_out st ++ Text t c }}.

Definition reset_text : list N := [0x1B] ++ lit "[0m".

Definition appendANSIRow (t : Terminal) (row : list Cell) : list N :=
  let st := foldl (ansi_cell t) (mkAnsi [] zeroPen false 0) (visibleCells row) in
  as_out st ++ (if as_link st =? 0 then [] else writeLinkSGR t 0) ++ (if as_styled st then reset_text else []).

(** [rows] joined with CRLF. *)
Fixpoint join_crlf (rows : list (list N)) : list N :=
  match rows with
  | [] => []
  | [row] => row
  | row :: rows => row ++ [0x0D; 0x0A] ++ join_crlf rows
  end.

Definition ANSI (t : Terminal) : option (list N) :=
  rows ← slice (s_lines (scr t)) 0 (t_rows t); Some (join_crlf (appendANSIRow t <$> rows)).

(** ** Repaint *)

(** [strings.Split] on CRLF. *)
Definition cons_head (b : N) (segs : list (list N)) : list (list N) :=
  match segs with [] => [[b]] | seg :: segs => (b :: seg) :: segs end.
Fixpoint split_crlf (p : list N) : list (list N) :=
  match p with
  | [] => [[]]
  | b :: p =>
      match p with
      | b' :: p' => if (b =? 0x0D) && (b' =? 0x0A) then [] :: split_crlf p' else cons_head b (split_crlf p)
      | [] => cons_head b (split_crlf p)
      end
  end.

Definition esc (s : string) : list N := [0x1B] ++ lit s.

(** [ESC [ row ; col H], 1-based. *)
Definition cup (row col : N) : list N := [0x1B; 0x5B] ++ Itoa row ++ [0x3B] ++ Itoa col ++ [0x48].

(** One turn of the loop over the rows. *)
Definition paint_row (body : list (list N)) (y : nat) : list N :=
  cup (N.of_nat y + 1) 1 ++ reset_text ++ esc "[K" ++ default [] (body !! y).

Definition repaint_head (t : Terminal) : list N :=
  (if t_altActive t then esc "[?1049l" else [])
  ++ (if t_cursorVis t then esc "[?25h" else esc "[?25l")
  ++ (if t_altActive t then esc "[?1049h" else esc "[?1049l")
  ++ esc "[r" ++ esc "[?6l" ++ esc "[?7l".

Definition repaint_tail (t : Terminal) : list N :=
  reset_text ++ esc "[?7h"
  ++ (if bool_decide (t_title t = []) then [] else titleOSC (t_title t))
  ++ (if bool_decide (ps_State (t_program t) = []) then [] else programStatusOSC (t_program t))
  ++ cup (Z.to_N (t_y t + 1)) (Z.to_N (t_x t + 1)).

Definition Repaint (t : Terminal) : option (list N) :=
  ansi ← ANSI t;
  Some (repaint_head t ++ (seq 0 (Z.to_nat (t_rows t)) ≫= paint_row (split_crlf ansi)) ++ repaint_tail t).
