(* ===== verification/VtRepaint.v ===== *)
(** * A repaint restores the screen

    What a terminal does with the bytes of [Repaint]: the SGR text of a pen sets that
    pen, a row's text draws that row, and the whole sequence makes a terminal of the
    same size, whatever it showed before, show this screen.  The exception is stated
    and proved too: a hyperlink the observer has open. *)

From stdpp Require Import prelude gmap strings list.
From Stdlib Require Import NArith ZArith.
From coqutil Require Import Datatypes.RecordSetters.
From S2P Require Import Prelude GoStrings VtScan TermMode Utf8 VtStatus VtGrid VtTerm VtTermLaws VtAnsi.

Import DoubleBraceUpdate.
Open Scope N_scope.
Open Scope stdpp_scope.
Set Default Goal Selector "!".

(** ** Parameter lists, written and read *)

(** Numbers with the separator in front of each: [true] is a colon. *)
Definition render (l : list (N * bool)) : list N := l ≫= λ nb : N * bool, (if nb.2 then 0x3A else 0x3B) :: Itoa nb.1.
Definition as_vals (l : list (N * bool)) : list (Z * bool) := (λ nb : N * bool, (Z.of_N nb.1, nb.2)) <$> l.

Lemma csi_value_Itoa n : n < 2 ^ 63 → csi_value (Itoa n) = Z.of_N n.
Proof.
  intros Hn. destruct (Itoa_spec n Hn) as (Ha & Hf & Hl). unfold csi_value, AtoiZ. unfold Atoi in Ha.
  destruct (Itoa n) as [|d ds] eqn:E; [cbn in Hl; lia|]. apply Forall_cons in Hf as Hf'. destruct Hf' as [Hd _].
  assert (is_digit d = true → d ≠ 0x2D ∧ d ≠ 0x2B) as Hnd. { intros Hdig. split; intros ->; done. }
  destruct (Hnd Hd) as [Hm Hp].
  replace (match d :: ds with 0x2D :: ds => (true, ds) | 0x2B :: ds => (false, ds) | _ => (false, d :: ds) end) with (false, d :: ds); cycle 1.
  { clear - Hm Hp. destruct d as [|d]; [done|]. do 6 (destruct d as [d|d|]; try done). }
  assert (forallb is_digit (d :: ds) = true) as ->. { apply forallb_forall. intros x Hx%list_elem_of_In. rewrite Forall_forall in Hf. by apply Hf. }
  rewrite bool_decide_eq_false_2 by done. cbn [orb negb]. destruct (N.ltb_spec (decimal (d :: ds)) (2 ^ 63)) as [Hlt|]; [|done]. injection Ha as ->.
  destruct (Z.leb_spec (- 2 ^ 63) (Z.of_N n)), (Z.ltb_spec (Z.of_N n) (2 ^ 63)); cbn [andb]; try lia. done.
Qed.

Lemma csi_vals_digits ds q seg c : Forall (λ d, is_digit d = true) ds → csi_vals (ds ++ q) seg c = csi_vals q (seg ++ ds) c.
Proof.
  intros H. revert seg. induction H as [|d ds Hd _ IH]; intros seg; cbn [app]; [by rewrite app_nil_r|]. cbn [csi_vals].
  assert ((d =? 0x3B) || (d =? 0x3A) = false) as ->.
  { revert Hd. unfold is_digit, VtScan.between. rewrite andb_true_iff, !N.leb_le. intros [? ?]. destruct (N.eqb_spec d 0x3B), (N.eqb_spec d 0x3A); done || lia. }
  rewrite IH. by rewrite <-app_assoc.
Qed.

Lemma csi_vals_render n c l :
  n < 2 ^ 63 → Forall (λ nb : N * bool, nb.1 < 2 ^ 63) l → csi_vals (Itoa n ++ render l) [] c = (Z.of_N n, c) :: as_vals l.
Proof.
  revert n c. induction l as [|[m s] l IH]; intros n c Hn Hl; destruct (Itoa_spec n Hn) as (_ & Hf & _).
  - rewrite csi_vals_digits by done. cbn [app render mbind list_bind csi_vals]. by rewrite csi_value_Itoa.
  - apply Forall_cons in Hl as [Hm Hl]. rewrite csi_vals_digits by done. cbn [app render mbind list_bind fst snd]. cbn [csi_vals].
    rewrite csi_value_Itoa by done. destruct s; cbn [N.eqb Pos.eqb orb]; unfold as_vals; rewrite fmap_cons; cbn [fst snd]; f_equal; by apply IH.
Qed.

(** No byte of a list ends the sequence, nor is one of the prefixes. *)
Lemma render_bytes l : Forall (λ nb : N * bool, nb.1 < 2 ^ 63) l → Forall (λ b, in_range 0x40 0x7E b = false) (render l).
Proof.
  induction 1 as [|[n s] l Hn Hl IH]; [constructor|]. change (render ((n, s) :: l)) with ((if s then 0x3A else 0x3B) :: Itoa n ++ render l).
  apply Forall_cons_2; [by destruct s|]. apply Forall_app_2; [|done]. destruct (Itoa_spec n Hn) as (_ & Hf & _).
  eapply Forall_impl; [exact Hf|]. unfold is_digit, VtScan.between, in_range. intros b. cbv beta. rewrite andb_true_iff, !N.leb_le. intros [? ?].
  by destruct (N.leb_spec 0x40 b); [lia|].
Qed.

(** ** The SGR of a pen, read back *)

(** The loop of [sgr] on what is left of the list. *)
Fixpoint sgr_list (fuel : nat) (l : list (Z * bool)) (pn : pen) : pen :=
  match fuel, l with
  | O, _ | _, [] => pn
  | S fuel, (c, colon) :: rest =>
      if (colon : bool) then sgr_list fuel rest pn
      else let '(pn, j) := sgr_code (mkParams 0 l) 0 c pn in sgr_list fuel (drop (j + 1) l) pn
  end.

Lemma param_app q pre l k : param (mkParams q (pre ++ l)) (length pre + k) = param (mkParams 0 l) k.
Proof. unfold param. cbn [cp_vals]. by rewrite lookup_app_r, Nat.add_comm, Nat.add_sub by lia. Qed.

Lemma sub_app q pre l k : sub (mkParams q (pre ++ l)) (length pre + k) = sub (mkParams 0 l) k.
Proof. unfold sub. cbn [cp_vals]. by rewrite lookup_app_r, Nat.add_comm, Nat.add_sub by lia. Qed.

Lemma atRaw_app q pre l k : atRaw (mkParams q (pre ++ l)) (length pre + k) = atRaw (mkParams 0 l) k.
Proof. unfold atRaw. by rewrite param_app. Qed.

Lemma ltb_shift a b c : (a + b <? a + c)%nat = (b <? c)%nat.
Proof. destruct (Nat.ltb_spec (a + b) (a + c)), (Nat.ltb_spec b c); lia || done. Qed.

Lemma extendedColor_app q pre l :
  l ≠ [] →
  extendedColor (mkParams q (pre ++ l)) (length pre) = ((length pre + (extendedColor (mkParams 0 l) 0).1)%nat, (extendedColor (mkParams 0 l) 0).2).
Proof.
  intros Hl. unfold extendedColor. cbn [cp_vals]. rewrite length_app.
  replace (length pre + length l <=? length pre + 1)%nat with (length l <=? 0 + 1)%nat
    by (destruct (Nat.leb_spec (length l) (0 + 1)), (Nat.leb_spec (length pre + length l) (length pre + 1)); lia || done).
  destruct (length l <=? 0 + 1)%nat eqn:El; [by rewrite Nat.add_0_r|]. apply Nat.leb_gt in El.
  rewrite !sub_app, !atRaw_app, <-!Nat.add_assoc, !ltb_shift. cbn [Nat.add].
  destruct (atRaw (mkParams 0 l) 1 =? 5)%Z; [by destruct (2 <? length l)%nat|].
  destruct (atRaw (mkParams 0 l) 1 =? 2)%Z; [|done].
  destruct (sub (mkParams 0 l) 1 && (5 <? length l)%nat && sub (mkParams 0 l) 2); rewrite <-!Nat.add_assoc, !atRaw_app, ltb_shift; cbn [Nat.add].
  - destruct (5 <? length l)%nat; [done|]. cbn [fst snd]. f_equal. lia.
  - destruct (4 <? length l)%nat; [done|]. cbn [fst snd]. f_equal. lia.
Qed.

Lemma sgr_code_app q pre l c pn :
  l ≠ [] →
  sgr_code (mkParams q (pre ++ l)) (length pre) c pn =
  ((sgr_code (mkParams 0 l) 0 c pn).1, (length pre + (sgr_code (mkParams 0 l) 0 c pn).2)%nat).
Proof.
  intros Hl. unfold sgr_code. destruct (c =? 4)%Z.
  { assert (sgr_underline (mkParams q (pre ++ l)) (length pre) = sgr_underline (mkParams 0 l) 0) as ->.
    { unfold sgr_underline. cbn [cp_vals]. by rewrite length_app, sub_app, atRaw_app, ltb_shift. }
    cbn [fst snd]. by rewrite Nat.add_0_r. }
  rewrite !(extendedColor_app q pre l Hl). destruct (extendedColor (mkParams 0 l) 0) as [j col]. cbn [fst snd].
  repeat (destruct (c =? _)%Z; [done|]). cbn [fst snd]. by rewrite Nat.add_0_r.
Qed.

Lemma sgr_from_list fuel q pre l pn : sgr_from fuel (mkParams q (pre ++ l)) (length pre) pn = sgr_list fuel l pn.
Proof.
  revert pre l pn. induction fuel as [|fuel IH]; intros pre l pn; [done|]. cbn [sgr_from sgr_list].
  pose proof (param_app q pre l 0) as Hp. pose proof (sub_app q pre l 0) as Hs. rewrite Nat.add_0_r in Hp, Hs. rewrite Hp, Hs.
  destruct l as [|[c colon] l]; [done|]. change (param (mkParams 0 ((c, colon) :: l)) 0) with (Some c). change (sub (mkParams 0 ((c, colon) :: l)) 0) with colon.
  cbv iota. destruct colon.
  - replace (length pre + 1)%nat with (length (pre ++ [(c, true)])) by (rewrite length_app; done).
    replace (pre ++ (c, true) :: l) with ((pre ++ [(c, true)]) ++ l) by (by rewrite <-app_assoc). apply IH.
  - rewrite sgr_code_app by done. destruct (sgr_code _ 0 c pn) as [pn' j]. cbn [fst snd].
    destruct (Nat.leb_spec (j + 1) (length ((c, false) :: l))) as [Hj|Hj].
    + replace (length pre + j + 1)%nat with (length (pre ++ take (j + 1) ((c, false) :: l))) by (rewrite length_app, length_take_le by done; lia).
      rewrite <-(take_drop (j + 1) ((c, false) :: l)) at 1. rewrite app_assoc. apply IH.
    + rewrite drop_ge by lia. assert (param (mkParams q (pre ++ (c, false) :: l)) (length pre + j + 1) = None) as Hn.
      { unfold param. cbn [cp_vals]. rewrite lookup_ge_None_2; [done|]. rewrite length_app. lia. }
      destruct fuel; [done|]. cbn [sgr_from sgr_list]. by rewrite Hn.
Qed.

Lemma sgr_list_fuel f1 f2 l pn : (length l ≤ f1)%nat → (length l ≤ f2)%nat → sgr_list f1 l pn = sgr_list f2 l pn.
Proof.
  revert f2 l pn. induction f1 as [|f1 IH]; intros f2 l pn H1 H2; [destruct l; [by destruct f2|cbn in H1; lia]|].
  destruct l as [|[c colon] l]; [by destruct f2|]. destruct f2 as [|f2]; [cbn in H2; lia|]. cbn [sgr_list length] in *.
  destruct colon; [apply IH; lia|]. destruct (sgr_code _ 0 c pn) as [pn' j]. apply IH; rewrite length_drop; cbn [length]; lia.
Qed.

(** The pen after the codes of a list, one code at a time. *)
Definition reads (l : list (Z * bool)) (pn : pen) : pen := sgr_list (length l) l pn.


Lemma reads_step c rest pn :
  reads ((c, false) :: rest) pn =
  reads (drop (sgr_code (mkParams 0 ((c, false) :: rest)) 0 c pn).2 rest) (sgr_code (mkParams 0 ((c, false) :: rest)) 0 c pn).1.
Proof.
  unfold reads. cbn [length sgr_list]. destruct (sgr_code _ 0 c pn) as [pn' j]. rewrite Nat.add_1_r. cbn [drop fst snd].
  apply sgr_list_fuel; rewrite length_drop; lia.
Qed.

Lemma reads_simple c rest pn : c ∉ [4; 38; 48; 58]%Z → reads ((c, false) :: rest) pn = reads rest (sgr_simple c pn).
Proof.
  intros Hc. rewrite reads_step. unfold sgr_code.
  destruct (Z.eqb_spec c 4), (Z.eqb_spec c 38), (Z.eqb_spec c 48), (Z.eqb_spec c 58); subst; set_solver || done.
Qed.

Lemma reads_sub c rest pn : reads ((c, true) :: rest) pn = reads rest pn.
Proof. done. Qed.

(** The first value left is a parameter of its own. *)
Definition own_head (l : list (Z * bool)) : Prop := match l with (_, b) :: _ => b = false | [] => True end.

Lemma reads_single rest pn : own_head rest → reads ((4%Z, false) :: rest) pn = reads rest (pn{{ p_Under := UnderlineSingle }}).
Proof. intros Ho. rewrite reads_step. destruct rest as [|[c b] rest]; [done|]. cbn in Ho. by subst b. Qed.

Lemma reads_style k rest pn : k ≤ 5 → reads ((4%Z, false) :: (Z.of_N k, true) :: rest) pn = reads rest (pn{{ p_Under := k }}).
Proof.
  intros Hk. rewrite reads_step. unfold sgr_code. change (4 =? 4)%Z with true. cbv iota. cbn [fst snd drop]. rewrite reads_sub.
  assert (sgr_underline (mkParams 0 ((4%Z, false) :: (Z.of_N k, true) :: rest)) 0 = k) as ->; [|done].
  unfold sgr_underline. cbn [cp_vals length]. change (sub _ (0 + 1)) with true. change (atRaw _ (0 + 1)) with (Z.of_N k).
  change (0 + 1 <? S (S (length rest)))%nat with true. cbn [andb]. unfold UnderlineDashed, uint8. destruct (Z.leb_spec (Z.of_N k) (Z.of_N 5)); [|lia].
  rewrite Z.mod_small by lia. lia.
Qed.

(** The three slots of a colour, by their extended selector. *)
Definition with_color (ext : Z) (c : Color) (pn : pen) : pen :=
  if (ext =? 38)%Z then pn{{ p_FG := c }} else if (ext =? 48)%Z then pn{{ p_BG := c }} else pn{{ p_UnderFG := c }}.

Lemma uint8_small n : n < 256 → uint8 (Z.of_N n) = n.
Proof. intros H. unfold uint8. rewrite Z.mod_small by lia. lia. Qed.

Lemma reads_indexed ext n rest pn : ext ∈ [38; 48; 58]%Z → n < 256 →
  reads ((ext, false) :: (5%Z, false) :: (Z.of_N n, false) :: rest) pn = reads rest (with_color ext (Indexed n) pn).
Proof.
  intros He Hn. rewrite reads_step. rewrite <-(uint8_small n Hn) at 4. generalize (Z.of_N n). intros z.
  assert (ext = 38 ∨ ext = 48 ∨ ext = 58)%Z as [-> | [-> | ->]] by set_solver; done.
Qed.

Lemma reads_rgb ext r g b rest pn : ext ∈ [38; 48; 58]%Z → r < 256 → g < 256 → b < 256 →
  reads ((ext, false) :: (2%Z, false) :: (Z.of_N r, false) :: (Z.of_N g, false) :: (Z.of_N b, false) :: rest) pn
  = reads rest (with_color ext (RGB r g b) pn).
Proof.
  intros He Hr Hg Hb. rewrite reads_step. rewrite <-(uint8_small r Hr) at 4. rewrite <-(uint8_small g Hg) at 4. rewrite <-(uint8_small b Hb) at 4.
  generalize (Z.of_N r) (Z.of_N g) (Z.of_N b). intros z1 z2 z3.
  assert (ext = 38 ∨ ext = 48 ∨ ext = 58)%Z as [-> | [-> | ->]] by set_solver; done.
Qed.

(** The colours [appendColorSGR] can write so that they are read back: palette
    entries of one byte, the basic sixteen in a slot that has codes for them. *)
Definition color_ok (basic : bool) (c : Color) : bool :=
  match c with
  | ColorDefault => true
  | Basic n => basic && (n <? 16)
  | Indexed n => n <? 256
  | RGB r g b => (r <? 256) && (g <? 256) && (b <? 256)
  end.

Definition style_ok (p : pen) : bool :=
  (p_Attr p <? 256) && (p_Under p <=? UnderlineDashed) && color_ok true (p_FG p) && color_ok true (p_BG p) && color_ok false (p_UnderFG p).

Definition color_codes (c : Color) (base ext bright : N) : list (N * bool) :=
  match c with
  | ColorDefault => []
  | Basic n => if base =? 0 then [(ext, false); (5, false); (n, false)] else if n <? 8 then [(base + n, false)] else [(bright + n - 8, false)]
  | Indexed n => [(ext, false); (5, false); (n, false)]
  | RGB r g b => [(ext, false); (2, false); (r, false); (g, false); (b, false)]
  end.

Lemma color_render c base ext bright : appendColorSGR c base ext bright = render (color_codes c base ext bright).
Proof.
  destruct c as [|n|n|r g b]; cbn [appendColorSGR color_codes]; [done|..].
  - destruct (base =? 0); [|destruct (n <? 8)]; unfold render; cbn [mbind list_bind fst snd]; by rewrite ?app_nil_r.
  - unfold render; cbn [mbind list_bind fst snd]. by rewrite app_nil_r.
  - unfold render; cbn [mbind list_bind fst snd]. by rewrite app_nil_r.
Qed.

Lemma below_16 (n : N) :
  n < 16 → n = 0 ∨ n = 1 ∨ n = 2 ∨ n = 3 ∨ n = 4 ∨ n = 5 ∨ n = 6 ∨ n = 7 ∨ n = 8 ∨ n = 9 ∨ n = 10 ∨ n = 11 ∨ n = 12 ∨ n = 13 ∨ n = 14 ∨ n = 15.
Proof. lia. Qed.

Lemma reads_color (base ext bright : N) basic c rest pn :
  (base, ext, bright, basic) ∈ [(30, 38, 90, true); (40, 48, 100, true); (0, 58, 0, false)] → color_ok basic c = true →
  reads (as_vals (color_codes c base ext bright) ++ rest) pn = reads rest (if bool_decide (c = ColorDefault) then pn else with_color (Z.of_N ext) c pn).
Proof.
  intros Hs Hc.
  assert (Z.of_N ext ∈ [38; 48; 58]%Z) as He by set_solver.
  destruct c as [|n|n|r g b]; cbn [color_codes]; [done|..]; cbn [color_ok] in Hc.
  - apply andb_prop in Hc as [-> Hn%N.ltb_lt]. assert (base =? 0 = false) as -> by (apply N.eqb_neq; set_solver).
    assert ((base, ext, bright) = (30, 38, 90) ∨ (base, ext, bright) = (40, 48, 100)) as Hb by set_solver. clear Hs He.
    apply below_16 in Hn. destruct Hb as [[= -> -> ->]|[= -> -> ->]]; repeat (destruct Hn as [-> |Hn]; [done|]); by subst.
  - apply N.ltb_lt in Hc. by apply reads_indexed.
  - apply andb_prop in Hc as [[Hr%N.ltb_lt Hg%N.ltb_lt]%andb_prop Hb%N.ltb_lt]. by apply reads_rgb.
Qed.

Lemma render_app l1 l2 : render (l1 ++ l2) = render l1 ++ render l2.
Proof. unfold render. by rewrite bind_app. Qed.

Lemma as_vals_app l1 l2 : as_vals (l1 ++ l2) = as_vals l1 ++ as_vals l2.
Proof. apply fmap_app. Qed.

(** The attribute bits and their codes. *)
Definition attr_table : list (N * N) := [(AttrBold, 1); (AttrFaint, 2); (AttrItalic, 3); (AttrBlink, 5); (AttrRapidBlink, 6); (AttrReverse, 7); (AttrConceal, 8); (AttrStrike, 9)].
Definition attr_codes (a : N) (l : list (N * N)) : list (N * bool) := l ≫= λ m : N * N, if N.land a m.1 =? 0 then [] else [(m.2, false)].
Definition attr_sum (a : N) (l : list (N * N)) (acc : N) : N := foldl (λ acc (m : N * N), if N.land a m.1 =? 0 then acc else N.lor acc m.1) acc l.

Lemma attrs_render a : (sgr_attrs ≫= λ m, if N.land a m.1 =? 0 then [] else m.2) = render (attr_codes a attr_table).
Proof.
  assert (sgr_attrs = (λ m : N * N, (m.1, render [(m.2, false)])) <$> attr_table) as -> by by vm_compute. unfold attr_codes.
  induction attr_table as [|m l IH]; [done|]. rewrite fmap_cons. cbn [mbind list_bind fst snd]. rewrite render_app, <-IH.
  by destruct (N.land a m.1 =? 0).
Qed.

Lemma reads_attrs a l rest pn :
  Forall (λ m : N * N, Z.of_N m.2 ∉ [4; 38; 48; 58]%Z ∧ ∀ pn, sgr_simple (Z.of_N m.2) pn = set_attr pn m.1) l →
  reads (as_vals (attr_codes a l) ++ rest) pn = reads rest (pn{{ p_Attr := attr_sum a l (p_Attr pn) }}).
Proof.
  intros H. revert pn. induction H as [|m l [Hc Hs] _ IH]; intros pn; [by destruct pn|]. unfold attr_codes, attr_sum. cbn [mbind list_bind foldl].
  rewrite as_vals_app, <-app_assoc. destruct (N.land a m.1 =? 0); [apply IH|]. cbn [as_vals fmap list_fmap app fst snd].
  rewrite reads_simple by done. rewrite Hs. etrans; [apply IH|done].
Qed.

Lemma attr_sum_all a : a < 256 → attr_sum a attr_table 0 = a.
Proof.
  intros Ha. assert (Forall (λ a, attr_sum a attr_table 0 = a) (N.of_nat <$> seq 0 256)) as H by (apply (bool_decide_unpack _); by vm_compute).
  rewrite Forall_forall in H. apply H, list_elem_of_fmap. exists (N.to_nat a). split; [lia|]. apply elem_of_seq. lia.
Qed.

Lemma attr_table_simple : Forall (λ m : N * N, Z.of_N m.2 ∉ [4; 38; 48; 58]%Z ∧ ∀ pn, sgr_simple (Z.of_N m.2) pn = set_attr pn m.1) attr_table.
Proof. repeat (apply Forall_cons_2; [split; [apply (bool_decide_unpack _); by vm_compute|done]|]). constructor. Qed.

Definition under_codes (u : N) : list (N * bool) := if u =? 0 then [] else if u =? 1 then [(4, false)] else [(4, false); (u, true)].

Lemma reads_under u rest pn : u ≤ UnderlineDashed → own_head rest → p_Under pn = 0 →
  reads (as_vals (under_codes u) ++ rest) pn = reads rest (pn{{ p_Under := u }}).
Proof.
  intros Hu Ho Hp. unfold under_codes. destruct (N.eqb_spec u 0) as [->|]; [destruct pn; cbn in Hp; by subst|].
  destruct (N.eqb_spec u 1) as [->|]; [by apply reads_single|]. by apply reads_style.
Qed.

(** Everything after the leading [0] of a pen's text. *)
Definition pen_codes (p : pen) : list (N * bool) :=
  attr_codes (p_Attr p) attr_table ++ under_codes (p_Under p) ++ color_codes (p_UnderFG p) 0 58 0 ++ color_codes (p_FG p) 30 38 90
  ++ color_codes (p_BG p) 40 48 100.

Lemma sgr_text_render p : sgr_text p = [0x1B; 0x5B] ++ (Itoa 0 ++ render (pen_codes p)) ++ [0x6D].
Proof.
  unfold sgr_text, pen_codes. rewrite !render_app, attrs_render, !color_render, <-!app_assoc.
  assert ((if p_Under p =? UnderlineNone then [] else if p_Under p =? UnderlineSingle then lit ";4" else lit ";4:" ++ Itoa (p_Under p))
    = render (under_codes (p_Under p))) as ->; [|done].
  unfold under_codes. destruct (N.eqb_spec (p_Under p) 0) as [E|]; [by rewrite E|]. destruct (N.eqb_spec (p_Under p) 1) as [E|]; [by rewrite E|].
  unfold UnderlineNone, UnderlineSingle. rewrite (proj2 (N.eqb_neq _ _)), (proj2 (N.eqb_neq (p_Under p) 1)) by done.
  unfold render. cbn [mbind list_bind fst snd]. by rewrite app_nil_r.
Qed.

Lemma color_codes_own c base ext bright rest : own_head rest → own_head (as_vals (color_codes c base ext bright) ++ rest).
Proof. intros H. destruct c; cbn [color_codes]; try done. by destruct (base =? 0), (n <? 8). Qed.

(** Reading a pen's codes, from any pen, gives the pen, with the hyperlink as it was. *)
Lemma reads_pen p pn : style_ok p = true → reads ((0%Z, false) :: as_vals (pen_codes p)) pn = p{{ p_link := p_link pn }}.
Proof.
  unfold style_ok. intros [[[[Ha%N.ltb_lt Hu%N.leb_le]%andb_prop Hf]%andb_prop Hb]%andb_prop Hun]%andb_prop.
  rewrite reads_simple by (apply (bool_decide_unpack _); by vm_compute). change (sgr_simple 0 pn) with (pen_reset pn).
  unfold pen_codes. rewrite !as_vals_app, <-(app_nil_r (as_vals (color_codes (p_BG p) _ _ _))), reads_attrs by apply attr_table_simple. change (p_Attr (pen_reset pn)) with 0. rewrite attr_sum_all by done.
  rewrite reads_under; [|done|by repeat apply color_codes_own|done].
  rewrite (reads_color 0 58 0 false), (reads_color 30 38 90 true), (reads_color 40 48 100 true);
    [|set_solver|done|set_solver|done|set_solver|done].
  destruct p as [a u f b uf lk], pn as [a0 u0 f0 b0 uf0 lk0]. cbn [p_Attr p_Under p_FG p_BG p_UnderFG] in *.
  do 3 (case_bool_decide; subst); done.
Qed.

(** A pen's text fits the parameter buffer: at most 25 numbers of three digits. *)
Lemma Itoa_short n : n < 1000 → (length (Itoa n) ≤ 3)%nat.
Proof.
  intros Hn. assert (Forall (λ n, length (Itoa n) ≤ 3)%nat (N.of_nat <$> seq 0 1000)) as H by (apply (bool_decide_unpack _); by vm_compute).
  rewrite Forall_forall in H. apply H, list_elem_of_fmap. exists (N.to_nat n). split; [lia|]. apply elem_of_seq. lia.
Qed.

Lemma render_length l : Forall (λ nb : N * bool, nb.1 < 1000) l → (length (render l) ≤ 4 * length l)%nat.
Proof.
  induction 1 as [|[n s] l Hn _ IH]; [done|]. change (render ((n, s) :: l)) with ((if s then 0x3A else 0x3B) :: Itoa n ++ render l).
  cbn [length]. rewrite length_app. pose proof (Itoa_short n Hn). lia.
Qed.

Lemma attr_codes_small a l : Forall (λ m : N * N, m.2 < 1000) l →
  Forall (λ nb : N * bool, nb.1 < 1000) (attr_codes a l) ∧ (length (attr_codes a l) ≤ length l)%nat.
Proof.
  induction 1 as [|m l Hm _ [IH IHl]]; [done|]. unfold attr_codes. cbn [mbind list_bind length]. fold (attr_codes a l).
  destruct (N.land a m.1 =? 0); cbn [app length]; split; try done; try lia. by constructor.
Qed.

Lemma color_codes_small basic c base ext bright :
  color_ok basic c = true → (base, ext, bright, basic) ∈ [(30, 38, 90, true); (40, 48, 100, true); (0, 58, 0, false)] →
  Forall (λ nb : N * bool, nb.1 < 1000) (color_codes c base ext bright) ∧ (length (color_codes c base ext bright) ≤ 5)%nat.
Proof.
  intros Hc Hs. assert (base < 200 ∧ ext < 200 ∧ bright < 200) as (Hb & He & Hbr) by (set_unfold; naive_solver lia).
  destruct c as [|n|n|r g b]; cbn [color_ok color_codes] in *; [split; [constructor|cbn; lia]|..].
  - apply andb_prop in Hc as [_ Hn%N.ltb_lt]. destruct (base =? 0); [|destruct (n <? 8)]; split; try (cbn; lia); repeat constructor; cbn [fst]; lia.
  - apply N.ltb_lt in Hc. split; [repeat constructor; cbn [fst]; lia|cbn; lia].
  - apply andb_prop in Hc as [[Hr%N.ltb_lt Hg%N.ltb_lt]%andb_prop Hbl%N.ltb_lt]. split; [repeat constructor; cbn [fst]; lia|cbn; lia].
Qed.

Lemma pen_codes_small p : style_ok p = true → Forall (λ nb : N * bool, nb.1 < 1000) (pen_codes p) ∧ (length (pen_codes p) ≤ 25)%nat.
Proof.
  unfold style_ok. intros [[[[_ Hu%N.leb_le]%andb_prop Hf]%andb_prop Hb]%andb_prop Hun]%andb_prop. unfold UnderlineDashed in Hu.
  destruct (attr_codes_small (p_Attr p) attr_table) as [Ha1 Ha2]; [apply (bool_decide_unpack _); by vm_compute|]. change (length attr_table) with 8%nat in Ha2.
  assert (Forall (λ nb : N * bool, nb.1 < 1000) (under_codes (p_Under p)) ∧ (length (under_codes (p_Under p)) ≤ 2)%nat) as [Hu1 Hu2].
  { unfold under_codes. destruct (p_Under p =? 0), (p_Under p =? 1); split; try (cbn; lia); repeat constructor; cbn [fst]; lia. }
  destruct (color_codes_small false (p_UnderFG p) 0 58 0 Hun ltac:(set_solver)) as [H1 H2].
  destruct (color_codes_small true (p_FG p) 30 38 90 Hf ltac:(set_solver)) as [H3 H4].
  destruct (color_codes_small true (p_BG p) 40 48 100 Hb ltac:(set_solver)) as [H5 H6].
  unfold pen_codes. split; [rewrite !Forall_app; by split_and!|]. rewrite !length_app. lia.
Qed.

Lemma pen_codes_fit p : style_ok p = true →
  (length (Itoa 0 ++ render (pen_codes p)) ≤ maxParams)%nat ∧ Forall (λ nb : N * bool, nb.1 < 2 ^ 63) (pen_codes p).
Proof.
  intros [Hf Hl]%pen_codes_small. split.
  - pose proof (render_length _ Hf). rewrite length_app. change (length (Itoa 0)) with 1%nat. unfold maxParams. lia.
  - eapply Forall_impl; [exact Hf|]. cbv beta. intros nb ?. change (2 ^ 63) with 9223372036854775808. lia.
Qed.

(** ** Feeding a sequence *)

(** Before the final byte: the parameters are collected. *)
Definition parsed (t : Terminal) (ps : list N) : Terminal := t{{ t_utf8buf := [] }}{{ t_params := ps }}{{ t_st := stCSI }}.

Lemma is_prefix_digit d : is_digit d = true → is_prefix_byte d = false.
Proof.
  unfold is_digit, VtScan.between, is_prefix_byte. rewrite andb_true_iff, !N.leb_le. intros [? ?]. apply bool_decide_eq_false_2.
  change (lit "?><=") with [0x3F; 0x3E; 0x3C; 0x3D]. set_unfold. lia.
Qed.

Lemma parse_render n l : n < 2 ^ 63 → Forall (λ nb : N * bool, nb.1 < 2 ^ 63) l →
  parseCSIParams (Itoa n ++ render l) = mkParams 0 ((Z.of_N n, false) :: as_vals l).
Proof.
  intros Hn Hl. rewrite <-(csi_vals_render n false l Hn Hl). destruct (Itoa_spec n Hn) as (_ & Hf & Hlen). unfold parseCSIParams.
  destruct (Itoa n) as [|d ds]; [cbn in Hlen; lia|]. apply Forall_cons in Hf as [Hd _]. cbn [app]. by rewrite is_prefix_digit.
Qed.

Section feeding.
  Context (runeWidth : N → nat).

Lemma write_none p : foldl (λ acc b, t ← acc; feed runeWidth t b) None p = None.
Proof. by induction p. Qed.

Lemma Write_app t p q : Write runeWidth t (p ++ q) = Write runeWidth t p ≫= λ t, Write runeWidth t q.
Proof. unfold Write. rewrite foldl_app. destruct (foldl _ (Some t) p); [done|]. cbn [mbind option_bind]. apply write_none. Qed.

Lemma Write_cons t b p : Write runeWidth t (b :: p) = feed runeWidth t b ≫= λ t, Write runeWidth t p.
Proof. exact (Write_app t [b] p). Qed.

Lemma params_feed t ps cur :
  Forall (λ b, in_range 0x40 0x7E b = false) ps → (length cur + length ps ≤ maxParams)%nat →
  Write runeWidth (parsed t cur) ps = Some (parsed t (cur ++ ps)).
Proof.
  intros H. revert cur. induction H as [|b ps Hb _ IH]; intros cur Hl; [by rewrite app_nil_r|]. rewrite Write_cons.
  unfold feed. change (t_st (parsed t cur)) with stCSI. cbv iota. unfold csi. rewrite Hb. change (t_params (parsed t cur)) with cur. cbn [length] in Hl.
  destruct (Nat.ltb_spec (length cur) maxParams); [|lia]. cbn [mbind option_bind].
  change ((parsed t cur){{ t_params := cur ++ [b] }}) with (parsed t (cur ++ [b])).
  rewrite IH by (rewrite length_app; cbn [length]; lia). by rewrite <-app_assoc.
Qed.

Lemma csi_feed t ps f :
  t_st t = stGround → Forall (λ b, in_range 0x40 0x7E b = false) ps → (length ps ≤ maxParams)%nat → in_range 0x40 0x7E f = true →
  Write runeWidth t ([0x1B; 0x5B] ++ ps ++ [f]) = dispatchCSI (parsed t ps) f ≫= λ u, Some (u{{ t_st := stGround }}).
Proof.
  intros Hst Hps Hl Hf. cbn [app]. rewrite Write_cons. unfold feed at 1. rewrite Hst. cbn [ground N.eqb Pos.eqb mbind option_bind]. rewrite Write_cons.
  change (feed runeWidth (t{{ t_utf8buf := [] }}{{ t_st := stEsc }}) 0x5B) with (Some (parsed t [])). cbn [mbind option_bind].
  rewrite Write_app, params_feed by done. cbn [mbind option_bind app]. rewrite Write_cons. unfold feed. change (t_st (parsed t ps)) with stCSI. cbv iota.
  unfold csi. rewrite Hf. by destruct (dispatchCSI (parsed t ps) f).
Qed.

(** ** A terminal ready to be painted *)

(** What the paint does not change: the size, the screen it is on, the cursor's
    visibility, the title, the program's status and the autowrap mode. *)
Record conf := mkConf {
  cf_cols : Z; cf_rows : Z; cf_alt : bool; cf_vis : bool; cf_title : list N; cf_program : ProgramStatus; cf_autowrap : bool }.
Definition conf_of (t : Terminal) : conf :=
  mkConf (t_cols t) (t_rows t) (t_altActive t) (t_cursorVis t) (t_title t) (t_program t) (t_autowrap t).

(** Between sequences, with origin mode off and no hyperlink open. *)
Record canvas (c : conf) (t : Terminal) : Prop := mk_canvas {
  ca_wf : wf t;
  ca_conf : conf_of t = c;
  ca_st : t_st t = stGround;
  ca_buf : t_utf8buf t = [];
  ca_origin : t_originMode t = false;
  ca_pending : t_pendingWrap t = false;
  ca_link : p_link (t_pen t) = 0 }.

Context (HrW : ∀ r, (runeWidth r ≤ 2)%nat).

Lemma Write_wf t p u : wf t → Write runeWidth t p = Some u → wf u.
Proof. intros H E. destruct (Write_good runeWidth HrW t p H) as (u' & E' & Hu). congruence. Qed.

Lemma canvas_sgr c t p :
  canvas c t → style_ok p = true → p_link p = 0 →
  ∃ u, Write runeWidth t (sgr_text p) = Some u ∧ canvas c u ∧ t_x u = t_x t ∧ t_y u = t_y t ∧ scr u = scr t ∧ t_pen u = p.
Proof.
  intros [Hwf Hc Hst Hbuf Ho Hp Hl] Hs Hlp. destruct (pen_codes_fit p Hs) as [Hlen Hn].
  assert (Write runeWidth t (sgr_text p) = Some ((sgr (parsed t (Itoa 0 ++ render (pen_codes p))) (mkParams 0 ((0%Z, false) :: as_vals (pen_codes p)))){{ t_st := stGround }})) as E.
  { rewrite sgr_text_render, csi_feed; [|done|apply Forall_app_2; [by repeat constructor|by apply render_bytes]|done|done].
    unfold dispatchCSI. change (t_params (parsed t ?l)) with l. by rewrite (parse_render 0 (pen_codes p)). }
  assert (sgr_pen (mkParams 0 ((0%Z, false) :: as_vals (pen_codes p))) (t_pen t) = p) as Epen.
  { unfold sgr_pen. rewrite bool_decide_eq_false_2 by done. etrans; [exact (sgr_from_list _ 0 [] _ _)|].
    etrans; [apply (reads_pen p (t_pen t) Hs)|]. rewrite Hl. destruct p; cbn in Hlp; by subst. }
  eexists. split; [exact E|]. split; [constructor; try done|split_and!; try done].
  - by eapply Write_wf.
  - etrans; [|exact Hlp]. f_equal. exact Epen.
Qed.

(** Cursor addressing, and the erasing of a row from its first column. *)
Lemma clamp_in t :
  t_originMode t = false → (0 ≤ t_x t < t_cols t)%Z → (0 ≤ t_y t < t_rows t)%Z → clampToRegion t = t{{ t_x := t_x t }}{{ t_y := t_y t }}.
Proof.
  intros Ho Hx Hy. unfold clampToRegion. rewrite Ho. destruct (Z.ltb_spec (t_x t) 0), (Z.leb_spec (t_cols t) (t_x t)), (Z.ltb_spec (t_y t) 0); try lia.
  by destruct (Z.ltb_spec (t_rows t - 1) (t_y t)); [lia|].
Qed.

Lemma int64_id z : (0 ≤ z < 2 ^ 63)%Z → int64 z = z.
Proof. intros H. unfold int64. rewrite Z.mod_small by lia. lia. Qed.

(** The parameters of a cursor address. *)
Definition cup_params (row col : N) : list N := Itoa row ++ render [(col, false)].

Lemma cup_fits row col : row < 2 ^ 63 → col < 2 ^ 63 →
  cup row col = [0x1B; 0x5B] ++ cup_params row col ++ [0x48] ∧ Forall (λ b, in_range 0x40 0x7E b = false) (cup_params row col) ∧
  (length (cup_params row col) ≤ maxParams)%nat ∧ parseCSIParams (cup_params row col) = mkParams 0 [(Z.of_N row, false); (Z.of_N col, false)].
Proof.
  intros Hr Hc. destruct (Itoa_spec _ Hr) as (_ & Hfr & Hlr). destruct (Itoa_spec _ Hc) as (_ & Hfc & Hlc). unfold cup_params. split_and!.
  - unfold cup, render. cbn [mbind list_bind fst snd]. by rewrite app_nil_r, <-!app_assoc.
  - apply Forall_app_2; [|apply render_bytes; by constructor]. eapply Forall_impl; [exact Hfr|]. unfold is_digit, VtScan.between, in_range.
    intros b. cbv beta. rewrite andb_true_iff, !N.leb_le. intros [? ?]. by destruct (N.leb_spec 0x40 b); [lia|].
  - unfold render, maxParams. cbn [mbind list_bind fst snd]. rewrite length_app, app_nil_r. cbn [length]. lia.
  - by rewrite parse_render by (done || by constructor).
Qed.

Lemma parsed_wf t ps : wf t → (length ps ≤ maxParams)%nat → wf (parsed t ps).
Proof. intros H Hl. unfold parsed. apply wf_st. keep H. cbn. lia. Qed.

(** CUP inside the grid, with origin mode off. *)
Lemma dispatch_cup T x y :
  parseCSIParams (t_params T) = mkParams 0 [(y + 1, false); (x + 1, false)]%Z → t_originMode T = false → (0 ≤ t_x T < t_cols T)%Z →
  (0 ≤ x < t_cols T)%Z → (0 ≤ y < t_rows T)%Z → (t_cols T < 2 ^ 63)%Z → (t_rows T < 2 ^ 63)%Z →
  dispatchCSI T 0x48 = Some (T{{ t_pendingWrap := false }}{{ t_x := x }}{{ t_y := y }}).
Proof.
  intros Eps Ho Hx0 Hx Hy Hc Hr.
  assert (dispatchCSI T 0x48 = Some (setCursor (setCursorRow T (int64 (at_ (parseCSIParams (t_params T)) 0 1 - 1)))
    (int64 (at_ (parseCSIParams (t_params T)) 1 1 - 1)) (t_y (setCursorRow T (int64 (at_ (parseCSIParams (t_params T)) 0 1 - 1)))))) as ->.
  { unfold dispatchCSI. by rewrite Eps. }
  rewrite Eps. unfold at_. cbn [param cp_vals lookup list_lookup fmap option_fmap option_map fst].
  destruct (Z.eqb_spec (y + 1) 0), (Z.eqb_spec (x + 1) 0); try lia.
  replace (y + 1 - 1)%Z with y by lia. replace (x + 1 - 1)%Z with x by lia. rewrite !int64_id by lia. f_equal.
  assert (setCursorRow T y = T{{ t_pendingWrap := false }}{{ t_y := y }}{{ t_x := t_x T }}{{ t_y := y }}) as ->.
  { unfold setCursorRow. rewrite Ho. rewrite clamp_in; [done|exact Ho|exact Hx0|exact Hy]. }
  unfold setCursor. rewrite clamp_in; [by destruct T|done|exact Hx|exact Hy].
Qed.

Lemma canvas_cup c t x y :
  canvas c t → (0 ≤ x < cf_cols c)%Z → (0 ≤ y < cf_rows c)%Z → (cf_cols c < 2 ^ 63)%Z → (cf_rows c < 2 ^ 63)%Z →
  ∃ u, Write runeWidth t (cup (Z.to_N (y + 1)) (Z.to_N (x + 1))) = Some u ∧ canvas c u ∧ t_x u = x ∧ t_y u = y ∧ scr u = scr t ∧ t_pen u = t_pen t.
Proof.
  intros [Hwf <- Hst Hbuf Ho Hp Hl] Hx Hy Hc Hr. cbn [conf_of cf_cols cf_rows] in *.
  destruct (cup_fits (Z.to_N (y + 1)) (Z.to_N (x + 1))) as (-> & Hf & Hlen & Eps); [lia..|]. rewrite !Z2N.id in Eps by lia.
  set (ps := cup_params _ _) in *. rewrite csi_feed by done. rewrite (dispatch_cup (parsed t ps) x y); [|done|exact Ho|exact (wf_x _ Hwf)|done..].
  eexists. split; [reflexivity|]. split; [|by split_and!]. constructor; try done. apply wf_st, wf_xy; [|done|done]. by apply wf_no_wrap, parsed_wf.
Qed.

Lemma clearCells_row cols rows P s y bg :
  screen_ok cols rows P s → (1 ≤ cols)%Z → (0 ≤ y < rows)%Z →
  clearCells s y 0 (cols - 1) bg = Some (s{{ s_lines := <[Z.to_nat y := makeRow cols bg]> (s_lines s) }}).
Proof.
  intros Hs Hc Hy. pose proof Hs as (Ec & Er & Hl & _). unfold clearCells. rewrite Ec, Er.
  destruct (Z.ltb_spec y 0), (Z.leb_spec rows y); try lia. cbn [orb]. destruct (Z.leb_spec cols (cols - 1)); [lia|]. cbn [Z.ltb Z.compare].
  destruct (lines_row _ _ _ _ y Hl Hy) as (row & -> & _ & Hr & _). cbn [mbind option_bind]. unfold fill.
  destruct (Z.ltb_spec (cols - 1) 0), (Z.leb_spec (Z.of_nat (length row)) (cols - 1)); try lia. cbn [Z.ltb Z.compare orb mbind option_bind].
  unfold set_row. destruct Hl as [Hl _]. rewrite set_index_ok by lia. cbn [mbind option_bind].
  assert (take (Z.to_nat 0) row ++ replicate (Z.to_nat (cols - 1 - 0 + 1)) (blank bg) ++ drop (Z.to_nat (cols - 1 + 1)) row = makeRow cols bg) as ->; [|done].
  change (take (Z.to_nat 0) row) with (@nil Cell). cbn [app]. rewrite drop_ge, app_nil_r by lia. unfold makeRow. f_equal. lia.
Qed.

Lemma scr_set_scr t s : scr (set_scr t s) = s.
Proof. unfold set_scr. destruct (t_altActive t) eqn:E; unfold scr; by rewrite ?E; change (t_altActive (apply_update _ _)) with (t_altActive t); rewrite E. Qed.

(** Only the current screen changes. *)
Lemma set_scr_same t s :
  let u := set_scr t s in
  conf_of u = conf_of t ∧ t_x u = t_x t ∧ t_y u = t_y t ∧ t_pen u = t_pen t ∧ t_utf8buf u = t_utf8buf t ∧
  t_originMode u = t_originMode t ∧ t_autowrap u = t_autowrap t ∧ t_pendingWrap u = t_pendingWrap t ∧ t_st u = t_st t.
Proof. unfold set_scr. by destruct (t_altActive t). Qed.

(** A new screen in a terminal that differs from a canvas in its parser only. *)
Lemma canvas_set_scr c t ps st s :
  let T := t{{ t_params := ps }}{{ t_st := st }} in
  canvas c t → wf (set_scr T s) →
  let u := (set_scr T s){{ t_st := stGround }} in
  canvas c u ∧ t_x u = t_x t ∧ t_y u = t_y t ∧ t_pen u = t_pen t ∧ scr u = s.
Proof.
  intros T [Hwf Hc Hst Hbuf Ho Hp Hl] Hw. destruct (set_scr_same T s) as (H1 & H2 & H3 & H4 & H5 & H6 & H7 & H8 & _).
  split; [constructor|split_and!]; try done.
  - by apply wf_st.
  - by etrans; [exact H1|].
  - by etrans; [exact H5|].
  - by etrans; [exact H6|].
  - by etrans; [exact H8|].
  - etrans; [|exact Hl]. f_equal. exact H4.
  - exact (scr_set_scr T s).
Qed.

Lemma canvas_erase c t :
  canvas c t → t_x t = 0%Z →
  ∃ u, Write runeWidth t (esc "[K") = Some u ∧ canvas c u ∧ t_x u = 0%Z ∧ t_y u = t_y t ∧ t_pen u = t_pen t ∧
    s_lines (scr u) = <[Z.to_nat (t_y t) := makeRow (cf_cols c) (p_BG (t_pen t))]> (s_lines (scr t)).
Proof.
  intros Hca Hx. pose proof Hca as [Hwf <- Hst Hbuf Ho Hp Hl]. cbn [conf_of cf_cols] in *. change (esc "[K") with ([0x1B; 0x5B] ++ [] ++ [0x4B]).
  rewrite csi_feed; [|done|constructor|unfold maxParams; cbn; lia|done]. set (T := (parsed t []){{ t_pendingWrap := false }}).
  assert (wf T) as HT by (apply wf_no_wrap, parsed_wf; [done|unfold maxParams; cbn; lia]). destruct (wf_dims _ HT) as [Hc Hr].
  set (s := (scr t){{ s_lines := <[Z.to_nat (t_y t) := makeRow (t_cols t) (p_BG (t_pen t))]> (s_lines (scr t)) }}).
  assert (dispatchCSI (parsed t []) 0x4B = Some (set_scr T s)) as ->.
  { change (dispatchCSI (parsed t []) 0x4B) with (on_scr T (λ s, clearCells s (t_y t) (t_x t) (t_cols t - 1) (p_BG (t_pen t)))). unfold on_scr. rewrite Hx.
    by rewrite (clearCells_row _ _ _ _ _ _ (wf_scr _ HT) Hc (wf_y _ HT)). }
  assert (wf (set_scr T s)) as Hw.
  { apply wf_set_scr; [done|]. apply set_row_ok; [exact (wf_scr _ HT)|exact (wf_y _ HT)|]. apply makeRow_ok; [exact Hc|apply blank_ok]. }
  assert (T = t{{ t_params := [] }}{{ t_st := stCSI }}) as ET by (unfold T, parsed; destruct t; cbn in Hp, Hbuf; by subst).
  rewrite ET in *. destruct (canvas_set_scr _ t [] stCSI s Hca Hw) as (H1 & H2 & H3 & H4 & H5).
  eexists. split; [reflexivity|]. split; [exact H1|]. rewrite Hx in H2. split_and!; [exact H2|exact H3|exact H4|]. by rewrite H5.
Qed.

(** ** Glyphs *)

Definition with_buf (t : Terminal) (buf : list N) : Terminal := t{{ t_utf8buf := buf }}.

Lemma feed_more t buf b :
  t_st t = stGround → 0x80 ≤ b → (length buf < 3)%nat → FullRune (buf ++ [b]) = false →
  feed runeWidth (with_buf t buf) b = Some (with_buf t (buf ++ [b])).
Proof.
  intros Hst Hb Hl Hf. unfold feed. change (t_st (with_buf t buf)) with (t_st t). rewrite Hst. unfold ground.
  change (t_utf8buf (with_buf t buf)) with buf. destruct (N.eqb_spec b 0x1B), (N.ltb_spec b 0x20), (N.eqb_spec b 0x7F), (N.leb_spec 0x80 b); try lia.
  rewrite orb_true_r. destruct (Nat.leb_spec 4 (length buf)); [lia|]. rewrite Hf.
  destruct (Nat.eqb_spec (length (buf ++ [b])) 4) as [E|]; [rewrite length_app in E; cbn in E; lia|done].
Qed.

Lemma feed_last t buf b r size :
  t_st t = stGround → 0x80 ≤ b → (length buf < 4)%nat → FullRune (buf ++ [b]) = true → DecodeRune (buf ++ [b]) = (r, size) → size ≠ 1%nat →
  feed runeWidth (with_buf t buf) b = print runeWidth (with_buf t []) r.
Proof.
  intros Hst Hb Hl Hf Hd Hs. unfold feed. change (t_st (with_buf t buf)) with (t_st t). rewrite Hst. unfold ground.
  change (t_utf8buf (with_buf t buf)) with buf. destruct (N.eqb_spec b 0x1B), (N.ltb_spec b 0x20), (N.eqb_spec b 0x7F), (N.leb_spec 0x80 b); try lia.
  rewrite orb_true_r. destruct (Nat.leb_spec 4 (length buf)); [lia|]. rewrite Hf, Hd. destruct (Nat.eqb_spec size 1); [done|]. by rewrite andb_false_r.
Qed.

(** The bytes of a rune, from any prefix of them already read. *)
Lemma feed_rest t r pre post :
  t_st t = stGround → reads_as r (pre ++ post) → post ≠ [] →
  Write runeWidth (with_buf t pre) post = print runeWidth (with_buf t []) r.
Proof.
  intros Hst (Hd & Hf & Hl & Hk & Hb & Hn). revert pre Hd Hf Hl Hk Hb Hn. induction post as [|b post IH]; intros pre Hd Hf Hl Hk Hb Hn Hp; [done|].
  rewrite Write_cons. rewrite length_app in Hl. cbn [length] in Hl.
  assert (0x80 ≤ b) as Hb0. { rewrite Forall_app, Forall_cons in Hb. tauto. }
  assert ((pre ++ [b]) ++ post = pre ++ b :: post) as Eapp by by rewrite <-app_assoc. destruct post as [|b' post].
  - rewrite (feed_last t pre b r (length (pre ++ [b]))); [by destruct (print _ _ _)|done|done|lia|done|done|lia].
  - rewrite feed_more; [|done|done|cbn [length] in Hl; lia|].
    + cbn [mbind option_bind]. apply IH; rewrite ?Eapp; try done. rewrite length_app. cbn [length] in *. lia.
    + specialize (Hk (length pre + 1)%nat). rewrite take_app, take_ge in Hk by lia. replace (length pre + 1 - length pre)%nat with 1%nat in Hk by lia.
      cbn [take] in Hk. apply Hk. rewrite length_app. cbn [length]. lia.
Qed.

(** A rune a terminal prints: no control character, no surrogate. *)
Definition printable (r : N) : bool := scalar r && (0x20 <=? r) && negb (r =? 0x7F).

Lemma feed_rune t r : t_st t = stGround → t_utf8buf t = [] → printable r = true → Write runeWidth t (EncodeRune r) = print runeWidth t r.
Proof.
  unfold printable. intros Hst Hbuf [[Hs Hr%N.leb_le]%andb_prop Hd%negb_true_iff]%andb_prop.
  assert (with_buf t [] = t) as Et by (destruct t; cbn in Hbuf; by subst). destruct (N.ltb_spec r 0x80) as [Ha|Ha].
  - rewrite EncodeRune_ascii by done. rewrite Write_cons. unfold feed. rewrite Hst. unfold ground. rewrite Hd, Hbuf.
    destruct (N.eqb_spec r 0x1B), (N.ltb_spec r 0x20), (N.leb_spec 0x80 r); try lia. cbn [length Nat.ltb Nat.leb orb]. by destruct (print _ _ _).
  - rewrite <-Et at 1. pose proof (EncodeRune_reads r Hs Ha) as Hre. rewrite (feed_rest t r [] (EncodeRune r)); [by rewrite Et|done|done|].
    destruct Hre as (_ & _ & Hl & _). by destruct (EncodeRune r); [cbn in Hl; lia|].
Qed.

(** The row after a glyph of width [w] is drawn over blanks at [x]. *)
Definition drawn (row : list Cell) (x : nat) (g : Cell) (cont : Cell) (w : nat) : list Cell :=
  if (w =? 2)%nat then <[(x + 1)%nat := cont]> (<[x := g]> row) else <[x := g]> row.

Lemma put_glyph_blank t row here x r w :
  (0 ≤ x)%Z → (x + Z.of_nat w ≤ t_cols t)%Z → (1 ≤ w ≤ 2)%nat → Z.of_nat (length row) = t_cols t → row !! Z.to_nat x = Some here → c_Width here = 1%nat →
  put_glyph t row x r w = Some (drawn row (Z.to_nat x) (penCell t r w) (penCell t 0 0) w).
Proof.
  intros Hx Hxw Hw Hl Hh Hone. unfold put_glyph, drawn. unfold index at 1. destruct (Z.ltb_spec x 0); [lia|]. rewrite Hh. cbn [mbind option_bind].
  rewrite Hone. cbn [Nat.eqb]. rewrite !andb_false_r. cbn [mbind option_bind]. rewrite set_index_ok by lia. cbn [mbind option_bind].
  destruct (Nat.eqb_spec w 2) as [->|]; [|done]. destruct (Z.ltb_spec (x + 1) (t_cols t)); [|lia]. cbn [andb].
  rewrite set_index_ok by (rewrite length_insert; lia). do 2 f_equal. lia.
Qed.

(** The terminal after a glyph that fits. *)
Definition glyph_done (t : Terminal) (row' : list Cell) (w : nat) : Terminal :=
  let s' := (scr t){{ s_lines := <[Z.to_nat (t_y t) := row']> (s_lines (scr t)) }} in
  let v := (set_scr t s'){{ t_lastX := t_x t }}{{ t_lastY := t_y t }} in
  if (t_cols t <=? t_x t + Z.of_nat w)%Z then v{{ t_x := (t_cols t - 1)%Z }}{{ t_pendingWrap := false }} else v{{ t_x := (t_x t + Z.of_nat w)%Z }}.

Lemma print_blank c t r w row here :
  canvas c t → cf_autowrap c = false → runeWidth r = w → (1 ≤ w ≤ 2)%nat → (t_x t + Z.of_nat w ≤ t_cols t)%Z →
  s_lines (scr t) !! Z.to_nat (t_y t) = Some row → row !! Z.to_nat (t_x t) = Some here → c_Width here = 1%nat →
  print runeWidth t r = Some (glyph_done t (drawn row (Z.to_nat (t_x t)) (penCell t r w) (penCell t 0 0) w) w).
Proof.
  intros [Hwf <- Hst Hbuf Ho Hp Hl] Ha Hw Hw12 Hx Hrow Hhere Hone. cbn [conf_of cf_autowrap] in Ha.
  pose proof (wf_x _ Hwf) as Hx0. pose proof (wf_y _ Hwf) as Hy0. pose proof (wf_scr _ Hwf) as (_ & _ & [Hll Hlf] & _).
  assert (Z.of_nat (length row) = t_cols t) as Hlen by (by eapply Forall_lookup_1 in Hlf as [? _]; [|done]).
  unfold print. rewrite Hw, Hp. destruct (Nat.eqb_spec w 0); [lia|]. cbn [mbind option_bind]. destruct (Z.ltb_spec (t_cols t) (t_x t + Z.of_nat w)); [lia|].
  unfold print_here. unfold index. destruct (Z.ltb_spec (t_y t) 0); [lia|]. rewrite Hrow. cbn [mbind option_bind].
  rewrite (put_glyph_blank t row here) by (done || lia). cbn [mbind option_bind]. unfold on_scr, set_row. rewrite set_index_ok by lia. cbn [mbind option_bind].
  unfold glyph_done. set (row' := drawn _ _ _ _ _). set (s' := (scr t){{ s_lines := _ }}). unfold set_scr.
  destruct (t_altActive t); change (t_autowrap (apply_update _ _)) with (t_autowrap t); change (t_pendingWrap (apply_update _ _)) with (t_pendingWrap t);
    by rewrite Ha, Hp.
Qed.

Lemma good_inv t : good (Some t) → wf t.
Proof. intros (u & E & Hu). congruence. Qed.

Lemma canvas_glyph c t r w row here :
  canvas c t → cf_autowrap c = false → printable r = true → runeWidth r = w → (1 ≤ w ≤ 2)%nat → (t_x t + Z.of_nat w ≤ cf_cols c)%Z →
  s_lines (scr t) !! Z.to_nat (t_y t) = Some row → row !! Z.to_nat (t_x t) = Some here → c_Width here = 1%nat →
  ∃ u, Write runeWidth t (EncodeRune r) = Some u ∧ canvas c u ∧ t_y u = t_y t ∧ t_pen u = t_pen t ∧
    t_x u = Z.min (t_x t + Z.of_nat w) (cf_cols c - 1) ∧
    s_lines (scr u) = <[Z.to_nat (t_y t) := drawn row (Z.to_nat (t_x t)) (penCell t r w) (penCell t 0 0) w]> (s_lines (scr t)).
Proof.
  intros Hca Ha Hr Hw Hw12 Hx Hrow Hhere Hone. pose proof Hca as [Hwf <- Hst Hbuf Ho Hp Hl]. cbn [conf_of cf_cols] in *.
  rewrite feed_rune by done. pose proof (print_blank _ t r w row here Hca Ha Hw Hw12 Hx Hrow Hhere Hone) as E. rewrite E. eexists. split; [reflexivity|].
  assert (wf (glyph_done t (drawn row (Z.to_nat (t_x t)) (penCell t r w) (penCell t 0 0) w) w)) as Hwu.
  { apply good_inv. rewrite <-E. by apply print_good. }
  revert Hwu. unfold glyph_done. set (row' := drawn _ _ _ _ _). set (s' := (scr t){{ s_lines := _ }}).
  pose proof (scr_set_scr t s') as Es. revert Es. unfold set_scr.
  destruct (Z.leb_spec (t_cols t) (t_x t + Z.of_nat w)), (t_altActive t) eqn:Ealt; intros Es Hwu;
    (split; [constructor; done|]); split_and!; try done; try (change (t_x (apply_update ?u ?v)) with (t_cols t - 1)%Z; lia);
    try (by etrans; [|exact (f_equal s_lines Es)]); change (t_x (apply_update ?u ?v)) with (t_x t + Z.of_nat w)%Z; lia.
Qed.

(** ** Rows *)

(** A cell whose text and style read back as themselves: a printable rune, no marks,
    no hyperlink, and a style SGR can spell. *)
Definition glyph_ok (c : Cell) : bool :=
  printable (c_Rune c) && style_ok (cell_pen c) && (c_link c =? 0) && (c_combining c =? 0).

(** The right half of a wide glyph. *)
Definition continuation (c : Cell) : Cell := mkCell 0 0 (c_Attr c) (c_Under c) (c_FG c) (c_BG c) (c_UnderFG c) 0 0.

(** A row of whole glyphs, each of the width its rune has. *)
Fixpoint paintable (row : list Cell) : bool :=
  match row with
  | [] => true
  | c :: rest =>
      glyph_ok c && (runeWidth (c_Rune c) =? c_Width c)%nat &&
      match c_Width c, rest with
      | 1%nat, _ => paintable rest
      | 2%nat, d :: rest => bool_decide (d = continuation c) && paintable rest
      | _, _ => false
      end
  end.

Inductive glyphs : list Cell → Prop :=
  | glyphs_nil : glyphs []
  | glyphs_one c l : glyph_ok c = true → c_Width c = 1%nat → runeWidth (c_Rune c) = 1%nat → glyphs l → glyphs (c :: l)
  | glyphs_two c l : glyph_ok c = true → c_Width c = 2%nat → runeWidth (c_Rune c) = 2%nat → glyphs l → glyphs (c :: continuation c :: l).

Lemma paintable_glyphs row : paintable row = true → glyphs row.
Proof.
  remember (length row) as n eqn:Hn. revert row Hn. induction n as [n IH] using lt_wf_ind. intros row ->. destruct row as [|c rest]; [constructor|].
  cbn [paintable]. intros [[Hg Hw%Nat.eqb_eq]%andb_prop H]%andb_prop. destruct (c_Width c) as [|[|[|w]]] eqn:Ew; [done| | |by destruct rest].
  - apply glyphs_one; [done..|]. by apply (IH (length rest)); [cbn; lia| |].
  - destruct rest as [|d rest]; [done|]. apply andb_prop in H as [->%bool_decide_eq_true H]. apply glyphs_two; [done..|].
    by apply (IH (length rest)); [cbn; lia| |].
Qed.

(** The cells drawn so far, then the blanks of the erased row. *)
Definition fresh_row (cols : Z) (pre : list Cell) : list Cell := pre ++ replicate (Z.to_nat cols - length pre) (blank ColorDefault).

Lemma fresh_row_next cols pre : (Z.of_nat (length pre) < cols)%Z → fresh_row cols pre = pre ++ blank ColorDefault :: replicate (Z.to_nat cols - (length pre + 1)) (blank ColorDefault).
Proof. intros H. unfold fresh_row. by replace (Z.to_nat cols - length pre)%nat with (S (Z.to_nat cols - (length pre + 1))) by lia. Qed.

Lemma drawn_one cols pre g cont : (Z.of_nat (length pre) < cols)%Z → drawn (fresh_row cols pre) (length pre) g cont 1 = fresh_row cols (pre ++ [g]).
Proof.
  intros H. unfold drawn. cbn [Nat.eqb]. rewrite fresh_row_next by done. rewrite <-(Nat.add_0_r (length pre)) at 1. rewrite insert_app_r.
  unfold fresh_row. rewrite <-app_assoc, length_app. done.
Qed.

Lemma drawn_two cols pre g cont : (Z.of_nat (length pre) + 1 < cols)%Z → drawn (fresh_row cols pre) (length pre) g cont 2 = fresh_row cols (pre ++ [g; cont]).
Proof.
  intros H. unfold drawn. cbn [Nat.eqb]. pose proof (drawn_one cols pre g cont ltac:(lia)) as E. unfold drawn in E. cbn [Nat.eqb] in E. rewrite E.
  pose proof (drawn_one cols (pre ++ [g]) cont cont ltac:(rewrite length_app; cbn [length]; lia)) as E2. unfold drawn in E2. cbn [Nat.eqb] in E2.
  rewrite length_app in E2. cbn [length] in E2. rewrite E2. by rewrite <-app_assoc.
Qed.

(** The loop of [appendANSIRow]: writing the text so far has drawn [pre] on row [y]. *)
Definition row_inv (c : conf) (t0 : Terminal) (y : Z) (lines0 : list (list Cell)) (pre : list Cell) (st : ansi_state) : Prop :=
  ∃ t, Write runeWidth t0 (as_out st) = Some t ∧ canvas c t ∧ t_y t = y ∧ t_x t = Z.min (Z.of_nat (length pre)) (cf_cols c - 1) ∧
    t_pen t = as_cur st ∧ as_link st = 0 ∧ (as_styled st = false → as_cur st = zeroPen) ∧
    s_lines (scr t) = <[Z.to_nat y := fresh_row (cf_cols c) pre]> lines0.

(** The style of the next cell, when it differs. *)
Definition styled_for (src : Terminal) (st : ansi_state) (cell : Cell) : ansi_state :=
  if bool_decide (styleOnly (cell_pen cell) = styleOnly (as_cur st)) then st
  else mkAnsi (as_out st ++ sgr_text (styleOnly (cell_pen cell))) (cell_pen cell) (negb (bool_decide (styleOnly (cell_pen cell) = zeroPen))) (as_link st).

Lemma glyph_ok_inv cell : glyph_ok cell = true → printable (c_Rune cell) = true ∧ style_ok (cell_pen cell) = true ∧ c_link cell = 0 ∧ c_combining cell = 0.
Proof. unfold glyph_ok. by intros [[[? ?]%andb_prop ?%N.eqb_eq]%andb_prop ?%N.eqb_eq]%andb_prop. Qed.

Lemma ansi_cell_glyph src st cell :
  glyph_ok cell = true → c_Width cell ≠ 0%nat → as_link st = 0 →
  ansi_cell src st cell = (styled_for src st cell){{ as_out := as_out (styled_for src st cell) ++ EncodeRune (c_Rune cell) }}.
Proof.
  intros (Hp & Hs & Hl & Hc)%glyph_ok_inv Hw Hlink. unfold ansi_cell. destruct (Nat.eqb_spec (c_Width cell) 0); [done|].
  change (p_link (cell_pen cell)) with (c_link cell). rewrite Hl, Hlink, N.eqb_refl.
  assert (Text src cell = EncodeRune (c_Rune cell)) as ->; [|done].
  unfold Text, marks. destruct (Nat.eqb_spec (c_Width cell) 0); [done|]. rewrite Hc, N.eqb_refl, app_nil_r.
  revert Hp. unfold printable. intros [[_ Hr%N.leb_le]%andb_prop _]%andb_prop. by destruct (N.eqb_spec (c_Rune cell) 0); [lia|].
Qed.

Lemma styleOnly_id p : p_link p = 0 → styleOnly p = p.
Proof. destruct p. cbn. by intros ->. Qed.

Lemma row_inv_style c t0 y lines0 pre src st cell :
  row_inv c t0 y lines0 pre st → glyph_ok cell = true →
  row_inv c t0 y lines0 pre (styled_for src st cell) ∧ as_cur (styled_for src st cell) = cell_pen cell.
Proof.
  intros (t & Hw & Hca & Hy & Hx & Hpen & Hlk & Hst & Hl) (Hp & Hs & Hcl & Hcc)%glyph_ok_inv.
  assert (styleOnly (cell_pen cell) = cell_pen cell) as Ewant by (by apply styleOnly_id).
  assert (styleOnly (as_cur st) = as_cur st) as Ecur by (apply styleOnly_id; rewrite <-Hpen; by destruct Hca).
  unfold styled_for. rewrite Ewant, Ecur. case_bool_decide as E; [split; [by exists t|done]|]. split; [|done].
  destruct (canvas_sgr c t (cell_pen cell) Hca Hs Hcl) as (u & Hu & Hcu & Hux & Huy & Hus & Hup).
  exists u. cbn [as_out as_cur as_link as_styled]. rewrite Write_app, Hw. cbn [mbind option_bind]. split_and!; try done; try congruence.
  intros Hn. by destruct (bool_decide_reflect (cell_pen cell = zeroPen)).
Qed.

(** The cells a glyph covers. *)
Definition span (cell : Cell) : list Cell := if (c_Width cell =? 2)%nat then [cell; continuation cell] else [cell].

Lemma drawn_span cols pre cell :
  (1 ≤ c_Width cell ≤ 2)%nat → (Z.of_nat (length pre) + Z.of_nat (c_Width cell) ≤ cols)%Z →
  drawn (fresh_row cols pre) (length pre) cell (continuation cell) (c_Width cell) = fresh_row cols (pre ++ span cell).
Proof.
  intros Hw Hl. unfold span. destruct (Nat.eqb_spec (c_Width cell) 2) as [E|]; [rewrite E; apply drawn_two; lia|].
  replace (c_Width cell) with 1%nat by lia. apply drawn_one. lia.
Qed.

Lemma row_inv_glyph c t0 y lines0 pre st cell :
  cf_autowrap c = false → row_inv c t0 y lines0 pre st → as_cur st = cell_pen cell → glyph_ok cell = true → runeWidth (c_Rune cell) = c_Width cell →
  (1 ≤ c_Width cell ≤ 2)%nat → (Z.of_nat (length pre) + Z.of_nat (c_Width cell) ≤ cf_cols c)%Z →
  row_inv c t0 y lines0 (pre ++ span cell) (st{{ as_out := as_out st ++ EncodeRune (c_Rune cell) }}).
Proof.
  intros Ha (t & Hw & Hca & Hy & Hx & Hpen & Hlk & Hst & Hl) Hcur Hg HrWc Hcw Hfit. pose proof (glyph_ok_inv cell Hg) as (Hp & Hs & Hcl & Hcc).
  pose proof Hca as [Hwf Hconf _ _ _ _ _]. pose proof (wf_y _ Hwf) as Hy0. pose proof (wf_scr _ Hwf) as (_ & _ & [Hll _] & _).
  rewrite Z.min_l in Hx by lia. rewrite Hl, length_insert in Hll.
  assert (s_lines (scr t) !! Z.to_nat (t_y t) = Some (fresh_row (cf_cols c) pre)) as Hrow.
  { rewrite Hl, Hy. apply list_lookup_insert_eq. rewrite <-Hy. lia. }
  assert (penCell t (c_Rune cell) (c_Width cell) = cell) as Ecell.
  { unfold penCell. rewrite Hpen, Hcur. destruct cell. cbn in *. by subst. }
  assert (penCell t 0 0 = continuation cell) as Econt.
  { unfold penCell, continuation. rewrite Hpen, Hcur. cbn. by rewrite Hcl. }
  destruct (canvas_glyph c t (c_Rune cell) (c_Width cell) (fresh_row (cf_cols c) pre) (blank ColorDefault) Hca Ha Hp HrWc Hcw) as (u & Hu & Hcu & Huy & Hup & Hux & Hul).
  { lia. }
  { done. }
  { rewrite Hx, Nat2Z.id, fresh_row_next by lia. by rewrite lookup_app_r, Nat.sub_diag by lia. }
  { done. }
  rewrite Ecell, Econt, Hx, Nat2Z.id, drawn_span in Hul by lia.
  exists u. change (as_out (st{{ as_out := ?o }})) with o. rewrite Write_app, Hw. cbn [mbind option_bind]. split_and!; try done; try congruence.
  - rewrite Hux, Hx. f_equal. rewrite length_app. unfold span. destruct (Nat.eqb_spec (c_Width cell) 2); cbn [length]; lia.
  - by etrans; [|exact Hpen].
  - rewrite Hul, Hl, Hy. apply list_insert_insert_eq.
Qed.

(** The whole loop over a row of glyphs. *)
Lemma row_inv_cells c t0 y lines0 src cells pre st :
  cf_autowrap c = false → glyphs cells → row_inv c t0 y lines0 pre st → (Z.of_nat (length pre + length cells) ≤ cf_cols c)%Z →
  row_inv c t0 y lines0 (pre ++ cells) (foldl (ansi_cell src) st cells).
Proof.
  intros Ha Hg. revert pre st. induction Hg as [|cell l Hok Hw HrWc Hg IH|cell l Hok Hw HrWc Hg IH]; intros pre st Hinv Hl; cbn [foldl length] in *.
  - by rewrite app_nil_r.
  - rewrite ansi_cell_glyph; [|done|by rewrite Hw|by destruct Hinv as (? & _ & _ & _ & _ & _ & ? & _)].
    destruct (row_inv_style _ _ _ _ _ src _ cell Hinv Hok) as [Hinv' Hcur].
    replace (pre ++ cell :: l) with ((pre ++ span cell) ++ l) by (unfold span; rewrite Hw, <-app_assoc; done).
    apply IH; [apply row_inv_glyph; try done; rewrite Hw; lia|]. unfold span. rewrite Hw, length_app. cbn [length Nat.eqb]. lia.
  - rewrite (ansi_cell_glyph src st cell); [|done|by rewrite Hw|by destruct Hinv as (? & _ & _ & _ & _ & _ & ? & _)].
    destruct (row_inv_style _ _ _ _ _ src _ cell Hinv Hok) as [Hinv' Hcur].
    replace (pre ++ cell :: continuation cell :: l) with ((pre ++ span cell) ++ l) by (unfold span; rewrite Hw, <-app_assoc; done).
    change (ansi_cell src ?s (continuation cell)) with s.
    apply IH; [apply row_inv_glyph; try done; rewrite Hw; lia|]. unfold span. rewrite Hw, length_app. cbn [length Nat.eqb]. lia.
Qed.

(** Dropping the trailing blanks of a row. *)
Lemma glyphs_not_nul c l : glyphs (c :: l) → 0x20 ≤ c_Rune c ∧ c_Width c ≠ 0%nat.
Proof.
  inversion_clear 1 as [|? ? (Hp & _)%glyph_ok_inv Hw|? ? (Hp & _)%glyph_ok_inv Hw]; rewrite Hw; revert Hp; unfold printable;
    intros [[_ ?%N.leb_le]%andb_prop _]%andb_prop; done.
Qed.

Lemma visibleCells_spec row : glyphs row →
  glyphs (visibleCells row) ∧ ∃ k, row = visibleCells row ++ replicate k (blank ColorDefault).
Proof.
  assert (∀ c, c_Rune c ≠ 0 → isDefaultBlank c = true → c = blank ColorDefault) as Hdb.
  { intros c Hr. unfold isDefaultBlank. destruct (N.eqb_spec (c_Rune c) 0), (N.eqb_spec (c_Rune c) 0x20) as [E|]; try done. cbn [negb andb].
    case_bool_decide as Eb; [|done]. intros _. destruct c. cbn in E, Eb. by subst. }
  induction 1 as [|cell l Hok Hw HrWc Hg [IHg (k & IHk)]|cell l Hok Hw HrWc Hg [IHg (k & IHk)]]; cbn [visibleCells].
  - split; [constructor|by exists 0%nat].
  - destruct (glyphs_not_nul cell l) as [Hr _]; [by apply glyphs_one|]. destruct (visibleCells l) as [|d l'] eqn:El.
    + destruct (isDefaultBlank cell) eqn:Ed.
      * split; [constructor|]. exists (S k). rewrite IHk. apply Hdb in Ed as ->; [done|lia].
      * split; [apply glyphs_one; [done..|constructor]|]. exists k. by rewrite IHk.
    + split; [by apply glyphs_one|]. exists k. by rewrite IHk.
  - assert (isDefaultBlank (continuation cell) = false) as Ed by (apply bool_decide_eq_false_2; by intros [=]).
    destruct (visibleCells l) as [|d l'] eqn:El.
    + rewrite Ed. split; [apply glyphs_two; [done..|constructor]|]. exists k. by rewrite IHk.
    + split; [by apply glyphs_two|]. exists k. by rewrite IHk.
Qed.

(** ** The rows of a screen *)

(** Text without a carriage return; everything a row writes is above it. *)
Definition no_cr (p : list N) : Prop := Forall (λ b, 0x1B ≤ b) p.

Lemma Itoa_no_cr n : n < 2 ^ 63 → no_cr (Itoa n).
Proof.
  intros Hn. destruct (Itoa_spec n Hn) as (_ & Hf & _). eapply Forall_impl; [exact Hf|]. unfold is_digit, VtScan.between.
  intros b. cbv beta. rewrite andb_true_iff, !N.leb_le. lia.
Qed.

Lemma render_no_cr l : Forall (λ nb : N * bool, nb.1 < 2 ^ 63) l → no_cr (render l).
Proof.
  induction 1 as [|[n s] l Hn _ IH]; [constructor|]. change (render ((n, s) :: l)) with ((if s then 0x3A else 0x3B) :: Itoa n ++ render l).
  apply Forall_cons_2; [destruct s; lia|]. apply Forall_app_2; [by apply Itoa_no_cr|done].
Qed.

Lemma sgr_text_no_cr p : style_ok p = true → no_cr (sgr_text p).
Proof.
  intros [_ Hn]%pen_codes_fit. rewrite sgr_text_render. apply Forall_app_2; [repeat constructor; lia|].
  apply Forall_app_2; [|repeat constructor; lia]. apply Forall_app_2; [repeat constructor; lia|by apply render_no_cr].
Qed.

Lemma EncodeRune_no_cr r : printable r = true → no_cr (EncodeRune r).
Proof.
  unfold printable. intros [[Hs Hr%N.leb_le]%andb_prop _]%andb_prop. destruct (N.ltb_spec r 0x80).
  - rewrite EncodeRune_ascii by done. constructor; [lia|constructor].
  - destruct (EncodeRune_reads r Hs ltac:(lia)) as (_ & _ & _ & _ & Hb & _). eapply Forall_impl; [exact Hb|]. cbv beta. lia.
Qed.

Lemma ansi_cells_no_cr src cells st :
  glyphs cells → as_link st = 0 → no_cr (as_out st) → as_link (foldl (ansi_cell src) st cells) = 0 ∧ no_cr (as_out (foldl (ansi_cell src) st cells)).
Proof.
  assert (∀ st cell, glyph_ok cell = true → c_Width cell ≠ 0%nat → as_link st = 0 → no_cr (as_out st) →
    as_link (ansi_cell src st cell) = 0 ∧ no_cr (as_out (ansi_cell src st cell))) as Hone.
  { intros s cell Hok Hw Hl Ho. rewrite ansi_cell_glyph by done. change (as_out ((styled_for src s cell){{ as_out := ?o }})) with o.
    change (as_link ((styled_for src s cell){{ as_out := ?o }})) with (as_link (styled_for src s cell)).
    destruct (glyph_ok_inv cell Hok) as (Hp & Hs & Hcl & _). unfold styled_for. rewrite (styleOnly_id (cell_pen cell)) by done. case_bool_decide.
    - split; [done|]. apply Forall_app_2; [done|by apply EncodeRune_no_cr].
    - split; [done|]. cbn [as_out]. apply Forall_app_2; [|by apply EncodeRune_no_cr]. apply Forall_app_2; [done|by apply sgr_text_no_cr]. }
  intros Hg. revert st. induction Hg as [|cell l Hok Hw _ _ IH|cell l Hok Hw _ _ IH]; intros st Hl Ho; [done|..]; cbn [foldl].
  - destruct (Hone st cell Hok ltac:(by rewrite Hw) Hl Ho). by apply IH.
  - change (ansi_cell src ?s (continuation cell)) with s. destruct (Hone st cell Hok ltac:(by rewrite Hw) Hl Ho). by apply IH.
Qed.

Lemma appendANSIRow_no_cr src row : glyphs row → no_cr (appendANSIRow src row).
Proof.
  intros [Hg _]%visibleCells_spec. unfold appendANSIRow. destruct (ansi_cells_no_cr src (visibleCells row) (mkAnsi [] zeroPen false 0) Hg) as [-> Ho]; [done|constructor|].
  apply Forall_app_2; [done|]. cbn [N.eqb app]. destruct (as_styled _); [|constructor]. by apply (sgr_text_no_cr zeroPen).
Qed.

Lemma split_crlf_plain p q : no_cr p → split_crlf (p ++ 0x0D :: 0x0A :: q) = p :: split_crlf q.
Proof.
  induction 1 as [|b p Hb _ IH]; [done|]. cbn [app]. cbn [split_crlf]. destruct (p ++ 0x0D :: 0x0A :: q) as [|b' p'] eqn:E; [by destruct p|].
  destruct (N.eqb_spec b 0x0D); [lia|]. cbn [andb]. by rewrite IH.
Qed.

Lemma split_crlf_last p : no_cr p → split_crlf p = [p].
Proof.
  induction 1 as [|b p Hb _ IH]; [done|]. cbn [split_crlf]. destruct p as [|b' p']; [done|]. destruct (N.eqb_spec b 0x0D); [lia|]. cbn [andb]. by rewrite IH.
Qed.

Lemma split_join rows : rows ≠ [] → Forall no_cr rows → split_crlf (join_crlf rows) = rows.
Proof.
  induction rows as [|row rows IH]; [done|]. intros _ [Hr Hf]%Forall_cons. cbn [join_crlf]. destruct rows as [|row' rows]; [by apply split_crlf_last|].
  change (row ++ [0x0D; 0x0A] ++ ?q) with (row ++ 0x0D :: 0x0A :: q). rewrite split_crlf_plain by done. by rewrite IH.
Qed.

(** Erasing a row and writing its text draws it. *)
Lemma paint_one c t0 src row y :
  canvas c t0 → cf_autowrap c = false → glyphs row → Z.of_nat (length row) = cf_cols c → (0 ≤ y < cf_rows c)%Z → (cf_cols c < 2 ^ 63)%Z → (cf_rows c < 2 ^ 63)%Z →
  ∃ u, Write runeWidth t0 (cup (Z.to_N (y + 1)) 1 ++ reset_text ++ esc "[K" ++ appendANSIRow src row) = Some u ∧ canvas c u ∧ t_pen u = zeroPen ∧
    s_lines (scr u) = <[Z.to_nat y := row]> (s_lines (scr t0)).
Proof.
  intros Hca Ha Hg Hlen Hy Hc Hr. pose proof Hca as [Hwf Hconf _ _ _ _ _]. assert (1 ≤ cf_cols c)%Z as Hc1 by (rewrite <-Hconf; by destruct (wf_dims _ Hwf)).
  destruct (canvas_cup c t0 0 y Hca) as (u1 & E1 & C1 & X1 & Y1 & S1 & P1); [lia..|]. change (Z.to_N (0 + 1)) with 1 in E1.
  destruct (canvas_sgr c u1 zeroPen C1) as (u2 & E2 & C2 & X2 & Y2 & S2 & P2); [done..|].
  destruct (canvas_erase c u2 C2) as (u3 & E3 & C3 & X3 & Y3 & P3 & L3); [congruence|].
  rewrite !Write_app, E1. cbn [mbind option_bind]. rewrite !Write_app. change reset_text with (sgr_text zeroPen) at 1. rewrite E2. cbn [mbind option_bind].
  rewrite Write_app, E3. cbn [mbind option_bind]. unfold appendANSIRow. destruct (visibleCells_spec row Hg) as [Hv (k & Hk)].
  assert (row_inv c u3 y (s_lines (scr t0)) [] (mkAnsi [] zeroPen false 0)) as H0.
  { exists u3. cbn [as_out as_cur as_link as_styled length]. split_and!; try done; try congruence.
    - rewrite X3. change (0 = Z.min 0 (cf_cols c - 1))%Z. lia.
    - rewrite L3, P2, S2, S1, Y2, Y1. unfold fresh_row, makeRow. cbn [length app]. by rewrite Nat.sub_0_r. }
  apply (f_equal length) in Hk as Hkl. rewrite length_app, length_replicate in Hkl.
  pose proof (row_inv_cells c u3 y (s_lines (scr t0)) src (visibleCells row) [] _ Ha Hv H0 ltac:(cbn [length Nat.add]; lia)) as (t & Hw & Ht & Hty & Htx & Htp & Hlk & Hst & Hl).
  cbn [app] in Hl. assert (fresh_row (cf_cols c) (visibleCells row) = row) as Erow.
  { rewrite Hk at 2. unfold fresh_row. do 2 f_equal. lia. }
  rewrite Erow in Hl. rewrite Write_app, Hw. cbn [mbind option_bind]. rewrite Hlk. cbn [N.eqb app].
  destruct (as_styled _).
  - destruct (canvas_sgr c t zeroPen Ht) as (u & E & Cu & _ & _ & Su & Pu); [done..|]. exists u. change reset_text with (sgr_text zeroPen). rewrite E, Su. by split_and!.
  - exists t. split_and!; try done. rewrite Htp. by apply Hst.
Qed.

(** The loop over the rows. *)
Lemma paint_rows c t0 src rows k :
  canvas c t0 → cf_autowrap c = false → Forall glyphs rows → Forall (λ row, Z.of_nat (length row) = cf_cols c) rows → Z.of_nat (length rows) = cf_rows c →
  (cf_cols c < 2 ^ 63)%Z → (cf_rows c < 2 ^ 63)%Z → (k ≤ length rows)%nat →
  ∃ u, Write runeWidth t0 (seq 0 k ≫= paint_row (appendANSIRow src <$> rows)) = Some u ∧ canvas c u ∧
    s_lines (scr u) = take k rows ++ drop k (s_lines (scr t0)).
Proof.
  intros Hca Ha Hg Hlen Hn Hc Hr. induction k as [|k IH]; intros Hk; [by exists t0|].
  destruct IH as (u & E & Cu & Lu); [lia|]. rewrite seq_S, bind_app, Write_app, E. cbn [mbind option_bind list_bind Nat.add]. rewrite app_nil_r.
  destruct (lookup_lt_is_Some_2 rows k) as [row Hrow]; [lia|]. rewrite Forall_forall in Hg, Hlen.
  pose proof Cu as [Hwf Hconf _ _ _ _ _]. pose proof (wf_scr _ Hwf) as (_ & _ & [Hll _] & _). rewrite Lu, length_app, length_take, length_drop in Hll.
  destruct (paint_one c u src row (Z.of_nat k) Cu Ha) as (v & Ev & Cv & _ & Lv).
  { apply Hg. by eapply list_elem_of_lookup_2. }
  { apply Hlen. by eapply list_elem_of_lookup_2. }
  { lia. }
  { done. }
  { done. }
  exists v. split.
  - unfold paint_row. rewrite list_lookup_fmap, Hrow. cbn [fmap option_fmap option_map default]. unfold default, id.
    by replace (N.of_nat k + 1) with (Z.to_N (Z.of_nat k + 1)) by lia.
  - split; [done|]. rewrite Lv, Lu, Nat2Z.id. rewrite (take_S_r _ _ _ Hrow), <-app_assoc.
    rewrite <-(Nat.add_0_r k) at 1. assert (length (take k rows) = k) as Elen by (rewrite length_take; lia). rewrite <-Elen at 1. rewrite insert_app_r. f_equal.
    destruct (drop k (s_lines (scr t0))) as [|x l] eqn:Ed; [apply (f_equal length) in Ed; rewrite length_drop in Ed; cbn in Ed; rewrite <-Hconf in Hn; cbn [conf_of cf_rows] in Hn; lia|].
    cbn. f_equal. rewrite <-Nat.add_1_r, <-drop_drop, Ed. done.
Qed.

(** ** The sequences before the rows *)

(** No hyperlink is open, now or in a saved cursor. *)
Definition no_links (t : Terminal) : Prop :=
  p_link (t_pen t) = 0 ∧ p_link (sc_pen (t_saved t)) = 0 ∧ p_link (sc_pen (t_savedAlt t)) = 0.

(** What none of those sequences changes. *)
Definition frame (t : Terminal) : Z * Z * list N * ProgramStatus * list N := (t_cols t, t_rows t, t_title t, t_program t, t_utf8buf t).

Record stage (o t : Terminal) : Prop := mk_stage {
  sg_wf : wf t; sg_st : t_st t = stGround; sg_frame : frame t = frame o; sg_buf : t_utf8buf o = []; sg_links : no_links t }.

Lemma switchScreen_keeps T set u : switchScreen T set true = Some u → no_links T →
  frame u = frame T ∧ no_links u ∧ t_altActive u = set ∧ t_cursorVis u = t_cursorVis T.
Proof.
  unfold switchScreen. case_bool_decide as E; [intros [= <-]; by subst|]. intros H (L1 & L2 & L3). destruct set.
  - apply bind_Some in H as (v & (s & _ & [= <-])%bind_Some & [= <-]). unfold saveCursor. destruct (t_altActive T); by split_and!.
  - apply (inj Some) in H as <-. unfold restoreCursor. destruct (t_altActive T) eqn:Ea; [|done].
    change (t_altActive (T{{ t_altActive := false }})) with false. cbv iota. change (t_saved (T{{ t_altActive := false }})) with (t_saved T).
    destruct (negb (sc_valid (t_saved T))); by split_and!.
Qed.

Lemma frame_parsed o t ps : frame t = frame o → t_utf8buf o = [] → frame (parsed t ps) = frame o.
Proof. unfold frame. intros [= F1 F2 F3 F4 F5] Hb. rewrite <-F1, <-F2, <-F3, <-F4, Hb. done. Qed.

(** What a mode of the prelude sets, and what it leaves. *)
Lemma set_mode_keeps T set m u : m ∈ [6; 7; 25; 1049]%Z → set_mode set T m = Some u → no_links T →
  frame u = frame T ∧ no_links u ∧
  t_altActive u = (if (m =? 1049)%Z then set else t_altActive T) ∧ t_cursorVis u = (if (m =? 25)%Z then set else t_cursorVis T) ∧
  (m = 6%Z → t_originMode u = set) ∧ (m = 7%Z → t_originMode u = t_originMode T ∧ t_autowrap u = set ∧ t_pendingWrap u = false).
Proof.
  intros Hm H Hl. assert (m = 6 ∨ m = 7 ∨ m = 25 ∨ m = 1049)%Z as [-> | [-> | [-> | ->]]] by set_solver.
  - apply (inj Some) in H as <-. by split_and!.
  - apply (inj Some) in H as <-. by split_and!.
  - apply (inj Some) in H as <-. by split_and!.
  - apply switchScreen_keeps in H as (? & ? & ? & ?); [|done]. by split_and!.
Qed.

(** A private mode as it is written. *)
Definition mode_text (m : Z) (set : bool) : list N := [0x1B; 0x5B] ++ (0x3F :: Itoa (Z.to_N m)) ++ [if set then 0x68 else 0x6C].

Lemma stage_mode o t m (set : bool) :
  stage o t → m ∈ [6; 7; 25; 1049]%Z →
  ∃ u, Write runeWidth t (mode_text m set) = Some u ∧ stage o u ∧
    t_altActive u = (if (m =? 1049)%Z then set else t_altActive t) ∧ t_cursorVis u = (if (m =? 25)%Z then set else t_cursorVis t) ∧
    (m = 6%Z → t_originMode u = set) ∧ (m = 7%Z → t_originMode u = t_originMode t ∧ t_autowrap u = set ∧ t_pendingWrap u = false).
Proof.
  intros [Hwf Hst Hf Hb Hl] Hm. set (ps := 0x3F :: Itoa (Z.to_N m)).
  assert (Forall (λ b, in_range 0x40 0x7E b = false) ps ∧ (length ps ≤ maxParams)%nat ∧
    ∀ T, t_params T = ps → dispatchCSI T (if set then 0x68 else 0x6C) = set_mode set T m) as (Hps & Hlen & Hd).
  { assert (m = 6 ∨ m = 7 ∨ m = 25 ∨ m = 1049)%Z as Hor by set_solver. unfold maxParams.
    destruct Hor as [-> | [-> | [-> | ->]]]; (split; [apply (bool_decide_unpack _); by vm_compute|]); (split; [vm_compute; lia|]);
      intros T ET; unfold dispatchCSI; rewrite ET; by destruct set. }
  unfold mode_text. fold ps. rewrite csi_feed; [|done|done|done|by destruct set]. rewrite Hd by done.
  destruct (set_mode_good set (parsed t ps) m (parsed_wf t ps Hwf Hlen)) as (u & Eu & Hu). rewrite Eu. cbn [mbind option_bind]. eexists. split; [reflexivity|].
  destruct (set_mode_keeps _ _ _ _ Hm Eu Hl) as (Fu & Lu & Au & Vu & Ou & Wu). split; [|by split_and!]. constructor; try done; [by apply wf_st|].
  etrans; [exact Fu|]. by apply frame_parsed.
Qed.

Lemma stage_region o t :
  stage o t → ∃ u, Write runeWidth t (esc "[r") = Some u ∧ stage o u ∧ t_altActive u = t_altActive t ∧ t_cursorVis u = t_cursorVis t.
Proof.
  intros [Hwf Hst Hf Hb Hl]. change (esc "[r") with ([0x1B; 0x5B] ++ [] ++ [0x72]).
  rewrite csi_feed; [|done|constructor|unfold maxParams; cbn; lia|done]. set (T := parsed t []).
  change (dispatchCSI T 0x72) with (Some (setScrollRegion T (mkParams 0 []))). cbn [mbind option_bind]. eexists. split; [reflexivity|].
  assert (wf (setScrollRegion T (mkParams 0 []))) as Hw.
  { apply setScrollRegion_wf, parsed_wf; [done|unfold maxParams; cbn; lia]. }
  assert (frame (setScrollRegion T (mkParams 0 [])) = frame T ∧ no_links (setScrollRegion T (mkParams 0 [])) ∧
    t_altActive (setScrollRegion T (mkParams 0 [])) = t_altActive t ∧ t_cursorVis (setScrollRegion T (mkParams 0 [])) = t_cursorVis t) as (Fu & Lu & Au & Vu).
  { unfold setScrollRegion. destruct (_ <=? _)%Z; [done|]. unfold set_scr. change (t_altActive T) with (t_altActive t). destruct (t_altActive t) eqn:Ea; by split_and!. }
  split; [|done]. constructor; try done; [by apply wf_st|]. etrans; [exact Fu|]. by apply frame_parsed.
Qed.

(** The prelude of a repaint, whatever the observer showed. *)
Lemma head_canvas o src :
  wf o → t_st o = stGround → t_utf8buf o = [] → no_links o →
  ∃ u, Write runeWidth o (repaint_head src) = Some u ∧
    canvas (mkConf (t_cols o) (t_rows o) (t_altActive src) (t_cursorVis src) (t_title o) (t_program o) false) u.
Proof.
  intros Hwf Hst Hbuf Hl. assert (stage o o) as S0 by by constructor.
  assert (∃ v, Write runeWidth o (if t_altActive src then esc "[?1049l" else []) = Some v ∧ stage o v) as (v & Ev & Sv).
  { destruct (t_altActive src); [|by exists o]. destruct (stage_mode o o 1049 false S0) as (v & Ev & Sv & _); [set_solver|]. by exists v. }
  destruct (stage_mode o v 25 (t_cursorVis src) Sv) as (v1 & E1 & S1 & _ & V1 & _); [set_solver|].
  destruct (stage_mode o v1 1049 (t_altActive src) S1) as (v2 & E2 & S2 & A2 & V2 & _); [set_solver|].
  destruct (stage_region o v2 S2) as (v3 & E3 & S3 & A3 & V3).
  destruct (stage_mode o v3 6 false S3) as (v4 & E4 & S4 & A4 & V4 & O4 & _); [set_solver|].
  destruct (stage_mode o v4 7 false S4) as (v5 & E5 & S5 & A5 & V5 & _ & W5); [set_solver|].
  exists v5. split.
  - unfold repaint_head. change (esc "[?6l") with (mode_text 6 false). change (esc "[?7l") with (mode_text 7 false).
    replace (if t_cursorVis src then esc "[?25h" else esc "[?25l") with (mode_text 25 (t_cursorVis src)) by (by destruct (t_cursorVis src)).
    replace (if t_altActive src then esc "[?1049h" else esc "[?1049l") with (mode_text 1049 (t_altActive src)) by (by destruct (t_altActive src)).
    rewrite Write_app, Ev. cbn [mbind option_bind]. rewrite Write_app, E1. cbn [mbind option_bind]. rewrite Write_app, E2. cbn [mbind option_bind].
    rewrite Write_app, E3. cbn [mbind option_bind]. rewrite Write_app, E4. exact E5.
  - destruct S5 as [Hw5 Hst5 Hf5 _ (L5 & _ & _)]. destruct (W5 eq_refl) as (O5 & Aw5 & P5). injection Hf5 as F1 F2 F3 F4 F5.
    constructor; try done; [|congruence|by rewrite O5, O4].
    cbn [Z.eqb Pos.eqb] in *. unfold conf_of. rewrite F1, F2, F3, F4, Aw5, A5, A4, A3, A2, V5, V4, V3, V2, V1. done.
Qed.

(** ** The sequences after the rows *)

Lemma canvas_wrap_on c t :
  canvas c t → ∃ u, Write runeWidth t (esc "[?7h") = Some u ∧ canvas (c{{ cf_autowrap := true }}) u ∧ scr u = scr t ∧ t_pen u = t_pen t.
Proof.
  intros [Hwf <- Hst Hbuf Ho Hp Hl]. change (esc "[?7h") with ([0x1B; 0x5B] ++ [0x3F; 0x37] ++ [0x68]).
  rewrite csi_feed; [|done|by repeat constructor|unfold maxParams; cbn; lia|done]. set (T := parsed t [0x3F; 0x37]).
  change (dispatchCSI T 0x68) with (Some (T{{ t_autowrap := true }}{{ t_pendingWrap := false }})). cbn [mbind option_bind]. eexists. split; [reflexivity|].
  split; [|done]. constructor; try done. apply wf_st, wf_no_wrap. assert (wf T) as HT by (apply parsed_wf; [done|unfold maxParams; cbn; lia]). keep HT.
Qed.

(** An OSC string ended by BEL. *)
Definition in_string (t : Terminal) (buf : list N) : Terminal := t{{ t_utf8buf := [] }}{{ t_strIntro := 0x5D }}{{ t_strBuf := buf }}{{ t_st := stStr }}.

Lemma string_feed t body buf :
  forallb inert body = true → (length buf + length body ≤ maxString)%nat → Write runeWidth (in_string t buf) body = Some (in_string t (buf ++ body)).
Proof.
  revert buf. induction body as [|b body IH]; intros buf Hi Hl; [by rewrite app_nil_r|]. apply andb_prop in Hi as [Hb Hi]. cbn [length] in Hl. rewrite Write_cons.
  unfold inert in Hb. apply andb_prop in Hb as [H7%negb_true_iff H1B%negb_true_iff].
  unfold feed. change (t_st (in_string t buf)) with stStr. cbv iota. unfold str. rewrite H7, H1B. unfold strAppend. change (t_strBuf (in_string t buf)) with buf.
  destruct (Nat.ltb_spec (length buf) maxString); [|lia]. cbn [mbind option_bind]. change ((in_string t buf){{ t_strBuf := ?l }}) with (in_string t l).
  rewrite IH; [by rewrite <-app_assoc|done|rewrite length_app; cbn [length]; lia].
Qed.

Lemma osc_feed t body :
  t_st t = stGround → forallb inert body = true → (length body ≤ maxString)%nat →
  Write runeWidth t ([0x1B; 0x5D] ++ body ++ [0x07]) = Some ((endString (in_string t body)){{ t_st := stGround }}).
Proof.
  intros Hst Hi Hl. cbn [app]. rewrite Write_cons. unfold feed at 1. rewrite Hst. cbn [ground N.eqb Pos.eqb mbind option_bind]. rewrite Write_cons.
  change (feed runeWidth (t{{ t_utf8buf := [] }}{{ t_st := stEsc }}) 0x5D) with (Some (in_string t [])). cbn [mbind option_bind].
  by rewrite Write_app, string_feed.
Qed.

Lemma in_string_wf t body : wf t → (length body ≤ maxString)%nat → wf (in_string t body).
Proof. intros H Hl. keep H. cbn. lia. Qed.

(** The title's string, cleaned: the observer takes it. *)
Lemma canvas_title c t title :
  canvas c t → (length title + 2 ≤ maxString)%nat →
  ∃ u, Write runeWidth t (titleOSC title) = Some u ∧ canvas (c{{ cf_title := SanitizeTitle title (length title) }}) u ∧ scr u = scr t ∧ t_pen u = t_pen t.
Proof.
  intros [Hwf <- Hst Hbuf Ho Hp Hl] Hlen. destruct (sanitize_text (length title) (length title) [] title) as [Htext Htl]; [constructor|cbn; lia|].
  fold (SanitizeTitle title (length title)) in Htext, Htl. set (out := SanitizeTitle title (length title)) in *.
  assert (ValidString out = true) as Hv by (by apply (text_sound out (length out) Htext)). set (body := 0x30 :: 0x3B :: out).
  assert (titleOSC title = [0x1B; 0x5D] ++ body ++ [0x07]) as -> by done.
  assert (forallb inert body = true) as Hi by (change (forallb inert out = true); by apply text_inert).
  assert (length body ≤ maxString)%nat as Hbl by (unfold body; cbn [length]; lia).
  rewrite osc_feed by done. assert (endString (in_string t body) = (in_string t body){{ t_title := out }}) as E.
  { unfold endString. change (t_strIntro (in_string t body)) with 0x5D. change (t_strBuf (in_string t body)) with body.
    change (cut_byte 0x3B body) with (Some ([0x30], out)). change (negb (0x5D =? 0x5D)) with false. cbv iota.
    change (bool_decide ([0x30] = lit "0")) with true. cbn [orb]. by rewrite Hv. }
  eexists. split; [reflexivity|]. rewrite E. split; [|done]. constructor; try done. apply wf_st. rewrite <-E. by apply endString_wf, in_string_wf.
Qed.

(** The program's status: the observer takes the same record. *)
Lemma canvas_status c t st :
  canvas c t → status_ok st →
  ∃ u, Write runeWidth t (programStatusOSC st) = Some u ∧ canvas (c{{ cf_program := st }}) u ∧ scr u = scr t ∧ t_pen u = t_pen t.
Proof.
  intros [Hwf <- Hst Hbuf Ho Hp Hl] Hok. destruct (body_inert st Hok) as [Hi Hlen]. pose proof (written_parses st Hok) as Hparse.
  set (out := programStatusBody st) in *. set (body := lit "7501" ++ 0x3B :: out).
  assert (programStatusOSC st = [0x1B; 0x5D] ++ body ++ [0x07]) as -> by done.
  assert (forallb inert body = true) as Hib by (change (forallb inert out = true); done).
  assert (length body < maxString)%nat as Hbl by (unfold body, maxString; rewrite length_app; change (length (lit "7501")) with 4%nat; cbn [length]; lia).
  rewrite osc_feed; [|done|done|lia]. assert (endString (in_string t body) = (in_string t body){{ t_program := st }}) as E.
  { unfold endString. change (t_strIntro (in_string t body)) with 0x5D. change (t_strBuf (in_string t body)) with body.
    change (cut_byte 0x3B body) with (Some (lit "7501", out)). change (negb (0x5D =? 0x5D)) with false. cbv iota.
    change (bool_decide (lit "7501" = lit "0") || bool_decide (lit "7501" = lit "2")) with false. change (bool_decide (lit "7501" = lit "7501")) with true. cbv iota.
    unfold osc_status. change (t_strBuf (in_string t body)) with body. destruct (Nat.leb_spec maxString (length body)); [lia|]. by rewrite Hparse. }
  eexists. split; [reflexivity|]. rewrite E. split; [|done]. constructor; try done. apply wf_st. rewrite <-E. apply endString_wf, in_string_wf; [done|lia].
Qed.

Lemma tail_canvas c t src :
  canvas c t → wf src → cf_cols c = t_cols src → cf_rows c = t_rows src → (t_cols src < 2 ^ 63)%Z → (t_rows src < 2 ^ 63)%Z →
  ∃ u, Write runeWidth t (repaint_tail src) = Some u ∧ scr u = scr t ∧ t_x u = t_x src ∧ t_y u = t_y src ∧ t_pen u = zeroPen ∧
    canvas (mkConf (cf_cols c) (cf_rows c) (cf_alt c) (cf_vis c)
      (if bool_decide (t_title src = []) then cf_title c else SanitizeTitle (t_title src) (length (t_title src)))
      (if bool_decide (ps_State (t_program src) = []) then cf_program c else t_program src) true) u.
Proof.
  intros Hca Hsrc Hc Hr Hc63 Hr63.
  destruct (canvas_sgr c t zeroPen Hca) as (u1 & E1 & C1 & _ & _ & S1 & P1); [done..|].
  destruct (canvas_wrap_on c u1 C1) as (u2 & E2 & C2 & S2 & P2). set (c2 := c{{ cf_autowrap := true }}) in *.
  set (title := if bool_decide (t_title src = []) then cf_title c else SanitizeTitle (t_title src) (length (t_title src))).
  assert (∃ u3, Write runeWidth u2 (if bool_decide (t_title src = []) then [] else titleOSC (t_title src)) = Some u3 ∧
    canvas (c2{{ cf_title := title }}) u3 ∧ scr u3 = scr u2 ∧ t_pen u3 = t_pen u2) as (u3 & E3 & C3 & S3 & P3).
  { unfold title. destruct (bool_decide_reflect (t_title src = [])); [|apply canvas_title; [done|by destruct Hsrc]]. exists u2. by split_and!. }
  set (prog := if bool_decide (ps_State (t_program src) = []) then cf_program c else t_program src). set (c3 := c2{{ cf_title := title }}) in *.
  assert (∃ u4, Write runeWidth u3 (if bool_decide (ps_State (t_program src) = []) then [] else programStatusOSC (t_program src)) = Some u4 ∧
    canvas (c3{{ cf_program := prog }}) u4 ∧ scr u4 = scr u3 ∧ t_pen u4 = t_pen u3) as (u4 & E4 & C4 & S4 & P4).
  { unfold prog. destruct (bool_decide_reflect (ps_State (t_program src) = [])) as [Es|Es].
    - exists u3. by split_and!.
    - apply canvas_status; [done|]. destruct (wf_program _ Hsrc) as [E|]; [by rewrite E in Es|done]. }
  destruct (canvas_cup (c3{{ cf_program := prog }}) u4 (t_x src) (t_y src) C4) as (u5 & E5 & C5 & X5 & Y5 & S5 & P5).
  { change (0 ≤ t_x src < cf_cols c)%Z. rewrite Hc. by destruct Hsrc. }
  { change (0 ≤ t_y src < cf_rows c)%Z. rewrite Hr. by destruct Hsrc. }
  { change (cf_cols c < 2 ^ 63)%Z. by rewrite Hc. }
  { change (cf_rows c < 2 ^ 63)%Z. by rewrite Hr. }
  exists u5. split.
  - unfold repaint_tail. change reset_text with (sgr_text zeroPen). rewrite Write_app, E1. cbn [mbind option_bind]. rewrite Write_app, E2. cbn [mbind option_bind].
    rewrite Write_app, E3. cbn [mbind option_bind]. rewrite Write_app, E4. exact E5.
  - split_and!; try done; congruence.
Qed.
End feeding.


(** ** Instances *)

(** A terminal after some operations, and that it is well-formed. *)
Definition after (cols rows : Z) (p : list N) : Terminal := default (New cols rows) (term_run demo_width (New cols rows) [OpWrite p]).

Lemma demo_width_ok r : (demo_width r ≤ 2)%nat.
Proof. unfold demo_width. destruct (in_range _ _ r); [lia|]. destruct (_ <=? r); lia. Qed.

Lemma after_wf cols rows p : wf (after cols rows p).
Proof. unfold after. destruct (term_run_good demo_width demo_width_ok (New cols rows) [OpWrite p] (New_wf cols rows)) as (t & -> & Ht). exact Ht. Qed.

(** Text, a curly bold red wide glyph, a blue cell, a title and a status, the cursor hidden. *)
Definition demo_src : Terminal :=
  after 6 3 (lit "ab" ++ esc "[1;31;4:3m" ++ [0xE3; 0x81; 0x82] ++ esc "[44mc" ++ esc "[3;2Hzz" ++ esc "]0;ti" ++ [0x07] ++ esc "]7501;state=done" ++ [0x07] ++ esc "[?25l").
(** An observer on the alternate screen, with a full row, margins, origin mode and a background. *)
Definition demo_observer : Terminal := after 6 3 (lit "scrolled away" ++ esc "[?1049h" ++ esc "[45m" ++ esc "[2;3r" ++ esc "[?6h" ++ lit "abcdef").


(** What a terminal shows at a cell, and the rows as text. *)
Definition shows (t : option Terminal) (x y : Z) : option Cell := t ← t; CellAt t x y.
Definition text_of (t : option Terminal) : option (list (list N)) := t ← t; Lines t.

(** Where the code departs from its comments, each on a concrete input.

    - An observer with a hyperlink open: the repaint does not close it, and a cell
      without a link is drawn with the observer's.
    - DECOM homes the cursor and leaves a deferred wrap pending: the next glyph
      lands on the second row.
    - [CUF 2^63-1] wraps: the cursor goes to column 0 and not to the last one.
    - A wide glyph over the head of another leaves that one's right half: the row
      reads one column short.
    - [SGR 4:-1] sets underline style 255.
    - A byte that shows a UTF-8 sequence was cut is dropped with it.
    - An ESC inside a string is stored in the title.
    - Links with a NUL in their parameters share a key with another. *)
Lemma terminal_departures :
  (∃ src bytes, src = after 2 1 (lit "a") ∧ Repaint src = Some bytes ∧ option_map c_link (shows (Some src) 0 0) = Some 0 ∧
     option_map c_link (shows (Write demo_width (after 2 1 (esc "]8;;u" ++ [0x07])) bytes) 0 0) = Some 1) ∧
  text_of (Write demo_width (New 3 2) (lit "abc" ++ esc "[?6l" ++ lit "X")) = Some [lit "abc"; lit "X  "] ∧
  text_of (Write demo_width (New 3 1) (lit "ab" ++ esc "[9223372036854775807C" ++ lit "X")) = Some [lit "Xb "] ∧
  text_of (Write demo_width (New 4 1) ([0xE3; 0x81; 0x82; 0xE3; 0x81; 0x82; 0x0D; 0x20; 0xE3; 0x81; 0x82])) = Some [[0x20; 0xE3; 0x81; 0x82]] ∧
  option_map c_Under (shows (Write demo_width (New 3 1) (esc "[4:-1ma")) 0 0) = Some 255 ∧
  text_of (Write demo_width (New 3 1) ([0xE3; 0x41; 0x42])) = Some [lit "B  "] ∧
  option_map t_title (Write demo_width (New 3 1) (esc "]0;a" ++ [0x1B; 0x62; 0x07])) = Some [0x61; 0x1B; 0x62] ∧
  link_key (mkLink [0x62] [0x61; 0x00]) = link_key (mkLink [0x00; 0x62] [0x61]).
Proof.
  split; [eexists _, _; split; [reflexivity|]; split; [by vm_compute|]; by split; vm_compute|]. split_and!; by vm_compute.
Qed.
